(* ===== verification/_CoqProject ===== *)
-Q . S2P
Prelude.v
RustStr.v
RustNum.v
Errors.v
Chrono.v
Glob.v
VersionOrder.v
MavenVersion.v
Pep440.v
Repository.v
CacheClassifier.v
Curation.v
Marshal.v
UpstreamUrl.v
AgeVersions.v
AgeGate.v
AgeGateRuns.v
Upload.v
UploadFacts.v
UploadRuns.v
UploadRaces.v
ClientIp.v
RateLimit.v
RateLimitFacts.v
LoginFacts.v
Catalog.v
ScanPolicy.v
ScanPolicyFacts.v
Quarantine.v
QuarantineFacts.v
AccessDb.v
Auth.v
Permission.v
Tokens.v
AccessSamples.v
PermissionFacts.v
TokenFacts.v
RequestPath.v
RepoGate.v
RepoGateFacts.v
GcDb.v
OciManifest.v
StorageGc.v
Trash.v
StorageGcFacts.v
TrashFacts.v
BlobGc.v
BlobGcFacts.v
SessionDb.v
Sessions.v
SessionSamples.v
SessionFacts.v
SessionClocks.v
SessionRuns.v
Login.v
SessionHandlers.v
SignInFacts.v
Passwords.v
PasswordFacts.v
Leases.v
F64.v
SyncWire.v
SyncWireFacts.v
OciPlan.v
SyncQueue.v
SyncWorker.v
SyncFacts.v
SyncRuns.v
ImageFacts.v
Transfers.v
TransferFacts.v
Mesh.v
MeshFacts.v
