(* ===== verification/Prelude.v ===== *)
(** * Artifact Keeper: a verification development

    Artifact Keeper is a registry server: it stores packages of some forty
    ecosystems, proxies upstream registries, decides who may read and write
    which repository and which versions its users may see, and reclaims the
    storage nothing uses any more.  This library models the decision logic and
    the state machines of the backend and proves what each part promises.  All
    paths in the file headers are relative to [src/backend/src/], those of
    migrations to [src/backend/].

    ** The parts and how they interact

    A request passes these parts, in this order:
    - the address of the client is found behind trusted proxies and counted by
      the rate limiters ([api/middleware/rate_limit.rs]; files [ClientIp],
      [RateLimit]);
    - the authentication middleware reads the credential and the repository key
      off the request ([api/middleware/auth.rs]; file [RequestPath]), resolves
      them to a principal ([Auth], [Tokens]) and gates the format routes
      ([RepoGate]); REST handlers ask the permission service
      ([services/permission_service.rs]; file [Permission]) on the same tables
      ([AccessDb]);
    - a principal comes from a sign-in: the local login with its lockout and
      its second factor hands out an access token and a refresh token, which
      rotate and are revoked together ([services/auth_service.rs],
      [services/totp_policy.rs], [api/handlers/auth.rs],
      [api/handlers/totp.rs]; files [SessionDb], [Sessions], [Login],
      [SessionHandlers]), and a password is changed under a policy and a
      history ([services/password_policy.rs], [api/handlers/users.rs]; file
      [Passwords]);
    - the repository row names a format, a type and a handler
      ([models/repository.rs], [formats/mod.rs]; file [Repository]);
    - for proxied content the cache classifier says whether the path may change
      upstream and for how long a cached body is served
      ([services/cache_classifier.rs]; file [CacheClassifier]), curation rules
      allow, flag or block the package ([services/curation_service.rs]; file
      [Curation]), and the age gate withholds versions younger than the
      repository's threshold and queues them for review
      ([services/age_gate_service.rs]; files [UpstreamUrl], [AgeVersions],
      [AgeGate], [AgeGateRuns]);
    - a download of stored content passes the quarantine and the scan policies
      ([services/quarantine_service.rs], [services/policy_service.rs]; files
      [Catalog], [ScanPolicy], [Quarantine]);
    - the index of the surviving versions is written in the ecosystem's format
      (for npm the packument edited in [AgeVersions]; for RubyGems the Marshal
      indexes of [formats/rubygems.rs], file [Marshal]).
    Content enters by chunked uploads ([services/upload_service.rs]; file
    [Upload]) and by the pushes of the OCI registry, and leaves through the
    trash and the collectors of [services/storage_gc_service.rs] (files [GcDb],
    [OciManifest], [StorageGc], [Trash], [BlobGc]).
    What is published is replicated to peers: publications, deletions and
    policies queue tasks, a worker on every replica claims the due ones, and a
    claimed task sends the artifact in one request, in chunks or, for an image,
    object by object ([services/sync_worker.rs],
    [services/peer_instance_service.rs], [services/artifact_service.rs],
    [services/sync_policy_service.rs]; files [SyncWire], [OciPlan],
    [SyncQueue], [SyncWorker]); the peer that receives it is the one of
    [Upload].  Which peer a task is sent to is decided by the scores of the
    mesh ([services/peer_service.rs]; file [Mesh]); peers also fetch artifacts
    from each other chunk by chunk ([services/transfer_service.rs]; file
    [Transfers]).  Background jobs that may run on one replica only hold a
    lease ([services/cluster_work.rs]; file [Leases]).
    Versions are ordered by [services/version_order.rs] (file [VersionOrder]),
    by [formats/maven_version.rs] (file [MavenVersion]) and, for Python, by
    [formats/pypi.rs] (file [Pep440]); names are matched by [util/glob.rs]
    (file [Glob]).

    ** The files

    - [Prelude]: results with [?], comparators ([Ordering]) and the class
      [TotalPreorder] with instances for every way the code builds a
      comparator (by key, field by field, padded lists, classes), stable
      sorting, [max_by], tests and filters of lists, JSON values, the hint
      database [ordering] and the case tactics.
    - [RustStr], [RustNum], [Errors], [Chrono]: the operations of the standard
      library on strings and machine integers, the error type of the services,
      and the interface to instants and durations.
    - [Glob], [VersionOrder], [MavenVersion], [Pep440], [Repository],
      [CacheClassifier], [Curation], [Marshal], [UpstreamUrl], [AgeVersions],
      [AgeGate]: one component each, with its theorems; [AgeGateRuns]: the
      histories of the age gate.
    - [Upload]: chunked uploads; [UploadFacts]: single operations;
      [UploadRuns]: the statements of concurrent requests as steps of a shared
      world and their invariants; [UploadRaces]: when staged bytes are lost.
    - [ClientIp], [RateLimit]; [RateLimitFacts], [LoginFacts]: what they
      guarantee.
    - [Catalog]: the tables of scan policies and quarantine; [ScanPolicy],
      [Quarantine]; [ScanPolicyFacts], [QuarantineFacts].
    - [AccessDb]: the tables of authorization; [Auth], [Permission], [Tokens],
      [RequestPath], [RepoGate]; [PermissionFacts], [TokenFacts],
      [RepoGateFacts]; [AccessSamples]: shared sample tables.
    - [GcDb]: the tables of the collectors and the location of an object;
      [OciManifest], [StorageGc], [Trash], [BlobGc]; [StorageGcFacts],
      [TrashFacts], [BlobGcFacts].
    - [SessionDb]: accounts, refresh tokens, tickets and the monad of a call
      over them, with its three clocks and the statements that fail;
      [Sessions], [Login], [SessionHandlers], [Passwords]; [SessionFacts]:
      single calls; [SessionClocks]: watermarks and tickets over time;
      [SessionRuns]: rotations and revocations of many replicas as steps;
      [SignInFacts], [PasswordFacts]; [SessionSamples]: a sample session.
    - [Leases]: the table of leases, its statements and the cluster of replicas
      that issue them, with its theorems.
    - [F64]: the doubles of the code, integers scaled by powers of two and
      rounded to 53 bits; [SyncWire]: settings, backoff, windows, ranges,
      headers and URLs;
      [OciPlan]: the order in which the objects of an image are sent;
      [SyncQueue]: the tables of the replication and every statement on them;
      [SyncWorker]: a transfer as a function of the peer's answers, and a tick;
      [SyncWireFacts], [SyncFacts]: single operations; [SyncRuns]: the
      statements of many replicas as steps; [ImageFacts].
    - [Transfers], [TransferFacts]; [Mesh], [MeshFacts].

    Definitions keep the names of the source functions; where one Rust function
    is cut into several definitions (a loop body, a statement, a closure), each
    names its part and sits above the one that composes them.

    ** Modelling conventions

    - A Rust [str] or byte vector is a [string] of bytes; operations that Rust
      defines on [char]s cut it with [chars].  [to_lowercase] acts on ASCII
      letters only; identifiers and paths of the ecosystems are ASCII.
    - Integers are [Z] or [N] with the checks and the wrap-around the code has
      written out ([RustNum]: casts and arithmetic of [i32], [i64] and [u64];
      [Marshal] sign-extends a byte and reads 64-bit values).  Lengths are
      [nat].
    - [Result] is [result] with the source's error variants; the [?] operator is
      [let?].  The Marshal reader, the token handlers and the request gate are
      state-and-error monads over their records; a call of the session service
      is one over the tables and the maps of its process, with transactions.
    - [sort_by] is a stable insertion sort: the standard library promises the
      sorted permutation that keeps equal elements in order, which is unique
      for a lawful comparator, and the comparators used are proved lawful (or,
      for Maven, proved not to be).
    - A SQL table is a list of rows or a finite map by key, a statement one
      function on it.  Handlers that read and later write take the database at
      the read and the database at the write, or are cut into the steps other
      transactions may interleave with.  [NOW()] and generated UUIDs are
      arguments.  A statement that fails is a parameter of the operation.
    - A storage backend is a map of objects (uploads) or the set of objects that
      exist (collectors); its calls may fail, per object.
    - Crates are interfaces, classes or parameters whose laws state documented
      behaviour: [Chrono] (checked time arithmetic), [UuidCrate] and [UuidText]
      (the text of a UUID), [UrlCrates] (the url and sha2 crates), [TokenCodecs]
      (base64, form decoding), [Rattler] (conda version specs), [RuleEngines]
      (the trust and popularity scores), [Postgres] ([inet <<= inet]),
      [Collation] (the order of texts of the database), [ManifestCodec]
      (serde_json on a manifest), [AuthService] (JWT and bcrypt validators of
      the request gate), [JwtCrate], [Bcrypt], [TotpCrate], [PasswordCrate]
      (jsonwebtoken, bcrypt, totp-rs and zxcvbn for the sessions), [RegexCrate]
      (the regular expressions of subscription filters),
      [LOWER] of the database and the texts of serde's errors.  Concrete
      instances for the witnesses show that the laws can hold.
    - Events, metrics, logs and audit rows that nothing reads back are left out.

    ** Fuel and bounds

    [Marshal.long_loop] runs at most eight iterations because an [i64] has
    eight bytes, and [long_roundtrip] proves that four are used for every
    33-bit value; [Marshal.value_at] recurses on the source's own depth limit;
    [RustStr.trim_start_matches] and the UTF-8 splitter recurse on the length
    of their input, which each step shortens.  [Upload.purge_loop] has the
    code's own object budget as fuel.  [StorageGc.walk_pages] has the number of
    candidates plus one: [StorageGcFacts] and [BlobGcFacts] prove it enough,
    also when a scan fails, because every further page follows a full one and
    the cursor advances.  [OciPlan.walk] recurses on the source's own depth
    limit of eight levels.  Everything else is structural.

    ** What the theorems show

    - Age gate: [AgeGate.check_decision] characterises allow, block and error of
      a download, [AgeGate.rejection_survives_requests] that traffic, sweep and
      policy changes keep rejections; in [AgeGateRuns] the operations are steps
      of a shared database under any interleaving, simulated by an abstract
      machine for one review; [run_tables_ok], [decisions_attributed] (every
      named approval, rejection and lock is somebody's newest decision, through
      deletions of users and repositories) and
      [decision_takes_effect] follow.  [AgeVersions], [UpstreamUrl]: packument
      filtering, last known good version, fingerprints.
    - Cache and curation: lifetimes, the paths that may cache forever, the
      refinement of the rule loop by the abstract choice, version constraints.
    - Formats and orders: round trips of the Marshal indexes; the comparators as
      total preorders, with the two failures of [Ord] for Maven versions and the
      agreement of identity and order for Python versions.
    - Uploads: [UploadFacts.upload_roundtrip], [purge_pass_complete];
      [UploadRuns.run_rows_ok] (counters, chunk states and lease under every
      interleaving), [run_completed_published], [lease_exclusive];
      [UploadRaces.quiet_run_objects] and the two races it excludes.
    - Clients and limits: [ClientIp.client_behind_proxies] (which address a
      client is keyed by, however the proxies write the header),
      [RateLimitFacts.limiter_budget] (with recorded attempts and refunds), the
      isolation of logins and the passwords
      no limiter counts ([LoginFacts]).
    - Scan policies and quarantine: [ScanPolicyFacts.evaluate_artifact_verdict]
      (refinement of the verdict by a conjunction of conditions);
      [QuarantineFacts.download_gate_exact], [rejected_is_final],
      [gate_opens_only_by_release] under any interleaving of uploads, scans,
      administrators and removals of rows.
    - Sessions: [SessionFacts.refresh_verdict] (every refresh by what the tables
      say of the token), [failed_refresh_writes_nothing],
      [replay_kills_family]; [SessionRuns.family_has_one_live_token],
      [session_keeps_grant], [issued_token_is_recorded] under every
      interleaving, [refresh_implements_steps] (the calls are those steps) and
      [revocation_misses_rotation] (what a revocation does not stop);
      [SessionClocks.invalidated_token_stays_out], [mint_follows_invalidation],
      [accepted_token_is_current], [ticket_spent_once].
    - Sign-in: [SignInFacts.login_reveals_nothing],
      [login_admits_by_password], [password_session_is_allowed],
      [verified_session_needs_code], [minted_codes_open];
      [PasswordFacts.changed_password_takes_effect],
      [recent_passwords_never_repeat] (with overlapping changes and writes that
      file nothing); with examples of what other replicas do not learn and of
      what crossing changes lose.
    - Access: [PermissionFacts.rules_are_principal_scoped],
      [administered_rules_ok], [cached_answer_age];
      [TokenFacts.minted_chain_bounded] (no chain of mints exceeds its root),
      [token_reach], [minted_expiry_bounded], [ci_refusal_missing];
      [RequestPath.repo_key_as_served] (against the routes the format handlers
      are mounted at), [csrf_contract];
      [RepoGateFacts.gate_admits], [existence_hidden].
    - Collection: [TrashFacts.served_objects_survive] (any sequence of pushes,
      deletes, restores, purges, sweeps and repository deletes - with the Maven
      keys, upload keys and proxy trees these purge -, with any failures, keeps
      an object for every key outside the proxy cache that something serves),
      [repository_delete_accounts]; [StorageGcFacts.pages_are_one_walk] and
      [quiet_sweep_leaves_no_orphan]; [BlobGcFacts.tick_keeps_live_images] and
      [quiet_blob_gc_exact]; and where objects are lost all the same
      ([sweep_takes_revision_objects], [insert_races_reclaim],
      [sweep_takes_blob_under_push]) or never reclaimed
      ([empty_index_closes_gate]).
    - Replication: [SyncRuns.claim_settles_once] (whatever the replicas do, a
      task has one owner and is settled once), [progress_is_claimed],
      [attempts_bounded]; [SyncFacts.claims_are_due],
      [stale_worker_writes_nothing], [refused_session_is_not_counted];
      [ImageFacts.images_arrive_whole]; [SyncWireFacts.replicated_chunks_land]
      (the worker's float arithmetic and the receiver's integers cut a file
      alike, up to the piece count an [i32] holds), [encoded_path_roundtrip], [backoff_bounded];
      [MeshFacts.task_goes_to_best_holder] (which peer a task really reaches);
      [TransferFacts.transfer_completes_exactly]; with examples of what crossing
      pushes and deletes, late reports and repeated openings leave behind.
    - Leases: [Leases.lease_single_holder] and [job_recovers].

    ** Not modelled

    Drivers of databases, object stores, HTTP, scanners and directory services;
    cryptography; generated bindings; the HTTP handlers other than those named
    above, which are glue around the services; listings and reports.  Of the
    modelled parts: the trigger that queues upload orphans on a cascade and the
    sweep of local scratch files; the quarantine of proxied content; the cache
    and the prefix lookup of token validation, with the maps that invalidate
    it; the federated providers, whose sign-in ends in the same mint; the
    requests that run between the delete of a repository's row and its
    background task; the sweeps of abandoned OCI uploads, of the cleanup journal and of row-less
    Maven objects; referrers; the choice of peers and artifacts by a
    replication policy, the discovery of peers, and the failures of statements
    after a finalizer of the worker, which are only logged.  Of the rest, the selections of lifecycle and
    promotion policies, the npm packument cache, routing rules, the Debian and
    RPM version orders and the proxy fetch hold decision logic of their own;
    they are statements, HTTP exchanges and parsers of third-party formats more
    than state machines, and stand outside this development. *)

From stdpp Require Import base list strings gmap relations.
From Stdlib Require Import ZArith Lia.

(** * Results and errors *)

(** Rust's [Result<A, E>]. *)
Inductive result (E A : Type) : Type :=
| Ok (a : A)
| Err (e : E).
Arguments Ok {E A} a.
Arguments Err {E A} e.

Declare Scope result_scope.
Delimit Scope result_scope with res.

(** The [?] operator: the first error is returned, a value is bound. *)
Definition rbind {E A B : Type} (m : result E A) (k : A -> result E B) : result E B :=
  match m with
  | Ok a => k a
  | Err e => Err e
  end.

Notation "'let?' x ':=' m 'in' k" := (rbind m (fun x => k))
  (at level 10, x pattern, m at level 100, k at level 200) : result_scope.

Definition is_ok {E A : Type} (r : result E A) : bool :=
  match r with Ok _ => true | Err _ => false end.

(** [Option::ok_or]. *)
Definition ok_or {E A : Type} (o : option A) (e : E) : result E A :=
  match o with Some a => Ok a | None => Err e end.

Lemma rbind_Ok {E A B} (m : result E A) (k : A -> result E B) b :
  rbind m k = Ok b <-> exists a, m = Ok a /\ k a = Ok b.
Proof. destruct m; simpl; naive_solver. Qed.

(** [Iterator::find_map]. *)
Fixpoint find_map {A B : Type} (f : A -> option B) (l : list A) : option B :=
  match l with
  | [] => None
  | x :: l => match f x with Some b => Some b | None => find_map f l end
  end.

Lemma find_map_Some {A B} (f : A -> option B) l b :
  find_map f l = Some b -> exists x, x ∈ l /\ f x = Some b.
Proof.
  induction l as [|x l IH]; simpl; [done|]. destruct (f x) eqn:E.
  - intros [= <-]. exists x. split; [left|done].
  - intros (y & ? & ?)%IH. exists y. split; [by right|done].
Qed.

(** * Comparators

    A Rust [Ordering] is a [comparison]; [Ordering::then_with] is [then_cmp]
    (its second argument is pure, so laziness is not observable). *)

Definition then_cmp (o1 o2 : comparison) : comparison :=
  match o1 with Eq => o2 | _ => o1 end.

(** The C convention of a comparison as a signed number, which the two version
    comparisons of the services return. *)
Definition ordering_to_i32 (o : comparison) : Z :=
  match o with Lt => (-1)%Z | Gt => 1%Z | Eq => 0%Z end.

Lemma ordering_to_i32_cmp o : Z.compare (ordering_to_i32 o) 0 = o.
Proof. by destruct o. Qed.

(** What [sort_by], [max_by] and the binary searches of the standard library
    require of a comparator: antisymmetric up to [Equal] and transitive. *)
Class TotalPreorder {A : Type} (cmp : A -> A -> comparison) : Prop := {
  tp_sym : forall x y, cmp y x = CompOpp (cmp x y);
  tp_trans : forall x y z, cmp x y <> Gt -> cmp y z <> Gt -> cmp x z <> Gt
}.
Arguments tp_sym {A} cmp {_} x y.
Arguments tp_trans {A} cmp {_} x y z _ _.

(** A total order identifies only equal values. *)
Class TotalOrder {A : Type} (cmp : A -> A -> comparison) : Prop := {
  to_preorder :: TotalPreorder cmp;
  to_eq : forall x y, cmp x y = Eq -> x = y
}.
Arguments to_eq {A} cmp {_} x y _.

Create HintDb ordering discriminated.

Section TotalPreorderFacts.
Context {A : Type} (cmp : A -> A -> comparison) `{!TotalPreorder cmp}.

Lemma tp_refl x : cmp x x = Eq.
Proof. pose proof (tp_sym cmp x x) as H. destruct (cmp x x); simpl in H; congruence. Qed.

Lemma tp_gt_lt x y : cmp x y = Gt <-> cmp y x = Lt.
Proof. rewrite (tp_sym cmp x y). destruct (cmp x y); simpl; split; congruence. Qed.

Lemma tp_eq_comm x y : cmp x y = Eq <-> cmp y x = Eq.
Proof. rewrite (tp_sym cmp x y). destruct (cmp x y); simpl; split; congruence. Qed.

(** Equivalent elements are interchangeable on the left ... *)
Lemma tp_eq_l x y z : cmp x y = Eq -> cmp x z = cmp y z.
Proof.
  intros Hxy. pose proof (proj1 (tp_eq_comm x y) Hxy) as Hyx.
  assert (cmp x z <> Gt <-> cmp y z <> Gt) as Hle
    by (split; intros; eapply tp_trans; eauto; congruence).
  assert (cmp z x <> Gt <-> cmp z y <> Gt) as Hge
    by (split; intros; eapply tp_trans; eauto; congruence).
  rewrite (tp_sym cmp x z), (tp_sym cmp y z) in Hge.
  destruct (cmp x z), (cmp y z); simpl in *; try reflexivity; exfalso; naive_solver.
Qed.

(** ... and on the right. *)
Lemma tp_eq_r x y z : cmp y z = Eq -> cmp x y = cmp x z.
Proof.
  intros H. rewrite (tp_sym cmp y x), (tp_sym cmp z x). f_equal. by apply tp_eq_l.
Qed.

Lemma tp_lt_trans x y z : cmp x y = Lt -> cmp y z = Lt -> cmp x z = Lt.
Proof.
  intros Hxy Hyz. assert (cmp x z <> Gt) by (apply (tp_trans cmp x y z); congruence).
  destruct (cmp x z) eqn:Hxz; try congruence.
  rewrite (tp_eq_l x z y Hxz), (tp_sym cmp y z), Hyz in Hxy. discriminate.
Qed.

Lemma tp_le_lt_trans x y z : cmp x y <> Gt -> cmp y z = Lt -> cmp x z = Lt.
Proof.
  intros Hxy Hyz. destruct (cmp x y) eqn:E; [|by eapply tp_lt_trans|done].
  by rewrite (tp_eq_l x y z E).
Qed.
End TotalPreorderFacts.

(** Comparison by a key, and the [Ord] that [derive] builds field by field. *)
Definition cmp_on {A B : Type} (f : A -> B) (cmp : B -> B -> comparison) (x y : A) : comparison :=
  cmp (f x) (f y).

Definition lex {A : Type} (c1 c2 : A -> A -> comparison) (x y : A) : comparison :=
  then_cmp (c1 x y) (c2 x y).

#[export] Instance cmp_on_preorder {A B} (f : A -> B) cmp `{!TotalPreorder cmp} :
  TotalPreorder (cmp_on f cmp).
Proof.
  split; unfold cmp_on; intros; [apply (tp_sym cmp) | by eapply (tp_trans cmp)].
Qed.

#[export] Instance lex_preorder {A} (c1 c2 : A -> A -> comparison)
  `{!TotalPreorder c1, !TotalPreorder c2} : TotalPreorder (lex c1 c2).
Proof.
  split; unfold lex.
  - intros x y. rewrite (tp_sym c1 x y), (tp_sym c2 x y). by destruct (c1 x y).
  - intros x y z Hxy Hyz.
    destruct (c1 x y) eqn:E1; simpl in Hxy; [| |done].
    + rewrite (tp_eq_l c1 x y z E1). destruct (c1 y z); simpl in *; try done.
      by eapply (tp_trans c2).
    + destruct (c1 y z) eqn:E2; simpl in Hyz; [| |done].
      * by rewrite <- (tp_eq_r c1 x y z E2), E1.
      * by rewrite (tp_lt_trans c1 x y z E1 E2).
Qed.

(** The trivial comparator, the unit of [lex]. *)
Definition cmp_eq {A : Type} (_ _ : A) : comparison := Eq.

#[export] Instance cmp_eq_preorder {A} : TotalPreorder (@cmp_eq A).
Proof. by split. Qed.

(** ** Comparators of the base types *)

#[export] Instance N_compare_order : TotalOrder N.compare.
Proof.
  split; [split|].
  - intros. apply N.compare_antisym.
  - intros x y z. rewrite !N.compare_gt_iff. lia.
  - apply N.compare_eq.
Qed.

#[export] Instance Z_compare_order : TotalOrder Z.compare.
Proof.
  split; [split|].
  - intros. apply Z.compare_antisym.
  - intros x y z. rewrite !Z.compare_gt_iff. lia.
  - apply Z.compare_eq.
Qed.

#[export] Instance nat_compare_order : TotalOrder Nat.compare.
Proof.
  split; [split|].
  - intros. apply Nat.compare_antisym.
  - intros x y z. rewrite !Nat.compare_gt_iff. lia.
  - apply Nat.compare_eq.
Qed.

#[export] Instance ascii_compare_order : TotalOrder Ascii.compare.
Proof.
  split; [split|]; unfold Ascii.compare.
  - intros. apply N.compare_antisym.
  - intros x y z. rewrite !N.compare_gt_iff. lia.
  - intros x y H%N.compare_eq.
    by rewrite <- (Ascii.ascii_N_embedding x), H, Ascii.ascii_N_embedding.
Qed.

(** Byte-lexicographic comparison of strings: Rust's [Ord for str]. *)
#[export] Instance string_compare_order : TotalOrder String.compare.
Proof.
  assert (Hs : forall s t, String.compare s t =
    match s, t with
    | EmptyString, EmptyString => Eq
    | EmptyString, _ => Lt
    | _, EmptyString => Gt
    | String c s', String d t' => then_cmp (Ascii.compare c d) (String.compare s' t')
    end) by (intros [|] [|]; simpl; try done; by destruct (Ascii.compare _ _)).
  split; [split|].
  - intros. apply String.compare_antisym.
  - intros x. induction x as [|a x IH]; intros [|b y] [|c z]; try done.
    rewrite !(Hs (String _ _)). intros H1 H2.
    destruct (Ascii.compare a b) eqn:E1; simpl in H1; [| |done].
    + rewrite (tp_eq_l Ascii.compare a b c E1).
      destruct (Ascii.compare b c); simpl in *; try done. by eapply IH.
    + destruct (Ascii.compare b c) eqn:E2; simpl in H2; [| |done].
      * by rewrite <- (tp_eq_r Ascii.compare a b c E2), E1.
      * by rewrite (tp_lt_trans Ascii.compare a b c E1 E2).
  - intros. by apply String.compare_eq_iff.
Qed.

(** ** Sequences of comparisons: a loop that returns the first difference *)

Fixpoint first_diff (os : list comparison) : comparison :=
  match os with
  | [] => Eq
  | o :: os => then_cmp o (first_diff os)
  end.

Lemma first_diff_app l k : first_diff (l ++ k) = then_cmp (first_diff l) (first_diff k).
Proof. induction l as [|[] l IH]; simpl; auto. Qed.

Lemma first_diff_all_eq l : Forall (fun o => o = Eq) l -> first_diff l = Eq.
Proof. by induction 1 as [|o l -> _ IH]. Qed.

(** A fixed family of preorders, compared index by index over a list of
    indices, is a preorder. *)
#[export] Instance first_diff_preorder {A I} (cmps : I -> A -> A -> comparison) (ix : list I)
  `{!forall i, TotalPreorder (cmps i)} :
  TotalPreorder (fun x y => first_diff ((fun i => cmps i x y) <$> ix)).
Proof.
  induction ix as [|i ix IH]; simpl; [apply cmp_eq_preorder|].
  by apply (lex_preorder (cmps i)).
Qed.

(** The comparison of two sequences position by position, where a missing
    position reads as [d]: [a.get(i).unwrap_or(d)] over
    [0..a.len().max(b.len())]. *)
Definition cmp_padded {A : Type} (cmp : A -> A -> comparison) (d : A) (a b : list A) : comparison :=
  first_diff ((fun i => cmp (nth i a d) (nth i b d)) <$> seq 0 (max (length a) (length b))).

Lemma cmp_padded_upto {A} (cmp : A -> A -> comparison) `{!TotalPreorder cmp} d a b n :
  max (length a) (length b) <= n ->
  cmp_padded cmp d a b = first_diff ((fun i => cmp (nth i a d) (nth i b d)) <$> seq 0 n).
Proof.
  intros Hn. unfold cmp_padded.
  replace n with (max (length a) (length b) + (n - max (length a) (length b))) by lia.
  rewrite seq_app, fmap_app, first_diff_app.
  rewrite (first_diff_all_eq (_ <$> seq (0 + _) _)).
  - by destruct (first_diff _).
  - apply Forall_fmap, Forall_forall. intros i [Hi _]%elem_of_seq. simpl.
    rewrite !nth_overflow by lia. apply tp_refl, _.
Qed.

#[export] Instance cmp_padded_preorder {A} (cmp : A -> A -> comparison) (d : A)
  `{!TotalPreorder cmp} : TotalPreorder (cmp_padded cmp d).
Proof.
  assert (Hn : forall n, TotalPreorder (fun a b : list A =>
    first_diff ((fun i => cmp (nth i a d) (nth i b d)) <$> seq 0 n))).
  { intros n. apply (first_diff_preorder (fun i => cmp_on (fun a => nth i a d) cmp)).
    intros i. apply _. }
  split.
  - intros x y. rewrite !(cmp_padded_upto cmp d _ _ (max (length x) (length y))) by lia.
    apply (@tp_sym _ _ (Hn _)).
  - intros x y z.
    set (n := max (length x) (max (length y) (length z))).
    rewrite !(cmp_padded_upto cmp d _ _ n) by lia.
    apply (@tp_trans _ _ (Hn n)).
Qed.

(** The recursive reading of the index loop. *)
Lemma cmp_padded_nil {A} (cmp : A -> A -> comparison) d : cmp_padded cmp d [] [] = Eq.
Proof. done. Qed.

Lemma cmp_padded_step {A} (cmp : A -> A -> comparison) d a b :
  (a <> [] \/ b <> []) ->
  cmp_padded cmp d a b =
    then_cmp (cmp (nth 0 a d) (nth 0 b d)) (cmp_padded cmp d (tail a) (tail b)).
Proof.
  intros Hne. unfold cmp_padded.
  replace (max (length a) (length b)) with (S (max (length (tail a)) (length (tail b))))
    by (destruct a, b; simpl; destruct Hne; try done; lia).
  simpl. f_equal. rewrite <- seq_shift, <- list_fmap_compose. f_equal.
  apply list_fmap_ext. intros i j _. by destruct a as [|? ?], b as [|? ?]; simpl; try destruct j.
Qed.

(** Trailing padding does not change a sequence. *)
Lemma cmp_padded_ext {A} (cmp : A -> A -> comparison) `{!TotalPreorder cmp} d a a' b b' :
  (forall i, nth i a d = nth i a' d) -> (forall i, nth i b d = nth i b' d) ->
  cmp_padded cmp d a b = cmp_padded cmp d a' b'.
Proof.
  intros Ha Hb.
  set (n := max (max (length a) (length b)) (max (length a') (length b'))).
  rewrite (cmp_padded_upto cmp d a b n), (cmp_padded_upto cmp d a' b' n) by lia.
  f_equal. apply list_fmap_ext. intros i j _. by rewrite Ha, Hb.
Qed.

(** [derive(Ord)] on [Vec<A>]: lexicographic, a proper prefix is smaller. *)
Fixpoint cmp_list {A : Type} (cmp : A -> A -> comparison) (a b : list A) : comparison :=
  match a, b with
  | [], [] => Eq
  | [], _ :: _ => Lt
  | _ :: _, [] => Gt
  | x :: a, y :: b => then_cmp (cmp x y) (cmp_list cmp a b)
  end.

#[export] Instance cmp_list_preorder {A} (cmp : A -> A -> comparison) `{!TotalPreorder cmp} :
  TotalPreorder (cmp_list cmp).
Proof.
  split.
  - intros x. induction x as [|a x IH]; intros [|b y]; simpl; try done.
    rewrite (tp_sym cmp a b), IH. by destruct (cmp a b).
  - intros x. induction x as [|a x IH]; intros [|b y] [|c z]; simpl; try done.
    intros H1 H2. destruct (cmp a b) eqn:E1; simpl in H1; [| |done].
    + rewrite (tp_eq_l cmp a b c E1). destruct (cmp b c); simpl in *; try done. by eapply IH.
    + destruct (cmp b c) eqn:E2; simpl in H2; [| |done].
      * by rewrite <- (tp_eq_r cmp a b c E2), E1.
      * by rewrite (tp_lt_trans cmp a b c E1 E2).
Qed.

#[export] Instance cmp_list_order {A} (cmp : A -> A -> comparison) `{!TotalOrder cmp} :
  TotalOrder (cmp_list cmp).
Proof.
  split; [apply _|]. intros x. induction x as [|a x IH]; intros [|b y]; simpl; try done.
  destruct (cmp a b) eqn:E; simpl; try done. intros H. f_equal; [by apply (to_eq cmp) | by apply IH].
Qed.

(** Two classes of values, the first below the second, each with its own
    comparator. *)
Definition cmp_class {A : Type} (first : A -> bool) (c1 c2 : A -> A -> comparison) (x y : A) : comparison :=
  match first x, first y with
  | true, true => c1 x y
  | true, false => Lt
  | false, true => Gt
  | false, false => c2 x y
  end.

#[export] Instance cmp_class_preorder {A} (first : A -> bool) c1 c2
  `{!TotalPreorder c1, !TotalPreorder c2} : TotalPreorder (cmp_class first c1 c2).
Proof.
  split; unfold cmp_class.
  - intros x y. destruct (first x), (first y); try done; apply tp_sym, _.
  - intros x y z. destruct (first x), (first y), (first z); try done; apply tp_trans, _.
Qed.

(** [Iterator::max_by] keeps the last of the maximal elements. *)
Definition max_by {A : Type} (cmp : A -> A -> comparison) (l : list A) : option A :=
  fold_left (fun acc x =>
    match acc with
    | None => Some x
    | Some m => if decide (cmp m x = Gt) then Some m else Some x
    end) l None.

Lemma max_by_aux {A} (cmp : A -> A -> comparison) `{!TotalPreorder cmp} l m0 :
  exists m, fold_left (fun acc x =>
    match acc with
    | None => Some x
    | Some m => if decide (cmp m x = Gt) then Some m else Some x
    end) l (Some m0) = Some m /\ (m = m0 \/ m ∈ l) /\
    cmp m0 m <> Gt /\ forall x, x ∈ l -> cmp x m <> Gt.
Proof.
  revert m0. induction l as [|a l IH]; intros m0; simpl.
  - exists m0. rewrite (tp_refl cmp). split_and!; auto. by intros x ?%elem_of_nil.
  - destruct (decide (cmp m0 a = Gt)) as [Hgt|Hle].
    + destruct (IH m0) as (m & Hm & Hin & H0 & Hall). exists m. split_and!; auto.
      { set_solver. }
      intros x [->|Hx]%elem_of_cons; [|by apply Hall].
      eapply (tp_trans cmp a m0 m); [by rewrite (tp_sym cmp m0 a), Hgt | done].
    + destruct (IH a) as (m & Hm & Hin & H0 & Hall). exists m. split_and!; auto.
      { set_solver. }
      { by apply (tp_trans cmp m0 a m). }
      intros x [->|Hx]%elem_of_cons; [done|by apply Hall].
Qed.

(** Over a total preorder [max_by] returns a member above every other one. *)
Lemma max_by_spec {A} (cmp : A -> A -> comparison) `{!TotalPreorder cmp} l :
  l <> [] -> exists m, max_by cmp l = Some m /\ m ∈ l /\ forall x, x ∈ l -> cmp x m <> Gt.
Proof.
  destruct l as [|a l]; [done|]. intros _.
  destruct (max_by_aux cmp l a) as (m & Hm & Hin & H0 & Hall).
  exists m. split_and!; [done | set_solver |].
  intros x [->|Hx]%elem_of_cons; auto.
Qed.

Lemma max_by_ext {A} (c1 c2 : A -> A -> comparison) l :
  (forall x y, x ∈ l -> y ∈ l -> c1 x y = c2 x y) -> max_by c1 l = max_by c2 l.
Proof.
  unfold max_by. intros Heq.
  assert (Hgen : forall acc, (forall m, acc = Some m -> m ∈ l) -> forall k, (forall x, x ∈ k -> x ∈ l) ->
    fold_left (fun acc x => match acc with
      | None => Some x | Some m => if decide (c1 m x = Gt) then Some m else Some x end) k acc =
    fold_left (fun acc x => match acc with
      | None => Some x | Some m => if decide (c2 m x = Gt) then Some m else Some x end) k acc).
  { intros acc Hacc k. revert acc Hacc. induction k as [|x k IH]; intros acc Hacc Hk; simpl; [done|].
    assert (Hx : x ∈ l) by (apply Hk; left).
    destruct acc as [m|].
    - rewrite (Heq m x) by auto. apply IH; [|intros; apply Hk; by right].
      intros m'. case_decide; intros [= <-]; auto.
    - apply IH; [naive_solver|intros; apply Hk; by right]. }
  apply Hgen; [done|auto].
Qed.

Lemma max_by_fmap {A B} (f : A -> B) (cmp : B -> B -> comparison) l :
  max_by cmp (f <$> l) = f <$> max_by (cmp_on f cmp) l.
Proof.
  unfold max_by, cmp_on.
  assert (Hgen : forall acc, fold_left (fun acc x => match acc with
      | None => Some x | Some m => if decide (cmp m x = Gt) then Some m else Some x end)
        (f <$> l) (f <$> acc) =
    f <$> fold_left (fun acc x => match acc with
      | None => Some x | Some m => if decide (cmp (f m) (f x) = Gt) then Some m else Some x end)
        l acc); [|apply (Hgen None)].
  induction l as [|x l IH]; intros acc; simpl; [done|].
  rewrite <- IH. f_equal. destruct acc as [m|]; simpl; [|done]. by case_decide.
Qed.

(** ** Sorting

    [slice::sort_by] is stable.  Over a total preorder the stable sorted
    permutation is unique, so any stable algorithm models it; on a comparator
    that is not a total preorder Rust leaves the order unspecified. *)

Fixpoint insert_by {A : Type} (cmp : A -> A -> comparison) (x : A) (l : list A) : list A :=
  match l with
  | [] => [x]
  | y :: l' => match cmp x y with Gt => y :: insert_by cmp x l' | _ => x :: l end
  end.

Definition sort_by {A : Type} (cmp : A -> A -> comparison) (l : list A) : list A :=
  fold_right (insert_by cmp) [] l.

Fixpoint sorted_by {A : Type} (cmp : A -> A -> comparison) (l : list A) : Prop :=
  match l with
  | [] => True
  | x :: l => (forall y, y ∈ l -> cmp x y <> Gt) /\ sorted_by cmp l
  end.

Lemma insert_by_perm {A} (cmp : A -> A -> comparison) x l : insert_by cmp x l ≡ₚ x :: l.
Proof.
  induction l as [|y l IH]; simpl; [done|]. destruct (cmp x y); try done.
  rewrite IH. constructor.
Qed.

Lemma sort_by_perm {A} (cmp : A -> A -> comparison) l : sort_by cmp l ≡ₚ l.
Proof. induction l as [|x l IH]; simpl; [done|]. by rewrite insert_by_perm, IH. Qed.

Lemma sort_by_sorted {A} (cmp : A -> A -> comparison) `{!TotalPreorder cmp} l :
  sorted_by cmp (sort_by cmp l).
Proof.
  induction l as [|x l IH]; simpl; [done|]. revert IH. generalize (sort_by cmp l) as k.
  induction k as [|y k IHk]; simpl; intros Hs.
  - split; [|done]. by intros ? ?%elem_of_nil.
  - destruct Hs as [Hy Hk]. destruct (cmp x y) eqn:E; simpl.
    1,2: split_and!; auto; intros z [->|Hz]%elem_of_cons; [congruence|];
      apply (tp_trans cmp x y z); [congruence|auto].
    split; [|auto]. intros z. rewrite insert_by_perm. intros [->|Hz]%elem_of_cons; [|auto].
    apply (tp_gt_lt cmp) in E. congruence.
Qed.

(** * Tests and filters of lists *)

Lemma existsb_false {A} (f : A -> bool) l : existsb f l = false <-> forall x, x ∈ l -> f x = false.
Proof.
  induction l as [|x l IH]; cbn; [split; [by intros _ ? ?%elem_of_nil|done]|].
  rewrite orb_false_iff, IH. setoid_rewrite elem_of_cons. naive_solver.
Qed.

Lemma existsb_true {A} (f : A -> bool) l : existsb f l = true <-> exists x, x ∈ l /\ f x = true.
Proof. rewrite existsb_exists. by setoid_rewrite list_elem_of_In. Qed.

Lemma existsb_ext_in {A} (f g : A -> bool) l : (forall x, x ∈ l -> f x = g x) -> existsb f l = existsb g l.
Proof.
  induction l as [|x l IH]; intros He; [done|]. simpl. rewrite (He x) by left. f_equal. apply IH. intros. apply He. by right.
Qed.

Lemma existsb_filter {A} (f : A -> bool) (P : A -> Prop) `{!forall x, Decision (P x)} l :
  (forall x, x ∈ l -> f x = true -> P x) -> existsb f (base.filter P l) = existsb f l.
Proof.
  intros Hp. apply eq_true_iff_eq. rewrite !existsb_true. setoid_rewrite list_elem_of_filter. naive_solver.
Qed.

Lemma remove_dups_filter {A} `{EqDecision A} (P : A -> Prop) `{!forall x, Decision (P x)} l :
  remove_dups (base.filter P l) = base.filter P (remove_dups l).
Proof.
  induction l as [|x l IH]; [done|]. rewrite filter_cons. simpl. destruct (decide (P x)) as [Hp|Hp].
  - simpl. destruct (decide_rel elem_of x (base.filter P l)) as [Hf|Hf]; rewrite list_elem_of_filter in Hf;
      destruct (decide_rel elem_of x l) as [Hx|Hx]; try tauto. by rewrite filter_cons_True, IH.
  - destruct (decide_rel elem_of x l); [done|]. by rewrite filter_cons_False.
Qed.

Lemma no_rows {A} (k : list A) : (forall a, a ∉ k) -> k = [].
Proof. destruct k as [|a k]; [done|]. intros Hn. destruct (Hn a). left. Qed.

Lemma filter_id {A} (P : A -> Prop) `{!forall x, Decision (P x)} (l : list A) :
  (forall x, x ∈ l -> P x) -> base.filter P l = l.
Proof.
  induction l as [|x l IH]; intros Hp; [done|]. rewrite filter_cons_True by (apply Hp; left). f_equal. apply IH.
  intros. apply Hp. by right.
Qed.

Lemma filter_absorb {A} (P Q : A -> Prop) `{!forall x, Decision (P x)} `{!forall x, Decision (Q x)} (l : list A) :
  (forall x, x ∈ l -> P x -> Q x) -> base.filter P (base.filter Q l) = base.filter P l.
Proof.
  induction l as [|x l IH]; intros Hi; [done|].
  assert (base.filter P (base.filter Q l) = base.filter P l) as Ht by (apply IH; intros; apply Hi; [by right|done]).
  pose proof (Hi x ltac:(left)). rewrite !(filter_cons _ x l). destruct (decide (Q x)).
  - rewrite filter_cons. by rewrite Ht.
  - rewrite decide_False by tauto. exact Ht.
Qed.

Lemma filter_none {A} (P : A -> Prop) `{!forall x, Decision (P x)} (l : list A) :
  (forall x, x ∈ l -> ~ P x) -> base.filter P l = [].
Proof. intros Hn. apply no_rows. intros x [Hp Hx]%list_elem_of_filter. by apply (Hn x). Qed.

Lemma insert_filter {A} (cmp : A -> A -> comparison) `{!TotalPreorder cmp} (P : A -> Prop) `{!forall x, Decision (P x)} x k :
  sorted_by cmp k -> base.filter P (insert_by cmp x k) = if decide (P x) then insert_by cmp x (base.filter P k) else base.filter P k.
Proof.
  induction k as [|y k IH]; intros Hs; simpl.
  - rewrite filter_cons. by destruct (decide (P x)).
  - destruct Hs as [Hy Hk]. specialize (IH Hk). destruct (cmp x y) eqn:E.
    3: { rewrite !filter_cons, IH. destruct (decide (P y)), (decide (P x)); simpl; rewrite ?E; done. }
    all: rewrite filter_cons; destruct (decide (P x)); [|done]; rewrite filter_cons; destruct (decide (P y)); simpl; [by rewrite E|].
    all: destruct (base.filter P k) as [|z rest] eqn:Ez; [done|]; simpl.
    all: assert (z ∈ k) as Hz by (apply (list_elem_of_filter P); rewrite Ez; left).
    all: assert (cmp x z <> Gt) as Hn by (apply (tp_trans cmp x y z); [congruence|by apply Hy]).
    all: by destruct (cmp x z).
Qed.

Lemma sort_by_filter {A} (cmp : A -> A -> comparison) `{!TotalPreorder cmp} (P : A -> Prop) `{!forall x, Decision (P x)} l :
  sort_by cmp (base.filter P l) = base.filter P (sort_by cmp l).
Proof.
  induction l as [|x l IH]; [done|]. unfold sort_by in *. rewrite filter_cons. simpl.
  rewrite (insert_filter cmp) by apply (sort_by_sorted cmp l). destruct (decide (P x)); simpl; by rewrite IH.
Qed.

Lemma omap_filter {A B} (f : A -> option B) (P : B -> Prop) `{!forall x, Decision (P x)} (Q : A -> Prop) `{!forall x, Decision (Q x)} (l : list A) :
  (forall a b, a ∈ l -> f a = Some b -> Q a <-> P b) -> omap f (base.filter Q l) = base.filter P (omap f l).
Proof.
  induction l as [|a l IH]; intros Hq; [done|].
  assert (omap f (base.filter Q l) = base.filter P (omap f l)) as Ht by (apply IH; intros; apply Hq; [by right|done]).
  rewrite filter_cons. simpl. destruct (f a) as [b|] eqn:E.
  - rewrite filter_cons. pose proof (Hq a b ltac:(left) E). destruct (decide (Q a)), (decide (P b)); try tauto. simpl. rewrite E. by f_equal.
  - destruct (decide (Q a)); simpl; rewrite ?E; exact Ht.
Qed.

(** A property every step keeps is kept by a run. *)
Lemma rtc_preserve {A} (R : relation A) (P : A -> Prop) : (forall x y, R x y -> P x -> P y) ->
  forall x y, rtc R x y -> P x -> P y.
Proof. intros HR x y Hxy. induction Hxy; eauto. Qed.

#[export] Hint Resolve tp_refl : ordering.
#[export] Hint Extern 1 (TotalPreorder _) => apply _ : ordering.

(** * Shared data

    UUIDs and instants are opaque numbers; a [DateTime<Utc>] counts
    nanoseconds.  [Json] is [serde_json::Value]; numbers keep their text. *)

Definition Uuid : Set := N.
Definition DateTime : Set := Z.

#[global] Instance Uuid_eq_dec : EqDecision Uuid := N.eq_dec.
#[global] Instance Uuid_countable : Countable Uuid := N_countable.

(** The uuid crate: the text [Display for Uuid] prints. *)
Class UuidCrate := { uuid_display : Uuid -> string }.

Inductive Json :=
| JNull
| JBool (b : bool)
| JNumber (repr : string)
| JString (s : string)
| JArray (l : list Json)
| JObject (m : list (string * Json)).

Definition json_get (k : string) (j : Json) : option Json :=
  match j with
  | JObject m => snd <$> List.find (fun p => String.eqb (fst p) k) m
  | _ => None
  end.

Definition json_as_str (j : Json) : option string :=
  match j with JString s => Some s | _ => None end.

(** [Map::insert]: replaces the binding of [k] or adds one. *)
Definition json_map_insert (k : string) (v : Json) (m : list (string * Json)) : list (string * Json) :=
  (k, v) :: List.filter (fun p => negb (String.eqb (fst p) k)) m.

(** * Automation shared by the components *)

(** Case analysis on the scrutinee of the first [match] or [if] of the goal. *)
Ltac case_first :=
  match goal with
  | |- context [match ?x with _ => _ end] =>
      lazymatch x with context [match _ with _ => _ end] => fail | _ => destruct x eqn:? end
  end.

Ltac solve_cases := repeat case_first; simplify_eq/=; try done; try congruence.
