(* ===== verification/RustStr.v ===== *)
(** The Rust string operations the components use.

    A Rust [str] is its sequence of UTF-8 bytes, a [string] whose characters
    are bytes; byte slicing and byte predicates are therefore literal.  The
    operations that Rust defines on [char]s go through [chars], which cuts a
    string into the encodings of its scalar values.  The case mappings act on
    the ASCII letters and leave every other byte unchanged: that is exactly
    [to_ascii_lowercase], and [to_lowercase] on ASCII text. *)

From stdpp Require Import base list strings pretty.
From Stdlib Require Import ZArith Lia Ascii.
From S2P Require Import Prelude.

Local Open Scope string_scope.
Local Open Scope list_scope.

#[global] Arguments String.append : simpl nomatch.

(** * Bytes *)

Definition byte_val (c : ascii) : Z := Z.of_N (N_of_ascii c).
Definition byte_of (z : Z) : ascii := ascii_of_N (Z.to_N (z mod 256)).

Lemma byte_val_range c : (0 <= byte_val c < 256)%Z.
Proof. unfold byte_val. pose proof (N_ascii_bounded c). lia. Qed.

Lemma byte_val_of z : byte_val (byte_of z) = (z mod 256)%Z.
Proof.
  unfold byte_val, byte_of. pose proof (Z.mod_pos_bound z 256).
  rewrite N_ascii_embedding; lia.
Qed.

Lemma byte_of_val c : byte_of (byte_val c) = c.
Proof.
  unfold byte_of. rewrite Z.mod_small by apply byte_val_range.
  unfold byte_val. rewrite N2Z.id. apply ascii_N_embedding.
Qed.

Definition in_range (lo hi : N) (c : ascii) : bool :=
  (N.leb lo (N_of_ascii c) && N.leb (N_of_ascii c) hi)%bool.

Definition is_digit (c : ascii) : bool := in_range 48 57 c.
Definition is_upper (c : ascii) : bool := in_range 65 90 c.
Definition is_lower (c : ascii) : bool := in_range 97 122 c.
Definition is_alpha (c : ascii) : bool := is_upper c || is_lower c.
Definition is_alnum (c : ascii) : bool := is_alpha c || is_digit c.
Definition is_hexdigit (c : ascii) : bool :=
  is_digit c || in_range 65 70 c || in_range 97 102 c.

Definition lower (c : ascii) : ascii :=
  if is_upper c then ascii_of_N (N_of_ascii c + 32) else c.

Lemma lower_not_upper c : is_upper (lower c) = false.
Proof. destruct c as [[] [] [] [] [] [] [] []]; reflexivity. Qed.

Lemma lower_idem c : lower (lower c) = lower c.
Proof. unfold lower at 1. by rewrite lower_not_upper. Qed.

(** * Whole-string predicates and maps *)

Fixpoint str_all (p : ascii -> bool) (s : string) : bool :=
  match s with
  | EmptyString => true
  | String c s => p c && str_all p s
  end.

Fixpoint str_map (f : ascii -> ascii) (s : string) : string :=
  match s with
  | EmptyString => EmptyString
  | String c s => String (f c) (str_map f s)
  end.

(** [str::to_ascii_lowercase], and [str::to_lowercase] on ASCII text. *)
Definition to_ascii_lowercase : string -> string := str_map lower.
Definition to_lowercase : string -> string := str_map lower.

Definition is_empty (s : string) : bool := s =? "".

Lemma to_ascii_lowercase_idem s : to_ascii_lowercase (to_ascii_lowercase s) = to_ascii_lowercase s.
Proof.
  unfold to_ascii_lowercase. induction s as [|c s IH]; simpl; [done|]. by rewrite lower_idem, IH.
Qed.

Lemma str_all_map p f s : str_all p (str_map f s) = str_all (fun c => p (f c)) s.
Proof. induction s as [|c s IH]; simpl; [done|]. by rewrite IH. Qed.

Lemma length_str_map f s : String.length (str_map f s) = String.length s.
Proof. induction s as [|c s IH]; simpl; congruence. Qed.

Lemma str_all_app p s t : str_all p (s +:+ t) = str_all p s && str_all p t.
Proof. induction s as [|c s IH]; simpl; [done|]. by rewrite IH, andb_assoc. Qed.

Lemma append_nil_r s : s +:+ "" = s.
Proof. induction s as [|c s IH]; simpl; congruence. Qed.

Lemma append_assoc s t u : s +:+ (t +:+ u) = (s +:+ t) +:+ u.
Proof. induction s as [|c s IH]; simpl; congruence. Qed.

Lemma length_append s t : String.length (s +:+ t) = String.length s + String.length t.
Proof. induction s as [|c s IH]; simpl; congruence. Qed.

Lemma append_inj_l s t u : s +:+ t = s +:+ u -> t = u.
Proof. induction s as [|c s IH]; simpl; [done|]. intros H. apply IH. congruence. Qed.

(** A word is one of the listed alternatives of a [match] on a string. *)
Definition one_of (s : string) (l : list string) : bool := existsb (String.eqb s) l.

Lemma one_of_true s l : one_of s l = true <-> s ∈ l.
Proof.
  unfold one_of. rewrite existsb_exists, list_elem_of_In. split.
  - by intros (x & Hx & ->%String.eqb_eq).
  - intros. exists s. by rewrite String.eqb_refl.
Qed.

(** * Prefixes, suffixes, search *)

Definition starts_with (p s : string) : bool := String.prefix p s.

Fixpoint strip_prefix (p s : string) : option string :=
  match p, s with
  | EmptyString, _ => Some s
  | String a p, String b s => if Ascii.eqb a b then strip_prefix p s else None
  | String _ _, EmptyString => None
  end.

Fixpoint strip_suffix (suf s : string) : option string :=
  if s =? suf then Some EmptyString
  else match s with
       | EmptyString => None
       | String c s => String c <$> strip_suffix suf s
       end.

Definition ends_with (suf s : string) : bool :=
  match strip_suffix suf s with Some _ => true | None => false end.

Fixpoint contains (needle s : string) : bool :=
  starts_with needle s ||
  match s with EmptyString => false | String _ s => contains needle s end.

Lemma strip_prefix_Some p s r : strip_prefix p s = Some r <-> s = p +:+ r.
Proof.
  revert s. induction p as [|a p IH]; intros s; simpl; [naive_solver|].
  destruct s as [|b s]; [done|].
  destruct (Ascii.eqb_spec a b) as [->|Hne]; [rewrite IH|]; split; intros; simplify_eq; auto.
Qed.

Lemma strip_prefix_cons a p b s :
  strip_prefix (String a p) (String b s) = if Ascii.eqb a b then strip_prefix p s else None.
Proof. done. Qed.

Lemma strip_prefix_nil s : strip_prefix "" s = Some s.
Proof. by destruct s. Qed.

Lemma strip_suffix_eq suf s :
  strip_suffix suf s =
    if s =? suf then Some EmptyString
    else match s with
         | EmptyString => None
         | String c s => String c <$> strip_suffix suf s
         end.
Proof. by destruct s. Qed.

Lemma strip_suffix_Some suf s r : strip_suffix suf s = Some r <-> s = r +:+ suf.
Proof.
  revert r. induction s as [|c s IH]; intros r; rewrite strip_suffix_eq.
  - destruct (String.eqb_spec "" suf) as [<-|Hne].
    + rewrite append_nil_r. naive_solver.
    + split; [done|]. destruct r; simpl; congruence.
  - destruct (String.eqb_spec (String c s) suf) as [<-|Hne].
    + split; [intros [= <-]; done|]. intros H. destruct r as [|d r]; [done|].
      apply (f_equal String.length) in H. simpl in H. rewrite length_append in H. simpl in H. lia.
    + destruct r as [|d r].
      * simpl. split; [destruct (strip_suffix suf s); done|congruence].
      * specialize (IH r). destruct (strip_suffix suf s) as [r'|] eqn:E; simpl.
        -- split; [intros [= -> ->]; f_equal; by apply IH|].
           intros [= -> H]. apply IH in H as [= ->]. done.
        -- split; [done|]. intros [= -> H]. by apply IH in H.
Qed.

Lemma ends_with_true suf s : ends_with suf s = true <-> exists r, s = r +:+ suf.
Proof.
  unfold ends_with. destruct (strip_suffix suf s) as [r|] eqn:E.
  - apply strip_suffix_Some in E. naive_solver.
  - split; [done|]. intros [r H%strip_suffix_Some]. congruence.
Qed.

Lemma starts_with_strip p s :
  starts_with p s = match strip_prefix p s with Some _ => true | None => false end.
Proof.
  unfold starts_with. revert s. induction p as [|a p IH]; intros [|b s]; simpl; try done.
  destruct (ascii_dec a b) as [->|Hne].
  - by rewrite Ascii.eqb_refl.
  - by destruct (Ascii.eqb_spec a b).
Qed.

Lemma starts_with_true p s : starts_with p s = true <-> exists r, s = p +:+ r.
Proof.
  rewrite starts_with_strip. destruct (strip_prefix p s) as [r|] eqn:E.
  - apply strip_prefix_Some in E. split; eauto.
  - split; [done|]. intros [r H%strip_prefix_Some]. congruence.
Qed.

Lemma starts_with_app p s t : starts_with p s = true -> starts_with p (s +:+ t) = true.
Proof. rewrite !starts_with_true. intros [r ->]. exists (r +:+ t). by rewrite append_assoc. Qed.

(** ** Positions *)

Lemma get_split n s c : String.get n s = Some c <->
  exists a b, s = a +:+ String c b /\ String.length a = n.
Proof.
  revert s. induction n as [|n IH]; intros [|d s]; cbn [String.get].
  - split; [done|]. intros (a & b & H & _). by destruct a.
  - split; [intros [= ->]; by exists "", s|]. intros (a & b & H & Ha). destruct a; [|done].
    cbn in H. by injection H as -> ->.
  - split; [done|]. intros (a & b & H & _). by destruct a.
  - rewrite IH. split.
    + intros (a & b & -> & <-). by exists (String d a), b.
    + intros (a & b & H & Ha). destruct a as [|e a]; [done|]. injection H as -> ->. injection Ha as <-.
      by exists a, b.
Qed.

Lemma substring_split n m s : n + m <= String.length s ->
  exists a b, s = a +:+ String.substring n m s +:+ b /\ String.length a = n /\
              String.length (String.substring n m s) = m.
Proof.
  revert n m. induction s as [|c s IH]; intros n m; cbn [String.length].
  - intros. assert (n = 0) as -> by lia. assert (m = 0) as -> by lia. by exists "", "".
  - destruct n as [|n]; [destruct m as [|m]|].
    + intros _. by exists "", (String c s).
    + intros Hle. destruct (IH 0 m) as (a & b & H & Ha & Hm); [lia|].
      destruct a; [|done]. exists "", b. cbn in *. split_and!; congruence.
    + intros Hle. destruct (IH n m) as (a & b & H & Ha & Hm); [lia|].
      exists (String c a), b. cbn. split_and!; congruence.
Qed.

Lemma append_eq_len a b c d :
  a +:+ b = c +:+ d -> String.length a = String.length c -> a = c /\ b = d.
Proof.
  revert c. induction a as [|x a IH]; intros [|y c]; cbn; try done.
  intros [= -> H] [= Hl]. by destruct (IH c H Hl) as [-> ->].
Qed.

Lemma str_all_ext p q s : (forall c, p c = q c) -> str_all p s = str_all q s.
Proof. intros H. induction s as [|c s IH]; cbn; [done|]. by rewrite H, IH. Qed.

Lemma str_all_weaken p q s : (forall c, p c = true -> q c = true) -> str_all p s = true -> str_all q s = true.
Proof.
  intros H. induction s as [|c s IH]; cbn; [done|]. intros [Hc Hs]%andb_prop.
  by rewrite (H c Hc), IH.
Qed.

Lemma substring_app a b c : String.substring (String.length a) (String.length b) (a +:+ b +:+ c) = b.
Proof.
  induction a as [|x a IH]; cbn; [|by rewrite IH].
  induction b as [|y b IH]; cbn; [by destruct c|]. by rewrite IH.
Qed.

(** * Cutting a string at separator bytes *)

(** [str::split] with a byte predicate: always at least one piece. *)
Fixpoint split_on (sep : ascii -> bool) (s : string) : list string :=
  match s with
  | EmptyString => [EmptyString]
  | String c s =>
      if sep c then EmptyString :: split_on sep s
      else match split_on sep s with
           | [] => [String c EmptyString]
           | piece :: rest => String c piece :: rest
           end
  end.

Definition split_char (c : ascii) : string -> list string := split_on (Ascii.eqb c).

(** [str::split_once] at the first byte satisfying [sep]. *)
Fixpoint split_once (sep : ascii -> bool) (s : string) : option (string * string) :=
  match s with
  | EmptyString => None
  | String c s =>
      if sep c then Some (EmptyString, s)
      else '(a, b) ← split_once sep s; Some (String c a, b)
  end.

(** [str::rsplit_once] at the last occurrence of a non-empty pattern. *)
Fixpoint rsplit_once (pat s : string) : option (string * string) :=
  match s with
  | EmptyString => None
  | String c s' =>
      match rsplit_once pat s' with
      | Some (a, b) => Some (String c a, b)
      | None => match strip_prefix pat s with Some r => Some (EmptyString, r) | None => None end
      end
  end.

(** [s.rsplit('/').next()]: the text after the last slash. *)
Definition last_piece (c : ascii) (s : string) : string := List.last (split_char c s) s.

(** [Vec<String>::join]. *)
Fixpoint join (sep : string) (l : list string) : string :=
  match l with
  | [] => EmptyString
  | [s] => s
  | s :: l => s +:+ sep +:+ join sep l
  end.

Lemma split_on_nonempty sep s : split_on sep s <> [].
Proof. destruct s as [|c s]; simpl; [done|]. destruct (sep c), (split_on sep s); done. Qed.

Lemma split_on_join c s : join (String c "") (split_char c s) = s.
Proof.
  unfold split_char. induction s as [|d s IH]; simpl; [done|].
  pose proof (split_on_nonempty (Ascii.eqb c) s) as Hne.
  destruct (Ascii.eqb_spec c d) as [->|Hcd], (split_on _ s) as [|p l]; try done; simpl.
  - simpl in IH. by rewrite IH.
  - rewrite <- IH. by destruct l.
Qed.

Lemma split_on_pieces sep s p : p ∈ split_on sep s -> str_all (fun c => negb (sep c)) p = true.
Proof.
  revert p. induction s as [|c s IH]; simpl; intros p.
  - by intros ->%list_elem_of_singleton.
  - destruct (sep c) eqn:E.
    + by intros [->|H]%elem_of_cons; [|apply IH].
    + destruct (split_on sep s) as [|q l].
      * intros ->%list_elem_of_singleton. simpl. by rewrite E.
      * intros [->|H]%elem_of_cons; simpl; [rewrite E; simpl; apply IH; left | apply IH; by right].
Qed.

Lemma split_once_Some sep s a b :
  split_once sep s = Some (a, b) ->
  exists c, sep c = true /\ s = a +:+ String c b /\ str_all (fun c => negb (sep c)) a = true.
Proof.
  revert a b. induction s as [|c s IH]; simpl; intros a b; [done|].
  destruct (sep c) eqn:E; [intros [= <- <-]; eauto|].
  destruct (split_once sep s) as [[a' b']|]; simpl; [|done]. intros [= <- <-].
  destruct (IH a' b' eq_refl) as (d & Hd & -> & Ha). exists d. split_and!; auto.
  simpl. by rewrite E.
Qed.

Lemma split_once_cut sep a c b :
  sep c = true -> str_all (fun d => negb (sep d)) a = true -> split_once sep (a +:+ String c b) = Some (a, b).
Proof.
  intros Hc. induction a as [|d a IH]; cbn; [by rewrite Hc|].
  intros [Hd%negb_true_iff Ha]%andb_prop. by rewrite Hd, (IH Ha).
Qed.

Lemma split_once_map sep f s :
  (forall c, sep (f c) = sep c) ->
  split_once sep (str_map f s) = (fun p => (str_map f p.1, str_map f p.2)) <$> split_once sep s.
Proof.
  intros Hf. induction s as [|c s IH]; cbn; [done|]. rewrite Hf. destruct (sep c); [done|].
  rewrite IH. by destruct (split_once sep s) as [[a b]|].
Qed.

Lemma split_on_map sep f s :
  (forall c, sep (f c) = sep c) -> split_on sep (str_map f s) = str_map f <$> split_on sep s.
Proof.
  intros Hf. induction s as [|c s IH]; cbn; [done|]. rewrite Hf, IH. destruct (sep c); [done|].
  by destruct (split_on sep s).
Qed.

Lemma rsplit_once_Some pat s a b : rsplit_once pat s = Some (a, b) -> s = a +:+ pat +:+ b.
Proof.
  revert a. induction s as [|c s IH]; intros a; cbn [rsplit_once]; [done|].
  destruct (rsplit_once pat s) as [[a' b']|] eqn:E.
  - intros [= <- <-]. cbn. by rewrite (IH a' eq_refl).
  - destruct (strip_prefix pat (String c s)) as [r|] eqn:Ep; [|done]. intros [= <- <-].
    by apply strip_prefix_Some in Ep.
Qed.

(** The first piece of a split, and what follows it. *)
Lemma split_on_head sep s p :
  head (split_on sep s) = Some p ->
  exists r, s = p +:+ r /\ (r = "" \/ exists c r', r = String c r' /\ sep c = true).
Proof.
  revert p. induction s as [|c s IH]; intros p; cbn [split_on].
  - intros [= <-]. exists "". auto.
  - destruct (sep c) eqn:E; [intros [= <-]; exists (String c s); eauto 6|].
    pose proof (split_on_nonempty sep s) as Hne.
    destruct (split_on sep s) as [|q l]; [done|]. intros [= <-].
    destruct (IH q eq_refl) as (r & -> & Hr). by exists r.
Qed.

Lemma last_default {A} (l : list A) d d' : l <> [] -> List.last l d = List.last l d'.
Proof. induction l as [|x [|y l] IH]; intros; [done|done|]. by apply IH. Qed.

Lemma last_piece_cut c s :
  exists dir, s = dir +:+ last_piece c s.
Proof.
  unfold last_piece, split_char. rewrite (last_default _ s "") by apply split_on_nonempty.
  induction s as [|d s IH]; [by exists ""|]. cbn [split_on].
  pose proof (split_on_nonempty (Ascii.eqb c) s) as Hne.
  pose proof (split_on_join c s) as Hj. unfold split_char in Hj.
  destruct IH as [dir IH]. destruct (split_on _ s) as [|q l]; [done|].
  destruct (Ascii.eqb c d).
  - exists (String d dir). cbn in *. congruence.
  - destruct l as [|q' l].
    + exists "". cbn in Hj |- *. congruence.
    + exists (String d dir). cbn in *. congruence.
Qed.

Lemma last_piece_map c f s :
  (forall d, Ascii.eqb c (f d) = Ascii.eqb c d) -> last_piece c (str_map f s) = str_map f (last_piece c s).
Proof.
  intros Hf. unfold last_piece, split_char. rewrite split_on_map by done.
  pose proof (split_on_nonempty (Ascii.eqb c) s) as Hne.
  destruct (split_on (Ascii.eqb c) s) as [|p l]; [done|]. clear Hne. revert p.
  induction l as [|q l IH]; intros p; [done|]. cbn [fmap list_fmap] in *. apply (IH q).
Qed.

(** * Trimming *)

Fixpoint trim_start_by (p : ascii -> bool) (s : string) : string :=
  match s with
  | EmptyString => EmptyString
  | String c s' => if p c then trim_start_by p s' else s
  end.

Fixpoint trim_end_by (p : ascii -> bool) (s : string) : string :=
  match s with
  | EmptyString => EmptyString
  | String c s =>
      match trim_end_by p s with
      | EmptyString => if p c then EmptyString else String c EmptyString
      | t => String c t
      end
  end.

(** The leading run of bytes satisfying [p], and what follows it. *)
Fixpoint take_while (p : ascii -> bool) (s : string) : string :=
  match s with
  | EmptyString => EmptyString
  | String c s => if p c then String c (take_while p s) else EmptyString
  end.

Lemma take_while_trim p s : take_while p s +:+ trim_start_by p s = s.
Proof. induction s as [|c s IH]; simpl; [done|]. destruct (p c); simpl; congruence. Qed.

(** [str::trim_start_matches] of a non-empty pattern, which may match several
    times; each match shortens the string, so its length bounds the count. *)
Fixpoint trim_start_matches_upto (fuel : nat) (pat s : string) : string :=
  match fuel with
  | O => s
  | S fuel =>
      match strip_prefix pat s with
      | Some r => trim_start_matches_upto fuel pat r
      | None => s
      end
  end.

Definition trim_start_matches (pat s : string) : string :=
  trim_start_matches_upto (String.length s) pat s.

(** [str::splitn] at a byte: at most [n] pieces. *)
Fixpoint splitn (n : nat) (c : ascii) (s : string) : list string :=
  match n with
  | O => []
  | S O => [s]
  | S n =>
      match split_once (Ascii.eqb c) s with
      | Some (a, b) => a :: splitn n c b
      | None => [s]
      end
  end.

(** ** Characters *)

Definition is_continuation (c : ascii) : bool := in_range 128 191 c.

(** The UTF-8 encodings of the successive [char]s of a string. *)
Fixpoint chars (s : string) : list string :=
  match s with
  | EmptyString => []
  | String c s =>
      match chars s with
      | (String d _ as e) :: l =>
          if is_continuation d then String c e :: l else String c EmptyString :: e :: l
      | l => String c EmptyString :: l
      end
  end.

(** The [White_Space] characters, as [char::is_whitespace] has them. *)
Definition is_whitespace (e : string) : bool :=
  match e with
  | String c EmptyString => in_range 9 13 c || Ascii.eqb c " "
  | _ =>
      let bytes := N_of_ascii <$> String.list_ascii_of_string e in
      bool_decide (bytes = [194; 133] \/ bytes = [194; 160] \/ bytes = [225; 154; 128] \/
                   bytes = [226; 129; 159] \/ bytes = [227; 128; 128])%N ||
      match bytes with
      | [b0; b1; b2] =>
          (b0 =? 226)%N && (b1 =? 128)%N &&
          ((128 <=? b2)%N && (b2 <=? 138)%N || bool_decide (b2 ∈ [168; 169; 175]%N))
      | _ => false
      end
  end.

Definition concat_str (l : list string) : string := foldr String.append EmptyString l.

Fixpoint drop_while {A} (p : A -> bool) (l : list A) : list A :=
  match l with
  | [] => []
  | x :: l' => if p x then drop_while p l' else l
  end.

(** [str::trim]. *)
Definition trim (s : string) : string :=
  concat_str (rev (drop_while is_whitespace (rev (drop_while is_whitespace (chars s))))).

Lemma chars_concat s : concat_str (chars s) = s.
Proof.
  induction s as [|c s IH]; simpl; [done|].
  destruct (chars s) as [|[|d e] l]; simpl in *; try congruence.
  destruct (is_continuation d); simpl; congruence.
Qed.

(** * Numbers *)

Fixpoint digits_val (acc : N) (s : string) : N :=
  match s with
  | EmptyString => acc
  | String c s => digits_val (10 * acc + (N_of_ascii c - 48)) s
  end.

Definition U64_MAX : N := 18446744073709551615.

(** [str::parse::<u64>]: an optional [+], then digits, refused on overflow. *)
Definition parse_u64 (s : string) : option N :=
  let body := match s with String "+" r => r | _ => s end in
  if negb (is_empty body) && str_all is_digit body && N.leb (digits_val 0 body) U64_MAX
  then Some (digits_val 0 body) else None.

Lemma parse_u64_bound s n : parse_u64 s = Some n -> (n <= U64_MAX)%N.
Proof.
  unfold parse_u64. destruct (_ && _ && _) eqn:E; [|done].
  apply andb_prop in E as [_ E%N.leb_le]. congruence.
Qed.

(** ** Printing numbers *)

(** Visible ASCII. *)
Definition is_graphic (c : ascii) : bool := in_range 33 126 c.

Lemma pretty_char_digit (n : N) : (n < 10)%N ->
  is_digit (pretty_N_char n) = true /\ (N_of_ascii (pretty_N_char n) - 48 = n)%N.
Proof.
  intros Hn. assert (H : n ∈ [0; 1; 2; 3; 4; 5; 6; 7; 8; 9]%N).
  { rewrite !elem_of_cons. lia. }
  rewrite !elem_of_cons in H. repeat destruct H as [->|H]; try (by split). by apply elem_of_nil in H.
Qed.

Lemma pretty_go_digits (n : N) s :
  digits_val 0 (pretty_N_go n s) = digits_val n s /\
  str_all is_digit (pretty_N_go n s) = str_all is_digit s.
Proof.
  revert s. induction (N.lt_wf_0 n) as [n _ IH]. intros s.
  destruct (decide (n = 0%N)) as [->|Hn]; [by rewrite pretty_N_go_0|].
  rewrite pretty_N_go_step by lia.
  destruct (IH (n `div` 10)%N ltac:(apply N.div_lt; lia) (String (pretty_N_char (n `mod` 10)) s)) as [-> ->].
  destruct (pretty_char_digit (n `mod` 10)) as [Hd Hv]; [by apply N.mod_lt|].
  cbn [digits_val str_all]. rewrite Hd, Hv. split; [|done]. f_equal.
  pose proof (N.div_mod n 10 ltac:(done)). lia.
Qed.

Lemma pretty_digits (n : N) : digits_val 0 (pretty n) = n /\ str_all is_digit (pretty n) = true.
Proof.
  unfold pretty, pretty_N. destruct (decide (n = 0%N)) as [->|Hn]; [done|].
  destruct (pretty_go_digits n "") as [-> ->]. done.
Qed.

Lemma pretty_head (n : N) : exists c s, pretty n = String c s /\ is_digit c = true.
Proof.
  destruct (pretty_digits n) as [Hv Hd]. destruct (pretty n) as [|c s] eqn:E.
  - assert (n = 0%N) as -> by done. by vm_compute in E.
  - exists c, s. by apply andb_prop in Hd as [Hc _].
Qed.

Lemma parse_u64_pretty (n : N) : (n <= U64_MAX)%N -> parse_u64 (pretty n) = Some n.
Proof.
  intros Hn. destruct (pretty_digits n) as [Hv Hd]. destruct (pretty_head n) as (c & s & E & Hc).
  unfold parse_u64. rewrite E in *.
  assert (Hbody : match String c s with String "+" r => r | _ => String c s end = String c s).
  { destruct c as [[] [] [] [] [] [] [] []]; done. }
  rewrite Hbody, Hd, Hv. cbn [is_empty String.eqb negb andb]. by rewrite (proj2 (N.leb_le _ _) Hn).
Qed.

(** ** Trimming and splitting plain text *)

Lemma chars_graphic s : str_all is_graphic s = true -> chars s = (fun c => String c "") <$> String.list_ascii_of_string s.
Proof.
  induction s as [|c s IH]; [done|]. intros [Hc Hs]%andb_prop. cbn [chars String.list_ascii_of_string fmap list_fmap].
  rewrite (IH Hs). destruct s as [|d s]; [done|]. cbn [String.list_ascii_of_string fmap list_fmap].
  apply andb_prop in Hs as [Hd _]. assert (is_continuation d = false) as ->; [|done].
  destruct d as [[] [] [] [] [] [] [] []]; done.
Qed.

Lemma trim_graphic s : str_all is_graphic s = true -> trim s = s.
Proof.
  intros Hs. unfold trim. assert (Hw : forall l, Forall (fun e => is_whitespace e = false) l -> drop_while is_whitespace l = l).
  { intros [|e l] He; [done|]. apply Forall_cons in He as [He _]. cbn. by rewrite He. }
  assert (Hc : Forall (fun e => is_whitespace e = false) (chars s)).
  { rewrite chars_graphic by done. apply Forall_fmap. induction s as [|c s IH]; [constructor|].
    apply andb_prop in Hs as [Hc Hs]. cbn [String.list_ascii_of_string]. constructor; [|by apply IH].
    destruct c as [[] [] [] [] [] [] [] []]; done. }
  rewrite (Hw _ Hc), Hw by (by apply Forall_rev). rewrite rev_involutive. apply chars_concat.
Qed.

Lemma split_once_none sep s : str_all (fun c => negb (sep c)) s = true -> split_once sep s = None.
Proof.
  induction s as [|c s IH]; [done|]. intros [Hc%negb_true_iff Hs]%andb_prop. cbn. by rewrite Hc, IH.
Qed.

Lemma split_on_app sep p c s : sep c = true -> str_all (fun d => negb (sep d)) p = true ->
  split_on sep (p +:+ String c s) = p :: split_on sep s.
Proof.
  intros Hc. induction p as [|d p IH]; cbn; [by rewrite Hc|].
  intros [Hd%negb_true_iff Hp]%andb_prop. by rewrite Hd, (IH Hp).
Qed.

Lemma split_on_piece sep p : str_all (fun d => negb (sep d)) p = true -> split_on sep p = [p].
Proof.
  induction p as [|d p IH]; [done|]. cbn. intros [Hd%negb_true_iff Hp]%andb_prop. by rewrite Hd, (IH Hp).
Qed.

(** Joining pieces without separators and splitting again. *)
Lemma split_join sep c l : sep c = true -> l <> [] -> Forall (fun p => str_all (fun d => negb (sep d)) p = true) l ->
  split_on sep (join (String c "") l) = l.
Proof.
  intros Hc Hne Hl. induction l as [|p l IH]; [done|]. apply Forall_cons in Hl as [Hp Hl].
  destruct l as [|q l]; [by apply split_on_piece|].
  change (join (String c "") (p :: q :: l)) with (p +:+ String c (join (String c "") (q :: l))).
  rewrite split_on_app by done. f_equal. by apply IH.
Qed.

Lemma str_all_join p sep l :
  str_all p sep = true -> Forall (fun s => str_all p s = true) l -> str_all p (join sep l) = true.
Proof.
  intros Hsep Hl. induction l as [|s l IH]; [done|]. apply Forall_cons in Hl as [Hs Hl].
  destruct l as [|q l]; [done|]. change (join sep (s :: q :: l)) with (s +:+ sep +:+ join sep (q :: l)).
  by rewrite !str_all_app, Hs, Hsep, IH.
Qed.

Lemma lowercase_fixed s : str_all (fun c => negb (is_upper c)) s = true -> to_ascii_lowercase s = s.
Proof.
  unfold to_ascii_lowercase. induction s as [|c s IH]; [done|]. intros [Hc%negb_true_iff Hs]%andb_prop.
  cbn [str_map]. rewrite (IH Hs). unfold lower. by rewrite Hc.
Qed.

(** * Lossy UTF-8 decoding

    [String::from_utf8_lossy]: the maximal invalid sequences are replaced by
    U+FFFD.  [utf8_chunks] cuts bytes into encoded characters ([Some]) and
    maximal invalid sequences ([None]). *)

Definition utf8_width (c : ascii) : nat :=
  if in_range 0 127 c then 1
  else if in_range 194 223 c then 2
  else if in_range 224 239 c then 3
  else if in_range 240 244 c then 4
  else 0.

(** The second byte a leading byte admits. *)
Definition utf8_second (b0 b1 : ascii) : bool :=
  match N_of_ascii b0 with
  | 224%N => in_range 160 191 b1
  | 237%N => in_range 128 159 b1
  | 240%N => in_range 144 191 b1
  | 244%N => in_range 128 143 b1
  | _ => is_continuation b1
  end.

Fixpoint utf8_chunks (s : string) : list (option string) :=
  match s with
  | EmptyString => []
  | String b0 r0 =>
      match utf8_width b0, r0 with
      | 1, _ => Some (String b0 "") :: utf8_chunks r0
      | 2, String b1 r1 =>
          if utf8_second b0 b1 then Some (String b0 (String b1 "")) :: utf8_chunks r1
          else None :: utf8_chunks r0
      | 3, String b1 r1 =>
          if utf8_second b0 b1 then
            match r1 with
            | String b2 r2 =>
                if is_continuation b2 then Some (String b0 (String b1 (String b2 ""))) :: utf8_chunks r2
                else None :: utf8_chunks r1
            | EmptyString => [None]
            end
          else None :: utf8_chunks r0
      | 4, String b1 r1 =>
          if utf8_second b0 b1 then
            match r1 with
            | String b2 r2 =>
                if is_continuation b2 then
                  match r2 with
                  | String b3 r3 =>
                      if is_continuation b3
                      then Some (String b0 (String b1 (String b2 (String b3 "")))) :: utf8_chunks r3
                      else None :: utf8_chunks r2
                  | EmptyString => [None]
                  end
                else None :: utf8_chunks r1
            | EmptyString => [None]
            end
          else None :: utf8_chunks r0
      | _, _ => None :: utf8_chunks r0
      end
  end.

Definition REPLACEMENT : string :=
  String (ascii_of_nat 239) (String (ascii_of_nat 191) (String (ascii_of_nat 189) "")).

Definition from_utf8_lossy (s : string) : string :=
  concat_str (default REPLACEMENT <$> utf8_chunks s).

(** What every Rust [str] satisfies. *)
Definition valid_utf8 (s : string) : bool :=
  forallb (fun c => match c with Some _ => true | None => false end) (utf8_chunks s).

Lemma from_utf8_lossy_valid s : valid_utf8 s = true -> from_utf8_lossy s = s.
Proof.
  unfold from_utf8_lossy, valid_utf8. remember (String.length s) as n eqn:Hn.
  assert (Hle : String.length s <= n) by lia. clear Hn. revert s Hle.
  induction n as [|n IH]; intros [|b0 r0] Hle; try done; [cbn in Hle; lia|].
  cbn [utf8_chunks]. destruct (utf8_width b0) as [|[|[|[|[|w]]]]]; try done.
  - cbn. intros H. f_equal. apply IH; [cbn in Hle; lia|done].
  - destruct r0 as [|b1 r1]; [done|]. destruct (utf8_second b0 b1); [|done]. cbn. intros H.
    do 2 f_equal. apply IH; [cbn in Hle; lia|done].
  - destruct r0 as [|b1 r1]; [done|]. destruct (utf8_second b0 b1); [|done].
    destruct r1 as [|b2 r2]; [done|]. destruct (is_continuation b2); [|done]. cbn. intros H.
    do 3 f_equal. apply IH; [cbn in Hle; lia|done].
  - destruct r0 as [|b1 r1]; [done|]. destruct (utf8_second b0 b1); [|done].
    destruct r1 as [|b2 r2]; [done|]. destruct (is_continuation b2); [|done].
    destruct r2 as [|b3 r3]; [done|]. destruct (is_continuation b3); [|done]. cbn. intros H.
    do 4 f_equal. apply IH; [cbn in Hle; lia|done].
Qed.

(** ** Trimming twice, and in lower case *)

(** A list of characters as [chars] cuts them. *)
Definition is_char (e : string) : bool :=
  match e with String _ t => str_all is_continuation t | EmptyString => false end.
Definition opens (e : string) : bool :=
  match e with String c _ => negb (is_continuation c) | EmptyString => false end.

Lemma chars_cut s : Forall (fun e => is_char e = true) (chars s) /\ Forall (fun e => opens e = true) (tail (chars s)).
Proof.
  induction s as [|c s [Hc Ho]]; cbn [chars]; [by split; constructor|].
  destruct (chars s) as [|[|d e] l]; [by repeat constructor|by apply Forall_cons in Hc as [? _]|].
  apply Forall_cons in Hc as [He Hl]. cbn in He, Ho.
  destruct (is_continuation d) eqn:Ed; (split; [|try done]).
  - constructor; [|done]. cbn. by rewrite Ed.
  - by repeat constructor.
  - constructor; [|done]. cbn. by rewrite Ed.
Qed.

Lemma chars_cons c s : chars (String c s) =
  match chars s with
  | (String d _ as e) :: l =>
      if is_continuation d then String c e :: l else String c EmptyString :: e :: l
  | l => String c EmptyString :: l
  end.
Proof. done. Qed.

Lemma chars_of_cut l : Forall (fun e => is_char e = true) l -> Forall (fun e => opens e = true) (tail l) ->
  chars (concat_str l) = l.
Proof.
  induction l as [|[|c t] l IH]; [done|by intros [? _]%Forall_cons|]. intros [Hc Hl]%Forall_cons Ho. cbn in Hc, Ho.
  assert (Hr : chars (concat_str l) = l).
  { apply IH; [done|]. destruct l as [|e l]; [constructor|]. by apply Forall_cons in Ho as [_ ?]. }
  change (concat_str (String c t :: l)) with (String c (t +:+ concat_str l)). revert c.
  induction t as [|d t IHt]; intros c.
  - cbn [String.append chars]. rewrite Hr. destruct l as [|[|d e] l]; [done| |].
    + by apply Forall_cons in Ho as [? _].
    + apply Forall_cons in Ho as [Ho _]. cbn in Ho. destruct (is_continuation d); [done|]. done.
  - apply andb_prop in Hc as [Hd Ht]. cbn [String.append]. by rewrite chars_cons, (IHt Ht d), Hd.
Qed.

Lemma drop_while_suffix {A} (p : A -> bool) l : exists k, l = k ++ drop_while p l.
Proof.
  induction l as [|x l [k IH]]; cbn; [by exists []|]. destruct (p x); [|by exists []].
  exists (x :: k). cbn. by rewrite <- IH.
Qed.

Lemma drop_while_head {A} (p : A -> bool) l x k : drop_while p l = x :: k -> p x = false.
Proof. induction l as [|y l IH]; cbn; [done|]. destruct (p y) eqn:E; [done|]. congruence. Qed.

Lemma drop_while_idem {A} (p : A -> bool) l : drop_while p (drop_while p l) = drop_while p l.
Proof.
  destruct (drop_while p l) as [|x k] eqn:E; [done|]. apply drop_while_head in E. cbn. by rewrite E.
Qed.

Lemma drop_while_map {A} (p : A -> bool) (f : A -> A) l : (forall x, p (f x) = p x) ->
  drop_while p (f <$> l) = f <$> drop_while p l.
Proof. intros Hf. induction l as [|x l IH]; cbn; [done|]. rewrite Hf. by destruct (p x). Qed.

(** What [trim] keeps of a list. *)
Definition strip_both {A} (p : A -> bool) (l : list A) : list A := rev (drop_while p (rev (drop_while p l))).

Lemma strip_both_infix {A} (p : A -> bool) l : exists a b, l = a ++ strip_both p l ++ b.
Proof.
  unfold strip_both. destruct (drop_while_suffix p l) as [a Ha]. destruct (drop_while_suffix p (rev (drop_while p l))) as [b Hb].
  exists a, (rev b). rewrite Ha at 1. f_equal. apply (f_equal (@rev A)) in Hb. rewrite rev_involutive, rev_app_distr in Hb.
  done.
Qed.

Lemma strip_both_idem {A} (p : A -> bool) l : strip_both p (strip_both p l) = strip_both p l.
Proof.
  unfold strip_both at 1 3. rewrite <- (drop_while_idem p (rev (drop_while p l))).
  set (k := drop_while p (rev (drop_while p l))) in *. fold (strip_both p l).
  assert (Hk : strip_both p l = rev k) by done. rewrite Hk.
  assert (Hh : drop_while p (rev k) = rev k); [|by rewrite Hh, rev_involutive].
  destruct (drop_while_suffix p (rev (drop_while p l))) as [b Hb]. fold k in Hb.
  apply (f_equal (@rev A)) in Hb. rewrite rev_involutive, rev_app_distr in Hb.
  destruct (rev k) as [|x r] eqn:E; [done|]. cbn in Hb. apply drop_while_head in Hb. cbn. by rewrite Hb.
Qed.

Lemma chars_trim s : chars (trim s) = strip_both is_whitespace (chars s).
Proof.
  unfold trim. fold (strip_both is_whitespace (chars s)). destruct (chars_cut s) as [Hc Ho].
  destruct (strip_both_infix is_whitespace (chars s)) as (a & b & E). set (k := strip_both _ _) in *. rewrite E in Hc, Ho.
  apply chars_of_cut; [by apply Forall_app in Hc as [_ [? _]%Forall_app]|].
  destruct a as [|x a]; cbn in Ho.
  - destruct k; [constructor|]. cbn in *. by apply Forall_app in Ho as [? _].
  - apply Forall_app in Ho as [_ [Ho _]%Forall_app]. destruct k; [constructor|]. by apply Forall_cons in Ho as [_ ?].
Qed.

Lemma trim_idem s : trim (trim s) = trim s.
Proof.
  unfold trim at 1 3. fold (strip_both is_whitespace (chars (trim s))) (strip_both is_whitespace (chars s)).
  by rewrite chars_trim, strip_both_idem.
Qed.

Lemma lower_continuation c : is_continuation (lower c) = is_continuation c.
Proof. destruct c as [[] [] [] [] [] [] [] []]; done. Qed.

Lemma chars_lower s : chars (to_ascii_lowercase s) = to_ascii_lowercase <$> chars s.
Proof.
  induction s as [|c s IH]; [done|]. cbn [to_ascii_lowercase str_map chars]. fold (to_ascii_lowercase s). rewrite IH.
  destruct (chars s) as [|[|d e] l]; [done..|]. cbn. rewrite lower_continuation. by destruct (is_continuation d).
Qed.

Lemma concat_lower l : concat_str (to_ascii_lowercase <$> l) = to_ascii_lowercase (concat_str l).
Proof.
  induction l as [|e l IH]; [done|]. rewrite fmap_cons.
  change (to_ascii_lowercase e +:+ concat_str (to_ascii_lowercase <$> l) = to_ascii_lowercase (e +:+ concat_str l)).
  rewrite IH. induction e as [|c e IHe]; [done|]. cbn. f_equal. apply IHe.
Qed.

Definition upper_code (n : N) : bool := (65 <=? n)%N && (n <=? 90)%N.

Lemma lower_code c n : upper_code n = false -> (n < 97 \/ 122 < n)%N ->
  N_of_ascii (lower c) = n <-> N_of_ascii c = n.
Proof.
  intros Hu Hl. destruct c as [[] [] [] [] [] [] [] []]; 
    (split; intros <-; [try reflexivity | try reflexivity]; exfalso;
     first [vm_compute in Hu; discriminate Hu | vm_compute in Hl; destruct Hl; discriminate]).
Qed.

Lemma is_whitespace_lower e : is_whitespace (to_ascii_lowercase e) = is_whitespace e.
Proof.
  destruct e as [|c e]; [done|]. destruct e as [|c' e].
  { destruct c as [[] [] [] [] [] [] [] []]; done. }
  assert (Hb : forall l ns, Forall (fun n => upper_code n = false /\ (n < 97 \/ 122 < n)%N) ns ->
    N_of_ascii <$> String.list_ascii_of_string (to_ascii_lowercase l) = ns <-> N_of_ascii <$> String.list_ascii_of_string l = ns).
  { intros l ns Hns. revert l. induction Hns as [|n ns [Hu Hl] _ IH]; intros [|d l]; [done..|]. cbn.
    split; intros [= E1 E2].
    - apply (lower_code d n Hu Hl) in E1. f_equal; [done|]. by apply IH.
    - apply (lower_code d n Hu Hl) in E1. f_equal; [done|]. by apply IH. }
  specialize (Hb (String c (String c' e))).
  change (is_whitespace (to_ascii_lowercase (String c (String c' e)))) with
    (bool_decide (N_of_ascii <$> String.list_ascii_of_string (to_ascii_lowercase (String c (String c' e))) = [194; 133] \/
       N_of_ascii <$> String.list_ascii_of_string (to_ascii_lowercase (String c (String c' e))) = [194; 160] \/
       N_of_ascii <$> String.list_ascii_of_string (to_ascii_lowercase (String c (String c' e))) = [225; 154; 128] \/
       N_of_ascii <$> String.list_ascii_of_string (to_ascii_lowercase (String c (String c' e))) = [226; 129; 159] \/
       N_of_ascii <$> String.list_ascii_of_string (to_ascii_lowercase (String c (String c' e))) = [227; 128; 128])%N ||
     match N_of_ascii <$> String.list_ascii_of_string (to_ascii_lowercase (String c (String c' e))) with
     | [b0; b1; b2] =>
         (b0 =? 226)%N && (b1 =? 128)%N &&
         ((128 <=? b2)%N && (b2 <=? 138)%N || bool_decide (b2 ∈ [168; 169; 175]%N))
     | _ => false
     end).
  unfold is_whitespace. f_equal.
  - apply bool_decide_ext. rewrite !Hb by (repeat constructor; lia). done.
  - destruct e as [|c2 [|c3 e]]; [done| |done].
    assert (He : forall d n, upper_code n = false -> (n < 97 \/ 122 < n)%N ->
      (N_of_ascii (lower d) =? n)%N = (N_of_ascii d =? n)%N).
    { intros d n Hu Hl. apply eq_true_iff_eq. rewrite !N.eqb_eq. by apply lower_code. }
    cbn. rewrite !He by (done || lia). f_equal.
    destruct c2 as [[] [] [] [] [] [] [] []]; done.
Qed.

Lemma trim_lower s : trim (to_ascii_lowercase s) = to_ascii_lowercase (trim s).
Proof.
  unfold trim. rewrite chars_lower, drop_while_map by apply is_whitespace_lower.
  rewrite <- !map_rev, !(drop_while_map is_whitespace to_ascii_lowercase) by apply is_whitespace_lower.
  rewrite <- map_rev. apply concat_lower.
Qed.

(** The form the entries of a policy are stored in is a fixed point. *)
Lemma normal_entry s : to_ascii_lowercase (trim (to_ascii_lowercase (trim s))) = to_ascii_lowercase (trim s).
Proof. by rewrite trim_lower, trim_idem, to_ascii_lowercase_idem. Qed.
