(* ===== verification/RustNum.v ===== *)
(** Machine integers of the standard library and their text.

    An [i32], [i64] or [u64] is a [Z] inside its range; a cast or an
    arithmetic operation that leaves the range wraps around (release builds
    have no overflow checks).  Printing is stdpp's [pretty]. *)

From stdpp Require Import base list strings pretty.
From Stdlib Require Import ZArith Lia Ascii.
From S2P Require Import Prelude RustStr.

Local Open Scope Z_scope.
Local Open Scope string_scope.

(** * Widths *)

Definition wrap_signed (w z : Z) : Z := (z + 2 ^ (w - 1)) mod 2 ^ w - 2 ^ (w - 1).
Definition in_signed (w z : Z) : Prop := - 2 ^ (w - 1) <= z < 2 ^ (w - 1).

Definition as_i32 : Z -> Z := wrap_signed 32.
Definition as_i64 : Z -> Z := wrap_signed 64.
Definition as_u64 (z : Z) : Z := z mod 2 ^ 64.
Definition as_u32 (z : Z) : Z := z mod 2 ^ 32.

Definition I32_MAX : Z := 2 ^ 31 - 1.
Definition I64_MAX : Z := 2 ^ 63 - 1.

Lemma wrap_signed_id w z : 0 < w -> in_signed w z -> wrap_signed w z = z.
Proof.
  unfold wrap_signed, in_signed. intros Hw Hz.
  assert (2 ^ w = 2 * 2 ^ (w - 1)) as Ep by (rewrite <- Z.pow_succ_r by lia; f_equal; lia).
  rewrite Z.mod_small; lia.
Qed.

Lemma wrap_signed_range w z : 0 < w -> in_signed w (wrap_signed w z).
Proof.
  unfold wrap_signed, in_signed. intros Hw.
  assert (2 ^ w = 2 * 2 ^ (w - 1)) as Ep by (rewrite <- Z.pow_succ_r by lia; f_equal; lia).
  pose proof (Z.pow_pos_nonneg 2 (w - 1)).
  pose proof (Z.mod_pos_bound (z + 2 ^ (w - 1)) (2 ^ w)). lia.
Qed.

Lemma as_i32_id z : - 2 ^ 31 <= z < 2 ^ 31 -> as_i32 z = z.
Proof. intros. by apply wrap_signed_id. Qed.

Lemma as_i64_id z : - 2 ^ 63 <= z < 2 ^ 63 -> as_i64 z = z.
Proof. intros. by apply wrap_signed_id. Qed.

Lemma as_u64_id z : 0 <= z < 2 ^ 64 -> as_u64 z = z.
Proof. intros. by apply Z.mod_small. Qed.

(** * Text *)

(** [str::parse::<i64>]: an optional sign, then digits, refused outside the
    range. *)
Definition parse_i64 (s : string) : option Z :=
  match s with
  | String "-" r =>
      if negb (is_empty r) && str_all is_digit r && Z.leb (Z.of_N (digits_val 0 r)) (2 ^ 63)
      then Some (- Z.of_N (digits_val 0 r)) else None
  | _ =>
      let body := match s with String "+" r => r | _ => s end in
      if negb (is_empty body) && str_all is_digit body && Z.leb (Z.of_N (digits_val 0 body)) I64_MAX
      then Some (Z.of_N (digits_val 0 body)) else None
  end.

Lemma pretty_Z_nonneg z : 0 <= z -> pretty z = pretty (Z.to_N z).
Proof. by destruct z. Qed.

Lemma parse_i64_range s z : parse_i64 s = Some z -> - 2 ^ 63 <= z <= I64_MAX.
Proof.
  assert (Hpos : forall body,
    (if negb (is_empty body) && str_all is_digit body && Z.leb (Z.of_N (digits_val 0 body)) I64_MAX
     then Some (Z.of_N (digits_val 0 body)) else None) = Some z -> - 2 ^ 63 <= z <= I64_MAX).
  { intros body. destruct (_ && _) eqn:E; [|done]. apply andb_prop in E as [_ E%Z.leb_le].
    intros [= <-]. unfold I64_MAX in *. lia. }
  unfold parse_i64. destruct s as [|c r]; [apply (Hpos "")|].
  destruct (Ascii.eqb_spec c "-") as [->|Hne].
  - destruct (_ && _) eqn:E; [|done]. apply andb_prop in E as [_ E%Z.leb_le].
    intros [= <-]. unfold I64_MAX. lia.
  - destruct c as [[] [] [] [] [] [] [] []]; try done; apply Hpos.
Qed.

(** A text without a minus sign denotes no negative number. *)
Lemma parse_i64_nonneg s z :
  str_all (fun c => negb (Ascii.eqb "-" c)) s = true -> parse_i64 s = Some z -> 0 <= z.
Proof.
  intros Hs. unfold parse_i64. destruct s as [|c r]; [done|].
  apply andb_prop in Hs as [Hc _].
  assert (Hpos : forall body (b : bool), (if b then Some (Z.of_N (digits_val 0 body)) else None) = Some z -> 0 <= z).
  { intros body []; [intros [= <-]; lia|done]. }
  destruct c as [[] [] [] [] [] [] [] []]; try done; apply Hpos.
Qed.

Lemma parse_i64_pretty z : 0 <= z <= I64_MAX -> parse_i64 (pretty z) = Some z.
Proof.
  intros Hz. rewrite pretty_Z_nonneg by lia.
  destruct (pretty_digits (Z.to_N z)) as [Hv Hd]. destruct (pretty_head (Z.to_N z)) as (c & s & E & Hc).
  rewrite E in *. unfold parse_i64.
  assert (Hbody : match String c s with String "+" r => r | _ => String c s end = String c s).
  { destruct c as [[] [] [] [] [] [] [] []]; done. }
  rewrite Hbody, Hd, Hv, Z2N.id by lia. rewrite (proj2 (Z.leb_le _ _)) by lia.
  cbn [is_empty String.eqb negb andb].
  destruct c as [[] [] [] [] [] [] [] []]; done.
Qed.

(** [{:0w}]: the digits of a number, padded with zeros to a width. *)
Fixpoint zeros (n : nat) : string :=
  match n with O => "" | S n => String "0" (zeros n) end.

Definition zero_pad (w : nat) (z : Z) : string :=
  let sign := if Z.ltb z 0 then "-" else "" in
  let digits := pretty (Z.abs z) in
  sign +:+ zeros (w - String.length sign - String.length digits)%nat +:+ digits.

Lemma digits_val_app a s t : digits_val a (s +:+ t) = digits_val (digits_val a s) t.
Proof. revert a. by induction s as [|c s IH]; intros a; cbn; [|rewrite IH]. Qed.

Lemma zeros_digits n : digits_val 0 (zeros n) = 0%N /\ str_all is_digit (zeros n) = true.
Proof. by induction n. Qed.

Lemma zero_pad_digits w z : 0 <= z ->
  digits_val 0 (zero_pad w z) = Z.to_N z /\ str_all is_digit (zero_pad w z) = true.
Proof.
  intros Hz. unfold zero_pad. rewrite (proj2 (Z.ltb_ge _ _)) by lia. cbn [String.append].
  rewrite Z.abs_eq, pretty_Z_nonneg by lia.
  destruct (pretty_digits (Z.to_N z)) as [Hv Hd].
  rewrite digits_val_app, str_all_app, Hd, !(proj1 (zeros_digits _)), !(proj2 (zeros_digits _)), Hv. done.
Qed.

Lemma zero_pad_digits_neg w z : z < 0 ->
  exists t, zero_pad w z = String "-" t /\ digits_val 0 t = Z.to_N (- z) /\ str_all is_digit t = true.
Proof.
  intros Hz. unfold zero_pad. rewrite (proj2 (Z.ltb_lt _ _)) by lia. cbn [String.append]. eexists. split; [done|].
  rewrite Z.abs_neq, pretty_Z_nonneg by lia. destruct (pretty_digits (Z.to_N (- z))) as [Hv Hd].
  by rewrite digits_val_app, str_all_app, Hd, !(proj1 (zeros_digits _)), !(proj2 (zeros_digits _)), Hv.
Qed.

Lemma zero_pad_inj w x y : zero_pad w x = zero_pad w y -> x = y.
Proof.
  intros E. destruct (Z.lt_ge_cases x 0) as [Hx|Hx], (Z.lt_ge_cases y 0) as [Hy|Hy].
  - destruct (zero_pad_digits_neg w x Hx) as (t & Ex & Vx & _), (zero_pad_digits_neg w y Hy) as (u & Ey & Vy & _).
    rewrite Ex, Ey in E. injection E as ->. lia.
  - destruct (zero_pad_digits_neg w x Hx) as (t & Ex & _). pose proof (proj2 (zero_pad_digits w y Hy)) as D.
    by rewrite <- E, Ex in D.
  - destruct (zero_pad_digits_neg w y Hy) as (t & Ey & _). pose proof (proj2 (zero_pad_digits w x Hx)) as D.
    by rewrite E, Ey in D.
  - pose proof (proj1 (zero_pad_digits w x Hx)) as Ex. rewrite E, (proj1 (zero_pad_digits w y Hy)) in Ex. lia.
Qed.

(** * Trimming printable text *)

Definition is_printable (c : ascii) : bool := in_range 32 126 c.

Lemma chars_printable s : str_all is_printable s = true ->
  chars s = (fun c => String c "") <$> String.list_ascii_of_string s.
Proof.
  induction s as [|c s IH]; [done|]. intros [Hc Hs]%andb_prop. cbn [chars String.list_ascii_of_string fmap list_fmap].
  rewrite (IH Hs). destruct s as [|d s]; [done|]. cbn [String.list_ascii_of_string fmap list_fmap].
  apply andb_prop in Hs as [Hd _]. assert (is_continuation d = false) as ->; [|done].
  destruct d as [[] [] [] [] [] [] [] []]; done.
Qed.

(** Printable text that starts and ends with a visible byte is already
    trimmed. *)
Lemma trim_printable a s z :
  str_all is_printable (String a s +:+ String z "") = true ->
  is_graphic a = true -> is_graphic z = true ->
  trim (String a s +:+ String z "") = String a s +:+ String z "".
Proof.
  intros Hs Ha Hz. unfold trim.
  assert (Hw : forall c l, is_graphic c = true ->
    drop_while is_whitespace (String c "" :: l) = String c "" :: l).
  { intros c l Hc. enough (is_whitespace (String c "") = false) as Hn by (cbn [drop_while]; by rewrite Hn).
    destruct c as [[] [] [] [] [] [] [] []]; done. }
  assert (Hl : forall t u, String.list_ascii_of_string (t +:+ u) = (String.list_ascii_of_string t ++ String.list_ascii_of_string u)%list).
  { intros t u. induction t as [|c t IH]; cbn; [done|]. by rewrite IH. }
  transitivity (concat_str (chars (String a s +:+ String z ""))); [|apply chars_concat].
  rewrite chars_printable by done. f_equal.
  rewrite Hl, fmap_app. cbn [String.list_ascii_of_string fmap list_fmap app].
  rewrite (Hw a) by done.
  rewrite app_comm_cons, rev_app_distr. cbn [rev app]. rewrite (Hw z) by done.
  cbn [rev]. rewrite rev_app_distr, rev_involutive. cbn [rev app]. done.
Qed.

(** * Sums over index ranges *)

Definition sumZ (l : list Z) : Z := foldr Z.add 0 l.

Lemma sumZ_app l k : sumZ (l ++ k)%list = sumZ l + sumZ k.
Proof. unfold sumZ. induction l as [|x l IH]; cbn; lia. Qed.

(** Pieces of size [c] cut from [total] add up to what was cut. *)
Lemma sum_pieces total c n : 0 <= total -> 0 < c ->
  sumZ ((fun i => Z.max 0 (Z.min c (total - i * c))) <$> seqZ 0 (Z.of_nat n)) = Z.min (Z.of_nat n * c) total.
Proof.
  intros Ht Hc. induction n as [|n IH]; [rewrite seqZ_nil by done; change (0 = Z.min 0 total); lia|].
  rewrite seqZ_S, fmap_app, sumZ_app, IH. unfold sumZ. cbn [fmap list_fmap foldr].
  replace (Z.of_nat (S n) * c) with (Z.of_nat n * c + c) by lia. rewrite Z.add_0_l.
  generalize (Z.of_nat n * c). lia.
Qed.

Lemma sumZ_upper (f : Z -> Z) c n : (forall i, 0 <= i < Z.of_nat n -> f i <= c) ->
  sumZ (f <$> seqZ 0 (Z.of_nat n)) <= Z.of_nat n * c.
Proof.
  intros Hf. induction n as [|n IH]; [done|].
  rewrite seqZ_S, fmap_app, sumZ_app. cbn [fmap list_fmap]. unfold sumZ at 2. cbn [foldr].
  pose proof (Hf (Z.of_nat n) ltac:(lia)). specialize (IH ltac:(intros; apply Hf; lia)).
  rewrite Z.add_0_l. nia.
Qed.

(** * Cutting a text into pieces *)

Lemma substring_0_add a b s :
  String.substring 0 (a + b) s = String.substring 0 a s +:+ String.substring a b s.
Proof.
  revert a. induction s as [|c s IH]; intros [|a]; cbn; [by destruct b|done|done|].
  f_equal. apply IH.
Qed.

Lemma substring_all n s : (String.length s <= n)%nat -> String.substring 0 n s = s.
Proof.
  revert n. induction s as [|c s IH]; intros [|n]; cbn; [done|done|lia|].
  intros. f_equal. apply IH. lia.
Qed.

Lemma length_substring n m s : String.length (String.substring n m s) = Nat.min m (String.length s - n).
Proof.
  revert n m. induction s as [|c s IH]; intros [|n] [|m]; cbn; rewrite ?IH, ?Nat.sub_0_r; done.
Qed.

(** Changing one summand of a range. *)
Lemma sumZ_update (f g : Z -> Z) n j : 0 <= j < n -> (forall i, i <> j -> g i = f i) ->
  sumZ (g <$> seqZ 0 n) = sumZ (f <$> seqZ 0 n) + (g j - f j).
Proof.
  intros Hj Hfg. rewrite <- (Z2Nat.id n) in * by lia. induction (Z.to_nat n) as [|k IH]; [lia|].
  rewrite seqZ_S, !fmap_app, !sumZ_app. cbn [fmap list_fmap]. rewrite Z.add_0_l. unfold sumZ at 2 4. cbn [foldr].
  destruct (decide (j = Z.of_nat k)) as [->|Hne].
  - assert (g <$> seqZ 0 (Z.of_nat k) = f <$> seqZ 0 (Z.of_nat k)) as ->; [|lia].
    apply list_fmap_ext. intros ? i Hi%list_elem_of_lookup_2%elem_of_seqZ. apply Hfg. lia.
  - rewrite IH, (Hfg (Z.of_nat k)) by lia. lia.
Qed.

Lemma sumZ_zero (f : Z -> Z) n : (forall i, 0 <= i < n -> f i = 0) -> sumZ (f <$> seqZ 0 n) = 0.
Proof.
  intros Hf. assert (Hl : forall l, (forall i, i ∈ l -> f i = 0) -> sumZ (f <$> l) = 0).
  { intros l. unfold sumZ. induction l as [|i l IH]; intros Hl; cbn; [done|]. rewrite (Hl i), IH; [done| |by left].
    intros k Hk. apply Hl. by right. }
  apply Hl. intros i Hi%elem_of_seqZ. apply Hf. lia.
Qed.

Lemma sumZ_le (f g : Z -> Z) n : (forall i, 0 <= i < n -> f i <= g i) ->
  sumZ (f <$> seqZ 0 n) <= sumZ (g <$> seqZ 0 n).
Proof.
  intros Hf. assert (Hl : forall l, (forall i, i ∈ l -> f i <= g i) -> sumZ (f <$> l) <= sumZ (g <$> l)).
  { intros l. unfold sumZ. induction l as [|i l IH]; intros Hl; cbn; [done|].
    pose proof (Hl i ltac:(by left)). specialize (IH ltac:(intros; apply Hl; by right)). lia. }
  apply Hl. intros i Hi%elem_of_seqZ. apply Hf. lia.
Qed.

Lemma sumZ_const c n : 0 <= n -> sumZ ((fun _ => c) <$> seqZ 0 n) = n * c.
Proof.
  intros Hn. rewrite <- (Z2Nat.id n) by done. induction (Z.to_nat n) as [|k IH]; [done|].
  rewrite seqZ_S, fmap_app, sumZ_app, IH. cbn. lia.
Qed.
