(* ===== verification/Errors.v ===== *)
(** The errors the services return ([error.rs]), of which a handler makes the
    status of the response.  The variants the modelled services do not build
    are left out, and so is the typed [sqlx::Error]: a statement that fails is
    a [Database] with its rendered text. *)

From stdpp Require Import base strings.
From S2P Require Import Prelude RustStr.

Local Open Scope string_scope.

Inductive AppError :=
| Database (msg : string)
| Authentication (msg : string)
| Authorization (msg : string)
| Unauthorized (msg : string)
| NotFound (msg : string)
| Conflict (msg : string)
| Validation (msg : string)
| Storage (msg : string)
| ServiceUnavailable (msg : string)
| Internal (msg : string).

(** [Display]. *)
Definition error_text (e : AppError) : string :=
  match e with
  | Database msg => "Database error: " +:+ msg
  | Authentication msg => "Authentication failed: " +:+ msg
  | Authorization msg => "Access denied: " +:+ msg
  | Unauthorized msg => "Unauthorized: " +:+ msg
  | NotFound msg => "Resource not found: " +:+ msg
  | Conflict msg => "Conflict: " +:+ msg
  | Validation msg => "Validation error: " +:+ msg
  | Storage msg => "Storage error: " +:+ msg
  | ServiceUnavailable msg => "Service unavailable: " +:+ msg
  | Internal msg => "Internal error: " +:+ msg
  end.

Definition is_pool_timeout (msg : string) : bool :=
  let lower := to_ascii_lowercase msg in
  contains "pool timed out" lower || contains "pooltimedout" lower.

Definition MARKERS : list string :=
  [ "closed pool";
    "error communicating with database";
    "tls connection";
    "crashed background worker";
    "canceling statement due to statement timeout";
    "canceling statement due to lock timeout";
    "terminating connection";
    "connection refused";
    "connection reset";
    "too many clients already";
    "the database system is starting up";
    "the database system is shutting down";
    "the database system is in recovery mode" ].

Definition is_db_unavailable_message (msg : string) : bool :=
  if is_pool_timeout msg then true
  else existsb (fun m => contains m (to_ascii_lowercase msg)) MARKERS.

(** The database could not answer, as opposed to a wrong query or bad data. *)
Definition is_db_unavailable (e : AppError) : bool :=
  match e with Database msg => is_db_unavailable_message msg | _ => false end.

Example unavailable_1 : is_db_unavailable (Database "pool timed out while waiting for an open connection") = true /\
  is_db_unavailable (Database "invalid byte sequence for encoding") = false.
Proof. vm_compute. done. Qed.
