(* ===== verification/Chrono.v ===== *)
(** The interface of the [chrono] crate the components rely on.

    An instant and a duration are counts of nanoseconds.  The crate's
    representable range is not fixed here; its checked constructors return
    [None] outside it. *)

From stdpp Require Import base tactics.
From Stdlib Require Import ZArith Lia.
From S2P Require Import Prelude.

Local Open Scope Z_scope.

Definition NANOS_PER_SEC : Z := 1000000000.
Definition NANOS_PER_DAY : Z := 86400 * NANOS_PER_SEC.

Class Chrono := {
  MIN_UTC : DateTime;
  MAX_UTC : DateTime;
  (** [Duration::try_seconds] *)
  try_seconds : Z -> option Z;
  (** [DateTime::checked_add_signed] *)
  checked_add_signed : DateTime -> Z -> option DateTime;
  (** [Duration::num_days] *)
  num_days : Z -> Z;

  (** A duration holds at least [i64::MAX] milliseconds either way. *)
  try_seconds_spec : forall s, Z.abs s <= 9223372036854775 -> try_seconds s = Some (s * NANOS_PER_SEC);
  try_seconds_value : forall s d, try_seconds s = Some d -> d = s * NANOS_PER_SEC;
  checked_add_spec : forall t d,
    checked_add_signed t d = if (MIN_UTC <=? t + d) && (t + d <=? MAX_UTC) then Some (t + d) else None;
  (** Whole days, rounded towards zero. *)
  num_days_spec : forall d, num_days d = Z.quot d NANOS_PER_DAY
}.

(** A model of the interface, with the crate's documented range of years. *)
Section Reference.
Let lo : DateTime := -8334601228800 * NANOS_PER_SEC.
Let hi : DateTime := 8210266876799 * NANOS_PER_SEC.
Let seconds (s : Z) : option Z :=
  if Z.abs s <=? 9223372036854775 then Some (s * NANOS_PER_SEC) else None.

Lemma reference_seconds s : Z.abs s <= 9223372036854775 -> seconds s = Some (s * NANOS_PER_SEC).
Proof. intros Hs%Z.leb_le. unfold seconds. by rewrite Hs. Qed.

Lemma reference_seconds_value s d : seconds s = Some d -> d = s * NANOS_PER_SEC.
Proof. unfold seconds. destruct (_ <=? _); congruence. Qed.

Definition reference_chrono : Chrono :=
  {| MIN_UTC := lo; MAX_UTC := hi; try_seconds := seconds;
     checked_add_signed t d := if (lo <=? t + d) && (t + d <=? hi) then Some (t + d) else None;
     num_days d := Z.quot d NANOS_PER_DAY;
     try_seconds_spec := reference_seconds; try_seconds_value := reference_seconds_value;
     checked_add_spec _ _ := eq_refl; num_days_spec _ := eq_refl |}.
End Reference.
