(* ===== verification/Glob.v ===== *)
(** Glob matching of package names ([util/glob.rs]): the executable matcher
    with its backtracking loop, a declarative reading of patterns, and their
    equivalence. *)

From stdpp Require Import base list strings.
From S2P Require Import Prelude RustStr.

Local Open Scope string_scope.
Local Open Scope list_scope.

(** The recursion advances [pi] and [ti]; here the two arguments are the
    suffixes [&pattern[pi..]] and [&text[ti..]], and the [skip] loop of a [*]
    runs over the suffixes of the text. *)
Fixpoint glob_match_inner (pattern text : list string) : bool :=
  match pattern with
  | [] => match text with [] => true | _ :: _ => false end
  | c :: pattern' =>
      if c =? "*" then
        (fix skip (t : list string) : bool :=
           glob_match_inner pattern' t ||
           match t with [] => false | _ :: t' => skip t' end) text
      else
        match text with
        | [] => false
        | d :: text' =>
            if (c =? "?") || (c =? d) then glob_match_inner pattern' text' else false
        end
  end.

Definition glob_match (pattern text : string) : bool :=
  glob_match_inner (chars pattern) (chars text).

(** ** Declarative reading *)

Inductive glob : list string -> list string -> Prop :=
| glob_nil : glob [] []
| glob_star p skipped t : glob p t -> glob ("*" :: p) (skipped ++ t)
| glob_any p d t : glob p t -> glob ("?" :: p) (d :: t)
| glob_char c p t : c <> "*" -> glob p t -> glob (c :: p) (c :: t).

#[local] Hint Constructors glob : core.

Lemma glob_star_loop (p : list string) t :
  (fix skip (t : list string) : bool :=
     glob_match_inner p t || match t with [] => false | _ :: t' => skip t' end) t = true <->
  exists skipped rest, t = skipped ++ rest /\ glob_match_inner p rest = true.
Proof.
  induction t as [|d t IH]; rewrite orb_true_iff.
  - split; [intros [H|[=]]; by exists [], []|].
    intros (sk & r & Heq & H). symmetry in Heq. apply app_nil in Heq as [-> ->]. by left.
  - rewrite IH. split.
    + intros [H|(sk & r & -> & H)]; [by exists [], (d :: t) | by exists (d :: sk), r].
    + intros ([|e sk] & r & Heq & H); simplify_eq/=; [by left | right; eauto].
Qed.

Lemma glob_match_inner_iff p t : glob_match_inner p t = true <-> glob p t.
Proof.
  revert t. induction p as [|c p IH]; intros t.
  - destruct t; simpl; split; try done. by inversion 1.
  - cbn [glob_match_inner]. destruct (String.eqb_spec c "*") as [->|Hstar].
    + rewrite glob_star_loop. split.
      * intros (sk & r & -> & H%IH). auto.
      * inversion 1; subst; [eexists _, _; split; [done|by apply IH]|done].
    + destruct t as [|d t].
      * split; [done|]. by inversion 1.
      * destruct (String.eqb_spec c "?") as [->|Hany]; [|destruct (String.eqb_spec c d) as [->|Hne]];
          cbn [orb]; rewrite ?IH; (split; [try done; auto | inversion 1; subst; done]).
Qed.

(** [glob_match] decides exactly the declarative reading of a pattern:
    [*] stands for any sequence of characters (the empty one included), [?]
    for one character, and every other character for itself. *)
Theorem glob_match_correct (pattern text : string) :
  glob_match pattern text = true <-> glob (chars pattern) (chars text).
Proof. apply glob_match_inner_iff. Qed.

(** The pattern [*] of a default rule matches every name. *)
Lemma glob_match_star text : glob_match "*" text = true.
Proof.
  apply glob_match_inner_iff. change (chars "*") with ["*"].
  rewrite <- (app_nil_r (chars text)). auto.
Qed.
