(* ===== verification/VersionOrder.v ===== *)
(** Segment comparators for version strings ([services/version_order.rs]) and
    their laws: digit runs compare by value without parsing, and both segment
    comparators are total preorders, which [sort_by] requires. *)

From stdpp Require Import base list strings.
From Stdlib Require Import ZArith Lia Ascii.
From S2P Require Import Prelude RustStr.

Local Open Scope string_scope.
Local Open Scope list_scope.

Definition is_zero (c : ascii) : bool := Ascii.eqb c "0".

Definition compare_digit_runs (a b : string) : comparison :=
  let a := trim_start_by is_zero a in
  let b := trim_start_by is_zero b in
  then_cmp (Nat.compare (String.length a) (String.length b)) (String.compare a b).

Definition split_leading_digits (s : string) : option string * string :=
  let n := String.length (take_while is_digit s) in
  if Nat.eqb n 0 then (None, s)
  else (Some (String.substring 0 n s), String.substring n (String.length s - n) s).

Definition compare_natural_segment (a b : string) : comparison :=
  match split_leading_digits a, split_leading_digits b with
  | (Some da, ra), (Some db, rb) => then_cmp (compare_digit_runs da db) (String.compare ra rb)
  | (Some _, _), (None, _) => Lt
  | (None, _), (Some _, _) => Gt
  | (None, ra), (None, rb) => String.compare ra rb
  end.

Definition compare_semver_prerelease_identifier (a b : string) : comparison :=
  let numeric s := negb (is_empty s) && str_all is_digit s in
  match numeric a, numeric b with
  | true, true => compare_digit_runs a b
  | true, false => Lt
  | false, true => Gt
  | false, false => String.compare a b
  end.

(** ** Laws *)

#[export] Instance compare_digit_runs_preorder : TotalPreorder compare_digit_runs.
Proof.
  apply (cmp_on_preorder (trim_start_by is_zero)
           (lex (cmp_on String.length Nat.compare) String.compare)).
Qed.

#[export] Instance compare_natural_segment_preorder : TotalPreorder compare_natural_segment.
Proof.
  set (cls (k : option string * string) := match k.1 with Some _ => true | None => false end).
  set (dig (k : option string * string) := default "" k.1).
  assert (H : TotalPreorder (cmp_on split_leading_digits
    (cmp_class cls (lex (cmp_on dig compare_digit_runs) (cmp_on snd String.compare))
                   (cmp_on snd String.compare)))) by apply _.
  assert (Heq : forall a b, compare_natural_segment a b =
    cmp_on split_leading_digits
    (cmp_class cls (lex (cmp_on dig compare_digit_runs) (cmp_on snd String.compare))
                   (cmp_on snd String.compare)) a b).
  { intros a b. unfold compare_natural_segment, cmp_on, cmp_class, lex, cls, dig.
    by destruct (split_leading_digits a) as [[] ?], (split_leading_digits b) as [[] ?]. }
  split; intros *; rewrite !Heq; apply H.
Qed.

#[export] Instance compare_semver_preorder : TotalPreorder compare_semver_prerelease_identifier.
Proof.
  apply (cmp_class_preorder (fun s => negb (is_empty s) && str_all is_digit s)
           compare_digit_runs String.compare).
Qed.

(** *** Digit runs compare by value *)

Definition digit_val (c : ascii) : N := N_of_ascii c - 48.

Lemma is_digit_range c : is_digit c = true -> (48 <= N_of_ascii c <= 57)%N.
Proof. unfold is_digit, in_range. intros [?%N.leb_le ?%N.leb_le]%andb_prop. lia. Qed.

Lemma digits_val_acc s acc :
  digits_val acc s = (acc * 10 ^ N.of_nat (String.length s) + digits_val 0 s)%N.
Proof.
  revert acc. induction s as [|c s IH]; intros acc; cbn [digits_val String.length].
  - rewrite N.pow_0_r. lia.
  - rewrite IH, (IH (10 * 0 + _)%N), Nat2N.inj_succ, N.pow_succ_r'. lia.
Qed.

Lemma digits_val_bound s :
  str_all is_digit s = true -> (digits_val 0 s < 10 ^ N.of_nat (String.length s))%N.
Proof.
  induction s as [|c s IH]; cbn [digits_val String.length str_all]; [done|].
  intros [Hc%is_digit_range Hs]%andb_prop. specialize (IH Hs).
  rewrite digits_val_acc, Nat2N.inj_succ, N.pow_succ_r'. nia.
Qed.

Lemma digits_val_trim s :
  digits_val 0 (trim_start_by is_zero s) = digits_val 0 s.
Proof.
  induction s as [|c s IH]; simpl; [done|]. unfold is_zero.
  destruct (Ascii.eqb_spec c "0") as [->|]; [exact IH|done].
Qed.

(** After the leading zeros, a longer run is a larger number. *)
Lemma digits_val_lower c s :
  is_digit c = true -> is_zero c = false ->
  (10 ^ N.of_nat (String.length s) <= digits_val 0 (String c s))%N.
Proof.
  unfold is_zero. intros Hc%is_digit_range Hz. cbn [digits_val]. rewrite digits_val_acc.
  destruct (Ascii.eqb_spec c "0") as [|Hne]; [done|].
  assert (N_of_ascii c <> 48%N).
  { intros H. apply Hne. rewrite <- (ascii_N_embedding c), H. done. }
  nia.
Qed.

Lemma digits_compare_same_length s t :
  str_all is_digit s = true -> str_all is_digit t = true ->
  String.length s = String.length t ->
  String.compare s t = N.compare (digits_val 0 s) (digits_val 0 t).
Proof.
  revert t. induction s as [|c s IH]; intros [|d t]; try done.
  cbn [str_all String.length]. intros [Hc Hs]%andb_prop [Hd Ht]%andb_prop [= Hlen].
  pose proof (is_digit_range _ Hc). pose proof (is_digit_range _ Hd).
  pose proof (digits_val_bound s Hs) as Bs. pose proof (digits_val_bound t Ht) as Bt.
  cbn [digits_val]. rewrite (digits_val_acc s), (digits_val_acc t), Hlen.
  rewrite Hlen in Bs. specialize (IH t Hs Ht Hlen).
  set (p := (10 ^ N.of_nat (String.length t))%N) in *.
  cbn [String.compare]. unfold Ascii.compare.
  destruct (N.compare_spec (N_of_ascii c) (N_of_ascii d)) as [E|E|E]; symmetry.
  - rewrite IH, E. destruct (N.compare_spec (digits_val 0 s) (digits_val 0 t));
      [apply N.compare_eq_iff | apply N.compare_lt_iff | apply N.compare_gt_iff]; lia.
  - apply N.compare_lt_iff. nia.
  - apply N.compare_gt_iff. nia.
Qed.

Lemma str_all_trim p q s : str_all p s = true -> str_all p (trim_start_by q s) = true.
Proof.
  induction s as [|c s IH]; simpl; [done|]. intros [Hc Hs]%andb_prop.
  destruct (q c); simpl; [auto|]. by rewrite Hc, Hs.
Qed.

Lemma trim_start_head q s c r : trim_start_by q s = String c r -> q c = false.
Proof.
  induction s as [|d s IH]; simpl; [done|]. destruct (q d) eqn:E; [auto|]. congruence.
Qed.

Lemma digits_shorter s t :
  str_all is_digit s = true -> str_all is_digit t = true ->
  (forall c r, t = String c r -> is_zero c = false) ->
  String.length s < String.length t -> (digits_val 0 s < digits_val 0 t)%N.
Proof.
  intros Hs Ht Hz Hlen. destruct t as [|c t]; [simpl in Hlen; lia|].
  simpl in Ht. apply andb_prop in Ht as [Hc Ht].
  pose proof (digits_val_lower c t Hc (Hz _ _ eq_refl)).
  pose proof (digits_val_bound s Hs). cbn [String.length] in Hlen.
  assert (10 ^ N.of_nat (String.length s) <= 10 ^ N.of_nat (String.length t))%N
    by (apply N.pow_le_mono_r; lia).
  lia.
Qed.

(** Two runs of ASCII digits compare by the numbers they denote, however
    long they are and whatever their leading zeros: the comparison never
    parses, so it never overflows. *)
Theorem compare_digit_runs_by_value (a b : string)
  (Ha : str_all is_digit a = true) (Hb : str_all is_digit b = true) :
  compare_digit_runs a b = N.compare (digits_val 0 a) (digits_val 0 b).
Proof.
  rewrite <- (digits_val_trim a), <- (digits_val_trim b). unfold compare_digit_runs.
  pose proof (str_all_trim _ is_zero a Ha) as Ha'. pose proof (str_all_trim _ is_zero b Hb) as Hb'.
  pose proof (trim_start_head is_zero a) as Za. pose proof (trim_start_head is_zero b) as Zb.
  set (a' := trim_start_by is_zero a) in *. set (b' := trim_start_by is_zero b) in *.
  destruct (Nat.compare_spec (String.length a') (String.length b')) as [E|E|E]; simpl; symmetry.
  - symmetry. by apply digits_compare_same_length.
  - apply N.compare_lt_iff. apply digits_shorter; auto.
  - apply N.compare_gt_iff. apply digits_shorter; auto.
Qed.

Lemma compare_digit_runs_by_value_witness :
  compare_digit_runs "00018446744073709551617" "18446744073709551616" = Gt.
Proof.
  rewrite (compare_digit_runs_by_value "00018446744073709551617" "18446744073709551616");
    reflexivity.
Defined.
