(* ===== verification/MavenVersion.v ===== *)
(** Maven version ordering ([formats/maven_version.rs]): the parser into
    nested item lists, the comparator, and the selection functions built on
    it.  The comparator is antisymmetric and agrees with the numeric order on
    plain dotted releases, but it is not transitive on versions that mix
    qualifiers after [.] and after [-], and it identifies versions that
    [PartialEq] tells apart. *)

From stdpp Require Import base list strings pretty.
From Stdlib Require Import ZArith Lia Ascii.
From S2P Require Import Prelude RustStr.

Local Open Scope string_scope.
Local Open Scope list_scope.

(** [ListItem] is the vector it wraps, [StringItem] the string it wraps. *)
Inductive Item :=
| Int (n : N)
| Str (s : string)
| List (l : list Item).

Record MavenVersion := { canonical : string; items : list Item }.

Definition qualifier_rank (s : string) : option Z :=
  if one_of s ["alpha"; "a"] then Some 0%Z
  else if one_of s ["beta"; "b"] then Some 1%Z
  else if one_of s ["milestone"; "m"] then Some 2%Z
  else if one_of s ["rc"; "cr"] then Some 3%Z
  else if one_of s ["snapshot"] then Some 4%Z
  else if one_of s [""; "ga"; "final"; "release"] then Some 5%Z
  else if one_of s ["sp"] then Some 6%Z
  else None.

(** ** Parsing *)

Definition make_item (is_digit : bool) (token : string) : Item :=
  if is_digit then Int (default 0%N (parse_u64 token))
  else
    Str (if one_of token ["a"] then "alpha"
         else if one_of token ["b"] then "beta"
         else if one_of token ["m"] then "milestone"
         else if one_of token ["cr"] then "rc"
         else if one_of token ["ga"; "final"; "release"] then ""
         else token).

Definition is_null (i : Item) : bool :=
  match i with
  | Int n => N.eqb n 0
  | Str s => is_empty s
  | List l => match l with [] => true | _ => false end
  end.

(** Pops the last item while it is a null. *)
Definition trim_trailing_nulls (l : list Item) : list Item := rev (drop_while is_null (rev l)).

(** The local variables of [parse_items]; the stack is never empty, [top] is
    its last element and [below] the rest, innermost first. *)
Record pstate := {
  top : list Item;
  below : list (list Item);
  current : string;
  is_digit_run : bool
}.

Definition push (i : Item) (st : pstate) : pstate :=
  {| top := top st ++ [i]; below := below st; current := current st; is_digit_run := is_digit_run st |}.

Definition flush (st : pstate) : pstate :=
  if is_empty (current st) then st
  else {| top := top st ++ [make_item (is_digit_run st) (current st)]; below := below st;
          current := ""; is_digit_run := is_digit_run st |}.

Definition open_list (st : pstate) : pstate :=
  {| top := []; below := top st :: below st; current := current st; is_digit_run := is_digit_run st |}.

Definition parse_step (st : pstate) (ch : ascii) : pstate :=
  if Ascii.eqb ch "." then
    if is_empty (current st) then push (Int 0) st else flush st
  else if Ascii.eqb ch "-" then open_list (flush st)
  else
    let ch_is_digit := is_digit ch in
    let st :=
      if negb (is_empty (current st)) && negb (Bool.eqb ch_is_digit (is_digit_run st))
      then if ch_is_digit then flush st else open_list (flush st)
      else st in
    {| top := top st; below := below st;
       current := current st +:+ String ch ""; is_digit_run := ch_is_digit |}.

Fixpoint collapse (child : list Item) (below : list (list Item)) : list Item :=
  match below with
  | [] => trim_trailing_nulls child
  | parent :: below => collapse (parent ++ [List (trim_trailing_nulls child)]) below
  end.

Definition parse_items (version : string) : list Item :=
  let st := fold_left parse_step (String.list_ascii_of_string version)
    {| top := []; below := []; current := ""; is_digit_run := false |} in
  let st := flush st in
  collapse (top st) (below st).

Fixpoint fmt_item (i : Item) : string :=
  match i with
  | Int n => pretty n
  | Str s => s
  | List l => "(" +:+ join "." (map fmt_item l) +:+ ")"
  end.

Definition fmt_items (l : list Item) : string := join "." (map fmt_item l).

Definition parse (version : string) : MavenVersion :=
  let lower := to_lowercase version in
  let items := parse_items lower in
  {| canonical := fmt_items items; items := items |}.

(** ** Comparison *)

Definition cmp_string (a b : string) : comparison :=
  match qualifier_rank a, qualifier_rank b with
  | Some ar, Some br => Z.compare ar br
  | Some _, None => Lt
  | None, Some _ => Gt
  | None, None => String.compare a b
  end.

Fixpoint cmp_item_with_null (i : Item) : comparison :=
  match i with
  | Int n => N.compare n 0
  | Str s => match qualifier_rank s with Some r => Z.compare r 5 | None => Gt end
  | List l => match l with [] => Eq | first :: _ => cmp_item_with_null first end
  end.

(** The index loop of [cmp_list]: [cmp] where both lists have an item,
    [cmp_item_with_null] where one has run out. *)
Definition cmp_list_by (cmp : Item -> Item -> comparison) : list Item -> list Item -> comparison :=
  fix go (a b : list Item) : comparison :=
    match a, b with
    | [], _ => first_diff ((fun y => CompOpp (cmp_item_with_null y)) <$> b)
    | x :: a', [] => then_cmp (cmp_item_with_null x) (go a' [])
    | x :: a', y :: b' => then_cmp (cmp x y) (go a' b')
    end.

Fixpoint cmp_item (a b : Item) {struct a} : comparison :=
  match a, b with
  | Int a, Int b => N.compare a b
  | Str a, Str b => cmp_string a b
  | List a, List b => cmp_list_by cmp_item a b
  | Int _, Str _ => Gt
  | Str _, Int _ => Lt
  | Int _, List _ => Gt
  | List _, Int _ => Lt
  | Str _, List _ => Lt
  | List _, Str _ => Gt
  end.

Definition cmp_list : list Item -> list Item -> comparison := cmp_list_by cmp_item.

(** [Ord for MavenVersion] and [PartialEq for MavenVersion]. *)
Definition maven_cmp (a b : MavenVersion) : comparison := cmp_list (items a) (items b).
Definition maven_eq (a b : MavenVersion) : bool := canonical a =? canonical b.

(** ** Selection *)

Definition sort_maven_versions (versions : list string) : list string :=
  let versioned := (fun v => (parse v, v)) <$> versions in
  snd <$> sort_by (fun a b => maven_cmp a.1 b.1) versioned.

Definition latest_version (versions : list string) : option string :=
  max_by (fun a b => maven_cmp (parse a) (parse b)) versions.

Definition latest_release (versions : list string) : option string :=
  max_by (fun a b => maven_cmp (parse a) (parse b))
    (List.filter (fun v => negb (contains "SNAPSHOT" v)) versions).

(** ** Laws of the comparator *)

Section ItemInduction.
Variable P : Item -> Prop.
Hypothesis HInt : forall n, P (Int n).
Hypothesis HStr : forall s, P (Str s).
Hypothesis HList : forall l, Forall P l -> P (List l).

Fixpoint Item_nested_ind (i : Item) : P i :=
  match i with
  | Int n => HInt n
  | Str s => HStr s
  | List l =>
      HList l ((fix go (l : list Item) : Forall P l :=
                  match l with
                  | [] => Forall_nil_2 P
                  | x :: l => Forall_cons_2 P x l (Item_nested_ind x) (go l)
                  end) l)
  end.
End ItemInduction.

Lemma cmp_string_sym a b : cmp_string b a = CompOpp (cmp_string a b).
Proof.
  unfold cmp_string. destruct (qualifier_rank a), (qualifier_rank b); try done; apply tp_sym, _.
Qed.

Lemma CompOpp_then o1 o2 : CompOpp (then_cmp o1 o2) = then_cmp (CompOpp o1) (CompOpp o2).
Proof. by destruct o1. Qed.

Lemma cmp_list_by_nil_r cmp a :
  cmp_list_by cmp a [] = first_diff (cmp_item_with_null <$> a).
Proof. induction a as [|x a IH]; simpl; [done|]. by rewrite IH. Qed.

Lemma first_diff_opp os : CompOpp (first_diff os) = first_diff (CompOpp <$> os).
Proof. induction os as [|o os IH]; simpl; [done|]. by rewrite CompOpp_then, IH. Qed.

Lemma cmp_list_by_sym a b :
  Forall (fun x => forall y, cmp_item y x = CompOpp (cmp_item x y)) a ->
  cmp_list b a = CompOpp (cmp_list a b).
Proof.
  intros Ha. revert b. unfold cmp_list.
  induction Ha as [|x a Hx _ IH]; intros b.
  - rewrite cmp_list_by_nil_r. simpl. rewrite first_diff_opp, <- list_fmap_compose.
    f_equal. apply list_fmap_ext. intros _ y _. simpl. by rewrite CompOpp_involutive.
  - destruct b as [|y b]; simpl.
    + rewrite CompOpp_then, cmp_list_by_nil_r. f_equal.
      by rewrite first_diff_opp, <- list_fmap_compose.
    + by rewrite CompOpp_then, Hx, IH.
Qed.

Lemma cmp_item_sym x : forall y, cmp_item y x = CompOpp (cmp_item x y).
Proof.
  induction x as [n|s|l IH] using Item_nested_ind; intros [m|t|k]; simpl; try done.
  - apply tp_sym, _.
  - apply cmp_string_sym.
  - by apply cmp_list_by_sym.
Qed.

(** Swapping the arguments of [Ord::cmp] reverses its answer, and a
    version is equal to itself, for every pair of versions. *)
Theorem maven_cmp_antisymmetric (a b : string) :
  maven_cmp (parse b) (parse a) = CompOpp (maven_cmp (parse a) (parse b)) /\
  maven_cmp (parse a) (parse a) = Eq.
Proof.
  assert (Hsym : forall x y, cmp_list y x = CompOpp (cmp_list x y)).
  { intros x y. apply cmp_list_by_sym, Forall_forall. intros i _. apply cmp_item_sym. }
  split; [apply Hsym|]. unfold maven_cmp.
  pose proof (Hsym (items (parse a)) (items (parse a))) as H.
  by destruct (cmp_list _ _).
Qed.

(** [Ord for MavenVersion] is not transitive: a qualifier after [.] is a
    string item, one after [-] a list item, a string is below any list, and
    [1] lies below [1.sp] and above [1-alpha].  [sort_maven_versions] hands
    this comparator to [sort_by], which requires a total order. *)
Theorem maven_cmp_cycle :
  exists a b c,
    maven_cmp (parse a) (parse b) = Lt /\ maven_cmp (parse b) (parse c) = Lt /\
    maven_cmp (parse c) (parse a) = Lt.
Proof. exists "1", "1.sp", "1-alpha". vm_compute. auto. Qed.

(** [PartialEq] and [Ord] disagree: only the first item of a missing list
    is compared with null, so [1-0-1] compares [Equal] to [1] although their
    canonical forms differ. *)
Theorem maven_eq_ord_disagree :
  exists a b, maven_cmp (parse a) (parse b) = Eq /\ maven_eq (parse a) (parse b) = false.
Proof. exists "1-0-1", "1". vm_compute. auto. Qed.

(** ** Plain dotted releases *)

Definition release_piece (p : string) : Prop := p <> "" /\ str_all is_digit p = true.
Definition piece_val (p : string) : N := default 0%N (parse_u64 p).

Lemma step_digit st c :
  is_digit c = true -> (current st = "" \/ is_digit_run st = true) ->
  parse_step st c = {| top := top st; below := below st;
                       current := current st +:+ String c ""; is_digit_run := true |}.
Proof.
  intros Hc Hst. pose proof Hc as Hr. unfold is_digit, in_range in Hr.
  apply andb_prop in Hr as [?%N.leb_le ?%N.leb_le]. unfold parse_step.
  destruct (Ascii.eqb_spec c ".") as [->|_]; [done|].
  destruct (Ascii.eqb_spec c "-") as [->|_]; [done|].
  rewrite Hc. destruct Hst as [Hst|Hst]; rewrite Hst; cbn; [by rewrite Hst|].
  by destruct (is_empty (current st)).
Qed.

Lemma steps_digits s st :
  str_all is_digit s = true -> (current st = "" \/ is_digit_run st = true) -> s <> "" ->
  fold_left parse_step (String.list_ascii_of_string s) st =
    {| top := top st; below := below st; current := current st +:+ s; is_digit_run := true |}.
Proof.
  revert st. induction s as [|c s IH]; intros st; [done|]. simpl.
  intros [Hc Hs]%andb_prop Hst _. rewrite step_digit by done.
  destruct s as [|d s]; [done|]. rewrite IH by (simpl; auto).
  simpl. by rewrite <- append_assoc.
Qed.

Lemma list_ascii_append s t :
  String.list_ascii_of_string (s +:+ t) =
  String.list_ascii_of_string s ++ String.list_ascii_of_string t.
Proof. induction s as [|c s IH]; simpl; congruence. Qed.

Lemma parse_dotted_aux ps l b :
  ps <> [] -> Forall release_piece ps ->
  let st := fold_left parse_step (String.list_ascii_of_string (join "." ps))
    {| top := l; below := []; current := ""; is_digit_run := b |} in
  top (flush st) = l ++ ((fun p => Int (piece_val p)) <$> ps) /\ below (flush st) = [].
Proof.
  intros Hne Hps. revert l b Hne.
  induction Hps as [|p ps [Hp Hd] Hps IH]; intros l b Hne; [done|].
  destruct ps as [|q ps].
  - simpl. rewrite steps_digits by auto. simpl. unfold flush. simpl. by destruct p.
  - change (join "." (p :: q :: ps)) with (p +:+ ("." +:+ join "." (q :: ps))).
    rewrite list_ascii_append, fold_left_app, (steps_digits p) by (simpl; auto).
    change (String.list_ascii_of_string ("." +:+ join "." (q :: ps)))
      with ("."%char :: String.list_ascii_of_string (join "." (q :: ps))).
    cbn [fold_left top below current is_digit_run]. set (st := parse_step _ "."%char).
    assert (st = {| top := l ++ [Int (piece_val p)]; below := []; current := "";
                    is_digit_run := true |}) as ->.
    { unfold st, parse_step, flush. simpl. by destruct p. }
    destruct (IH (l ++ [Int (piece_val p)]) true) as [Ht Hb]; [done|]. split; [|done].
    rewrite Ht. simpl. by rewrite <- app_assoc.
Qed.

Lemma lower_dotted ps :
  Forall release_piece ps -> to_lowercase (join "." ps) = join "." ps.
Proof.
  assert (Hd : forall s, str_all is_digit s = true -> to_lowercase s = s).
  { unfold to_lowercase. induction s as [|c s IH]; simpl; [done|]. intros [Hc Hs]%andb_prop.
    rewrite IH by done. f_equal. unfold lower.
    unfold is_digit, is_upper, in_range in *. apply andb_prop in Hc as [_ Hc%N.leb_le].
    destruct (N.leb_spec 65 (N_of_ascii c)); [lia|done]. }
  assert (Happ : forall s t, to_lowercase (s +:+ t) = to_lowercase s +:+ to_lowercase t).
  { unfold to_lowercase. intros s t. induction s; simpl; congruence. }
  induction 1 as [|p ps [_ Hp] _ IH]; [done|]. destruct ps as [|q ps]; [by apply Hd|].
  change (join "." (p :: q :: ps)) with (p +:+ ("." +:+ join "." (q :: ps))).
  by rewrite Happ, (Happ "."), (Hd p), IH.
Qed.

Lemma parse_dotted ps :
  ps <> [] -> Forall release_piece ps ->
  items (parse (join "." ps)) = trim_trailing_nulls ((fun p => Int (piece_val p)) <$> ps).
Proof.
  intros Hne Hps. unfold parse. simpl. rewrite lower_dotted by done. unfold parse_items.
  destruct (parse_dotted_aux ps [] false Hne Hps) as [Ht Hb]. simpl in Ht, Hb. by rewrite Ht, Hb.
Qed.

(** Dropping trailing zeros keeps the number read at every position. *)
Lemma trim_ints (l : list N) :
  exists l', trim_trailing_nulls (Int <$> l) = Int <$> l' /\ forall i, nth i l' 0%N = nth i l 0%N.
Proof.
  induction l as [|n l (l' & Htr & Hnth)] using rev_ind; [by exists []|].
  unfold trim_trailing_nulls in *. rewrite fmap_app, rev_app_distr. simpl.
  destruct (N.eqb_spec n 0) as [->|Hn].
  - exists l'. split; [done|]. intros i. rewrite Hnth.
    destruct (decide (i < length l)); [by rewrite app_nth1|].
    rewrite app_nth2, nth_overflow by lia. by destruct (i - length l) as [|[]].
  - exists (l ++ [n]). split; [|done]. simpl. by rewrite rev_involutive, fmap_app.
Qed.

Lemma cmp_list_ints (a b : list N) : cmp_list (Int <$> a) (Int <$> b) = cmp_padded N.compare 0%N a b.
Proof.
  revert b. unfold cmp_list. induction a as [|x a IH]; intros b.
  - induction b as [|y b IHb]; [done|]. rewrite cmp_padded_step by (by right).
    cbn [tail nth]. by rewrite <- IHb, (N.compare_antisym y 0).
  - rewrite cmp_padded_step by (by left). destruct b as [|y b]; cbn [tail nth].
    + by rewrite <- (IH []).
    + by rewrite <- IH.
Qed.

Definition release_key (ps : list string) : list N := piece_val <$> ps.

Lemma maven_cmp_dotted ps qs :
  ps <> [] -> qs <> [] -> Forall release_piece ps -> Forall release_piece qs ->
  maven_cmp (parse (join "." ps)) (parse (join "." qs)) =
    cmp_padded N.compare 0%N (release_key ps) (release_key qs).
Proof.
  intros Hp Hq Hps Hqs. unfold maven_cmp. rewrite !parse_dotted by done.
  rewrite !(list_fmap_compose piece_val Int).
  destruct (trim_ints (piece_val <$> ps)) as (a & -> & Ha).
  destruct (trim_ints (piece_val <$> qs)) as (b & -> & Hb).
  rewrite cmp_list_ints. by apply cmp_padded_ext; [apply _| |].
Qed.

(** On plain dotted releases the ordering is the numeric one: [a] and [b]
    compare component by component as numbers, a missing component counting
    as zero. *)
Theorem maven_cmp_releases (ps qs : list string)
  (Hp : ps <> []) (Hq : qs <> [])
  (Hps : Forall release_piece ps) (Hqs : Forall release_piece qs) :
  maven_cmp (parse (join "." ps)) (parse (join "." qs)) =
    cmp_padded N.compare 0%N (release_key ps) (release_key qs).
Proof. by apply maven_cmp_dotted. Qed.

Lemma maven_cmp_releases_witness :
  maven_cmp (parse "1.10") (parse "1.9.0") = Gt.
Proof.
  refine (eq_trans (maven_cmp_releases ["1"; "10"] ["1"; "9"; "0"] _ _ _ _) eq_refl);
    try done; repeat constructor; done.
Defined.

(** Among plain dotted releases [latest_version] returns one that is
    numerically at least every other. *)
Theorem latest_version_releases (vs : list (list string)) (Hne : vs <> [])
  (Hvs : Forall (fun ps => ps <> [] /\ Forall release_piece ps) vs) :
  exists ps, latest_version (join "." <$> vs) = Some (join "." ps) /\ ps ∈ vs /\
    forall qs, qs ∈ vs ->
      cmp_padded N.compare 0%N (release_key qs) (release_key ps) <> Gt.
Proof.
  set (cmp := cmp_on release_key (cmp_padded N.compare 0%N)).
  destruct (max_by_spec cmp vs Hne) as (m & Hm & Hin & Hmax).
  exists m. split_and!; [|done|intros; by apply Hmax].
  rewrite Forall_forall in Hvs. unfold latest_version.
  rewrite (max_by_fmap (join ".")), (max_by_ext _ cmp), Hm; [done|].
  intros x y [Hx1 Hx2]%Hvs [Hy1 Hy2]%Hvs. by apply maven_cmp_dotted.
Qed.

Lemma latest_version_releases_witness :
  exists ps, latest_version ["1.9"; "1.10.0"; "1.2"] = Some (join "." ps) /\
    ps ∈ [["1"; "9"]; ["1"; "10"; "0"]; ["1"; "2"]].
Proof.
  destruct (latest_version_releases [["1"; "9"]; ["1"; "10"; "0"]; ["1"; "2"]])
    as (ps & H & Hin & _); [done | repeat constructor; done |].
  exists ps. split; [exact H | exact Hin].
Defined.
