(* ===== verification/Pep440.v ===== *)
(** Python versions ([formats/pypi.rs]): the PEP 440 parser, the canonical
    form the code compares for identity, and the key it sorts by.

    The qualifier loop walks the tokens with an index; here its argument is
    the rest of the token list. *)

From stdpp Require Import base list sets strings pretty.
From Stdlib Require Import ZArith Lia Ascii.
From S2P Require Import Prelude RustStr.

Local Open Scope string_scope.
Local Open Scope list_scope.

(** ** Parsing *)

(** The [while nums.len() > 1 && last == 0 { pop }] loop, on the reversed list. *)
Fixpoint drop_zeros (nums : list N) : list N :=
  match nums with
  | 0%N :: ((_ :: _) as rest) => drop_zeros rest
  | _ => nums
  end.

Definition release_components (release : string) : list N :=
  rev (drop_zeros (rev ((fun p => default 0%N (parse_u64 p)) <$> split_char "." release))).

Record Pep440Parts := {
  epoch : N;
  release : list N;
  pre : option (string * N);
  post : option N;
  dev : option N;
  local : option (list string)
}.

Definition cons_to_head (c : ascii) (p : string * string) : string * string := (String c (fst p), snd p).

(** The byte loop of [split_release]; the result is [body[..end]], [body[end..]]. *)
Fixpoint split_release_loop (expect_digit : bool) (body : string) : string * string :=
  match body with
  | EmptyString => ("", "")
  | String c rest =>
      if is_digit c then cons_to_head c (split_release_loop false rest)
      else if Ascii.eqb c "." && negb expect_digit then
        match rest with
        | String d _ => if is_digit d then cons_to_head c (split_release_loop true rest) else ("", body)
        | EmptyString => ("", body)
        end
      else ("", body)
  end.

Definition split_release (body : string) : option (string * string) :=
  match body with
  | String c _ => if is_digit c then Some (split_release_loop true body) else None
  | EmptyString => None
  end.

Definition is_version_sep (c : ascii) : bool := Ascii.eqb c "." || Ascii.eqb c "-" || Ascii.eqb c "_".

Definition push_token (cur : string) (tokens : list string) : list string :=
  if is_empty cur then tokens else cur :: tokens.

Fixpoint tokenize_loop (cur : string) (cur_digit : bool) (body : string) : option (list string) :=
  match body with
  | EmptyString => Some (push_token cur [])
  | String c rest =>
      if is_version_sep c then push_token cur <$> tokenize_loop "" cur_digit rest
      else if is_digit c then
        if negb (is_empty cur) && negb cur_digit
        then push_token cur <$> tokenize_loop (String c "") true rest
        else tokenize_loop (cur +:+ String c "") true rest
      else if is_alpha c then
        if negb (is_empty cur) && cur_digit
        then push_token cur <$> tokenize_loop (String c "") false rest
        else tokenize_loop (cur +:+ String c "") false rest
      else None
  end.

Definition tokenize_version (body : string) : option (list string) := tokenize_loop "" false body.

Inductive Qualifier :=
| QPre (label : string)
| QPost
| QDev.

Definition qualifier_label (tok : string) : option Qualifier :=
  if one_of tok ["a"; "alpha"] then Some (QPre "a")
  else if one_of tok ["b"; "beta"] then Some (QPre "b")
  else if one_of tok ["c"; "rc"; "pre"; "preview"] then Some (QPre "rc")
  else if one_of tok ["post"; "rev"; "r"] then Some QPost
  else if one_of tok ["dev"] then Some QDev
  else None.

(** The three accumulators of the loop. *)
Definition Qualifiers : Type := option (string * N) * option N * option N.

Definition set_qualifier (kind : Qualifier) (n : N) (q : Qualifiers) : Qualifiers :=
  let '(pre, post, dev) := q in
  match kind with
  | QPre label => (Some (label, n), post, dev)
  | QPost => (pre, Some n, dev)
  | QDev => (pre, post, Some n)
  end.

Definition no_qualifier (q : Qualifiers) : bool :=
  match q with (None, None, None) => true | _ => false end.

Fixpoint qualifiers (tokens : list string) (q : Qualifiers) : option Qualifiers :=
  match tokens with
  | [] => Some q
  | tok :: rest =>
      if str_all is_digit tok && no_qualifier q
      then n ← parse_u64 tok; qualifiers rest (set_qualifier QPost n q)
      else
        kind ← qualifier_label tok;
        match rest with
        | num :: rest' =>
            if str_all is_digit num
            then n ← parse_u64 num; qualifiers rest' (set_qualifier kind n q)
            else qualifiers rest (set_qualifier kind 0%N q)
        | [] => qualifiers rest (set_qualifier kind 0%N q)
        end
  end.

Definition parse_epoch (lower : string) : option (N * string) :=
  match split_once (Ascii.eqb "!") lower with
  | Some (e, r) =>
      if is_empty e || negb (str_all is_digit e) then None
      else n ← parse_u64 e; Some (n, r)
  | None => n ← parse_u64 "0"; Some (n, lower)
  end.

(** The outer option is the early return. *)
Definition parse_local (local : option string) : option (option (list string)) :=
  match local with
  | None => Some None
  | Some l =>
      if is_empty l then None
      else
        let segs := split_on is_version_sep l in
        if existsb (fun s => is_empty s || negb (str_all is_alnum s)) segs then None
        else Some (Some (to_ascii_lowercase <$> segs))
  end.

Definition parse_pep440 (version : string) : option Pep440Parts :=
  let v := trim_start_by (fun c => Ascii.eqb c "v" || Ascii.eqb c "V") (trim version) in
  if is_empty v then None
  else
    let '(public, local) :=
      match split_once (Ascii.eqb "+") v with
      | Some (p, l) => (p, Some l)
      | None => (v, None)
      end in
    '(epoch, rest) ← parse_epoch (to_ascii_lowercase public);
    '(release_str, suffix) ← split_release rest;
    tokens ← tokenize_version suffix;
    '(pre, post, dev) ← qualifiers tokens (None, None, None);
    local ← parse_local local;
    Some {| epoch := epoch; release := release_components release_str; pre := pre; post := post; dev := dev;
            local := local |}.

(** ** The canonical form *)

Definition print_qualifiers (p : Pep440Parts) : string :=
  match pre p with Some (label, n) => label +:+ pretty n | None => "" end +:+
  match post p with Some n => ".post" +:+ pretty n | None => "" end +:+
  match dev p with Some n => ".dev" +:+ pretty n | None => "" end.

Definition print_parts (p : Pep440Parts) : string :=
  (pretty (epoch p) +:+ "!" +:+ join "." (pretty <$> release p) +:+ print_qualifiers p) +:+
  match local p with Some segs => "+" +:+ join "." segs | None => "" end.

Definition canonical_version (version : string) : option string := print_parts <$> parse_pep440 version.

Definition is_prerelease (version : string) : option bool :=
  (fun p => match pre p, dev p with None, None => false | _, _ => true end) <$> parse_pep440 version.

Definition versions_match (a b : string) : bool :=
  (a =? b) ||
  match canonical_version a, canonical_version b with
  | Some x, Some y => x =? y
  | _, _ => false
  end.

(** ** The sort key *)

Inductive Pep440Pre :=
| DevOnly
| Pre (rank n : N)
| Final.

Inductive Pep440Post :=
| NoPost
| Post (n : N).

Inductive Pep440Dev :=
| Dev (n : N)
| NoDev.

Inductive Pep440LocalSeg :=
| Alpha (s : string)
| Num (n : N).

Record Pep440Key := {
  key_epoch : N;
  key_release : list N;
  key_pre : Pep440Pre;
  key_post : Pep440Post;
  key_dev : Pep440Dev;
  key_local : list Pep440LocalSeg
}.

Definition local_segment (seg : string) : Pep440LocalSeg :=
  match parse_u64 seg with Some n => Num n | None => Alpha seg end.

Definition key_of (p : Pep440Parts) : Pep440Key :=
  {| key_epoch := epoch p;
     key_release := release p;
     key_pre :=
       match pre p, post p, dev p with
       | None, None, Some _ => DevOnly
       | None, _, _ => Final
       | Some (label, n), _, _ => Pre (if label =? "a" then 0%N else if label =? "b" then 1%N else 2%N) n
       end;
     key_post := match post p with Some n => Post n | None => NoPost end;
     key_dev := match dev p with Some n => Dev n | None => NoDev end;
     key_local := local_segment <$> default [] (local p) |}.

Definition pep440_sort_key (version : string) : option Pep440Key := key_of <$> parse_pep440 version.

(** [derive(Ord)]: variants in declaration order, then their fields; the
    fields of the record in declaration order. *)
Definition pre_fields (x : Pep440Pre) : N * N * N :=
  match x with DevOnly => (0, 0, 0) | Pre r n => (1, r, n) | Final => (2, 0, 0) end%N.
Definition cmp_pre : Pep440Pre -> Pep440Pre -> comparison :=
  cmp_on pre_fields (lex (cmp_on (fun f => fst (fst f)) N.compare)
                         (lex (cmp_on (fun f => snd (fst f)) N.compare) (cmp_on snd N.compare))).
Definition cmp_post : Pep440Post -> Pep440Post -> comparison :=
  cmp_on (fun x => match x with NoPost => [] | Post n => [n] end) (cmp_list N.compare).
Definition dev_fields (x : Pep440Dev) : N * N := match x with Dev n => (0, n) | NoDev => (1, 0) end%N.
Definition cmp_dev : Pep440Dev -> Pep440Dev -> comparison :=
  cmp_on dev_fields (lex (cmp_on fst N.compare) (cmp_on snd N.compare)).
Definition is_alpha_seg (x : Pep440LocalSeg) : bool := match x with Alpha _ => true | Num _ => false end.
Definition cmp_seg : Pep440LocalSeg -> Pep440LocalSeg -> comparison :=
  cmp_class is_alpha_seg
    (cmp_on (fun x => match x with Alpha s => s | Num _ => "" end) String.compare)
    (cmp_on (fun x => match x with Num n => n | Alpha _ => 0%N end) N.compare).
Definition cmp_key : Pep440Key -> Pep440Key -> comparison :=
  lex (cmp_on key_epoch N.compare)
    (lex (cmp_on key_release (cmp_list N.compare))
       (lex (cmp_on key_pre cmp_pre)
          (lex (cmp_on key_post cmp_post)
             (lex (cmp_on key_dev cmp_dev) (cmp_on key_local (cmp_list cmp_seg)))))).

Example sample_canonical : canonical_version " v1.0-Alpha_01.post.dev3+Ubuntu_1 " = Some "0!1a1.post0.dev3+ubuntu.1".
Proof. vm_compute. reflexivity. Qed.

(** ** What the parser produces *)

Definition bounded (n : N) : Prop := (n <= U64_MAX)%N.

Definition qualifiers_ok (q : Qualifiers) : Prop :=
  let '(pre, post, dev) := q in
  match pre with Some (l, n) => l ∈ ["a"; "b"; "rc"] /\ bounded n | None => True end /\
  match post with Some n => bounded n | None => True end /\
  match dev with Some n => bounded n | None => True end.

Definition segment_ok (s : string) : Prop :=
  s <> "" /\ str_all (fun c => is_lower c || is_digit c) s = true.

Definition version_ok (p : Pep440Parts) : Prop :=
  bounded (epoch p) /\
  (release p <> [] /\ Forall bounded (release p) /\ drop_zeros (rev (release p)) = rev (release p)) /\
  qualifiers_ok (pre p, post p, dev p) /\
  match local p with Some segs => segs <> [] /\ Forall segment_ok segs | None => True end.

Lemma drop_zeros_idem l : drop_zeros (drop_zeros l) = drop_zeros l.
Proof.
  induction l as [|n l IH]; [done|]. destruct n as [|n], l as [|m l]; try done.
Qed.

Lemma drop_zeros_subset l : drop_zeros l `sublist_of` l /\ (l <> [] -> drop_zeros l <> []).
Proof.
  induction l as [|n l [IH1 IH2]]; [by split|]. destruct n as [|n], l as [|m l]; try by split.
  cbn [drop_zeros]. split; [by apply sublist_cons|]. intros _. by apply IH2.
Qed.

Lemma release_components_ok s :
  let l := release_components s in l <> [] /\ Forall bounded l /\ drop_zeros (rev l) = rev l.
Proof.
  unfold release_components. set (nums := _ <$> _). rewrite rev_involutive.
  destruct (drop_zeros_subset (rev nums)) as [Hsub Hne]. split_and!.
  - intros E. apply Hne; [|by rewrite <- (rev_involutive (drop_zeros _)), E].
    intros E'. apply (f_equal (@length _)) in E'. subst nums. rewrite length_rev, length_fmap in E'.
    destruct (split_char "." s) as [|x xs] eqn:Es; [|done]. by apply split_on_nonempty in Es.
  - apply Forall_rev. apply Forall_forall. intros n Hn. eapply elem_of_sublist in Hn; [|exact Hsub].
    apply list_elem_of_In, in_rev, list_elem_of_In in Hn. apply list_elem_of_fmap in Hn as (p & -> & _).
    destruct (parse_u64 p) eqn:E; cbn; [by eapply parse_u64_bound|]. unfold bounded, U64_MAX. lia.
  - apply drop_zeros_idem.
Qed.

Lemma set_qualifier_ok tok kind n q :
  qualifier_label tok = Some kind -> bounded n -> qualifiers_ok q -> qualifiers_ok (set_qualifier kind n q).
Proof.
  unfold qualifier_label. destruct q as [[pr po] de]. intros Hk Hn (H1 & H2 & H3).
  repeat case_match; simplify_eq; cbn; split_and!; try done; set_solver.
Qed.

Lemma qualifiers_result_ok tokens q q' : qualifiers tokens q = Some q' -> qualifiers_ok q -> qualifiers_ok q'.
Proof.
  remember (length tokens) as k eqn:Hk. revert tokens q Hk.
  induction (lt_wf k) as [k _ IH]. intros [|tok rest] q ->; cbn [qualifiers]; [by intros [= ->]|].
  destruct (_ && _).
  - destruct (parse_u64 tok) as [n|] eqn:En; [|done]. cbn [mbind option_bind]. intros Hq Hok.
    eapply IH; [| |exact Hq|]; [|done|]; [cbn; lia|]. apply parse_u64_bound in En.
    destruct q as [[pr po] de], Hok as (? & ? & ?). by split_and!.
  - destruct (qualifier_label tok) as [kind|] eqn:El; [|done]. cbn [mbind option_bind].
    assert (Hz : bounded 0) by (unfold bounded, U64_MAX; lia).
    destruct rest as [|num rest'].
    + intros Hq Hok. eapply IH; [| |exact Hq|]; [|done|]; [cbn; lia|]. by eapply set_qualifier_ok.
    + destruct (str_all is_digit num).
      * destruct (parse_u64 num) as [n|] eqn:En; [|done]. cbn [mbind option_bind]. intros Hq Hok.
        apply parse_u64_bound in En. eapply IH; [| |exact Hq|]; [|done|]; [cbn; lia|]. by eapply set_qualifier_ok.
      * intros Hq Hok. eapply IH; [| |exact Hq|]; [|done|]; [cbn; lia|]. by eapply set_qualifier_ok.
Qed.

Lemma lower_alnum s : str_all is_alnum s = true -> str_all (fun c => is_lower c || is_digit c) (to_ascii_lowercase s) = true.
Proof.
  intros Hs. unfold to_ascii_lowercase. rewrite str_all_map. eapply str_all_weaken, Hs.
  intros [[] [] [] [] [] [] [] []]; vm_compute; congruence.
Qed.

Lemma parse_local_ok local l :
  parse_local local = Some l -> match l with Some segs => segs <> [] /\ Forall segment_ok segs | None => True end.
Proof.
  unfold parse_local. destruct local as [s|]; [|by intros [= <-]]. destruct (is_empty s); [done|].
  destruct (existsb _ _) eqn:E; [done|]. intros [= <-]. split.
  - destruct (split_on is_version_sep s) eqn:Es; [|done]. by apply split_on_nonempty in Es.
  - apply Forall_fmap. apply Forall_forall. intros p Hp. cbn.
    assert (Hpc : (is_empty p || negb (str_all is_alnum p)) = false).
    { destruct (is_empty p || negb (str_all is_alnum p)) eqn:F; [|done]. rewrite <- E. symmetry.
      apply existsb_exists. exists p. split; [by apply list_elem_of_In|done]. }
    apply orb_false_elim in Hpc as [Hpe Hpa%negb_false_iff]. split; [|by apply lower_alnum].
    destruct p; [done|]. done.
Qed.

Lemma parse_version_ok v p : parse_pep440 v = Some p -> version_ok p.
Proof.
  unfold parse_pep440. destruct (is_empty _); [done|].
  destruct (match split_once _ _ with Some _ => _ | None => _ end) as [public loc].
  destruct (parse_epoch _) as [[e rest]|] eqn:Ee; cbn [mbind option_bind]; [|done].
  destruct (split_release rest) as [[rs suffix]|]; cbn [mbind option_bind]; [|done].
  destruct (tokenize_version suffix) as [tokens|]; cbn [mbind option_bind]; [|done].
  destruct (qualifiers tokens _) as [[[pr po] de]|] eqn:Eq; cbn [mbind option_bind]; [|done].
  destruct (parse_local loc) as [l|] eqn:El; cbn [mbind option_bind]; [|done]. intros [= <-].
  unfold version_ok. cbn [epoch release pre post dev local]. split_and!.
  - unfold parse_epoch in Ee. repeat case_match; simplify_eq; try done.
    + destruct (parse_u64 s) eqn:En; simplify_eq/=. by eapply parse_u64_bound.
    + vm_compute in Ee. simplify_eq. unfold bounded, U64_MAX. lia.
  - apply release_components_ok.
  - apply release_components_ok.
  - apply release_components_ok.
  - by eapply qualifiers_result_ok in Eq.
  - by apply parse_local_ok in El.
Qed.

(** ** Reading the canonical form back *)

(** The characters of a canonical public version. *)
Definition is_public (c : ascii) : bool := is_lower c || is_digit c || Ascii.eqb c "." || Ascii.eqb c "!".

Lemma digit_public c : is_digit c = true -> is_public c = true.
Proof. destruct c as [[] [] [] [] [] [] [] []]; vm_compute; congruence. Qed.

Lemma public_class c : is_public c = true ->
  is_graphic c = true /\ negb (is_upper c) = true /\ negb (Ascii.eqb "+" c) = true.
Proof. destruct c as [[] [] [] [] [] [] [] []]; vm_compute; try congruence; done. Qed.

Lemma segment_class c : is_lower c || is_digit c = true ->
  is_graphic c = true /\ is_alnum c = true /\ negb (is_upper c) = true /\ negb (is_version_sep c) = true.
Proof. destruct c as [[] [] [] [] [] [] [] []]; vm_compute; try congruence; done. Qed.

Lemma digit_class c : is_digit c = true ->
  is_version_sep c = false /\ Ascii.eqb "." c = false /\ Ascii.eqb "!" c = false /\ Ascii.eqb c "v" || Ascii.eqb c "V" = false.
Proof. destruct c as [[] [] [] [] [] [] [] []]; vm_compute; try congruence; done. Qed.

Lemma alpha_class c : is_alpha c = true -> is_version_sep c = false /\ is_digit c = false.
Proof. destruct c as [[] [] [] [] [] [] [] []]; vm_compute; try congruence; done. Qed.

Lemma pretty_avoids (p : ascii -> bool) (n : N) :
  (forall c, is_digit c = true -> p c = true) -> str_all p (pretty n) = true.
Proof. intros Hp. eapply str_all_weaken; [exact Hp|]. apply pretty_digits. Qed.

(** *** The release *)

Local Notation release_text ns := (join "." ((pretty : N -> string) <$> ns)).

Definition stops_release (s : string) : Prop :=
  split_release_loop false s = ("", s) /\ match s with String c _ => is_digit c = false | "" => True end.

Lemma split_release_digits e w s : str_all is_digit w = true ->
  w <> "" -> split_release_loop e (w +:+ s) =
    (w +:+ fst (split_release_loop false s), snd (split_release_loop false s)).
Proof.
  revert e. induction w as [|c w IH]; intros e; [done|]. intros [Hc Hw]%andb_prop _.
  cbn [String.append split_release_loop]. rewrite Hc. destruct w as [|d w].
  - cbn. unfold cons_to_head. by destruct (split_release_loop false s).
  - rewrite IH by done. done.
Qed.

Lemma split_release_join ns s : ns <> [] -> stops_release s ->
  forall e, split_release_loop e (release_text ns +:+ s) =
    (release_text ns, s).
Proof.
  intros Hne [Hs Hd]. induction ns as [|n ns IH]; [done|]. intros e.
  destruct (pretty_digits n) as [_ Hdn]. destruct (pretty_head n) as (c & w & En & Hc).
  assert (Hnn : (pretty n : string) <> "") by by rewrite En.
  destruct ns as [|m ns].
  - cbn [fmap list_fmap join]. rewrite split_release_digits by done. by rewrite Hs, append_nil_r.
  - change (release_text (n :: m :: ns)) with ((pretty n : string) +:+ String "." (release_text (m :: ns))).
    rewrite <- append_assoc. rewrite split_release_digits by done. cbn [String.append].
    specialize (IH ltac:(done)). destruct (pretty_head m) as (d & w' & Em & Hd').
    assert (Hhead : exists r, release_text (m :: ns) +:+ s = String d r).
    { cbn [fmap list_fmap join]. rewrite Em. destruct ((pretty : N -> string) <$> ns); cbn [String.append]; by eexists. }
    cbn [split_release_loop]. destruct Hhead as [r Hr]. specialize (IH true). rewrite Hr in IH |- *.
    change (is_digit ".") with false. cbn [Ascii.eqb Bool.eqb andb negb]. rewrite Hd', IH.
    unfold cons_to_head. cbn [fst snd]. done.
Qed.

Lemma release_components_join ns :
  ns <> [] -> Forall bounded ns -> drop_zeros (rev ns) = rev ns ->
  release_components (release_text ns) = ns.
Proof.
  intros Hne Hb Hz. unfold release_components, split_char. rewrite split_join.
  - rewrite <- list_fmap_compose. assert ((fun p => default 0%N (parse_u64 p)) ∘ (pretty : N -> string) <$> ns = ns) as ->.
    { clear Hne Hz. induction Hb as [|n ns Hn Hb IH]; [done|]. cbn. rewrite parse_u64_pretty by done. cbn. by f_equal. }
    by rewrite Hz, rev_involutive.
  - done.
  - by destruct ns.
  - apply Forall_fmap, Forall_true. intros n. apply pretty_avoids. intros c Hc.
    by destruct (digit_class c Hc) as (_ & -> & _).
Qed.

(** *** The qualifiers *)

Lemma tokenize_alpha w cur s : str_all is_alpha w = true ->
  tokenize_loop cur false (w +:+ s) = tokenize_loop (cur +:+ w) false s.
Proof.
  revert cur. induction w as [|c w IH]; intros cur; [by rewrite append_nil_r|]. intros [Hc Hw]%andb_prop.
  destruct (alpha_class c Hc) as [Hsep Hd]. cbn [String.append tokenize_loop]. rewrite Hsep, Hd, Hc, andb_false_r.
  rewrite IH by done. by rewrite <- append_assoc.
Qed.

Lemma tokenize_digits w cur s : str_all is_digit w = true ->
  tokenize_loop cur true (w +:+ s) = tokenize_loop (cur +:+ w) true s.
Proof.
  revert cur. induction w as [|c w IH]; intros cur; [by rewrite append_nil_r|]. intros [Hc Hw]%andb_prop.
  destruct (digit_class c Hc) as [Hsep _]. cbn [String.append tokenize_loop]. rewrite Hsep, Hc, andb_false_r.
  rewrite IH by done. by rewrite <- append_assoc.
Qed.

(** What follows a printed number: nothing, or a separator. *)
Definition ends_token (s : string) : Prop := s = "" \/ exists r, s = String "." r.

Lemma tokenize_qualifier word (n : N) cd s :
  str_all is_alpha word = true -> word <> "" -> ends_token s ->
  tokenize_loop "" cd (word +:+ pretty n +:+ s) = (fun l => word :: pretty n :: l) <$> tokenize_loop "" true s.
Proof.
  intros Hw Hne Hs. destruct word as [|c w]; [done|]. apply andb_prop in Hw as [Hc Hw].
  destruct (alpha_class c Hc) as [Hsep Hd]. cbn [String.append tokenize_loop].
  rewrite Hsep, Hd, Hc. cbn [is_empty String.eqb negb andb]. rewrite tokenize_alpha by done.
  cbn [String.append]. destruct (pretty_head n) as (d & r & En & Hdig). destruct (pretty_digits n) as [_ Hall].
  rewrite En in Hall |- *. apply andb_prop in Hall as [_ Hr]. destruct (digit_class d Hdig) as [Hsep' _].
  cbn [String.append tokenize_loop]. rewrite Hsep', Hdig. cbn [is_empty String.eqb negb andb].
  rewrite tokenize_digits by done. cbn [String.append]. destruct Hs as [->|[s' ->]].
  - done.
  - cbn [tokenize_loop]. change (is_version_sep ".") with true. cbn.
    by destruct (tokenize_loop "" true s').
Qed.

(** The tokens of a printed version. *)
Definition tokens_of (p : Pep440Parts) : list string :=
  match pre p with Some (label, n) => [label; pretty n] | None => [] end ++
  match post p with Some n => ["post"; pretty n] | None => [] end ++
  match dev p with Some n => ["dev"; pretty n] | None => [] end.

Lemma tokenize_dot cd s : tokenize_loop "" cd (String "." s) = tokenize_loop "" cd s.
Proof. cbn [tokenize_loop]. change (is_version_sep ".") with true. cbn. by destruct (tokenize_loop "" cd s). Qed.

Lemma label_alpha l : l ∈ ["a"; "b"; "rc"] ->
  str_all is_alpha l = true /\ str_all is_digit l = false /\ str_all is_lower l = true /\ l <> "" /\
  qualifier_label l = Some (QPre l).
Proof. rewrite !elem_of_cons, elem_of_nil. by intros [->|[->|[->|[]]]]. Qed.

Lemma tokenize_print p :
  qualifiers_ok (pre p, post p, dev p) -> tokenize_version (print_qualifiers p) = Some (tokens_of p).
Proof.
  intros (Hpre & _ & _). unfold tokenize_version, print_qualifiers, tokens_of.
  set (D := match dev p with Some n => ".dev" +:+ pretty n | None => "" end).
  set (P := match post p with Some n => ".post" +:+ pretty n | None => "" end).
  assert (HD : forall cd, tokenize_loop "" cd D =
    Some (match dev p with Some n => ["dev"; pretty n] | None => [] end)).
  { intros cd. subst D. destruct (dev p) as [n|]; [|done]. change (".dev" +:+ pretty n) with (String "." ("dev" +:+ pretty n)).
    rewrite tokenize_dot, <- (append_nil_r (pretty n)), tokenize_qualifier; [|done|done|by left].
    by rewrite append_nil_r. }
  assert (HDe : ends_token D) by (subst D; destruct (dev p); [right; by eexists|by left]).
  assert (HP : forall cd, tokenize_loop "" cd (P +:+ D) =
    Some (match post p with Some n => ["post"; pretty n] | None => [] end ++
          match dev p with Some n => ["dev"; pretty n] | None => [] end)).
  { intros cd. subst P. destruct (post p) as [n|]; [|apply HD].
    change ((".post" +:+ pretty n) +:+ D) with (String "." (("post" +:+ pretty n) +:+ D)).
    rewrite <- append_assoc, tokenize_dot, tokenize_qualifier by done. by rewrite HD. }
  assert (HPe : ends_token (P +:+ D)) by (subst P; destruct (post p); [right; by eexists|done]).
  destruct (pre p) as [[label n]|]; [|apply HP]. destruct (label_alpha label (proj1 Hpre)) as (Hl & _ & _ & Hne & _).
  rewrite <- append_assoc, tokenize_qualifier by done. by rewrite HP.
Qed.

Lemma qualifiers_cons word kind (n : N) rest q :
  str_all is_digit word = false -> qualifier_label word = Some kind -> bounded n ->
  qualifiers (word :: pretty n :: rest) q = qualifiers rest (set_qualifier kind n q).
Proof.
  intros Hw Hl Hn. cbn [qualifiers]. rewrite Hw, Hl. cbn [andb mbind option_bind].
  rewrite (proj2 (pretty_digits n)), parse_u64_pretty by done. done.
Qed.

Lemma qualifiers_tokens p :
  qualifiers_ok (pre p, post p, dev p) -> qualifiers (tokens_of p) (None, None, None) = Some (pre p, post p, dev p).
Proof.
  intros (Hpre & Hpost & Hdev). unfold tokens_of.
  assert (HD : forall pr po, qualifiers match dev p with Some n => ["dev"; pretty n] | None => [] end (pr, po, None) =
    Some (pr, po, dev p)).
  { intros pr po. destruct (dev p) as [n|]; [|done]. by rewrite (qualifiers_cons "dev" QDev). }
  assert (HP : forall pr, qualifiers (match post p with Some n => ["post"; pretty n] | None => [] end ++
      match dev p with Some n => ["dev"; pretty n] | None => [] end) (pr, None, None) = Some (pr, post p, dev p)).
  { intros pr. destruct (post p) as [n|]; [|apply HD]. cbn [app].
    rewrite (qualifiers_cons "post" QPost) by done. apply HD. }
  destruct (pre p) as [[label n]|]; [|apply HP]. cbn [app].
  destruct Hpre as [Hl Hn]. destruct (label_alpha label Hl) as (_ & Hd & _ & _ & Hq).
  rewrite (qualifiers_cons label (QPre label)) by done. apply HP.
Qed.

Lemma qualifiers_stop p : qualifiers_ok (pre p, post p, dev p) -> stops_release (print_qualifiers p).
Proof.
  intros (Hpre & _ & _). unfold print_qualifiers.
  destruct (pre p) as [[label n]|].
  - destruct Hpre as [Hl _]. rewrite !elem_of_cons, elem_of_nil in Hl. by destruct Hl as [->|[->|[->|[]]]].
  - by destruct (post p), (dev p).
Qed.

(** *** The local part and the whole *)

Lemma parse_local_join segs : segs <> [] -> Forall segment_ok segs ->
  parse_local (Some (join "." segs)) = Some (Some segs).
Proof.
  intros Hne Hok. unfold parse_local.
  assert (Hsplit : split_on is_version_sep (join "." segs) = segs).
  { apply split_join; [done|done|]. eapply Forall_impl; [exact Hok|]. intros s [_ Hs].
    eapply str_all_weaken, Hs. intros c Hc. by apply segment_class. }
  assert (is_empty (join "." segs) = false) as ->.
  { destruct segs as [|s segs]; [done|]. apply Forall_cons in Hok as [[Hs _] _]. destruct s as [|c s]; [done|].
    by destruct segs. }
  rewrite Hsplit. assert (existsb (fun s => is_empty s || negb (str_all is_alnum s)) segs = false) as ->.
  { clear Hsplit Hne. induction Hok as [|s segs [Hs Ha] Hok IH]; [done|]. cbn. rewrite IH. destruct s as [|c s]; [done|].
    assert (str_all is_alnum (String c s) = true) as ->; [|done].
    eapply str_all_weaken, Ha. intros d Hd. by apply segment_class. }
  do 2 f_equal. clear Hsplit Hne. induction Hok as [|s segs [_ Ha] Hok IH]; [done|]. cbn. rewrite IH. f_equal.
  apply lowercase_fixed. eapply str_all_weaken, Ha. intros d Hd. by apply segment_class.
Qed.

Definition print_public (p : Pep440Parts) : string :=
  pretty (epoch p) +:+ "!" +:+ release_text (release p) +:+ print_qualifiers p.

Lemma print_public_class p : version_ok p -> str_all is_public (print_public p) = true.
Proof.
  intros (_ & (_ & Hr & _) & (Hpre & _ & _) & _). unfold print_public, print_qualifiers.
  assert (Hn : forall n : N, str_all is_public (pretty n) = true) by (intros; apply pretty_avoids, digit_public).
  rewrite !str_all_app, Hn. rewrite str_all_join; [|done|by apply Forall_fmap, Forall_true].
  assert (str_all is_public match pre p with Some (label, n) => label +:+ pretty n | None => "" end = true) as ->.
  { destruct (pre p) as [[label n]|]; [|done]. rewrite str_all_app, Hn.
    destruct Hpre as [Hl _]. rewrite !elem_of_cons, elem_of_nil in Hl. by destruct Hl as [->|[->|[->|[]]]]. }
  destruct (post p), (dev p); rewrite ?str_all_app, ?Hn; done.
Qed.

Lemma print_graphic p : version_ok p -> str_all is_graphic (print_parts p) = true.
Proof.
  intros Hok. pose proof (print_public_class p Hok) as Hp. destruct Hok as (_ & _ & _ & Hl).
  change (print_parts p) with (print_public p +:+ match local p with Some segs => "+" +:+ join "." segs | None => "" end).
  rewrite str_all_app. apply andb_true_intro. split.
  - eapply str_all_weaken, Hp. intros c Hc. by apply public_class.
  - destruct (local p) as [segs|]; [|done]. cbn. apply str_all_join; [done|].
    eapply Forall_impl; [apply Hl|]. intros s [_ Hs]. eapply str_all_weaken, Hs. intros c Hc. by apply segment_class.
Qed.

Lemma parse_epoch_print p : version_ok p ->
  parse_epoch (print_public p) = Some (epoch p, release_text (release p) +:+ print_qualifiers p).
Proof.
  intros (He & _). unfold parse_epoch, print_public. cbn [String.append].
  rewrite split_once_cut; [|done|].
  - destruct (pretty_head (epoch p)) as (c & w & E & _).
    rewrite (proj2 (pretty_digits (epoch p))), parse_u64_pretty by done. by rewrite E.
  - apply pretty_avoids. intros c Hc. by destruct (digit_class c Hc) as (_ & _ & -> & _).
Qed.

Lemma split_release_print p : version_ok p ->
  split_release (release_text (release p) +:+ print_qualifiers p) =
    Some (release_text (release p), print_qualifiers p).
Proof.
  intros (_ & (Hne & _) & Hq & _).
  pose proof (split_release_join (release p) (print_qualifiers p) Hne (qualifiers_stop p Hq) true) as Hs.
  unfold split_release. destruct (release_text (release p) +:+ print_qualifiers p) as [|c s] eqn:E.
  - destruct (release p) as [|n l]; [done|]. destruct (pretty_head n) as (c & w & En & _).
    cbn [fmap list_fmap join] in E. rewrite En in E. by destruct ((pretty : N -> string) <$> l).
  - assert (Hc : is_digit c = true).
    { destruct (release p) as [|n l]; [done|]. destruct (pretty_head n) as (d & w & En & Hd).
      cbn [fmap list_fmap join] in E. rewrite En in E. destruct ((pretty : N -> string) <$> l); by simplify_eq/=. }
    by rewrite Hc, Hs.
Qed.

(** The parser reads the canonical form back as the parts it prints. *)
Lemma parse_print p : version_ok p -> parse_pep440 (print_parts p) = Some p.
Proof.
  intros Hok. unfold parse_pep440. rewrite trim_graphic by by apply print_graphic.
  change (print_parts p) with (print_public p +:+ match local p with Some segs => "+" +:+ join "." segs | None => "" end).
  set (loc := match local p with Some segs => "+" +:+ join "." segs | None => "" end).
  destruct (pretty_head (epoch p)) as (c & w & E & Hc).
  assert (Hhead : exists r, print_public p +:+ loc = String c r) by (unfold print_public; rewrite E; cbn; by eexists).
  destruct Hhead as [r Hr]. rewrite Hr. cbn [trim_start_by].
  destruct (digit_class c Hc) as (_ & _ & _ & ->). cbn [is_empty String.eqb]. rewrite <- Hr.
  pose proof (print_public_class p Hok) as Hpub.
  assert (Hplus : str_all (fun d => negb (Ascii.eqb "+" d)) (print_public p) = true).
  { eapply str_all_weaken, Hpub. intros d Hd. by apply public_class. }
  assert (Hcut : match split_once (Ascii.eqb "+") (print_public p +:+ loc) with
    | Some (pub, l) => (pub, Some l) | None => (print_public p +:+ loc, None) end =
    (print_public p, join "." <$> local p)).
  { subst loc. destruct (local p) as [segs|]; cbn [String.append].
    - by rewrite split_once_cut.
    - by rewrite append_nil_r, split_once_none. }
  rewrite Hcut. rewrite lowercase_fixed by (eapply str_all_weaken, Hpub; intros d Hd; by apply public_class).
  rewrite parse_epoch_print by done. cbn [mbind option_bind]. rewrite split_release_print by done.
  cbn [mbind option_bind]. destruct Hok as (_ & (Hne & Hb & Hz) & Hq & Hl).
  rewrite tokenize_print by done. cbn [mbind option_bind].
  rewrite qualifiers_tokens by done. cbn [mbind option_bind].
  assert (parse_local (join "." <$> local p) = Some (local p)) as ->.
  { destruct (local p) as [segs|]; [|done]. cbn. by apply parse_local_join; apply Hl. }
  cbn [mbind option_bind]. rewrite release_components_join by done. by destruct p.
Qed.

(** ** Laws of the sort key *)

#[export] Instance cmp_key_preorder : TotalPreorder cmp_key.
Proof. unfold cmp_key, cmp_pre, cmp_post, cmp_dev, cmp_seg. apply _. Qed.

Lemma lex_eq {A} (c1 c2 : A -> A -> comparison) x y : lex c1 c2 x y = Eq <-> c1 x y = Eq /\ c2 x y = Eq.
Proof. unfold lex. destruct (c1 x y); cbn; naive_solver. Qed.

#[export] Instance cmp_seg_order : TotalOrder cmp_seg.
Proof.
  split; [unfold cmp_seg; apply _|]. intros [s|n] [t|m]; cbn; try done; intros H; f_equal.
  - by apply (to_eq String.compare).
  - by apply (to_eq N.compare).
Qed.

(** [derive(Ord)] agrees with [derive(PartialEq)]. *)
#[export] Instance cmp_key_order : TotalOrder cmp_key.
Proof.
  split; [apply _|]. intros [e r p po d l] [e' r' p' po' d' l']. unfold cmp_key, cmp_pre, cmp_dev, cmp_post.
  rewrite !lex_eq. unfold cmp_on. cbn [key_epoch key_release key_pre key_post key_dev key_local].
  intros (He%(to_eq N.compare) & Hr%(to_eq (cmp_list N.compare)) & Hp & Hpo & Hd & Hl%(to_eq (cmp_list cmp_seg))).
  rewrite !lex_eq in Hp. rewrite !lex_eq in Hd. destruct Hp as (Hp1%(to_eq N.compare) & Hp2%(to_eq N.compare) & Hp3%(to_eq N.compare)).
  destruct Hd as (Hd1%(to_eq N.compare) & Hd2%(to_eq N.compare)). apply (to_eq (cmp_list N.compare)) in Hpo.
  f_equal; try done.
  - destruct p, p'; cbn in *; congruence.
  - destruct po, po'; congruence.
  - destruct d, d'; cbn in *; congruence.
Qed.

(** A numeric local segment written as Rust prints it, without leading zeros. *)
Definition plain_segment (s : string) : Prop := forall n, parse_u64 s = Some n -> s = pretty n.
Definition plain_local (p : Pep440Parts) : Prop := Forall plain_segment (default [] (local p)).

Lemma local_segments_inj l k :
  Forall plain_segment l -> Forall plain_segment k -> local_segment <$> l = local_segment <$> k -> l = k.
Proof.
  intros Hl. revert k. induction Hl as [|s l Hs Hl IH]; intros [|t k] Hk; try done.
  apply Forall_cons in Hk as [Ht Hk]. cbn. intros [= Hst Heq]. f_equal; [|by apply IH].
  unfold local_segment in Hst. destruct (parse_u64 s) as [n|] eqn:E, (parse_u64 t) as [m|] eqn:F; simplify_eq; [|done].
  by rewrite (Hs _ E), (Ht _ F).
Qed.

Lemma key_of_inj p q :
  version_ok p -> version_ok q -> plain_local p -> plain_local q -> key_of p = key_of q -> p = q.
Proof.
  intros (_ & _ & (Hp & _ & _) & Hl) (_ & _ & (Hq & _ & _) & Hk) Hpl Hql. unfold plain_local in *.
  destruct p as [e r pr po de lo], q as [e' r' pr' po' de' lo']. unfold key_of. cbn [epoch release pre post dev local] in *.
  intros [= -> -> Hpre Hpost Hdev Hloc]. apply local_segments_inj in Hloc; [|done|done]. f_equal.
  - destruct pr as [[a n]|], pr' as [[b m]|]; try (by repeat case_match).
    rewrite !elem_of_cons, elem_of_nil in Hp, Hq. injection Hpre as Hr ->. do 2 f_equal.
    by destruct Hp as [[->|[->|[->|[]]]] _], Hq as [[->|[->|[->|[]]]] _].
  - destruct po, po'; congruence.
  - destruct de, de'; congruence.
  - destruct lo as [l|], lo' as [k|]; cbn in Hloc; try congruence; [by destruct Hl|by destruct Hk].
Qed.

Lemma parse_u64_overflow s : str_all is_digit s = true -> (U64_MAX < digits_val 0 s)%N -> parse_u64 s = None.
Proof.
  intros Hd Hbig. destruct s as [|c s]; [done|].
  assert (Hbody : match String c s with String "+" r => r | _ => String c s end = String c s).
  { apply andb_prop in Hd as [Hc _]. by destruct c as [[] [] [] [] [] [] [] []]. }
  unfold parse_u64. rewrite Hbody, Hd. cbn [is_empty String.eqb negb andb].
  by rewrite (proj2 (N.leb_gt _ _) Hbig).
Qed.

Lemma dotted_class c : is_digit c || Ascii.eqb c "." = true ->
  is_graphic c = true /\ negb (Ascii.eqb "+" c) = true /\ negb (Ascii.eqb "!" c) = true /\ negb (is_upper c) = true.
Proof. destruct c as [[] [] [] [] [] [] [] []]; vm_compute; try congruence; done. Qed.

(** A release component that does not fit reads as zero. *)
Lemma parse_overflow digits :
  str_all is_digit digits = true -> (U64_MAX < digits_val 0 digits)%N ->
  parse_pep440 ("1." +:+ digits) = parse_pep440 "1".
Proof.
  intros Hd Hbig. assert (Hne : digits <> "") by by intros ->.
  assert (Hg : forall f : ascii -> bool, (forall c, is_digit c || Ascii.eqb c "." = true -> f c = true) ->
                 str_all f ("1." +:+ digits) = true).
  { intros f Hf. cbn. rewrite (Hf "1"%char), (Hf "."%char) by done. cbn. eapply str_all_weaken, Hd.
    intros c Hc. apply Hf. by rewrite Hc. }
  assert (Hsplit : split_release ("1." +:+ digits) = Some ("1." +:+ digits, "")).
  { pose proof (split_release_digits true digits "" Hd Hne) as Hl. rewrite append_nil_r in Hl. cbn in Hl.
    rewrite append_nil_r in Hl. destruct digits as [|c w]; [done|]. apply andb_prop in Hd as [Hc _].
    cbn [String.append split_release]. change (is_digit "1") with true. cbv iota.
    assert (split_release_loop true (String "1" (String "." (String c w))) =
            cons_to_head "1" (cons_to_head "." (split_release_loop true (String c w)))) as ->; [|by rewrite Hl].
    change (split_release_loop true (String "1" (String "." (String c w)))) with
      (cons_to_head "1" (if is_digit c then cons_to_head "." (split_release_loop true (String c w))
                         else ("", String "." (String c w)))). by rewrite Hc. }
  assert (Hrel : release_components ("1." +:+ digits) = [1%N]).
  { unfold release_components, split_char. change ("1." +:+ digits) with ("1" +:+ String "." digits).
    rewrite split_on_app by done. rewrite split_on_piece.
    - cbn [fmap list_fmap]. rewrite (parse_u64_overflow digits Hd Hbig). by vm_compute.
    - eapply str_all_weaken, Hd. intros c Hc. by destruct (digit_class c Hc) as (_ & -> & _). }
  unfold parse_pep440 at 1. rewrite trim_graphic by (apply Hg; intros; by apply dotted_class).
  change (trim_start_by _ ("1." +:+ digits)) with ("1." +:+ digits).
  change (is_empty ("1." +:+ digits)) with false. cbv iota.
  rewrite split_once_none by (apply Hg; intros; by apply dotted_class). cbv iota beta.
  rewrite lowercase_fixed by (apply Hg; intros; by apply dotted_class).
  unfold parse_epoch. rewrite split_once_none by (apply Hg; intros; by apply dotted_class).
  change (parse_u64 "0") with (Some 0%N). cbn [mbind option_bind]. rewrite Hsplit. cbn [mbind option_bind].
  rewrite Hrel. reflexivity.
Qed.

(** ** Properties *)

(** Canonicalising is idempotent and loses nothing the code reads: the
    canonical form of any accepted version is accepted, is its own canonical
    form, sorts like the version and has the same pre-release status. *)
Theorem canonical_version_fixed_point (v c : string) (Hc : canonical_version v = Some c) :
  canonical_version c = Some c /\ pep440_sort_key c = pep440_sort_key v /\ is_prerelease c = is_prerelease v.
Proof.
  unfold canonical_version, pep440_sort_key, is_prerelease in *.
  destruct (parse_pep440 v) as [p|] eqn:E; [|done]. injection Hc as <-.
  by rewrite (parse_print p (parse_version_ok v p E)).
Qed.

Lemma canonical_version_fixed_point_witness :
  canonical_version "0!1a1.post0.dev3+ubuntu.1" = Some "0!1a1.post0.dev3+ubuntu.1".
Proof.
  exact (proj1 (canonical_version_fixed_point " v1.0-Alpha_01.post.dev3+Ubuntu_1 " _ eq_refl)).
Defined.

(** Identity and order agree: the sort key's [Ord] is a total order that
    agrees with [==], two versions with the same canonical form have the same
    key, and two versions with the same key have the same canonical form
    unless a numeric local segment is written with leading zeros. *)
Theorem sort_key_agrees (a b : string) (p q : Pep440Parts)
    (Ha : parse_pep440 a = Some p) (Hb : parse_pep440 b = Some q) :
  TotalOrder cmp_key /\
  (canonical_version a = canonical_version b -> cmp_key (key_of p) (key_of q) = Eq) /\
  (plain_local p -> plain_local q -> cmp_key (key_of p) (key_of q) = Eq -> canonical_version a = canonical_version b).
Proof.
  pose proof (parse_version_ok _ _ Ha) as Hp. pose proof (parse_version_ok _ _ Hb) as Hq.
  unfold canonical_version. rewrite Ha, Hb. cbn [fmap option_fmap option_map]. split_and!; [apply _| |].
  - intros [= Heq]. pose proof (parse_print p Hp) as E. rewrite Heq, (parse_print q Hq) in E. injection E as ->.
    apply tp_refl, _.
  - intros Hpl Hql Heq%(to_eq cmp_key). do 2 f_equal. by apply key_of_inj.
Qed.

Lemma sort_key_agrees_witness :
  cmp_key (key_of {| epoch := 0; release := [1%N]; pre := None; post := Some 1%N; dev := None; local := None |})
          (key_of {| epoch := 0; release := [1%N]; pre := None; post := Some 1%N; dev := None; local := None |}) = Eq.
Proof.
  refine (proj1 (proj2 (sort_key_agrees "1.0.post1" "1-1" _ _ eq_refl eq_refl)) _). vm_compute. reflexivity.
Defined.

(** Three version spellings are identified or told apart against PEP 440:
    a release component above [u64::MAX] reads as zero, so the version equals
    [1]; a local segment with leading zeros is told apart from the same number
    although the two sort as equal; and of two pre-release qualifiers, which
    PEP 440 refuses, the last one wins. *)
Theorem version_identity_gaps (digits : string)
    (Hd : str_all is_digit digits = true) (Hbig : (U64_MAX < digits_val 0 digits)%N) :
  versions_match ("1." +:+ digits) "1" = true /\
  (versions_match "1.0+01" "1.0+1" = false /\ pep440_sort_key "1.0+01" = pep440_sort_key "1.0+1") /\
  versions_match "1.0a1b2" "1.0b2" = true.
Proof.
  split; [|by vm_compute]. unfold versions_match, canonical_version. rewrite parse_overflow by done.
  apply orb_true_iff. right. by vm_compute.
Qed.

Lemma version_identity_gaps_witness : versions_match "1.18446744073709551616" "1" = true.
Proof. refine (proj1 (version_identity_gaps "18446744073709551616" _ _)); vm_compute; reflexivity. Defined.
