(* ===== verification/Repository.v ===== *)
(** Repository formats and types ([models/repository.rs]) and the registry of
    compiled-in format handlers ([formats/mod.rs]): the keys, the aliases, the
    handler each format is served by and the capability specs of the age gate. *)

From stdpp Require Import base list sets strings.
From S2P Require Import Prelude RustStr.

Local Open Scope string_scope.
Local Open Scope list_scope.

(** ** Formats *)

Inductive RepositoryFormat :=
| Maven | Gradle | Npm | Pypi | Nuget | Go | Rubygems | Docker | Helm | Rpm | Debian | Conan
| Cargo | Generic | Github | Mise | Aqua | Podman | Buildx | Oras | WasmOci | HelmOci | Poetry
| Conda | Jupyter | Yarn | Bower | Pnpm | Chocolatey | Powershell | Terraform | Opentofu
| Alpine | CondaNative | Composer | Hex | Cocoapods | Swift | Pub | Sbt | Chef | Puppet
| Ansible | Gitlfs | Vscode | Jetbrains | Huggingface | Mlmodel | Cran | Vagrant | Opkg | P2
| Bazel | Protobuf | Incus | Lxc | Pacman.

#[global] Instance RepositoryFormat_eq_dec : EqDecision RepositoryFormat.
Proof. solve_decision. Defined.

(** [derive(Debug)]. *)
Definition format_debug (format : RepositoryFormat) : string :=
  match format with
  | Maven => "Maven" | Gradle => "Gradle" | Npm => "Npm" | Pypi => "Pypi" | Nuget => "Nuget"
  | Go => "Go" | Rubygems => "Rubygems" | Docker => "Docker" | Helm => "Helm" | Rpm => "Rpm"
  | Debian => "Debian" | Conan => "Conan" | Cargo => "Cargo" | Generic => "Generic"
  | Github => "Github" | Mise => "Mise" | Aqua => "Aqua" | Podman => "Podman" | Buildx => "Buildx"
  | Oras => "Oras" | WasmOci => "WasmOci" | HelmOci => "HelmOci" | Poetry => "Poetry"
  | Conda => "Conda" | Jupyter => "Jupyter" | Yarn => "Yarn" | Bower => "Bower" | Pnpm => "Pnpm"
  | Chocolatey => "Chocolatey" | Powershell => "Powershell" | Terraform => "Terraform"
  | Opentofu => "Opentofu" | Alpine => "Alpine" | CondaNative => "CondaNative"
  | Composer => "Composer" | Hex => "Hex" | Cocoapods => "Cocoapods" | Swift => "Swift"
  | Pub => "Pub" | Sbt => "Sbt" | Chef => "Chef" | Puppet => "Puppet" | Ansible => "Ansible"
  | Gitlfs => "Gitlfs" | Vscode => "Vscode" | Jetbrains => "Jetbrains"
  | Huggingface => "Huggingface" | Mlmodel => "Mlmodel" | Cran => "Cran" | Vagrant => "Vagrant"
  | Opkg => "Opkg" | P2 => "P2" | Bazel => "Bazel" | Protobuf => "Protobuf" | Incus => "Incus"
  | Lxc => "Lxc" | Pacman => "Pacman"
  end.

Definition ALL : list RepositoryFormat :=
  [Maven; Gradle; Npm; Pypi; Nuget; Go; Rubygems; Docker; Helm; Rpm; Debian; Conan; Cargo;
   Generic; Github; Mise; Aqua; Podman; Buildx; Oras; WasmOci; HelmOci; Poetry; Conda;
   Jupyter; Yarn; Bower; Pnpm; Chocolatey; Powershell; Terraform; Opentofu; Alpine;
   CondaNative; Composer; Hex; Cocoapods; Swift; Pub; Sbt; Chef; Puppet; Ansible; Gitlfs;
   Vscode; Jetbrains; Huggingface; Mlmodel; Cran; Vagrant; Opkg; P2; Bazel; Protobuf; Incus;
   Lxc; Pacman].

Definition as_key (format : RepositoryFormat) : string :=
  match format with
  | Maven => "maven"
  | Gradle => "gradle"
  | Npm => "npm"
  | Pypi => "pypi"
  | Nuget => "nuget"
  | Go => "go"
  | Rubygems => "rubygems"
  | Docker => "docker"
  | Helm => "helm"
  | Rpm => "rpm"
  | Debian => "debian"
  | Conan => "conan"
  | Cargo => "cargo"
  | Generic => "generic"
  | Github => "github"
  | Mise => "mise"
  | Aqua => "aqua"
  | Podman => "podman"
  | Buildx => "buildx"
  | Oras => "oras"
  | WasmOci => "wasm_oci"
  | HelmOci => "helm_oci"
  | Poetry => "poetry"
  | Conda => "conda"
  | Jupyter => "jupyter"
  | Yarn => "yarn"
  | Bower => "bower"
  | Pnpm => "pnpm"
  | Chocolatey => "chocolatey"
  | Powershell => "powershell"
  | Terraform => "terraform"
  | Opentofu => "opentofu"
  | Alpine => "alpine"
  | CondaNative => "conda_native"
  | Composer => "composer"
  | Hex => "hex"
  | Cocoapods => "cocoapods"
  | Swift => "swift"
  | Pub => "pub"
  | Sbt => "sbt"
  | Chef => "chef"
  | Puppet => "puppet"
  | Ansible => "ansible"
  | Gitlfs => "gitlfs"
  | Vscode => "vscode"
  | Jetbrains => "jetbrains"
  | Huggingface => "huggingface"
  | Mlmodel => "mlmodel"
  | Cran => "cran"
  | Vagrant => "vagrant"
  | Opkg => "opkg"
  | P2 => "p2"
  | Bazel => "bazel"
  | Protobuf => "protobuf"
  | Incus => "incus"
  | Lxc => "lxc"
  | Pacman => "pacman"
  end.

Definition handler_key (format : RepositoryFormat) : string :=
  match format with
  | Github | Mise | Aqua => "generic"
  | Gradle => "maven"
  | Yarn | Bower | Pnpm => "npm"
  | Poetry | Jupyter => "pypi"
  | Chocolatey | Powershell => "nuget"
  | Docker | Podman | Buildx | Oras | WasmOci | HelmOci => "oci"
  | Opentofu => "terraform"
  | Lxc => "incus"
  | other => as_key other
  end.

(** ** Repository types and visibility *)

Inductive RepositoryType := Local | Remote | Virtual | Staging.

Definition repository_type_as_str (t : RepositoryType) : string :=
  match t with Local => "local" | Remote => "remote" | Virtual => "virtual" | Staging => "staging" end.

Definition repository_type_from_db_str (s : string) : option RepositoryType :=
  if s =? "local" then Some Local
  else if s =? "remote" then Some Remote
  else if s =? "virtual" then Some Virtual
  else if s =? "staging" then Some Staging
  else None.

Definition is_staging (t : RepositoryType) : bool :=
  match t with Staging => true | _ => false end.

Definition is_hosted (t : RepositoryType) : bool :=
  match t with Local | Staging => true | _ => false end.

Inductive RepositoryVisibility := Public | Internal | Private.

Definition visibility_as_str (v : RepositoryVisibility) : string :=
  match v with Public => "public" | Internal => "internal" | Private => "private" end.

Definition visibility_from_db_str (s : string) : option RepositoryVisibility :=
  if s =? "public" then Some Public
  else if s =? "internal" then Some Internal
  else if s =? "private" then Some Private
  else None.

Definition allows_anonymous_read (v : RepositoryVisibility) : bool :=
  match v with Public => true | _ => false end.

Definition allows_authenticated_read (v : RepositoryVisibility) : bool :=
  match v with Public | Internal => true | _ => false end.

(** ** Handlers

    A [Box<dyn FormatHandler>] is identified by the struct it boxes. *)

Inductive Handler :=
| MavenHandler | NpmHandler | PypiHandler | CondaNativeHandler | NugetHandler | GoHandler
| RubygemsHandler | OciHandler | HelmHandler | RpmHandler | DebianHandler | ConanHandler
| CargoHandler | GenericHandler | TerraformHandler | AlpineHandler | ComposerHandler
| HexHandler | CocoaPodsHandler | SwiftHandler | PubHandler | SbtHandler | ChefHandler
| PuppetHandler | AnsibleHandler | GitLfsHandler | VscodeHandler | JetbrainsHandler
| HuggingFaceHandler | MlModelHandler | CranHandler | VagrantHandler | OpkgHandler | P2Handler
| BazelHandler | ProtobufHandler | IncusHandler | PacmanHandler.

#[global] Instance Handler_eq_dec : EqDecision Handler.
Proof. solve_decision. Defined.

Definition get_core_handler (format_key : string) : option Handler :=
  if (format_key =? "maven") || (format_key =? "gradle") then Some MavenHandler
  else if format_key =? "npm" then Some NpmHandler
  else if format_key =? "pypi" then Some PypiHandler
  else if format_key =? "nuget" then Some NugetHandler
  else if format_key =? "go" then Some GoHandler
  else if format_key =? "rubygems" then Some RubygemsHandler
  else if one_of format_key ["docker"; "oci"; "podman"; "buildx"; "oras"; "wasm_oci"; "helm_oci"] then Some OciHandler
  else if format_key =? "helm" then Some HelmHandler
  else if format_key =? "rpm" then Some RpmHandler
  else if format_key =? "debian" then Some DebianHandler
  else if format_key =? "conan" then Some ConanHandler
  else if format_key =? "cargo" then Some CargoHandler
  else if one_of format_key ["generic"; "github"; "mise"; "aqua"] then Some GenericHandler
  else if (format_key =? "poetry") || (format_key =? "jupyter") then Some PypiHandler
  else if format_key =? "conda" then Some CondaNativeHandler
  else if one_of format_key ["yarn"; "bower"; "pnpm"] then Some NpmHandler
  else if (format_key =? "chocolatey") || (format_key =? "powershell") then Some NugetHandler
  else if (format_key =? "terraform") || (format_key =? "opentofu") then Some TerraformHandler
  else if format_key =? "alpine" then Some AlpineHandler
  else if format_key =? "conda_native" then Some CondaNativeHandler
  else if format_key =? "composer" then Some ComposerHandler
  else if format_key =? "hex" then Some HexHandler
  else if format_key =? "cocoapods" then Some CocoaPodsHandler
  else if format_key =? "swift" then Some SwiftHandler
  else if format_key =? "pub" then Some PubHandler
  else if format_key =? "sbt" then Some SbtHandler
  else if format_key =? "chef" then Some ChefHandler
  else if format_key =? "puppet" then Some PuppetHandler
  else if format_key =? "ansible" then Some AnsibleHandler
  else if format_key =? "gitlfs" then Some GitLfsHandler
  else if one_of format_key ["vscode"; "cursor"; "windsurf"; "kiro"] then Some VscodeHandler
  else if format_key =? "jetbrains" then Some JetbrainsHandler
  else if format_key =? "huggingface" then Some HuggingFaceHandler
  else if format_key =? "mlmodel" then Some MlModelHandler
  else if format_key =? "cran" then Some CranHandler
  else if format_key =? "vagrant" then Some VagrantHandler
  else if format_key =? "opkg" then Some OpkgHandler
  else if format_key =? "p2" then Some P2Handler
  else if format_key =? "bazel" then Some BazelHandler
  else if format_key =? "protobuf" then Some ProtobufHandler
  else if (format_key =? "incus") || (format_key =? "lxc") then Some IncusHandler
  else if format_key =? "pacman" then Some PacmanHandler
  else None.

Definition get_handler_for_format (format : RepositoryFormat) : Handler :=
  match format with
  | Maven | Gradle => MavenHandler
  | Npm | Yarn | Bower | Pnpm => NpmHandler
  | Pypi | Poetry | Jupyter => PypiHandler
  | Conda => CondaNativeHandler
  | Nuget | Chocolatey | Powershell => NugetHandler
  | Go => GoHandler
  | Rubygems => RubygemsHandler
  | Docker | Podman | Buildx | Oras | WasmOci | HelmOci => OciHandler
  | Helm => HelmHandler
  | Rpm => RpmHandler
  | Debian => DebianHandler
  | Conan => ConanHandler
  | Cargo => CargoHandler
  | Generic | Github | Mise | Aqua => GenericHandler
  | Terraform | Opentofu => TerraformHandler
  | Alpine => AlpineHandler
  | CondaNative => CondaNativeHandler
  | Composer => ComposerHandler
  | Hex => HexHandler
  | Cocoapods => CocoaPodsHandler
  | Swift => SwiftHandler
  | Pub => PubHandler
  | Sbt => SbtHandler
  | Chef => ChefHandler
  | Puppet => PuppetHandler
  | Ansible => AnsibleHandler
  | Gitlfs => GitLfsHandler
  | Vscode => VscodeHandler
  | Jetbrains => JetbrainsHandler
  | Huggingface => HuggingFaceHandler
  | Mlmodel => MlModelHandler
  | Cran => CranHandler
  | Vagrant => VagrantHandler
  | Opkg => OpkgHandler
  | P2 => P2Handler
  | Bazel => BazelHandler
  | Protobuf => ProtobufHandler
  | Incus | Lxc => IncusHandler
  | Pacman => PacmanHandler
  end.

Definition list_core_formats : list string := as_key <$> ALL.

Record CoreFormatHandler := {
  format_key : string;
  display_name : string;
  description : string;
  extensions : list string
}.

Definition core_handler_metadata (format_key : string) : string * string * list string :=
  if format_key =? "maven" then ("Maven", "Maven repository format for Java artifacts", [".jar"; ".pom"; ".war"; ".ear"])
  else if format_key =? "npm" then ("npm", "Node.js package manager", [".tgz"])
  else if format_key =? "pypi" then ("PyPI", "Python Package Index", [".whl"; ".tar.gz"])
  else if format_key =? "nuget" then ("NuGet", ".NET package manager", [".nupkg"])
  else if format_key =? "cargo" then ("Cargo", "Rust package manager", [".crate"])
  else if format_key =? "go" then ("Go Modules", "Go module proxy", [".zip"; ".mod"])
  else if format_key =? "oci" then ("OCI/Docker", "Container images (OCI format)", [])
  else if format_key =? "helm" then ("Helm", "Kubernetes package manager", [".tgz"])
  else if format_key =? "debian" then ("Debian", "Debian packages", [".deb"])
  else if format_key =? "rpm" then ("RPM", "Red Hat packages", [".rpm"])
  else if format_key =? "rubygems" then ("RubyGems", "Ruby gems", [".gem"])
  else if format_key =? "conan" then ("Conan", "C/C++ package manager", [".tgz"])
  else if format_key =? "generic" then ("Generic", "Generic artifact storage", [])
  else if format_key =? "terraform" then ("Terraform/OpenTofu", "Terraform and OpenTofu modules and providers", [".zip"])
  else if format_key =? "alpine" then ("Alpine", "Alpine Linux apk packages", [".apk"])
  else if format_key =? "conda" then ("Conda", "Conda packages", [".conda"; ".tar.bz2"])
  else if format_key =? "conda_native" then ("Conda", "Conda packages (native channel layout)", [".conda"; ".tar.bz2"])
  else if format_key =? "composer" then ("Composer", "PHP package manager", [".zip"; ".tar"])
  else if format_key =? "hex" then ("Hex", "Elixir/Erlang package manager", [".tar"])
  else if format_key =? "cocoapods" then ("CocoaPods", "Swift and Objective-C dependency manager", [])
  else if format_key =? "swift" then ("Swift", "Swift Package Manager registry", [".zip"])
  else if format_key =? "pub" then ("Pub", "Dart and Flutter package registry", [".tar.gz"])
  else if format_key =? "sbt" then ("sbt", "Scala build tool plugins and artifacts", [".jar"])
  else if format_key =? "chef" then ("Chef", "Chef cookbooks", [".tar.gz"])
  else if format_key =? "puppet" then ("Puppet", "Puppet modules", [".tar.gz"])
  else if format_key =? "ansible" then ("Ansible", "Ansible collections and roles", [".tar.gz"])
  else if format_key =? "gitlfs" then ("Git LFS", "Git Large File Storage objects", [])
  else if format_key =? "vscode" then ("VS Code Extensions", "Visual Studio Code compatible extensions", [".vsix"])
  else if format_key =? "jetbrains" then ("JetBrains Plugins", "JetBrains IDE plugins", [".zip"])
  else if format_key =? "huggingface" then ("Hugging Face", "Hugging Face models and datasets", [])
  else if format_key =? "mlmodel" then ("ML Models", "Machine-learning model artifacts", [])
  else if format_key =? "cran" then ("CRAN", "R packages", [".tar.gz"])
  else if format_key =? "vagrant" then ("Vagrant", "Vagrant boxes", [".box"])
  else if format_key =? "opkg" then ("opkg", "OpenWrt/embedded Linux packages", [".ipk"])
  else if format_key =? "p2" then ("Eclipse P2", "Eclipse P2 update sites", [".jar"])
  else if format_key =? "bazel" then ("Bazel", "Bazel modules and rulesets", [".tar.gz"])
  else if format_key =? "protobuf" then ("Protobuf", "Protocol Buffer schema registry", [".proto"])
  else if format_key =? "incus" then ("Incus/LXC", "Incus and LXC container images", [".tar.xz"])
  else if format_key =? "pacman" then ("Pacman", "Arch Linux pacman packages", [".pkg.tar.zst"; ".pkg.tar.xz"])
  else (format_key, "Compiled-in format handler", []).

(** The loop over [ALL]; [seen] is the set of keys already emitted. *)
Fixpoint core_format_handlers_from (seen : list string) (formats : list RepositoryFormat) :
  list CoreFormatHandler :=
  match formats with
  | [] => []
  | format :: rest =>
      let key := handler_key format in
      if one_of key seen then core_format_handlers_from seen rest
      else
        let '(display, desc, exts) := core_handler_metadata key in
        {| format_key := key; display_name := display; description := desc; extensions := exts |}
        :: core_format_handlers_from (key :: seen) rest
  end.

Definition core_format_handlers : list CoreFormatHandler := core_format_handlers_from [] ALL.

Definition SCAN_ON_PROXY_ENFORCED_HANDLERS : list string :=
  ["cargo"; "conda"; "conda_native"; "maven"; "nuget"; "sbt"; "npm"; "oci"; "pypi"; "vscode"].

Definition handler_enforces_scan_on_proxy (handler_key : string) : bool :=
  one_of handler_key SCAN_ON_PROXY_ENFORCED_HANDLERS.

Definition format_enforces_scan_on_proxy (format : RepositoryFormat) : bool :=
  handler_enforces_scan_on_proxy (handler_key format).

Definition format_key_enforces_scan_on_proxy (key : string) : bool :=
  match List.find (fun f => as_key f =? key) ALL with
  | Some f => format_enforces_scan_on_proxy f
  | None => false
  end.

(** ** Age-gate capabilities *)

Record AgeGateFormatSpec := {
  canonical : RepositoryFormat;
  label : string;
  immutable_coordinates : bool;
  publish_time_resolver : bool
}.

Definition NPM_AGE_GATE_SPEC : AgeGateFormatSpec :=
  {| canonical := Npm; label := "npm"; immutable_coordinates := true; publish_time_resolver := true |}.
Definition PYPI_AGE_GATE_SPEC : AgeGateFormatSpec :=
  {| canonical := Pypi; label := "pypi"; immutable_coordinates := true; publish_time_resolver := true |}.
Definition GO_AGE_GATE_SPEC : AgeGateFormatSpec :=
  {| canonical := Go; label := "go"; immutable_coordinates := true; publish_time_resolver := false |}.
Definition VSCODE_AGE_GATE_SPEC : AgeGateFormatSpec :=
  {| canonical := Vscode; label := "vscode"; immutable_coordinates := true; publish_time_resolver := true |}.
Definition CARGO_AGE_GATE_SPEC : AgeGateFormatSpec :=
  {| canonical := Cargo; label := "cargo"; immutable_coordinates := false; publish_time_resolver := true |}.

Definition age_gate_spec (format : RepositoryFormat) : option AgeGateFormatSpec :=
  match format with
  | Npm | Yarn | Pnpm => Some NPM_AGE_GATE_SPEC
  | Pypi | Poetry | Jupyter => Some PYPI_AGE_GATE_SPEC
  | Go => Some GO_AGE_GATE_SPEC
  | Vscode => Some VSCODE_AGE_GATE_SPEC
  | Cargo => Some CARGO_AGE_GATE_SPEC
  | _ => None
  end.

(** ** Laws *)

Lemma ALL_complete (f : RepositoryFormat) : f ∈ ALL.
Proof. apply list_elem_of_In. destruct f; cbn; tauto. Qed.

(** A decidable statement about every format is settled by running it on [ALL]. *)
Lemma forall_formats (p : RepositoryFormat -> bool) : forallb p ALL = true -> forall f, p f = true.
Proof. rewrite forallb_forall. intros H f. apply H, list_elem_of_In, ALL_complete. Qed.

Lemma forall_format_pairs (p : RepositoryFormat -> RepositoryFormat -> bool) :
  forallb (fun f => forallb (p f) ALL) ALL = true -> forall f g, p f g = true.
Proof. intros H f. apply forall_formats. apply (forall_formats _ H). Qed.

(** The format registry is consistent: [ALL] lists every variant once,
    the database keys are pairwise distinct, a format's own key and its handler
    key both resolve to the handler that serves it, and two formats share a
    handler exactly when they share a handler key, the two conda formats
    excepted (one handler, two control-surface rows). *)
Theorem format_registry_consistent :
  NoDup ALL /\ (forall f, f ∈ ALL) /\
  (forall f g, as_key f = as_key g -> f = g) /\
  (forall f, get_core_handler (as_key f) = Some (get_handler_for_format f) /\
             get_core_handler (handler_key f) = Some (get_handler_for_format f)) /\
  (forall f g, get_handler_for_format f = get_handler_for_format g ->
     handler_key f = handler_key g \/
     (handler_key f ∈ ["conda"; "conda_native"] /\ handler_key g ∈ ["conda"; "conda_native"])).
Proof.
  split_and!.
  - apply (bool_decide_eq_true_1 _). vm_compute. reflexivity.
  - apply ALL_complete.
  - intros f g. assert (H := forall_format_pairs (fun f g => implb (as_key f =? as_key g) (bool_decide (f = g)))).
    specialize (H ltac:(vm_compute; reflexivity) f g). cbv beta in H. intros Hk. rewrite Hk, String.eqb_refl in H.
    by apply bool_decide_eq_true in H.
  - intros f.
    assert (H := forall_formats (fun f => bool_decide (get_core_handler (as_key f) = Some (get_handler_for_format f) /\
      get_core_handler (handler_key f) = Some (get_handler_for_format f)))).
    specialize (H ltac:(vm_compute; reflexivity) f). cbv beta in H. by apply bool_decide_eq_true in H.
  - intros f g. assert (H := forall_format_pairs (fun f g =>
      bool_decide (get_handler_for_format f = get_handler_for_format g ->
        handler_key f = handler_key g \/
        (handler_key f ∈ ["conda"; "conda_native"] /\ handler_key g ∈ ["conda"; "conda_native"])))).
    specialize (H ltac:(vm_compute; reflexivity) f g). cbv beta in H. by apply bool_decide_eq_true in H.
Qed.

Lemma core_format_handlers_keys seen formats k :
  k ∈ (format_key <$> core_format_handlers_from seen formats) <->
  k ∉ seen /\ k ∈ (handler_key <$> formats).
Proof.
  revert seen. induction formats as [|f formats IH]; intros seen; cbn [core_format_handlers_from].
  - split; [by intros ?%elem_of_nil | by intros [_ ?%elem_of_nil]].
  - destruct (one_of (handler_key f) seen) eqn:E.
    + apply one_of_true in E. rewrite IH, fmap_cons, elem_of_cons. naive_solver.
    + assert (handler_key f ∉ seen) by (rewrite <- one_of_true; congruence).
      destruct (core_handler_metadata (handler_key f)) as [[d e] x]. cbn [fmap list_fmap format_key].
      rewrite !elem_of_cons, IH, elem_of_cons. destruct (decide (k = handler_key f)); naive_solver.
Qed.

Lemma core_format_handlers_NoDup seen formats :
  NoDup (format_key <$> core_format_handlers_from seen formats).
Proof.
  revert seen. induction formats as [|f formats IH]; intros seen; cbn [core_format_handlers_from].
  - constructor.
  - destruct (one_of (handler_key f) seen) eqn:E; [apply IH|].
    destruct (core_handler_metadata (handler_key f)) as [[d e] x]. cbn [fmap list_fmap format_key].
    constructor; [|apply IH]. intros [Hn _]%core_format_handlers_keys. set_solver.
Qed.

(** [core_format_handlers] has exactly one entry per handler key of a
    format, none of them falls back to the raw-key metadata, and the
    scan-on-proxy capability asked by database label agrees with the one asked
    by format, an unknown label never being enforced. *)
Theorem core_format_handlers_exact :
  NoDup (format_key <$> core_format_handlers) /\
  (forall k, k ∈ (format_key <$> core_format_handlers) <-> exists f, handler_key f = k) /\
  (forall h, h ∈ core_format_handlers -> description h <> "Compiled-in format handler") /\
  (forall f, format_key_enforces_scan_on_proxy (as_key f) = format_enforces_scan_on_proxy f) /\
  (forall k, k ∉ list_core_formats -> format_key_enforces_scan_on_proxy k = false).
Proof.
  split_and!.
  - apply core_format_handlers_NoDup.
  - intros k. unfold core_format_handlers. rewrite core_format_handlers_keys, list_elem_of_fmap.
    split; [intros (_ & f & -> & _); eauto|]. intros [f <-].
    split; [by intros ?%elem_of_nil|]. exists f. split; [done|apply ALL_complete].
  - apply Forall_forall. apply (bool_decide_eq_true_1 _). vm_compute. reflexivity.
  - intros f. assert (H := forall_formats (fun f =>
      Bool.eqb (format_key_enforces_scan_on_proxy (as_key f)) (format_enforces_scan_on_proxy f))).
    specialize (H ltac:(vm_compute; reflexivity) f). cbv beta in H. by apply eqb_prop in H.
  - intros k Hk. unfold format_key_enforces_scan_on_proxy.
    destruct (List.find _ ALL) as [f|] eqn:E; [|done].
    apply List.find_some in E as [Hf <-%String.eqb_eq]. destruct Hk. unfold list_core_formats.
    apply list_elem_of_fmap. exists f. split; [done|apply ALL_complete].
Qed.

(** The database labels of the repository types and of the visibilities
    parse back to the variant that printed them, nothing else parses, and read
    access only widens from anonymous to authenticated callers. *)
Theorem repository_labels_roundtrip (s : string) (t : RepositoryType) (v : RepositoryVisibility) :
  (repository_type_from_db_str s = Some t <-> s = repository_type_as_str t) /\
  (visibility_from_db_str s = Some v <-> s = visibility_as_str v) /\
  (allows_anonymous_read v = true -> allows_authenticated_read v = true).
Proof.
  split_and!; [| |by destruct v].
  - unfold repository_type_from_db_str. split; [|by intros ->; destruct t].
    repeat case_first; intros [= <-]; by apply String.eqb_eq.
  - unfold visibility_from_db_str. split; [|by intros ->; destruct v].
    repeat case_first; intros [= <-]; by apply String.eqb_eq.
Qed.
