(* ===== verification/CacheClassifier.v ===== *)
(** The proxy-cache classifier ([services/cache_classifier.rs]): which proxied
    paths may change upstream, how long a cached body is served, and what a
    read finds. *)

From stdpp Require Import base list sets strings.
From Stdlib Require Import ZArith Lia Ascii.
From S2P Require Import Prelude RustStr Chrono Repository.

Local Open Scope string_scope.
Local Open Scope list_scope.

(** ** Lifetimes *)

Definition MUTABLE_DEFAULT_TTL_SECS : Z := 300.
Definition NEGATIVE_CACHE_TTL_SECS : Z := 45.
Definition STALE_IF_ERROR_GRACE_SECS : Z := 3600.
Definition STALE_IF_ERROR_GRACE_MAX_SECS : Z := 2592000.
Definition MAX_CACHE_TTL_SECS : Z := 315360000.
Definition GITHUB_RELEASE_TTL_SECS : Z := 7 * 24 * 60 * 60.

Inductive Mutability :=
| Immutable
| Mutable (default_ttl_secs : Z).

#[global] Instance Mutability_eq_dec : EqDecision Mutability.
Proof. solve_decision. Defined.

Definition mutable_default : Mutability := Mutable MUTABLE_DEFAULT_TTL_SECS.

Definition is_immutable (m : Mutability) : bool :=
  match m with Immutable => true | Mutable _ => false end.

Definition write_ttl_secs (m : Mutability) : Z :=
  match m with Immutable => MAX_CACHE_TTL_SECS | Mutable ttl => ttl end.

(** [i64::clamp]. *)
Definition clamp (lo hi x : Z) : Z := if (x <? lo)%Z then lo else if (hi <? x)%Z then hi else x.

Definition with_ttl_override (m : Mutability) (override_secs : option Z) : Mutability :=
  match m, override_secs with
  | Mutable _, Some secs => Mutable (clamp (- MAX_CACHE_TTL_SECS) MAX_CACHE_TTL_SECS secs)
  | other, _ => other
  end.

Definition effective_expires_at `{Chrono} (m : Mutability) (cached_at stamped_expires_at : DateTime) :
  DateTime :=
  match m with
  | Immutable => stamped_expires_at
  | Mutable ttl =>
      match try_seconds ttl ≫= checked_add_signed cached_at with
      | Some policy => Z.min policy stamped_expires_at
      | None => stamped_expires_at
      end
  end.

Record CacheEntry := {
  mutability : Mutability;
  expires_at : DateTime;
  negative_cached_until : option DateTime
}.

Inductive Freshness := Fresh | Stale | NegativeHit | Miss.

Definition evaluate (entry : option CacheEntry) (now : DateTime) : Freshness :=
  match entry with
  | None => Miss
  | Some entry =>
      match negative_cached_until entry with
      | Some until => if (now <? until)%Z then NegativeHit else Miss
      | None =>
          match mutability entry with
          | Immutable => Fresh
          | Mutable _ => if (now <? expires_at entry)%Z then Fresh else Stale
          end
      end
  end.

(** ** Paths *)

Definition leaf (path : string) : string := last_piece "/" path.

Definition find_suffix (suffixes : list string) (s : string) : option string :=
  find_map (fun suf => strip_suffix suf s) suffixes.

Definition has_artifact_extension (leaf : string) : bool :=
  let base := default leaf (find_suffix [".md5"; ".sha1"; ".sha256"; ".sha512"; ".asc"] leaf) in
  existsb (fun e => ends_with e base)
    [".jar"; ".pom"; ".war"; ".ear"; ".aar"; ".zip"; ".tar.gz"; ".tgz"; ".module"; ".klib"].

Definition is_pypi_package_file (leaf : string) (pep658 : bool) : bool :=
  let base := if pep658 then default leaf (strip_suffix ".metadata" leaf) else leaf in
  existsb (fun e => ends_with e base)
    [".whl"; ".tar.gz"; ".tar.bz2"; ".zip"; ".egg"; ".tgz"; ".conda"; ".tar.zst"].

Definition has_snapshot_component (lower : string) : bool :=
  existsb (ends_with "-snapshot") (split_char "/" lower).

Definition digits_at (leaf : string) (from count : nat) : bool :=
  Nat.leb (from + count) (String.length leaf) && str_all is_digit (String.substring from count leaf).

Definition byte_at (leaf : string) (i : nat) (c : ascii) : bool :=
  match String.get i leaf with Some d => Ascii.eqb d c | None => false end.

(** [match_indices('-')] enumerates the positions of the dashes. *)
Definition has_unique_snapshot_timestamp (leaf : string) : bool :=
  existsb (fun dash =>
    byte_at leaf dash "-" &&
    let date := dash + 1 in
    let dot := date + 8 in
    let time := dot + 1 in
    let build_dash := time + 6 in
    let build := build_dash + 1 in
    digits_at leaf date 8 && byte_at leaf dot "." && digits_at leaf time 6 &&
    byte_at leaf build_dash "-" && digits_at leaf build 1)
  (seq 0 (String.length leaf)).

Definition is_unique_snapshot_artifact (leaf : string) : bool :=
  negb (contains "-snapshot" leaf) && has_artifact_extension leaf && has_unique_snapshot_timestamp leaf.

Definition classify_maven (lower : string) : Mutability :=
  let leaf := leaf lower in
  if starts_with "maven-metadata.xml" leaf then mutable_default
  else if has_snapshot_component lower && negb (is_unique_snapshot_artifact leaf) then mutable_default
  else if has_artifact_extension leaf then Immutable
  else mutable_default.

Definition maven_coordinate_is_republishable (path : string) : bool :=
  let lower := to_ascii_lowercase (trim_start_by (Ascii.eqb "/") path) in
  if starts_with "maven-metadata.xml" (leaf lower) then true else has_snapshot_component lower.

Definition speaks_pep658 (format : RepositoryFormat) : bool :=
  match format with Pypi | Poetry | Jupyter => true | _ => false end.

Definition classify_pypi (lower : string) (pep658 : bool) : Mutability :=
  if (lower =? "simple") || (lower =? "simple/") || starts_with "simple/" lower then
    if is_pypi_package_file (leaf lower) pep658 then Immutable else mutable_default
  else if is_pypi_package_file (leaf lower) pep658 then Immutable
  else mutable_default.

Definition is_conda_shard_file (leaf : string) : bool :=
  match strip_suffix ".msgpack.zst" leaf with
  | Some stem => Nat.eqb (String.length stem) 64 && str_all is_hexdigit stem
  | None => false
  end.

Definition classify_conda (lower : string) : Mutability :=
  if is_conda_shard_file (leaf lower) then Immutable else classify_pypi lower false.

Definition classify_npm (lower : string) : Mutability :=
  if contains "/-/" lower && ends_with ".tgz" lower then Immutable else mutable_default.

Definition classify_oci (lower : string) : Mutability :=
  if (contains "/blobs/" lower || contains "/manifests/" lower) && contains "sha256:" lower then Immutable
  else if contains "/blobs/" lower then Immutable
  else mutable_default.

Definition go_numeric_part (p : string) : bool :=
  negb (is_empty p) && str_all is_digit p &&
  (Nat.eqb (String.length p) 1 || negb (starts_with "0" p)).

Definition classify_go (lower : string) : Mutability :=
  let version :=
    '(_, leaf) ← rsplit_once "/@v/" lower; find_suffix [".info"; ".mod"; ".zip"] leaf in
  let core :=
    v ← version; v ← strip_prefix "v" v;
    head (split_on (fun c => Ascii.eqb c "-" || Ascii.eqb c "+") v) in
  let canonical :=
    match core with
    | Some core =>
        let parts := split_char "." core in
        Nat.eqb (length parts) 3 && forallb go_numeric_part parts
    | None => false
    end in
  if canonical then Immutable else mutable_default.

Definition classify_cargo (lower : string) : Mutability :=
  if (starts_with "crates/" lower || contains "/crates/" lower) && ends_with ".crate" lower
  then Immutable else mutable_default.

Definition classify_debian (lower : string) : Mutability :=
  if contains "/by-hash/" lower || starts_with "by-hash/" lower then Immutable
  else if starts_with "pool/" lower || contains "/pool/" lower then Immutable
  else
    let leaf := leaf lower in
    let is_binary_package := ends_with ".deb" leaf || ends_with ".udeb" leaf || ends_with ".ddeb" leaf in
    if is_binary_package && negb (starts_with "dists/" lower) then Immutable else mutable_default.

Definition classify_rpm (lower : string) : Mutability :=
  let leaf := leaf lower in
  if (leaf =? "repomd.xml") || (leaf =? "repomd.xml.asc") then mutable_default
  else if ends_with ".rpm" leaf || ends_with ".drpm" leaf then Immutable
  else if contains "repodata/" lower then
    match split_once (Ascii.eqb "-") leaf with
    | Some (prefix, _) =>
        if Nat.leb 8 (String.length prefix) && str_all is_hexdigit prefix then Immutable
        else mutable_default
    | None => mutable_default
    end
  else mutable_default.

Definition classify_vscode_gallery_asset (lower : string) : Mutability :=
  let segments := split_char "/" lower in
  let seg i := nth i segments "" in
  if Nat.eqb (length segments) 6 && (seg 0 =? "gallery") &&
     forallb (fun s => negb (is_empty s)) (take 5 segments) &&
     negb (seg 3 =? "latest") &&
     ((seg 5 =? "vspackage") || starts_with "asset-" (seg 5)) &&
     negb (is_empty (trim_start_matches "asset-" (seg 5)))
  then Immutable else mutable_default.

Definition classify_github_release (path : string) : Mutability :=
  let segments := split_char "/" path in
  let seg i := nth i segments "" in
  let all_present := forallb (fun s => negb (is_empty s)) segments in
  let is_release_asset :=
    Nat.leb 6 (length segments) && (seg 2 =? "releases") && (seg 3 =? "download") in
  let is_release_tag_lookup :=
    Nat.eqb (length segments) 6 && (seg 0 =? "repos") && (seg 3 =? "releases") && (seg 4 =? "tags") in
  if all_present && (is_release_asset || is_release_tag_lookup)
  then Mutable GITHUB_RELEASE_TTL_SECS else mutable_default.

Definition classify_bazel (lower : string) : Mutability :=
  match strip_prefix "modules/" lower with
  | Some rest =>
      if Nat.eqb (length (List.filter (fun s => negb (is_empty s)) (splitn 3 "/" rest))) 3
      then Immutable else mutable_default
  | None => mutable_default
  end.

Definition classify (format : RepositoryFormat) (path : string) : Mutability :=
  let path := trim_start_by (Ascii.eqb "/") path in
  let lower := to_ascii_lowercase path in
  match format with
  | Maven | Gradle | Sbt => classify_maven lower
  | Pypi | Poetry | Jupyter => classify_pypi lower (speaks_pep658 format)
  | Conda => classify_conda lower
  | Npm | Yarn | Pnpm | Bower => classify_npm lower
  | Docker | Podman | Buildx | Oras | WasmOci | HelmOci => classify_oci lower
  | Cargo => classify_cargo lower
  | Debian => classify_debian lower
  | Rpm => classify_rpm lower
  | Vscode => classify_vscode_gallery_asset lower
  | Go => classify_go lower
  | Github | Mise | Aqua => classify_github_release path
  | Bazel => classify_bazel lower
  | _ => mutable_default
  end.

Definition is_explicitly_mutable_index (format : RepositoryFormat) (path : string) : bool :=
  let path := trim_start_by (Ascii.eqb "/") path in
  let lower := to_ascii_lowercase path in
  match format with
  | Maven | Gradle | Sbt | Pypi | Poetry | Conda | Jupyter | Npm | Yarn | Pnpm | Bower
  | Docker | Podman | Buildx | Oras | WasmOci | HelmOci | Cargo | Debian | Rpm =>
      negb (is_immutable (classify format lower))
  | Conan => true
  | _ => false
  end.

Definition expected_sha256_from_path (path : string) : option string :=
  let lower := to_ascii_lowercase path in
  let leaf := leaf lower in
  '(prefix, _) ← split_once (Ascii.eqb "-") leaf;
  if Nat.eqb (String.length prefix) 64 && str_all is_hexdigit prefix then
    let start := String.length path - String.length leaf in
    Some (String.substring start 64 path)
  else None.

Definition exceeds_single_object_quota (quota_bytes : option Z) (object_len : Z) : bool :=
  match quota_bytes with
  | Some quota => (quota <? object_len)%Z
  | None => false
  end.

(** ** Laws: lifetimes *)

Lemma classify_ttl format path :
  classify format path ∈ [Immutable; mutable_default; Mutable GITHUB_RELEASE_TTL_SECS].
Proof.
  unfold classify, classify_maven, classify_pypi, classify_conda, classify_pypi, classify_npm, classify_oci,
    classify_cargo, classify_debian, classify_rpm, classify_vscode_gallery_asset, classify_go,
    classify_github_release, classify_bazel.
  destruct format; repeat case_first; rewrite !elem_of_cons; auto.
  match goal with |- (if ?b then _ else _) = _ \/ _ => destruct b; auto end.
Qed.

Lemma clamp_bounds lo hi x : (lo <= hi)%Z -> (lo <= clamp lo hi x <= hi)%Z.
Proof. unfold clamp. intros. destruct (Z.ltb_spec x lo), (Z.ltb_spec hi x); lia. Qed.

(** The lifetime stamped on a write, whatever the path and the override. *)
Lemma write_ttl_bounds format path o :
  (Z.abs (write_ttl_secs (with_ttl_override (classify format path) o)) <= MAX_CACHE_TTL_SECS)%Z.
Proof.
  pose proof (classify_ttl format path) as Hc. set_unfold in Hc.
  assert (Hclamp : forall s, (Z.abs (clamp (- MAX_CACHE_TTL_SECS) MAX_CACHE_TTL_SECS s) <= MAX_CACHE_TTL_SECS)%Z).
  { intros s. pose proof (clamp_bounds (- MAX_CACHE_TTL_SECS) MAX_CACHE_TTL_SECS s). unfold MAX_CACHE_TTL_SECS in *. lia. }
  destruct Hc as [->|[->|[->|[]]]]; destruct o as [s|]; simpl; try apply Hclamp;
    unfold mutable_default, MUTABLE_DEFAULT_TTL_SECS, GITHUB_RELEASE_TTL_SECS, MAX_CACHE_TTL_SECS; simpl; lia.
Qed.

Section Lifetimes.
Context `{Chrono}.
Local Open Scope Z_scope.

Lemma effective_expires_at_mutable ttl cached_at stamp :
  Z.abs ttl <= MAX_CACHE_TTL_SECS ->
  MIN_UTC <= cached_at + ttl * NANOS_PER_SEC <= MAX_UTC ->
  effective_expires_at (Mutable ttl) cached_at stamp = Z.min (cached_at + ttl * NANOS_PER_SEC) stamp.
Proof.
  intros Hs Hr. unfold effective_expires_at.
  rewrite try_seconds_spec by (unfold MAX_CACHE_TTL_SECS in Hs; lia). simpl.
  rewrite checked_add_spec. destruct (Z.leb_spec MIN_UTC (cached_at + ttl * NANOS_PER_SEC)),
    (Z.leb_spec (cached_at + ttl * NANOS_PER_SEC) MAX_UTC); simpl; lia.
Qed.
End Lifetimes.

(** A proxied path under a repository override: an immutable path ignores
    the override and is served without revalidation at any time; a mutable one
    takes the clamped override, or the classifier default without one; and a
    body cached at an instant ten years inside the representable range is
    served fresh exactly until the earlier of its stamp and [cached_at] plus
    the lifetime in force now, so lowering a lifetime takes effect at once and
    raising it never outlives the stamp. *)
Theorem override_and_freshness `{Chrono} (format : RepositoryFormat) (path : string) (o : option Z)
    (cached_at stamp now : DateTime)
    (Hlo : (MIN_UTC + MAX_CACHE_TTL_SECS * NANOS_PER_SEC <= cached_at)%Z)
    (Hhi : (cached_at + MAX_CACHE_TTL_SECS * NANOS_PER_SEC <= MAX_UTC)%Z) :
  let m := with_ttl_override (classify format path) o in
  let entry := {| mutability := m; expires_at := effective_expires_at m cached_at stamp;
                  negative_cached_until := None |} in
  (classify format path = Immutable -> m = Immutable /\ evaluate (Some entry) now = Fresh) /\
  (classify format path <> Immutable ->
     m = Mutable (match o with
                  | Some s => clamp (- MAX_CACHE_TTL_SECS) MAX_CACHE_TTL_SECS s
                  | None => write_ttl_secs (classify format path)
                  end) /\
     (evaluate (Some entry) now = Fresh <->
        (now < stamp /\ now < cached_at + write_ttl_secs m * NANOS_PER_SEC)%Z) /\
     (evaluate (Some entry) now = Fresh \/ evaluate (Some entry) now = Stale)).
Proof.
  intros m entry. pose proof (write_ttl_bounds format path o) as Hb. fold m in Hb.
  split.
  - intros Hc. unfold entry, m. rewrite Hc. by destruct o.
  - intros Hc. assert (Hm : m = Mutable (write_ttl_secs m)).
    { unfold m. destruct (classify format path); [done|]. by destruct o. }
    split; [unfold m; destruct (classify format path); [done|]; by destruct o|].
    unfold entry, evaluate; cbn [mutability expires_at negative_cached_until].
    rewrite Hm, effective_expires_at_mutable; [|done|unfold NANOS_PER_SEC in *; lia].
    cbn [write_ttl_secs]. destruct (Z.ltb_spec now (Z.min (cached_at + write_ttl_secs m * NANOS_PER_SEC) stamp));
      split; auto; split; [lia|done|done|lia].
Qed.

Lemma override_and_freshness_witness :
  let m := with_ttl_override (classify Pypi "simple/requests/") (Some 60%Z) in
  @evaluate (Some {| mutability := m;
    expires_at := @effective_expires_at reference_chrono m 0%Z (300 * NANOS_PER_SEC)%Z;
    negative_cached_until := None |}) (61 * NANOS_PER_SEC)%Z = Stale.
Proof.
  destruct (@override_and_freshness reference_chrono Pypi "simple/requests/" (Some 60%Z) 0%Z
              (300 * NANOS_PER_SEC)%Z (61 * NANOS_PER_SEC)%Z) as [_ Hmut];
    [vm_compute; discriminate|vm_compute; discriminate|].
  destruct Hmut as (_ & Hf & [Hfr|Hst]); [vm_compute; discriminate| |exact Hst].
  apply Hf in Hfr as [_ Hlt]. vm_compute in Hlt. discriminate Hlt.
Defined.

(** ** Laws: paths *)

Lemma is_slash_lower c : Ascii.eqb "/" (lower c) = Ascii.eqb "/" c.
Proof. destruct c as [[] [] [] [] [] [] [] []]; reflexivity. Qed.

Lemma trim_slashes_lower s :
  trim_start_by (Ascii.eqb "/") (to_ascii_lowercase s) = to_ascii_lowercase (trim_start_by (Ascii.eqb "/") s).
Proof.
  unfold to_ascii_lowercase. induction s as [|c s IH]; [done|]. cbn [str_map trim_start_by].
  rewrite is_slash_lower. by destruct (Ascii.eqb "/" c).
Qed.

Lemma trim_start_by_idem p s : trim_start_by p (trim_start_by p s) = trim_start_by p s.
Proof. induction s as [|c s IH]; simpl; [done|]. destruct (p c) eqn:E; simpl; by rewrite ?E. Qed.

Definition is_github_mirror (format : RepositoryFormat) : bool :=
  match format with Github | Mise | Aqua => true | _ => false end.

Lemma classify_lower format path :
  is_github_mirror format = false -> classify format (to_ascii_lowercase path) = classify format path.
Proof.
  intros Hf. unfold classify. rewrite trim_slashes_lower, to_ascii_lowercase_idem.
  by destruct format.
Qed.

(** The classification does not depend on leading slashes, nor on letter
    case outside the GitHub mirrors, and the release-immutability guard never
    calls a path that caches forever a mutable index: for every format, an
    explicit index is a path the classifier revalidates. *)
Theorem classification_normalized (format : RepositoryFormat) (path : string) :
  classify format (String "/" path) = classify format path /\
  is_explicitly_mutable_index format (String "/" path) = is_explicitly_mutable_index format path /\
  (is_github_mirror format = false -> classify format (to_ascii_lowercase path) = classify format path) /\
  (is_explicitly_mutable_index format path = true -> classify format path <> Immutable).
Proof.
  split_and!; [done|done|apply classify_lower|].
  assert (Htrim : classify format (to_ascii_lowercase (trim_start_by (Ascii.eqb "/") path)) =
                  classify format (to_ascii_lowercase path)).
  { unfold classify. by rewrite !trim_slashes_lower, trim_start_by_idem. }
  unfold is_explicitly_mutable_index. rewrite Htrim.
  destruct (is_github_mirror format) eqn:E; [by destruct format|]. rewrite classify_lower by done.
  destruct format; try done; destruct (classify _ path); done.
Qed.

(** *** Unique snapshot stamps *)

Definition all_digits (n : nat) (s : string) : Prop := String.length s = n /\ str_all is_digit s = true.

(** The byte tests of the code, on a string already cut at their position. *)
Lemma byte_at_app a s c : byte_at (a +:+ s) (String.length a) c = true <-> exists r, s = String c r.
Proof.
  unfold byte_at. split.
  - destruct (String.get _ _) as [d|] eqn:E; [|done]. intros ->%Ascii.eqb_eq.
    apply get_split in E as (a' & b & H & Hl).
    symmetry in Hl. destruct (append_eq_len _ _ _ _ H Hl) as [_ ->]. eauto.
  - intros [r ->]. assert (E : String.get (String.length a) (a +:+ String c r) = Some c)
      by (apply get_split; eauto). rewrite E. apply Ascii.eqb_refl.
Qed.

Lemma digits_at_cut a s n :
  digits_at (a +:+ s) (String.length a) n = true <-> exists d r, s = d +:+ r /\ all_digits n d.
Proof.
  unfold digits_at, all_digits. rewrite andb_true_iff, Nat.leb_le. split.
  - intros [Hle Hd]. apply substring_split in Hle as (a' & b & H & Hl & Hn).
    symmetry in Hl. destruct (append_eq_len _ _ _ _ H Hl) as [_ Hs]. eauto.
  - intros (d & r & -> & Hl & Hd). assert (Hle : String.length a + n <= String.length (a +:+ d +:+ r))
      by (rewrite !length_append; lia).
    split; [done|]. apply substring_split in Hle as (a' & b & H & Ha & Hn).
    symmetry in Ha. destruct (append_eq_len _ _ _ _ H Ha) as [_ H2].
    destruct (append_eq_len _ _ _ _ H2) as [<- _]; [congruence|done].
Qed.

(** A scan made of byte tests and digit runs, and the pieces it recognises. *)
Inductive token := TByte (c : ascii) | TDigits (n : nat).

Definition token_len (t : token) : nat := match t with TByte _ => 1 | TDigits n => n end.
Definition token_at (s : string) (i : nat) (t : token) : bool :=
  match t with TByte c => byte_at s i c | TDigits n => digits_at s i n end.
Definition token_is (t : token) (piece : string) : Prop :=
  match t with TByte c => piece = String c "" | TDigits n => all_digits n piece end.

Fixpoint tokens_at (s : string) (i : nat) (ts : list token) : bool :=
  match ts with
  | [] => true
  | t :: ts => token_at s i t && tokens_at s (i + token_len t) ts
  end.

Lemma token_at_cut a s t :
  token_at (a +:+ s) (String.length a) t = true <-> exists d r, s = d +:+ r /\ token_is t d.
Proof.
  destruct t as [c|n]; [|apply digits_at_cut]. cbn [token_at token_is]. rewrite byte_at_app. split.
  - intros [r ->]. by exists (String c ""), r.
  - intros (? & r & -> & ->). by exists r.
Qed.

Lemma token_is_len t d : token_is t d -> String.length d = token_len t.
Proof. destruct t; cbn; [by intros ->|by intros []]. Qed.

Lemma tokens_at_cut a s ts :
  tokens_at (a +:+ s) (String.length a) ts = true <->
  exists ds r, s = concat_str ds +:+ r /\ Forall2 token_is ts ds.
Proof.
  revert a s. induction ts as [|t ts IH]; intros a s; cbn [tokens_at].
  - split; [by exists [], s|done].
  - rewrite andb_true_iff, token_at_cut. split.
    + intros [(d & r & -> & Hd) H]. rewrite append_assoc, <- (token_is_len _ _ Hd), <- length_append in H.
      apply IH in H as (ds & r' & -> & Hds). exists (d :: ds), r'. split; [|by constructor].
      by rewrite append_assoc.
    + intros (ds & r & -> & Hds). inversion Hds as [|? d ? ds' Hd Hds']; subst. cbn [concat_str foldr].
      rewrite <- append_assoc. split; [by exists d, (concat_str ds' +:+ r)|].
      rewrite append_assoc, <- (token_is_len _ _ Hd), <- length_append. apply IH. eauto.
Qed.

(** The indexed scan finds exactly the stamps [-YYYYMMDD.HHMMSS-N]. *)
Definition stamp_tokens : list token :=
  [TByte "-"; TDigits 8; TByte "."; TDigits 6; TByte "-"; TDigits 1].

Definition carries_stamp (leaf : string) : Prop :=
  exists pre date time build post,
    leaf = pre +:+ "-" +:+ date +:+ "." +:+ time +:+ "-" +:+ build +:+ post /\
    all_digits 8 date /\ all_digits 6 time /\ all_digits 1 build.

Lemma has_unique_snapshot_timestamp_spec leaf :
  has_unique_snapshot_timestamp leaf = true <-> carries_stamp leaf.
Proof.
  assert (Hscan : has_unique_snapshot_timestamp leaf = true <->
    exists pre s, leaf = pre +:+ s /\ tokens_at (pre +:+ s) (String.length pre) stamp_tokens = true).
  { unfold has_unique_snapshot_timestamp. rewrite existsb_exists. cbv zeta.
    cbn [tokens_at token_at token_len stamp_tokens]. split.
    - intros (i & Hi & H). assert (Hle : i + 0 <= String.length leaf) by (apply in_seq in Hi; lia).
      apply substring_split in Hle as (a & b & Hs & <- & _). rewrite <- !andb_assoc in H.
      exists a, (String.substring (String.length a) 0 leaf +:+ b). split; [done|].
      rewrite <- Hs, andb_true_r. exact H.
    - intros (pre & s & -> & H). exists (String.length pre). rewrite andb_true_r in H.
      rewrite <- !andb_assoc. split; [|exact H]. apply in_seq.
      apply andb_prop in H as [[r ->]%byte_at_app _]. rewrite length_append. cbn. lia. }
  rewrite Hscan. unfold carries_stamp. split.
  - intros (pre & s & -> & (ds & r & -> & Hds)%tokens_at_cut).
    unfold stamp_tokens in Hds. clear Hscan.
    repeat match goal with H : Forall2 _ (_ :: _) _ |- _ => inversion H; clear H; subst
                         | H : Forall2 _ [] _ |- _ => inversion H; clear H; subst end.
    cbn [token_is] in *; subst.
    match goal with H1 : all_digits 8 ?d, H2 : all_digits 6 ?t, H3 : all_digits 1 ?b |- _ =>
      exists pre, d, t, b, r; split_and!; [|exact H1|exact H2|exact H3] end.
    cbn [concat_str foldr]. rewrite <- !append_assoc. reflexivity.
  - intros (pre & date & time & build & post & -> & Hd & Ht & Hb). eexists pre, _. split; [done|].
    apply tokens_at_cut. exists ["-"; date; "."; time; "-"; build], post.
    split; [|unfold stamp_tokens; repeat (apply Forall2_cons; split; [cbn; done|]); by apply Forall2_nil].
    cbn [concat_str foldr]. by rewrite <- !append_assoc.
Qed.

Definition is_maven_layout (format : RepositoryFormat) : bool :=
  match format with Maven | Gradle | Sbt => true | _ => false end.

(** In a Maven layout a path that caches forever is a recognised artifact
    (never [maven-metadata.xml] or a sibling), and if its coordinate may be
    republished in place (a [-SNAPSHOT] directory) then its file name carries a
    [-YYYYMMDD.HHMMSS-N] deployment stamp and no [-snapshot] token: an
    Ivy-layout snapshot jar is always revalidated. *)
Theorem maven_immutable_is_one_shot (format : RepositoryFormat) (path : string)
    (Hf : is_maven_layout format = true) (Himm : classify format path = Immutable) :
  let name := leaf (to_ascii_lowercase (trim_start_by (Ascii.eqb "/") path)) in
  has_artifact_extension name = true /\ starts_with "maven-metadata.xml" name = false /\
  (maven_coordinate_is_republishable path = true ->
     carries_stamp name /\ contains "-snapshot" name = false).
Proof.
  intros name. assert (Hm : classify_maven (to_ascii_lowercase (trim_start_by (Ascii.eqb "/") path)) = Immutable)
    by (by destruct format).
  unfold classify_maven, maven_coordinate_is_republishable in *. fold name in Hm |- *.
  destruct (starts_with "maven-metadata.xml" name); [done|].
  destruct (has_snapshot_component _); cbn [andb negb] in *.
  - destruct (is_unique_snapshot_artifact name) eqn:Hu; [|done]. cbn [negb] in Hm.
    destruct (has_artifact_extension name); [|done]. split_and!; [done|done|]; intros _.
    unfold is_unique_snapshot_artifact in Hu. apply andb_prop in Hu as [[Hs _]%andb_prop Ht].
    split; [by apply has_unique_snapshot_timestamp_spec|by apply negb_true_iff].
  - by destruct (has_artifact_extension name).
Qed.

Lemma maven_immutable_is_one_shot_witness :
  carries_stamp "app-1.0-20240101.120000-3.jar".
Proof.
  destruct (maven_immutable_is_one_shot Maven "/org/app/1.0-SNAPSHOT/app-1.0-20240101.120000-3.jar"
              eq_refl eq_refl) as (_ & _ & H).
  exact (proj1 (H eq_refl)).
Defined.

(** *** Content addresses *)

Lemma is_dash_lower c : Ascii.eqb "-" (lower c) = Ascii.eqb "-" c.
Proof. destruct c as [[] [] [] [] [] [] [] []]; reflexivity. Qed.

Lemma is_hexdigit_lower c : is_hexdigit (lower c) = is_hexdigit c.
Proof. destruct c as [[] [] [] [] [] [] [] []]; reflexivity. Qed.

(** [expected_sha256_from_path] reads exactly the createrepo file names
    [<64 hex digits>-<rest>], and the digest it returns is that text of the
    path itself, letter case included. *)
Theorem expected_sha256_exact (path h : string) :
  expected_sha256_from_path path = Some h <->
  String.length h = 64 /\ str_all is_hexdigit h = true /\ exists rest, leaf path = h +:+ "-" +:+ rest.
Proof.
  unfold expected_sha256_from_path. unfold leaf at 1 2, to_ascii_lowercase.
  rewrite (last_piece_map _ _ _ is_slash_lower). fold (leaf path).
  destruct (last_piece_cut "/" path) as [dir Hdir]. fold (leaf path) in Hdir.
  assert (Hstart : String.length path - String.length (str_map lower (leaf path)) = String.length dir).
  { rewrite length_str_map. rewrite Hdir at 1. rewrite length_append. lia. }
  rewrite Hstart, (split_once_map _ _ _ is_dash_lower). split.
  - destruct (split_once _ (leaf path)) as [[p q]|] eqn:E; cbn; [|done].
    rewrite length_str_map, str_all_map, (str_all_ext _ _ p is_hexdigit_lower).
    destruct (Nat.eqb_spec (String.length p) 64) as [Hl|]; [|done]. cbn.
    destruct (str_all is_hexdigit p) eqn:Hx; [|done]. intros [= <-].
    apply split_once_Some in E as (c & Hc%Ascii.eqb_eq & Hp & _). subst c.
    assert (Hsub : String.substring (String.length dir) 64 path = p).
    { rewrite Hdir, Hp, <- Hl. apply substring_app. }
    rewrite Hsub. split_and!; [done|done|by exists q].
  - intros (Hl & Hx & rest & Hleaf).
    rewrite Hleaf. change ("-" +:+ rest) with (String "-" rest).
    rewrite split_once_cut; [|done|].
    2:{ apply (str_all_weaken is_hexdigit); [|done]. intros c. destruct c as [[] [] [] [] [] [] [] []]; by vm_compute. }
    cbn. rewrite length_str_map, str_all_map, (str_all_ext _ _ h is_hexdigit_lower), Hl, Hx. cbn. f_equal.
    rewrite Hdir, Hleaf, <- Hl. apply substring_app.
Qed.

(** *** Go modules *)

(** A Go path caches forever only when its file name is a canonical
    version, [vMAJOR.MINOR.PATCH] with decimal parts without leading zeros and
    an optional [-] or [+] suffix, followed by [.info], [.mod] or [.zip]:
    version lists and branch queries are always revalidated. *)
Theorem go_immutable_is_canonical (path : string) (Himm : classify Go path = Immutable) :
  exists module major minor patch suffix ext,
    to_ascii_lowercase (trim_start_by (Ascii.eqb "/") path) =
      module +:+ "/@v/v" +:+ (major +:+ "." +:+ minor +:+ "." +:+ patch) +:+ suffix +:+ ext /\
    forallb go_numeric_part [major; minor; patch] = true /\
    (suffix = "" \/ exists c r, suffix = String c r /\ (c = "-"%char \/ c = "+"%char)) /\
    ext ∈ [".info"; ".mod"; ".zip"].
Proof.
  change (classify_go (to_ascii_lowercase (trim_start_by (Ascii.eqb "/") path)) = Immutable) in Himm.
  set (low := to_ascii_lowercase _) in *. unfold classify_go in Himm.
  destruct (rsplit_once "/@v/" low) as [[module name]|] eqn:E1; cbn [mbind option_bind] in Himm; [|done].
  destruct (find_suffix _ name) as [v|] eqn:E2; cbn [mbind option_bind] in Himm; [|done].
  destruct (strip_prefix "v" v) as [v'|] eqn:E3; cbn [mbind option_bind] in Himm; [|done].
  destruct (head _) as [core|] eqn:E4; [|done].
  destruct (Nat.eqb_spec (length (split_char "." core)) 3) as [Hlen|]; [|done]. cbn [andb] in Himm.
  destruct (forallb go_numeric_part _) eqn:E5; [|done]. clear Himm.
  apply rsplit_once_Some in E1. apply find_map_Some in E2 as (ext & Hext & E2).
  apply strip_suffix_Some in E2. apply strip_prefix_Some in E3.
  apply split_on_head in E4 as (suffix & E4 & Hsuf).
  pose proof (split_on_join "." core) as Hcore.
  destruct (split_char "." core) as [|major [|minor [|patch [|? ?]]]]; try done. clear Hlen. cbn [join] in Hcore.
  exists module, major, minor, patch, suffix, ext. split_and!; [|done| |done].
  - rewrite E1, E2, E3, E4, <- Hcore. by rewrite <- !append_assoc.
  - destruct Hsuf as [->|(c & r & -> & Hc)]; [by left|right]. exists c, r. split; [done|].
    apply orb_prop in Hc as [->%Ascii.eqb_eq| ->%Ascii.eqb_eq]; auto.
Qed.

Lemma go_immutable_is_canonical_witness :
  exists module major minor patch suffix ext,
    "github.com/x/y/@v/v1.20.3+incompatible.zip" =
      module +:+ "/@v/v" +:+ (major +:+ "." +:+ minor +:+ "." +:+ patch) +:+ suffix +:+ ext /\
    ext ∈ [".info"; ".mod"; ".zip"].
Proof.
  destruct (go_immutable_is_canonical "github.com/x/y/@v/v1.20.3+incompatible.zip" eq_refl)
    as (module & major & minor & patch & suffix & ext & Hpath & _ & _ & Hext).
  exists module, major, minor, patch, suffix, ext. split; [exact Hpath|exact Hext].
Defined.

(** *** Container tags *)

Lemma contains_app p s t : contains p s = true -> contains p (s +:+ t) = true.
Proof.
  assert (Heq : forall u, contains p u =
    starts_with p u || match u with EmptyString => false | String _ u => contains p u end) by (by intros []).
  induction s as [|c s IH]; rewrite (Heq (_ +:+ t)), Heq.
  - rewrite orb_false_r. intros H. apply (starts_with_app _ _ t) in H. cbn in H |- *. by rewrite H.
  - intros [H|H]%orb_prop; [by rewrite (starts_with_app _ (String c s) t H)|].
    cbn. rewrite (IH H). apply orb_true_r.
Qed.

Lemma to_ascii_lowercase_app s t : to_ascii_lowercase (s +:+ t) = to_ascii_lowercase s +:+ to_ascii_lowercase t.
Proof. unfold to_ascii_lowercase. induction s as [|c s IH]; cbn; [done|]. by rewrite IH. Qed.

(** A tag manifest is a mutable pointer, yet under an image name that has
    a [blobs] component every tag, [latest] included, caches forever and an
    operator's lifetime override is ignored. *)
Theorem oci_tag_under_blobs_component (tag : string) (o : option Z) :
  classify Docker ("v2/acme/app/manifests/latest") = mutable_default /\
  with_ttl_override (classify Docker ("v2/acme/blobs/app/manifests/" +:+ tag)) o = Immutable.
Proof.
  split; [reflexivity|].
  assert (Hc : classify_oci (to_ascii_lowercase ("v2/acme/blobs/app/manifests/" +:+ tag)) = Immutable).
  { rewrite to_ascii_lowercase_app. unfold classify_oci. rewrite (contains_app "/blobs/") by reflexivity.
    by destruct (contains "sha256:" _). }
  change (with_ttl_override (classify_oci (to_ascii_lowercase ("v2/acme/blobs/app/manifests/" +:+ tag))) o
          = Immutable).
  by rewrite Hc.
Qed.
