(* ===== verification/Curation.v ===== *)
(** Package curation ([services/curation_service.rs],
    [services/conda_semantics.rs], [models/curation.rs]): version constraints,
    name folding, the first-match rule engine, the typed dispatch and the
    mapping of decisions onto catalog statuses.

    The [publisher_trust] and [popularity] engines and the rattler crate are
    reached through the [RuleEngines] and [Rattler] interfaces.  The rows of
    [curation_rules] are a list; [fetch_applicable_rules] is the filter and
    the [ORDER BY] of its query. *)

From stdpp Require Import base list sets strings.
From Stdlib Require Import ZArith Lia Ascii.
From S2P Require Import Prelude RustStr Glob VersionOrder.

Local Open Scope string_scope.
Local Open Scope list_scope.

(** ** Data *)

Record CurationRule := {
  id : Uuid;
  staging_repo_id : option Uuid;
  package_pattern : string;
  version_constraint : string;
  architecture : string;
  action : string;
  priority : Z;
  reason : string;
  enabled : bool;
  rule_type : string;
  config : Json;
  scope : string;
  created_by : option Uuid;
  created_at : DateTime;
  updated_at : DateTime
}.

Inductive CurationDecision :=
| Allow
| Flag (reason : string)
| Block (reason : string)
| NotApplicable.

Record RuleEvaluation := {
  ev_action : string;
  ev_reason : string;
  ev_rule_id : option Uuid
}.

(** ** Version constraints *)

(** A leading epoch: digits followed by [:] or [!]. *)
Definition split_epoch (version : string) : string * string :=
  let digits := String.length (take_while is_digit version) in
  match String.get digits version with
  | Some c =>
      if (Ascii.eqb c ":" || Ascii.eqb c "!") && Nat.ltb 0 digits
      then (String.substring 0 digits version,
            String.substring (S digits) (String.length version - S digits) version)
      else ("0", version)
  | None => ("0", version)
  end.

Definition is_dot_or_dash (c : ascii) : bool := Ascii.eqb c "." || Ascii.eqb c "-".

(** The early returns of the epoch test and of the segment loop are the
    [then_cmp] of the two comparisons. *)
Definition version_compare (a b : string) : Z :=
  let '(epoch_a, rest_a) := split_epoch a in
  let '(epoch_b, rest_b) := split_epoch b in
  ordering_to_i32
    (then_cmp (compare_digit_runs epoch_a epoch_b)
       (cmp_padded compare_natural_segment "0"
          (split_on is_dot_or_dash rest_a) (split_on is_dot_or_dash rest_b))).

Definition pattern_matches (pattern name : string) : bool := glob_match pattern name.

Definition constraint_parts (constraint : string) : string * string :=
  match strip_prefix ">=" constraint with
  | Some v => (">=", trim v)
  | None =>
  match strip_prefix "<=" constraint with
  | Some v => ("<=", trim v)
  | None =>
  match strip_prefix ">" constraint with
  | Some v => (">", trim v)
  | None =>
  match strip_prefix "<" constraint with
  | Some v => ("<", trim v)
  | None =>
  match strip_prefix "=" constraint with
  | Some v => ("=", trim v)
  | None => ("=", constraint)
  end end end end end.

Definition version_matches (constraint version : string) : bool :=
  let constraint := trim constraint in
  if constraint =? "*" then true
  else
    let '(op, target) := constraint_parts constraint in
    let cmp := version_compare version target in
    if op =? ">=" then (0 <=? cmp)%Z
    else if op =? "<=" then (cmp <=? 0)%Z
    else if op =? ">" then (0 <? cmp)%Z
    else if op =? "<" then (cmp <? 0)%Z
    else if op =? "=" then (cmp =? 0)%Z
    else false.

(** The loop of [fold_pep503]; [last_was_sep] is its flag. *)
Fixpoint fold_pep503_loop (last_was_sep : bool) (value : string) : string :=
  match value with
  | EmptyString => EmptyString
  | String c rest =>
      if Ascii.eqb c "-" || Ascii.eqb c "_" || Ascii.eqb c "." then
        if last_was_sep then fold_pep503_loop true rest
        else String "-" (fold_pep503_loop true rest)
      else String (lower c) (fold_pep503_loop false rest)
  end.

Definition fold_pep503 (value : string) : string :=
  let out := fold_pep503_loop true value in
  match strip_suffix "-" out with Some out' => out' | None => out end.

(** ** Conda constraints, over the rattler crate *)

Class Rattler := {
  VersionSpec : Type;
  CondaVersion : Type;
  version_spec_from_str : string -> option VersionSpec;
  conda_version_from_str : string -> option CondaVersion;
  spec_matches : VersionSpec -> CondaVersion -> bool
}.

Definition is_conda_format (format : string) : bool :=
  (to_ascii_lowercase format =? "conda") || (to_ascii_lowercase format =? "conda_native").

Definition conda_spec_source (constraint : string) : string :=
  match strip_prefix ">=" constraint with
  | Some v => ">=" +:+ trim v
  | None =>
  match strip_prefix "<=" constraint with
  | Some v => "<=" +:+ trim v
  | None =>
  match strip_prefix ">" constraint with
  | Some v => ">" +:+ trim v
  | None =>
  match strip_prefix "<" constraint with
  | Some v => "<" +:+ trim v
  | None =>
      let target := trim (default constraint (strip_prefix "=" constraint)) in
      if contains "*" target then target else "==" +:+ target
  end end end end.

Definition version_constraint_matches `{Rattler} (constraint version : string) : option bool :=
  let constraint := trim constraint in
  if constraint =? "*" then Some true
  else
    spec ← version_spec_from_str (conda_spec_source constraint);
    v ← conda_version_from_str (trim version);
    Some (spec_matches spec v).

(** ** The rule engine *)

Section Engine.
Context `{Rattler}.

Definition name_matches (fold_names : bool) (rule : CurationRule) (package_name : string) : bool :=
  if fold_names
  then pattern_matches (fold_pep503 (package_pattern rule)) (fold_pep503 package_name)
  else pattern_matches (package_pattern rule) package_name.

Definition constraint_accepts (conda_semantics : bool) (constraint : string) (version : option string) : bool :=
  match version with
  | Some v =>
      if conda_semantics then default false (version_constraint_matches constraint v)
      else version_matches constraint v
  | None => constraint =? "*"
  end.

Definition architecture_accepts (rule_arch : string) (arch : option string) : bool :=
  if rule_arch =? "*" then true
  else match arch with Some a => rule_arch =? a | None => false end.

(** The body of the loop falls through to the [return] exactly when none of
    its [continue]s fires. *)
Fixpoint evaluate_rules (rules : list CurationRule) (default_action package_name : string)
  (version architecture_ : option string) (fold_names conda_semantics : bool) : RuleEvaluation :=
  match rules with
  | [] =>
      {| ev_action := default_action;
         ev_reason := "No matching rule; default action: " +:+ default_action;
         ev_rule_id := None |}
  | rule :: rest =>
      let continue_ :=
        evaluate_rules rest default_action package_name version architecture_ fold_names conda_semantics in
      if negb (rule_type rule =? "pattern") then continue_
      else if negb (name_matches fold_names rule package_name) then continue_
      else if negb (constraint_accepts conda_semantics (trim (version_constraint rule)) version)
      then continue_
      else if negb (architecture_accepts (architecture rule) architecture_) then continue_
      else {| ev_action := action rule; ev_reason := reason rule; ev_rule_id := Some (id rule) |}
  end.

Definition evaluate_package_in_memory (rules : list CurationRule)
  (default_action package_name version : string) (architecture_ : option string) : RuleEvaluation :=
  evaluate_rules rules default_action package_name (Some version) architecture_ false false.

(** [ORDER BY priority ASC, created_at ASC]. *)
Definition rule_order : CurationRule -> CurationRule -> comparison :=
  lex (cmp_on priority Z.compare) (cmp_on created_at Z.compare).

Definition rule_in_scope (repo : Uuid) (r : CurationRule) : bool :=
  enabled r &&
  match staging_repo_id r with Some s => N.eqb s repo | None => true end.

Definition fetch_applicable_rules (table : list CurationRule) (repo : Uuid) : list CurationRule :=
  sort_by rule_order (List.filter (rule_in_scope repo) table).

Definition evaluate_package (table : list CurationRule) (repo : Uuid)
  (default_action package_name version : string) (architecture_ : option string) : RuleEvaluation :=
  evaluate_package_in_memory (fetch_applicable_rules table repo) default_action package_name
    version architecture_.

Definition evaluate_pep503_package (table : list CurationRule) (repo : Uuid)
  (default_action package_name : string) (version : option string) : RuleEvaluation :=
  evaluate_rules (fetch_applicable_rules table repo) default_action package_name version
    None true false.
End Engine.

(** ** Typed dispatch *)

(** The typed engines the dispatch calls, and the uuid crate. *)
Class RuleEngines := {
  publisher_trust_evaluate : Json -> string -> string -> string -> Json -> CurationDecision;
  popularity_applies_to : string -> bool;
  popularity_evaluate : Json -> string -> string -> string -> CurationDecision;
  engines_uuid :: UuidCrate
}.

Section Typed.
Context `{Rattler} `{RuleEngines}.

Definition evaluate_typed_rule (rule : CurationRule) (format name version : string)
  (metadata : Json) : CurationDecision :=
  if rule_type rule =? "pattern" then
    let architecture_ := json_get "architecture" metadata ≫= json_as_str in
    let conda_semantics := is_conda_format format in
    let eval := evaluate_rules [rule] "allow" name (Some version) architecture_ false conda_semantics in
    match ev_rule_id eval with
    | None => NotApplicable
    | Some _ =>
        if ev_action eval =? "allow" then Allow
        else if ev_action eval =? "block" then Block (ev_reason eval)
        else Flag (ev_reason eval)
    end
  else if rule_type rule =? "publisher_trust" then
    publisher_trust_evaluate (config rule) format name version metadata
  else if rule_type rule =? "popularity" then
    if negb (popularity_applies_to format) then NotApplicable
    else popularity_evaluate (config rule) format name version
  else
    Flag ("Unrecognized curation rule_type '" +:+ rule_type rule +:+ "' (rule " +:+
          uuid_display (id rule) +:+ "): routed to manual review").

Fixpoint evaluate_typed_rules (rules : list CurationRule) (default_decision : CurationDecision)
  (format name version : string) (metadata : Json) : CurationDecision * option Uuid :=
  match rules with
  | [] => (default_decision, None)
  | rule :: rest =>
      match evaluate_typed_rule rule format name version metadata with
      | NotApplicable => evaluate_typed_rules rest default_decision format name version metadata
      | decision => (decision, Some (id rule))
      end
  end.

Definition default_decision (default_action : string) : CurationDecision :=
  if default_action =? "allow" then Allow
  else if default_action =? "block" then
    Block ("No matching rule; default action: " +:+ default_action)
  else Flag ("No matching rule; default action: " +:+ default_action).

Definition context_metadata (metadata : Json) (architecture_ : option string) : Json :=
  match architecture_, json_get "architecture" metadata with
  | Some arch, None =>
      match metadata with
      | JObject m => JObject (json_map_insert "architecture" (JString arch) m)
      | _ => JObject [("architecture", JString arch)]
      end
  | _, _ => metadata
  end.

Definition evaluate_package_typed (table : list CurationRule) (repo : Uuid)
  (default_action format package_name version : string) (architecture_ : option string)
  (metadata : Json) : CurationDecision * option Uuid :=
  evaluate_typed_rules (fetch_applicable_rules table repo) (default_decision default_action)
    format package_name version (context_metadata metadata architecture_).

Definition decision_to_status_reason (decision : CurationDecision) (rule_id : option Uuid) :
  string * string :=
  match decision with
  | Allow =>
      match rule_id with
      | Some id => ("approved", "Allowed by curation rule " +:+ uuid_display id)
      | None => ("approved", "No matching rule; default action: allow")
      end
  | Block reason => ("blocked", reason)
  | Flag reason => ("review", reason)
  | NotApplicable =>
      ("review", "Rule evaluation rendered no decision; routed to manual review")
  end.
End Typed.

(** ** Laws of the version comparison *)

Definition version_order : string -> string -> comparison :=
  cmp_on split_epoch
    (lex (cmp_on fst compare_digit_runs)
         (cmp_on (fun p => split_on is_dot_or_dash (snd p)) (cmp_padded compare_natural_segment "0"))).

Lemma version_compare_order a b : version_compare a b = ordering_to_i32 (version_order a b).
Proof.
  unfold version_compare, version_order, cmp_on, lex.
  by destruct (split_epoch a), (split_epoch b).
Qed.

#[export] Instance version_order_preorder : TotalPreorder version_order.
Proof. apply _. Qed.

(** The curation comparison is a total preorder on all version strings,
    epochs, missing segments and non-numeric segments included, so it is a
    lawful [sort_by] comparator. *)
Theorem version_compare_total_preorder :
  TotalPreorder (fun a b => Z.compare (version_compare a b) 0).
Proof.
  split; intros *; rewrite !version_compare_order, !ordering_to_i32_cmp; apply version_order_preorder.
Qed.

(** A constraint made of an operator and an operand with nothing to trim. *)
Definition clean_operand (target : string) : Prop :=
  target <> "*" /\ trim target = target /\
  (forall op, op ∈ ["<"; ">"; "="] -> trim (op +:+ target) = op +:+ target) /\
  starts_with "=" target = false.

Lemma version_matches_ops target version :
  clean_operand target ->
  version_matches ("<" +:+ target) version = (version_compare version target <? 0)%Z /\
  version_matches (">" +:+ target) version = (0 <? version_compare version target)%Z /\
  version_matches ("=" +:+ target) version = (version_compare version target =? 0)%Z.
Proof.
  intros (Hstar & Ht & Hop & Heq). unfold version_matches.
  assert (Hn : strip_prefix "=" target = None).
  { rewrite starts_with_strip in Heq. by destruct (strip_prefix "=" target). }
  assert (Hlt : constraint_parts ("<" +:+ target) = ("<", target)).
  { unfold constraint_parts. cbn [String.append]. rewrite !strip_prefix_cons. cbn -[strip_prefix trim].
    by rewrite Hn, strip_prefix_nil, Ht. }
  assert (Hgt : constraint_parts (">" +:+ target) = (">", target)).
  { unfold constraint_parts. cbn [String.append]. rewrite !strip_prefix_cons. cbn -[strip_prefix trim].
    by rewrite Hn, strip_prefix_nil, Ht. }
  assert (Heq' : constraint_parts ("=" +:+ target) = ("=", target)).
  { unfold constraint_parts. cbn [String.append]. rewrite !strip_prefix_cons. cbn -[strip_prefix trim].
    by rewrite strip_prefix_nil, Ht. }
  split_and!; rewrite (Hop _) by set_solver; rewrite ?Hlt, ?Hgt, ?Heq'; done.
Qed.

(** For an operand with nothing to trim, exactly one of the constraints
    [< t], [= t] and [> t] accepts any given version. *)
Theorem version_matches_trichotomy (target version : string) (Ht : clean_operand target) :
  let lt := version_matches ("<" +:+ target) version in
  let eq := version_matches ("=" +:+ target) version in
  let gt := version_matches (">" +:+ target) version in
  (lt = true /\ eq = false /\ gt = false) \/ (lt = false /\ eq = true /\ gt = false) \/
  (lt = false /\ eq = false /\ gt = true).
Proof.
  destruct (version_matches_ops target version Ht) as (-> & -> & ->).
  rewrite version_compare_order. destruct (version_order version target); simpl; auto.
Qed.

Lemma version_matches_trichotomy_witness :
  clean_operand "1:2.0-3" /\ version_matches ">1:2.0-3" "2:0.1" = true.
Proof.
  assert (H : clean_operand "1:2.0-3").
  { split_and!; try done. intros op Hop. set_unfold in Hop.
    destruct Hop as [->|[->|[->|[]]]]; reflexivity. }
  split; [exact H|].
  destruct (version_matches_trichotomy "1:2.0-3" "2:0.1" H) as [(Hlt & _)|[(_ & Heq & _)|(_ & _ & Hgt)]];
    [discriminate Hlt | discriminate Heq | exact Hgt].
Defined.

(** ** Laws of name folding *)

Definition is_sep (c : ascii) : bool := Ascii.eqb c "-" || Ascii.eqb c "_" || Ascii.eqb c ".".

(** Folded text: no upper-case letter, no [_] or [.], and no [-] at the start
    (when [start] holds), doubled, or at the end. *)
Fixpoint folded (start : bool) (s : string) : bool :=
  match s with
  | EmptyString => true
  | String c r =>
      if Ascii.eqb c "-" then negb start && negb (is_empty r) && folded true r
      else negb (is_sep c) && negb (is_upper c) && folded false r
  end.

Lemma fold_loop_fix b s : folded b s = true -> fold_pep503_loop b s = s.
Proof.
  revert b. induction s as [|c s IH]; intros b; simpl; [done|].
  destruct (Ascii.eqb_spec c "-") as [->|Hne]; simpl.
  - destruct b; simpl; [done|]. intros [_ Hs]%andb_prop. by rewrite IH.
  - unfold is_sep. destruct (Ascii.eqb_spec c "-"); [done|]. simpl.
    destruct (_ || _); simpl; [done|]. intros [Hu Hs]%andb_prop.
    rewrite IH by done. unfold lower. by destruct (is_upper c).
Qed.

(** The loop's output is folded once a trailing dash is removed. *)
Lemma fold_loop_out b s :
  folded b (default (fold_pep503_loop b s) (strip_suffix "-" (fold_pep503_loop b s))) = true /\
  (b = true -> starts_with "-" (fold_pep503_loop b s) = false).
Proof.
  revert b. induction s as [|c s IH]; intros b; simpl; [done|].
  fold (is_sep c). destruct (is_sep c) eqn:Hsep.
  - destruct (IH true) as [H1 H2]. specialize (H2 eq_refl).
    destruct b; [done|]. split; [|done].
    destruct (fold_pep503_loop true s) as [|d out] eqn:Eo; [done|]. rewrite strip_suffix_eq.
    destruct (String.eqb_spec (String "-" (String d out)) "-") as [Habs|_]; [discriminate Habs|].
    destruct (strip_suffix "-" (String d out)) as [o|] eqn:E; cbn [fmap option_fmap option_map default] in *.
    + change (negb (is_empty o) && folded true o = true).
      apply strip_suffix_Some in E. destruct o as [|e o]; [|exact H1].
      cbn in E. simplify_eq.
    + change (folded true (String d out) = true). exact H1.
  - destruct (IH false) as [H1 _]. split.
    + set (out := fold_pep503_loop false s) in *.
      assert (Hl : Ascii.eqb (lower c) "-" = false /\ is_sep (lower c) = false /\ is_upper (lower c) = false).
      { split_and!; [| |apply lower_not_upper]; revert Hsep;
          destruct c as [[] [] [] [] [] [] [] []]; vm_compute; congruence. }
      destruct Hl as (L1 & L2 & L3). rewrite strip_suffix_eq.
      destruct (String.eqb_spec (String (lower c) out) "-") as [[= E _]|_];
        [rewrite E in L1; done|].
      assert (Hcons : forall o, folded b (String (lower c) o) = folded false o)
        by (intros o; cbn [folded]; by rewrite L1, L2, L3).
      destruct (strip_suffix "-" out) as [o|]; [change (folded b (String (lower c) o) = true)|
        change (folded b (String (lower c) out) = true)]; by rewrite Hcons.
    + intros _. rewrite starts_with_strip. cbn [strip_prefix].
      destruct (Ascii.eqb_spec "-" (lower c)) as [E|]; [|done]. revert Hsep E.
      destruct c as [[] [] [] [] [] [] [] []]; vm_compute; congruence.
Qed.

Lemma folded_no_trailing_dash b s : folded b s = true -> strip_suffix "-" s = None.
Proof.
  revert b. induction s as [|c s IH]; intros b; [done|]. rewrite strip_suffix_eq. cbn [folded].
  destruct (Ascii.eqb_spec c "-") as [->|Hne].
  - intros [[_ He]%andb_prop Hs]%andb_prop. rewrite (IH _ Hs).
    by destruct (String.eqb_spec (String "-" s) "-") as [[= ->]|_].
  - intros [_ Hs]%andb_prop. rewrite (IH _ Hs).
    by destruct (String.eqb_spec (String c s) "-") as [[= -> _]|_].
Qed.

Lemma fold_pep503_default s :
  fold_pep503 s = default (fold_pep503_loop true s) (strip_suffix "-" (fold_pep503_loop true s)).
Proof. unfold fold_pep503. by destruct (strip_suffix _ _). Qed.

(** [fold_pep503] puts every name into PEP 503 normal form (lower case, no
    [_] or [.], no leading, doubled or trailing dash), and is the identity on
    names already in that form. *)
Theorem fold_pep503_normal_form (s : string) :
  folded true (fold_pep503 s) = true /\ (folded true s = true <-> fold_pep503 s = s).
Proof.
  assert (Hout : forall t, folded true (fold_pep503 t) = true).
  { intros t. rewrite fold_pep503_default. apply (fold_loop_out true t). }
  split; [apply Hout|]. split; [|intros <-; apply Hout].
  intros Hs. unfold fold_pep503. rewrite (fold_loop_fix true s Hs).
  by rewrite (folded_no_trailing_dash true s Hs).
Qed.

(** ** The rule engine picks the first applicable rule *)

Section EngineLaws.
Context `{Rattler}.

(** What the four [continue]s of the loop leave: the rule is a pattern rule
    and its name, version and architecture conditions hold. *)
Definition rule_applies (package_name : string) (version architecture_ : option string)
  (fold_names conda_semantics : bool) (rule : CurationRule) : bool :=
  (rule_type rule =? "pattern") && name_matches fold_names rule package_name &&
  constraint_accepts conda_semantics (trim (version_constraint rule)) version &&
  architecture_accepts (architecture rule) architecture_.

Lemma evaluate_rules_find rules default_action name version arch fold conda :
  evaluate_rules rules default_action name version arch fold conda =
    match List.find (rule_applies name version arch fold conda) rules with
    | Some r => {| ev_action := action r; ev_reason := reason r; ev_rule_id := Some (id r) |}
    | None => evaluate_rules [] default_action name version arch fold conda
    end.
Proof.
  induction rules as [|r rules IH]; [done|]. cbn [evaluate_rules List.find]. unfold rule_applies at 1.
  destruct (rule_type r =? "pattern"); simpl; [|apply IH].
  destruct (name_matches fold r name); simpl; [|apply IH].
  destruct (constraint_accepts conda (trim (version_constraint r)) version); simpl; [|apply IH].
  destruct (architecture_accepts (architecture r) arch); simpl; [done|apply IH].
Qed.

Lemma fetch_applicable_rules_elem table repo r :
  r ∈ fetch_applicable_rules table repo <-> r ∈ table /\ rule_in_scope repo r = true.
Proof.
  unfold fetch_applicable_rules. rewrite (sort_by_perm rule_order).
  by rewrite list_elem_of_In, filter_In, <- list_elem_of_In.
Qed.

Lemma fetch_applicable_rules_sorted table repo : sorted_by rule_order (fetch_applicable_rules table repo).
Proof. apply sort_by_sorted. unfold rule_order. apply _. Qed.
End EngineLaws.

(** A list search returns the least element in a sorted list that passes. *)
Lemma find_sorted {A} (cmp : A -> A -> comparison) `{!TotalPreorder cmp} (f : A -> bool) l r :
  sorted_by cmp l -> List.find f l = Some r ->
  r ∈ l /\ f r = true /\ forall r', r' ∈ l -> f r' = true -> cmp r r' <> Gt.
Proof.
  induction l as [|x l IH]; simpl; [done|]. intros [Hx Hl]. destruct (f x) eqn:Hf.
  - intros [= <-]. split_and!; [left|done|]. intros r' [->|Hr']%elem_of_cons _; [|by apply Hx].
    by rewrite (tp_refl cmp).
  - intros (Hin & Hr & Hmin)%IH; [|done]. split_and!; [by right|done|].
    intros r' [->|Hr']%elem_of_cons ?; [congruence|by apply Hmin].
Qed.

(** The package check: a rule decides exactly when some enabled rule of
    the repository (or a global one) applies to the package; the deciding rule
    is then of minimal priority number, oldest first among equals, and gives
    the action and the reason; otherwise the default action is taken. *)
Theorem evaluate_package_decides `{Rattler} (table : list CurationRule) (repo : Uuid)
    (default_action name version : string) (arch : option string) :
  let applies r := rule_in_scope repo r && rule_applies name (Some version) arch false false r in
  let ev := evaluate_package table repo default_action name version arch in
  (exists r, r ∈ table /\ applies r = true /\
     ev = {| ev_action := action r; ev_reason := reason r; ev_rule_id := Some (id r) |} /\
     forall r', r' ∈ table -> applies r' = true ->
       (priority r < priority r' \/
        priority r = priority r' /\ created_at r <= created_at r')%Z) \/
  ((forall r, r ∈ table -> applies r = false) /\
   ev_action ev = default_action /\ ev_rule_id ev = None).
Proof.
  intros applies ev. subst ev. unfold evaluate_package, evaluate_package_in_memory.
  rewrite evaluate_rules_find.
  destruct (List.find _ _) as [r|] eqn:E.
  - left. pose proof (fetch_applicable_rules_sorted table repo) as Hs.
    assert (TotalPreorder rule_order) by (unfold rule_order; apply _).
    apply (find_sorted rule_order _ _ r Hs) in E as (Hin & Hr & Hmin).
    apply fetch_applicable_rules_elem in Hin as [Ht Hsc].
    exists r. split_and!; [done|unfold applies; by rewrite Hsc, Hr|done|].
    intros r' Hr' [Hsc' Ha]%andb_prop.
    assert (Hle : rule_order r r' <> Gt) by (apply Hmin; [by apply fetch_applicable_rules_elem|done]).
    unfold rule_order, lex, cmp_on in Hle.
    destruct (Z.compare_spec (priority r) (priority r')), (Z.compare_spec (created_at r) (created_at r'));
      simpl in Hle; try done; lia.
  - right. split; [|done]. intros r Hr. unfold applies.
    destruct (rule_in_scope repo r) eqn:Hsc; [|done]. simpl.
    apply (List.find_none _ _ E). apply list_elem_of_In, fetch_applicable_rules_elem. done.
Qed.

(** ** The typed dispatch approves only on an explicit allow *)

Section TypedLaws.
Context `{Rattler} `{RuleEngines}.

Lemma evaluate_typed_rules_spec rules dflt format name version metadata d rid :
  evaluate_typed_rules rules dflt format name version metadata = (d, rid) ->
  (exists r, r ∈ rules /\ rid = Some (id r) /\
     evaluate_typed_rule r format name version metadata = d /\ d <> NotApplicable) \/
  (d = dflt /\ rid = None /\
   forall r, r ∈ rules -> evaluate_typed_rule r format name version metadata = NotApplicable).
Proof.
  induction rules as [|r rules IH]; cbn [evaluate_typed_rules].
  - intros [= <- <-]. right. split_and!; [done..|]. by intros ? ?%elem_of_nil.
  - destruct (evaluate_typed_rule r format name version metadata) eqn:E.
    1-3: intros [= <- <-]; left; exists r; split_and!; [left|done..].
    intros [(r' & Hr' & ? & ? & ?)|(? & ? & Hall)]%IH; [left|right].
    + exists r'. split_and!; [by right|done..].
    + split_and!; [done..|]. intros r' [->|?]%elem_of_cons; auto.
Qed.

Lemma pattern_rule_allow r format name version metadata :
  rule_type r = "pattern" -> evaluate_typed_rule r format name version metadata = Allow ->
  action r = "allow" /\
  rule_applies name (Some version) (json_get "architecture" metadata ≫= json_as_str) false
    (is_conda_format format) r = true.
Proof.
  intros Ht. unfold evaluate_typed_rule. rewrite Ht, evaluate_rules_find. cbn [String.eqb Ascii.eqb Bool.eqb List.find].
  destruct (rule_applies _ _ _ _ _ r); cbn [ev_rule_id ev_action]; [|done].
  destruct (String.eqb_spec (action r) "allow"); [done|]. by destruct (_ =? "block").
Qed.
End TypedLaws.

(** Catalog rows become [approved] only on an explicit allow: an in-scope
    rule of a known type that renders [Allow] (for a pattern rule, one whose
    action is [allow] and that applies to the package and the architecture the
    dispatch sees), or the default action [allow] when every in-scope rule is
    not applicable.  An unrecognised rule type never approves. *)
Theorem typed_approval_is_explicit `{Rattler} `{RuleEngines} (table : list CurationRule) (repo : Uuid)
    (default_action format name version : string) (arch : option string) (metadata : Json) :
  let decided := evaluate_package_typed table repo default_action format name version arch metadata in
  let seen := context_metadata metadata arch in
  fst (decision_to_status_reason (fst decided) (snd decided)) = "approved" ->
  (exists r, r ∈ table /\ rule_in_scope repo r = true /\ snd decided = Some (id r) /\
     evaluate_typed_rule r format name version seen = Allow /\
     rule_type r ∈ ["pattern"; "publisher_trust"; "popularity"] /\
     (rule_type r = "pattern" -> action r = "allow" /\
        rule_applies name (Some version) (json_get "architecture" seen ≫= json_as_str) false
          (is_conda_format format) r = true)) \/
  (default_action = "allow" /\ snd decided = None /\
   forall r, r ∈ table -> rule_in_scope repo r = true ->
     evaluate_typed_rule r format name version seen = NotApplicable).
Proof.
  intros decided seen. subst decided. unfold evaluate_package_typed. fold seen.
  destruct (evaluate_typed_rules _ _ _ _ _ seen) as [d rid] eqn:E. cbn [fst snd].
  intros Hok. assert (d = Allow) as -> by (destruct d; done). clear Hok.
  apply evaluate_typed_rules_spec in E as [(r & Hr & -> & Hd & _)|(Hd & -> & Hall)].
  - left. apply fetch_applicable_rules_elem in Hr as [Hr Hsc]. exists r. split_and!; try done.
    + revert Hd. unfold evaluate_typed_rule.
      destruct (String.eqb_spec (rule_type r) "pattern") as [->|_]; [set_solver|].
      destruct (String.eqb_spec (rule_type r) "publisher_trust") as [->|_]; [set_solver|].
      destruct (String.eqb_spec (rule_type r) "popularity") as [->|_]; [set_solver|done].
    + intros Ht. by apply pattern_rule_allow in Hd.
  - right. split_and!; [|done|].
    + unfold default_decision in Hd. destruct (String.eqb_spec default_action "allow"); [done|].
      by destruct (_ =? "block").
    + intros r Hr Hsc. by apply Hall, fetch_applicable_rules_elem.
Qed.

(** Engines for the witnesses: no third-party version spec parses, and the
    typed engines render no decision. *)
Definition inert_rattler : Rattler :=
  {| VersionSpec := unit; CondaVersion := unit; version_spec_from_str _ := None;
     conda_version_from_str _ := None; spec_matches _ _ := false |}.

Definition inert_engines : RuleEngines :=
  {| publisher_trust_evaluate _ _ _ _ _ := NotApplicable; popularity_applies_to _ := false;
     popularity_evaluate _ _ _ _ := NotApplicable; engines_uuid := {| uuid_display _ := "id" |} |}.

Definition sample_rule : CurationRule :=
  {| id := 7%N; staging_repo_id := None; package_pattern := "curl*"; version_constraint := ">= 8.0";
     architecture := "*"; action := "allow"; priority := 10%Z; reason := "vetted"; enabled := true;
     rule_type := "pattern"; config := JNull; scope := "both"; created_by := None;
     created_at := 0%Z; updated_at := 0%Z |}.

Lemma typed_approval_is_explicit_witness :
  exists r, r ∈ [sample_rule] /\ action r = "allow".
Proof.
  destruct (@typed_approval_is_explicit inert_rattler inert_engines [sample_rule] 1%N "block" "rpm"
              "curl-minimal" "8.2.1" None JNull eq_refl) as [(r & Hr & _ & _ & _ & _ & Hp)|[Hd _]].
  - exists r. split; [exact Hr|]. apply Hp. set_unfold in Hr. destruct Hr as [->|[]]. reflexivity.
  - discriminate Hd.
Defined.
