(* ===== verification/Marshal.v ===== *)
(** Ruby Marshal 4.8 as the RubyGems indexes use it ([formats/rubygems.rs]):
    the writer of the specs index and of the quick gemspec, and the reader that
    merges an upstream index.

    Bytes are strings.  [value]'s depth counter is the number of nesting
    levels still allowed, so the depth check is the base case of the
    recursion.  A [usize] position cannot overflow: every length that is added
    to one is at most twice the length of the data. *)

From stdpp Require Import base list strings.
From Stdlib Require Import ZArith Lia Ascii.
From S2P Require Import Prelude RustStr.

Local Open Scope string_scope.
Local Open Scope list_scope.

(** ** The writer *)

Record MarshalWriter := {
  out : string;
  wsymbols : list string
}.

Definition bytes_of (l : list Z) : string := fold_right (fun z s => String (byte_of z) s) "" l.

Definition writer_new : MarshalWriter := {| out := bytes_of [4; 8]%Z; wsymbols := [] |}.

Definition extend (s : string) (w : MarshalWriter) : MarshalWriter :=
  {| out := out w +:+ s; wsymbols := wsymbols w |}.

Definition push (c : ascii) (w : MarshalWriter) : MarshalWriter := extend (String c "") w.

(** The reading of a byte as [i8]. *)
Definition as_i8 (b : Z) : Z := if (b <? 128)%Z then b else (b - 256)%Z.

(** The byte loop: [i] is its index, [buf] holds [buf[1..i]]; the result is
    [buf[0]] with the bytes written.  It leaves the loop at the latest when
    [i] reaches [buf.len() = 9]. *)
Fixpoint long_loop (fuel : nat) (i : Z) (x : Z) (buf : list Z) : Z * list Z :=
  match fuel with
  | O => ((i - 1)%Z, buf)
  | S fuel =>
      let buf := buf ++ [Z.land x 255] in
      let x := Z.shiftr x 8 in
      if (x =? 0)%Z then (i, buf)
      else if (x =? -1)%Z then ((- i) mod 256, buf)%Z
      else long_loop fuel (i + 1)%Z x buf
  end.

Definition long_bytes (n : Z) : string :=
  if (n =? 0)%Z then bytes_of [0%Z]
  else if (1 <=? n)%Z && (n <? 123)%Z then bytes_of [(n + 5)%Z]
  else if (-123 <=? n)%Z && (n <? 0)%Z then bytes_of [((n - 5) mod 256)%Z]
  else
    let '(head, buf) := long_loop 8 1 n [] in
    let count := Z.to_nat (Z.abs (as_i8 head)) in
    bytes_of (head :: take count buf).

Definition write_long (n : Z) (w : MarshalWriter) : MarshalWriter := extend (long_bytes n) w.

Definition str_len (s : string) : Z := Z.of_nat (String.length s).

(** [iter().position]. *)
Fixpoint position (sym : string) (symbols : list string) : option nat :=
  match symbols with
  | [] => None
  | s :: rest => if s =? sym then Some 0 else S <$> position sym rest
  end.

Definition write_symbol (sym : string) (w : MarshalWriter) : MarshalWriter :=
  match position sym (wsymbols w) with
  | Some idx => write_long (Z.of_nat idx) (push ";" w)
  | None =>
      let w := extend sym (write_long (str_len sym) (push ":" w)) in
      {| out := out w; wsymbols := wsymbols w ++ [sym] |}
  end.

Definition QUOTE : ascii := ascii_of_nat 34.

Definition write_utf8_string (s : string) (w : MarshalWriter) : MarshalWriter :=
  let w := push QUOTE (push "I" w) in
  let w := extend s (write_long (str_len s) w) in
  let w := write_symbol "E" (write_long 1 w) in
  push "T" w.

Definition write_gem_version (version : string) (w : MarshalWriter) : MarshalWriter :=
  let w := write_symbol "Gem::Version" (push "U" w) in
  write_utf8_string version (write_long 1 (push "[" w)).

Definition write_nil (w : MarshalWriter) : MarshalWriter := push "0" w.
Definition write_bool (b : bool) (w : MarshalWriter) : MarshalWriter := push (if b then "T" else "F")%char w.
Definition write_fixnum (n : Z) (w : MarshalWriter) : MarshalWriter := write_long n (push "i" w).
Definition write_array_header (len : nat) (w : MarshalWriter) : MarshalWriter :=
  write_long (Z.of_nat len) (push "[" w).
Definition write_empty_hash (w : MarshalWriter) : MarshalWriter := write_long 0 (push "{" w).

Definition write_gem_requirement (constraints : list (string * string)) (w : MarshalWriter) : MarshalWriter :=
  let w := write_symbol "Gem::Requirement" (push "U" w) in
  let w := write_array_header (length constraints) (write_array_header 1 w) in
  fold_left (fun w c => write_gem_version (snd c) (write_utf8_string (fst c) (write_array_header 2 w)))
    constraints w.

Definition write_gem_dependency (name : string) (constraints : list (string * string)) (dev : bool)
  (w : MarshalWriter) : MarshalWriter :=
  let w := write_long 5 (write_symbol "Gem::Dependency" (push "o" w)) in
  let w := write_utf8_string name (write_symbol "@name" w) in
  let w := write_gem_requirement constraints (write_symbol "@requirement" w) in
  let w := write_symbol (if dev then "development" else "runtime") (write_symbol "@type" w) in
  let w := write_bool false (write_symbol "@prerelease" w) in
  write_gem_requirement constraints (write_symbol "@version_requirements" w).

Definition requirement_ops : list string := ["<="; ">="; "!="; "~>"; "="; "<"; ">"].

Definition parse_constraint (part : string) : option (string * string) :=
  let p := trim part in
  if is_empty p then None
  else
    Some (match find_map (fun op => rest ← strip_prefix op p; Some (op, trim rest)) requirement_ops with
          | Some c => c
          | None => ("=", p)
          end).

Definition parse_requirement_constraints (req : string) : list (string * string) :=
  match omap parse_constraint (split_char "," req) with
  | [] => [(">=", "0")]
  | constraints => constraints
  end.

Record GemDependency := {
  dep_name : string;
  requirements : string;
  dep_type : string
}.

Record GemSpec := {
  gem_name : string;
  gem_version : string;
  platform : option string;
  authors : option (list string);
  email : option string;
  summary : option string;
  description : option string;
  homepage : option string;
  license : option string;
  licenses : option (list string);
  required_ruby_version : option string;
  dependencies : option (list GemDependency)
}.

Definition write_dependency (dep : GemDependency) : MarshalWriter -> MarshalWriter :=
  write_gem_dependency (dep_name dep) (parse_requirement_constraints (requirements dep))
    (to_ascii_lowercase (dep_type dep) =? "development").

(** The 19-element field array of [Gem::Specification#_dump]. *)
Definition quick_spec_inner (spec : GemSpec) : MarshalWriter :=
  let ge0 := [(">=", "0")] in
  let required_ruby := default ge0 (parse_requirement_constraints <$> required_ruby_version spec) in
  let deps := default [] (dependencies spec) in
  let authors := default [] (authors spec) in
  let w := write_array_header 19 writer_new in
  let w := write_fixnum 4 (write_utf8_string "3.0.0" w) in
  let w := write_gem_version (gem_version spec) (write_utf8_string (gem_name spec) w) in
  let w := write_utf8_string (default "" (summary spec)) (write_nil w) in
  let w := write_gem_requirement ge0 (write_gem_requirement required_ruby w) in
  let w := write_array_header (length deps) (write_nil w) in
  let w := fold_left (fun w dep => write_dependency dep w) deps w in
  let w := write_nil (write_utf8_string "" w) in
  let w := write_array_header (length authors) w in
  let w := fold_left (fun w a => write_utf8_string a w) authors w in
  let w := write_bool true (write_nil (write_nil w)) in
  let w := write_utf8_string (default "ruby" (platform spec)) w in
  write_empty_hash (write_array_header 0 w).

Definition marshal_quick_spec (spec : GemSpec) : string :=
  let inner_bytes := out (quick_spec_inner spec) in
  let outer := write_symbol "Gem::Specification" (push "u" writer_new) in
  out (extend inner_bytes (write_long (str_len inner_bytes) outer)).

(** A [(name, version, platform)] triple. *)
Definition SpecEntry : Type := string * string * string.

Definition write_entry (e : SpecEntry) (w : MarshalWriter) : MarshalWriter :=
  let '(name, version, platform) := e in
  let w := write_long 3 (push "[" w) in
  write_utf8_string platform (write_gem_version version (write_utf8_string name w)).

Definition marshal_specs_index (specs : list SpecEntry) : string :=
  let w := write_long (Z.of_nat (length specs)) (push "[" writer_new) in
  out (fold_left (fun w e => write_entry e w) specs w).

(** ** The reader *)

Definition MARSHAL_MAX_DEPTH : nat := 32.

Inductive MarshalValue :=
| VStr (s : string)
| VVersion (s : string)
| VArray (items : list MarshalValue)
| VOther.

Inductive MarshalObject :=
| OStr (s : string)
| OVersion (s : string)
| Opaque.

(** The texts of the errors, by constructor. *)
Inductive MarshalError :=
| NotMarshal
| Truncated (pos : nat)
| InvalidLength (n : Z) (pos : nat)
| DanglingSymlink (idx : nat)
| ExpectedSymbol (t : ascii) (pos : nat)
| TooDeep
| MalformedVersion (at_ : nat)
| DanglingLink (idx at_ : nat)
| Unsupported (t : ascii) (at_ : nat)
| NotAnArray
| EntryNotArray (i : nat)
| EntryNotTriple (i : nat)
| TrailingBytes (n : nat).

Record MarshalReader := {
  data : string;
  pos : nat;
  symbols : list string;
  objects : list MarshalObject
}.

(** A reading step: [&mut self] and [?]. *)
Definition Step (A : Type) : Type := MarshalReader -> result MarshalError (A * MarshalReader).

#[global] Instance step_ret : MRet Step := fun _ a r => Ok (a, r).
#[global] Instance step_bind : MBind Step := fun _ _ k m r =>
  match m r with Ok (a, r') => k a r' | Err e => Err e end.

Definition fail {A} (e : MarshalReader -> MarshalError) : Step A := fun r => Err (e r).
Definition gets {A} (f : MarshalReader -> A) : Step A := fun r => Ok (f r, r).
Definition modify (f : MarshalReader -> MarshalReader) : Step unit := fun r => Ok (tt, f r).

Definition set_pos (p : nat) (r : MarshalReader) : MarshalReader :=
  {| data := data r; pos := p; symbols := symbols r; objects := objects r |}.
Definition push_symbol (s : string) (r : MarshalReader) : MarshalReader :=
  {| data := data r; pos := pos r; symbols := symbols r ++ [s]; objects := objects r |}.
Definition set_objects (f : list MarshalObject -> list MarshalObject) (r : MarshalReader) : MarshalReader :=
  {| data := data r; pos := pos r; symbols := symbols r; objects := f (objects r) |}.
Definition push_object (o : MarshalObject) : MarshalReader -> MarshalReader := set_objects (fun l => l ++ [o]).

Definition reader_new (data : string) : result MarshalError MarshalReader :=
  if starts_with (bytes_of [4; 8]%Z) data
  then Ok {| data := data; pos := 2; symbols := []; objects := [] |}
  else Err NotMarshal.

Definition byte : Step ascii := fun r =>
  match String.get (pos r) (data r) with
  | Some b => Ok (b, set_pos (S (pos r)) r)
  | None => Err (Truncated (pos r))
  end.

Definition bytes (len : nat) : Step string := fun r =>
  if Nat.leb (pos r + len) (String.length (data r))
  then Ok (String.substring (pos r) len (data r), set_pos (pos r + len) r)
  else Err (Truncated (pos r)).

(** [for i in i..i+n { x = f(i, x, byte) }] *)
Fixpoint long_fold (f : Z -> Z -> Z -> Z) (n : nat) (i : Z) (x : Z) : Step Z :=
  match n with
  | O => mret x
  | S n => b ← byte; long_fold f n (i + 1)%Z (f i x (byte_val b))
  end.

Definition long_pos_step (i x b : Z) : Z := Z.lor x (Z.shiftl b (8 * i)).
Definition long_neg_step (i x b : Z) : Z :=
  Z.lor (Z.land x (Z.lnot (Z.shiftl 255 (8 * i)))) (Z.shiftl b (8 * i)).

Definition long : Step Z :=
  b ← byte;
  let c := as_i8 (byte_val b) in
  if (c =? 0)%Z then mret 0%Z
  else if (5 <=? c)%Z && (c <=? 127)%Z then mret (c - 5)%Z
  else if (-128 <=? c)%Z && (c <=? -5)%Z then mret (c + 5)%Z
  else if (1 <=? c)%Z && (c <=? 4)%Z then long_fold long_pos_step (Z.to_nat c) 0 0
  else long_fold long_neg_step (Z.to_nat (Z.abs c)) 0 (-1)%Z.

Definition count : Step nat :=
  n ← long;
  limit ← gets (fun r => String.length (data r));
  if (0 <=? n)%Z && (n <=? Z.of_nat limit)%Z then mret (Z.to_nat n)
  else fail (fun r => InvalidLength n (pos r)).

Definition raw_string : Step string :=
  len ← count;
  raw ← bytes len;
  mret (from_utf8_lossy raw).

Definition symbol : Step string :=
  t ← byte;
  if Ascii.eqb t ":" then
    sym ← raw_string;
    _ ← modify (push_symbol sym);
    mret sym
  else if Ascii.eqb t ";" then
    idx ← count;
    found ← gets (fun r => symbols r !! idx);
    match found with
    | Some s => mret s
    | None => fail (fun _ => DanglingSymlink idx)
    end
  else fail (fun r => ExpectedSymbol t (pos r - 1)).

Definition reserve_slot : Step nat :=
  _ ← modify (push_object Opaque);
  gets (fun r => length (objects r) - 1).

(** [for _ in 0..n]: collect the results of a step. *)
Fixpoint times {A} (n : nat) (m : Step A) : Step (list A) :=
  match n with
  | O => mret []
  | S n => x ← m; xs ← times n m; mret (x :: xs)
  end.

(** The [match] on the type byte; [rec] is the recursive call one level down
    and [at_] the position of the byte. *)
Definition branch (rec : Step MarshalValue) (at_ : nat) (t : ascii) : Step MarshalValue :=
  let kind c := Ascii.eqb t c in
  if kind "0"%char || kind "T"%char || kind "F"%char then mret VOther
  else if kind "i"%char then _ ← long; mret VOther
  else if kind ":"%char || kind ";"%char then
    _ ← modify (fun r => set_pos (pos r - 1) r);
    _ ← symbol;
    mret VOther
  else if kind QUOTE then
    s ← raw_string;
    _ ← modify (push_object (OStr s));
    mret (VStr s)
  else if kind "f"%char then
    _ ← raw_string;
    _ ← modify (push_object Opaque);
    mret VOther
  else if kind "l"%char then
    _ ← byte;
    shorts ← count;
    _ ← bytes (shorts * 2);
    _ ← modify (push_object Opaque);
    mret VOther
  else if kind "I"%char then
    inner ← rec;
    ivars ← count;
    _ ← times ivars (_ ← symbol; rec);
    mret inner
  else if kind "["%char then
    _ ← reserve_slot;
    len ← count;
    items ← times len (rec);
    mret (VArray items)
  else if kind "{"%char then
    _ ← reserve_slot;
    pairs ← count;
    _ ← times pairs (_ ← rec; rec);
    mret VOther
  else if kind "U"%char then
    slot ← reserve_slot;
    class ← symbol;
    dumped ← rec;
    if class =? "Gem::Version" then
      match dumped with
      | VArray (VStr v :: _) =>
          _ ← modify (set_objects (fun l => <[slot := OVersion v]> l));
          mret (VVersion v)
      | _ => fail (fun _ => MalformedVersion at_)
      end
    else mret VOther
  else if kind "@"%char then
    idx ← count;
    found ← gets (fun r => objects r !! idx);
    match found with
    | Some (OStr s) => mret (VStr s)
    | Some (OVersion v) => mret (VVersion v)
    | Some Opaque => mret VOther
    | None => fail (fun _ => DanglingLink idx at_)
    end
  else fail (fun _ => Unsupported t at_).

Fixpoint value_at (levels : nat) : Step MarshalValue :=
  match levels with
  | O => fail (fun _ => TooDeep)
  | S levels => at_ ← gets pos; t ← byte; branch (value_at levels) at_ t
  end.

Definition value (depth : nat) : Step MarshalValue := value_at (S MARSHAL_MAX_DEPTH - depth).

Definition entry (i : nat) : Step SpecEntry :=
  v ← value 1;
  match v with
  | VArray fields =>
      match fields with
      | [VStr n; VVersion v; VStr p] | [VStr n; VStr v; VStr p] => mret (n, v, p)
      | _ => fail (fun _ => EntryNotTriple i)
      end
  | _ => fail (fun _ => EntryNotArray i)
  end.

(** The entry loop, from index [i]. *)
Fixpoint entries (n i : nat) : Step (list SpecEntry) :=
  match n with
  | O => mret []
  | S n => e ← entry i; rest ← entries n (S i); mret (e :: rest)
  end.

Definition read_index : Step (list SpecEntry) :=
  t ← byte;
  if negb (Ascii.eqb t "[") then fail (fun _ => NotAnArray)
  else
    _ ← reserve_slot;
    len ← count;
    out ← entries len 0;
    trailing ← gets (fun r => String.length (data r) - pos r);
    if Nat.eqb trailing 0 then mret out else fail (fun _ => TrailingBytes trailing).

Definition unmarshal_specs_index (bytes : string) : result MarshalError (list SpecEntry) :=
  match reader_new bytes with
  | Err e => Err e
  | Ok r => match read_index r with Ok (specs, _) => Ok specs | Err e => Err e end
  end.

(** ** Variable-length integers *)

(** A two's-complement number agrees with [n] on the bits below [8 * i] and
    repeats the sign bit [neg] above. *)
Definition low_bytes (n : Z) (i : Z) (neg : bool) (x : Z) : Prop :=
  forall m, (0 <= m)%Z -> Z.testbit x m = if (m <? 8 * i)%Z then Z.testbit n m else neg.

Lemma testbit_255 m : (0 <= m)%Z -> Z.testbit 255 m = (m <? 8)%Z.
Proof. intros Hm. change 255%Z with (Z.ones 8). rewrite Z.testbit_ones by done. destruct (Z.leb_spec 0 m); [done|lia]. Qed.

Lemma byte_bits n i m : (0 <= i)%Z -> (0 <= m)%Z ->
  Z.testbit (Z.shiftl (Z.land (Z.shiftr n (8 * i)) 255) (8 * i)) m =
  (8 * i <=? m)%Z && (m <? 8 * (i + 1))%Z && Z.testbit n m.
Proof.
  intros Hi Hm. rewrite Z.shiftl_spec by done.
  destruct (Z.leb_spec (8 * i) m); [|by rewrite Z.testbit_neg_r by lia].
  rewrite Z.land_spec, Z.shiftr_spec, testbit_255 by lia.
  replace (m - 8 * i + 8 * i)%Z with m by lia.
  destruct (Z.ltb_spec m (8 * (i + 1))), (Z.ltb_spec (m - 8 * i) 8); try lia; by rewrite ?andb_true_r, ?andb_false_r.
Qed.

Lemma long_pos_step_low n i x : (0 <= i)%Z ->
  low_bytes n i false x ->
  low_bytes n (i + 1) false (long_pos_step i x (Z.land (Z.shiftr n (8 * i)) 255)).
Proof.
  intros Hi Hx m Hm. unfold long_pos_step. rewrite Z.lor_spec, byte_bits, (Hx m Hm) by done.
  destruct (Z.ltb_spec m (8 * i)), (Z.ltb_spec m (8 * (i + 1))), (Z.leb_spec (8 * i) m); try lia; cbn;
    by rewrite ?orb_false_r.
Qed.

Lemma long_neg_step_low n i x : (0 <= i)%Z ->
  low_bytes n i true x ->
  low_bytes n (i + 1) true (long_neg_step i x (Z.land (Z.shiftr n (8 * i)) 255)).
Proof.
  intros Hi Hx m Hm. unfold long_neg_step.
  rewrite Z.lor_spec, byte_bits, Z.land_spec, Z.lnot_spec, Z.shiftl_spec, (Hx m Hm) by done.
  destruct (Z.ltb_spec m (8 * i)), (Z.ltb_spec m (8 * (i + 1))), (Z.leb_spec (8 * i) m); try lia; cbn;
    rewrite ?(Z.testbit_neg_r 255), ?testbit_255 by lia; cbn; rewrite ?orb_false_r, ?andb_true_r; try done.
  all: destruct (Z.ltb_spec (m - 8 * i) 8); try lia; done.
Qed.

Lemma low_bytes_all n i (neg : bool) x : (0 <= i)%Z -> Z.shiftr n (8 * i) = (if neg then (-1)%Z else 0%Z) ->
  low_bytes n i neg x -> x = n.
Proof.
  intros Hi Hn Hx. apply Z.bits_inj'. intros m Hm. rewrite (Hx m Hm).
  destruct (Z.ltb_spec m (8 * i)); [done|].
  assert (E : Z.testbit n m = Z.testbit (Z.shiftr n (8 * i)) (m - 8 * i))
    by (rewrite Z.shiftr_spec by lia; f_equal; lia).
  rewrite E, Hn. destruct neg; [by rewrite Z.bits_m1 by lia|by rewrite Z.bits_0].
Qed.

(** The bytes [0 .. k-1] of [n], little end first. *)
Definition byte_seq (n : Z) (k : nat) : list Z :=
  (fun j => Z.land (Z.shiftr n (8 * Z.of_nat j)) 255) <$> seq 0 k.

Lemma byte_seq_S n k : byte_seq n (S k) = byte_seq n k ++ [Z.land (Z.shiftr n (8 * Z.of_nat k)) 255].
Proof. unfold byte_seq. rewrite seq_S, fmap_app. done. Qed.

Lemma byte_seq_length n k : length (byte_seq n k) = k.
Proof. unfold byte_seq. by rewrite length_fmap, length_seq. Qed.

Definition long_range (n : Z) : Prop := (-4294967296 <= n < 4294967296)%Z.

Lemma shiftr_range n : long_range n -> Z.shiftr n 32 = 0%Z \/ Z.shiftr n 32 = (-1)%Z.
Proof.
  unfold long_range. intros H. rewrite Z.shiftr_div_pow2 by done. change (2 ^ 32)%Z with 4294967296%Z.
  destruct (Z.lt_ge_cases n 0).
  - right. symmetry. apply (Z.div_unique n 4294967296 (-1) (n + 4294967296)); lia.
  - left. apply Z.div_small. lia.
Qed.

(** The byte loop stops at the first byte after which only the sign is left. *)
Lemma long_loop_spec n fuel j : long_range n -> j < 4 -> 4 - j <= fuel ->
  exists k (neg : bool), j < k <= 4 /\
    Z.shiftr n (8 * Z.of_nat k) = (if neg then (-1)%Z else 0%Z) /\
    long_loop fuel (Z.of_nat (S j)) (Z.shiftr n (8 * Z.of_nat j)) (byte_seq n j) =
      ((if neg then (- Z.of_nat k) mod 256 else Z.of_nat k)%Z, byte_seq n k).
Proof.
  intros Hn. revert j. induction fuel as [|fuel IH]; intros j Hj Hf; [lia|]. cbn [long_loop].
  rewrite <- byte_seq_S, Z.shiftr_shiftr by lia.
  replace (8 * Z.of_nat j + 8)%Z with (8 * Z.of_nat (S j))%Z by lia.
  destruct (Z.eqb_spec (Z.shiftr n (8 * Z.of_nat (S j))) 0) as [H0|H0].
  { exists (S j), false. split_and!; [lia|lia|done|done]. }
  destruct (Z.eqb_spec (Z.shiftr n (8 * Z.of_nat (S j))) (-1)) as [H1|H1].
  { exists (S j), true. split_and!; [lia|lia|done|done]. }
  destruct (decide (S j < 4)) as [Hlt|Hge].
  - destruct (IH (S j) Hlt ltac:(lia)) as (k & neg & Hk & Hs & He). exists k, neg.
    split_and!; [lia|lia|done|]. rewrite <- He. f_equal. lia.
  - assert (S j = 4) as Hj4 by lia. rewrite Hj4 in H0, H1. by destruct (shiftr_range n Hn).
Qed.

(** ** Encodings and what reads them *)

(** A reader at the boundary of [pre] and [post]. *)
Definition at_cut (pre post : string) (sy : list string) (ob : list MarshalObject) : MarshalReader :=
  {| data := pre +:+ post; pos := String.length pre; symbols := sy; objects := ob |}.

(** A reading step run at the start of [s], inside data of at least [L] bytes,
    consumes exactly [s] and returns [a]. *)
Definition reads {A} (L : nat) (m : Step A) (s : string) (sy : list string) (ob : list MarshalObject)
  (a : A) (sy' : list string) (ob' : list MarshalObject) : Prop :=
  forall pre post, L <= String.length (pre +:+ s +:+ post) ->
    m (at_cut pre (s +:+ post) sy ob) = Ok (a, at_cut (pre +:+ s) post sy' ob').

(** What a writing step appends when the symbol table is [sy]. *)
Definition delta (f : MarshalWriter -> MarshalWriter) (sy : list string) : string :=
  out (f {| out := ""; wsymbols := sy |}).

Definition emits (f : MarshalWriter -> MarshalWriter) (sy sy' : list string) : Prop :=
  forall o, f {| out := o; wsymbols := sy |} = {| out := o +:+ delta f sy; wsymbols := sy' |}.

(** The step [m] reads back as [a] what the step [f] writes, the reader's
    symbol table following the writer's. *)
Definition codes {A} (L : nat) (f : MarshalWriter -> MarshalWriter) (m : Step A)
  (sy : list string) (ob : list MarshalObject) (a : A) (sy' : list string) (ob' : list MarshalObject) : Prop :=
  emits f sy sy' /\ reads L m (delta f sy) sy ob a sy' ob'.

Section Codes.
Context (L : nat).

Lemma reads_bind {A B} (m : Step A) (k : A -> Step B) s1 s2 sy ob a sy1 ob1 b sy2 ob2 :
  reads L m s1 sy ob a sy1 ob1 -> reads L (k a) s2 sy1 ob1 b sy2 ob2 ->
  reads L (m ≫= k) (s1 +:+ s2) sy ob b sy2 ob2.
Proof.
  intros H1 H2 pre post HL. unfold mbind, step_bind.
  rewrite <- append_assoc in *. rewrite H1 by done. rewrite append_assoc in HL.
  rewrite H2 by done. by rewrite append_assoc.
Qed.

Lemma reads_ret {A} (a : A) sy ob : reads L (mret a) "" sy ob a sy ob.
Proof. intros pre post _. cbn. by rewrite append_nil_r. Qed.

Lemma delta_compose f g sy sy1 :
  emits f sy sy1 -> delta (fun w => g (f w)) sy = out (g {| out := delta f sy; wsymbols := sy1 |}).
Proof. intros Hf. unfold delta at 1. by rewrite Hf. Qed.

Lemma emits_compose f g sy sy1 sy2 :
  emits f sy sy1 -> emits g sy1 sy2 ->
  emits (fun w => g (f w)) sy sy2 /\ delta (fun w => g (f w)) sy = delta f sy +:+ delta g sy1.
Proof.
  intros Hf Hg. assert (Hd : delta (fun w => g (f w)) sy = delta f sy +:+ delta g sy1)
    by (by rewrite (delta_compose f g sy sy1 Hf), Hg).
  split; [|done]. intros o. by rewrite Hf, Hg, Hd, append_assoc.
Qed.

Lemma codes_bind {A B} f g (m : Step A) (k : A -> Step B) sy ob a sy1 ob1 b sy2 ob2 :
  codes L f m sy ob a sy1 ob1 -> codes L g (k a) sy1 ob1 b sy2 ob2 ->
  codes L (fun w => g (f w)) (m ≫= k) sy ob b sy2 ob2.
Proof.
  intros [Hf Hm] [Hg Hk]. destruct (emits_compose f g sy sy1 sy2 Hf Hg) as [He Hd].
  split; [done|]. rewrite Hd. by eapply reads_bind.
Qed.

(** A step that reads nothing, at the front or at the end. *)
Lemma codes_gets {A B} g (f : MarshalReader -> A) (k : A -> Step B) sy ob b sy' ob' :
  (forall r, symbols r = sy -> objects r = ob -> L <= String.length (data r) -> codes L g (k (f r)) sy ob b sy' ob') ->
  emits g sy sy' -> codes L g (gets f ≫= k) sy ob b sy' ob'.
Proof.
  intros Hk He. split; [done|]. intros pre post HL. unfold mbind, step_bind, gets.
  apply (Hk (at_cut pre (delta g sy +:+ post) sy ob)); done.
Qed.

Lemma codes_modify {B} g h (k : Step B) sy ob ob1 b sy' ob' :
  (forall r, objects r = ob -> h r = set_objects (fun _ => ob1) r) ->
  codes L g k sy ob1 b sy' ob' -> codes L g (modify h ≫= fun _ => k) sy ob b sy' ob'.
Proof.
  intros Hh [He Hk]. split; [done|]. intros pre post HL. unfold mbind, step_bind, modify.
  rewrite Hh by done. by apply Hk.
Qed.

Lemma codes_then_ret {A B} f (m : Step A) (k : A -> Step B) sy ob a sy1 ob1 b ob2 :
  codes L f m sy ob a sy1 ob1 -> reads L (k a) "" sy1 ob1 b sy1 ob2 ->
  codes L f (m ≫= k) sy ob b sy1 ob2.
Proof.
  intros [Hf Hm] Hk. split; [done|]. rewrite <- (append_nil_r (delta f sy)). by eapply reads_bind.
Qed.

Lemma emits_extend s sy : emits (extend s) sy sy /\ delta (extend s) sy = s.
Proof. split; [done|]. done. Qed.

Lemma byte_at_cut c pre post sy ob :
  byte (at_cut pre (String c post) sy ob) = Ok (c, at_cut (pre +:+ String c "") post sy ob).
Proof.
  unfold byte, at_cut; cbn [pos data]. 
  assert (E : String.get (String.length pre) (pre +:+ String c post) = Some c) by (apply get_split; eauto).
  rewrite E. unfold set_pos; cbn [pos data symbols objects].
  rewrite <- append_assoc, length_append. cbn. by rewrite Nat.add_1_r.
Qed.

Lemma reads_byte c sy ob : reads L byte (String c "") sy ob c sy ob.
Proof. intros pre post _. apply byte_at_cut. Qed.

Lemma codes_byte c sy ob : codes L (push c) byte sy ob c sy ob.
Proof. split; [apply emits_extend|apply reads_byte]. Qed.

Lemma codes_bytes s sy ob : codes L (extend s) (bytes (String.length s)) sy ob s sy ob.
Proof.
  split; [apply emits_extend|]. change (delta (extend s) sy) with s. intros pre post _.
  unfold bytes, at_cut, set_pos; cbn [pos data symbols objects].
  rewrite !length_append, substring_app.
  destruct (Nat.leb_spec (String.length pre + String.length s)
    (String.length pre + (String.length s + String.length post))); [|lia].
  by rewrite <- append_assoc.
Qed.
End Codes.

Fixpoint long_value (f : Z -> Z -> Z -> Z) (i x : Z) (bs : list Z) : Z :=
  match bs with
  | [] => x
  | b :: bs => long_value f (i + 1)%Z (f i x b) bs
  end.

Lemma long_value_app f i x l k :
  long_value f i x (l ++ k) = long_value f (i + Z.of_nat (length l))%Z (long_value f i x l) k.
Proof.
  revert i x. induction l as [|b l IH]; intros i x; cbn [long_value length app].
  - by rewrite Z.add_0_r.
  - rewrite IH. f_equal. lia.
Qed.

Lemma long_value_byte_seq f n (neg : bool) k :
  (forall i x, (0 <= i)%Z -> low_bytes n i neg x ->
     low_bytes n (i + 1) neg (f i x (Z.land (Z.shiftr n (8 * i)) 255))) ->
  low_bytes n (Z.of_nat k) neg (long_value f 0 (if neg then -1 else 0)%Z (byte_seq n k)).
Proof.
  intros Hstep. induction k as [|k IH].
  - intros m Hm. cbn [byte_seq seq fmap list_fmap long_value].
    destruct (Z.ltb_spec m (8 * Z.of_nat 0)); [lia|].
    destruct neg; [by rewrite Z.bits_m1 by lia|by rewrite Z.bits_0].
  - rewrite byte_seq_S, long_value_app, byte_seq_length. cbn [long_value].
    replace (Z.of_nat (S k)) with (0 + Z.of_nat k + 1)%Z by lia.
    apply Hstep; [lia|]. exact IH.
Qed.

Lemma bytes_of_app l k : bytes_of (l ++ k) = bytes_of l +:+ bytes_of k.
Proof. induction l as [|z l IH]; cbn; [done|]. by f_equal. Qed.

Lemma land_255_range z : (0 <= Z.land z 255 < 256)%Z.
Proof. change 255%Z with (Z.ones 8). rewrite Z.land_ones by done. apply Z.mod_pos_bound. done. Qed.

Section Longs.
Context (L : nat).

Lemma reads_long_fold f bs i x sy ob :
  Forall (fun b => (0 <= b < 256)%Z) bs ->
  reads L (long_fold f (length bs) i x) (bytes_of bs) sy ob (long_value f i x bs) sy ob.
Proof.
  intros Hbs. revert i x. induction Hbs as [|b bs Hb Hbs IH]; intros i x; [apply reads_ret|].
  cbn [long_fold length long_value]. change (bytes_of (b :: bs)) with (String (byte_of b) "" +:+ bytes_of bs).
  eapply reads_bind; [apply reads_byte|]. cbv beta. rewrite byte_val_of, Z.mod_small by lia. apply IH.
Qed.

Lemma reads_long_multi n k (neg : bool) sy ob :
  1 <= k <= 4 -> Z.shiftr n (8 * Z.of_nat k) = (if neg then (-1)%Z else 0%Z) ->
  let head := (if neg then (- Z.of_nat k) mod 256 else Z.of_nat k)%Z in
  reads L long (bytes_of (head :: byte_seq n k)) sy ob n sy ob.
Proof.
  intros Hk Hs head. change (bytes_of (head :: byte_seq n k)) with (String (byte_of head) "" +:+ bytes_of (byte_seq n k)).
  assert (Hall : Forall (fun b => (0 <= b < 256)%Z) (byte_seq n k)).
  { apply Forall_fmap, Forall_forall. intros j _. apply land_255_range. }
  assert (Hc : as_i8 (byte_val (byte_of head)) = if neg then (- Z.of_nat k)%Z else Z.of_nat k).
  { unfold head. destruct k as [|[|[|[|[|k]]]]]; try lia; by destruct neg. }
  eapply reads_bind; [apply reads_byte|]. cbv beta zeta. rewrite Hc.
  destruct neg.
  - replace (_ =? 0)%Z with false by (symmetry; apply Z.eqb_neq; lia).
    replace (5 <=? _)%Z with false by (symmetry; apply Z.leb_gt; lia).
    replace (- Z.of_nat k <=? -5)%Z with false by (symmetry; apply Z.leb_gt; lia).
    replace (1 <=? _)%Z with false by (symmetry; apply Z.leb_gt; lia).
    rewrite andb_false_r. cbn [andb]. rewrite Z.abs_opp, Z.abs_eq, Nat2Z.id by lia.
    pose proof (reads_long_fold long_neg_step (byte_seq n k) 0 (-1) sy ob Hall) as H.
    rewrite byte_seq_length in H.
    pose proof (long_value_byte_seq long_neg_step n true k ltac:(intros; by apply long_neg_step_low)) as Hv.
    pose proof (low_bytes_all n (Z.of_nat k) true _ ltac:(lia) Hs Hv) as E. cbv iota in E.
    by rewrite E in H.
  - replace (_ =? 0)%Z with false by (symmetry; apply Z.eqb_neq; lia).
    replace (5 <=? _)%Z with false by (symmetry; apply Z.leb_gt; lia).
    replace (Z.of_nat k <=? -5)%Z with false by (symmetry; apply Z.leb_gt; lia).
    replace (1 <=? _)%Z with true by (symmetry; apply Z.leb_le; lia).
    replace (Z.of_nat k <=? 4)%Z with true by (symmetry; apply Z.leb_le; lia).
    rewrite andb_false_r. cbn [andb]. rewrite Nat2Z.id.
    pose proof (reads_long_fold long_pos_step (byte_seq n k) 0 0 sy ob Hall) as H.
    rewrite byte_seq_length in H.
    pose proof (long_value_byte_seq long_pos_step n false k ltac:(intros; by apply long_pos_step_low)) as Hv.
    pose proof (low_bytes_all n (Z.of_nat k) false _ ltac:(lia) Hs Hv) as E. cbv iota in E.
    by rewrite E in H.
Qed.

(** The one-byte forms. *)
Lemma reads_long_small c n sy ob :
  as_i8 (byte_val (byte_of c)) = (if (n =? 0)%Z then 0 else if (0 <? n)%Z then n + 5 else n - 5)%Z ->
  (-123 <= n < 123)%Z ->
  reads L long (bytes_of [c]) sy ob n sy ob.
Proof.
  intros Hc Hn. change (bytes_of [c]) with (String (byte_of c) "" +:+ "").
  eapply reads_bind; [apply reads_byte|]. cbv beta zeta. rewrite Hc.
  destruct (Z.eqb_spec n 0) as [->|Hn0]; [apply reads_ret|].
  destruct (Z.ltb_spec 0 n).
  - replace (_ =? 0)%Z with false by (symmetry; apply Z.eqb_neq; lia).
    replace (5 <=? _)%Z with true by (symmetry; apply Z.leb_le; lia).
    replace (_ <=? 127)%Z with true by (symmetry; apply Z.leb_le; lia). cbn [andb].
    replace (n + 5 - 5)%Z with n by lia. apply reads_ret.
  - replace (_ =? 0)%Z with false by (symmetry; apply Z.eqb_neq; lia).
    replace (5 <=? _)%Z with false by (symmetry; apply Z.leb_gt; lia).
    replace (-128 <=? _)%Z with true by (symmetry; apply Z.leb_le; lia).
    replace (_ <=? -5)%Z with true by (symmetry; apply Z.leb_le; lia). cbn [andb].
    replace (n - 5 + 5)%Z with n by lia. apply reads_ret.
Qed.

Lemma reads_long n sy ob : long_range n -> reads L long (long_bytes n) sy ob n sy ob.
Proof.
  intros Hn. unfold long_bytes.
  destruct (Z.eqb_spec n 0) as [->|Hn0]; [by apply (reads_long_small 0)|].
  destruct (Z.leb_spec 1 n), (Z.ltb_spec n 123); cbn [andb].
  1: { apply reads_long_small; [|lia]. rewrite byte_val_of, Z.mod_small by lia. unfold as_i8.
       destruct (Z.ltb_spec (n + 5) 128), (Z.eqb_spec n 0), (Z.ltb_spec 0 n); lia. }
  all: destruct (Z.leb_spec (-123) n), (Z.ltb_spec n 0); cbn [andb]; try lia.
  2: { apply reads_long_small; [|lia]. rewrite byte_val_of, Zmod_mod.
       replace ((n - 5) mod 256)%Z with (n - 5 + 256)%Z
         by (apply (Z.mod_unique _ _ (-1)); lia).
       unfold as_i8. destruct (Z.ltb_spec (n - 5 + 256) 128), (Z.eqb_spec n 0), (Z.ltb_spec 0 n); lia. }
  all: destruct (long_loop_spec n 8 0 Hn ltac:(lia) ltac:(lia)) as (k & neg & Hk & Hs & He);
    change (8 * Z.of_nat 0)%Z with 0%Z in He; rewrite Z.shiftr_0_r in He; cbn [byte_seq seq fmap list_fmap] in He;
    change (long_loop 8 1 n []) with (long_loop 8 (Z.of_nat 1) n []); rewrite He;
    assert (Hcount : Z.to_nat (Z.abs (as_i8 (if neg then (- Z.of_nat k) mod 256 else Z.of_nat k)%Z)) = k)
      by (destruct k as [|[|[|[|[|k]]]]]; try lia; by destruct neg);
    rewrite Hcount, take_ge by (rewrite byte_seq_length; lia);
    apply reads_long_multi; [lia|done].
Qed.

Lemma codes_long n sy ob : long_range n -> codes L (write_long n) long sy ob n sy ob.
Proof. intros Hn. split; [apply emits_extend|]. by apply reads_long. Qed.
End Longs.

(** ** Strings, symbols and values *)

(** A string the writer and the reader agree on: a [str] that fits the data. *)
Definition fits (L : nat) (s : string) : Prop :=
  valid_utf8 s = true /\ String.length s <= L.

Section Values.
Context (L : nat) (HL32 : (Z.of_nat L < 4294967296)%Z).

Lemma codes_count n sy ob : n <= L -> codes L (write_long (Z.of_nat n)) count sy ob n sy ob.
Proof.
  intros Hn. assert (Hr : long_range (Z.of_nat n)) by (unfold long_range; lia).
  destruct (codes_long L (Z.of_nat n) sy ob Hr) as [He Hlong]. split; [done|].
  intros pre post Hlen. unfold count, mbind, step_bind. rewrite (Hlong pre post Hlen). cbn [gets data at_cut].
  rewrite append_assoc in Hlen. cbn zeta.
  destruct (Z.leb_spec 0 (Z.of_nat n)), (Z.leb_spec (Z.of_nat n)
    (Z.of_nat (String.length ((pre +:+ delta (write_long (Z.of_nat n)) sy) +:+ post)))); try lia.
  cbn [andb]. by rewrite Nat2Z.id.
Qed.

Lemma codes_raw_string s sy ob :
  fits L s -> codes L (fun w => extend s (write_long (str_len s) w)) raw_string sy ob s sy ob.
Proof.
  intros [Hu Hs]. unfold raw_string.
  eapply (codes_bind L (write_long (str_len s)) (extend s)); [by apply codes_count|].
  eapply codes_then_ret; [apply codes_bytes|]. rewrite from_utf8_lossy_valid by done. apply reads_ret.
Qed.

(** The symbol table after a symbol was written. *)
Definition add_symbol (sym : string) (sy : list string) : list string :=
  match position sym sy with Some _ => sy | None => sy ++ [sym] end.

Lemma position_Some sym sy i : position sym sy = Some i -> sy !! i = Some sym /\ i < length sy.
Proof.
  revert i. induction sy as [|s sy IH]; intros i; cbn [position]; [done|].
  destruct (String.eqb_spec s sym) as [->|].
  - intros [= <-]. cbn. split; [done|lia].
  - destruct (position sym sy) as [j|]; [|done]. intros [= <-].
    destruct (IH j eq_refl). cbn. split; [done|lia].
Qed.

Lemma emits_symbol sym sy : emits (write_symbol sym) sy (add_symbol sym sy).
Proof.
  intros o. unfold delta, write_symbol, add_symbol. cbn [wsymbols].
  destruct (position sym sy); unfold write_long, push, extend; cbn [out wsymbols];
    f_equal; by rewrite !append_assoc, ?append_nil_r.
Qed.

Lemma codes_symbol sym sy ob :
  fits L sym -> length sy <= L -> codes L (write_symbol sym) symbol sy ob sym (add_symbol sym sy) ob.
Proof.
  intros Hs Hsy. split; [apply emits_symbol|]. unfold symbol, add_symbol, delta, write_symbol. cbn [wsymbols].
  destruct (position sym sy) as [i|] eqn:E.
  - apply position_Some in E as [Hi Hlt].
    change (out _) with (String ";" "" +:+ delta (write_long (Z.of_nat i)) sy).
    eapply reads_bind; [apply reads_byte|]. cbv beta. cbn [Ascii.eqb Bool.eqb].
    destruct (codes_count i sy ob ltac:(lia)) as [_ Hc].
    rewrite <- (append_nil_r (delta _ sy)). eapply reads_bind; [exact Hc|].
    intros pre post _. unfold mbind, step_bind, gets. cbn [symbols at_cut]. rewrite Hi.
    unfold mret, step_ret. by rewrite append_nil_r.
  - set (body := fun w => extend sym (write_long (str_len sym) w)).
    replace (out _) with (String ":" "" +:+ delta body sy)
      by (unfold delta, body, write_long, push, extend; cbn [out wsymbols]; by rewrite !append_assoc).
    eapply reads_bind; [apply reads_byte|]. cbv beta. cbn [Ascii.eqb Bool.eqb].
    destruct (codes_raw_string sym sy ob Hs) as [_ Hc].
    rewrite <- (append_nil_r (delta body sy)). eapply reads_bind; [exact Hc|].
    intros pre post _. unfold mbind, step_bind, modify, mret, step_ret, push_symbol, at_cut.
    cbn [data pos symbols objects]. by rewrite append_nil_r.
Qed.

Lemma codes_value c g l sy ob v sy' ob' :
  (forall i, codes L g (branch (value_at l) i c) sy ob v sy' ob') ->
  codes L (fun w => g (push c w)) (value_at (S l)) sy ob v sy' ob'.
Proof.
  intros Hb. cbn [value_at]. pose proof (Hb 0) as [He _].
  assert (Hc : forall i, codes L (fun w => g (push c w)) (t ← byte; branch (value_at l) i t) sy ob v sy' ob').
  { intros i. apply (codes_bind L (push c) g) with c sy ob; [apply codes_byte|apply Hb]. }
  apply codes_gets; [intros r _ _ _; apply Hc|]. apply (Hc 0).
Qed.

(** A plain string node. *)
Lemma codes_str s l sy ob :
  fits L s ->
  codes L (fun w => extend s (write_long (str_len s) (push QUOTE w))) (value_at (S l)) sy ob (VStr s) sy
    (ob ++ [OStr s]).
Proof.
  intros Hs. apply (codes_value QUOTE (fun w => extend s (write_long (str_len s) w))). intros i.
  change (branch (value_at l) i QUOTE) with (s ← raw_string; _ ← modify (push_object (OStr s)); mret (VStr s)).
  eapply codes_then_ret; [by apply codes_raw_string|].
  intros pre post _. unfold mbind, step_bind, modify, mret, step_ret, push_object, set_objects, at_cut.
  cbn [data pos symbols objects]. by rewrite append_nil_r.
Qed.

Lemma reads_bool (b : bool) l sy ob : reads L (value_at (S l)) (String (if b then "T" else "F")%char "") sy ob VOther sy ob.
Proof.
  intros pre post _. cbn [value_at]. unfold mbind at 1, step_bind at 1, gets at 1.
  unfold mbind at 1, step_bind at 1. change (String ?c "" +:+ post) with (String c post).
  rewrite byte_at_cut. by destruct b.
Qed.

Lemma codes_bool (b : bool) l sy ob : codes L (write_bool b) (value_at (S l)) sy ob VOther sy ob.
Proof. split; [apply emits_extend|]. apply reads_bool. Qed.

(** A UTF-8 string: the [I] envelope with its one encoding variable. *)
Lemma codes_utf8_string s l sy ob :
  fits L s -> 1 <= L -> length sy <= L ->
  codes L (write_utf8_string s) (value_at (S (S l))) sy ob (VStr s) (add_symbol "E" sy) (ob ++ [OStr s]).
Proof.
  intros Hs HL Hsy.
  apply (codes_value "I" (fun w => push "T" (write_symbol "E" (write_long 1
    (extend s (write_long (str_len s) (push QUOTE w))))))). intros i.
  change (branch (value_at (S l)) i "I") with
    (inner ← value_at (S l); ivars ← count; _ ← times ivars (_ ← symbol; value_at (S l)); mret inner).
  apply (codes_bind L (fun w => extend s (write_long (str_len s) (push QUOTE w)))
    (fun w => push "T" (write_symbol "E" (write_long 1 w)))) with (VStr s) sy (ob ++ [OStr s]); [by apply codes_str|].
  apply (codes_bind L (write_long (Z.of_nat 1)) (fun w => push "T" (write_symbol "E" w)))
    with 1 sy (ob ++ [OStr s]); [by apply codes_count|].
  apply (codes_then_ret L (fun w => push "T" (write_symbol "E" w)))
    with [VOther] (ob ++ [OStr s]); [|apply reads_ret].
  cbn [times]. eapply codes_then_ret; [|apply reads_ret].
  apply (codes_bind L (write_symbol "E") (push "T")) with "E" (add_symbol "E" sy) (ob ++ [OStr s]).
  - apply codes_symbol; [|done]. by split.
  - apply (codes_bool true).
Qed.
End Values.

Section Index.
Context (L : nat) (HL32 : (Z.of_nat L < 4294967296)%Z) (HL : 20 <= L).

Lemma codes_reserve {B} g (k : nat -> Step B) sy ob b sy' ob' :
  codes L g (k (length ob)) sy (ob ++ [Opaque]) b sy' ob' ->
  codes L g (reserve_slot ≫= k) sy ob b sy' ob'.
Proof.
  intros [He Hk]. split; [done|]. intros pre post Hlen.
  unfold reserve_slot, mbind, step_bind, modify, gets, push_object, set_objects, at_cut.
  cbn [data pos symbols objects]. rewrite length_app, Nat.add_sub. by apply Hk.
Qed.

Lemma codes_times_cons {A} f g (m : Step A) n sy ob a sy1 ob1 xs sy2 ob2 :
  codes L f m sy ob a sy1 ob1 -> codes L g (times n m) sy1 ob1 xs sy2 ob2 ->
  codes L (fun w => g (f w)) (times (S n) m) sy ob (a :: xs) sy2 ob2.
Proof.
  intros Hf Hg. cbn [times]. eapply codes_bind; [exact Hf|]. eapply codes_then_ret; [exact Hg|]. apply reads_ret.
Qed.

Lemma codes_times_nil {A} (m : Step A) sy ob : codes L (fun w => w) (times 0 m) sy ob [] sy ob.
Proof. split; [|apply reads_ret]. intros o. by rewrite append_nil_r. Qed.

Lemma codes_array n g l sy ob items sy' ob' :
  n <= L -> codes L g (times n (value_at l)) sy (ob ++ [Opaque]) items sy' ob' ->
  codes L (fun w => g (write_long (Z.of_nat n) (push "[" w))) (value_at (S l)) sy ob (VArray items) sy' ob'.
Proof.
  intros Hn Hg. apply (codes_value L "[" (fun w => g (write_long (Z.of_nat n) w))). intros i.
  change (branch (value_at l) i "[") with
    (_ ← reserve_slot; len ← count; items ← times len (value_at l); mret (VArray items)).
  apply codes_reserve.
  apply (codes_bind L (write_long (Z.of_nat n)) g) with n sy (ob ++ [Opaque]); [by apply codes_count|].
  eapply codes_then_ret; [exact Hg|apply reads_ret].
Qed.

Definition version_symbols (sy : list string) : list string := add_symbol "E" (add_symbol "Gem::Version" sy).

Lemma add_symbol_length sym sy : length (add_symbol sym sy) <= S (length sy).
Proof. unfold add_symbol. destruct (position sym sy); [lia|]. rewrite length_app. cbn. lia. Qed.

(** The [Gem::Version] object takes its slot before its children and is
    linkable as a version afterwards. *)
Lemma codes_gem_version v l sy ob :
  fits L v -> S (length sy) <= L ->
  codes L (write_gem_version v) (value_at (S (S (S (S l))))) sy ob (VVersion v) (version_symbols sy)
    (ob ++ [OVersion v; Opaque; OStr v]).
Proof.
  intros Hv Hsy. pose proof (add_symbol_length "Gem::Version" sy) as Hadd.
  apply (codes_value L "U" (fun w => write_utf8_string v (write_long 1 (push "[" (write_symbol "Gem::Version" w))))).
  intros i. set (rec := value_at (S (S (S l)))).
  change (branch rec i "U") with
    (slot ← reserve_slot; class ← symbol; dumped ← rec;
     if class =? "Gem::Version" then
       match dumped with
       | VArray (VStr v :: _) =>
           _ ← modify (set_objects (fun l => <[slot := OVersion v]> l)); mret (VVersion v)
       | _ => fail (fun _ => MalformedVersion i)
       end
     else mret VOther).
  apply codes_reserve.
  apply (codes_bind L (write_symbol "Gem::Version")
    (fun w => write_utf8_string v (write_long 1 (push "[" w)))) with "Gem::Version"
    (add_symbol "Gem::Version" sy) (ob ++ [Opaque]).
  { apply codes_symbol; [done| |lia]. split; [done|cbn; lia]. }
  apply (codes_then_ret L) with (VArray [VStr v]) ((ob ++ [Opaque]) ++ [Opaque; OStr v]).
  - apply (codes_array 1 (write_utf8_string v)); [lia|].
    apply (codes_times_cons (write_utf8_string v) (fun w => w)) with (version_symbols sy)
      ((ob ++ [Opaque]) ++ [Opaque; OStr v]); [|apply codes_times_nil].
    change [Opaque; OStr v] with ([Opaque] ++ [OStr v]). rewrite (app_assoc (ob ++ [Opaque])).
    apply codes_utf8_string; [done|done|lia|lia].
  - intros pre post _. unfold mbind, step_bind, modify, mret, step_ret, set_objects, at_cut.
    cbn [String.eqb Ascii.eqb Bool.eqb data pos symbols objects].
    rewrite append_nil_r, <- app_assoc, <- (Nat.add_0_r (length ob)), insert_app_r. done.
Qed.

Definition fits_entry (e : SpecEntry) : Prop :=
  let '(name, version, platform) := e in fits L name /\ fits L version /\ fits L platform.

Definition index_symbols (sy : list string) : Prop := sy = [] \/ sy = ["E"; "Gem::Version"].

Lemma codes_entry e i sy ob :
  fits_entry e -> index_symbols sy ->
  exists ob', codes L (write_entry e) (entry i) sy ob e ["E"; "Gem::Version"] ob'.
Proof.
  destruct e as [[name version] platform]. intros (Hn & Hv & Hp) Hsy. unfold entry.
  assert (Hlen : length sy <= 2) by (by destruct Hsy as [->| ->]; cbn; lia).
  assert (Hadd : add_symbol "E" (version_symbols (add_symbol "E" sy)) = ["E"; "Gem::Version"])
    by (by destruct Hsy as [->| ->]).
  pose proof (add_symbol_length "E" sy) as H1.
  assert (H2 : length (version_symbols (add_symbol "E" sy)) <= 2) by (by destruct Hsy as [->| ->]; cbn; lia).
  eexists. apply (codes_then_ret L (write_entry (name, version, platform))) with
    (VArray [VStr name; VVersion version; VStr platform])
    ((((ob ++ [Opaque]) ++ [OStr name]) ++ [OVersion version; Opaque; OStr version]) ++ [OStr platform]);
    [|apply reads_ret].
  change (value 1) with (value_at (S 31)).
  apply (codes_array 3 (fun w => write_utf8_string platform (write_gem_version version (write_utf8_string name w))));
    [lia|].
  apply (codes_times_cons (write_utf8_string name) (fun w => write_utf8_string platform (write_gem_version version w)))
    with (add_symbol "E" sy) ((ob ++ [Opaque]) ++ [OStr name]).
  { apply codes_utf8_string; [done|done|lia|lia]. }
  apply (codes_times_cons (write_gem_version version) (write_utf8_string platform)) with
    (version_symbols (add_symbol "E" sy)) (((ob ++ [Opaque]) ++ [OStr name]) ++ [OVersion version; Opaque; OStr version]).
  { apply codes_gem_version; [done|lia]. }
  rewrite <- Hadd.
  apply (codes_times_cons (write_utf8_string platform) (fun w => w)) with
    (add_symbol "E" (version_symbols (add_symbol "E" sy)))
    ((((ob ++ [Opaque]) ++ [OStr name]) ++ [OVersion version; Opaque; OStr version]) ++ [OStr platform]);
    [|apply codes_times_nil].
  apply codes_utf8_string; [done|done|lia|lia].
Qed.

Lemma codes_entries specs i sy ob :
  Forall fits_entry specs -> index_symbols sy ->
  exists sy' ob', codes L (fun w => fold_left (fun w e => write_entry e w) specs w)
    (entries (length specs) i) sy ob specs sy' ob'.
Proof.
  intros Hall. revert i sy ob. induction Hall as [|e specs He Hall IH]; intros i sy ob Hsy.
  - exists sy, ob. split; [|apply reads_ret]. intros o. cbn. by rewrite append_nil_r.
  - destruct (codes_entry e i sy ob He Hsy) as [ob1 Hc].
    destruct (IH (S i) ["E"; "Gem::Version"] ob1 ltac:(by right)) as (sy' & ob' & Hr).
    exists sy', ob'. cbn [length entries fold_left].
    apply (codes_bind L (write_entry e) (fun w => fold_left (fun w e => write_entry e w) specs w))
      with e ["E"; "Gem::Version"] ob1; [done|].
    eapply codes_then_ret; [exact Hr|apply reads_ret].
Qed.
End Index.

(** ** Sizes *)

Definition grows (n : nat) (f : MarshalWriter -> MarshalWriter) : Prop :=
  forall w, String.length (out w) + n <= String.length (out (f w)).

Lemma grows_extend s : grows (String.length s) (extend s).
Proof. intros w. cbn. rewrite length_append. lia. Qed.

Lemma grows_long n : grows 1 (write_long n).
Proof.
  intros w. cbn. rewrite length_append. unfold long_bytes.
  repeat case_first; cbn; lia.
Qed.

Lemma grows_symbol sym : grows 2 (write_symbol sym).
Proof.
  intros w. unfold write_symbol. destruct (position sym (wsymbols w)) as [i|].
  - pose proof (grows_long (Z.of_nat i) (push ";" w)). pose proof (grows_extend ";" w). cbn in *. lia.
  - pose proof (grows_long (str_len sym) (push ":" w)) as H1. pose proof (grows_extend ":" w) as H2.
    cbn [out extend]. rewrite length_append. cbn [String.length] in *. unfold push in *. lia.
Qed.

Lemma grows_utf8_string s : grows (7 + String.length s) (write_utf8_string s).
Proof.
  intros w. unfold write_utf8_string.
  set (w1 := push QUOTE (push "I" w)).
  pose proof (grows_long (str_len s) w1) as H1. set (w2 := write_long _ w1) in *.
  pose proof (grows_extend s w2) as H2. set (w3 := extend s w2) in *.
  pose proof (grows_long 1 w3) as H3. set (w4 := write_long 1 w3) in *.
  pose proof (grows_symbol "E" w4) as H4. set (w5 := write_symbol "E" w4) in *.
  pose proof (grows_extend "T" w5) as H5. pose proof (grows_extend "I" w) as H6.
  pose proof (grows_extend (String QUOTE "") (push "I" w)) as H7.
  subst w1. unfold push in *. cbn [String.length] in *. lia.
Qed.

Lemma grows_entry name version platform :
  grows (20 + String.length name + String.length version + String.length platform)
    (write_entry (name, version, platform)).
Proof.
  intros w. unfold write_entry, write_gem_version.
  set (w1 := write_long 3 (push "[" w)).
  pose proof (grows_utf8_string name w1) as H1. set (w2 := write_utf8_string name w1) in *.
  set (w3 := push "U" w2). pose proof (grows_symbol "Gem::Version" w3) as H3. set (w4 := write_symbol _ w3) in *.
  pose proof (grows_long 1 (push "[" w4)) as H4. set (w5 := write_long 1 _) in *.
  pose proof (grows_utf8_string version w5) as H5. set (w6 := write_utf8_string version w5) in *.
  pose proof (grows_utf8_string platform w6) as H6. set (w7 := write_utf8_string platform w6) in *.
  pose proof (grows_long 3 (push "[" w)) as H7. pose proof (grows_extend "[" w) as H8.
  pose proof (grows_extend "U" w2) as H9. pose proof (grows_extend "[" w4) as H10.
  subst w1 w3. unfold push in *. cbn [String.length] in *. lia.
Qed.

Definition entry_size (e : SpecEntry) : nat :=
  let '(name, version, platform) := e in
  20 + String.length name + String.length version + String.length platform.

Lemma fold_entries_size specs w :
  Forall (fun e => entry_size e + String.length (out w) <= String.length (out (fold_left (fun w e => write_entry e w) specs w))) specs /\
  length specs + String.length (out w) <= String.length (out (fold_left (fun w e => write_entry e w) specs w)).
Proof.
  revert w. induction specs as [|[[n v] p] specs IH]; intros w; cbn [fold_left length]; [split; [done|lia]|].
  pose proof (grows_entry n v p w) as Hg. destruct (IH (write_entry (n, v, p) w)) as [Hall Hlen].
  split; [|lia]. constructor; [unfold entry_size; lia|]. eapply Forall_impl; [exact Hall|]. intros [[? ?] ?]; unfold entry_size; lia.
Qed.

Definition valid_entry (e : SpecEntry) : Prop :=
  let '(name, version, platform) := e in
  valid_utf8 name = true /\ valid_utf8 version = true /\ valid_utf8 platform = true.

(** ** Properties *)

(** The variable-length integers: within 33-bit two's complement, what
    [write_long] appends is read back by [long] as the same number, and the
    reader stops exactly at its end, whatever follows. *)
Theorem long_roundtrip (n : Z) (pre post : string) (w : MarshalWriter)
    (Hn : (-4294967296 <= n < 4294967296)%Z) :
  let enc := delta (write_long n) (wsymbols w) in
  out (write_long n w) = out w +:+ enc /\
  forall sy ob, long (at_cut pre (enc +:+ post) sy ob) = Ok (n, at_cut (pre +:+ enc) post sy ob).
Proof.
  destruct w as [o sy0]. split.
  - destruct (emits_extend (long_bytes n) sy0) as [He Hd]. unfold write_long at 1. by rewrite He.
  - intros sy ob. apply (reads_long 0 n sy ob Hn). lia.
Qed.

Lemma long_roundtrip_witness :
  let enc := delta (write_long (-70000)) [] in
  long (at_cut "ab" (enc +:+ "cd") [] []) = Ok ((-70000)%Z, at_cut ("ab" +:+ enc) "cd" [] []).
Proof.
  exact (proj2 (long_roundtrip (-70000) "ab" "cd" writer_new ltac:(lia)) [] []).
Defined.

(** What the reader makes of a written index followed by [extra] bytes. *)
Lemma read_written_index (specs : list SpecEntry) (extra : string) :
  Forall valid_entry specs ->
  (Z.of_nat (String.length (marshal_specs_index specs)) < 4294967296)%Z -> specs <> [] ->
  unmarshal_specs_index (marshal_specs_index specs +:+ extra) =
    if Nat.eqb (String.length extra) 0 then Ok specs else Err (TrailingBytes (String.length extra)).
Proof.
  intros Hutf8 Hsize Hne.
  set (L := String.length (marshal_specs_index specs)) in *.
  set (w1 := write_long (Z.of_nat (length specs)) (push "[" writer_new)).
  destruct (fold_entries_size specs w1) as [Hall Hlen].
  change (out (fold_left _ specs w1)) with (marshal_specs_index specs) in *. fold L in Hall, Hlen.
  assert (Hfits : Forall (fits_entry L) specs).
  { apply Forall_forall. intros [[n v] p] Hin. rewrite Forall_forall in Hall, Hutf8.
    specialize (Hall _ Hin). specialize (Hutf8 _ Hin). cbn in Hall, Hutf8. unfold fits_entry, fits. naive_solver lia. }
  assert (HL : 20 <= L).
  { destruct specs as [|[[n v] p] specs]; [done|]. apply Forall_cons_1 in Hall as [Hall _].
    unfold entry_size in Hall. lia. }
  destruct (codes_entries L Hsize HL specs 0 [] [Opaque] Hfits ltac:(by left)) as (sy & ob & He & Hr).
  destruct (codes_count L Hsize (length specs) [] [Opaque] ltac:(lia)) as [_ Hc].
  set (lb := delta (write_long (Z.of_nat (length specs))) []) in *. set (d := delta _ []) in Hr.
  set (hdr := bytes_of [4; 8]%Z).
  assert (Hm : marshal_specs_index specs = hdr +:+ String "[" "" +:+ lb +:+ d).
  { unfold marshal_specs_index. fold w1. change w1 with {| out := (hdr +:+ String "[" "") +:+ lb; wsymbols := [] |}.
    rewrite He. cbn [out]. fold d. by rewrite <- !append_assoc. }
  assert (HLd : L = String.length hdr + (1 + (String.length lb + String.length d)))
    by (unfold L; rewrite Hm, !length_append; done).
  clear Hall Hlen Hfits. clearbody L. rewrite Hm, <- !append_assoc. unfold unmarshal_specs_index, reader_new.
  replace (starts_with _ _) with true by (symmetry; apply starts_with_true; eauto).
  change 2 with (String.length hdr). fold (at_cut hdr (String "[" "" +:+ lb +:+ d +:+ extra) [] []). unfold read_index.
  unfold mbind at 1, step_bind at 1. change (String "[" "" +:+ ?s) with (String "[" s).
  rewrite byte_at_cut. cbn [Ascii.eqb Bool.eqb negb].
  unfold reserve_slot, mbind, step_bind, modify, gets, push_object, set_objects, at_cut.
  cbn [data pos symbols objects app length]. fold (at_cut (hdr +:+ String "[" "") (lb +:+ d +:+ extra) [] [Opaque]).
  rewrite Hc by (rewrite !length_append; change (String.length "[") with 1; lia).
  rewrite Hr by (rewrite !length_append; change (String.length "[") with 1; lia).
  cbn [data pos at_cut]. rewrite length_append.
  replace (_ + String.length extra - _) with (String.length extra) by lia.
  by destruct (Nat.eqb _ 0).
Qed.

(** C5. The specs index round-trips: every index the server writes from valid
    strings (and below 4 GiB) is read back entry for entry by the reader that
    merges upstream indexes, whatever names, versions and platforms it holds
    and however the shared symbols are linked; anything after it is refused
    rather than dropped. *)
Theorem specs_index_roundtrip (specs : list SpecEntry) (extra : string)
    (Hutf8 : Forall valid_entry specs)
    (Hsize : (Z.of_nat (String.length (marshal_specs_index specs)) < 4294967296)%Z) :
  unmarshal_specs_index (marshal_specs_index specs) = Ok specs /\
  (extra <> "" ->
     unmarshal_specs_index (marshal_specs_index specs +:+ extra) = Err (TrailingBytes (String.length extra))).
Proof.
  assert (Hextra : extra <> "" -> String.length extra <> 0) by (by destruct extra).
  destruct (decide (specs = [])) as [->|Hne].
  - split; [done|]. by destruct extra.
  - split.
    + rewrite <- (append_nil_r (marshal_specs_index specs)). by apply read_written_index.
    + intros H%Hextra. rewrite read_written_index by done. by apply Nat.eqb_neq in H as ->.
Qed.

Lemma specs_index_roundtrip_witness :
  unmarshal_specs_index (marshal_specs_index [("rails", "7.0.1", "ruby"); ("rails", "7.1.0", "ruby")]) =
  Ok [("rails", "7.0.1", "ruby"); ("rails", "7.1.0", "ruby")].
Proof.
  refine (proj1 (specs_index_roundtrip _ "x" _ _)); [repeat constructor|vm_compute; reflexivity].
Defined.

(** [w'] continues what [w] wrote. *)
Definition continues (w w' : MarshalWriter) : Prop := exists d, out w' = out w +:+ d.

Lemma continues_refl w : continues w w.
Proof. exists "". by rewrite append_nil_r. Qed.

Lemma continues_extend s w w' : continues w w' -> continues w (extend s w').
Proof. intros [d Hd]. exists (d +:+ s). cbn. by rewrite Hd, append_assoc. Qed.

Lemma continues_symbol sym w w' : continues w w' -> continues w (write_symbol sym w').
Proof.
  intros H. unfold write_symbol. destruct (position sym (wsymbols w')); [by do 2 apply continues_extend|].
  destruct (continues_extend sym w _ (continues_extend (long_bytes (str_len sym)) w _ (continues_extend ":" w w' H)))
    as [d Hd]. by exists d.
Qed.

Lemma continues_fold {A} (f : MarshalWriter -> A -> MarshalWriter) l w w' :
  (forall a v, continues w v -> continues w (f v a)) -> continues w w' -> continues w (fold_left f l w').
Proof. intros Hf. revert w'. induction l as [|a l IH]; intros w' H; [done|]. apply IH, Hf, H. Qed.

(** Peels the writing steps off a [continues] goal. *)
Ltac continues :=
  repeat first
    [ apply continues_refl | assumption | apply continues_extend | apply continues_symbol
    | apply continues_fold; [intros|]
    | progress unfold write_empty_hash, write_array_header, write_fixnum, write_bool, write_nil, write_gem_version,
        write_utf8_string, write_gem_requirement, write_dependency, write_gem_dependency, write_long, push ].

Lemma quick_spec_inner_opening spec : continues (write_array_header 19 writer_new) (quick_spec_inner spec).
Proof. unfold quick_spec_inner. cbv zeta. continues. Qed.

(** The quick gemspec is framed as its client parses it: the magic, a
    [_dump] object of class [Gem::Specification], and a length prefix that
    covers exactly the rest of the stream, which is itself a Marshal 4.8
    stream opening with the 19-element field array. *)
Theorem quick_spec_framing (spec : GemSpec)
    (Hsize : (Z.of_nat (String.length (marshal_quick_spec spec)) < 4294967296)%Z) :
  let inner := out (quick_spec_inner spec) in
  starts_with (bytes_of [4; 8; 91; 24]%Z) inner = true /\
  match reader_new (marshal_quick_spec spec) with
  | Ok r =>
      (t ← byte; class ← symbol; len ← count; body ← bytes len; mret (t, class, body)) r =
      Ok ("u"%char, "Gem::Specification", inner,
          at_cut (marshal_quick_spec spec) "" ["Gem::Specification"] [])
  | Err _ => False
  end.
Proof.
  intros inner. set (L := String.length (marshal_quick_spec spec)) in *. split.
  { apply starts_with_true. apply (quick_spec_inner_opening spec). }
  set (hdr := bytes_of [4; 8]%Z).
  set (lb := delta (write_long (str_len inner)) ["Gem::Specification"]).
  set (sym := delta (write_symbol "Gem::Specification") []).
  assert (Hm : marshal_quick_spec spec = hdr +:+ String "u" "" +:+ sym +:+ lb +:+ inner).
  { unfold marshal_quick_spec. fold inner. 
    change (write_symbol "Gem::Specification" (push "u" writer_new)) with
      {| out := (hdr +:+ String "u" "") +:+ sym; wsymbols := ["Gem::Specification"] |}.
    cbn [out extend write_long]. fold (delta (write_long (str_len inner)) ["Gem::Specification"]).
    unfold lb, delta. cbn [out write_long extend]. by rewrite <- !append_assoc. }
  assert (HL : L = String.length hdr + (1 + (String.length sym + (String.length lb + String.length inner))))
    by (unfold L; rewrite Hm, !length_append; done).
  assert (Hsym : String.length sym = 20) by done.
  unfold reader_new. replace (starts_with _ _) with true by (symmetry; apply starts_with_true; eauto).
  assert (Hreads : reads L (t ← byte; class ← symbol; len ← count; body ← bytes len; mret (t, class, body))
    (String "u" "" +:+ sym +:+ lb +:+ inner) [] [] ("u"%char, "Gem::Specification", inner) ["Gem::Specification"] []).
  { eapply reads_bind; [apply reads_byte|]. cbv beta.
    eapply reads_bind; [apply (codes_symbol L Hsize "Gem::Specification"); [split; [done|]|]; cbn [String.length length]; lia|]. cbv beta.
    eapply reads_bind; [apply (codes_count L Hsize (String.length inner)); lia|]. cbv beta.
    rewrite <- (append_nil_r inner) at 2. eapply reads_bind; [apply codes_bytes|]. apply reads_ret. }
  specialize (Hreads hdr ""). rewrite append_nil_r, <- Hm in Hreads. specialize (Hreads (le_n _)).
  unfold at_cut in Hreads at 1. rewrite <- Hm in Hreads. exact Hreads.
Qed.

Definition sample_gem : GemSpec :=
  {| gem_name := "demo"; gem_version := "0.1.0"; platform := None; authors := Some ["A"]; email := None;
     summary := Some "s"; description := None; homepage := None; license := None; licenses := None;
     required_ruby_version := Some ">= 2.7, < 4";
     dependencies := Some [{| dep_name := "rake"; requirements := "~> 13.0"; dep_type := "development" |}] |}.

Lemma quick_spec_framing_witness :
  starts_with (bytes_of [4; 8; 91; 24]%Z) (out (quick_spec_inner sample_gem)) = true.
Proof.
  refine (proj1 (quick_spec_framing sample_gem _)). vm_compute. reflexivity.
Defined.
