(* ===== verification/UpstreamUrl.v ===== *)
(** The identity of an upstream registry: stripping credentials out of a URL
    ([services/proxy_service.rs]) and the fingerprint the age gate keys its
    observations by ([services/age_gate_service.rs]).

    The [url] and [sha2] crates are reached through [UrlCrates]. *)

From stdpp Require Import base list sets strings.
From Stdlib Require Import ZArith Lia Ascii.
From S2P Require Import Prelude RustStr.

Local Open Scope string_scope.
Local Open Scope list_scope.

Class UrlCrates := {
  (** [Url::parse(s).map(|u| u.to_string())] *)
  url_to_string : string -> option string;
  (** The serialisation with username and password cleared, when the parsed
      URL has a username or a password. *)
  url_clear_userinfo : string -> option string;
  (** [hex::encode(Sha256::digest(s))] *)
  sha256_hex : string -> string;
  url_uuid :: UuidCrate
}.

Definition is_scheme_char (c : ascii) : bool :=
  is_alnum c || Ascii.eqb c "+" || Ascii.eqb c "." || Ascii.eqb c "-".

Definition is_slash (c : ascii) : bool := Ascii.eqb c "/" || Ascii.eqb c "\".

(** The text before the first [:], when it has the shape of a scheme, and what
    follows the [:]. *)
Definition split_scheme (url : string) : option (string * string) :=
  '(scheme, after) ← split_once (Ascii.eqb ":") url;
  if match scheme with String c _ => is_alpha c | EmptyString => false end && str_all is_scheme_char scheme
  then Some (scheme, after) else None.

(** The end of the authority. *)
Definition in_authority (special : bool) (c : ascii) : bool :=
  negb (Ascii.eqb c "/" || Ascii.eqb c "?" || Ascii.eqb c "#" || (special && Ascii.eqb c "\")).

(** The cut of the URL at [prefix_len], with the [special] flag. *)
Definition split_prefix (url : string) : string * string * bool :=
  match split_scheme url with
  | Some (scheme, after) =>
      let slashes := take_while is_slash after in
      let special := one_of (to_ascii_lowercase scheme) ["http"; "https"; "ws"; "wss"; "ftp"] in
      if special || starts_with "//" after
      then (scheme +:+ ":" +:+ slashes, trim_start_by is_slash after, special)
      else ("", url, false)
  | None =>
      match strip_prefix "//" url with
      | Some rest => ("//", rest, false)
      | None => ("", url, false)
      end
  end.

Definition strip_url_userinfo_textual (url : string) : string * bool :=
  let '(prefix, rest, special) := split_prefix url in
  let authority := take_while (in_authority special) rest in
  let tail := trim_start_by (in_authority special) rest in
  match rsplit_once "@" authority with
  | Some (user, host) => (prefix +:+ host +:+ tail, negb (is_empty user))
  | None => (url, false)
  end.

Section Identity.
Context `{UrlCrates}.

Definition strip_url_userinfo (url : string) : string * bool :=
  let '(stripped, had) := strip_url_userinfo_textual url in
  match url_clear_userinfo stripped with
  | Some cleared => (cleared, true)
  | None => (stripped, had)
  end.

Definition normalize_upstream_url (raw : string) : string :=
  let trimmed := trim_end_by (Ascii.eqb "/") (trim raw) in
  match url_to_string trimmed with
  | Some s => trim_end_by (Ascii.eqb "/") s
  | None => trimmed
  end.

Definition upstream_fingerprint (upstream_url : option string) : string :=
  let raw := trim (default "" upstream_url) in
  let '(stripped, _) := strip_url_userinfo raw in
  sha256_hex (normalize_upstream_url stripped).

Definition legacy_upstream_fingerprint (upstream_url : option string) : option string :=
  let legacy := sha256_hex (normalize_upstream_url (default "" upstream_url)) in
  if String.eqb legacy (upstream_fingerprint upstream_url) then None else Some legacy.
End Identity.

(** ** Laws *)

Lemma take_while_app p s t :
  str_all p s = true -> take_while p (s +:+ t) = s +:+ take_while p t.
Proof. induction s as [|c s IH]; cbn; [done|]. intros [-> Hs]%andb_prop. by rewrite IH. Qed.

Lemma trim_start_by_app p s t :
  str_all p s = true -> trim_start_by p (s +:+ t) = trim_start_by p t.
Proof. induction s as [|c s IH]; cbn; [done|]. intros [-> Hs]%andb_prop. by rewrite IH. Qed.

Definition stops (p : ascii -> bool) (s : string) : Prop :=
  match s with String c _ => p c = false | EmptyString => True end.

Lemma take_while_stop p s : stops p s -> take_while p s = "".
Proof. destruct s; cbn; [done|]. by intros ->. Qed.

Lemma trim_start_by_stop p s : stops p s -> trim_start_by p s = s.
Proof. destruct s; cbn; [done|]. by intros ->. Qed.

Definition no_at (c : ascii) : bool := negb (Ascii.eqb c "@").

Lemma rsplit_once_none s : str_all no_at s = true -> rsplit_once "@" s = None.
Proof.
  induction s as [|c s IH]; [done|]. cbn [str_all rsplit_once]. intros [Hc Hs]%andb_prop. rewrite IH by done.
  rewrite strip_prefix_cons. unfold no_at in Hc. apply negb_true_iff in Hc.
  destruct (Ascii.eqb_spec "@" c) as [<-|]; [done|done].
Qed.

Lemma rsplit_once_at user host :
  str_all no_at host = true -> rsplit_once "@" (user +:+ String "@" host) = Some (user, host).
Proof.
  intros Hh. induction user as [|c user IH].
  - cbn [String.append rsplit_once]. rewrite rsplit_once_none by done.
    rewrite strip_prefix_cons, strip_prefix_nil. done.
  - cbn [String.append rsplit_once]. by rewrite IH.
Qed.

(** A URL cut as [scheme://authority tail]. *)
Record parts := {
  p_scheme : string;
  p_host : string;
  p_tail : string
}.

Definition plain_authority (s : string) : bool :=
  str_all (fun c => negb (is_slash c) && in_authority true c) s.

Definition wf_parts (u : parts) : Prop :=
  match p_scheme u with String c _ => is_alpha c = true | EmptyString => False end /\
  str_all is_scheme_char (p_scheme u) = true /\
  p_host u <> "" /\ plain_authority (p_host u) = true /\ str_all no_at (p_host u) = true /\
  (forall special, stops (in_authority special) (p_tail u)).

Definition url_with (userinfo : string) (u : parts) : string :=
  p_scheme u +:+ ":" +:+ "//" +:+ userinfo +:+ p_host u +:+ p_tail u.

Lemma plain_in_authority special s : plain_authority s = true -> str_all (in_authority special) s = true.
Proof.
  apply str_all_weaken. intros c [_ Hc]%andb_prop. destruct special; [done|].
  unfold in_authority in *. rewrite !negb_true_iff in *. cbn [andb] in *.
  by apply orb_false_elim in Hc as [-> _].
Qed.

Lemma scheme_no_colon c : is_scheme_char c = true -> Ascii.eqb ":" c = false.
Proof. destruct c as [[] [] [] [] [] [] [] []]; by vm_compute. Qed.

Lemma split_prefix_parts userinfo u :
  wf_parts u -> plain_authority userinfo = true ->
  exists special, split_prefix (url_with userinfo u) =
    (p_scheme u +:+ ":" +:+ "//", userinfo +:+ p_host u +:+ p_tail u, special).
Proof.
  intros (Ha & Hsc & Hne & Hh & _ & _) Hu. unfold split_prefix, split_scheme, url_with.
  set (rest := userinfo +:+ p_host u +:+ p_tail u) in *.
  change (":" +:+ "//" +:+ rest) with (String ":" ("//" +:+ rest)).
  rewrite (split_once_cut (Ascii.eqb ":") (p_scheme u) ":"); [|done|].
  2:{ apply (str_all_weaken is_scheme_char); [|done]. intros c Hc. by rewrite scheme_no_colon. }
  cbn [mbind option_bind]. rewrite Hsc.
  replace (match p_scheme u with String c _ => is_alpha c | EmptyString => false end) with true
    by (by destruct (p_scheme u)).
  cbn [andb]. change (":" +:+ "//") with "://".
  assert (Hstop : stops is_slash (userinfo +:+ p_host u +:+ p_tail u)).
  { destruct userinfo as [|c ui].
    - destruct (p_host u) as [|c h]; [done|]. cbn. apply andb_prop in Hh as [[Hc _]%andb_prop _].
      by apply negb_true_iff.
    - cbn. apply andb_prop in Hu as [[Hc _]%andb_prop _]. by apply negb_true_iff. }
  fold rest in Hstop. change ("//" +:+ rest) with (String "/" (String "/" rest)).
  rewrite starts_with_strip, !strip_prefix_cons, strip_prefix_nil. cbn [Ascii.eqb Bool.eqb].
  rewrite orb_true_r. cbn [take_while trim_start_by]. change (is_slash "/") with true. cbv iota.
  rewrite take_while_stop, trim_start_by_stop by done. eexists. done.
Qed.

Lemma strip_parts userinfo u :
  wf_parts u -> plain_authority userinfo = true ->
  (userinfo = "" \/ exists user, userinfo = user +:+ "@") ->
  fst (strip_url_userinfo_textual (url_with userinfo u)) = url_with "" u.
Proof.
  intros Hwf Hu Hform. pose proof Hwf as (_ & _ & _ & Hh & Hat & Htail).
  destruct (split_prefix_parts userinfo u Hwf Hu) as [special Hsp].
  unfold strip_url_userinfo_textual. rewrite Hsp. specialize (Htail special).
  assert (Hauth : str_all (in_authority special) (userinfo +:+ p_host u) = true)
    by (rewrite str_all_app, !plain_in_authority; done).
  rewrite (append_assoc userinfo), take_while_app, trim_start_by_app by done.
  rewrite (take_while_stop _ (p_tail u)), (trim_start_by_stop _ (p_tail u)), append_nil_r by done.
  destruct Hform as [->|[user ->]].
  - by rewrite rsplit_once_none.
  - rewrite <- append_assoc. change ("@" +:+ p_host u) with (String "@" (p_host u)).
    rewrite rsplit_once_at by done. unfold url_with. cbn [fst]. by rewrite <- !append_assoc.
Qed.

(** Rotating credentials keeps the identity of an upstream: for a
    [scheme://[user@]host/...] URL the fingerprint is the one of the same URL
    without userinfo, whatever the userinfo (even one that contains [@]), so
    neither clocks nor approvals are lost. *)
Theorem credential_rotation_keeps_fingerprint `{UrlCrates} (u : parts) (user : string)
    (Hwf : wf_parts u) (Huser : plain_authority user = true)
    (Htrim : trim (url_with (user +:+ "@") u) = url_with (user +:+ "@") u)
    (Htrim' : trim (url_with "" u) = url_with "" u) :
  upstream_fingerprint (Some (url_with (user +:+ "@") u)) = upstream_fingerprint (Some (url_with "" u)).
Proof.
  unfold upstream_fingerprint, strip_url_userinfo. change (default "" (Some ?x)) with x. rewrite Htrim, Htrim'.
  assert (H1 := strip_parts (user +:+ "@") u Hwf). rewrite <- (strip_parts "" u Hwf) in H1 by auto.
  assert (Hu : plain_authority (user +:+ "@") = true) by (unfold plain_authority in *; by rewrite str_all_app, Huser).
  specialize (H1 Hu ltac:(eauto)). revert H1.
  destruct (strip_url_userinfo_textual _) as [s1 b1], (strip_url_userinfo_textual _) as [s2 b2]. cbn [fst].
  intros ->. by destruct (url_clear_userinfo s2).
Qed.

Definition identity_crates : UrlCrates :=
  {| url_to_string := Some; url_clear_userinfo _ := None; sha256_hex s := s; url_uuid := {| uuid_display _ := "id" |} |}.

Lemma credential_rotation_keeps_fingerprint_witness :
  @upstream_fingerprint identity_crates (Some "https://bot:p@ss@npm.example/repo/") =
  @upstream_fingerprint identity_crates (Some "https://npm.example/repo/").
Proof.
  refine (@credential_rotation_keeps_fingerprint identity_crates
    {| p_scheme := "https"; p_host := "npm.example"; p_tail := "/repo/" |} "bot:p@ss" _ _ _ _).
  - unfold wf_parts; split_and!; try reflexivity; discriminate.
  - reflexivity.
  - vm_compute. reflexivity.
  - vm_compute. reflexivity.
Defined.
