(* ===== verification/AgeVersions.v ===== *)
(** Versions in the age gate ([services/age_gate_service.rs]): the version
    comparison, the choice of the newest approved artifact, and the rewriting
    of an npm packument (blocked versions removed, [dist-tags] reconciled). *)

From stdpp Require Import base list sets strings.
From Stdlib Require Import ZArith Lia Ascii.
From S2P Require Import Prelude RustStr VersionOrder.

Local Open Scope string_scope.
Local Open Scope list_scope.

(** ** Comparison *)

Definition split_version_prerelease (version : string) : string * option string :=
  match split_once (Ascii.eqb "-") version with
  | Some (main, pre) => (main, Some pre)
  | None => (version, None)
  end.

Definition compare_dot_segments (a b : string) (compare_segment : string -> string -> comparison) : Z :=
  ordering_to_i32 (cmp_padded compare_segment "0" (split_char "." a) (split_char "." b)).

Definition version_compare (a b : string) : Z :=
  let '(main_a, pre_a) := split_version_prerelease a in
  let '(main_b, pre_b) := split_version_prerelease b in
  let main_cmp := compare_dot_segments main_a main_b compare_natural_segment in
  if negb (main_cmp =? 0)%Z then main_cmp
  else
    match pre_a, pre_b with
    | None, None => 0
    | None, Some _ => 1
    | Some _, None => -1
    | Some pa, Some pb => compare_dot_segments pa pb compare_semver_prerelease_identifier
    end%Z.

Definition version_ord (a b : string) : comparison := Z.compare (version_compare a b) 0.

Definition version_compare_desc (a b : string) : comparison :=
  match version_ord a b with Eq => Eq | Lt => Gt | Gt => Lt end.

Record LastKnownGood := {
  lkg_version : string;
  artifact_path : string
}.

Definition select_newest_approved_artifact (candidates : list (string * string)) : option LastKnownGood :=
  (fun c => {| lkg_version := fst c; artifact_path := snd c |}) <$>
    max_by (fun a b => version_ord (fst a) (fst b)) candidates.

(** ** JSON objects, edited in place *)

Definition json_map_remove (k : string) (m : list (string * Json)) : list (string * Json) :=
  List.filter (fun p => negb (String.eqb (fst p) k)) m.

(** [get_mut(k).and_then(as_object_mut)], then an edit of that object. *)
Definition json_edit_object (k : string) (f : list (string * Json) -> list (string * Json)) (j : Json) : Json :=
  match j with
  | JObject m =>
      JObject ((fun p => if String.eqb (fst p) k
                         then (fst p, match snd p with JObject o => JObject (f o) | v => v end)
                         else p) <$> m)
  | _ => j
  end.

Definition json_object_keys (j : option Json) : list string :=
  match j with Some (JObject m) => fst <$> m | _ => [] end.

Definition is_release (v : string) : bool :=
  match snd (split_version_prerelease v) with None => true | Some _ => false end.

(** The body of [reconcile_dist_tags] on the [dist-tags] object. *)
Definition reconcile_tags (allowed : list string) (dist_tags : list (string * Json)) : list (string * Json) :=
  let previous_latest := json_get "latest" (JObject dist_tags) ≫= json_as_str in
  let kept := List.filter (fun p => match json_as_str (snd p) with
                                    | Some v => one_of v allowed
                                    | None => false
                                    end) dist_tags in
  if existsb (fun p => String.eqb (fst p) "latest") kept then kept
  else
    let at_or_below v :=
      match previous_latest with Some latest => (version_compare v latest <=? 0)%Z | None => true end in
    let replacement :=
      match List.find at_or_below (List.filter is_release allowed) with
      | Some v => Some v
      | None =>
          match List.find is_release allowed with
          | Some v => Some v
          | None => head allowed
          end
      end in
    match replacement with
    | Some latest => json_map_insert "latest" (JString latest) kept
    | None => kept
    end.

Definition reconcile_dist_tags (packument : Json) (allowed : list string) : Json :=
  json_edit_object "dist-tags" (reconcile_tags allowed) packument.

(** The loop over the version keys. *)
Fixpoint remove_blocked (blocked : list string) (version_keys : list string) (packument : Json)
  (allowed : list string) : Json * list string :=
  match version_keys with
  | [] => (packument, allowed)
  | version :: rest =>
      if one_of version blocked then
        let packument := json_edit_object "versions" (json_map_remove version) packument in
        let packument := json_edit_object "time" (json_map_remove version) packument in
        remove_blocked blocked rest packument allowed
      else remove_blocked blocked rest packument (allowed ++ [version])
  end.

Definition apply_npm_packument_blocks (packument : Json) (blocked : list string) : Json * list string :=
  let version_keys := json_object_keys (json_get "versions" packument) in
  let '(packument, allowed) := remove_blocked blocked version_keys packument [] in
  let allowed := sort_by version_compare_desc allowed in
  (reconcile_dist_tags packument allowed, allowed).

Definition collect_npm_packument_versions (packument : Json) (publish_times : string -> option DateTime) :
  list (string * option DateTime) :=
  (fun v => (v, publish_times v)) <$> json_object_keys (json_get "versions" packument).

(** ** Laws of the comparison *)

(** A final version is above its prereleases. *)
Definition prerelease_order (a b : option string) : comparison :=
  match a, b with
  | None, None => Eq
  | None, Some _ => Gt
  | Some _, None => Lt
  | Some pa, Some pb => cmp_padded compare_semver_prerelease_identifier "0" (split_char "." pa) (split_char "." pb)
  end.

#[export] Instance prerelease_order_preorder : TotalPreorder prerelease_order.
Proof.
  set (c := cmp_on (fun p : option string => split_char "." (default "" p))
              (cmp_padded compare_semver_prerelease_identifier "0")).
  set (cls (p : option string) := match p with Some _ => true | None => false end).
  assert (H : TotalPreorder (cmp_class cls c cmp_eq)) by (unfold c; apply _).
  assert (Heq : forall a b, prerelease_order a b = cmp_class cls c cmp_eq a b) by (by intros [a|] [b|]).
  split; intros *; rewrite !Heq; apply H.
Qed.

Lemma version_ord_lex a b :
  version_ord a b =
    cmp_on split_version_prerelease
      (lex (cmp_on (fun p => split_char "." (fst p)) (cmp_padded compare_natural_segment "0"))
           (cmp_on snd prerelease_order)) a b.
Proof.
  unfold version_ord, version_compare, cmp_on, lex, compare_dot_segments.
  destruct (split_version_prerelease a) as [ma pa], (split_version_prerelease b) as [mb pb]. cbn [fst snd].
  destruct (cmp_padded compare_natural_segment "0" _ _); cbn; [|done|done].
  destruct pa, pb; cbn; try done. apply ordering_to_i32_cmp.
Qed.

#[export] Instance version_ord_preorder : TotalPreorder version_ord.
Proof.
  assert (H : TotalPreorder (cmp_on split_version_prerelease
      (lex (cmp_on (fun p => split_char "." (fst p)) (cmp_padded compare_natural_segment "0"))
           (cmp_on snd prerelease_order)))) by apply _.
  split; intros *; rewrite !version_ord_lex; apply H.
Qed.

#[export] Instance version_compare_desc_preorder : TotalPreorder version_compare_desc.
Proof.
  assert (Hd : forall a b, version_compare_desc a b = version_ord b a).
  { intros a b. unfold version_compare_desc. rewrite (tp_sym version_ord a b). by destruct (version_ord a b). }
  split.
  - intros x y. rewrite !Hd. apply (tp_sym version_ord).
  - intros x y z. rewrite !Hd. intros Hxy Hyz. by apply (tp_trans version_ord z y x).
Qed.

Lemma version_compare_desc_le a b : version_compare_desc a b <> Gt <-> (version_compare b a <= 0)%Z.
Proof.
  assert (Hd : version_compare_desc a b = version_ord b a).
  { unfold version_compare_desc. rewrite (tp_sym version_ord a b). by destruct (version_ord a b). }
  rewrite Hd. unfold version_ord. destruct (Z.compare_spec (version_compare b a) 0); split; try done; lia.
Qed.

(** The last known good artifact is a newest candidate: the comparison is a
    total preorder, so the choice is one of the candidates and no candidate
    compares above it; it is missing only without candidates. *)
Theorem last_known_good_is_newest (candidates : list (string * string)) :
  TotalPreorder version_ord /\
  match select_newest_approved_artifact candidates with
  | Some l => (lkg_version l, artifact_path l) ∈ candidates /\
      forall v p, (v, p) ∈ candidates -> (version_compare v (lkg_version l) <= 0)%Z
  | None => candidates = []
  end.
Proof.
  split; [apply _|]. unfold select_newest_approved_artifact.
  destruct (decide (candidates = [])) as [->|Hne]; [done|].
  destruct (max_by_spec (cmp_on fst version_ord) candidates Hne) as (m & Hm & Hin & Hmax).
  unfold cmp_on in Hm, Hmax. rewrite Hm. cbn [fmap option_fmap option_map lkg_version artifact_path]. split; [by destruct m|].
  intros v p Hv. specialize (Hmax (v, p) Hv). cbn in Hmax. unfold version_ord in Hmax.
  destruct (Z.compare_spec (version_compare v m.1) 0); try done; lia.
Qed.

(** ** Laws of the packument edit *)

(** The member [k] of the member [field] of an object. *)
Definition member (p : Json) (field k : string) : option Json := json_get field p ≫= json_get k.

Lemma json_get_remove k k' m :
  json_get k (JObject (json_map_remove k' m)) = if k =? k' then None else json_get k (JObject m).
Proof.
  unfold json_get. induction m as [|[x v] m IH]; cbn [json_map_remove List.filter List.find fst].
  - by destruct (k =? k').
  - destruct (String.eqb_spec x k') as [->|Hx]; cbn [negb].
    + unfold json_map_remove in IH. rewrite IH. destruct (String.eqb_spec k k') as [->|Hk]; [done|].
      by destruct (String.eqb_spec k' k) as [->|].
    + cbn [List.find fst]. destruct (String.eqb_spec x k) as [->|].
      * by destruct (String.eqb_spec k k') as [->|].
      * exact IH.
Qed.

Lemma json_get_edit k k' f j :
  json_get k (json_edit_object k' f j) =
    (fun v => if k =? k' then match v with JObject o => JObject (f o) | v => v end else v) <$> json_get k j.
Proof.
  destruct j as [| | | | |m]; try done. cbn [json_edit_object json_get].
  induction m as [|[x v] m IH]; [done|]. cbn [fmap list_fmap List.find fst snd].
  destruct (String.eqb_spec x k') as [->|Hx]; cbn [fst].
  - destruct (String.eqb_spec k' k) as [->|Hk]; [|exact IH]. cbn. rewrite String.eqb_refl; by destruct v.
  - destruct (String.eqb_spec x k) as [->|Hk]; [|exact IH]. cbn. by destruct (String.eqb_spec k k').
Qed.

Lemma member_edit field k field' f p :
  member (json_edit_object field' f p) field k =
    if field =? field' then
      json_get field p ≫= fun v => match v with JObject o => json_get k (JObject (f o)) | _ => None end
    else member p field k.
Proof.
  unfold member. rewrite json_get_edit. destruct (field =? field'); [|by destruct (json_get field p)].
  destruct (json_get field p) as [[]|]; done.
Qed.

Lemma member_remove field k field' v p :
  member (json_edit_object field' (json_map_remove v) p) field k =
    if (field =? field') && (k =? v) then None else member p field k.
Proof.
  rewrite member_edit. unfold member. destruct (field =? field'); [|done].
  destruct (json_get field p) as [[| | | | |m]|]; cbn [mbind option_bind andb];
    rewrite ?json_get_remove; by destruct (k =? v).
Qed.

(** What the loop over the version keys leaves. *)
Lemma remove_blocked_spec blocked keys p acc :
  let '(p', allowed) := remove_blocked blocked keys p acc in
  allowed = acc ++ List.filter (fun v => negb (one_of v blocked)) keys /\
  (forall field k, member p' field k =
     if one_of field ["versions"; "time"] && one_of k keys && one_of k blocked then None else member p field k) /\
  (forall field, one_of field ["versions"; "time"] = false -> json_get field p' = json_get field p).
Proof.
  revert p acc. induction keys as [|v keys IH]; intros p acc; cbn [remove_blocked List.filter].
  - rewrite app_nil_r. split_and!; [done| |done]. intros field k. by rewrite andb_false_r.
  - destruct (one_of v blocked) eqn:Hb; cbn [negb].
    + specialize (IH (json_edit_object "time" (json_map_remove v) (json_edit_object "versions" (json_map_remove v) p)) acc).
      destruct (remove_blocked _ _ _ _) as [p' allowed]. destruct IH as (-> & Hm & Hf). split_and!; [done| |].
      * intros field k. rewrite Hm, !member_remove. cbn [one_of existsb].
        destruct (String.eqb_spec k v) as [->|]; [|by rewrite !andb_false_r].
        rewrite Hb, !andb_true_r, !orb_false_r. cbn [orb].
        by destruct (field =? "versions"), (field =? "time"), (one_of v keys).
      * intros field Hn. rewrite (Hf field Hn), !json_get_edit. cbn [one_of existsb] in Hn.
        destruct (field =? "versions"), (field =? "time"); try done. by destruct (json_get field p).
    + specialize (IH p (acc ++ [v])). destruct (remove_blocked _ _ _ _) as [p' allowed].
      destruct IH as (-> & Hm & Hf). split_and!; [by rewrite <- app_assoc| |done].
      intros field k. rewrite Hm. cbn [one_of existsb]. destruct (String.eqb_spec k v) as [->|]; [|done].
      by rewrite Hb, !andb_false_r.
Qed.

Lemma reconcile_tags_targets allowed tags t j :
  json_get t (JObject (reconcile_tags allowed tags)) = Some j -> exists v, j = JString v /\ v ∈ allowed.
Proof.
  assert (Hkept : forall j, json_get t (JObject (List.filter (fun p => match json_as_str (snd p) with
      | Some v => one_of v allowed | None => false end) tags)) = Some j -> exists v, j = JString v /\ v ∈ allowed).
  { intros j' Hj. cbn [json_get] in Hj. destruct (List.find _ _) as [[x w]|] eqn:E; [|done].
    cbn in Hj. simplify_eq. apply List.find_some in E as [E _]. apply filter_In in E as [_ E].
    cbn in E. destruct j'; try done. apply one_of_true in E. eauto. }
  unfold reconcile_tags. destruct (existsb _ _); [apply Hkept|].
  destruct (match List.find _ _ with Some v => Some v | None => _ end) as [w|] eqn:E; [|apply Hkept].
  assert (Hw : w ∈ allowed).
  { destruct (List.find _ (List.filter is_release allowed)) as [u|] eqn:E1.
    - simplify_eq. apply List.find_some in E1 as [E1 _]. apply filter_In in E1 as [E1 _]. by apply list_elem_of_In.
    - destruct (List.find is_release allowed) as [u|] eqn:E2.
      + simplify_eq. apply List.find_some in E2 as [E2 _]. by apply list_elem_of_In.
      + destruct allowed; cbn in E; [done|]. simplify_eq. left. }
  unfold json_map_insert. cbn [json_get List.find fst]. destruct (String.eqb_spec "latest" t) as [<-|Hne].
  - cbn. intros [= <-]. eauto.
  - intros Hj. apply Hkept. change (json_get t (JObject (json_map_remove "latest" (List.filter (fun p =>
      match json_as_str (snd p) with Some v => one_of v allowed | None => false end) tags))) = Some j) in Hj.
    rewrite json_get_remove in Hj. destruct (String.eqb_spec t "latest"); [by subst|done].
Qed.

(** Filtering a packument removes exactly the blocked versions: they leave
    [versions] and [time], every other member and field is unchanged, every
    dist-tag left points at a version that survived, and the returned list is
    the surviving versions, newest first. *)
Theorem packument_filter_exact (packument : Json) (blocked : list string) :
  let keys := json_object_keys (json_get "versions" packument) in
  let '(p', allowed) := apply_npm_packument_blocks packument blocked in
  (forall v, v ∈ keys -> v ∈ blocked -> member p' "versions" v = None /\ member p' "time" v = None) /\
  (forall v, v ∉ blocked -> member p' "versions" v = member packument "versions" v /\
                           member p' "time" v = member packument "time" v) /\
  (forall field, field ∉ ["versions"; "time"; "dist-tags"] -> json_get field p' = json_get field packument) /\
  (forall t j, member p' "dist-tags" t = Some j -> exists v, j = JString v /\ v ∈ allowed) /\
  (forall v, v ∈ allowed <-> v ∈ keys /\ v ∉ blocked) /\ sorted_by version_compare_desc allowed.
Proof.
  intros keys. unfold apply_npm_packument_blocks. fold keys.
  pose proof (remove_blocked_spec blocked keys packument []) as Hspec.
  destruct (remove_blocked blocked keys packument []) as [p1 allowed]. destruct Hspec as (Ha & Hm & Hf).
  cbn [app] in Ha. unfold reconcile_dist_tags.
  assert (Hin : forall v l, one_of v l = false <-> v ∉ l).
  { intros v l. rewrite <- one_of_true. by destruct (one_of v l). }
  split_and!.
  - intros v Hk%one_of_true Hb%one_of_true. rewrite !member_edit, !Hm, Hk, Hb. done.
  - intros v Hb%Hin. rewrite !member_edit, !Hm, Hb, !andb_false_r. done.
  - intros field Hn%Hin. cbn [one_of existsb] in Hn. rewrite json_get_edit.
    apply orb_false_elim in Hn as [Hn1 Hn]. apply orb_false_elim in Hn as [Hn2 Hn].
    apply orb_false_elim in Hn as [Hn3 _]. rewrite Hn3, Hf; [|cbn [one_of existsb]; by rewrite Hn1, Hn2].
    by destruct (json_get field packument).
  - intros t j. rewrite member_edit. cbn [String.eqb Ascii.eqb Bool.eqb].
    destruct (json_get "dist-tags" p1) as [[| | | | |m]|]; cbn [mbind option_bind]; try done.
    apply reconcile_tags_targets.
  - intros v. rewrite (sort_by_perm version_compare_desc), Ha, !list_elem_of_In, filter_In, negb_true_iff, Hin,
      list_elem_of_In. done.
  - apply sort_by_sorted, _.
Qed.

(** The first element of a sorted list that passes a test is a least one. *)
Lemma find_newest (f : string -> bool) allowed w :
  sorted_by version_compare_desc allowed -> List.find f allowed = Some w ->
  w ∈ allowed /\ f w = true /\ forall u, u ∈ allowed -> f u = true -> (version_compare u w <= 0)%Z.
Proof.
  induction allowed as [|x l IH]; cbn; [done|]. intros [Hx Hl]. destruct (f x) eqn:Hf.
  - intros [= <-]. split_and!; [left|done|]. intros u Hu _. apply version_compare_desc_le.
    apply elem_of_cons in Hu as [->|Hu]; [by rewrite (tp_refl version_compare_desc)|by apply Hx].
  - intros (Hin & Hw & Hmin)%IH; [|done]. split_and!; [by right|done|].
    intros u [->|Hu]%elem_of_cons ?; [congruence|by apply Hmin].
Qed.

Lemma find_filter {A} (f g : A -> bool) l :
  List.find f (List.filter g l) = List.find (fun x => g x && f x) l.
Proof.
  induction l as [|x l IH]; [done|]. cbn [List.filter List.find]. destruct (g x); cbn [List.find andb]; [|done].
  by destruct (f x).
Qed.

(** Retaining the entries of an object by their value. *)
Lemma json_get_retain (g : Json -> bool) k m :
  NoDup (fst <$> m) ->
  json_get k (JObject (List.filter (fun p => g (snd p)) m)) =
    json_get k (JObject m) ≫= fun j => if g j then Some j else None.
Proof.
  cbn [json_get]. induction m as [|[x v] m IH]; [done|]. cbn [fmap list_fmap fst]. intros [Hx Hm]%NoDup_cons.
  cbn [List.filter List.find fst snd]. destruct (String.eqb_spec x k) as [->|Hk].
  - cbn [fmap option_fmap option_map mbind option_bind snd]. destruct (g v); cbn [List.find fst].
    + by rewrite String.eqb_refl.
    + destruct (List.find _ (List.filter _ m)) as [[y w]|] eqn:E; [|done].
      apply List.find_some in E as [[E _]%filter_In Hy]. cbn in Hy. apply String.eqb_eq in Hy as ->. destruct Hx.
      apply list_elem_of_fmap. exists (k, w). split; [done|]. by apply list_elem_of_In.
  - destruct (g v); cbn [List.find fst]; [|by apply IH].
    destruct (String.eqb_spec x k); [done|by apply IH].
Qed.

Lemma json_get_existsb k m :
  existsb (fun p => String.eqb (fst p) k) m = match json_get k (JObject m) with Some _ => true | None => false end.
Proof. cbn [json_get]. induction m as [|[x v] m IH]; [done|]. cbn. by destruct (x =? k). Qed.

(** The versions eligible first when [latest] must move. *)
Definition at_or_below (previous : option string) (v : string) : Prop :=
  match previous with Some latest => (version_compare v latest <= 0)%Z | None => True end.

(** Re-pointing [latest]: a [latest] whose target survived is untouched.
    Otherwise, over versions listed newest first, the new target is the newest
    surviving release at or below the old [latest] when there is one, else a
    newest surviving release when there is one, else a newest surviving
    version; and there is no [latest] only when nothing survived. *)
Theorem reconcile_latest (allowed : list string) (tags : list (string * Json))
    (Hsorted : sorted_by version_compare_desc allowed) (Hkeys : NoDup (fst <$> tags)) :
  let previous := json_get "latest" (JObject tags) ≫= json_as_str in
  let latest := json_get "latest" (JObject (reconcile_tags allowed tags)) in
  match previous with
  | Some v => v ∈ allowed -> latest = Some (JString v)
  | None => True
  end /\
  (match previous with Some v => v ∉ allowed | None => True end ->
   match latest with
   | None => allowed = []
   | Some j => exists w, j = JString w /\ w ∈ allowed /\
      let newest (ok : string -> Prop) := ok w /\ forall u, u ∈ allowed -> ok u -> (version_compare u w <= 0)%Z in
      let eligible u := is_release u = true /\ at_or_below previous u in
      ((exists u, u ∈ allowed /\ eligible u) -> newest eligible) /\
      (~ (exists u, u ∈ allowed /\ eligible u) -> (exists u, u ∈ allowed /\ is_release u = true) ->
         newest (fun u => is_release u = true)) /\
      (~ (exists u, u ∈ allowed /\ is_release u = true) -> newest (fun _ => True))
   end).
Proof.
  intros previous latest. unfold reconcile_tags in latest. fold previous in latest.
  set (g := fun j => match json_as_str j with Some v => one_of v allowed | None => false end).
  change (List.filter _ tags) with (List.filter (fun p => g (snd p)) tags) in latest.
  set (kept := List.filter (fun p => g (snd p)) tags) in latest.
  assert (Hkept : json_get "latest" (JObject kept) =
                  previous ≫= fun v => if one_of v allowed then Some (JString v) else None).
  { unfold kept. rewrite json_get_retain by done. unfold previous.
    destruct (json_get "latest" (JObject tags)) as [[]|]; done. }
  subst latest. rewrite json_get_existsb, Hkept. split.
  - destruct previous as [v|]; [|done]. intros Hv%one_of_true. cbn [mbind option_bind] in *.
    rewrite Hv in *. exact Hkept.
  - intros Hgone. assert (Hnone : previous ≫= (fun v => if one_of v allowed then Some (JString v) else None) = None).
    { destruct previous as [v|]; [|done]. cbn. destruct (one_of v allowed) eqn:E; [|done].
      by apply one_of_true in E. }
    rewrite Hnone in Hkept |- *. clear Hnone Hgone.
    set (below := fun v => match previous with Some latest => (version_compare v latest <=? 0)%Z | None => true end).
    assert (Hbelow : forall u, is_release u && below u = true <-> is_release u = true /\ at_or_below previous u).
    { intros u. rewrite andb_true_iff. unfold below, at_or_below. destruct previous; [by rewrite Z.leb_le|tauto]. }
    rewrite find_filter.
    destruct (List.find (fun x => is_release x && below x) allowed) as [w|] eqn:E1.
    { destruct (find_newest _ _ _ Hsorted E1) as (Hin & Hw & Hmax). unfold json_map_insert. cbn.
      exists w. split_and!; [done|done| | |].
      - intros _. split; [by apply Hbelow|]. intros u Hu Hu2. apply Hmax; [done|by apply Hbelow].
      - intros Hno _. destruct Hno. exists w. split; [done|by apply Hbelow].
      - intros Hno. destruct Hno. exists w. split; [done|]. by apply andb_prop in Hw as [Hw _]. }
    assert (Hno1 : ~ exists u, u ∈ allowed /\ is_release u = true /\ at_or_below previous u).
    { intros (u & Hu & Hr%Hbelow). apply list_elem_of_In in Hu. apply (List.find_none _ _ E1) in Hu. cbv beta in Hu. congruence. }
    destruct (List.find is_release allowed) as [w|] eqn:E2.
    { destruct (find_newest _ _ _ Hsorted E2) as (Hin & Hw & Hmax). unfold json_map_insert. cbn.
      exists w. split_and!; [done|done|done|done|]. intros Hno. destruct Hno. by exists w. }
    assert (Hno2 : ~ exists u, u ∈ allowed /\ is_release u = true).
    { intros (u & Hu & Hr). apply list_elem_of_In in Hu. apply (List.find_none _ _ E2) in Hu. congruence. }
    clearbody kept. destruct allowed as [|w l]; [cbn [head]; by rewrite Hkept|]. unfold json_map_insert. cbn -[reconcile_tags].
    exists w. split_and!; [done|left|done|done|]. intros _. split; [done|]. intros u Hu _.
    apply version_compare_desc_le. destruct Hsorted as [Hs _].
    apply elem_of_cons in Hu as [->|Hu]; [by rewrite (tp_refl version_compare_desc)|by apply Hs].
Qed.

Lemma reconcile_latest_witness :
  exists w, json_get "latest" (JObject (reconcile_tags ["2.0.0-rc.1"; "1.4.0"; "1.3.0"]
    [("latest", JString "2.0.0"); ("next", JString "2.0.0-rc.1")])) = Some (JString w) /\ w ∈ ["2.0.0-rc.1"; "1.4.0"; "1.3.0"].
Proof.
  assert (Hs : sorted_by version_compare_desc ["2.0.0-rc.1"; "1.4.0"; "1.3.0"]).
  { cbn [sorted_by]. split_and!; try done; intros y Hy; set_unfold in Hy;
      repeat (destruct Hy as [->|Hy]; [vm_compute; discriminate|]); destruct Hy. }
  assert (Hk : NoDup (fst <$> [("latest", JString "2.0.0"); ("next", JString "2.0.0-rc.1")])).
  { apply (bool_decide_eq_true_1 _). vm_compute. reflexivity. }
  destruct (reconcile_latest _ _ Hs Hk) as [_ H]. specialize (H ltac:(set_solver)). revert H.
  destruct (json_get "latest" (JObject (reconcile_tags _ _))) as [j|]; [|discriminate].
  intros (w & -> & Hw & _). exists w. split; [reflexivity|exact Hw].
Defined.
