(* ===== verification/AgeGate.v ===== *)
(** The package age gate ([services/age_gate_service.rs]): policy, the download
    decision, metadata listings, the review queue and its administrators, the
    background sweep and the first-seen clock.

    The tables are a record of finite maps and row lists; each SQL statement is
    one function on it, written from the statement's [WHERE], [SET] and
    [ON CONFLICT] clauses.  [NOW()] and [gen_random_uuid()] are arguments.  A
    handler that reads and later writes takes two databases, the one its
    [SELECT]s see and the one its [UPDATE] runs on: other transactions may
    commit in between, and a sequential run is the case where both are equal.
    Events, metrics and memo invalidation do not feed back and are left out. *)

From stdpp Require Import base list sets gmap strings.
From Stdlib Require Import ZArith Lia Ascii.
From S2P Require Import Prelude RustStr Chrono Repository Errors UpstreamUrl AgeVersions.

Local Open Scope string_scope.
Local Open Scope list_scope.

(** ** Data *)

Inductive AgeGateMode := UpstreamPublishTime | FirstSeen.

#[global] Instance AgeGateMode_eq_dec : EqDecision AgeGateMode.
Proof. solve_decision. Defined.

Definition mode_as_str (m : AgeGateMode) : string :=
  match m with UpstreamPublishTime => "upstream_publish_time" | FirstSeen => "first_seen" end.

Definition mode_parse (value : string) : result AppError AgeGateMode :=
  if value =? "upstream_publish_time" then Ok UpstreamPublishTime
  else if value =? "first_seen" then Ok FirstSeen
  else Err (Validation ("Unknown age gate mode '" +:+ value +:+
                        "': expected 'upstream_publish_time' or 'first_seen'")).

Record AgeGateRepoParams := {
  params_id : Uuid;
  key : string;
  repo_type : RepositoryType;
  format : RepositoryFormat;
  age_gate_enabled : bool;
  age_gate_min_age_days : Z;
  age_gate_mode : AgeGateMode;
  upstream_url : option string
}.

Inductive AgeGateReviewStatus := Pending | Approved | Rejected.

Definition status_as_str (s : AgeGateReviewStatus) : string :=
  match s with Pending => "pending" | Approved => "approved" | Rejected => "rejected" end.

Inductive ReviewIdentityMatch := Matches | Differs | Legacy.

#[global] Instance ReviewIdentityMatch_eq_dec : EqDecision ReviewIdentityMatch.
Proof. solve_decision. Defined.

Record ReviewPolicyView := {
  view_status : string;
  view_is_automatic : bool;
  view_identity : ReviewIdentityMatch
}.

Inductive AgeGateCheckAction :=
| ActAllow
| BlockRejected
| AllowAndAutoApprovePending
| AllowAlreadyApproved
| BlockAndRequestReview
| BlockAndResetReview.

Inductive AgeGateDecision :=
| DecisionAllow
| DecisionBlock (review_id : Uuid) (last_known_good : option LastKnownGood).

Inductive ActorTier := Instance_ | Repository_.

#[global] Instance ActorTier_eq_dec : EqDecision ActorTier.
Proof. solve_decision. Defined.

Record AgeGatePolicy := {
  enabled : bool;
  min_age_days : Z;
  mode : AgeGateMode
}.

Record PolicyWrite := {
  previous : AgeGatePolicy;
  was_locked : bool;
  now_locked : bool
}.

(** *** Rows *)

(** A row of [age_gate_reviews]. *)
Record Review := {
  id : Uuid;
  repository_id : Uuid;
  package_name : string;
  package_version : string;
  upstream_published_at : option DateTime;
  status : string;
  requested_at : DateTime;
  reviewed_by : option Uuid;
  reviewed_at : option DateTime;
  review_reason : option string;
  request_count : Z;
  last_requested_at : DateTime;
  basis_mode : option string;
  basis_upstream_fingerprint : option string;
  instance_locked : bool
}.

(** The age-gate columns of a row of [repositories]. *)
Record RepoRow := {
  row_key : string;
  row_repo_type : RepositoryType;
  row_format : RepositoryFormat;
  row_enabled : bool;
  row_min_age_days : Z;
  row_mode : string;
  row_upstream_url : option string;
  row_instance_locked : bool
}.

(** The columns of [artifacts] the last-known-good query reads. *)
Record ArtifactRow := {
  art_repository_id : Uuid;
  art_name : string;
  art_version : option string;
  art_path : string;
  art_is_deleted : bool
}.

(** The primary key of [age_gate_version_observations]. *)
Definition ObservationKey : Type := Uuid * string * string * string.

Record Db := {
  repositories : gmap Uuid RepoRow;
  reviews : list Review;
  artifacts : list ArtifactRow;
  observations : gmap ObservationKey DateTime
}.

Definition set_reviews (f : list Review -> list Review) (db : Db) : Db :=
  {| repositories := repositories db; reviews := f (reviews db); artifacts := artifacts db;
     observations := observations db |}.
Definition set_observations (f : gmap ObservationKey DateTime -> gmap ObservationKey DateTime) (db : Db) : Db :=
  {| repositories := repositories db; reviews := reviews db; artifacts := artifacts db;
     observations := f (observations db) |}.
Definition set_repositories (f : gmap Uuid RepoRow -> gmap Uuid RepoRow) (db : Db) : Db :=
  {| repositories := f (repositories db); reviews := reviews db; artifacts := artifacts db;
     observations := observations db |}.

(** [UPDATE age_gate_reviews SET f WHERE p], and [rows_affected]. *)
Definition update_reviews (p : Review -> bool) (f : Review -> Review) (db : Db) : Db :=
  set_reviews (fmap (fun r => if p r then f r else r)) db.
Definition rows_affected (p : Review -> bool) (db : Db) : nat := length (List.filter p (reviews db)).

(** The foreign keys of the tables (migrations 004, 146 and 191): a deleted user
    is taken off the reviews that name it, a deleted repository takes its
    reviews, observations and artifacts with it. *)
Definition clear_reviewer (r : Review) : Review :=
  {| id := id r; repository_id := repository_id r; package_name := package_name r;
     package_version := package_version r; upstream_published_at := upstream_published_at r;
     status := status r; requested_at := requested_at r; reviewed_by := None; reviewed_at := reviewed_at r;
     review_reason := review_reason r; request_count := request_count r; last_requested_at := last_requested_at r;
     basis_mode := basis_mode r; basis_upstream_fingerprint := basis_upstream_fingerprint r;
     instance_locked := instance_locked r |}.
Definition delete_user (u : Uuid) (db : Db) : Db :=
  update_reviews (fun r => bool_decide (reviewed_by r = Some u)) clear_reviewer db.
Definition delete_repository (repo : Uuid) (db : Db) : Db :=
  {| repositories := base.delete repo (repositories db);
     reviews := List.filter (fun r => negb (bool_decide (repository_id r = repo))) (reviews db);
     artifacts := List.filter (fun a => negb (bool_decide (art_repository_id a = repo))) (artifacts db);
     observations := base.filter (fun kt => kt.1.1.1.1 <> repo) (observations db) |}.

Definition has_id (i : Uuid) (r : Review) : bool := bool_decide (id r = i).
Definition has_key (repo : Uuid) (name version : string) (r : Review) : bool :=
  bool_decide (repository_id r = repo) && (package_name r =? name) && (package_version r =? version).
Definition has_status (s : AgeGateReviewStatus) (r : Review) : bool := status r =? status_as_str s.

(** [SET] of the columns a decision touches. *)
Definition set_decision (s : AgeGateReviewStatus) (by_ : option Uuid) (at_ : option DateTime)
  (reason : option string) (r : Review) : Review :=
  {| id := id r; repository_id := repository_id r; package_name := package_name r;
     package_version := package_version r; upstream_published_at := upstream_published_at r;
     status := status_as_str s; requested_at := requested_at r; reviewed_by := by_; reviewed_at := at_;
     review_reason := reason; request_count := request_count r; last_requested_at := last_requested_at r;
     basis_mode := basis_mode r; basis_upstream_fingerprint := basis_upstream_fingerprint r;
     instance_locked := instance_locked r |}.
Definition set_basis (published : option DateTime) (m fp : option string) (r : Review) : Review :=
  {| id := id r; repository_id := repository_id r; package_name := package_name r;
     package_version := package_version r; upstream_published_at := published;
     status := status r; requested_at := requested_at r; reviewed_by := reviewed_by r;
     reviewed_at := reviewed_at r; review_reason := review_reason r; request_count := request_count r;
     last_requested_at := last_requested_at r; basis_mode := m; basis_upstream_fingerprint := fp;
     instance_locked := instance_locked r |}.
Definition set_lock (b : bool) (r : Review) : Review :=
  {| id := id r; repository_id := repository_id r; package_name := package_name r;
     package_version := package_version r; upstream_published_at := upstream_published_at r;
     status := status r; requested_at := requested_at r; reviewed_by := reviewed_by r;
     reviewed_at := reviewed_at r; review_reason := review_reason r; request_count := request_count r;
     last_requested_at := last_requested_at r; basis_mode := basis_mode r;
     basis_upstream_fingerprint := basis_upstream_fingerprint r; instance_locked := b |}.
Definition bump_request (now : DateTime) (r : Review) : Review :=
  {| id := id r; repository_id := repository_id r; package_name := package_name r;
     package_version := package_version r; upstream_published_at := upstream_published_at r;
     status := status r; requested_at := requested_at r; reviewed_by := reviewed_by r;
     reviewed_at := reviewed_at r; review_reason := review_reason r; request_count := request_count r + 1;
     last_requested_at := now; basis_mode := basis_mode r;
     basis_upstream_fingerprint := basis_upstream_fingerprint r; instance_locked := instance_locked r |}.

(** ** Pure policy *)

Definition AUTO_APPROVE_REASON : string := "auto-approved: crossed age threshold".
Definition REQUEST_COUNT_DEBOUNCE_SECS : Z := 3600.

Definition review_identity_match (basis_mode basis_fingerprint : option string)
  (current_mode : AgeGateMode) (current_fingerprint : string) : ReviewIdentityMatch :=
  match basis_mode, basis_fingerprint with
  | None, None => Legacy
  | Some m, Some fp =>
      if (m =? mode_as_str current_mode) && (fp =? current_fingerprint) then Matches else Differs
  | _, _ => Differs
  end.

Definition decide_age_gate_check (existing : option ReviewPolicyView) (meets_threshold : bool) :
  AgeGateCheckAction :=
  let status_is s :=
    match existing with Some r => view_status r =? status_as_str s | None => false end in
  if status_is Rejected then BlockRejected
  else if meets_threshold then
    if status_is Pending then AllowAndAutoApprovePending else ActAllow
  else
    match existing with
    | Some review =>
        if view_status review =? status_as_str Approved then
          if negb (view_is_automatic review) && negb (bool_decide (view_identity review = Differs))
          then AllowAlreadyApproved else BlockAndResetReview
        else BlockAndRequestReview
    | None => BlockAndRequestReview
    end.

Definition validate_min_age_days (days : Z) : result AppError unit :=
  if (0 <=? days)%Z && (days <=? 3650)%Z then Ok tt
  else Err (Validation "min_age_days must be between 0 and 3650").

Definition require_distinct_status (current : string) (target : AgeGateReviewStatus) : result AppError unit :=
  if current =? status_as_str target then Err (Validation ("Review is already " +:+ status_as_str target))
  else Ok tt.

Definition actor_tier_of (is_instance_admin : bool) : ActorTier :=
  if is_instance_admin then Instance_ else Repository_.

Definition is_instance (t : ActorTier) : bool := match t with Instance_ => true | Repository_ => false end.

Definition require_may_relax_review (tier : ActorTier) (instance_locked : bool) : result AppError unit :=
  if instance_locked && bool_decide (tier = Repository_)
  then Err (Authorization "This review was decided by an instance administrator. A repository administrator can reject it, but only an instance administrator can approve or reopen it.")
  else Ok tt.

Definition is_relaxed_by (p next : AgeGatePolicy) : bool :=
  enabled p &&
  (negb (enabled next) || (min_age_days next <? min_age_days p)%Z || negb (bool_decide (mode next = mode p))).

Definition supports_format_mode (f : RepositoryFormat) (m : AgeGateMode) : bool :=
  match age_gate_spec f with
  | Some spec =>
      match m with
      | FirstSeen => immutable_coordinates spec
      | UpstreamPublishTime => publish_time_resolver spec
      end
  | None => false
  end.

Definition normalize_format (f : RepositoryFormat) : RepositoryFormat :=
  match age_gate_spec f with Some spec => canonical spec | None => f end.

Definition gating_requested (repo : AgeGateRepoParams) : bool :=
  match repo_type repo with Remote => age_gate_enabled repo | _ => false end.

Definition require_enforceable (repo : AgeGateRepoParams) : result AppError unit :=
  if supports_format_mode (format repo) (age_gate_mode repo) then Ok tt
  else Err (Internal ("age gate is enabled for repository '" +:+ key repo +:+ "' but cannot be enforced for format " +:+
                      format_debug (format repo) +:+ " in '" +:+ mode_as_str (age_gate_mode repo) +:+
                      "' mode; failing closed")).

Definition is_applicable (repo : AgeGateRepoParams) : bool :=
  gating_requested repo && supports_format_mode (format repo) (age_gate_mode repo).

Definition format_label (f : RepositoryFormat) : string :=
  match age_gate_spec f with Some spec => label spec | None => "other" end.

Section Clock.
Context `{Chrono}.
Local Open Scope Z_scope.

Definition package_age_days (published_at now : DateTime) : Z := Z.max (num_days (now - published_at)) 0.

Definition meets_age_threshold (published_at : option DateTime) (min_age_days : Z) (now : DateTime) : bool :=
  match published_at with
  | Some ts => min_age_days <=? package_age_days ts now
  | None => false
  end.
End Clock.

(** ** Reads *)

Section Gate.
Context `{Chrono} `{UrlCrates}.

Definition get_review (db : Db) (repo : Uuid) (name version : string) : option Review :=
  List.find (has_key repo name version) (reviews db).

(** The inner join with [repositories]. *)
Definition get_review_by_id (db : Db) (i : Uuid) : result AppError Review :=
  match List.find (has_id i) (reviews db) with
  | Some r =>
      match repositories db !! repository_id r with
      | Some _ => Ok r
      | None => Err (NotFound "Age gate review not found")
      end
  | None => Err (NotFound "Age gate review not found")
  end.

Definition resolve_repo_params (db : Db) (i : Uuid) : result AppError AgeGateRepoParams :=
  match repositories db !! i with
  | None => Err (NotFound ("Repository " +:+ uuid_display i +:+ " not found for age-gate resolution"))
  | Some row =>
      match mode_parse (row_mode row) with
      | Err e => Err e
      | Ok m =>
          Ok {| params_id := i; key := row_key row; repo_type := row_repo_type row;
                format := normalize_format (row_format row); age_gate_enabled := row_enabled row;
                age_gate_min_age_days := row_min_age_days row; age_gate_mode := m;
                upstream_url := row_upstream_url row |}
      end
  end.

Definition view_of (r : Review) (m : AgeGateMode) (fp : string) : ReviewPolicyView :=
  {| view_status := status r;
     view_is_automatic := match reviewed_by r with None => true | Some _ => false end;
     view_identity := review_identity_match (basis_mode r) (basis_upstream_fingerprint r) m fp |}.

Definition find_last_known_good (db : Db) (repo : Uuid) (name exclude_version : string) : option LastKnownGood :=
  select_newest_approved_artifact
    (omap (fun a =>
       version ← art_version a;
       if bool_decide (art_repository_id a = repo) && negb (art_is_deleted a) &&
          negb (version =? exclude_version) && (to_lowercase (art_name a) =? to_lowercase name) &&
          match get_review db repo name version with
          | None => true
          | Some r => has_status Approved r
          end
       then Some (version, art_path a) else None) (artifacts db)).

(** ** Writes of the request path *)

(** [IS DISTINCT FROM] against the non-null identity of the request. *)
Definition identity_differs (m : AgeGateMode) (fp : string) (r : Review) : bool :=
  negb (bool_decide (basis_mode r = Some (mode_as_str m))) ||
  negb (bool_decide (basis_upstream_fingerprint r = Some fp)).

Definition stale_automatic (r : Review) : bool :=
  match reviewed_by r with None => has_status Approved r | Some _ => false end.

(** The [DO UPDATE SET] the single and the batch upsert share. *)
Definition on_conflict (now : DateTime) (published_at : option DateTime) (m : AgeGateMode) (fp : string)
  (r : Review) : Review :=
  let differs := identity_differs m fp r in
  let published :=
    if differs then published_at
    else match published_at with Some t => Some t | None => upstream_published_at r end in
  let r' := bump_request now (set_basis published (Some (mode_as_str m)) (Some fp) r) in
  if has_status Rejected r then r'
  else if differs || stale_automatic r
  then set_decision Pending None (reviewed_at r) (review_reason r) r'
  else r'.

(** The row an insert makes; the other columns take their defaults. *)
Definition new_review (now : DateTime) (new_id repo : Uuid) (name version : string)
  (published_at : option DateTime) (m : AgeGateMode) (fp : string) : Review :=
  {| id := new_id; repository_id := repo; package_name := name; package_version := version;
     upstream_published_at := published_at; status := "pending"; requested_at := now;
     reviewed_by := None; reviewed_at := None; review_reason := None; request_count := 1;
     last_requested_at := now; basis_mode := Some (mode_as_str m); basis_upstream_fingerprint := Some fp;
     instance_locked := false |}.

Definition request_review (db : Db) (now : DateTime) (new_id : Uuid) (repo : AgeGateRepoParams)
  (name version : string) (published_at : option DateTime) (fp : string) : Uuid * Db :=
  match get_review db (params_id repo) name version with
  | Some r =>
      (id r, update_reviews (has_key (params_id repo) name version)
               (on_conflict now published_at (age_gate_mode repo) fp) db)
  | None =>
      (new_id, set_reviews (fun l => l ++ [new_review now new_id (params_id repo) name version published_at
                                             (age_gate_mode repo) fp]) db)
  end.

Definition reset_review_to_pending (db : Db) (now : DateTime) (review_id : Uuid)
  (published_at : option DateTime) (m : AgeGateMode) (fp : string) : Uuid * Db :=
  (review_id,
   update_reviews (has_id review_id)
     (fun r => bump_request now (set_basis published_at (Some (mode_as_str m)) (Some fp)
                                   (set_decision Pending None None None r))) db).

Definition auto_approve (db : Db) (now : DateTime) (review_id : Uuid) (m : AgeGateMode) (fp : string) : Db :=
  update_reviews (fun r => has_id review_id r && has_status Pending r)
    (fun r => set_basis (upstream_published_at r) (Some (mode_as_str m)) (Some fp)
                (set_decision Approved None (Some now) (Some AUTO_APPROVE_REASON) r)) db.

(** The download decision; [read] is the database at [get_review], [write]
    the one its statement runs on. *)
Definition check (read write : Db) (now : DateTime) (new_id : Uuid) (repo : AgeGateRepoParams)
  (name version : string) (published_at : option DateTime) : result AppError (AgeGateDecision * Db) :=
  if negb (gating_requested repo) then Ok (DecisionAllow, write)
  else
    match require_enforceable repo with
    | Err e => Err e
    | Ok _ =>
        let fp := upstream_fingerprint (upstream_url repo) in
        let existing := get_review read (params_id repo) name version in
        let view := (fun r => view_of r (age_gate_mode repo) fp) <$> existing in
        let meets := meets_age_threshold published_at (age_gate_min_age_days repo) now in
        let lkg db := find_last_known_good db (params_id repo) name version in
        let existing_id := match existing with Some r => id r | None => new_id end in
        match decide_age_gate_check view meets with
        | ActAllow | AllowAlreadyApproved => Ok (DecisionAllow, write)
        | AllowAndAutoApprovePending =>
            Ok (DecisionAllow, auto_approve write now existing_id (age_gate_mode repo) fp)
        | BlockRejected => Ok (DecisionBlock existing_id (lkg write), write)
        | BlockAndResetReview =>
            let '(review_id, db) :=
              reset_review_to_pending write now existing_id published_at (age_gate_mode repo) fp in
            Ok (DecisionBlock review_id (lkg db), db)
        | BlockAndRequestReview =>
            let '(review_id, db) := request_review write now new_id repo name version published_at fp in
            Ok (DecisionBlock review_id (lkg db), db)
        end
    end.

(** ** The first-seen clock *)

Definition obs_key (repo : AgeGateRepoParams) (name version : string) : ObservationKey :=
  (params_id repo, upstream_fingerprint (upstream_url repo), name, version).

(** [INSERT ... ON CONFLICT DO NOTHING], then the times read back. *)
Definition observe_versions_first_seen (db : Db) (now : DateTime) (repo : AgeGateRepoParams)
  (name : string) (versions : list string) : (string -> option DateTime) * Db :=
  let db := set_observations (fun m =>
    foldl (fun m v => match m !! obs_key repo name v with
                      | Some _ => m
                      | None => <[obs_key repo name v := now]> m
                      end) m versions) db in
  (fun v => if one_of v versions then observations db !! obs_key repo name v else None, db).

Definition lookup_first_seen (db : Db) (repo : AgeGateRepoParams) (name version : string) : option DateTime :=
  observations db !! obs_key repo name version.

Definition observe_first_seen (db : Db) (now : DateTime) (repo : AgeGateRepoParams) (name version : string) :
  option DateTime * Db :=
  let '(observed, db) := observe_versions_first_seen db now repo name [version] in
  (observed version, db).

Definition download_basis (db : Db) (now : DateTime) (repo : AgeGateRepoParams) (name version : string)
  (upstream_published_at : option DateTime) (version_exists_upstream : bool) : option DateTime * Db :=
  match age_gate_mode repo with
  | UpstreamPublishTime => (upstream_published_at, db)
  | FirstSeen =>
      match lookup_first_seen db repo name version with
      | Some seen => (Some seen, db)
      | None =>
          if version_exists_upstream then observe_first_seen db now repo name version else (None, db)
      end
  end.

Definition listing_basis_times (db : Db) (now : DateTime) (repo : AgeGateRepoParams) (name : string)
  (versions : list (string * option DateTime)) : list (string * option DateTime) * Db :=
  match age_gate_mode repo with
  | UpstreamPublishTime => (versions, db)
  | FirstSeen =>
      let '(observed, db) := observe_versions_first_seen db now repo name (fst <$> versions) in
      ((fun p => (fst p, observed (fst p))) <$> versions, db)
  end.

(** [INSERT ... SELECT ... ON CONFLICT DO UPDATE SET first_seen_at = LEAST(..)],
    [DELETE], and the update of the reviews. *)
Definition rekey_legacy_fingerprint (db : Db) (repo_id : Uuid) (url : option string) : Db :=
  match legacy_upstream_fingerprint url with
  | None => db
  | Some legacy =>
      let current := upstream_fingerprint url in
      let is_legacy (k : ObservationKey) :=
        let '(r, fp, _, _) := k in bool_decide (r = repo_id) && (fp =? legacy) in
      let moved (k : ObservationKey) : ObservationKey := let '(r, _, n, v) := k in (r, current, n, v) in
      let merge m := map_fold (fun k t (m : gmap ObservationKey DateTime) =>
        if is_legacy k then
          <[moved k := match m !! moved k with Some t' => Z.min t' t | None => t end]> m
        else m) m m in
      let db := set_observations (fun m => filter (fun p => is_legacy (fst p) = false) (merge m)) db in
      update_reviews
        (fun r => bool_decide (repository_id r = repo_id) &&
                  bool_decide (basis_upstream_fingerprint r = Some legacy))
        (fun r => set_basis (upstream_published_at r) (basis_mode r) (Some current) r) db
  end.

(** ** Metadata listings *)

Definition get_reviews_for_package (db : Db) (repo : Uuid) (name : string) (version : string) : option Review :=
  List.find (fun r => (package_version r =? version)) 
    (List.filter (fun r => bool_decide (repository_id r = repo) && (package_name r =? name)) (reviews db)).

Record MetadataListingClassification := {
  blocked : list string;
  request_versions : list (string * option DateTime)
}.

Fixpoint classify_versions_for_metadata_listing (versions : list (string * option DateTime))
  (existing_reviews : string -> option Review) (min_age_days : Z) (m : AgeGateMode) (fp : string)
  (now : DateTime) : MetadataListingClassification :=
  match versions with
  | [] => {| blocked := []; request_versions := [] |}
  | (version, published_at) :: rest =>
      let out := classify_versions_for_metadata_listing rest existing_reviews min_age_days m fp now in
      let existing_review := existing_reviews version in
      if match existing_review with Some r => has_status Rejected r | None => false end
      then {| blocked := version :: blocked out; request_versions := request_versions out |}
      else if meets_age_threshold published_at min_age_days now then out
      else if match existing_review with
              | Some r =>
                  has_status Approved r && match reviewed_by r with Some _ => true | None => false end &&
                  negb (bool_decide (review_identity_match (basis_mode r) (basis_upstream_fingerprint r) m fp
                                     = Differs))
              | None => false
              end
      then out
      else {| blocked := version :: blocked out;
              request_versions := (version, published_at) :: request_versions out |}
  end.

(** One row of the batch upsert; the versions of a listing are distinct. *)
Definition request_one (now : DateTime) (new_id : string -> Uuid) (repo : AgeGateRepoParams) (name fp : string)
  (db : Db) (request : string * option DateTime) : Db :=
  let '(version, published_at) := request in
  let stale_before := (now - REQUEST_COUNT_DEBOUNCE_SECS * NANOS_PER_SEC)%Z in
  let due r :=
    (last_requested_at r <? stale_before)%Z || identity_differs (age_gate_mode repo) fp r || stale_automatic r in
  match get_review db (params_id repo) name version with
  | Some _ =>
      update_reviews (fun r => has_key (params_id repo) name version r && due r)
        (on_conflict now published_at (age_gate_mode repo) fp) db
  | None =>
      set_reviews (fun l => l ++ [new_review now (new_id version) (params_id repo) name version published_at
                                    (age_gate_mode repo) fp]) db
  end.

Definition request_reviews_batch (db : Db) (now : DateTime) (new_id : string -> Uuid) (repo : AgeGateRepoParams)
  (name : string) (requests : list (string * option DateTime)) (fp : string) : Db :=
  foldl (request_one now new_id repo name fp) db requests.

Definition evaluate_versions_batch (read write : Db) (now : DateTime) (new_id : string -> Uuid)
  (repo : AgeGateRepoParams) (name : string) (versions : list (string * option DateTime)) :
  result AppError (list string * Db) :=
  if negb (gating_requested repo) || match versions with [] => true | _ => false end then Ok ([], write)
  else
    match require_enforceable repo with
    | Err e => Err e
    | Ok _ =>
        let fp := upstream_fingerprint (upstream_url repo) in
        let existing := get_reviews_for_package read (params_id repo) name in
        let '(versions, write) := listing_basis_times write now repo name versions in
        let c := classify_versions_for_metadata_listing versions existing (age_gate_min_age_days repo)
                   (age_gate_mode repo) fp now in
        Ok (blocked c, request_reviews_batch write now new_id repo name (request_versions c) fp)
    end.
End Gate.

(** ** Administrators

    [read] is the database at the handler's [SELECT]s, [write] the one its
    compare-and-set runs on. *)

Section Admin.
Context `{Chrono} `{UrlCrates}.

Definition changed_concurrently : AppError := Conflict "Age gate review changed concurrently; retry".

(** [UPDATE .. WHERE id = $1 AND status = $n AND guard], [rows_affected() != 1]
    and the final read. *)
Definition compare_and_set (write : Db) (i : Uuid) (expected : string) (guard : Review -> bool)
  (f : Review -> Review) : result AppError (Review * Db) :=
  let p r := has_id i r && (status r =? expected) && guard r in
  if negb (Nat.eqb (rows_affected p write) 1) then Err changed_concurrently
  else
    let db := update_reviews p f write in
    match get_review_by_id db i with Ok r => Ok (r, db) | Err e => Err e end.

Definition may_write (tier : ActorTier) (r : Review) : bool := is_instance tier || negb (instance_locked r).

Definition decide_review (s : AgeGateReviewStatus) (now : DateTime) (reviewer : Uuid) (reason : option string)
  (m : AgeGateMode) (fp : string) (tier : ActorTier) (r : Review) : Review :=
  set_lock (instance_locked r || is_instance tier)
    (set_basis (upstream_published_at r) (Some (mode_as_str m)) (Some fp)
       (set_decision s (Some reviewer) (Some now) reason r)).

Definition approve_as (read write : Db) (now : DateTime) (i reviewer : Uuid) (tier : ActorTier)
  (reason : option string) : result AppError (Review * Db) :=
  (let? review := get_review_by_id read i in
   let? _ := require_may_relax_review tier (instance_locked review) in
   let? _ := require_distinct_status (status review) Approved in
   let? params := resolve_repo_params read (repository_id review) in
   compare_and_set write i (status review) (may_write tier)
     (decide_review Approved now reviewer reason (age_gate_mode params)
        (upstream_fingerprint (upstream_url params)) tier))%res.

Definition reject_as (read write : Db) (now : DateTime) (i reviewer : Uuid) (tier : ActorTier)
  (reason : option string) : result AppError (Review * Db) :=
  (let? review := get_review_by_id read i in
   let? _ := require_distinct_status (status review) Rejected in
   let? params := resolve_repo_params read (repository_id review) in
   compare_and_set write i (status review) (fun _ => true)
     (decide_review Rejected now reviewer reason (age_gate_mode params)
        (upstream_fingerprint (upstream_url params)) tier))%res.

Definition reopen_as (read write : Db) (now : DateTime) (i reviewer : Uuid) (tier : ActorTier)
  (reason : option string) : result AppError (string * Review * Db) :=
  (let? review := get_review_by_id read i in
   let? _ := require_may_relax_review tier (instance_locked review) in
   let? _ := require_distinct_status (status review) Pending in
   let? (updated, db) := compare_and_set write i (status review) (may_write tier)
     (fun r => set_lock (instance_locked r && negb (is_instance tier))
                 (set_decision Pending (Some reviewer) (Some now) reason r)) in
   Ok (status review, updated, db))%res.

(** Under the [FOR UPDATE] lock read and write see the same row. *)
Definition update_repo_config_as (db : Db) (repo_id : Uuid) (next : AgeGatePolicy) (tier : ActorTier)
  (lock : option bool) : result AppError (PolicyWrite * Db) :=
  if bool_decide (tier = Repository_) && match lock with Some _ => true | None => false end
  then Err (Authorization "Only an instance administrator can lock an age-gate policy or hand it back to the repository's administrators.")
  else
    (let? _ := validate_min_age_days (min_age_days next) in
     let? row := ok_or (repositories db !! repo_id) (NotFound ("Repository " +:+ uuid_display repo_id +:+ " not found")) in
     let? current_mode := mode_parse (row_mode row) in
     let current := {| enabled := row_enabled row; min_age_days := row_min_age_days row; mode := current_mode |} in
     let locked := row_instance_locked row in
     let now_locked := match tier with Instance_ => default true lock | Repository_ => locked end in
     if locked && bool_decide (tier = Repository_) && is_relaxed_by current next
     then Err (Authorization "This repository's age gate was set by an instance administrator. A repository administrator can tighten it, but only an instance administrator can disable it, lower its minimum age, or change its mode.")
     else
       let row' :=
         {| row_key := row_key row; row_repo_type := row_repo_type row; row_format := row_format row;
            row_enabled := enabled next; row_min_age_days := min_age_days next;
            row_mode := mode_as_str (mode next); row_upstream_url := row_upstream_url row;
            row_instance_locked := now_locked |} in
       let db := set_repositories (fun m => <[repo_id := row']> m) db in
       let db :=
         if bool_decide (mode current = mode next) then db
         else update_reviews (fun r => bool_decide (repository_id r = repo_id) && has_status Pending r)
                (set_basis None None None) db in
       Ok ({| previous := current; was_locked := locked; now_locked := now_locked |}, db))%res.

(** *** The background sweep *)

(** The [WHERE] clause, one repository at a time; an interval of days is
    that many times twenty-four hours. *)
Definition sweep_predicate (now : DateTime) (repo_id : Uuid) (days : Z) (m : AgeGateMode) (fp : string)
  (r : Review) : bool :=
  bool_decide (repository_id r = repo_id) && has_status Pending r &&
  match upstream_published_at r with
  | Some ts => (days * NANOS_PER_DAY <=? now - ts)%Z
  | None => false
  end &&
  (match basis_mode r, basis_upstream_fingerprint r with
   | Some bm, Some bfp => (bm =? mode_as_str m) && (bfp =? fp)
   | None, None => bool_decide (m = UpstreamPublishTime)
   | _, _ => false
   end).

(** A statement that ran stays committed when a later repository fails. *)
Fixpoint sweep_repos (now : DateTime) (repos : list (Uuid * RepoRow)) (db : Db) : Db * result AppError unit :=
  match repos with
  | [] => (db, Ok tt)
  | (repo_id, row) :: rest =>
      match mode_parse (row_mode row) with
      | Err e => (db, Err e)
      | Ok m =>
          let fp := upstream_fingerprint (row_upstream_url row) in
          sweep_repos now rest
            (update_reviews (sweep_predicate now repo_id (row_min_age_days row) m fp)
               (set_decision Approved None (Some now) (Some AUTO_APPROVE_REASON)) db)
      end
  end.

Definition auto_approve_aged_reviews (read write : Db) (now : DateTime) : Db * result AppError unit :=
  sweep_repos now (List.filter (fun p => row_enabled (snd p)) (map_to_list (repositories read))) write.
End Admin.

(** ** Laws of the statements *)

Lemma find_update (q p : Review -> bool) (f : Review -> Review) l :
  (forall r, q (f r) = q r) ->
  List.find q ((fun r => if p r then f r else r) <$> l) = (fun r => if p r then f r else r) <$> List.find q l.
Proof.
  intros Hq. induction l as [|r l IH]; [done|]. cbn [fmap list_fmap List.find].
  assert (Hqr : q (if p r then f r else r) = q r) by (destruct (p r); auto).
  rewrite Hqr. by destruct (q r).
Qed.

Lemma find_app_first {A} (f : A -> bool) l k :
  List.find f (l ++ k) = match List.find f l with Some x => Some x | None => List.find f k end.
Proof. induction l as [|x l IH]; [done|]. cbn. by destruct (f x). Qed.

Lemma elem_of_update (p : Review -> bool) (f : Review -> Review) db r :
  r ∈ reviews (update_reviews p f db) <->
  exists r0, r0 ∈ reviews db /\ r = if p r0 then f r0 else r0.
Proof. unfold update_reviews, set_reviews; cbn. rewrite list_elem_of_fmap. naive_solver. Qed.

Section Statements.
Context `{Chrono} `{UrlCrates}.

Lemma get_review_update db repo name version p f :
  (forall r, has_key repo name version (f r) = has_key repo name version r) ->
  get_review (update_reviews p f db) repo name version =
    (fun r => if p r then f r else r) <$> get_review db repo name version.
Proof. apply find_update. Qed.

Lemma get_reviews_for_package_eq db repo name version :
  get_reviews_for_package db repo name version = get_review db repo name version.
Proof.
  unfold get_reviews_for_package, get_review. rewrite find_filter. f_equal.
Qed.

(** What decides a version: the row's view and the age. *)
Definition action_for (db : Db) (repo : Uuid) (name version : string) (published_at : option DateTime)
  (days : Z) (m : AgeGateMode) (fp : string) (now : DateTime) : AgeGateCheckAction :=
  decide_age_gate_check ((fun r => view_of r m fp) <$> get_review db repo name version)
    (meets_age_threshold published_at days now).

Lemma classify_blocked versions existing days m fp now v :
  v ∈ blocked (classify_versions_for_metadata_listing versions existing days m fp now) -> v ∈ (fst <$> versions).
Proof.
  induction versions as [|[w t] versions IH]; cbn; [by intros ?%elem_of_nil|].
  repeat case_first; cbn; rewrite ?elem_of_cons; naive_solver.
Qed.

Lemma classify_requested versions existing days m fp now p :
  p ∈ request_versions (classify_versions_for_metadata_listing versions existing days m fp now) -> p ∈ versions.
Proof.
  induction versions as [|[w t] versions IH]; cbn; [by intros ?%elem_of_nil|].
  repeat case_first; cbn; rewrite ?elem_of_cons; naive_solver.
Qed.
End Statements.

(** A version withheld from a metadata listing is exactly one the download
    path refuses, under the same rows, clock and policy; and the versions a
    listing (re-)queues for review are exactly those the download path would
    queue or void back to pending. *)
Theorem listing_agrees_with_download `{Chrono} `{UrlCrates} (db : Db) (repo : Uuid) (name : string)
    (versions : list (string * option DateTime)) (days : Z) (m : AgeGateMode) (fp : string) (now : DateTime)
    (v : string) (t : option DateTime)
    (Hdistinct : NoDup (fst <$> versions)) (Hin : (v, t) ∈ versions) :
  let c := classify_versions_for_metadata_listing versions (get_reviews_for_package db repo name) days m fp now in
  let action := action_for db repo name v t days m fp now in
  (v ∈ blocked c <-> action = BlockRejected \/ action = BlockAndRequestReview \/ action = BlockAndResetReview) /\
  ((v, t) ∈ request_versions c <-> action = BlockAndRequestReview \/ action = BlockAndResetReview).
Proof.
  intros c action. subst c action. revert Hdistinct Hin. induction versions as [|[w s] versions IH]; intros Hd Hin.
  - by apply elem_of_nil in Hin.
  - cbn [fmap list_fmap fst] in Hd. apply NoDup_cons in Hd as [Hw Hd].
    cbn [classify_versions_for_metadata_listing]. rewrite get_reviews_for_package_eq.
    set (out := classify_versions_for_metadata_listing versions _ _ _ _ _) in *.
    apply elem_of_cons in Hin as [[= <- <-]|Hin].
    + clear IH. assert (Hb : v ∉ blocked out) by (by intros ?%classify_blocked).
      assert (Hr : (v, t) ∉ request_versions out).
      { intros Hv%classify_requested. destruct Hw. apply list_elem_of_fmap. by exists (v, t). }
      unfold action_for, decide_age_gate_check.
      destruct (get_review db repo name v) as [r|]; cbn [fmap option_fmap option_map view_of view_status
        view_is_automatic view_identity].
      * fold (has_status Rejected r) (has_status Pending r) (has_status Approved r).
        destruct (has_status Rejected r); [cbn; set_solver|].
        destruct (meets_age_threshold t days now); [destruct (has_status Pending r); set_solver|].
        destruct (has_status Approved r); [|cbn; set_solver].
        destruct (reviewed_by r); cbn [negb andb]; [|cbn; set_solver].
        destruct (bool_decide _); cbn; set_solver.
      * destruct (meets_age_threshold t days now); cbn; set_solver.
    + assert (Hne : v <> w).
      { intros ->. destruct Hw. apply list_elem_of_fmap. by exists (w, t). }
      specialize (IH Hd Hin). repeat case_first; cbn [blocked request_versions];
        rewrite ?(elem_of_cons _ v), ?(elem_of_cons _ (v, t)); destruct IH as [IH1 IH2]; rewrite IH1, IH2;
        naive_solver.
Qed.

Definition sample_review : Review :=
  {| id := 5%N; repository_id := 1%N; package_name := "left-pad"; package_version := "1.3.0";
     upstream_published_at := Some 0%Z; status := "approved"; requested_at := 0%Z; reviewed_by := None;
     reviewed_at := None; review_reason := None; request_count := 1%Z; last_requested_at := 0%Z;
     basis_mode := Some "first_seen"; basis_upstream_fingerprint := Some "npm"; instance_locked := false |}.

Definition sample_db : Db :=
  {| repositories := {[ 1%N := {| row_key := "npm"; row_repo_type := Remote; row_format := Npm;
       row_enabled := true; row_min_age_days := 7; row_mode := "first_seen"; row_upstream_url := Some "npm";
       row_instance_locked := true |} ]};
     reviews := [sample_review]; artifacts := []; observations := ∅ |}.

Lemma listing_agrees_with_download_witness :
  "1.3.0" ∈ blocked (@classify_versions_for_metadata_listing reference_chrono [("1.3.0", None); ("1.2.0", None)]
    (get_reviews_for_package sample_db 1%N "left-pad") 7 FirstSeen "npm" 0%Z).
Proof.
  refine (proj2 (proj1 (@listing_agrees_with_download reference_chrono identity_crates sample_db 1%N "left-pad"
    [("1.3.0", None); ("1.2.0", None)] 7 FirstSeen "npm" 0%Z "1.3.0" None _ _)) _).
  - apply (bool_decide_eq_true_1 _). vm_compute. reflexivity.
  - left.
  - right. right. vm_compute. reflexivity.
Defined.

(** ** The download decision *)

Section Decision.
Context `{Chrono} `{UrlCrates}.

(** A manual approval the current policy honours. *)
Definition standing_approval (r : Review) (m : AgeGateMode) (fp : string) : Prop :=
  status r = "approved" /\ reviewed_by r <> None /\
  review_identity_match (basis_mode r) (basis_upstream_fingerprint r) m fp <> Differs.

Lemma has_status_spec s r : has_status s r = true <-> status r = status_as_str s.
Proof. apply String.eqb_eq. Qed.

(** The action allows exactly on age, or on a standing approval, and never
    over a rejection. *)
Lemma action_allows db repo name version published days m fp now :
  let existing := get_review db repo name version in
  let allows := match action_for db repo name version published days m fp now with
                | ActAllow | AllowAlreadyApproved | AllowAndAutoApprovePending => True
                | _ => False
                end in
  allows <->
  (forall r, existing = Some r -> status r <> "rejected") /\
  (meets_age_threshold published days now = true \/
   exists r, existing = Some r /\ standing_approval r m fp).
Proof.
  intros existing allows. subst allows. unfold action_for, decide_age_gate_check, standing_approval. fold existing.
  destruct existing as [r|]; cbn [fmap option_fmap option_map view_of view_status view_is_automatic view_identity].
  - destruct (String.eqb_spec (status r) (status_as_str Rejected)) as [E|E]; cbn in E.
    { split; [done|]. intros [Hr _]. by specialize (Hr r eq_refl). }
    destruct (meets_age_threshold published days now).
    { split; [intros _; split; [by intros ? [= <-]|by left]|]. intros _. by destruct (_ =? _). }
    assert (Hst : ((forall r', Some r = Some r' -> status r' <> "rejected") /\
      (false = true \/ exists r', Some r = Some r' /\ status r' = "approved" /\ reviewed_by r' <> None /\
         review_identity_match (basis_mode r') (basis_upstream_fingerprint r') m fp <> Differs)) <->
      status r = "approved" /\ reviewed_by r <> None /\
      review_identity_match (basis_mode r) (basis_upstream_fingerprint r) m fp <> Differs).
    { split; [intros [_ [?|(r' & [= <-] & ?)]]; done|]. intros. split; [by intros ? [= <-]|right; eauto]. }
    rewrite Hst. clear Hst.
    destruct (String.eqb_spec (status r) (status_as_str Approved)) as [E'|E']; cbn in E'; [|tauto].
    destruct (reviewed_by r); cbn [negb andb]; [|split; [done|tauto]].
    case_bool_decide; cbn [negb]; [split; [done|tauto]|]. split; [|done]. intros _. by split_and!.
  - destruct (meets_age_threshold published days now).
    + split; [intros _|done]. by split; [|left].
    + split; [done|]. intros [_ [?|(r & ? & _)]]; done.
Qed.

Lemma set_decision_key s b a re repo name version r :
  has_key repo name version (set_decision s b a re r) = has_key repo name version r.
Proof. done. Qed.

Lemma on_conflict_key now t m fp repo name version r :
  has_key repo name version (on_conflict now t m fp r) = has_key repo name version r.
Proof. unfold on_conflict. by destruct (has_status Rejected r), (identity_differs m fp r || stale_automatic r). Qed.

Lemma on_conflict_id now t m fp r : id (on_conflict now t m fp r) = id r.
Proof. unfold on_conflict. by destruct (has_status Rejected r), (identity_differs m fp r || stale_automatic r). Qed.

Lemma on_conflict_status now t m fp r :
  status (on_conflict now t m fp r) = status r \/ status (on_conflict now t m fp r) = "pending".
Proof. unfold on_conflict. destruct (has_status Rejected r), (identity_differs m fp r || stale_automatic r); auto. Qed.

Lemma get_review_key db repo name version r :
  get_review db repo name version = Some r -> has_key repo name version r = true /\ r ∈ reviews db.
Proof. intros [Hin Hk]%List.find_some. split; [done|by apply list_elem_of_In]. Qed.

Lemma request_review_row db now new_id repo name version t fp :
  let '(i, db') := request_review db now new_id repo name version t fp in
  exists r', get_review db' (params_id repo) name version = Some r' /\ id r' = i /\
    match get_review db (params_id repo) name version with
    | Some r => r' = on_conflict now t (age_gate_mode repo) fp r
    | None => status r' = "pending"
    end.
Proof.
  unfold request_review. destruct (get_review db (params_id repo) name version) as [r|] eqn:E.
  - rewrite get_review_update by (intros; apply on_conflict_key). rewrite E.
    pose proof (get_review_key _ _ _ _ _ E) as [Hk _]. cbn. rewrite Hk.
    eexists. split_and!; [done|apply on_conflict_id|done].
  - unfold get_review, set_reviews in *; cbn [reviews]. rewrite find_app_first, E. cbn [List.find].
    assert (Hk : has_key (params_id repo) name version (new_review now new_id (params_id repo) name version t
      (age_gate_mode repo) fp) = true).
    { unfold has_key; cbn. rewrite bool_decide_true by done. by rewrite !String.eqb_refl. }
    rewrite Hk. eexists. split_and!; done.
Qed.
End Decision.


(** ** Rejections and locks under interleaving *)

(** What a rejection must keep through other transactions. *)
Definition rejected_kept (r r' : Review) : Prop :=
  status r = "rejected" -> status r' = "rejected" /\ reviewed_by r' = reviewed_by r.

(** Every row is still there, with its key, and satisfies [P] before and after. *)
Definition rows_kept (P : Review -> Review -> Prop) (db db' : Db) : Prop :=
  forall r, r ∈ reviews db -> exists r', r' ∈ reviews db' /\ id r' = id r /\ P r r'.

#[global] Instance rows_kept_refl P `{!Reflexive P} : Reflexive (rows_kept P).
Proof. intros db r Hr. eauto. Qed.

#[global] Instance rows_kept_trans P `{!Transitive P} : Transitive (rows_kept P).
Proof.
  intros a b c Hab Hbc r (r1 & Hr1 & Hi1 & HP1)%Hab. destruct (Hbc r1 Hr1) as (r2 & Hr2 & Hi2 & HP2).
  exists r2. split_and!; [done|congruence|by etransitivity].
Qed.

#[global] Instance rejected_kept_refl : Reflexive rejected_kept.
Proof. by intros r. Qed.

#[global] Instance rejected_kept_trans : Transitive rejected_kept.
Proof. intros a b c Hab Hbc Ha. destruct (Hab Ha) as [Hb <-]. by apply Hbc. Qed.

Lemma rows_kept_update P p f db `{!Reflexive P} :
  (forall r, p r = true -> id (f r) = id r /\ P r (f r)) -> rows_kept P db (update_reviews p f db).
Proof.
  intros Hf r Hr. exists (if p r then f r else r). split; [apply elem_of_update; eauto|].
  destruct (p r) eqn:E; [by apply Hf|done].
Qed.

Lemma rows_kept_insert P l db `{!Reflexive P} : rows_kept P db (set_reviews (fun k => k ++ l) db).
Proof. intros r Hr. exists r. split_and!; [|done|done]. cbn. apply elem_of_app. by left. Qed.

Section Interleaving.
Context `{Chrono} `{UrlCrates}.

Lemma on_conflict_rejected now t m fp r : rejected_kept r (on_conflict now t m fp r).
Proof.
  intros Hr. unfold on_conflict. assert (Hs : has_status Rejected r = true) by by apply has_status_spec.
  by rewrite Hs.
Qed.

Lemma pending_not_rejected r : has_status Pending r = true -> status r = "rejected" -> False.
Proof. intros Hp%has_status_spec. rewrite Hp. done. Qed.

Lemma request_review_kept db now new_id repo name version t fp :
  rows_kept rejected_kept db (snd (request_review db now new_id repo name version t fp)).
Proof.
  unfold request_review. destruct (get_review _ _ _ _); cbn [snd]; [|by apply rows_kept_insert, _].
  apply rows_kept_update; [apply _|]. intros r0 _. split; [apply on_conflict_id|apply on_conflict_rejected].
Qed.

Lemma auto_approve_kept db now i m fp : rows_kept rejected_kept db (auto_approve db now i m fp).
Proof.
  apply rows_kept_update; [apply _|]. intros r [_ Hp]%andb_prop. split; [done|].
  intros Hr. by destruct (pending_not_rejected r Hp Hr).
Qed.

Lemma request_reviews_batch_kept db now new_id repo name requests fp :
  rows_kept rejected_kept db (request_reviews_batch db now new_id repo name requests fp).
Proof.
  unfold request_reviews_batch. revert db. induction requests as [|[v t] requests IH]; intros db; cbn [foldl]; [done|].
  etransitivity; [|apply IH]. unfold request_one.
  destruct (get_review _ _ _ _); [|by apply rows_kept_insert, _].
  apply rows_kept_update; [apply _|]. intros r0 _. split; [apply on_conflict_id|apply on_conflict_rejected].
Qed.

Lemma sweep_repos_kept now repos db : rows_kept rejected_kept db (fst (sweep_repos now repos db)).
Proof.
  revert db. induction repos as [|[i row] repos IH]; intros db; cbn [sweep_repos]; [done|].
  destruct (mode_parse (row_mode row)) as [m|e]; [|done]. etransitivity; [|apply IH].
  apply rows_kept_update; [apply _|]. intros r Hp. split; [done|]. intros Hr.
  unfold sweep_predicate in Hp. rewrite !andb_true_iff in Hp. destruct Hp as [[[_ Hp] _] _].
  by destruct (pending_not_rejected r Hp Hr).
Qed.

Lemma listing_basis_reviews db now repo name versions :
  reviews (snd (listing_basis_times db now repo name versions)) = reviews db.
Proof. unfold listing_basis_times, observe_versions_first_seen. by destruct (age_gate_mode repo). Qed.

Lemma compare_and_set_ok write i expected guard f r' db' :
  compare_and_set write i expected guard f = Ok (r', db') ->
  db' = update_reviews (fun r => has_id i r && (status r =? expected) && guard r) f write /\
  rows_affected (fun r => has_id i r && (status r =? expected) && guard r) write = 1.
Proof.
  unfold compare_and_set. destruct (Nat.eqb_spec (rows_affected
    (fun r => has_id i r && (status r =? expected) && guard r) write) 1); [|done]. cbn [negb].
  destruct (get_review_by_id _ i); [|done]. by intros [= <- <-].
Qed.
End Interleaving.

(** C2. A rejection outlives the traffic: whatever was read earlier, a
    download check that does not void the review, a metadata listing, the
    background sweep and a policy change leave every rejected row rejected by
    the same reviewer. *)
Theorem rejection_survives_requests `{Chrono} `{UrlCrates} (read write : Db) (now : DateTime) :
  (forall new_id repo name version published d db',
     check read write now new_id repo name version published = Ok (d, db') ->
     action_for read (params_id repo) name version published (age_gate_min_age_days repo) (age_gate_mode repo)
       (upstream_fingerprint (upstream_url repo)) now <> BlockAndResetReview ->
     rows_kept rejected_kept write db') /\
  (forall new_id repo name versions b db',
     evaluate_versions_batch read write now new_id repo name versions = Ok (b, db') ->
     rows_kept rejected_kept write db') /\
  rows_kept rejected_kept write (fst (auto_approve_aged_reviews read write now)) /\
  (forall repo next tier lock w db',
     update_repo_config_as write repo next tier lock = Ok (w, db') -> rows_kept rejected_kept write db').
Proof.
  split_and!.
  - intros new_id repo name version published d db' Hc Hne. revert Hc. unfold check.
    destruct (gating_requested repo); cbn [negb]; [|by intros [= <- <-]].
    destruct (require_enforceable repo); [|done]. unfold action_for in Hne.
    destruct (decide_age_gate_check _ _); try done; try by intros [= <- <-].
    + intros [= <- <-]. apply auto_approve_kept.
    + pose proof (request_review_kept write now new_id repo name version published
        (upstream_fingerprint (upstream_url repo))) as Hk.
      destruct (request_review _ _ _ _ _ _ _ _) as [i db]. by intros [= <- <-].
  - intros new_id repo name versions b db'. unfold evaluate_versions_batch.
    destruct (negb (gating_requested repo) || _); [by intros [= <- <-]|].
    destruct (require_enforceable repo); [|done].
    pose proof (listing_basis_reviews write now repo name versions) as Hr.
    destruct (listing_basis_times _ _ _ _ _) as [vs w]. cbn [snd] in Hr. intros [= <- <-].
    intros r Hin. rewrite <- Hr in Hin. by apply request_reviews_batch_kept.
  - apply sweep_repos_kept.
  - intros repo next tier lock w db'. unfold update_repo_config_as.
    destruct (bool_decide (tier = Repository_) && _); [done|].
    destruct (validate_min_age_days _); cbn [rbind]; [|done].
    destruct (repositories write !! repo) as [row|]; cbn [ok_or rbind]; [|done].
    destruct (mode_parse (row_mode row)) as [m|]; cbn [rbind]; [|done].
    destruct (_ && _ && _); [done|]. intros [= <- <-].
    destruct (bool_decide _); [by intros r Hr; exists r|].
    match goal with |- rows_kept _ _ (update_reviews ?p ?f ?db) => apply (rows_kept_update rejected_kept p f db) end.
    intros r [_ Hp]%andb_prop. split; [done|]. intros Hr. by destruct (pending_not_rejected r Hp Hr).
Qed.

(** Voiding a stale approval is not a compare-and-set: when an
    administrator's rejection commits between the check's read and its write,
    the check puts the rejected review back to pending with no reviewer, and
    any later request whose basis has aged is then served. *)
Theorem reset_loses_concurrent_rejection `{Chrono} `{UrlCrates} (read write : Db) (now : DateTime) (new_id : Uuid)
    (repo : AgeGateRepoParams) (name version : string) (published_at : option DateTime) (r rw : Review)
    (Hgate : is_applicable repo = true)
    (Hread : get_review read (params_id repo) name version = Some r)
    (Hvoid : action_for read (params_id repo) name version published_at (age_gate_min_age_days repo)
               (age_gate_mode repo) (upstream_fingerprint (upstream_url repo)) now = BlockAndResetReview)
    (Hwrite : get_review write (params_id repo) name version = Some rw)
    (Hid : id rw = id r) (Hrejected : status rw = "rejected") :
  exists d db', check read write now new_id repo name version published_at = Ok (d, db') /\
    (exists r', get_review db' (params_id repo) name version = Some r' /\ id r' = id r /\
       status r' = "pending" /\ reviewed_by r' = None) /\
    (forall now' new_id' published', meets_age_threshold published' (age_gate_min_age_days repo) now' = true ->
       exists db'', check db' db' now' new_id' repo name version published' = Ok (DecisionAllow, db'')).
Proof.
  unfold is_applicable in Hgate. apply andb_prop in Hgate as [Hg Hs].
  unfold check, require_enforceable. rewrite Hg, Hs. cbn [negb]. rewrite Hread.
  unfold action_for in Hvoid. rewrite Hread in Hvoid. rewrite Hvoid. cbn [fmap option_fmap option_map].
  unfold reset_review_to_pending. do 2 eexists. split; [reflexivity|].
  rewrite get_review_update by done. rewrite Hwrite. cbn [fmap option_fmap option_map]. unfold has_id.
  rewrite bool_decide_true by done. split; [by eexists|].
  intros now' new_id' published' Hm. rewrite Hm. by eexists.
Qed.

Definition rejected_review : Review := set_lock true (set_decision Rejected (Some 9%N) (Some 1%Z) None sample_review).
Definition sample_repo : AgeGateRepoParams :=
  {| params_id := 1%N; key := "npm"; repo_type := Remote; format := Npm; age_gate_enabled := true;
     age_gate_min_age_days := 7; age_gate_mode := FirstSeen; upstream_url := Some "npm" |}.

Lemma reset_loses_concurrent_rejection_witness :
  exists d db', @check reference_chrono identity_crates sample_db (set_reviews (fun _ => [rejected_review]) sample_db)
      1%Z 6%N sample_repo "left-pad" "1.3.0" None = Ok (d, db') /\
    (exists db'', @check reference_chrono identity_crates db' db' (8 * NANOS_PER_DAY)%Z 6%N sample_repo
       "left-pad" "1.3.0" (Some 0%Z) = Ok (DecisionAllow, db'')).
Proof.
  destruct (@reset_loses_concurrent_rejection reference_chrono identity_crates sample_db
    (set_reviews (fun _ => [rejected_review]) sample_db) 1%Z 6%N sample_repo "left-pad" "1.3.0" None sample_review
    rejected_review) as (d & db' & Hc & _ & Hserved); try (vm_compute; reflexivity).
  exists d, db'. split; [exact Hc|]. apply Hserved. vm_compute. reflexivity.
Defined.

(** The instance lock holds against repository administrators under any
    interleaving: a repository-tier approve or reopen that succeeds leaves
    every review locked by then byte for byte unchanged, and a repository-tier
    reject leaves it locked, changed only by becoming rejected. *)
Theorem instance_lock_respected `{Chrono} `{UrlCrates} (read write : Db) (now : DateTime) (i reviewer : Uuid)
    (reason : option string) (rw : Review) (Hin : rw ∈ reviews write) (Hlocked : instance_locked rw = true) :
  (forall r db', approve_as read write now i reviewer Repository_ reason = Ok (r, db') -> rw ∈ reviews db') /\
  (forall s r db', reopen_as read write now i reviewer Repository_ reason = Ok (s, r, db') -> rw ∈ reviews db') /\
  (forall r db', reject_as read write now i reviewer Repository_ reason = Ok (r, db') ->
     exists rw', rw' ∈ reviews db' /\ id rw' = id rw /\ instance_locked rw' = true /\
       (rw' = rw \/ status rw' = "rejected")).
Proof.
  assert (Hguard : forall expected f, rw ∈ reviews (update_reviews
      (fun r => has_id i r && (status r =? expected) && may_write Repository_ r) f write)).
  { intros expected f. apply elem_of_update. exists rw. split; [done|].
    unfold may_write. by rewrite Hlocked, andb_false_r. }
  split_and!.
  - unfold approve_as. intros r db'. destruct (get_review_by_id read i) as [r0|]; cbn [rbind]; [|done].
    destruct (require_may_relax_review _ _); cbn [rbind]; [|done].
    destruct (require_distinct_status _ _); cbn [rbind]; [|done].
    destruct (resolve_repo_params _ _); cbn [rbind]; [|done].
    intros [-> _]%compare_and_set_ok. apply Hguard.
  - unfold reopen_as. intros s r db'. destruct (get_review_by_id read i) as [r0|]; cbn [rbind]; [|done].
    destruct (require_may_relax_review _ _); cbn [rbind]; [|done].
    destruct (require_distinct_status _ _); cbn [rbind]; [|done].
    destruct (compare_and_set _ _ _ _ _) as [[u db]|] eqn:E; cbn [rbind]; [|done].
    intros [= <- <- <-]. apply compare_and_set_ok in E as [-> _]. apply Hguard.
  - unfold reject_as. intros r db'. destruct (get_review_by_id read i) as [r0|]; cbn [rbind]; [|done].
    destruct (require_distinct_status _ _); cbn [rbind]; [|done].
    destruct (resolve_repo_params _ _); cbn [rbind]; [|done].
    intros [-> _]%compare_and_set_ok.
    eexists. split; [apply elem_of_update; exists rw; split; [done|reflexivity]|].
    destruct (has_id i rw && _ && _); cbn; rewrite Hlocked; auto.
Qed.

(** A repository administrator rejects the approval an instance administrator
    locked: allowed, and the lock stays. *)
Lemma instance_lock_respected_witness :
  let locked := set_lock true sample_review in
  let db := set_reviews (fun _ => [locked]) sample_db in
  match @reject_as identity_crates db db 2%Z 5%N 8%N Repository_ None with
  | Ok (_, db') =>
      exists rw', rw' ∈ reviews db' /\ id rw' = 5%N /\ instance_locked rw' = true /\
        (rw' = locked \/ status rw' = "rejected")
  | Err _ => False
  end.
Proof.
  cbv zeta. destruct (@reject_as _ _ _ _ _ _ _ _) as [[r db']|e] eqn:E; [|vm_compute in E; discriminate E].
  refine (proj2 (proj2 (@instance_lock_respected reference_chrono identity_crates
    (set_reviews (fun _ => [set_lock true sample_review]) sample_db)
    (set_reviews (fun _ => [set_lock true sample_review]) sample_db) 2%Z 5%N 8%N None
    (set_lock true sample_review) _ _)) r db' E).
  - left.
  - reflexivity.
Defined.

(** Policy writes.  A successful write stores exactly the requested policy
    within the database's range and touches no other repository; only an
    instance administrator moves the lock; and a repository administrator's
    write on a locked policy succeeds only when it does not relax it: the gate
    stays enabled if it was, the minimum age does not drop and the mode does
    not change. *)
Theorem policy_write_rules `{UrlCrates} (db : Db) (repo : Uuid) (next : AgeGatePolicy) (tier : ActorTier)
    (lock : option bool) (w : PolicyWrite) (db' : Db)
    (Hok : update_repo_config_as db repo next tier lock = Ok (w, db')) :
  exists row row', repositories db !! repo = Some row /\ repositories db' !! repo = Some row' /\
    (forall other, other <> repo -> repositories db' !! other = repositories db !! other) /\
    row_enabled row' = enabled next /\ row_min_age_days row' = min_age_days next /\
    row_mode row' = mode_as_str (mode next) /\ (0 <= min_age_days next <= 3650)%Z /\
    (tier = Instance_ -> row_instance_locked row' = default true lock) /\
    (tier = Repository_ -> lock = None /\ row_instance_locked row' = row_instance_locked row /\
       (row_instance_locked row = true -> row_enabled row = true ->
          enabled next = true /\ (row_min_age_days row <= min_age_days next)%Z /\ row_mode row = mode_as_str (mode next))).
Proof.
  revert Hok. unfold update_repo_config_as, validate_min_age_days.
  destruct (bool_decide (tier = Repository_) && _) eqn:Hl; [done|].
  destruct (Z.leb_spec 0 (min_age_days next)), (Z.leb_spec (min_age_days next) 3650); cbn [andb rbind]; try done.
  destruct (repositories db !! repo) as [row|] eqn:Hrow; cbn [ok_or rbind]; [|done].
  destruct (mode_parse (row_mode row)) as [m|] eqn:Hmode; cbn [rbind]; [|done].
  destruct (row_instance_locked row && _ && _) eqn:Hrelax; [done|]. intros [= <- <-].
  set (row' := {| row_key := _ |}).
  assert (Hrepos : forall b : bool, repositories (if b then set_repositories (fun m0 => <[repo := row']> m0) db
    else update_reviews (fun r => bool_decide (repository_id r = repo) && has_status Pending r)
           (set_basis None None None) (set_repositories (fun m0 => <[repo := row']> m0) db)) =
    <[repo := row']> (repositories db)) by (by intros []).
  exists row, row'. rewrite Hrepos. split_and!; try done.
  - apply lookup_insert_eq.
  - intros other Hne. by apply lookup_insert_ne.
  - by intros ->.
  - intros ->. rewrite bool_decide_true in Hl, Hrelax by done. split_and!; [by destruct lock|done|].
    intros Hlk Hen. rewrite Hlk in Hrelax. cbn [andb] in Hrelax. unfold is_relaxed_by in Hrelax. cbn in Hrelax.
    rewrite Hen in Hrelax. cbn in Hrelax. apply orb_false_elim in Hrelax as [Hrelax Hm].
    apply orb_false_elim in Hrelax as [Hn Hd]. apply negb_false_iff in Hn. apply Z.ltb_ge in Hd.
    apply negb_false_iff, bool_decide_eq_true in Hm. split_and!; [done|done|].
    revert Hmode. unfold mode_parse. rewrite Hm.
    destruct (String.eqb_spec (row_mode row) "upstream_publish_time") as [->|]; [by intros [= <-]|].
    destruct (String.eqb_spec (row_mode row) "first_seen") as [->|]; [by intros [= <-]|done].
Qed.

Lemma policy_write_rules_witness :
  exists row', repositories (snd (match @update_repo_config_as identity_crates sample_db 1%N
      {| enabled := true; min_age_days := 14; mode := FirstSeen |} Repository_ None with
    | Ok p => p | Err _ => ({| previous := {| enabled := true; min_age_days := 0; mode := FirstSeen |};
                                was_locked := true; now_locked := true |}, sample_db) end)) !! 1%N = Some row' /\
    row_min_age_days row' = 14%Z.
Proof.
  set (next := {| enabled := true; min_age_days := 14%Z; mode := FirstSeen |}).
  destruct (@update_repo_config_as identity_crates sample_db 1%N next Repository_ None) as [[w db']|e] eqn:E.
  - destruct (@policy_write_rules identity_crates sample_db 1%N next Repository_ None w db' E)
      as (row & row' & _ & H1 & _ & _ & H2 & _).
    exists row'. split; [exact H1|exact H2].
  - vm_compute in E. discriminate E.
Defined.

(** The sweep and the decision use the same age except for one case: for a
    threshold of [n] days the sweep's interval test implies the decision's
    whole-days test, and the two differ exactly when [n] is 0 and the recorded
    time lies in the future. *)
Theorem sweep_age_predicate `{Chrono} (ts now : DateTime) (n : Z) (Hn : (0 <= n)%Z) :
  let sweeps := (n * NANOS_PER_DAY <=? now - ts)%Z in
  let meets := meets_age_threshold (Some ts) n now in
  (sweeps = true -> meets = true) /\ (sweeps <> meets <-> n = 0%Z /\ (now < ts)%Z).
Proof.
  intros sweeps meets. subst sweeps meets. unfold meets_age_threshold, package_age_days. rewrite num_days_spec.
  assert (HD : (0 < NANOS_PER_DAY)%Z) by done.
  set (D := NANOS_PER_DAY) in *. set (d := (now - ts)%Z).
  destruct (Z.lt_ge_cases d 0) as [Hneg|Hpos].
  - assert (Hq : (Z.quot d D <= 0)%Z).
    { rewrite <- (Z.opp_involutive d), Z.quot_opp_l by lia. pose proof (Z.quot_pos (- d) D). lia. }
    rewrite Z.max_r by lia.
    destruct (Z.leb_spec (n * D) d), (Z.leb_spec n 0); split; try done; try nia; split; try done; try lia; intros; split; lia.
  - assert (Hq : (0 <= Z.quot d D)%Z) by (apply Z.quot_pos; lia).
    rewrite Z.max_l by done. pose proof (Z.quot_rem' d D) as Hdiv.
    pose proof (Z.rem_bound_pos d D Hpos HD) as Hr.
    destruct (Z.leb_spec (n * D) d), (Z.leb_spec n (Z.quot d D)); split; try done; try nia;
      split; try done; intros; lia.
Qed.

Lemma sweep_age_predicate_witness :
  @meets_age_threshold reference_chrono (Some 0%Z) 7 (8 * NANOS_PER_DAY)%Z = true.
Proof.
  apply (proj1 (@sweep_age_predicate reference_chrono 0%Z (8 * NANOS_PER_DAY)%Z 7 ltac:(lia))). reflexivity.
Defined.

(** ** The first-seen clock *)

Lemma observe_loop `{UrlCrates} (now : DateTime) (repo : AgeGateRepoParams) (name : string)
    (versions : list string) (m : gmap ObservationKey DateTime) (k : ObservationKey) :
  foldl (fun (m : gmap ObservationKey DateTime) v => match m !! obs_key repo name v with
                    | Some _ => m | None => <[obs_key repo name v := now]> m end) m versions !! k =
    match m !! k with
    | Some t => Some t
    | None => if existsb (fun v => bool_decide (obs_key repo name v = k)) versions then Some now else None
    end.
Proof.
  revert m. induction versions as [|v versions IH]; intros m; cbn [foldl existsb].
  - by destruct (m !! k).
  - rewrite IH. destruct (m !! obs_key repo name v) as [t|] eqn:E.
    + case_bool_decide as Hk; [|by destruct (m !! k)]. subst k. by rewrite E.
    + case_bool_decide as Hk.
      * subst k. by rewrite lookup_insert_eq, E.
      * by rewrite lookup_insert_ne.
Qed.

(** The first-seen clock never restarts and starts only on evidence:
    observing versions keeps every recorded time, dates the unrecorded ones of
    this repository, upstream and package [now], and touches nothing else; a
    download basis in first-seen mode is the recorded time whatever the
    upstream claims, and without a record and without evidence that the
    version exists it is missing and nothing is written. *)
Theorem first_seen_clock `{Chrono} `{UrlCrates} (db : Db) (now : DateTime) (repo : AgeGateRepoParams) (name : string)
    (versions : list string) :
  (forall k t, observations db !! k = Some t ->
     observations (snd (observe_versions_first_seen db now repo name versions)) !! k = Some t) /\
  (forall k, observations db !! k = None ->
     observations (snd (observe_versions_first_seen db now repo name versions)) !! k =
       if existsb (fun v => bool_decide (obs_key repo name v = k)) versions then Some now else None) /\
  (forall v upstream exists_upstream, age_gate_mode repo = FirstSeen ->
     let '(basis, db') := download_basis db now repo name v upstream exists_upstream in
     match lookup_first_seen db repo name v with
     | Some t => basis = Some t /\ db' = db
     | None => if exists_upstream then basis = Some now else basis = None /\ db' = db
     end).
Proof.
  split_and!.
  - intros k t Hk. cbn. by rewrite observe_loop, Hk.
  - intros k Hk. cbn. by rewrite observe_loop, Hk.
  - intros v up ex Hm. unfold download_basis. rewrite Hm.
    destruct (lookup_first_seen db repo name v) as [t|] eqn:E; [done|]. destruct ex; [|done].
    unfold observe_first_seen, observe_versions_first_seen. cbn [one_of existsb]. rewrite String.eqb_refl. cbn [orb].
    cbn [set_observations observations foldl]. unfold lookup_first_seen in E. rewrite E. apply lookup_insert_eq.
Qed.
