(* ===== verification/AgeGateRuns.v ===== *)
(** Histories of the age gate ([services/age_gate_service.rs]): an abstract
    machine for one review, the operations of [AgeGate] as steps of a shared
    database under any interleaving, a simulation of the second by the first,
    and the invariants that follow by rule induction.

    A step reads an arbitrary database: whatever other transactions did between
    the read and the write is allowed.  The identifiers an insert draws are
    fresh, as the primary key demands. *)

From stdpp Require Import base list relations sets gmap strings.
From Stdlib Require Import ZArith Lia Ascii.
From S2P Require Import Prelude RustStr Chrono Repository Errors UpstreamUrl AgeVersions AgeGate.

Local Open Scope string_scope.
Local Open Scope list_scope.

(** ** The abstract machine *)

(** What a history records: the decisions of administrators, and the accounts
    that are deleted. *)
Inductive Event :=
| Approves (review reviewer : Uuid) (tier : ActorTier)
| Rejects (review reviewer : Uuid) (tier : ActorTier)
| Reopens (review reviewer : Uuid) (tier : ActorTier)
| DeletesUser (user : Uuid).

(** What requests, listings, the sweep, policy writes and the re-keying do to
    one review. *)
Inductive traffic : Review -> Review -> Prop :=
| requested now published m fp r :
    traffic r (on_conflict now published m fp r)
| voided now published m fp r :
    traffic r (bump_request now (set_basis published (Some (mode_as_str m)) (Some fp)
                                   (set_decision Pending None None None r)))
| auto_approved now m fp r :
    has_status Pending r = true ->
    traffic r (set_basis (upstream_published_at r) (Some (mode_as_str m)) (Some fp)
                 (set_decision Approved None (Some now) (Some AUTO_APPROVE_REASON) r))
| swept now r :
    has_status Pending r = true ->
    traffic r (set_decision Approved None (Some now) (Some AUTO_APPROVE_REASON) r)
| unbased r :
    has_status Pending r = true -> traffic r (set_basis None None None r)
| rekeyed fp fp' r :
    basis_upstream_fingerprint r = Some fp ->
    traffic r (set_basis (upstream_published_at r) (basis_mode r) (Some fp') r).

(** What an administrator does to one. *)
Inductive decision : Event -> Review -> Review -> Prop :=
| approved now u reason m fp tier r :
    may_write tier r = true -> status r <> "approved" ->
    decision (Approves (id r) u tier) r (decide_review Approved now u reason m fp tier r)
| rejected now u reason m fp tier r :
    status r <> "rejected" ->
    decision (Rejects (id r) u tier) r (decide_review Rejected now u reason m fp tier r)
| reopened now u reason tier r :
    may_write tier r = true -> status r <> "pending" ->
    decision (Reopens (id r) u tier) r
      (set_lock (instance_locked r && negb (is_instance tier))
         (set_decision Pending (Some u) (Some now) reason r)).

Definition review_key (r : Review) : Uuid * string * string :=
  (repository_id r, package_name r, package_version r).

(** Traffic on the table: some rows move, one is inserted, or those of a deleted
    repository go. *)
Inductive move : list Review -> list Review -> Prop :=
| move_update (p : Review -> bool) (f : Review -> Review) l :
    (forall r, p r = true -> traffic r (f r)) ->
    move l ((fun r => if p r then f r else r) <$> l)
| move_insert now i repo name version published m fp l :
    i ∉ id <$> l -> (repo, name, version) ∉ review_key <$> l ->
    move l (l ++ [new_review now i repo name version published m fp])
| move_delete (p : Review -> bool) l : move l (List.filter p l).

(** The reviews of a table once the account [u] is gone. *)
Definition without_user (u : Uuid) (l : list Review) : list Review :=
  (fun r => if bool_decide (reviewed_by r = Some u) then clear_reviewer r else r) <$> l.

(** Histories, newest event first. *)
Inductive machine (init : list Review) : list Event -> list Review -> Prop :=
| machine_start : machine init [] init
| machine_traffic evs l l' : machine init evs l -> move l l' -> machine init evs l'
| machine_decision evs l1 l2 ev r r' :
    machine init evs (l1 ++ r :: l2) -> decision ev r r' -> machine init (ev :: evs) (l1 ++ r' :: l2)
| machine_user evs l u : machine init evs l -> machine init (DeletesUser u :: evs) (without_user u l).

(** ** The operations as steps *)

Definition fresh (i : Uuid) (db : Db) : Prop := i ∉ id <$> reviews db.

Inductive step `{Chrono} `{UrlCrates} : option Event -> Db -> Db -> Prop :=
| step_check read write now new_id repo name version published d db' :
    fresh new_id write ->
    check read write now new_id repo name version published = Ok (d, db') ->
    step None write db'
| step_listing read write now new_id repo name versions b db' :
    (forall v, v ∈ fst <$> versions -> fresh (new_id v) write) -> NoDup (new_id <$> (fst <$> versions)) ->
    evaluate_versions_batch read write now new_id repo name versions = Ok (b, db') ->
    step None write db'
| step_basis write now repo name version published seen_upstream :
    step None write (snd (download_basis write now repo name version published seen_upstream))
| step_sweep read write now :
    step None write (fst (auto_approve_aged_reviews read write now))
| step_policy write repo next tier lock w db' :
    update_repo_config_as write repo next tier lock = Ok (w, db') ->
    step None write db'
| step_rekey write repo url :
    step None write (rekey_legacy_fingerprint write repo url)
| step_approve read write now i u tier reason r db' :
    approve_as read write now i u tier reason = Ok (r, db') ->
    step (Some (Approves i u tier)) write db'
| step_reject read write now i u tier reason r db' :
    reject_as read write now i u tier reason = Ok (r, db') ->
    step (Some (Rejects i u tier)) write db'
| step_reopen read write now i u tier reason s r db' :
    reopen_as read write now i u tier reason = Ok (s, r, db') ->
    step (Some (Reopens i u tier)) write db'
| step_user write u : step (Some (DeletesUser u)) write (delete_user u write)
| step_repository write repo : step None write (delete_repository repo write).

Definition record (ev : option Event) (evs : list Event) : list Event :=
  match ev with Some e => e :: evs | None => evs end.

Inductive run `{Chrono} `{UrlCrates} (init : Db) : list Event -> Db -> Prop :=
| run_start : run init [] init
| run_step evs db ev db' : run init evs db -> step ev db db' -> run init (record ev evs) db'.

(** ** Invariants *)

Definition status_ok (r : Review) : Prop := exists s, status r = status_as_str s.

(** The recorded identity: both columns or, before identities were recorded,
    neither; a mode the code can parse. *)
Definition basis_ok (r : Review) : Prop :=
  match basis_mode r, basis_upstream_fingerprint r with
  | None, None => True
  | Some m, Some _ => exists m', m = mode_as_str m'
  | _, _ => False
  end.

Definition row_ok (r : Review) : Prop := status_ok r /\ basis_ok r /\ (1 <= request_count r)%Z.

Definition table_ok (l : list Review) : Prop :=
  NoDup (id <$> l) /\ NoDup (review_key <$> l) /\ Forall row_ok l.

Definition policy_ok (row : RepoRow) : Prop :=
  (0 <= row_min_age_days row <= 3650)%Z /\ exists m, row_mode row = mode_as_str m.

Definition db_ok (db : Db) : Prop :=
  table_ok (reviews db) /\ map_Forall (fun _ row => policy_ok row) (repositories db).

Definition subject (ev : Event) : option Uuid :=
  match ev with Approves i _ _ | Rejects i _ _ | Reopens i _ _ => Some i | DeletesUser _ => None end.

(** [ev] is the newest decision on the review, [u] made it, and the row names
    [u] unless that account has been deleted since: then it names nobody. *)
Definition decided_by (evs : list Event) (ev : Event) (u : Uuid) (r : Review) : Prop :=
  exists newer older, evs = newer ++ ev :: older /\
    (forall e, e ∈ newer -> subject e <> Some (id r)) /\
    ((reviewed_by r = Some u /\ DeletesUser u ∉ newer) \/ (reviewed_by r = None /\ DeletesUser u ∈ newer)).

(** An approval is the automatic one, which names nobody and says so, or the
    newest decision; a rejection is the newest decision; a lock was set by an
    instance administrator. *)
Definition attributed (evs : list Event) (r : Review) : Prop :=
  (status r = "approved" ->
     (reviewed_by r = None /\ review_reason r = Some AUTO_APPROVE_REASON) \/
     exists u t, decided_by evs (Approves (id r) u t) u r) /\
  (status r = "rejected" -> exists u t, decided_by evs (Rejects (id r) u t) u r) /\
  (instance_locked r = true ->
     exists u, Approves (id r) u Instance_ ∈ evs \/ Rejects (id r) u Instance_ ∈ evs).

(** ** Simulation *)

Section Simulation.
Context `{Chrono} `{UrlCrates}.

Lemma has_key_spec repo name version r :
  has_key repo name version r = true <-> review_key r = (repo, name, version).
Proof.
  unfold has_key, review_key. rewrite !andb_true_iff, bool_decide_eq_true, !String.eqb_eq. naive_solver.
Qed.

Lemma get_review_None db repo name version :
  get_review db repo name version = None -> (repo, name, version) ∉ review_key <$> reviews db.
Proof.
  intros Hn (r & Hk & Hr)%list_elem_of_fmap.
  assert (Hf : has_key repo name version r = true) by by apply has_key_spec.
  apply list_elem_of_In in Hr. by rewrite (List.find_none _ _ Hn r Hr) in Hf.
Qed.

Lemma move_update_reviews p f db :
  (forall r, p r = true -> traffic r (f r)) -> rtc move (reviews db) (reviews (update_reviews p f db)).
Proof. intros Hf. by apply rtc_once, move_update. Qed.

Lemma move_new_review db now i repo name version published m fp :
  fresh i db -> get_review db repo name version = None ->
  rtc move (reviews db)
    (reviews (set_reviews (fun l => l ++ [new_review now i repo name version published m fp]) db)).
Proof. intros Hi Hk. apply rtc_once, move_insert; [done|by apply get_review_None]. Qed.

Lemma moves_request_review db now new_id repo name version published fp :
  fresh new_id db ->
  rtc move (reviews db) (reviews (snd (request_review db now new_id repo name version published fp))).
Proof.
  intros Hf. unfold request_review. destruct (get_review _ _ _ _) eqn:E; cbn [snd].
  - apply move_update_reviews. intros r' _. constructor.
  - by apply move_new_review.
Qed.

Lemma moves_check read write now new_id repo name version published d db' :
  fresh new_id write -> check read write now new_id repo name version published = Ok (d, db') ->
  rtc move (reviews write) (reviews db').
Proof.
  intros Hf. unfold check. destruct (negb _); [by intros [= <- <-]|].
  destruct (require_enforceable repo); [|done].
  destruct (decide_age_gate_check _ _); try (by intros [= <- <-]).
  - intros [= <- <-]. apply move_update_reviews. intros r [_ Hp]%andb_prop. by constructor.
  - pose proof (moves_request_review write now new_id repo name version published
      (upstream_fingerprint (upstream_url repo)) Hf) as Hm.
    destruct (request_review _ _ _ _ _ _ _ _) as [i db]. by intros [= <- <-].
  - intros [= <- <-]. apply move_update_reviews. intros r _. constructor.
Qed.

Lemma ids_update p f db :
  (forall r, id (f r) = id r) -> id <$> reviews (update_reviews p f db) = id <$> reviews db.
Proof.
  intros Hf. cbn. rewrite <- list_fmap_compose. apply list_fmap_ext. intros _ r _. cbn. by destruct (p r).
Qed.

Lemma request_one_fresh now new_id repo name fp db request i :
  fresh i db -> i <> new_id (fst request) -> fresh i (request_one now new_id repo name fp db request).
Proof.
  destruct request as [v t]. unfold fresh, request_one. intros Hi Hne. destruct (get_review _ _ _ _).
  - rewrite ids_update; [done|]. intros r0. apply on_conflict_id.
  - cbn in *. rewrite fmap_app. set_solver.
Qed.

Lemma moves_requests now new_id repo name fp requests db :
  (forall v, v ∈ fst <$> requests -> fresh (new_id v) db) -> NoDup (new_id <$> (fst <$> requests)) ->
  rtc move (reviews db) (reviews (request_reviews_batch db now new_id repo name requests fp)).
Proof.
  unfold request_reviews_batch. revert db. induction requests as [|[v t] requests IH]; intros db Hf Hnd; [done|].
  rewrite !fmap_cons in Hnd. apply NoDup_cons in Hnd as [Hv Hnd]. cbn [foldl]. etransitivity; [|apply IH; [|done]].
  - cbn [request_one]. destruct (get_review _ _ _ _) eqn:E.
    + apply move_update_reviews. intros r' _. constructor.
    + apply move_new_review; [|done]. apply Hf. left.
  - intros w Hw. apply request_one_fresh; [apply Hf; by right|]. intros Heq. apply Hv.
    cbn [fst] in *. rewrite <- Heq. by apply list_elem_of_fmap_2.
Qed.

Lemma classified_sublist versions existing days m fp now :
  (fst <$> request_versions (classify_versions_for_metadata_listing versions existing days m fp now))
    `sublist_of` (fst <$> versions).
Proof.
  induction versions as [|[v t] versions IH]; [constructor|]. cbn [classify_versions_for_metadata_listing].
  repeat case_match; cbn; first [by apply sublist_skip | by apply sublist_cons].
Qed.

Lemma listing_basis_names db now repo name versions :
  fst <$> fst (listing_basis_times db now repo name versions) = fst <$> versions.
Proof.
  unfold listing_basis_times, observe_versions_first_seen. destruct (age_gate_mode repo); [done|]. cbn [fst].
  rewrite <- list_fmap_compose. by apply list_fmap_ext.
Qed.

Lemma moves_listing read write now new_id repo name versions b db' :
  (forall v, v ∈ fst <$> versions -> fresh (new_id v) write) -> NoDup (new_id <$> (fst <$> versions)) ->
  evaluate_versions_batch read write now new_id repo name versions = Ok (b, db') ->
  rtc move (reviews write) (reviews db').
Proof.
  intros Hf Hnd. unfold evaluate_versions_batch. destruct (_ || _); [by intros [= <- <-]|].
  destruct (require_enforceable repo); [|done].
  pose proof (listing_basis_reviews write now repo name versions) as Hr.
  pose proof (listing_basis_names write now repo name versions) as Hn.
  destruct (listing_basis_times _ _ _ _ _) as [vs w]. cbn [fst snd] in *. intros [= <- <-].
  rewrite <- Hr. set (c := classify_versions_for_metadata_listing _ _ _ _ _ _).
  assert (Hsub : (fst <$> request_versions c) `sublist_of` (fst <$> versions)).
  { rewrite <- Hn. apply classified_sublist. }
  apply moves_requests.
  - intros v Hv. unfold fresh. rewrite Hr. apply Hf. by eapply elem_of_sublist.
  - eapply sublist_NoDup; [exact Hnd|]. by apply fmap_sublist.
Qed.

Lemma moves_basis write now repo name version published seen_upstream :
  reviews (snd (download_basis write now repo name version published seen_upstream)) = reviews write.
Proof.
  unfold download_basis, observe_first_seen, observe_versions_first_seen. by repeat case_match; simplify_eq/=.
Qed.

Lemma moves_sweep now repos db : rtc move (reviews db) (reviews (fst (sweep_repos now repos db))).
Proof.
  revert db. induction repos as [|[i row] repos IH]; intros db; cbn [sweep_repos]; [done|].
  destruct (mode_parse _); [|done]. etransitivity; [|apply IH].
  apply move_update_reviews. intros r Hp. constructor. unfold sweep_predicate in Hp.
  rewrite !andb_true_iff in Hp. tauto.
Qed.

Lemma moves_policy write repo next tier lock w db' :
  update_repo_config_as write repo next tier lock = Ok (w, db') -> rtc move (reviews write) (reviews db').
Proof.
  unfold update_repo_config_as. destruct (bool_decide _ && _); [done|].
  destruct (validate_min_age_days _); cbn [rbind]; [|done].
  destruct (ok_or _ _) as [row|]; cbn [rbind]; [|done].
  destruct (mode_parse _); cbn [rbind]; [|done].
  destruct (_ && _ && _); [done|]. intros [= <- <-]. destruct (bool_decide _); [done|].
  match goal with |- rtc move _ (reviews (update_reviews ?p ?f ?db)) =>
    apply (move_update_reviews p f db) end.
  intros r [_ Hp]%andb_prop. by constructor.
Qed.

Lemma moves_rekey write repo url : rtc move (reviews write) (reviews (rekey_legacy_fingerprint write repo url)).
Proof.
  unfold rekey_legacy_fingerprint. destruct (legacy_upstream_fingerprint url) as [legacy|]; [|done].
  match goal with |- rtc move _ (reviews (update_reviews ?p ?f ?db)) =>
    apply (move_update_reviews p f db) end.
  intros r [_ Hp%bool_decide_eq_true]%andb_prop. by econstructor.
Qed.

(** A compare-and-set that succeeds rewrites exactly one row. *)
Lemma update_one (p : Review -> bool) (f : Review -> Review) l :
  length (List.filter p l) = 1 ->
  exists l1 r l2, l = l1 ++ r :: l2 /\ p r = true /\
    (fun r => if p r then f r else r) <$> l = l1 ++ f r :: l2.
Proof.
  assert (Hnone : forall l, length (List.filter p l) = 0 -> (fun r => if p r then f r else r) <$> l = l).
  { clear l. induction l as [|r l IH]; [done|]. cbn. destruct (p r) eqn:E; [done|].
    intros Hl. f_equal. by apply IH. }
  induction l as [|r l IH]; [done|]. cbn. destruct (p r) eqn:E.
  - intros [= Hl]. exists [], r, l. split_and!; [done|done|]. cbn. f_equal. by apply Hnone.
  - intros (l1 & r0 & l2 & -> & Hr0 & Heq)%IH. exists (r :: l1), r0, l2. split_and!; [done|done|].
    cbn. f_equal. exact Heq.
Qed.

Lemma decided write i expected guard f r' db' (ev : Event) :
  compare_and_set write i expected guard f = Ok (r', db') ->
  (forall r, id r = i -> status r = expected -> guard r = true -> decision ev r (f r)) ->
  exists l1 r l2, reviews write = l1 ++ r :: l2 /\ decision ev r (f r) /\ reviews db' = l1 ++ f r :: l2.
Proof.
  intros [-> Hone]%compare_and_set_ok Hdec.
  destruct (update_one _ f _ Hone) as (l1 & r & l2 & Hl & Hp & Heq).
  rewrite !andb_true_iff, String.eqb_eq in Hp. destruct Hp as [[Hi%bool_decide_eq_true Hs] Hg].
  exists l1, r, l2. split_and!; [done|by apply Hdec|exact Heq].
Qed.

Lemma distinct_status s t : require_distinct_status s t = Ok tt -> s <> status_as_str t.
Proof. unfold require_distinct_status. destruct (String.eqb_spec s (status_as_str t)); done. Qed.

Lemma decides_approve read write now i u tier reason r db' :
  approve_as read write now i u tier reason = Ok (r, db') ->
  exists l1 r l2 r', reviews write = l1 ++ r :: l2 /\ decision (Approves i u tier) r r' /\
    reviews db' = l1 ++ r' :: l2.
Proof.
  unfold approve_as. destruct (get_review_by_id read i) as [review|]; cbn [rbind]; [|done].
  destruct (require_may_relax_review _ _); cbn [rbind]; [|done].
  destruct (require_distinct_status _ _) as [[]|] eqn:Hd; cbn [rbind]; [|done]. apply distinct_status in Hd.
  destruct (resolve_repo_params _ _) as [params|]; cbn [rbind]; [|done]. intros Hc.
  apply (decided _ _ _ _ _ _ _ (Approves i u tier)) in Hc as (l1 & r0 & l2 & Hl & Hdec & Hl'); [eauto 10|].
  intros r1 <- Hs Hg. constructor; [done|]. by rewrite Hs.
Qed.

Lemma decides_reject read write now i u tier reason r db' :
  reject_as read write now i u tier reason = Ok (r, db') ->
  exists l1 r l2 r', reviews write = l1 ++ r :: l2 /\ decision (Rejects i u tier) r r' /\
    reviews db' = l1 ++ r' :: l2.
Proof.
  unfold reject_as. destruct (get_review_by_id read i) as [review|]; cbn [rbind]; [|done].
  destruct (require_distinct_status _ _) as [[]|] eqn:Hd; cbn [rbind]; [|done]. apply distinct_status in Hd.
  destruct (resolve_repo_params _ _) as [params|]; cbn [rbind]; [|done]. intros Hc.
  apply (decided _ _ _ _ _ _ _ (Rejects i u tier)) in Hc as (l1 & r0 & l2 & Hl & Hdec & Hl'); [eauto 10|].
  intros r1 <- Hs _. constructor. by rewrite Hs.
Qed.

Lemma decides_reopen read write now i u tier reason s r db' :
  reopen_as read write now i u tier reason = Ok (s, r, db') ->
  exists l1 r l2 r', reviews write = l1 ++ r :: l2 /\ decision (Reopens i u tier) r r' /\
    reviews db' = l1 ++ r' :: l2.
Proof.
  unfold reopen_as. destruct (get_review_by_id read i) as [review|]; cbn [rbind]; [|done].
  destruct (require_may_relax_review _ _); cbn [rbind]; [|done].
  destruct (require_distinct_status _ _) as [[]|] eqn:Hd; cbn [rbind]; [|done]. apply distinct_status in Hd.
  destruct (compare_and_set _ _ _ _ _) as [[r0 db0]|] eqn:Hc; cbn [rbind]; [|done]. intros [= <- <- <-].
  apply (decided _ _ _ _ _ _ _ (Reopens i u tier)) in Hc as (l1 & r1 & l2 & Hl & Hdec & Hl'); [eauto 10|].
  intros r1 <- Hs Hg. constructor; [done|]. by rewrite Hs.
Qed.

Lemma machine_moves init evs l l' : machine init evs l -> rtc move l l' -> machine init evs l'.
Proof. intros Hm Hr. induction Hr; [done|]. eauto using machine_traffic. Qed.

(** One step of the code is traffic or one decision of the machine. *)
Lemma step_simulated init evs ev db db' :
  machine init evs (reviews db) -> step ev db db' -> machine init (record ev evs) (reviews db').
Proof.
  intros Hm Hs. destruct Hs; cbn [record].
  - eapply machine_moves; [exact Hm|]. by eapply moves_check.
  - eapply machine_moves; [exact Hm|]. by eapply moves_listing.
  - by rewrite moves_basis.
  - eapply machine_moves; [exact Hm|]. apply moves_sweep.
  - eapply machine_moves; [exact Hm|]. by eapply moves_policy.
  - eapply machine_moves; [exact Hm|]. apply moves_rekey.
  - apply decides_approve in H1 as (l1 & r1 & l2 & r2 & Hl & Hd & ->). rewrite Hl in Hm. by econstructor.
  - apply decides_reject in H1 as (l1 & r1 & l2 & r2 & Hl & Hd & ->). rewrite Hl in Hm. by econstructor.
  - apply decides_reopen in H1 as (l1 & r1 & l2 & r2 & Hl & Hd & ->). rewrite Hl in Hm. by econstructor.
  - by apply machine_user.
  - eapply machine_traffic; [exact Hm|]. apply move_delete.
Qed.

Lemma run_simulated init evs db : run init evs db -> machine (reviews init) evs (reviews db).
Proof. intros Hr. induction Hr; [constructor|]. by eapply step_simulated. Qed.
End Simulation.

(** ** Laws of the machine *)

Lemma traffic_key r r' : traffic r r' -> id r' = id r /\ review_key r' = review_key r.
Proof.
  intros Ht; destruct Ht; try done. split; [apply on_conflict_id|].
  unfold on_conflict. by repeat case_match.
Qed.

Lemma decision_key ev r r' : decision ev r r' -> id r' = id r /\ review_key r' = review_key r /\ subject ev = Some (id r).
Proof. intros Hd; by destruct Hd. Qed.

Lemma traffic_ok r r' : traffic r r' -> row_ok r -> row_ok r'.
Proof.
  intros Ht (Hs & Hb & Hc). destruct Ht as [now t m fp r| | | | |fp fp' r Hfp]; unfold row_ok.
  - split_and!.
    + destruct (on_conflict_status now t m fp r) as [E|E]; unfold status_ok; rewrite E; [done|by exists Pending].
    + unfold on_conflict; repeat case_match; cbn; eauto.
    + unfold on_conflict; repeat case_match; cbn; lia.
  - split_and!; cbn; [by exists Pending|unfold basis_ok; cbn; eauto|lia].
  - split_and!; cbn; [by exists Approved|unfold basis_ok; cbn; eauto|lia].
  - split_and!; cbn; [by exists Approved|done|done].
  - split_and!; cbn; done.
  - split_and!; [done| |done]. unfold basis_ok in *. cbn. rewrite Hfp in Hb. by destruct (basis_mode r).
Qed.

Lemma decision_ok ev r r' : decision ev r r' -> row_ok r -> row_ok r'.
Proof.
  intros Hd (Hs & Hb & Hc).
  destruct Hd; (split_and!; [by eexists| |done]); unfold basis_ok; cbn; eauto.
Qed.

Lemma table_ok_map (f : Review -> Review) l :
  (forall r, id (f r) = id r /\ review_key (f r) = review_key r) -> (forall r, row_ok r -> row_ok (f r)) ->
  table_ok l -> table_ok (f <$> l).
Proof.
  intros Hk Hf (Hids & Hkeys & Hrows).
  assert (forall A (g : Review -> A), (forall r, g (f r) = g r) -> g <$> (f <$> l) = g <$> l) as Hsame.
  { intros A g Hg. rewrite <- list_fmap_compose. apply list_fmap_ext. intros _ r _. apply Hg. }
  split_and!.
  - rewrite Hsame; [done|]. apply Hk.
  - rewrite Hsame; [done|]. apply Hk.
  - apply Forall_fmap. eapply Forall_impl; [exact Hrows|]. exact Hf.
Qed.

Lemma filter_sublist {A} (p : A -> bool) (l : list A) : List.filter p l `sublist_of` l.
Proof. induction l as [|x l IH]; [done|]. cbn. destruct (p x); by constructor. Qed.

Lemma table_ok_filter p l : table_ok l -> table_ok (List.filter p l).
Proof.
  intros (Hids & Hkeys & Hrows). pose proof (filter_sublist p l) as Hs. split_and!.
  - eapply sublist_NoDup; [exact Hids|]. by apply fmap_sublist.
  - eapply sublist_NoDup; [exact Hkeys|]. by apply fmap_sublist.
  - rewrite Forall_forall in Hrows |- *. intros r Hr. apply Hrows. by eapply elem_of_sublist.
Qed.

Lemma machine_table_ok init evs l : machine init evs l -> table_ok init -> table_ok l.
Proof.
  intros Hm Hok. induction Hm as [|evs l l' Hm IH Hmove|evs l1 l2 ev r r' Hm IH Hd|evs l u Hm IH]; [done| | |].
  - destruct Hmove as [p f l Hf|now i repo name version t m fp l Hi Hk|p l]; [| |by apply table_ok_filter].
    + apply table_ok_map; [..|exact IH]; intros r; destruct (p r) eqn:E; try done.
      * by apply traffic_key, Hf.
      * by apply traffic_ok, Hf.
    + destruct IH as (Hids & Hkeys & Hrows). split_and!.
      * rewrite fmap_app. apply NoDup_app. split_and!; [done| |apply NoDup_singleton]. set_solver.
      * rewrite fmap_app. apply NoDup_app. split_and!; [done| |apply NoDup_singleton].
        intros k Hin ->%list_elem_of_singleton. exact (Hk Hin).
      * apply Forall_app. split; [done|]. apply Forall_singleton. split_and!; [by exists Pending| |done].
        unfold basis_ok. cbn. eauto.
  - destruct IH as (Hids & Hkeys & Hrows). destruct (decision_key _ _ _ Hd) as (Hi & Hk & _).
    unfold table_ok. rewrite !fmap_app, !fmap_cons in *. rewrite Hi, Hk. split_and!; [done|done|].
    apply Forall_app in Hrows as [H1 [Hr H2]%Forall_cons]. apply Forall_app. split; [done|].
    constructor; [|done]. by eapply decision_ok.
  - apply table_ok_map; [..|exact IH]; intros r; by destruct (bool_decide _).
Qed.

Lemma decided_now evs ev u r : reviewed_by r = Some u -> decided_by (ev :: evs) ev u r.
Proof.
  intros Hu. exists [], evs. split_and!; [done|by intros e He%elem_of_nil|].
  left. split; [done|]. apply not_elem_of_nil.
Qed.

(** What happens to other reviews leaves a decision where it is. *)
Lemma decided_other evs ev u r e : decided_by evs ev u r -> subject e <> Some (id r) ->
  (forall v, e <> DeletesUser v) -> decided_by (e :: evs) ev u r.
Proof.
  intros (newer & older & -> & Hn & Hu) Hs He. exists (e :: newer), older. split_and!; [done| |].
  - intros e' [->|]%elem_of_cons; [done|by apply Hn].
  - rewrite elem_of_cons. specialize (He u). naive_solver.
Qed.

Lemma decided_same evs ev u r r' : id r' = id r -> reviewed_by r' = reviewed_by r ->
  decided_by evs ev u r -> decided_by evs ev u r'.
Proof. unfold decided_by. intros -> ->. done. Qed.

Lemma decided_deleted evs ev u v r : decided_by evs ev u r ->
  decided_by (DeletesUser v :: evs) ev u (if bool_decide (reviewed_by r = Some v) then clear_reviewer r else r).
Proof.
  intros (newer & older & -> & Hn & Hu). exists (DeletesUser v :: newer), older.
  assert (id (if bool_decide (reviewed_by r = Some v) then clear_reviewer r else r) = id r) as ->
    by by case_bool_decide.
  split_and!; [done| |].
  - intros e' [->|]%elem_of_cons; [done|by apply Hn].
  - rewrite elem_of_cons. case_bool_decide as E.
    + right. split; [done|]. destruct Hu as [[Hr _]|[Hr _]]; rewrite Hr in E; [|done]. injection E as ->. by left.
    + destruct Hu as [[Hr Hd]|[Hr Hd]]; [left|right]; (split; [done|]); [|by right].
      intros [[= ->]|]; done.
Qed.

Lemma traffic_attributed evs r r' : traffic r r' -> attributed evs r -> attributed evs r'.
Proof.
  intros Ht (Ha & Hr & Hl).
  destruct Ht as [now t m fp r|now t m fp r|now m fp r Hp|now r Hp|r Hp|fp fp' r Hfp];
    try (split_and!; [by intros|by intros|exact Hl]); try (split_and!; [exact Ha|exact Hr|exact Hl]);
    try (split_and!; [by left|by intros|exact Hl]).
  unfold on_conflict. destruct (has_status Rejected r); [split_and!; [exact Ha|exact Hr|exact Hl]|].
  destruct (_ || _); (split_and!; [..|exact Hl]); try by intros.
  - exact Ha.
  - exact Hr.
Qed.

Lemma decision_attributed evs ev r r' : decision ev r r' -> attributed evs r -> attributed (ev :: evs) r'.
Proof.
  intros Hd (_ & _ & Hl).
  assert (Hold : instance_locked r = true ->
    exists u, Approves (id r) u Instance_ ∈ ev :: evs \/ Rejects (id r) u Instance_ ∈ ev :: evs).
  { intros [u Hu]%Hl. exists u. set_solver. }
  destruct Hd as [now u reason m fp tier r Hw Hs|now u reason m fp tier r Hs|now u reason tier r Hw Hs].
  - split_and!; [intros _; right|done|].
    + exists u, tier. by apply decided_now.
    + intros [Hlk|Ht]%orb_prop; [by apply Hold|]. destruct tier; [|done]. exists u. left. left.
  - split_and!; [done|intros _|].
    + exists u, tier. by apply decided_now.
    + intros [Hlk|Ht]%orb_prop; [by apply Hold|]. destruct tier; [|done]. exists u. right. left.
  - split_and!; cbn; [done|done|]. intros [Hlk _]%andb_prop. by apply Hold.
Qed.

Lemma attributed_other evs ev r : subject ev <> Some (id r) -> (forall v, ev <> DeletesUser v) ->
  attributed evs r -> attributed (ev :: evs) r.
Proof.
  intros Hne Hv (Ha & Hr & Hl). split_and!.
  - intros [?|(u & t & Hd)]%Ha; [by left|right]. exists u, t. by apply decided_other.
  - intros (u & t & Hd)%Hr. exists u, t. by apply decided_other.
  - intros [u Hu]%Hl. exists u. set_solver.
Qed.

Lemma attributed_deleted evs v r : attributed evs r ->
  attributed (DeletesUser v :: evs) (if bool_decide (reviewed_by r = Some v) then clear_reviewer r else r).
Proof.
  intros (Ha & Hr & Hl). pose proof (decided_deleted evs) as Hdel. split_and!.
  - intros Hs. assert (status r = "approved") as Hs' by by case_bool_decide.
    destruct (Ha Hs') as [[Hn Hau]|(u & t & Hd)]; [left; by case_bool_decide|right].
    exists u, t. apply Hdel with (v := v) in Hd. by case_bool_decide.
  - intros Hs. assert (status r = "rejected") as Hs' by by case_bool_decide.
    destruct (Hr Hs') as (u & t & Hd). exists u, t. apply Hdel with (v := v) in Hd. by case_bool_decide.
  - intros Hlk. assert (instance_locked r = true) as Hlk' by by case_bool_decide.
    destruct (Hl Hlk') as [u Hu]. exists u.
    assert (id (if bool_decide (reviewed_by r = Some v) then clear_reviewer r else r) = id r) as ->
      by by case_bool_decide.
    set_solver.
Qed.

Lemma machine_attributed init evs l :
  machine init evs l -> table_ok init -> Forall (attributed []) init -> Forall (attributed evs) l.
Proof.
  intros Hm Hok Hinit. induction Hm as [|evs l l' Hm IH Hmove|evs l1 l2 ev r r' Hm IH Hd|evs l u Hm IH]; [done| | |].
  - destruct Hmove as [p f l Hf|now i repo name version t m fp l Hi Hk|p l].
    + apply Forall_fmap. eapply Forall_impl; [exact IH|]. intros r Hr. cbn.
      destruct (p r) eqn:E; [by eapply traffic_attributed, Hr; apply Hf|done].
    + apply Forall_app. split; [done|]. by apply Forall_singleton.
    + rewrite Forall_forall in IH |- *. intros r Hr. eapply IH, elem_of_sublist, filter_sublist. exact Hr.
  - destruct (machine_table_ok _ _ _ Hm Hok) as [Hids _].
    destruct (decision_key _ _ _ Hd) as (Hi & _ & Hsub).
    assert (forall v, ev <> DeletesUser v) as Hev by by destruct Hd.
    rewrite fmap_app, fmap_cons in Hids. apply NoDup_app in Hids as (_ & H1 & [H2 _]%NoDup_cons).
    apply Forall_app in IH as [HA1 [HA HA2]%Forall_cons]. apply Forall_app. split; [|constructor].
    + rewrite Forall_forall in HA1 |- *. intros r0 Hr0. apply attributed_other; [|done|by apply HA1].
      rewrite Hsub. intros [= Heq]. apply (H1 (id r0)); [by apply list_elem_of_fmap_2|]. rewrite <- Heq. left.
    + by eapply decision_attributed.
    + rewrite Forall_forall in HA2 |- *. intros r0 Hr0. apply attributed_other; [|done|by apply HA2].
      rewrite Hsub. intros [= Heq]. apply H2. rewrite Heq. by apply list_elem_of_fmap_2.
  - apply Forall_fmap. eapply Forall_impl; [exact IH|]. intros r Hr. by apply attributed_deleted.
Qed.

(** ** Laws of the policies *)

(** Follows the [?] chain of a successful handler. *)
Ltac step_results :=
  repeat match goal with
  | |- context [rbind ?m _] =>
      let E := fresh in destruct m as [?|?] eqn:E; cbn [rbind]; [|done];
      match type of E with
      | _ = Ok ?x => match type of x with (_ * _)%type => destruct x | _ => idtac end
      end
  end.

Section Policies.
Context `{Chrono} `{UrlCrates}.

Lemma requests_repositories now new_id repo name fp requests db :
  repositories (request_reviews_batch db now new_id repo name requests fp) = repositories db.
Proof.
  unfold request_reviews_batch. revert db. induction requests as [|[v t] requests IH]; intros db; [done|].
  cbn [foldl]. rewrite IH. unfold request_one. by case_match.
Qed.

Lemma sweep_repositories now repos db : repositories (fst (sweep_repos now repos db)) = repositories db.
Proof.
  revert db. induction repos as [|[i row] repos IH]; intros db; [done|]. cbn [sweep_repos].
  case_match; [|done]. by rewrite IH.
Qed.

Lemma compare_and_set_repositories write i expected guard f r' db' :
  compare_and_set write i expected guard f = Ok (r', db') -> repositories db' = repositories write.
Proof. by intros [-> _]%compare_and_set_ok. Qed.

(** Only a policy write touches the repositories, and what it stores is in
    range. *)
Lemma step_policies ev db db' :
  step ev db db' -> map_Forall (fun _ row => policy_ok row) (repositories db) ->
  map_Forall (fun _ row => policy_ok row) (repositories db').
Proof.
  intros Hs Hok. destruct Hs as [read write now new_id repo name version published d db' _ Hc
    |read write now new_id repo name versions b db' _ _ Hc|write now repo name version published seen
    |read write now|write repo next tier lock w db' Hc|write repo url
    |read write now i u tier reason r db' Hc|read write now i u tier reason r db' Hc
    |read write now i u tier reason s r db' Hc|write u|write repo].
  - enough (repositories db' = repositories write) as -> by done. revert Hc. unfold check, request_review, reset_review_to_pending.
    repeat case_match; intros; simplify_eq/=; done.
  - enough (repositories db' = repositories write) as -> by done. revert Hc.
    unfold evaluate_versions_batch, listing_basis_times, observe_versions_first_seen.
    repeat case_match; intros; simplify_eq; by rewrite ?requests_repositories.
  - enough (repositories (snd (download_basis write now repo name version published seen)) =
            repositories write) as -> by done.
    unfold download_basis, observe_first_seen, observe_versions_first_seen. by repeat case_match; simplify_eq/=.
  - unfold auto_approve_aged_reviews. by rewrite sweep_repositories.
  - revert Hc. unfold update_repo_config_as. destruct (bool_decide _ && _); [done|].
    destruct (validate_min_age_days _) as [[]|] eqn:Hv; cbn [rbind]; [|done].
    destruct (ok_or _ _) as [row|]; cbn [rbind]; [|done]. destruct (mode_parse _) as [cur|]; cbn [rbind]; [|done].
    destruct (_ && _ && _); [done|]. intros [= _ <-]. unfold validate_min_age_days in Hv.
    assert (Hnew : forall m, map_Forall (fun _ row => policy_ok row)
      (<[repo := {| row_key := row_key row; row_repo_type := row_repo_type row; row_format := row_format row;
         row_enabled := enabled next; row_min_age_days := min_age_days next; row_mode := mode_as_str (mode next);
         row_upstream_url := row_upstream_url row; row_instance_locked := m |}]> (repositories write))).
    { intros m. apply map_Forall_insert_2; [|done]. split; cbn; [|eauto].
      destruct (0 <=? min_age_days next)%Z eqn:E1, (min_age_days next <=? 3650)%Z eqn:E2; try done. lia. }
    destruct (bool_decide _); apply Hnew.
  - unfold rekey_legacy_fingerprint. by case_match.
  - revert Hc. unfold approve_as. step_results. intros Hc. by rewrite (compare_and_set_repositories _ _ _ _ _ _ _ Hc).
  - revert Hc. unfold reject_as. step_results. intros Hc. by rewrite (compare_and_set_repositories _ _ _ _ _ _ _ Hc).
  - revert Hc. unfold reopen_as. step_results. destruct_and?. intros [= _ _ <-].
    by erewrite compare_and_set_repositories by eassumption.
  - done.
  - cbn. intros k row [_ Hk]%lookup_delete_Some. by eapply Hok.
Qed.
End Policies.

(** ** A sample history: a request queues a version, an administrator approves it *)

Definition empty_db : Db := set_reviews (fun _ => []) sample_db.

Definition sample_queued : Db :=
  match @check reference_chrono identity_crates empty_db empty_db 0%Z 5%N sample_repo "left-pad" "1.3.0" None with
  | Ok (_, db) => db
  | Err _ => empty_db
  end.

Definition sample_approved : Db :=
  match @approve_as identity_crates sample_queued sample_queued 1%Z 5%N 9%N Instance_ (Some "vetted") with
  | Ok (_, db) => db
  | Err _ => sample_queued
  end.

Lemma sample_policy_ok : map_Forall (fun _ row => policy_ok row) (repositories sample_db).
Proof. apply map_Forall_singleton. split; [cbn; lia|by exists FirstSeen]. Qed.

Lemma empty_db_ok : db_ok empty_db.
Proof. split; [by split_and!; constructor|exact sample_policy_ok]. Qed.

Lemma sample_db_ok : db_ok sample_db.
Proof.
  split; [|exact sample_policy_ok]. split_and!; try apply NoDup_singleton. apply Forall_singleton.
  split_and!; [by exists Approved|by exists FirstSeen|done].
Qed.

Lemma sample_run : @run reference_chrono identity_crates empty_db [Approves 5%N 9%N Instance_] sample_approved.
Proof.
  apply (run_step _ [] sample_queued (Some (Approves 5%N 9%N Instance_))).
  - apply (run_step _ [] empty_db None); [constructor|].
    eapply (step_check empty_db empty_db 0%Z 5%N sample_repo "left-pad" "1.3.0" None); [apply not_elem_of_nil|].
    vm_compute. reflexivity.
  - eapply (step_approve sample_queued sample_queued 1%Z 5%N 9%N Instance_ (Some "vetted")).
    vm_compute. reflexivity.
Qed.

(** ** Properties of histories *)

(** C4. Whatever the operations, in whatever order and with whatever stale
    reads, the tables stay well formed: identifiers and (repository, package,
    version) keys of reviews are unique, every status is one of the three
    labels, the recorded identity is complete or absent, request counts are
    positive, and every stored policy has an age in range and a mode the code
    can parse. *)
Theorem run_tables_ok `{Chrono} `{UrlCrates} (init : Db) (evs : list Event) (db : Db)
    (Hrun : run init evs db) (Hinit : db_ok init) : db_ok db.
Proof.
  destruct Hinit as [Ht Hp]. split; [by eapply machine_table_ok, Ht; apply run_simulated|].
  induction Hrun; [done|]. eauto using step_policies.
Qed.

Lemma run_tables_ok_witness : db_ok sample_approved.
Proof. exact (run_tables_ok empty_db _ sample_approved sample_run empty_db_ok). Defined.

(** C3. Statuses are earned.  After any history from an empty queue - requests,
    listings, sweeps, policy writes, decisions, deletions of users and of
    repositories - every rejection is the newest decision on its review, every
    approval is the newest decision or the automatic one, which names nobody and
    says so, and a lock was set by an instance administrator's decision.  The
    row names the author of that decision until the author's account is deleted,
    and nobody from then on. *)
Theorem decisions_attributed `{Chrono} `{UrlCrates} (init : Db) (evs : list Event) (db : Db)
    (Hrun : run init evs db) (Hempty : reviews init = []) (r : Review) (Hr : r ∈ reviews db) :
  attributed evs r.
Proof.
  assert (Hm : machine [] evs (reviews db)) by (rewrite <- Hempty; by apply run_simulated).
  assert (HF : Forall (attributed evs) (reviews db)).
  { apply (machine_attributed _ _ _ Hm); [|constructor]. split_and!; constructor. }
  rewrite Forall_forall in HF. by apply HF.
Qed.

Lemma decisions_attributed_witness :
  Forall (attributed [DeletesUser 9%N; Approves 5%N 9%N Instance_]) (reviews (delete_user 9%N sample_approved)) /\
  reviewed_by <$> reviews sample_approved = [Some 9%N] /\
  (fun r => (status r, reviewed_by r)) <$> reviews (delete_user 9%N sample_approved) = [("approved", None)].
Proof.
  split_and!; [|reflexivity|reflexivity]. apply Forall_forall. intros r Hr.
  refine (decisions_attributed empty_db _ (delete_user 9%N sample_approved) _ eq_refl r Hr).
  exact (run_step _ _ _ _ _ sample_run (step_user _ _)).
Defined.

(** An approval outlives its author as an automatic one: after the account is
    deleted the next request under the same identity, which left the
    administrator's approval alone before, puts the version back in the queue. *)
Example deleted_reviewer_voids_approval :
  let again db := snd (request_review db 2%Z 6%N sample_repo "left-pad" "1.3.0" None
                         (@upstream_fingerprint identity_crates (upstream_url sample_repo))) in
  status <$> reviews (again sample_approved) = ["approved"] /\
  status <$> reviews (again (delete_user 9%N sample_approved)) = ["pending"].
Proof. split; reflexivity. Qed.

(** *** What an undisturbed decision does *)

Section Effect.
Context `{Chrono} `{UrlCrates}.
Context (db : Db) (r : Review) (row : RepoRow).
Context (Hok : db_ok db) (Hr : r ∈ reviews db) (Hrow : repositories db !! repository_id r = Some row).

Lemma find_unique (l : list Review) (r0 : Review) :
  NoDup (id <$> l) -> r0 ∈ l -> List.find (has_id (id r0)) l = Some r0.
Proof.
  intros Hnd Hin. induction l as [|x l IH]; [by apply elem_of_nil in Hin|].
  rewrite fmap_cons in Hnd. apply NoDup_cons in Hnd as [Hx Hnd]. cbn. unfold has_id at 1.
  apply elem_of_cons in Hin as [->|Hin]; [by rewrite bool_decide_true|].
  rewrite bool_decide_false; [by apply IH|]. intros Heq. apply Hx. rewrite Heq. by apply list_elem_of_fmap_2.
Qed.

Lemma count_unique (l : list Review) (p : Review -> bool) :
  NoDup (id <$> l) -> r ∈ l -> p r = true -> (forall x, p x = true -> id x = id r) ->
  length (List.filter p l) = 1.
Proof.
  intros Hnd Hin Hp Hid. induction l as [|x l IH]; [by apply elem_of_nil in Hin|].
  rewrite fmap_cons in Hnd. apply NoDup_cons in Hnd as [Hx Hnd]. cbn.
  apply elem_of_cons in Hin as [<-|Hin].
  - rewrite Hp. cbn. f_equal. clear IH Hnd. induction l as [|y l IHl]; [done|]. cbn.
    destruct (p y) eqn:E; [|apply IHl; set_solver]. exfalso. apply Hx. rewrite <- (Hid y E).
    apply list_elem_of_fmap_2. left.
  - destruct (p x) eqn:E; [|by apply IH]. exfalso. apply Hx. rewrite (Hid x E). by apply list_elem_of_fmap_2.
Qed.

Lemma review_found : get_review_by_id db (id r) = Ok r.
Proof. unfold get_review_by_id. by rewrite (find_unique _ _ (proj1 (proj1 Hok)) Hr), Hrow. Qed.

Lemma params_resolved : exists params, resolve_repo_params db (repository_id r) = Ok params.
Proof.
  destruct Hok as [_ Hp]. destruct (Hp _ _ Hrow) as [_ [m Hm]]. unfold resolve_repo_params.
  rewrite Hrow, Hm. destruct m; eauto.
Qed.

(** The rewritten row, and no other. *)
Definition rewritten (r' : Review) (db' : Db) : Prop :=
  id r' = id r /\ forall x, x ∈ reviews db' <-> x = r' \/ (x ∈ reviews db /\ id x <> id r).

Lemma compare_and_set_effect (guard : Review -> bool) (f : Review -> Review) :
  id (f r) = id r -> repository_id (f r) = repository_id r ->
  if guard r
  then exists db', compare_and_set db (id r) (status r) guard f = Ok (f r, db') /\ rewritten (f r) db'
  else is_ok (compare_and_set db (id r) (status r) guard f) = false.
Proof.
  intros Hid Hrepo. destruct Hok as [[Hnd _] _].
  set (p := fun x => has_id (id r) x && (status x =? status r) && guard x).
  assert (Honly : forall x, p x = true -> x ∈ reviews db -> x = r).
  { intros x [[Hi%bool_decide_eq_true _]%andb_prop _]%andb_prop Hx.
    pose proof (find_unique _ _ Hnd Hx) as E. rewrite Hi, (find_unique _ _ Hnd Hr) in E. congruence. }
  destruct (guard r) eqn:Hg.
  - assert (Hp : p r = true).
    { unfold p, has_id. by rewrite bool_decide_true, String.eqb_refl, Hg. }
    assert (Hone : rows_affected p db = 1).
    { apply count_unique; [done|done|done|]. intros x [[Hi%bool_decide_eq_true _]%andb_prop _]%andb_prop. done. }
    unfold compare_and_set. fold p. rewrite Hone. cbn [Nat.eqb negb].
    assert (Hmem : forall x, x ∈ reviews (update_reviews p f db) <-> x = f r \/ (x ∈ reviews db /\ id x <> id r)).
    { intros x. rewrite elem_of_update. split.
      - intros (x0 & Hx0 & ->). destruct (p x0) eqn:E; [left; by rewrite (Honly x0)|right]. split; [done|].
        intros Hi. pose proof (find_unique _ _ Hnd Hx0) as F. rewrite Hi, (find_unique _ _ Hnd Hr) in F. congruence.
      - intros [->|[Hx Hne]]; [exists r; by rewrite Hp|]. exists x. split; [done|].
        destruct (p x) eqn:E; [|done]. by rewrite (Honly x E Hx) in Hne. }
    assert (Hnd' : NoDup (id <$> reviews (update_reviews p f db))).
    { cbn. rewrite <- list_fmap_compose. erewrite list_fmap_ext; [exact Hnd|]. intros k x Hx. cbn.
      apply list_elem_of_lookup_2 in Hx. destruct (p x) eqn:E; [|done]. by rewrite (Honly x E Hx). }
    assert (Hget : get_review_by_id (update_reviews p f db) (id r) = Ok (f r)).
    { unfold get_review_by_id. rewrite <- Hid. rewrite find_unique; [|done|apply Hmem; by left].
      cbn. by rewrite Hrepo, Hrow. }
    rewrite Hget. eexists. split; [reflexivity|]. by split.
  - unfold compare_and_set. fold p. assert (Hz : rows_affected p db = 0).
    { unfold rows_affected. destruct (List.filter p (reviews db)) as [|x l] eqn:E; [done|].
      assert (Hx : In x (List.filter p (reviews db))) by (rewrite E; by left).
      apply List.filter_In in Hx as [Hx Hpx]. rewrite (Honly x Hpx) in Hpx by by apply list_elem_of_In.
      unfold p in Hpx. by rewrite Hg, andb_false_r in Hpx. }
    by rewrite Hz.
Qed.
End Effect.

(** An administrator's decision takes effect: on a well-formed database
    that nobody changes in between, approve and reopen succeed exactly when
    the review is not locked against the caller's tier and is not already in
    the target status, reject exactly when it is not already rejected; a
    success rewrites that one review, with the target status, the caller as
    reviewer and the lock of the caller's tier, and no other. *)
Theorem decision_takes_effect `{Chrono} `{UrlCrates} (db : Db) (r : Review) (row : RepoRow)
    (now : DateTime) (u : Uuid) (tier : ActorTier) (reason : option string)
    (Hok : db_ok db) (Hr : r ∈ reviews db) (Hrow : repositories db !! repository_id r = Some row) :
  let effect (s : AgeGateReviewStatus) lock r' db' :=
    rewritten db r r' db' /\ status r' = status_as_str s /\ reviewed_by r' = Some u /\
    review_reason r' = reason /\ instance_locked r' = lock in
  (if may_write tier r && negb (status r =? "approved")
   then exists r' db', approve_as db db now (id r) u tier reason = Ok (r', db') /\
          effect Approved (instance_locked r || is_instance tier) r' db'
   else is_ok (approve_as db db now (id r) u tier reason) = false) /\
  (if negb (status r =? "rejected")
   then exists r' db', reject_as db db now (id r) u tier reason = Ok (r', db') /\
          effect Rejected (instance_locked r || is_instance tier) r' db'
   else is_ok (reject_as db db now (id r) u tier reason) = false) /\
  (if may_write tier r && negb (status r =? "pending")
   then exists r' db', reopen_as db db now (id r) u tier reason = Ok (status r, r', db') /\
          effect Pending (instance_locked r && negb (is_instance tier)) r' db'
   else is_ok (reopen_as db db now (id r) u tier reason) = false).
Proof.
  intros effect. destruct (params_resolved db r row Hok Hrow) as [params Hparams].
  assert (Hrelax : require_may_relax_review tier (instance_locked r) =
    if may_write tier r then Ok tt else require_may_relax_review tier true).
  { unfold require_may_relax_review, may_write. by destruct tier, (instance_locked r). }
  unfold approve_as, reject_as, reopen_as. rewrite (review_found db r row Hok Hr Hrow). cbn [rbind].
  rewrite Hparams, Hrelax. unfold require_distinct_status. cbn [status_as_str].
  split_and!.
  - pose proof (compare_and_set_effect db r row Hok Hr Hrow (may_write tier)
      (decide_review Approved now u reason (age_gate_mode params) (upstream_fingerprint (upstream_url params)) tier)
      eq_refl eq_refl) as Heff.
    destruct (may_write tier r) eqn:Hw; [|by destruct tier]. destruct (status r =? "approved"); [done|].
    destruct Heff as (db' & Hc & Hrw). cbn [rbind negb andb]. rewrite Hc. by do 2 eexists.
  - pose proof (compare_and_set_effect db r row Hok Hr Hrow (fun _ => true)
      (decide_review Rejected now u reason (age_gate_mode params) (upstream_fingerprint (upstream_url params)) tier)
      eq_refl eq_refl) as (db' & Hc & Hrw).
    destruct (status r =? "rejected"); [done|]. cbn [rbind negb]. rewrite Hc. by do 2 eexists.
  - pose proof (compare_and_set_effect db r row Hok Hr Hrow (may_write tier)
      (fun x => set_lock (instance_locked x && negb (is_instance tier))
                  (set_decision Pending (Some u) (Some now) reason x)) eq_refl eq_refl) as Heff.
    destruct (may_write tier r) eqn:Hw; [|by destruct tier]. destruct (status r =? "pending"); [done|].
    destruct Heff as (db' & Hc & Hrw). cbn [rbind negb andb]. rewrite Hc. by do 2 eexists.
Qed.

Lemma decision_takes_effect_witness :
  exists r' db', @reject_as identity_crates sample_db sample_db 2%Z 5%N 9%N Repository_ None = Ok (r', db') /\
    status r' = "rejected" /\ reviewed_by r' = Some 9%N.
Proof.
  destruct (@decision_takes_effect reference_chrono identity_crates sample_db sample_review
    {| row_key := "npm"; row_repo_type := Remote; row_format := Npm; row_enabled := true; row_min_age_days := 7;
       row_mode := "first_seen"; row_upstream_url := Some "npm"; row_instance_locked := true |}
    2%Z 9%N Repository_ None sample_db_ok) as (_ & (r' & db' & Hr & _ & Hs & Hu & _) & _).
  - left.
  - reflexivity.
  - exists r', db'. split; [exact Hr|split; [exact Hs|exact Hu]].
Defined.
