(* ===== verification/Upload.v ===== *)
(** Chunked uploads ([services/upload_service.rs], and the chunk and complete
    requests of [api/handlers/upload.rs]).

    A session row and its chunk rows live in the database, every staged chunk
    is one object of the repository's storage backend.  This file holds the
    rows, the validation of requests, each statement the service runs, and the
    operations composed of them; [UploadRuns] interleaves the statements of
    concurrent requests. *)

From stdpp Require Import base list strings pretty gmap.
From Stdlib Require Import ZArith Lia Ascii.
From S2P Require Import Prelude RustStr RustNum Chrono.

Local Open Scope string_scope.
Local Open Scope Z_scope.
Local Open Scope result_scope.

(** * Data *)

(** The values the CHECK constraints allow in the two [status] columns. *)
Inductive SessionStatus := Pending | InProgress | Committing | Completed | Failed | Cancelled.
Inductive ChunkStatus := ChunkPending | ChunkUploading | ChunkCompleted | ChunkFailed.

#[global] Instance SessionStatus_eq_dec : EqDecision SessionStatus.
Proof. solve_decision. Defined.
#[global] Instance ChunkStatus_eq_dec : EqDecision ChunkStatus.
Proof. solve_decision. Defined.

Definition session_status_str (s : SessionStatus) : string :=
  match s with
  | Pending => "pending" | InProgress => "in_progress" | Committing => "committing"
  | Completed => "completed" | Failed => "failed" | Cancelled => "cancelled"
  end.

(** Where a repository's objects are: backend name and path. *)
Notation StorageLocation := (string * string)%type.

(** A row of [upload_sessions]; the last two columns are not in the Rust
    struct. *)
Record UploadSession := {
  id : Uuid;
  user_id : Uuid;
  repository_id : Uuid;
  repository_key : string;
  artifact_path : string;
  artifact_name : option string;
  artifact_version : option string;
  artifact_metadata_format : option string;
  artifact_metadata : option Json;
  artifact_metadata_properties : option Json;
  package_description : option string;
  package_metadata : option Json;
  is_replication : bool;
  content_type : string;
  total_size : Z;
  chunk_size : Z;
  total_chunks : Z;
  completed_chunks : Z;
  bytes_received : Z;
  checksum_sha256 : string;
  temp_file_path : string;
  status : SessionStatus;
  error_message : option string;
  state_token : option Uuid;
  committing_expires_at : option DateTime;
  staged_in_storage : bool;
  staging_purged_at : option DateTime;
  created_at : DateTime;
  updated_at : DateTime;
  expires_at : DateTime;
  staging_storage_backend : option string;
  staging_storage_path : option string
}.

(** A row of [upload_chunks], keyed by session and chunk index. *)
Record UploadChunk := {
  byte_offset : Z;
  byte_length : Z;
  chunk_status : ChunkStatus;
  claimed_at : option DateTime;
  chunk_checksum : option string;
  completed_at : option DateTime
}.

(** A row of [upload_staging_orphans]. *)
Record Orphan := {
  orphan_total_chunks : Z;
  orphan_location : StorageLocation;
  orphan_created_at : DateTime;
  attempts : Z
}.

Record Db := {
  repositories : gmap Uuid StorageLocation;
  sessions : gmap Uuid UploadSession;
  chunks : gmap (Uuid * Z) UploadChunk;
  orphans : gmap Uuid Orphan
}.

Definition set_sessions (f : gmap Uuid UploadSession -> gmap Uuid UploadSession) (db : Db) : Db :=
  {| repositories := repositories db; sessions := f (sessions db); chunks := chunks db; orphans := orphans db |}.
Definition set_chunks (f : gmap (Uuid * Z) UploadChunk -> gmap (Uuid * Z) UploadChunk) (db : Db) : Db :=
  {| repositories := repositories db; sessions := sessions db; chunks := f (chunks db); orphans := orphans db |}.
Definition set_orphans (f : gmap Uuid Orphan -> gmap Uuid Orphan) (db : Db) : Db :=
  {| repositories := repositories db; sessions := sessions db; chunks := chunks db; orphans := f (orphans db) |}.

Record ChunkResult := {
  chunk_index : Z;
  result_bytes_received : Z;
  chunks_completed : Z;
  chunks_remaining : Z
}.

Inductive UploadError :=
| Database (e : string)
| Io (e : string)
| NotFound
| Expired
| InvalidChunk (msg : string)
| ChunkInProgress (index : Z)
| ChecksumMismatch (expected actual : string)
| IncompleteChunks (completed total : Z)
| SizeMismatch (expected actual : Z)
| InvalidStatus (status : string)
| RepositoryNotFound (key : string)
| InvalidChunkSize
| TooLarge (size max : Z)
| PathTooLong (len max : nat)
| LegacySession
| Storage (e : string).

(** The sha2 crate: the hexadecimal SHA-256 of a byte string. *)
Class Sha2 := { sha256 : string -> string }.

Definition STAGING_KEY_PREFIX : string := "upload-staging".

Definition staging_prefix `{UuidCrate} (session_id : Uuid) : string :=
  STAGING_KEY_PREFIX +:+ "/" +:+ uuid_display session_id.

Definition staged_chunk_key `{UuidCrate} (session_id : Uuid) (chunk_index : Z) : string :=
  staging_prefix session_id +:+ "/" +:+ zero_pad 8 chunk_index.

(** ** The storage backend

    One backend is a map from keys to bytes.  Each call may also fail for a
    reason of its own; [faulty] says for which keys it does at that moment. *)

Notation Store := (gmap string string).

Inductive StorageError := ObjectNotFound | Unavailable.

Definition storage_put (faulty : string -> bool) (key data : string) (s : Store) : result StorageError Store :=
  if faulty key then Err Unavailable else Ok (<[key := data]> s).

Definition storage_get (faulty : string -> bool) (key : string) (s : Store) : result StorageError string :=
  if faulty key then Err Unavailable else ok_or (s !! key) ObjectNotFound.

Definition storage_delete (faulty : string -> bool) (key : string) (s : Store) : result StorageError Store :=
  if faulty key then Err Unavailable
  else match s !! key with
       | Some _ => Ok (delete key s)
       | None => Err ObjectNotFound
       end.

Definition storage_err (e : StorageError) : UploadError :=
  Storage (match e with ObjectNotFound => "not found" | Unavailable => "unavailable" end).

(** * Validation *)

Definition MAX_ARTIFACT_PATH_LEN : nat := 2048.

Definition validate_artifact_path (path : string) : result UploadError unit :=
  if is_empty path then Err (InvalidChunk "artifact_path cannot be empty")
  else if (MAX_ARTIFACT_PATH_LEN <? String.length path)%nat
  then Err (PathTooLong (String.length path) MAX_ARTIFACT_PATH_LEN)
  else if contains (String "000" "") path then Err (InvalidChunk "artifact_path contains null bytes")
  else if starts_with "/" path || starts_with "\" path
  then Err (InvalidChunk "artifact_path must be relative")
  else if existsb (fun component =>
              let component := trim component in
              String.eqb component ".." || String.eqb component "." || (is_empty component && contains "//" path))
            (split_char "/" path)
  then Err (InvalidChunk "artifact_path contains path traversal")
  else
    let lower := to_lowercase path in
    if contains "%2e" lower || contains "%2f" lower || contains "%5c" lower
    then Err (InvalidChunk "artifact_path contains encoded traversal characters")
    else if contains "\" path then Err (InvalidChunk "artifact_path must use forward slashes")
    else Ok tt.

Definition enforce_max_total_size (total_size max : Z) : result UploadError unit :=
  if negb (max =? 0) && (max <? as_u64 total_size) then Err (TooLarge total_size max) else Ok tt.

Definition MIN_CHUNK_SIZE : Z := 1048576.
Definition MAX_CHUNK_SIZE : Z := 268435456.
Definition DEFAULT_CHUNK_SIZE : Z := 8388608.
Definition COMMIT_LEASE_TTL_SECS : Z := 6 * 3600.

Definition normalize_optional_metadata (value : option string) : option string :=
  match value with
  | Some v => if is_empty v then None else Some v
  | None => None
  end.

Definition parse_content_range (header : string) : result string (Z * Z * Z) :=
  let header := trim header in
  let? rest := ok_or (strip_prefix "bytes " header) ("Content-Range must start with 'bytes ': " +:+ header) in
  let? parts := ok_or (split_once (Ascii.eqb "/") rest) ("Content-Range missing '/': " +:+ header) in
  let '(range_part, total_str) := parts in
  let? bounds := ok_or (split_once (Ascii.eqb "-") range_part) ("Content-Range missing '-': " +:+ header) in
  let '(start_str, end_str) := bounds in
  let? start := ok_or (parse_i64 start_str) ("Invalid start byte: " +:+ start_str) in
  let? stop := ok_or (parse_i64 end_str) ("Invalid end byte: " +:+ end_str) in
  let? total := ok_or (parse_i64 total_str) ("Invalid total size: " +:+ total_str) in
  if stop <? start then Err ("start (" +:+ pretty start +:+ ") > end (" +:+ pretty stop +:+ ")")
  else if total <=? stop then Err ("end (" +:+ pretty stop +:+ ") >= total (" +:+ pretty total +:+ ")")
  else Ok (start, stop, total).

Example range_1 : parse_content_range "bytes 0-8388607/21474836480" = Ok (0, 8388607, 21474836480).
Proof. reflexivity. Qed.
Example range_2 : parse_content_range "bytes 5-4/10" = Err "start (5) > end (4)".
Proof. reflexivity. Qed.
Example path_1 : validate_artifact_path "a/b c/d.tgz" = Ok tt /\ is_ok (validate_artifact_path "a/.%2E/b") = false /\
  is_ok (validate_artifact_path "a//b") = false /\ is_ok (validate_artifact_path "a/ .. /b") = false.
Proof. vm_compute. done. Qed.

(** * Creating a session *)

Record CreateSessionParams := {
  p_user_id : Uuid;
  p_repo_id : Uuid;
  p_repo_key : string;
  p_artifact_path : string;
  p_artifact_name : option string;
  p_artifact_version : option string;
  p_artifact_metadata_format : option string;
  p_artifact_metadata : option Json;
  p_artifact_metadata_properties : option Json;
  p_package_description : option string;
  p_package_metadata : option Json;
  p_is_replication : bool;
  p_total_size : Z;
  p_max_upload_size : Z;
  p_chunk_size : option Z;
  p_checksum_sha256 : string;
  p_content_type : option string
}.

(** The number of chunks, an [i64] division cast to [i32]. *)
Definition chunk_count (total_size chunk_size : Z) : Z :=
  as_i32 (Z.quot (as_i64 (as_i64 (total_size + chunk_size) - 1)) chunk_size).

(** The placeholder of chunk [i]: its offset and length. *)
Definition placeholder_range (total_size chunk_size total_chunks i : Z) : Z * Z :=
  let offset := as_i64 (i * chunk_size) in
  let length := if i =? total_chunks - 1 then as_i32 (as_i64 (total_size - offset)) else chunk_size in
  (offset, length).

Definition new_chunk (range : Z * Z) : UploadChunk :=
  {| byte_offset := fst range; byte_length := snd range; chunk_status := ChunkPending;
     claimed_at := None; chunk_checksum := None; completed_at := None |}.

(** The INSERTs of the placeholder rows, [for i in 0..total_chunks]. *)
Definition insert_placeholders (session_id : Uuid) (total_size chunk_size total_chunks : Z)
  (m : gmap (Uuid * Z) UploadChunk) : gmap (Uuid * Z) UploadChunk :=
  foldl (fun m i => <[(session_id, i) := new_chunk (placeholder_range total_size chunk_size total_chunks i)]> m)
    m (seqZ 0 total_chunks).

Definition SESSION_LIFETIME : Z := 24 * 3600 * NANOS_PER_SEC.

(** The row the INSERT returns, with the defaults of the table. *)
Definition new_session `{UuidCrate} (now : DateTime) (session_id : Uuid) (p : CreateSessionParams)
  (cs n : Z) (at_ : StorageLocation) : UploadSession :=
  {| id := session_id;
     user_id := p_user_id p;
     repository_id := p_repo_id p;
     repository_key := p_repo_key p;
     artifact_path := p_artifact_path p;
     artifact_name := normalize_optional_metadata (p_artifact_name p);
     artifact_version := normalize_optional_metadata (p_artifact_version p);
     artifact_metadata_format := normalize_optional_metadata (p_artifact_metadata_format p);
     artifact_metadata := p_artifact_metadata p;
     artifact_metadata_properties := p_artifact_metadata_properties p;
     package_description := normalize_optional_metadata (p_package_description p);
     package_metadata := p_package_metadata p;
     is_replication := p_is_replication p;
     content_type := default "application/octet-stream" (p_content_type p);
     total_size := p_total_size p;
     chunk_size := cs;
     total_chunks := n;
     completed_chunks := 0;
     bytes_received := 0;
     checksum_sha256 := p_checksum_sha256 p;
     temp_file_path := staging_prefix session_id;
     status := Pending;
     error_message := None;
     state_token := None;
     committing_expires_at := None;
     staged_in_storage := true;
     staging_purged_at := None;
     created_at := now;
     updated_at := now;
     expires_at := now + SESSION_LIFETIME;
     staging_storage_backend := Some (fst at_);
     staging_storage_path := Some (snd at_) |}.

(** [session_id] is the generated UUID; one transaction. *)
Definition create_session `{UuidCrate} (now : DateTime) (session_id : Uuid) (p : CreateSessionParams) (db : Db)
  : result UploadError (UploadSession * Db) :=
  if p_total_size p <=? 0 then Err (InvalidChunk "total_size must be a positive integer")
  else
    let? _ := enforce_max_total_size (p_total_size p) (p_max_upload_size p) in
    let chunk_size := default DEFAULT_CHUNK_SIZE (p_chunk_size p) in
    if (chunk_size <? MIN_CHUNK_SIZE) || (MAX_CHUNK_SIZE <? chunk_size) then Err InvalidChunkSize
    else
      let total_chunks := chunk_count (p_total_size p) chunk_size in
      match repositories db !! p_repo_id p, sessions db !! session_id with
      | None, _ => Err (Database "no rows returned")
      | Some _, Some _ => Err (Database "duplicate key")
      | Some at_, None =>
          let session := new_session now session_id p chunk_size total_chunks at_ in
          Ok (session,
              set_chunks (insert_placeholders session_id (p_total_size p) chunk_size total_chunks)
                (set_sessions <[session_id := session]> db))
      end.

(** * Uploading a chunk *)

Definition get_session (now : DateTime) (session_id : Uuid) (expected_user_id : option Uuid) (db : Db)
  : result UploadError UploadSession :=
  let? session := ok_or (sessions db !! session_id) NotFound in
  if match expected_user_id with Some uid => bool_decide (user_id session <> uid) | None => false end
  then Err NotFound
  else if expires_at session <? now then Err Expired
  else Ok session.

(** The unlocked read and the checks before the transaction. *)
Definition open_for_upload (now : DateTime) (session_id user : Uuid) (db : Db) : result UploadError UploadSession :=
  let? session := get_session now session_id (Some user) db in
  match status session with
  | Completed | Cancelled | Committing | Failed => Err (InvalidStatus (session_status_str (status session)))
  | Pending | InProgress =>
      if staged_in_storage session then Ok session else Err LegacySession
  end.

Definition CHUNK_CLAIM_LEASE_SECS : Z := 300.

(** What the request finds under the lock of the chunk row: [None] when it
    goes on to store the chunk, or its answer. *)
Definition claim_chunk (now : DateTime) (session : UploadSession) (index offset data_len : Z) (db : Db)
  : option (result UploadError ChunkResult) :=
  match chunks db !! (id session, index) with
  | None =>
      Some (Err (InvalidChunk ("chunk_index " +:+ pretty index +:+ " out of range (0.." +:+
                               pretty (total_chunks session) +:+ ")")))
  | Some row =>
      let covers :=
        if bool_decide (offset <> byte_offset row) || bool_decide (data_len <> byte_length row) then
          Some (Err (InvalidChunk
            ("chunk " +:+ pretty index +:+ " must cover bytes " +:+ pretty (byte_offset row) +:+ ".." +:+
             pretty (byte_offset row + byte_length row - 1) +:+ " (" +:+ pretty (byte_length row) +:+
             " bytes); got offset " +:+ pretty offset +:+ " with " +:+ pretty data_len +:+ " bytes")))
        else None in
      match chunk_status row with
      | ChunkCompleted =>
          Some (Ok {| chunk_index := index; result_bytes_received := bytes_received session;
                      chunks_completed := completed_chunks session;
                      chunks_remaining := total_chunks session - completed_chunks session |})
      | ChunkUploading =>
          let stale := match claimed_at row with
                       | Some t => CHUNK_CLAIM_LEASE_SECS <? Z.quot (now - t) NANOS_PER_SEC
                       | None => true
                       end in
          if stale then covers else Some (Err (ChunkInProgress index))
      | ChunkPending | ChunkFailed => covers
      end
  end.

Definition count_chunk (now : DateTime) (data_len : Z) (s : UploadSession) : UploadSession :=
  {| id := id s; user_id := user_id s; repository_id := repository_id s; repository_key := repository_key s;
     artifact_path := artifact_path s; artifact_name := artifact_name s; artifact_version := artifact_version s;
     artifact_metadata_format := artifact_metadata_format s; artifact_metadata := artifact_metadata s;
     artifact_metadata_properties := artifact_metadata_properties s;
     package_description := package_description s; package_metadata := package_metadata s;
     is_replication := is_replication s; content_type := content_type s; total_size := total_size s;
     chunk_size := chunk_size s; total_chunks := total_chunks s;
     completed_chunks := completed_chunks s + 1; bytes_received := bytes_received s + data_len;
     checksum_sha256 := checksum_sha256 s; temp_file_path := temp_file_path s;
     status := if decide (status s = Pending) then InProgress else status s;
     error_message := error_message s; state_token := state_token s;
     committing_expires_at := committing_expires_at s; staged_in_storage := staged_in_storage s;
     staging_purged_at := staging_purged_at s; created_at := created_at s; updated_at := now;
     expires_at := expires_at s; staging_storage_backend := staging_storage_backend s;
     staging_storage_path := staging_storage_path s |}.

Definition mark_chunk_completed (now : DateTime) (checksum : string) (c : UploadChunk) : UploadChunk :=
  {| byte_offset := byte_offset c; byte_length := byte_length c; chunk_status := ChunkCompleted;
     claimed_at := Some now; chunk_checksum := Some checksum; completed_at := Some now |}.

(** The claim, the completion and the guarded counters, committed together;
    [None] when the guard on the session's status fails and everything is
    rolled back. *)
Definition commit_chunk (now : DateTime) (session_id : Uuid) (index data_len : Z) (checksum : string) (db : Db)
  : option (Z * Z * Db) :=
  match sessions db !! session_id with
  | Some s =>
      match status s with
      | Pending | InProgress =>
          let s' := count_chunk now data_len s in
          Some (completed_chunks s', bytes_received s',
                set_chunks (alter (mark_chunk_completed now checksum) (session_id, index))
                  (set_sessions <[session_id := s']> db))
      | _ => None
      end
  | None => None
  end.

(** INSERT INTO upload_staging_orphans ... ON CONFLICT DO NOTHING. *)
Definition queue_orphan (now : DateTime) (session_id : Uuid) (db : Db) : Db :=
  match sessions db !! session_id, orphans db !! session_id with
  | Some s, None =>
      match staging_storage_backend s with
      | Some backend =>
          set_orphans <[session_id :=
            {| orphan_total_chunks := total_chunks s;
               orphan_location := (backend, default "" (staging_storage_path s));
               orphan_created_at := now; attempts := 0 |}]> db
      | None => db
      end
  | _, _ => db
  end.

(** After the rollback: delete the object just stored, and say why the chunk
    is refused. *)
Definition refuse_chunk `{UuidCrate} (now : DateTime) (faulty : string -> bool) (session_id : Uuid) (index : Z)
  (db : Db) (store : Store) : UploadError * Db * Store :=
  let '(db, store) :=
    match storage_delete faulty (staged_chunk_key session_id index) store with
    | Ok store => (db, store)
    | Err ObjectNotFound => (db, store)
    | Err Unavailable => (queue_orphan now session_id db, store)
    end in
  (match sessions db !! session_id with
   | Some s => InvalidStatus (session_status_str (status s))
   | None => NotFound
   end, db, store).

(** One request, with nobody else in between. *)
Definition upload_chunk `{UuidCrate} `{Sha2} (now : DateTime) (faulty : string -> bool) (session_id : Uuid)
  (index offset : Z) (data : string) (user : Uuid) (db : Db) (store : Store)
  : result UploadError ChunkResult * Db * Store :=
  match open_for_upload now session_id user db with
  | Err e => (Err e, db, store)
  | Ok session =>
      let data_len := Z.of_nat (String.length data) in
      match claim_chunk now session index offset data_len db with
      | Some answer => (answer, db, store)
      | None =>
          match storage_put faulty (staged_chunk_key session_id index) data store with
          | Err e => (Err (storage_err e), db, store)
          | Ok store =>
              match commit_chunk now session_id index data_len (sha256 data) db with
              | Some (completed, received, db) =>
                  (Ok {| chunk_index := index; result_bytes_received := received;
                         chunks_completed := completed;
                         chunks_remaining := total_chunks session - completed |}, db, store)
              | None => let '(e, db, store) := refuse_chunk now faulty session_id index db store in (Err e, db, store)
              end
          end
      end
  end.

(** ** The HTTP request: [PATCH] with a Content-Range header *)

(** The loop that collects the body and stops beyond the declared length. *)
Fixpoint collect_body (expected_len : nat) (data : string) (blocks : list string) : option string :=
  match blocks with
  | [] => if decide (String.length data = expected_len) then Some data else None
  | b :: blocks =>
      let data := data +:+ b in
      if (expected_len <? String.length data)%nat then None else collect_body expected_len data blocks
  end.

(** The chunk the request uploads: index, offset and data; [None] is a 400. *)
Definition chunk_request (range_header : string) (session : UploadSession) (body : list string)
  : option (Z * Z * string) :=
  match parse_content_range range_header with
  | Err _ => None
  | Ok (start, stop, _) =>
      let index := as_i32 (Z.quot start (chunk_size session)) in
      let expected_len := Z.to_nat (as_u64 (as_i64 (stop - start + 1))) in
      data ← collect_body expected_len "" body;
      Some (index, start, data)
  end.

(** * The completion lease *)

(** The status, the lease and the message of a row, in one UPDATE. *)
Definition set_state (now : DateTime) (st : SessionStatus) (token : option Uuid) (lease : option DateTime)
  (error : option string) (s : UploadSession) : UploadSession :=
  {| id := id s; user_id := user_id s; repository_id := repository_id s; repository_key := repository_key s;
     artifact_path := artifact_path s; artifact_name := artifact_name s; artifact_version := artifact_version s;
     artifact_metadata_format := artifact_metadata_format s; artifact_metadata := artifact_metadata s;
     artifact_metadata_properties := artifact_metadata_properties s;
     package_description := package_description s; package_metadata := package_metadata s;
     is_replication := is_replication s; content_type := content_type s; total_size := total_size s;
     chunk_size := chunk_size s; total_chunks := total_chunks s;
     completed_chunks := completed_chunks s; bytes_received := bytes_received s;
     checksum_sha256 := checksum_sha256 s; temp_file_path := temp_file_path s;
     status := st; error_message := error; state_token := token; committing_expires_at := lease;
     staged_in_storage := staged_in_storage s; staging_purged_at := staging_purged_at s;
     created_at := created_at s; updated_at := now; expires_at := expires_at s;
     staging_storage_backend := staging_storage_backend s; staging_storage_path := staging_storage_path s |}.

Definition set_purged (now : DateTime) (s : UploadSession) : UploadSession :=
  {| id := id s; user_id := user_id s; repository_id := repository_id s; repository_key := repository_key s;
     artifact_path := artifact_path s; artifact_name := artifact_name s; artifact_version := artifact_version s;
     artifact_metadata_format := artifact_metadata_format s; artifact_metadata := artifact_metadata s;
     artifact_metadata_properties := artifact_metadata_properties s;
     package_description := package_description s; package_metadata := package_metadata s;
     is_replication := is_replication s; content_type := content_type s; total_size := total_size s;
     chunk_size := chunk_size s; total_chunks := total_chunks s;
     completed_chunks := completed_chunks s; bytes_received := bytes_received s;
     checksum_sha256 := checksum_sha256 s; temp_file_path := temp_file_path s;
     status := status s; error_message := error_message s; state_token := state_token s;
     committing_expires_at := committing_expires_at s;
     staged_in_storage := staged_in_storage s; staging_purged_at := Some now;
     created_at := created_at s; updated_at := updated_at s; expires_at := expires_at s;
     staging_storage_backend := staging_storage_backend s; staging_storage_path := staging_storage_path s |}.

(** UPDATE ... WHERE id = $1 AND guard: whether a row was affected, and the
    table. *)
Definition update_session (session_id : Uuid) (guard : UploadSession -> bool)
  (f : UploadSession -> UploadSession) (db : Db) : bool * Db :=
  match sessions db !! session_id with
  | Some s => if guard s then (true, set_sessions <[session_id := f s]> db) else (false, db)
  | None => (false, db)
  end.

Definition is_open (s : UploadSession) : bool := bool_decide (status s = Pending \/ status s = InProgress).
Definition is_terminal (s : UploadSession) : bool :=
  bool_decide (status s = Completed \/ status s = Failed \/ status s = Cancelled).
(** [committing_expires_at <= NOW()], unknown for NULL. *)
Definition lease_lapsed (now : DateTime) (s : UploadSession) : bool :=
  match committing_expires_at s with Some t => t <=? now | None => false end.
Definition lease_absent_or_lapsed (now : DateTime) (s : UploadSession) : bool :=
  match committing_expires_at s with Some t => t <=? now | None => true end.
(** [status = 'committing' AND state_token = $2], never true for a NULL. *)
Definition holds_lease (token : option Uuid) (s : UploadSession) : bool :=
  bool_decide (status s = Committing) &&
  match state_token s, token with Some a, Some b => bool_decide (a = b) | _, _ => false end.

Definition lease_until (now : DateTime) (ttl_secs : Z) : DateTime := now + ttl_secs * NANOS_PER_SEC.

(** The checks before the claim. *)
Definition open_for_completion (now : DateTime) (session_id user : Uuid) (db : Db)
  : result UploadError UploadSession :=
  let? session := get_session now session_id (Some user) db in
  if decide (status session = Completed) then Err (InvalidStatus "already completed")
  else if decide (status session = Cancelled) then Err (InvalidStatus "cancelled")
  else if staged_in_storage session then Ok session else Err LegacySession.

Definition may_claim (now : DateTime) (user : Uuid) (s : UploadSession) : bool :=
  bool_decide (user_id s = user) &&
  (is_open s || (bool_decide (status s = Committing) && lease_lapsed now s)).

(** The claim; [token] is the generated UUID. *)
Definition claim_lease (now : DateTime) (session_id user token : Uuid) (db : Db) : option (UploadSession * Db) :=
  let claim s := set_state now Committing (Some token) (Some (lease_until now COMMIT_LEASE_TTL_SECS))
                   (error_message s) s in
  match sessions db !! session_id with
  | Some s =>
      if may_claim now user s then Some (claim s, set_sessions <[session_id := claim s]> db) else None
  | None => None
  end.

Definition incomplete_chunks (session_id : Uuid) (db : Db) : nat :=
  size (filter (fun p : (Uuid * Z) * UploadChunk =>
                  fst (fst p) = session_id /\ chunk_status (snd p) <> ChunkCompleted) (chunks db)).

(** The token-guarded transitions out of [committing].  [keep_error] is the
    message an UPDATE leaves alone. *)
Definition finalize_completed (now : DateTime) (session : UploadSession) (db : Db) : bool * Db :=
  update_session (id session) (holds_lease (state_token session))
    (fun s => set_state now Completed None None (error_message s) s) db.

Definition fail_committing (now : DateTime) (session : UploadSession) (error : string) (db : Db) : Db :=
  snd (update_session (id session) (holds_lease (state_token session))
         (fun s => set_state now Failed None None (Some error) s) db).

Definition release_commit_lease (now : DateTime) (session : UploadSession) (db : Db) : Db :=
  snd (update_session (id session) (holds_lease (state_token session))
         (fun s => set_state now InProgress None None (error_message s) s) db).

Definition renew_commit_lease (now : DateTime) (session : UploadSession) (ttl_secs : Z) (db : Db) : bool * Db :=
  update_session (id session) (holds_lease (state_token session))
    (fun s => set_state now (status s) (state_token s) (Some (lease_until now ttl_secs)) (error_message s) s) db.

(** What follows the claim: count the chunks that are not completed, and give
    the lease back if there are any. *)
Definition check_complete (now : DateTime) (session : UploadSession) (db : Db)
  : result UploadError UploadSession * Db :=
  if (0 <? incomplete_chunks (id session) db)%nat
  then (Err (IncompleteChunks (completed_chunks session) (total_chunks session)),
        release_commit_lease now session db)
  else (Ok session, db).

Definition complete_session (now : DateTime) (session_id user token : Uuid) (db : Db)
  : result UploadError UploadSession * Db :=
  match open_for_completion now session_id user db with
  | Err e => (Err e, db)
  | Ok _ =>
      match claim_lease now session_id user token db with
      | None => (Err (InvalidStatus "completion already in progress"), db)
      | Some (session, db) => check_complete now session db
      end
  end.

(** * Assembly *)

(** The concatenation of the staged objects, [for index in 0..total_chunks];
    the blocks of a stream are the object. *)
Fixpoint read_chunks `{UuidCrate} (faulty : string -> bool) (store : Store) (session_id : Uuid) (indices : list Z)
  (acc : string) : result UploadError string :=
  match indices with
  | [] => Ok acc
  | i :: indices =>
      match storage_get faulty (staged_chunk_key session_id i) store with
      | Err e => Err (storage_err e)
      | Ok data => read_chunks faulty store session_id indices (acc +:+ data)
      end
  end.

Definition assemble_staged_chunks `{UuidCrate} `{Sha2} (faulty : string -> bool) (store : Store)
  (session : UploadSession) : result UploadError string :=
  let? data := read_chunks faulty store (id session) (seqZ 0 (total_chunks session)) "" in
  let size := Z.of_nat (String.length data) in
  if bool_decide (size <> total_size session) then Err (SizeMismatch (total_size session) size)
  else if bool_decide (sha256 data <> checksum_sha256 session)
  then Err (ChecksumMismatch (checksum_sha256 session) (sha256 data))
  else Ok data.

Definition checksum_message (expected actual : string) : string :=
  "checksum mismatch: expected " +:+ expected +:+ ", got " +:+ actual.

Definition settle_assembly (now : DateTime) (session : UploadSession) (r : result UploadError string) (db : Db) : Db :=
  match r with
  | Ok _ => db
  | Err (ChecksumMismatch expected actual) => fail_committing now session (checksum_message expected actual) db
  | Err _ => release_commit_lease now session db
  end.

Definition assemble_for_commit `{UuidCrate} `{Sha2} (now : DateTime) (faulty : string -> bool) (store : Store)
  (session : UploadSession) (db : Db) : result UploadError string * Db :=
  let r := assemble_staged_chunks faulty store session in (r, settle_assembly now session r db).

(** * Cancelling, expiring and purging *)

Definition may_cancel (now : DateTime) (s : UploadSession) : bool :=
  is_open s || (bool_decide (status s = Committing) && lease_absent_or_lapsed now s).

Definition cancel_session (now : DateTime) (session_id user : Uuid) (db : Db)
  : result UploadError (option UploadSession) * Db :=
  match sessions db !! session_id with
  | None => (Err NotFound, db)
  | Some session =>
      if decide (user_id session <> user) then (Err NotFound, db)
      else
        let '(cancelled, db') :=
          update_session session_id (may_cancel now)
            (fun s => set_state now Cancelled None None (error_message s) s) db in
        if cancelled then (Ok (if staged_in_storage session then Some session else None), db')
        else
          (match sessions db' !! session_id with
           | None => Err NotFound
           | Some s => if decide (status s = Cancelled) then Ok None
                       else Err (InvalidStatus (session_status_str (status s)))
           end, db')
  end.

Definition is_abandoned (now : DateTime) (s : UploadSession) : bool :=
  (expires_at s <? now) && negb (is_terminal s) &&
  (bool_decide (status s <> Committing) || lease_absent_or_lapsed now s).

(** The expiry statement of the reaper: the number of rows and the table. *)
Definition expire_sessions (now : DateTime) (db : Db) : nat * Db :=
  (size (filter (fun p : Uuid * UploadSession => is_abandoned now (snd p) = true) (sessions db)),
   set_sessions (fmap (fun s => if is_abandoned now s
                                then set_state now Cancelled None None (Some "expired") s else s)) db).

(** The deletions are concurrent and commute; they run in index order here.
    The first failure ends them and leaves the rest for the next pass. *)
Fixpoint delete_objects (faulty : string -> bool) (keys : list string) (store : Store)
  : result StorageError unit * Store :=
  match keys with
  | [] => (Ok tt, store)
  | key :: keys =>
      match storage_delete faulty key store with
      | Ok store => delete_objects faulty keys store
      | Err ObjectNotFound => delete_objects faulty keys store
      | Err Unavailable => (Err Unavailable, store)
      end
  end.

Definition delete_staged_chunk_objects `{UuidCrate} (faulty : string -> bool) (session_id : Uuid)
  (total_chunks : Z) (store : Store) : result UploadError unit * Store :=
  let '(r, store) := delete_objects faulty (staged_chunk_key session_id <$> seqZ 0 total_chunks) store in
  (match r with Ok _ => Ok tt | Err e => Err (storage_err e) end, store).

Definition purge_staged_chunks `{UuidCrate} (now : DateTime) (faulty : string -> bool) (session_id : Uuid)
  (total_chunks : Z) (db : Db) (store : Store) : result UploadError unit * Db * Store :=
  match delete_staged_chunk_objects faulty session_id total_chunks store with
  | (Err e, store) => (Err e, db, store)
  | (Ok _, store) =>
      (Ok tt,
       snd (update_session session_id (fun s => bool_decide (staging_purged_at s = None)) (set_purged now) db),
       store)
  end.

(** ** The purge pass of the reaper *)

Definition STAGING_PURGE_OBJECT_BUDGET : Z := 50000.
Definition ORPHAN_PURGE_MAX_ATTEMPTS : Z := 24.

Notation StorageRegistry := (gmap StorageLocation Store).

(** A candidate row: id, chunk count, location, and its ORDER BY column. *)
Record Candidate := { c_id : Uuid; c_chunks : Z; c_location : StorageLocation; c_order : DateTime }.

Definition session_candidate (s : UploadSession) : option Candidate :=
  if staged_in_storage s && bool_decide (staging_purged_at s = None) && is_terminal s then
    backend ← staging_storage_backend s;
    Some {| c_id := id s; c_chunks := total_chunks s;
            c_location := (backend, default "" (staging_storage_path s)); c_order := updated_at s |}
  else None.

Definition orphan_candidate (p : Uuid * Orphan) : option Candidate :=
  if attempts (snd p) <? ORPHAN_PURGE_MAX_ATTEMPTS
  then Some {| c_id := fst p; c_chunks := orphan_total_chunks (snd p);
               c_location := orphan_location (snd p); c_order := orphan_created_at (snd p) |}
  else None.

(** The candidates of one SELECT, before [LIMIT 1]. *)
Definition purge_candidates (of_orphans : bool) (failed : list Uuid) (db : Db) : list Candidate :=
  base.filter (fun c => c_id c ∉ failed)
    (if of_orphans then omap orphan_candidate (map_to_list (orphans db))
     else omap (fun p => session_candidate (snd p)) (map_to_list (sessions db))).

Definition next_candidate (of_orphans : bool) (failed : list Uuid) (db : Db) : option Candidate :=
  head (sort_by (cmp_on c_order Z.compare) (purge_candidates of_orphans failed db)).

Definition bump_attempts (o : Orphan) : Orphan :=
  {| orphan_total_chunks := orphan_total_chunks o; orphan_location := orphan_location o;
     orphan_created_at := orphan_created_at o; attempts := attempts o + 1 |}.

Record PurgeState := {
  ps_budget : Z;
  ps_purged : Z;
  ps_failed : list Uuid;
  ps_db : Db;
  ps_registry : StorageRegistry
}.

(** The deletion of one candidate's objects from its backend. *)
Definition purge_objects `{UuidCrate} (faulty : string -> bool) (c : Candidate) (registry : StorageRegistry)
  : result UploadError unit * StorageRegistry :=
  match registry !! c_location c with
  | None => (Err (Storage "backend not registered"), registry)
  | Some store =>
      let '(r, store) := delete_staged_chunk_objects faulty (c_id c) (c_chunks c) store in
      (r, <[c_location c := store]> registry)
  end.

(** One iteration of the inner loop, after its SELECT. *)
Definition purge_one `{UuidCrate} (now : DateTime) (faulty : string -> bool) (of_orphans : bool) (c : Candidate)
  (st : PurgeState) : PurgeState :=
  let budget := ps_budget st - Z.max (c_chunks c) 1 in
  match purge_objects faulty c (ps_registry st) with
  | (Err _, registry) =>
      {| ps_budget := budget; ps_purged := ps_purged st; ps_failed := ps_failed st ++ [c_id c];
         ps_db := if of_orphans then set_orphans (alter bump_attempts (c_id c)) (ps_db st) else ps_db st;
         ps_registry := registry |}
  | (Ok _, registry) =>
      {| ps_budget := budget; ps_purged := ps_purged st + 1; ps_failed := ps_failed st;
         ps_db := if of_orphans then set_orphans (delete (c_id c)) (ps_db st)
                  else set_sessions (alter (set_purged now) (c_id c)) (ps_db st);
         ps_registry := registry |}
  end.

(** [while budget > 0 { SELECT ...; else break }]: every round takes at least
    one from the budget, so [fuel] as large as the budget is enough. *)
Fixpoint purge_loop `{UuidCrate} (fuel : nat) (now : DateTime) (faulty : string -> bool) (of_orphans : bool)
  (st : PurgeState) : PurgeState :=
  match fuel with
  | O => st
  | S fuel =>
      if ps_budget st <=? 0 then st
      else
        match next_candidate of_orphans (ps_failed st) (ps_db st) with
        | None => st
        | Some c => purge_loop fuel now faulty of_orphans (purge_one now faulty of_orphans c st)
        end
  end.

Definition purge_unreclaimed_staging `{UuidCrate} (now : DateTime) (faulty : string -> bool) (db : Db)
  (registry : StorageRegistry) : PurgeState :=
  let run of_orphans st := purge_loop (Z.to_nat (ps_budget st)) now faulty of_orphans st in
  run true (run false
    {| ps_budget := STAGING_PURGE_OBJECT_BUDGET; ps_purged := 0; ps_failed := [];
       ps_db := db; ps_registry := registry |}).

Definition cleanup_expired `{UuidCrate} (now : DateTime) (faulty : string -> bool) (db : Db)
  (registry : StorageRegistry) : nat * PurgeState :=
  let '(count, db) := expire_sessions now db in
  (count, purge_unreclaimed_staging now faulty db registry).

#[global] Arguments staged_chunk_key {_} _ _ : simpl never.
#[global] Arguments placeholder_range _ _ _ _ : simpl never.
