(* ===== verification/UploadFacts.v ===== *)
(** Chunked uploads: what single operations promise.

    - [create_session_partition]: the placeholders of a session;
    - [upload_roundtrip]: a file sent in pieces comes back whole;
    - [chunk_request_roundtrip]: the Content-Range of a chunk request;
    - [validated_path_safe]: accepted artifact paths;
    - [purge_pass_complete]: the reaper's purge pass ends and misses nothing. *)

From stdpp Require Import base list strings pretty gmap.
From Stdlib Require Import ZArith Lia Ascii.
From S2P Require Import Prelude RustStr RustNum Chrono Upload.

Local Open Scope string_scope.
Local Open Scope list_scope.
Local Open Scope Z_scope.
Local Open Scope result_scope.

(** * The placeholders of a session *)

Lemma chunk_count_small total cs :
  0 < total -> 0 < cs <= MAX_CHUNK_SIZE -> total <= I32_MAX * cs ->
  0 < chunk_count total cs <= I32_MAX /\
  (chunk_count total cs - 1) * cs < total <= chunk_count total cs * cs.
Proof.
  unfold chunk_count, I32_MAX, MAX_CHUNK_SIZE. intros Ht Hcs Hb.
  rewrite (as_i64_id (total + cs)), as_i64_id by nia.
  rewrite Z.quot_div_nonneg by lia.
  pose proof (Z.div_mod (total + cs - 1) cs) as Hd. pose proof (Z.mod_pos_bound (total + cs - 1) cs) as Hm.
  set (q := (total + cs - 1) / cs) in *. assert (0 < q <= 2 ^ 31 - 1) by nia.
  rewrite as_i32_id by lia. nia.
Qed.

Lemma placeholder_range_inside total cs n i :
  0 < cs <= MAX_CHUNK_SIZE -> 0 <= i < n -> n <= I32_MAX -> (n - 1) * cs < total <= n * cs ->
  placeholder_range total cs n i = (i * cs, Z.min cs (total - i * cs)).
Proof.
  unfold placeholder_range, MAX_CHUNK_SIZE, I32_MAX. intros Hcs Hi Hn Ht.
  rewrite (as_i64_id (i * cs)) by nia. f_equal.
  destruct (Z.eqb_spec i (n - 1)) as [->|Hne].
  - rewrite as_i64_id, as_i32_id by nia. nia.
  - nia.
Qed.

Lemma insert_placeholders_lookup sid total cs n m key :
  insert_placeholders sid total cs n m !! key =
    if decide (fst key = sid /\ 0 <= snd key < n) then Some (new_chunk (placeholder_range total cs n (snd key)))
    else m !! key.
Proof.
  unfold insert_placeholders. set (f := fun m i => _).
  assert (H : forall l, foldl f m l !! key =
    if decide (fst key = sid /\ snd key ∈ l) then Some (new_chunk (placeholder_range total cs n (snd key)))
    else m !! key).
  { intros l. induction l as [|i l IH] using rev_ind.
    - cbn. destruct (decide _) as [[_ H]|]; [by apply elem_of_nil in H|done].
    - rewrite foldl_app. cbn. unfold f at 1. destruct (decide (key = (sid, i))) as [->|Hne].
      + rewrite lookup_insert_eq, decide_True; [done|]. split; [done|]. apply elem_of_app. right. by left.
      + rewrite lookup_insert_ne by congruence. rewrite IH. apply decide_ext.
        rewrite elem_of_app, list_elem_of_singleton. destruct key as [a b]. cbn in *. naive_solver. }
  rewrite H. apply decide_ext. by rewrite elem_of_seqZ.
Qed.

(** The declared lengths of a session's chunk rows, in index order. *)
Definition row_lengths (session_id : Uuid) (n : Z) (db : Db) : list Z :=
  omap (fun i => byte_length <$> chunks db !! (session_id, i)) (seqZ 0 n).

Lemma create_session_inv `{UuidCrate} now sid p db s db' :
  create_session now sid p db = Ok (s, db') ->
  exists cs at_, cs = default DEFAULT_CHUNK_SIZE (p_chunk_size p) /\ MIN_CHUNK_SIZE <= cs <= MAX_CHUNK_SIZE /\
    0 < p_total_size p /\ sessions db !! sid = None /\
    s = new_session now sid p cs (chunk_count (p_total_size p) cs) at_ /\
    db' = set_chunks (insert_placeholders sid (p_total_size p) cs (chunk_count (p_total_size p) cs))
            (set_sessions <[sid := s]> db).
Proof.
  unfold create_session. destruct (Z.leb_spec (p_total_size p) 0); [done|].
  destruct (enforce_max_total_size _ _); cbn [rbind]; [|done].
  destruct (_ || _) eqn:Hcs; [done|]. apply orb_false_iff in Hcs as [?%Z.ltb_ge ?%Z.ltb_ge].
  destruct (repositories db !! p_repo_id p) as [at_|]; [|done].
  destruct (sessions db !! sid) eqn:?; [done|]. intros [= <- <-]. eauto 10.
Qed.

Lemma row_lengths_created `{UuidCrate} now sid p db s db' :
  create_session now sid p db = Ok (s, db') ->
  row_lengths sid (total_chunks s) db' =
    (fun i => snd (placeholder_range (total_size s) (chunk_size s) (total_chunks s) i)) <$> seqZ 0 (total_chunks s).
Proof.
  intros (cs & at_ & _ & _ & _ & _ & -> & ->)%create_session_inv. unfold row_lengths. cbn.
  set (n := chunk_count _ _).
  assert (Hl : forall l : list Z, (forall i, i ∈ l -> 0 <= i < n) ->
    omap (fun i => byte_length <$> insert_placeholders sid (p_total_size p) cs n (chunks db) !! (sid, i)) l =
    (fun i => snd (placeholder_range (p_total_size p) cs n i)) <$> l).
  { intros l. induction l as [|i l IH]; intros Hl; [done|]. cbn.
    rewrite insert_placeholders_lookup, decide_True by (split; [done|]; apply Hl; by left).
    cbn. f_equal. apply IH. intros j Hj. apply Hl. by right. }
  apply Hl. intros i Hi%elem_of_seqZ. lia.
Qed.

Lemma seqZ_of_nat m n : seqZ m n = seqZ m (Z.of_nat (Z.to_nat n)).
Proof. destruct (Z.le_gt_cases 0 n); [by rewrite Z2Nat.id | rewrite !seqZ_nil by lia; done]. Qed.

(** Sizes beyond [I32_MAX] chunks are never covered by their placeholders. *)
Lemma placeholders_short total cs :
  MIN_CHUNK_SIZE <= cs <= MAX_CHUNK_SIZE -> I32_MAX * cs < total <= I64_MAX ->
  sumZ ((fun i => snd (placeholder_range total cs (chunk_count total cs) i)) <$> seqZ 0 (chunk_count total cs)) < total.
Proof.
  unfold MIN_CHUNK_SIZE, MAX_CHUNK_SIZE, I32_MAX, I64_MAX. intros Hcs Ht.
  set (n := chunk_count total cs).
  assert (Hn : - 2 ^ 31 <= n < 2 ^ 31) by apply (wrap_signed_range 32 _ eq_refl).
  destruct (Z.le_gt_cases n 0) as [Hn0|Hn0]; [rewrite seqZ_nil by done; cbn; nia|].
  (* all rows but the last have the chunk size *)
  assert (Hsum : sumZ ((fun i => snd (placeholder_range total cs n i)) <$> seqZ 0 n) <= (n - 1) * cs + (2 ^ 31 - 1)).
  { rewrite (seqZ_of_nat 0 n). replace (Z.to_nat n) with (S (Z.to_nat (n - 1))) by lia.
    rewrite seqZ_S, fmap_app, sumZ_app. set (k := Z.to_nat (n - 1)).
    assert (Z.of_nat k = n - 1) as Ek by lia.
    assert (sumZ ((fun i => snd (placeholder_range total cs n i)) <$> seqZ 0 (Z.of_nat k)) <= Z.of_nat k * cs) as H1.
    { apply sumZ_upper. intros i Hi. unfold placeholder_range. cbn. rewrite (proj2 (Z.eqb_neq _ _)); lia. }
    unfold sumZ at 2. cbn [fmap list_fmap foldr]. unfold placeholder_range at 2. cbn [snd].
    rewrite (proj2 (Z.eqb_eq _ _)) by lia. rewrite Z.add_0_r.
    assert (forall z, as_i32 z <= 2 ^ 31 - 1) as H2 by (intros z; pose proof (wrap_signed_range 32 z eq_refl) as [_ ?]; unfold as_i32; lia).
    specialize (H2 (as_i64 (total - as_i64 ((0 + Z.of_nat k) * cs)))). lia. }
  destruct (Z.lt_ge_cases (total + cs) (2 ^ 63)) as [Hov|Hov]; [|nia].
  (* the true count is at least 2^32 - 1 above the wrapped one, or n is the true count *)
  unfold chunk_count, as_i32, wrap_signed in n.
  set (q := Z.quot (as_i64 (as_i64 (total + cs) - 1)) cs) in *.
  assert (q = (total + cs - 1) / cs) as Eq.
  { unfold q. rewrite (as_i64_id (total + cs)), as_i64_id by lia. apply Z.quot_div_nonneg; lia. }
  pose proof (Z.div_mod (total + cs - 1) cs). pose proof (Z.mod_pos_bound (total + cs - 1) cs).
  assert (2 ^ 31 <= q) as Hq by nia.
  pose proof (Z.div_mod (q + 2 ^ 31) (2 ^ 32)). pose proof (Z.mod_pos_bound (q + 2 ^ 31) (2 ^ 32)).
  change (2 ^ (32 - 1)) with (2 ^ 31) in n.
  assert (1 <= (q + 2 ^ 31) / 2 ^ 32) by (apply Z.div_le_lower_bound; lia).
  assert (n + 2 ^ 32 <= q) by (unfold n; nia).
  nia.
Qed.

(** A new session's placeholders cut the declared size into consecutive
    pieces of the chunk size, each positive and the last one possibly shorter,
    so that uploading exactly these pieces uploads exactly the file; this holds
    for every size up to [I32_MAX] chunks.  Beyond it the [i32] cast of the
    chunk count wraps around, the request is still accepted, and the
    placeholders never add up to the declared size. *)
Theorem create_session_partition `{UuidCrate} now sid p db s db' :
  p_total_size p <= I64_MAX ->
  create_session now sid p db = Ok (s, db') ->
  (total_size s <= I32_MAX * chunk_size s ->
   0 < total_chunks s <= I32_MAX /\
   (total_chunks s - 1) * chunk_size s < total_size s <= total_chunks s * chunk_size s /\
   forall i, 0 <= i < total_chunks s -> exists row,
     chunks db' !! (sid, i) = Some row /\ chunk_status row = ChunkPending /\
     byte_offset row = i * chunk_size s /\ 0 < byte_length row <= chunk_size s /\
     byte_offset row + byte_length row = Z.min ((i + 1) * chunk_size s) (total_size s)) /\
  (sumZ (row_lengths sid (total_chunks s) db') = total_size s <-> total_size s <= I32_MAX * chunk_size s).
Proof.
  intros Hmax Hc. rewrite (row_lengths_created _ _ _ _ _ _ Hc).
  apply create_session_inv in Hc as (cs & at_ & _ & Hcs & Hpos & _ & -> & ->). cbn -[placeholder_range].
  set (total := p_total_size p) in *. set (n := chunk_count total cs).
  assert (Hsmall : total <= I32_MAX * cs -> 0 < n <= I32_MAX /\ (n - 1) * cs < total <= n * cs).
  { intros. apply chunk_count_small; [done| |done]. unfold MIN_CHUNK_SIZE in *. lia. }
  assert (Hr : total <= I32_MAX * cs -> forall i, 0 <= i < n ->
    placeholder_range total cs n i = (i * cs, Z.min cs (total - i * cs))).
  { intros Hb i Hi. destruct (Hsmall Hb). apply placeholder_range_inside; unfold MIN_CHUNK_SIZE in *; lia. }
  split; [|split].
  - intros Hb. destruct (Hsmall Hb) as [Hn Hcover]. split; [done|]. split; [done|]. intros i Hi.
    rewrite insert_placeholders_lookup, decide_True by (by split). fold n. cbn [snd]. rewrite (Hr Hb i Hi).
    assert (i * cs <= (n - 1) * cs) by (apply Z.mul_le_mono_nonneg_r; unfold MIN_CHUNK_SIZE in *; lia).
    eexists. split; [done|]. unfold MIN_CHUNK_SIZE in *. cbn. do 2 (split; [done|]). lia.
  - intros Hs. destruct (Z.le_gt_cases total (I32_MAX * cs)) as [|Hb]; [done|].
    pose proof (placeholders_short total cs Hcs ltac:(lia)) as Hlt.
    exfalso. apply (Z.lt_irrefl total). rewrite <- Hs at 1. exact Hlt.
  - intros Hb. destruct (Hsmall Hb) as [Hn Hcover].
    transitivity (sumZ ((fun i => Z.max 0 (Z.min cs (total - i * cs))) <$> seqZ 0 n)).
    + f_equal. apply list_fmap_ext. intros k i Hk%list_elem_of_lookup_2%elem_of_seqZ.
      rewrite (Hr Hb i) by lia. cbn [snd]. assert (i * cs <= (n - 1) * cs); [|lia].
      apply Z.mul_le_mono_nonneg_r; unfold MIN_CHUNK_SIZE in *; [lia|].
      lia.
    + rewrite seqZ_of_nat, sum_pieces by (unfold MIN_CHUNK_SIZE in *; lia). lia.
Qed.

(** * Uploading a whole file *)

Section Roundtrip.
Context `{UuidCrate} `{Sha2}.

(** Piece [i] of a file. *)
Definition piece (cs : Z) (data : string) (i : Z) : string :=
  String.substring (Z.to_nat (i * cs)) (Z.to_nat cs) data.

(** One request of a client: when it is served, what the backend refuses then,
    and the chunk it carries. *)
Record ChunkRequest := { at_time : DateTime; backend_faults : string -> bool; of_index : Z }.

(** The client sends pieces of one file in some order, repeating some. *)
Fixpoint upload_pieces (session_id user : Uuid) (cs : Z) (data : string) (reqs : list ChunkRequest)
  (db : Db) (store : Store) : Db * Store :=
  match reqs with
  | [] => (db, store)
  | r :: reqs =>
      let '(_, db, store) :=
        upload_chunk (at_time r) (backend_faults r) session_id (of_index r) (of_index r * cs)
          (piece cs data (of_index r)) user db store in
      upload_pieces session_id user cs data reqs db store
  end.

Lemma staged_chunk_key_inj_index sid i j : staged_chunk_key sid i = staged_chunk_key sid j -> i = j.
Proof. unfold staged_chunk_key. intros E%append_inj_l. injection E as E. by apply (zero_pad_inj 8). Qed.

(** What the rows of a session in progress say about the file [data]. *)
Record staging (s0 : UploadSession) (data : string) (db : Db) (store : Store) (s : UploadSession) : Prop := {
  st_row : sessions db !! id s0 = Some s;
  st_same : id s = id s0 /\ user_id s = user_id s0 /\ total_size s = total_size s0 /\
    total_chunks s = total_chunks s0 /\ checksum_sha256 s = checksum_sha256 s0 /\
    expires_at s = expires_at s0 /\ staged_in_storage s = true;
  st_open : status s = Pending \/ status s = InProgress;
  st_chunks : forall i, 0 <= i < total_chunks s0 -> exists row,
    chunks db !! (id s0, i) = Some row /\
    byte_offset row = i * chunk_size s0 /\
    byte_length row = Z.of_nat (String.length (piece (chunk_size s0) data i)) /\
    (chunk_status row = ChunkPending \/
     chunk_status row = ChunkCompleted /\
     store !! staged_chunk_key (id s0) i = Some (piece (chunk_size s0) data i));
  st_range : forall i, is_Some (chunks db !! (id s0, i)) -> 0 <= i < total_chunks s0
}.

Definition chunk_done (sid : Uuid) (db : Db) (i : Z) : Prop :=
  exists row, chunks db !! (sid, i) = Some row /\ chunk_status row = ChunkCompleted.

(** A request for an open session, answered under the chunk lock. *)
Lemma open_for_upload_ok now s user db :
  sessions db !! id s = Some s -> user_id s = user -> now <= expires_at s -> is_open s = true ->
  staged_in_storage s = true -> open_for_upload now (id s) user db = Ok s.
Proof.
  intros Hrow Hu He Hopen Hs. unfold open_for_upload, get_session. rewrite Hrow. cbn [ok_or rbind].
  rewrite bool_decide_eq_false_2 by (intros HH; apply HH; congruence).
  rewrite (proj2 (Z.ltb_ge _ _)) by lia. cbn [rbind]. rewrite Hs.
  apply bool_decide_eq_true in Hopen. by destruct Hopen as [-> | ->].
Qed.

Lemma claim_chunk_done now s i offset len db row :
  chunks db !! (id s, i) = Some row -> chunk_status row = ChunkCompleted ->
  exists r, claim_chunk now s i offset len db = Some (Ok r).
Proof. intros Hr Hs. unfold claim_chunk. rewrite Hr, Hs. eauto. Qed.

Lemma claim_chunk_pending now s i len db row :
  chunks db !! (id s, i) = Some row -> chunk_status row = ChunkPending -> len = byte_length row ->
  claim_chunk now s i (byte_offset row) len db = None.
Proof.
  intros Hr Hs ->. unfold claim_chunk. rewrite Hr, Hs.
  by rewrite !bool_decide_eq_false_2 by (intros HH; by apply HH).
Qed.

Lemma commit_chunk_open now s i len sum db :
  sessions db !! id s = Some s -> is_open s = true ->
  commit_chunk now (id s) i len sum db =
    Some (completed_chunks s + 1, bytes_received s + len,
          set_chunks (alter (mark_chunk_completed now sum) (id s, i))
            (set_sessions <[id s := count_chunk now len s]> db)).
Proof.
  intros Hrow Hopen%bool_decide_eq_true. unfold commit_chunk. rewrite Hrow. by destruct Hopen as [-> | ->].
Qed.

Lemma staging_open s0 data db store s : staging s0 data db store s -> is_open s = true.
Proof. intros Hst. apply bool_decide_eq_true. apply Hst. Qed.

(** The chunk that is stored and committed. *)
Lemma staging_commit s0 data db store s now i :
  staging s0 data db store s -> 0 <= i < total_chunks s0 ->
  let len := Z.of_nat (String.length (piece (chunk_size s0) data i)) in
  let db' := set_chunks (alter (mark_chunk_completed now (sha256 (piece (chunk_size s0) data i))) (id s0, i))
               (set_sessions <[id s0 := count_chunk now len s]> db) in
  staging s0 data db' (<[staged_chunk_key (id s0) i := piece (chunk_size s0) data i]> store)
    (count_chunk now len s) /\
  (forall j, j = i \/ chunk_done (id s0) db j -> 0 <= j -> chunk_done (id s0) db' j).
Proof.
  intros [Hrow Hsame Hopen Hch Hrange] Hi len db'. destruct (Hch i Hi) as (row & Er & Eo & El & Es).
  assert (Hl : forall j, chunks db' !! (id s0, j) =
    if decide (j = i) then Some (mark_chunk_completed now (sha256 (piece (chunk_size s0) data i)) row)
    else chunks db !! (id s0, j)).
  { intros j. unfold db'. cbn. destruct (decide (j = i)) as [->|Hne].
    - by rewrite lookup_alter_eq, Er.
    - by rewrite lookup_alter_ne by congruence. }
  split; [constructor|].
  - cbn. by rewrite lookup_insert_eq.
  - cbn. tauto.
  - cbn. destruct Hopen as [-> | ->]; by right.
  - intros j Hj. rewrite Hl. destruct (decide (j = i)) as [->|Hne].
    + eexists. split; [done|]. cbn. rewrite Eo, El. do 2 (split; [done|]). right.
      split; [done|]. apply lookup_insert_eq.
    + destruct (Hch j Hj) as (rowj & Ej & ? & ? & Hs). exists rowj. do 3 (split; [done|]).
      rewrite lookup_insert_ne; [done|]. intros E%staged_chunk_key_inj_index. lia.
  - intros j. rewrite Hl. destruct (decide (j = i)) as [->|]; [done|apply Hrange].
  - intros j Hj Hj0. unfold chunk_done. rewrite Hl. destruct (decide (j = i)) as [->|Hne]; [by eexists|].
    destruct Hj as [->|Hj]; [done|]. exact Hj.
Qed.

(** The effect of one request of the client. *)
Lemma upload_piece_step s0 data db store s r :
  staging s0 data db store s ->
  0 <= of_index r < total_chunks s0 -> at_time r <= expires_at s0 ->
  let '(_, db', store') :=
    upload_chunk (at_time r) (backend_faults r) (id s0) (of_index r) (of_index r * chunk_size s0)
      (piece (chunk_size s0) data (of_index r)) (user_id s0) db store in
  (exists s', staging s0 data db' store' s') /\
  (forall i, 0 <= i -> chunk_done (id s0) db i -> chunk_done (id s0) db' i) /\
  (backend_faults r (staged_chunk_key (id s0) (of_index r)) = false -> chunk_done (id s0) db' (of_index r)).
Proof.
  intros Hst Hi Ht. pose proof (staging_open _ _ _ _ _ Hst) as Hopen.
  pose proof Hst as [Hrow (Hid & Hu & Hts & Htc & Hck & He & Hss) _ Hch _].
  destruct (Hch _ Hi) as (row & Erow & Eo & El & Est).
  rewrite <- Hid in Hrow, Erow. unfold upload_chunk.
  replace (open_for_upload (at_time r) (id s0) (user_id s0) db) with (@Ok UploadError _ s)
    by (rewrite <- Hid; symmetry; apply open_for_upload_ok; by (try lia)).
  destruct Est as [Est | [Est Hobj]].
  - rewrite <- Eo, (claim_chunk_pending _ s _ _ _ row) by done. unfold storage_put.
    destruct (backend_faults r _) eqn:Hf; [by split; [exists s|]|].
    pose proof (commit_chunk_open (at_time r) s (of_index r)
      (Z.of_nat (String.length (piece (chunk_size s0) data (of_index r))))
      (sha256 (piece (chunk_size s0) data (of_index r))) db Hrow Hopen) as Ec.
    rewrite Hid in Ec. rewrite Ec. clear Ec.
    pose proof (staging_commit s0 data db store s (at_time r) _ Hst Hi) as [Hst' Hdone].
    split; [by eexists|]. split; [intros i ??; apply Hdone; [by right|done]|].
    intros _. apply Hdone; [by left|lia].
  - destruct (claim_chunk_done (at_time r) s _ (of_index r * chunk_size s0)
      (Z.of_nat (String.length (piece (chunk_size s0) data (of_index r)))) db row Erow Est) as [x ->].
    split; [by exists s|]. split; [done|]. intros _. exists row. by rewrite <- Hid.
Qed.

Lemma upload_pieces_done s0 data reqs : forall db store s,
  staging s0 data db store s ->
  Forall (fun r => 0 <= of_index r < total_chunks s0 /\ at_time r <= expires_at s0) reqs ->
  let '(db', store') := upload_pieces (id s0) (user_id s0) (chunk_size s0) data reqs db store in
  (exists s', staging s0 data db' store' s') /\
  (forall i, 0 <= i -> chunk_done (id s0) db i -> chunk_done (id s0) db' i) /\
  (forall r, r ∈ reqs -> backend_faults r (staged_chunk_key (id s0) (of_index r)) = false ->
     chunk_done (id s0) db' (of_index r)).
Proof.
  induction reqs as [|r reqs IH]; intros db store s Hst Hall; cbn [upload_pieces].
  { split; [by exists s|]. split; [done|]. by intros r Hr%elem_of_nil. }
  apply Forall_cons in Hall as [[Hi Ht] Hall].
  pose proof (upload_piece_step s0 data db store s r Hst Hi Ht) as Hstep.
  destruct (upload_chunk _ _ _ _ _ _ _ _ _) as [[x db1] store1]. destruct Hstep as ([s1 H1] & Hmono & Hdone).
  specialize (IH db1 store1 s1 H1 Hall). destruct (upload_pieces _ _ _ _ _ _ _) as [db2 store2].
  destruct IH as (Hst2 & Hmono2 & Hdone2). split; [done|]. split; [eauto|].
  intros r' [->|Hr']%elem_of_cons Hf; [apply Hmono2; [lia|auto]|by apply Hdone2].
Qed.

(** ** Reading the pieces back *)

Lemma read_chunks_all faulty store sid l acc (f : Z -> string) :
  (forall i, i ∈ l -> faulty (staged_chunk_key sid i) = false /\ store !! staged_chunk_key sid i = Some (f i)) ->
  read_chunks faulty store sid l acc = Ok (acc +:+ concat_str (f <$> l)).
Proof.
  revert acc. induction l as [|i l IH]; intros acc Hl; cbn [read_chunks fmap list_fmap]; [by rewrite append_nil_r|].
  destruct (Hl i) as [Hf Hs]; [by left|]. unfold storage_get. rewrite Hf, Hs. cbn [ok_or].
  rewrite IH by (intros; apply Hl; by right). cbn. by rewrite <- append_assoc.
Qed.

Lemma concat_str_app l k : concat_str (l ++ k) = concat_str l +:+ concat_str k.
Proof. unfold concat_str. induction l as [|x l IH]; cbn; [done|]. by rewrite IH, append_assoc. Qed.

Lemma concat_pieces cs data n : 0 < cs ->
  concat_str (piece cs data <$> seqZ 0 (Z.of_nat n)) = String.substring 0 (Z.to_nat (Z.of_nat n * cs)) data.
Proof.
  intros Hcs. induction n as [|n IH]; [by destruct data|].
  rewrite seqZ_S, fmap_app, concat_str_app, IH. cbn [fmap list_fmap]. rewrite Z.add_0_l.
  replace (Z.to_nat (Z.of_nat (S n) * cs)) with (Z.to_nat (Z.of_nat n * cs) + Z.to_nat cs)%nat by lia.
  rewrite substring_0_add. f_equal. apply append_nil_r.
Qed.

Lemma concat_all_pieces cs data n :
  0 < cs -> Z.of_nat (String.length data) <= n * cs ->
  concat_str (piece cs data <$> seqZ 0 n) = data.
Proof.
  intros Hcs Hn. rewrite seqZ_of_nat, concat_pieces by done. apply substring_all.
  destruct (Z.le_gt_cases 0 n); [rewrite Z2Nat.id by done; lia|]. nia.
Qed.

Lemma created_staging now sid p db s db' store data :
  create_session now sid p db = Ok (s, db') -> (forall i, chunks db !! (sid, i) = None) ->
  p_total_size p = Z.of_nat (String.length data) -> p_total_size p <= I32_MAX * chunk_size s ->
  staging s data db' store s /\ id s = sid /\ 0 < chunk_size s /\
  p_total_size p <= total_chunks s * chunk_size s.
Proof.
  intros (cs & at_ & _ & Hcs & Hpos & _ & -> & ->)%create_session_inv Hnone Ht Hb.
  cbn -[placeholder_range] in *. unfold MIN_CHUNK_SIZE in *.
  destruct (chunk_count_small (p_total_size p) cs) as [Hn Hc]; [done|lia|done|].
  split; [|split; [done|split; lia]]. constructor; cbn -[placeholder_range].
  - apply lookup_insert_eq.
  - done.
  - by left.
  - intros i Hi. rewrite insert_placeholders_lookup, decide_True by (by split).
    eexists. split; [done|]. cbn [snd]. rewrite placeholder_range_inside by lia. cbn.
    split; [done|]. split; [|by left]. unfold piece. rewrite length_substring. nia.
  - intros i [row Hr]. rewrite insert_placeholders_lookup, Hnone in Hr.
    by destruct (decide _) as [[_ ?]|].
Qed.

Lemma no_incomplete sid db :
  (forall i row, chunks db !! (sid, i) = Some row -> chunk_status row = ChunkCompleted) ->
  incomplete_chunks sid db = 0%nat.
Proof.
  intros Hall. unfold incomplete_chunks. apply map_size_empty_iff, map_empty_filter_2.
  intros [sid' i] row Hrow [Hs Hn]. cbn in *. subst. eapply Hn, Hall, Hrow.
Qed.

Definition claimed (now : DateTime) (token : Uuid) (s : UploadSession) : UploadSession :=
  set_state now Committing (Some token) (Some (lease_until now COMMIT_LEASE_TTL_SECS)) (error_message s) s.

(** A completion request for an open session whose chunks are all there. *)
Lemma complete_open_session now s token db :
  sessions db !! id s = Some s -> is_open s = true -> now <= expires_at s -> staged_in_storage s = true ->
  incomplete_chunks (id s) db = 0%nat ->
  complete_session now (id s) (user_id s) token db =
    (Ok (claimed now token s), set_sessions <[id s := claimed now token s]> db).
Proof.
  intros Hrow Hopen He Hs Hinc. unfold complete_session, open_for_completion, get_session.
  rewrite Hrow. cbn [ok_or rbind].
  rewrite bool_decide_eq_false_2 by (intros HH; by apply HH).
  rewrite (proj2 (Z.ltb_ge _ _)) by lia. cbn [rbind].
  pose proof Hopen as Ho%bool_decide_eq_true.
  rewrite !decide_False by (destruct Ho; congruence). rewrite Hs.
  unfold claim_lease. rewrite Hrow. unfold may_claim. rewrite bool_decide_eq_true_2, Hopen by done.
  cbn [andb orb]. unfold check_complete.
  replace (incomplete_chunks _ _) with 0%nat by (symmetry; exact Hinc). done.
Qed.

(** The owner of the lease finalizes. *)
Lemma finalize_claimed now now' token s db :
  let db' := set_sessions <[id s := claimed now token s]> db in
  exists db'' s'', finalize_completed now' (claimed now token s) db' = (true, db'') /\
    sessions db'' !! id s = Some s'' /\ status s'' = Completed.
Proof.
  cbn. unfold finalize_completed, update_session. cbn. rewrite lookup_insert_eq.
  unfold holds_lease. cbn. rewrite !bool_decide_eq_true_2 by done. cbn.
  eexists _, _. split; [done|]. cbn. rewrite lookup_insert_eq. done.
Qed.

Lemma assemble_pieces faulty store s data cs :
  (forall key, faulty key = false) ->
  (forall i, 0 <= i < total_chunks s -> store !! staged_chunk_key (id s) i = Some (piece cs data i)) ->
  0 < cs -> total_size s = Z.of_nat (String.length data) -> total_size s <= total_chunks s * cs ->
  checksum_sha256 s = sha256 data ->
  assemble_staged_chunks faulty store s = Ok data.
Proof.
  intros Hf Hobj Hcs Ht Hn Hk. unfold assemble_staged_chunks.
  rewrite (read_chunks_all faulty store (id s) _ "" (piece cs data)).
  2: { intros i Hi%elem_of_seqZ. split; [apply Hf|apply Hobj; lia]. }
  cbn [rbind String.append]. rewrite concat_all_pieces, Ht, Hk by lia.
  by rewrite !bool_decide_eq_false_2 by (intros HH; by apply HH).
Qed.

(** C29. A file uploaded in chunks arrives whole.  However the client orders
    and repeats its requests, and whatever the backend refuses meanwhile, once
    every piece went through in time, the completion takes the lease, the
    assembly returns exactly the bytes of the file, and the finalization
    succeeds. *)
Theorem upload_roundtrip now0 sid p db0 s db1 store data reqs now token faulty :
  create_session now0 sid p db0 = Ok (s, db1) ->
  (forall i, chunks db0 !! (sid, i) = None) ->
  p_total_size p = Z.of_nat (String.length data) -> p_total_size p <= I32_MAX * chunk_size s ->
  p_checksum_sha256 p = sha256 data ->
  Forall (fun r => 0 <= of_index r < total_chunks s /\ at_time r <= expires_at s) reqs ->
  (forall i, 0 <= i < total_chunks s -> exists r,
     r ∈ reqs /\ of_index r = i /\ backend_faults r (staged_chunk_key sid i) = false) ->
  now <= expires_at s -> (forall key, faulty key = false) ->
  let '(db2, store2) := upload_pieces sid (p_user_id p) (chunk_size s) data reqs db1 store in
  exists s' db3 db4 s4,
    complete_session now sid (p_user_id p) token db2 = (Ok s', db3) /\
    assemble_for_commit now faulty store2 s' db3 = (Ok data, db3) /\
    finalize_completed now s' db3 = (true, db4) /\
    sessions db4 !! sid = Some s4 /\ status s4 = Completed.
Proof.
  intros Hc Hnone Hlen Hb Hsum Hreqs Hcover Hnow Hf.
  destruct (created_staging _ _ _ _ _ _ store data Hc Hnone Hlen Hb) as (Hst & Eid & Hcs & Hn).
  apply create_session_inv in Hc as (cs & at_ & _ & _ & _ & _ & Es & _).
  assert (user_id s = p_user_id p /\ total_size s = p_total_size p /\ checksum_sha256 s = sha256 data) as (Eu & Et & Ek)
    by (by subst s).
  pose proof (upload_pieces_done s data reqs db1 store s Hst Hreqs) as Hup.
  rewrite Eid, Eu in Hup. destruct (upload_pieces _ _ _ _ _ _ _) as [db2 store2].
  destruct Hup as ([s2 Hst2] & _ & Hdone).
  assert (Hall : forall i row, chunks db2 !! (sid, i) = Some row -> chunk_status row = ChunkCompleted /\
    store2 !! staged_chunk_key sid i = Some (piece (chunk_size s) data i)).
  { intros i row Hrow. pose proof (st_range _ _ _ _ _ Hst2 i) as Hi. rewrite Eid in Hi.
    specialize (Hi (ex_intro _ _ Hrow)). destruct (Hcover i Hi) as (r & Hr & <- & Hrf).
    destruct (Hdone r Hr Hrf) as (row' & Hrow' & Hs').
    destruct (st_chunks _ _ _ _ _ Hst2 _ Hi) as (row2 & Hrow2 & _ & _ & Hx).
    rewrite Eid in *. destruct Hx as [Hx|[_ Hx]]; [congruence|]. split; [congruence|done]. }
  pose proof (staging_open _ _ _ _ _ Hst2) as Hopen.
  destruct Hst2 as [Hrow (Hid & Hu & Hts & Htc & Hck & He & Hss) _ Hch _].
  rewrite Eid in *. rewrite <- Hid in Hrow.
  assert (Hcomp := complete_open_session now s2 token db2 Hrow Hopen ltac:(lia) Hss).
  rewrite Hid in Hcomp. rewrite <- Eu, <- Hu, Hcomp by (apply no_incomplete; intros; by apply (Hall i row)).
  destruct (finalize_claimed now now token s2 db2) as (db4 & s4 & Hfin & Hrow4 & Hs4). rewrite Hid in Hfin, Hrow4.
  eexists _, _, db4, s4. split; [done|]. unfold assemble_for_commit.
  rewrite (assemble_pieces faulty store2 _ data (chunk_size s)); cbn; try done; try congruence; try lia.
  intros i Hi. rewrite Hid. rewrite Htc in Hi. destruct (Hch i Hi) as (row & Hr & _). by apply (Hall i row).
Qed.
End Roundtrip.

(** * The Content-Range of a chunk request *)

Lemma collect_body_spec n blocks : forall acc,
  collect_body n acc blocks =
    if decide (String.length (acc +:+ concat_str blocks) = n) then Some (acc +:+ concat_str blocks) else None.
Proof.
  induction blocks as [|b blocks IH]; intros acc; cbn [collect_body concat_str foldr].
  - by rewrite append_nil_r.
  - rewrite IH, <- append_assoc. destruct (Nat.ltb_spec n (String.length (acc +:+ b))) as [Hlt|]; [|done].
    rewrite decide_False; [done|]. rewrite !length_append in *. unfold concat_str. lia.
Qed.

Lemma parse_content_range_inv h a b t : parse_content_range h = Ok (a, b, t) -> 0 <= a <= b /\ b < t <= I64_MAX.
Proof.
  unfold parse_content_range. destruct (strip_prefix _ _) as [rest|]; [|done]. cbn [ok_or rbind].
  destruct (split_once (Ascii.eqb "/") rest) as [[rp ts]|]; [|done]. cbn [ok_or rbind].
  destruct (split_once (Ascii.eqb "-") rp) as [[ss es]|] eqn:Hsplit; [|done]. cbn [ok_or rbind].
  destruct (parse_i64 ss) as [x|] eqn:Hx; [|done]. cbn [ok_or rbind].
  destruct (parse_i64 es) as [y|] eqn:Hy; [|done]. cbn [ok_or rbind].
  destruct (parse_i64 ts) as [z|] eqn:Hz; [|done]. cbn [ok_or rbind].
  destruct (Z.ltb_spec y x); [done|]. destruct (Z.leb_spec z y); [done|]. intros [= -> -> ->].
  apply split_once_Some in Hsplit as (c & _ & _ & Hss).
  pose proof (parse_i64_nonneg ss a Hss Hx). pose proof (parse_i64_range ts t Hz). lia.
Qed.

(** A number has no separator of the header in it. *)
Lemma pretty_Z_digits z : 0 <= z -> str_all is_digit (pretty z) = true.
Proof. intros. rewrite pretty_Z_nonneg by done. apply pretty_digits. Qed.

Lemma digits_weaken p z : 0 <= z -> (forall c, is_digit c = true -> p c = true) -> str_all p (pretty z) = true.
Proof. intros Hz Hp. eapply str_all_weaken; [exact Hp|]. by apply pretty_Z_digits. Qed.

Definition range_header (a b t : Z) : string :=
  "bytes " +:+ pretty a +:+ "-" +:+ pretty b +:+ "/" +:+ pretty t.

Ltac by_bytes := intros [[] [] [] [] [] [] [] []]; done.

Lemma string_snoc s : s <> "" -> exists r z, s = r +:+ String z "".
Proof.
  induction s as [|c s IH]; [done|]. intros _. destruct s as [|d s]; [by exists "", c|].
  destruct IH as (r & z & ->); [done|]. by exists (String c r), z.
Qed.

Lemma parse_range_header a b t : 0 <= a <= b -> b < t <= I64_MAX ->
  parse_content_range (range_header a b t) = Ok (a, b, t).
Proof.
  intros Ha Hb. unfold parse_content_range.
  assert (Htrim : trim (range_header a b t) = range_header a b t).
  { destruct (string_snoc (pretty t)) as (r & z & Ez).
    { rewrite pretty_Z_nonneg by lia. destruct (pretty_head (Z.to_N t)) as (c & s & -> & _). done. }
    pose proof (pretty_Z_digits t ltac:(lia)) as Hd. rewrite Ez, str_all_app in Hd.
    apply andb_prop in Hd as [Hr Hz]. cbn in Hz. rewrite andb_true_r in Hz.
    unfold range_header. rewrite Ez.
    replace ("bytes " +:+ pretty a +:+ "-" +:+ pretty b +:+ "/" +:+ r +:+ String z "")
      with (String "b" ("ytes " +:+ pretty a +:+ "-" +:+ pretty b +:+ "/" +:+ r) +:+ String z "")
      by (cbn; repeat (rewrite <- append_assoc; cbn); done).
    assert (Hdp : forall c, is_digit c = true -> is_printable c = true) by by_bytes.
    apply trim_printable; [|done|].
    - assert (Ha' := digits_weaken is_printable a ltac:(lia) Hdp).
      assert (Hb' := digits_weaken is_printable b ltac:(lia) Hdp).
      assert (Hr' := str_all_weaken _ _ r Hdp Hr).
      repeat (cbn; rewrite ?str_all_app, ?Ha', ?Hb', ?Hr', ?(Hdp z Hz)). done.
    - clear - Hz. destruct z as [[] [] [] [] [] [] [] []]; done. }
  rewrite Htrim. unfold range_header.
  rewrite (proj2 (strip_prefix_Some _ _ _) eq_refl). cbn [ok_or rbind].
  replace (pretty a +:+ "-" +:+ pretty b +:+ "/" +:+ pretty t)
    with ((pretty a +:+ "-" +:+ pretty b) +:+ String "/" (pretty t)) by (by rewrite <- !append_assoc).
  rewrite split_once_cut; [|done|].
  2: { rewrite str_all_app. cbn. rewrite !digits_weaken; try lia; try done; by_bytes. }
  cbn [ok_or rbind]. change ("-" +:+ pretty b) with (String "-" (pretty b)).
  rewrite split_once_cut; [|done|].
  2: { apply digits_weaken; [lia|by_bytes]. }
  cbn [ok_or rbind]. rewrite !parse_i64_pretty by lia. cbn [ok_or rbind].
  rewrite (proj2 (Z.ltb_ge _ _)), (proj2 (Z.leb_gt _ _)) by lia. done.
Qed.

(** The header of piece [i] selects chunk [i], at its offset and with its
    bytes. *)
Lemma header_selects_piece s i total body : 0 < chunk_size s -> 0 <= i <= I32_MAX -> total <= I64_MAX -> concat_str body <> "" ->
  i * chunk_size s + Z.of_nat (String.length (concat_str body)) <= total ->
  chunk_request (range_header (i * chunk_size s) (i * chunk_size s + Z.of_nat (String.length (concat_str body)) - 1) total) s body =
    Some (i, i * chunk_size s, concat_str body).
Proof.
  intros Hcs Hi Ht Hne Hfit. unfold chunk_request. set (len := Z.of_nat _) in *.
  assert (0 < len) by (unfold len; destruct (concat_str body); [done|cbn; lia]).
  rewrite parse_range_header by nia. rewrite collect_body_spec. cbn [String.append].
  replace (i * chunk_size s + len - 1 - i * chunk_size s + 1) with len by lia.
  rewrite as_i64_id, as_u64_id by (unfold I64_MAX in *; nia).
  rewrite decide_True by (unfold len; lia). cbn.
  rewrite Z.quot_mul by lia. rewrite as_i32_id by (unfold I32_MAX in *; lia). done.
Qed.

(** The Content-Range header: an accepted range is inside the file
    ([0 <= start <= end < total], all within [i64]), the chunk it names has
    exactly the declared bytes of the body, and the header a client prints for
    piece [i] of a file selects chunk [i] at its offset. *)
Theorem chunk_request_roundtrip s h body :
  0 < chunk_size s ->
  (forall i offset data, chunk_request h s body = Some (i, offset, data) ->
     exists stop total, parse_content_range h = Ok (offset, stop, total) /\
       0 <= offset <= stop /\ stop < total <= I64_MAX /\
       data = concat_str body /\ Z.of_nat (String.length data) = stop - offset + 1) /\
  (forall i total, 0 <= i <= I32_MAX -> total <= I64_MAX -> concat_str body <> "" ->
     i * chunk_size s + Z.of_nat (String.length (concat_str body)) <= total ->
     h = range_header (i * chunk_size s) (i * chunk_size s + Z.of_nat (String.length (concat_str body)) - 1) total ->
     chunk_request h s body = Some (i, i * chunk_size s, concat_str body)).
Proof.
  intros Hcs. unfold chunk_request. split.
  - intros i offset data. destruct (parse_content_range h) as [[[a b] t]|] eqn:Hp; [|done].
    pose proof (parse_content_range_inv _ _ _ _ Hp) as [Ha Hb].
    rewrite as_i64_id, as_u64_id by (unfold I64_MAX in *; lia). rewrite collect_body_spec. cbn [String.append].
    destruct (decide _) as [E|]; [|done]. cbn. intros [= <- <- <-]. exists b, t.
    split; [done|]. split; [done|]. split; [done|]. split; [done|]. lia.
  - intros i total Hi Ht Hne Hfit ->. by apply header_selects_piece.
Qed.

(** * Artifact paths *)

(** Percent decoding, as a client or a later layer may apply it. *)
Definition hex_value (c : ascii) : option N :=
  let n := N_of_ascii c in
  if is_digit c then Some (n - 48)%N
  else if in_range 65 70 c then Some (n - 55)%N
  else if in_range 97 102 c then Some (n - 87)%N
  else None.

Definition escape (a b : ascii) : option ascii :=
  h ← hex_value a; l ← hex_value b; Some (ascii_of_N (16 * h + l)).

Fixpoint percent_decode (s : string) : string :=
  match s with
  | EmptyString => EmptyString
  | String c rest =>
      match rest with
      | String a (String b r) =>
          match (if Ascii.eqb c "%" then escape a b else None) with
          | Some v => String v (percent_decode r)
          | None => String c (percent_decode rest)
          end
      | _ => String c (percent_decode rest)
      end
  end.

Example decode_1 : percent_decode "a%2Fb%zz%2" = "a/b%zz%2".
Proof. reflexivity. Qed.

Lemma contains_true n s : contains n s = true <-> exists a b, s = a +:+ n +:+ b.
Proof.
  induction s as [|c s IH]; cbn [contains]; rewrite orb_true_iff.
  - rewrite starts_with_true. split.
    + intros [[r E]|]; [|done]. by exists "", r.
    + intros (a & b & E). left. destruct a; [by exists b|done].
  - rewrite starts_with_true, IH. split.
    + intros [[r E]|(a & b & ->)]; [by exists "", r|by exists (String c a), b].
    + intros (a & b & E). destruct a as [|d a]; [left; by exists b|right].
      injection E as -> ->. by exists a, b.
Qed.

(** No escape of a dot, a slash or a backslash, in either case. *)
Definition no_path_escape (s : string) : Prop :=
  contains "%2e" (to_lowercase s) = false /\ contains "%2f" (to_lowercase s) = false /\
  contains "%5c" (to_lowercase s) = false.

Lemma str_map_app f s t : str_map f (s +:+ t) = str_map f s +:+ str_map f t.
Proof. induction s as [|c s IH]; cbn; [done|]. by rewrite IH. Qed.

Lemma contains_infix n a s b : contains n (a +:+ s +:+ b) = false -> contains n s = false.
Proof.
  intros Hf. apply not_true_is_false. intros (x & y & ->)%contains_true.
  apply not_true_iff_false in Hf. apply Hf, contains_true.
  exists (a +:+ x), (y +:+ b). by rewrite !append_assoc.
Qed.

Lemma no_path_escape_infix a s b : no_path_escape (a +:+ s +:+ b) -> no_path_escape s.
Proof.
  unfold no_path_escape, to_lowercase. rewrite !str_map_app.
  intros (? & ? & ?). split_and!; by eapply contains_infix.
Qed.

Lemma no_path_escape_tail c s : no_path_escape (String c s) -> no_path_escape s.
Proof. intros. apply (no_path_escape_infix (String c "") s ""). by rewrite append_nil_r. Qed.

Lemma hex_value_lower a v : hex_value a = Some v ->
  lower a = (if (v <? 10)%N then ascii_of_N (48 + v) else ascii_of_N (87 + v)) /\ (v < 16)%N /\ Ascii.eqb "/" a = false.
Proof. destruct a as [[] [] [] [] [] [] [] []]; intros [= <-]; done. Qed.

(** An escape that survives the validation stands for none of the three
    characters. *)
Lemma escape_harmless a b r v : no_path_escape (String "%" (String a (String b r))) -> escape a b = Some v ->
  v <> "."%char /\ v <> "/"%char /\ v <> "\"%char /\ Ascii.eqb "/" a = false /\ Ascii.eqb "/" b = false.
Proof.
  intros Hn. unfold escape. destruct (hex_value a) as [h|] eqn:Ha; [|done].
  destruct (hex_value b) as [l|] eqn:Hb; [|done]. cbn. intros [= <-].
  apply hex_value_lower in Ha as (La & Hh & Sa), Hb as (Lb & Hl & Sb).
  assert (Hv : forall x, (x < 256)%N -> ascii_of_N (16 * h + l) = ascii_of_N x -> h = (x / 16)%N /\ l = (x mod 16)%N).
  { intros x Hx E%(f_equal N_of_ascii). rewrite !N_ascii_embedding in E by lia. subst x.
    rewrite (N.mul_comm 16), N.div_add_l, (N.add_comm _ l), N.Div0.mod_add by lia.
    rewrite N.div_small, N.mod_small by lia. lia. }
  destruct Hn as (H1 & H2 & H3). unfold to_lowercase in *. cbn [str_map] in H1, H2, H3.
  repeat split; try done; intros E.
  - destruct (Hv 46%N) as [-> ->]; [done|exact E|]. cbn in La, Lb. rewrite La, Lb in H1. by destruct r.
  - destruct (Hv 47%N) as [-> ->]; [done|exact E|]. cbn in La, Lb. rewrite La, Lb in H2. by destruct r.
  - destruct (Hv 92%N) as [-> ->]; [done|exact E|]. cbn in La, Lb. rewrite La, Lb in H3. by destruct r.
Qed.

(** [c] starts no escape. *)
Definition plain (c : ascii) (s : string) : Prop :=
  forall a b r, c = "%"%char -> s = String a (String b r) -> escape a b = None.

Lemma decode_cons c s :
  (exists a b r v, c = "%"%char /\ s = String a (String b r) /\ escape a b = Some v /\
     percent_decode (String c s) = String v (percent_decode r)) \/
  plain c s /\ percent_decode (String c s) = String c (percent_decode s).
Proof.
  cbn [percent_decode]. unfold plain. destruct s as [|a [|b r]]; [by right|by right|].
  destruct (Ascii.eqb_spec c "%") as [->|]; [|by right].
  destruct (escape a b) as [v|] eqn:E; [left; by exists a, b, r, v|right].
  split; [|done]. intros ??? _ [= <- <- <-]. done.
Qed.

(** An induction that follows the decoder. *)
Lemma decode_ind (P : string -> Prop) :
  P "" ->
  (forall a b r v, no_path_escape (String "%" (String a (String b r))) -> escape a b = Some v -> P r ->
     percent_decode (String "%" (String a (String b r))) = String v (percent_decode r) ->
     P (String "%" (String a (String b r)))) ->
  (forall c s, no_path_escape (String c s) -> plain c s -> P s ->
     percent_decode (String c s) = String c (percent_decode s) -> P (String c s)) ->
  forall s, no_path_escape s -> P s.
Proof.
  intros H0 H1 H2 s. remember (String.length s) as n eqn:Hn.
  assert (Hle : (String.length s <= n)%nat) by lia. clear Hn. revert s Hle.
  induction n as [|n IH]; intros [|c s] Hle Hs; try done; [cbn in Hle; lia|].
  cbn in Hle. destruct (decode_cons c s) as [(a & b & r & v & -> & -> & He & Hd)|[Hp Hd]].
  - apply (H1 _ _ _ v); try done. apply IH; [cbn in Hle; lia|]. by do 3 apply no_path_escape_tail in Hs.
  - apply H2; try done. apply IH; [lia|]. by apply no_path_escape_tail in Hs.
Qed.

(** Decoding moves no separator. *)
Lemma split_decode s : no_path_escape s ->
  split_char "/" (percent_decode s) = percent_decode <$> split_char "/" s.
Proof.
  unfold split_char. revert s. apply decode_ind; [done| |].
  - intros a b r v Hs He IH ->. destruct (escape_harmless _ _ _ _ Hs He) as (_ & Hv & _ & Ha & Hb).
    cbn [split_on]. rewrite Ha, Hb. change (Ascii.eqb "/" "%") with false.
    assert (Ascii.eqb "/" v = false) as -> by (apply Ascii.eqb_neq; congruence).
    rewrite IH. pose proof (split_on_nonempty (Ascii.eqb "/") r). destruct (split_on _ r) as [|p l]; [done|].
    cbn. by rewrite He.
  - intros c s Hs Hp IH ->. cbn [split_on]. destruct (Ascii.eqb_spec "/" c) as [<-|Hc]; [by rewrite IH|].
    rewrite IH. pose proof (split_on_nonempty (Ascii.eqb "/") s) as Hne.
    destruct (split_on _ s) as [|p l] eqn:Esp; [done|]. cbn [fmap list_fmap]. f_equal. symmetry.
    destruct (decode_cons c p) as [(a & b & r & v & -> & -> & He & Hd)|[_ ?]]; [exfalso|done].
    pose proof (split_on_join "/" s) as Hj. unfold split_char in Hj. rewrite Esp in Hj.
    assert (exists t, s = String a (String b t)) as [t Et].
    { rewrite <- Hj. destruct l; cbn; by eexists. }
    by rewrite (Hp a b t) in He.
Qed.

(** Decoding produces no dot, so it produces no dot component. *)
Lemma decode_dots s d : no_path_escape s -> str_all (Ascii.eqb ".") d = true -> percent_decode s = d -> s = d.
Proof.
  intros Hs. revert s Hs d. apply (decode_ind (fun s => forall d, str_all (Ascii.eqb ".") d = true -> percent_decode s = d -> s = d)).
  - by intros d _ <-.
  - intros a b r v Hs He _ -> d Hd <-. apply andb_prop in Hd as [Hv%Ascii.eqb_eq _].
    destruct (escape_harmless _ _ _ _ Hs He) as [Hdot _]. congruence.
  - intros c s _ _ IH -> d Hd <-. f_equal. apply IH; [|done]. by apply andb_prop in Hd as [_ Hd].
Qed.

Definition no_backslash (c : ascii) : bool := negb (Ascii.eqb "\" c).

Lemma decode_no_backslash s : no_path_escape s ->
  str_all no_backslash s = true -> str_all no_backslash (percent_decode s) = true.
Proof.
  revert s. apply (decode_ind (fun s => str_all no_backslash s = true -> str_all no_backslash (percent_decode s) = true)); [done| |].
  - intros a b r v Hs He IH -> Hall. destruct (escape_harmless _ _ _ _ Hs He) as (_ & _ & Hv & _).
    cbn [str_all] in *. rewrite IH by (by repeat (apply andb_prop in Hall as [_ Hall])).
    rewrite andb_true_r. apply negb_true_iff, Ascii.eqb_neq. congruence.
  - intros c s _ _ IH -> [Hc Hall]%andb_prop. cbn [str_all]. by rewrite Hc, IH.
Qed.

Lemma contains_char c s : contains (String c "") s = false -> str_all (fun d => negb (Ascii.eqb c d)) s = true.
Proof.
  induction s as [|d s IH]; [done|]. cbn [contains]. intros [Hd Hs]%orb_false_iff. cbn. rewrite (IH Hs).
  destruct (Ascii.eqb_spec c d) as [->|]; [|done]. exfalso. cbn in Hd.
  destruct (ascii_dec d d); [|done]. by destruct s.
Qed.

(** An empty piece that is not the last one shows two slashes or a leading
    one. *)
Lemma empty_piece s l k : split_char "/" s = l ++ "" :: k -> k <> [] ->
  starts_with "/" s = true \/ contains "//" s = true.
Proof.
  intros E Hk. pose proof (split_on_join "/" s) as Hj. rewrite E in Hj. subst s. clear E.
  destruct l as [|p l]; [left|right].
  - destruct k as [|q k]; [done|]. apply starts_with_true. by exists (join (String "/" "") (q :: k)).
  - apply contains_true. induction l as [|p' l IH] in p |- *.
    + destruct k as [|q k]; [done|]. exists p, (join (String "/" "") (q :: k)). done.
    + destruct (IH p') as (a & b & Eab). exists (p +:+ "/" +:+ a), b.
      change (join (String "/" "") ((p :: p' :: l) ++ "" :: k))
        with (p +:+ "/" +:+ join (String "/" "") ((p' :: l) ++ "" :: k)).
      rewrite Eab. by rewrite !append_assoc.
Qed.

Lemma split_piece_infix s p : p ∈ split_char "/" s -> exists a b, s = a +:+ p +:+ b.
Proof.
  intros Hp. enough (exists a b, join (String "/" "") (split_char "/" s) = a +:+ p +:+ b) as Hj
    by by rewrite split_on_join in Hj.
  revert Hp. generalize (split_char "/" s). intros l. induction l as [|q l IH]; [by intros ?%elem_of_nil|].
  intros [->|Hp]%elem_of_cons.
  - destruct l as [|q' l]; [exists "", ""; cbn; by rewrite append_nil_r|].
    by exists "", ("/" +:+ join (String "/" "") (q' :: l)).
  - destruct (IH Hp) as (a & b & E). destruct l as [|q' l]; [by apply elem_of_nil in Hp|].
    exists (q +:+ "/" +:+ a), b. change (join _ (q :: q' :: l)) with (q +:+ "/" +:+ join (String "/" "") (q' :: l)).
    rewrite E. by rewrite !append_assoc.
Qed.

(** An accepted artifact path stays below the directory it is joined to,
    also after one percent decoding: decoding moves no separator, and no
    component is [..] or [.], holds a backslash or, unless it is the last one,
    is empty; the path is relative and short enough for its column. *)
Theorem validated_path_safe path :
  validate_artifact_path path = Ok tt ->
  path <> "" /\ (String.length path <= MAX_ARTIFACT_PATH_LEN)%nat /\ contains (String "000" "") path = false /\
  split_char "/" (percent_decode path) = percent_decode <$> split_char "/" path /\
  forall l c k, split_char "/" (percent_decode path) = l ++ c :: k ->
    c <> ".." /\ c <> "." /\ str_all no_backslash c = true /\
    (c = "" -> k = [] /\ l <> []).
Proof.
  unfold validate_artifact_path. destruct (is_empty path) eqn:Hne; [done|].
  destruct (Nat.ltb_spec MAX_ARTIFACT_PATH_LEN (String.length path)); [done|].
  destruct (contains (String "000" "") path) eqn:Hnul; [done|].
  destruct (starts_with "/" path) eqn:Hslash; cbn [orb]; [done|].
  destruct (starts_with "\" path); [done|].
  destruct (existsb _ _) eqn:Hcomp; [done|].
  destruct (contains "%2e" _) eqn:H1; cbn [orb]; [done|]. destruct (contains "%2f" _) eqn:H2; cbn [orb]; [done|].
  destruct (contains "%5c" _) eqn:H3; [done|]. destruct (contains "\" path) eqn:Hback; [done|]. intros _.
  assert (no_path_escape path) as Hn by done.
  assert (path <> "") as Hne' by (intros ->; done).
  do 3 (split; [done|]). split; [by apply split_decode|]. intros l c k Hsplit.
  assert (Hpieces : forall p, p ∈ split_char "/" path -> trim p <> ".." /\ trim p <> "." /\
    (trim p = "" -> contains "//" path = false)).
  { intros p Hp. pose proof (proj1 (existsb_false _ _) Hcomp p Hp) as Hf. cbn beta zeta in Hf.
    apply orb_false_iff in Hf as [[Ha%String.eqb_neq Hb%String.eqb_neq]%orb_false_iff Hc].
    split_and!; [done|done|]. intros E. by rewrite E in Hc. }
  rewrite split_decode in Hsplit by done.
  apply fmap_app_inv in Hsplit as (l0 & ck & El & Eck & Hl).
  destruct ck as [|p k0]; [done|]. cbn in Eck. injection Eck as Ec Ek.
  assert (p ∈ split_char "/" path) as Hp by (rewrite Hl; apply elem_of_app; right; by left).
  destruct (split_piece_infix _ _ Hp) as (a & b & Epath).
  assert (no_path_escape p) as Hnp by (apply (no_path_escape_infix a p b); by rewrite <- Epath).
  destruct (Hpieces p Hp) as (Hd1 & Hd2 & Hd3).
  split_and!.
  - intros ->. apply Hd1. by rewrite (decode_dots p "..") by done.
  - intros ->. apply Hd2. by rewrite (decode_dots p ".") by done.
  - rewrite Ec. apply decode_no_backslash; [done|].
    apply contains_char in Hback. rewrite Epath, !str_all_app in Hback.
    by apply andb_prop in Hback as [_ [? _]%andb_prop].
  - intros ->. assert (p = "") as -> by (by apply decode_dots).
    assert (k0 = []) as ->.
    { destruct k0 as [|q k0]; [done|]. destruct (empty_piece path l0 (q :: k0)) as [Hs|Hs]; [done|done|congruence|].
      rewrite Hd3 in Hs; done. }
    cbn in Ek. split; [done|]. intros ->. symmetry in El. apply fmap_nil_inv in El as ->.
    pose proof (split_on_join "/" path) as Hj. unfold split_char in *. rewrite Hl in Hj. by cbn in Hj.
Qed.

(** * The purge pass *)

(** A UUID prints as hexadecimal digits and hyphens, and differently from any
    other UUID. *)
Class StagingUuid := {
  staging_uuid :: UuidCrate;
  uuid_display_inj : forall a b, uuid_display a = uuid_display b -> a = b;
  uuid_display_no_slash : forall a, str_all (fun c => negb (Ascii.eqb "/" c)) (uuid_display a) = true
}.

Lemma pretty_no_slash (a : N) : str_all (fun c => negb (Ascii.eqb "/" c)) (pretty a) = true.
Proof. eapply str_all_weaken; [|apply pretty_digits]. by_bytes. Qed.

Lemma staged_chunk_key_inj `{StagingUuid} a b i j :
  staged_chunk_key a i = staged_chunk_key b j -> a = b /\ i = j.
Proof.
  unfold staged_chunk_key, staging_prefix. intros E.
  rewrite <- !append_assoc in E. apply append_inj_l in E. change ("/" +:+ ?x) with (String "/" x) in E.
  injection E as E.
  assert (Some (uuid_display a, zero_pad 8 i) = Some (uuid_display b, zero_pad 8 j)) as Hs.
  { rewrite <- (split_once_cut (Ascii.eqb "/") (uuid_display a) "/"), <- (split_once_cut (Ascii.eqb "/") (uuid_display b) "/");
      try apply uuid_display_no_slash; try done. by f_equal. }
  injection Hs as Ha Hz. split; [by apply uuid_display_inj|by apply (zero_pad_inj 8)].
Qed.

Lemma elem_of_purge_sessions c failed db :
  c ∈ purge_candidates false failed db <->
  exists sid s, sessions db !! sid = Some s /\ session_candidate s = Some c /\ c_id c ∉ failed.
Proof.
  unfold purge_candidates. rewrite list_elem_of_filter, list_elem_of_omap. split.
  - intros (Hf & [sid s] & Hs%elem_of_map_to_list & Hc). eauto.
  - intros (sid & s & Hs & Hc & Hf). split; [done|]. exists (sid, s). by rewrite elem_of_map_to_list.
Qed.

Lemma elem_of_purge_orphans c failed db :
  c ∈ purge_candidates true failed db <->
  exists sid o, orphans db !! sid = Some o /\ orphan_candidate (sid, o) = Some c /\ c_id c ∉ failed.
Proof.
  unfold purge_candidates. rewrite list_elem_of_filter, list_elem_of_omap. split.
  - intros (Hf & [sid o] & Hs%elem_of_map_to_list & Hc). eauto.
  - intros (sid & o & Hs & Hc & Hf). split; [done|]. exists (sid, o). by rewrite elem_of_map_to_list.
Qed.

Lemma next_candidate_None oo failed db : next_candidate oo failed db = None <-> purge_candidates oo failed db = [].
Proof.
  unfold next_candidate. pose proof (sort_by_perm (cmp_on c_order Z.compare) (purge_candidates oo failed db)) as Hp.
  split.
  - destruct (sort_by _ _); [|done]. intros _. by apply Permutation_nil.
  - intros E. by rewrite E.
Qed.

Lemma next_candidate_in oo failed db c :
  next_candidate oo failed db = Some c -> c ∈ purge_candidates oo failed db.
Proof.
  unfold next_candidate. intros Hc. rewrite <- (sort_by_perm (cmp_on c_order Z.compare)).
  destruct (sort_by _ _) as [|c' l]; [done|]. injection Hc as ->. by left.
Qed.

Section Purge.
Context `{UuidCrate} (now : DateTime) (faulty : string -> bool).

Lemma purge_loop_ind (P : PurgeState -> Prop) oo :
  (forall st c, P st -> 0 < ps_budget st -> next_candidate oo (ps_failed st) (ps_db st) = Some c ->
     P (purge_one now faulty oo c st)) ->
  forall fuel st, P st -> P (purge_loop fuel now faulty oo st).
Proof.
  intros Hstep fuel. induction fuel as [|fuel IH]; intros st Hst; cbn [purge_loop]; [done|].
  destruct (Z.leb_spec (ps_budget st) 0); [done|].
  destruct (next_candidate _ _ _) as [c|] eqn:Hc; [|done]. by apply IH, Hstep.
Qed.

Lemma purge_pass_ind (P : PurgeState -> Prop) :
  (forall oo st c, P st -> 0 < ps_budget st -> next_candidate oo (ps_failed st) (ps_db st) = Some c ->
     P (purge_one now faulty oo c st)) ->
  forall db registry,
  P {| ps_budget := STAGING_PURGE_OBJECT_BUDGET; ps_purged := 0; ps_failed := [];
       ps_db := db; ps_registry := registry |} ->
  P (purge_unreclaimed_staging now faulty db registry).
Proof. intros Hstep db registry Hst. by do 2 (apply (purge_loop_ind P); [apply Hstep|]). Qed.

Lemma purge_one_budget oo c st : ps_budget (purge_one now faulty oo c st) = ps_budget st - Z.max (c_chunks c) 1.
Proof. unfold purge_one. by destruct (purge_objects _ _ _) as [[] ?]. Qed.

(** Fuel beyond the budget is never used. *)
Lemma purge_loop_fuel oo : forall fuel st, (Z.to_nat (ps_budget st) <= fuel)%nat ->
  purge_loop fuel now faulty oo st = purge_loop (Z.to_nat (ps_budget st)) now faulty oo st.
Proof.
  assert (Hgen : forall f1 f2 st, (Z.to_nat (ps_budget st) <= f1)%nat -> (Z.to_nat (ps_budget st) <= f2)%nat ->
    purge_loop f1 now faulty oo st = purge_loop f2 now faulty oo st).
  { induction f1 as [|f1 IH]; intros f2 st H1 H2; destruct f2 as [|f2]; cbn [purge_loop]; try done.
    - destruct (Z.leb_spec (ps_budget st) 0); [done|lia].
    - destruct (Z.leb_spec (ps_budget st) 0); [done|lia].
    - destruct (Z.leb_spec (ps_budget st) 0); [done|].
      destruct (next_candidate _ _ _) as [c|]; [|done].
      apply IH; rewrite purge_one_budget; lia. }
  intros. by apply Hgen.
Qed.

Lemma purge_loop_exit oo fuel st : (Z.to_nat (ps_budget st) <= fuel)%nat ->
  let st' := purge_loop fuel now faulty oo st in
  ps_budget st' <= 0 \/ purge_candidates oo (ps_failed st') (ps_db st') = [].
Proof.
  revert st. induction fuel as [|fuel IH]; intros st Hf; cbn [purge_loop]; [left; lia|].
  destruct (Z.leb_spec (ps_budget st) 0); [by left|].
  destruct (next_candidate _ _ _) as [c|] eqn:Hc; [|right; by apply next_candidate_None].
  apply IH. rewrite purge_one_budget. lia.
Qed.

(** The orphan loop leaves the sessions alone and forgets no failure. *)
Lemma orphan_loop_sessions fuel st :
  let st' := purge_loop fuel now faulty true st in
  sessions (ps_db st') = sessions (ps_db st) /\ (forall x, x ∈ ps_failed st -> x ∈ ps_failed st').
Proof.
  apply (purge_loop_ind (fun st' => sessions (ps_db st') = sessions (ps_db st) /\
    forall x, x ∈ ps_failed st -> x ∈ ps_failed st')); [|done].
  intros st0 c [Hs Hf] _ _. unfold purge_one. destruct (purge_objects _ _ _) as [[] ?]; cbn; [done|].
  split; [done|]. intros x Hx. apply elem_of_app. left. auto.
Qed.

Lemma purge_pass_exit db registry :
  let st := purge_unreclaimed_staging now faulty db registry in
  ps_budget st <= 0 \/ forall oo, purge_candidates oo (ps_failed st) (ps_db st) = [].
Proof.
  unfold purge_unreclaimed_staging. set (st0 := Build_PurgeState _ _ _ _ _).
  set (st1 := purge_loop (Z.to_nat (ps_budget st0)) now faulty false st0).
  destruct (purge_loop_exit false (Z.to_nat (ps_budget st0)) st0 (le_n _)) as [Hb|Hc].
  - fold st1 in Hb. left. replace (Z.to_nat (ps_budget st1)) with 0%nat by lia. done.
  - fold st1 in Hc. destruct (purge_loop_exit true (Z.to_nat (ps_budget st1)) st1 (le_n _)) as [Hb|Ho]; [by left|].
    right. intros []; [done|]. destruct (orphan_loop_sessions (Z.to_nat (ps_budget st1)) st1) as [Hs Hf].
    apply elem_of_nil_inv. intros c (sid & s & Hrow & Hcand & Hnf)%elem_of_purge_sessions.
    assert (c ∈ purge_candidates false (ps_failed st1) (ps_db st1)) as Hin.
    { apply elem_of_purge_sessions. rewrite Hs in Hrow. eauto 10. }
    rewrite Hc in Hin. by apply elem_of_nil in Hin.
Qed.

(** Without faults, with every location registered, nothing fails. *)
Lemma delete_objects_ok keys : (forall key, faulty key = false) ->
  forall store, exists store', delete_objects faulty keys store = (Ok tt, store').
Proof.
  intros Hf. induction keys as [|key keys IH]; intros store; cbn; [eauto|].
  unfold storage_delete. rewrite Hf. destruct (store !! key); apply IH.
Qed.

Definition registered (db : Db) (registry : StorageRegistry) : Prop :=
  forall oo c, c ∈ purge_candidates oo [] db -> is_Some (registry !! c_location c).

Lemma set_purged_no_candidate s : session_candidate (set_purged now s) = None.
Proof. unfold session_candidate. cbn. by rewrite andb_false_r. Qed.

Lemma purge_one_ok oo st c : (forall key, faulty key = false) ->
  ps_failed st = [] -> registered (ps_db st) (ps_registry st) ->
  next_candidate oo (ps_failed st) (ps_db st) = Some c ->
  ps_failed (purge_one now faulty oo c st) = [] /\
  registered (ps_db (purge_one now faulty oo c st)) (ps_registry (purge_one now faulty oo c st)).
Proof.
  intros Hf Hfail Hreg Hc%next_candidate_in. rewrite Hfail in Hc. destruct (Hreg _ _ Hc) as [store Hst].
  unfold purge_one, purge_objects. rewrite Hst. unfold delete_staged_chunk_objects.
  destruct (delete_objects_ok (staged_chunk_key (c_id c) <$> seqZ 0 (c_chunks c)) Hf store) as [store' ->].
  cbn. split; [done|]. intros oo' c' Hc'.
  enough (is_Some (ps_registry st !! c_location c')) as [x Hx].
  { destruct (decide (c_location c = c_location c')) as [E|E]; [rewrite E, lookup_insert_eq|rewrite lookup_insert_ne by done]; eauto. }
  apply (Hreg oo'). destruct oo'.
  - apply elem_of_purge_orphans in Hc' as (sid & o & Ho & Hcand & Hn). apply elem_of_purge_orphans.
    destruct oo; cbn in Ho; [apply lookup_delete_Some in Ho as [_ Ho]|]; eauto.
  - apply elem_of_purge_sessions in Hc' as (sid & s & Hs & Hcand & Hn). apply elem_of_purge_sessions.
    destruct oo; cbn in Hs; [by eauto|]. apply lookup_alter_Some in Hs as [(<- & s0 & _ & ->)|[_ Hs]]; [|by eauto].
    by rewrite set_purged_no_candidate in Hcand.
Qed.

(** No session or orphan has more than [m] chunks. *)
Definition chunks_at_most (m : Z) (db : Db) : Prop :=
  (forall sid s, sessions db !! sid = Some s -> total_chunks s <= m) /\
  (forall sid o, orphans db !! sid = Some o -> orphan_total_chunks o <= m).

Lemma chunks_at_most_candidate m oo failed db c :
  chunks_at_most m db -> c ∈ purge_candidates oo failed db -> c_chunks c <= m.
Proof.
  intros [Hs Ho]. destruct oo.
  - intros (sid & o & Hrow & Hc & _)%elem_of_purge_orphans. unfold orphan_candidate in Hc.
    destruct (_ <? _); [|done]. injection Hc as <-. cbn. eauto.
  - intros (sid & s & Hrow & Hc & _)%elem_of_purge_sessions. unfold session_candidate in Hc.
    destruct (_ && _); [|done]. destruct (staging_storage_backend s); [|done]. injection Hc as <-. cbn. eauto.
Qed.

Lemma purge_one_chunks m oo st c :
  chunks_at_most m (ps_db st) -> chunks_at_most m (ps_db (purge_one now faulty oo c st)).
Proof.
  intros [Hs Ho]. unfold purge_one. destruct (purge_objects _ _ _) as [[] ?], oo; cbn; try (by split).
  - split; cbn; [done|]. intros sid o [_ Hrow]%lookup_delete_Some. eauto.
  - split; cbn; [|done]. intros sid s [(<- & s0 & Hrow & ->)|[_ Hrow]]%lookup_alter_Some; cbn; eauto.
  - split; cbn; [done|]. intros sid o [(<- & o0 & Hrow & ->)|[_ Hrow]]%lookup_alter_Some; cbn; eauto.
Qed.

Lemma purge_pass_budget m db registry : 1 <= m -> chunks_at_most m db ->
  1 - m <= ps_budget (purge_unreclaimed_staging now faulty db registry).
Proof.
  intros Hm Hdb.
  apply (purge_pass_ind (fun st => chunks_at_most m (ps_db st) /\ 1 - m <= ps_budget st)).
  - intros oo st c [Hch Hb] Hpos Hc%next_candidate_in. split; [by apply purge_one_chunks|].
    rewrite purge_one_budget. pose proof (chunks_at_most_candidate _ _ _ _ _ Hch Hc). lia.
  - split; [done|]. cbn. unfold STAGING_PURGE_OBJECT_BUDGET. lia.
Qed.

(** [id] is not that of a terminal session or of an orphan. *)
Definition spared (sid : Uuid) (db : Db) : Prop :=
  (forall k s, sessions db !! k = Some s -> id s = sid -> is_terminal s = false) /\ orphans db !! sid = None.

Lemma spared_candidate sid oo failed db c :
  spared sid db -> c ∈ purge_candidates oo failed db -> c_id c <> sid.
Proof.
  intros [Hs Ho]. destruct oo.
  - intros (k & o & Hrow & Hc & _)%elem_of_purge_orphans. unfold orphan_candidate in Hc.
    destruct (_ <? _); [|done]. injection Hc as <-. cbn. congruence.
  - intros (k & s & Hrow & Hc & _)%elem_of_purge_sessions E. unfold session_candidate in Hc.
    destruct (_ && _) eqn:Ht; [|done]. apply andb_prop in Ht as [_ Ht].
    destruct (staging_storage_backend s); [|done]. injection Hc as <-. cbn in E.
    by rewrite (Hs _ _ Hrow E) in Ht.
Qed.

Lemma purge_one_spared sid oo st c : spared sid (ps_db st) -> spared sid (ps_db (purge_one now faulty oo c st)).
Proof.
  intros [Hs Ho]. unfold purge_one. destruct (purge_objects _ _ _) as [[] ?], oo; cbn; try (by split); split; cbn; try done.
  - apply lookup_delete_None. by right.
  - intros k s [(<- & s0 & Hrow & ->)|[_ Hrow]]%lookup_alter_Some; cbn; [apply (Hs _ _ Hrow)|by apply (Hs k)].
  - by apply lookup_alter_None.
Qed.

Lemma delete_objects_other keys key : key ∉ keys -> forall store,
  snd (delete_objects faulty keys store) !! key = store !! key.
Proof.
  induction keys as [|k keys IH]; intros Hk store; cbn; [done|].
  apply not_elem_of_cons in Hk as [Hne Hk]. unfold storage_delete.
  destruct (faulty k); [done|]. destruct (store !! k); [|by apply IH].
  rewrite IH by done. by apply lookup_delete_ne.
Qed.
End Purge.

(** C30. The purge pass of the reaper ends within its object budget, whatever
    the backends do: fuel beyond the budget is never used, and a session of
    [m] chunks overdraws the budget by [m - 1] objects at most.  When budget is
    left over, every terminal session whose staged chunks are not yet deleted
    is among the failures of this pass, and so is every orphan with attempts
    left; with working backends there are no failures. *)
Theorem purge_pass_complete `{UuidCrate} now faulty db registry m :
  1 <= m -> chunks_at_most m db ->
  let st := purge_unreclaimed_staging now faulty db registry in
  (forall oo fuel st0, (Z.to_nat (ps_budget st0) <= fuel)%nat ->
     purge_loop fuel now faulty oo st0 = purge_loop (Z.to_nat (ps_budget st0)) now faulty oo st0) /\
  1 - m <= ps_budget st <= STAGING_PURGE_OBJECT_BUDGET /\
  (0 < ps_budget st ->
     (forall sid s, sessions (ps_db st) !! sid = Some s -> is_terminal s = true -> staged_in_storage s = true ->
        staging_storage_backend s <> None -> staging_purged_at s = None -> id s ∈ ps_failed st) /\
     (forall sid o, orphans (ps_db st) !! sid = Some o -> attempts o < ORPHAN_PURGE_MAX_ATTEMPTS -> sid ∈ ps_failed st)) /\
  ((forall key, faulty key = false) -> registered db registry -> ps_failed st = []).
Proof.
  intros Hm Hdb st. split; [by intros; apply purge_loop_fuel|]. split; [split|split].
  - by apply purge_pass_budget.
  - apply (purge_pass_ind now faulty (fun st => ps_budget st <= STAGING_PURGE_OBJECT_BUDGET)); [|done].
    intros oo st0 c Hb _ _. rewrite purge_one_budget. lia.
  - intros Hb. destruct (purge_pass_exit now faulty db registry) as [?|Hnone]; [unfold st in Hb; lia|]. fold st in Hnone.
    split.
    + intros sid s Hrow Ht Hs Hbk Hp. destruct (decide (id s ∈ ps_failed st)) as [|Hn]; [done|exfalso].
      destruct (staging_storage_backend s) as [bk|] eqn:Ebk; [|done].
      apply (not_elem_of_nil {| c_id := id s; c_chunks := total_chunks s;
        c_location := (bk, default "" (staging_storage_path s)); c_order := updated_at s |}).
      rewrite <- (Hnone false). apply elem_of_purge_sessions. exists sid, s. split; [done|]. split; [|done].
      unfold session_candidate. by rewrite Hs, Ht, bool_decide_eq_true_2, Ebk by done.
    + intros sid o Hrow Ha. destruct (decide (sid ∈ ps_failed st)) as [|Hn]; [done|exfalso].
      apply (not_elem_of_nil {| c_id := sid; c_chunks := orphan_total_chunks o;
        c_location := orphan_location o; c_order := orphan_created_at o |}).
      rewrite <- (Hnone true). apply elem_of_purge_orphans. exists sid, o. split; [done|]. split; [|done].
      unfold orphan_candidate. cbn. by rewrite (proj2 (Z.ltb_lt _ _)).
  - intros Hf Hreg. apply (purge_pass_ind now faulty (fun st => ps_failed st = [] /\ registered (ps_db st) (ps_registry st))).
    + intros oo st0 c [Hfail Hr] _ Hc. by apply purge_one_ok.
    + done.
Qed.

(** The purge pass deletes no object of a session that is still open or
    committing, unless an orphan row names that session. *)
Theorem purge_spares_live `{StagingUuid} now faulty db registry sid i at_ store :
  spared sid db -> registry !! at_ = Some store ->
  exists store', ps_registry (purge_unreclaimed_staging now faulty db registry) !! at_ = Some store' /\
    store' !! staged_chunk_key sid i = store !! staged_chunk_key sid i.
Proof.
  intros Hsp Hat.
  enough (spared sid (ps_db (purge_unreclaimed_staging now faulty db registry)) /\
    exists store', ps_registry (purge_unreclaimed_staging now faulty db registry) !! at_ = Some store' /\
      store' !! staged_chunk_key sid i = store !! staged_chunk_key sid i) as [_ ?] by done.
  apply (purge_pass_ind now faulty (fun st => spared sid (ps_db st) /\ exists store', ps_registry st !! at_ = Some store' /\
    store' !! staged_chunk_key sid i = store !! staged_chunk_key sid i)); [|by eauto].
  intros oo st c [Hs (store1 & Hat1 & Hobj)] _ Hc%next_candidate_in. split; [by apply purge_one_spared|].
  pose proof (spared_candidate _ _ _ _ _ Hs Hc) as Hne.
  assert (Hreg : exists store', snd (purge_objects faulty c (ps_registry st)) !! at_ = Some store' /\
    store' !! staged_chunk_key sid i = store !! staged_chunk_key sid i).
  { unfold purge_objects, delete_staged_chunk_objects.
    destruct (ps_registry st !! c_location c) as [st1|] eqn:El; [|by eauto].
    pose proof (delete_objects_other faulty (staged_chunk_key (c_id c) <$> seqZ 0 (c_chunks c))
      (staged_chunk_key sid i)) as Hother.
    assert (staged_chunk_key sid i ∉ staged_chunk_key (c_id c) <$> seqZ 0 (c_chunks c)) as Hk.
    { intros (j & E & _)%list_elem_of_fmap. apply staged_chunk_key_inj in E as [E _]. by apply Hne. }
    specialize (Hother Hk st1). destruct (delete_objects _ _ st1) as [r st2]. cbn in *.
    destruct (decide (c_location c = at_)) as [E|E].
    - rewrite E, lookup_insert_eq. exists st2. split; [done|]. rewrite Hother. congruence.
    - rewrite lookup_insert_ne by done. eauto. }
  unfold purge_one. by destruct (purge_objects _ _ _) as [[] ?].
Qed.

(** * Witnesses *)

Definition sample_staging_uuid : StagingUuid :=
  {| staging_uuid := {| uuid_display := pretty |};
     uuid_display_inj := pretty_N_inj; uuid_display_no_slash := pretty_no_slash |}.
Definition sample_sha2 : Sha2 := {| sha256 s := s |}.

Section Witnesses.
#[local] Existing Instances sample_staging_uuid sample_sha2.

(** A file of three bytes, in one chunk. *)
Definition sample_params : CreateSessionParams :=
  {| p_user_id := 7%N; p_repo_id := 3%N; p_repo_key := "generic"; p_artifact_path := "a.txt";
     p_artifact_name := None; p_artifact_version := None; p_artifact_metadata_format := None;
     p_artifact_metadata := None; p_artifact_metadata_properties := None; p_package_description := None;
     p_package_metadata := None; p_is_replication := false; p_total_size := 3; p_max_upload_size := 0;
     p_chunk_size := None; p_checksum_sha256 := "abc"; p_content_type := None |}.
Definition sample_db : Db :=
  {| repositories := {[ 3%N := ("filesystem", "/data") ]}; sessions := ∅; chunks := ∅; orphans := ∅ |}.
Definition sample_session : UploadSession :=
  new_session 0 1%N sample_params DEFAULT_CHUNK_SIZE 1 ("filesystem", "/data").
Definition sample_created : Db :=
  {| repositories := {[ 3%N := ("filesystem", "/data") ]}; sessions := {[ 1%N := sample_session ]};
     chunks := {[ (1%N, 0) := new_chunk (0, 3) ]}; orphans := ∅ |}.
(** The first request meets a failing backend, the client repeats it. *)
Definition sample_requests : list ChunkRequest :=
  [ {| at_time := 5; backend_faults _ := true; of_index := 0 |};
    {| at_time := 6; backend_faults _ := false; of_index := 0 |} ].

Lemma create_session_partition_witness :
  create_session 0 1%N sample_params sample_db = Ok (sample_session, sample_created) /\
  sumZ (row_lengths 1%N 1 sample_created) = 3.
Proof.
  split; [reflexivity|].
  destruct (create_session_partition 0 1%N sample_params sample_db sample_session sample_created) as [_ Hs];
    [vm_compute; discriminate|reflexivity|]. apply Hs. vm_compute. discriminate.
Defined.

Lemma upload_roundtrip_witness :
  exists store2 s' db3, fst (assemble_for_commit 10 (fun _ => false) store2 s' db3) = Ok "abc".
Proof.
  assert (Hall : Forall (fun r => 0 <= of_index r < total_chunks sample_session /\ at_time r <= expires_at sample_session)
    sample_requests) by (repeat constructor; vm_compute; congruence).
  assert (Hcover : forall i, 0 <= i < total_chunks sample_session -> exists r,
     r ∈ sample_requests /\ of_index r = i /\ backend_faults r (staged_chunk_key 1%N i) = false).
  { intros i Hi. exists {| at_time := 6; backend_faults _ := false; of_index := 0 |}.
    split; [right; left|]. split; [|reflexivity]. change (0 <= i < 1) in Hi. cbn. lia. }
  pose proof (upload_roundtrip 0 1%N sample_params sample_db sample_session sample_created ∅ "abc" sample_requests 10 50%N
    (fun _ => false) eq_refl (fun _ => eq_refl) eq_refl ltac:(vm_compute; discriminate) eq_refl Hall Hcover
    ltac:(vm_compute; discriminate) (fun _ => eq_refl)) as Hr.
  destruct (upload_pieces _ _ _ _ _ _ _) as [db2 store2]. destruct Hr as (s' & db3 & db4 & s4 & _ & Ha & _).
  exists store2, s', db3. exact (f_equal fst Ha).
Defined.

Lemma chunk_request_roundtrip_witness :
  0 < chunk_size sample_session /\
  chunk_request "bytes 0-2/3" sample_session ["a"; "bc"] = Some (0, 0, "abc").
Proof.
  split; [reflexivity|].
  destruct (chunk_request_roundtrip sample_session "bytes 0-2/3" ["a"; "bc"]) as [_ Hr]; [reflexivity|].
  apply (Hr 0 3); try reflexivity; try discriminate; vm_compute; intuition discriminate.
Defined.

Lemma validated_path_safe_witness :
  validate_artifact_path "a%20b/c.tgz" = Ok tt /\
  split_char "/" (percent_decode "a%20b/c.tgz") = ["a b"; "c.tgz"].
Proof.
  split; [vm_compute; reflexivity|].
  destruct (validated_path_safe "a%20b/c.tgz") as (_ & _ & _ & Hs & _); [vm_compute; reflexivity|].
  rewrite Hs. reflexivity.
Defined.

Definition sample_cancelled : Db :=
  set_sessions (fun _ => {[ 1%N := set_state 3 Cancelled None None None sample_session ]}) sample_created.
Definition sample_registry : StorageRegistry := {[ ("filesystem", "/data") := {[ staged_chunk_key 1%N 0 := "abc" ]} ]}.

Lemma only_cancelled sid s : sessions sample_cancelled !! sid = Some s ->
  s = set_state 3 Cancelled None None None sample_session.
Proof. cbn. by intros [_ <-]%lookup_singleton_Some. Qed.

Lemma no_orphans sid o : orphans sample_cancelled !! sid = Some o -> False.
Proof. cbn. by rewrite lookup_empty. Qed.

Lemma only_created sid s : sessions sample_created !! sid = Some s -> s = sample_session.
Proof. cbn. by intros [_ <-]%lookup_singleton_Some. Qed.

Lemma purge_pass_complete_witness :
  chunks_at_most 1 sample_cancelled /\
  ps_failed (purge_unreclaimed_staging 9 (fun _ => false) sample_cancelled sample_registry) = [].
Proof.
  assert (Hm : chunks_at_most 1 sample_cancelled).
  { split; intros sid x E; [|by destruct (no_orphans _ _ E)].
    apply only_cancelled in E as ->. vm_compute. discriminate. }
  split; [exact Hm|].
  destruct (purge_pass_complete 9 (fun _ => false) sample_cancelled sample_registry 1 ltac:(discriminate) Hm)
    as (_ & _ & _ & Hf).
  apply Hf; [reflexivity|]. intros [] c Hc.
  - by apply elem_of_purge_orphans in Hc as (sid & o & E%no_orphans & _).
  - apply elem_of_purge_sessions in Hc as (sid & s & E & Hc & _).
    apply only_cancelled in E as ->. injection Hc as <-. by eexists.
Defined.

Lemma purge_spares_live_witness : spared 1%N sample_created /\ exists store',
  ps_registry (purge_unreclaimed_staging 9 (fun _ => false) sample_created sample_registry) !! ("filesystem", "/data") = Some store' /\
  store' !! staged_chunk_key 1%N 0 = Some "abc".
Proof.
  assert (Hs : spared 1%N sample_created).
  { split; [|reflexivity]. intros k s E _. apply only_created in E as ->. reflexivity. }
  split; [exact Hs|].
  destruct (purge_spares_live 9 (fun _ => false) sample_created sample_registry 1%N 0 ("filesystem", "/data")
    {[ staged_chunk_key 1%N 0 := "abc" ]} Hs eq_refl) as (store' & E & Ho).
  exists store'. split; [exact E|]. rewrite Ho. apply lookup_singleton_eq.
Defined.
End Witnesses.
