(* ===== verification/UploadRuns.v ===== *)
(** Chunked uploads under concurrency.

    The statements of [Upload] are the steps of a shared world: the database,
    one storage backend, the clock and the requests in flight.  A request
    holds what its Rust future holds between two statements (the session it
    read, the row lock, the lease token, the bytes assembled so far); dropping
    it at any point stands for a crash, a lost client or a failed statement,
    and rolls its open transaction back.

    [run_rows_ok] is the invariant of the rows, [run_completed_published] what
    a completed session guarantees, [run_terminal] and [lease_exclusive] the
    state machine and its lease.  What can and cannot happen to the staged
    bytes is in [UploadRaces]. *)

From stdpp Require Import base list strings pretty gmap relations.
From Stdlib Require Import ZArith Lia Ascii.
From S2P Require Import Prelude RustStr RustNum Chrono Upload UploadFacts.

Local Open Scope string_scope.
Local Open Scope list_scope.
Local Open Scope Z_scope.

(** * Requests and worlds *)

Inductive Request :=
(** [upload_chunk]: the session was read; before the row lock *)
| Writing (s : UploadSession) (index offset : Z) (data : string)
(** the chunk row is locked and claimed; before the put *)
| Locked (s : UploadSession) (index : Z) (data : string)
(** the object is stored; before the guarded UPDATE *)
| Stored (s : UploadSession) (index : Z) (data : string)
(** rolled back; before the delete *)
| Refused (session_id : Uuid) (index : Z)
(** [complete_session]: the lease is taken; before the count *)
| Counting (s : UploadSession)
(** [assemble_staged_chunks]: the objects still to read, the bytes read *)
| Reading (s : UploadSession) (todo : list Z) (acc : string)
(** verified; before the artifact is recorded *)
| Assembled (s : UploadSession) (data : string)
(** recorded; before [finalize_completed] *)
| Published (s : UploadSession) (data : string)
(** finalized or cancelled; before [purge_staged_chunks] *)
| Purging (s : UploadSession).

Record World := {
  clock : DateTime;
  db : Db;
  store : Store;
  requests : gmap nat Request;
  artifacts : list (Uuid * string)
}.

Definition set_clock (t : DateTime) (w : World) : World :=
  {| clock := t; db := db w; store := store w; requests := requests w; artifacts := artifacts w |}.
Definition set_db (d : Db) (w : World) : World :=
  {| clock := clock w; db := d; store := store w; requests := requests w; artifacts := artifacts w |}.
Definition set_store (st : Store) (w : World) : World :=
  {| clock := clock w; db := db w; store := st; requests := requests w; artifacts := artifacts w |}.
Definition set_request (r : nat) (q : option Request) (w : World) : World :=
  {| clock := clock w; db := db w; store := store w;
     requests := match q with Some q => <[r := q]> (requests w) | None => delete r (requests w) end;
     artifacts := artifacts w |}.
Definition add_artifact (sid : Uuid) (data : string) (w : World) : World :=
  {| clock := clock w; db := db w; store := store w; requests := requests w; artifacts := (sid, data) :: artifacts w |}.

(** The chunk row a request has locked. *)
Definition holds (q : Request) : option (Uuid * Z) :=
  match q with Locked s i _ | Stored s i _ => Some (id s, i) | _ => None end.

(** The session a request took the lease of. *)
Definition lease_session (q : Request) : option UploadSession :=
  match q with Counting s | Reading s _ _ | Assembled s _ | Published s _ => Some s | _ => None end.

(** The session a chunk upload was let into. *)
Definition writes_to (q : Request) : option Uuid :=
  match q with Writing s _ _ _ | Locked s _ _ | Stored s _ _ => Some (id s) | _ => None end.

Definition lock_free (key : Uuid * Z) (w : World) : Prop :=
  forall r q, requests w !! r = Some q -> holds q <> Some key.

(** [Uuid::new_v4] repeats no token in use. *)
Definition fresh_token (token : Uuid) (w : World) : Prop :=
  (forall sid s, sessions (db w) !! sid = Some s -> state_token s <> Some token) /\
  (forall r q s, requests w !! r = Some q -> lease_session q = Some s -> state_token s <> Some token).

Inductive Label := Plain | Claims (sid : Uuid) | Finalizes (won : bool).

Section Runs.
Context `{StagingUuid} `{Sha2}.

Inductive step : Label -> World -> World -> Prop :=
| step_tick w t : clock w <= t -> step Plain w (set_clock t w)
| step_create w sid p s d :
    create_session (clock w) sid p (db w) = Ok (s, d) -> step Plain w (set_db d w)
| step_drop w r : step Plain w (set_request r None w)
(* PATCH of a chunk *)
| step_open w r sid user index offset data s :
    requests w !! r = None -> open_for_upload (clock w) sid user (db w) = Ok s ->
    step Plain w (set_request r (Some (Writing s index offset data)) w)
| step_lock w r s index offset data :
    requests w !! r = Some (Writing s index offset data) -> lock_free (id s, index) w ->
    step Plain w
      (set_request r
         match claim_chunk (clock w) s index offset (Z.of_nat (String.length data)) (db w) with
         | Some _ => None
         | None => Some (Locked s index data)
         end w)
| step_put w r s index data faulty :
    requests w !! r = Some (Locked s index data) ->
    step Plain w
      match storage_put faulty (staged_chunk_key (id s) index) data (store w) with
      | Ok st => set_request r (Some (Stored s index data)) (set_store st w)
      | Err _ => set_request r None w
      end
| step_commit w r s index data :
    requests w !! r = Some (Stored s index data) ->
    step Plain w
      match commit_chunk (clock w) (id s) index (Z.of_nat (String.length data)) (sha256 data) (db w) with
      | Some (_, _, d) => set_request r None (set_db d w)
      | None => set_request r (Some (Refused (id s) index)) w
      end
| step_refuse w r sid index faulty e d st :
    requests w !! r = Some (Refused sid index) ->
    refuse_chunk (clock w) faulty sid index (db w) (store w) = (e, d, st) ->
    step Plain w (set_request r None (set_db d (set_store st w)))
(* completion *)
| step_claim w r sid user token s d :
    requests w !! r = None -> fresh_token token w ->
    claim_lease (clock w) sid user token (db w) = Some (s, d) -> staged_in_storage s = true ->
    step (Claims sid) w (set_request r (Some (Counting s)) (set_db d w))
| step_count w r s res d :
    requests w !! r = Some (Counting s) -> check_complete (clock w) s (db w) = (res, d) ->
    step Plain w
      (set_request r (if is_ok res then Some (Reading s (seqZ 0 (total_chunks s)) "") else None) (set_db d w))
| step_read w r s i todo acc faulty :
    requests w !! r = Some (Reading s (i :: todo) acc) ->
    step Plain w
      match storage_get faulty (staged_chunk_key (id s) i) (store w) with
      | Ok data => set_request r (Some (Reading s todo (acc +:+ data))) w
      | Err _ => set_request r None (set_db (release_commit_lease (clock w) s (db w)) w)
      end
| step_verify w r s acc :
    requests w !! r = Some (Reading s [] acc) ->
    step Plain w
      (if bool_decide (Z.of_nat (String.length acc) <> total_size s)
       then set_request r None (set_db (release_commit_lease (clock w) s (db w)) w)
       else if bool_decide (sha256 acc <> checksum_sha256 s)
       then set_request r None
              (set_db (fail_committing (clock w) s (checksum_message (checksum_sha256 s) (sha256 acc)) (db w)) w)
       else set_request r (Some (Assembled s acc)) w)
| step_give_up w r q s error :
    requests w !! r = Some q -> lease_session q = Some s ->
    step Plain w
      (set_request r None
         (set_db match error with
                 | Some e => fail_committing (clock w) s e (db w)
                 | None => release_commit_lease (clock w) s (db w)
                 end w))
| step_publish w r s data :
    requests w !! r = Some (Assembled s data) ->
    step Plain w (set_request r (Some (Published s data)) (add_artifact (id s) data w))
| step_finalize w r s data won d :
    requests w !! r = Some (Published s data) -> finalize_completed (clock w) s (db w) = (won, d) ->
    step (Finalizes won) w (set_request r (Some (Purging s)) (set_db d w))
| step_renew w r q s ttl :
    requests w !! r = Some q -> lease_session q = Some s ->
    step Plain w (set_db (snd (renew_commit_lease (clock w) s ttl (db w))) w)
(* cancel, expiry and purge *)
| step_cancel w r sid user s d :
    requests w !! r = None -> cancel_session (clock w) sid user (db w) = (Ok (Some s), d) ->
    step Plain w (set_request r (Some (Purging s)) (set_db d w))
| step_expire w : step Plain w (set_db (snd (expire_sessions (clock w) (db w))) w)
| step_purge w r s faulty res d st :
    requests w !! r = Some (Purging s) ->
    purge_staged_chunks (clock w) faulty (id s) (total_chunks s) (db w) (store w) = (res, d, st) ->
    step Plain w (set_request r None (set_db d (set_store st w)))
| step_reap w faulty of_orphans failed c st :
    c ∈ purge_candidates of_orphans failed (db w) ->
    st = purge_one (clock w) faulty of_orphans c
           {| ps_budget := 1; ps_purged := 0; ps_failed := failed; ps_db := db w;
              ps_registry := {[ c_location c := store w ]} |} ->
    step Plain w (set_db (ps_db st) (set_store (default (store w) (ps_registry st !! c_location c)) w)).

(** Runs all of whose labels are allowed where they occur. *)
Inductive run (allowed : World -> Label -> Prop) : World -> World -> Prop :=
| run_refl w : run allowed w w
| run_step w1 w2 w3 l : run allowed w1 w2 -> allowed w2 l -> step l w2 w3 -> run allowed w1 w3.

Definition any (w : World) (l : Label) : Prop := True.

Definition empty_world (repos : gmap Uuid StorageLocation) : World :=
  {| clock := 0; db := {| repositories := repos; sessions := ∅; chunks := ∅; orphans := ∅ |};
     store := ∅; requests := ∅; artifacts := [] |}.

Definition reachable (w : World) : Prop := exists repos, run any (empty_world repos) w.

End Runs.

(** * The invariant of the rows *)

(** What no operation changes in a session row. *)
Definition static (s : UploadSession) : Uuid * Uuid * Z * Z * Z * string * DateTime * bool :=
  (id s, user_id s, total_size s, chunk_size s, total_chunks s, checksum_sha256 s, expires_at s, staged_in_storage s).
Definition counters (s : UploadSession) : Z * Z := (completed_chunks s, bytes_received s).

(** The token is there exactly while the session is committing. *)
Definition lease_ok (s : UploadSession) : Prop := status s = Committing <-> is_Some (state_token s).

Definition done_one (o : option UploadChunk) : Z :=
  match o with Some c => if decide (chunk_status c = ChunkCompleted) then 1 else 0 | None => 0 end.
Definition done_bytes (o : option UploadChunk) : Z :=
  match o with Some c => if decide (chunk_status c = ChunkCompleted) then byte_length c else 0 | None => 0 end.
Definition over_rows (f : option UploadChunk -> Z) (sid : Uuid) (n : Z) (d : Db) : Z :=
  sumZ ((fun i => f (chunks d !! (sid, i))) <$> seqZ 0 n).

Record session_ok (d : Db) (sid : Uuid) (s : UploadSession) : Prop := {
  so_id : id s = sid;
  so_lease : lease_ok s;
  so_count : completed_chunks s = over_rows done_one sid (total_chunks s) d;
  so_bytes : bytes_received s = over_rows done_bytes sid (total_chunks s) d;
  so_rows : forall i, 0 <= i < total_chunks s -> exists row, chunks d !! (sid, i) = Some row /\
    (byte_offset row, byte_length row) = placeholder_range (total_size s) (chunk_size s) (total_chunks s) i /\
    (chunk_status row = ChunkPending \/ chunk_status row = ChunkCompleted);
  so_size : 0 < total_size s /\ MIN_CHUNK_SIZE <= chunk_size s <= MAX_CHUNK_SIZE /\
    total_chunks s = chunk_count (total_size s) (chunk_size s)
}.

Definition rows_ok (d : Db) : Prop :=
  (forall sid s, sessions d !! sid = Some s -> session_ok d sid s) /\
  (forall sid i row, chunks d !! (sid, i) = Some row ->
     exists s, sessions d !! sid = Some s /\ 0 <= i < total_chunks s).

Definition all_done (sid : Uuid) (n : Z) (d : Db) : Prop := forall i, 0 <= i < n -> chunk_done sid d i.

(** ** How an operation changes the tables *)

(** One session row: only its state moves, and a terminal state does not.
    [new] is the one status among [completed] and [committing] that may be
    entered. *)
Record row_move (new : option SessionStatus) (s s' : UploadSession) : Prop := {
  rm_static : static s' = static s;
  rm_counters : counters s' = counters s;
  rm_terminal : is_terminal s = true -> status s' = status s;
  rm_lease : lease_ok s -> lease_ok s';
  rm_new : status s' = Completed \/ status s' = Committing -> status s = status s' \/ new = Some (status s')
}.

Definition state_only (new : option SessionStatus) (d d' : Db) : Prop :=
  chunks d' = chunks d /\
  forall sid, match sessions d !! sid, sessions d' !! sid with
              | Some s, Some s' => row_move new s s'
              | None, None => True
              | _, _ => False
              end.

(** Any operation: rows stay, sessions keep what is static, terminal sessions
    keep their status, completed chunks are final; only the row [key] may
    change otherwise. *)
Definition extends (key : option (Uuid * Z)) (d d' : Db) : Prop :=
  (forall sid s, sessions d !! sid = Some s -> exists s', sessions d' !! sid = Some s' /\
     static s' = static s /\ (is_terminal s = true -> status s' = status s)) /\
  (forall k row, chunks d !! k = Some row -> exists row', chunks d' !! k = Some row' /\
     (chunk_status row = ChunkCompleted -> chunk_status row' = ChunkCompleted) /\ (key <> Some k -> row' = row)).

Lemma row_move_refl new s : row_move new s s.
Proof. split; auto. Qed.

Lemma row_move_set_state new now st tok lease err s :
  is_terminal s = false -> (st = Committing <-> is_Some tok) -> (st = Completed \/ st = Committing -> new = Some st) ->
  row_move new s (set_state now st tok lease err s).
Proof. intros Ht Hl Hf. split; cbn; try done; try congruence. intros E. right. by apply Hf. Qed.

Lemma row_move_renew now lease err s :
  row_move None s (set_state now (status s) (state_token s) lease err s).
Proof. split; auto. Qed.

Lemma row_move_purged now s : row_move None s (set_purged now s).
Proof. split; auto. Qed.

Lemma open_not_terminal s : is_open s = true -> is_terminal s = false.
Proof.
  intros Ho%bool_decide_eq_true. apply bool_decide_eq_false. destruct Ho as [-> | ->]; naive_solver.
Qed.

Lemma committing_not_terminal s : status s = Committing -> is_terminal s = false.
Proof. intros E. apply bool_decide_eq_false. rewrite E. naive_solver. Qed.

Lemma holds_lease_spec token s :
  holds_lease token s = true <-> status s = Committing /\ exists t, token = Some t /\ state_token s = Some t.
Proof.
  unfold holds_lease. rewrite andb_true_iff, bool_decide_eq_true.
  destruct (state_token s) as [a|], token as [b|]; rewrite ?bool_decide_eq_true; naive_solver.
Qed.

Lemma state_only_refl new d : state_only new d d.
Proof. split; [done|]. intros sid. destruct (sessions d !! sid); [apply row_move_refl|done]. Qed.

Lemma state_only_orphans new f d : state_only new d (set_orphans f d).
Proof. apply (state_only_refl new d). Qed.

Lemma state_only_insert new sid s s' d : sessions d !! sid = Some s -> row_move new s s' ->
  state_only new d (set_sessions <[sid := s']> d).
Proof.
  intros Hs Hm. split; [done|]. intros k. cbn. destruct (decide (k = sid)) as [->|].
  - by rewrite Hs, lookup_insert_eq.
  - rewrite lookup_insert_ne by done. destruct (sessions d !! k); [apply row_move_refl|done].
Qed.

Lemma state_only_update new sid g f d :
  (forall s, sessions d !! sid = Some s -> g s = true -> row_move new s (f s)) ->
  state_only new d (snd (update_session sid g f d)).
Proof.
  intros Hm. unfold update_session. destruct (sessions d !! sid) as [s|] eqn:Hs; [|apply state_only_refl].
  destruct (g s) eqn:Hg; [|apply state_only_refl]. cbn. eapply state_only_insert; eauto.
Qed.

Lemma state_only_fmap new f d : (forall s, row_move new s (f s)) -> state_only new d (set_sessions (fmap f) d).
Proof.
  intros Hm. split; [done|]. intros k. cbn. rewrite lookup_fmap. by destruct (sessions d !! k); cbn.
Qed.

Lemma state_only_alter new f sid d : (forall s, row_move new s (f s)) ->
  state_only new d (set_sessions (alter f sid) d).
Proof.
  intros Hm. split; [done|]. intros k. cbn. destruct (decide (k = sid)) as [->|].
  - rewrite lookup_alter_eq. by destruct (sessions d !! sid); cbn.
  - rewrite lookup_alter_ne by done. destruct (sessions d !! k); [apply row_move_refl|done].
Qed.

Create HintDb upload.
#[export] Hint Resolve state_only_refl state_only_orphans row_move_refl row_move_purged row_move_renew : upload.

(** The lease transitions. *)
Lemma release_state_only now s d : state_only None d (release_commit_lease now s d).
Proof.
  apply state_only_update. intros s0 _ [Hc _]%holds_lease_spec.
  apply row_move_set_state; [by apply committing_not_terminal|by split; [|intros [? ?]]|by intros [?|?]].
Qed.

Lemma fail_state_only now s e d : state_only None d (fail_committing now s e d).
Proof.
  apply state_only_update. intros s0 _ [Hc _]%holds_lease_spec.
  apply row_move_set_state; [by apply committing_not_terminal|by split; [|intros [? ?]]|by intros [?|?]].
Qed.

Lemma finalize_state_only now s d : state_only (Some Completed) d (snd (finalize_completed now s d)).
Proof.
  apply state_only_update. intros s0 _ [Hc _]%holds_lease_spec.
  apply row_move_set_state; [by apply committing_not_terminal|by split; [|intros [? ?]]|by intros [?|?]].
Qed.

Lemma renew_state_only now s ttl d : state_only None d (snd (renew_commit_lease now s ttl d)).
Proof. apply state_only_update. intros. apply row_move_renew. Qed.

Lemma may_claim_not_terminal now user s : may_claim now user s = true -> is_terminal s = false.
Proof.
  intros [_ [Ho|[Hc%bool_decide_eq_true _]%andb_prop]%orb_prop]%andb_prop;
    [by apply open_not_terminal|by apply committing_not_terminal].
Qed.

Lemma may_cancel_not_terminal now s : may_cancel now s = true -> is_terminal s = false.
Proof.
  intros [Ho|[Hc%bool_decide_eq_true _]%andb_prop]%orb_prop;
    [by apply open_not_terminal|by apply committing_not_terminal].
Qed.

Lemma claim_state_only now sid user token d s d' :
  claim_lease now sid user token d = Some (s, d') ->
  exists s0, sessions d !! sid = Some s0 /\ may_claim now user s0 = true /\ s = claimed now token s0 /\
    d' = set_sessions <[sid := s]> d /\ state_only (Some Committing) d d'.
Proof.
  unfold claim_lease. destruct (sessions d !! sid) as [s0|] eqn:Hs; [|done].
  destruct (may_claim _ _ _) eqn:Hm; [|done]. intros [= <- <-]. exists s0. do 4 (split; [done|]).
  eapply state_only_insert; [done|]. apply row_move_set_state; [by eapply may_claim_not_terminal| |by intros [?|?]].
  split; [by eexists|done].
Qed.

Lemma check_complete_state_only now s d res d' :
  check_complete now s d = (res, d') -> state_only None d d' /\ (is_ok res = true -> incomplete_chunks (id s) d = 0%nat).
Proof.
  unfold check_complete. destruct (Nat.ltb_spec 0 (incomplete_chunks (id s) d)); intros [= <- <-].
  - split; [apply release_state_only|done].
  - split; [apply state_only_refl|]. intros _. lia.
Qed.

Lemma cancel_state_only now sid user d r d' : cancel_session now sid user d = (r, d') -> state_only None d d'.
Proof.
  unfold cancel_session. destruct (sessions d !! sid) as [s|]; [|intros [= <- <-]; apply state_only_refl].
  destruct (decide _); [intros [= <- <-]; apply state_only_refl|].
  pose proof (state_only_update None sid (may_cancel now)
    (fun s => set_state now Cancelled None None (error_message s) s) d) as Hu.
  destruct (update_session _ _ _ _) as [c d1]. cbn in Hu. assert (state_only None d d1) as Hs.
  { apply Hu. intros s0 _ Hm. apply row_move_set_state; [by eapply may_cancel_not_terminal|by split; [|intros [? ?]]|by intros [?|?]]. }
  destruct c; by intros [= <- <-].
Qed.

Lemma expire_state_only now d : state_only None d (snd (expire_sessions now d)).
Proof.
  apply state_only_fmap. intros s. destruct (is_abandoned now s) eqn:Ha; [|apply row_move_refl].
  apply andb_prop in Ha as [[_ Ht%negb_true_iff]%andb_prop _].
  apply row_move_set_state; [done|by split; [|intros [? ?]]|by intros [?|?]].
Qed.

Section RunFacts.
Context `{StagingUuid} `{Sha2}.

Lemma refuse_state_only now faulty sid i d st e d' st' :
  refuse_chunk now faulty sid i d st = (e, d', st') -> state_only None d d'.
Proof.
  unfold refuse_chunk, queue_orphan. destruct (storage_delete _ _ _) as [?|[]]; intros [= <- <- <-]; auto with upload.
  repeat case_match; auto with upload.
Qed.

Lemma purge_state_only now faulty sid n d st r d' st' :
  purge_staged_chunks now faulty sid n d st = (r, d', st') -> state_only None d d'.
Proof.
  unfold purge_staged_chunks. destruct (delete_staged_chunk_objects _ _ _ _) as [[] ?]; intros [= <- <- <-]; auto with upload.
  apply state_only_update. auto with upload.
Qed.

Lemma reap_state_only now faulty oo c st : state_only None (ps_db st) (ps_db (purge_one now faulty oo c st)).
Proof.
  unfold purge_one. destruct (purge_objects _ _ _) as [[] ?], oo; cbn; auto with upload.
  apply state_only_alter. auto with upload.
Qed.

Lemma over_rows_ext f sid n d d' : chunks d' = chunks d -> over_rows f sid n d' = over_rows f sid n d.
Proof. intros E. unfold over_rows. by rewrite E. Qed.

Lemma state_only_rows new d d' : state_only new d d' -> rows_ok d -> rows_ok d'.
Proof.
  intros [Hc Hs] [Hok Hrow]. split.
  - intros sid s' Hs'. specialize (Hs sid). rewrite Hs' in Hs.
    destruct (sessions d !! sid) as [s|] eqn:E; [|done]. destruct (Hok sid s E) as [A B C D F Sz], Hs as [G I _ J _].
    unfold static, counters in *. simplify_eq. split; try congruence.
    + auto.
    + rewrite (over_rows_ext _ _ _ d d') by done. congruence.
    + rewrite (over_rows_ext _ _ _ d d') by done. congruence.
    + intros i Hi. rewrite Hc. destruct (F i) as (row & ? & ? & ?); [lia|]. exists row. split_and!; congruence.
  - intros sid i row. rewrite Hc. intros (s & E & Hi)%Hrow. specialize (Hs sid). rewrite E in Hs.
    destruct (sessions d' !! sid) as [s'|]; [|done]. exists s'. destruct Hs as [G _ _ _ _].
    unfold static in *. simplify_eq. split; [done|lia].
Qed.

Lemma state_only_extends new d d' : state_only new d d' -> extends None d d'.
Proof.
  intros [Hc Hs]. split.
  - intros sid s E. specialize (Hs sid). rewrite E in Hs. destruct (sessions d' !! sid) as [s'|]; [|done].
    exists s'. split_and!; [done|apply Hs|apply Hs].
  - intros k row E. exists row. by rewrite Hc.
Qed.

Lemma all_done_extends key sid n d d' : extends key d d' -> all_done sid n d -> all_done sid n d'.
Proof.
  intros [_ Hc] Ha i Hi. destruct (Ha i Hi) as (row & E & Es). destruct (Hc _ _ E) as (row' & E' & Hd & _).
  exists row'. auto.
Qed.
End RunFacts.

(** ** Creating a session and committing a chunk *)

Section RowFacts.
Context `{StagingUuid} `{Sha2}.

Lemma session_ok_frame d d' k s :
  (forall j, chunks d' !! (k, j) = chunks d !! (k, j)) -> session_ok d k s -> session_ok d' k s.
Proof.
  intros Hch [A B C D F Sz].
  assert (forall f, over_rows f k (total_chunks s) d' = over_rows f k (total_chunks s) d) as Hover.
  { intros f. unfold over_rows. f_equal. apply list_fmap_ext. intros. by rewrite Hch. }
  split; rewrite ?Hover; try done. intros i Hi. rewrite Hch. by apply F.
Qed.

Lemma create_rows now sid p d s d' : create_session now sid p d = Ok (s, d') -> rows_ok d ->
  rows_ok d' /\ extends None d d' /\ sessions d !! sid = None /\ status s = Pending /\ state_token s = None /\
  sessions d' = <[sid := s]> (sessions d) /\ (forall k, fst k <> sid -> chunks d' !! k = chunks d !! k).
Proof.
  intros (cs & at_ & _ & Hcs & Hpos & Hnone & -> & ->)%create_session_inv [Hok Hrow].
  set (n := chunk_count (p_total_size p) cs).
  assert (Hno : forall i, chunks d !! (sid, i) = None).
  { intros i. destruct (chunks d !! (sid, i)) eqn:E; [|done]. apply Hrow in E as (s & E & _). congruence. }
  assert (Hother : forall k, fst k <> sid -> insert_placeholders sid (p_total_size p) cs n (chunks d) !! k = chunks d !! k).
  { intros k Hk. rewrite insert_placeholders_lookup, decide_False; [done|]. by intros [? _]. }
  split; [|split; [|split; [|split; [|split; [|split]]]]]; try done.
  - split; cbn -[placeholder_range].
    + intros k s. destruct (decide (k = sid)) as [->|Hk].
      * rewrite lookup_insert_eq. intros [= <-]. split; cbn -[placeholder_range]; try done.
        -- by split; [|intros [? ?]].
        -- symmetry. apply sumZ_zero. intros i Hi. cbn -[placeholder_range].
           by rewrite insert_placeholders_lookup, decide_True.
        -- symmetry. apply sumZ_zero. intros i Hi. cbn -[placeholder_range].
           by rewrite insert_placeholders_lookup, decide_True.
        -- intros i Hi. rewrite insert_placeholders_lookup, decide_True by done. eexists. split; [done|].
           split; [by destruct (placeholder_range _ _ _ _)|by left].
      * rewrite lookup_insert_ne by done. intros Hs. apply (session_ok_frame d); [|by apply Hok].
        intros j. by apply Hother.
    + intros k i row. rewrite insert_placeholders_lookup. destruct (decide _) as [[E Hi]|Hn].
      * intros _. cbn in E, Hi. subst k. exists (new_session now sid p cs n at_). rewrite lookup_insert_eq. done.
      * intros E. destruct (decide (k = sid)) as [->|Hk]; [by rewrite Hno in E|].
        rewrite lookup_insert_ne by done. by eapply Hrow.
  - split; cbn -[placeholder_range].
    + intros k s Hs. exists s. split; [|done]. rewrite lookup_insert_ne; [done|]. intros <-. congruence.
    + intros [k i] row E. exists row. split; [|done]. rewrite Hother; [done|]. cbn. intros ->. by rewrite Hno in E.
Qed.

Lemma over_rows_update f sid n i d d' row row' :
  0 <= i < n -> chunks d !! (sid, i) = Some row -> chunks d' !! (sid, i) = Some row' ->
  (forall j, j <> i -> chunks d' !! (sid, j) = chunks d !! (sid, j)) ->
  over_rows f sid n d' = over_rows f sid n d + (f (Some row') - f (Some row)).
Proof.
  intros Hi E E' Hj. unfold over_rows.
  rewrite (sumZ_update (fun j => f (chunks d !! (sid, j))) (fun j => f (chunks d' !! (sid, j))) n i); [|done|].
  - by rewrite E, E'.
  - intros j Hne. by rewrite Hj.
Qed.

(** The counters and the rows of the session whose chunk is committed. *)
Lemma session_ok_commit now d d' sid i s row sum len :
  session_ok d sid s -> is_open s = true -> 0 <= i < total_chunks s ->
  chunks d !! (sid, i) = Some row -> chunk_status row = ChunkPending -> byte_length row = len ->
  chunks d' !! (sid, i) = Some (mark_chunk_completed now sum row) ->
  (forall j, j <> i -> chunks d' !! (sid, j) = chunks d !! (sid, j)) ->
  session_ok d' sid (count_chunk now len s).
Proof.
  intros [A B C D F Sz] Hopen Hi Er Ep El Er' Hoth. split; cbn; try done.
  - unfold lease_ok in *. cbn. apply bool_decide_eq_true in Hopen.
    destruct Hopen as [E|E]; rewrite E in *; cbn; rewrite <- B; done.
  - rewrite C, (over_rows_update done_one sid _ i d d' row _ Hi Er Er' Hoth).
    cbn. rewrite Ep, decide_True, decide_False by done. lia.
  - rewrite D, (over_rows_update done_bytes sid _ i d d' row _ Hi Er Er' Hoth).
    cbn. rewrite Ep, decide_True, decide_False by done. lia.
  - intros j Hj. destruct (decide (j = i)) as [->|Hne].
    + eexists. split; [done|]. cbn. destruct (F i Hi) as (r0 & E0 & ? & _).
      rewrite Er in E0. injection E0 as <-. split; [done|by right].
    + rewrite Hoth by done. by apply F.
Qed.

Lemma commit_chunk_inv now sid i len sum d c b d' :
  commit_chunk now sid i len sum d = Some (c, b, d') ->
  exists s, sessions d !! sid = Some s /\ is_open s = true /\
    d' = set_chunks (alter (mark_chunk_completed now sum) (sid, i)) (set_sessions <[sid := count_chunk now len s]> d).
Proof.
  unfold commit_chunk. destruct (sessions d !! sid) as [s|]; [|done]. intros Hc. exists s.
  unfold is_open. destruct (status s); try done; by injection Hc as _ _ <-.
Qed.

Lemma commit_rows now sid i data d c b d' row :
  commit_chunk now sid i (Z.of_nat (String.length data)) (sha256 data) d = Some (c, b, d') -> rows_ok d ->
  chunks d !! (sid, i) = Some row -> chunk_status row = ChunkPending ->
  byte_length row = Z.of_nat (String.length data) ->
  rows_ok d' /\ extends (Some (sid, i)) d d' /\
  exists s, sessions d !! sid = Some s /\ is_open s = true /\
    sessions d' = <[sid := count_chunk now (Z.of_nat (String.length data)) s]> (sessions d) /\
    chunks d' = <[(sid, i) := mark_chunk_completed now (sha256 data) row]> (chunks d).
Proof.
  intros (s & Es & Hopen & ->)%commit_chunk_inv [Hok Hrow] Er Ep El.
  destruct (Hrow _ _ _ Er) as (s1 & Es1 & Hi). rewrite Es in Es1. injection Es1 as <-.
  pose proof (open_not_terminal s Hopen) as Hnt. set (row' := mark_chunk_completed now (sha256 data) row).
  set (d' := set_chunks _ _).
  assert (Hd' : chunks d' = <[(sid, i) := row']> (chunks d)).
  { apply map_eq. intros k. cbn. destruct (decide (k = (sid, i))) as [->|].
    - by rewrite lookup_alter_eq, lookup_insert_eq, Er.
    - by rewrite lookup_alter_ne, lookup_insert_ne by done. }
  assert (Hoth : forall k, k <> (sid, i) -> chunks d' !! k = chunks d !! k).
  { intros k Hk. by rewrite Hd', lookup_insert_ne. }
  assert (Hnew : chunks d' !! (sid, i) = Some row') by (by rewrite Hd', lookup_insert_eq).
  split; [|split].
  - split.
    + intros k s2. cbn. destruct (decide (k = sid)) as [->|Hk].
      * rewrite lookup_insert_eq. intros [= <-]. apply (session_ok_commit now d d' sid i s row (sha256 data)); auto.
        intros j Hj. apply Hoth. congruence.
      * rewrite lookup_insert_ne by done. intros E2. apply (session_ok_frame d); [|by apply Hok].
        intros j. apply Hoth. congruence.
    + intros k j r0 E0. cbn. destruct (decide (k = sid)) as [->|Hk].
      * rewrite lookup_insert_eq. eexists. split; [done|]. cbn.
        destruct (decide (j = i)) as [->|Hne]; [done|]. rewrite Hoth in E0 by congruence.
        destruct (Hrow _ _ _ E0) as (s2 & E2 & ?). congruence.
      * rewrite lookup_insert_ne by done. rewrite Hoth in E0 by congruence. by eapply Hrow.
  - split.
    + intros k s2 E2. cbn. destruct (decide (k = sid)) as [->|Hk].
      * rewrite lookup_insert_eq. eexists. split; [done|]. rewrite Es in E2. injection E2 as <-. split; [done|congruence].
      * rewrite lookup_insert_ne by done. eauto.
    + intros k r0 E0. destruct (decide (k = (sid, i))) as [->|Hk]; [exists row'; by repeat split|].
      exists r0. rewrite Hoth by done. done.
  - exists s. done.
Qed.
End RowFacts.

(** * The invariant of the world *)

Section WorldFacts.
Context `{StagingUuid} `{Sha2}.

(** The session a request read is still there, with the same static columns. *)
Definition known (d : Db) (s : UploadSession) : Prop :=
  exists s0, sessions d !! id s = Some s0 /\ static s0 = static s.

(** [data] is what the session declared. *)
Definition verified (s : UploadSession) (data : string) : Prop :=
  Z.of_nat (String.length data) = total_size s /\ sha256 data = checksum_sha256 s.

Definition req_ok (d : Db) (arts : list (Uuid * string)) (q : Request) : Prop :=
  match q with
  | Writing s _ _ _ => known d s
  | Locked s i data | Stored s i data =>
      known d s /\ exists row, chunks d !! (id s, i) = Some row /\ chunk_status row = ChunkPending /\
        byte_length row = Z.of_nat (String.length data)
  | Refused _ _ => True
  | Counting s => known d s /\ is_Some (state_token s)
  | Reading s _ _ => known d s /\ is_Some (state_token s) /\ all_done (id s) (total_chunks s) d
  | Assembled s data =>
      known d s /\ is_Some (state_token s) /\ all_done (id s) (total_chunks s) d /\ verified s data
  | Published s data =>
      known d s /\ is_Some (state_token s) /\ all_done (id s) (total_chunks s) d /\ verified s data /\
      (id s, data) ∈ arts
  | Purging s => known d s
  end.

Record world_ok (w : World) : Prop := {
  wo_rows : rows_ok (db w);
  wo_reqs : forall r q, requests w !! r = Some q -> req_ok (db w) (artifacts w) q;
  wo_locks : forall r r' q q' key, requests w !! r = Some q -> requests w !! r' = Some q' ->
    holds q = Some key -> holds q' = Some key -> r = r';
  wo_tokens : forall r r' q q' s s', requests w !! r = Some q -> requests w !! r' = Some q' ->
    lease_session q = Some s -> lease_session q' = Some s' -> state_token s = state_token s' -> r = r';
  wo_completed : forall sid s, sessions (db w) !! sid = Some s -> status s = Completed ->
    all_done sid (total_chunks s) (db w) /\ exists data, (sid, data) ∈ artifacts w /\ verified s data
}.

Lemma static_verified s s' data : static s' = static s -> verified s data -> verified s' data.
Proof. unfold static, verified. intros E. simplify_eq. intros [? ?]. split; congruence. Qed.

Lemma known_extends key d d' s : extends key d d' -> known d s -> known d' s.
Proof.
  intros [Hs _] (s0 & E & Est). destruct (Hs _ _ E) as (s1 & E1 & Est1 & _). exists s1. split; congruence.
Qed.

Lemma req_ok_extends key d d' arts arts' q :
  extends key d d' -> (forall k, holds q = Some k -> key <> Some k) -> (forall x, x ∈ arts -> x ∈ arts') ->
  req_ok d arts q -> req_ok d' arts' q.
Proof.
  intros He Hk Ha. assert (forall s, known d s -> known d' s) as Hkn by (intros s; by eapply known_extends).
  assert (forall sid n, all_done sid n d -> all_done sid n d') as Hd by (intros sid n; by eapply all_done_extends).
  assert (forall s i data, holds q = Some (id s, i) ->
    (exists row, chunks d !! (id s, i) = Some row /\ chunk_status row = ChunkPending /\
       byte_length row = Z.of_nat (String.length data)) ->
    exists row, chunks d' !! (id s, i) = Some row /\ chunk_status row = ChunkPending /\
       byte_length row = Z.of_nat (String.length data)) as Hr.
  { intros s i data Hq (row & E & Ep & El). destruct He as [_ Hc]. destruct (Hc _ _ E) as (row' & E' & _ & Heq).
    exists row'. rewrite Heq by (by apply Hk). rewrite Heq in E' by (by apply Hk). done. }
  destruct q; cbn in *; naive_solver.
Qed.

Lemma world_ok_store st w : world_ok w -> world_ok (set_store st w).
Proof. by intros []. Qed.

Lemma world_ok_clock t w : world_ok w -> world_ok (set_clock t w).
Proof. by intros []. Qed.

Lemma world_ok_remove r w : world_ok w -> world_ok (set_request r None w).
Proof.
  intros [A B C D E]. split; cbn; try done.
  - intros r0 q [_ Hq]%lookup_delete_Some. by eapply B.
  - intros r1 r2 q q' key [_ G1]%lookup_delete_Some [_ G2]%lookup_delete_Some. by eapply C.
  - intros r1 r2 q q' s s' [_ G1]%lookup_delete_Some [_ G2]%lookup_delete_Some. by eapply D.
Qed.

Lemma world_ok_set r q w : world_ok w -> req_ok (db w) (artifacts w) q ->
  (forall r' q' key, r' <> r -> requests w !! r' = Some q' -> holds q = Some key -> holds q' <> Some key) ->
  (forall r' q' s s', r' <> r -> requests w !! r' = Some q' -> lease_session q = Some s ->
     lease_session q' = Some s' -> state_token s' <> state_token s) ->
  world_ok (set_request r (Some q) w).
Proof.
  intros [A B C D E] Hq Hl Ht. split; cbn; try done.
  - intros r0 q0 [[-> ->]|[_ G0]]%lookup_insert_Some; [done|by eapply B].
  - intros r1 r2 q1 q2 key [[-> ->]|[N1 G1]]%lookup_insert_Some [[-> ->]|[N2 G2]]%lookup_insert_Some K1 K2; try done.
    + by destruct (Hl r2 q2 key).
    + by destruct (Hl r1 q1 key).
    + by eapply C.
  - intros r1 r2 q1 q2 s1 s2 [[-> ->]|[N1 G1]]%lookup_insert_Some [[-> ->]|[N2 G2]]%lookup_insert_Some K1 K2 Hs; try done.
    + by destruct (Ht r2 q2 s1 s2).
    + by destruct (Ht r1 q1 s2 s1).
    + by eapply D.
Qed.

(** A request goes on, keeping (or giving up) its lock and its lease. *)
Lemma world_ok_progress r q q' w : world_ok w -> requests w !! r = Some q ->
  req_ok (db w) (artifacts w) q' -> (holds q' = holds q \/ holds q' = None) ->
  (lease_session q' = lease_session q \/ lease_session q' = None) ->
  world_ok (set_request r (Some q') w).
Proof.
  intros Hw Hq Hok Hh Hl. apply world_ok_set; try done.
  - intros r' q0 key Hne Hq0 Hk Hk0. apply Hne. destruct Hh as [Hh|Hh]; [|congruence]. rewrite Hh in Hk.
    symmetry. by eapply (wo_locks _ Hw).
  - intros r' q0 s s' Hne Hq0 Hs Hs0 E. apply Hne. destruct Hl as [Hl|Hl]; [|congruence]. rewrite Hl in Hs.
    by eapply (wo_tokens _ Hw).
Qed.

(** The tables move; requests whose lock is not on the moved row go on. *)
Lemma world_ok_db key d w : world_ok w -> extends key (db w) d -> rows_ok d ->
  (forall r q k, requests w !! r = Some q -> holds q = Some k -> key <> Some k) ->
  (forall sid s, sessions d !! sid = Some s -> status s = Completed ->
     exists s0, sessions (db w) !! sid = Some s0 /\ status s0 = Completed /\ static s0 = static s) ->
  world_ok (set_db d w).
Proof.
  intros [A B C D E] He Hrows Hk Hc. split; cbn; try done.
  - intros r q Hq. eapply req_ok_extends; [done| |done|by eapply B]. intros k. by eapply Hk.
  - intros sid s Hs Hst. destruct (Hc sid s Hs Hst) as (s0 & E0 & Est & Estat).
    destruct (E sid s0 E0 Est) as (Hdone & data & Hin & Hv). split.
    + replace (total_chunks s) with (total_chunks s0) by (unfold static in Estat; congruence).
      by eapply all_done_extends.
    + exists data. split; [done|]. by eapply static_verified.
Qed.

Lemma world_ok_state new d w : new <> Some Completed -> world_ok w -> state_only new (db w) d -> world_ok (set_db d w).
Proof.
  intros Hnew Hw Hs. apply (world_ok_db None); [done|by eapply state_only_extends| |done|].
  - eapply state_only_rows; [done|apply Hw].
  - intros sid s E Est. destruct Hs as [_ Hs]. specialize (Hs sid). rewrite E in Hs.
    destruct (sessions (db w) !! sid) as [s0|]; [|done]. exists s0. split; [done|].
    destruct Hs as [Hst _ _ _ Hf]. split; [|done]. destruct (Hf (or_introl Est)) as [?|?]; congruence.
Qed.

(** The same, with the request that ran the statement finished or going on. *)
Lemma world_ok_state_remove d r w : world_ok w -> state_only None (db w) d -> world_ok (set_request r None (set_db d w)).
Proof. intros. apply world_ok_remove. by apply (world_ok_state None). Qed.

Lemma known_row d sid s : rows_ok d -> sessions d !! sid = Some s -> id s = sid /\ known d s.
Proof.
  intros [Hok _] E. pose proof (so_id _ _ _ (Hok _ _ E)) as Eid. split; [done|]. exists s. by rewrite Eid.
Qed.

Lemma open_for_upload_inv now sid user d s : open_for_upload now sid user d = Ok s ->
  sessions d !! sid = Some s /\ is_open s = true /\ user_id s = user /\ now <= expires_at s.
Proof.
  unfold open_for_upload, get_session. destruct (sessions d !! sid) as [s0|]; [|done]. cbn [ok_or rbind].
  destruct (bool_decide _) eqn:Hu; [done|]. apply bool_decide_eq_false, dec_stable in Hu.
  destruct (Z.ltb_spec (expires_at s0) now); [done|]. cbn [rbind].
  unfold is_open. destruct (status s0) eqn:Est, (staged_in_storage s0); intros [= <-]; rewrite Est; by split_and!.
Qed.

Lemma claim_chunk_None now s i offset len d : claim_chunk now s i offset len d = None ->
  exists row, chunks d !! (id s, i) = Some row /\ chunk_status row <> ChunkCompleted /\
    offset = byte_offset row /\ len = byte_length row.
Proof.
  unfold claim_chunk. destruct (chunks d !! (id s, i)) as [row|]; [|done]. intros Hc. exists row.
  assert ((if bool_decide (offset <> byte_offset row) || bool_decide (len <> byte_length row) then false else true) = true /\
    chunk_status row <> ChunkCompleted) as [Hcov Hst].
  { destruct (chunk_status row); try done; destruct (bool_decide (offset <> byte_offset row) || _);
      repeat case_match; try done. }
  destruct (bool_decide (offset <> byte_offset row)) eqn:E1, (bool_decide (len <> byte_length row)) eqn:E2; try done.
  apply bool_decide_eq_false, dec_stable in E1, E2. done.
Qed.

Lemma rows_pending d k i row : rows_ok d -> chunks d !! (k, i) = Some row ->
  chunk_status row = ChunkPending \/ chunk_status row = ChunkCompleted.
Proof.
  intros [Hok Hrow] E. destruct (Hrow _ _ _ E) as (s & Es & Hi). destruct (so_rows _ _ _ (Hok _ _ Es) i Hi) as (r0 & E0 & _ & ?).
  congruence.
Qed.

Lemma all_done_count d s : rows_ok d -> known d s -> incomplete_chunks (id s) d = 0%nat ->
  all_done (id s) (total_chunks s) d.
Proof.
  intros [Hok _] (s0 & E & Est) Hz i Hi.
  destruct (so_rows _ _ _ (Hok _ _ E) i) as (row & Er & _ & _); [unfold static in Est; simplify_eq; lia|].
  exists row. split; [done|]. unfold incomplete_chunks in Hz. apply map_size_empty_iff in Hz.
  apply dec_stable. intros Hn. pose proof (map_empty_filter_1 _ _ Hz (id s, i) row Er) as Hf. by apply Hf.
Qed.
End WorldFacts.

Section StepFacts.
Context `{StagingUuid} `{Sha2}.

Lemma req_ok_session d arts q s : req_ok d arts q -> lease_session q = Some s -> known d s.
Proof. destruct q; cbn; try done; intros Hq [= <-]; naive_solver. Qed.

Lemma step_ok_create w sid p s d : world_ok w -> create_session (clock w) sid p (db w) = Ok (s, d) ->
  world_ok (set_db d w) /\ extends None (db w) d.
Proof.
  intros Hw Hc. destruct (create_rows _ _ _ _ _ _ Hc (wo_rows _ Hw)) as (Hr & He & Hn & Hst & _ & Es & _).
  split; [|done]. apply (world_ok_db None); try done.
  intros k s1. rewrite Es. destruct (decide (k = sid)) as [->|].
  - rewrite lookup_insert_eq. intros [= <-]. congruence.
  - rewrite lookup_insert_ne by done. eauto.
Qed.

Lemma step_ok_lock w r s i offset data : world_ok w ->
  requests w !! r = Some (Writing s i offset data) -> lock_free (id s, i) w ->
  claim_chunk (clock w) s i offset (Z.of_nat (String.length data)) (db w) = None ->
  world_ok (set_request r (Some (Locked s i data)) w).
Proof.
  intros Hw Hq Hfree (row & Er & Hn & _ & El)%claim_chunk_None.
  destruct (rows_pending _ _ _ _ (wo_rows _ Hw) Er) as [Hp|]; [|done].
  pose proof (wo_reqs _ Hw _ _ Hq) as Hk. apply world_ok_set; [done| | |done].
  - cbn in *. eauto 10.
  - intros r' q' key _ Hq' [= <-]. by eapply Hfree.
Qed.

Lemma step_ok_commit w r s i data c b d : world_ok w -> requests w !! r = Some (Stored s i data) ->
  commit_chunk (clock w) (id s) i (Z.of_nat (String.length data)) (sha256 data) (db w) = Some (c, b, d) ->
  world_ok (set_request r None (set_db d w)) /\ extends (Some (id s, i)) (db w) d.
Proof.
  intros Hw Hq Hc. pose proof (wo_reqs _ Hw _ _ Hq) as (_ & row & Er & Ep & El).
  destruct (commit_rows _ _ _ _ _ _ _ _ _ Hc (wo_rows _ Hw) Er Ep El) as (Hr & He & s0 & Es & Ho & Ess & _).
  split; [|done]. change (set_request r None (set_db d w)) with (set_db d (set_request r None w)).
  apply (world_ok_db (Some (id s, i))); [by apply world_ok_remove|done|done| |].
  - cbn. intros r' q k [Hne Hq']%lookup_delete_Some Hk [= <-]. apply Hne.
    by eapply (wo_locks _ Hw r r').
  - intros k s1. rewrite Ess. destruct (decide (k = id s)) as [->|].
    + rewrite lookup_insert_eq. intros [= <-] Hx. exfalso. cbn in Hx. apply bool_decide_eq_true in Ho.
      destruct Ho as [E|E]; rewrite E in Hx; done.
    + rewrite lookup_insert_ne by done. eauto.
Qed.

Lemma step_ok_claim w r sid user token s d : world_ok w -> fresh_token token w ->
  claim_lease (clock w) sid user token (db w) = Some (s, d) ->
  world_ok (set_request r (Some (Counting s)) (set_db d w)) /\ state_only (Some Committing) (db w) d.
Proof.
  intros Hw [Hf1 Hf2] Hc. destruct (claim_state_only _ _ _ _ _ _ _ Hc) as (s0 & E0 & _ & -> & -> & Hst).
  split; [|done]. destruct (known_row _ _ _ (wo_rows _ Hw) E0) as [Eid _].
  pose proof (world_ok_state (Some Committing) _ _ ltac:(done) Hw Hst) as Hw'. apply world_ok_set; [done| |done|].
  - split; [|by eexists]. exists (claimed (clock w) token s0). cbn. rewrite Eid, lookup_insert_eq. done.
  - cbn. intros r' q' s1 s' _ Hq' [= <-] Hs'. cbn. by eapply Hf2.
Qed.

Lemma step_ok_finalize w r s data won d : world_ok w -> requests w !! r = Some (Published s data) ->
  finalize_completed (clock w) s (db w) = (won, d) ->
  world_ok (set_request r (Some (Purging s)) (set_db d w)) /\ state_only (Some Completed) (db w) d.
Proof.
  intros Hw Hq Hf. pose proof (finalize_state_only (clock w) s (db w)) as Hst. rewrite Hf in Hst. cbn in Hst.
  split; [|done]. pose proof (wo_reqs _ Hw _ _ Hq) as (Hk & Htok & Hdone & Hver & Hin).
  pose proof (state_only_extends _ _ _ Hst) as He.
  assert (Hw' : world_ok (set_db d w)).
  { destruct (Hw) as [A B C D E]. split; cbn; try done.
    - by eapply state_only_rows.
    - intros r0 q G. eapply req_ok_extends; [done|done|done|by eapply B].
    - intros sid s1 E1 Est. destruct Hst as [Hch Hss]. pose proof (Hss sid) as Hm. rewrite E1 in Hm.
      destruct (sessions (db w) !! sid) as [s0|] eqn:E0; [|done].
      assert (total_chunks s1 = total_chunks s0) as -> by (destruct Hm as [G _ _ _ _]; unfold static in G; congruence).
      destruct (decide (status s0 = Completed)) as [Ec|Enc].
      + destruct (E sid s0 E0 Ec) as (Hd0 & data0 & Hin0 & Hv0). split; [by eapply all_done_extends|].
        exists data0. split; [done|]. eapply static_verified; [|done]. apply Hm.
      + (* the row the request finalized *)
        unfold finalize_completed, update_session in Hf. destruct Hk as (s2 & E2 & Est2).
        rewrite E2 in Hf. destruct (holds_lease _ s2) eqn:Hl; [|injection Hf as <- <-; congruence].
        injection Hf as _ <-. cbn in E1. destruct (decide (sid = id s)) as [->|Hne].
        * rewrite E0 in E2. injection E2 as ->. split.
          -- eapply all_done_extends; [done|]. replace (total_chunks s2) with (total_chunks s); [done|].
             unfold static in Est2. congruence.
          -- exists data. split; [done|]. eapply static_verified; [|done].
             destruct Hm as [G _ _ _ _]. congruence.
        * rewrite lookup_insert_ne in E1 by done. congruence. }
  eapply world_ok_progress; [done|exact Hq| |by right|by right]. cbn. by eapply known_extends.
Qed.

(** Every step keeps the invariant and only extends the tables. *)
Lemma step_ok l w w' : world_ok w -> step l w w' -> world_ok w' /\ exists key, extends key (db w) (db w').
Proof.
  intros Hw Hstep.
  assert (Hrefl : exists key, extends key (db w) (db w)).
  { exists None. apply (state_only_extends None), state_only_refl. }
  assert (Hso : forall fin d, state_only fin (db w) d -> exists key, extends key (db w) d).
  { intros fin d Hd. exists None. by eapply state_only_extends. }
  destruct Hstep as [w t Ht|w sid p s d Hc|w r|w r sid user i offset data s Hr Ho|w r s i offset data Hq Hfree
    |w r s i data faulty Hq|w r s i data Hq|w r sid i faulty e d st Hq Href|w r sid user token s d Hr Hf Hc Hs
    |w r s res d Hq Hc|w r s i todo acc faulty Hq|w r s acc Hq|w r q s error Hq Hl|w r s data Hq
    |w r s data won d Hq Hf|w r q s ttl Hq Hl|w r sid user s d Hr Hc|w|w r s faulty res d st Hq Hp
    |w faulty oo failed c st Hin Hst].
  - split; [by apply world_ok_clock|done].
  - destruct (step_ok_create _ _ _ _ _ Hw Hc). eauto.
  - split; [by apply world_ok_remove|done].
  - split; [|done]. apply open_for_upload_inv in Ho as (E & _).
    apply world_ok_set; [done| |done|done]. cbn. by apply (known_row _ sid _ (wo_rows _ Hw)).
  - split; [|by case_match]. destruct (claim_chunk _ _ _ _ _ _) eqn:Hc; [by apply world_ok_remove|].
    by eapply step_ok_lock.
  - unfold storage_put. destruct (faulty _); (split; [|done]); [by apply world_ok_remove|].
    eapply world_ok_progress; [by apply world_ok_store|exact Hq| |by left|by left]. exact (wo_reqs _ Hw _ _ Hq).
  - destruct (commit_chunk _ _ _ _ _ _) as [[[c b] d]|] eqn:Hc.
    + destruct (step_ok_commit _ _ _ _ _ _ _ _ Hw Hq Hc). eauto.
    + split; [|done]. eapply world_ok_progress; [done|exact Hq|done|by right|by left].
  - apply refuse_state_only in Href. split; [|by eapply Hso]. by apply world_ok_state_remove, Href; apply world_ok_store.
  - destruct (step_ok_claim _ r _ _ _ _ _ Hw Hf Hc) as [? ?]. split; [done|by eapply Hso].
  - destruct (check_complete_state_only _ _ _ _ _ Hc) as [Hd Hz]. split; [|by eapply Hso].
    pose proof (wo_reqs _ Hw _ _ Hq) as [Hk Ht]. destruct (is_ok res) eqn:E; [|by apply world_ok_state_remove].
    eapply world_ok_progress; [by eapply (world_ok_state None)|exact Hq| |by left|by left]. cbn.
    split; [by eapply known_extends, Hk; eapply state_only_extends|]. split; [done|].
    eapply all_done_extends; [by eapply state_only_extends|]. apply all_done_count; [apply Hw|done|by apply Hz].
  - unfold storage_get. destruct (faulty _); [|destruct (store w !! _)]; cbn [ok_or].
    1,3: (split; [by apply world_ok_state_remove; [|apply release_state_only]|by eapply Hso, release_state_only]).
    split; [|done]. eapply world_ok_progress; [done|exact Hq|exact (wo_reqs _ Hw _ _ Hq)|by left|by left].
  - destruct (bool_decide _) eqn:E1.
    { split; [by apply world_ok_state_remove; [|apply release_state_only]|by eapply Hso, release_state_only]. }
    destruct (bool_decide (sha256 acc <> _)) eqn:E2.
    { split; [by apply world_ok_state_remove; [|apply fail_state_only]|by eapply Hso, fail_state_only]. }
    apply bool_decide_eq_false, dec_stable in E1, E2. split; [|done].
    pose proof (wo_reqs _ Hw _ _ Hq) as (? & ? & ?).
    by eapply world_ok_progress; [done|exact Hq| |by left|by left].
  - destruct error; (split; [apply world_ok_state_remove; [done|]|eapply Hso]);
      first [apply fail_state_only|apply release_state_only].
  - split; [|done]. pose proof (wo_reqs _ Hw _ _ Hq) as (? & ? & ? & ?).
    assert (Hw' : world_ok (add_artifact (id s) data w)).
    { destruct Hw as [A B C D E]. split; cbn; try done.
      - intros r0 q G. eapply req_ok_extends; [apply (state_only_extends None), state_only_refl|done| |by eapply B].
        intros x Hx. by right.
      - intros sid s1 E1 Est. destruct (E _ _ E1 Est) as (? & dd & ? & ?). split; [done|]. exists dd. split; [by right|done]. }
    eapply world_ok_progress; [done|exact Hq| |by left|by left]. cbn. do 4 (split; [done|]). by left.
  - destruct (step_ok_finalize _ _ _ _ _ _ Hw Hq Hf) as [? ?]. split; [done|by eapply Hso].
  - split; [apply (world_ok_state None); [done|done|]|eapply Hso]; apply renew_state_only.
  - pose proof (cancel_state_only _ _ _ _ _ _ Hc) as Hd. split; [|by eapply Hso].
    apply world_ok_set; [by apply (world_ok_state None)| |done|done]. cbn. eapply known_extends; [by eapply state_only_extends|].
    unfold cancel_session in Hc. destruct (sessions (db w) !! sid) as [s0|] eqn:E; [|done].
    destruct (decide _); [done|]. destruct (update_session _ _ _ _) as [[] d1].
    + destruct (staged_in_storage s0); [|done]. injection Hc as -> _. by apply (known_row _ sid _ (wo_rows _ Hw)).
    + exfalso. destruct (sessions d1 !! sid); [|done]. by destruct (decide _).
  - split; [apply (world_ok_state None); [done|done|]|eapply Hso]; apply expire_state_only.
  - apply purge_state_only in Hp. split; [|by eapply Hso]. by apply world_ok_state_remove, Hp; apply world_ok_store.
  - pose proof (reap_state_only (clock w) faulty oo c {| ps_budget := 1; ps_purged := 0; ps_failed := failed; ps_db := db w;
              ps_registry := {[ c_location c := store w ]} |}) as Hd. rewrite <- Hst in Hd. cbn [ps_db] in Hd.
    split; [|by eapply Hso]. by apply (world_ok_state None), Hd; [|apply world_ok_store].
Qed.
End StepFacts.

(** * What every run guarantees *)

Section Guarantees.
Context `{StagingUuid} `{Sha2}.

Lemma empty_ok repos : world_ok (empty_world repos).
Proof.
  split; cbn.
  - split; cbn; [intros ?? G|intros ??? G]; by rewrite lookup_empty in G.
  - intros r q G. by rewrite lookup_empty in G.
  - intros r r' q q' key G. by rewrite lookup_empty in G.
  - intros r r' q q' s s' G. by rewrite lookup_empty in G.
  - intros sid s G. by rewrite lookup_empty in G.
Qed.

(** The relation between the tables at two moments of a run. *)
Definition later (d d' : Db) : Prop :=
  (forall sid s, sessions d !! sid = Some s -> exists s', sessions d' !! sid = Some s' /\
     static s' = static s /\ (is_terminal s = true -> status s' = status s)) /\
  (forall sid i, chunk_done sid d i -> chunk_done sid d' i).

Lemma extends_later key d d' : extends key d d' -> later d d'.
Proof.
  intros [Hs Hc]. split; [done|]. intros sid i (row & E & Est).
  destruct (Hc _ _ E) as (row' & E' & Hd & _). exists row'. auto.
Qed.

Lemma later_refl d : later d d.
Proof. apply (extends_later None), (state_only_extends None), state_only_refl. Qed.

Lemma later_trans d1 d2 d3 : later d1 d2 -> later d2 d3 -> later d1 d3.
Proof.
  intros [S1 C1] [S2 C2]. split; [|auto]. intros sid s E. destruct (S1 _ _ E) as (s' & E' & Hst & Ht).
  destruct (S2 _ _ E') as (s'' & E'' & Hst' & Ht'). exists s''. split; [done|]. split; [congruence|].
  intros Hterm. rewrite <- (Ht Hterm). apply Ht'. unfold is_terminal in *. by rewrite (Ht Hterm).
Qed.

Lemma run_ok allowed w w' : run allowed w w' -> world_ok w -> world_ok w' /\ later (db w) (db w').
Proof.
  induction 1 as [w|w1 w2 w3 l Hrun IH Hal Hstep]; intros Hw; [split; [done|apply later_refl]|].
  destruct (IH Hw) as [Hw2 Hl]. destruct (step_ok _ _ _ Hw2 Hstep) as [Hw3 [key He]].
  split; [done|]. eapply later_trans; [done|]. by eapply extends_later.
Qed.

Lemma reachable_ok w : reachable w -> world_ok w.
Proof. intros [repos Hrun]. eapply run_ok; [done|apply empty_ok]. Qed.

Lemma over_rows_bounds sid s d : session_ok d sid s -> total_size s <= I32_MAX * chunk_size s ->
  (0 <= over_rows done_one sid (total_chunks s) d <= total_chunks s) /\
  (0 <= over_rows done_bytes sid (total_chunks s) d <= total_size s) /\
  (all_done sid (total_chunks s) d ->
     over_rows done_one sid (total_chunks s) d = total_chunks s /\
     over_rows done_bytes sid (total_chunks s) d = total_size s).
Proof.
  intros Hok Hb. destruct (so_size _ _ _ Hok) as (Hpos & Hcs & Hn). pose proof Hcs as Hcs'.
  unfold MIN_CHUNK_SIZE in Hcs'.
  destruct (chunk_count_small (total_size s) (chunk_size s)) as [Hr Hcov]; [done|lia|done|].
  rewrite <- Hn in Hr, Hcov.
  assert (Hone : forall o, 0 <= done_one o <= 1) by (intros [c|]; cbn; [case_decide|]; lia).
  assert (Hlen : forall i, 0 <= i < total_chunks s -> 
    0 <= done_bytes (chunks d !! (sid, i)) <= Z.max 0 (Z.min (chunk_size s) (total_size s - i * chunk_size s)) /\
    (chunk_done sid d i -> done_one (chunks d !! (sid, i)) = 1 /\
       done_bytes (chunks d !! (sid, i)) = Z.max 0 (Z.min (chunk_size s) (total_size s - i * chunk_size s)))).
  { intros i Hi. destruct (so_rows _ _ _ Hok i Hi) as (row & Er & Epr & _).
    rewrite placeholder_range_inside in Epr by lia. injection Epr as _ El.
    assert (i * chunk_size s <= (total_chunks s - 1) * chunk_size s) by (apply Z.mul_le_mono_nonneg_r; lia).
    rewrite Er. cbn. split; [case_decide; lia|]. intros (row' & Er' & Est). rewrite Er in Er'. injection Er' as <-.
    rewrite !decide_True by done. split; [done|lia]. }
  assert (S0 : sumZ ((fun _ => 0) <$> seqZ 0 (total_chunks s)) = 0) by (by apply sumZ_zero).
  pose proof (sumZ_const 1 (total_chunks s) ltac:(lia)) as S1.
  pose proof (sum_pieces (total_size s) (chunk_size s) (Z.to_nat (total_chunks s)) ltac:(lia) ltac:(lia)) as S2.
  rewrite Z2Nat.id in S2 by lia. rewrite Z.min_r in S2 by lia. unfold over_rows. split_and!.
  - eapply Z.le_trans; [apply Z.eq_le_incl; symmetry; exact S0|]. apply sumZ_le. intros. apply Hone.
  - eapply Z.le_trans; [apply sumZ_le|rewrite S1; lia]. intros. apply Hone.
  - eapply Z.le_trans; [apply Z.eq_le_incl; symmetry; exact S0|]. apply sumZ_le. intros i Hi. by apply Hlen.
  - eapply Z.le_trans; [apply sumZ_le|rewrite S2; lia]. intros i Hi. by apply Hlen.
  - intros Hall. split.
    + transitivity (total_chunks s * 1); [|lia]. rewrite <- S1. f_equal. apply list_fmap_ext.
      intros ? i Hi%list_elem_of_lookup_2%elem_of_seqZ. apply Hlen; [lia|]. apply Hall. lia.
    + rewrite <- S2. f_equal. apply list_fmap_ext.
      intros ? i Hi%list_elem_of_lookup_2%elem_of_seqZ. apply Hlen; [lia|]. apply Hall. lia.
Qed.

(** In every reachable world, however requests, crashes and the reaper
    interleave: a session's [completed_chunks] and [bytes_received] count
    exactly its completed chunk rows and their bytes, each once; they stay
    within the chunk count and the declared size and reach them when all chunks
    are completed; no chunk row is left [uploading]; and the lease token is set
    exactly while the session is committing. *)
Theorem run_rows_ok w sid s : reachable w -> sessions (db w) !! sid = Some s ->
  completed_chunks s = over_rows done_one sid (total_chunks s) (db w) /\
  bytes_received s = over_rows done_bytes sid (total_chunks s) (db w) /\
  (status s = Committing <-> is_Some (state_token s)) /\
  (forall i row, chunks (db w) !! (sid, i) = Some row ->
     0 <= i < total_chunks s /\ (chunk_status row = ChunkPending \/ chunk_status row = ChunkCompleted)) /\
  (total_size s <= I32_MAX * chunk_size s ->
     0 <= completed_chunks s <= total_chunks s /\ 0 <= bytes_received s <= total_size s /\
     (all_done sid (total_chunks s) (db w) ->
        completed_chunks s = total_chunks s /\ bytes_received s = total_size s)).
Proof.
  intros Hw%reachable_ok Es. destruct (wo_rows _ Hw) as [Hok Hrow]. pose proof (Hok _ _ Es) as Hs.
  split; [apply Hs|]. split; [apply Hs|]. split; [apply Hs|]. split.
  - intros i row Er. split; [|by eapply rows_pending]. destruct (Hrow _ _ _ Er) as (s' & Es' & Hi). congruence.
  - intros Hb. rewrite (so_count _ _ _ Hs), (so_bytes _ _ _ Hs). by apply over_rows_bounds.
Qed.

(** A session is only ever [completed] with all its chunks completed and
    an artifact recorded whose size and SHA-256 are the declared ones. *)
Theorem run_completed_published w sid s : reachable w -> sessions (db w) !! sid = Some s -> status s = Completed ->
  (forall i, 0 <= i < total_chunks s -> chunk_done sid (db w) i) /\
  exists data, (sid, data) ∈ artifacts w /\
    Z.of_nat (String.length data) = total_size s /\ sha256 data = checksum_sha256 s.
Proof. intros Hw%reachable_ok Es Est. by apply (wo_completed _ Hw). Qed.

(** The terminal states are final: a completed, failed or cancelled
    session keeps its status in every later world, a completed chunk stays
    completed, and a session's identity, owner, size, chunk layout, checksum and
    deadline never change. *)
Theorem run_terminal w w' sid s : reachable w -> run any w w' -> sessions (db w) !! sid = Some s ->
  exists s', sessions (db w') !! sid = Some s' /\ static s' = static s /\
    (status s = Completed \/ status s = Failed \/ status s = Cancelled -> status s' = status s) /\
    (forall i, chunk_done sid (db w) i -> chunk_done sid (db w') i).
Proof.
  intros Hw%reachable_ok Hrun Es. destruct (run_ok _ _ _ Hrun Hw) as [_ [Hs Hc]].
  destruct (Hs _ _ Es) as (s' & Es' & Hst & Ht). exists s'. do 2 (split; [done|]). split; [|apply Hc].
  intros Hx. apply Ht. by apply bool_decide_eq_true.
Qed.

(** The completion lease is exclusive.  Of two requests that took the lease
    of one session at most one still holds it, and the other one's transitions
    (finalize, fail, release, renew) touch nothing. *)
Theorem lease_exclusive w r r' q q' s s' : reachable w -> r <> r' ->
  requests w !! r = Some q -> requests w !! r' = Some q' ->
  lease_session q = Some s -> lease_session q' = Some s' -> id s = id s' ->
  exists loser, (loser = s \/ loser = s') /\
    forall now ttl error, finalize_completed now loser (db w) = (false, db w) /\
      fail_committing now loser error (db w) = db w /\ release_commit_lease now loser (db w) = db w /\
      renew_commit_lease now loser ttl (db w) = (false, db w).
Proof.
  intros Hw%reachable_ok Hne Hq Hq' Hl Hl' Eid.
  destruct (req_ok_session _ _ _ _ (wo_reqs _ Hw _ _ Hq) Hl) as (s0 & E0 & _).
  assert (exists loser, (loser = s \/ loser = s') /\ holds_lease (state_token loser) s0 = false) as (loser & Hlo & Hn).
  { destruct (holds_lease (state_token s) s0) eqn:E1; [|exists s; auto].
    destruct (holds_lease (state_token s') s0) eqn:E2; [|exists s'; auto].
    apply holds_lease_spec in E1 as (_ & t & E1 & T1), E2 as (_ & t' & E2 & T2). exfalso. apply Hne.
    eapply (wo_tokens _ Hw); eauto. congruence. }
  exists loser. split; [done|]. intros now ttl error.
  assert (id loser = id s) as El by (destruct Hlo as [-> | ->]; congruence).
  unfold finalize_completed, fail_committing, release_commit_lease, renew_commit_lease, update_session.
  rewrite El, E0, Hn. done.
Qed.
End Guarantees.

(** * What deletes objects *)

Section Deletes.
Context `{StagingUuid} `{Sha2}.

(** Objects only disappear, and only under keys in [P]. *)
Definition deletes (P : string -> Prop) (st st' : Store) : Prop :=
  forall k, st' !! k = st !! k \/ P k /\ st' !! k = None.

Lemma deletes_refl P st : deletes P st st.
Proof. intros k. by left. Qed.

Lemma delete_objects_deletes faulty keys : forall st,
  deletes (fun k => k ∈ keys) st (snd (delete_objects faulty keys st)).
Proof.
  intros st k. destruct (decide (k ∈ keys)) as [Hin|Hn]; [|left; by apply delete_objects_other].
  revert st. induction keys as [|key keys IH]; intros st; [by apply elem_of_nil in Hin|]. cbn.
  unfold storage_delete. destruct (faulty key); [by left|].
  destruct (st !! key) eqn:E; cbn.
  - destruct (decide (k ∈ keys)) as [Hk|Hk].
    + destruct (IH Hk (delete key st)) as [Hr|[_ Hr]]; [|right; done]. rewrite Hr.
      destruct (decide (k = key)) as [->|]; [right; rewrite lookup_delete_eq; done|left; by apply lookup_delete_ne].
    + apply elem_of_cons in Hin as [->|]; [|done]. right. split; [by left|].
      rewrite delete_objects_other by done. by apply lookup_delete_eq.
  - destruct (decide (k ∈ keys)) as [Hk|Hk].
    + destruct (IH Hk st) as [Hr|[_ Hr]]; [by left|right; done].
    + left. by apply delete_objects_other.
Qed.

Definition keys_of (sid : Uuid) (n : Z) (k : string) : Prop := exists i, 0 <= i < n /\ k = staged_chunk_key sid i.

Lemma staged_keys sid n k : k ∈ staged_chunk_key sid <$> seqZ 0 n -> keys_of sid n k.
Proof. intros (i & -> & Hi%elem_of_seqZ)%list_elem_of_fmap. exists i. split; [lia|done]. Qed.

Lemma staged_deletes faulty sid n st :
  deletes (keys_of sid n) st (snd (delete_staged_chunk_objects faulty sid n st)).
Proof.
  unfold delete_staged_chunk_objects.
  pose proof (delete_objects_deletes faulty (staged_chunk_key sid <$> seqZ 0 n) st) as Hd.
  destruct (delete_objects _ _ st) as [r st']. cbn in *. intros k. destruct (Hd k) as [|[Hk ?]]; [by left|right].
  split; [by apply staged_keys|done].
Qed.

Lemma refuse_deletes now faulty sid i d st e d' st' :
  refuse_chunk now faulty sid i d st = (e, d', st') -> deletes (fun k => k = staged_chunk_key sid i) st st'.
Proof.
  unfold refuse_chunk, storage_delete. destruct (faulty _); [|destruct (st !! _)]; intros [= _ _ <-] k; [by left| |by left].
  destruct (decide (k = staged_chunk_key sid i)) as [->|]; [right|left; by apply lookup_delete_ne].
  split; [done|apply lookup_delete_eq].
Qed.

Lemma purge_deletes now faulty sid n d st r d' st' :
  purge_staged_chunks now faulty sid n d st = (r, d', st') -> deletes (keys_of sid n) st st'.
Proof.
  unfold purge_staged_chunks. pose proof (staged_deletes faulty sid n st) as Hd.
  destruct (delete_staged_chunk_objects _ _ _ _) as [[] ?]; by intros [= _ _ <-].
Qed.

Lemma reap_deletes now faulty oo c st : forall store0, ps_registry st = {[ c_location c := store0 ]} ->
  deletes (keys_of (c_id c) (c_chunks c)) store0
    (default store0 (ps_registry (purge_one now faulty oo c st) !! c_location c)).
Proof.
  intros store0 Hreg. unfold purge_one, purge_objects. rewrite Hreg, lookup_singleton_eq.
  pose proof (staged_deletes faulty (c_id c) (c_chunks c) store0) as Hd.
  destruct (delete_staged_chunk_objects _ _ _ _) as [[] ?]; cbn; by rewrite lookup_insert_eq.
Qed.

(** * A lost chunk is lost for good *)

(** Chunk [i] is completed but its object is gone, and no completion has read
    it before. *)
Record lost (sid : Uuid) (i : Z) (w : World) : Prop := {
  lo_done : chunk_done sid (db w) i;
  lo_gone : store w !! staged_chunk_key sid i = None;
  lo_status : forall s, sessions (db w) !! sid = Some s -> status s <> Completed;
  lo_reqs : forall r q, requests w !! r = Some q ->
    match q with
    | Reading s todo _ => id s = sid -> i ∈ todo
    | Assembled s _ | Published s _ => id s <> sid
    | _ => True
    end
}.

Lemma lost_remove sid i r w : lost sid i w -> lost sid i (set_request r None w).
Proof. intros [A B C D]. split; try done. cbn. intros r' q [_ Hq]%lookup_delete_Some. by eapply D. Qed.

Lemma lost_set sid i r q w : lost sid i w ->
  match q with
  | Reading s todo _ => id s = sid -> i ∈ todo
  | Assembled s _ | Published s _ => id s <> sid
  | _ => True
  end -> lost sid i (set_request r (Some q) w).
Proof.
  intros [A B C D] Hq. split; try done. cbn.
  intros r' q' [[_ <-]|[_ Hq']]%lookup_insert_Some; [done|by eapply D].
Qed.

Lemma lost_db sid i d w : lost sid i w -> later (db w) d ->
  (forall s, sessions d !! sid = Some s -> status s = Completed ->
     exists s0, sessions (db w) !! sid = Some s0 /\ status s0 = Completed) -> lost sid i (set_db d w).
Proof.
  intros [A B C D] [_ Hl] Hc. split; cbn; try done; [by apply Hl|].
  intros s Es Est. destruct (Hc _ Es Est) as (s0 & E0 & ?). by eapply C.
Qed.

Lemma lost_state new sid i d w : new <> Some Completed -> lost sid i w -> state_only new (db w) d ->
  lost sid i (set_db d w).
Proof.
  intros Hn Hl Hs. apply lost_db; [done|by eapply extends_later, state_only_extends|].
  intros s Es Est. destruct Hs as [_ Hs]. specialize (Hs sid). rewrite Es in Hs.
  destruct (sessions (db w) !! sid) as [s0|]; [|done]. exists s0. split; [done|].
  destruct Hs as [_ _ _ _ Hf]. destruct (Hf (or_introl Est)); congruence.
Qed.

Lemma lost_store P sid i st w : lost sid i w -> deletes P (store w) st -> lost sid i (set_store st w).
Proof.
  intros [A B C D] Hd. split; try done. cbn. destruct (Hd (staged_chunk_key sid i)) as [->|[_ ?]]; done.
Qed.

Lemma chunk_done_range sid i w : world_ok w -> chunk_done sid (db w) i ->
  exists s, sessions (db w) !! sid = Some s /\ 0 <= i < total_chunks s.
Proof. intros Hw (row & E & _). by eapply (proj2 (wo_rows _ Hw)). Qed.

Lemma chunk_held w r q sid i : world_ok w -> requests w !! r = Some q -> holds q = Some (sid, i) ->
  ~ chunk_done sid (db w) i.
Proof.
  intros Hw Hq Hh. pose proof (wo_reqs _ Hw _ _ Hq) as Hok.
  destruct q; try done; injection Hh as <- <-; destruct Hok as (_ & row & Er & Ep & _);
    intros (row' & Er' & Est); congruence.
Qed.

Lemma lost_step sid i l w w' : world_ok w -> lost sid i w -> step l w w' -> lost sid i w'.
Proof.
  intros Hw Hl Hstep.
  destruct Hstep as [w t Ht|w k p s d Hc|w r|w r k user j offset data s Hr Ho|w r s j offset data Hq Hfree
    |w r s j data faulty Hq|w r s j data Hq|w r k j faulty e d st Hq Href|w r k user token s d Hr Hf Hc Hs
    |w r s res d Hq Hc|w r s j todo acc faulty Hq|w r s acc Hq|w r q s error Hq Hls|w r s data Hq
    |w r s data won d Hq Hf|w r q s ttl Hq Hls|w r k user s d Hr Hc|w|w r s faulty res d st Hq Hp
    |w faulty oo failed c st Hin Hst].
  - by destruct Hl.
  - destruct (create_rows _ _ _ _ _ _ Hc (wo_rows _ Hw)) as (_ & He & Hn & Hst & _ & Es & _).
    apply lost_db; [done|by eapply extends_later|]. intros s1. rewrite Es. intros [[<- <-]|[_ ?]]%lookup_insert_Some; [congruence|eauto].
  - by apply lost_remove.
  - by apply lost_set.
  - destruct (claim_chunk _ _ _ _ _ _); [by apply lost_remove|by apply lost_set].
  - unfold storage_put. destruct (faulty _); [by apply lost_remove|]. apply lost_set; [|done].
    pose proof (chunk_held _ _ _ (id s) j Hw Hq eq_refl) as Hnd.
    destruct Hl as [A B C D]. split; try done. cbn. rewrite lookup_insert_ne; [done|].
    intros [E1 E2]%staged_chunk_key_inj. apply Hnd. by rewrite E1, E2.
  - destruct (commit_chunk _ _ _ _ _ _) as [[[c b] d]|] eqn:Hc; [|by apply lost_set].
    apply lost_remove. destruct (step_ok_commit _ _ _ _ _ _ _ _ Hw Hq Hc) as [_ He].
    apply commit_chunk_inv in Hc as (s1 & Es1 & Ho & ->).
    apply lost_db; [done|by eapply extends_later|]. cbn. intros s2 [[<- <-]|[_ ?]]%lookup_insert_Some; [|eauto].
    cbn. apply bool_decide_eq_true in Ho. destruct Ho as [E|E]; rewrite E; done.
  - apply lost_remove. eapply (lost_state None); [done| |by eapply refuse_state_only].
    eapply lost_store; [done|by eapply refuse_deletes].
  - apply lost_set; [|done]. destruct (claim_state_only _ _ _ _ _ _ _ Hc) as (_ & _ & _ & _ & _ & Hst).
    by eapply (lost_state (Some Committing)).
  - destruct (check_complete_state_only _ _ _ _ _ Hc) as [Hd _].
    destruct (is_ok res); [apply lost_set|apply lost_remove]; [by eapply (lost_state None)| |by eapply (lost_state None)].
    intros <-. destruct (wo_reqs _ Hw _ _ Hq) as [(s0 & E0 & Est) _].
    destruct (chunk_done_range _ _ _ Hw (lo_done _ _ _ Hl)) as (s1 & E1 & Hi).
    apply elem_of_seqZ. assert (total_chunks s = total_chunks s1) as ->; [|lia].
    rewrite E0 in E1. injection E1 as <-. unfold static in Est. congruence.
  - pose proof (lo_reqs _ _ _ Hl _ _ Hq) as Hin. unfold storage_get.
    assert (Hrel : lost sid i (set_request r None (set_db (release_commit_lease (clock w) s (db w)) w))).
    { apply lost_remove. eapply (lost_state None); [done|done|apply release_state_only]. }
    destruct (faulty _); [done|]. destruct (store w !! _) as [x|] eqn:E; [|done]. cbn [ok_or].
    apply lost_set; [done|]. intros Eid. destruct (proj1 (elem_of_cons _ _ _) (Hin Eid)) as [->|]; [|done].
    by rewrite Eid, (lo_gone _ _ _ Hl) in E.
  - pose proof (lo_reqs _ _ _ Hl _ _ Hq) as Hin.
    destruct (bool_decide _). { apply lost_remove. eapply (lost_state None); [done|done|apply release_state_only]. }
    destruct (bool_decide _). { apply lost_remove. eapply (lost_state None); [done|done|apply fail_state_only]. }
    apply lost_set; [done|]. intros E. by apply Hin, elem_of_nil in E.
  - apply lost_remove. destruct error; eapply (lost_state None); try done; first [apply fail_state_only|apply release_state_only].
  - pose proof (lo_reqs _ _ _ Hl _ _ Hq) as Hin. apply lost_set; [|done]. by destruct Hl.
  - pose proof (lo_reqs _ _ _ Hl _ _ Hq) as Hne. apply lost_set; [|done].
    destruct (step_ok_finalize _ _ _ _ _ _ Hw Hq Hf) as [_ Hst].
    apply lost_db; [done|by eapply extends_later, state_only_extends|]. intros s1 E1 Est.
    unfold finalize_completed, update_session in Hf. destruct (sessions (db w) !! id s) as [s0|]; [|injection Hf as <- <-; eauto].
    destruct (holds_lease _ _); injection Hf as <- <-; [|eauto]. cbn in E1.
    rewrite lookup_insert_ne in E1 by done. eauto.
  - eapply (lost_state None); [done|done|apply renew_state_only].
  - apply lost_set; [|done]. eapply (lost_state None); [done|done|by eapply cancel_state_only].
  - eapply (lost_state None); [done|done|apply expire_state_only].
  - apply lost_remove. eapply (lost_state None); [done| |by eapply purge_state_only].
    eapply lost_store; [done|by eapply purge_deletes].
  - pose proof (reap_state_only (clock w) faulty oo c {| ps_budget := 1; ps_purged := 0; ps_failed := failed; ps_db := db w;
              ps_registry := {[ c_location c := store w ]} |}) as Hd. rewrite <- Hst in Hd. cbn [ps_db] in Hd.
    eapply (lost_state None); [done| |exact Hd]. eapply lost_store; [done|]. rewrite Hst. by apply reap_deletes.
Qed.

Lemma lost_forever sid i w w' : world_ok w -> lost sid i w -> run any w w' -> lost sid i w'.
Proof.
  intros Hw Hl Hrun. induction Hrun as [w|w1 w2 w3 l Hrun IH Hal Hstep]; [done|].
  eapply lost_step; [by eapply run_ok|by apply IH|done].
Qed.
End Deletes.
(** * Building runs *)

Section Scenario.
Context `{StagingUuid} `{Sha2}.

Lemma reach_step l w w' : reachable w -> step l w w' -> reachable w'.
Proof. intros [repos Hrun] Hstep. exists repos. eapply run_step; [done|done|exact Hstep]. Qed.

Lemma run_any allowed w w' : run allowed w w' -> run any w w'.
Proof. induction 1 as [w|w1 w2 w3 l Hrun IH Hal Hstep]; [apply run_refl|by eapply run_step]. Qed.

Definition race_repos : gmap Uuid StorageLocation := {[ 3%N := ("filesystem", "/data") ]}.

(** A file of one chunk. *)
Definition race_params : CreateSessionParams :=
  {| p_user_id := 7%N; p_repo_id := 3%N; p_repo_key := "generic"; p_artifact_path := "a.txt";
     p_artifact_name := None; p_artifact_version := None; p_artifact_metadata_format := None;
     p_artifact_metadata := None; p_artifact_metadata_properties := None; p_package_description := None;
     p_package_metadata := None; p_is_replication := false; p_total_size := 3; p_max_upload_size := 0;
     p_chunk_size := None; p_checksum_sha256 := sha256 "abc"; p_content_type := None |}.

Lemma lock_free_decided key w :
  bool_decide (map_Forall (fun _ q => holds q <> Some key) (requests w)) = true -> lock_free key w.
Proof. intros Hd%bool_decide_eq_true r q Hq. exact (Hd r q Hq). Qed.

Lemma fresh_token_decided token w :
  bool_decide (map_Forall (fun _ s => state_token s <> Some token) (sessions (db w))) = true ->
  bool_decide (map_Forall (fun _ q => (state_token <$> lease_session q) <> Some (Some token)) (requests w)) = true ->
  fresh_token token w.
Proof.
  intros Hs%bool_decide_eq_true Hq%bool_decide_eq_true. split; [by intros sid s E; apply (Hs sid)|].
  intros r q s E El Et. apply (Hq r q E). rewrite El. cbn. by rewrite Et.
Qed.

Lemma step_to l w w' w'' : step l w w' -> w' = w'' -> step l w w''.
Proof. by intros ? <-. Qed.

(** Worlds of one session and one chunk row. *)
Definition race_db (s : UploadSession) (c : UploadChunk) : Db :=
  {| repositories := race_repos; sessions := {[ 1%N := s ]}; chunks := {[ (1%N, 0) := c ]}; orphans := ∅ |}.
Definition world_at (t : DateTime) (s : UploadSession) (c : UploadChunk) (st : Store) (rq : gmap nat Request)
  (arts : list (Uuid * string)) : World :=
  {| clock := t; db := race_db s c; store := st; requests := rq; artifacts := arts |}.
Definition race_world (s : UploadSession) (c : UploadChunk) (st : Store) (rq : gmap nat Request) : World :=
  world_at 0 s c st rq [].

Definition s_new : UploadSession := new_session 0 1%N race_params DEFAULT_CHUNK_SIZE 1 ("filesystem", "/data").
Definition s_claimed : UploadSession := claimed 0 50%N s_new.
Definition s_released : UploadSession := set_state 0 InProgress None None None s_claimed.
Definition s_counted : UploadSession := count_chunk 0 3 s_released.
Definition c_new : UploadChunk := new_chunk (0, 3).
Definition c_done : UploadChunk := mark_chunk_completed 0 (sha256 "abc") c_new.
Definition race_key : string := staged_chunk_key 1%N 0.

Definition no_faults (key : string) : bool := false.

Lemma run_then allowed w0 w1 w2 w3 l :
  run allowed w0 w1 -> step l w1 w2 -> allowed w1 l -> w2 = w3 -> run allowed w0 w3.
Proof. intros Hrun Hstep Hal <-. by eapply run_step. Qed.
End Scenario.

Ltac race_lock r :=
  eapply (step_lock _ r); [reflexivity|apply lock_free_decided; vm_compute; reflexivity].
(** Extends the run [R] to the world [w] by the step that [tac] names. *)
Ltac run_to R w tac :=
  let R' := fresh in
  match type of R with
  | run ?allowed ?w0 _ =>
      assert (R' : run allowed w0 w) by (eapply (run_then allowed w0); [exact R|tac|exact I|reflexivity]);
      clear R; rename R' into R
  end.

(** * Sample runs *)

Section Samples.
#[local] Existing Instances sample_staging_uuid sample_sha2.

Definition v_counted : UploadSession := count_chunk 0 3 s_new.
Definition v_claimed : UploadSession := claimed 0 50%N v_counted.
Definition v_completed : UploadSession := set_state 0 Completed None None None v_claimed.
Definition v_reclaimed : UploadSession := claimed (7 * 3600 * NANOS_PER_SEC) 51%N v_claimed.
Definition one_object : Store := {[ race_key := "abc" ]}.

(** One chunk, uploaded without trouble. *)
Lemma sample_uploaded (allowed : World -> Label -> Prop) : (forall w, allowed w Plain) ->
  run allowed (empty_world race_repos) (race_world v_counted c_done one_object ∅).
Proof.
  intros Hal. assert (R : run allowed (empty_world race_repos) (empty_world race_repos)) by apply run_refl.
  assert (S1 : forall w1 w2 w3, run allowed (empty_world race_repos) w1 -> step Plain w1 w2 -> w2 = w3 ->
    run allowed (empty_world race_repos) w3) by (intros; by eapply run_then).
  eapply S1; [eapply S1; [eapply S1; [eapply S1; [eapply (S1 _ _ (race_world s_new c_new ∅ ∅)); [exact R| |]| |]| |]| |]| |].
  - by eapply (step_create _ 1%N race_params); reflexivity.
  - reflexivity.
  - by eapply (step_open _ 0%nat 1%N 7%N 0 0 "abc"); reflexivity.
  - instantiate (1 := race_world s_new c_new ∅ {[ 0%nat := Writing s_new 0 0 "abc" ]}). reflexivity.
  - race_lock 0%nat.
  - instantiate (1 := race_world s_new c_new ∅ {[ 0%nat := Locked s_new 0 "abc" ]}). reflexivity.
  - eapply (step_put _ 0%nat _ _ _ no_faults); reflexivity.
  - instantiate (1 := race_world s_new c_new one_object {[ 0%nat := Stored s_new 0 "abc" ]}). reflexivity.
  - eapply (step_commit _ 0%nat); reflexivity.
  - reflexivity.
Qed.

(** The completion takes the lease. *)
Lemma sample_claimed :
  run any (empty_world race_repos) (race_world v_claimed c_done one_object {[ 0%nat := Counting v_claimed ]}).
Proof.
  assert (R := sample_uploaded any (fun _ => I)).
  run_to R (race_world v_claimed c_done one_object {[ 0%nat := Counting v_claimed ]})
    ltac:(eapply (step_claim _ 0%nat 1%N 7%N 50%N);
          [reflexivity|apply fresh_token_decided; vm_compute; reflexivity|reflexivity|reflexivity]).
  exact R.
Qed.

(** The completed session. *)
Lemma sample_completed :
  run any (empty_world race_repos)
    (world_at 0 v_completed c_done one_object {[ 0%nat := Purging v_claimed ]} [(1%N, "abc")]).
Proof.
  assert (R := sample_claimed).
  run_to R (race_world v_claimed c_done one_object {[ 0%nat := Reading v_claimed [0] "" ]})
    ltac:(eapply (step_count _ 0%nat); reflexivity).
  run_to R (race_world v_claimed c_done one_object {[ 0%nat := Reading v_claimed [] "abc" ]})
    ltac:(eapply (step_read _ 0%nat _ _ _ _ no_faults); reflexivity).
  run_to R (race_world v_claimed c_done one_object {[ 0%nat := Assembled v_claimed "abc" ]})
    ltac:(eapply (step_verify _ 0%nat); reflexivity).
  run_to R (world_at 0 v_claimed c_done one_object {[ 0%nat := Published v_claimed "abc" ]} [(1%N, "abc")])
    ltac:(eapply (step_publish _ 0%nat); reflexivity).
  run_to R (world_at 0 v_completed c_done one_object {[ 0%nat := Purging v_claimed ]} [(1%N, "abc")])
    ltac:(eapply (step_finalize _ 0%nat); reflexivity).
  exact R.
Qed.

(** Seven hours later another completion reclaims the lease. *)
Lemma sample_reclaimed :
  run any (empty_world race_repos)
    (world_at (7 * 3600 * NANOS_PER_SEC) v_reclaimed c_done one_object
       (<[ 1%nat := Counting v_reclaimed ]> {[ 0%nat := Counting v_claimed ]}) []).
Proof.
  assert (R := sample_claimed).
  run_to R (world_at (7 * 3600 * NANOS_PER_SEC) v_claimed c_done one_object {[ 0%nat := Counting v_claimed ]} [])
    ltac:(eapply (step_tick _ (7 * 3600 * NANOS_PER_SEC)); vm_compute; discriminate).
  run_to R (world_at (7 * 3600 * NANOS_PER_SEC) v_reclaimed c_done one_object
       (<[ 1%nat := Counting v_reclaimed ]> {[ 0%nat := Counting v_claimed ]}) [])
    ltac:(eapply (step_claim _ 1%nat 1%N 7%N 51%N);
          [reflexivity|apply fresh_token_decided; vm_compute; reflexivity|reflexivity|reflexivity]).
  exact R.
Qed.

Lemma run_rows_ok_witness : completed_chunks v_completed = 1 /\ bytes_received v_completed = 3.
Proof.
  destruct (run_rows_ok (world_at 0 v_completed c_done one_object {[ 0%nat := Purging v_claimed ]} [(1%N, "abc")])
    1%N v_completed (ex_intro _ race_repos sample_completed) eq_refl) as (Hc & Hb & _).
  split; [rewrite Hc|rewrite Hb]; vm_compute; reflexivity.
Defined.

Lemma run_completed_published_witness : exists data, (1%N, data) ∈ [(1%N, "abc")] /\ data = "abc".
Proof.
  destruct (run_completed_published (world_at 0 v_completed c_done one_object {[ 0%nat := Purging v_claimed ]} [(1%N, "abc")])
    1%N v_completed (ex_intro _ race_repos sample_completed) eq_refl eq_refl) as (_ & data & Hin & _ & Hs).
  exists data. split; [exact Hin|exact Hs].
Defined.

Lemma run_terminal_witness : exists s', status s' = Completed /\ total_size s' = 3.
Proof.
  set (w := world_at 0 v_completed c_done one_object {[ 0%nat := Purging v_claimed ]} [(1%N, "abc")]).
  destruct (run_terminal w w 1%N v_completed (ex_intro _ race_repos sample_completed) (run_refl any w) eq_refl)
    as (s' & _ & Hst & Ht & _).
  exists s'. split; [apply Ht; left; reflexivity|]. unfold static in Hst. by injection Hst.
Defined.

Lemma lease_exclusive_witness : exists loser, (loser = v_claimed \/ loser = v_reclaimed) /\
  fst (finalize_completed 0 loser (race_db v_reclaimed c_done)) = false.
Proof.
  set (w := world_at (7 * 3600 * NANOS_PER_SEC) v_reclaimed c_done one_object
       (<[ 1%nat := Counting v_reclaimed ]> {[ 0%nat := Counting v_claimed ]}) []).
  destruct (lease_exclusive w 0%nat 1%nat (Counting v_claimed) (Counting v_reclaimed) v_claimed v_reclaimed
    (ex_intro _ race_repos sample_reclaimed)) as (loser & Hl & Hf); try reflexivity; [discriminate|].
  exists loser. split; [exact Hl|]. destruct (Hf 0 0 "") as [Hx _]. exact (f_equal fst Hx).
Defined.
End Samples.
