(* ===== verification/UploadRaces.v ===== *)
(** Chunked uploads: when staged bytes are lost, and when they are not.

    [late_delete_loses_chunk] and [orphan_purge_loses_chunks] exhibit the two
    interleavings in which the clean-up of a refused chunk destroys an accepted
    one; [quiet_run_objects] shows that these are the only ones: as long as no
    completion starts while a chunk of its session is being uploaded, and no
    lease is lost at the finalization, every completed chunk of a live session
    keeps its object. *)

From stdpp Require Import base list strings pretty gmap relations.
From Stdlib Require Import ZArith Lia Ascii.
From S2P Require Import Prelude RustStr RustNum Chrono Upload UploadFacts UploadRuns.

Local Open Scope string_scope.
Local Open Scope list_scope.
Local Open Scope Z_scope.

(** * The race that loses a chunk *)

Section Race.
Context `{StagingUuid} `{Sha2}.

(** The world just before the refused request deletes the object. *)
Lemma race_reached : reachable
  (race_world s_counted c_done (<[race_key := "abc"]> (<[race_key := "abc"]> ∅)) {[ 0%nat := Refused 1%N 0 ]}).
Proof.
  assert (R : run any (empty_world race_repos) (empty_world race_repos)) by apply run_refl.
  run_to R (race_world s_new c_new ∅ ∅) ltac:(by eapply (step_create _ 1%N race_params); reflexivity).
  (* the chunk is uploaded up to the put *)
  run_to R (race_world s_new c_new ∅ {[ 0%nat := Writing s_new 0 0 "abc" ]})
    ltac:(by eapply (step_open _ 0%nat 1%N 7%N 0 0 "abc"); reflexivity).
  run_to R (race_world s_new c_new ∅ {[ 0%nat := Locked s_new 0 "abc" ]}) ltac:(race_lock 0%nat).
  run_to R (race_world s_new c_new (<[race_key := "abc"]> ∅) {[ 0%nat := Stored s_new 0 "abc" ]})
    ltac:(eapply (step_put _ 0%nat _ _ _ no_faults); reflexivity).
  (* a completion takes the lease, the upload is refused, the lease is given back *)
  run_to R (race_world s_claimed c_new (<[race_key := "abc"]> ∅)
      (<[ 1%nat := Counting s_claimed ]> {[ 0%nat := Stored s_new 0 "abc" ]}))
    ltac:(eapply (step_claim _ 1%nat 1%N 7%N 50%N);
          [reflexivity|apply fresh_token_decided; vm_compute; reflexivity|reflexivity|reflexivity]).
  run_to R (race_world s_claimed c_new (<[race_key := "abc"]> ∅)
      (<[ 1%nat := Counting s_claimed ]> {[ 0%nat := Refused 1%N 0 ]}))
    ltac:(eapply (step_commit _ 0%nat); reflexivity).
  run_to R (race_world s_released c_new (<[race_key := "abc"]> ∅) {[ 0%nat := Refused 1%N 0 ]})
    ltac:(eapply (step_count _ 1%nat); reflexivity).
  (* the client retries and succeeds *)
  run_to R (race_world s_released c_new (<[race_key := "abc"]> ∅)
      (<[ 2%nat := Writing s_released 0 0 "abc" ]> {[ 0%nat := Refused 1%N 0 ]}))
    ltac:(by eapply (step_open _ 2%nat 1%N 7%N 0 0 "abc"); reflexivity).
  run_to R (race_world s_released c_new (<[race_key := "abc"]> ∅)
      (<[ 2%nat := Locked s_released 0 "abc" ]> {[ 0%nat := Refused 1%N 0 ]})) ltac:(race_lock 2%nat).
  run_to R (race_world s_released c_new (<[race_key := "abc"]> (<[race_key := "abc"]> ∅))
      (<[ 2%nat := Stored s_released 0 "abc" ]> {[ 0%nat := Refused 1%N 0 ]}))
    ltac:(eapply (step_put _ 2%nat _ _ _ no_faults); reflexivity).
  run_to R (race_world s_counted c_done (<[race_key := "abc"]> (<[race_key := "abc"]> ∅)) {[ 0%nat := Refused 1%N 0 ]})
    ltac:(eapply (step_commit _ 2%nat); reflexivity).
  by exists race_repos.
Qed.

Lemma race_lost st : lost 1%N 0 (race_world s_counted c_done (delete race_key st) ∅).
Proof.
  split.
  - exists c_done. split; reflexivity.
  - apply lookup_delete_eq.
  - intros s E. cbn in E. rewrite lookup_singleton_eq in E. by injection E as <-.
  - intros r q E. cbn in E. by rewrite lookup_empty in E.
Qed.

(** A refused chunk upload can destroy a chunk that was accepted after it:
    it releases the row lock first and deletes the object later, under the
    same key.  One client, one chunk: while the chunk is stored a completion
    request takes the lease, the upload is refused, the completion finds the
    chunk missing and gives the lease back, the client retries and is told that
    the chunk is complete, and then the first request deletes the object.  No
    request is left, the session is in progress with every chunk completed, and
    no later run ever completes it: repeated uploads are answered from the
    completed row and never store the bytes again. *)
Theorem late_delete_loses_chunk :
  exists w s, reachable w /\ requests w = ∅ /\ sessions (db w) !! 1%N = Some s /\ status s = InProgress /\
    completed_chunks s = total_chunks s /\ bytes_received s = total_size s /\
    forall w', run any w w' -> exists s', sessions (db w') !! 1%N = Some s' /\ status s' <> Completed.
Proof.
  exists (race_world s_counted c_done (delete race_key (<[race_key := "abc"]> (<[race_key := "abc"]> ∅))) ∅), s_counted.
  assert (R : reachable (race_world s_counted c_done (delete race_key (<[race_key := "abc"]> (<[race_key := "abc"]> ∅))) ∅)).
  { eapply reach_step; [apply race_reached|]. eapply step_to.
    - eapply (step_refuse _ 0%nat 1%N 0 no_faults); [reflexivity|].
      unfold refuse_chunk, storage_delete, no_faults. cbn [store race_world world_at]. fold race_key.
      rewrite lookup_insert_eq. reflexivity.
    - reflexivity. }
  do 5 (split; [first [exact R|reflexivity]|]). split; [reflexivity|]. intros w' Hrun.
  pose proof (reachable_ok _ R) as Hw. pose proof (lost_forever _ _ _ _ Hw (race_lost _) Hrun) as Hl.
  destruct (run_ok _ _ _ Hrun Hw) as [_ [Hs _]].
  destruct (Hs 1%N s_counted) as (s' & E & _); [reflexivity|]. exists s'. split; [done|]. by apply (lo_status _ _ _ Hl).
Qed.

(** ** The same through the reaper *)

Lemma delete_objects_gone faulty keys : (forall key, faulty key = false) ->
  forall st, exists st', delete_objects faulty keys st = (Ok tt, st') /\ forall k, k ∈ keys -> st' !! k = None.
Proof.
  intros Hf. induction keys as [|key keys IH]; intros st; cbn.
  { exists st. split; [done|]. by intros k ?%elem_of_nil. }
  unfold storage_delete. rewrite Hf.
  assert (forall st0, st0 !! key = None -> exists st', delete_objects faulty keys st0 = (Ok tt, st') /\
    forall k, k ∈ key :: keys -> st' !! k = None) as Hgo.
  { intros st0 Hn. destruct (IH st0) as (st' & E & Hk). exists st'. split; [done|].
    intros k [->|Hin]%elem_of_cons; [|by apply Hk]. pose proof (delete_objects_deletes faulty keys st0 key) as Hd.
    rewrite E in Hd. cbn in Hd. destruct Hd as [->|[_ ?]]; done. }
  destruct (st !! key) eqn:E; apply Hgo; [apply lookup_delete_eq|done].
Qed.

Definition race_orphan : Orphan :=
  {| orphan_total_chunks := 1; orphan_location := ("filesystem", "/data"); orphan_created_at := 0; attempts := 0 |}.
Definition all_fail (key : string) : bool := true.

(** The reaper can destroy the chunks of a live session.  When the delete
    of the refused chunk fails, the session is queued as an orphan whatever its
    status is; here it was only committing, and is in progress again.  The next
    pass of the reaper deletes its staged objects, and the session can never be
    completed. *)
Theorem orphan_purge_loses_chunks :
  exists w s, reachable w /\ requests w = ∅ /\ sessions (db w) !! 1%N = Some s /\ status s = InProgress /\
    completed_chunks s = total_chunks s /\
    forall w', run any w w' -> exists s', sessions (db w') !! 1%N = Some s' /\ status s' <> Completed.
Proof.
  set (st := <[race_key := "abc"]> (<[race_key := "abc"]> (∅ : Store))).
  set (d1 := set_orphans (fun _ => {[ 1%N := race_orphan ]}) (race_db s_counted c_done)).
  set (w1 := {| clock := 0; db := d1; store := st; requests := ∅; artifacts := [] |}).
  assert (R : reachable w1).
  { eapply reach_step; [apply race_reached|]. eapply step_to; [|].
    - eapply (step_refuse _ 0%nat 1%N 0 all_fail); reflexivity.
    - reflexivity. }
  set (c := {| c_id := 1%N; c_chunks := 1; c_location := ("filesystem", "/data"); c_order := 0 |}).
  destruct (delete_objects_gone no_faults [race_key] (fun _ => eq_refl) st) as (st' & Edel & Hgone).
  assert (Hstep : step Plain w1 {| clock := 0; db := race_db s_counted c_done; store := st'; requests := ∅; artifacts := [] |}).
  { eapply step_to; [eapply (step_reap w1 no_faults true [] c _)|].
    - apply elem_of_purge_orphans. exists 1%N, race_orphan. split_and!; [reflexivity|reflexivity|apply not_elem_of_nil].
    - reflexivity.
    - assert (Ep : forall r, purge_objects no_faults c {[ c_location c := st ]} = r ->
        r = (Ok tt, <[c_location c := st']> {[ c_location c := st ]})).
      { intros r <-. unfold purge_objects. rewrite lookup_singleton_eq. unfold delete_staged_chunk_objects.
        change (staged_chunk_key (c_id c) <$> seqZ 0 (c_chunks c)) with [race_key]. by rewrite Edel. }
      specialize (Ep _ eq_refl). unfold purge_one. cbn [ps_registry]. change (store w1) with st. rewrite Ep. reflexivity. }
  set (w2 := {| clock := 0; db := race_db s_counted c_done; store := st'; requests := ∅; artifacts := [] |}) in Hstep.
  pose proof (reach_step _ _ _ R Hstep) as R2.
  exists w2, s_counted. split; [done|]. do 4 (split; [reflexivity|]). intros w' Hrun.
  assert (Hl : lost 1%N 0 w2).
  { destruct (race_lost ∅) as [A _ C D]. split; [exact A| |exact C|exact D]. cbn. apply Hgone. by left. }
  pose proof (reachable_ok _ R2) as Hw. apply (lost_forever _ _ _ _ Hw Hl) in Hrun as Hl'.
  destruct (run_ok _ _ _ Hrun Hw) as [_ [Hs _]].
  destruct (Hs 1%N s_counted) as (s' & E & _); [reflexivity|]. exists s'. split; [done|]. by apply (lo_status _ _ _ Hl').
Qed.
End Race.

(** * Quiet runs keep every object *)

Section Quiet.
Context `{StagingUuid} `{Sha2}.

(** No completion starts while a chunk of its session is being uploaded, and a
    request that finalizes still holds its lease. *)
Definition quiet (w : World) (l : Label) : Prop :=
  match l with
  | Claims sid => forall r q, requests w !! r = Some q -> writes_to q <> Some sid
  | Finalizes won => won = true
  | Plain => True
  end.

Definition terminal_in (d : Db) (sid : Uuid) : Prop :=
  exists s, sessions d !! sid = Some s /\ is_terminal s = true.

(** The object of a chunk, with the recorded length and checksum. *)
Definition stored_chunk (d : Db) (st : Store) (sid : Uuid) (i : Z) (row : UploadChunk) : Prop :=
  exists data, st !! staged_chunk_key sid i = Some data /\
    byte_length row = Z.of_nat (String.length data) /\ chunk_checksum row = Some (sha256 data).

Definition quiet_req (w : World) (q : Request) : Prop :=
  match q with
  | Writing s _ _ _ | Locked s _ _ =>
      forall s0, sessions (db w) !! id s = Some s0 -> status s0 <> Committing
  | Stored s i data =>
      (forall s0, sessions (db w) !! id s = Some s0 -> status s0 <> Committing) /\
      (terminal_in (db w) (id s) \/ store w !! staged_chunk_key (id s) i = Some data)
  | Refused sid _ => terminal_in (db w) sid
  | Purging s => terminal_in (db w) (id s)
  | _ => True
  end.

Record quiet_ok (w : World) : Prop := {
  qo_reqs : forall r q, requests w !! r = Some q -> quiet_req w q;
  qo_orphans : forall sid, is_Some (orphans (db w) !! sid) -> terminal_in (db w) sid;
  qo_objects : forall sid i row, chunks (db w) !! (sid, i) = Some row -> chunk_status row = ChunkCompleted ->
    terminal_in (db w) sid \/ stored_chunk (db w) (store w) sid i row
}.

Lemma terminal_later d d' sid : later d d' -> terminal_in d sid -> terminal_in d' sid.
Proof.
  intros [Hs _] (s & E & Ht). destruct (Hs _ _ E) as (s' & E' & _ & Hst). exists s'. split; [done|].
  unfold is_terminal in *. by rewrite (Hst Ht).
Qed.

(** The sessions and the objects move; the requests stay. *)
Lemma quiet_move w d st : quiet_ok w -> later (db w) d -> chunks d = chunks (db w) ->
  (forall sid, is_Some (orphans d !! sid) -> is_Some (orphans (db w) !! sid) \/ terminal_in d sid) ->
  (forall r q sid s, requests w !! r = Some q -> writes_to q = Some sid -> sessions d !! sid = Some s ->
     status s = Committing -> exists s0, sessions (db w) !! sid = Some s0 /\ status s0 = Committing) ->
  (forall sid i, st !! staged_chunk_key sid i = store w !! staged_chunk_key sid i \/ terminal_in d sid) ->
  quiet_ok (set_db d (set_store st w)).
Proof.
  intros [A B C] Hl Hch Ho Hc Hst. split; cbn.
  - intros r q Hq. pose proof (A _ _ Hq) as Hqr.
    assert (Hnc : forall sid, writes_to q = Some sid ->
      (forall s0, sessions (db w) !! sid = Some s0 -> status s0 <> Committing) ->
      forall s0, sessions d !! sid = Some s0 -> status s0 <> Committing).
    { intros sid Hw Hn s0 E0 Est. destruct (Hc _ _ _ _ Hq Hw E0 Est) as (s1 & E1 & Est1). by eapply Hn. }
    destruct q; cbn in *; eauto using terminal_later.
    destruct Hqr as [Hn Hobj]. split; [eauto|]. destruct Hobj as [Ht|Hobj]; [left; by eapply terminal_later|].
    destruct (Hst (id s) index) as [->|Ht]; [by right|by left].
  - intros sid [Hs|Hs]%Ho; [|done]. eapply terminal_later; [done|by apply B].
  - intros sid i row. rewrite Hch. intros E Est. destruct (C _ _ _ E Est) as [Ht|(data & Hobj & Hrest)];
      [left; by eapply terminal_later|].
    destruct (Hst sid i) as [Heq|Ht]; [|by left]. right. exists data. by rewrite Heq.
Qed.

Lemma quiet_state new P w d st : new <> Some Committing -> quiet_ok w -> state_only new (db w) d ->
  (forall sid, is_Some (orphans d !! sid) -> is_Some (orphans (db w) !! sid) \/ terminal_in d sid) ->
  deletes P (store w) st -> (forall sid i, P (staged_chunk_key sid i) -> terminal_in d sid) ->
  quiet_ok (set_db d (set_store st w)).
Proof.
  intros Hn Hw Hs Ho Hd HP. apply quiet_move; [done|by eapply extends_later, state_only_extends|apply Hs|done| |].
  - intros r q sid s _ _ E Est. destruct Hs as [_ Hs]. specialize (Hs sid). rewrite E in Hs.
    destruct (sessions (db w) !! sid) as [s0|]; [|done]. exists s0. split; [done|].
    destruct (rm_new _ _ _ Hs (or_intror Est)); congruence.
  - intros sid i. destruct (Hd (staged_chunk_key sid i)) as [?|[? _]]; [by left|right; by eapply HP].
Qed.

Lemma quiet_state_db new w d : new <> Some Committing -> quiet_ok w -> state_only new (db w) d ->
  orphans d = orphans (db w) -> quiet_ok (set_db d w).
Proof.
  intros Hn Hw Hs Ho. apply (quiet_state new (fun _ => False) w d (store w)); try done.
  - intros sid. rewrite Ho. auto.
  - apply deletes_refl.
Qed.

Lemma quiet_remove w r : quiet_ok w -> quiet_ok (set_request r None w).
Proof. intros [A B C]. split; try done. cbn. intros r' q [_ Hq]%lookup_delete_Some. exact (A _ _ Hq). Qed.

Lemma quiet_set w r q : quiet_ok w -> quiet_req w q -> quiet_ok (set_request r (Some q) w).
Proof.
  intros [A B C] Hq. split; try done. cbn. intros r' q' [[_ <-]|[_ Hq']]%lookup_insert_Some; [exact Hq|exact (A _ _ Hq')].
Qed.

Lemma orphans_update sid g f d : orphans (snd (update_session sid g f d)) = orphans d.
Proof. unfold update_session. destruct (sessions d !! sid); [|done]. by destruct (g _). Qed.

Lemma quiet_release w s : quiet_ok w -> quiet_ok (set_db (release_commit_lease (clock w) s (db w)) w).
Proof. intros. apply (quiet_state_db None); [done|done|apply release_state_only|apply orphans_update]. Qed.

Lemma quiet_fail w s e : quiet_ok w -> quiet_ok (set_db (fail_committing (clock w) s e (db w)) w).
Proof. intros. apply (quiet_state_db None); [done|done|apply fail_state_only|apply orphans_update]. Qed.

Lemma quiet_create w sid p s d : world_ok w -> quiet_ok w -> create_session (clock w) sid p (db w) = Ok (s, d) ->
  quiet_ok (set_db d w).
Proof.
  intros Hw [A B C] Hc. destruct (create_rows _ _ _ _ _ _ Hc (wo_rows _ Hw)) as (Hr & He & Hn & Hst & _ & Es & Hk).
  pose proof (extends_later _ _ _ He) as Hl.
  assert (orphans d = orphans (db w)) as Ho by (apply create_session_inv in Hc as (?&?&?&?&?&?&?&->); done).
  assert (Hsame : forall k s0, sessions (db w) !! k = Some s0 -> sessions d !! k = Some s0).
  { intros k s0 E. rewrite Es, lookup_insert_ne; [done|]. intros <-. congruence. }
  split; cbn.
  - intros r q Hq. pose proof (A _ _ Hq) as Hqr. pose proof (wo_reqs _ Hw _ _ Hq) as Hok.
    assert (Hnc : forall s1, known (db w) s1 -> (forall s0, sessions (db w) !! id s1 = Some s0 -> status s0 <> Committing) ->
      forall s0, sessions d !! id s1 = Some s0 -> status s0 <> Committing).
    { intros s1 (s2 & E2 & _) Hx s0 E0. rewrite (Hsame _ _ E2) in E0. injection E0 as <-. by apply Hx. }
    destruct q; cbn in *; eauto using terminal_later; [apply Hnc; naive_solver|].
    destruct Hqr as [Hx [Ht|Hobj]]; (split; [apply Hnc; naive_solver|]); [left; by eapply terminal_later|by right].
  - intros k Hs. rewrite Ho in Hs. eapply terminal_later; [done|by apply B].
  - intros k i row E Est. destruct (decide (k = sid)) as [->|Hne].
    + (* the new rows are pending *)
      apply create_session_inv in Hc as (cs & at_ & _ & _ & _ & _ & _ & ->). cbn in E.
      rewrite insert_placeholders_lookup in E. destruct (decide _); [injection E as <-; done|].
      destruct Hw as [[_ Hrow] _ _ _ _]. apply Hrow in E as (? & ? & _). congruence.
    + rewrite Hk in E by done. destruct (C _ _ _ E Est) as [?|?]; [left; by eapply terminal_later|by right].
Qed.

Lemma quiet_put w r s i data : world_ok w -> quiet_ok w -> requests w !! r = Some (Locked s i data) ->
  quiet_ok (set_request r (Some (Stored s i data)) (set_store (<[staged_chunk_key (id s) i := data]> (store w)) w)).
Proof.
  intros Hw Hqk Hq. pose proof Hqk as [A B C]. split; cbn.
  - intros r' q [[<- <-]|[Hne Hq']]%lookup_insert_Some.
    + split; [exact (A _ _ Hq)|]. right. apply lookup_insert_eq.
    + pose proof (A _ _ Hq') as Hqr. destruct q; try exact Hqr. destruct Hqr as [Hx Hobj]. split; [exact Hx|].
      destruct Hobj as [?|Hobj]; [by left|right]. cbn. rewrite lookup_insert_ne; [done|].
      intros [E1 E2]%staged_chunk_key_inj. apply Hne. eapply (wo_locks _ Hw); [exact Hq|exact Hq'|reflexivity|].
      cbn. congruence.
  - exact B.
  - intros k j row E Est. destruct (C _ _ _ E Est) as [?|(d0 & Hobj & Hrest)]; [by left|right]. exists d0. split; [|done].
    rewrite lookup_insert_ne; [done|]. intros [E1 E2]%staged_chunk_key_inj.
    apply (chunk_held _ _ _ (id s) i Hw Hq eq_refl). exists row. by rewrite E1, E2.
Qed.

Lemma quiet_commit w r s i data c b d : world_ok w -> quiet_ok w -> requests w !! r = Some (Stored s i data) ->
  commit_chunk (clock w) (id s) i (Z.of_nat (String.length data)) (sha256 data) (db w) = Some (c, b, d) ->
  quiet_ok (set_request r None (set_db d w)).
Proof.
  intros Hw [A B C] Hq Hc. pose proof (wo_reqs _ Hw _ _ Hq) as (_ & row & Er & Ep & El).
  destruct (commit_rows _ _ _ _ _ _ _ _ _ Hc (wo_rows _ Hw) Er Ep El) as (_ & He & s0 & Es & Ho & Ess & Ech).
  pose proof (extends_later _ _ _ He) as Hl. apply commit_chunk_inv in Hc as (s1 & _ & _ & Ed).
  assert (orphans d = orphans (db w)) as Eo by (by rewrite Ed).
  split; cbn.
  - intros r' q [Hne Hq']%lookup_delete_Some. pose proof (A _ _ Hq') as Hqr.
    assert (Hnc : forall k, (forall s2, sessions (db w) !! k = Some s2 -> status s2 <> Committing) ->
      forall s2, sessions d !! k = Some s2 -> status s2 <> Committing).
    { intros k Hx s2. rewrite Ess. intros [[<- <-]|[_ E2]]%lookup_insert_Some; [|by apply Hx].
      cbn. apply bool_decide_eq_true in Ho. destruct Ho as [E|E]; rewrite E; done. }
    destruct q; cbn in *; eauto using terminal_later. destruct Hqr as [Hx [Ht|Hobj]]; (split; [by apply Hnc|]);
      [left; by eapply terminal_later|by right].
  - intros k Hs. rewrite Eo in Hs. eapply terminal_later; [done|by apply B].
  - intros k j row'. rewrite Ech. intros [[Ek <-]|[_ E]]%lookup_insert_Some Est.
    + injection Ek as <- <-. destruct (A _ _ Hq) as [_ [Ht|Hobj]]; [left; by eapply terminal_later|right].
      by exists data.
    + destruct (C _ _ _ E Est) as [?|?]; [left; by eapply terminal_later|by right].
Qed.

(** In a quiet world only a terminal session refuses a chunk. *)
Lemma quiet_refused w r s i data : world_ok w -> quiet_ok w -> requests w !! r = Some (Stored s i data) ->
  commit_chunk (clock w) (id s) i (Z.of_nat (String.length data)) (sha256 data) (db w) = None ->
  terminal_in (db w) (id s).
Proof.
  intros Hw Hqk Hq Hc. destruct (wo_reqs _ Hw _ _ Hq) as ((s0 & E & _) & _). destruct (qo_reqs _ Hqk _ _ Hq) as [Hn _].
  exists s0. split; [done|]. unfold commit_chunk in Hc. rewrite E in Hc. specialize (Hn _ E).
  unfold is_terminal. destruct (status s0); try done.
Qed.

Lemma quiet_claim w r sid user token s d : quiet_ok w -> quiet w (Claims sid) ->
  claim_lease (clock w) sid user token (db w) = Some (s, d) ->
  quiet_ok (set_request r (Some (Counting s)) (set_db d w)).
Proof.
  intros Hw Hno Hc. destruct (claim_state_only _ _ _ _ _ _ _ Hc) as (s0 & E0 & _ & -> & -> & Hst).
  apply quiet_set; [|done].
  change (set_db ?d w) with (set_db d (set_store (store w) w)).
  apply quiet_move; [done|by eapply extends_later, state_only_extends|done|by left| |by left].
  intros r' q k s1 Hq Hwr E Est. cbn in E. rewrite lookup_insert_ne in E; [eauto|].
  intros <-. by apply (Hno _ _ Hq).
Qed.

Lemma quiet_finalize w r s data d : world_ok w -> quiet_ok w -> requests w !! r = Some (Published s data) ->
  finalize_completed (clock w) s (db w) = (true, d) ->
  quiet_ok (set_request r (Some (Purging s)) (set_db d w)).
Proof.
  intros Hw Hqk Hq Hf. destruct (step_ok_finalize _ _ _ _ _ _ Hw Hq Hf) as [_ Hst].
  apply quiet_set.
  - apply (quiet_state_db (Some Completed)); [done|done|done|].
    pose proof (orphans_update (id s) (holds_lease (state_token s))
      (fun s => set_state (clock w) Completed None None (error_message s) s) (db w)) as Ho.
    unfold finalize_completed in Hf. by rewrite Hf in Ho.
  - unfold finalize_completed, update_session in Hf. destruct (sessions (db w) !! id s) as [s0|]; [|done].
    destruct (holds_lease _ _); [|done]. injection Hf as <-. eexists. cbn. rewrite lookup_insert_eq. split; done.
Qed.

Lemma quiet_cancel w r sid user s d : world_ok w -> quiet_ok w ->
  cancel_session (clock w) sid user (db w) = (Ok (Some s), d) ->
  quiet_ok (set_request r (Some (Purging s)) (set_db d w)).
Proof.
  intros Hw Hqk Hc. pose proof (cancel_state_only _ _ _ _ _ _ Hc) as Hst.
  unfold cancel_session in Hc. destruct (sessions (db w) !! sid) as [s0|] eqn:E0; [|done].
  destruct (decide _); [done|]. destruct (update_session _ _ _ _) as [[] d1] eqn:Eu.
  2: { exfalso. destruct (sessions d1 !! sid); [|done]. by destruct (decide _). }
  destruct (staged_in_storage s0); [|done]. injection Hc as <- <-.
  destruct (known_row _ _ _ (wo_rows _ Hw) E0) as [Eid _].
  apply quiet_set.
  - apply (quiet_state_db None); [done|done|done|]. pose proof (orphans_update sid (may_cancel (clock w))
      (fun s => set_state (clock w) Cancelled None None (error_message s) s) (db w)) as Ho. by rewrite Eu in Ho.
  - unfold update_session in Eu. rewrite E0 in Eu. destruct (may_cancel _ _); [|done]. injection Eu as <-.
    rewrite <- Eid. eexists. cbn. rewrite lookup_insert_eq. split; done.
Qed.

Lemma quiet_refuse w r sid i faulty e d st : quiet_ok w -> requests w !! r = Some (Refused sid i) ->
  refuse_chunk (clock w) faulty sid i (db w) (store w) = (e, d, st) ->
  quiet_ok (set_request r None (set_db d (set_store st w))).
Proof.
  intros Hw Hq Href. pose proof (qo_reqs _ Hw _ _ Hq) as Ht. cbn in Ht.
  pose proof (refuse_state_only _ _ _ _ _ _ _ _ _ Href) as Hst.
  pose proof (terminal_later _ _ _ (extends_later _ _ _ (state_only_extends _ _ _ Hst)) Ht) as Ht'.
  apply quiet_remove. apply (quiet_state None (fun k => k = staged_chunk_key sid i)); [done|done|done| | |].
  - intros k Hk. destruct (decide (k = sid)) as [->|Hne]; [by right|left].
    unfold refuse_chunk, queue_orphan in Href. destruct (storage_delete _ _ _) as [?|[]]; injection Href as _ <- _; try done.
    repeat case_match; try done. cbn in Hk. by rewrite lookup_insert_ne in Hk.
  - by eapply refuse_deletes.
  - by intros k j [-> _]%staged_chunk_key_inj.
Qed.

Lemma quiet_purge w r s faulty res d st : quiet_ok w -> requests w !! r = Some (Purging s) ->
  purge_staged_chunks (clock w) faulty (id s) (total_chunks s) (db w) (store w) = (res, d, st) ->
  quiet_ok (set_request r None (set_db d (set_store st w))).
Proof.
  intros Hw Hq Hp. pose proof (qo_reqs _ Hw _ _ Hq) as Ht. cbn in Ht.
  pose proof (purge_state_only _ _ _ _ _ _ _ _ _ Hp) as Hst.
  pose proof (terminal_later _ _ _ (extends_later _ _ _ (state_only_extends _ _ _ Hst)) Ht) as Ht'.
  apply quiet_remove. apply (quiet_state None (keys_of (id s) (total_chunks s))); [done|done|done| | |].
  - intros k Hk. left. unfold purge_staged_chunks in Hp.
    destruct (delete_staged_chunk_objects _ _ _ _) as [[] ?]; injection Hp as _ <- _; [|done].
    by rewrite orphans_update in Hk.
  - by eapply purge_deletes.
  - by intros k j (j' & _ & [-> _]%staged_chunk_key_inj).
Qed.

Lemma quiet_reap w faulty oo failed c st : world_ok w -> quiet_ok w -> c ∈ purge_candidates oo failed (db w) ->
  st = purge_one (clock w) faulty oo c
         {| ps_budget := 1; ps_purged := 0; ps_failed := failed; ps_db := db w;
            ps_registry := {[ c_location c := store w ]} |} ->
  quiet_ok (set_db (ps_db st) (set_store (default (store w) (ps_registry st !! c_location c)) w)).
Proof.
  intros Hw Hqk Hin ->. set (st0 := Build_PurgeState _ _ _ _ _).
  pose proof (reap_state_only (clock w) faulty oo c st0) as Hst. cbn in Hst.
  assert (Ht : terminal_in (db w) (c_id c)).
  { destruct oo.
    - apply elem_of_purge_orphans in Hin as (sid & o & E & Hc & _). unfold orphan_candidate in Hc.
      destruct (_ <? _); [|done]. injection Hc as <-. cbn. apply (qo_orphans _ Hqk). by eexists.
    - apply elem_of_purge_sessions in Hin as (sid & s & E & Hc & _). unfold session_candidate in Hc.
      destruct (_ && _) eqn:Hx; [|done]. destruct (staging_storage_backend s); [|done]. injection Hc as <-. cbn.
      apply andb_prop in Hx as [_ Hx]. destruct (known_row _ _ _ (wo_rows _ Hw) E) as [-> _]. by exists s. }
  pose proof (terminal_later _ _ _ (extends_later _ _ _ (state_only_extends _ _ _ Hst)) Ht) as Ht'.
  apply (quiet_state None (keys_of (c_id c) (c_chunks c))); [done|done|exact Hst| | |].
  - intros k Hk. left. unfold purge_one in Hk. destruct (purge_objects _ _ _) as [[] ?], oo; cbn in Hk; try done.
    + destruct Hk as [o [_ Ho]%lookup_delete_Some]. by eexists.
    + by apply lookup_alter_is_Some in Hk.
  - by apply (reap_deletes (clock w) faulty oo c st0).
  - by intros k j (j' & _ & [-> _]%staged_chunk_key_inj).
Qed.

Lemma quiet_step l w w' : world_ok w -> quiet_ok w -> quiet w l -> step l w w' -> quiet_ok w'.
Proof.
  intros Hw Hqk Hal Hstep.
  destruct Hstep as [w t Ht|w k p s d Hc|w r|w r k user j offset data s Hr Ho|w r s j offset data Hq Hfree
    |w r s j data faulty Hq|w r s j data Hq|w r k j faulty e d st Hq Href|w r k user token s d Hr Hf Hc Hs
    |w r s res d Hq Hc|w r s j todo acc faulty Hq|w r s acc Hq|w r q s error Hq Hls|w r s data Hq
    |w r s data won d Hq Hf|w r q s ttl Hq Hls|w r k user s d Hr Hc|w|w r s faulty res d st Hq Hp
    |w faulty oo failed c st Hin Hst].
  - by destruct Hqk.
  - by eapply quiet_create.
  - by apply quiet_remove.
  - apply quiet_set; [done|]. apply open_for_upload_inv in Ho as (E & Hopen & _).
    destruct (known_row _ _ _ (wo_rows _ Hw) E) as [Eid _]. cbn. rewrite Eid, E. intros s0 [= <-] Est.
    apply bool_decide_eq_true in Hopen. destruct Hopen; congruence.
  - destruct (claim_chunk _ _ _ _ _ _); [by apply quiet_remove|]. apply quiet_set; [done|].
    exact (qo_reqs _ Hqk _ _ Hq).
  - unfold storage_put. destruct (faulty _); [by apply quiet_remove|by apply quiet_put].
  - destruct (commit_chunk _ _ _ _ _ _) as [[[c b] d]|] eqn:Hc; [by eapply quiet_commit|].
    apply quiet_set; [done|]. by eapply quiet_refused.
  - by eapply quiet_refuse.
  - by eapply quiet_claim.
  - destruct (check_complete_state_only _ _ _ _ _ Hc) as [Hd _].
    assert (quiet_ok (set_db d w)) as Hdb.
    { apply (quiet_state_db None); [done|done|done|]. unfold check_complete in Hc.
      destruct (_ <? _)%nat; injection Hc as _ <-; [apply orphans_update|done]. }
    destruct (is_ok res); [by apply quiet_set|by apply quiet_remove].
  - unfold storage_get. destruct (faulty _); [|destruct (store w !! _)]; cbn [ok_or];
      try (by apply quiet_remove, quiet_release). by apply quiet_set.
  - destruct (bool_decide _); [by apply quiet_remove, quiet_release|].
    destruct (bool_decide _); [by apply quiet_remove, quiet_fail|by apply quiet_set].
  - apply quiet_remove. destruct error; [by apply quiet_fail|by apply quiet_release].
  - apply quiet_set; [|done]. by destruct Hqk.
  - cbn in Hal. subst won. by eapply quiet_finalize.
  - apply (quiet_state_db None); [done|done|apply renew_state_only|apply orphans_update].
  - by eapply quiet_cancel.
  - apply (quiet_state_db None); [done|done|apply expire_state_only|done].
  - by eapply quiet_purge.
  - by eapply quiet_reap.
Qed.

(** C28. As long as no completion starts while a chunk of its session is being
    uploaded, and no lease is lost at the finalization, no staged byte is lost:
    under every other interleaving of uploads, completions, crashes, cancels,
    expiries, purges and backend failures, each completed chunk of a session
    that is not terminal has its object in the backend, with the length of its
    row and the recorded checksum. *)
Theorem quiet_run_objects repos w sid s i row :
  run quiet (empty_world repos) w -> sessions (db w) !! sid = Some s -> is_terminal s = false ->
  chunks (db w) !! (sid, i) = Some row -> chunk_status row = ChunkCompleted ->
  exists data, store w !! staged_chunk_key sid i = Some data /\
    byte_length row = Z.of_nat (String.length data) /\ chunk_checksum row = Some (sha256 data).
Proof.
  intros Hrun Es Ht Er Est.
  assert (world_ok w /\ quiet_ok w) as [_ Hqk].
  { remember (empty_world repos) as w0 eqn:E0. revert E0. clear Es Er.
    induction Hrun as [w|w1 w2 w3 l Hrun IH Hal Hstep]; intros ->.
    - split; [apply empty_ok|]. split; cbn.
      + intros r q E. by rewrite lookup_empty in E.
      + intros k [o E]. by rewrite lookup_empty in E.
      + intros k j c E. by rewrite lookup_empty in E.
    - destruct (IH eq_refl) as [Hw2 Hq2]. split; [by eapply step_ok|by eapply quiet_step]. }
  destruct (qo_objects _ Hqk _ _ _ Er Est) as [(s0 & E0 & Ht0)|?]; [congruence|done].
Qed.
End Quiet.

Lemma quiet_run_objects_witness : exists data, one_object !! @race_key sample_staging_uuid = Some data /\ 3 = Z.of_nat (String.length data).
Proof.
  destruct (@quiet_run_objects sample_staging_uuid sample_sha2 race_repos
    (@race_world v_counted (@c_done sample_sha2) one_object ∅) 1%N v_counted 0 (@c_done sample_sha2)
    (sample_uploaded quiet (fun _ => I))) as (data & Hs & Hl & _); try reflexivity.
  exists data. split; [exact Hs|exact Hl].
Defined.
