(* ===== verification/ClientIp.v ===== *)
(** Client addresses: [IpAddr] as the standard library parses and prints it,
    CIDR ranges and the choice of a client's address from the connection and
    the X-Forwarded-For chain ([api/middleware/rate_limit.rs], the list parser
    of [config.rs]).

    The limiter ([RateLimit]) keys anonymous requests by the address chosen
    here, so [client_behind_proxies] is what stops a client from choosing its
    own key. *)

From stdpp Require Import base list strings pretty option.
From Stdlib Require Import ZArith Lia Ascii.
From S2P Require Import Prelude RustStr RustNum.

Local Open Scope string_scope.
Local Open Scope Z_scope.
Local Open Scope result_scope.

(** * [std::net::IpAddr] *)

(** An address as its number, [u32] or [u128]. *)
Inductive IpAddr := V4 (bits : Z) | V6 (bits : Z).

#[global] Instance IpAddr_eq_dec : EqDecision IpAddr.
Proof. solve_decision. Defined.

Definition ip_bits (ip : IpAddr) : Z := match ip with V4 b | V6 b => b end.
Definition ip_width (ip : IpAddr) : Z := match ip with V4 _ => 32 | V6 _ => 128 end.
Definition ip_ok (ip : IpAddr) : Prop := 0 <= ip_bits ip < 2 ^ ip_width ip.

(** ** [FromStr] *)

(** [char::to_digit] for the radixes 10 and 16. *)
Definition hex_digit (c : ascii) : option Z :=
  let v := byte_val c in
  if is_digit c then Some (v - 48)
  else if in_range 97 102 c then Some (v - 87)
  else if in_range 65 70 c then Some (v - 55)
  else None.

Definition to_digit (radix : Z) (c : ascii) : option Z :=
  d ← hex_digit c; if d <? radix then Some d else None.

(** The digits at the front, their number and what follows. *)
Fixpoint digits_at (radix acc : Z) (n : nat) (s : string) : Z * nat * string :=
  match s with
  | EmptyString => (acc, n, s)
  | String c s' =>
      match to_digit radix c with
      | Some d => digits_at radix (acc * radix + d) (S n) s'
      | None => (acc, n, s)
      end
  end.

(** [Parser::read_number] with a digit limit; [limit] is the largest value of
    the type. *)
Definition read_number (radix limit : Z) (max_digits : nat) (allow_zero_prefix : bool) (s : string)
  : option (Z * string) :=
  let '(v, n, rest) := digits_at radix 0 0 s in
  if (n =? 0)%nat || (max_digits <? n)%nat then None
  else if negb allow_zero_prefix && starts_with "0" s && (1 <? n)%nat then None
  else if limit <? v then None
  else Some (v, rest).

Definition read_given_char (c : ascii) (s : string) : option string := strip_prefix (String c "") s.

Definition read_separator {A} (sep : ascii) (index : nat) (inner : string -> option (A * string)) (s : string)
  : option (A * string) :=
  match index with
  | O => inner s
  | S _ => s ← read_given_char sep s; inner s
  end.

Definition read_ipv4_addr (s : string) : option (Z * string) :=
  let octet i := read_separator "." i (read_number 10 255 3 false) in
  '(a, s) ← octet 0%nat s;
  '(b, s) ← octet 1%nat s;
  '(c, s) ← octet 2%nat s;
  '(d, s) ← octet 3%nat s;
  Some (((a * 256 + b) * 256 + c) * 256 + d, s).

(** [n] more groups, from the [i]th on, of [limit] in all: the groups read and
    whether they end in an IPv4 address. *)
Fixpoint read_groups (n i limit : nat) (s : string) : list Z * bool * string :=
  match n with
  | O => ([], false, s)
  | S n =>
      match (if (S i <? limit)%nat then read_separator ":" i read_ipv4_addr s else None) with
      | Some (a, s) => ([a / 65536; a mod 65536], true, s)
      | None =>
          match read_separator ":" i (read_number 16 65535 4 true) s with
          | Some (g, s) => let '(gs, v4, s) := read_groups n (S i) limit s in (g :: gs, v4, s)
          | None => ([], false, s)
          end
      end
  end.

Definition from_groups (gs : list Z) : Z := foldl (fun acc g => acc * 65536 + g) 0 gs.

Definition read_ipv6_addr (s : string) : option (Z * string) :=
  let '(head, head_ipv4, s) := read_groups 8 0 8 s in
  if (length head =? 8)%nat then Some (from_groups head, s)
  else if head_ipv4 then None
  else
    s ← read_given_char ":" s;
    s ← read_given_char ":" s;
    let limit := (8 - (length head + 1))%nat in
    let '(tail, _, s) := read_groups limit 0 limit s in
    Some (from_groups (head ++ replicate (8 - length head - length tail) 0 ++ tail)%list, s).

Definition parse_ip (s : string) : option IpAddr :=
  match read_ipv4_addr s with
  | Some (b, r) => if is_empty r then Some (V4 b) else None
  | None => '(b, r) ← read_ipv6_addr s; if is_empty r then Some (V6 b) else None
  end.

(** ** [Display] *)

Fixpoint hex_go (fuel : nat) (v : Z) : string :=
  match fuel with
  | O => ""
  | S fuel =>
      let d := v mod 16 in
      (if v <? 16 then "" else hex_go fuel (v / 16)) +:+
      String (byte_of (if d <? 10 then 48 + d else 87 + d)) ""
  end.

(** [{:x}] of a [u16]. *)
Definition hex (v : Z) : string := hex_go 4 v.

Definition segments (b : Z) : list Z := (fun i => (b / 2 ^ (112 - 16 * i)) mod 65536) <$> seqZ 0 8.

Definition fmt_v4 (b : Z) : string :=
  join "." (pretty <$> [b / 2 ^ 24; (b / 2 ^ 16) mod 256; (b / 2 ^ 8) mod 256; b mod 256]).

(** The first longest run of zero segments: start and length. *)
Fixpoint longest_zeros (i : nat) (cur best : nat * nat) (l : list Z) : nat * nat :=
  match l with
  | [] => best
  | 0 :: l =>
      let cur := if (snd cur =? 0)%nat then (i, 1%nat) else (fst cur, S (snd cur)) in
      longest_zeros (S i) cur (if (snd best <? snd cur)%nat then cur else best) l
  | _ :: l => longest_zeros (S i) (0%nat, 0%nat) best l
  end.

Definition fmt_v6 (b : Z) : string :=
  if b / 2 ^ 32 =? 65535 then "::ffff:" +:+ fmt_v4 (b mod 2 ^ 32)
  else
    let segs := segments b in
    let '(start, len) := longest_zeros 0 (0%nat, 0%nat) (0%nat, 0%nat) segs in
    if (1 <? len)%nat
    then join ":" (hex <$> take start segs) +:+ "::" +:+ join ":" (hex <$> drop (start + len) segs)
    else join ":" (hex <$> segs).

Definition fmt_ip (ip : IpAddr) : string := match ip with V4 b => fmt_v4 b | V6 b => fmt_v6 b end.

Example ip_1 : parse_ip "192.168.0.255" = Some (V4 3232235775) /\ parse_ip "1.2.3.04" = None /\ parse_ip "1.2.3" = None.
Proof. vm_compute. done. Qed.
Example ip_2 : fmt_ip <$> parse_ip "2001:DB8:0:0:1:0:0:1" = Some "2001:db8::1:0:0:1" /\
  fmt_ip <$> parse_ip "::FFFF:10.1.2.3" = Some "::ffff:10.1.2.3" /\ fmt_ip <$> parse_ip "::" = Some "::" /\
  fmt_ip <$> parse_ip "1::" = Some "1::" /\ parse_ip "1:2:3:4:5:6:7:8::" = None /\ parse_ip "1::2::3" = None /\
  parse_ip ":::" = None /\ fmt_ip <$> parse_ip "1:2:3:4:5:6:7::" = Some "1:2:3:4:5:6:7:0".
Proof. vm_compute. done. Qed.

(** * CIDR ranges *)

Record CidrRange := { network : IpAddr; prefix_len : Z }.

(** [str::parse::<u8>]. *)
Definition parse_u8 (s : string) : option Z :=
  n ← parse_u64 s; if (n <=? 255)%N then Some (Z.of_N n) else None.

Definition cidr_parse (s : string) : result string CidrRange :=
  let? parts := ok_or (split_once (Ascii.eqb "/") s) ("missing '/' in CIDR: " +:+ s) in
  let '(addr_str, prefix_str) := parts in
  let? network := ok_or (parse_ip addr_str) ("invalid IP '" +:+ addr_str +:+ "'") in
  let? prefix_len := ok_or (parse_u8 prefix_str) ("invalid prefix length '" +:+ prefix_str +:+ "'") in
  let max_prefix := match network with V4 _ => 32 | V6 _ => 128 end in
  if max_prefix <? prefix_len
  then Err ("prefix length " +:+ pretty prefix_len +:+ " exceeds maximum " +:+ pretty max_prefix +:+ " for " +:+ addr_str)
  else Ok {| network := network; prefix_len := prefix_len |}.

(** The mask of a [w]-bit address: [MAX.checked_shl(w - prefix_len)], which is
    [None] for a shift by [w] bits or more. *)
Definition mask (w prefix_len : Z) : Z :=
  if prefix_len =? 0 then 0
  else if w - prefix_len <? w then Z.shiftl (2 ^ w - 1) (w - prefix_len) mod 2 ^ w else 0.

Definition cidr_contains (c : CidrRange) (ip : IpAddr) : bool :=
  match network c, ip with
  | V4 net, V4 ip => Z.land net (mask 32 (prefix_len c)) =? Z.land ip (mask 32 (prefix_len c))
  | V6 net, V6 ip => Z.land net (mask 128 (prefix_len c)) =? Z.land ip (mask 128 (prefix_len c))
  | _, _ => false
  end.

Definition parse_cidr_list_env (value : option string) : list CidrRange :=
  match value with
  | None => []
  | Some s =>
      omap (fun c => match cidr_parse c with Ok c => Some c | Err _ => None end)
        (base.filter (fun c => is_empty c = false) (trim <$> split_char "," s))
  end.

(** * The client's address *)

(** The lines of the X-Forwarded-For header, as [HeaderValue::to_str] reads
    them: [None] for a value with bytes outside visible ASCII. *)
Notation XffLines := (list (option string)).

Definition first_xff_token_in (lines : XffLines) : option string :=
  line ← head lines; line ← line;
  token ← head (split_char "," line);
  if is_empty (trim token) then None else Some (trim token).

Definition count_char (c : ascii) (s : string) : nat := (length (split_char c s) - 1)%nat.

Definition normalize_xff_token (token : string) : string :=
  let t := trim token in
  match strip_prefix "[" t with
  | Some rest => match split_once (Ascii.eqb "]") rest with Some (host, _) => host | None => t end
  | None =>
      if (count_char ":" t =? 1)%nat
      then match rsplit_once ":" t with Some (host, _) => host | None => t end
      else t
  end.

Definition is_trusted (ranges : list CidrRange) (ip : IpAddr) : bool := existsb (fun c => cidr_contains c ip) ranges.

(** The walk over the tokens, the last one first. *)
Fixpoint walk_tokens (trusted_proxies : list CidrRange) (tokens : list string) : option IpAddr :=
  match tokens with
  | [] => None
  | token :: tokens =>
      let token := normalize_xff_token token in
      if is_empty token then walk_tokens trusted_proxies tokens
      else
        match parse_ip token with
        | Some ip => if is_trusted trusted_proxies ip then walk_tokens trusted_proxies tokens else Some ip
        | None => None
        end
  end.

Definition rightmost_untrusted_xff_token (lines : XffLines) (trusted_proxies : list CidrRange) : option IpAddr :=
  walk_tokens trusted_proxies (flat_map (fun line => rev (split_char "," line)) (rev (omap id lines))).

Definition resolve_client_ip_addr (lines : XffLines) (peer : option IpAddr) (trusted_proxies : list CidrRange)
  : option IpAddr :=
  match peer with
  | Some peer =>
      match (if is_trusted trusted_proxies peer then rightmost_untrusted_xff_token lines trusted_proxies else None) with
      | Some ip => Some ip
      | None => Some peer
      end
  | None => first ← first_xff_token_in lines; parse_ip first
  end.

Definition extract_client_ip (lines : XffLines) (peer : option IpAddr) (trusted_proxies : list CidrRange) : string :=
  match resolve_client_ip_addr lines peer trusted_proxies with
  | Some ip => "ip:" +:+ fmt_ip ip
  | None => "ip:unknown"
  end.

Example cidr_1 : match cidr_parse "10.0.0.0/8", parse_ip "10.200.3.4", parse_ip "11.0.0.1" with
                 | Ok c, Some a, Some b => cidr_contains c a = true /\ cidr_contains c b = false
                 | _, _, _ => False
                 end.
Proof. vm_compute. done. Qed.

(** * Ranges *)

Lemma hex_digit_range c d : hex_digit c = Some d -> 0 <= d < 16.
Proof.
  unfold hex_digit, is_digit, in_range, byte_val. pose proof (N_ascii_bounded c).
  repeat (case_match; try done).
  all: intros [= <-]; repeat match goal with H : (_ && _)%bool = true |- _ => apply andb_true_iff in H as [?%N.leb_le ?%N.leb_le] end; lia.
Qed.

Lemma to_digit_nonneg radix c d : to_digit radix c = Some d -> 0 <= d.
Proof.
  unfold to_digit. destruct (hex_digit c) as [e|] eqn:E; [|done]. cbn. apply hex_digit_range in E.
  case_match; [|done]. intros [= <-]. lia.
Qed.

Lemma digits_at_nonneg radix s : 0 <= radix -> forall acc n, 0 <= acc ->
  0 <= fst (fst (digits_at radix acc n s)).
Proof.
  intros Hr. induction s as [|c s IH]; intros acc n Ha; cbn; [done|].
  destruct (to_digit radix c) as [d|] eqn:E; [|done]. apply IH. apply to_digit_nonneg in E. nia.
Qed.

Lemma read_number_range radix limit md az s v r : 0 <= radix ->
  read_number radix limit md az s = Some (v, r) -> 0 <= v <= limit.
Proof.
  intros Hr. unfold read_number. pose proof (digits_at_nonneg radix s Hr 0 0%nat (Z.le_refl 0)) as Hv.
  destruct (digits_at radix 0 0 s) as [[w n] t]. cbn in Hv.
  repeat (case_match; try done). intros [= <- <-]. apply Z.ltb_ge in H1. lia.
Qed.

Lemma read_separator_range {A} (P : A -> Prop) sep i inner s v r :
  (forall s v r, inner s = Some (v, r) -> P v) -> read_separator sep i inner s = Some (v, r) -> P v.
Proof.
  intros Hi. unfold read_separator. destruct i; [by apply Hi|].
  destruct (read_given_char sep s); cbn [mbind option_bind]; [by apply Hi|done].
Qed.

Lemma read_ipv4_range s v r : read_ipv4_addr s = Some (v, r) -> 0 <= v < 2 ^ 32.
Proof.
  assert (Ho : forall i s v r, read_separator "." i (read_number 10 255 3 false) s = Some (v, r) -> 0 <= v <= 255).
  { intros i s0 v0 r0. apply (read_separator_range (fun v => 0 <= v <= 255)).
    intros s1 v1 r1 H0. by apply read_number_range in H0. }
  unfold read_ipv4_addr. cbv zeta.
  do 4 (match goal with |- context [read_separator ?c ?i ?f ?s ≫= _] =>
          destruct (read_separator c i f s) as [[? ?]|] eqn:?; cbn [mbind option_bind]; [|done] end).
  intros [= <- <-]. repeat match goal with H : read_separator _ _ _ _ = Some _ |- _ => apply Ho in H end. lia.
Qed.

Definition group_ok (g : Z) : Prop := 0 <= g < 65536.

Lemma read_groups_ok n : forall i limit s gs b r, limit = (i + n)%nat ->
  read_groups n i limit s = (gs, b, r) -> Forall group_ok gs /\ (length gs <= n)%nat.
Proof.
  induction n as [|n IH]; intros i limit s gs b r Hl; cbn [read_groups]; [by intros [= <- <- <-]|].
  destruct (if (S i <? limit)%nat then read_separator ":" i read_ipv4_addr s else None) as [[a s1]|] eqn:E4.
  - intros [= <- <- <-]. destruct (Nat.ltb_spec (S i) limit); [|done].
    apply (read_separator_range (fun v => 0 <= v < 2 ^ 32)) in E4; [|intros ???; apply read_ipv4_range].
    split; [|cbn; lia]. repeat constructor; unfold group_ok.
    + apply Z.div_pos; lia.
    + apply Z.div_lt_upper_bound; lia.
    + apply Z.mod_pos_bound; lia.
    + apply Z.mod_pos_bound; lia.
  - destruct (read_separator ":" i (read_number 16 65535 4 true) s) as [[g s1]|] eqn:Eg; [|intros [= <- <- <-]; split; [done|cbn; lia]].
    apply (read_separator_range (fun v => 0 <= v <= 65535)) in Eg.
    2: { intros ??? H0. by apply read_number_range in H0. }
    destruct (read_groups n (S i) limit s1) as [[gs1 b1] r1] eqn:Er. intros [= <- <- <-].
    apply IH in Er as [Hok Hlen]; [|lia]. split; [constructor; [unfold group_ok; lia|done]|cbn; lia].
Qed.

Lemma from_groups_range gs : Forall group_ok gs -> 0 <= from_groups gs < 2 ^ (16 * Z.of_nat (length gs)).
Proof.
  unfold from_groups. induction gs as [|g gs IH] using rev_ind; intros Hok; [cbn; lia|].
  apply Forall_app in Hok as [Hok Hg]. rewrite Forall_singleton in Hg. specialize (IH Hok).
  rewrite foldl_app, length_app. cbn [length foldl]. unfold group_ok in Hg.
  replace (16 * Z.of_nat (length gs + 1)) with (16 * Z.of_nat (length gs) + 16) by lia.
  rewrite Z.pow_add_r by lia. change (2 ^ 16) with 65536. nia.
Qed.

Lemma read_ipv6_range s v r : read_ipv6_addr s = Some (v, r) -> 0 <= v < 2 ^ 128.
Proof.
  unfold read_ipv6_addr. destruct (read_groups 8 0 8 s) as [[hd b] s1] eqn:Eh.
  apply read_groups_ok in Eh as [Hh Hlh]; [|done].
  destruct (Nat.eqb_spec (length hd) 8) as [E8|].
  { intros [= <- <-]. apply from_groups_range in Hh. by rewrite E8 in Hh. }
  destruct b; [done|]. destruct (read_given_char ":" s1) as [s2|]; cbn [mbind option_bind]; [|done].
  destruct (read_given_char ":" s2) as [s3|]; cbn [mbind option_bind]; [|done].
  destruct (read_groups _ 0 _ s3) as [[tl b] s4] eqn:Et. apply read_groups_ok in Et as [Ht Hlt]; [|lia].
  intros [= <- <-].
  assert (Forall group_ok (hd ++ replicate (8 - length hd - length tl) 0 ++ tl)%list) as Hall.
  { apply Forall_app. split; [done|]. apply Forall_app. split; [|done].
    apply Forall_replicate. unfold group_ok. lia. }
  apply from_groups_range in Hall. rewrite !length_app, length_replicate in Hall.
  replace (length hd + (8 - length hd - length tl + length tl))%nat with 8%nat in Hall by lia. done.
Qed.

Lemma parse_ip_ok s ip : parse_ip s = Some ip -> ip_ok ip.
Proof.
  unfold parse_ip, ip_ok. destruct (read_ipv4_addr s) as [[v r]|] eqn:E4.
  - destruct (is_empty r); [|done]. intros [= <-]. by apply read_ipv4_range in E4.
  - destruct (read_ipv6_addr s) as [[v r]|] eqn:E6; cbn; [|done].
    destruct (is_empty r); [|done]. intros [= <-]. by apply read_ipv6_range in E6.
Qed.

(** ** The mask *)

Lemma mask_bit w p i : 0 <= p <= w -> 0 <= i < w -> Z.testbit (mask w p) i = (w - p <=? i).
Proof.
  intros Hp Hi. unfold mask. destruct (Z.eqb_spec p 0) as [->|Hp0].
  - rewrite Z.bits_0. symmetry. apply Z.leb_gt. lia.
  - rewrite (proj2 (Z.ltb_lt _ _)) by lia.
    rewrite Z.mod_pow2_bits_low, Z.shiftl_spec by lia.
    destruct (Z.leb_spec (w - p) i) as [Hle|Hgt]; [|by apply Z.testbit_neg_r; lia].
    change (2 ^ w - 1) with (Z.pred (2 ^ w)). rewrite <- Z.ones_equiv. apply Z.ones_spec_low. lia.
Qed.

Lemma testbit_high w x i : 0 <= w -> 0 <= x < 2 ^ w -> w <= i -> Z.testbit x i = false.
Proof. intros Hw Hx Hi. rewrite <- (Z.mod_small x (2 ^ w)) by done. by apply Z.mod_pow2_bits_high. Qed.

Lemma mask_compare w p x y : 0 <= p <= w -> 0 <= x < 2 ^ w -> 0 <= y < 2 ^ w ->
  Z.land x (mask w p) = Z.land y (mask w p) <-> x / 2 ^ (w - p) = y / 2 ^ (w - p).
Proof.
  intros Hp Hx Hy. rewrite <- !Z.shiftr_div_pow2 by lia. split; intros E; apply Z.bits_inj'; intros i Hi.
  - rewrite !Z.shiftr_spec by done. destruct (decide (i + (w - p) < w)) as [Hlt|].
    + assert (Z.testbit (Z.land x (mask w p)) (i + (w - p)) = Z.testbit (Z.land y (mask w p)) (i + (w - p))) as Eb by congruence.
      rewrite !Z.land_spec, mask_bit in Eb by lia. rewrite (proj2 (Z.leb_le _ _)) in Eb by lia.
      by rewrite !andb_true_r in Eb.
    + rewrite !(testbit_high w) by lia. done.
  - rewrite !Z.land_spec. destruct (decide (i < w)) as [Hlt|].
    + rewrite mask_bit by lia. destruct (Z.leb_spec (w - p) i); [|by rewrite !andb_false_r].
      assert (Z.testbit (Z.shiftr x (w - p)) (i - (w - p)) = Z.testbit (Z.shiftr y (w - p)) (i - (w - p))) as Eb by congruence.
      rewrite !Z.shiftr_spec in Eb by lia. replace (i - (w - p) + (w - p)) with i in Eb by lia. by rewrite Eb.
    + rewrite !(testbit_high w x), !(testbit_high w y) by lia. done.
Qed.

(** The first address of the block. *)
Definition block_base (c : CidrRange) : Z :=
  let size := 2 ^ (ip_width (network c) - prefix_len c) in ip_bits (network c) / size * size.

Lemma parse_u8_nonneg s n : parse_u8 s = Some n -> 0 <= n <= 255.
Proof.
  unfold parse_u8. destruct (parse_u64 s) as [m|]; cbn; [|done].
  destruct (N.leb_spec m 255); [|done]. intros [= <-]. lia.
Qed.

Lemma cidr_parse_ok s c : cidr_parse s = Ok c -> ip_ok (network c) /\ 0 <= prefix_len c <= ip_width (network c).
Proof.
  unfold cidr_parse. destruct (split_once _ s) as [[a b]|]; cbn [ok_or rbind]; [|done].
  destruct (parse_ip a) as [ip|] eqn:Ei; cbn [ok_or rbind]; [|done].
  destruct (parse_u8 b) as [n|] eqn:En; cbn [ok_or rbind]; [|done].
  apply parse_ip_ok in Ei. apply parse_u8_nonneg in En.
  destruct (Z.ltb_spec match ip with V4 _ => 32 | V6 _ => 128 end n); [done|].
  intros [= <-]. cbn. split; [done|]. destruct ip; cbn in *; lia.
Qed.

Lemma block_iff size net x : 0 < size -> net / size = x / size <-> net / size * size <= x < net / size * size + size.
Proof.
  intros Hs. split.
  - intros ->. pose proof (Z.mul_div_le x size Hs). pose proof (Z.mul_succ_div_gt x size Hs). nia.
  - intros Hx. apply (Z.div_unique _ _ _ (x - net / size * size)); [lia|nia].
Qed.

(** A CIDR range that parses is well formed - its prefix is no longer than
    its addresses, so no shift is out of range - and contains exactly the
    addresses of its family in the aligned block of [2 ^ (width - prefix)]
    addresses around its network: all of the family for [/0], one for a full
    prefix. *)
Theorem cidr_contains_block s c ip :
  cidr_parse s = Ok c -> ip_ok ip ->
  let size := 2 ^ (ip_width (network c) - prefix_len c) in
  0 <= prefix_len c <= ip_width (network c) /\
  (cidr_contains c ip = true <->
   ip_width ip = ip_width (network c) /\ block_base c <= ip_bits ip < block_base c + size).
Proof.
  intros [Hn Hp]%cidr_parse_ok Hip size. split; [done|]. unfold block_base, size, cidr_contains.
  unfold ip_ok in *. destruct (network c) as [x|x], ip as [y|y]; cbn [ip_bits ip_width] in *;
    try (split; [done|intros [? _]; lia]).
  all: rewrite Z.eqb_eq, mask_compare, block_iff by (try apply Z.pow_pos_nonneg; lia).
  all: split; [by intros ?|by intros [_ ?]].
Qed.

Lemma cidr_contains_block_witness :
  exists c, cidr_parse "2001:db8::ff/32" = Ok c /\
    cidr_contains c (V6 (0x20010db8 * 2 ^ 96 + 5)) = true /\ block_base c = 0x20010db8 * 2 ^ 96.
Proof.
  destruct (cidr_parse "2001:db8::ff/32") as [c|e] eqn:E; [|vm_compute in E; discriminate].
  destruct (cidr_contains_block "2001:db8::ff/32" c (V6 (0x20010db8 * 2 ^ 96 + 5)) E) as [_ Hiff].
  { vm_compute. split; [intros H; discriminate H|reflexivity]. }
  exists c. split; [reflexivity|]. vm_compute in E. injection E as <-. split; [|reflexivity].
  apply Hiff. vm_compute. split; [reflexivity|]. split; [intros H; discriminate H|reflexivity].
Defined.

(** * The chain of proxies *)

Definition tokens_of (lines : XffLines) : list string :=
  flat_map (fun line => rev (split_char "," line)) (rev (omap id lines)).

Definition no_comma (s : string) : bool := str_all (fun c => negb (Ascii.eqb "," c)) s.

(** How a proxy adds its token to the header: on a line of its own, at the end
    of the last line, or with every line joined into one. *)
Inductive Append := OwnLine | SameLine | OneLine.

#[global] Instance Append_eq_dec : EqDecision Append.
Proof. solve_decision. Defined.

Definition append (how : Append) (token : string) (lines : list string) : list string :=
  match how with
  | OwnLine => lines ++ [token]
  | SameLine =>
      match list.last lines with
      | Some line => take (length lines - 1) lines ++ [line +:+ "," +:+ token]
      | None => [token]
      end
  | OneLine => [join "," (lines ++ [token])]
  end%list.

Fixpoint through (proxies : list (Append * string)) (lines : list string) : list string :=
  match proxies with
  | [] => lines
  | (how, token) :: proxies => through proxies (append how token lines)
  end.

(** The client's own lines that a proxy joined with its token, and those that
    stay lines of their own. *)
Definition joined_lines (hows : list Append) (sent : list string) : list string :=
  if decide (OneLine ∈ hows) then sent
  else match hows with SameLine :: _ => drop (length sent - 1) sent | _ => [] end.

Definition own_lines (hows : list Append) (sent : list string) : list string :=
  if decide (OneLine ∈ hows) then []
  else match hows with SameLine :: _ => take (length sent - 1) sent | _ => sent end.

(** The tokens of lines that are all readable, from the left. *)
Definition tokens_in (lines : list string) : list string := flat_map (split_char ",") lines.

Lemma split_char_join c a b : split_char c (a +:+ String c b) = (split_char c a ++ split_char c b)%list.
Proof.
  unfold split_char. induction a as [|d a IH]; cbn [String.append split_on]; [by rewrite Ascii.eqb_refl|].
  rewrite IH. destruct (Ascii.eqb c d); [done|]. destruct (split_on (Ascii.eqb c) a) eqn:E; [|done].
  by apply split_on_nonempty in E.
Qed.

Lemma split_char_snoc c line token : str_all (fun d => negb (Ascii.eqb c d)) token = true ->
  split_char c (line +:+ String c token) = (split_char c line ++ [token])%list.
Proof. intros Ht. rewrite split_char_join. f_equal. unfold split_char. by rewrite split_on_piece. Qed.

Lemma split_no_comma token : no_comma token = true -> split_char "," token = [token].
Proof. intros Ht. unfold split_char. by rewrite split_on_piece. Qed.

Lemma tokens_in_app l1 l2 : tokens_in (l1 ++ l2)%list = (tokens_in l1 ++ tokens_in l2)%list.
Proof. apply flat_map_app. Qed.

Lemma tokens_in_join lines : lines <> [] -> split_char "," (join "," lines) = tokens_in lines.
Proof.
  induction lines as [|a [|b lines] IH]; intros Hne; [done|unfold tokens_in; cbn; by rewrite app_nil_r|].
  change (join "," (a :: b :: lines)) with (a +:+ String "," (join "," (b :: lines))).
  rewrite split_char_join, IH by done. done.
Qed.

Section Chain.
(** [HeaderValue::to_str] goes over the bytes of a value, and a comma is
    visible ASCII. *)
Context (readable : string -> bool).
Context (readable_comma : forall a b, readable (a +:+ "," +:+ b) = readable a && readable b).

Definition read_line (line : string) : option string := if readable line then Some line else None.

Lemma tokens_of_read lines : tokens_of (read_line <$> lines) = rev (tokens_in (base.filter (fun l => readable l = true) lines)).
Proof.
  induction lines as [|l lines IH] using rev_ind; [done|]. unfold tokens_of in *.
  rewrite fmap_app, omap_app, rev_app_distr, list.filter_app, tokens_in_app, rev_app_distr, flat_map_app, IH.
  f_equal. cbn [fmap list_fmap]. unfold read_line. destruct (readable l) eqn:E.
  - rewrite filter_cons_True by done. unfold tokens_in. cbn. by rewrite !app_nil_r.
  - by rewrite filter_cons_False by congruence.
Qed.

Lemma readable_join lines : lines <> [] -> readable (join "," lines) = forallb readable lines.
Proof.
  induction lines as [|a [|b lines] IH]; intros Hne; [done|cbn; by rewrite andb_true_r|].
  change (join "," (a :: b :: lines)) with (a +:+ "," +:+ join "," (b :: lines)). by rewrite readable_comma, IH.
Qed.

(** What the proxies made of the client's lines: those left alone, the line
    with the client's token, and lines with hops only. *)
Definition chained (hops_ok : string -> Prop) (client : string) (hops own joined lines : list string) : Prop :=
  exists first rest, lines = (own ++ first :: rest)%list /\
    readable first = forallb readable joined /\
    Forall (fun l => readable l = true) rest /\ Forall hops_ok (tokens_in rest) /\
    exists before, tokens_in (first :: rest) = (before ++ client :: hops)%list.

Definition written (token : string) : Prop := no_comma token = true /\ readable token = true.

Lemma chained_start ok how client sent : written client ->
  chained ok client [] (own_lines [how] sent) (joined_lines [how] sent) (append how client sent).
Proof.
  intros [Hn Hr]. destruct how; cbn [append].
  - exists client, []. repeat split; [by rewrite Hr|constructor|constructor|].
    exists []. unfold tokens_in. cbn. by rewrite (split_no_comma _ Hn).
  - destruct (list.last sent) as [line|] eqn:El.
    + apply last_Some in El as [l' ->]. exists (line +:+ "," +:+ client), []. unfold own_lines, joined_lines.
      rewrite !decide_False by (intros [?|?%elem_of_nil]%elem_of_cons; done).
      rewrite length_app, Nat.add_sub, take_app_length, drop_app_length. cbn.
      repeat split; [by rewrite (readable_comma line client : readable (line +:+ String _ _) = _), Hr, !andb_true_r|constructor|constructor|].
      exists (split_char "," line). unfold tokens_in. cbn. rewrite app_nil_r, (split_char_join "," line), (split_no_comma _ Hn). done.
    + apply last_None in El as ->. exists client, []. repeat split; [by rewrite Hr|constructor|constructor|].
      exists []. unfold tokens_in. cbn. by rewrite (split_no_comma _ Hn).
  - exists (join "," (sent ++ [client])), []. unfold own_lines, joined_lines. rewrite !decide_True by constructor.
    assert (sent ++ [client] <> [])%list as Hne by (by destruct sent). repeat split; [|constructor|constructor|].
    + rewrite readable_join, forallb_app by done. cbn. by rewrite Hr, !andb_true_r.
    + exists (tokens_in sent). unfold tokens_in at 1. cbn. rewrite app_nil_r, tokens_in_join, tokens_in_app by done.
      unfold tokens_in at 2. cbn. by rewrite (split_no_comma _ Hn).
Qed.

Lemma own_joined hows sent : sent = (own_lines hows sent ++ joined_lines hows sent)%list.
Proof.
  unfold own_lines, joined_lines. case_decide; [done|].
  destruct hows as [|[| |] hows]; [by rewrite app_nil_r|by rewrite app_nil_r|by rewrite take_drop|by rewrite app_nil_r].
Qed.

Lemma lines_snoc h hows how sent : how <> OneLine ->
  own_lines (h :: hows ++ [how]) sent = own_lines (h :: hows) sent /\
  joined_lines (h :: hows ++ [how]) sent = joined_lines (h :: hows) sent.
Proof.
  intros Hne. unfold own_lines, joined_lines.
  rewrite !(decide_ext (OneLine ∈ h :: hows ++ [how]) (OneLine ∈ h :: hows)); [done| |];
    rewrite app_comm_cons, elem_of_app, list_elem_of_singleton; naive_solver.
Qed.

Lemma chained_step (ok : string -> Prop) client hops h hows sent lines how token : written token -> ok token ->
  chained ok client hops (own_lines (h :: hows) sent) (joined_lines (h :: hows) sent) lines ->
  chained ok client (hops ++ [token]) (own_lines (h :: hows ++ [how]) sent) (joined_lines (h :: hows ++ [how]) sent)
    (append how token lines).
Proof.
  intros [Hn Hr] Hok (first & rest & -> & Hf & Hall & Hhops & before & Et).
  assert (Eb : forall l, tokens_in (l ++ [token])%list = (tokens_in l ++ [token])%list)
    by (intros l; rewrite tokens_in_app; unfold tokens_in at 2; cbn; by rewrite (split_no_comma _ Hn)).
  destruct how; cbn [append].
  - destruct (lines_snoc h hows OwnLine sent) as [-> ->]; [done|]. exists first, (rest ++ [token])%list.
    repeat split; [by rewrite <- app_assoc|done|by apply Forall_app_2; [|constructor]
                  |rewrite Eb; by apply Forall_app_2; [|constructor]|].
    exists before. rewrite app_comm_cons, Eb, Et. by rewrite <- app_assoc.
  - destruct (lines_snoc h hows SameLine sent) as [-> ->]; [done|]. set (own := own_lines _ _) in *.
    destruct (list.last rest) as [line|] eqn:El.
    + apply last_Some in El as [rest' ->]. rewrite app_comm_cons, app_assoc, last_snoc, length_app, Nat.add_sub, take_app_length.
      exists first, (rest' ++ [line +:+ "," +:+ token])%list. rewrite app_comm_cons in Et.
      assert (Es : forall l, tokens_in (l ++ [line +:+ "," +:+ token])%list = (tokens_in (l ++ [line]) ++ [token])%list).
      { intros l. rewrite !tokens_in_app. unfold tokens_in at 2 4. cbn. rewrite !app_nil_r, (split_char_join "," line), (split_no_comma _ Hn).
        by rewrite app_assoc. }
      apply Forall_app in Hall as [Ha Hl]. rewrite Forall_singleton in Hl.
      repeat split; [by rewrite <- app_assoc|done|apply Forall_app_2; [done|constructor; [by rewrite readable_comma, Hl, Hr|constructor]]
                    |rewrite Es; by apply Forall_app_2; [|constructor]|].
      exists before. rewrite app_comm_cons, Es, Et. by rewrite <- app_assoc.
    + apply last_None in El as ->. rewrite last_snoc, length_app, Nat.add_sub, take_app_length.
      exists (first +:+ "," +:+ token), []. repeat split; [by rewrite readable_comma, Hr, andb_true_r|constructor|constructor|].
      exists before. unfold tokens_in in Et |- *. cbn in Et |- *. rewrite !app_nil_r in *.
      rewrite (split_char_join "," first), (split_no_comma _ Hn), Et. by rewrite <- app_assoc.
  - unfold own_lines at 1, joined_lines at 1. rewrite !decide_True by (rewrite app_comm_cons, elem_of_app; right; constructor).
    set (lines := (own_lines (h :: hows) sent ++ first :: rest)%list) in *.
    assert (lines ++ [token] <> [])%list as Hne by (by destruct lines). exists (join "," (lines ++ [token])), [].
    repeat split; [|constructor|constructor|].
    + rewrite readable_join by done. rewrite (own_joined (h :: hows) sent) at 1. unfold lines. rewrite !forallb_app. cbn.
      rewrite Hf, Hr. assert (forallb readable rest = true) as -> by (clear -Hall; induction Hall as [|l rest El _ IH]; cbn; [done|by rewrite El]).
      by rewrite !andb_true_r.
    + exists (tokens_in (own_lines (h :: hows) sent) ++ before)%list. unfold tokens_in at 1. cbn.
      rewrite app_nil_r, tokens_in_join, Eb by done. unfold lines. rewrite tokens_in_app, Et. by rewrite <- !app_assoc.
Qed.

Lemma chained_through (ok : string -> Prop) proxies : forall client hops h hows sent lines,
  Forall (fun p => written (snd p) /\ ok (snd p)) proxies ->
  chained ok client hops (own_lines (h :: hows) sent) (joined_lines (h :: hows) sent) lines ->
  chained ok client (hops ++ (snd <$> proxies)) (own_lines (h :: hows ++ (fst <$> proxies)) sent)
    (joined_lines (h :: hows ++ (fst <$> proxies)) sent) (through proxies lines).
Proof.
  induction proxies as [|[how token] proxies IH]; intros client hops h hows sent lines Hp Hc; cbn [through].
  - by rewrite !app_nil_r.
  - apply list.Forall_cons in Hp as [[Hw Hok] Hp]. apply (chained_step ok _ _ _ _ _ _ how token Hw Hok), (IH _ _ _ _ _ _ Hp) in Hc.
    revert Hc. cbn [fmap list_fmap fst snd]. by rewrite <- !app_assoc.
Qed.

End Chain.

Lemma parse_ip_nonempty s ip : parse_ip s = Some ip -> is_empty s = false.
Proof. intros E. destruct s; [by vm_compute in E|done]. Qed.

Lemma walk_hops tps hops tokens :
  Forall (fun t => exists ip, parse_ip (normalize_xff_token t) = Some ip /\ is_trusted tps ip = true) hops ->
  walk_tokens tps (hops ++ tokens)%list = walk_tokens tps tokens.
Proof.
  induction 1 as [|t hops (ip & Hp & Hip) _ IH]; cbn; [done|].
  by rewrite (parse_ip_nonempty _ _ Hp), Hp, Hip.
Qed.

(** C40. A client cannot choose the address it is keyed by, as far as the proxies
    keep their tokens apart from its bytes.  The client sends any header lines,
    the first proxy adds the client's address and the others add trusted hops,
    each on a line of its own, at the end of the last line or with all lines
    joined into one.  When the connection does not come from a trusted proxy
    the header is not looked at.  When it does, the client's address is found
    if every line of the client's that a proxy joined with a token is readable,
    whatever its other lines are.  If one of them is not, that line drops out
    with the client's address in it, and the walk goes on over the lines the
    client sent above: the client is keyed by an address of its own choice, or
    by the peer's where the walk finds none. *)
Theorem client_behind_proxies readable how client proxies sent peer tps ip :
  (forall a b, readable (a +:+ "," +:+ b) = readable a && readable b) ->
  written readable client -> parse_ip (normalize_xff_token client) = Some ip -> is_trusted tps ip = false ->
  Forall (fun p => written readable (snd p) /\
    exists hop, parse_ip (normalize_xff_token (snd p)) = Some hop /\ is_trusted tps hop = true) proxies ->
  let hows := how :: (fst <$> proxies) in
  resolve_client_ip_addr (read_line readable <$> through ((how, client) :: proxies) sent) (Some peer) tps =
  Some (if is_trusted tps peer
        then if forallb readable (joined_lines hows sent) then ip
             else default peer (rightmost_untrusted_xff_token (read_line readable <$> own_lines hows sent) tps)
        else peer).
Proof.
  intros Hcomma Hw Hip Hu Hh hows. unfold resolve_client_ip_addr. destruct (is_trusted tps peer); [|done].
  pose proof (chained_start readable Hcomma (fun t => exists hop, parse_ip (normalize_xff_token t) = Some hop /\ is_trusted tps hop = true)
    how client sent Hw) as Hc.
  apply (chained_through readable Hcomma _ proxies _ _ how [] _ _ Hh) in Hc.
  destruct Hc as (first & rest & E & Hf & Hrest & Hhops & before & Et). cbn [app through] in *. fold hows in E, Hf.
  rewrite E. unfold rightmost_untrusted_xff_token. fold (tokens_of (read_line readable <$> (own_lines hows sent ++ first :: rest)%list)).
  fold (tokens_of (read_line readable <$> own_lines hows sent)).
  rewrite !tokens_of_read, list.filter_app, tokens_in_app, rev_app_distr.
  assert (Efr : base.filter (fun l => readable l = true) rest = rest) by (clear -Hrest; induction Hrest as [|l rest El _ IH]; [done|by rewrite filter_cons_True, IH]).
  destruct (forallb readable (joined_lines hows sent)).
  - rewrite filter_cons_True, Efr, Et, rev_app_distr by done. cbn [rev]. rewrite <- !app_assoc, walk_hops.
    + cbn. by rewrite (parse_ip_nonempty _ _ Hip), Hip, Hu.
    + apply Forall_rev, Forall_fmap. eapply list.Forall_impl; [exact Hh|]. by intros p [_ ?].
  - rewrite filter_cons_False, Efr by congruence. rewrite walk_hops by (by apply Forall_rev). by destruct (walk_tokens _ _).
Qed.

Definition sample_proxies : list CidrRange := parse_cidr_list_env (Some "172.30.0.0/24, bogus, 2001:db8::/32").

(** Visible ASCII and the tab. *)
Definition to_str_reads (s : string) : bool := str_all (fun c => in_range 32 126 c || (byte_val c =? 9)) s.

Lemma to_str_comma a b : to_str_reads (a +:+ "," +:+ b) = to_str_reads a && to_str_reads b.
Proof. unfold to_str_reads. induction a as [|c a IH]; cbn in *; [done|]. by rewrite IH, andb_assoc. Qed.

Definition bad_line : string := String (ascii_of_nat 255) "".

(** A client that ends its lines with one the server cannot read, behind a
    proxy that writes on the last line, is keyed by the address above it; one
    behind a proxy that joins all lines shares the proxy's key. *)
Example unreadable_line_hides_client :
  resolve_client_ip_addr (read_line to_str_reads <$> through [(SameLine, "203.0.113.7")] ["6.6.6.6"; bad_line])
    (parse_ip "172.30.0.4") (parse_cidr_list_env (Some "172.30.0.0/24")) = parse_ip "6.6.6.6" /\
  resolve_client_ip_addr (read_line to_str_reads <$> through [(OneLine, "203.0.113.7")] ["6.6.6.6"; bad_line])
    (parse_ip "172.30.0.4") (parse_cidr_list_env (Some "172.30.0.0/24")) = parse_ip "172.30.0.4" /\
  resolve_client_ip_addr (read_line to_str_reads <$> through [(OwnLine, "203.0.113.7")] ["6.6.6.6"; bad_line])
    (parse_ip "172.30.0.4") (parse_cidr_list_env (Some "172.30.0.0/24")) = parse_ip "203.0.113.7".
Proof. vm_compute. done. Qed.

Lemma client_behind_proxies_witness :
  resolve_client_ip_addr (read_line to_str_reads <$>
      through [(SameLine, " 203.0.113.7:5555"); (OwnLine, "[2001:db8::1]:443")] ["8.8.8.8, 172.30.0.9"; bad_line; "1.2.3.4"])
    (parse_ip "172.30.0.4") sample_proxies = parse_ip "203.0.113.7".
Proof.
  change (parse_ip "172.30.0.4") with (Some (V4 2887647236)).
  rewrite (client_behind_proxies to_str_reads SameLine " 203.0.113.7:5555" [(OwnLine, "[2001:db8::1]:443")] _
    (V4 2887647236) sample_proxies (V4 3405803783)); [vm_compute; reflexivity|exact to_str_comma| | | |].
  - split; reflexivity.
  - reflexivity.
  - reflexivity.
  - constructor; [|constructor]. split; [split; reflexivity|]. exists (V6 (0x20010db8 * 2 ^ 96 + 1)). split; reflexivity.
Defined.
