(* ===== verification/RateLimit.v ===== *)
(** The rate limiter ([api/middleware/rate_limit.rs]).

    One limiter is a table from keys to a count and the start of a window,
    read and written under a mutex, so an operation is one step at the instant
    it reads from the clock.  On top of it are the middlewares: the general
    one, the one keyed by address only, the login limiter with its backstop,
    its failure budget and its audit throttle, and the choice of the token
    requests that are limited. *)

From stdpp Require Import base list strings pretty gmap.
From Stdlib Require Import ZArith Lia Ascii.
From S2P Require Import Prelude RustStr RustNum Chrono ClientIp.

Local Open Scope string_scope.
Local Open Scope Z_scope.

(** * The limiter *)

Definition U32_MAX : Z := 2 ^ 32 - 1.
Definition saturating_sub (a b : Z) : Z := Z.max 0 (a - b).
Definition saturating_add_u32 (a b : Z) : Z := Z.min U32_MAX (a + b).

(** [Instant]s and [Duration]s are nanoseconds. *)
Notation Instant := Z.
Definition duration_since (now earlier : Instant) : Z := saturating_sub now earlier.
Definition as_secs (d : Z) : Z := d / NANOS_PER_SEC.

Record RateLimiter := { max_requests : Z; window : Z }.
Notation Requests := (gmap string (Z * Instant)).

Definition rate_limiter_new (max_requests window_secs : Z) : RateLimiter :=
  {| max_requests := max_requests; window := window_secs * NANOS_PER_SEC |}.

(** [Ok remaining] or [Err retry_after], and the table. *)
Definition check_rate_limit (l : RateLimiter) (now : Instant) (key : string) (t : Requests)
  : result Z Z * Requests :=
  let entry := default (0, now) (t !! key) in
  if window l <=? duration_since now (snd entry)
  then (Ok (saturating_sub (max_requests l) 1), <[key := (1, now)]> t)
  else if max_requests l <=? fst entry
  then (Err (Z.max (as_u64 (as_secs (window l) - as_secs (duration_since now (snd entry)))) 1), <[key := entry]> t)
  else (Ok (saturating_sub (max_requests l) (as_u32 (fst entry + 1))), <[key := (as_u32 (fst entry + 1), snd entry)]> t).

Definition peek_rate_limit (l : RateLimiter) (now : Instant) (key : string) (t : Requests) : result Z Z :=
  match t !! key with
  | None => Ok (max_requests l)
  | Some (count, window_start) =>
      if window l <=? duration_since now window_start then Ok (max_requests l)
      else if max_requests l <=? count
      then Err (Z.max (as_u64 (as_secs (window l) - as_secs (duration_since now window_start))) 1)
      else Ok (as_u32 (max_requests l - count))
  end.

Definition record_attempt (l : RateLimiter) (now : Instant) (key : string) (t : Requests) : Requests :=
  let entry := default (0, now) (t !! key) in
  if window l <=? duration_since now (snd entry) then <[key := (1, now)]> t
  else <[key := (saturating_add_u32 (fst entry) 1, snd entry)]> t.

Definition refund_attempt (l : RateLimiter) (now : Instant) (key : string) (t : Requests) : Requests :=
  match t !! key with
  | Some entry =>
      if duration_since now (snd entry) <? window l
      then <[key := (saturating_sub (fst entry) 1, snd entry)]> t
      else t
  | None => t
  end.

Definition cleanup_expired (l : RateLimiter) (now : Instant) (t : Requests) : Requests :=
  filter (fun kv => duration_since now (snd (snd kv)) < window l) t.

(** * Exemptions *)

Record AuthExtension := { auth_user_id : Uuid; username : string; is_service_account : bool }.

Record RateLimitExemptions := {
  usernames : list string;
  exempt_service_accounts : bool;
  trusted_cidrs : list CidrRange
}.

Definition is_exempt (e : RateLimitExemptions) (auth : AuthExtension) : bool :=
  if bool_decide (username auth ∈ usernames e) then true
  else exempt_service_accounts e && is_service_account auth.

Definition is_trusted_cidr (e : RateLimitExemptions) (ip : IpAddr) : bool := is_trusted (trusted_cidrs e) ip.

(** What the limiters read of a request. *)
Record Request := {
  auth_ext : option AuthExtension;
  peer : option IpAddr;
  x_forwarded_for : XffLines;
  authorization : option string;
  content_type : option string
}.

Definition check_rate_limit_exemptions (e : RateLimitExemptions) (auth : option AuthExtension) (r : Request)
  (trusted_proxies : list CidrRange) : option string :=
  if match auth with Some a => is_exempt e a | None => false end then Some "true"
  else
    match trusted_cidrs e, resolve_client_ip_addr (x_forwarded_for r) (peer r) trusted_proxies with
    | [], _ => None
    | _ :: _, Some ip => if is_trusted_cidr e ip then Some "trusted-cidr" else None
    | _ :: _, None => None
    end.

(** * Responses *)

Record Response := { response_status : Z; response_headers : gmap string string }.

Definition tag_exempt (response : Response) (tag : string) : Response :=
  {| response_status := response_status response;
     response_headers := <["x-ratelimit-exempt" := tag]> (response_headers response) |}.

Definition inner_limiter_refused (response : Response) : bool :=
  (response_status response =? 429) && bool_decide (is_Some (response_headers response !! "x-ratelimit-limit")).

Definition tag_allowed (response : Response) (max_requests remaining : Z) : Response :=
  if inner_limiter_refused response then response
  else
    {| response_status := response_status response;
       response_headers := <["x-ratelimit-remaining" := pretty remaining]>
         (<["x-ratelimit-limit" := pretty max_requests]> (response_headers response)) |}.

(** The content type is the one axum gives a text body. *)
Definition too_many_requests (retry_after : Z) (l : RateLimiter) : Response :=
  {| response_status := 429;
     response_headers := <["x-ratelimit-remaining" := "0"]>
       (<["x-ratelimit-limit" := pretty (max_requests l)]>
         (<["retry-after" := pretty retry_after]> {["content-type" := "text/plain; charset=utf-8"]})) |}.

(** * The general middlewares *)

Record RateLimitState := {
  limiter : RateLimiter;
  exemptions : RateLimitExemptions;
  enabled : bool;
  trusted_proxies : list CidrRange
}.

(** The rest of the router: the response to the request, with the state the
    handlers and the limiters inside change. *)
Notation Next W := (W -> Response * W).

Section Middlewares.
Context {W : Type}.

(** Both middlewares, which differ in the key only. *)
Definition run_limited (st : RateLimitState) (now : Instant) (key : string) (next : Next W) (t : Requests) (w : W)
  : Response * Requests * W :=
  match check_rate_limit (limiter st) now key t with
  | (Ok remaining, t) =>
      let '(response, w) := next w in (tag_allowed response (max_requests (limiter st)) remaining, t, w)
  | (Err retry_after, t) => (too_many_requests retry_after (limiter st), t, w)
  end.

Definition limited_unless_exempt (st : RateLimitState) (now : Instant) (r : Request)
  (key : string) (next : Next W) (t : Requests) (w : W) : Response * Requests * W :=
  if negb (enabled st) then let '(response, w) := next w in (response, t, w)
  else
    match check_rate_limit_exemptions (exemptions st) (auth_ext r) r (trusted_proxies st) with
    | Some tag => let '(response, w) := next w in (tag_exempt response tag, t, w)
    | None => run_limited st now key next t w
    end.

Definition request_key `{UuidCrate} (st : RateLimitState) (r : Request) : string :=
  match auth_ext r with
  | Some auth => "user:" +:+ uuid_display (auth_user_id auth)
  | None => extract_client_ip (x_forwarded_for r) (peer r) (trusted_proxies st)
  end.

Definition rate_limit_middleware `{UuidCrate} (st : RateLimitState) (now : Instant) (r : Request) (next : Next W)
  (t : Requests) (w : W) : Response * Requests * W :=
  limited_unless_exempt st now r (request_key st r) next t w.

Definition rate_limit_by_ip_middleware (st : RateLimitState) (now : Instant) (r : Request) (next : Next W)
  (t : Requests) (w : W) : Response * Requests * W :=
  limited_unless_exempt st now r (extract_client_ip (x_forwarded_for r) (peer r) (trusted_proxies st)) next t w.

End Middlewares.

(** * The audit throttle of refused logins *)

Inductive LoginLimiter := PerAccount | GlobalBackstop.

#[global] Instance LoginLimiter_eq_dec : EqDecision LoginLimiter.
Proof. solve_decision. Defined.
#[global] Instance LoginLimiter_countable : Countable LoginLimiter.
Proof.
  apply (inj_countable' (fun l => match l with PerAccount => true | GlobalBackstop => false end)
    (fun b : bool => if b then PerAccount else GlobalBackstop)).
  by intros [].
Defined.

Definition login_limiter_str (l : LoginLimiter) : string :=
  match l with PerAccount => "login_per_account" | GlobalBackstop => "login_global_backstop" end.

Definition LOGIN_AUDIT_MAX_TRACKED : nat := 10000.
Notation Seen := (gmap (LoginLimiter * string) Instant).

Definition audit_key (l : LoginLimiter) (source : string) : LoginLimiter * string :=
  (l, match l with PerAccount => source | GlobalBackstop => "*" end).

Definition login_audit_should_record (seen : Seen) (l : LoginLimiter) (source : string) (window now : Z)
  : bool * Seen :=
  let key := audit_key l source in
  if match seen !! key with Some last => duration_since now last <? window | None => false end then (false, seen)
  else
    let full m := bool_decide (LOGIN_AUDIT_MAX_TRACKED <= size m)%nat in
    if bool_decide (seen !! key = None) && full seen then
      let seen := filter (fun kv => duration_since now (snd kv) < window) seen in
      if full seen then (false, seen) else (true, <[key := now]> seen)
    else (true, <[key := now]> seen).

(** * The login limiter *)

Definition login_rate_limit_key (username client_ip : string) : string := "login:" +:+ username +:+ "|" +:+ client_ip.
Definition login_failed_ip_key (client_ip : string) : string := "login-failed:" +:+ client_ip.

(** The four tables of [LoginRateLimitState]; the audit table may be absent. *)
Record LoginTables := {
  per_account : Requests;
  backstop_table : Requests;
  failed_table : Requests;
  audited : option Seen
}.

Record LoginRateLimitState := {
  inner : RateLimitState;
  backstop : RateLimiter;
  failed_by_ip : RateLimiter
}.

(** [record_refused_login]: whether an audit row is written. *)
Definition record_refused_login (l : LoginLimiter) (window now : Z) (client_ip : string) (a : option Seen)
  : bool * option Seen :=
  match a with
  | None => (false, None)
  | Some seen => let '(b, seen) := login_audit_should_record seen l client_ip window now in (b, Some seen)
  end.

Section Login.
Context {W : Type}.

(** The handler is given the budget of the timing pad; [answered] is the
    instant it answers at.  The result says too whether an audit row is
    written. *)
Definition run_login_with_key (st : LoginRateLimitState) (now answered : Instant) (key client_ip : string)
  (next : bool -> Next W) (t : LoginTables) (w : W) : Response * bool * LoginTables * W :=
  let refuse (which : LoginLimiter) (l : RateLimiter) (retry_after : Z) (t : LoginTables) :=
    let '(row, seen) := record_refused_login which (window l) now client_ip (audited t) in
    (too_many_requests retry_after l, row,
     {| per_account := per_account t; backstop_table := backstop_table t; failed_table := failed_table t;
        audited := seen |}, w) in
  let '(global, bt) := check_rate_limit (backstop st) now "login:global" (backstop_table t) in
  let t := {| per_account := per_account t; backstop_table := bt; failed_table := failed_table t;
              audited := audited t |} in
  match global with
  | Err retry_after => refuse GlobalBackstop (backstop st) retry_after t
  | Ok _ =>
      let failed_key := login_failed_ip_key client_ip in
      let budget_enabled := 0 <? max_requests (failed_by_ip st) in
      let within_budget := negb budget_enabled ||
        is_ok (peek_rate_limit (failed_by_ip st) now failed_key (failed_table t)) in
      let '(answer, pt) := check_rate_limit (limiter (inner st)) now key (per_account t) in
      let t := {| per_account := pt; backstop_table := backstop_table t; failed_table := failed_table t;
                  audited := audited t |} in
      match answer with
      | Ok remaining =>
          let '(response, w) := next within_budget w in
          let failed := if budget_enabled && (response_status response =? 401)
                        then record_attempt (failed_by_ip st) answered failed_key (failed_table t)
                        else failed_table t in
          (tag_allowed response (max_requests (limiter (inner st))) remaining, false,
           {| per_account := per_account t; backstop_table := backstop_table t; failed_table := failed;
              audited := audited t |}, w)
      | Err retry_after => refuse PerAccount (limiter (inner st)) retry_after t
      end
  end.

(** [from_slice] is the JSON parser.  A body over the limit is replaced by an
    empty one. *)
Definition LOGIN_BODY_PEEK_LIMIT : nat := 64 * 1024.

Definition login_key (username : option string) (client_ip : string) : string :=
  match username with Some u => login_rate_limit_key u client_ip | None => client_ip end.

Definition login_rate_limit_middleware (from_slice : string -> option Json) (st : LoginRateLimitState)
  (now answered : Instant) (r : Request) (body : string) (next : string -> option bool -> Next W)
  (t : LoginTables) (w : W) : Response * bool * LoginTables * W :=
  if negb (enabled (inner st)) then let '(response, w) := next body None w in (response, false, t, w)
  else
    match check_rate_limit_exemptions (exemptions (inner st)) (auth_ext r) r (trusted_proxies (inner st)) with
    | Some tag => let '(response, w) := next body None w in (tag_exempt response tag, false, t, w)
    | None =>
        let client_ip := extract_client_ip (x_forwarded_for r) (peer r) (trusted_proxies (inner st)) in
        if (LOGIN_BODY_PEEK_LIMIT <? String.length body)%nat
        then run_login_with_key st now answered client_ip client_ip (fun b => next "" (Some b)) t w
        else
          let username := v ← from_slice body; u ← json_get "username" v; json_as_str u in
          run_login_with_key st now answered (login_key username client_ip) client_ip
            (fun b => next body (Some b)) t w
    end.

End Login.

(** ** Which token requests are limited *)

(** [base64] decoding, and the pairs of an [application/x-www-form-urlencoded]
    body. *)
Class TokenCodecs := {
  base64_decode : string -> option string;
  form_pairs : string -> list (string * string)
}.

(** A field of a derived [Deserialize]: absent, present, or an error when the
    key is repeated. *)
Definition form_field (name : string) (pairs : list (string * string)) : option (option string) :=
  match base.filter (fun p => fst p = name) pairs with
  | [] => Some None
  | [p] => Some (Some (snd p))
  | _ => None
  end.

Record TokenFormPeek := { peek_grant_type : option string; peek_username : option string }.

Definition peek_form `{TokenCodecs} (body : string) : option TokenFormPeek :=
  let pairs := form_pairs body in
  g ← form_field "grant_type" pairs;
  u ← form_field "username" pairs;
  Some {| peek_grant_type := g; peek_username := u |}.

Definition TOKEN_FORM_PEEK_LIMIT : nat := 16 * 1024.

Definition basic_auth_username `{TokenCodecs} (authorization : string) : option string :=
  b64 ← (match strip_prefix "Basic " authorization with
         | Some b => Some b
         | None => strip_prefix "basic " authorization
         end);
  bytes ← base64_decode b64;
  if valid_utf8 bytes then
    '(user, _) ← split_once (Ascii.eqb ":") bytes;
    if is_empty user then None else Some user
  else None.

(** What becomes of a token request: it passes, it is limited under a key, or
    its form is too large. *)
Inductive TokenRoute := Passes | Limited (key : string) (username : option string) | FormTooLarge.

Definition token_key (username : option string) (client_ip : string) : TokenRoute :=
  Limited (login_key username client_ip) username.

Definition FORM_CONTENT_TYPE : string := "application/x-www-form-urlencoded".

Definition is_form (r : Request) : bool :=
  match content_type r with Some ct => starts_with FORM_CONTENT_TYPE ct | None => false end.

Definition token_route `{TokenCodecs} (r : Request) (client_ip : string) (body : string) : TokenRoute :=
  let form_route :=
    if negb (is_form r) then Passes
    else if (TOKEN_FORM_PEEK_LIMIT <? String.length body)%nat then FormTooLarge
    else
      let peek := peek_form body in
      if match peek with Some f => bool_decide (peek_grant_type f = Some "refresh_token") | None => false end then Passes
      else
        token_key (f ← peek; u ← peek_username f; if is_empty u then None else Some u) client_ip in
  match authorization r with
  | Some a =>
      if starts_with "Bearer " a || starts_with "bearer " a then Passes
      else if starts_with "Basic " a || starts_with "basic " a then token_key (basic_auth_username a) client_ip
      else form_route
  | None => form_route
  end.

(** The whole middleware. *)
Definition token_rate_limit_middleware `{TokenCodecs} {W} (st : LoginRateLimitState) (now answered : Instant)
  (r : Request) (body : string) (next : option bool -> Next W) (t : LoginTables) (w : W)
  : Response * bool * LoginTables * W :=
  let pass (tag : option string) :=
    let '(response, w) := next None w in
    (match tag with Some tag => tag_exempt response tag | None => response end, false, t, w) in
  if negb (enabled (inner st)) then pass None
  else
    match check_rate_limit_exemptions (exemptions (inner st)) (auth_ext r) r (trusted_proxies (inner st)) with
    | Some tag => pass (Some tag)
    | None =>
        let client_ip := extract_client_ip (x_forwarded_for r) (peer r) (trusted_proxies (inner st)) in
        match token_route r client_ip body with
        | Passes => pass None
        | Limited key _ => run_login_with_key st now answered key client_ip (fun b => next (Some b)) t w
        | FormTooLarge => ({| response_status := 413; response_headers := {["content-type" := "text/plain; charset=utf-8"]} |}, false, t, w)
        end
    end.

(** ** The passwords the token handler tests ([api/handlers/oci_v2.rs]) *)

Record TokenForm := {
  grant_type : option string;
  form_username : option string;
  password : option string;
  refresh_token : option string;
  access_type : option string
}.

Definition read_form `{TokenCodecs} (body : string) : option TokenForm :=
  let pairs := form_pairs body in
  g ← form_field "grant_type" pairs;
  u ← form_field "username" pairs;
  p ← form_field "password" pairs;
  r ← form_field "refresh_token" pairs;
  a ← form_field "access_type" pairs;
  Some {| grant_type := g; form_username := u; password := p; refresh_token := r; access_type := a |}.

Definition extract_basic_credentials `{TokenCodecs} (r : Request) : option (string * string) :=
  v ← authorization r;
  b64 ← (match strip_prefix "Basic " v with Some b => Some b | None => strip_prefix "basic " v end);
  bytes ← base64_decode b64;
  if valid_utf8 bytes then split_once (Ascii.eqb ":") bytes else None.

Definition extract_form_credentials `{TokenCodecs} (r : Request) (body : string) : option (string * string) :=
  if is_empty body then None
  else if negb (is_form r) then None
  else
    form ← read_form body;
    if match grant_type form with Some gt => negb (String.eqb gt "password") | None => false end then None
    else
      username ← form_username form;
      password ← password form;
      if is_empty username || is_empty password then None else Some (username, password).

Definition parse_oauth2_form `{TokenCodecs} (r : Request) (body : string) : option TokenForm :=
  if is_empty body then None else if negb (is_form r) then None else read_form body.

(** The user name and password the handler goes on to verify, if any. *)
Definition token_credentials `{TokenCodecs} (r : Request) (body : string) : option (string * string) :=
  if match parse_oauth2_form r body with
     | Some f => bool_decide (grant_type f = Some "refresh_token")
     | None => false
     end then None
  else
    match extract_basic_credentials r with
    | Some c => Some c
    | None => extract_form_credentials r body
    end.

Example limit_1 :
  let l := rate_limiter_new 2 60 in
  let '(a1, t) := check_rate_limit l 0 "k" ∅ in
  let '(a2, t) := check_rate_limit l 5 "k" t in
  let '(a3, t) := check_rate_limit l (30 * NANOS_PER_SEC + 1) "k" t in
  let '(a4, t) := check_rate_limit l (60 * NANOS_PER_SEC) "k" t in
  (a1, a2, a3, a4) = (Ok 1, Ok 0, Err 30, Ok 1).
Proof. vm_compute. reflexivity. Qed.
