(* ===== verification/RateLimitFacts.v ===== *)
(** What the rate limiter guarantees ([RateLimit]): the budget of a window and
    its fairness, the promise of Retry-After, that the clean-up task is
    invisible, that logins of different users or addresses do not influence
    each other, the bounds of the audit throttle, and which passwords the
    token endpoint tests without a limit. *)

From stdpp Require Import base list strings pretty gmap.
From Stdlib Require Import ZArith Lia ZifyBool Ascii.
From S2P Require Import Prelude RustStr RustNum Chrono ClientIp RateLimit.

Local Open Scope string_scope.
Local Open Scope Z_scope.

(** * One operation *)

(** A limiter of a positive budget and window; the budget is a [u32]. *)
Record limiter_ok (l : RateLimiter) : Prop := {
  lim_max : 0 < max_requests l <= U32_MAX;
  lim_window : 0 < window l < 2 ^ 64 * NANOS_PER_SEC
}.

Definition entries_ok (t : Requests) : Prop := forall k c s, t !! k = Some (c, s) -> 0 <= c <= U32_MAX.

(** The entry of a key while its window lasts. *)
Definition live (l : RateLimiter) (now : Instant) (e : option (Z * Instant)) : option (Z * Instant) :=
  match e with
  | Some (c, s) => if window l <=? duration_since now s then None else Some (c, s)
  | None => None
  end.

Definition retry_after (l : RateLimiter) (now start : Instant) : Z :=
  Z.max (as_secs (window l) - as_secs (duration_since now start)) 1.

Lemma live_Some l now e c s : live l now e = Some (c, s) -> e = Some (c, s) /\ duration_since now s < window l.
Proof. destruct e as [[? ?]|]; cbn; [|done]. case_match eqn:E; [done|]. apply Z.leb_gt in E. by intros [= -> ->]. Qed.

Lemma duration_nonneg now s : 0 <= duration_since now s.
Proof. unfold duration_since, saturating_sub. lia. Qed.

Lemma saturating_sub_le a b : b <= a -> saturating_sub a b = a - b.
Proof. unfold saturating_sub. lia. Qed.

Lemma retry_as_u64 l now s : limiter_ok l -> duration_since now s < window l ->
  as_u64 (as_secs (window l) - as_secs (duration_since now s)) = as_secs (window l) - as_secs (duration_since now s).
Proof.
  intros [_ Hw] Hd. apply as_u64_id. pose proof (duration_nonneg now s) as H0.
  unfold as_secs. change NANOS_PER_SEC with 1000000000 in *.
  assert (duration_since now s / 1000000000 <= window l / 1000000000) by (apply Z.div_le_mono; lia).
  assert (0 <= duration_since now s / 1000000000) by (apply Z.div_pos; lia).
  assert (window l / 1000000000 < 2 ^ 64) by (apply Z.div_lt_upper_bound; lia). lia.
Qed.

Section Operations.
Context (l : RateLimiter) (Hl : limiter_ok l).

Lemma check_spec now key t : entries_ok t ->
  check_rate_limit l now key t =
  match live l now (t !! key) with
  | None => (Ok (max_requests l - 1), <[key := (1, now)]> t)
  | Some (c, s) =>
      if max_requests l <=? c then (Err (retry_after l now s), t)
      else (Ok (max_requests l - (c + 1)), <[key := (c + 1, s)]> t)
  end.
Proof.
  intros Ht. destruct Hl as [Hm Hw]. unfold check_rate_limit, live, retry_after.
  destruct (t !! key) as [[c s]|] eqn:E; cbn [default id fst snd].
  - destruct (Z.leb_spec (window l) (duration_since now s)); [by rewrite (saturating_sub_le (max_requests l)) by lia|]. apply Ht in E as Hc.
    destruct (Z.leb_spec (max_requests l) c); [rewrite retry_as_u64 by done; by rewrite insert_id|].
    unfold as_u32. rewrite Z.mod_small by (unfold U32_MAX in *; lia). by rewrite (saturating_sub_le (max_requests l)) by lia.
  - assert (duration_since now now = 0) as E0 by (unfold duration_since, saturating_sub; lia).
    rewrite E0. rewrite (proj2 (Z.leb_gt _ _)) by lia. rewrite (proj2 (Z.leb_gt _ _)) by lia.
    change (as_u32 (0 + 1)) with 1. by rewrite (saturating_sub_le (max_requests l)) by lia.
Qed.

Lemma peek_spec now key t : entries_ok t ->
  peek_rate_limit l now key t =
  match live l now (t !! key) with
  | None => Ok (max_requests l)
  | Some (c, s) => if max_requests l <=? c then Err (retry_after l now s) else Ok (max_requests l - c)
  end.
Proof.
  intros Ht. destruct Hl as [Hm Hw]. unfold peek_rate_limit, live, retry_after.
  destruct (t !! key) as [[c s]|] eqn:E; [|done].
  destruct (Z.leb_spec (window l) (duration_since now s)); [done|]. apply Ht in E as Hc.
  destruct (Z.leb_spec (max_requests l) c); [by rewrite retry_as_u64|].
  unfold as_u32. rewrite Z.mod_small by (unfold U32_MAX in *; lia). done.
Qed.

Lemma record_spec now key t :
  record_attempt l now key t =
  match live l now (t !! key) with
  | None => <[key := (1, now)]> t
  | Some (c, s) => <[key := (saturating_add_u32 c 1, s)]> t
  end.
Proof.
  destruct Hl as [Hm Hw]. unfold record_attempt, live. destruct (t !! key) as [[c s]|] eqn:E; cbn [default id fst snd]; [by case_match|].
  assert (duration_since now now = 0) as E0 by (unfold duration_since, saturating_sub; lia).
  rewrite E0, (proj2 (Z.leb_gt _ _)) by lia. done.
Qed.

Lemma refund_spec now key t :
  refund_attempt l now key t =
  match live l now (t !! key) with None => t | Some (c, s) => <[key := (saturating_sub c 1, s)]> t end.
Proof.
  unfold refund_attempt, live. destruct (t !! key) as [[c s]|]; [|done]. cbn [fst snd].
  destruct (Z.ltb_spec (duration_since now s) (window l)); destruct (Z.leb_spec (window l) (duration_since now s)); done || lia.
Qed.

Lemma cleanup_lookup now t key : cleanup_expired l now t !! key = live l now (t !! key).
Proof.
  unfold cleanup_expired, live. destruct (t !! key) as [[c s]|] eqn:E.
  - destruct (Z.leb_spec (window l) (duration_since now s)).
    + apply map_lookup_filter_None_2. right. intros e Ee. rewrite E in Ee. injection Ee as <-. cbn. lia.
    + apply map_lookup_filter_Some_2; [done|cbn; lia].
  - by apply map_lookup_filter_None_2; left.
Qed.

Lemma entries_ok_insert key c s t : 0 <= c <= U32_MAX -> entries_ok t -> entries_ok (<[key := (c, s)]> t).
Proof. intros Hc Ht k c' s' [[-> [= -> ->]]|[_ Hk]]%lookup_insert_Some; [done|by eapply Ht]. Qed.

Lemma check_entries_ok now key t : entries_ok t -> entries_ok (snd (check_rate_limit l now key t)).
Proof.
  intros Ht. rewrite check_spec by done. destruct Hl as [Hm _].
  destruct (live l now (t !! key)) as [[c s]|] eqn:E; [|by apply entries_ok_insert; [unfold U32_MAX; lia|]].
  case_match eqn:Ec; [done|]. apply Z.leb_gt in Ec. apply live_Some in E as [E _]. apply Ht in E.
  apply entries_ok_insert; [lia|done].
Qed.

Lemma record_entries_ok now key t : entries_ok t -> entries_ok (record_attempt l now key t).
Proof.
  intros Ht. rewrite record_spec. destruct (live l now (t !! key)) as [[c s]|] eqn:E.
  - apply live_Some in E as [E _]. apply Ht in E. apply entries_ok_insert; [unfold saturating_add_u32, U32_MAX in *; lia|done].
  - by apply entries_ok_insert; [unfold U32_MAX; lia|].
Qed.

Lemma refund_entries_ok now key t : entries_ok t -> entries_ok (refund_attempt l now key t).
Proof.
  intros Ht. rewrite refund_spec. destruct (live l now (t !! key)) as [[c s]|] eqn:E; [|done].
  apply live_Some in E as [E _]. apply Ht in E. apply entries_ok_insert; [unfold saturating_sub; lia|done].
Qed.

Lemma cleanup_entries_ok now t : entries_ok t -> entries_ok (cleanup_expired l now t).
Proof. intros Ht k c s E. rewrite cleanup_lookup in E. apply live_Some in E as [E _]. by eapply Ht. Qed.

Lemma check_other now key t k : k <> key -> snd (check_rate_limit l now key t) !! k = t !! k.
Proof.
  intros Hk. unfold check_rate_limit. repeat case_match; cbn; by rewrite lookup_insert_ne by done.
Qed.

End Operations.

(** * Runs of one limiter *)

Inductive Op := Check_ (key : string) | Peek (key : string) | Record_ (key : string) | Refund (key : string) | Cleanup.

Definition run_op (l : RateLimiter) (now : Instant) (op : Op) (t : Requests) : option (result Z Z) * Requests :=
  match op with
  | Check_ key => let '(a, t) := check_rate_limit l now key t in (Some a, t)
  | Peek key => (Some (peek_rate_limit l now key t), t)
  | Record_ key => (None, record_attempt l now key t)
  | Refund key => (None, refund_attempt l now key t)
  | Cleanup => (None, cleanup_expired l now t)
  end.

Fixpoint answers (l : RateLimiter) (ops : list (Instant * Op)) (t : Requests) : list (option (result Z Z)) :=
  match ops with
  | [] => []
  | (now, op) :: ops => let '(a, t) := run_op l now op t in a :: answers l ops t
  end.

Fixpoint table_after (l : RateLimiter) (ops : list (Instant * Op)) (t : Requests) : Requests :=
  match ops with
  | [] => t
  | (now, op) :: ops => table_after l ops (snd (run_op l now op t))
  end.

(** The instants at which checks of a key were admitted. *)
Definition admits (key : string) (now : Instant) (op : Op) (a : option (result Z Z)) : list Instant :=
  match op, a with
  | Check_ k, Some (Ok _) => if String.eqb k key then [now] else []
  | _, _ => []
  end.

Fixpoint admitted (l : RateLimiter) (key : string) (ops : list (Instant * Op)) (t : Requests) : list Instant :=
  match ops with
  | [] => []
  | (now, op) :: ops =>
      let '(a, t) := run_op l now op t in (admits key now op a ++ admitted l key ops t)%list
  end.

(** The clock is monotone. *)
Fixpoint later (t0 : Instant) (ops : list (Instant * Op)) : Prop :=
  match ops with
  | [] => True
  | (now, _) :: ops => t0 <= now /\ later now ops
  end.

(** The instant of the last operation. *)
Fixpoint last_time (t0 : Instant) (ops : list (Instant * Op)) : Instant :=
  match ops with
  | [] => t0
  | (now, _) :: ops => last_time now ops
  end.

#[global] Instance Op_eq_dec : EqDecision Op.
Proof. solve_decision. Defined.

(** The instants of an operation. *)
Definition times_of (which : Op) (ops : list (Instant * Op)) : list Instant :=
  fst <$> base.filter (fun o => snd o = which) ops.

(** Operations that change the budget of [key] only through checks. *)
Definition checks_only (key : string) (op : Op) : Prop := op <> Record_ key /\ op <> Refund key.

(** ** Counting instants *)

Fixpoint cnt (f : Z -> bool) (ts : list Z) : Z :=
  match ts with
  | [] => 0
  | x :: ts => (if f x then 1 else 0) + cnt f ts
  end.

Definition within (lo hi x : Z) : bool := (lo <=? x) && (x <? hi).

Lemma cnt_app f ts us : cnt f (ts ++ us)%list = cnt f ts + cnt f us.
Proof. induction ts; cbn; lia. Qed.

Lemma cnt_nonneg f ts : 0 <= cnt f ts.
Proof. induction ts as [|x ts IH]; cbn; [done|]. case_match; lia. Qed.

Lemma cnt_le f g ts : (forall x, x ∈ ts -> f x = true -> g x = true) -> cnt f ts <= cnt g ts.
Proof.
  induction ts as [|x ts IH]; intros Hfg; cbn; [done|].
  assert (cnt f ts <= cnt g ts) by (apply IH; intros y Hy; apply Hfg; by constructor).
  pose proof (Hfg x ltac:(by constructor)) as Hx. destruct (f x), (g x); lia.
Qed.

Lemma cnt_zero f ts : (forall x, x ∈ ts -> f x = false) -> cnt f ts = 0.
Proof.
  intros Hf. pose proof (cnt_nonneg f ts). assert (cnt (fun _ => false) ts = 0) as E0 by (clear; induction ts; cbn; lia).
  assert (cnt f ts <= cnt (fun _ => false) ts); [|lia]. apply cnt_le. intros x Hx E. by rewrite Hf in E.
Qed.

Lemma cnt_split f g h ts : (forall x, x ∈ ts -> f x = true -> g x = true \/ h x = true) -> cnt f ts <= cnt g ts + cnt h ts.
Proof.
  induction ts as [|x ts IH]; intros Hf; cbn; [done|].
  assert (cnt f ts <= cnt g ts + cnt h ts) by (apply IH; intros y Hy; apply Hf; by constructor).
  pose proof (Hf x ltac:(by constructor)) as Hx. destruct (f x), (g x), (h x); lia.
Qed.

(** ** The invariant of a key

    Its last window starts at [s] with count [c]; [A], [R] and [F] are the
    instants of its admitted checks, its recorded attempts and its refunds. *)

(** The types: the budget is a [u32]. *)
Record limiter_typed (l : RateLimiter) : Prop := {
  typ_max : 0 <= max_requests l <= U32_MAX;
  typ_window : 0 <= window l
}.

(** A budget of zero admits one check where an entry is over. *)
Definition quota (l : RateLimiter) : Z := Z.max 1 (max_requests l).

Record budget_inv (l : RateLimiter) (key : string) (now : Instant) (A R F : list Instant) (t : Requests)
  (s c : Z) : Prop := {
  bi_entry : t !! key = Some (c, s) \/ (t !! key = None /\ s + window l <= now);
  bi_start : s <= now;
  bi_count : 0 <= c <= cnt (fun x => s <=? x) A + cnt (fun x => s <=? x) R;
  bi_times : forall x, x ∈ A -> x < s + window l /\ x <= now;
  bi_past : forall x, x ∈ R \/ x ∈ F -> x <= now;
  bi_cur : forall a, s <= a -> cnt (within a (s + window l)) A <= Z.min c (quota l) + cnt (within a (s + window l)) F;
  bi_before : forall a, s - window l <= a -> cnt (within a s) A <= quota l + cnt (within a s) F;
  bi_any : forall a, cnt (within a (a + window l)) A <= 2 * quota l + cnt (within a (a + window l)) F
}.

(** Only the instants that satisfy [f] and are in the list matter. *)
Ltac cnt_le := apply cnt_le; unfold within; intros x Hx ?; lia.

Lemma limiter_check_cases l now key t : limiter_typed l -> 0 < window l -> entries_ok t ->
  match live l now (t !! key) with
  | Some (c, s) =>
      if max_requests l <=? c then is_ok (fst (check_rate_limit l now key t)) = false /\ snd (check_rate_limit l now key t) = t
      else is_ok (fst (check_rate_limit l now key t)) = true /\ snd (check_rate_limit l now key t) = <[key := (c + 1, s)]> t
  | None => exists c, snd (check_rate_limit l now key t) = <[key := (c, now)]> t /\
      c = if is_ok (fst (check_rate_limit l now key t)) then 1 else 0
  end.
Proof.
  intros [Hm Hw0] Hw Ht. unfold check_rate_limit, live. destruct (t !! key) as [[c s]|] eqn:E; cbn [default id fst snd].
  - destruct (Z.leb_spec (window l) (duration_since now s)); [by exists 1|]. apply Ht in E as Hc.
    destruct (Z.leb_spec (max_requests l) c); cbn [fst snd]; [split; [done|by rewrite insert_id]|].
    unfold as_u32. rewrite Z.mod_small by (unfold U32_MAX in *; lia). done.
  - assert (duration_since now now = 0) as E0 by (unfold duration_since, saturating_sub; lia).
    rewrite E0, (proj2 (Z.leb_gt _ _)) by lia. change (as_u32 (0 + 1)) with 1. case_match; cbn; eauto.
Qed.

Lemma check_entries_typed l now key t : limiter_typed l -> entries_ok t -> entries_ok (snd (check_rate_limit l now key t)).
Proof.
  intros [Hm Hw] Ht. assert (0 <= fst (default (0, now) (t !! key)) <= U32_MAX).
  { destruct (t !! key) as [[c s]|] eqn:E; cbn; [by eapply Ht|unfold U32_MAX; lia]. }
  unfold check_rate_limit. destruct (default (0, now) (t !! key)) as [c s]. cbn [fst snd] in *.
  pose proof (Z.mod_pos_bound (c + 1) (2 ^ 32)).
  repeat case_match; cbn [snd]; (apply entries_ok_insert; [unfold as_u32, U32_MAX in *; lia|done]).
Qed.

Lemma run_op_entries_typed l now op t : limiter_typed l -> entries_ok t -> entries_ok (snd (run_op l now op t)).
Proof.
  intros Hl Ht. destruct op as [k|k|k|k|]; cbn; [|done| |by apply refund_entries_ok|by apply cleanup_entries_ok].
  - pose proof (check_entries_typed l now k t Hl Ht). by destruct (check_rate_limit l now k t).
  - assert (0 <= fst (default (0, now) (t !! k))).
    { destruct (t !! k) as [[c s]|] eqn:E; cbn; [|done]. apply Ht in E. lia. }
    unfold record_attempt. case_match; (apply entries_ok_insert; [unfold saturating_add_u32, U32_MAX; lia|done]).
Qed.

Section Budget.
Context (l : RateLimiter) (Hl : limiter_typed l) (Hw : 0 < window l) (key : string).

Lemma quota_max : max_requests l <= quota l /\ 1 <= quota l.
Proof. unfold quota. lia. Qed.

Lemma budget_later now now' A R F t s c : now <= now' -> budget_inv l key now A R F t s c -> budget_inv l key now' A R F t s c.
Proof.
  intros Hn [He Hs Hc Ht Hp Hu Hb Ha]. split; try done; [|lia| |].
  - destruct He as [?|[? ?]]; [by left|right; split; [done|lia]].
  - intros x Hx. destruct (Ht x Hx). lia.
  - intros x Hx. specialize (Hp x Hx). lia.
Qed.

Lemma budget_over now A R F t s c : live l now (t !! key) = None -> budget_inv l key now A R F t s c -> s + window l <= now.
Proof.
  intros Hlive Hb. destruct Hb as [[He|[_ ?]] Hs _ _ _ _ _ _]; [|done]. rewrite He in Hlive. cbn in Hlive.
  destruct (Z.leb_spec (window l) (duration_since now s)) as [Hd|]; [|done].
  unfold duration_since, saturating_sub in Hd. lia.
Qed.

Lemma budget_live now A R F t s c c0 s0 : live l now (t !! key) = Some (c0, s0) -> budget_inv l key now A R F t s c ->
  c0 = c /\ s0 = s /\ now < s + window l.
Proof.
  intros Elive Hb. apply live_Some in Elive as [E0 Hd]. destruct Hb as [[He|[He _]] Hs _ _ _ _ _ _]; [|congruence]. rewrite E0 in He. injection He as -> ->.
  unfold duration_since, saturating_sub in Hd. lia.
Qed.

(** A check or a recorded attempt where the window is over, or there is none,
    opens one. *)
Lemma budget_open now A R F t s c A1 R1 c1 : s + window l <= now -> budget_inv l key now A R F t s c ->
  A1 = [] \/ A1 = [now] -> R1 = [] \/ R1 = [now] -> c1 = cnt (fun _ => true) A1 + cnt (fun _ => true) R1 -> c1 <= 1 ->
  budget_inv l key now (A ++ A1)%list (R ++ R1)%list F (<[key := (c1, now)]> t) now c1.
Proof.
  intros Hover [He Hs Hc Ht Hp Hu Hb Ha] HA HR Ec Hc1. pose proof quota_max as [_ Hq].
  assert (Hlast : forall a f, now - window l <= a -> (forall x, x < s + window l -> f x = true -> a <= x) ->
    cnt f A <= quota l + cnt (within a (s + window l)) F).
  { intros a f Hsa Hf. transitivity (cnt (within a (s + window l)) A); [|specialize (Hu a); lia].
    apply cnt_le. intros x Hx E. pose proof (Hf x (proj1 (Ht x Hx)) E). destruct (Ht x Hx). unfold within. lia. }
  assert (Hnone : forall a, now <= a -> forall h, cnt (within a h) A = 0).
  { intros a Hna h. apply cnt_zero. intros x Hx. destruct (Ht x Hx). unfold within. lia. }
  assert (HnA : 0 <= cnt (fun _ => true) R1) by apply cnt_nonneg.
  assert (HnR : 0 <= cnt (fun _ => true) A1) by apply cnt_nonneg.
  split.
  - left. apply lookup_insert_eq.
  - lia.
  - rewrite !cnt_app. pose proof (cnt_nonneg (fun x => now <=? x) A). pose proof (cnt_nonneg (fun x => now <=? x) R).
    destruct HA as [-> | ->], HR as [-> | ->]; cbn in *; rewrite ?Z.leb_refl; lia.
  - intros x [Hx|Hx]%elem_of_app; [destruct (Ht x Hx); lia|]. assert (x = now) as -> by (destruct HA as [-> | ->]; set_solver). lia.
  - intros x [[Hx|Hx]%elem_of_app|Hx]; [by apply Hp; left| |by apply Hp; right].
    assert (x = now) as -> by (destruct HR as [-> | ->]; set_solver). lia.
  - intros a Hna. rewrite cnt_app, Hnone by done. pose proof (cnt_nonneg (within a (now + window l)) F).
    assert (cnt (within a (now + window l)) A1 <= cnt (fun _ => true) A1) by cnt_le. lia.
  - intros a Hna. rewrite cnt_app. assert (cnt (within a now) A1 = 0) as ->.
    { destruct HA as [-> | ->]; [done|]. cbn. unfold within. rewrite Z.ltb_irrefl, andb_false_r. done. }
    specialize (Hlast a (within a now) Hna). assert (cnt (within a (s + window l)) F <= cnt (within a now) F) by cnt_le.
    assert (cnt (within a now) A <= quota l + cnt (within a (s + window l)) F); [|lia].
    apply Hlast. unfold within. intros x _ ?. lia.
  - intros a. rewrite cnt_app. specialize (Ha a). destruct HA as [-> | ->]; cbn; [lia|].
    destruct (within a (a + window l) now) eqn:Ew; [|lia]. unfold within in Ew.
    assert (cnt (within a (a + window l)) A <= quota l + cnt (within a (s + window l)) F).
    { apply Hlast; [lia|]. unfold within. intros x _ ?. lia. }
    assert (cnt (within a (s + window l)) F <= cnt (within a (a + window l)) F) by cnt_le. lia.
Qed.

(** An admitted check inside the window. *)
Lemma budget_take now A R F t s c : now < s + window l -> c < max_requests l -> budget_inv l key now A R F t s c ->
  budget_inv l key now (A ++ [now])%list R F (<[key := (c + 1, s)]> t) s (c + 1).
Proof.
  intros Hn Hlt [He Hs Hc Ht Hp Hu Hb Ha]. pose proof quota_max as [Hq1 Hq]. split.
  - left. apply lookup_insert_eq.
  - done.
  - rewrite cnt_app. cbn. rewrite (proj2 (Z.leb_le _ _)) by done. lia.
  - intros x [Hx|Hx%list_elem_of_singleton]%elem_of_app; [by apply Ht|subst; lia].
  - done.
  - intros a Hsa. rewrite cnt_app. cbn. specialize (Hu a Hsa). case_match; lia.
  - intros a Hsa. rewrite cnt_app. cbn. unfold within at 2. rewrite (proj2 (Z.ltb_ge _ _)) by done.
    rewrite andb_false_r. specialize (Hb a Hsa). lia.
  - intros a. rewrite cnt_app. cbn. specialize (Ha a). destruct (within a (a + window l) now) eqn:Ew; [|lia].
    unfold within in Ew. destruct (Z.leb_spec s a) as [Hsa|Hsa].
    + specialize (Hu a Hsa). assert (cnt (within a (s + window l)) F <= cnt (within a (a + window l)) F) by cnt_le.
      assert (cnt (within a (a + window l)) A <= cnt (within a (s + window l)) A); [|lia].
      apply cnt_le. intros x Hx E. destruct (Ht x Hx). unfold within in *. lia.
    + specialize (Hu s (Z.le_refl s)). specialize (Hb a ltac:(lia)).
      assert (cnt (within a (a + window l)) A <= cnt (within a s) A + cnt (within s (s + window l)) A).
      { apply cnt_split. intros x Hx E. destruct (Ht x Hx). unfold within in *. lia. }
      assert (cnt (within a s) F + cnt (within s (s + window l)) F <= cnt (within a (a + window l)) F); [|lia].
      assert (Hpast : forall x, x ∈ F -> x <= now) by (intros x Hx; apply Hp; by right).
      clear -Hpast Ew Hsa. induction F as [|x F IH]; cbn; [done|].
      specialize (IH ltac:(set_solver)). specialize (Hpast x ltac:(set_solver)). unfold within in *. repeat case_match; lia.
Qed.

(** A recorded attempt inside the window, whose count saturates. *)
Lemma budget_record now A R F t s c c1 : c <= c1 <= c + 1 -> budget_inv l key now A R F t s c ->
  budget_inv l key now A (R ++ [now])%list F (<[key := (c1, s)]> t) s c1.
Proof.
  intros Hc1 [He Hs Hc Ht Hp Hu Hb Ha]. split; try done.
  - left. apply lookup_insert_eq.
  - rewrite cnt_app. cbn. rewrite (proj2 (Z.leb_le _ _)) by done. lia.
  - intros x [[Hx|Hx%list_elem_of_singleton]%elem_of_app|Hx]; [by apply Hp; left|lia|by apply Hp; right].
  - intros a Hsa. specialize (Hu a Hsa). lia.
Qed.

(** A refund, which counts only inside the window. *)
Lemma budget_refund now A R F t t1 s c c1 : budget_inv l key now A R F t s c ->
  t1 = t /\ c1 = c \/ t1 = <[key := (c1, s)]> t /\ now < s + window l /\ c1 = saturating_sub c 1 ->
  budget_inv l key now A R (F ++ [now])%list t1 s c1.
Proof.
  intros [He Hs Hc Ht Hp Hu Hb Ha] Hcase. unfold saturating_sub in Hcase.
  assert (Hmono : forall f, cnt f F <= cnt f (F ++ [now])%list) by (intros f; rewrite cnt_app; cbn; case_match; lia).
  split; try done.
  - destruct Hcase as [[-> ->]|[-> _]]; [done|left; apply lookup_insert_eq].
  - lia.
  - intros x [Hx|[Hx|Hx%list_elem_of_singleton]%elem_of_app]; [by apply Hp; left|by apply Hp; right|lia].
  - intros a Hsa. specialize (Hu a Hsa). specialize (Hmono (within a (s + window l))) as Hm.
    destruct Hcase as [[_ ->]|(_ & Hn & ->)]; [lia|]. rewrite cnt_app in *. cbn in *.
    destruct (within a (s + window l) now) eqn:Ew; [lia|]. pose proof quota_max.
    assert (cnt (within a (s + window l)) A = 0) as ->; [|pose proof (cnt_nonneg (within a (s + window l)) F); lia].
    apply cnt_zero. intros x Hx. destruct (Ht x Hx). unfold within in *. lia.
  - intros a Hsa. specialize (Hb a Hsa). specialize (Hmono (within a s)). lia.
  - intros a. specialize (Ha a). specialize (Hmono (within a (a + window l))). lia.
Qed.

Lemma budget_other now A R F t t' s c : t' !! key = t !! key -> budget_inv l key now A R F t s c -> budget_inv l key now A R F t' s c.
Proof. intros E [He Hs Hc Ht Hp Hu Hb Ha]. split; by rewrite ?E. Qed.

Lemma budget_check now A R F t s c : entries_ok t -> budget_inv l key now A R F t s c ->
  exists s' c', budget_inv l key now (A ++ admits key now (Check_ key) (Some (fst (check_rate_limit l now key t))))%list R F
    (snd (check_rate_limit l now key t)) s' c'.
Proof.
  intros Hok Hb. pose proof (limiter_check_cases l now key t Hl Hw Hok) as Hcase. cbn [admits].
  destruct (live l now (t !! key)) as [[c0 s0]|] eqn:El.
  - destruct (budget_live _ _ _ _ _ _ _ _ _ El Hb) as (-> & -> & Hn).
    destruct (Z.leb_spec (max_requests l) c), (fst (check_rate_limit l now key t)); cbn in Hcase; destruct Hcase as [? ->]; try done.
    + exists s, c. by rewrite app_nil_r.
    + exists s, (c + 1). rewrite String.eqb_refl. by apply budget_take.
  - pose proof (budget_over _ _ _ _ _ _ _ El Hb) as Hover. destruct Hcase as (c1 & -> & ->). exists now, (if is_ok (fst (check_rate_limit l now key t)) then 1 else 0).
    rewrite <- (app_nil_r R). eapply budget_open; [done|done| |by left| |by case_match].
    all: destruct (fst (check_rate_limit l now key t)); cbn; rewrite ?String.eqb_refl; auto.
Qed.

Lemma budget_step now0 now op A R F t s c : now0 <= now -> entries_ok t -> budget_inv l key now0 A R F t s c ->
  exists s' c', budget_inv l key now (A ++ admits key now op (fst (run_op l now op t)))%list
    (R ++ times_of (Record_ key) [(now, op)])%list (F ++ times_of (Refund key) [(now, op)])%list
    (snd (run_op l now op t)) s' c'.
Proof.
  intros Hn Hok Hb%(budget_later _ _ _ _ _ _ _ _ Hn). clear Hn. unfold times_of. cbn [base.filter list_filter snd].
  destruct op as [k|k|k|k|]; cbn [run_op]; rewrite ?decide_False by done; cbn [fmap list_fmap]; rewrite ?app_nil_r.
  - destruct (String.eqb_spec k key) as [->|Hk].
    + pose proof (budget_check _ _ _ _ _ _ _ Hok Hb) as Hc. destruct (check_rate_limit l now key t). exact Hc.
    + exists s, c. pose proof (check_other l now k t key (not_eq_sym Hk)) as Ho. destruct (check_rate_limit l now k t) as [a t'].
      cbn in *. rewrite (proj2 (String.eqb_neq _ _) Hk). destruct a; rewrite ?app_nil_r; by eapply budget_other.
  - exists s, c. cbn. by rewrite ?app_nil_r.
  - cbn [fst snd admits]. rewrite ?app_nil_r. case_decide as Ek.
    + injection Ek as ->. unfold record_attempt. cbn [fmap list_fmap fst]. destruct (live l now (t !! key)) as [[c0 s0]|] eqn:El.
      * destruct (budget_live _ _ _ _ _ _ _ _ _ El Hb) as (-> & -> & Hn). apply live_Some in El as [E0 Hd]. rewrite E0.
        cbn [default id fst snd]. rewrite (proj2 (Z.leb_gt _ _)) by done. exists s, (saturating_add_u32 c 1).
        apply (budget_record _ _ _ _ _ _ c); [|done]. apply Hok in E0. unfold saturating_add_u32. lia.
      * pose proof (budget_over _ _ _ _ _ _ _ El Hb) as Hover. exists now, 1.
        assert (budget_inv l key now A (R ++ [now])%list F (<[key := (1, now)]> t) now 1) as Hb1.
        { rewrite <- (app_nil_r A) at 1. eapply budget_open; [done|done|by left|by right|done|done]. }
        destruct (t !! key) as [[c0 s0]|] eqn:Et; cbn [default id fst snd] in *.
        -- cbn in El. by destruct (window l <=? duration_since now s0).
        -- by case_match.
    + exists s, c. cbn [fmap list_fmap]. rewrite ?app_nil_r. eapply budget_other; [|done]. assert (k <> key) by congruence.
      unfold record_attempt. case_match; by rewrite lookup_insert_ne.
  - cbn [fst snd admits]. rewrite ?app_nil_r. rewrite refund_spec. case_decide as Ek.
    + injection Ek as ->. cbn [fmap list_fmap fst]. destruct (live l now (t !! key)) as [[c0 s0]|] eqn:El.
      * destruct (budget_live _ _ _ _ _ _ _ _ _ El Hb) as (-> & -> & Hn). exists s, (saturating_sub c 1).
        eapply budget_refund; [done|]. right. done.
      * exists s, c. eapply budget_refund; [done|]. by left.
    + exists s, c. cbn [fmap list_fmap]. rewrite ?app_nil_r. eapply budget_other; [|done]. assert (k <> key) by congruence.
      repeat case_match; by rewrite ?lookup_insert_ne.
  - exists s, c. cbn. rewrite ?app_nil_r. destruct Hb as [He Hs Hc Ht Hp Hu Hb Ha]. split; try done.
    rewrite cleanup_lookup. destruct He as [He|[He Hx]]; rewrite He; cbn; [|by right].
    destruct (Z.leb_spec (window l) (duration_since now s)) as [Hd|]; [|by left]. right. split; [done|].
    unfold duration_since, saturating_sub in Hd. lia.
Qed.

Lemma times_of_cons which o ops : times_of which (o :: ops) = (times_of which [o] ++ times_of which ops)%list.
Proof. unfold times_of. change (o :: ops) with ([o] ++ ops)%list. by rewrite list.filter_app, fmap_app. Qed.

Lemma budget_run ops : forall now0 A R F t s c, later now0 ops ->
  entries_ok t -> budget_inv l key now0 A R F t s c -> exists s' c',
  budget_inv l key (last_time now0 ops) (A ++ admitted l key ops t)%list (R ++ times_of (Record_ key) ops)%list
    (F ++ times_of (Refund key) ops)%list (table_after l ops t) s' c' /\
  entries_ok (table_after l ops t).
Proof.
  induction ops as [|[now op] ops IH]; intros now0 A R F t s c Hlater Ht Hb.
  - exists s, c. cbn. by rewrite !app_nil_r.
  - destruct Hlater as [Hn Hlater]. rewrite (times_of_cons (Record_ key) (now, op) ops), (times_of_cons (Refund key) (now, op) ops). cbn [last_time admitted table_after].
    destruct (budget_step _ _ op _ _ _ _ _ _ Hn Ht Hb) as (s1 & c1 & Hb1).
    pose proof (run_op_entries_typed l now op t Hl Ht) as Ht1. revert Hb1 Ht1.
    destruct (run_op l now op t) as [a t']. cbn [fst snd]. intros Hb1 Ht1. rewrite !app_assoc. by apply (IH now _ _ _ t' s1 c1).
Qed.

Lemma budget_empty now : budget_inv l key now [] [] [] ∅ (now - window l) 0.
Proof.
  pose proof quota_max. split; cbn; try lia.
  - right. split; [apply lookup_empty|lia].
  - intros x Hx. by apply not_elem_of_nil in Hx.
  - intros x [Hx|Hx]; by apply not_elem_of_nil in Hx.
Qed.

End Budget.

Lemma run_op_entries_ok l (Hl : limiter_ok l) now op t : entries_ok t -> entries_ok (snd (run_op l now op t)).
Proof. apply run_op_entries_typed. destruct Hl. split; lia. Qed.

Lemma entries_ok_empty : entries_ok ∅.
Proof. intros k c s E. by rewrite lookup_empty in E. Qed.

(** A limiter without a window refuses nothing. *)
Lemma no_window_admits l now key t : window l = 0 -> is_ok (fst (check_rate_limit l now key t)) = true.
Proof.
  intros Hw. unfold check_rate_limit. pose proof (duration_nonneg now (snd (default (0, now) (t !! key)))).
  rewrite Hw, (proj2 (Z.leb_le _ _)) by done. done.
Qed.

(** C39. The budget of a limiter, for any mix of checks, peeks, recorded attempts,
    refunds and clean-ups of any keys, whose clock readings are in order.  In
    no interval as long as the window are more checks of a key admitted than
    twice [max_requests] (the windows are fixed, not sliding) and one more for
    every refund of the key in that interval; where [max_requests] is zero,
    which still admits one check where an old entry is over, one takes its
    place.  A check is refused only when the checks of the key admitted and
    the attempts recorded for it within the last window are [max_requests] or
    more: nobody else's traffic uses up a key's budget. *)
Theorem limiter_budget l key ops now0 :
  limiter_typed l -> later now0 ops ->
  (forall a, cnt (within a (a + window l)) (admitted l key ops ∅) <=
     2 * Z.max 1 (max_requests l) + cnt (within a (a + window l)) (times_of (Refund key) ops)) /\
  (forall now r, last_time now0 ops <= now ->
     fst (check_rate_limit l now key (table_after l ops ∅)) = Err r ->
     let last_window x := (now - window l <? x) && (x <=? now) in
     max_requests l <= cnt last_window (admitted l key ops ∅) + cnt last_window (times_of (Record_ key) ops)).
Proof.
  intros Hl Hlater. destruct (Z.eq_dec (window l) 0) as [Hw|Hw].
  { split; [|intros now r _ E; pose proof (no_window_admits l now key (table_after l ops ∅) Hw) as Ho; by rewrite E in Ho].
    intros a. rewrite cnt_zero by (intros x _; unfold within; lia).
    pose proof (cnt_nonneg (within a (a + window l)) (times_of (Refund key) ops)). lia. }
  assert (Hw' : 0 < window l) by (destruct Hl; lia).
  destruct (budget_run l Hl Hw' key ops now0 [] [] [] ∅ _ 0 Hlater entries_ok_empty (budget_empty l Hw' key now0))
    as (s & c & Hb & Hok). cbn [app] in Hb. split; [apply Hb|].
  intros now r Hn E. pose proof (limiter_check_cases l now key _ Hl Hw' Hok) as Hcase. rewrite E in Hcase. apply (budget_later l key _ _ _ _ _ _ _ _ Hn) in Hb.
  pose proof (cnt_nonneg (fun x => (now - window l <? x) && (x <=? now)) (admitted l key ops ∅)).
  pose proof (cnt_nonneg (fun x => (now - window l <? x) && (x <=? now)) (times_of (Record_ key) ops)).
  destruct (live l now (table_after l ops ∅ !! key)) as [[c0 s0]|] eqn:El.
  - destruct (budget_live l Hw' key _ _ _ _ _ _ _ _ _ El Hb) as (-> & -> & Hnow).
    destruct (Z.leb_spec (max_requests l) c) as [Hc|]; [|by destruct Hcase]. destruct Hb as [_ Hs Hcount Ht Hp _ _ _].
    etransitivity; [exact Hc|]. etransitivity; [apply Hcount|]. apply Z.add_le_mono; apply cnt_le; intros x Hx Hsx; unfold last_window.
    + destruct (Ht x Hx). lia.
    + specialize (Hp x (or_introl Hx)). lia.
  - assert (max_requests l = 0); [|cbv zeta; lia]. clear -El E Hl Hw'. revert E El. unfold check_rate_limit, live.
    destruct (table_after l ops ∅ !! key) as [[c0 s0]|]; cbn [default id fst snd].
    + by destruct (window l <=? duration_since now s0).
    + case_match; [done|]. destruct (Z.leb_spec (max_requests l) 0); [|done]. destruct Hl. lia.
Qed.

Definition sample_limiter : RateLimiter := rate_limiter_new 2 60.
Definition sample_ops : list (Instant * Op) :=
  [(0, Check_ "a"); (1, Check_ "b"); (58 * NANOS_PER_SEC, Record_ "a"); (59 * NANOS_PER_SEC, Refund "a");
   (59 * NANOS_PER_SEC, Check_ "a"); (60 * NANOS_PER_SEC, Cleanup); (60 * NANOS_PER_SEC, Check_ "a");
   (61 * NANOS_PER_SEC, Record_ "a")].

Lemma sample_limiter_ok : limiter_ok sample_limiter.
Proof. by split. Qed.

Lemma sample_limiter_typed : limiter_typed sample_limiter.
Proof. by split. Qed.

(** A client whose checks are refunded has no limit: three in one instant of a
    limiter of one.  A limiter of zero refuses a new key and admits it when its
    entry is over. *)
Example refunds_and_zero :
  admitted (rate_limiter_new 1 60) "a" [(0, Check_ "a"); (0, Refund "a"); (0, Check_ "a"); (0, Refund "a"); (0, Check_ "a");
    (0, Check_ "a")] ∅ = [0; 0; 0] /\
  admitted (rate_limiter_new 0 60) "a" [(0, Check_ "a"); (60 * NANOS_PER_SEC, Check_ "a"); (61 * NANOS_PER_SEC, Check_ "a")] ∅ =
    [60 * NANOS_PER_SEC].
Proof. vm_compute. done. Qed.

Lemma limiter_budget_witness :
  cnt (within (2 * NANOS_PER_SEC) (62 * NANOS_PER_SEC)) (admitted sample_limiter "a" sample_ops ∅) = 2 /\
  2 <= cnt (fun x => (62 * NANOS_PER_SEC - window sample_limiter <? x) && (x <=? 62 * NANOS_PER_SEC))
         (admitted sample_limiter "a" sample_ops ∅) +
       cnt (fun x => (62 * NANOS_PER_SEC - window sample_limiter <? x) && (x <=? 62 * NANOS_PER_SEC))
         (times_of (Record_ "a") sample_ops).
Proof.
  assert (Hlater : later 0 sample_ops) by (cbn; unfold NANOS_PER_SEC; lia).
  destruct (limiter_budget sample_limiter "a" sample_ops 0 sample_limiter_typed Hlater) as [_ Hr].
  split; [vm_compute; reflexivity|]. apply (Hr (62 * NANOS_PER_SEC) 58); [done|vm_compute; reflexivity].
Defined.

(** ** Retry-After *)

(** An operation that leaves the refused key alone, up to the instant [until]
    before which it may be checked. *)
Definition polite (key : string) (until : Instant) (o : Instant * Op) : Prop :=
  checks_only key (snd o) /\ (snd o = Check_ key -> fst o < until).

Lemma refused_until l key c s ops : limiter_ok l -> max_requests l <= c -> forall now0 t,
  later now0 ops -> entries_ok t -> Forall (polite key (s + window l)) ops ->
  t !! key = Some (c, s) \/ (t !! key = None /\ s + window l <= now0) ->
  entries_ok (table_after l ops t) /\
  (table_after l ops t !! key = Some (c, s) \/ table_after l ops t !! key = None).
Proof.
  intros Hl Hc. induction ops as [|[now op] ops IH]; intros now0 t Hlater Ht Hops He; cbn; [naive_solver|].
  destruct Hlater as [Hn Hlater]. inversion Hops as [|? ? [[Hr Hf] Hp] Hops']; subst. cbn in Hr, Hf, Hp.
  apply (IH now); [done|by apply run_op_entries_ok|done|].
  assert (He' : t !! key = Some (c, s) \/ (t !! key = None /\ s + window l <= now)) by (destruct He as [|[??]]; [by left|right; split; [done|lia]]).
  destruct op as [k|k|k|k|]; cbn [run_op].
  - destruct (decide (k = key)) as [->|Hk].
    + specialize (Hp eq_refl). destruct He' as [He'|[_ ?]]; [|lia]. left.
      pose proof (check_spec l Hl now key t Ht) as Es. rewrite He' in Es. cbn in Es.
      destruct (Z.leb_spec (window l) (duration_since now s)) as [Hd|].
      { destruct Hl. unfold duration_since, saturating_sub in Hd. lia. }
      rewrite (proj2 (Z.leb_le _ _)) in Es by done. by rewrite Es.
    + pose proof (check_other l now k t key (not_eq_sym Hk)) as Ho.
      destruct (check_rate_limit l now k t) as [a t']. cbn in *. by rewrite Ho.
  - done.
  - assert (k <> key) by congruence. cbn. rewrite record_spec by done. repeat case_match; by rewrite lookup_insert_ne.
  - assert (k <> key) by congruence. cbn. rewrite refund_spec. repeat case_match; by rewrite ?lookup_insert_ne.
  - cbn. rewrite cleanup_lookup. destruct He' as [He'|[He' ?]]; rewrite He'; cbn; [|by right].
    destruct (Z.leb_spec (window l) (duration_since now s)) as [Hd|]; [|by left]. right. split; [done|].
    destruct Hl. unfold duration_since, saturating_sub in Hd. lia.
Qed.

(** The promise of Retry-After.  A refusal names at least one second and at
    most the window, and charges nothing; after that time the key is admitted,
    whatever happens to other keys meanwhile, and however often the key itself
    is polled until one second before. *)
Theorem retry_after_admits l now key t r t' ops secs :
  limiter_ok l -> entries_ok t -> (forall c s, t !! key = Some (c, s) -> s <= now) ->
  window l = secs * NANOS_PER_SEC ->
  check_rate_limit l now key t = (Err r, t') ->
  1 <= r <= secs /\ t' = t /\
  (later now ops -> Forall (polite key (now + (r - 1) * NANOS_PER_SEC)) ops ->
   forall now', now + r * NANOS_PER_SEC <= now' ->
   is_ok (fst (check_rate_limit l now' key (table_after l ops t))) = true).
Proof.
  intros Hl Ht Hpast Hw. rewrite check_spec by done. destruct (live l now (t !! key)) as [[c s]|] eqn:El; [|done].
  apply live_Some in El as [E Hd]. pose proof (Hpast _ _ E) as Hs.
  destruct (Z.leb_spec (max_requests l) c) as [Hc|]; [|done]. intros [= <- <-].
  assert (Hr : 1 <= retry_after l now s <= secs /\
    (retry_after l now s - 1) * NANOS_PER_SEC < window l - duration_since now s <= retry_after l now s * NANOS_PER_SEC).
  { unfold retry_after, as_secs. pose proof (duration_nonneg now s). rewrite Hw in *.
    change NANOS_PER_SEC with 1000000000 in *. rewrite Z.div_mul by lia.
    pose proof (Z.div_mod (duration_since now s) 1000000000). pose proof (Z.mod_pos_bound (duration_since now s) 1000000000).
    assert (duration_since now s / 1000000000 < secs) by (apply Z.div_lt_upper_bound; lia).
    assert (0 <= duration_since now s / 1000000000) by (apply Z.div_pos; lia). lia. }
  split; [lia|]. split; [done|]. intros Hlater Hops now' Hn'.
  destruct (refused_until l key c s ops Hl Hc now t Hlater Ht) as [Hok Hkey]; [|by left|].
  { eapply list.Forall_impl; [exact Hops|]. intros o [Ho Hp]. split; [done|]. intros Eo. specialize (Hp Eo).
    destruct Hl. unfold duration_since, saturating_sub in *. lia. }
  rewrite check_spec by done. enough (live l now' (table_after l ops t !! key) = None) as -> by done.
  destruct Hkey as [Hkey|Hkey]; rewrite Hkey; cbn; [|done].
  rewrite (proj2 (Z.leb_le _ _)); [done|]. unfold duration_since, saturating_sub in *. lia.
Qed.

Definition full_table : Requests := {["k" := (2, 5 * NANOS_PER_SEC)]}.

Lemma retry_after_admits_witness :
  1 <= 55 <= 60 /\
  is_ok (fst (check_rate_limit sample_limiter (66 * NANOS_PER_SEC) "k"
    (table_after sample_limiter [(20 * NANOS_PER_SEC, Check_ "k"); (64 * NANOS_PER_SEC, Check_ "z")] full_table))) = true.
Proof.
  assert (Hfull : entries_ok full_table).
  { intros k c s. unfold full_table. rewrite lookup_singleton_Some. intros [_ [= <- <-]]. done. }
  destruct (retry_after_admits sample_limiter (11 * NANOS_PER_SEC - 1) "k" full_table 55 full_table
    [(20 * NANOS_PER_SEC, Check_ "k"); (64 * NANOS_PER_SEC, Check_ "z")] 60 sample_limiter_ok Hfull) as (Hr & _ & Ha).
  - intros c s. unfold full_table. rewrite lookup_singleton_Some. intros [_ [= <- <-]]. vm_compute. discriminate.
  - reflexivity.
  - vm_compute. reflexivity.
  - split; [exact Hr|]. apply Ha.
    + cbn. change NANOS_PER_SEC with 1000000000. lia.
    + repeat constructor; try done. 
    + change NANOS_PER_SEC with 1000000000. lia.
Defined.

(** ** Tables that behave alike *)

(** The same live entries. *)
Definition same_at (l : RateLimiter) (now : Instant) (t1 t2 : Requests) : Prop :=
  forall k, live l now (t1 !! k) = live l now (t2 !! k).

#[global] Instance same_at_equivalence l now : Equivalence (same_at l now).
Proof.
  split.
  - by intros t k.
  - by intros t1 t2 E k.
  - intros t1 t2 t3 E1 E2 k. by rewrite (E1 k), (E2 k).
Qed.

Lemma live_later l now now' e : now <= now' -> live l now' (live l now e) = live l now' e.
Proof.
  intros Hn. destruct e as [[c s]|]; [|done]. cbn.
  destruct (Z.leb_spec (window l) (duration_since now s)) as [Hd|]; [|done].
  rewrite (proj2 (Z.leb_le _ _)); [done|]. unfold duration_since, saturating_sub in *. lia.
Qed.

Lemma same_later l now now' t1 t2 : now <= now' -> same_at l now t1 t2 -> same_at l now' t1 t2.
Proof. intros Hn E k. rewrite <- (live_later l now now' (t1 !! k)), <- (live_later l now now' (t2 !! k)) by done. by rewrite E. Qed.

#[global] Instance insert_same l now key e : Proper (same_at l now ==> same_at l now) (<[key := e]>).
Proof.
  intros t1 t2 E k. destruct (decide (k = key)) as [->|]; [by rewrite !lookup_insert_eq|].
  by rewrite !lookup_insert_ne by done.
Qed.

Lemma cleanup_same l now t : same_at l now (cleanup_expired l now t) t.
Proof. intros k. rewrite cleanup_lookup. by apply live_later. Qed.

Section Same.
Context (l : RateLimiter) (Hl : limiter_ok l).

Lemma run_op_same now op t1 t2 : entries_ok t1 -> entries_ok t2 -> same_at l now t1 t2 ->
  fst (run_op l now op t1) = fst (run_op l now op t2) /\ same_at l now (snd (run_op l now op t1)) (snd (run_op l now op t2)).
Proof.
  intros H1 H2 E. destruct op as [k|k|k|k|]; cbn.
  - rewrite !check_spec by done. rewrite (E k).
    repeat case_match; simplify_eq; (split; [done|]); first [done|by apply insert_same].
  - rewrite !peek_spec by done. by rewrite (E k).
  - rewrite !record_spec by done. rewrite (E k). split; [done|]. repeat case_match; by apply insert_same.
  - rewrite !refund_spec. rewrite (E k). split; [done|]. repeat case_match; first [done|by apply insert_same].
  - split; [done|]. by rewrite !cleanup_same.
Qed.

Lemma answers_same ops : forall now t1 t2, later now ops -> entries_ok t1 -> entries_ok t2 -> same_at l now t1 t2 ->
  answers l ops t1 = answers l ops t2.
Proof.
  induction ops as [|[now' op] ops IH]; intros now t1 t2 Hlater H1 H2 E; [done|].
  destruct Hlater as [Hn Hlater]. apply (same_later _ _ _ _ _ Hn) in E.
  destruct (run_op_same now' op t1 t2 H1 H2 E) as [Ea Et].
  pose proof (run_op_entries_ok l Hl now' op t1 H1) as H1'. pose proof (run_op_entries_ok l Hl now' op t2 H2) as H2'.
  cbn. destruct (run_op l now' op t1) as [a1 t1'], (run_op l now' op t2) as [a2 t2']. cbn in *. subst a2.
  f_equal. by apply (IH now').
Qed.

End Same.

(** The clean-up task and peeking are invisible.  Dropping the expired
    entries changes no answer of any later run, and a peek says exactly what a
    check would without charging it.  Both need a positive budget: with
    [max_requests = 0] an expired entry admits one check, and the clean-up
    takes that away. *)
Theorem cleanup_invisible l now t ops :
  limiter_ok l -> entries_ok t -> later now ops ->
  answers l ops (cleanup_expired l now t) = answers l ops t /\
  (forall key, match peek_rate_limit l now key t, fst (check_rate_limit l now key t) with
               | Ok n, Ok m => n = m + 1
               | Err r, Err r' => r = r'
               | _, _ => False
               end) /\
  exists t0 now0, let l0 := rate_limiter_new 0 60 in
    fst (check_rate_limit l0 now0 "k" t0) = Ok 0 /\
    fst (check_rate_limit l0 now0 "k" (cleanup_expired l0 now0 t0)) = Err 60.
Proof.
  intros Hl Ht Hlater. split; [|split].
  - eapply (answers_same l Hl _ now); [done|by apply cleanup_entries_ok|done|apply cleanup_same].
  - intros key. rewrite peek_spec, check_spec by done. repeat case_match; simplify_eq/=; done || lia.
  - exists {["k" := (0, 0)]}, (60 * NANOS_PER_SEC). vm_compute. done.
Qed.

Lemma cleanup_invisible_witness :
  answers sample_limiter [(66 * NANOS_PER_SEC, Check_ "k")] (cleanup_expired sample_limiter (65 * NANOS_PER_SEC) full_table) =
  [Some (Ok 1)].
Proof.
  assert (Hfull : entries_ok full_table).
  { intros k c s. unfold full_table. rewrite lookup_singleton_Some. intros [_ [= <- <-]]. done. }
  rewrite (proj1 (cleanup_invisible sample_limiter (65 * NANOS_PER_SEC) full_table
    [(66 * NANOS_PER_SEC, Check_ "k")] sample_limiter_ok Hfull ltac:(cbn; unfold NANOS_PER_SEC; lia))).
  vm_compute. reflexivity.
Defined.
