(* ===== verification/LoginFacts.v ===== *)
(** What the login limiter guarantees: logins of different users or addresses
    do not influence each other ([login_isolated]), refused logins write a
    bounded number of audit rows ([audit_rows_bounded]), and which passwords
    the token endpoint tests without any limit ([token_passwords_limited]). *)

From stdpp Require Import base list strings pretty gmap.
From Stdlib Require Import ZArith Lia Ascii.
From S2P Require Import Prelude RustStr RustNum Chrono ClientIp RateLimit RateLimitFacts.

Local Open Scope string_scope.
Local Open Scope Z_scope.

(** * The keys of the login limiter *)

Definition no_bar (s : string) : bool := str_all (fun c => negb (Ascii.eqb "|" c)) s.

(** What [extract_client_ip] returns: the prefix, and no bar. *)
Definition source_ok (ip : string) : Prop := starts_with "ip:" ip = true /\ no_bar ip = true.

Lemma no_bar_join sep l : no_bar sep = true -> Forall (fun s => no_bar s = true) l -> no_bar (join sep l) = true.
Proof.
  intros Hs Hl. unfold no_bar. apply str_all_join; [done|]. done.
Qed.

Lemma no_bar_pretty (z : Z) : no_bar (pretty z) = true.
Proof.
  assert (Hd : forall n : N, no_bar (pretty n) = true).
  { intros n. pose proof (pretty_digits n) as [_ H]. unfold no_bar. eapply str_all_weaken; [|exact H].
    intros c Hc. destruct (Ascii.eqb_spec "|" c) as [<-|]; [by vm_compute in Hc|done]. }
  unfold pretty, pretty_Z. destruct z; [apply (Hd 0%N)|apply (Hd (Npos p))|cbn; apply (Hd (Npos p))].
Qed.

Lemma no_bar_hex v : no_bar (hex v) = true.
Proof.
  unfold hex. generalize 4%nat. intros n. revert v. induction n as [|n IH]; intros v; [done|]. cbn [hex_go].
  unfold no_bar. rewrite str_all_app. apply andb_true_iff. split; [case_match; [done|apply IH]|].
  pose proof (Z.mod_pos_bound v 16 ltac:(lia)) as Hd. generalize dependent (v mod 16). intros d Hd.
  assert (d ∈ seqZ 0 16) as Hin by (apply elem_of_seqZ; lia).
  assert (forallb (fun d => str_all (fun c => negb (Ascii.eqb "|" c))
    (String (byte_of (if d <? 10 then 48 + d else 87 + d)) "")) (seqZ 0 16) = true) as Hall by (vm_compute; reflexivity).
  rewrite forallb_forall in Hall. by apply Hall, list_elem_of_In.
Qed.

Lemma no_bar_fmt ip : no_bar (fmt_ip ip) = true.
Proof.
  assert (H4 : forall b, no_bar (fmt_v4 b) = true).
  { intros b. apply no_bar_join; [done|]. repeat constructor; apply no_bar_pretty. }
  assert (Hx : forall l, no_bar (join ":" (hex <$> l)) = true).
  { intros l. apply no_bar_join; [done|]. apply Forall_fmap, Forall_true. intros. apply no_bar_hex. }
  destruct ip as [b|b]; cbn [fmt_ip]; [apply H4|]. unfold fmt_v6. case_match.
  - unfold no_bar in *. rewrite str_all_app. by rewrite H4.
  - destruct (longest_zeros _ _ _ _) as [start len]. case_match; [|apply Hx].
    pose proof (Hx (take start (segments b))) as H1. pose proof (Hx (drop (start + len) (segments b))) as H2.
    unfold no_bar in *. rewrite !str_all_app, H1, H2. done.
Qed.

Lemma extract_client_ip_source lines p tps : source_ok (extract_client_ip lines p tps).
Proof.
  unfold extract_client_ip. destruct (resolve_client_ip_addr lines p tps) as [ip|]; [|by vm_compute].
  split; [by apply starts_with_true; eexists|]. unfold no_bar. rewrite str_all_app. pose proof (no_bar_fmt ip) as H.
  unfold no_bar in H. by rewrite H.
Qed.

Lemma bar_cut a b a' b' : no_bar b = true -> no_bar b' = true ->
  a +:+ String "|" b = a' +:+ String "|" b' -> a = a' /\ b = b'.
Proof.
  intros Hb Hb' E.
  assert (Hl : b = b').
  { assert (forall a b, no_bar b = true -> last_piece "|" (a +:+ String "|" b) = b) as Hlast.
    { clear. intros a b Hb. unfold last_piece. rewrite split_char_snoc by done. apply last_last. }
    rewrite <- (Hlast a b Hb), <- (Hlast a' b' Hb'). by rewrite E. }
  subst b'. split; [|done]. clear Hb Hb'. revert a' E. induction a as [|c a IH]; intros [|d a'] E; cbn in E; [done| | |].
  - injection E as <- E. apply (f_equal String.length) in E. rewrite length_append in E. cbn in E. lia.
  - injection E as -> E. apply (f_equal String.length) in E. rewrite length_append in E. cbn in E. lia.
  - injection E as -> E. f_equal. by apply IH.
Qed.

Lemma login_key_inj u ip u' ip' : source_ok ip -> source_ok ip' ->
  login_key u ip = login_key u' ip' <-> u = u' /\ ip = ip'.
Proof.
  intros [Hp Hb] [Hp' Hb']. split; [|by intros [-> ->]].
  apply starts_with_true in Hp as [r ->], Hp' as [r' ->].
  destruct u as [u|], u' as [u'|]; cbn [login_key]; unfold login_rate_limit_key; [|done|done|by intros ?].
  intros E%append_inj_l. by apply (bar_cut u _ u' _ Hb Hb') in E as [-> E].
Qed.

(** * Isolation *)

(** A login attempt: its instants, the user name of the body if there is one,
    the source, and what the handler answers for either pad budget. *)
Record Attempt := {
  at_ : Instant;
  answered : Instant;
  who : option string;
  from : string;
  handler : bool -> Response
}.

Definition run_attempt (st : LoginRateLimitState) (a : Attempt) (t : LoginTables) : Response * LoginTables :=
  let '(response, _, t, _) :=
    run_login_with_key st (at_ a) (answered a) (login_key (who a) (from a)) (from a) (fun b w => (handler a b, w)) t tt in
  (response, t).

Fixpoint responses (st : LoginRateLimitState) (attempts : list Attempt) (t : LoginTables) : list Response :=
  match attempts with
  | [] => []
  | a :: attempts => let '(r, t) := run_attempt st a t in r :: responses st attempts t
  end.

(** The backstop sheds none of the attempts. *)
Fixpoint backstop_open (st : LoginRateLimitState) (attempts : list Attempt) (t : Requests) : Prop :=
  match attempts with
  | [] => True
  | a :: attempts =>
      let '(r, t) := check_rate_limit (backstop st) (at_ a) "login:global" t in
      is_ok r = true /\ backstop_open st attempts t
  end.

(** A limiter that sees the attempts of one user name and source only. *)
Fixpoint private (l : RateLimiter) (u : option string) (ip : string) (attempts : list Attempt) (t : Requests)
  : list (option (result Z Z)) :=
  match attempts with
  | [] => []
  | a :: attempts =>
      if decide (who a = u /\ from a = ip)
      then let '(d, t) := check_rate_limit l (at_ a) (login_key u ip) t in Some d :: private l u ip attempts t
      else None :: private l u ip attempts t
  end.

(** The response a decision of that limiter leads to. *)
Definition respond (st : LoginRateLimitState) (a : Attempt) (d : result Z Z) (within_budget : bool) : Response :=
  let l := limiter (inner st) in
  match d with
  | Ok remaining => tag_allowed (handler a within_budget) (max_requests l) remaining
  | Err retry => too_many_requests retry l
  end.

Lemma check_entry l now key t1 t2 : t1 !! key = t2 !! key ->
  fst (check_rate_limit l now key t1) = fst (check_rate_limit l now key t2) /\
  snd (check_rate_limit l now key t1) !! key = snd (check_rate_limit l now key t2) !! key.
Proof. intros E. unfold check_rate_limit. rewrite E. repeat case_match; cbn; by rewrite !lookup_insert_eq. Qed.

(** One attempt the backstop lets through. *)
Lemma run_attempt_open st a t d pt bt n :
  check_rate_limit (backstop st) (at_ a) "login:global" (backstop_table t) = (Ok n, bt) ->
  check_rate_limit (limiter (inner st)) (at_ a) (login_key (who a) (from a)) (per_account t) = (d, pt) ->
  exists b t', run_attempt st a t = (respond st a d b, t') /\ per_account t' = pt /\ backstop_table t' = bt.
Proof.
  intros Eb Ea. unfold run_attempt, run_login_with_key. rewrite Eb. cbn [per_account backstop_table failed_table audited].
  rewrite Ea. destruct d as [n'|retry] eqn:Ed.
  - eexists _, _. split_and!; [reflexivity|done|done].
  - exists true. unfold record_refused_login. destruct (audited t); [destruct (login_audit_should_record _ _ _ _ _)|];
      eexists; split_and!; reflexivity.
Qed.

(** Lockouts do not spread.  As long as the global backstop sheds nothing,
    every login attempt of a user name from a source is answered as if a
    limiter of its own saw nothing but the attempts of that name from that
    source: whatever others try, from the same address or for the same
    account, and however many of their logins fail. *)
Theorem login_isolated st u ip attempts t :
  source_ok ip -> Forall (fun a => source_ok (from a)) attempts ->
  backstop_open st attempts (backstop_table t) ->
  Forall2 (fun ar d => match d with
                       | Some d => exists b, snd ar = respond st (fst ar) d b
                       | None => True
                       end)
    (zip attempts (responses st attempts t)) (private (limiter (inner st)) u ip attempts (per_account t)).
Proof.
  intros Hip Hsrc. set (e := per_account t). assert (per_account t !! login_key u ip = e !! login_key u ip) as He by done.
  clearbody e. revert t e He. induction attempts as [|a attempts IH]; intros t e He Hopen; [constructor|].
  inversion Hsrc as [|? ? Ha Hsrc']; subst. cbn [backstop_open responses private] in *.
  destruct (check_rate_limit (backstop st) (at_ a) "login:global" (backstop_table t)) as [r bt] eqn:Eb.
  destruct Hopen as [Hr Hopen]. destruct r as [n|]; [|done].
  destruct (check_rate_limit (limiter (inner st)) (at_ a) (login_key (who a) (from a)) (per_account t)) as [d pt] eqn:Ea.
  destruct (run_attempt_open st a t d pt bt n Eb Ea) as (b & t' & -> & <- & <-).
  destruct (decide (who a = u /\ from a = ip)) as [[Eu Ei]|Hne].
  - rewrite Eu, Ei in Ea. pose proof (check_entry (limiter (inner st)) (at_ a) _ _ _ He) as [Ed Ek].
    rewrite Ea in Ed, Ek. destruct (check_rate_limit (limiter (inner st)) (at_ a) (login_key u ip) e) as [d' e'].
    cbn in Ed, Ek. subst d'. constructor; [by exists b|]. by apply IH.
  - constructor; [done|]. apply IH; [done| |done]. rewrite <- He.
    pose proof (check_other (limiter (inner st)) (at_ a) (login_key (who a) (from a)) (per_account t) (login_key u ip)) as Ho.
    rewrite Ea in Ho. apply Ho. rewrite login_key_inj by done. naive_solver.
Qed.

(** ** A flood against one account *)

Definition login_state : LoginRateLimitState :=
  {| inner := {| limiter := rate_limiter_new 1 900;
                 exemptions := {| usernames := []; exempt_service_accounts := false; trusted_cidrs := [] |};
                 enabled := true; trusted_proxies := [] |};
     backstop := rate_limiter_new 8192 60; failed_by_ip := rate_limiter_new 30 300 |}.
Definition no_logins : LoginTables := {| per_account := ∅; backstop_table := ∅; failed_table := ∅; audited := Some ∅ |}.
Definition attempt_of (now : Z) (u ip : string) (status : Z) : Attempt :=
  {| at_ := now; answered := now; who := Some u; from := ip;
     handler := fun _ => {| response_status := status; response_headers := ∅ |} |}.
Definition flood : list Attempt :=
  [attempt_of 0 "alice" "ip:6.6.6.6" 401; attempt_of 1 "alice" "ip:6.6.6.6" 401; attempt_of 2 "alice" "ip:10.0.0.5" 200].

Lemma login_isolated_witness :
  response_status <$> responses login_state flood no_logins !! 2%nat = Some 200 /\
  exists b, responses login_state flood no_logins !! 2%nat =
    Some (respond login_state (attempt_of 2 "alice" "ip:10.0.0.5" 200) (Ok 0) b).
Proof.
  assert (Hsrc : Forall (fun a => source_ok (from a)) flood) by (repeat constructor).
  assert (Hopen : backstop_open login_state flood (backstop_table no_logins)) by (vm_compute; done).
  pose proof (login_isolated login_state (Some "alice") "ip:10.0.0.5" flood no_logins ltac:(by split) Hsrc Hopen) as H.
  split; [vm_compute; reflexivity|].
  apply (Forall2_lookup_l _ _ _ 2 (attempt_of 2 "alice" "ip:10.0.0.5" 200, respond login_state (attempt_of 2 "alice" "ip:10.0.0.5" 200) (Ok 0) true)) in H;
    [|vm_compute; reflexivity].
  destruct H as (d & Ed & Hd). vm_compute in Ed. injection Ed as <-. destruct Hd as [b Hb]. exists b.
  cbn [fst snd] in Hb. rewrite <- Hb. vm_compute. reflexivity.
Defined.

(** * The audit throttle *)

(** A refused login, as the throttle sees it. *)
Record Refusal := { by_limiter : LoginLimiter; source : string; its_window : Z; refused_at : Instant }.
Notation Row := ((LoginLimiter * string) * Instant)%type.

Definition audit_step (r : Refusal) (seen : Seen) : bool * Seen :=
  login_audit_should_record seen (by_limiter r) (source r) (its_window r) (refused_at r).

(** The audit rows a sequence of refusals writes, and the table. *)
Fixpoint rows (refusals : list Refusal) (seen : Seen) : list Row :=
  match refusals with
  | [] => []
  | r :: refusals =>
      let '(b, seen) := audit_step r seen in
      ((if b then [(audit_key (by_limiter r) (source r), refused_at r)] else []) ++ rows refusals seen)%list
  end.

Fixpoint seen_after (refusals : list Refusal) (seen : Seen) : Seen :=
  match refusals with
  | [] => seen
  | r :: refusals => seen_after refusals (snd (audit_step r seen))
  end.

Fixpoint refused_later (t0 : Instant) (refusals : list Refusal) : Prop :=
  match refusals with
  | [] => True
  | r :: refusals => t0 <= refused_at r /\ refused_later (refused_at r) refusals
  end.

Definition rows_within (lo hi : Instant) (rs : list Row) : list Row :=
  base.filter (fun row => lo <= snd row /\ snd row < hi) rs.

(** Rows of one key are [w] apart. *)
Definition spaced (w : Z) (rs : list Row) : Prop :=
  forall l1 k x l2 y, rs = (l1 ++ (k, x) :: l2)%list -> (k, y) ∈ l2 -> x + w <= y.

Record audit_inv (w : Z) (now : Instant) (rs : list Row) (seen : Seen) : Prop := {
  ai_size : (size seen <= LOGIN_AUDIT_MAX_TRACKED)%nat;
  ai_times : forall k x, (k, x) ∈ rs -> x <= now;
  ai_known : forall k x, (k, x) ∈ rs -> now < x + w -> seen !! k = Some x;
  ai_spaced : spaced w rs;
  ai_count : forall a, (length (rows_within a (a + w) rs) <= LOGIN_AUDIT_MAX_TRACKED)%nat
}.

Lemma spaced_snoc w rs k y : spaced w rs -> (forall x, (k, x) ∈ rs -> x + w <= y) -> spaced w (rs ++ [(k, y)])%list.
Proof.
  intros Hs Hk l1 k' x l2 z E Hz. destruct l2 as [|p l2 _] using rev_ind; [by apply not_elem_of_nil in Hz|].
  rewrite app_comm_cons, app_assoc in E. apply app_inj_tail in E as [E <-].
  apply elem_of_app in Hz as [Hz|Hz%list_elem_of_singleton]; [by eapply Hs|].
  injection Hz as -> ->. apply Hk. rewrite E. apply elem_of_app. right. by left.
Qed.

Lemma spaced_keys_nodup w a rs : spaced w rs -> NoDup (fst <$> rows_within a (a + w) rs).
Proof.
  unfold rows_within. induction rs as [|[k x] rs IH]; intros Hs; [constructor|].
  assert (spaced w rs) as Hs'. { intros l1 k' x' l2 y -> Hy. by apply (Hs ((k, x) :: l1) k' x' l2 y). }
  rewrite list.filter_cons. case_decide as Hx; [|by apply IH]. cbn in Hx. rewrite fmap_cons.
  constructor; [|by apply IH].
  intros [[k' y] [Ek [Hy Hin]%list_elem_of_filter]]%list_elem_of_fmap. cbn in *. subst k'.
  pose proof (Hs [] k x rs y eq_refl Hin). lia.
Qed.

Lemma known_rows_length (rs : list Row) (seen : Seen) :
  NoDup (fst <$> rs) -> (forall k x, (k, x) ∈ rs -> seen !! k = Some x) -> (length rs <= size seen)%nat.
Proof.
  intros Hn Hk. rewrite <- (length_fmap fst rs), <- size_dom, <- (size_list_to_set (C := gset (LoginLimiter * string))) by done.
  apply subseteq_size. intros k [[k' x] [-> Hin]]%elem_of_list_to_set%list_elem_of_fmap.
  apply elem_of_dom. exists x. by apply Hk.
Qed.

Lemma audit_step_cases r seen : let k := audit_key (by_limiter r) (source r) in
  audit_step r seen = (false, seen) \/
  (exists seen', (forall k' x, refused_at r < x + its_window r -> x <= refused_at r -> seen !! k' = Some x -> seen' !! k' = Some x) /\
     (size seen' <= size seen)%nat /\
     ((exists b, audit_step r seen = (b, <[k := refused_at r]> seen') /\ b = true) /\
        (forall x, seen !! k = Some x -> its_window r <= duration_since (refused_at r) x) /\
        (is_Some (seen' !! k) \/ (size seen' < LOGIN_AUDIT_MAX_TRACKED)%nat) \/
      audit_step r seen = (false, seen'))).
Proof.
  intros k. unfold audit_step, login_audit_should_record. fold k.
  destruct (match seen !! k with Some last => duration_since (refused_at r) last <? its_window r | None => false end) eqn:Efresh;
    [by left|]. right.
  assert (Hold : forall x, seen !! k = Some x -> its_window r <= duration_since (refused_at r) x).
  { intros x Ex. rewrite Ex in Efresh. by apply Z.ltb_ge. }
  destruct (bool_decide (seen !! k = None) && bool_decide (LOGIN_AUDIT_MAX_TRACKED <= size seen)%nat) eqn:Efull.
  - set (seen' := filter _ seen).
    assert (Hkeep : forall k' x, refused_at r < x + its_window r -> x <= refused_at r -> seen !! k' = Some x -> seen' !! k' = Some x).
    { intros k' x Hx Hx' E. apply map_lookup_filter_Some_2; [done|]. cbn. unfold duration_since, saturating_sub. lia. }
    assert (size seen' <= size seen)%nat by (apply map_subseteq_size, map_filter_subseteq).
    exists seen'. split; [done|]. split; [done|]. destruct (bool_decide_reflect (LOGIN_AUDIT_MAX_TRACKED <= size seen')%nat); [by right|left].
    split; [by eexists|]. split; [done|]. right. lia.
  - exists seen. split; [done|]. split; [done|]. left. split; [by eexists|]. split; [done|].
    apply andb_false_iff in Efull as [Ef%bool_decide_eq_false|Ef%bool_decide_eq_false]; [left|right; lia].
    destruct (seen !! k); [by eexists|done].
Qed.

Lemma audit_inv_step w now rs seen r : 0 < w <= its_window r -> now <= refused_at r -> audit_inv w now rs seen ->
  audit_inv w (refused_at r)
    (rs ++ (if fst (audit_step r seen) then [(audit_key (by_limiter r) (source r), refused_at r)] else []))%list
    (snd (audit_step r seen)).
Proof.
  intros Hw Hn [Hsize Htimes Hknown Hsp Hcount]. set (k := audit_key (by_limiter r) (source r)).
  assert (Htimes' : forall k x, (k, x) ∈ rs -> x <= refused_at r) by (intros k' x Hx; specialize (Htimes _ _ Hx); lia).
  destruct (audit_step_cases r seen) as [E|(seen' & Hkeep & Hle & Hcase)].
  { rewrite E. cbn. rewrite app_nil_r. split; try done. intros k' x Hx Ht. apply Hknown; [done|lia]. }
  assert (Hknown' : forall k' x, (k', x) ∈ rs -> refused_at r < x + w -> seen' !! k' = Some x).
  { intros k' x Hx Ht. apply Hkeep; [lia|by eapply Htimes'|]. apply Hknown; [done|lia]. }
  destruct Hcase as [[[b [E ->]] [Hold Hroom]]|E]; rewrite E; cbn.
  2: { rewrite app_nil_r. split; try done. lia. }
  fold k in E, Hold, Hroom |- *.
  assert (Hk : forall x, (k, x) ∈ rs -> x + w <= refused_at r).
  { intros x Hx. destruct (decide (refused_at r < x + w)) as [Hlt|]; [|lia].
    specialize (Hold x (Hknown k x Hx ltac:(lia))). specialize (Htimes' _ _ Hx).
    unfold duration_since, saturating_sub in Hold. lia. }
  assert (Hknown2 : forall k' x, (k', x) ∈ (rs ++ [(k, refused_at r)])%list -> refused_at r < x + w ->
    (<[k := refused_at r]> seen') !! k' = Some x).
  { intros k' x [Hx|Hx%list_elem_of_singleton]%elem_of_app Ht.
    - destruct (decide (k' = k)) as [->|]; [specialize (Hk x Hx); lia|]. rewrite lookup_insert_ne by done. by apply Hknown'.
    - injection Hx as -> ->. apply lookup_insert_eq. }
  assert (Hsize' : (size (<[k := refused_at r]> seen') <= LOGIN_AUDIT_MAX_TRACKED)%nat).
  { rewrite map_size_insert. revert Hroom Hle Hsize. generalize LOGIN_AUDIT_MAX_TRACKED. intros m Hroom Hle Hsize.
    destruct (seen' !! k); unfold id; [lia|]. destruct Hroom as [[x Ex]|?]; [done|lia]. }
  pose proof (spaced_snoc w rs k (refused_at r) Hsp Hk) as Hsp'. split; try done.
  - intros k' x [Hx|Hx%list_elem_of_singleton]%elem_of_app; [by eapply Htimes'|]. injection Hx as -> ->. lia.
  - intros a. destruct (decide (a <= refused_at r /\ refused_at r < a + w)) as [Hin|Hout].
    + etransitivity; [|exact Hsize']. apply known_rows_length; [by apply spaced_keys_nodup|].
      intros k' x [[Hx1 Hx2] Hx]%list_elem_of_filter. cbn in *. apply Hknown2; [done|lia].
    + unfold rows_within. rewrite filter_app, list.filter_cons_False, list.filter_nil, app_nil_r by (cbn; done). apply Hcount.
Qed.

Lemma audit_inv_run w refusals : forall now rs seen, 0 < w -> refused_later now refusals ->
  Forall (fun r => w <= its_window r) refusals -> audit_inv w now rs seen ->
  exists now', audit_inv w now' (rs ++ rows refusals seen)%list (seen_after refusals seen).
Proof.
  induction refusals as [|r refusals IH]; intros now rs seen Hw Hlater Hws Hi; cbn.
  - exists now. by rewrite app_nil_r.
  - destruct Hlater as [Hn Hlater]. inversion Hws as [|? ? Hwr Hws']; subst.
    apply (audit_inv_step w now rs seen r) in Hi; [|lia|done]. revert Hi. destruct (audit_step r seen) as [b seen'].
    cbn [fst snd]. intros Hi. rewrite app_assoc. by eapply IH.
Qed.

(** The audit throttle.  Whatever refusals arrive, it remembers at most
    [LOGIN_AUDIT_MAX_TRACKED] sources, writes at most that many rows in any
    interval of the window's length, and writes the rows of one source - or
    all rows of the global backstop - at least a window apart.  The window is
    the shortest one in use: a full table is pruned with the window of the
    limiter at hand, so a refusal of the short-windowed backstop can drop
    sources whose own window still lasts. *)
Theorem audit_rows_bounded w now refusals :
  0 < w -> refused_later now refusals -> Forall (fun r => w <= its_window r) refusals ->
  (size (seen_after refusals ∅) <= LOGIN_AUDIT_MAX_TRACKED)%nat /\
  (forall a, (length (rows_within a (a + w) (rows refusals ∅)) <= LOGIN_AUDIT_MAX_TRACKED)%nat) /\
  spaced w (rows refusals ∅) /\
  (forall k x, (k, x) ∈ rows refusals ∅ -> fst k = GlobalBackstop -> k = (GlobalBackstop, "*")).
Proof.
  intros Hw Hlater Hws. destruct (audit_inv_run w refusals now [] ∅ Hw Hlater Hws) as [now' Hi].
  { split; try by intros ? ? ?%not_elem_of_nil.
    - rewrite map_size_empty. lia.
    - intros l1 k x l2 y E. by destruct l1.
    - intros a. cbn. lia. }
  cbn [app] in Hi. destruct Hi as [Hs _ _ Hsp Hc]. do 3 (split; [done|]). clear.
  generalize (∅ : Seen). induction refusals as [|r refusals IH]; intros seen k x; cbn; [by intros ?%not_elem_of_nil|].
  destruct (audit_step r seen) as [b seen']. intros [Hx|Hx]%elem_of_app; [|by eapply IH].
  destruct b; [|by apply not_elem_of_nil in Hx]. apply list_elem_of_singleton in Hx. injection Hx as -> ->.
  unfold audit_key. destruct (by_limiter r); cbn; [done|]. done.
Qed.

Definition refusal (l : LoginLimiter) (src : string) (w now : Z) : Refusal :=
  {| by_limiter := l; source := src; its_window := w; refused_at := now |}.
Definition sample_refusals : list Refusal :=
  [refusal PerAccount "ip:1.1.1.1" 900 0; refusal GlobalBackstop "ip:1.1.1.1" 60 5; refusal GlobalBackstop "ip:2.2.2.2" 60 6;
   refusal PerAccount "ip:1.1.1.1" 900 899; refusal PerAccount "ip:1.1.1.1" 900 900].

Lemma audit_rows_bounded_witness :
  rows sample_refusals ∅ =
    [((PerAccount, "ip:1.1.1.1"), 0); ((GlobalBackstop, "*"), 5); ((PerAccount, "ip:1.1.1.1"), 900)] /\
  0 + 60 <= 900.
Proof.
  split; [vm_compute; reflexivity|].
  destruct (audit_rows_bounded 60 0 sample_refusals) as (_ & _ & Hsp & _).
  - lia.
  - cbn. lia.
  - repeat constructor; cbn; lia.
  - apply (Hsp [] (PerAccount, "ip:1.1.1.1") 0 [((GlobalBackstop, "*"), 5); ((PerAccount, "ip:1.1.1.1"), 900)] 900).
    + vm_compute. reflexivity.
    + right. left.
Defined.

(** * The token endpoint *)

Definition has_bearer (r : Request) : bool :=
  match authorization r with Some a => starts_with "Bearer " a || starts_with "bearer " a | None => false end.

Section Token.
Context `{TokenCodecs}.

Lemma read_form_peek body f : read_form body = Some f ->
  peek_form body = Some {| peek_grant_type := grant_type f; peek_username := form_username f |}.
Proof.
  unfold read_form, peek_form. destruct (form_field "grant_type" _) as [g|]; cbn [mbind option_bind]; [|done].
  destruct (form_field "username" _) as [u|]; cbn [mbind option_bind]; [|done].
  destruct (form_field "password" _); cbn [mbind option_bind]; [|done].
  destruct (form_field "refresh_token" _); cbn [mbind option_bind]; [|done].
  destruct (form_field "access_type" _); cbn [mbind option_bind]; [|done]. by intros [= <-].
Qed.

Lemma form_credentials_inv r body u p : extract_form_credentials r body = Some (u, p) ->
  is_form r = true /\ is_empty u = false /\
  exists f, read_form body = Some f /\ form_username f = Some u /\ grant_type f <> Some "refresh_token".
Proof.
  unfold extract_form_credentials. destruct (is_empty body); [done|]. destruct (is_form r); cbn [negb]; [|done].
  destruct (read_form body) as [f|]; cbn [mbind option_bind]; [|done].
  destruct (match grant_type f with Some gt => negb (String.eqb gt "password") | None => false end) eqn:Eg; [done|].
  destruct (form_username f) as [u0|] eqn:Eu; cbn [mbind option_bind]; [|done].
  destruct (password f) as [p0|]; cbn [mbind option_bind]; [|done].
  destruct (is_empty u0) eqn:Ee; cbn [orb]; [done|]. destruct (is_empty p0); [done|]. intros [= -> ->].
  split; [done|]. split; [done|]. exists f. split; [done|]. split; [done|]. intros Er. by rewrite Er in Eg.
Qed.

(** Basic credentials and the name the limiter reads from the same header. *)
Lemma basic_names r a : authorization r = Some a ->
  match extract_basic_credentials r with
  | Some (u, _) => basic_auth_username a = if is_empty u then None else Some u
  | None => basic_auth_username a = None
  end.
Proof.
  intros Ea. unfold extract_basic_credentials, basic_auth_username. rewrite Ea. cbn [mbind option_bind].
  destruct (match strip_prefix "Basic " a with Some b => Some b | None => strip_prefix "basic " a end) as [b64|];
    cbn [mbind option_bind]; [|done].
  destruct (base64_decode b64) as [bytes|]; cbn [mbind option_bind]; [|done].
  destruct (valid_utf8 bytes); [|done]. by destruct (split_once _ bytes) as [[u p]|].
Qed.

Lemma not_basic r a : authorization r = Some a -> starts_with "Basic " a || starts_with "basic " a = false ->
  extract_basic_credentials r = None.
Proof.
  intros Ea Hs. unfold extract_basic_credentials. rewrite Ea. cbn [mbind option_bind].
  apply orb_false_iff in Hs as [H1 H2]. rewrite starts_with_strip in H1, H2.
  destruct (strip_prefix "Basic " a); [done|]. by destruct (strip_prefix "basic " a).
Qed.

Lemma form_is_limited r body u p client_ip : extract_form_credentials r body = Some (u, p) ->
  has_bearer r = false -> (forall a, authorization r = Some a -> starts_with "Basic " a || starts_with "basic " a = false) ->
  token_route r client_ip body = FormTooLarge \/ token_route r client_ip body = Limited (login_key (Some u) client_ip) (Some u).
Proof.
  intros (Hf & Hu & f & Ef & Eu & Eg)%form_credentials_inv Hb Hn. unfold token_route, has_bearer in *.
  rewrite Hf, (read_form_peek _ _ Ef). cbn [negb mbind option_bind peek_grant_type peek_username].
  rewrite bool_decide_eq_false_2, Eu by done. cbn [mbind option_bind]. rewrite Hu. unfold token_key.
  destruct (authorization r) as [a|]; [rewrite Hb, Hn by done|]; (destruct (_ <? _)%nat; [by left|by right]).
Qed.

(** The passwords of the token endpoint.  Whenever the handler of
    [/v2/token] goes on to verify a user name and password, the middleware in
    front of it has limited the request under that name and source, or under
    the source alone, or refused its form - except, exactly, when the request
    carries a Bearer header besides its form: the middleware lets it pass as a
    token swap, and the handler, which finds no Basic header, verifies the
    password of the form.  Adding any Bearer header makes password guesses
    unlimited. *)
Theorem token_passwords_limited r client_ip body u p :
  token_credentials r body = Some (u, p) ->
  (token_route r client_ip body = Passes <-> has_bearer r = true) /\
  (has_bearer r = false ->
   token_route r client_ip body = FormTooLarge \/
   exists name, (name = Some u \/ name = None) /\ token_route r client_ip body = Limited (login_key name client_ip) name).
Proof.
  intros Hc.
  assert (Hlim : has_bearer r = false ->
    token_route r client_ip body = FormTooLarge \/
    exists name, (name = Some u \/ name = None) /\ token_route r client_ip body = Limited (login_key name client_ip) name).
  { intros Hb. unfold token_credentials in Hc. case_match; [done|].
    destruct (authorization r) as [a|] eqn:Ea.
    - destruct (starts_with "Basic " a || starts_with "basic " a) eqn:Hbasic.
      + right. exists (basic_auth_username a). split.
        * pose proof (basic_names r a Ea) as Hn. destruct (extract_basic_credentials r) as [[u0 p0]|]; [|by right].
          injection Hc as -> ->. rewrite Hn. case_match; [by right|by left].
        * unfold token_route. unfold has_bearer in Hb. rewrite Ea in *. by rewrite Hb, Hbasic.
      + rewrite (not_basic r a Ea Hbasic) in Hc.
        destruct (form_is_limited r body u p client_ip Hc Hb) as [?|?]; [|by left|right; exists (Some u); auto].
        intros a' [= <-]%(eq_trans (eq_sym Ea)). done.
    - assert (extract_basic_credentials r = None) as E0 by (unfold extract_basic_credentials; by rewrite Ea).
      rewrite E0 in Hc. destruct (form_is_limited r body u p client_ip Hc Hb) as [?|?]; [by rewrite Ea|by left|right; exists (Some u); auto]. }
  split; [|done]. split.
  - intros Hp. apply not_false_is_true. intros Hb. destruct (Hlim Hb) as [E|(name & _ & E)]; by rewrite Hp in E.
  - intros Hb. unfold token_route, has_bearer in *. destruct (authorization r) as [a|]; [by rewrite Hb|done].
Qed.
End Token.

(** The pairs of a form without escapes; no header is decoded. *)
#[local] Instance plain_codecs : TokenCodecs :=
  {| base64_decode := fun _ => None;
     form_pairs := fun body => omap (fun p => split_once (Ascii.eqb "=") p) (split_char "&" body) |}.

Definition guess (authorization_ : option string) : Request :=
  {| auth_ext := None; peer := None; x_forwarded_for := []; authorization := authorization_;
     content_type := Some "application/x-www-form-urlencoded; charset=UTF-8" |}.

Lemma token_passwords_limited_witness :
  let body := "grant_type=password&username=alice&password=guess" in
  token_credentials (guess (Some "Bearer x")) body = Some ("alice", "guess") /\
  token_route (guess (Some "Bearer x")) "ip:6.6.6.6" body = Passes /\
  token_route (guess None) "ip:6.6.6.6" body = Limited "login:alice|ip:6.6.6.6" (Some "alice").
Proof.
  intros body. split; [vm_compute; reflexivity|]. split; [|vm_compute; reflexivity].
  apply (token_passwords_limited (guess (Some "Bearer x")) "ip:6.6.6.6" body "alice" "guess"); vm_compute; reflexivity.
Defined.
