(* ===== verification/Catalog.v ===== *)
(** The rows of the catalogue the scan policies and the quarantine share:
    artifacts with their quarantine columns, the scan results and findings,
    the policies and the fact tables their predicates read ([migrations/]).

    [artifacts] is keyed by its primary key; the other tables are lists.  The
    columns no modelled statement reads are left out. *)

From stdpp Require Import base list strings gmap.
From Stdlib Require Import ZArith.
From S2P Require Import Prelude RustStr.

Local Open Scope string_scope.

(** The CHECK of [artifacts.quarantine_status]. *)
Inductive QStatus := Unscanned | Clean | Flagged | Quarantined | Released | Rejected.

#[global] Instance QStatus_eq_dec : EqDecision QStatus.
Proof. solve_decision. Defined.

Record Artifact := {
  repository_id : Uuid;
  path : string;
  name : string;
  version : option string;
  checksum_sha256 : string;
  origin : option Json;
  is_deleted : bool;
  quarantine_status : option QStatus;
  quarantine_until : option DateTime;
  quarantine_reason : option string
}.

Record RepositoryRow := { repo_id : Uuid; repo_key : string; repo_type : string; repo_format : string }.
Record ConfigRow := { config_repository : Uuid; config_key : string; config_value : option string }.
Record MetadataRow := { meta_artifact : Uuid; meta_format : string; metadata : Json }.
Record InstallScriptRow := { script_artifact : Uuid; findings : option Json }.
Record CurationPackageRow := {
  staging_repo_id : Uuid; cp_format : string; package_name : string; cp_version : string;
  attestation_state : string
}.

(** The two columns of a scan result its state is read from. *)
Record ScanStateRow := { status : string; error_message : option string }.

Record ScanResult := {
  scan_artifact : Uuid;
  scan_type : string;
  state : ScanStateRow;
  completed_at : option DateTime;
  created_at : DateTime
}.

Record ScanFinding := { finding_artifact : Uuid; severity : string; is_acknowledged : bool }.

Record ScanPolicy := {
  policy_id : Uuid;
  policy_name : string;
  policy_repository : option Uuid;
  max_severity : string;
  block_unscanned : bool;
  block_on_fail : bool;
  is_enabled : bool;
  min_staging_hours : option Z;
  max_artifact_age_days : option Z;
  require_signature : bool;
  predicates : Json
}.

Record Db := {
  artifacts : gmap Uuid Artifact;
  repositories : list RepositoryRow;
  repository_config : list ConfigRow;
  artifact_metadata : list MetadataRow;
  install_scripts : list InstallScriptRow;
  curation_packages : list CurationPackageRow;
  scan_results : list ScanResult;
  scan_findings : list ScanFinding;
  scan_policies : list ScanPolicy
}.

Definition set_artifacts (f : gmap Uuid Artifact -> gmap Uuid Artifact) (db : Db) : Db :=
  {| artifacts := f (artifacts db); repositories := repositories db; repository_config := repository_config db;
     artifact_metadata := artifact_metadata db; install_scripts := install_scripts db;
     curation_packages := curation_packages db; scan_results := scan_results db;
     scan_findings := scan_findings db; scan_policies := scan_policies db |}.

Definition set_policies (f : list ScanPolicy -> list ScanPolicy) (db : Db) : Db :=
  {| artifacts := artifacts db; repositories := repositories db; repository_config := repository_config db;
     artifact_metadata := artifact_metadata db; install_scripts := install_scripts db;
     curation_packages := curation_packages db; scan_results := scan_results db;
     scan_findings := scan_findings db; scan_policies := f (scan_policies db) |}.

(** [SELECT ... WHERE id = $1 AND is_deleted = false]. *)
Definition live_artifact (db : Db) (i : Uuid) : option Artifact :=
  a ← artifacts db !! i; if is_deleted a then None else Some a.
