(* ===== verification/ScanPolicy.v ===== *)
(** Scan policies ([services/scan_state.rs], [services/policy_service.rs]):
    how the scan results of an artifact are classified, the predicates on the
    facts it carries, and the verdict of the policies of its repository, which
    the download gate enforces. *)

From stdpp Require Import base list strings pretty gmap.
From Stdlib Require Import ZArith Lia Ascii.
From S2P Require Import Prelude RustStr RustNum Errors UpstreamUrl Catalog.

Local Open Scope string_scope.
Local Open Scope list_scope.
Local Open Scope Z_scope.
Local Open Scope result_scope.

(** * Scan state *)

Definition NOT_APPLICABLE_STATUS : string := "not_applicable".
Definition NOT_APPLICABLE_MARKER : string := "does not apply".

Definition is_not_applicable (r : ScanStateRow) : bool :=
  if String.eqb (status r) NOT_APPLICABLE_STATUS then true
  else String.eqb (status r) "failed" &&
    match error_message r with Some m => contains NOT_APPLICABLE_MARKER m | None => false end.

Definition is_crash (r : ScanStateRow) : bool := String.eqb (status r) "failed" && negb (is_not_applicable r).

Definition any_scanner_failed (latest_per_scan_type : list ScanStateRow) : bool := existsb is_crash latest_per_scan_type.

Inductive ScanState := Completed | InProgress | Failed | NeverScanned | NotApplicable.

Definition is_unscanned (s : ScanState) : bool :=
  match s with InProgress | Failed | NeverScanned => true | Completed | NotApplicable => false end.

Definition reason_token (s : ScanState) : string :=
  match s with
  | Completed => "completed"
  | InProgress => "scan_in_progress"
  | Failed => "scan_failed"
  | NeverScanned => "never_scanned"
  | NotApplicable => "not_applicable"
  end.

Definition classify_scan_state (rows : list ScanStateRow) : ScanState :=
  if existsb (fun r => String.eqb (status r) "completed") rows then Completed
  else if existsb (fun r => String.eqb (status r) "pending" || String.eqb (status r) "running") rows then InProgress
  else if existsb is_crash rows then Failed
  else match rows with [] => NeverScanned | _ :: _ => NotApplicable end.

(** [SCAN_STATE_SQL]. *)
Definition scan_state_rows (db : Db) (artifact_id : Uuid) : list ScanStateRow :=
  state <$> List.filter (fun r => bool_decide (scan_artifact r = artifact_id)) (scan_results db).

(** [LATEST_PER_SCAN_TYPE_SQL]: [ORDER BY scan_type, completed_at DESC NULLS
    LAST, created_at DESC], and the first row of each [scan_type].  Rows that
    tie on all three come in the order of the table. *)
Definition desc (a b : Z) : comparison := Z.compare b a.

Definition desc_nulls_last (a b : option Z) : comparison :=
  match a, b with
  | Some a, Some b => desc a b
  | Some _, None => Lt
  | None, Some _ => Gt
  | None, None => Eq
  end.

Definition by_recency : ScanResult -> ScanResult -> comparison :=
  lex (cmp_on completed_at desc_nulls_last) (cmp_on created_at desc).

Fixpoint distinct_on {A} (f : A -> string) (seen : list string) (l : list A) : list A :=
  match l with
  | [] => []
  | x :: l => if one_of (f x) seen then distinct_on f seen l else x :: distinct_on f (f x :: seen) l
  end.

Definition latest_per_scan_type (db : Db) (artifact_id : Uuid) : list ScanStateRow :=
  state <$> distinct_on scan_type []
    (sort_by by_recency (List.filter (fun r => bool_decide (scan_artifact r = artifact_id)) (scan_results db))).

(** * Predicates *)

Definition SCRIPT_SEVERITY_NAMES : list string := ["info"; "low"; "medium"; "high"].

Fixpoint position (s : string) (l : list string) : option Z :=
  match l with
  | [] => None
  | x :: l => if String.eqb x s then Some 0 else Z.succ <$> position s l
  end.

Definition script_severity_rank (severity : string) : option Z := position severity SCRIPT_SEVERITY_NAMES.

Definition ALLOWED_MIN_ATTESTATION_STATES : list string := ["present"; "verified"].
Definition ALLOWED_MAX_SEVERITIES : list string := ["critical"; "high"; "medium"; "low"].
Definition ALL_KINDS : list string := ["hosted"; "proxy"; "virtual"; "migration"].

Record CondaPolicyPredicates := {
  allowed_channels : list string;
  denied_channels : list string;
  denied_licenses : list string;
  denied_license_families : list string;
  block_install_scripts : bool;
  max_install_script_severity : option string;
  min_attestation_state : option string
}.

Record OriginPolicyPredicates := {
  allowed_upstreams : list string;
  denied_upstreams : list string;
  allowed_repositories : list string;
  denied_repositories : list string;
  allowed_kinds : list string
}.

Record PolicyPredicates := { conda : CondaPolicyPredicates; origin_block : OriginPolicyPredicates }.

Definition no_conda : CondaPolicyPredicates :=
  {| allowed_channels := []; denied_channels := []; denied_licenses := []; denied_license_families := [];
     block_install_scripts := false; max_install_script_severity := None; min_attestation_state := None |}.
Definition no_origin : OriginPolicyPredicates :=
  {| allowed_upstreams := []; denied_upstreams := []; allowed_repositories := []; denied_repositories := [];
     allowed_kinds := [] |}.
Definition no_predicates : PolicyPredicates := {| conda := no_conda; origin_block := no_origin |}.

Definition is_nil {A} (l : list A) : bool := match l with [] => true | _ :: _ => false end.
Definition is_none {A} (o : option A) : bool := match o with None => true | Some _ => false end.

Definition conda_is_inert (p : CondaPolicyPredicates) : bool :=
  is_nil (allowed_channels p) && is_nil (denied_channels p) && is_nil (denied_licenses p) &&
  is_nil (denied_license_families p) && negb (block_install_scripts p) &&
  is_none (max_install_script_severity p) && is_none (min_attestation_state p).

Definition origin_is_inert (p : OriginPolicyPredicates) : bool :=
  is_nil (allowed_upstreams p) && is_nil (denied_upstreams p) && is_nil (allowed_repositories p) &&
  is_nil (denied_repositories p) && is_nil (allowed_kinds p).

(** ** Reading a derived [Deserialize]

    The fields of a struct, by name from an object and by position from an
    array; a missing one is [None], which an array only allows when the struct
    has defaults. *)
Definition struct_fields (defaults : bool) (names : list string) (j : Json) : option (list (option Json)) :=
  match j with
  | JObject _ => Some ((fun n => json_get n j) <$> names)
  | JArray l =>
      if (length l =? length names)%nat || (defaults && (length l <=? length names)%nat)
      then Some (take (length names) ((Some <$> l) ++ replicate (length names) None)) else None
  | _ => None
  end.

Definition de_strings (f : option Json) : option (list string) :=
  match f with
  | None => Some []
  | Some (JArray l) => mapM json_as_str l
  | Some _ => None
  end.
Definition de_bool (f : option Json) : option bool :=
  match f with None => Some false | Some (JBool b) => Some b | Some _ => None end.
Definition de_opt_string (f : option Json) : option (option string) :=
  match f with None | Some JNull => Some None | Some (JString s) => Some (Some s) | Some _ => None end.

Definition CONDA_FIELDS : list string :=
  ["allowed_channels"; "denied_channels"; "denied_licenses"; "denied_license_families"; "block_install_scripts";
   "max_install_script_severity"; "min_attestation_state"].
Definition ORIGIN_FIELDS : list string :=
  ["allowed_upstreams"; "denied_upstreams"; "allowed_repositories"; "denied_repositories"; "allowed_kinds"].

Definition de_conda (j : Json) : option CondaPolicyPredicates :=
  fs ← struct_fields true CONDA_FIELDS j;
  match fs with
  | [ac; dc; dl; df; bs; ms; ma] =>
      ac ← de_strings ac; dc ← de_strings dc; dl ← de_strings dl; df ← de_strings df;
      bs ← de_bool bs; ms ← de_opt_string ms; ma ← de_opt_string ma;
      Some {| allowed_channels := ac; denied_channels := dc; denied_licenses := dl; denied_license_families := df;
              block_install_scripts := bs; max_install_script_severity := ms; min_attestation_state := ma |}
  | _ => None
  end.

Definition de_origin (j : Json) : option OriginPolicyPredicates :=
  fs ← struct_fields true ORIGIN_FIELDS j;
  match fs with
  | [au; du; ar; dr; ak] =>
      au ← de_strings au; du ← de_strings du; ar ← de_strings ar; dr ← de_strings dr; ak ← de_strings ak;
      Some {| allowed_upstreams := au; denied_upstreams := du; allowed_repositories := ar;
              denied_repositories := dr; allowed_kinds := ak |}
  | _ => None
  end.

Definition de_predicates (j : Json) : option PolicyPredicates :=
  fs ← struct_fields true ["conda"; "origin"] j;
  match fs with
  | [c; o] =>
      c ← (match c with None => Some no_conda | Some j => de_conda j end);
      o ← (match o with None => Some no_origin | Some j => de_origin j end);
      Some {| conda := c; origin_block := o |}
  | _ => None
  end.

Definition parse_policy_predicates (value : Json) : PolicyPredicates := default no_predicates (de_predicates value).

(** [serde_json::to_value] of the normalized predicates. *)
Definition json_strings (l : list string) : Json := JArray (JString <$> l).
Definition json_opt_string (o : option string) : Json := match o with Some s => JString s | None => JNull end.

Definition conda_to_value (p : CondaPolicyPredicates) : Json :=
  JObject
    [("allowed_channels", json_strings (allowed_channels p));
     ("denied_channels", json_strings (denied_channels p));
     ("denied_licenses", json_strings (denied_licenses p));
     ("denied_license_families", json_strings (denied_license_families p));
     ("block_install_scripts", JBool (block_install_scripts p));
     ("max_install_script_severity", json_opt_string (max_install_script_severity p));
     ("min_attestation_state", json_opt_string (min_attestation_state p))].

Definition origin_to_value (p : OriginPolicyPredicates) : Json :=
  JObject
    [("allowed_upstreams", json_strings (allowed_upstreams p));
     ("denied_upstreams", json_strings (denied_upstreams p));
     ("allowed_repositories", json_strings (allowed_repositories p));
     ("denied_repositories", json_strings (denied_repositories p));
     ("allowed_kinds", json_strings (allowed_kinds p))].

Definition predicates_to_value (p : PolicyPredicates) : Json :=
  JObject [("conda", conda_to_value (conda p)); ("origin", origin_to_value (origin_block p))].

(** ** Validation of a client's document *)

Definition normalize_max_severity (raw : string) : result AppError string :=
  let normalized := to_ascii_lowercase (trim raw) in
  if one_of normalized ALLOWED_MAX_SEVERITIES then Ok normalized
  else Err (Validation ("invalid max_severity '" +:+ raw +:+ "': must be one of critical, high, medium, low")).

(** [iter().map(f).collect::<Result<Vec<_>>>()]: the first error wins. *)
Fixpoint collect {E A B} (f : A -> result E B) (l : list A) : result E (list B) :=
  match l with
  | [] => Ok []
  | x :: l => let? y := f x in let? l := collect f l in Ok (y :: l)
  end.

Definition transpose {E A B} (f : A -> result E B) (o : option A) : result E (option B) :=
  match o with None => Ok None | Some x => let? y := f x in Ok (Some y) end.

Definition normalize_list (field : string) (values : list string) : result AppError (list string) :=
  collect (fun v =>
    let normalized := to_ascii_lowercase (trim v) in
    if is_empty normalized
    then Err (Validation ("invalid predicates." +:+ field +:+ ": entries must be non-empty"))
    else Ok normalized) values.

(** A value of a fixed vocabulary. *)
Definition normalize_token (field : string) (allowed : list string) (listed raw : string) : result AppError string :=
  let normalized := to_ascii_lowercase (trim raw) in
  if one_of normalized allowed then Ok normalized
  else Err (Validation ("invalid predicates." +:+ field +:+ " '" +:+ raw +:+ "': must be one of " +:+ listed)).

Definition normalize_origin_predicates (raw : OriginPolicyPredicates) : result AppError OriginPolicyPredicates :=
  let? ak := collect (normalize_token "origin.allowed_kinds" ALL_KINDS (join ", " ALL_KINDS)) (allowed_kinds raw) in
  let? au := normalize_list "origin.allowed_upstreams" (allowed_upstreams raw) in
  let? du := normalize_list "origin.denied_upstreams" (denied_upstreams raw) in
  let? ar := normalize_list "origin.allowed_repositories" (allowed_repositories raw) in
  let? dr := normalize_list "origin.denied_repositories" (denied_repositories raw) in
  Ok {| allowed_upstreams := au; denied_upstreams := du; allowed_repositories := ar; denied_repositories := dr;
        allowed_kinds := ak |}.

Definition normalize_predicates (raw : PolicyPredicates) : result AppError PolicyPredicates :=
  let c := conda raw in
  let? ms := transpose (normalize_token "conda.max_install_script_severity" SCRIPT_SEVERITY_NAMES
                          "info, low, medium, high") (max_install_script_severity c) in
  let? ma := transpose (normalize_token "conda.min_attestation_state" ALLOWED_MIN_ATTESTATION_STATES
                          "present, verified") (min_attestation_state c) in
  let? ac := normalize_list "conda.allowed_channels" (allowed_channels c) in
  let? dc := normalize_list "conda.denied_channels" (denied_channels c) in
  let? dl := normalize_list "conda.denied_licenses" (denied_licenses c) in
  let? df := normalize_list "conda.denied_license_families" (denied_license_families c) in
  let? o := normalize_origin_predicates (origin_block raw) in
  Ok {| conda := {| allowed_channels := ac; denied_channels := dc; denied_licenses := dl;
                    denied_license_families := df; block_install_scripts := block_install_scripts c;
                    max_install_script_severity := ms; min_attestation_state := ma |};
        origin_block := o |}.

(** ** Facts *)

Inductive CondaAttestationFact := Absent | PresentUnverified | Verified.

#[global] Instance CondaAttestationFact_eq_dec : EqDecision CondaAttestationFact.
Proof. solve_decision. Defined.

Definition attestation_fact (state : option string) : CondaAttestationFact :=
  match state with
  | None => Absent
  | Some s => if String.eqb s "verified" then Verified else PresentUnverified
  end.

Definition fold_attestation_facts (a b : CondaAttestationFact) : CondaAttestationFact :=
  match a, b with
  | Absent, x | x, Absent => x
  | Verified, Verified => Verified
  | _, _ => PresentUnverified
  end.

Record CondaFacts := {
  is_conda : bool;
  channel : option string;
  license : option string;
  license_family : option string;
  install_script_count : Z;
  max_script_finding_rank : option Z;
  attestation : CondaAttestationFact
}.

Definition default_conda_facts : CondaFacts :=
  {| is_conda := false; channel := None; license := None; license_family := None; install_script_count := 0;
     max_script_finding_rank := None; attestation := Absent |}.

Record OriginFacts := {
  kind : option string;
  repository_key : option string;
  upstream_url : option string
}.

Definition default_origin_facts : OriginFacts := {| kind := None; repository_key := None; upstream_url := None |}.

Definition hex_val (c : ascii) : option Z :=
  if is_digit c then Some (byte_val c - 48)
  else if in_range 97 102 c then Some (byte_val c - 97 + 10)
  else if in_range 65 70 c then Some (byte_val c - 65 + 10)
  else None.

Fixpoint percent_decode_bytes (s : string) : string :=
  match s with
  | EmptyString => ""
  | String c t =>
      match t with
      | String h (String l rest) =>
          if Ascii.eqb c "%" then
            match hex_val h, hex_val l with
            | Some h, Some l => String (byte_of (h * 16 + l)) (percent_decode_bytes rest)
            | _, _ => String c (percent_decode_bytes t)
            end
          else String c (percent_decode_bytes t)
      | _ => String c (percent_decode_bytes t)
      end
  end.

Definition percent_decode_loose (s : string) : string := from_utf8_lossy (percent_decode_bytes s).

Definition channel_from_purl (purl : string) : option string :=
  '(_, qualifiers) ← split_once (Ascii.eqb "?") purl;
  find_map (fun pair =>
    value ← strip_prefix "channel=" pair;
    let decoded := percent_decode_loose value in
    if is_empty decoded then None else Some decoded) (split_char "&" qualifiers).

Definition IDENTITY_METADATA_KEY : string := "identity".
Definition VERIFICATION_METADATA_KEY : string := "attestation_verification".

Definition json_str_at (k : string) (j : Json) : option string := v ← json_get k j; json_as_str v.

Definition non_empty (o : option string) : option string := s ← o; if is_empty s then None else Some s.

(** The rank the query gives to one element of a findings array. *)
Definition finding_rank (f : Json) : Z :=
  match json_str_at "severity" f with
  | Some s => if String.eqb s "high" then 3 else if String.eqb s "medium" then 2 else if String.eqb s "low" then 1 else 0
  | None => 0
  end.

(** [jsonb_array_elements], which refuses a document that is no array. *)
Definition array_elements (j : option Json) : result AppError (list Json) :=
  match j with
  | None => Ok []
  | Some (JArray l) => Ok l
  | Some _ => Err (Database "cannot extract elements from a non-array")
  end.

Definition max_rank (l : list Z) : option Z :=
  match l with [] => None | x :: l => Some (foldr Z.max x l) end.

(** [ORDER BY CASE ... LIMIT 1]: the weakest state on record. *)
Definition weakest_state (l : list string) : option string :=
  if one_of "failed" l then Some "failed" else if one_of "unverified" l then Some "unverified" else head l.

Definition load_conda_facts (db : Db) (artifact_id : Uuid) : result AppError CondaFacts :=
  match artifacts db !! artifact_id with
  | None => Ok default_conda_facts
  | Some a =>
      match List.find (fun r => bool_decide (repo_id r = repository_id a)) (repositories db) with
      | None => Ok default_conda_facts
      | Some repo =>
          let row := List.find (fun m => bool_decide (meta_artifact m = artifact_id)) (artifact_metadata db) in
          let is_conda := String.eqb (repo_format repo) "conda" ||
                          match row with Some m => String.eqb (meta_format m) "conda" | None => false end in
          let doc := match row with Some m => metadata m | None => JNull end in
          let channel := d ← json_get IDENTITY_METADATA_KEY doc; p ← json_str_at "purl" d; channel_from_purl p in
          let scripts := List.filter (fun s => bool_decide (script_artifact s = artifact_id)) (install_scripts db) in
          let? elements := collect array_elements (findings <$> scripts) in
          let recorded := weakest_state (attestation_state <$>
            List.filter (fun c => bool_decide (staging_repo_id c = repository_id a) && String.eqb (cp_format c) "conda" &&
                                  String.eqb (package_name c) (name a) && bool_decide (Some (cp_version c) = version a))
              (curation_packages db)) in
          let uploaded := r ← json_get VERIFICATION_METADATA_KEY doc; json_str_at "state" r in
          Ok {| is_conda := is_conda; channel := channel;
                license := non_empty (json_str_at "license" doc);
                license_family := non_empty (json_str_at "license_family" doc);
                install_script_count := Z.of_nat (length scripts);
                max_script_finding_rank := max_rank (finding_rank <$> concat elements);
                attestation := fold_attestation_facts (attestation_fact recorded) (attestation_fact uploaded) |}
      end
  end.

(** [ArtifactOrigin::from_json]; the version is an [i32]. *)
Definition is_i32 (j : option Json) : bool :=
  match j with
  | Some (JNumber n) => match parse_i64 n with Some z => bool_decide (as_i32 z = z) | None => false end
  | _ => false
  end.

Definition origin_from_json (value : Json) : option OriginFacts :=
  fs ← struct_fields false ["v"; "kind"; "repository_key"; "upstream_url"] value;
  match fs with
  | [v; k; r; u] =>
      if is_i32 v then
        k ← k; k ← json_as_str k;
        r ← r; r ← json_as_str r;
        u ← de_opt_string u;
        Some {| kind := Some k; repository_key := Some r; upstream_url := u |}
      else None
  | _ => None
  end.

Definition load_origin_facts (db : Db) (artifact_id : Uuid) : OriginFacts :=
  default default_origin_facts (a ← artifacts db !! artifact_id; o ← origin a; origin_from_json o).

(** ** Evaluation of the predicates *)

(** One message of one predicate of one policy. *)
Definition tagged (policy token what : string) : string := "Policy '" +:+ policy +:+ "' [" +:+ token +:+ "]: " +:+ what.

Definition only_if (b : bool) (msg : string) : list string := if b then [msg] else [].

(** An allowlist over a fact that may be unknown. *)
Definition allowlist (allowed : list string) (fact : option string) (refused : string -> string) (unknown : string)
  : list string :=
  if is_nil allowed then []
  else match fact with Some v => only_if (negb (one_of v allowed)) (refused v) | None => [unknown] end.

Definition denylist (denied : list string) (fact : option string) (refused : string -> string) : list string :=
  match fact with Some v => only_if (one_of v denied) (refused v) | None => [] end.

(** [SCRIPT_SEVERITY_NAMES[rank.clamp(0, 3)]]. *)
Definition rank_name (rank : Z) : string := nth (Z.to_nat (Z.max 0 (Z.min rank 3))) SCRIPT_SEVERITY_NAMES "".

Definition evaluate_conda_predicates (policy_name : string) (preds : CondaPolicyPredicates) (facts : CondaFacts)
  : list string :=
  let msg := tagged policy_name in
  if conda_is_inert preds || negb (is_conda facts) then []
  else
    let channel := to_ascii_lowercase <$> channel facts in
    allowlist (allowed_channels preds) channel
      (fun c => msg "conda.channel" ("channel of origin '" +:+ c +:+ "' is not in the policy's allowed channels"))
      (msg "conda.channel" "channel of origin is unknown and the policy restricts allowed channels") ++
    denylist (denied_channels preds) channel
      (fun c => msg "conda.channel" ("channel of origin '" +:+ c +:+ "' is denied")) ++
    denylist (denied_licenses preds) (to_ascii_lowercase <$> license facts)
      (fun l => msg "conda.license" ("declared license '" +:+ l +:+ "' is denied")) ++
    denylist (denied_license_families preds) (to_ascii_lowercase <$> license_family facts)
      (fun f => msg "conda.license_family" ("declared license family '" +:+ f +:+ "' is denied")) ++
    only_if (block_install_scripts preds && (0 <? install_script_count facts))
      (msg "conda.install_scripts" ("package carries " +:+ pretty (install_script_count facts) +:+ " install-time script(s)")) ++
    match max_install_script_severity preds, max_script_finding_rank facts with
    | Some threshold, Some rank =>
        only_if (default 0 (script_severity_rank threshold) <=? rank)
          (msg "conda.install_scripts" ("install-script finding severity '" +:+ rank_name rank +:+
             "' meets or exceeds the policy threshold '" +:+ threshold +:+ "'"))
    | _, _ => []
    end ++
    match min_attestation_state preds with
    | Some m =>
        if String.eqb m "present" && bool_decide (attestation facts = Absent)
        then [msg "conda.attestation" "no publish attestation is on record, but the policy requires one"]
        else if String.eqb m "verified" && negb (bool_decide (attestation facts = Verified))
        then [msg "conda.attestation" ("attestation is " +:+
                match attestation facts with Absent => "absent" | _ => "present but unverified" end +:+
                ", but the policy requires a verified attestation")]
        else []
    | None => []
    end.

Section Policies.
Context `{UrlCrates}.

Definition origin_upstream_for_message (upstream : string) : string := fst (strip_url_userinfo upstream).

Definition evaluate_origin_predicates (policy_name : string) (preds : OriginPolicyPredicates) (facts : OriginFacts)
  : list string :=
  let msg := tagged policy_name in
  if origin_is_inert preds then []
  else
    let upstream := to_ascii_lowercase <$> upstream_url facts in
    let repository := to_ascii_lowercase <$> repository_key facts in
    allowlist (allowed_upstreams preds) upstream
      (fun u => msg "origin.upstream" ("upstream of origin '" +:+ origin_upstream_for_message u +:+
         "' is not in the policy's allowed upstreams"))
      (msg "origin.upstream" "upstream of origin is unknown and the policy restricts allowed upstreams") ++
    denylist (denied_upstreams preds) upstream
      (fun u => msg "origin.upstream" ("upstream of origin '" +:+ origin_upstream_for_message u +:+ "' is denied")) ++
    allowlist (allowed_repositories preds) repository
      (fun r => msg "origin.repository" ("recording repository '" +:+ r +:+ "' is not in the policy's allowed repositories"))
      (msg "origin.repository" "recording repository is unknown and the policy restricts allowed repositories") ++
    denylist (denied_repositories preds) repository
      (fun r => msg "origin.repository" ("recording repository '" +:+ r +:+ "' is denied")) ++
    allowlist (allowed_kinds preds) (to_ascii_lowercase <$> kind facts)
      (fun k => msg "origin.kind" ("ingest kind '" +:+ k +:+ "' is not in the policy's allowed kinds"))
      (msg "origin.kind" "ingest kind is unknown and the policy restricts allowed kinds").

(** [load_applicable_policies]: the repository's own policies, then the global
    ones. *)
Definition load_applicable_policies (db : Db) (repository_id : Uuid) : list ScanPolicy :=
  let enabled := List.filter is_enabled (scan_policies db) in
  List.filter (fun p => bool_decide (policy_repository p = Some repository_id)) enabled ++
  List.filter (fun p => bool_decide (policy_repository p = None)) enabled.

(** The violations of [predicate_outcome].  A family of facts is only loaded
    when some policy of the list configures predicates on it. *)
Definition predicate_violations (db : Db) (artifact_id : Uuid) (policies : list ScanPolicy)
  : result AppError (list string) :=
  let parsed := (fun p => (policy_name p, parse_policy_predicates (predicates p))) <$> policies in
  let? conda_facts :=
    if existsb (fun p => negb (conda_is_inert (conda (snd p)))) parsed
    then let? f := load_conda_facts db artifact_id in Ok (Some f) else Ok None in
  let origin_facts :=
    if existsb (fun p => negb (origin_is_inert (origin_block (snd p)))) parsed
    then Some (load_origin_facts db artifact_id) else None in
  Ok (flat_map (fun '(name, preds) =>
        match conda_facts with
        | Some facts => if conda_is_inert (conda preds) then [] else evaluate_conda_predicates name (conda preds) facts
        | None => []
        end ++
        match origin_facts with
        | Some facts =>
            if origin_is_inert (origin_block preds) then [] else evaluate_origin_predicates name (origin_block preds) facts
        | None => []
        end) parsed).

Record PostScanGates := { block_on_fail_applies : bool; severity_applies : bool }.

Definition post_scan_gates (any_scanner_failed has_completed_scan has_unacknowledged_findings : bool) : PostScanGates :=
  {| block_on_fail_applies := any_scanner_failed;
     severity_applies := has_completed_scan || has_unacknowledged_findings |}.

Definition block_unscanned_violated (block_unscanned : bool) (s : ScanState) : bool := block_unscanned && is_unscanned s.

(** The severities a threshold counts. *)
Definition severities_at_or_above (max_severity : string) : list string :=
  if String.eqb max_severity "critical" then ["critical"]
  else if String.eqb max_severity "high" then ["critical"; "high"]
  else if String.eqb max_severity "medium" then ["critical"; "high"; "medium"]
  else ["critical"; "high"; "medium"; "low"].

Definition open_findings (db : Db) (artifact_id : Uuid) : list ScanFinding :=
  List.filter (fun f => bool_decide (finding_artifact f = artifact_id) && negb (is_acknowledged f)) (scan_findings db).

Definition violating_count (db : Db) (artifact_id : Uuid) (max_severity : string) : Z :=
  Z.of_nat (length (List.filter (fun f => one_of (severity f) (severities_at_or_above max_severity))
                      (open_findings db artifact_id))).

Record PolicyResult := { allowed : bool; violations : list string }.

(** The loop over the policies: the violations of the scan gates, and the
    policies whose gates did not already refuse the artifact. *)
Fixpoint scan_gate_loop (db : Db) (artifact_id : Uuid) (gates : PostScanGates) (s : ScanState)
  (policies : list ScanPolicy) : list string * list ScanPolicy :=
  match policies with
  | [] => ([], [])
  | p :: policies =>
      let '(vs, ps) := scan_gate_loop db artifact_id gates s policies in
      if block_unscanned_violated (block_unscanned p) s
      then (("Policy '" +:+ policy_name p +:+ "': artifact has not been scanned (" +:+ reason_token s +:+ ")") :: vs, ps)
      else if block_on_fail p && block_on_fail_applies gates
      then (("Policy '" +:+ policy_name p +:+ "': latest scan failed") :: vs, ps)
      else
        let n := violating_count db artifact_id (max_severity p) in
        (only_if (severity_applies gates && (0 <? n))
           ("Policy '" +:+ policy_name p +:+ "': " +:+ pretty n +:+ " findings at or above " +:+ max_severity p +:+
            " severity") ++ vs, p :: ps)
  end.

Definition has_completed_scan (db : Db) (artifact_id : Uuid) : bool :=
  existsb (fun r => String.eqb (status r) "completed") (scan_state_rows db artifact_id).

Definition evaluate_artifact (db : Db) (artifact_id repository_id : Uuid) : result AppError PolicyResult :=
  let policies := load_applicable_policies db repository_id in
  match policies with
  | [] => Ok {| allowed := true; violations := [] |}
  | _ :: _ =>
      let gates := post_scan_gates (any_scanner_failed (latest_per_scan_type db artifact_id))
                     (has_completed_scan db artifact_id) (negb (is_nil (open_findings db artifact_id))) in
      let s := classify_scan_state (scan_state_rows db artifact_id) in
      let '(scan_violations, predicate_policies) := scan_gate_loop db artifact_id gates s policies in
      let? predicate_violations := predicate_violations db artifact_id predicate_policies in
      let violations := scan_violations ++ predicate_violations in
      Ok {| allowed := is_nil violations; violations := violations |}
  end.

(** ** Content a Remote repository serves *)

Definition is_ascii_whitespace (c : ascii) : bool :=
  in_range 32 32 c || in_range 9 10 c || in_range 12 13 c.

(** [str::split_once] on a string. *)
Fixpoint split_at_first (pat s : string) : option (string * string) :=
  match strip_prefix pat s with
  | Some rest => Some ("", rest)
  | None =>
      match s with
      | EmptyString => None
      | String c s => '(a, b) ← split_at_first pat s; Some (String c a, b)
      end
  end.

Definition not_slash (c : ascii) : bool := negb (Ascii.eqb "/" c).

Definition lowercase_scheme_authority (url : string) : string :=
  match split_at_first "://" url with
  | None => url
  | Some (scheme, rest) =>
      if match scheme with String c _ => is_alpha c | EmptyString => false end && str_all is_scheme_char scheme
      then to_ascii_lowercase (scheme +:+ "://" +:+ take_while not_slash rest) +:+ trim_start_by not_slash rest
      else url
  end.

Definition normalize_upstream_url (url : string) : string :=
  let trimmed := trim_end_by is_ascii_whitespace (trim_start_by is_ascii_whitespace url) in
  let stripped := fst (strip_url_userinfo_textual trimmed) in
  trim_end_by (Ascii.eqb "/") (lowercase_scheme_authority stripped).

Definition proxy_origin_facts (repository_key : string) (upstream_url : option string) : OriginFacts :=
  {| kind := Some "proxy"; repository_key := Some repository_key;
     upstream_url := u ← upstream_url; let u := trim u in if is_empty u then None else Some (normalize_upstream_url u) |}.

Definition proxy_origin_violations (policies : list ScanPolicy) (repository_key : string) (upstream_url : option string)
  : list string :=
  let facts := proxy_origin_facts repository_key upstream_url in
  flat_map (fun p =>
      let preds := origin_block (parse_policy_predicates (predicates p)) in
      if origin_is_inert preds then [] else evaluate_origin_predicates (policy_name p) preds facts)
    (List.filter is_enabled policies).

Definition evaluate_proxy_origin (db : Db) (repository_id : Uuid) (repository_key : string)
  (upstream_url : option string) : list string :=
  proxy_origin_violations (load_applicable_policies db repository_id) repository_key upstream_url.

(** ** The policies themselves

    [sql_lower] is the database's [LOWER]. *)
Definition name_taken (sql_lower : string -> string) (db : Db) (name : string) (repository : Uuid) (except : option Uuid)
  : bool :=
  existsb (fun p => bool_decide (policy_repository p = Some repository) &&
                    String.eqb (sql_lower (policy_name p)) (sql_lower name) &&
                    match except with None => true | Some i => negb (bool_decide (policy_id p = i)) end)
    (scan_policies db).

Definition ensure_policy_name_free (sql_lower : string -> string) (db : Db) (name : string) (repository : Uuid)
  (except : option Uuid) : result AppError unit :=
  if name_taken sql_lower db name repository except
  then Err (Conflict ("a scan policy named '" +:+ name +:+ "' already exists on this repository"))
  else Ok tt.

Definition repository_exists_or_not_found (exists_ : bool) (repository : Uuid) : result AppError unit :=
  if exists_ then Ok tt else Err (NotFound ("Repository " +:+ uuid_display repository +:+ " not found")).

Definition ensure_repository_exists (db : Db) (repository : Uuid) : result AppError unit :=
  repository_exists_or_not_found (existsb (fun r => bool_decide (repo_id r = repository)) (repositories db)) repository.

(** The writable columns of a policy. *)
Record PolicyInput := {
  in_name : string;
  in_repository : option Uuid;
  in_max_severity : string;
  in_block_unscanned : bool;
  in_block_on_fail : bool;
  in_min_staging_hours : option Z;
  in_max_artifact_age_days : option Z;
  in_require_signature : bool;
  in_predicates : option PolicyPredicates
}.

(** A new policy is enabled, by the default of the column. *)
Definition create_policy (sql_lower : string -> string) (db : Db) (new_id : Uuid) (i : PolicyInput)
  : result AppError (ScanPolicy * Db) :=
  let? ms := normalize_max_severity (in_max_severity i) in
  let? preds := transpose normalize_predicates (in_predicates i) in
  let? _ := match in_repository i with
            | Some r =>
                let? _ := ensure_repository_exists db r in
                ensure_policy_name_free sql_lower db (in_name i) r None
            | None => Ok tt
            end in
  let p := {| policy_id := new_id; policy_name := in_name i; policy_repository := in_repository i;
              max_severity := ms; block_unscanned := in_block_unscanned i; block_on_fail := in_block_on_fail i;
              is_enabled := true; min_staging_hours := in_min_staging_hours i;
              max_artifact_age_days := in_max_artifact_age_days i; require_signature := in_require_signature i;
              predicates := match preds with Some p => predicates_to_value p | None => JObject [] end |} in
  Ok (p, set_policies (fun l => l ++ [p]) db).

(** The fields of a partial update; [None] keeps the column. *)
Record PolicyPatch := {
  new_name : option string;
  new_max_severity : option string;
  new_block_unscanned : option bool;
  new_block_on_fail : option bool;
  new_is_enabled : option bool;
  new_min_staging_hours : option Z;
  new_max_artifact_age_days : option Z;
  new_require_signature : option bool;
  new_predicates : option PolicyPredicates
}.

(** [COALESCE($n, column)]. *)
Definition coalesce {A} (o : option A) (column : option A) : option A := match o with Some x => Some x | None => column end.

Definition patch_policy (u : PolicyPatch) (ms : option string) (preds : option Json) (p : ScanPolicy) : ScanPolicy :=
  {| policy_id := policy_id p; policy_name := default (policy_name p) (new_name u);
     policy_repository := policy_repository p; max_severity := default (max_severity p) ms;
     block_unscanned := default (block_unscanned p) (new_block_unscanned u);
     block_on_fail := default (block_on_fail p) (new_block_on_fail u);
     is_enabled := default (is_enabled p) (new_is_enabled u);
     min_staging_hours := coalesce (new_min_staging_hours u) (min_staging_hours p);
     max_artifact_age_days := coalesce (new_max_artifact_age_days u) (max_artifact_age_days p);
     require_signature := default (require_signature p) (new_require_signature u);
     predicates := default (predicates p) preds |}.

Definition get_policy (db : Db) (i : Uuid) : result AppError ScanPolicy :=
  ok_or (List.find (fun p => bool_decide (policy_id p = i)) (scan_policies db)) (NotFound "Policy not found").

Definition update_policy (sql_lower : string -> string) (db : Db) (i : Uuid) (u : PolicyPatch)
  : result AppError (ScanPolicy * Db) :=
  let? ms := transpose normalize_max_severity (new_max_severity u) in
  let? preds := transpose normalize_predicates (new_predicates u) in
  let row := List.find (fun p => bool_decide (policy_id p = i)) (scan_policies db) in
  let? _ := match new_name u, (p ← row; policy_repository p) with
            | Some name, Some r => ensure_policy_name_free sql_lower db name r (Some i)
            | _, _ => Ok tt
            end in
  let? p := ok_or row (NotFound "Policy not found") in
  let f := patch_policy u ms (predicates_to_value <$> preds) in
  Ok (f p, set_policies (fmap (fun q => if bool_decide (policy_id q = i) then f q else q)) db).

Definition delete_policy (db : Db) (i : Uuid) : result AppError Db :=
  if existsb (fun p => bool_decide (policy_id p = i)) (scan_policies db)
  then Ok (set_policies (List.filter (fun p => negb (bool_decide (policy_id p = i)))) db)
  else Err (NotFound "Policy not found").

End Policies.

Example purl_1 : channel_from_purl "pkg:conda/x@1?build=0&channel=conda%2dForge%2&subdir=noarch" = Some "conda-Forge%2" /\
  channel_from_purl "pkg:conda/x@1?channel=" = None /\ channel_from_purl "pkg:conda/x@1" = None.
Proof. vm_compute. done. Qed.

Example origin_1 : normalize_upstream_url " HTTPS://user:p@Repo.Example.org/Maven2// " = "https://repo.example.org/Maven2" /\
  normalize_upstream_url "no-scheme/Path/" = "no-scheme/Path".
Proof. vm_compute. done. Qed.

Example state_1 :
  let row s m := {| status := s; error_message := m |} in
  classify_scan_state [row "failed" (Some "grype does not apply to npm"); row "not_applicable" None] = NotApplicable /\
  classify_scan_state [row "failed" None; row "not_applicable" None] = Failed /\
  classify_scan_state [row "failed" None; row "running" None] = InProgress /\ classify_scan_state [] = NeverScanned.
Proof. vm_compute. done. Qed.
