(* ===== verification/ScanPolicyFacts.v ===== *)
(** What the scan policies decide: the verdict on an artifact as a conjunction
    of conditions, the isolation of the scanners from each other, the round
    trip of a policy through its stored document, and the normal form an
    origin entry needs to match. *)

From stdpp Require Import base list strings pretty gmap.
From Stdlib Require Import ZArith Lia Ascii.
From S2P Require Import Prelude RustStr RustNum Errors UpstreamUrl Catalog ScanPolicy.

Local Open Scope string_scope.
Local Open Scope list_scope.
Local Open Scope Z_scope.

(** * Lists of messages *)

Lemma only_if_nil b msg : only_if b msg = [] <-> b = false.
Proof. by destruct b. Qed.

Lemma is_nil_true {A} (l : list A) : is_nil l = true <-> l = [].
Proof. by destruct l. Qed.

Lemma one_of_false s l : one_of s l = false <-> s ∉ l.
Proof. rewrite <- one_of_true. by destruct (one_of s l). Qed.

Lemma allowlist_nil l fact f u :
  allowlist l fact f u = [] <-> (l <> [] -> exists v, fact = Some v /\ v ∈ l).
Proof.
  unfold allowlist. destruct l as [|x l]; cbn [is_nil]; [by split|].
  destruct fact as [v|].
  - rewrite only_if_nil, negb_false_iff, one_of_true. split; [eauto|]. intros H. by destruct H as (? & [= <-] & ?).
  - split; [done|]. intros H. by destruct H as (? & ? & ?).
Qed.

Lemma denylist_nil l fact f : denylist l fact f = [] <-> (forall v, fact = Some v -> v ∉ l).
Proof.
  unfold denylist. destruct fact as [v|].
  - rewrite only_if_nil, one_of_false. split; [by intros ? ? [= <-]|]. intros H. by apply H.
  - by split.
Qed.

Lemma flat_map_nil {A B} (f : A -> list B) l : flat_map f l = [] <-> forall x, x ∈ l -> f x = [].
Proof.
  induction l as [|x l IH]; cbn; [split; [by intros _ ? ?%elem_of_nil|done]|].
  rewrite app_nil, IH. setoid_rewrite elem_of_cons. naive_solver.
Qed.

Lemma elem_of_lfilter {A} (f : A -> bool) l x : x ∈ List.filter f l <-> f x = true /\ x ∈ l.
Proof. rewrite !list_elem_of_In, filter_In. tauto. Qed.

(** * The conditions of a policy *)

Section Conditions.
Context `{UrlCrates}.

(** Some scan completed, or scans ran and none applies to the format. *)
Definition vetted (rows : list ScanStateRow) : Prop :=
  (exists r, r ∈ rows /\ status r = "completed") \/
  rows <> [] /\ forall r, r ∈ rows -> status r <> "pending" /\ status r <> "running" /\ is_crash r = false.

Lemma vetted_classified rows : is_unscanned (classify_scan_state rows) = false <-> vetted rows.
Proof.
  unfold classify_scan_state, vetted.
  destruct (existsb (fun r => String.eqb (status r) "completed") rows) eqn:Ec.
  { apply existsb_true in Ec as (r & Hr & He%String.eqb_eq). cbn. split; eauto. }
  assert (Hc : forall r, r ∈ rows -> status r <> "completed").
  { intros r Hr He. rewrite existsb_false in Ec. apply Ec in Hr. by rewrite He in Hr. }
  destruct (existsb (fun r => _ || _) rows) eqn:Ep.
  { apply existsb_true in Ep as (r & Hr & He). cbn. split; [done|]. intros [(r' & ? & ?)|[_ Hv]]; [naive_solver|].
    apply Hv in Hr as (? & ? & _). apply orb_true_iff in He as [?%String.eqb_eq|?%String.eqb_eq]; done. }
  destruct (existsb is_crash rows) eqn:Ef.
  { apply existsb_true in Ef as (r & Hr & He). cbn. split; [done|]. intros [(r' & ? & ?)|[_ Hv]]; [naive_solver|].
    apply Hv in Hr as (_ & _ & ?). congruence. }
  rewrite existsb_false in Ep, Ef. destruct rows as [|x rows].
  { cbn. split; [done|]. intros [(r & ?%elem_of_nil & _)|[? _]]; done. }
  cbn [is_unscanned]. split; [|done]. intros _. right. split; [done|]. intros r Hr. split_and!; [| |by apply Ef].
  all: intros He; specialize (Ep r Hr); rewrite He in Ep; done.
Qed.

(** Severities as ranks, and the least rank a threshold counts. *)
Definition grade (severity : string) : Z :=
  if String.eqb severity "critical" then 4 else if String.eqb severity "high" then 3
  else if String.eqb severity "medium" then 2 else if String.eqb severity "low" then 1 else 0.

Definition threshold (max_severity : string) : Z :=
  if String.eqb max_severity "critical" then 4 else if String.eqb max_severity "high" then 3
  else if String.eqb max_severity "medium" then 2 else 1.

Lemma counted_grade m s : one_of s (severities_at_or_above m) = true <-> threshold m <= grade s.
Proof.
  rewrite one_of_true. unfold severities_at_or_above, threshold.
  assert (Hg : (s = "critical" /\ grade s = 4) \/ (s = "high" /\ grade s = 3) \/ (s = "medium" /\ grade s = 2) \/
    (s = "low" /\ grade s = 1) \/
    (s <> "critical" /\ s <> "high" /\ s <> "medium" /\ s <> "low") /\ grade s = 0).
  { unfold grade. destruct (String.eqb_spec s "critical"), (String.eqb_spec s "high"), (String.eqb_spec s "medium"),
      (String.eqb_spec s "low"); naive_solver. }
  repeat case_match; rewrite ?elem_of_cons, ?elem_of_nil.
  all: destruct Hg as [[-> ->]|[[-> ->]|[[-> ->]|[[-> ->]|[? ->]]]]]; split; intros; try lia; try tauto; naive_solver.
Qed.

(** A finding nobody acknowledged, at the threshold or above. *)
Definition open_violation (db : Db) (artifact_id : Uuid) (max_severity : string) : Prop :=
  exists f, f ∈ scan_findings db /\ finding_artifact f = artifact_id /\ is_acknowledged f = false /\
            threshold max_severity <= grade (severity f).

Lemma open_violation_count db a m : 0 < violating_count db a m <-> open_violation db a m.
Proof.
  unfold violating_count, open_violation, open_findings.
  assert (Hp : forall (l : list ScanFinding), 0 < Z.of_nat (length l) <-> exists f, f ∈ l).
  { intros [|f l]; cbn; [split; [lia|by intros [? ?%elem_of_nil]]|split; [|lia]]. intros _. exists f. by left. }
  rewrite Hp. setoid_rewrite elem_of_lfilter. setoid_rewrite elem_of_lfilter. setoid_rewrite counted_grade.
  setoid_rewrite andb_true_iff. setoid_rewrite negb_true_iff. setoid_rewrite bool_decide_eq_true. naive_solver.
Qed.

(** The facts a policy's conda block accepts; an unknown channel is in no
    allowlist, and an ungraded script passes. *)
Definition conda_accepts (p : CondaPolicyPredicates) (f : CondaFacts) : Prop :=
  is_conda f = true ->
  (allowed_channels p <> [] -> exists c, channel f = Some c /\ to_ascii_lowercase c ∈ allowed_channels p) /\
  (forall c, channel f = Some c -> to_ascii_lowercase c ∉ denied_channels p) /\
  (forall l, license f = Some l -> to_ascii_lowercase l ∉ denied_licenses p) /\
  (forall l, license_family f = Some l -> to_ascii_lowercase l ∉ denied_license_families p) /\
  (block_install_scripts p = true -> install_script_count f <= 0) /\
  (forall t r, max_install_script_severity p = Some t -> max_script_finding_rank f = Some r ->
               r < default 0 (script_severity_rank t)) /\
  (min_attestation_state p = Some "present" -> attestation f <> Absent) /\
  (min_attestation_state p = Some "verified" -> attestation f = Verified).

Definition origin_accepts (p : OriginPolicyPredicates) (f : OriginFacts) : Prop :=
  (allowed_upstreams p <> [] -> exists u, upstream_url f = Some u /\ to_ascii_lowercase u ∈ allowed_upstreams p) /\
  (forall u, upstream_url f = Some u -> to_ascii_lowercase u ∉ denied_upstreams p) /\
  (allowed_repositories p <> [] -> exists r, repository_key f = Some r /\ to_ascii_lowercase r ∈ allowed_repositories p) /\
  (forall r, repository_key f = Some r -> to_ascii_lowercase r ∉ denied_repositories p) /\
  (allowed_kinds p <> [] -> exists k, kind f = Some k /\ to_ascii_lowercase k ∈ allowed_kinds p).

Lemma fmap_some_some {A B} (g : A -> B) (P : B -> Prop) (o : option A) :
  (exists v, g <$> o = Some v /\ P v) <-> exists v, o = Some v /\ P (g v).
Proof. destruct o; cbn; naive_solver. Qed.

Lemma fmap_some_all {A B} (g : A -> B) (P : B -> Prop) (o : option A) :
  (forall v, g <$> o = Some v -> P v) <-> forall v, o = Some v -> P (g v).
Proof. destruct o; cbn; naive_solver. Qed.

Lemma conda_inert p : conda_is_inert p = true -> p = no_conda.
Proof.
  unfold conda_is_inert. destruct p as [[|] [|] [|] [|] [] [] []]; cbn; try done.
Qed.

Lemma origin_inert p : origin_is_inert p = true -> p = no_origin.
Proof. destruct p as [[|] [|] [|] [|] [|]]; cbn; done. Qed.

Lemma conda_inert_accepts f : conda_accepts no_conda f.
Proof. intros _. cbn. split_and!; try done; intros; apply not_elem_of_nil. Qed.

Lemma origin_inert_accepts f : origin_accepts no_origin f.
Proof. split_and!; cbn; try done; intros; apply not_elem_of_nil. Qed.

Lemma conda_evaluation name p f : evaluate_conda_predicates name p f = [] <-> conda_accepts p f.
Proof.
  unfold evaluate_conda_predicates. destruct (conda_is_inert p) eqn:Ei; cbn [orb].
  { apply conda_inert in Ei as ->. split; [intros _; apply conda_inert_accepts|done]. }
  unfold conda_accepts. destruct (is_conda f); cbn [negb]; [|by split].
  rewrite !app_nil, allowlist_nil, !denylist_nil, only_if_nil, fmap_some_some, !fmap_some_all.
  assert (Hs : block_install_scripts p && (0 <? install_script_count f) = false <->
    (block_install_scripts p = true -> install_script_count f <= 0)).
  { destruct (block_install_scripts p); cbn; [|by split]. rewrite Z.ltb_ge. naive_solver. }
  rewrite Hs. clear Hs Ei.
  assert (Hr : forall m : string -> Z -> string,
    match max_install_script_severity p, max_script_finding_rank f with
    | Some t, Some r => only_if (default 0 (script_severity_rank t) <=? r) (m t r)
    | _, _ => [] end = [] <->
    forall t r, max_install_script_severity p = Some t -> max_script_finding_rank f = Some r ->
      r < default 0 (script_severity_rank t)).
  { intros m. destruct (max_install_script_severity p) as [t|], (max_script_finding_rank f) as [r|]; try by split.
    rewrite only_if_nil, Z.leb_gt. naive_solver. }
  rewrite Hr. clear Hr.
  assert (Ha : forall m1 m2 : string,
    match min_attestation_state p with
    | Some m => if String.eqb m "present" && bool_decide (attestation f = Absent) then [m1]
                else if String.eqb m "verified" && negb (bool_decide (attestation f = Verified)) then [m2] else []
    | None => [] end = [] <->
    (min_attestation_state p = Some "present" -> attestation f <> Absent) /\
    (min_attestation_state p = Some "verified" -> attestation f = Verified)).
  { intros m1 m2. destruct (min_attestation_state p) as [m|]; [|by split].
    destruct (String.eqb_spec m "present"), (String.eqb_spec m "verified"); cbn.
    all: repeat case_bool_decide; cbn; naive_solver. }
  rewrite Ha. tauto.
Qed.

Lemma origin_evaluation name p f : evaluate_origin_predicates name p f = [] <-> origin_accepts p f.
Proof.
  unfold evaluate_origin_predicates. destruct (origin_is_inert p) eqn:Ei.
  { apply origin_inert in Ei as ->. split; [intros _; apply origin_inert_accepts|done]. }
  unfold origin_accepts. rewrite !app_nil, !allowlist_nil, !denylist_nil, !fmap_some_some, !fmap_some_all. tauto.
Qed.

(** What a policy asks of an artifact. *)
Definition admits (db : Db) (artifact_id : Uuid) (p : ScanPolicy) : Prop :=
  (block_unscanned p = true -> vetted (scan_state_rows db artifact_id)) /\
  (block_on_fail p = true -> forall r, r ∈ latest_per_scan_type db artifact_id -> is_crash r = false) /\
  ~ open_violation db artifact_id (max_severity p) /\
  (forall f, load_conda_facts db artifact_id = Ok f -> conda_accepts (conda (parse_policy_predicates (predicates p))) f) /\
  origin_accepts (origin_block (parse_policy_predicates (predicates p))) (load_origin_facts db artifact_id).

Definition applies (repository_id : Uuid) (p : ScanPolicy) : Prop :=
  is_enabled p = true /\ (policy_repository p = Some repository_id \/ policy_repository p = None).

Lemma applicable_policies db r p : p ∈ load_applicable_policies db r <-> p ∈ scan_policies db /\ applies r p.
Proof.
  unfold load_applicable_policies, applies. rewrite elem_of_app. repeat setoid_rewrite elem_of_lfilter.
  rewrite !bool_decide_eq_true. tauto.
Qed.

(** ** The scan gates *)

Definition gate_admits (db : Db) (a : Uuid) (p : ScanPolicy) : Prop :=
  (block_unscanned p = true -> vetted (scan_state_rows db a)) /\
  (block_on_fail p = true -> forall r, r ∈ latest_per_scan_type db a -> is_crash r = false) /\
  ~ open_violation db a (max_severity p).

Definition gates_of (db : Db) (a : Uuid) : PostScanGates :=
  post_scan_gates (any_scanner_failed (latest_per_scan_type db a)) (has_completed_scan db a)
    (negb (is_nil (open_findings db a))).

Lemma unscanned_gate db a b :
  block_unscanned_violated b (classify_scan_state (scan_state_rows db a)) = false <->
  (b = true -> vetted (scan_state_rows db a)).
Proof.
  unfold block_unscanned_violated. rewrite <- vetted_classified. destruct b; cbn; [naive_solver|by split].
Qed.

Lemma failed_gate db a b :
  b && block_on_fail_applies (gates_of db a) = false <->
  (b = true -> forall r, r ∈ latest_per_scan_type db a -> is_crash r = false).
Proof.
  cbn. unfold any_scanner_failed. destruct b; cbn; [|by split]. rewrite existsb_false. naive_solver.
Qed.

(** The severity gate is never silent on an open finding: one that counts is
    on record, so the gate applies. *)
Lemma severity_gate db a m :
  severity_applies (gates_of db a) && (0 <? violating_count db a m) = false <-> ~ open_violation db a m.
Proof.
  rewrite <- open_violation_count. destruct (Z.ltb_spec 0 (violating_count db a m)) as [Hc|Hc].
  - rewrite andb_true_r. split; [|done]. intros Hg. exfalso. cbn in Hg. apply orb_false_iff in Hg as [_ Hg].
    apply negb_false_iff, is_nil_true in Hg. unfold violating_count in Hc. rewrite Hg in Hc. done.
  - rewrite andb_false_r. split; [lia|done].
Qed.

Lemma scan_gates db a ps :
  let '(vs, rest) := scan_gate_loop db a (gates_of db a) (classify_scan_state (scan_state_rows db a)) ps in
  (vs = [] <-> forall p, p ∈ ps -> gate_admits db a p) /\ (vs = [] -> rest = ps) /\ (forall p, p ∈ rest -> p ∈ ps).
Proof.
  induction ps as [|p ps IH]; cbn [scan_gate_loop].
  { split_and!; [split; [by intros _ ? ?%elem_of_nil|done]|done..]. }
  destruct (scan_gate_loop _ _ _ _ ps) as [vs rest]. destruct IH as (IHv & IHr & IHs).
  assert (Hsub : forall q, q ∈ rest -> q ∈ p :: ps) by (intros; right; auto).
  assert (Hstop : ~ gate_admits db a p -> forall m : string,
    ((m :: vs = [] <-> forall q, q ∈ p :: ps -> gate_admits db a q) /\ (m :: vs = [] -> rest = p :: ps) /\
    (forall q, q ∈ rest -> q ∈ p :: ps))).
  { intros Hp m. split_and!; [|done|done]. split; [done|]. intros Hq. destruct Hp. apply Hq. by left. }
  destruct (block_unscanned_violated _ _) eqn:Eu.
  { apply Hstop. intros (Hu & _). apply unscanned_gate in Hu. congruence. }
  destruct (block_on_fail p && _) eqn:Ef.
  { apply Hstop. intros (_ & Hf & _). apply failed_gate in Hf. congruence. }
  rewrite unscanned_gate in Eu. rewrite failed_gate in Ef. rewrite app_nil, only_if_nil, severity_gate, IHv.
  split_and!.
  - setoid_rewrite elem_of_cons. split; [|intros Hq; split; [by apply (Hq p); left|auto]].
    intros [Hs Hq] q [->|Hin]; [done|auto].
  - intros [_ Hq%IHv]. by rewrite (IHr Hq).
  - intros q [->|Hq]%elem_of_cons; [by left|auto].
Qed.

(** ** The predicates *)

Definition predicates_accept (db : Db) (a : Uuid) (p : ScanPolicy) : Prop :=
  (forall f, load_conda_facts db a = Ok f -> conda_accepts (conda (parse_policy_predicates (predicates p))) f) /\
  origin_accepts (origin_block (parse_policy_predicates (predicates p))) (load_origin_facts db a).

Lemma predicates_decide db a ps :
  match predicate_violations db a ps with
  | Ok vs => vs = [] <-> forall p, p ∈ ps -> predicates_accept db a p
  | Err e => load_conda_facts db a = Err e
  end.
Proof.
  unfold predicate_violations. set (parsed := _ <$> ps).
  assert (Hmem : forall x, x ∈ parsed <-> exists p, p ∈ ps /\ x = (policy_name p, parse_policy_predicates (predicates p))).
  { intros x. unfold parsed. rewrite list_elem_of_fmap. naive_solver. }
  set (any_conda := existsb _ parsed). set (any_origin := existsb (fun p => negb (origin_is_inert _)) parsed).
  assert (Hc : any_conda = false -> forall p, p ∈ ps -> conda (parse_policy_predicates (predicates p)) = no_conda).
  { intros Hf p Hp. apply conda_inert. unfold any_conda in Hf. rewrite existsb_false in Hf.
    apply negb_false_iff, (Hf (policy_name p, parse_policy_predicates (predicates p))), Hmem. eauto. }
  assert (Ho : any_origin = false -> forall p, p ∈ ps -> origin_block (parse_policy_predicates (predicates p)) = no_origin).
  { intros Hf p Hp. apply origin_inert. unfold any_origin in Hf. rewrite existsb_false in Hf.
    apply negb_false_iff, (Hf (policy_name p, parse_policy_predicates (predicates p))), Hmem. eauto. }
  assert (Hor : forall p, p ∈ ps ->
    match (if any_origin then Some (load_origin_facts db a) else None) with
    | Some facts => if origin_is_inert (origin_block (parse_policy_predicates (predicates p))) then []
        else evaluate_origin_predicates (policy_name p) (origin_block (parse_policy_predicates (predicates p))) facts
    | None => []
    end = [] <-> origin_accepts (origin_block (parse_policy_predicates (predicates p))) (load_origin_facts db a)).
  { intros p Hp. destruct any_origin.
    - destruct (origin_is_inert _) eqn:Ei; [|apply origin_evaluation]. apply origin_inert in Ei as ->.
      split; [intros _; apply origin_inert_accepts|done].
    - rewrite (Ho eq_refl p Hp). split; [intros _; apply origin_inert_accepts|done]. }
  assert (Hflat : forall (g : string * PolicyPredicates -> list string),
    flat_map g parsed = [] <-> forall p, p ∈ ps -> g (policy_name p, parse_policy_predicates (predicates p)) = []).
  { intros g. rewrite flat_map_nil. setoid_rewrite Hmem. naive_solver. }
  unfold predicates_accept. destruct any_conda.
  - destruct (load_conda_facts db a) as [f|e] eqn:El; cbn [rbind]; [|done].
    rewrite Hflat. cbn beta iota. setoid_rewrite app_nil. split; intros Hv p Hp; specialize (Hv p Hp).
    + destruct Hv as [Hv1 Hv2%Hor]; [|done]. split; [|done]. intros f' [= <-].
      destruct (conda_is_inert _) eqn:Ei; [|by apply conda_evaluation in Hv1].
      apply conda_inert in Ei as ->. apply conda_inert_accepts.
    + destruct Hv as [Hv1 Hv2]. split; [|by apply Hor]. cbn. destruct (conda_is_inert _); [done|].
      apply conda_evaluation. by apply Hv1.
  - cbn [rbind]. rewrite Hflat. cbn beta iota. setoid_rewrite app_nil. split; intros Hv p Hp; specialize (Hv p Hp).
    + destruct Hv as [_ Hv%Hor]; [|done]. split; [|done]. intros f _. rewrite (Hc eq_refl p Hp). apply conda_inert_accepts.
    + destruct Hv as [_ Hv]. split; [done|]. by apply Hor.
Qed.

(** A fact load only fails on a findings document that is no array. *)
Lemma conda_load_error db a e : load_conda_facts db a = Err e ->
  exists s j, s ∈ install_scripts db /\ script_artifact s = a /\ findings s = Some j /\ forall l, j <> JArray l.
Proof.
  unfold load_conda_facts. destruct (artifacts db !! a) as [art|]; [|done]. destruct (List.find _ _); [|done].
  assert (Hcol : forall l e, collect array_elements (findings <$> l) = Err e ->
    exists s j, s ∈ l /\ findings s = Some j /\ forall k, j <> JArray k).
  { clear. induction l as [|s l IH]; intros e'; [done|]. rewrite fmap_cons. cbn [collect].
    destruct (array_elements (findings s)) as [els|] eqn:E; cbn [rbind].
    - destruct (collect array_elements (findings <$> l)) as [?|e''] eqn:Ec; cbn [rbind]; [done|].
      intros _. destruct (IH _ eq_refl) as (s' & j & ? & ? & ?). exists s', j. split_and!; [by right|done..].
    - intros _. unfold array_elements in E. destruct (findings s) as [j|] eqn:Ef; [|done].
      exists s, j. split_and!; [by left|done|]. intros k ->. done. }
  destruct (collect _ _) as [?|e'] eqn:Ec; cbn [rbind]; [done|]. intros _.
  destruct (Hcol _ _ Ec) as (s & j & Hs & ? & ?). apply elem_of_lfilter in Hs as [Hs%bool_decide_eq_true ?].
  exists s, j. done.
Qed.

Lemma verdict db a r :
  match evaluate_artifact db a r with
  | Ok res => (allowed res = true <-> forall p, p ∈ scan_policies db -> applies r p -> admits db a p) /\
              (allowed res = true <-> violations res = [])
  | Err e => load_conda_facts db a = Err e
  end.
Proof.
  assert (Happ : (forall p, p ∈ scan_policies db -> applies r p -> admits db a p) <->
    forall p, p ∈ load_applicable_policies db r -> gate_admits db a p /\ predicates_accept db a p).
  { assert (Hsplit : forall p, admits db a p <-> gate_admits db a p /\ predicates_accept db a p)
      by (intros p; unfold admits, gate_admits, predicates_accept; tauto).
    split; intros Hall p.
    - intros [Hp Hr]%applicable_policies. by apply Hsplit, Hall.
    - intros Hp Hr. by apply Hsplit, Hall, applicable_policies. }
  unfold evaluate_artifact. destruct (load_applicable_policies db r) as [|p0 ps0] eqn:Ea.
  { cbn. rewrite Happ. split; [split; [intros _ ? ?%elem_of_nil; done|done]|done]. }
  rewrite <- Ea in *. clear Ea p0 ps0. fold (gates_of db a). set (ps := load_applicable_policies db r) in *.
  pose proof (scan_gates db a ps) as Hg. destruct (scan_gate_loop _ _ _ _ ps) as [vs rest].
  destruct Hg as (Hv & Hr & _). pose proof (predicates_decide db a rest) as Hp.
  destruct (predicate_violations db a rest) as [pvs|e]; cbn [rbind]; [|done]. cbn. rewrite !is_nil_true.
  split; [|done]. rewrite app_nil, Happ, Hp. split.
  - intros [Hn Hq] p Hin. rewrite (Hr Hn) in Hq. split; [|by apply Hq]. by apply Hv.
  - intros Hall. assert (Hn : vs = []) by (apply Hv; intros; by apply Hall). split; [done|].
    rewrite (Hr Hn). intros p Hin. by apply Hall.
Qed.


End Conditions.

(** * The latest run of each scanner *)

#[export] Instance desc_order : TotalPreorder desc.
Proof.
  split; unfold desc; intros x y; [by rewrite Z.compare_antisym|]. intros z. rewrite !Z.compare_gt_iff. lia.
Qed.

#[export] Instance desc_nulls_last_order : TotalPreorder desc_nulls_last.
Proof.
  split; [intros [x|] [y|]; cbn; try done; apply (tp_sym desc)|].
  intros [x|] [y|] [z|]; cbn; try done. apply (tp_trans desc).
Qed.

Section Distinct.
Context {A : Type} (f : A -> string) (cmp : A -> A -> comparison) `{!TotalPreorder cmp}.

Lemma distinct_sub seen l x : x ∈ distinct_on f seen l -> x ∈ l /\ f x ∉ seen.
Proof.
  revert seen. induction l as [|y l IH]; intros seen; cbn; [by intros ?%elem_of_nil|].
  destruct (one_of (f y) seen) eqn:E; [intros [? ?]%IH; by split; [right|]|].
  apply one_of_false in E. intros [->|Hx]%elem_of_cons; [by split; [left|]|].
  apply IH in Hx as [? Hn]. split; [by right|]. intros ?. apply Hn. by right.
Qed.

Lemma distinct_first seen l x y : sorted_by cmp l -> x ∈ distinct_on f seen l -> y ∈ l -> f y = f x -> cmp x y <> Gt.
Proof.
  revert seen. induction l as [|z l IH]; intros seen Hs; cbn; [by intros ?%elem_of_nil|]. destruct Hs as [Hz Hs].
  destruct (one_of (f z) seen) eqn:E.
  - intros Hx [->|Hy]%elem_of_cons Ef; [|by eapply IH]. apply distinct_sub in Hx as [_ Hx].
    apply one_of_true in E. congruence.
  - intros [->|Hx]%elem_of_cons [->|Hy]%elem_of_cons Ef.
    + rewrite (tp_refl cmp). done.
    + by apply Hz.
    + apply distinct_sub in Hx as [_ Hx]. destruct Hx. rewrite Ef. by left.
    + by eapply IH.
Qed.

Lemma distinct_covers seen l x : x ∈ l -> f x ∉ seen -> exists y, y ∈ distinct_on f seen l /\ f y = f x.
Proof.
  revert seen. induction l as [|z l IH]; intros seen; cbn; [by intros ?%elem_of_nil|].
  intros Hx Hn. destruct (one_of (f z) seen) eqn:E.
  - apply one_of_true in E. apply elem_of_cons in Hx as [->|Hx]; [done|]. by apply IH.
  - destruct (decide (f z = f x)) as [Ez|Ez]; [exists z; by split; [left|]|].
    apply elem_of_cons in Hx as [->|Hx]; [done|]. destruct (IH (f z :: seen) Hx) as (y & ? & ?).
    { rewrite elem_of_cons. intros [?|?]; congruence. }
    exists y. by split; [right|].
Qed.
End Distinct.

(** The scan rows of an artifact. *)
Definition scans (db : Db) (a : Uuid) (r : ScanResult) : Prop := r ∈ scan_results db /\ scan_artifact r = a.

Lemma scans_sorted db a r :
  r ∈ sort_by by_recency (List.filter (fun r => bool_decide (scan_artifact r = a)) (scan_results db)) <-> scans db a r.
Proof. unfold scans. rewrite sort_by_perm, elem_of_lfilter, bool_decide_eq_true. tauto. Qed.

(** A crashed scanner keeps its own verdict: the failure gate fires exactly
    when the latest run of some scanner crashed, whatever other scanners did
    since, and an enabled policy that blocks on failure then refuses the
    artifact.  (The hypothesis leaves out the runs of one scanner that tie on
    both time stamps, among which the query is free to choose.) *)
Theorem engine_failure_not_masked `{UrlCrates} db a :
  (forall r r', scans db a r -> scans db a r' -> scan_type r = scan_type r' -> by_recency r r' = Eq ->
     is_crash (state r) = is_crash (state r')) ->
  (any_scanner_failed (latest_per_scan_type db a) = true <->
   exists r, scans db a r /\ is_crash (state r) = true /\
     forall r', scans db a r' -> scan_type r' = scan_type r -> by_recency r r' <> Gt) /\
  (any_scanner_failed (latest_per_scan_type db a) = true ->
   forall p repo res, p ∈ scan_policies db -> applies repo p -> block_on_fail p = true ->
     evaluate_artifact db a repo = Ok res -> allowed res = false).
Proof.
  intros Htie. unfold any_scanner_failed at 1, latest_per_scan_type at 1. split.
  - rewrite existsb_true. setoid_rewrite list_elem_of_fmap. set (l := sort_by _ _).
    assert (Hsort : sorted_by by_recency l) by apply sort_by_sorted, _. split.
    + intros (s & (r & -> & Hr) & Hc). exists r. pose proof (distinct_sub _ _ _ _ Hr) as [Hl%scans_sorted _].
      split_and!; [done..|]. intros r' Hr'%scans_sorted Et. by eapply (distinct_first scan_type by_recency).
    + intros (r & Hr & Hc & Hmax). pose proof Hr as Hl%scans_sorted.
      destruct (distinct_covers scan_type [] l r Hl (not_elem_of_nil _)) as (y & Hy & Ey).
      exists (state y). split; [by exists y|]. rewrite <- Hc. pose proof (distinct_sub _ _ _ _ Hy) as [Hyl%scans_sorted _].
      apply Htie; [done..|].
      pose proof (distinct_first scan_type by_recency [] l y r Hsort Hy Hl (eq_sym Ey)) as Hyr.
      specialize (Hmax y Hyl Ey). rewrite (tp_sym by_recency) in Hmax. destruct (by_recency y r); done.
  - intros Hf p repo res Hp Ha Hb He. pose proof (verdict db a repo) as Hv. rewrite He in Hv.
    destruct Hv as [Hv _]. destruct (allowed res); [|done]. destruct (proj1 Hv eq_refl p Hp Ha) as (_ & Hn & _).
    apply existsb_true in Hf as (r & Hr & Hc). rewrite (Hn Hb r Hr) in Hc. done.
Qed.

Definition run_of (engine status_ : string) (done_ : option DateTime) (started : DateTime) : ScanResult :=
  {| scan_artifact := 1%N; scan_type := engine; state := {| status := status_; error_message := None |};
     completed_at := done_; created_at := started |}.

Definition strict_policy : ScanPolicy :=
  {| policy_id := 7%N; policy_name := "strict"; policy_repository := None; max_severity := "high";
     block_unscanned := false; block_on_fail := true; is_enabled := true; min_staging_hours := None;
     max_artifact_age_days := None; require_signature := false; predicates := JObject [] |}.

(** One engine crashed, another completed later, and the first is running again. *)
Definition masked_db : Db :=
  {| artifacts := ∅; repositories := []; repository_config := []; artifact_metadata := []; install_scripts := [];
     curation_packages := [];
     scan_results := [run_of "trivy" "completed" (Some 10) 1; run_of "trivy" "failed" (Some 20) 15;
                      run_of "grype" "completed" (Some 30) 25; run_of "trivy" "running" None 40];
     scan_findings := []; scan_policies := [strict_policy] |}.

#[local] Instance plain_urls : UrlCrates :=
  {| url_to_string := Some; url_clear_userinfo _ := None; sha256_hex s := s; url_uuid := {| uuid_display _ := "id" |} |}.

Lemma engine_failure_not_masked_witness :
  any_scanner_failed (latest_per_scan_type masked_db 1%N) = true /\
  exists res, evaluate_artifact masked_db 1%N 5%N = Ok res /\ allowed res = false.
Proof.
  assert (Hf : any_scanner_failed (latest_per_scan_type masked_db 1%N) = true) by (vm_compute; done).
  split; [done|]. eexists. split; [vm_compute; done|].
  eapply (proj2 (engine_failure_not_masked masked_db 1%N _) Hf strict_policy 5%N); [by left|by split; [|right]|done|].
  vm_compute. done.
  Unshelve. intros r r' [Hr _] [Hr' _]. cbn in Hr, Hr'. rewrite !elem_of_cons, elem_of_nil in Hr, Hr'.
  naive_solver.
Defined.

(** * Policies through their stored documents *)

Lemma de_json_strings l : de_strings (Some (json_strings l)) = Some l.
Proof. cbn. induction l as [|s l IH]; [done|]. cbn. by rewrite IH. Qed.

Lemma de_json_opt_string o : de_opt_string (Some (json_opt_string o)) = Some o.
Proof. by destruct o. Qed.

Lemma de_conda_to_value p : de_conda (conda_to_value p) = Some p.
Proof.
  unfold de_conda. change (struct_fields true CONDA_FIELDS (conda_to_value p)) with
    (Some [Some (json_strings (allowed_channels p)); Some (json_strings (denied_channels p));
           Some (json_strings (denied_licenses p)); Some (json_strings (denied_license_families p));
           Some (JBool (block_install_scripts p)); Some (json_opt_string (max_install_script_severity p));
           Some (json_opt_string (min_attestation_state p))]).
  unfold mbind, option_bind. rewrite !de_json_strings, !de_json_opt_string. by destruct p.
Qed.

Lemma de_origin_to_value p : de_origin (origin_to_value p) = Some p.
Proof.
  unfold de_origin. change (struct_fields true ORIGIN_FIELDS (origin_to_value p)) with
    (Some [Some (json_strings (allowed_upstreams p)); Some (json_strings (denied_upstreams p));
           Some (json_strings (allowed_repositories p)); Some (json_strings (denied_repositories p));
           Some (json_strings (allowed_kinds p))]).
  unfold mbind, option_bind. rewrite !de_json_strings. by destruct p.
Qed.

Lemma parse_stored_predicates p : parse_policy_predicates (predicates_to_value p) = p.
Proof.
  unfold parse_policy_predicates, de_predicates.
  change (struct_fields true ["conda"; "origin"] (predicates_to_value p)) with
    (Some [Some (conda_to_value (conda p)); Some (origin_to_value (origin_block p))]).
  unfold mbind, option_bind. rewrite de_conda_to_value, de_origin_to_value. by destruct p.
Qed.

Lemma collect_fixed {E A} (f : A -> result E A) l k : (forall x y, f x = Ok y -> f y = Ok y) ->
  collect f l = Ok k -> collect f k = Ok k.
Proof.
  intros Hf. revert k. induction l as [|x l IH]; intros k; cbn [collect]; [by intros [= <-]|].
  destruct (f x) as [y|] eqn:Ex; cbn [rbind]; [|done]. destruct (collect f l) as [k'|] eqn:El; cbn [rbind]; [|done].
  intros [= <-]. cbn [collect]. rewrite (Hf _ _ Ex). cbn [rbind]. by rewrite (IH _ eq_refl).
Qed.

Lemma normalize_list_fixed field l k : normalize_list field l = Ok k -> normalize_list field k = Ok k.
Proof.
  apply collect_fixed. intros x y. cbv zeta. destruct (is_empty _) eqn:E; [done|]. intros [= <-].
  by rewrite normal_entry, E.
Qed.

Lemma normalize_token_fixed field vocabulary listed x y :
  normalize_token field vocabulary listed x = Ok y -> normalize_token field vocabulary listed y = Ok y.
Proof.
  unfold normalize_token. destruct (one_of _ _) eqn:E; [|done]. intros [= <-]. by rewrite normal_entry, E.
Qed.

Lemma transpose_fixed {E A} (f : A -> result E A) o o' : (forall x y, f x = Ok y -> f y = Ok y) ->
  transpose f o = Ok o' -> transpose f o' = Ok o'.
Proof.
  intros Hf. destruct o as [x|]; cbn; [|by intros [= <-]]. destruct (f x) as [y|] eqn:Ex; cbn; [|done].
  intros [= <-]. cbn. by rewrite (Hf _ _ Ex).
Qed.

Ltac ok_step :=
  match goal with |- rbind ?m _ = Ok _ -> _ => let E := fresh "E" in destruct m as [?x|?e] eqn:E; cbn [rbind]; [|done] end.

Lemma normalize_origin_fixed p q : normalize_origin_predicates p = Ok q -> normalize_origin_predicates q = Ok q.
Proof.
  unfold normalize_origin_predicates. repeat ok_step. intros [= <-].
  cbn [allowed_upstreams denied_upstreams allowed_repositories denied_repositories allowed_kinds].
  rewrite (collect_fixed _ _ _ (normalize_token_fixed _ _ _) E). cbn [rbind].
  repeat match goal with Hn : normalize_list _ _ = Ok _ |- _ => rewrite (normalize_list_fixed _ _ _ Hn); clear Hn; cbn [rbind] end.
  done.
Qed.

Lemma normalize_predicates_fixed p q : normalize_predicates p = Ok q -> normalize_predicates q = Ok q.
Proof.
  unfold normalize_predicates. repeat ok_step. intros [= <-]. cbn [conda origin_block allowed_channels denied_channels
    denied_licenses denied_license_families block_install_scripts max_install_script_severity min_attestation_state].
  rewrite (transpose_fixed _ _ _ (normalize_token_fixed _ _ _) E), (transpose_fixed _ _ _ (normalize_token_fixed _ _ _) E0).
  cbn [rbind].
  repeat match goal with Hn : normalize_list _ _ = Ok _ |- _ => rewrite (normalize_list_fixed _ _ _ Hn); clear Hn; cbn [rbind] end.
  match goal with Hn : normalize_origin_predicates _ = Ok _ |- _ => by rewrite (normalize_origin_fixed _ _ Hn) end.
Qed.

Section Stored.
Context `{UrlCrates}.

(** A policy that is created takes effect as it was given: its stored
    document reads back as the normalized predicates, normalizing those again
    changes nothing, its threshold is one of the four the severity check knows,
    and from then on an artifact is allowed exactly when it was allowed before
    and, if the policy is in scope, the new policy admits it too. *)
Theorem created_policy_enforced sql_lower db new_id i p db' :
  create_policy sql_lower db new_id i = Ok (p, db') ->
  (forall raw, in_predicates i = Some raw -> exists q, normalize_predicates raw = Ok q /\
     parse_policy_predicates (predicates p) = q /\ normalize_predicates q = Ok q) /\
  max_severity p ∈ ALLOWED_MAX_SEVERITIES /\
  forall a r res res', evaluate_artifact db a r = Ok res -> evaluate_artifact db' a r = Ok res' ->
    (allowed res' = true <-> allowed res = true /\ (applies r p -> admits db a p)).
Proof.
  unfold create_policy. ok_step. ok_step. ok_step. intros [= <- <-]. split_and!.
  - intros raw Er. rewrite Er in *. cbn [transpose] in E0. destruct (normalize_predicates raw) as [q|] eqn:Eq; cbn in E0; [|done].
    injection E0 as <-. exists q. split_and!; [done|apply parse_stored_predicates|by eapply normalize_predicates_fixed].
  - cbn. unfold normalize_max_severity in E. destruct (one_of _ _) eqn:Es; [|done]. injection E as <-. by apply one_of_true.
  - intros a r res res' Ev1 Ev2. pose proof (verdict db a r) as V1. rewrite Ev1 in V1.
    match type of Ev2 with evaluate_artifact ?db2 _ _ = _ => pose proof (verdict db2 a r) as V2 end.
    rewrite Ev2 in V2.
    rewrite (proj1 V1), (proj1 V2). cbn [scan_policies set_policies]. setoid_rewrite elem_of_app.
    setoid_rewrite list_elem_of_singleton. split.
    + intros Hall. split; [intros q Hq; apply Hall; by left|]. apply Hall. by right.
    + intros [Hall Hp] q [Hq| ->] Ha; [by apply Hall|by apply Hp].
Qed.

End Stored.

Definition channel_policy : PolicyInput :=
  {| in_name := "channels"; in_repository := None; in_max_severity := " High "; in_block_unscanned := false;
     in_block_on_fail := false; in_min_staging_hours := None; in_max_artifact_age_days := None;
     in_require_signature := false;
     in_predicates := Some {| conda := {| allowed_channels := ["Conda-Forge "]; denied_channels := [];
                                          denied_licenses := []; denied_license_families := [];
                                          block_install_scripts := false; max_install_script_severity := None;
                                          min_attestation_state := None |};
                              origin_block := no_origin |} |}.

Definition conda_db : Db :=
  {| artifacts := {[1%N := {| repository_id := 5%N; path := "noarch/x-1-0.conda"; name := "x"; version := Some "1";
                              checksum_sha256 := "c1"; origin := None; is_deleted := false; quarantine_status := None;
                              quarantine_until := None; quarantine_reason := None |}]};
     repositories := [{| repo_id := 5%N; repo_key := "conda"; repo_type := "remote"; repo_format := "conda" |}];
     repository_config := []; artifact_metadata := []; install_scripts := []; curation_packages := [];
     scan_results := []; scan_findings := []; scan_policies := [] |}.

Lemma created_policy_enforced_witness :
  exists p db', create_policy to_ascii_lowercase conda_db 9%N channel_policy = Ok (p, db') /\
    max_severity p ∈ ALLOWED_MAX_SEVERITIES /\
    exists res', evaluate_artifact db' 1%N 5%N = Ok res' /\ allowed res' = false.
Proof.
  eexists _, _. split; [vm_compute; reflexivity|].
  destruct (created_policy_enforced to_ascii_lowercase conda_db 9%N channel_policy _ _ eq_refl) as (_ & Hm & _).
  split; [apply Hm|]. eexists. split; vm_compute; reflexivity.
Defined.

(** * The origin of proxied content *)

Lemma ends_trimmed c s : ends_with (String c "") (trim_end_by (Ascii.eqb c) s) = false.
Proof.
  apply not_true_iff_false. intros [r Hr]%ends_with_true. revert r Hr.
  induction s as [|d s IH]; intros r; cbn; [by destruct r|].
  destruct (trim_end_by (Ascii.eqb c) s) as [|e t] eqn:E.
  - destruct (Ascii.eqb_spec c d) as [->|Hd]; [by destruct r|]. destruct r as [|x [|? ?]]; cbn; intros [=]; congruence.
  - destruct r as [|x r]; cbn; [done|]. intros [= -> Hr]. by apply (IH r).
Qed.

Lemma ends_slash_lower s : ends_with "/" (to_ascii_lowercase s) = ends_with "/" s.
Proof.
  assert (Hl : forall t, to_ascii_lowercase t = "/" -> t = "/").
  { intros [|c [|? ?]]; cbn; try done. intros [=]. destruct c as [[] [] [] [] [] [] [] []]; done. }
  apply eq_true_iff_eq. rewrite !ends_with_true. split; intros [r Hr].
  - revert r Hr. induction s as [|c s IH]; intros r; cbn; [by destruct r|].
    destruct r as [|d r]; cbn.
    + intros [= Hc Hs]. exists "". cbn. apply Hl. cbn. by rewrite Hc, Hs.
    + intros [= _ Hs]. destruct (IH _ Hs) as [q ->]. by exists (String c q).
  - exists (to_ascii_lowercase r). rewrite Hr. clear. induction r as [|c r IH]; cbn; [done|]. by f_equal.
Qed.

Section Origin.
Context `{UrlCrates}.

Definition deny_upstream (e : string) : OriginPolicyPredicates :=
  {| allowed_upstreams := []; denied_upstreams := [e]; allowed_repositories := []; denied_repositories := [];
     allowed_kinds := [] |}.

(** An entry of [denied_upstreams] denies what a Remote serves exactly
    when it is the lower-cased normal form of the Remote's URL.  The entries of
    a policy are only trimmed and lower-cased, so when the URL the Remote is
    configured with ends in a slash, the same URL given to the policy is stored
    as an entry that denies nothing. *)
Theorem denied_upstream_needs_normal_form name key raw e :
  trim raw <> "" ->
  (evaluate_origin_predicates name (deny_upstream e) (proxy_origin_facts key (Some raw)) = [] <->
   e <> to_ascii_lowercase (normalize_upstream_url (trim raw))) /\
  (ends_with "/" (trim raw) = true -> normalize_list "origin.denied_upstreams" [raw] = Ok [e] ->
   evaluate_origin_predicates name (deny_upstream e) (proxy_origin_facts key (Some raw)) = []).
Proof.
  intros Hraw.
  assert (Hu : upstream_url (proxy_origin_facts key (Some raw)) = Some (normalize_upstream_url (trim raw))).
  { cbn. unfold is_empty. by destruct (String.eqb_spec (trim raw) ""). }
  assert (Hiff : evaluate_origin_predicates name (deny_upstream e) (proxy_origin_facts key (Some raw)) = [] <->
    e <> to_ascii_lowercase (normalize_upstream_url (trim raw))).
  { rewrite origin_evaluation. unfold origin_accepts. rewrite Hu.
    cbn [allowed_upstreams denied_upstreams allowed_repositories denied_repositories allowed_kinds deny_upstream].
    setoid_rewrite list_elem_of_singleton. split.
    - intros (_ & Hd & _) ->. by eapply Hd.
    - intros Hne. split_and!; try done; [intros ? [= <-] ?; congruence|..]; intros; apply not_elem_of_nil. }
  split; [done|]. intros Hs Hn. apply Hiff. intros He.
  unfold normalize_list in Hn. cbn [collect] in Hn. destruct (is_empty _); [done|]. cbn [rbind] in Hn.
  injection Hn as Hn. apply (f_equal (ends_with "/")) in Hn. rewrite ends_slash_lower, Hs, He, ends_slash_lower in Hn.
  symmetry in Hn. unfold normalize_upstream_url in Hn. by rewrite ends_trimmed in Hn.
Qed.

End Origin.

Lemma denied_upstream_needs_normal_form_witness :
  trim "https://evil.example/pypi/" <> "" /\
  evaluate_origin_predicates "block evil" (deny_upstream "https://evil.example/pypi/")
    (proxy_origin_facts "pypi-proxy" (Some "https://evil.example/pypi/")) = [] /\
  evaluate_origin_predicates "block evil" (deny_upstream "https://evil.example/pypi")
    (proxy_origin_facts "pypi-proxy" (Some "https://evil.example/pypi/")) <> [].
Proof.
  split_and!; [vm_compute; done| |].
  - apply (proj2 (denied_upstream_needs_normal_form "block evil" "pypi-proxy" "https://evil.example/pypi/"
             "https://evil.example/pypi/" ltac:(vm_compute; done))); vm_compute; done.
  - vm_compute. done.
Defined.
