(* ===== verification/Quarantine.v ===== *)
(** The quarantine of artifacts ([services/quarantine_service.rs]), with the
    writes the scanner makes to the same columns ([services/scanner_service.rs]),
    the upload that reuses a row ([services/artifact_service.rs]), the settings
    of a repository ([api/handlers/repositories.rs]) and the download gate.

    Every statement is guarded and runs on the database it finds; an operation
    that decides on a row it read before takes both databases, so that the
    writes of others may commit in between. *)

From stdpp Require Import base list strings pretty gmap.
From Stdlib Require Import ZArith Lia Ascii.
From S2P Require Import Prelude RustStr RustNum Chrono Repository Errors UpstreamUrl Catalog ScanPolicy.

Local Open Scope string_scope.
Local Open Scope list_scope.
Local Open Scope Z_scope.
Local Open Scope result_scope.

(** * Decisions *)

(** The source's [Quarantined], [Released] and [Rejected]. *)
Inductive QuarantineState := ToQuarantined | ToReleased | ToRejected.

(** [as_str]: the value of the column. *)
Definition state_as_str (s : QuarantineState) : QStatus :=
  match s with ToQuarantined => Quarantined | ToReleased => Released | ToRejected => Rejected end.

Definition DEFAULT_DURATION_MINUTES : Z := 60.

Record QuarantineConfig := { config_enabled : bool; duration_minutes : Z }.

Definition should_quarantine (config : QuarantineConfig) : bool := config_enabled config.

Definition supports_quarantine (t : RepositoryType) : bool :=
  match t with Local | Staging | Remote => true | Virtual => false end.

Section Chrono.
Context `{Chrono}.

(** [Duration::minutes], which panics when [i64] or the duration overflows. *)
Definition duration_of_minutes (m : Z) : option Z :=
  if bool_decide (as_i64 (m * 60) = m * 60) then try_seconds (m * 60) else None.

(** Both are [None] when the code panics. *)
Definition quarantine_until_from_release (config : QuarantineConfig) (release_date : option DateTime) (now : DateTime)
  : option DateTime :=
  d ← duration_of_minutes (duration_minutes config); checked_add_signed (default now release_date) d.

Definition quarantine_until_ (config : QuarantineConfig) (now : DateTime) : option DateTime :=
  d ← duration_of_minutes (duration_minutes config); checked_add_signed now d.
End Chrono.

Definition check_download_allowed (status : option QStatus) (until : option DateTime) (now : DateTime)
  : result AppError unit :=
  match status with
  | Some Quarantined =>
      if match until with Some u => u <=? now | None => false end then Ok tt
      else Err (Conflict "Artifact is quarantined and pending security review")
  | Some Rejected => Err (Authorization "Artifact was rejected during security review")
  | _ => Ok tt
  end.

Definition status_after_scan (has_findings : bool) : QuarantineState := if has_findings then ToRejected else ToReleased.

Definition admin_quarantine_allowed (current : option QStatus) : bool := negb (bool_decide (current = Some Rejected)).

Definition policy_gate_result (allowed : bool) : result AppError unit :=
  if allowed then Ok tt else Err (Authorization "Artifact download is blocked by the repository's scan policy").

Definition validate_duration (minutes : Z) : Z := Z.max minutes 1.

(** * Settings *)

(** [Instant]s in nanoseconds; the tuple of overrides. *)
Notation Instant := Z.
Notation RepoQuarantineSettings := (option bool * option Z)%type.
Notation Cache := (gmap Uuid (Instant * RepoQuarantineSettings)).

Definition QUARANTINE_CONFIG_TTL : Z := 30 * NANOS_PER_SEC.

Definition is_fresh (now inserted : Instant) : Prop := now - inserted < QUARANTINE_CONFIG_TTL.
#[export] Instance is_fresh_dec now inserted : Decision (is_fresh now inserted) := Z_lt_dec _ _.

Definition cached_repo_settings (now : Instant) (repository : Uuid) (cache : Cache) : option RepoQuarantineSettings :=
  '(inserted, settings) ← cache !! repository;
  if bool_decide (is_fresh now inserted) then Some settings else None.

Definition store_repo_settings (now : Instant) (repository : Uuid) (settings : RepoQuarantineSettings) (cache : Cache)
  : Cache :=
  <[repository := (now, settings)]> (filter (fun kv => is_fresh now (fst (snd kv))) cache).

Definition invalidate_config_cache (repository : Uuid) (cache : Cache) : Cache := delete repository cache.

(** The query returns the two keys of the repository in some order; a key is
    unique per repository. *)
Definition config_row (db : Db) (repository : Uuid) (key : string) : option ConfigRow :=
  List.find (fun r => bool_decide (config_repository r = repository) && String.eqb (config_key r) key)
    (repository_config db).

Definition repo_settings (db : Db) (repository : Uuid) : RepoQuarantineSettings :=
  (r ← config_row db repository "quarantine_enabled"; v ← config_value r; Some (one_of v ["true"; "1"]),
   r ← config_row db repository "quarantine_duration_minutes"; v ← config_value r; parse_i64 v).

(** The two environment variables. *)
Record Environment := { QUARANTINE_ENABLED : option string; QUARANTINE_DURATION_MINUTES : option string }.

Definition global_enabled (e : Environment) : bool :=
  match QUARANTINE_ENABLED e with Some v => one_of v ["true"; "1"] | None => false end.
Definition global_duration (e : Environment) : Z :=
  default DEFAULT_DURATION_MINUTES (v ← QUARANTINE_DURATION_MINUTES e; parse_i64 v).

Definition merge_settings (e : Environment) (s : RepoQuarantineSettings) : QuarantineConfig :=
  {| config_enabled := default (global_enabled e) (fst s);
     duration_minutes := validate_duration (default (global_duration e) (snd s)) |}.

(** [read_at] is the instant the cache is read, [stored_at] the one the miss is
    stored. *)
Definition resolve_config (e : Environment) (db : Db) (read_at stored_at : Instant) (repository : Uuid) (cache : Cache)
  : QuarantineConfig * Cache :=
  match cached_repo_settings read_at repository cache with
  | Some cached => (merge_settings e cached, cache)
  | None =>
      let settings := repo_settings db repository in
      (merge_settings e settings, store_repo_settings stored_at repository settings cache)
  end.

(** ** The settings request *)

Definition set_config (f : list ConfigRow -> list ConfigRow) (db : Db) : Db :=
  {| artifacts := artifacts db; repositories := repositories db; repository_config := f (repository_config db);
     artifact_metadata := artifact_metadata db; install_scripts := install_scripts db;
     curation_packages := curation_packages db; scan_results := scan_results db;
     scan_findings := scan_findings db; scan_policies := scan_policies db |}.

Definition is_row (repository : Uuid) (key : string) (r : ConfigRow) : bool :=
  bool_decide (config_repository r = repository) && String.eqb (config_key r) key.

Definition upsert_repo_config (repository : Uuid) (key value : string) (db : Db) : Db :=
  let row := {| config_repository := repository; config_key := key; config_value := Some value |} in
  set_config (fun l =>
    if existsb (is_row repository key) l then (fun r => if is_row repository key r then row else r) <$> l
    else l ++ [row]) db.

Definition VIRTUAL_QUARANTINE_UNSUPPORTED : string :=
  "quarantine is not supported on virtual repositories: a virtual serves content cached per member remote repository, so the Package Age Policy belongs on the member remote repositories, where each cached object has a quarantine identity and POST /api/v1/quarantine/proxy-cache/{key}/release can act on it. Enable quarantine on the members (or on a local/staging repository) instead.".

Definition is_quarantine_enableable (t : RepositoryType) : result AppError unit :=
  if supports_quarantine t then Ok tt else Err (Validation VIRTUAL_QUARANTINE_UNSUPPORTED).

(** The part of a repository update that concerns the quarantine, with the
    setting the handler writes between the two keys: the answer, the database
    and the cache.  The statements are not one transaction, so an error keeps
    the writes before it, and only the end of the sequence flushes the cache. *)
Definition update_quarantine_settings (t : RepositoryType) (repository : Uuid) (enabled virtual_partial : option bool)
  (duration : option Z) (db : Db) (cache : Cache) : result AppError unit * Db * Cache :=
  let text (b : bool) := if b then "true" else "false" in
  match match enabled with Some true => is_quarantine_enableable t | _ => Ok tt end with
  | Err e => (Err e, db, cache)
  | Ok _ =>
      let db := match enabled with
                | Some b => upsert_repo_config repository "quarantine_enabled" (text b) db
                | None => db
                end in
      if match virtual_partial, t with None, _ | Some _, Virtual => false | Some _, _ => true end
      then (Err (Validation "virtual_metadata_partial is only valid for virtual repositories"), db, cache)
      else
        let db := match virtual_partial with
                  | Some b => upsert_repo_config repository "virtual_metadata_partial" (text b) db
                  | None => db
                  end in
        if match duration with Some d => d <? 0 | None => false end
        then (Err (Validation "quarantine_duration_minutes must be non-negative"), db, cache)
        else
          let db := match duration with
                    | Some d => upsert_repo_config repository "quarantine_duration_minutes" (pretty d) db
                    | None => db
                    end in
          (Ok tt, db, match enabled, duration with None, None => cache | _, _ => invalidate_config_cache repository cache end)
  end.

(** * The writes *)

Definition status_in (l : list QStatus) (a : Artifact) : bool :=
  match quarantine_status a with Some s => bool_decide (s ∈ l) | None => false end.

(** [quarantine_status IS NULL OR quarantine_status IN l]. *)
Definition null_or_in (l : list QStatus) (a : Artifact) : bool :=
  match quarantine_status a with Some s => bool_decide (s ∈ l) | None => true end.

Definition set_quarantine_columns (status : QStatus) (until : option DateTime) (reason : option string) (a : Artifact)
  : Artifact :=
  {| repository_id := repository_id a; path := path a; name := name a; version := version a;
     checksum_sha256 := checksum_sha256 a; origin := origin a; is_deleted := is_deleted a;
     quarantine_status := Some status; quarantine_until := until; quarantine_reason := reason |}.

(** [UPDATE artifacts SET ... WHERE id = $1 AND guard]: whether a row was
    affected. *)
Definition update_artifact (i : Uuid) (guard : Artifact -> bool) (f : Artifact -> Artifact) (db : Db) : bool * Db :=
  match artifacts db !! i with
  | Some a => if guard a then (true, set_artifacts (insert i (f a)) db) else (false, db)
  | None => (false, db)
  end.

Definition set_quarantine (i : Uuid) (status : QStatus) (until : option DateTime) (db : Db) : bool * Db :=
  update_artifact i (fun a => negb (is_deleted a) && null_or_in [Clean; Flagged; Unscanned; Released] a)
    (fun a => set_quarantine_columns status until (quarantine_reason a) a) db.

(** [None] when the computation of the expiry panics. *)
Definition apply_upload_hold `{Chrono} (config : QuarantineConfig) (i : Uuid) (now : DateTime) (db : Db) : option Db :=
  if should_quarantine config then
    until ← quarantine_until_ config now;
    Some (snd (set_quarantine i (state_as_str ToQuarantined) (Some until) db))
  else Some db.

(** The column holds the text of the type. *)
Definition repo_is_hosted (db : Db) (repository : Uuid) : bool :=
  match List.find (fun r => bool_decide (repo_id r = repository)) (repositories db) with
  | Some r => one_of (repo_type r) ["local"; "staging"]
  | None => false
  end.

Definition apply_upload_hold_hosted `{Chrono} (config : QuarantineConfig) (repository i : Uuid) (now : DateTime) (db : Db)
  : option Db :=
  if repo_is_hosted db repository then apply_upload_hold config i now db else Some db.

Definition transition (i : Uuid) (new_status : QuarantineState) (reason : option string) (db : Db)
  : result AppError unit * Db :=
  match new_status with
  | ToQuarantined => (Err (Conflict "Cannot transition to quarantined state"), db)
  | ToReleased | ToRejected =>
      let '(affected, db) :=
        update_artifact i (status_in [Quarantined])
          (fun a => set_quarantine_columns (state_as_str new_status) None
             (match new_status with ToReleased => None | _ => match reason with Some r => Some r | None => quarantine_reason a end end) a)
          db in
      (if affected then Ok tt else Err (Conflict "Artifact is not in quarantined state; transition not allowed"), db)
  end.

Definition not_in (l : list QStatus) (a : Artifact) : bool := negb (status_in l a).

Section Uuids.
Context `{UrlCrates}.

(** The row is read in [read]; the write commits on [db]. *)
Definition quarantine_now (read : Db) (i : Uuid) (reason : option string) (db : Db) : result AppError string * Db :=
  let conflict := Err (Conflict "Artifact was rejected during security review; cannot re-quarantine") in
  match live_artifact read i with
  | None => (Err (NotFound ("Artifact " +:+ uuid_display i +:+ " not found")), db)
  | Some a =>
      if negb (admin_quarantine_allowed (quarantine_status a)) then (conflict, db)
      else
        let reason := default "Quarantined by administrator" reason in
        let '(affected, db) := update_artifact i (fun a => negb (is_deleted a) && not_in [Rejected] a)
                                 (set_quarantine_columns Quarantined None (Some reason)) db in
        (if affected then Ok "quarantined" else conflict, db)
  end.

Definition get_status (db : Db) (i : Uuid) : result AppError (option QStatus * option DateTime) :=
  let? a := ok_or (live_artifact db i) (NotFound "Artifact not found") in
  Ok (quarantine_status a, quarantine_until a).

(** ** The scanner *)

Definition flag_failed_scan (i : Uuid) (db : Db) : Db :=
  snd (update_artifact i (null_or_in [Clean; Flagged; Unscanned])
         (fun a => set_quarantine_columns Flagged (quarantine_until a) (quarantine_reason a) a) db).

(** The policies as read; an error of the evaluation lets the artifact pass. *)
Definition policy_of (read : Db) (i : Uuid) : option PolicyResult :=
  a ← artifacts read !! i;
  match evaluate_artifact read i (repository_id a) with Ok r => Some r | Err _ => None end.

Definition enforce_policy_after_failed_scan (read : Db) (i : Uuid) (db : Db) : Db :=
  match policy_of read i with
  | Some r =>
      if allowed r then db
      else snd (update_artifact i (not_in [Rejected])
                  (set_quarantine_columns Quarantined None (Some (join "; " (violations r)))) db)
  | None => db
  end.

Record PostScanDecision := { decision_status : QStatus; clear_until : bool; decision_reason : option string }.

Definition post_scan_status_decision (current_status : option QStatus) (findings_count : Z) (policy : option PolicyResult)
  (has_timed_hold : bool) : PostScanDecision :=
  let violation := match policy with Some p => if allowed p then None else Some p | None => None end in
  if bool_decide (current_status = Some Quarantined) && has_timed_hold then
    match violation with
    | Some p => {| decision_status := Quarantined; clear_until := true; decision_reason := Some (join "; " (violations p)) |}
    | None => {| decision_status := state_as_str (status_after_scan (0 <? findings_count)); clear_until := true;
                 decision_reason := None |}
    end
  else
    match violation with
    | Some p => {| decision_status := Quarantined; clear_until := false; decision_reason := Some (join "; " (violations p)) |}
    | None => {| decision_status := if 0 <? findings_count then Flagged else Clean; clear_until := false;
                 decision_reason := None |}
    end.

(** The write a decision makes. *)
Definition write_decision (i : Uuid) (d : PostScanDecision) (db : Db) : Db :=
  if clear_until d then
    snd (update_artifact i (fun a => status_in [Quarantined] a && negb (is_none (quarantine_until a)))
           (fun a => set_quarantine_columns (decision_status d) None
              (if bool_decide (decision_status d = Released) then None
               else match decision_reason d with Some r => Some r | None => quarantine_reason a end) a) db)
  else
    snd (update_artifact i (not_in [Quarantined; Rejected])
           (fun a => set_quarantine_columns (decision_status d)
              (if bool_decide (decision_status d = Quarantined) then None else quarantine_until a) (decision_reason d) a) db).

Definition update_quarantine_status (read : Db) (i : Uuid) (findings_count : Z) (db : Db) : Db :=
  let row := artifacts read !! i in
  write_decision i
    (post_scan_status_decision (a ← row; quarantine_status a) findings_count (policy_of read i)
       (negb (is_none (a ← row; quarantine_until a)))) db.

(** ** Uploads and deletions *)

Record Uploaded := {
  up_repository : Uuid;
  up_path : string;
  up_name : string;
  up_version : option string;
  up_checksum : string
}.

Definition at_path (u : Uploaded) (a : Artifact) : bool :=
  bool_decide (repository_id a = up_repository u) && String.eqb (path a) (up_path u).

Definition find_at_path (u : Uploaded) (db : Db) : option (Uuid * Artifact) :=
  List.find (fun p => at_path u (snd p)) (map_to_list (artifacts db)).

(** The row an upload that conflicts on the path leaves: the columns of the
    content, and none of the quarantine's. *)
Definition overwrite (u : Uploaded) (a : Artifact) : Artifact :=
  {| repository_id := repository_id a; path := path a; name := up_name u; version := up_version u;
     checksum_sha256 := up_checksum u; origin := origin a; is_deleted := false;
     quarantine_status := quarantine_status a; quarantine_until := quarantine_until a;
     quarantine_reason := quarantine_reason a |}.

(** [origin_] is the document the insert trigger derives; a new row with the
    primary key of another one is refused. *)
Definition upsert_artifact (new_id : Uuid) (origin_ : option Json) (versioning_active : bool) (u : Uploaded) (db : Db)
  : result AppError (Uuid * Db) :=
  match find_at_path u db with
  | Some (i, a) =>
      if is_deleted a || versioning_active || negb (bool_decide (version a = up_version u))
      then Ok (i, set_artifacts (insert i (overwrite u a)) db)
      else Err (Conflict "Artifact version already exists and is immutable")
  | None =>
      match artifacts db !! new_id with
      | Some _ => Err (Database "duplicate key value violates unique constraint")
      | None =>
          Ok (new_id, set_artifacts (insert new_id
                {| repository_id := up_repository u; path := up_path u; name := up_name u; version := up_version u;
                   checksum_sha256 := up_checksum u; origin := origin_; is_deleted := false;
                   quarantine_status := None; quarantine_until := None; quarantine_reason := None |}) db)
      end
  end.

Definition commit_delete (i : Uuid) (db : Db) : result AppError unit * Db :=
  let '(affected, db) := update_artifact i (fun a => negb (is_deleted a))
    (fun a => {| repository_id := repository_id a; path := path a; name := name a; version := version a;
                 checksum_sha256 := checksum_sha256 a; origin := origin a; is_deleted := true;
                 quarantine_status := quarantine_status a; quarantine_until := quarantine_until a;
                 quarantine_reason := quarantine_reason a |}) db in
  (if affected then Ok tt else Err (NotFound "Artifact not found"), db).

(** ** Rows that go, and rows that come

    The format handlers keep no row of a deleted artifact: before they insert,
    they remove the one at the path.  The variant that compares the checksums
    of released coordinates refuses some uploads, and is this statement for the
    others. *)
Definition cleanup_soft_deleted_artifact (repository : Uuid) (path_ : string) (db : Db) : Db :=
  set_artifacts (filter (fun ia => bool_decide (repository_id ia.2 = repository) && String.eqb (path ia.2) path_ && is_deleted ia.2 = false)) db.

(** Their INSERT: a path is unique in a repository, deleted rows included. *)
Definition insert_artifact (new_id : Uuid) (origin_ : option Json) (u : Uploaded) (db : Db) : result AppError Db :=
  match find_at_path u db, artifacts db !! new_id with
  | None, None =>
      Ok (set_artifacts (insert new_id
            {| repository_id := up_repository u; path := up_path u; name := up_name u; version := up_version u;
               checksum_sha256 := up_checksum u; origin := origin_; is_deleted := false;
               quarantine_status := None; quarantine_until := None; quarantine_reason := None |}) db)
  | _, _ => Err (Database "duplicate key value violates unique constraint")
  end.

(** [DELETE FROM artifacts WHERE id = $1 AND is_deleted = true]: what the trash
    does to a purged row, and storage collection to each row of an orphan key. *)
Definition purge_row (i : Uuid) (db : Db) : Db :=
  set_artifacts (filter (fun ia => bool_decide (ia.1 = i) && is_deleted ia.2 = false)) db.

(** The cascade of a repository's deletion. *)
Definition delete_repository_rows (repository : Uuid) (db : Db) : Db :=
  set_artifacts (filter (fun ia => repository_id ia.2 <> repository)) db.

(** The upload service after its transaction committed: the hold is applied
    to the committed row; [None] in the answer when it panics. *)
Definition upload_and_hold `{Chrono} (config : QuarantineConfig) (new_id : Uuid) (origin_ : option Json)
  (versioning_active : bool) (u : Uploaded) (now : DateTime) (db : Db) : option (result AppError Uuid) * Db :=
  match upsert_artifact new_id origin_ versioning_active u db with
  | Err e => (Some (Err e), db)
  | Ok (i, db) =>
      match apply_upload_hold config i now db with
      | Some db => (Some (Ok i), db)
      | None => (None, db)
      end
  end.

(** * The download gate *)

Definition enforce_scan_policy_gate (db : Db) (i repository : Uuid) : result AppError unit :=
  let? r := evaluate_artifact db i repository in policy_gate_result (allowed r).

Definition enforce_download_gate (db : Db) (i : Uuid) (now : DateTime) : result AppError unit :=
  match live_artifact db i with
  | None => Ok tt
  | Some a =>
      let? _ := check_download_allowed (quarantine_status a) (quarantine_until a) now in
      enforce_scan_policy_gate db i (repository_id a)
  end.

End Uuids.
