(* ===== verification/QuarantineFacts.v ===== *)
(** What the quarantine guarantees: the life of the three columns under any
    interleaving of uploads, scans, deletions and administrators, the verdict
    of the download gate, the extent of an upload hold, and the settings. *)

From stdpp Require Import base list strings pretty gmap.
From Stdlib Require Import ZArith Lia Ascii.
From S2P Require Import Prelude RustStr RustNum Chrono Repository Errors UpstreamUrl Catalog ScanPolicy ScanPolicyFacts Quarantine.

Local Open Scope string_scope.
Local Open Scope list_scope.
Local Open Scope Z_scope.

(** * Rows *)

Definition columns (a : Artifact) : option QStatus * option DateTime * option string :=
  (quarantine_status a, quarantine_until a, quarantine_reason a).

Lemma update_artifact_row j g f db i :
  artifacts (snd (update_artifact j g f db)) !! i =
  (fun a => if bool_decide (j = i) && g a then f a else a) <$> artifacts db !! i.
Proof.
  unfold update_artifact. destruct (artifacts db !! j) as [b|] eqn:Ej; cbn.
  - destruct (g b) eqn:Eg; cbn.
    + destruct (decide (j = i)) as [->|Hne].
      * rewrite lookup_insert_eq, Ej. cbn. by rewrite bool_decide_true, Eg by done.
      * rewrite lookup_insert_ne by done. destruct (artifacts db !! i); cbn; [|done]. by rewrite bool_decide_false.
    + destruct (artifacts db !! i) as [c|] eqn:Ei; cbn; [|done]. case_bool_decide; [|done]. simplify_eq. by rewrite Eg.
  - destruct (artifacts db !! i) as [c|] eqn:Ei; cbn; [|done]. case_bool_decide; [|done]. simplify_eq.
Qed.

Lemma update_artifact_policies j g f db : scan_policies (snd (update_artifact j g f db)) = scan_policies db.
Proof. unfold update_artifact. destruct (artifacts db !! j) as [a|]; [by destruct (g a)|done]. Qed.

Lemma find_at_path_row u db i a : find_at_path u db = Some (i, a) -> artifacts db !! i = Some a /\ at_path u a = true.
Proof.
  intros [Hin Hat]%List.find_some. split; [|done]. by apply list_elem_of_In, elem_of_map_to_list in Hin.
Qed.

Lemma status_in_true l a : status_in l a = true <-> exists s, quarantine_status a = Some s /\ s ∈ l.
Proof. unfold status_in. destruct (quarantine_status a); [rewrite bool_decide_eq_true|]; naive_solver. Qed.

Lemma null_or_in_true l a : null_or_in l a = true <-> forall s, quarantine_status a = Some s -> s ∈ l.
Proof. unfold null_or_in. destruct (quarantine_status a); [rewrite bool_decide_eq_true|]; naive_solver. Qed.

(** * Events *)

Section Events.
Context `{UrlCrates}.

(** The statements that write an artifact row, each with the database its
    decision was read from, and the writes to the other tables. *)
Inductive Event :=
| UploadHold (i : Uuid) (until : DateTime)
| AdminTransition (i : Uuid) (new_status : QuarantineState) (reason : option string)
| AdminQuarantine (read : Db) (i : Uuid) (reason : option string)
| ScanFailed (i : Uuid)
| ScanFailedPolicy (read : Db) (i : Uuid)
| ScanDone (read : Db) (i : Uuid) (findings_count : Z)
| Upload (new_id : Uuid) (origin_ : option Json) (versioning_active : bool) (u : Uploaded)
| Delete (i : Uuid)
| Cleanup (repository : Uuid) (path_ : string)
| Publish (new_id : Uuid) (origin_ : option Json) (u : Uploaded)
| Purge (i : Uuid)
| DeleteRepository (repository : Uuid)
| Elsewhere (other : Db).

Definition apply_event (e : Event) (db : Db) : Db :=
  match e with
  | UploadHold i until => snd (set_quarantine i (state_as_str ToQuarantined) (Some until) db)
  | AdminTransition i s r => snd (transition i s r db)
  | AdminQuarantine read i r => snd (quarantine_now read i r db)
  | ScanFailed i => flag_failed_scan i db
  | ScanFailedPolicy read i => enforce_policy_after_failed_scan read i db
  | ScanDone read i n => update_quarantine_status read i n db
  | Upload new_id o v u => match upsert_artifact new_id o v u db with Ok (_, db) => db | Err _ => db end
  | Delete i => snd (commit_delete i db)
  | Cleanup r p => cleanup_soft_deleted_artifact r p db
  | Publish new_id o u => match insert_artifact new_id o u db with Ok db => db | Err _ => db end
  | Purge i => purge_row i db
  | DeleteRepository r => delete_repository_rows r db
  | Elsewhere other => set_artifacts (fun _ => artifacts db) other
  end.

Definition run (es : list Event) (db : Db) : Db := foldl (fun db e => apply_event e db) db es.

(** How an event may change the columns of the row [i]. *)
Definition changes (e : Event) (i : Uuid) (a a' : Artifact) : Prop :=
  match e with
  | UploadHold j until =>
      j = i /\ is_deleted a = false /\ (forall s, quarantine_status a = Some s -> s <> Quarantined /\ s <> Rejected) /\
      quarantine_status a' = Some Quarantined /\ quarantine_until a' = Some until
  | AdminTransition j s _ =>
      j = i /\ s <> ToQuarantined /\ quarantine_status a = Some Quarantined /\
      quarantine_status a' = Some (state_as_str s) /\ quarantine_until a' = None
  | AdminQuarantine _ j _ | ScanFailedPolicy _ j =>
      j = i /\ quarantine_status a <> Some Rejected /\ quarantine_status a' = Some Quarantined /\ quarantine_until a' = None
  | ScanFailed j =>
      j = i /\ (forall s, quarantine_status a = Some s -> s ∈ [Clean; Flagged; Unscanned]) /\ quarantine_status a' = Some Flagged
  | ScanDone read j n =>
      j = i /\
      (quarantine_status a = Some Quarantined /\ (exists u, quarantine_until a = Some u) /\ quarantine_until a' = None /\
         (quarantine_status a' = Some Quarantined \/ quarantine_status a' = Some Rejected \/
          quarantine_status a' = Some Released /\ n <= 0 /\
            match policy_of read i with Some r => allowed r = true | None => True end) \/
       (forall s, quarantine_status a = Some s -> s <> Quarantined /\ s <> Rejected) /\
         (quarantine_status a' = Some Clean \/ quarantine_status a' = Some Flagged \/
          quarantine_status a' = Some Quarantined /\ quarantine_until a' = None))
  | Upload _ _ _ _ | Delete _ | Cleanup _ _ | Publish _ _ _ | Purge _ | DeleteRepository _ | Elsewhere _ => False
  end.

(** The events that remove the row [i]: out of the trash, or with its
    repository. *)
Definition removes (e : Event) (i : Uuid) (a : Artifact) : Prop :=
  match e with
  | Cleanup r p => repository_id a = r /\ path a = p /\ is_deleted a = true
  | Purge j => j = i /\ is_deleted a = true
  | DeleteRepository r => repository_id a = r
  | _ => False
  end.

(** The events that draw [i] as the id of a new row. *)
Definition draws (i : Uuid) (e : Event) : Prop :=
  match e with Upload new_id _ _ _ | Publish new_id _ _ => new_id = i | _ => False end.

(** A guarded update of [j] either leaves the columns of [i] or is the one
    change its guard admits. *)
Lemma update_changes j g f db i a (P : Artifact -> Prop) : artifacts db !! i = Some a ->
  (j = i -> g a = true -> P (f a)) ->
  exists a', artifacts (snd (update_artifact j g f db)) !! i = Some a' /\ (columns a' = columns a \/ P a').
Proof.
  intros Hi HP. rewrite update_artifact_row, Hi. cbn. case_bool_decide as Hj; cbn; [|by eauto].
  destruct (g a) eqn:Eg; eauto.
Qed.

Lemma not_in_true l a : not_in l a = true <-> forall s, quarantine_status a = Some s -> s ∉ l.
Proof.
  unfold not_in. rewrite negb_true_iff, <- not_true_iff_false, status_in_true. naive_solver.
Qed.

Lemma scan_decision_changes read i n db a : artifacts db !! i = Some a ->
  exists a', artifacts (update_quarantine_status read i n db) !! i = Some a' /\
             (columns a' = columns a \/ changes (ScanDone read i n) i a a').
Proof.
  intros Hi. unfold update_quarantine_status, write_decision.
  set (d := post_scan_status_decision _ _ _ _).
  assert (Hd : if clear_until d
    then decision_status d = Quarantined \/ decision_status d = Rejected \/
         decision_status d = Released /\ n <= 0 /\ match policy_of read i with Some r => allowed r = true | None => True end
    else decision_status d = Clean \/ decision_status d = Flagged \/ decision_status d = Quarantined).
  { unfold d, post_scan_status_decision. destruct (bool_decide _ && _), (policy_of read i) as [[[] ?]|]; cbn; auto.
    all: destruct (Z.ltb_spec 0 n); cbn; auto. }
  destruct (clear_until d).
  - apply update_changes; [done|]. intros _ [Hs Hu]%andb_true_iff. split; [done|]. left.
    apply status_in_true in Hs as (s & Es & Hs%list_elem_of_singleton). subst s. split; [done|]. split.
    { destruct (quarantine_until a); [eauto|done]. }
    split; [done|]. cbn. destruct Hd as [->|[->|(-> & ? & ?)]]; auto 10.
  - apply update_changes; [done|]. rewrite not_in_true. intros _ Hs. split; [done|]. right. split.
    { intros s Es. specialize (Hs s Es). rewrite !not_elem_of_cons in Hs. naive_solver. }
    cbn. destruct Hd as [->|[->| ->]]; auto.
Qed.

Lemma filtered_row (P : Uuid * Artifact -> Prop) `{!forall x, Decision (P x)} db i a : artifacts db !! i = Some a ->
  artifacts (set_artifacts (filter P) db) !! i = if decide (P (i, a)) then Some a else None.
Proof. intros Hi. cbn. rewrite map_lookup_filter, Hi. unfold guard. cbn. by destruct (decide _). Qed.

Lemma event_keeps e db i a : artifacts db !! i = Some a -> (forall r p, e <> Cleanup r p) -> (forall j, e <> Purge j) -> (forall r, e <> DeleteRepository r) ->
  exists a', artifacts (apply_event e db) !! i = Some a' /\ (columns a' = columns a \/ changes e i a a').
Proof.
  intros Hi Hn1 Hn2 Hn3. destruct e as [j until|j s r|read j r|j|read j|read j n|new_id o v u|j|r p|new_id o u|j|r|other]; cbn [apply_event];
    [..|by destruct (Hn1 r p)| |by destruct (Hn2 j)|by destruct (Hn3 r)|].
  - apply update_changes; [done|]. rewrite andb_true_iff, negb_true_iff, null_or_in_true. intros -> [Hd Hs].
    split_and!; try done. intros s Es. specialize (Hs s Es). rewrite !elem_of_cons, elem_of_nil in Hs. naive_solver.
  - destruct s; cbn [transition]; [eauto| |].
    all: destruct (update_artifact j _ _ db) as [b db'] eqn:Eu; cbn [snd]; change db' with (snd (b, db')); rewrite <- Eu.
    all: apply update_changes; [done|]; rewrite status_in_true; intros -> (s & Es & ->%list_elem_of_singleton).
    all: by split_and!.
  - unfold quarantine_now. destruct (live_artifact read j) as [b|]; [|eauto].
    destruct (negb (admin_quarantine_allowed _)); [eauto|].
    destruct (update_artifact j _ _ db) as [c db'] eqn:Eu; cbn [snd]; change db' with (snd (c, db')); rewrite <- Eu.
    apply update_changes; [done|]. rewrite andb_true_iff, not_in_true. intros -> [_ Hs].
    split_and!; try done. intros Er. apply (Hs _ Er). by left.
  - apply update_changes; [done|]. rewrite null_or_in_true. intros -> Hs. by split_and!.
  - unfold enforce_policy_after_failed_scan. destruct (policy_of read j) as [r|]; [|eauto]. destruct (allowed r); [eauto|].
    apply update_changes; [done|]. rewrite not_in_true. intros -> Hs.
    split_and!; try done. intros Er. apply (Hs _ Er). by left.
  - destruct (decide (j = i)) as [->|Hne]; [by apply scan_decision_changes|].
    unfold update_quarantine_status, write_decision. destruct (clear_until _); by apply update_changes.
  - unfold upsert_artifact. destruct (find_at_path u db) as [[j b]|] eqn:Ef.
    + apply find_at_path_row in Ef as [Hj _]. destruct (_ || _); [|eauto]. cbn.
      destruct (decide (j = i)) as [->|Hne]; [|rewrite lookup_insert_ne by done; eauto].
      rewrite lookup_insert_eq. simplify_eq. eexists. split; [done|]. by left.
    + destruct (artifacts db !! new_id) as [b|] eqn:En; [eauto|]. cbn.
      rewrite lookup_insert_ne by congruence. eauto.
  - unfold commit_delete. destruct (update_artifact j _ _ db) as [c db'] eqn:Eu; cbn [snd]; change db' with (snd (c, db')).
    rewrite <- Eu, update_artifact_row, Hi. cbn. eexists. split; [done|]. left. by destruct (_ && _).
  - unfold insert_artifact. destruct (find_at_path u db); [eauto|]. destruct (artifacts db !! new_id) as [b|] eqn:En; [eauto|]. cbn.
    rewrite lookup_insert_ne by congruence. eauto.
  - cbn. eauto.
Qed.

Lemma event_row e db i a : artifacts db !! i = Some a ->
  (removes e i a /\ artifacts (apply_event e db) !! i = None) \/
  exists a', artifacts (apply_event e db) !! i = Some a' /\ (columns a' = columns a \/ changes e i a a').
Proof.
  intros Hi. destruct e as [j until|j s r|read j r|j|read j|read j n|new_id o v u|j|r p|new_id o u|j|r|other]; try (right; by apply event_keeps).
  - cbn [apply_event]. unfold cleanup_soft_deleted_artifact. rewrite (filtered_row _ _ _ _ Hi). cbn. case_decide as Hd; [right; by eauto|left].
    split; [|done]. apply not_false_iff_true in Hd. rewrite !andb_true_iff, bool_decide_eq_true, String.eqb_eq in Hd. tauto.
  - cbn [apply_event]. unfold purge_row. rewrite (filtered_row _ _ _ _ Hi). cbn. case_decide as Hd; [right; by eauto|left].
    split; [|done]. apply not_false_iff_true in Hd. rewrite andb_true_iff, bool_decide_eq_true in Hd. naive_solver.
  - cbn [apply_event]. unfold delete_repository_rows. rewrite (filtered_row _ _ _ _ Hi). cbn. case_decide as Hd; [right; by eauto|left].
    split; [|done]. by symmetry.
Qed.

(** What is gone stays gone, ids being drawn once. *)
Lemma event_absent e db i : artifacts db !! i = None -> ~ draws i e -> artifacts (apply_event e db) !! i = None.
Proof.
  intros Hi Hd. assert (forall j g f, artifacts (snd (update_artifact j g f db)) !! i = None) as Hu
    by (intros; rewrite update_artifact_row, Hi; done).
  assert (forall P `{!forall x : Uuid * Artifact, Decision (P x)}, artifacts (set_artifacts (filter P) db) !! i = None) as Hf
    by (intros P ?; cbn; by rewrite map_lookup_filter, Hi).
  destruct e as [j until|j s r|read j r|j|read j|read j n|new_id o v u|j|r p|new_id o u|j|r|other]; cbn [apply_event draws] in *; try apply Hf.
  - apply Hu.
  - unfold transition. destruct s; [done| |];
      (destruct (update_artifact j _ _ db) as [b db'] eqn:Eu; cbn [snd]; change db' with (snd (b, db')); rewrite <- Eu; apply Hu).
  - unfold quarantine_now. destruct (live_artifact read j); [|done]. destruct (negb _); [done|].
    destruct (update_artifact j _ _ db) as [b db'] eqn:Eu; cbn [snd]; change db' with (snd (b, db')); rewrite <- Eu; apply Hu.
  - apply Hu.
  - unfold enforce_policy_after_failed_scan. destruct (policy_of read j) as [r|]; [|done]. destruct (allowed r); [done|apply Hu].
  - unfold update_quarantine_status, write_decision. destruct (clear_until _); apply Hu.
  - unfold upsert_artifact. destruct (find_at_path u db) as [[j b]|] eqn:Ef.
    + apply find_at_path_row in Ef as [Hj _]. destruct (_ || _); [|done]. cbn. rewrite lookup_insert_ne by congruence. done.
    + destruct (artifacts db !! new_id); [done|]. cbn. by rewrite lookup_insert_ne.
  - unfold commit_delete. destruct (update_artifact j _ _ db) as [b db'] eqn:Eu; cbn [snd]; change db' with (snd (b, db')); rewrite <- Eu; apply Hu.
  - unfold insert_artifact. destruct (find_at_path u db); [done|]. destruct (artifacts db !! new_id); [done|]. cbn. by rewrite lookup_insert_ne.
  - done.
Qed.

Lemma run_absent es : forall db i, artifacts db !! i = None -> Forall (fun e => ~ draws i e) es -> artifacts (run es db) !! i = None.
Proof.
  induction es as [|e es IH]; intros db i Hi Hd; [done|]. apply Forall_cons in Hd as [He Hd]. apply IH; [|done]. by apply event_absent.
Qed.

(** The row left the table in the run, out of the trash or with its
    repository. *)
Definition removed_in (es : list Event) (db : Db) (i : Uuid) : Prop :=
  exists es1 e es2 b, es = es1 ++ e :: es2 /\ artifacts (run es1 db) !! i = Some b /\ removes e i b.

(** An invariant of the columns that no single event breaks survives a run, for
    as long as the row does. *)
Lemma run_row (P : Artifact -> Prop) (ok : Event -> Prop) i :
  (forall a a', columns a' = columns a -> P a -> P a') ->
  (forall e a a', ok e -> changes e i a a' -> P a -> P a') ->
  forall es db a, Forall (fun e => ok e /\ ~ draws i e) es -> artifacts db !! i = Some a -> P a ->
  (exists a', artifacts (run es db) !! i = Some a' /\ P a') \/ artifacts (run es db) !! i = None /\ removed_in es db i.
Proof.
  intros Hc Hs es. induction es as [|e es IH]; intros db a Hok Hi Ha; [left; by exists a|].
  apply Forall_cons in Hok as [[He _] Hok]. destruct (event_row e db i a Hi) as [[Hr Hn]|(b & Hb & Hba)].
  - right. split; [|by exists [], e, es, a]. apply (run_absent es); [done|]. eapply Forall_impl; [exact Hok|]. by intros ? [_ ?].
  - destruct (IH (apply_event e db) b) as [?|[Hn (es1 & e' & es2 & c & -> & Hc' & Hr)]]; [done..|destruct Hba; eauto|by left|].
    right. split; [done|]. by exists (e :: es1), e', es2, c.
Qed.

Lemma check_allowed_columns a a' now : columns a' = columns a ->
  check_download_allowed (quarantine_status a') (quarantine_until a') now =
  check_download_allowed (quarantine_status a) (quarantine_until a) now.
Proof. by intros [= -> ->]. Qed.

Lemma gate_of_row db i a now : artifacts db !! i = Some a ->
  enforce_download_gate db i now =
  if is_deleted a then Ok tt
  else rbind (check_download_allowed (quarantine_status a) (quarantine_until a) now)
         (fun _ => enforce_scan_policy_gate db i (repository_id a)).
Proof. intros Hi. unfold enforce_download_gate, live_artifact. rewrite Hi. cbn. by destruct (is_deleted a). Qed.

(** No event changes a rejected row, and only three change a held one. *)
Lemma changes_not_rejected e i a a' : changes e i a a' -> quarantine_status a <> Some Rejected.
Proof.
  destruct e; cbn; try done.
  - intros (_ & _ & Hn & _) Er. by destruct (Hn _ Er).
  - intros (_ & _ & Eq & _) Er. congruence.
  - by intros (_ & ? & _).
  - intros (_ & Hn & _) Er. specialize (Hn _ Er). rewrite !elem_of_cons, elem_of_nil in Hn. naive_solver.
  - by intros (_ & ? & _).
  - intros (_ & [(Eq & _)|(Hn & _)]) Er; [congruence|]. by destruct (Hn _ Er).
Qed.

Lemma changes_permanent e i a a' : changes e i a a' -> quarantine_status a = Some Quarantined -> quarantine_until a = None ->
  (exists s r, e = AdminTransition i s r) \/ quarantine_status a' = Some Quarantined /\ quarantine_until a' = None.
Proof.
  intros Hch Hs Hu. destruct e; cbn in Hch; try done.
  - destruct Hch as (_ & _ & Hn & _). by destruct (Hn _ Hs).
  - destruct Hch as (-> & _). left. eauto.
  - destruct Hch as (_ & _ & ?). auto.
  - destruct Hch as (_ & Hn & _). specialize (Hn _ Hs). rewrite !elem_of_cons, elem_of_nil in Hn. naive_solver.
  - destruct Hch as (_ & _ & ?). auto.
  - destruct Hch as (_ & [(_ & (u & Eu) & _)|(Hn & _)]); [congruence|]. by destruct (Hn _ Hs).
Qed.

(** A rejection is final.  Whatever uploads (of new content to the same
    path too), scans, failed scans, holds, deletions and administrators do
    afterwards, in any order and however stale the rows they decided on, the
    row stays rejected as long as it is there, so that what is stored under it is
    refused with 403. *)
Theorem rejected_is_final es db i a : artifacts db !! i = Some a -> quarantine_status a = Some Rejected ->
  Forall (fun e => ~ draws i e) es ->
  (exists a', artifacts (run es db) !! i = Some a' /\ quarantine_status a' = Some Rejected /\
    forall now, enforce_download_gate (run es db) i now =
      if is_deleted a' then Ok tt else Err (Authorization "Artifact was rejected during security review")) \/
  artifacts (run es db) !! i = None /\ removed_in es db i.
Proof.
  intros Hi Ha Hd.
  destruct (run_row (fun a => quarantine_status a = Some Rejected) (fun _ => True) i) with es db a as [(a' & Hi' & Ha')|?]; try done; [..|by right].
  - by intros b b' [= -> _ _].
  - intros e b b' _ Hch Hb. by apply changes_not_rejected in Hch.
  - by eapply Forall_impl; [exact Hd|].
  - left. exists a'. split_and!; [done..|]. intros now. rewrite (gate_of_row _ _ _ _ Hi'), Ha'. by destruct (is_deleted a').
Qed.

(** An administrator's transition of the row [i]. *)
Definition transitions (i : Uuid) (e : Event) : Prop := exists s r, e = AdminTransition i s r.

(** C38. Nothing but a decision to release opens the closed gate of a row.  A
    hold without an expiry (set by an administrator or by a policy) stays closed
    through any run in which no administrator transitions the artifact, whatever
    scans complete, uploads replace the content and deletes soft-delete it, until
    the row itself is removed: out of the trash, by a purge, by storage
    collection or by the handler of an upload to its path, or with its
    repository.  One event that opens a gate the quarantine keeps closed, of a
    row that stays, is either an administrator's release, or the completion of a
    scan without findings, against a row read with no policy violation, on an
    artifact under a hold that expires.  A hold is of its row only: what is
    inserted at the path of a removed one is served from the first instant, as
    far as the quarantine goes - for the format handlers, the content at the path
    of any soft-deleted artifact, however it was held or rejected. *)
Theorem gate_opens_only_by_release :
  (forall es db i a, artifacts db !! i = Some a -> quarantine_status a = Some Quarantined -> quarantine_until a = None ->
     Forall (fun e => ~ transitions i e /\ ~ draws i e) es ->
     (exists a', artifacts (run es db) !! i = Some a' /\
        forall now, enforce_download_gate (run es db) i now =
          if is_deleted a' then Ok tt else Err (Conflict "Artifact is quarantined and pending security review")) \/
     artifacts (run es db) !! i = None /\ removed_in es db i) /\
  (forall e db i a a' now, artifacts db !! i = Some a -> artifacts (apply_event e db) !! i = Some a' ->
     is_ok (check_download_allowed (quarantine_status a) (quarantine_until a) now) = false ->
     is_ok (check_download_allowed (quarantine_status a') (quarantine_until a') now) = true ->
     (exists r, e = AdminTransition i ToReleased r) \/
     exists read n u, e = ScanDone read i n /\ quarantine_until a = Some u /\ n <= 0 /\
       match policy_of read i with Some r => allowed r = true | None => True end) /\
  (forall db i a new_id o u, artifacts db !! i = Some a -> at_path u a = true -> is_deleted a = true ->
     (forall j b, artifacts db !! j = Some b -> at_path u b = true -> j = i) -> artifacts db !! new_id = None ->
     let db' := run [Cleanup (up_repository u) (up_path u); Publish new_id o u] db in
     artifacts db' !! i = None /\
     exists a', live_artifact db' new_id = Some a' /\ checksum_sha256 a' = up_checksum u /\
       forall now, check_download_allowed (quarantine_status a') (quarantine_until a') now = Ok tt).
Proof.
  split; [|split].
  - intros es db i a Hi Hs Hu Hes.
    destruct (run_row (fun a => quarantine_status a = Some Quarantined /\ quarantine_until a = None)
                (fun e => ~ transitions i e) i) with es db a as [(a' & Hi' & Hs' & Hu')|?]; try done; [..|by right].
    + by intros b b' [= -> -> _].
    + intros e b b' Hok Hch [Hb Hb']. by destruct (changes_permanent _ _ _ _ Hch Hb Hb') as [?|?].
    + left. exists a'. split; [done|]. intros now. rewrite (gate_of_row _ _ _ _ Hi'), Hs', Hu'. by destruct (is_deleted a').
  - intros e db i a a' now Hi Hi' Hc Ho. destruct (event_row e db i a Hi) as [[_ ?]|(b & Hb & Hch)]; [congruence|].
    assert (b = a') as -> by congruence. destruct Hch as [Hcol|Hch].
    { rewrite (check_allowed_columns _ _ _ Hcol) in Ho. congruence. }
    assert (Hst : quarantine_status a = Some Quarantined \/ quarantine_status a = Some Rejected).
    { destruct (quarantine_status a) as [[]|]; cbn in Hc; auto; done. }
    destruct e as [j until|j s r|read j r|j|read j|read j n|new_id o v u|j|r p|new_id o u|j|r|other]; cbn in Hch; try done.
    + destruct Hch as (_ & _ & Hn & _). destruct Hst as [E|E]; destruct (Hn _ E); done.
    + destruct Hch as (-> & Hne & Ea & Es & Eu). rewrite Es in Ho. destruct s; [done| |done]. left. eauto.
    + destruct Hch as (_ & _ & Es & Eu). by rewrite Es, Eu in Ho.
    + destruct Hch as (_ & Hn & _). exfalso. destruct Hst as [E|E]; specialize (Hn _ E);
        rewrite !elem_of_cons, elem_of_nil in Hn; naive_solver.
    + destruct Hch as (_ & _ & Es & Eu). by rewrite Es, Eu in Ho.
    + destruct Hch as (-> & [(Ea & (u & Eu) & Eu' & Hr)|(Hn & _)]).
      2:{ destruct Hst as [E|E]; destruct (Hn _ E); done. }
      right. destruct Hr as [Es|[Es|(Es & Hle & Hp)]]; [by rewrite Es, Eu' in Ho|by rewrite Es in Ho|].
      by exists read, n, u.
  - intros db i a new_id o u Hi Hat Hd Hone Hnew. cbn [run foldl apply_event].
    assert (new_id <> i) as Hne by congruence. unfold at_path in Hat. rewrite andb_true_iff, bool_decide_eq_true, String.eqb_eq in Hat.
    destruct Hat as [Hr Hp]. set (db1 := cleanup_soft_deleted_artifact _ _ db).
    assert (artifacts db1 !! i = None) as Hgone.
    { unfold db1, cleanup_soft_deleted_artifact. rewrite (filtered_row _ _ _ _ Hi). cbn. by rewrite bool_decide_eq_true_2, Hp, String.eqb_refl, Hd. }
    assert (artifacts db1 !! new_id = None) as Hnew1 by (unfold db1; cbn; by rewrite map_lookup_filter, Hnew).
    assert (find_at_path u db1 = None) as Hfree.
    { destruct (find_at_path u db1) as [[j b]|] eqn:Ef; [|done]. apply find_at_path_row in Ef as [Hj Hb].
      pose proof Hj as Hj0. unfold db1 in Hj0. cbn in Hj0. apply map_lookup_filter_Some in Hj0 as [Hj0 _].
      rewrite (Hone j b Hj0 Hb) in Hj. congruence. }
    unfold insert_artifact. rewrite Hfree, Hnew1. cbn. split; [by rewrite lookup_insert_ne|].
    unfold live_artifact. cbn. rewrite lookup_insert_eq. cbn. eexists. by split_and!.
Qed.

(** A hold is in force until it expires; one without expiry always is. *)
Definition held (a : Artifact) (now : DateTime) : Prop :=
  quarantine_status a = Some Quarantined /\ forall u, quarantine_until a = Some u -> now < u.

Lemma check_cases a now :
  match check_download_allowed (quarantine_status a) (quarantine_until a) now with
  | Ok _ => ~ held a now /\ quarantine_status a <> Some Rejected
  | Err e => (held a now /\ e = Conflict "Artifact is quarantined and pending security review") \/
             (quarantine_status a = Some Rejected /\ e = Authorization "Artifact was rejected during security review")
  end.
Proof.
  unfold held. destruct (quarantine_status a) as [[]|]; cbn; try (split; [intros [? _]|]; done); [|by right].
  destruct (quarantine_until a) as [u|]; [destruct (Z.leb_spec u now)|]; cbn.
  - split; [|done]. intros [_ Hu]. specialize (Hu u eq_refl). lia.
  - left. split_and!; [done| |done]. by intros ? [= <-].
  - left. by split_and!.
Qed.

Lemma load_error_is_database db i e : load_conda_facts db i = Err e -> exists m, e = Database m.
Proof.
  unfold load_conda_facts. destruct (artifacts db !! i); [|done]. destruct (List.find _ _); [|done].
  assert (Hcol : forall l e, collect array_elements l = Err e -> exists m, e = Database m).
  { induction l as [|x l IH]; intros e'; [done|]. cbn. destruct (array_elements x) as [k|e''] eqn:Ex; cbn.
    - destruct (collect array_elements l) as [?|e3]; cbn; [done|]. intros [= <-]. by apply IH.
    - intros [= <-]. unfold array_elements in Ex. repeat case_match; simplify_eq; eauto. }
  destruct (collect _ _) as [?|e'] eqn:Ec; cbn [rbind]; [done|]. intros [= <-]. by apply (Hcol _ _ Ec).
Qed.

(** The download gate, exactly.  What it serves is absent, or is under no
    hold in force, not rejected, and admitted by every scan policy in scope.
    A hold in force is answered with 409 before any policy is read, a rejection
    and a refusal by the policies with 403, and the texts are constants: neither
    the recorded reason nor the violations show in the answer. *)
Theorem download_gate_exact db i now :
  match enforce_download_gate db i now with
  | Ok _ => forall a, live_artifact db i = Some a ->
      ~ held a now /\ quarantine_status a <> Some Rejected /\
      forall p, p ∈ scan_policies db -> applies (repository_id a) p -> admits db i p
  | Err (Conflict m) => exists a, live_artifact db i = Some a /\ held a now /\
      m = "Artifact is quarantined and pending security review"
  | Err (Authorization m) => exists a, live_artifact db i = Some a /\ ~ held a now /\
      (quarantine_status a = Some Rejected /\ m = "Artifact was rejected during security review" \/
       ~ (forall p, p ∈ scan_policies db -> applies (repository_id a) p -> admits db i p) /\
         m = "Artifact download is blocked by the repository's scan policy")
  | Err _ => exists s j, s ∈ install_scripts db /\ script_artifact s = i /\ findings s = Some j /\ forall l, j <> JArray l
  end.
Proof.
  unfold enforce_download_gate. destruct (live_artifact db i) as [a|]; [|by intros].
  pose proof (check_cases a now) as Hc. destruct (check_download_allowed _ _ now) as [[]|e]; cbn [rbind].
  - destruct Hc as [Hh Hr]. unfold enforce_scan_policy_gate. pose proof (verdict db i (repository_id a)) as Hv.
    destruct (evaluate_artifact db i (repository_id a)) as [r|e] eqn:Ee; cbn [rbind].
    + destruct Hv as [Hv _]. destruct (allowed r); cbn; [|].
      * intros ? [= <-]. split_and!; [done..|]. by apply Hv.
      * exists a. split_and!; [done..|]. right. split; [|done]. intros Hall. by apply Hv in Hall.
    + pose proof (load_error_is_database db i e Hv) as [m ->]. by apply (conda_load_error db i _ Hv).
  - destruct Hc as [[Hh ->]|[Hr ->]]; [by exists a|]. exists a. split_and!; [done| |by left].
    intros [Hq _]. congruence.
Qed.

(** ** Several scanners *)

(** The scanners report one after the other, each against the row as it is. *)
Definition report (findings_count : Z) (i : Uuid) (db : Db) : Db := update_quarantine_status db i findings_count db.

Lemma report_row n i db a : scan_policies db = [] -> artifacts db !! i = Some a ->
  let d := post_scan_status_decision (quarantine_status a) n (Some {| allowed := true; violations := [] |})
             (negb (is_none (quarantine_until a))) in
  scan_policies (report n i db) = [] /\
  exists a', artifacts (report n i db) !! i = Some a' /\ is_deleted a' = is_deleted a /\
    (quarantine_status a <> Some Rejected -> (quarantine_status a = Some Quarantined -> clear_until d = true) ->
     quarantine_status a' = Some (decision_status d)) /\
    (quarantine_status a = Some Rejected -> quarantine_status a' = Some Rejected).
Proof.
  intros Hp Hi d.
  assert (Hpol : policy_of db i = Some {| allowed := true; violations := [] |}).
  { unfold policy_of. rewrite Hi. cbn. unfold evaluate_artifact, load_applicable_policies. by rewrite Hp. }
  assert (Hr : report n i db = write_decision i d db).
  { unfold report, update_quarantine_status. rewrite Hpol, Hi. done. }
  rewrite Hr. unfold write_decision. split.
  { destruct (clear_until d); by rewrite update_artifact_policies. }
  destruct (clear_until d) eqn:Ec; rewrite update_artifact_row, Hi; cbn; rewrite bool_decide_true by done; cbn.
  - eexists. split; [done|]. unfold d, post_scan_status_decision in Ec. unfold status_in.
    destruct (quarantine_status a) as [[]|] eqn:Es; cbn in Ec |- *; try done.
    destruct (quarantine_until a); cbn in Ec |- *; [|done]. by split_and!.
  - eexists. split; [done|]. unfold not_in, status_in.
    destruct (quarantine_status a) as [[]|] eqn:Es; cbn; split_and!; try done; naive_solver.
Qed.

(** The outcome of a held artifact depends on the order in which its
    scanners report.  Where no policy is set, a clean report followed by one with
    findings releases it, and the findings only flag it: it is downloadable at
    once.  The same two reports the other way round reject it for good. *)
Theorem scan_order_decides db i a u n m : scan_policies db = [] -> artifacts db !! i = Some a -> is_deleted a = false ->
  quarantine_status a = Some Quarantined -> quarantine_until a = Some u -> n <= 0 -> 0 < m ->
  (exists b, live_artifact (report m i (report n i db)) i = Some b /\ quarantine_status b = Some Flagged) /\
  (forall now, enforce_download_gate (report m i (report n i db)) i now = Ok tt) /\
  (forall now, enforce_download_gate (report n i (report m i db)) i now =
     Err (Authorization "Artifact was rejected during security review")).
Proof.
  intros Hp Hi Hd Hs Hu Hn Hm.
  destruct (report_row n i db a Hp Hi) as (Hp1 & b & Hb & Hbd & Hbs & _).
  destruct (report_row m i db a Hp Hi) as (Hp2 & c & Hc & Hcd & Hcs & _).
  assert (Hn' : (0 <? n) = false) by (apply Z.ltb_ge; lia). assert (Hm' : (0 <? m) = true) by (apply Z.ltb_lt; lia).
  unfold post_scan_status_decision in Hbs, Hcs. rewrite Hs, Hu, Hn' in Hbs. rewrite Hs, Hu, Hm' in Hcs. cbn in Hbs, Hcs.
  specialize (Hbs ltac:(done) ltac:(done)). specialize (Hcs ltac:(done) ltac:(done)).
  destruct (report_row m i _ b Hp1 Hb) as (Hp3 & b' & Hb' & Hbd' & Hbs' & _).
  destruct (report_row n i _ c Hp2 Hc) as (Hp4 & c' & Hc' & Hcd' & _ & Hcs').
  unfold post_scan_status_decision in Hbs'. rewrite Hbs, Hm' in Hbs'. cbn in Hbs'.
  specialize (Hbs' ltac:(done) ltac:(done)). specialize (Hcs' Hcs). split_and!.
  - exists b'. split; [|done]. unfold live_artifact. rewrite Hb'. cbn. by rewrite Hbd', Hbd, Hd.
  - intros now. rewrite (gate_of_row _ _ _ _ Hb'), Hbd', Hbd, Hd, Hbs'. cbn [check_download_allowed rbind].
    unfold enforce_scan_policy_gate, evaluate_artifact, load_applicable_policies. by rewrite Hp3.
  - intros now. by rewrite (gate_of_row _ _ _ _ Hc'), Hcd', Hcd, Hd, Hcs'.
Qed.

End Events.


(** * The hold of an upload *)

Section Holds.
Context `{UrlCrates} `{Chrono}.

Definition minutes (m : Z) : Z := m * 60 * NANOS_PER_SEC.

Lemma until_value config now u : quarantine_until_ config now = Some u -> u = now + minutes (duration_minutes config).
Proof.
  unfold quarantine_until_, duration_of_minutes. case_bool_decide; [|done]. cbn.
  destruct (try_seconds _) as [d|] eqn:Ed; [|done]. cbn. rewrite checked_add_spec. destruct (_ && _); [|done].
  intros [= <-]. apply try_seconds_value in Ed as ->. done.
Qed.

Lemma until_too_far config now : MAX_UTC < now + minutes (duration_minutes config) -> quarantine_until_ config now = None.
Proof.
  intros Hfar. destruct (quarantine_until_ config now) as [u|] eqn:Eu; [|done]. exfalso. pose proof (until_value _ _ _ Eu) as ->.
  unfold quarantine_until_ in Eu. destruct (duration_of_minutes _) as [d|]; [|done]. cbn in Eu. rewrite checked_add_spec in Eu.
  destruct (_ && _) eqn:Eb; [|done]. injection Eu as Eu. apply andb_true_iff in Eb as [_ Eb%Z.leb_le]. lia.
Qed.

Lemma until_in_range config now : 1 <= duration_minutes config -> duration_minutes config * 60 <= 9223372036854775 ->
  MIN_UTC <= now -> now + minutes (duration_minutes config) <= MAX_UTC ->
  quarantine_until_ config now = Some (now + minutes (duration_minutes config)).
Proof.
  intros H1 Hs Hmin Hmax. unfold quarantine_until_, duration_of_minutes.
  rewrite bool_decide_true by (rewrite as_i64_id; lia). rewrite try_seconds_spec by lia. cbn. rewrite checked_add_spec.
  fold (minutes (duration_minutes config)). assert (0 <= minutes (duration_minutes config)) by (unfold minutes, NANOS_PER_SEC; lia).
  by rewrite (proj2 (Z.leb_le _ _)), (proj2 (Z.leb_le _ _)) by lia.
Qed.

(** The row an upload commits. *)
Lemma upsert_row new_id o v u db i db' : upsert_artifact new_id o v u db = Ok (i, db') ->
  exists a, artifacts db' !! i = Some a /\ is_deleted a = false /\ checksum_sha256 a = up_checksum u /\
    match find_at_path u db with
    | Some (j, old) => j = i /\ columns a = columns old
    | None => i = new_id /\ columns a = (None, None, None)
    end.
Proof.
  unfold upsert_artifact. destruct (find_at_path u db) as [[j old]|].
  - destruct (_ || _); [|done]. intros [= <- <-]. cbn. rewrite lookup_insert_eq. eexists. by split_and!.
  - destruct (artifacts db !! new_id); [done|]. intros [= <- <-]. cbn. rewrite lookup_insert_eq. eexists. by split_and!.
Qed.

Definition settled (s : option QStatus) : Prop := s = Some Quarantined \/ s = Some Rejected.

Lemma holdable_status a : null_or_in [Clean; Flagged; Unscanned; Released] a = true <-> ~ settled (quarantine_status a).
Proof.
  rewrite null_or_in_true. unfold settled. split.
  - intros Hs [E|E]; specialize (Hs _ E); rewrite !elem_of_cons, elem_of_nil in Hs; naive_solver.
  - intros Hs s E. rewrite E in Hs. rewrite !elem_of_cons. destruct s; naive_solver.
Qed.

Lemma hold_row config i now db db' a : config_enabled config = true -> apply_upload_hold config i now db = Some db' ->
  artifacts db !! i = Some a -> is_deleted a = false ->
  exists a', artifacts db' !! i = Some a' /\ is_deleted a' = false /\ checksum_sha256 a' = checksum_sha256 a /\
    (settled (quarantine_status a) -> columns a' = columns a) /\
    (~ settled (quarantine_status a) -> forall t, held a' t <-> t < now + minutes (duration_minutes config)).
Proof.
  intros He Hh Hi Hd. unfold apply_upload_hold, should_quarantine in Hh. rewrite He in Hh.
  destruct (quarantine_until_ config now) as [u|] eqn:Eu; [|done]. cbn in Hh. injection Hh as <-. apply until_value in Eu as ->.
  unfold set_quarantine. rewrite update_artifact_row, Hi. cbn. rewrite bool_decide_true, Hd by done. cbn.
  destruct (null_or_in _ a) eqn:En; eexists; (split; [done|]).
  - apply holdable_status in En. split_and!; [done..|]. intros _ t. unfold held. cbn.
    split; [intros [_ Hu]; by apply Hu|]. intros Ht. split; [done|]. by intros ? [= <-].
  - split_and!; [done..|]. intros Hs. exfalso. apply not_true_iff_false in En. by apply En, holdable_status.
Qed.

(** What an upload under an enabled policy is held for.  New content is
    held from the upload until exactly the configured number of minutes later
    -- unless it lands on a row that is already quarantined or rejected: the
    columns of the row then stay what they were, and when its hold has expired
    the new bytes are under no hold at all, from the first instant on. *)
Theorem upload_hold_extent config new_id o v u now db i db' :
  config_enabled config = true -> upload_and_hold config new_id o v u now db = (Some (Ok i), db') ->
  exists a, live_artifact db' i = Some a /\ checksum_sha256 a = up_checksum u /\
    ((forall j old, find_at_path u db = Some (j, old) -> ~ settled (quarantine_status old)) ->
     forall t, held a t <-> t < now + minutes (duration_minutes config)) /\
    (forall j old, find_at_path u db = Some (j, old) -> settled (quarantine_status old) ->
     columns a = columns old /\ (~ held old now -> forall t, now <= t -> ~ held a t)).
Proof.
  intros He. unfold upload_and_hold. destruct (upsert_artifact _ _ _ _ _) as [[k db1]|] eqn:Eu; [|done].
  destruct (apply_upload_hold config k now db1) as [db2|] eqn:Eh; [|done]. intros [= <- <-].
  destruct (upsert_row _ _ _ _ _ _ _ Eu) as (b & Hb & Hd & Hc & Hcol).
  destruct (hold_row _ _ _ _ _ _ He Eh Hb Hd) as (a & Ha & Had & Hac & Hset & Hun).
  exists a. unfold live_artifact. rewrite Ha. cbn. rewrite Had. split_and!; [done|congruence| |].
  - intros Hold. apply Hun. destruct (find_at_path u db) as [[j old]|].
    + destruct Hcol as [_ [= -> _ _]]. by eapply Hold.
    + destruct Hcol as [_ [= -> _ _]]. by intros [?|?].
  - intros j old Ef Hs. rewrite Ef in Hcol. destruct Hcol as [_ Hcol].
    assert (Hac' : columns a = columns old).
    { rewrite Hset; [done|]. by injection Hcol as -> _ _. }
    split; [done|]. injection Hac' as Es Eu' _. unfold held. rewrite Es, Eu'. intros Hn t Ht [Hq Hu]. apply Hn. split; [done|].
    intros x Ex. specialize (Hu x Ex). lia.
Qed.

End Holds.

#[local] Instance plain_urls : UrlCrates :=
  {| url_to_string := Some; url_clear_userinfo _ := None; sha256_hex s := s; url_uuid := {| uuid_display _ := "id" |} |}.
#[local] Existing Instance reference_chrono.

Definition artifact_row (version_ checksum : string) (deleted : bool) (s : option QStatus) (u : option DateTime) : Artifact :=
  {| repository_id := 5%N; path := "model.bin"; name := "model"; version := Some version_; checksum_sha256 := checksum;
     origin := None; is_deleted := deleted; quarantine_status := s; quarantine_until := u; quarantine_reason := None |}.

Definition db_of (a : gmap Uuid Artifact) : Db :=
  {| artifacts := a; repositories := []; repository_config := []; artifact_metadata := []; install_scripts := [];
     curation_packages := []; scan_results := []; scan_findings := []; scan_policies := [] |}.

Definition row_db (a : Artifact) : Db := db_of {[1%N := a]}.

Definition sample_upload (version_ checksum : string) : Uploaded :=
  {| up_repository := 5%N; up_path := "model.bin"; up_name := "model"; up_version := Some version_; up_checksum := checksum |}.

(** An administrator holds a malicious cookbook and deletes it; its author
    publishes the same bytes at the same path, and it is served. *)
Example republished_hold :
  let u := sample_upload "1" "x" in
  let db := row_db (artifact_row "1" "x" false (Some Quarantined) None) in
  let db' := run [Delete 1%N; Cleanup 5%N "model.bin"; Publish 2%N None u] db in
  enforce_download_gate db 1%N 100 = Err (Conflict "Artifact is quarantined and pending security review") /\
  enforce_download_gate db' 2%N 100 = Ok tt /\ artifacts db' !! 1%N = None.
Proof. vm_compute. done. Qed.

(** A rejected artifact, deleted, uploaded again with other bytes and scanned clean. *)
Lemma rejected_is_final_witness :
  exists a', artifacts (run [Delete 1%N; Upload 2%N None false (sample_upload "2" "new"); ScanDone (db_of ∅) 1%N 0]
    (row_db (artifact_row "1" "old" false (Some Rejected) None))) !! 1%N = Some a' /\
    checksum_sha256 a' = "new" /\ quarantine_status a' = Some Rejected.
Proof.
  destruct (rejected_is_final [Delete 1%N; Upload 2%N None false (sample_upload "2" "new"); ScanDone (db_of ∅) 1%N 0]
    (row_db (artifact_row "1" "old" false (Some Rejected) None)) 1%N
    (artifact_row "1" "old" false (Some Rejected) None) ltac:(vm_compute; reflexivity) eq_refl) as [(a' & Ha & Hs & _)|[Hn _]];
    [repeat (apply List.Forall_cons; [cbn; intros Hdr; first [discriminate Hdr | destruct Hdr]|]); apply List.Forall_nil| |vm_compute in Hn; discriminate Hn].
  exists a'. split_and!; [done| |done]. vm_compute in Ha. injection Ha as <-. done.
Defined.

(** An administrator quarantines, a scan that had read the earlier timed hold completes clean. *)
Lemma gate_opens_only_by_release_witness :
  let held := row_db (artifact_row "1" "x" false (Some Quarantined) None) in
  let scan := ScanDone (row_db (artifact_row "1" "x" false (Some Quarantined) (Some 9))) 1%N 0 in
  (exists a', artifacts (run [scan] held) !! 1%N = Some a' /\
     enforce_download_gate (run [scan] held) 1%N 100 = Err (Conflict "Artifact is quarantined and pending security review")) /\
  exists a', live_artifact (run [Cleanup 5%N "model.bin"; Publish 2%N None (sample_upload "1" "x")] (run [Delete 1%N] held)) 2%N = Some a' /\
    checksum_sha256 a' = "x" /\ forall now, check_download_allowed (quarantine_status a') (quarantine_until a') now = Ok tt.
Proof.
  cbn zeta. destruct gate_opens_only_by_release as (H1 & _ & H3). split.
  - destruct (H1 [ScanDone (row_db (artifact_row "1" "x" false (Some Quarantined) (Some 9))) 1%N 0]
      (row_db (artifact_row "1" "x" false (Some Quarantined) None)) 1%N
      (artifact_row "1" "x" false (Some Quarantined) None) ltac:(vm_compute; reflexivity) eq_refl eq_refl) as [(a' & Ha & Hg)|[Hn _]].
    { constructor; [|constructor]. split; [by intros (? & ? & ?)|by intros []]. }
    + exists a'. split; [done|]. rewrite Hg. vm_compute in Ha. injection Ha as <-. done.
    + vm_compute in Hn. discriminate Hn.
  - apply (H3 (run [Delete 1%N] (row_db (artifact_row "1" "x" false (Some Quarantined) None))) 1%N
      (artifact_row "1" "x" true (Some Quarantined) None) 2%N None (sample_upload "1" "x")); [vm_compute; reflexivity|done|done| |vm_compute; reflexivity].
    intros j b Hj _. destruct (decide (j = 1%N)) as [|Hne]; [done|]. exfalso.
    assert (artifacts (run [Delete 1%N] (row_db (artifact_row "1" "x" false (Some Quarantined) None))) !! j = None) as Hn; [|congruence].
    assert (artifacts (run [Delete 1%N] (row_db (artifact_row "1" "x" false (Some Quarantined) None))) =
      {[1%N := artifact_row "1" "x" true (Some Quarantined) None]}) as -> by (vm_compute; reflexivity). by apply lookup_singleton_ne.
Defined.

Lemma scan_order_decides_witness :
  enforce_download_gate (report 3 1%N (report 0 1%N (row_db (artifact_row "1" "x" false (Some Quarantined) (Some 9))))) 1%N 5 = Ok tt.
Proof.
  refine (proj1 (proj2 (scan_order_decides (row_db (artifact_row "1" "x" false (Some Quarantined) (Some 9))) 1%N
    (artifact_row "1" "x" false (Some Quarantined) (Some 9)) 9 0 3 _ _ _ _ _ _ _)) 5).
  - vm_compute. reflexivity.
  - vm_compute. reflexivity.
  - reflexivity.
  - reflexivity.
  - reflexivity.
  - lia.
  - lia.
Defined.

(** The hold of the first upload has expired; a new revision is served at once. *)
Lemma upload_hold_extent_witness :
  let config := {| config_enabled := true; duration_minutes := 60 |} in
  exists db' a, upload_and_hold config 2%N None true (sample_upload "2" "new") (5 * 10 ^ 18)
      (row_db (artifact_row "1" "old" false (Some Quarantined) (Some (4 * 10 ^ 18)))) = (Some (Ok 1%N), db') /\
    live_artifact db' 1%N = Some a /\ checksum_sha256 a = "new" /\ ~ held a (5 * 10 ^ 18).
Proof.
  intros config.
  assert (Hu : exists db', upload_and_hold config 2%N None true (sample_upload "2" "new") (5 * 10 ^ 18)
      (row_db (artifact_row "1" "old" false (Some Quarantined) (Some (4 * 10 ^ 18)))) = (Some (Ok 1%N), db')).
  { eexists. vm_compute. reflexivity. }
  destruct Hu as [db' Hu]. exists db'.
  destruct (upload_hold_extent config 2%N None true (sample_upload "2" "new") (5 * 10 ^ 18) _ 1%N db' eq_refl Hu)
    as (a & Ha & Hc & _ & Hold).
  exists a. split_and!; [done..|]. destruct (Hold 1%N (artifact_row "1" "old" false (Some Quarantined) (Some (4 * 10 ^ 18))))
    as [_ Hn]; [vm_compute; reflexivity|by left|]. apply Hn; [|lia]. intros [_ Hq]. specialize (Hq _ eq_refl). lia.
Defined.

(** * Settings *)

Lemma is_row_true r k x : is_row r k x = true <-> config_repository x = r /\ config_key x = k.
Proof. unfold is_row. by rewrite andb_true_iff, bool_decide_eq_true, String.eqb_eq. Qed.

Lemma find_replaced {A} (p q : A -> bool) (row : A) l : (forall x, q x = true -> p x = p row) ->
  List.find p ((fun x => if q x then row else x) <$> l) =
  if p row && existsb q l then
    match List.find p l with Some x => Some (if q x then row else x) | None => None end
  else List.find p l.
Proof.
  intros Hq. induction l as [|x l IH]; cbn; [by rewrite andb_false_r|]. destruct (q x) eqn:Eq.
  - rewrite (Hq x Eq), andb_true_r. cbn. destruct (p row) eqn:Ep; [by rewrite Eq|done].
  - cbn. destruct (p x) eqn:Ex; [|done]. destruct (p row && existsb q l); [by rewrite Eq|done].
Qed.

Lemma lfind_app {A} (p : A -> bool) l k :
  List.find p (l ++ k) = match List.find p l with Some x => Some x | None => List.find p k end.
Proof. induction l as [|x l IH]; cbn; [done|]. by destruct (p x). Qed.

Lemma config_row_upsert r k v db r' k' :
  config_row (upsert_repo_config r k v db) r' k' =
  if bool_decide (r = r' /\ k = k') then Some {| config_repository := r; config_key := k; config_value := Some v |}
  else config_row db r' k'.
Proof.
  unfold config_row, upsert_repo_config. fold (is_row r' k'). cbn [set_config repository_config].
  set (row := {| config_repository := r; config_key := k; config_value := Some v |}).
  assert (Hrow : is_row r' k' row = bool_decide (r = r' /\ k = k')).
  { apply eq_true_iff_eq. by rewrite is_row_true, bool_decide_eq_true. }
  destruct (existsb (is_row r k) (repository_config db)) eqn:Ex.
  - rewrite find_replaced.
    2:{ intros x [<- <-]%is_row_true. apply eq_true_iff_eq. by rewrite !is_row_true. }
    rewrite Hrow, Ex, andb_true_r. case_bool_decide as Hd; [|done]. destruct Hd as [<- <-].
    destruct (List.find _ _) as [x|] eqn:Ef.
    + apply List.find_some in Ef as [_ Ef]. by rewrite Ef.
    + apply existsb_exists in Ex as (x & Hx & Hp). by rewrite (List.find_none _ _ Ef x Hx) in Hp.
  - case_bool_decide as Hd.
    + destruct Hd as [<- <-]. assert (Hn : List.find (is_row r k) (repository_config db) = None).
      { destruct (List.find _ _) as [x|] eqn:Ef; [|done]. apply List.find_some in Ef as [Hx Hp].
        rewrite existsb_false in Ex. rewrite (Ex x) in Hp; [done|by apply list_elem_of_In]. }
      rewrite lfind_app, Hn. cbn. by rewrite Hrow.
    + rewrite lfind_app. destruct (List.find _ _); [done|]. cbn. by rewrite Hrow.
Qed.

(** ** The cache of the settings *)

(** What the cache holds is what the table holds. *)
Definition coherent (db : Db) (cache : Cache) : Prop :=
  forall r inserted s, cache !! r = Some (inserted, s) -> s = repo_settings db r.

Inductive SettingsRequest :=
| Resolve (read_at stored_at : Z) (repository : Uuid)
| Change (t : RepositoryType) (repository : Uuid) (enabled virtual_partial : option bool) (duration : option Z).

(** Every change of a run is answered with a success. *)
Fixpoint accepted (e : Environment) (rs : list SettingsRequest) (db : Db) (cache : Cache) : Prop :=
  match rs with
  | [] => True
  | Resolve t0 t1 r :: rs => accepted e rs db (snd (resolve_config e db t0 t1 r cache))
  | Change t r b v d :: rs =>
      let '(answer, db, cache) := update_quarantine_settings t r b v d db cache in
      answer = Ok tt /\ accepted e rs db cache
  end.

(** Every resolution of a run answers what the table says at the time. *)
Fixpoint up_to_date (e : Environment) (rs : list SettingsRequest) (db : Db) (cache : Cache) : Prop :=
  match rs with
  | [] => True
  | Resolve t0 t1 r :: rs =>
      fst (resolve_config e db t0 t1 r cache) = merge_settings e (repo_settings db r) /\
      up_to_date e rs db (snd (resolve_config e db t0 t1 r cache))
  | Change t r b v d :: rs =>
      let '(_, db, cache) := update_quarantine_settings t r b v d db cache in up_to_date e rs db cache
  end.

Lemma resolve_coherent e db t0 t1 r cache : coherent db cache ->
  fst (resolve_config e db t0 t1 r cache) = merge_settings e (repo_settings db r) /\
  coherent db (snd (resolve_config e db t0 t1 r cache)).
Proof.
  intros Hc. unfold resolve_config. destruct (cached_repo_settings t0 r cache) as [s|] eqn:Es; cbn.
  - split; [|done]. unfold cached_repo_settings in Es. destruct (cache !! r) as [[ins s']|] eqn:El; [|done]. cbn in Es.
    case_bool_decide; [|done]. injection Es as <-. by rewrite (Hc _ _ _ El).
  - split; [done|]. intros r' ins s. unfold store_repo_settings. destruct (decide (r = r')) as [->|Hne].
    + rewrite lookup_insert_eq. by intros [= _ <-].
    + rewrite lookup_insert_ne by done. intros [Hl _]%map_lookup_filter_Some. by eapply Hc.
Qed.

Lemma repo_settings_rows db db' r :
  config_row db' r "quarantine_enabled" = config_row db r "quarantine_enabled" ->
  config_row db' r "quarantine_duration_minutes" = config_row db r "quarantine_duration_minutes" ->
  repo_settings db' r = repo_settings db r.
Proof. intros E1 E2. unfold repo_settings. by rewrite E1, E2. Qed.

Lemma settings_other r k v db r' : (r <> r' \/ k <> "quarantine_enabled" /\ k <> "quarantine_duration_minutes") ->
  repo_settings (upsert_repo_config r k v db) r' = repo_settings db r'.
Proof. intros Hne. apply repo_settings_rows; rewrite config_row_upsert, bool_decide_false; naive_solver. Qed.

Lemma change_coherent t r b v d db cache db' cache' : coherent db cache ->
  update_quarantine_settings t r b v d db cache = (Ok tt, db', cache') -> coherent db' cache'.
Proof.
  intros Hc. unfold update_quarantine_settings. destruct (match b with Some true => _ | _ => _ end); [|done].
  set (db1 := match b with Some _ => _ | None => db end). destruct (match v, t with None, _ => _ | _, _ => _ end); [done|].
  set (db2 := match v with Some _ => _ | None => db1 end). destruct (match d with Some _ => _ | None => false end); [done|].
  set (db3 := match d with Some _ => _ | None => db2 end). intros [= <- <-].
  assert (Hother : forall r', r' <> r -> repo_settings db3 r' = repo_settings db r').
  { intros r' Hne. unfold db3, db2, db1. destruct d, v, b; rewrite ?settings_other by auto; done. }
  assert (Hnone : b = None -> d = None -> repo_settings db3 r = repo_settings db r).
  { intros -> ->. unfold db3, db2, db1. destruct v; rewrite ?settings_other by (right; done); done. }
  unfold invalidate_config_cache. intros r' ins s Hl. destruct (decide (r' = r)) as [->|Hne].
  - destruct b, d; try (by rewrite lookup_delete_eq in Hl). rewrite Hnone by done. by eapply Hc.
  - rewrite Hother by done. apply (Hc r' ins). destruct b, d; by rewrite ?lookup_delete_ne in Hl by done.
Qed.

(** A request for an enabled hold of -1 minutes. *)
Definition half_applied : result AppError unit * Db * Cache :=
  update_quarantine_settings Staging 5%N (Some true) None (Some (-1)) (db_of ∅) {[5%N := (0, (None, None))]}.

(** A change of the settings takes effect at once: starting from a cache
    that agrees with the table, as long as the changes succeed, every resolution
    returns what the table holds merged with the environment, whatever is cached
    and however old.  A change that fails half-way does not have this property:
    it can store the first setting, answer with an error and leave the cache
    alone, and uploads go on under the old setting for up to the lifetime of the
    entry. *)
Theorem settings_take_effect e :
  (forall rs db cache, coherent db cache -> accepted e rs db cache -> up_to_date e rs db cache) /\
  coherent (db_of ∅) {[5%N := (0, (None, None))]} /\
  (exists m, fst (fst half_applied) = Err (Validation m)) /\
  fst (repo_settings (snd (fst half_applied)) 5%N) = Some true /\
  forall t0 t1, t0 < QUARANTINE_CONFIG_TTL ->
    fst (resolve_config e (snd (fst half_applied)) t0 t1 5%N (snd half_applied)) = merge_settings e (None, None).
Proof.
  split_and!.
  - induction rs as [|[t0 t1 r|t r b v d] rs IH]; intros db cache Hc; cbn; [done| |].
    + intros Ha. destruct (resolve_coherent e db t0 t1 r cache Hc) as [Hf Hs]. auto.
    + destruct (update_quarantine_settings t r b v d db cache) as [[answer db'] cache'] eqn:Eu.
      intros [-> Ha]. apply IH; [|done]. by apply (change_coherent _ _ _ _ _ _ _ _ _ Hc Eu).
  - intros r ins s [<- [= <- <-]]%lookup_singleton_Some. done.
  - by eexists.
  - done.
  - intros t0 t1 Ht. assert (E : snd half_applied = {[5%N := (0, (None, None))]}) by done. rewrite E.
    unfold resolve_config, cached_repo_settings. rewrite lookup_singleton_eq. cbn.
    rewrite bool_decide_true; [done|]. unfold is_fresh. lia.
Qed.

(** ** Durations the calendar cannot hold *)

Section Durations.
Context `{UrlCrates} `{Chrono}.

Lemma settings_after t r d db cache db' cache' : 0 <= d <= I64_MAX ->
  update_quarantine_settings t r (Some true) None (Some d) db cache = (Ok tt, db', cache') ->
  repo_settings db' r = (Some true, Some d) /\ cache' !! r = None.
Proof.
  intros Hd. unfold update_quarantine_settings. destruct (is_quarantine_enableable t); [|done].
  destruct (Z.ltb_spec d 0); [lia|]. intros [= <- <-]. split_and!.
  - unfold repo_settings. rewrite !config_row_upsert, bool_decide_false, !bool_decide_true by naive_solver.
    cbn. by rewrite parse_i64_pretty.
  - apply lookup_delete_eq.
Qed.

(** The settings request only asks for a duration that is not negative.
    For a repository that can be held, when the duration reaches past the last
    instant of the calendar the request succeeds, and from then on the hold of
    every upload of a new artifact panics after its row is committed: the
    client sees a failure, and the content is downloadable without any hold.
    Within the calendar the hold never panics. *)
Theorem unrepresentable_duration_unheld e t r d db cache now t0 t1 :
  supports_quarantine t = true -> 0 <= d <= I64_MAX -> MIN_UTC <= now <= MAX_UTC ->
  exists db1 cache1, update_quarantine_settings t r (Some true) None (Some d) db cache = (Ok tt, db1, cache1) /\
  let config := fst (resolve_config e db1 t0 t1 r cache1) in
  (MAX_UTC < now + minutes d -> forall new_id o v u, find_at_path u db1 = None -> artifacts db1 !! new_id = None ->
     exists db2 a, upload_and_hold config new_id o v u now db1 = (None, db2) /\
       live_artifact db2 new_id = Some a /\ checksum_sha256 a = up_checksum u /\
       forall t, is_ok (check_download_allowed (quarantine_status a) (quarantine_until a) t) = true) /\
  (1 <= d -> d * 60 <= 9223372036854775 -> now + minutes d <= MAX_UTC -> forall i db,
     exists db2, apply_upload_hold config i now db = Some db2).
Proof.
  intros Ht Hd Hnow.
  destruct (update_quarantine_settings t r (Some true) None (Some d) db cache) as [[answer db1] cache1] eqn:Eu.
  assert (answer = Ok tt) as ->.
  { unfold update_quarantine_settings, is_quarantine_enableable in Eu. rewrite Ht in Eu.
    destruct (Z.ltb_spec d 0); [lia|]. by injection Eu. }
  exists db1, cache1. split; [done|]. destruct (settings_after _ _ _ _ _ _ _ Hd Eu) as (Hs & Hl).
  assert (Hcfg : fst (resolve_config e db1 t0 t1 r cache1) = {| config_enabled := true; duration_minutes := validate_duration d |}).
  { unfold resolve_config, cached_repo_settings. rewrite Hl. cbn. by rewrite Hs. }
  rewrite Hcfg. cbv zeta. split.
  - intros Hfar new_id o v u Hf Hn. unfold upload_and_hold, upsert_artifact. rewrite Hf, Hn.
    unfold apply_upload_hold. cbn [should_quarantine config_enabled]. rewrite until_too_far; cbn.
    2:{ unfold validate_duration, minutes, NANOS_PER_SEC in *. lia. }
    do 2 eexists. split; [done|]. unfold live_artifact. cbn. rewrite lookup_insert_eq. cbn. by split_and!.
  - intros H1 Hsec Hin i db2. unfold apply_upload_hold. cbn [should_quarantine config_enabled].
    assert (validate_duration d = d) as -> by (unfold validate_duration; lia).
    rewrite until_in_range by (done || lia). cbn. by eexists.
Qed.

End Durations.

(** 200 million years of minutes, on the reference calendar. *)
Lemma unrepresentable_duration_unheld_witness :
  exists db1 cache1,
    update_quarantine_settings Local 5%N (Some true) None (Some 100000000000000) (db_of ∅) ∅ = (Ok tt, db1, cache1) /\
    exists db2 a, upload_and_hold
        (fst (resolve_config {| QUARANTINE_ENABLED := None; QUARANTINE_DURATION_MINUTES := None |} db1 0 0 5%N cache1))
        7%N None false (sample_upload "1" "c") 0 db1 = (None, db2) /\
      live_artifact db2 7%N = Some a /\
      forall t, is_ok (check_download_allowed (quarantine_status a) (quarantine_until a) t) = true.
Proof.
  destruct (unrepresentable_duration_unheld {| QUARANTINE_ENABLED := None; QUARANTINE_DURATION_MINUTES := None |} Local 5%N
    100000000000000 (db_of ∅) ∅ 0 0 0) as (db1 & cache1 & Eu & Hfar & _); [done|vm_compute; done|vm_compute; done|].
  exists db1, cache1. split; [done|].
  assert (Hdb : artifacts db1 = ∅) by (vm_compute in Eu; by injection Eu as <- _).
  destruct (Hfar ltac:(vm_compute; done) 7%N None false (sample_upload "1" "c")) as (db2 & a & ? & ? & _ & ?).
  - unfold find_at_path. by rewrite Hdb, map_to_list_empty.
  - by rewrite Hdb.
  - by exists db2, a.
Defined.
