(* ===== verification/AccessDb.v ===== *)
(** The tables authorization is decided from ([migrations/]): users and groups,
    repositories and their labels, role assignments, fine-grained permission
    rules, API tokens and download tickets.

    The tables are lists in the order of insertion; the columns no modelled
    statement reads are left out.  Ids are unique within a table: an insert is
    given the id the database generates. *)

From stdpp Require Import base list strings.
From S2P Require Import Prelude RustStr Repository.

Local Open Scope string_scope.

(** * Principals *)

Inductive AuthProvider := LocalProvider | LdapProvider | SamlProvider | OidcProvider | CiProvider.

#[global] Instance AuthProvider_eq_dec : EqDecision AuthProvider.
Proof. solve_decision. Defined.

Record User := {
  user_id : Uuid;
  user_username : string;
  user_email : string;
  user_is_admin : bool;
  user_is_active : bool;
  user_is_service_account : bool;
  user_auth_provider : AuthProvider
}.

(** A role with its [permissions], and its assignment to a user on one
    repository or on all of them. *)
Record Role := { role_id : Uuid; role_permissions : list string }.
Record RoleAssignment := { ra_user : Uuid; ra_role : Uuid; ra_repository : option Uuid }.

(** * Repositories *)

(** What the gate caches of a repository's row ([api/mod.rs]). *)
Record CachedRepo := {
  id : Uuid;
  format : string;
  repo_type : string;
  upstream_url : option string;
  storage_path : string;
  storage_backend : string;
  visibility : RepositoryVisibility;
  index_upstream_url : option string;
  promotion_only : bool;
  age_gate_enabled : bool;
  age_gate_min_age_days : Z;
  age_gate_mode : string;
  curation_enabled : bool;
  curation_default_action : string
}.

Record RepositoryRow := { key : string; project_id : option Uuid; columns : CachedRepo }.

Definition row_id (r : RepositoryRow) : Uuid := id (columns r).

Record LabelRow := { label_repository : Uuid; label_key : string; label_value : string }.

(** * Permission rules *)

(** The conditions of a rule: [None] for no restriction of the address. *)
Record PermissionConditions := { allowed_cidrs : option (list string) }.

Record PermissionRule := {
  rule_id : Uuid;
  principal_type : string;
  principal_id : Uuid;
  target_type : string;
  target_id : Uuid;
  actions : list string;
  conditions : PermissionConditions
}.

(** * Credentials *)

(** A row of [api_tokens] with the rows of [api_token_repositories] that pin
    it. *)
Record ApiToken := {
  token_id : Uuid;
  token_user : Uuid;
  token_name : string;
  token_hash : string;
  token_prefix : string;
  token_scopes : list string;
  token_expires_at : option DateTime;
  token_revoked : bool;
  repo_selector : option Json;
  repository_restricted : bool;
  token_repositories : list Uuid;
  created_by_user_id : option Uuid;
  token_description : option string
}.

Record TicketRow := {
  ticket : string;
  ticket_user : Uuid;
  purpose : string;
  resource_path : option string;
  expires_at : DateTime;
  scope_recorded : bool;
  ticket_repo_ids : option (list Uuid)
}.

Record AccessDb := {
  users : list User;
  groups : list Uuid;
  user_group_members : list (Uuid * Uuid);
  repositories : list RepositoryRow;
  repository_labels : list LabelRow;
  roles : list Role;
  role_assignments : list RoleAssignment;
  permissions : list PermissionRule;
  api_tokens : list ApiToken;
  download_tickets : list TicketRow;
  system_settings : list (string * Json)
}.

Definition set_permissions (f : list PermissionRule -> list PermissionRule) (db : AccessDb) : AccessDb :=
  {| users := users db; groups := groups db; user_group_members := user_group_members db;
     repositories := repositories db; repository_labels := repository_labels db; roles := roles db;
     role_assignments := role_assignments db; permissions := f (permissions db); api_tokens := api_tokens db;
     download_tickets := download_tickets db; system_settings := system_settings db |}.

Definition set_tokens (f : list ApiToken -> list ApiToken) (db : AccessDb) : AccessDb :=
  {| users := users db; groups := groups db; user_group_members := user_group_members db;
     repositories := repositories db; repository_labels := repository_labels db; roles := roles db;
     role_assignments := role_assignments db; permissions := permissions db; api_tokens := f (api_tokens db);
     download_tickets := download_tickets db; system_settings := system_settings db |}.

Definition set_tickets (f : list TicketRow -> list TicketRow) (db : AccessDb) : AccessDb :=
  {| users := users db; groups := groups db; user_group_members := user_group_members db;
     repositories := repositories db; repository_labels := repository_labels db; roles := roles db;
     role_assignments := role_assignments db; permissions := permissions db; api_tokens := api_tokens db;
     download_tickets := f (download_tickets db); system_settings := system_settings db |}.

(** The row with an id, in the tables more than one component looks up. *)
Definition find_user (db : AccessDb) (u : Uuid) : option User :=
  List.find (fun r => bool_decide (user_id r = u)) (users db).

Definition find_repository (db : AccessDb) (r : Uuid) : option RepositoryRow :=
  List.find (fun row => bool_decide (row_id row = r)) (repositories db).

Definition find_repository_by_key (db : AccessDb) (k : string) : option RepositoryRow :=
  List.find (fun row => key row =? k) (repositories db).

(** [SELECT project_id FROM repositories WHERE id = ..]. *)
Definition project_of (db : AccessDb) (r : Uuid) : option Uuid :=
  row ← find_repository db r; project_id row.

(** [SELECT group_id FROM user_group_members WHERE user_id = ..]. *)
Definition in_group (db : AccessDb) (u g : Uuid) : bool :=
  bool_decide ((u, g) ∈ user_group_members db).

Lemma find_repository_id db r row : find_repository db r = Some row -> row_id row = r /\ row ∈ repositories db.
Proof.
  unfold find_repository. intros H%List.find_some. destruct H as [Hin H%bool_decide_eq_true].
  split; [done|]. by apply list_elem_of_In.
Qed.

#[export] Instance Visibility_eq_dec : EqDecision RepositoryVisibility.
Proof. solve_decision. Defined.
