(* ===== verification/Auth.v ===== *)
(** The authenticated principal ([api/middleware/auth.rs]): the repositories a
    credential is restricted to ([models/access_scope.rs]), the scopes it
    carries ([services/token_service.rs]), the effective administrator, and
    the gates the handlers ask.

    [scopes_grant_trans] is what delegation rests on: the scopes granted by a
    list each of whose members another list grants are granted by that list. *)

From stdpp Require Import base list strings.
From Stdlib Require Import ZArith Lia Ascii.
From S2P Require Import Prelude RustStr RustNum Errors Repository AccessDb.

Local Open Scope string_scope.
Local Open Scope result_scope.

(** * Repository scopes *)

Inductive AccessScope := Admin | Restricted (ids : list Uuid).

Definition grants (s : AccessScope) (repo_id : Uuid) : bool :=
  match s with Admin => true | Restricted ids => bool_decide (repo_id ∈ ids) end.

Definition as_allowed_repo_ids (s : AccessScope) : option (list Uuid) :=
  match s with Admin => None | Restricted ids => Some ids end.

Definition default_scope : AccessScope := Restricted [].

Definition scope_of (value : option (list Uuid)) : AccessScope :=
  match value with None => Admin | Some ids => Restricted ids end.

(** * Token scopes *)

Definition ALLOWED_SCOPES : list string :=
  [ "read:artifacts"; "write:artifacts"; "delete:artifacts"; "promote:artifacts"; "read:repositories";
    "write:repositories"; "delete:repositories"; "read:users"; "write:users"; "trigger:sync"; "write:findings";
    "admin"; "*" ].

Definition ADMIN_ONLY_SCOPES : list string :=
  [ "admin"; "*"; "delete:artifacts"; "delete:repositories"; "promote:artifacts"; "trigger:sync"; "write:users";
    "write:findings" ].

(** [{:?}] of a string without escapes and of a list of them. *)
Definition QUOTE : string := String (byte_of 34) "".
Definition debug_str (s : string) : string := QUOTE +:+ s +:+ QUOTE.
Definition debug_list (l : list string) : string := "[" +:+ join ", " (debug_str <$> l) +:+ "]".

Fixpoint validate_scopes_pure (scopes : list string) : result string unit :=
  match scopes with
  | [] => Ok tt
  | scope :: scopes =>
      if negb (one_of scope ALLOWED_SCOPES)
      then Err ("Invalid scope: '" +:+ scope +:+ "'. Allowed scopes: " +:+ debug_list ALLOWED_SCOPES)
      else validate_scopes_pure scopes
  end.

Definition admin_only_error (scope : string) : string :=
  "Scope '" +:+ scope +:+ "' is admin-only and cannot be granted by a non-admin caller. Admin-only scopes: " +:+
  debug_list ADMIN_ONLY_SCOPES.

Definition enforce_admin_only_scopes (scopes : list string) (caller_is_admin : bool) : result string unit :=
  if caller_is_admin then Ok tt
  else
    match List.find (fun scope => one_of scope ADMIN_ONLY_SCOPES) scopes with
    | Some scope => Err (admin_only_error scope)
    | None => Ok tt
    end.

Definition scopes_grant_access (scopes : list string) (required_scope : string) : bool :=
  let has_admin_wildcard := one_of "*" scopes || one_of "admin" scopes in
  if one_of required_scope scopes || has_admin_wildcard then true
  else
    match split_once (Ascii.eqb ":") required_scope with
    | Some (parent, _) => negb (is_empty parent) && one_of parent scopes
    | None => false
    end.

(** * The principal *)

Record AuthExtension := {
  ext_user_id : Uuid;
  username : string;
  email : string;
  is_admin : bool;
  is_api_token : bool;
  is_service_account : bool;
  scopes : option (list string);
  allowed_repo_ids : AccessScope;
  iat_ms : option Z
}.

Definition has_scope (ext : AuthExtension) (scope : string) : bool :=
  match scopes ext with None => true | Some scopes => scopes_grant_access scopes scope end.

Definition access_scope (ext : AuthExtension) : AccessScope := allowed_repo_ids ext.
Definition can_access_repo (ext : AuthExtension) (repo_id : Uuid) : bool := grants (access_scope ext) repo_id.

Definition require_scope (ext : AuthExtension) (scope : string) : result AppError unit :=
  if has_scope ext scope then Ok tt
  else Err (Authorization ("Token does not have required scope: " +:+ scope)).

Definition ceiling_error (s : string) : string :=
  "Cannot mint a token with scope '" +:+ s +:+ "': it exceeds the scopes of the presenting credential".

Definition enforce_mint_ceiling (ext : AuthExtension) (requested : list string) : result AppError unit :=
  if is_admin ext then Ok tt
  else
    match List.find (fun s => negb (has_scope ext s)) requested with
    | Some s => Err (Authorization (ceiling_error s))
    | None => Ok tt
    end.

Definition mint_repo_ceiling (ext : AuthExtension) (requests_restriction : bool)
  : result AppError (option (list Uuid)) :=
  match allowed_repo_ids ext with
  | Admin => Ok None
  | Restricted ids =>
      if requests_restriction
      then Err (Authorization
        ("A repository-restricted credential cannot set a repository restriction on " +:+
         "the token it mints; the new token inherits the credential's own"))
      else
        match ids with
        | [] => Err (Authorization
            ("The presenting credential is restricted to repositories that match nothing, " +:+
             "so it cannot mint a token"))
        | _ => Ok (Some ids)
        end
  end.

Definition set_admin (b : bool) (ext : AuthExtension) : AuthExtension :=
  {| ext_user_id := ext_user_id ext; username := username ext; email := email ext; is_admin := b;
     is_api_token := is_api_token ext; is_service_account := is_service_account ext; scopes := scopes ext;
     allowed_repo_ids := allowed_repo_ids ext; iat_ms := iat_ms ext |}.

Definition with_scope_gated_admin (ext : AuthExtension) : AuthExtension :=
  set_admin (is_admin ext && has_scope ext "admin") ext.

Definition require_admin (ext : AuthExtension) : result AppError unit :=
  if is_admin ext then Ok tt else Err (Authorization "Admin access required").

Definition require_unscoped_admin (ext : AuthExtension) (what : string) : result AppError unit :=
  let? _ := require_admin ext in
  match allowed_repo_ids ext with
  | Restricted _ => Err (Authorization ("Repository-scoped tokens cannot read " +:+ what))
  | Admin => Ok tt
  end.

Definition require_self_or_admin (ext : AuthExtension) (target_user_id : Uuid) (deny_msg : string)
  : result AppError unit :=
  if bool_decide (ext_user_id ext = target_user_id) || is_admin ext then Ok tt else Err (Authorization deny_msg).

(** ** From the claims of a JWT, from a user *)

Record Claims := {
  sub : Uuid;
  claims_username : string;
  claims_email : string;
  claims_is_admin : bool;
  claims_repo_ids : option (list Uuid);
  iat : Z;
  claims_iat_ms : option Z;
  claims_scopes : option (list string)
}.

(** [i64::saturating_mul]. *)
Definition saturating_mul_i64 (a b : Z) : Z := Z.max (- 2 ^ 63) (Z.min I64_MAX (a * b)).

Definition effective_iat_ms (c : Claims) : Z :=
  match claims_iat_ms c with Some ms => ms | None => saturating_mul_i64 (iat c) 1000 end.

Definition ext_of_claims (c : Claims) : AuthExtension :=
  with_scope_gated_admin
    {| ext_user_id := sub c; username := claims_username c; email := claims_email c; is_admin := claims_is_admin c;
       is_api_token := false; is_service_account := false; scopes := claims_scopes c;
       allowed_repo_ids := scope_of (claims_repo_ids c); iat_ms := Some (effective_iat_ms c) |}.

Definition ext_of_user (u : User) : AuthExtension :=
  {| ext_user_id := user_id u; username := user_username u; email := user_email u; is_admin := user_is_admin u;
     is_api_token := false; is_service_account := user_is_service_account u; scopes := None;
     allowed_repo_ids := Admin; iat_ms := None |}.

(** ** From the validation of an API token ([services/auth_service.rs]) *)

Record ApiTokenValidation := {
  validated_user : User;
  validated_scopes : list string;
  validated_repo_ids : AccessScope;
  validated_expires_at : option DateTime
}.

Definition ext_of_validation (v : ApiTokenValidation) : AuthExtension :=
  let u := validated_user v in
  with_scope_gated_admin
    {| ext_user_id := user_id u; username := user_username u; email := user_email u; is_admin := user_is_admin u;
       is_api_token := true; is_service_account := user_is_service_account u; scopes := Some (validated_scopes v);
       allowed_repo_ids := validated_repo_ids v; iat_ms := None |}.

(** * Lemmas *)

(** A scope without a colon is no parent's child. *)
Lemma scopes_grant_cases l s : scopes_grant_access l s = true <->
  s ∈ l \/ "*" ∈ l \/ "admin" ∈ l \/
  exists parent rest, split_once (Ascii.eqb ":") s = Some (parent, rest) /\ parent <> "" /\ parent ∈ l.
Proof.
  unfold scopes_grant_access.
  destruct (one_of s l || (one_of "*" l || one_of "admin" l)) eqn:E.
  - rewrite !orb_true_iff, !one_of_true in E. split; [|done]. naive_solver.
  - rewrite !orb_false_iff in E. destruct E as (E1 & E2 & E3).
    assert (forall x, one_of x l = false -> x ∉ l) as Hno by (intros x Hx Hin%one_of_true; congruence).
    split.
    + destruct (split_once _ s) as [[parent rest]|] eqn:Es; [|done].
      intros [Hp Hin%one_of_true]%andb_true_iff. do 3 right. exists parent, rest. split_and!; [done| |done].
      intros ->. done.
    + intros [H|[H|[H|(parent & rest & -> & Hne & Hin)]]]; [by apply Hno in H..|].
      rewrite andb_true_iff, one_of_true. split; [|done]. unfold is_empty.
      destruct (String.eqb_spec parent ""); done.
Qed.

Lemma split_once_before sep s a b : split_once sep s = Some (a, b) -> split_once sep a = None.
Proof.
  revert a b. induction s as [|c s IH]; intros a b; simpl; [done|].
  destruct (sep c) eqn:Ec; [by intros [= <- <-]|].
  destruct (split_once sep s) as [[a' b']|] eqn:E; simpl; [|done].
  intros [= <- <-]. simpl. rewrite Ec. by rewrite (IH _ _ eq_refl).
Qed.

Lemma grant_wildcard l s : "*" ∈ l \/ "admin" ∈ l -> scopes_grant_access l s = true.
Proof. intros. apply scopes_grant_cases. naive_solver. Qed.

(** The scopes an allowed list grants are granted by what allows it. *)
Lemma scopes_grant_trans l l' s :
  (forall x, x ∈ l' -> scopes_grant_access l x = true) ->
  scopes_grant_access l' s = true -> scopes_grant_access l s = true.
Proof.
  intros Hall [H|[H|[H|(parent & rest & Es & Hne & H)]]]%scopes_grant_cases; [by apply Hall|..].
  - apply Hall, scopes_grant_cases in H. apply grant_wildcard. simpl in H. naive_solver.
  - apply Hall, scopes_grant_cases in H. apply grant_wildcard. simpl in H. naive_solver.
  - apply Hall, scopes_grant_cases in H. apply scopes_grant_cases.
    rewrite (split_once_before _ _ _ _ Es) in H. naive_solver.
Qed.

Lemma find_none_iff {A} (f : A -> bool) l : List.find f l = None <-> forall x, x ∈ l -> f x = false.
Proof.
  split.
  - intros H x Hx. apply (List.find_none f l H). by apply list_elem_of_In.
  - induction l as [|y l IH]; intros H; simpl; [done|]. rewrite (H y) by left. apply IH. intros. apply H. by right.
Qed.

Lemma enforce_ceiling_ok ext l : enforce_mint_ceiling ext l = Ok tt ->
  is_admin ext = true \/ forall s, s ∈ l -> has_scope ext s = true.
Proof.
  unfold enforce_mint_ceiling. destruct (is_admin ext); [by left|]. destruct (List.find _ l) eqn:E; [done|].
  intros _. right. intros s Hs. by apply negb_false_iff, (proj1 (find_none_iff _ _) E).
Qed.

Lemma enforce_admin_only_ok l : enforce_admin_only_scopes l false = Ok tt <->
  forall s, s ∈ l -> s ∉ ADMIN_ONLY_SCOPES.
Proof.
  unfold enforce_admin_only_scopes. destruct (List.find _ l) eqn:E.
  - split; [done|]. intros H. apply List.find_some in E as [Hin%list_elem_of_In Hone%one_of_true]. by destruct (H s).
  - split; [|done]. intros _ s Hs Ho%one_of_true. by rewrite (proj1 (find_none_iff _ _) E s Hs) in Ho.
Qed.

Lemma validate_scopes_ok l : validate_scopes_pure l = Ok tt -> forall s, s ∈ l -> s ∈ ALLOWED_SCOPES.
Proof.
  induction l as [|x l IH]; [by intros _ s ?%not_elem_of_nil|]. cbn [validate_scopes_pure].
  destruct (one_of x ALLOWED_SCOPES) eqn:E; [|done]. cbn [negb]. apply one_of_true in E.
  intros H s [->|Hs]%elem_of_cons; eauto.
Qed.

(** No scope a non-administrator may mint grants an administrator's. *)
Lemma mintable_not_admin_class l s :
  (forall x, x ∈ l -> x ∈ ALLOWED_SCOPES) -> (forall x, x ∈ l -> x ∉ ADMIN_ONLY_SCOPES) ->
  s ∈ ADMIN_ONLY_SCOPES -> scopes_grant_access l s = false.
Proof.
  intros Hall Hno Hs. apply not_true_iff_false. intros H%scopes_grant_cases.
  assert (forall x, x ∈ l -> split_once (Ascii.eqb ":") x = None -> False) as Hbare.
  { intros x Hx Hsplit. specialize (Hall x Hx). specialize (Hno x Hx). unfold ALLOWED_SCOPES in Hall.
    repeat (apply elem_of_cons in Hall as [->|Hall]; [first [by vm_compute in Hsplit | by apply Hno, one_of_true]|]).
    by apply not_elem_of_nil in Hall. }
  destruct H as [H|[H|[H|(p & r & Es & _ & H)]]].
  - by apply Hno in H.
  - by eapply Hbare.
  - by eapply Hbare.
  - eapply Hbare; [done|]. by eapply split_once_before.
Qed.

Lemma gated_admin ext : is_admin (with_scope_gated_admin ext) = true -> has_scope ext "admin" = true.
Proof. unfold with_scope_gated_admin. simpl. by intros [_ H]%andb_true_iff. Qed.
