(* ===== verification/Permission.v ===== *)
(** Fine-grained permissions: the decisions over the rules and the role
    assignments, the caches in front of them ([services/permission_service.rs]),
    the REST gates of a repository ([api/handlers/repositories.rs],
    [services/repository_service.rs]) and the administration of the rules
    ([api/handlers/permissions.rs]).

    A statement that fails is a parameter of the operation that runs it: the
    text of the error, or [None].  The address of a request is the verified one
    of [api/middleware/client_ip.rs].  PostgreSQL's [inet <<= inet] is an
    interface.  Metrics, logs, events and audit rows are left out. *)

From stdpp Require Import base list strings option gmap pretty.
From Stdlib Require Import ZArith Lia.
From S2P Require Import Prelude RustStr Repository Errors ClientIp Chrono RateLimit AccessDb Auth.

Local Open Scope Z_scope.
Local Open Scope string_scope.
Local Open Scope result_scope.

(** [client::inet <<= range::inet]. *)
Class Postgres := { inet_within : IpAddr -> string -> bool }.

(** The answer of a statement. *)
Definition query {A} (fault : option string) (a : A) : result AppError A :=
  match fault with Some e => Err (Database e) | None => Ok a end.

(** * Conditions of a rule *)

Definition no_conditions : PermissionConditions := {| allowed_cidrs := None |}.

Fixpoint validate_cidrs (cidrs : list string) : result AppError unit :=
  match cidrs with
  | [] => Ok tt
  | cidr :: cidrs =>
      match cidr_parse cidr with
      | Err e => Err (Validation ("conditions.allowed_cidrs: " +:+ e))
      | Ok _ => validate_cidrs cidrs
      end
  end.

Definition validate_conditions (c : PermissionConditions) : result AppError unit :=
  match allowed_cidrs c with
  | None => Ok tt
  | Some [] => Err (Validation "conditions.allowed_cidrs must name at least one CIDR range")
  | Some cidrs => validate_cidrs cidrs
  end.

(** [conditions ? 'allowed_cidrs']. *)
Definition conditioned (p : PermissionRule) : bool :=
  match allowed_cidrs (conditions p) with Some _ => true | None => false end.

(** The verified address of a request ([client_ip.rs]). *)
Record ClientIpConfig := { cfg_trusted_proxies : list CidrRange; xff_trusted_for_authz : bool }.

Definition resolve_verified_client_ip (lines : XffLines) (peer : option IpAddr) (cfg : ClientIpConfig)
  : option IpAddr :=
  match peer with
  | None => None
  | Some peer =>
      if negb (is_trusted (cfg_trusted_proxies cfg) peer) then Some peer
      else if negb (xff_trusted_for_authz cfg) then None
      else
        match resolve_client_ip_addr lines (Some peer) (cfg_trusted_proxies cfg) with
        | Some ip => Some ip
        | None => Some peer
        end
  end.

Inductive ConditionOutcome := Matched | NotMatched | UnknownIp.

Definition condition_outcome (client_ip : option IpAddr) (conditioned matched : Z) : option ConditionOutcome :=
  if (conditioned <=? 0)%Z then None
  else Some
    match client_ip, (0 <? matched)%Z with
    | None, _ => UnknownIp
    | Some _, true => Matched
    | Some _, false => NotMatched
    end.

(** * Decisions over the tables *)

Section Decisions.
Context `{Postgres}.

Definition ip_condition_expr (ip : option IpAddr) (p : PermissionRule) : bool :=
  match allowed_cidrs (conditions p) with
  | None => true
  | Some cidrs => match ip with Some ip => existsb (inet_within ip) cidrs | None => false end
  end.

(** The rules that name a user, directly or through a group. *)
Definition names_principal (db : AccessDb) (u : Uuid) (p : PermissionRule) : bool :=
  (one_of (principal_type p) ["user"; "service_account"] && bool_decide (principal_id p = u)) ||
  ((principal_type p =? "group") && in_group db u (principal_id p)).

Definition in_project (db : AccessDb) (r : Uuid) (p : PermissionRule) : bool :=
  (target_type p =? "project") && bool_decide (project_of db r = Some (target_id p)).

Definition on_repository (db : AccessDb) (r : Uuid) (p : PermissionRule) : bool :=
  ((target_type p =? "repository") && bool_decide (target_id p = r)) || in_project db r p.

Definition on_target (db : AccessDb) (t : string) (i : Uuid) (p : PermissionRule) : bool :=
  ((target_type p =? t) && bool_decide (target_id p = i)) || ((t =? "repository") && in_project db i p).

(** The permissions of the roles assigned to a user that reach a repository. *)
Definition assigned_roles (db : AccessDb) (u r : Uuid) : list (list string) :=
  ra ← base.filter (fun ra => ra_user ra = u /\ (ra_repository ra = Some r \/ ra_repository ra = None))
         (role_assignments db);
  role_permissions <$> base.filter (fun role => role_id role = ra_role ra) (roles db).

Definition carries (action : string) (actions : list string) : bool := one_of action actions || one_of "admin" actions.

Definition applicable_rules (db : AccessDb) (ip : option IpAddr) (u r : Uuid) : list PermissionRule :=
  base.filter (fun p => (names_principal db u p && on_repository db r p) && ip_condition_expr ip p = true) (permissions db).

Definition repository_action (db : AccessDb) (ip : option IpAddr) (u r : Uuid) (action : string) : bool :=
  existsb (one_of "admin") (assigned_roles db u r) ||
  match applicable_rules db ip u r with
  | [] => existsb (carries action) (assigned_roles db u r)
  | rules => existsb (fun p => carries action (actions p)) rules
  end.

Definition check_repository_action (fault : option string) (db : AccessDb) (ip : option IpAddr) (u r : Uuid)
  (action : string) (is_admin : bool) : result AppError bool :=
  if is_admin then Ok true else query fault (repository_action db ip u r action).

Definition anonymous_rule (db : AccessDb) (r : Uuid) (action : string) (p : PermissionRule) : bool :=
  (principal_type p =? "anonymous") && on_repository db r p && carries action (actions p).

Definition check_anonymous_repository_action (fault : option string) (db : AccessDb) (ip : option IpAddr) (r : Uuid)
  (action : string) : result AppError bool :=
  query fault (existsb (fun p => anonymous_rule db r action p && ip_condition_expr ip p) (permissions db)).

(** The actions of the applicable rules; their order is the database's. *)
Definition granted_actions (db : AccessDb) (ip : option IpAddr) (u : Uuid) (t : string) (i : Uuid) : list string :=
  remove_dups (flat_map actions
    (base.filter (fun p => (names_principal db u p && on_target db t i p) && ip_condition_expr ip p = true) (permissions db))).

Definition any_rules (db : AccessDb) (t : string) (i : Uuid) : bool := existsb (on_target db t i) (permissions db).

End Decisions.

(** * The service and its caches *)

#[export] Instance IpAddr_countable : Countable IpAddr :=
  inj_countable' (fun ip => match ip with V4 b => inl b | V6 b => inr b end)
    (fun s => match s with inl b => V4 b | inr b => V6 b end) ltac:(by intros []).

Record CacheKey := { ck_user : Uuid; ck_target_type : string; ck_target : Uuid; ck_ip : option IpAddr }.
Record CacheEntry := { entry_actions : list string; inserted_at : Instant }.
Record RulesCacheKey := { rk_target_type : string; rk_target : Uuid }.
Record RulesCacheEntry := { exists_ : bool; rules_inserted_at : Instant }.

#[export] Instance CacheKey_eq_dec : EqDecision CacheKey.
Proof. solve_decision. Defined.
#[export] Instance CacheKey_countable : Countable CacheKey :=
  inj_countable' (fun k => (ck_user k, ck_target_type k, ck_target k, ck_ip k))
    (fun '(u, t, i, ip) => {| ck_user := u; ck_target_type := t; ck_target := i; ck_ip := ip |}) ltac:(by intros []).
#[export] Instance RulesCacheKey_eq_dec : EqDecision RulesCacheKey.
Proof. solve_decision. Defined.
#[export] Instance RulesCacheKey_countable : Countable RulesCacheKey :=
  inj_countable' (fun k => (rk_target_type k, rk_target k))
    (fun '(t, i) => {| rk_target_type := t; rk_target := i |}) ltac:(by intros []).

(** Each map sits behind a lock; a thread that panicked while it held the lock
    leaves it poisoned. *)
Record PermissionService := {
  cache : gmap CacheKey CacheEntry;
  rules_cache : gmap RulesCacheKey RulesCacheEntry;
  cache_poisoned : bool;
  rules_poisoned : bool
}.

Definition CACHE_TTL : Z := 30 * NANOS_PER_SEC.

Definition elapsed (now at_ : Instant) : Z := duration_since now at_.
Definition is_expired (now : Instant) (e : CacheEntry) : bool := (CACHE_TTL <? elapsed now (inserted_at e))%Z.
Definition rules_is_expired (now : Instant) (e : RulesCacheEntry) : bool :=
  (CACHE_TTL <? elapsed now (rules_inserted_at e))%Z.

(** The fast path of [resolve_actions]. *)
Definition cache_lookup (svc : PermissionService) (now : Instant) (k : CacheKey) : option (list string) :=
  if cache_poisoned svc then None
  else e ← cache svc !! k; if is_expired now e then None else Some (entry_actions e).

(** Its write: a poisoned lock is recovered, and stays poisoned. *)
Definition cache_store (svc : PermissionService) (now : Instant) (k : CacheKey) (actions : list string)
  : PermissionService :=
  {| cache := <[k := {| entry_actions := actions; inserted_at := now |}]>
       (base.filter (fun kv => is_expired now (snd kv) = false) (cache svc));
     rules_cache := rules_cache svc; cache_poisoned := cache_poisoned svc; rules_poisoned := rules_poisoned svc |}.

Definition rules_lookup (svc : PermissionService) (now : Instant) (k : RulesCacheKey) : option bool :=
  if rules_poisoned svc then None
  else e ← rules_cache svc !! k; if rules_is_expired now e then None else Some (exists_ e).

Definition rules_store (svc : PermissionService) (now : Instant) (k : RulesCacheKey) (b : bool) : PermissionService :=
  {| cache := cache svc;
     rules_cache := <[k := {| exists_ := b; rules_inserted_at := now |}]>
       (base.filter (fun kv => rules_is_expired now (snd kv) = false) (rules_cache svc));
     cache_poisoned := cache_poisoned svc; rules_poisoned := rules_poisoned svc |}.

Definition invalidate_cache (svc : PermissionService) : PermissionService :=
  {| cache := ∅; rules_cache := ∅; cache_poisoned := cache_poisoned svc; rules_poisoned := rules_poisoned svc |}.

Section Service.
Context `{Postgres}.

Definition query_actions (fault : option string) (db : AccessDb) (k : CacheKey) : result AppError (list string) :=
  query fault (granted_actions db (ck_ip k) (ck_user k) (ck_target_type k) (ck_target k)).

(** [now] is the clock at the lookup and [stored] at the write. *)
Definition resolve_actions (fault : option string) (db : AccessDb) (ip : option IpAddr) (now stored : Instant)
  (svc : PermissionService) (u : Uuid) (t : string) (i : Uuid) : result AppError (list string) * PermissionService :=
  let k := {| ck_user := u; ck_target_type := t; ck_target := i; ck_ip := ip |} in
  match cache_lookup svc now k with
  | Some actions => (Ok actions, svc)
  | None =>
      match query_actions fault db k with
      | Err e => (Err e, svc)
      | Ok actions => (Ok actions, cache_store svc stored k actions)
      end
  end.

Definition check_permission (fault : option string) (db : AccessDb) (ip : option IpAddr) (now stored : Instant)
  (svc : PermissionService) (u : Uuid) (t : string) (i : Uuid) (action : string) (is_admin : bool)
  : result AppError bool * PermissionService :=
  if is_admin then (Ok true, svc)
  else
    let '(r, svc) := resolve_actions fault db ip now stored svc u t i in
    (match r with Ok actions => Ok (one_of action actions) | Err e => Err e end, svc).

Definition has_any_rules_for_target (fault : option string) (db : AccessDb) (now stored : Instant)
  (svc : PermissionService) (t : string) (i : Uuid) : result AppError bool * PermissionService :=
  let k := {| rk_target_type := t; rk_target := i |} in
  match rules_lookup svc now k with
  | Some b => (Ok b, svc)
  | None =>
      match query fault (any_rules db t i) with
      | Err e => (Err e, svc)
      | Ok b => (Ok b, rules_store svc stored k b)
      end
  end.

(** * The REST gates of a repository *)

Inductive RepoAccess := TenantOnly | Action (action : string).
Definition READ : RepoAccess := Action "read".

Definition permissions_grant_exists (db : AccessDb) (ip : option IpAddr) (u r : Uuid) : bool :=
  existsb (fun p => on_repository db r p && negb (bool_decide (actions p = [])) && names_principal db u p &&
                    ip_condition_expr ip p) (permissions db).

(** A role assignment that reaches the repository, whatever the role. *)
Definition has_assignment (db : AccessDb) (u r : Uuid) : bool :=
  existsb (fun ra => bool_decide (ra_user ra = u) &&
    match ra_repository ra with Some r' => bool_decide (r' = r) | None => true end) (role_assignments db).

Definition user_can_access_repo (tenant_fault action_fault : option string) (db : AccessDb) (ip : option IpAddr)
  (r u : Uuid) (access : RepoAccess) : result AppError bool :=
  let? granted := query tenant_fault (has_assignment db u r || permissions_grant_exists db ip u r) in
  if negb granted then Ok false
  else
    match access with
    | TenantOnly => Ok granted
    | Action action => check_repository_action action_fault db ip u r action false
    end.

Definition anonymous_can_read_repo (fault : option string) (db : AccessDb) (ip : option IpAddr) (r : Uuid)
  : result AppError bool := check_anonymous_repository_action fault db ip r "read".

Definition REPOSITORY_NOT_FOUND : string := "Repository not found".

Definition unwrap_or_false {E} (r : result E bool) : bool := match r with Ok b => b | Err _ => false end.

Definition require_visible (tenant_fault action_fault : option string) (db : AccessDb) (ip : option IpAddr)
  (repo : CachedRepo) (auth : option AuthExtension) : result AppError unit :=
  let not_found := NotFound REPOSITORY_NOT_FOUND in
  if allows_anonymous_read (visibility repo) then Ok tt
  else
    match auth with
    | Some a =>
        if negb (can_access_repo a (id repo)) then Err not_found
        else if allows_authenticated_read (visibility repo) then Ok tt
        else if is_admin a then Ok tt
        else
          let? ok := user_can_access_repo tenant_fault action_fault db ip (id repo) (ext_user_id a) READ in
          if ok then Ok tt else Err not_found
    | None =>
        if unwrap_or_false (anonymous_can_read_repo tenant_fault db ip (id repo)) then Ok tt else Err not_found
    end.

Definition require_repo_access (auth : AuthExtension) (repo_id : Uuid) : result AppError unit :=
  if can_access_repo auth repo_id then Ok tt
  else Err (Authorization "Token does not have access to this repository").

Definition require_repo_write_access (fault : option string) (db : AccessDb) (ip : option IpAddr)
  (auth : AuthExtension) (repo : CachedRepo) : result AppError unit :=
  let? _ := require_repo_access auth (id repo) in
  if allows_anonymous_read (visibility repo) || is_admin auth then Ok tt
  else
    let? ok := user_can_access_repo fault None db ip (id repo) (ext_user_id auth) TenantOnly in
    if ok then Ok tt else Err (Authorization "You do not have access to this repository").

Definition require_repo_action (fault : option string) (db : AccessDb) (ip : option IpAddr) (auth : AuthExtension)
  (repo_id : Uuid) (action : string) : result AppError unit :=
  let? _ := require_repo_access auth repo_id in
  match check_repository_action fault db ip (ext_user_id auth) repo_id action (is_admin auth) with
  | Err _ => Err (ServiceUnavailable "permission service temporarily unavailable")
  | Ok true => Ok tt
  | Ok false => Err (Authorization "You do not have permission to perform this action on this repository")
  end.

Definition require_repo_admin (fault : option string) (db : AccessDb) (ip : option IpAddr) (auth : AuthExtension)
  (repo_id : Uuid) : result AppError unit :=
  if is_admin auth then Ok tt
  else
    let? has_admin := check_repository_action fault db ip (ext_user_id auth) repo_id "admin" false in
    if has_admin then Ok tt
    else Err (Authorization "Repository admin permission is required for this operation").

End Service.

(** * Administration of the rules

    The answer is the written row without its display names. *)

Inductive Statement := SelectPrincipal | SelectRule | WriteRule.
Notation Faults := (Statement -> option string).
Definition no_faults : Faults := fun _ => None.

Record CreatePermissionRequest := {
  req_principal_type : string;
  req_principal_id : Uuid;
  req_target_type : string;
  req_target_id : Uuid;
  req_actions : list string;
  req_conditions : option PermissionConditions
}.

Definition SYSTEM_TARGET_TYPE : string := "system".
Definition NIL_UUID : Uuid := 0%N.
Definition ANONYMOUS_PRINCIPAL_TYPE : string := "anonymous".

(** The query a principal type stands for, run on the tables. *)
Definition principal_existence_query (t : string) : option (AccessDb -> Uuid -> bool) :=
  if t =? "user"
  then Some (fun db i => existsb (fun u => bool_decide (user_id u = i) && negb (user_is_service_account u)) (users db))
  else if t =? "service_account"
  then Some (fun db i => existsb (fun u => bool_decide (user_id u = i) && user_is_service_account u) (users db))
  else if t =? "group" then Some (fun db i => bool_decide (i ∈ groups db))
  else None.

Section Administration.
Context `{UuidCrate}.

Definition validate_principal (fault : option string) (db : AccessDb) (t : string) (i : Uuid) : result AppError unit :=
  if t =? ANONYMOUS_PRINCIPAL_TYPE then
    if bool_decide (i = NIL_UUID) then Ok tt
    else Err (Validation ("principal_type 'anonymous' requires the nil principal_id, got " +:+ uuid_display i))
  else
    let? q := ok_or (principal_existence_query t)
      (Validation ("Invalid principal_type '" +:+ t +:+ "': expected one of user, service_account, group, anonymous")) in
    let? found := query fault (q db i) in
    if found then Ok tt
    else Err (Validation ("principal_id " +:+ uuid_display i +:+ " does not exist as a " +:+ t)).

Definition validate_anonymous_rule (p : CreatePermissionRequest) : result AppError unit :=
  if negb (req_principal_type p =? ANONYMOUS_PRINCIPAL_TYPE) then Ok tt
  else if negb (req_target_type p =? "repository") && negb (req_target_type p =? "project")
  then Err (Validation ("anonymous rules only apply to 'repository' or 'project' targets, got '" +:+
                        req_target_type p +:+ "'"))
  else if existsb (fun a => negb (a =? "read")) (req_actions p)
  then Err (Validation ("anonymous rules may only grant the 'read' action: anonymous access is a " +:+
                        "download grant and never confers write, delete, or admin"))
  else Ok tt.

Definition require_auth (auth : option AuthExtension) : result AppError AuthExtension :=
  ok_or auth (Authentication "Authentication required").

(** The gates of a handler, before it touches the body or the tables. *)
Definition require_admin_scope (auth : option AuthExtension) (scope : string) : result AppError AuthExtension :=
  let? auth := require_auth auth in
  let? _ := require_scope auth scope in
  let? _ := require_admin auth in
  Ok auth.

(** What create and update check of the body. *)
Definition validated_payload (fails : Faults) (db : AccessDb) (body : result string CreatePermissionRequest)
  : result AppError CreatePermissionRequest :=
  match body with
  | Err e => Err (Validation ("Invalid permission payload: " +:+ e))
  | Ok p =>
      let? _ := validate_principal (fails SelectPrincipal) db (req_principal_type p) (req_principal_id p) in
      let? _ := match req_conditions p with Some c => validate_conditions c | None => Ok tt end in
      let? _ := validate_anonymous_rule p in
      Ok p
  end.

Definition rule_of (i : Uuid) (p : CreatePermissionRequest) : PermissionRule :=
  {| rule_id := i; principal_type := req_principal_type p; principal_id := req_principal_id p;
     target_type := req_target_type p; target_id := req_target_id p; actions := req_actions p;
     conditions := default no_conditions (req_conditions p) |}.

(** The columns of the UNIQUE constraint. *)
Definition grant_of (p : PermissionRule) : string * Uuid * string * Uuid :=
  (principal_type p, principal_id p, target_type p, target_id p).

Definition map_permission_write_error (msg : string) : AppError :=
  if contains "duplicate key" msg then Conflict "Permission already exists" else Database msg.

Definition DUPLICATE_KEY : string := "duplicate key value violates unique constraint".

(** The write of a row: it fails, or it clashes with a row of the table. *)
Definition write_rule (fault : option string) (db : AccessDb) (clashes : PermissionRule -> bool)
  (write : list PermissionRule -> list PermissionRule) : result AppError AccessDb :=
  match fault with
  | Some msg => Err (map_permission_write_error msg)
  | None =>
      if existsb clashes (permissions db) then Err (map_permission_write_error DUPLICATE_KEY)
      else Ok (set_permissions write db)
  end.

(** The primary key and the UNIQUE constraint, for an insert and for the update
    of a row. *)
Definition insert_clashes (row p : PermissionRule) : bool :=
  bool_decide (rule_id p = rule_id row) || bool_decide (grant_of p = grant_of row).
Definition update_clashes (row p : PermissionRule) : bool :=
  negb (bool_decide (rule_id p = rule_id row)) && bool_decide (grant_of p = grant_of row).

Definition create_permission (fails : Faults) (auth : option AuthExtension)
  (body : result string CreatePermissionRequest) (new_id : Uuid) (db : AccessDb) (svc : PermissionService)
  : result AppError PermissionRule * AccessDb * PermissionService :=
  match (let? _ := require_admin_scope auth "write" in
         let? p := validated_payload fails db body in
         let row := rule_of new_id p in
         let? db := write_rule (fails WriteRule) db (insert_clashes row) (fun l => l ++ [row])%list in
         Ok (row, db))
  with
  | Err e => (Err e, db, svc)
  | Ok (row, db) => (Ok row, db, invalidate_cache svc)
  end.

Definition find_rule (db : AccessDb) (i : Uuid) : option PermissionRule :=
  List.find (fun p => bool_decide (rule_id p = i)) (permissions db).

Definition update_permission (fails : Faults) (auth : option AuthExtension) (i : Uuid)
  (body : result string CreatePermissionRequest) (db : AccessDb) (svc : PermissionService)
  : result AppError PermissionRule * AccessDb * PermissionService :=
  match (let? _ := require_admin_scope auth "write" in
         let? p := validated_payload fails db body in
         let? before := query (fails SelectRule) (find_rule db i) in
         let? _ := ok_or before (NotFound "Permission not found") in
         let row := rule_of i p in
         let? db := write_rule (fails WriteRule) db (update_clashes row)
           (fmap (fun p => if bool_decide (rule_id p = i) then row else p)) in
         Ok (row, db))
  with
  | Err e => (Err e, db, svc)
  | Ok (row, db) => (Ok row, db, invalidate_cache svc)
  end.

Definition delete_permission (fails : Faults) (auth : option AuthExtension) (i : Uuid) (db : AccessDb)
  (svc : PermissionService) : result AppError unit * AccessDb * PermissionService :=
  match (let? _ := require_admin_scope auth "delete" in
         let? _ := query (fails SelectRule) (find_rule db i) in
         let? found := query (fails WriteRule) (find_rule db i) in
         let? _ := ok_or found (NotFound "Permission not found") in
         Ok (set_permissions (base.filter (fun p => rule_id p <> i)) db))
  with
  | Err e => (Err e, db, svc)
  | Ok db => (Ok tt, db, invalidate_cache svc)
  end.

End Administration.
