(* ===== verification/Tokens.v ===== *)
(** API tokens: the repositories a token is restricted to
    ([services/repo_selector_service.rs]), the expiration policy
    ([services/token_expiry_policy.rs]), the mint ([services/auth_service.rs])
    and the handlers that mint ([api/handlers/auth.rs], [profile.rs],
    [users.rs], [repo_tokens.rs], [service_accounts.rs]).

    A handler is a sequence of statements on the tables in a monad of state and
    errors: every statement commits on its own, so the writes before an error
    stay.  A statement may fail; which do is a parameter.  The text of serde's
    errors, bcrypt and the random token are parameters as well; audit rows are
    left out. *)

From stdpp Require Import base list strings option pretty.
From Stdlib Require Import ZArith Lia Ascii.
From S2P Require Import Prelude RustStr RustNum Repository Errors ClientIp Chrono RateLimit AccessDb Auth Permission.

Local Open Scope Z_scope.
Local Open Scope string_scope.
Local Open Scope list_scope.
Local Open Scope result_scope.

(** * Repository selectors *)

(** The uuid crate's [Display] and [parse_str]. *)
Class UuidText := { uuid_crate :: UuidCrate; uuid_parse : string -> option Uuid }.

Record RepoSelector := {
  match_labels : list (string * string);
  match_formats : list string;
  match_pattern : option string;
  match_repos : list Uuid
}.

Inductive TokenScopeError := InvalidSelector | SelectorMatchesNothing | DeletedPinnedRepositories.

Record ResolvedTokenScope := {
  resolved_repo_ids : option (list Uuid);
  scope_error : option TokenScopeError
}.

Definition is_empty_selector (s : RepoSelector) : bool :=
  match match_labels s, match_formats s, match_pattern s, match_repos s with
  | [], [], None, [] => true
  | _, _, _, _ => false
  end.

(** ** Patterns *)

(** What follows the first occurrence of a non-empty needle. *)
Fixpoint find_rest (needle s : string) : option string :=
  match strip_prefix needle s with
  | Some rest => Some rest
  | None => match s with EmptyString => None | String _ s => find_rest needle s end
  end.

(** The parts of a pattern with a wildcard, on the text after [pos]. *)
Fixpoint match_parts (i last : nat) (value : string) (parts : list string) : bool :=
  match parts with
  | [] => true
  | part :: parts =>
      if is_empty part then match_parts (S i) last value parts
      else if (i =? 0)%nat then
        match strip_prefix part value with Some rest => match_parts (S i) last rest parts | None => false end
      else if (i =? last)%nat then
        if ends_with part value then match_parts (S i) last "" parts else false
      else
        match find_rest part value with Some rest => match_parts (S i) last rest parts | None => false end
  end.

Definition sql_like_match (value pattern : string) : bool :=
  let parts := split_char "%" pattern in
  if (length parts =? 1)%nat then value =? pattern else match_parts 0 (length parts - 1) value parts.

(** [pattern.replace('*', "%")]. *)
Definition star_to_percent (pattern : string) : string :=
  str_map (fun c => if Ascii.eqb "*" c then "%"%char else c) pattern.

(** ** Resolution *)

Definition has_label (db : AccessDb) (r : Uuid) (label : string * string) : bool :=
  existsb (fun row => bool_decide (label_repository row = r) && (label_key row =? label.1) && (label_value row =? label.2))
    (repository_labels db).

Definition resolve_repos_by_labels (db : AccessDb) (labels : list (string * string)) : list Uuid :=
  match labels with
  | [] => []
  | _ =>
      base.filter (fun r => forallb (has_label db r) labels = true)
        (remove_dups (label_repository <$> repository_labels db))
  end.

(** [ORDER BY key] is the database's collation: the order is left out. *)
Definition resolve_rows (db : AccessDb) (s : RepoSelector) : list RepositoryRow :=
  match match_repos s with
  | _ :: _ => base.filter (fun r => row_id r ∈ match_repos s) (repositories db)
  | [] =>
      let by_format (r : RepositoryRow) : bool :=
        match match_formats s with
        | [] => true
        | formats => one_of (to_lowercase (format (columns r))) (to_lowercase <$> formats)
        end in
      let by_pattern (r : RepositoryRow) : bool :=
        match match_pattern s with Some p => sql_like_match (key r) (star_to_percent p) | None => true end in
      let by_labels (r : RepositoryRow) : bool :=
        match match_labels s with
        | [] => true
        | labels => bool_decide (row_id r ∈ resolve_repos_by_labels db labels)
        end in
      if is_empty_selector s then []
      else base.filter (fun r => by_format r && by_pattern r && by_labels r = true) (repositories db)
  end.

Definition resolve_ids (db : AccessDb) (s : RepoSelector) : list Uuid := row_id <$> resolve_rows db s.

(** ** The stored form *)

Definition json_strings (j : Json) : option (list string) :=
  match j with JArray l => mapM json_as_str l | _ => None end.

Definition de_labels (j : Json) : option (list (string * string)) :=
  match j with JObject m => mapM (fun kv => v ← json_as_str kv.2; Some (kv.1, v)) m | _ => None end.

Definition de_pattern (j : Json) : option (option string) :=
  match j with JNull => Some None | JString s => Some (Some s) | _ => None end.

(** A field with [#[serde(default)]]. *)
Definition de_field {A} (k : string) (de : Json -> option A) (dflt : A) (j : Json) : option A :=
  match json_get k j with None => Some dflt | Some v => de v end.

Definition SELECTOR_FIELDS : list string := ["match_labels"; "match_formats"; "match_pattern"; "match_repos"].

Section Selectors.
Context `{UuidText}.

Definition parse_token_selector_strict (value : Json) : option RepoSelector :=
  match value with
  | JObject given =>
      labels ← de_field "match_labels" de_labels [] value;
      formats ← de_field "match_formats" json_strings [] value;
      pattern ← de_field "match_pattern" de_pattern None value;
      repos ← de_field "match_repos" (fun j => l ← json_strings j; mapM uuid_parse l) [] value;
      if forallb (fun kv => one_of kv.1 SELECTOR_FIELDS) given
      then Some {| match_labels := labels; match_formats := formats; match_pattern := pattern; match_repos := repos |}
      else None
  | _ => None
  end.

Definition validate_token_repo_selector (value : Json) : result AppError unit :=
  match parse_token_selector_strict value with
  | None => Err (Validation "Invalid repo_selector")
  | Some selector =>
      if is_empty_selector selector
      then Err (Validation
        ("repo_selector names no repositories; set match_repos, match_labels, " +:+
         "match_formats or match_pattern, or omit repo_selector for an unrestricted token"))
      else Ok tt
  end.

Definition inherited_token_selector (ids : list Uuid) : Json :=
  JObject [("match_repos", JArray ((fun i => JString (uuid_display i)) <$> ids))].

Definition resolve_token_scope (db : AccessDb) (selector : option Json) (explicit : list Uuid)
  (repository_restricted : bool) : ResolvedTokenScope :=
  let unrestricted := {| resolved_repo_ids := None; scope_error := None |} in
  match selector with
  | Some value =>
      match parse_token_selector_strict value with
      | None => {| resolved_repo_ids := Some []; scope_error := Some InvalidSelector |}
      | Some s =>
          if is_empty_selector s then unrestricted
          else
            let ids := resolve_ids db s in
            {| resolved_repo_ids := Some ids;
               scope_error := match ids with [] => Some SelectorMatchesNothing | _ => None end |}
      end
  | None =>
      match explicit with
      | _ :: _ => {| resolved_repo_ids := Some explicit; scope_error := None |}
      | [] =>
          if repository_restricted then {| resolved_repo_ids := Some []; scope_error := Some DeletedPinnedRepositories |}
          else unrestricted
      end
  end.

(** The end of [validate_api_token]: a stored token whose secret was verified,
    which is neither revoked nor expired, with its owner. *)
Definition validate_stored_token (db : AccessDb) (t : ApiToken) : result AppError ApiTokenValidation :=
  match List.find (fun u => bool_decide (user_id u = token_user t) && user_is_active u) (users db) with
  | None => Err (Authentication "User not found")
  | Some user =>
      let explicit := match repo_selector t with None => token_repositories t | Some _ => [] end in
      let resolved := resolve_token_scope db (repo_selector t) explicit (repository_restricted t) in
      Ok {| validated_user := user; validated_scopes := token_scopes t;
            validated_repo_ids := scope_of (resolved_repo_ids resolved); validated_expires_at := token_expires_at t |}
  end.

End Selectors.

Example like_1 : sql_like_match "libs-release" "libs-%" = true /\ sql_like_match "libs" "libs-%" = false /\
  sql_like_match "a-x-b-y-c" "a%b%c" = true /\ sql_like_match "aa" "a%aa" = false /\ sql_like_match "" "%" = true /\
  sql_like_match "abcab" "%ab%ab" = true /\ sql_like_match "ab" "%ab%ab" = false.
Proof. vm_compute. done. Qed.

(** * The expiration policy *)

Definition TOKEN_POLICY_SETTING_KEY : string := "security.api_token_expiry_policy".
Definition ABSOLUTE_MAX_EXPIRY_DAYS : Z := 3650.

Record ApiTokenExpiryPolicy := {
  require_expiration : bool;
  min_days : Z;
  max_days : Z;
  default_days : option Z;
  apply_to_service_accounts : bool
}.

Definition default_policy : ApiTokenExpiryPolicy :=
  {| require_expiration := false; min_days := 1; max_days := 90; default_days := Some 90;
     apply_to_service_accounts := false |}.

Definition validate_policy (p : ApiTokenExpiryPolicy) : result string unit :=
  if (min_days p <? 1)%Z then Err "min_days must be at least 1"
  else if (max_days p <? min_days p)%Z
  then Err ("max_days (" +:+ pretty (max_days p) +:+ ") must be >= min_days (" +:+ pretty (min_days p) +:+ ")")
  else if (ABSOLUTE_MAX_EXPIRY_DAYS <? max_days p)%Z
  then Err ("max_days (" +:+ pretty (max_days p) +:+ ") must be <= " +:+ pretty ABSOLUTE_MAX_EXPIRY_DAYS)
  else
    match default_days p with
    | Some d =>
        if (d <? min_days p)%Z || (max_days p <? d)%Z
        then Err ("default_days (" +:+ pretty d +:+ ") must fall within [min_days, max_days] = [" +:+
                  pretty (min_days p) +:+ ", " +:+ pretty (max_days p) +:+ "]")
        else Ok tt
    | None => Ok tt
    end.

(** A day variable of the environment: unset or blank falls back. *)
Definition parse_days (raw : option string) (fallback : Z) : option Z :=
  match trim <$> raw with
  | None => Some fallback
  | Some v => if is_empty v then Some fallback else parse_i64 v
  end.

Definition parse_required (required : option string) : option bool :=
  match trim <$> required with
  | None => None
  | Some v =>
      if is_empty v then None
      else
        let v := to_ascii_lowercase v in
        if one_of v ["true"; "1"] then Some true else if one_of v ["false"; "0"] then Some false else None
  end.

Definition parse_default_days (raw : option string) : option (option Z) :=
  match trim <$> raw with
  | None => Some (default_days default_policy)
  | Some v =>
      if is_empty v then Some (default_days default_policy)
      else if to_ascii_lowercase v =? "none" then Some None
      else Some <$> parse_i64 v
  end.

Definition from_env_values (required min max dflt include_service_accounts : option string)
  : option ApiTokenExpiryPolicy :=
  required ← parse_required required;
  mn ← parse_days min (min_days default_policy);
  mx ← parse_days max (max_days default_policy);
  d ← parse_default_days dflt;
  let policy :=
    {| require_expiration := required; min_days := mn; max_days := mx; default_days := d;
       apply_to_service_accounts :=
         match trim <$> include_service_accounts with Some v => one_of v ["true"; "1"] | None => false end |} in
  match validate_policy policy with Ok _ => Some policy | Err _ => None end.

Record ResolvedExpiry := { expires_in_days : option Z; policy_applied : bool }.

Definition resolve_expiry (p : ApiTokenExpiryPolicy) (requested_days : option Z) (is_service_account : bool)
  : result string ResolvedExpiry :=
  if negb (require_expiration p) || (is_service_account && negb (apply_to_service_accounts p))
  then Ok {| expires_in_days := requested_days; policy_applied := false |}
  else
    match requested_days with
    | None =>
        match default_days p with
        | Some d => Ok {| expires_in_days := Some d; policy_applied := true |}
        | None => Err ("This instance requires API tokens to expire: set expires_in_days between " +:+
                       pretty (min_days p) +:+ " and " +:+ pretty (max_days p) +:+ " days")
        end
    | Some d =>
        if (d <? min_days p)%Z || (max_days p <? d)%Z
        then Err ("expires_in_days (" +:+ pretty d +:+ ") violates this instance's token expiration policy: " +:+
                  "it must be between " +:+ pretty (min_days p) +:+ " and " +:+ pretty (max_days p) +:+ " days")
        else Ok {| expires_in_days := Some d; policy_applied := true |}
    end.

(** The derived [Deserialize] with [deny_unknown_fields]; an array gives the
    fields in order. *)
Definition json_bool (j : Json) : option bool := match j with JBool b => Some b | _ => None end.
Definition json_i64 (j : Json) : option Z := match j with JNumber n => parse_i64 n | _ => None end.
Definition json_opt_i64 (j : Json) : option (option Z) :=
  match j with JNull => Some None | _ => Some <$> json_i64 j end.

Definition POLICY_FIELDS : list string :=
  ["require_expiration"; "min_days"; "max_days"; "default_days"; "apply_to_service_accounts"].

Definition de_policy (j : Json) : option ApiTokenExpiryPolicy :=
  let build r mn mx d s :=
    r ← r; mn ← mn; mx ← mx; d ← d; s ← s;
    Some {| require_expiration := r; min_days := mn; max_days := mx; default_days := d;
            apply_to_service_accounts := s |} in
  match j with
  | JObject m =>
      if forallb (fun kv => one_of kv.1 POLICY_FIELDS) m
      then build (json_get "require_expiration" j ≫= json_bool) (json_get "min_days" j ≫= json_i64)
             (json_get "max_days" j ≫= json_i64) (de_field "default_days" json_opt_i64 None j)
             (de_field "apply_to_service_accounts" json_bool false j)
      else None
  | JArray [r; mn; mx] => build (json_bool r) (json_i64 mn) (json_i64 mx) (Some None) (Some false)
  | JArray [r; mn; mx; d] => build (json_bool r) (json_i64 mn) (json_i64 mx) (json_opt_i64 d) (Some false)
  | JArray [r; mn; mx; d; s] => build (json_bool r) (json_i64 mn) (json_i64 mx) (json_opt_i64 d) (json_bool s)
  | _ => None
  end.

(** A read that fails is no stored policy. *)
Definition stored_policy (fault : option string) (db : AccessDb) : ApiTokenExpiryPolicy :=
  let value := match fault with
               | Some _ => None
               | None => snd <$> List.find (fun kv => kv.1 =? TOKEN_POLICY_SETTING_KEY) (system_settings db)
               end in
  default default_policy (raw ← value; de_policy raw).

Definition effective_policy (fault : option string) (db : AccessDb) (env_override : option ApiTokenExpiryPolicy)
  : ApiTokenExpiryPolicy := default (stored_policy fault db) env_override.

Definition cap_access_expiry (base_exp : DateTime) (credential_exp : option DateTime) : DateTime :=
  match credential_exp with Some cap => if (cap <? base_exp)%Z then cap else base_exp | None => base_exp end.

Example policy_1 : from_env_values (Some " TRUE ") None (Some "30") (Some "none") None =
  Some {| require_expiration := true; min_days := 1; max_days := 30; default_days := None; apply_to_service_accounts := false |} /\
  from_env_values (Some "1") None (Some "30") None None = None /\ from_env_values (Some "yes") None None None None = None.
Proof. vm_compute. done. Qed.

(** * Statements in sequence *)

Definition M (A : Type) : Type := AccessDb -> result AppError A * AccessDb.

Definition ret {A} (a : A) : M A := fun db => (Ok a, db).
Definition lift {A} (r : result AppError A) : M A := fun db => (r, db).
Definition then_ {A B} (m : M A) (k : A -> M B) : M B :=
  fun db => match m db with (Ok a, db) => k a db | (Err e, db) => (Err e, db) end.

Notation "'let!' x ':=' m 'in' k" := (then_ m (fun x => k)) (at level 10, x pattern, m at level 100, k at level 200).

(** A read, which may fail. *)
Definition gets {A} (f : AccessDb -> result AppError A) : M A := fun db => (f db, db).

Definition select {A} (fault : option string) (f : AccessDb -> A) : M A := fun db => (query fault (f db), db).
Definition execute (fault : option string) (f : AccessDb -> AccessDb) : M unit :=
  fun db => match fault with Some e => (Err (Database e), db) | None => (Ok tt, f db) end.

(** [.map_err(..)?] of a pure check. *)
Definition check_with {A} (mk : string -> AppError) (r : result string A) : M A :=
  lift (match r with Ok a => Ok a | Err e => Err (mk e) end).

Inductive MintStatement :=
| SelectProvider | SelectPolicy | SelectServiceAccount | InsertToken | UpdateSelector
| SelectRepository | SelectTenant | SelectAction | UpdateRestricted | InsertPin | UpdateCreator.

(** What a mint is given: the clock, the id the insert generates, the random
    token, bcrypt, the policy pinned by the environment, the failures, and the
    verified address of the request. *)
Record MintContext := {
  mint_now : DateTime;
  fresh_id : Uuid;
  secret : string;
  hash_password : string -> result AppError string;
  env_policy : option ApiTokenExpiryPolicy;
  mint_fails : MintStatement -> option string;
  mint_ip : option IpAddr
}.

Record MintedApiToken := {
  minted_id : Uuid;
  minted_token : string;
  minted_expires_at : option DateTime;
  minted_policy_applied : bool
}.

(** * The mint *)

Definition ci_account_mint_refusal (provider : option AuthProvider) : result string unit :=
  match provider with
  | Some CiProvider => Err ("A CI OIDC service account cannot mint API tokens; exchange a fresh CI token " +:+
                            "at /api/v1/auth/ci/token instead")
  | _ => Ok tt
  end.

Definition refuse_ci_account_mint (c : MintContext) (u : Uuid) : M unit :=
  let! provider := select (mint_fails c SelectProvider) (fun db => user_auth_provider <$> find_user db u) in
  check_with Authorization (ci_account_mint_refusal provider).

Definition clamp (d lo hi : Z) : Z := Z.max lo (Z.min hi d).

Definition update_token (i : Uuid) (f : ApiToken -> ApiToken) (db : AccessDb) : AccessDb :=
  set_tokens (fmap (fun t => if bool_decide (token_id t = i) then f t else t)) db.

Definition new_token (c : MintContext) (u : Uuid) (name hash : string) (scopes : list string)
  (expires : option DateTime) : ApiToken :=
  {| token_id := fresh_id c; token_user := u; token_name := name; token_hash := hash;
     token_prefix := String.substring 0 8 (secret c); token_scopes := scopes; token_expires_at := expires;
     token_revoked := false; repo_selector := None; repository_restricted := false; token_repositories := [];
     created_by_user_id := None; token_description := None |}.

Definition generate_api_token_with_policy (c : MintContext) (u : Uuid) (name : string) (scopes : list string)
  (expires : option Z) : M MintedApiToken :=
  if (50 <? length scopes)%nat then lift (Err (Validation "Too many scopes (max 50)"))
  else if existsb (fun s => 256 <? String.length s)%nat scopes
  then lift (Err (Validation "Scope name too long (max 256 characters)"))
  else
    let! _ := check_with Validation (validate_scopes_pure scopes) in
    let! hash := lift (hash_password c (secret c)) in
    let! policy := gets (fun db => Ok (effective_policy (mint_fails c SelectPolicy) db (env_policy c))) in
    let! resolved :=
      (if require_expiration policy then
         let! sa := select (mint_fails c SelectServiceAccount)
           (fun db => default false (user_is_service_account <$> find_user db u)) in
         check_with Validation (resolve_expiry policy expires sa)
       else ret {| expires_in_days := expires; policy_applied := false |}) in
    let expires_at := (fun days => (mint_now c + clamp days 1 3650 * NANOS_PER_DAY)%Z) <$> expires_in_days resolved in
    let! _ := execute (mint_fails c InsertToken)
      (set_tokens (fun l => l ++ [new_token c u name hash scopes expires_at])) in
    ret {| minted_id := fresh_id c; minted_token := secret c; minted_expires_at := expires_at;
           minted_policy_applied := policy_applied resolved |}.

Definition set_selector (selector : Json) (t : ApiToken) : ApiToken :=
  {| token_id := token_id t; token_user := token_user t; token_name := token_name t; token_hash := token_hash t;
     token_prefix := token_prefix t; token_scopes := token_scopes t; token_expires_at := token_expires_at t;
     token_revoked := token_revoked t; repo_selector := Some selector;
     repository_restricted := repository_restricted t; token_repositories := token_repositories t;
     created_by_user_id := created_by_user_id t; token_description := token_description t |}.

Definition set_restricted (pins : list Uuid) (t : ApiToken) : ApiToken :=
  {| token_id := token_id t; token_user := token_user t; token_name := token_name t; token_hash := token_hash t;
     token_prefix := token_prefix t; token_scopes := token_scopes t; token_expires_at := token_expires_at t;
     token_revoked := token_revoked t; repo_selector := repo_selector t; repository_restricted := true;
     token_repositories := token_repositories t ++ pins; created_by_user_id := created_by_user_id t;
     token_description := token_description t |}.

Definition set_creator (u : Uuid) (description : option string) (t : ApiToken) : ApiToken :=
  {| token_id := token_id t; token_user := token_user t; token_name := token_name t; token_hash := token_hash t;
     token_prefix := token_prefix t; token_scopes := token_scopes t; token_expires_at := token_expires_at t;
     token_revoked := token_revoked t; repo_selector := repo_selector t;
     repository_restricted := repository_restricted t; token_repositories := token_repositories t;
     created_by_user_id := Some u; token_description := description |}.

Definition store_token_selector (c : MintContext) (i : Uuid) (selector : Json) : M unit :=
  execute (mint_fails c UpdateSelector) (update_token i (set_selector selector)).

Definition store_optional (c : MintContext) (i : Uuid) (selector : option Json) : M unit :=
  match selector with Some s => store_token_selector c i s | None => ret tt end.

Fixpoint pin_repositories (c : MintContext) (i : Uuid) (repo_ids : list Uuid) : M unit :=
  match repo_ids with
  | [] => ret tt
  | r :: repo_ids =>
      let! _ := execute (mint_fails c InsertPin) (update_token i (set_restricted [r])) in
      pin_repositories c i repo_ids
  end.

(** * The handlers *)

Section Handlers.
Context `{UuidText} `{Postgres}.

Record CreateApiTokenRequest := {
  request_name : string;
  request_scopes : list string;
  request_expires : option Z;
  request_selector : option Json
}.

(** [POST /api/v1/auth/tokens]. *)
Definition create_api_token (c : MintContext) (auth : AuthExtension) (p : CreateApiTokenRequest) : M MintedApiToken :=
  let! _ := check_with Authorization (enforce_admin_only_scopes (request_scopes p) (is_admin auth)) in
  let! _ := lift (enforce_mint_ceiling auth (request_scopes p)) in
  let! _ := refuse_ci_account_mint c (ext_user_id auth) in
  let! _ := lift (match request_selector p with Some s => validate_token_repo_selector s | None => Ok tt end) in
  let! inherited := lift (mint_repo_ceiling auth (bool_decide (is_Some (request_selector p)))) in
  let selector := match inherited with Some ids => Some (inherited_token_selector ids) | None => request_selector p end in
  let! minted := generate_api_token_with_policy c (ext_user_id auth) (request_name p) (request_scopes p) (request_expires p) in
  let! _ := store_optional c (minted_id minted) selector in
  ret minted.

(** [POST /api/v1/profile/access-tokens]. *)
Definition create_access_token (c : MintContext) (auth : AuthExtension) (name : string)
  (requested : option (list string)) (expires : option Z) : M MintedApiToken :=
  let scopes := default ["read:artifacts"] requested in
  let! _ := check_with Authorization (enforce_admin_only_scopes scopes (is_admin auth)) in
  let! _ := lift (enforce_mint_ceiling auth scopes) in
  let! _ := refuse_ci_account_mint c (ext_user_id auth) in
  let! inherited := lift (mint_repo_ceiling auth false) in
  let! minted := generate_api_token_with_policy c (ext_user_id auth) name scopes expires in
  let! _ := store_optional c (minted_id minted) (inherited_token_selector <$> inherited) in
  ret minted.

(** [POST /api/v1/users/:id/tokens] and [POST /api/v1/users/me/tokens]. *)
Definition create_api_token_inner (c : MintContext) (auth : AuthExtension) (u : Uuid) (name : string)
  (scopes : list string) (expires : option Z) : M MintedApiToken :=
  let! _ := check_with Authorization (enforce_admin_only_scopes scopes (is_admin auth)) in
  let! _ := lift (enforce_mint_ceiling auth scopes) in
  let! inherited := lift (mint_repo_ceiling auth false) in
  let! minted := generate_api_token_with_policy c u name scopes expires in
  let! _ := store_optional c (minted_id minted) (inherited_token_selector <$> inherited) in
  ret minted.

Definition create_user_api_token (c : MintContext) (auth : AuthExtension) (u : Uuid) (name : string)
  (scopes : list string) (expires : option Z) : M MintedApiToken :=
  let! _ := lift (require_self_or_admin auth u "Cannot create tokens for other users") in
  create_api_token_inner c auth u name scopes expires.

Definition create_current_user_api_token (c : MintContext) (auth : AuthExtension) (name : string)
  (scopes : list string) (expires : option Z) : M MintedApiToken :=
  create_api_token_inner c auth (ext_user_id auth) name scopes expires.

(** [POST /api/v1/repositories/:key/tokens]. *)
Definition delegated_scope_repo_action (scope : string) : option string :=
  if scope =? "write:artifacts" then Some "write"
  else if scope =? "write:repositories" then Some "admin"
  else None.

Definition require_delegatable_scopes (c : MintContext) (auth : AuthExtension) (r : Uuid) (scopes : list string) : M unit :=
  if is_admin auth then ret tt
  else
    let needs (action : string) := existsb (fun s => bool_decide (delegated_scope_repo_action s = Some action)) scopes in
    let required_action := if needs "admin" then Some "admin" else if needs "write" then Some "write" else None in
    match required_action with
    | None => ret tt
    | Some action =>
        let! holds := gets (fun db => check_repository_action (mint_fails c SelectAction) db (mint_ip c)
                                        (ext_user_id auth) r action (is_admin auth)) in
        if holds : bool then ret tt
        else lift (Err (Authorization
          ("Minting a token with the requested scopes requires the repository '" +:+ action +:+
           "' action; a repo-scoped token cannot delegate access you do not hold")))
    end.

Definition require_repo_write (auth : option AuthExtension) : result AppError AuthExtension :=
  let? auth := ok_or auth (Authentication "Authentication required") in
  if is_admin auth then Ok auth else let? _ := require_scope auth "write:repositories" in Ok auth.

Definition repository_not_found (k : string) : AppError := NotFound ("Repository '" +:+ k +:+ "' not found").

Definition authorize_repo_for_tokens (c : MintContext) (auth : option AuthExtension) (k : string)
  : M (AuthExtension * CachedRepo) :=
  let! auth := lift (require_repo_write auth) in
  let! row := select (mint_fails c SelectRepository) (fun db => find_repository_by_key db k) in
  let! row := lift (ok_or row (NotFound "Repository not found")) in
  let repo := columns row in
  if negb (can_access_repo auth (id repo)) then lift (Err (repository_not_found k))
  else if allows_anonymous_read (visibility repo) || is_admin auth then ret (auth, repo)
  else
    let! ok := gets (fun db => user_can_access_repo (mint_fails c SelectTenant) None db (mint_ip c) (id repo)
                                 (ext_user_id auth) TenantOnly) in
    if ok : bool then ret (auth, repo) else lift (Err (repository_not_found k)).

Definition validate_expiry_days (days : option Z) : result AppError unit :=
  match days with
  | Some d =>
      if (1 <=? d)%Z && (d <=? 365)%Z then Ok tt
      else Err (Validation "Token expiration must be between 1 and 365 days")
  | None => Ok tt
  end.

Definition create_repo_token (c : MintContext) (auth : option AuthExtension) (k name : string) (scopes : list string)
  (expires : option Z) (description : option string) : M MintedApiToken :=
  let! (auth, repo) := authorize_repo_for_tokens c auth k in
  let! _ := check_with Validation (validate_scopes_pure scopes) in
  let! _ := lift (validate_expiry_days expires) in
  let! _ := lift (if is_empty (trim name) then Err (Validation "Token name must not be empty") else Ok tt) in
  let! _ := check_with Authorization (enforce_admin_only_scopes scopes (is_admin auth)) in
  let! _ := require_delegatable_scopes c auth (id repo) scopes in
  let! _ := lift (enforce_mint_ceiling auth scopes) in
  let! _ := refuse_ci_account_mint c (ext_user_id auth) in
  let! minted := generate_api_token_with_policy c (ext_user_id auth) name scopes expires in
  let! _ := execute (mint_fails c UpdateRestricted) (update_token (minted_id minted) (set_restricted [])) in
  let! _ := pin_repositories c (minted_id minted) [id repo] in
  let! _ := execute (mint_fails c UpdateCreator)
    (update_token (minted_id minted) (set_creator (ext_user_id auth) description)) in
  ret minted.

(** [POST /api/v1/service-accounts/:id/tokens]. *)
Record CreateTokenRequest := {
  sa_name : string;
  sa_scopes : list string;
  sa_expires : option Z;
  sa_description : option string;
  sa_selector : option Json;
  sa_repository_ids : option (list Uuid)
}.

Definition validate_create_token_exclusivity (selector : option Json) (ids : option (list Uuid)) : result AppError unit :=
  match selector, ids with
  | Some _, Some _ => Err (Validation "Cannot specify both repo_selector and repository_ids")
  | _, _ => Ok tt
  end.

Definition is_service_account_row (i : Uuid) (u : User) : bool :=
  bool_decide (user_id u = i) && user_is_service_account u.

Definition create_token (c : MintContext) (auth : AuthExtension) (u : Uuid) (p : CreateTokenRequest) : M MintedApiToken :=
  let! _ := lift (require_admin auth) in
  let! _ := lift (validate_create_token_exclusivity (sa_selector p) (sa_repository_ids p)) in
  let! _ := lift (match sa_selector p with Some s => validate_token_repo_selector s | None => Ok tt end) in
  let! _ := lift (match sa_repository_ids p with
    | Some [] => Err (Validation ("repository_ids names no repositories; list at least one, or omit it for an " +:+
                                  "unrestricted token"))
    | _ => Ok tt end) in
  let! inherited := lift (mint_repo_ceiling auth
    (bool_decide (is_Some (sa_selector p)) || bool_decide (is_Some (sa_repository_ids p)))) in
  let! account := select (mint_fails c SelectServiceAccount) (fun db => List.find (is_service_account_row u) (users db)) in
  let! _ := lift (ok_or account (NotFound "Service account not found")) in
  let! minted := generate_api_token_with_policy c u (sa_name p) (sa_scopes p) (sa_expires p) in
  let! _ :=
    (match inherited, sa_selector p, sa_repository_ids p with
     | Some ids, _, _ => store_token_selector c (minted_id minted) (inherited_token_selector ids)
     | None, Some s, _ => store_token_selector c (minted_id minted) s
     | None, None, Some ids =>
         let! _ := execute (mint_fails c UpdateRestricted) (update_token (minted_id minted) (set_restricted [])) in
         pin_repositories c (minted_id minted) ids
     | None, None, None => ret tt
     end) in
  let! _ := execute (mint_fails c UpdateCreator)
    (update_token (minted_id minted) (set_creator (ext_user_id auth) (sa_description p))) in
  ret minted.

End Handlers.
