(* ===== verification/AccessSamples.v ===== *)
(** Concrete tables: an administrator, two users and a private repository of a
    project, with a CIDR test and ids written in unary, for the examples and
    witnesses of access control. *)

From stdpp Require Import base list gmap strings option.
From Stdlib Require Import ZArith Ascii.
From S2P Require Import Prelude RustStr Repository Errors ClientIp RateLimit AccessDb Auth Permission Tokens.

Local Open Scope Z_scope.
Local Open Scope string_scope.
Local Open Scope list_scope.

#[local] Instance cidr_postgres : Postgres :=
  {| inet_within ip s := match cidr_parse s with Ok c => cidr_contains c ip | Err _ => false end |}.

Fixpoint unary (n : nat) : string := match n with O => "" | S n => String "1" (unary n) end.

#[local] Instance unary_crate : UuidCrate := {| uuid_display i := unary (N.to_nat i) |}.
#[local] Instance unary_uuids : UuidText :=
  {| uuid_crate := unary_crate; uuid_parse s := Some (N.of_nat (String.length s)) |}.

Lemma unary_round i : uuid_parse (uuid_display i) = Some i.
Proof.
  simpl. assert (forall n, String.length (unary n) = n) as -> by (induction n; simpl; congruence).
  by rewrite N2Nat.id.
Qed.

Definition repo_columns (i : Uuid) (v : RepositoryVisibility) : CachedRepo :=
  {| id := i; format := "npm"; repo_type := "local"; upstream_url := None; storage_path := "/data"; storage_backend := "filesystem";
     visibility := v; index_upstream_url := None; promotion_only := false; age_gate_enabled := false;
     age_gate_min_age_days := 0; age_gate_mode := "off"; curation_enabled := false; curation_default_action := "allow" |}.

Definition sample_user (i : Uuid) (name : string) (admin : bool) (p : AuthProvider) : User :=
  {| user_id := i; user_username := name; user_email := ""; user_is_admin := admin; user_is_active := true;
     user_is_service_account := false; user_auth_provider := p |}.

(** An administrator (1), a reader (2), a stranger (3) and a private repository
    (10) in a project (20). *)
Definition sample_db (rules : list PermissionRule) (assignments : list RoleAssignment) : AccessDb :=
  {| users := [sample_user 1 "root" true LocalProvider; sample_user 2 "reader" false LocalProvider;
               sample_user 3 "stranger" false LocalProvider];
     groups := []; user_group_members := [];
     repositories := [{| key := "private"; project_id := Some 20%N; columns := repo_columns 10 Private |}];
     repository_labels := []; roles := [{| role_id := 30; role_permissions := ["write"] |};
                                         {| role_id := 31; role_permissions := ["read"; "write"] |}];
     role_assignments := assignments; permissions := rules; api_tokens := []; download_tickets := [];
     system_settings := [] |}%N.

Definition user_rule (i u r : Uuid) (acts : list string) : PermissionRule :=
  {| rule_id := i; principal_type := "user"; principal_id := u; target_type := "repository"; target_id := r;
     actions := acts; conditions := no_conditions |}.

Definition session (u : Uuid) (name : string) (admin : bool) : AuthExtension :=
  ext_of_user (sample_user u name admin LocalProvider).

Definition fresh_service : PermissionService :=
  {| cache := ∅; rules_cache := ∅; cache_poisoned := false; rules_poisoned := false |}.
