(* ===== verification/PermissionFacts.v ===== *)
(** What the permission service promises: the decision is scoped to the
    principal, the REST gate is the action check, the rules written through
    the administration stay well formed, an answer from the cache is at most
    the time to live and one query old, and a query in flight brings a revoked
    grant back. *)

From stdpp Require Import base list strings option gmap relations.
From Stdlib Require Import ZArith Lia.
From S2P Require Import Prelude RustStr Repository Errors ClientIp Chrono RateLimit AccessDb Auth Permission Tokens AccessSamples.

Local Open Scope string_scope.
Local Open Scope list_scope.
Local Open Scope result_scope.

(** * Decisions *)

Section Decisions.
Context `{Postgres}.

Lemma elem_assigned db u r ps : ps ∈ assigned_roles db u r -> has_assignment db u r = true.
Proof.
  unfold assigned_roles, has_assignment. intros (ra & _ & Hra)%list_elem_of_bind.
  apply list_elem_of_filter in Hra as [[Hu Hr] Hin]. apply existsb_exists. exists ra. split; [by apply list_elem_of_In|].
  rewrite bool_decide_eq_true_2 by done. destruct Hr as [-> | ->]; simpl; [|done]. by apply bool_decide_eq_true_2.
Qed.

Lemma elem_applicable db ip u r p : p ∈ applicable_rules db ip u r <->
  p ∈ permissions db /\ names_principal db u p = true /\ on_repository db r p = true /\ ip_condition_expr ip p = true.
Proof.
  unfold applicable_rules. rewrite list_elem_of_filter, !andb_true_iff. naive_solver.
Qed.

(** ** The decision, stated apart from the queries *)

(** A rule names a user directly or through a group the user is a member of. *)
Inductive Names (db : AccessDb) (u : Uuid) (p : PermissionRule) : Prop :=
| names_user : principal_type p = "user" -> principal_id p = u -> Names db u p
| names_service_account : principal_type p = "service_account" -> principal_id p = u -> Names db u p
| names_group : principal_type p = "group" -> (u, principal_id p) ∈ user_group_members db -> Names db u p.

(** It is about a repository, or about the project the repository is in. *)
Inductive Covers (db : AccessDb) (r : Uuid) (p : PermissionRule) : Prop :=
| covers_repository : target_type p = "repository" -> target_id p = r -> Covers db r p
| covers_project row : target_type p = "project" -> find_repository db r = Some row ->
    project_id row = Some (target_id p) -> Covers db r p.

(** It has no condition, or the verified address is in one of its ranges. *)
Inductive Admits (ip : option IpAddr) (p : PermissionRule) : Prop :=
| admits_any : allowed_cidrs (conditions p) = None -> Admits ip p
| admits_range a ranges range : ip = Some a -> allowed_cidrs (conditions p) = Some ranges -> range ∈ ranges ->
    inet_within a range = true -> Admits ip p.

Definition Governs (db : AccessDb) (ip : option IpAddr) (u r : Uuid) (p : PermissionRule) : Prop :=
  p ∈ permissions db /\ Names db u p /\ Covers db r p /\ Admits ip p.

(** A role assigned on the repository or everywhere has the permission. *)
Definition RoleGives (db : AccessDb) (u r : Uuid) (action : string) : Prop :=
  exists ra role, ra ∈ role_assignments db /\ ra_user ra = u /\ (ra_repository ra = Some r \/ ra_repository ra = None) /\
    role ∈ roles db /\ role_id role = ra_role ra /\ action ∈ role_permissions role.

Lemma names_spec db u p : names_principal db u p = true <-> Names db u p.
Proof.
  unfold names_principal, in_group. rewrite orb_true_iff, !andb_true_iff, !bool_decide_eq_true, one_of_true, String.eqb_eq.
  rewrite !elem_of_cons. split.
  - intros [[[?|[?|?%elem_of_nil]] ?]|[? ?]]; [by apply names_user|by apply names_service_account|done|by apply names_group].
  - intros []; tauto.
Qed.

Lemma covers_spec db r p : on_repository db r p = true <-> Covers db r p.
Proof.
  unfold on_repository, in_project, project_of.
  rewrite orb_true_iff, !andb_true_iff, !bool_decide_eq_true, !String.eqb_eq, bind_Some. split.
  - intros [[? ?]|(? & row & ? & ?)]; [by apply covers_repository|by eapply covers_project].
  - intros [|row]; [tauto|]. right. eauto.
Qed.

Lemma admits_spec ip p : ip_condition_expr ip p = true <-> Admits ip p.
Proof.
  unfold ip_condition_expr. split.
  - destruct (allowed_cidrs (conditions p)) as [ranges|] eqn:E; [|by left].
    destruct ip as [a|]; [|done]. intros (range & Hin & Hw)%existsb_exists. eapply admits_range; try done.
    by apply list_elem_of_In.
  - intros [E|a ranges range -> E Hin Hw]; rewrite E; [done|]. apply existsb_exists. exists range.
    split; [by apply list_elem_of_In|done].
Qed.

Lemma governs_spec db ip u r p : p ∈ applicable_rules db ip u r <-> Governs db ip u r p.
Proof. by rewrite elem_applicable, names_spec, covers_spec, admits_spec. Qed.

Lemma roles_spec db u r (f : list string -> bool) : existsb f (assigned_roles db u r) = true <->
  exists ra role, ra ∈ role_assignments db /\ ra_user ra = u /\ (ra_repository ra = Some r \/ ra_repository ra = None) /\
    role ∈ roles db /\ role_id role = ra_role ra /\ f (role_permissions role) = true.
Proof.
  unfold assigned_roles. rewrite existsb_exists. split.
  - intros (ps & (ra & Hps & Hra)%list_elem_of_In%list_elem_of_bind & Hf).
    apply list_elem_of_filter in Hra as [[Hu Hr] Hra]. apply list_elem_of_fmap in Hps as (role & -> & Hrole).
    apply list_elem_of_filter in Hrole as [Hid Hrole]. eauto 10.
  - intros (ra & role & Hra & Hu & Hr & Hrole & Hid & Hf). exists (role_permissions role). split; [|done].
    apply list_elem_of_In, list_elem_of_bind. exists ra. split.
    + apply list_elem_of_fmap. exists role. split; [done|]. by apply list_elem_of_filter.
    + by apply list_elem_of_filter.
Qed.

Lemma roles_carry db u r action : existsb (carries action) (assigned_roles db u r) = true <->
  RoleGives db u r action \/ RoleGives db u r "admin".
Proof.
  rewrite roles_spec. unfold RoleGives, carries. setoid_rewrite orb_true_iff. setoid_rewrite one_of_true. naive_solver.
Qed.

Lemma roles_admin db u r : existsb (one_of "admin") (assigned_roles db u r) = true <-> RoleGives db u r "admin".
Proof. rewrite roles_spec. unfold RoleGives. by setoid_rewrite one_of_true. Qed.

Lemma repository_action_spec db ip u r action : repository_action db ip u r action = true <->
  RoleGives db u r "admin" \/
  (exists p, Governs db ip u r p /\ (action ∈ actions p \/ "admin" ∈ actions p)) \/
  ((forall p, ~ Governs db ip u r p) /\ RoleGives db u r action).
Proof.
  unfold repository_action. rewrite orb_true_iff, roles_admin. setoid_rewrite <- governs_spec.
  destruct (applicable_rules db ip u r) as [|q rules] eqn:E.
  - rewrite roles_carry. setoid_rewrite elem_of_nil. naive_solver.
  - rewrite existsb_exists. setoid_rewrite <- list_elem_of_In. unfold carries. setoid_rewrite orb_true_iff.
    setoid_rewrite one_of_true. split; [naive_solver|]. intros [?|[?|[Hno _]]]; [by left|by right|].
    exfalso. apply (Hno q). left.
Qed.

(** C6. What a principal may do on a repository, exactly, and by which rules.  An
    administrator may do everything; another principal may do an action when a
    role assigned to it there or everywhere has [admin], when a rule that names
    it - directly or through one of its groups -, covers the repository or its
    project and admits the verified address carries the action or [admin], and,
    only where no such rule exists, when one of those roles has the action.
    Rules that name others or cover other repositories, their order and their
    repetition do not matter: two rule tables with the same rules for the
    principal and the repository give the same answer.  A statement that fails
    denies with the error of the database. *)
Theorem rules_are_principal_scoped (db : AccessDb) (ip : option IpAddr) (u r : Uuid) (action : string) :
  (check_repository_action None db ip u r action false = Ok true <->
     RoleGives db u r "admin" \/
     (exists p, Governs db ip u r p /\ (action ∈ actions p \/ "admin" ∈ actions p)) \/
     ((forall p, ~ Governs db ip u r p) /\ RoleGives db u r action)) /\
  (forall rules, (forall p, Names db u p -> Covers db r p -> (p ∈ rules <-> p ∈ permissions db)) ->
     check_repository_action None (set_permissions (fun _ => rules) db) ip u r action false =
     check_repository_action None db ip u r action false) /\
  (forall fault, check_repository_action fault db ip u r action true = Ok true) /\
  (forall e, check_repository_action (Some e) db ip u r action false = Err (Database e)).
Proof.
  split_and!; [|intros rules Hsame|done|done].
  - unfold check_repository_action, query. rewrite <- repository_action_spec.
    destruct (repository_action db ip u r action); naive_solver.
  - unfold check_repository_action, query. f_equal. apply eq_true_iff_eq. rewrite !repository_action_spec.
    assert (forall p, Governs (set_permissions (fun _ => rules) db) ip u r p <-> Governs db ip u r p) as Hg.
    { intros p. split; intros (Hp & Hn & Hc & Ha).
      - assert (Names db u p) by (destruct Hn; [by apply names_user|by apply names_service_account|by apply names_group]).
        assert (Covers db r p) by (destruct Hc as [|row]; [by apply covers_repository|by apply (covers_project db r p row)]).
        split_and!; [by apply Hsame|done..].
      - split_and!; [by apply Hsame| | |done].
        + destruct Hn; [by apply names_user|by apply names_service_account|by apply names_group].
        + destruct Hc as [|row]; [by apply covers_repository|by apply (covers_project _ r p row)]. }
    setoid_rewrite Hg. done.
Qed.

Lemma carries_nonempty action l : carries action l = true -> l <> [].
Proof. by intros H' ->. Qed.

(** A grant of an action is a grant. *)
Lemma action_has_grant db ip u r action : repository_action db ip u r action = true ->
  has_assignment db u r || permissions_grant_exists db ip u r = true.
Proof.
  intros Hact. apply orb_true_iff. unfold repository_action in Hact. apply orb_true_iff in Hact as [Hr|Hact].
  - left. apply existsb_exists in Hr as (ps & Hin%list_elem_of_In & _). by eapply elem_assigned.
  - destruct (applicable_rules db ip u r) as [|q rules] eqn:E.
    + left. apply existsb_exists in Hact as (ps & Hin%list_elem_of_In & _). by eapply elem_assigned.
    + right. rewrite <- E in Hact. apply existsb_exists in Hact as (p & Hin & Hc). apply list_elem_of_In in Hin.
      apply elem_applicable in Hin as (Hp & Hn & Ho & Hi). apply existsb_exists. exists p.
      split; [by apply list_elem_of_In|]. rewrite Hn, Ho, Hi. apply carries_nonempty in Hc.
      by rewrite bool_decide_eq_false_2.
Qed.

(** The tenant half of [user_can_access_repo] decides nothing once an
    action is asked for: whoever may do the action holds a grant, so the gate
    answers what [check_repository_action] answers. *)
Theorem tenant_half_redundant (db : AccessDb) (ip : option IpAddr) (r u : Uuid) (action : string) :
  user_can_access_repo None None db ip r u (Action action) = check_repository_action None db ip u r action false.
Proof.
  unfold user_can_access_repo, check_repository_action. simpl.
  destruct (has_assignment db u r || permissions_grant_exists db ip u r) eqn:E; [done|]. simpl.
  destruct (repository_action db ip u r action) eqn:Ea; [|done]. apply action_has_grant in Ea. congruence.
Qed.

Lemma on_target_repository db r p : on_target db "repository" r p = on_repository db r p.
Proof. done. Qed.

(** The cached fast path answers no more than the decision. *)
Lemma granted_action_allowed db ip u r action asked :
  one_of asked (granted_actions db ip u "repository" r) = true -> asked = action \/ asked = "admin" ->
  repository_action db ip u r action = true.
Proof.
  intros Hin%one_of_true Hasked. unfold granted_actions in Hin. rewrite elem_of_remove_dups in Hin.
  apply list_elem_of_In, in_flat_map in Hin as (p & Hp%list_elem_of_In & Ha%list_elem_of_In).
  assert (p ∈ applicable_rules db ip u r) as Happ by exact Hp.
  unfold repository_action. apply orb_true_iff. right.
  destruct (applicable_rules db ip u r) as [|q rules] eqn:E; [by apply not_elem_of_nil in Happ|]. rewrite <- E in *.
  apply existsb_exists. exists p. split; [by apply list_elem_of_In|]. unfold carries.
  apply orb_true_iff. destruct Hasked as [<- | ->]; [left|right]; by apply one_of_true.
Qed.

End Decisions.

(** * Freshness of the cache *)

Section Cache.
Context `{Postgres}.

(** The service with its database, the queries in flight with the instants
    they read at, and the versions of the tables a query has read. *)
Record System := {
  sdb : AccessDb;
  ssvc : PermissionService;
  clock : Instant;
  inflight : list (CacheKey * list string * Instant);
  read : list (Instant * AccessDb)
}.

Definition answer (db : AccessDb) (k : CacheKey) : list string :=
  granted_actions db (ck_ip k) (ck_user k) (ck_target_type k) (ck_target k).

(** One step: any statement of any component, the clock, a query, the write of
    its answer at most [latency] later, the invalidation. *)
Inductive step (latency : Z) : System -> System -> Prop :=
| step_db s f :
    step latency s {| sdb := f (sdb s); ssvc := ssvc s; clock := clock s; inflight := inflight s; read := read s |}
| step_tick s d : (0 <= d)%Z ->
    step latency s {| sdb := sdb s; ssvc := ssvc s; clock := (clock s + d)%Z; inflight := inflight s; read := read s |}
| step_query s k : cache_lookup (ssvc s) (clock s) k = None ->
    step latency s {| sdb := sdb s; ssvc := ssvc s; clock := clock s;
      inflight := (k, answer (sdb s) k, clock s) :: inflight s; read := (clock s, sdb s) :: read s |}
| step_store s k actions t l1 l2 : inflight s = l1 ++ (k, actions, t) :: l2 -> (clock s - t <= latency)%Z ->
    step latency s {| sdb := sdb s; ssvc := cache_store (ssvc s) (clock s) k actions; clock := clock s;
      inflight := l1 ++ l2; read := read s |}
| step_invalidate s :
    step latency s {| sdb := sdb s; ssvc := invalidate_cache (ssvc s); clock := clock s; inflight := inflight s;
      read := read s |}.

(** The answer was the database's at an instant a query read at. *)
Definition was_answer (s : System) (k : CacheKey) (actions : list string) (t : Instant) : Prop :=
  exists db, (t, db) ∈ read s /\ actions = answer db k.

Record system_ok (latency : Z) (s : System) : Prop := {
  inflight_ok : forall k actions t, (k, actions, t) ∈ inflight s -> was_answer s k actions t /\ (t <= clock s)%Z;
  entries_ok : forall k e, cache (ssvc s) !! k = Some e ->
    exists t, was_answer s k (entry_actions e) t /\
      (t <= inserted_at e <= clock s)%Z /\ (inserted_at e - t <= latency)%Z
}.

Lemma store_lookup svc now k actions k' e :
  cache (cache_store svc now k actions) !! k' = Some e ->
  (k' = k /\ e = {| entry_actions := actions; inserted_at := now |}) \/ cache svc !! k' = Some e.
Proof.
  simpl. intros [[-> <-]|[_ He]]%lookup_insert_Some; [by left|]. right.
  by apply map_lookup_filter_Some in He as [He _].
Qed.

Lemma step_preserves latency s s' : step latency s s' -> system_ok latency s -> system_ok latency s'.
Proof.
  intros Hstep [Hin Hent]. destruct Hstep as [s f|s d Hd|s k Hmiss|s k actions t l1 l2 Hfl Hlat|s]; split; simpl.
  - exact Hin.
  - exact Hent.
  - intros k actions t H'. destruct (Hin _ _ _ H'). split; [done|lia].
  - intros k e He. destruct (Hent k e He) as (t & Hw & Ht & Hl). exists t. split_and!; [done|lia|lia|lia].
  - intros k' actions t [[= -> -> ->]|H']%elem_of_cons; [|destruct (Hin _ _ _ H') as [(db & Hdb & ->) Ht]].
    + split; [|lia]. exists (sdb s). split; [by left|done].
    + split; [|done]. exists db. split; [by right|done].
  - intros k' e He. destruct (Hent k' e He) as (t & (db & Hdb & Ha) & Ht). exists t.
    split; [|done]. exists db. split; [by right|done].
  - intros k' actions' t' H'. apply Hin. rewrite Hfl. set_solver.
  - intros k' e [[-> ->]|He]%store_lookup; [|exact (Hent k' e He)].
    destruct (Hin k actions t) as [Hw Ht]; [rewrite Hfl; set_solver|]. exists t. simpl. split_and!; [done|lia..].
  - exact Hin.
  - intros k e. by rewrite lookup_empty.
Qed.

Definition start (db : AccessDb) (now : Instant) : System :=
  {| sdb := db; ssvc := {| cache := ∅; rules_cache := ∅; cache_poisoned := false; rules_poisoned := false |};
     clock := now; inflight := []; read := [] |}.

Lemma run_system_ok latency db now s : rtc (step latency) (start db now) s -> system_ok latency s.
Proof.
  intros Hrun. remember (start db now) as s0 eqn:E0. assert (system_ok latency s0) as H0.
  { subst. split; simpl; [by intros ??? ?%not_elem_of_nil|]. intros k e. by rewrite lookup_empty. }
  clear E0. induction Hrun as [|s1 s2 s3 Hstep _ IH]; [done|]. apply IH. by eapply step_preserves.
Qed.

(** An answer from the permission cache is never older than its time to
    live and one query: in every interleaving of queries, of their writes to
    the cache within [latency] of the read, of invalidations and of arbitrary
    changes of the tables, an answer at some instant is what the tables granted
    at an instant at most 30 seconds and [latency] before. *)
Theorem cached_answer_age (latency : Z) (db : AccessDb) (now : Instant) (s : System) (k : CacheKey) (actions : list string) :
  rtc (step latency) (start db now) s -> cache_lookup (ssvc s) (clock s) k = Some actions ->
  exists t, was_answer s k actions t /\ (clock s - CACHE_TTL - latency <= t <= clock s)%Z.
Proof.
  intros Hrun Hlook. destruct (run_system_ok _ _ _ _ Hrun) as [_ Hent].
  unfold cache_lookup in Hlook. destruct (cache_poisoned (ssvc s)); [done|].
  apply bind_Some in Hlook as (e & He & Hx). destruct (is_expired (clock s) e) eqn:Ex; [done|]. injection Hx as <-.
  destruct (Hent k e He) as (t & Hw & Ht & Hl). exists t. split; [done|].
  unfold is_expired, elapsed, duration_since, saturating_sub in Ex. apply Z.ltb_ge in Ex. lia.
Qed.

End Cache.

(** * The administration of the rules *)

Section Administration.
Context `{UuidCrate}.

Definition conditions_ok (c : PermissionConditions) : Prop :=
  match allowed_cidrs c with
  | None => True
  | Some cidrs => cidrs <> [] /\ forall cidr, cidr ∈ cidrs -> is_ok (cidr_parse cidr) = true
  end.

Definition anonymous_ok (p : PermissionRule) : Prop :=
  principal_type p = ANONYMOUS_PRINCIPAL_TYPE ->
  principal_id p = NIL_UUID /\ target_type p ∈ ["repository"; "project"] /\ forall a, a ∈ actions p -> a = "read".

Definition rule_ok (p : PermissionRule) : Prop :=
  principal_type p ∈ ["user"; "service_account"; "group"; "anonymous"] /\ anonymous_ok p /\ conditions_ok (conditions p).

Record rules_ok (db : AccessDb) : Prop := {
  each_ok : Forall rule_ok (permissions db);
  grants_unique : NoDup (grant_of <$> permissions db);
  ids_unique : NoDup (rule_id <$> permissions db)
}.

Lemma validate_conditions_ok c : validate_conditions c = Ok tt -> conditions_ok c.
Proof.
  unfold validate_conditions, conditions_ok. destruct (allowed_cidrs c) as [[|cidr cidrs]|]; [done| |done].
  intros Hv. split; [done|]. revert Hv. generalize (cidr :: cidrs) as l.
  induction l as [|x l IH]; simpl; [by intros _ y ?%not_elem_of_nil|].
  destruct (cidr_parse x) eqn:E; [|done]. intros Hv y [->|Hy]%elem_of_cons; [by rewrite E|]. by apply IH.
Qed.

Lemma validate_principal_type fault db t i : validate_principal fault db t i = Ok tt ->
  t ∈ ["user"; "service_account"; "group"; "anonymous"] /\ (t = ANONYMOUS_PRINCIPAL_TYPE -> i = NIL_UUID).
Proof.
  unfold validate_principal, principal_existence_query, ANONYMOUS_PRINCIPAL_TYPE.
  destruct (String.eqb_spec t "anonymous") as [->|Hna].
  - case_bool_decide; [|done]. intros _. split; [set_solver|done].
  - destruct (String.eqb_spec t "user") as [->|]; [intros; split; [set_solver|done]|].
    destruct (String.eqb_spec t "service_account") as [->|]; [intros; split; [set_solver|done]|].
    destruct (String.eqb_spec t "group") as [->|]; [intros; split; [set_solver|done]|done].
Qed.

Lemma validate_anonymous_ok i p : validate_anonymous_rule p = Ok tt ->
  (req_principal_type p = ANONYMOUS_PRINCIPAL_TYPE -> req_principal_id p = NIL_UUID) -> anonymous_ok (rule_of i p).
Proof.
  unfold validate_anonymous_rule, anonymous_ok. simpl. intros Hv Hid Ht. rewrite Ht in Hv. simpl in Hv.
  destruct (_ && _) eqn:Et; [done|]. destruct (existsb _ _) eqn:Ea; [done|]. split_and!; [by apply Hid| |].
  - apply andb_false_iff in Et as [E%negb_false_iff|E%negb_false_iff]; apply String.eqb_eq in E; set_solver.
  - intros a Ha. destruct (String.eqb_spec a "read"); [done|]. apply not_true_iff_false in Ea. destruct Ea.
    apply existsb_exists. exists a. split; [by apply list_elem_of_In|]. by destruct (String.eqb_spec a "read").
Qed.

Lemma validated_ok fails db body p i : validated_payload fails db body = Ok p -> rule_ok (rule_of i p).
Proof.
  unfold validated_payload. destruct body as [q|e]; [|done].
  intros ([] & Hp & ([] & Hc & ([] & Ha & [= ->])%rbind_Ok)%rbind_Ok)%rbind_Ok.
  apply validate_principal_type in Hp as [Ht Hid]. split_and!; [done|by apply validate_anonymous_ok|].
  simpl. destruct (req_conditions p) as [c|]; [by apply validate_conditions_ok|done].
Qed.

Lemma no_clash (clashes : PermissionRule -> bool) l : existsb clashes l = false ->
  forall p, p ∈ l -> clashes p = false.
Proof.
  intros He p Hp. apply not_true_iff_false. intros Hc. apply not_true_iff_false in He. apply He, existsb_exists.
  exists p. by rewrite <- list_elem_of_In.
Qed.

Lemma insert_ok db row : rules_ok db -> rule_ok row -> existsb (insert_clashes row) (permissions db) = false ->
  rules_ok (set_permissions (fun l => l ++ [row]) db).
Proof.
  intros [He Hg Hi] Hrow Hc. pose proof (no_clash _ _ Hc) as Hn. clear Hc. rename Hn into Hc. split; simpl.
  - apply Forall_app. by rewrite Forall_singleton.
  - rewrite fmap_app. apply NoDup_app. split_and!; [done| |apply NoDup_singleton].
    intros g (p & -> & Hp)%list_elem_of_fmap Hin%list_elem_of_singleton. specialize (Hc p Hp).
    unfold insert_clashes in Hc. by rewrite (bool_decide_eq_true_2 (grant_of p = grant_of row)), orb_true_r in Hc.
  - rewrite fmap_app. apply NoDup_app. split_and!; [done| |apply NoDup_singleton].
    intros g (p & -> & Hp)%list_elem_of_fmap Hin%list_elem_of_singleton. specialize (Hc p Hp).
    unfold insert_clashes in Hc. by rewrite (bool_decide_eq_true_2 (rule_id p = rule_id row)) in Hc.
Qed.

Definition replace (row : PermissionRule) (l : list PermissionRule) : list PermissionRule :=
  (fun p => if bool_decide (rule_id p = rule_id row) then row else p) <$> l.

Lemma elem_replace row l p : p ∈ replace row l ->
  (p = row /\ rule_id row ∈ rule_id <$> l) \/ (p ∈ l /\ rule_id p <> rule_id row).
Proof.
  intros (q & -> & Hq)%list_elem_of_fmap. case_bool_decide as Hid; [left|by right].
  split; [done|]. rewrite <- Hid. by apply list_elem_of_fmap_2.
Qed.

Lemma replace_ids row l : rule_id <$> replace row l = rule_id <$> l.
Proof. induction l as [|p l IH]; [done|]. simpl. f_equal; [by case_bool_decide|done]. Qed.

Lemma clash_grant row p : update_clashes row p = false -> rule_id p <> rule_id row -> grant_of p <> grant_of row.
Proof. unfold update_clashes. intros Hc Hne Heq. by rewrite bool_decide_eq_false_2, bool_decide_eq_true_2 in Hc. Qed.

Lemma replace_grants row l : NoDup (grant_of <$> l) -> NoDup (rule_id <$> l) ->
  (forall p, p ∈ l -> update_clashes row p = false) -> NoDup (grant_of <$> replace row l).
Proof.
  induction l as [|p l IH]; [done|]. unfold replace in *. rewrite !fmap_cons, !NoDup_cons. intros [Hg Hgs] [Hi His] Hc.
  split; [|apply IH; [done..|]; intros; apply Hc; by right].
  intros (q & Heq & [[-> Hin]|[Hq Hne]]%elem_replace)%list_elem_of_fmap; case_bool_decide as Hid.
  - by rewrite <- Hid in Hin.
  - by apply (clash_grant row p); [apply Hc; left|..].
  - by apply (clash_grant row q); [apply Hc; right|..].
  - apply Hg. rewrite Heq. by apply list_elem_of_fmap_2.
Qed.

Lemma replace_ok db row : rules_ok db -> rule_ok row -> existsb (update_clashes row) (permissions db) = false ->
  rules_ok (set_permissions (replace row) db).
Proof.
  intros [He Hg Hi] Hrow Hc. pose proof (no_clash _ _ Hc) as Hn. split; simpl.
  - apply Forall_forall. intros p [[-> _]|[Hp _]]%elem_replace; [done|]. by eapply Forall_forall in He.
  - by apply replace_grants.
  - by rewrite replace_ids.
Qed.

Lemma delete_ok db i : rules_ok db -> rules_ok (set_permissions (base.filter (fun p => rule_id p <> i)) db).
Proof.
  intros [He Hg Hi]. split; simpl.
  - apply Forall_forall. intros p [_ Hp]%list_elem_of_filter. by eapply Forall_forall in He.
  - eapply sublist_NoDup; [done|]. by apply fmap_sublist, sublist_filter.
  - eapply sublist_NoDup; [done|]. by apply fmap_sublist, sublist_filter.
Qed.

(** The operations of the administration, as requests with the statements that
    fail while they run. *)
Inductive AdminOp :=
| Create (fails : Faults) (auth : option AuthExtension) (body : result string CreatePermissionRequest) (new_id : Uuid)
| Update (fails : Faults) (auth : option AuthExtension) (i : Uuid) (body : result string CreatePermissionRequest)
| Delete (fails : Faults) (auth : option AuthExtension) (i : Uuid).

Definition run_op (op : AdminOp) (st : AccessDb * PermissionService) : AccessDb * PermissionService :=
  let '(db, svc) := st in
  match op with
  | Create fails auth body new_id => let '(_, db, svc) := create_permission fails auth body new_id db svc in (db, svc)
  | Update fails auth i body => let '(_, db, svc) := update_permission fails auth i body db svc in (db, svc)
  | Delete fails auth i => let '(_, db, svc) := delete_permission fails auth i db svc in (db, svc)
  end.

Definition run_ops (ops : list AdminOp) (st : AccessDb * PermissionService) : AccessDb * PermissionService :=
  foldl (fun st op => run_op op st) st ops.

Definition caller (op : AdminOp) : option AuthExtension :=
  match op with Create _ auth _ _ | Update _ auth _ _ | Delete _ auth _ => auth end.

Definition administrator (auth : option AuthExtension) : Prop := exists ext, auth = Some ext /\ is_admin ext = true.

Lemma admin_scope_ok auth scope ext : require_admin_scope auth scope = Ok ext -> administrator auth.
Proof.
  unfold require_admin_scope, require_auth. destruct auth as [a|]; [|done]. simpl.
  intros ([] & _ & ([] & Ha & _)%rbind_Ok)%rbind_Ok. unfold require_admin in Ha. exists a. by destruct (is_admin a).
Qed.

Lemma write_rule_ok fault db clashes write db' : write_rule fault db clashes write = Ok db' ->
  existsb clashes (permissions db) = false /\ db' = set_permissions write db.
Proof. unfold write_rule. destruct fault; [done|]. destruct (existsb _ _); [done|]. by intros [= ->]. Qed.

(** What an operation does: nothing, or one well-formed write by an
    administrator, with the caches emptied. *)
Lemma run_op_effect op db svc : let '(db', svc') := run_op op (db, svc) in
  (db' = db /\ svc' = svc) \/
  (administrator (caller op) /\ svc' = invalidate_cache svc /\
   ((exists row, rule_ok row /\ existsb (insert_clashes row) (permissions db) = false /\
                 db' = set_permissions (fun l => l ++ [row]) db) \/
    (exists row, rule_ok row /\ existsb (update_clashes row) (permissions db) = false /\
                 db' = set_permissions (replace row) db) \/
    (exists i, db' = set_permissions (base.filter (fun p => rule_id p <> i)) db))).
Proof.
  destruct op as [fails auth body new_id|fails auth i body|fails auth i]; simpl.
  - unfold create_permission. destruct (rbind _ _) as [[row db']|e] eqn:E; [|by left]. right.
    apply rbind_Ok in E as (ext & Hext & (p & Hp & (db1 & [Hc ->]%write_rule_ok & [= <- <-])%rbind_Ok)%rbind_Ok).
    apply admin_scope_ok in Hext. apply (validated_ok _ _ _ _ new_id) in Hp. eauto 10.
  - unfold update_permission. destruct (rbind _ _) as [[row db']|e] eqn:E; [|by left]. right.
    apply rbind_Ok in E as (ext & Hext & (p & Hp & (before & _ & (q & _ & (db1 & [Hc ->]%write_rule_ok & [= <- <-])
      %rbind_Ok)%rbind_Ok)%rbind_Ok)%rbind_Ok).
    apply admin_scope_ok in Hext. apply (validated_ok _ _ _ _ i) in Hp. split_and!; [done..|].
    right. left. exists (rule_of i p). split_and!; [done..|]. done.
  - unfold delete_permission. destruct (rbind _ _) as [db'|e] eqn:E; [|by left]. right.
    apply rbind_Ok in E as (ext & Hext & (before & _ & (found & _ & (q & _ & [= <-])%rbind_Ok)%rbind_Ok)%rbind_Ok).
    apply admin_scope_ok in Hext. eauto 10.
Qed.

Lemma run_op_ok op db svc : rules_ok db -> rules_ok (fst (run_op op (db, svc))).
Proof.
  intros Hok. pose proof (run_op_effect op db svc) as He. destruct (run_op op (db, svc)) as [db' svc']. simpl.
  destruct He as [[-> _]|(_ & _ & [(row & Hr & Hc & ->)|[(row & Hr & Hc & ->)|(i & ->)]])]; [done|..].
  - by apply insert_ok.
  - by apply replace_ok.
  - by apply delete_ok.
Qed.

Lemma on_repository_type db r p : on_repository db r p = true -> target_type p ∈ ["repository"; "project"].
Proof.
  unfold on_repository, in_project. intros [[E%String.eqb_eq _]%andb_true_iff|[E%String.eqb_eq _]%andb_true_iff]%orb_true_iff;
    rewrite E; set_solver.
Qed.

Lemma anonymous_reads_only `{Postgres} db ip r action : rules_ok db -> action <> "read" ->
  check_anonymous_repository_action None db ip r action = Ok false.
Proof.
  intros [He _ _] Hne. unfold check_anonymous_repository_action. simpl. f_equal. apply not_true_iff_false.
  intros (p & Hp%list_elem_of_In & [Ha _]%andb_true_iff)%existsb_exists. eapply Forall_forall in He as (_ & Han & _); [|done].
  unfold anonymous_rule in Ha. rewrite !andb_true_iff in Ha. destruct Ha as [[Ht%String.eqb_eq _] Hc].
  destruct (Han Ht) as (_ & _ & Hread). unfold carries in Hc. apply orb_true_iff in Hc as [Hc%one_of_true|Hc%one_of_true].
  - by apply Hread in Hc.
  - by apply Hread in Hc.
Qed.

(** The rules the administration writes stay well formed, whoever sends
    which requests and whichever statements fail: a principal type is one of
    four, conditions are absent or name ranges that parse, a grant and an id
    are written once, and an anonymous rule grants [read] alone, on a
    repository or a project, so that no anonymous caller is ever allowed
    another action.  A request of anyone but an administrator changes neither
    the rules nor the caches. *)
Theorem administered_rules_ok `{Postgres} (ops : list AdminOp) (db : AccessDb) (svc : PermissionService) :
  rules_ok db ->
  let '(db', svc') := run_ops ops (db, svc) in
  rules_ok db' /\
  (forall ip r action, action <> "read" -> check_anonymous_repository_action None db' ip r action = Ok false) /\
  (Forall (fun op => ~ administrator (caller op)) ops -> db' = db /\ svc' = svc).
Proof.
  intros Hok. destruct (run_ops ops (db, svc)) as [db' svc'] eqn:E.
  enough (rules_ok db' /\ (Forall (fun op => ~ administrator (caller op)) ops -> db' = db /\ svc' = svc)) as [Hr Hn].
  { split_and!; [done| |done]. intros. by apply anonymous_reads_only. }
  revert db svc Hok E. induction ops as [|op ops IH]; intros db svc Hok E; [by injection E as <- <-|].
  change (run_ops ops (run_op op (db, svc)) = (db', svc')) in E. pose proof (run_op_effect op db svc) as He. pose proof (run_op_ok op db svc Hok) as Hok1.
  destruct (run_op op (db, svc)) as [db1 svc1]. destruct (IH db1 svc1 Hok1 E) as [Hr Hn]. split; [done|].
  intros [Hop Hops]%Forall_cons. destruct (Hn Hops) as [-> ->]. by destruct He as [|(Ha & _)].
Qed.

End Administration.

(** * Witnesses *)

#[local] Existing Instance cidr_postgres.
#[local] Existing Instance unary_crate.

Lemma rules_are_principal_scoped_witness :
  let db := sample_db [] [{| ra_user := 2; ra_role := 31; ra_repository := None |}]%N in
  let rules := [user_rule 7%N 3%N 10%N ["read"]] in
  check_repository_action None db None 2%N 10%N "write" false = Ok true /\
  check_repository_action None (set_permissions (fun _ => rules) db) None 2%N 10%N "write" false = Ok true /\
  check_repository_action None (set_permissions (fun _ => rules) db) None 3%N 10%N "read" false = Ok true.
Proof.
  intros db rules. destruct (rules_are_principal_scoped db None 2%N 10%N "write") as (Hexact & Hscope & _).
  assert (check_repository_action None db None 2%N 10%N "write" false = Ok true) as Hw.
  { apply Hexact. right. right. split; [by intros p (Hp%elem_of_nil & _)|].
    exists {| ra_user := 2; ra_role := 31; ra_repository := None |}%N, {| role_id := 31; role_permissions := ["read"; "write"] |}%N.
    split_and!; [left|done|by right|right; left|done|right; left]. }
  split_and!; [exact Hw| |].
  - rewrite Hscope; [exact Hw|]. intros p Hn Hc. split; [|by intros ?%elem_of_nil].
    intros Hp%list_elem_of_singleton. subst p. destruct Hn as [_ Hp|Ht _|Ht _]; discriminate.
  - refine (proj2 (proj1 (rules_are_principal_scoped (set_permissions (fun _ => rules) db) None 3%N 10%N "read")) _).
    right. left. exists (user_rule 7%N 3%N 10%N ["read"]). split; [|left; left].
    split_and!; [left|by apply names_user|by apply covers_repository|by apply admits_any].
Defined.

(** A query of the reader's actions is in flight while the administrator
    deletes the rule that grants them. *)
Definition reader_key : CacheKey := {| ck_user := 2; ck_target_type := "repository"; ck_target := 10; ck_ip := None |}%N.
Definition granted_db : AccessDb := sample_db [user_rule 7%N 2%N 10%N ["read"]] [].
Definition revoked_db : AccessDb := sample_db [] [].

Definition after_store (t : Instant) : System :=
  {| sdb := revoked_db; ssvc := cache_store fresh_service NANOS_PER_SEC reader_key ["read"]; clock := t;
     inflight := []; read := [(0%Z, granted_db)] |}.

Lemma race_run t : (NANOS_PER_SEC <= t)%Z -> rtc (step NANOS_PER_SEC) (start granted_db 0) (after_store t).
Proof.
  intros Ht.
  eapply rtc_l; [exact (step_query _ (start granted_db 0) reader_key eq_refl)|].
  eapply rtc_l; [exact (step_db _ _ (fun _ => revoked_db))|].
  eapply rtc_l; [apply step_invalidate|].
  eapply rtc_l; [apply (step_tick _ _ NANOS_PER_SEC); vm_compute; done|].
  eapply rtc_l; [apply (step_store _ _ reader_key ["read"] 0%Z [] []); [vm_compute; done|vm_compute; done]|].
  replace (after_store t) with
    {| sdb := revoked_db; ssvc := cache_store fresh_service NANOS_PER_SEC reader_key ["read"];
       clock := (NANOS_PER_SEC + (t - NANOS_PER_SEC))%Z; inflight := []; read := [(0%Z, granted_db)] |}.
  - apply rtc_once. apply (step_tick _ (after_store NANOS_PER_SEC)). lia.
  - unfold after_store. f_equal. lia.
Qed.

Lemma cached_answer_age_witness : exists t,
  was_answer (after_store (31 * NANOS_PER_SEC)) reader_key ["read"] t /\
  (31 * NANOS_PER_SEC - CACHE_TTL - NANOS_PER_SEC <= t <= 31 * NANOS_PER_SEC)%Z.
Proof.
  apply (cached_answer_age NANOS_PER_SEC granted_db 0 (after_store (31 * NANOS_PER_SEC)) reader_key ["read"]).
  - apply race_run. vm_compute. done.
  - vm_compute. reflexivity.
Defined.

(** Emptying the caches does not stop a query in flight: a reader's query
    reads the rule, the administrator deletes it, which answers Ok, empties the
    caches and leaves tables that grant the reader nothing, then the query's
    answer is written, and for thirty seconds from there the service answers
    that the reader may read. *)
Theorem revoked_grant_returns (t : Instant) : (NANOS_PER_SEC <= t <= NANOS_PER_SEC + CACHE_TTL)%Z ->
  delete_permission no_faults (Some (session 1%N "root" true)) 7%N granted_db fresh_service =
    (Ok tt, revoked_db, fresh_service) /\
  rtc (step NANOS_PER_SEC) (start granted_db 0) (after_store t) /\
  repository_action (sdb (after_store t)) None 2%N 10%N "read" = false /\
  answer (sdb (after_store t)) reader_key = [] /\
  fst (check_permission None (sdb (after_store t)) None t t (ssvc (after_store t)) 2%N "repository" 10%N "read" false) =
    Ok true.
Proof.
  intros Ht. split_and!; [vm_compute; reflexivity|apply race_run; lia|vm_compute; reflexivity|vm_compute; reflexivity|].
  unfold check_permission, resolve_actions, cache_lookup. simpl.
  rewrite lookup_insert_eq. simpl.
  replace (is_expired t _) with false; [done|]. symmetry. apply Z.ltb_ge. unfold elapsed, duration_since, saturating_sub.
  simpl. lia.
Qed.

Lemma revoked_grant_returns_witness :
  fst (check_permission None revoked_db None (31 * NANOS_PER_SEC) (31 * NANOS_PER_SEC)
         (ssvc (after_store (31 * NANOS_PER_SEC))) 2%N "repository" 10%N "read" false) = Ok true.
Proof. apply (revoked_grant_returns (31 * NANOS_PER_SEC)). vm_compute. split; discriminate. Defined.

Definition sample_request : CreatePermissionRequest :=
  {| req_principal_type := "anonymous"; req_principal_id := NIL_UUID; req_target_type := "repository";
     req_target_id := 10%N; req_actions := ["read"];
     req_conditions := Some {| allowed_cidrs := Some ["10.40.0.0/16"] |} |}.

Lemma administered_rules_ok_witness :
  let ops := [Create no_faults (Some (session 1%N "root" true)) (Ok sample_request) 8%N;
              Create no_faults (Some (session 2%N "reader" false)) (Ok sample_request) 9%N] in
  let '(db', svc') := run_ops ops (revoked_db, fresh_service) in
  length (permissions db') = 1%nat /\ rules_ok db' /\
  (forall ip r action, action <> "read" -> check_anonymous_repository_action None db' ip r action = Ok false) /\
  (Forall (fun op => ~ administrator (caller op)) ops -> db' = revoked_db /\ svc' = fresh_service).
Proof.
  split; [vm_compute; reflexivity|].
  apply (administered_rules_ok
    [Create no_faults (Some (session 1%N "root" true)) (Ok sample_request) 8%N;
     Create no_faults (Some (session 2%N "reader" false)) (Ok sample_request) 9%N] revoked_db fresh_service).
  split; simpl; constructor.
Defined.
