(* ===== verification/TokenFacts.v ===== *)
(** What tokens promise: a selector resolves to what its criteria say, a mint
    never hands on more than the minting credential holds, an expiration the
    policy demands is within its range, and where CI accounts are refused. *)

From stdpp Require Import base list strings option pretty.
From Stdlib Require Import ZArith Lia Ascii.
From S2P Require Import Prelude RustStr RustNum Repository Errors ClientIp Chrono RateLimit AccessDb Auth Permission Tokens AccessSamples.

Local Open Scope string_scope.
Local Open Scope list_scope.
Local Open Scope result_scope.

(** * Patterns *)

(** What a pattern with the wildcard [%] matches. *)
Inductive LikeMatch : string -> string -> Prop :=
| like_nil : LikeMatch "" ""
| like_char c p v : c <> "%"%char -> LikeMatch p v -> LikeMatch (String c p) (String c v)
| like_any p v v' : LikeMatch p v' -> LikeMatch (String "%" p) (v +:+ v').

Definition no_percent (s : string) : bool := str_all (fun c => negb (Ascii.eqb "%" c)) s.

Lemma like_literal a p v : no_percent a = true ->
  LikeMatch (a +:+ p) v <-> exists v', v = a +:+ v' /\ LikeMatch p v'.
Proof.
  revert v. induction a as [|c a IH]; intros v Ha; simpl.
  - split; [by eauto|by intros (v' & -> & ?)].
  - simpl in Ha. apply andb_true_iff in Ha as [Hc%negb_true_iff Ha].
    assert (c <> "%"%char) as Hne by (intros ->; by rewrite Ascii.eqb_refl in Hc). split.
    + inversion 1 as [|? ? v1 ? Hm|]; subst; [|done]. apply IH in Hm as (v' & -> & ?); [|done]. by eauto.
    + intros (v' & -> & ?). constructor; [done|]. apply IH; eauto.
Qed.

Lemma like_literal_only a v : no_percent a = true -> LikeMatch a v <-> v = a.
Proof.
  intros Ha. rewrite <- (append_nil_r a) at 1. rewrite like_literal by done. split.
  - intros (v' & -> & Hm). inversion Hm. by rewrite append_nil_r.
  - intros ->. exists "". by rewrite append_nil_r; repeat constructor.
Qed.

Lemma like_absorb p b v : LikeMatch (String "%" p) v -> LikeMatch (String "%" p) (b +:+ v).
Proof. inversion 1 as [|? ? ? Hne|? u u' Hm]; subst; [done|]. rewrite append_assoc. by constructor. Qed.

Lemma like_any_iff p v : LikeMatch (String "%" p) v <-> exists a v', v = a +:+ v' /\ LikeMatch p v'.
Proof.
  split; [|by intros (a & v' & -> & ?); constructor].
  inversion 1 as [|? ? ? Hne|? u u' Hm]; subst; [done|]. by eauto.
Qed.

(** The parts after the first wildcard, as a pattern. *)
Fixpoint wildcards (parts : list string) : string :=
  match parts with [] => "" | part :: parts => String "%" (part +:+ wildcards parts) end.


Lemma wildcards_join parts part : join "%" (part :: parts) = part +:+ wildcards parts.
Proof.
  revert part. induction parts as [|p parts IH]; intros part; [by rewrite append_nil_r|].
  cbn [join wildcards]. rewrite <- IH. by destruct parts.
Qed.

Lemma suffix_of_longer p1 s1 p2 s2 : p1 +:+ s1 = p2 +:+ s2 -> (String.length s2 <= String.length s1)%nat ->
  exists b, s1 = b +:+ s2.
Proof.
  revert p2. induction p1 as [|c p1 IH]; intros p2 E Hlen; [by exists p2|].
  destruct p2 as [|d p2]; [|injection E as -> E; by apply (IH p2)].
  exfalso. rewrite <- (E : String c (p1 +:+ s1) = s2) in Hlen. simpl in Hlen. rewrite length_append in Hlen. lia.
Qed.

(** The occurrence found is the first one: what follows it ends in what
    follows any other. *)
Lemma find_rest_first p v :
  match find_rest p v with
  | Some r => (exists a, v = a +:+ p +:+ r) /\ forall a r', v = a +:+ p +:+ r' -> exists b, r = b +:+ r'
  | None => forall a r', v <> a +:+ p +:+ r'
  end.
Proof.
  induction v as [|c v IH]; cbn [find_rest].
  all: destruct (strip_prefix p _) as [r|] eqn:E; [apply strip_prefix_Some in E; split; [by exists ""|]|].
  1, 3: intros a r' E'; rewrite E in E'; rewrite append_assoc in E'; eapply suffix_of_longer; [done|];
    apply (f_equal String.length) in E'; rewrite !length_append in E'; lia.
  - intros [|? a] r' E'; [|done]. apply (proj2 (strip_prefix_Some p _ _)) in E'. congruence.
  - destruct (find_rest p v) as [r|].
    + destruct IH as [[a ->] Hfirst]. split; [by exists (String c a)|].
      intros [|d a'] r' E'; [|injection E' as -> E'; by eapply Hfirst].
      apply (proj2 (strip_prefix_Some p _ _)) in E'. congruence.
    + intros [|d a'] r' E'; [|injection E' as -> E'; by eapply IH].
      apply (proj2 (strip_prefix_Some p _ _)) in E'. congruence.
Qed.

(** The greedy scan decides the pattern: taking the first occurrence of a
    middle part leaves the most text to what follows. *)
Lemma match_parts_like parts i last v : (1 <= i)%nat -> parts <> [] -> last = (i + length parts - 1)%nat ->
  Forall (fun p => no_percent p = true) parts ->
  match_parts i last v parts = true <-> LikeMatch (wildcards parts) v.
Proof.
  revert i v. induction parts as [|part parts IH]; intros i v Hi Hne -> Hp; [done|].
  apply Forall_cons in Hp as [Hp Hps]. cbn [match_parts wildcards length].
  assert (forall v, parts <> [] ->
    match_parts (S i) (i + S (length parts) - 1) v parts = true <-> LikeMatch (wildcards parts) v) as IH'.
  { intros v' Hparts. apply IH; [lia|done|simpl; lia|done]. }
  rewrite like_any_iff. setoid_rewrite (like_literal part); [|done].
  destruct (is_empty part) eqn:Ee; [apply String.eqb_eq in Ee; subst part|].
  { destruct parts as [|q parts]; simpl.
    - split; [|done]. intros _. exists v, "". rewrite append_nil_r. split; [done|]. exists ""; repeat constructor.
    - rewrite (IH' v) by done. split; [intros Hm; by exists "", v; eauto|].
      intros (a & ? & -> & ? & -> & Hm). by apply like_absorb. }
  destruct (Nat.eqb_spec i 0); [lia|].
  destruct (Nat.eqb_spec i (i + S (length parts) - 1)) as [Hlast|Hlast].
  { destruct parts; [|simpl in Hlast; lia]. simpl.
    transitivity (ends_with part v = true); [by destruct (ends_with part v)|].
    rewrite ends_with_true. split.
    - intros [r ->]. exists r, part. split; [done|]. exists "". rewrite append_nil_r. by repeat constructor.
    - intros (a & ? & -> & ? & -> & Hm). inversion Hm. rewrite append_nil_r. by exists a. }
  pose proof (find_rest_first part v) as Hf. destruct (find_rest part v) as [r|].
  - destruct Hf as [[a ->] Hfirst]. destruct parts as [|q parts]; [simpl in Hlast; lia|]. rewrite (IH' r) by done. split.
    + intros Hm. exists a, (part +:+ r). eauto.
    + intros (a' & ? & E & r' & -> & Hm). destruct (Hfirst _ _ E) as [b ->]. by apply like_absorb.
  - split; [done|]. intros (a & ? & E & r & -> & _). by apply Hf in E.
Qed.

Lemma sql_like_match_like v p : sql_like_match v p = true <-> LikeMatch p v.
Proof.
  unfold sql_like_match. pose proof (split_on_join "%" p) as Hj. pose proof (split_on_pieces (Ascii.eqb "%") p) as Hp.
  fold (split_char "%" p) in *. destruct (split_char "%" p) as [|part parts] eqn:E; [by apply split_on_nonempty in E|].
  assert (Forall (fun q => no_percent q = true) (part :: parts)) as [Hpart Hparts]%Forall_cons by (apply Forall_forall; eauto).
  rewrite wildcards_join in Hj. subst p. cbn [length]. destruct parts as [|q parts].
  { cbn. rewrite append_nil_r, like_literal_only by done. apply String.eqb_eq. }
  change (S (length (q :: parts)) =? 1)%nat with false. assert (q :: parts <> []) as Hne by done.
  set (tl := q :: parts) in *. clearbody tl. rewrite like_literal by done. cbn [match_parts].
  assert (forall v, match_parts 1 (S (length tl) - 1) v tl = true <-> LikeMatch (wildcards tl) v) as Htail
    by (intros; apply match_parts_like; [lia|done|lia|done]).
  destruct (is_empty part) eqn:Ee; [apply String.eqb_eq in Ee; subst part|]; cbn [Nat.eqb].
  - rewrite Htail. split; [by eexists|by intros (? & -> & ?)].
  - destruct (strip_prefix part v) as [r|] eqn:Es.
    + apply strip_prefix_Some in Es as ->. rewrite Htail. split; [by eauto|]. intros (r' & E' & Hm).
      apply append_inj_l in E' as ->. done.
    + split; [done|]. intros (r & Er%strip_prefix_Some & _). congruence.
Qed.

(** * What a stored token reaches *)

(** What a selector documents of one repository.  Explicit ids are the whole
    selector: the other criteria are not read. *)
Definition Selected (db : AccessDb) (s : RepoSelector) (row : RepositoryRow) : Prop :=
  match match_repos s with
  | [] =>
      is_empty_selector s = false /\
      (match_formats s = [] \/ exists f, f ∈ match_formats s /\ to_lowercase f = to_lowercase (format (columns row))) /\
      (forall p, match_pattern s = Some p -> LikeMatch (star_to_percent p) (key row)) /\
      (forall k v, (k, v) ∈ match_labels s ->
         exists l, l ∈ repository_labels db /\ label_repository l = row_id row /\ label_key l = k /\ label_value l = v)
  | ids => row_id row ∈ ids
  end.

Lemma has_label_true db r k v : has_label db r (k, v) = true <->
  exists l, l ∈ repository_labels db /\ label_repository l = r /\ label_key l = k /\ label_value l = v.
Proof.
  unfold has_label. rewrite existsb_exists. setoid_rewrite <- list_elem_of_In.
  setoid_rewrite andb_true_iff. setoid_rewrite andb_true_iff. setoid_rewrite bool_decide_eq_true.
  setoid_rewrite String.eqb_eq. naive_solver.
Qed.

Lemma labels_resolve db labels r : labels <> [] ->
  r ∈ resolve_repos_by_labels db labels <-> forall k v, (k, v) ∈ labels -> has_label db r (k, v) = true.
Proof.
  intros Hne. unfold resolve_repos_by_labels. destruct labels as [|[k0 v0] labels]; [done|].
  rewrite list_elem_of_filter, elem_of_remove_dups, forallb_forall. setoid_rewrite <- list_elem_of_In. split.
  - intros [Hall _] k v Hin. by apply Hall.
  - intros Hall. split; [by intros [k v]; apply Hall|].
    destruct (proj1 (has_label_true _ _ _ _) (Hall k0 v0 (list_elem_of_here _ _))) as (l & Hl & <- & _).
    by apply list_elem_of_fmap_2.
Qed.

Lemma resolve_ids_spec db s r :
  r ∈ resolve_ids db s <-> exists row, row ∈ repositories db /\ row_id row = r /\ Selected db s row.
Proof.
  unfold resolve_ids. rewrite list_elem_of_fmap.
  assert (forall row, row ∈ resolve_rows db s <-> row ∈ repositories db /\ Selected db s row) as Hrows;
    [|setoid_rewrite Hrows; naive_solver].
  intros row. unfold resolve_rows, Selected. destruct (match_repos s) as [|i ids];
    [|rewrite list_elem_of_filter; tauto].
  destruct (is_empty_selector s); [split; [by intros ?%not_elem_of_nil|naive_solver]|].
  rewrite list_elem_of_filter, !andb_true_iff.
  assert (match match_formats s with [] => true
    | formats => one_of (to_lowercase (format (columns row))) (to_lowercase <$> formats) end = true <->
    match_formats s = [] \/ exists f, f ∈ match_formats s /\ to_lowercase f = to_lowercase (format (columns row))) as ->.
  { destruct (match_formats s); [naive_solver|]. rewrite one_of_true, list_elem_of_fmap. naive_solver. }
  assert (match match_pattern s with Some p => sql_like_match (key row) (star_to_percent p) | None => true end = true <->
    forall p, match_pattern s = Some p -> LikeMatch (star_to_percent p) (key row)) as ->.
  { destruct (match_pattern s); [rewrite sql_like_match_like|]; naive_solver. }
  assert (match match_labels s with [] => true
    | labels => bool_decide (row_id row ∈ resolve_repos_by_labels db labels) end = true <->
    forall k v, (k, v) ∈ match_labels s -> has_label db (row_id row) (k, v) = true) as ->.
  { destruct (match_labels s) as [|l ls]; [split; [by intros _ k v ?%not_elem_of_nil|done]|].
    rewrite bool_decide_eq_true. by apply labels_resolve. }
  setoid_rewrite has_label_true. tauto.
Qed.

Section Reach.
Context `{UuidText}.

(** The repositories a stored token reaches, by its two restrictions. *)
Definition Reaches (db : AccessDb) (t : ApiToken) (r : Uuid) : Prop :=
  match repo_selector t with
  | Some value =>
      exists s, parse_token_selector_strict value = Some s /\
        (is_empty_selector s = true \/ exists row, row ∈ repositories db /\ row_id row = r /\ Selected db s row)
  | None => match token_repositories t with [] => repository_restricted t = false | pins => r ∈ pins end
  end.

Lemma validated_grants db t v r : validate_stored_token db t = Ok v ->
  can_access_repo (ext_of_validation v) r =
  grants (scope_of (resolved_repo_ids (resolve_token_scope db (repo_selector t)
    (match repo_selector t with None => token_repositories t | Some _ => [] end) (repository_restricted t)))) r.
Proof. unfold validate_stored_token. destruct (List.find _ (users db)); [|done]. by intros [= <-]. Qed.

(** C27. A validated token reaches a repository exactly when its restriction
    says so: without one, every repository; pinned, its pins, and none once a
    restricted token lost them all; with a selector that does not parse, none;
    with explicit ids, those of them that exist, whatever the other criteria;
    otherwise the repositories with one of the formats, a key the pattern
    matches and every label. *)
Theorem token_reach db t v r : validate_stored_token db t = Ok v ->
  can_access_repo (ext_of_validation v) r = true <-> Reaches db t r.
Proof.
  intros Hv. rewrite (validated_grants _ _ _ _ Hv). unfold resolve_token_scope, Reaches. destruct (repo_selector t) as [value|].
  - destruct (parse_token_selector_strict value) as [s|]; [|by split; [|intros (? & [=] & _)]].
    destruct (is_empty_selector s) eqn:Ee; simpl; [by split; eauto|].
    rewrite bool_decide_eq_true, resolve_ids_spec. split; [by eauto|].
    by intros (? & [= <-] & [Ht|?]); [rewrite Ee in Ht|].
  - destruct (token_repositories t); simpl; [|by rewrite bool_decide_eq_true].
    by destruct (repository_restricted t).
Qed.

End Reach.

(** * What a mint hands on *)

(** A statement that succeeded ran the statements before it. *)
Lemma then_ok {A B} (m : M A) (k : A -> M B) db b db' : then_ m k db = (Ok b, db') ->
  exists a db1, m db = (Ok a, db1) /\ k a db1 = (Ok b, db').
Proof. unfold then_. destruct (m db) as [[a|e] db1]; [by eauto|done]. Qed.

Lemma lift_ok {A} (r : result AppError A) db a db' : lift r db = (Ok a, db') -> r = Ok a /\ db' = db.
Proof. by intros [= -> ->]. Qed.

Lemma ret_ok {A} (x : A) db a db' : ret x db = (Ok a, db') -> a = x /\ db' = db.
Proof. by intros [= -> ->]. Qed.

Lemma check_with_ok {A} mk (r : result string A) db a db' : check_with mk r db = (Ok a, db') -> r = Ok a /\ db' = db.
Proof. unfold check_with. destruct r; [by intros [= -> ->]|done]. Qed.

Lemma gets_ok {A} (f : AccessDb -> result AppError A) db a db' : gets f db = (Ok a, db') -> f db = Ok a /\ db' = db.
Proof. by intros [= -> ->]. Qed.

Lemma select_ok {A} fault (f : AccessDb -> A) db a db' : select fault f db = (Ok a, db') -> a = f db /\ db' = db.
Proof. unfold select, query. destruct fault; [done|]. by intros [= -> ->]. Qed.

Lemma execute_ok fault f db u db' : execute fault f db = (Ok u, db') -> db' = f db.
Proof. unfold execute. destruct fault; [done|]. by intros [= _ ->]. Qed.

(** Runs backwards through the statements of a handler that succeeded. *)
Ltac run_back :=
  repeat match goal with
  | H : then_ _ _ _ = (Ok _, _) |- _ =>
      let a := fresh "a" in let db := fresh "db" in let Hm := fresh "Hm" in
      apply then_ok in H as (a & db & Hm & H)
  | H : lift _ _ = (Ok _, _) |- _ => apply lift_ok in H as [H ->]
  | H : ret _ _ = (Ok _, _) |- _ => apply ret_ok in H as [H ->]; try match type of H with ?a = _ => is_var a; subst a end
  | H : gets _ _ = (Ok _, _) |- _ => apply gets_ok in H as [H ->]
  | H : check_with _ _ _ = (Ok _, _) |- _ => apply check_with_ok in H as [H ->]
  | H : select _ _ _ = (Ok _, _) |- _ => apply select_ok in H as [-> ->]
  | H : execute _ _ _ = (Ok _, _) |- _ => apply execute_ok in H as ->
  | u : unit |- _ => destruct u
  end.

(** A row of the mint of [i] on top of the tokens there were. *)
Definition Minted (db : AccessDb) (i : Uuid) (t : ApiToken) (db' : AccessDb) : Prop :=
  api_tokens db' = api_tokens db ++ [t] /\ token_id t = i.

Definition fresh_in (i : Uuid) (db : AccessDb) : Prop := forall x, x ∈ api_tokens db -> token_id x <> i.

Lemma update_minted db i t db' f : fresh_in i db -> (forall x, token_id (f x) = token_id x) ->
  Minted db i t db' -> Minted db i (f t) (update_token i f db').
Proof.
  intros Hfresh Hf [E Hi]. split; [|by rewrite Hf]. unfold update_token. simpl. rewrite E, fmap_app. simpl.
  rewrite bool_decide_eq_true_2 by done. f_equal. rewrite <- (list_fmap_id (api_tokens db)) at 2.
  apply list_fmap_ext. intros k x Hx%list_elem_of_lookup_2. simpl.
  by rewrite bool_decide_eq_false_2 by (by apply Hfresh).
Qed.

(** The insert: a row of the requested scopes, without restriction. *)
Lemma generate_ok c u name l expires db m db' :
  generate_api_token_with_policy c u name l expires db = (Ok m, db') ->
  exists hash, minted_id m = fresh_id c /\ validate_scopes_pure l = Ok tt /\
    Minted db (fresh_id c) (new_token c u name hash l (minted_expires_at m)) db'.
Proof.
  unfold generate_api_token_with_policy. destruct (50 <? length l)%nat; [by intros [=]|].
  destruct (existsb _ l); [by intros [=]|]. intros Hg. run_back. simpl. injection Hm1 as <-.
  match goal with Hm : (if _ then _ else _) db = (Ok ?r, ?db1) |- _ =>
    assert (db1 = db) as -> by (destruct (require_expiration _); run_back; done); exists a0 end.
  split_and!; [done|done|]. by split.
Qed.

(** What a row inherits of the credential that minted it. *)
Record Inherits `{UuidText} (auth : AuthExtension) (t : ApiToken) : Prop := {
  inherits_allowed : forall s, s ∈ token_scopes t -> s ∈ ALLOWED_SCOPES;
  inherits_scopes : is_admin auth = false ->
    token_user t = ext_user_id auth /\
    forall s, s ∈ token_scopes t -> has_scope auth s = true /\ s ∉ ADMIN_ONLY_SCOPES;
  inherits_repos : forall ids, allowed_repo_ids auth = Restricted ids ->
    (ids <> [] /\ repo_selector t = Some (inherited_token_selector ids)) \/
    (repo_selector t = None /\ repository_restricted t = true /\ forall r, r ∈ token_repositories t -> r ∈ ids)
}.

Section Mints.
Context `{UuidText} `{Postgres}.

(** A request to one of the handlers that mint. *)
Inductive MintRequest :=
| MintOwn (p : CreateApiTokenRequest)
| MintProfile (name : string) (scopes : option (list string)) (expires : option Z)
| MintForUser (u : Uuid) (name : string) (scopes : list string) (expires : option Z)
| MintForMe (name : string) (scopes : list string) (expires : option Z)
| MintForRepo (k name : string) (scopes : list string) (expires : option Z) (description : option string)
| MintForServiceAccount (u : Uuid) (p : CreateTokenRequest).

Definition run_mint (c : MintContext) (auth : AuthExtension) (q : MintRequest) : M MintedApiToken :=
  match q with
  | MintOwn p => create_api_token c auth p
  | MintProfile name l e => create_access_token c auth name l e
  | MintForUser u name l e => create_user_api_token c auth u name l e
  | MintForMe name l e => create_current_user_api_token c auth name l e
  | MintForRepo k name l e d => create_repo_token c (Some auth) k name l e d
  | MintForServiceAccount u p => create_token c auth u p
  end.

(** The scopes both checks let through. *)
Lemma allowed_scopes auth l : enforce_admin_only_scopes l (is_admin auth) = Ok tt -> enforce_mint_ceiling auth l = Ok tt ->
  is_admin auth = false -> forall s, s ∈ l -> has_scope auth s = true /\ s ∉ ADMIN_ONLY_SCOPES.
Proof.
  intros Hadm Hceil Hno s Hs. rewrite Hno in Hadm. split; [|by eapply enforce_admin_only_ok].
  destruct (enforce_ceiling_ok _ _ Hceil) as [Ht|Hall]; [congruence|by apply Hall].
Qed.

Lemma ceiling_ids auth b o ids : mint_repo_ceiling auth b = Ok o -> allowed_repo_ids auth = Restricted ids ->
  ids <> [] /\ o = Some ids.
Proof. unfold mint_repo_ceiling. intros Hc E. rewrite E in Hc. destruct b, ids; try done; by injection Hc as <-. Qed.

Lemma ceiling_other auth b : mint_repo_ceiling auth b = Ok None -> forall ids, allowed_repo_ids auth <> Restricted ids.
Proof. intros Hc ids E. by destruct (ceiling_ids _ _ _ _ Hc E) as [_ [=]]. Qed.

(** The mint of the handlers that store the inherited selector, if any, or
    the requested one. *)
Lemma mint_selector c auth u name l e sel db m db1 db' b inherited :
  fresh_in (fresh_id c) db -> mint_repo_ceiling auth b = Ok inherited ->
  (is_admin auth = false -> u = ext_user_id auth /\ forall s, s ∈ l -> has_scope auth s = true /\ s ∉ ADMIN_ONLY_SCOPES) ->
  generate_api_token_with_policy c u name l e db = (Ok m, db1) ->
  store_optional c (minted_id m) (match inherited with Some ids => Some (inherited_token_selector ids) | None => sel end) db1
    = (Ok tt, db') ->
  exists t, minted_id m = fresh_id c /\ Minted db (minted_id m) t db' /\ Inherits auth t.
Proof.
  intros Hfresh Hceil Hscopes Hg Hs. apply generate_ok in Hg as (hash & Hid & Hv & Hm). rewrite Hid in *.
  assert (exists t, Minted db (fresh_id c) t db' /\ token_user t = u /\ token_scopes t = l /\
    forall ids, inherited = Some ids -> repo_selector t = Some (inherited_token_selector ids)) as (t & Ht & <- & <- & Hsel).
  { set (o := match inherited with Some _ => _ | None => _ end) in Hs. destruct o as [s|] eqn:E; simpl in Hs.
    - unfold store_token_selector in Hs. run_back. eexists. split; [by apply update_minted|]. simpl.
      split_and!; [done..|]. intros ids ->. by injection E as ->.
    - run_back. eexists. split; [exact Hm|]. split_and!; [done..|]. intros ids ->. by unfold o in E. }
  exists t. split; [done|]. split; [done|]. split; [by apply validate_scopes_ok|done|].
  intros ids Hids. left. destruct (ceiling_ids _ _ _ _ Hceil Hids) as [? ->]. auto.
Qed.

(** The pins of a token minted for repositories. *)
Lemma pins_minted c db i t db1 db' pins u : fresh_in i db -> Minted db i t db1 ->
  pin_repositories c i pins (update_token i (set_restricted []) db1) = (Ok u, db') ->
  Minted db i (set_restricted pins t) db'.
Proof.
  intros Hfresh Hm Hr. assert (Minted db i (set_restricted [] t) (update_token i (set_restricted []) db1)) as Hm'
    by (by apply update_minted).
  assert (set_restricted pins t = set_restricted pins (set_restricted [] t)) as ->
    by (unfold set_restricted; simpl; by rewrite app_nil_r).
  revert Hm' Hr. generalize (update_token i (set_restricted []) db1). clear db1 Hm.
  assert (repository_restricted (set_restricted [] t) = true) as Hres by done. revert Hres.
  generalize (set_restricted [] t). clear t. induction pins as [|r pins IH]; intros t Hres db1 Hm Hr; simpl in Hr; run_back.
  - replace (set_restricted [] t) with t; [done|]. unfold set_restricted. destruct t as [??????????? pins ??]. simpl in *.
    by rewrite (app_nil_r _), Hres.
  - apply (IH (set_restricted [r] t)) in Hr; [|done|by apply update_minted]. unfold set_restricted in *. simpl in *. by rewrite <- app_assoc in Hr.
Qed.

Lemma inherits_creator auth t u d : Inherits auth t -> Inherits auth (set_creator u d t).
Proof. by intros [? ? ?]. Qed.

Lemma authorize_ok c auth k db a db' : authorize_repo_for_tokens c (Some auth) k db = (Ok a, db') ->
  a.1 = auth /\ db' = db /\ can_access_repo auth (id a.2) = true.
Proof.
  unfold authorize_repo_for_tokens. intros Hm. run_back.
  assert (a0 = auth) as ->.
  { unfold require_repo_write in Hm0. simpl in Hm0. destruct (is_admin auth); [congruence|].
    destruct (require_scope auth _); simpl in Hm0; congruence. }
  destruct (can_access_repo auth _) eqn:Ea; simpl in Hm; [|run_back; done].
  destruct (allows_anonymous_read _ || is_admin auth); [run_back; by subst|].
  run_back. destruct a0; run_back; by subst.
Qed.

Lemma delegatable_ok c auth r l db u db' : require_delegatable_scopes c auth r l db = (Ok u, db') -> db' = db.
Proof.
  unfold require_delegatable_scopes. destruct (is_admin auth); intros Hm; [by run_back|].
  destruct (if _ : bool then _ else _); run_back; [destruct a|]; by run_back.
Qed.

Lemma mint_for_repo c auth k name l e d db m db' : fresh_in (fresh_id c) db ->
  create_repo_token c (Some auth) k name l e d db = (Ok m, db') ->
  exists t, minted_id m = fresh_id c /\ Minted db (minted_id m) t db' /\ Inherits auth t.
Proof.
  intros Hfresh Hm. unfold create_repo_token, refuse_ci_account_mint in Hm.
  apply then_ok in Hm as ([a repo] & db0 & Ha & Hm). apply authorize_ok in Ha as (Ha & -> & Haccess). simpl in *. subst a.
  run_back. apply delegatable_ok in Hm4 as ->. apply generate_ok in Hm7 as (hash & Hid & Hv & Hmint). rewrite Hid.
  eexists. split; [done|]. split; [by repeat (apply update_minted; [done..|])|]. split; simpl.
  - by apply validate_scopes_ok.
  - intros Hno. split; [done|]. by apply allowed_scopes.
  - intros ids Hids. right. split_and!; [done..|]. intros r ->%list_elem_of_singleton.
    unfold can_access_repo, access_scope in Haccess. rewrite Hids in Haccess. by apply bool_decide_eq_true in Haccess.
Qed.

Lemma mint_for_account c auth u p db m db' : fresh_in (fresh_id c) db ->
  create_token c auth u p db = (Ok m, db') ->
  exists t, minted_id m = fresh_id c /\ Minted db (minted_id m) t db' /\ Inherits auth t.
Proof.
  intros Hfresh Hm. unfold create_token in Hm. run_back.
  assert (is_admin auth = true) as Hadm by (unfold require_admin in *; by destruct (is_admin auth)).
  apply generate_ok in Hm7 as (hash & Hid & Hv & Hmint). rewrite Hid in *.
  assert (exists t, Minted db (fresh_id c) t db8 /\ token_scopes t = sa_scopes p /\
    forall ids, a3 = Some ids -> repo_selector t = Some (inherited_token_selector ids)) as (t & Ht & Hl & Hsel).
  { unfold store_token_selector in Hm8. destruct a3 as [ids|]; [|destruct (sa_selector p) as [s|];
      [|destruct (sa_repository_ids p) as [pins|]]]; run_back.
    - eexists. split; [by apply update_minted|]. split; [done|]. by intros ids' [= <-].
    - eexists. split; [by apply update_minted|]. by split.
    - apply (pins_minted _ db _ (new_token c u (sa_name p) hash (sa_scopes p) (minted_expires_at a6))) in Hm8; [|done..].
      eexists. split; [exact Hm8|]. by split.
    - eexists. split; [exact Hmint|]. by split. }
  eexists. split; [done|]. split; [by apply update_minted|]. apply inherits_creator. split; [rewrite Hl; by apply validate_scopes_ok|congruence|].
  intros ids Hids. left. destruct (ceiling_ids _ _ _ _ Hm4 Hids) as [? ->]. auto.
Qed.

(** Every handler that mints leaves one new row, of the id returned, which
    inherits from the credential presented. *)
Lemma run_mint_row c auth q db m db' : fresh_in (fresh_id c) db -> run_mint c auth q db = (Ok m, db') ->
  exists t, minted_id m = fresh_id c /\ Minted db (minted_id m) t db' /\ Inherits auth t.
Proof.
  intros Hfresh Hm. destruct q as [p|name l e|u name l e|name l e|k name l e d|u p]; simpl in Hm.
  5: by eapply mint_for_repo. 5: by eapply mint_for_account.
  all: unfold create_api_token, create_access_token, create_user_api_token, create_current_user_api_token,
    create_api_token_inner, refuse_ci_account_mint in Hm; run_back.
  1: eapply (mint_selector _ _ _ _ _ _ (request_selector p)); eauto using allowed_scopes.
  all: eapply (mint_selector _ _ _ _ _ _ None); [done|done| |done|done]; intros Hno; split; [|by apply allowed_scopes].
  1, 3: done.
  unfold require_self_or_admin in Hm0. rewrite Hno, orb_false_r in Hm0. by case_bool_decide.
Qed.

(** The selector a restricted credential stamps reads back as its own
    repositories. *)
Lemma inherited_parse ids : (forall i, uuid_parse (uuid_display i) = Some i) ->
  parse_token_selector_strict (inherited_token_selector ids) =
  Some {| match_labels := []; match_formats := []; match_pattern := None; match_repos := ids |}.
Proof.
  intros Hround. unfold parse_token_selector_strict, inherited_token_selector, de_field. simpl.
  assert (mapM json_as_str ((fun i => JString (uuid_display i)) <$> ids) = Some (uuid_display <$> ids)) as ->.
  { induction ids as [|i ids IH]; [done|]. cbn. by rewrite IH. }
  simpl. assert (mapM uuid_parse (uuid_display <$> ids) = Some ids) as ->; [|done].
  induction ids as [|i ids IH]; [done|]. cbn. rewrite Hround. simpl. by rewrite IH.
Qed.

(** What may become of a row: it is revoked, or its pins are deleted with
    their repositories.  No statement widens it. *)
Definition Kept (t t' : ApiToken) : Prop :=
  token_user t' = token_user t /\ token_scopes t' = token_scopes t /\ repo_selector t' = repo_selector t /\
  repository_restricted t' = repository_restricted t /\ forall r, r ∈ token_repositories t' -> r ∈ token_repositories t.

(** The credentials obtained from a credential by minting a token with it,
    presenting that token, whatever the tables have become, and so on. *)
Inductive Descends (root : AuthExtension) : AuthExtension -> Prop :=
| descends_root : Descends root root
| descends_mint auth c q db m db' t t' later v :
    Descends root auth -> fresh_in (fresh_id c) db -> run_mint c auth q db = (Ok m, db') ->
    t ∈ api_tokens db' -> token_id t = minted_id m -> Kept t t' ->
    validate_stored_token later t' = Ok v -> Descends root (ext_of_validation v).

Record Bounded (root ext : AuthExtension) : Prop := {
  bounded_repos : forall r, can_access_repo ext r = true -> can_access_repo root r = true;
  bounded_user : is_admin root = false -> is_admin ext = false /\ ext_user_id ext = ext_user_id root;
  bounded_scopes : is_admin root = false -> forall s, has_scope ext s = true -> has_scope root s = true;
  bounded_class : is_admin root = false -> ext = root \/ forall s, s ∈ ADMIN_ONLY_SCOPES -> has_scope ext s = false
}.

Lemma validated_ext db t v : validate_stored_token db t = Ok v ->
  scopes (ext_of_validation v) = Some (token_scopes t) /\ ext_user_id (ext_of_validation v) = token_user t.
Proof.
  unfold validate_stored_token. destruct (List.find _ _) as [u|] eqn:E; [|done]. intros [= <-]. simpl.
  apply List.find_some in E as [_ [Hu%bool_decide_eq_true _]%andb_true_iff]. auto.
Qed.

(** One mint: the token presented back holds no more than the credential. *)
Lemma presented_bounded auth t t' later v : (forall i, uuid_parse (uuid_display i) = Some i) ->
  Inherits auth t -> Kept t t' -> validate_stored_token later t' = Ok v ->
  (forall r, can_access_repo (ext_of_validation v) r = true -> can_access_repo auth r = true) /\
  (is_admin auth = false ->
    is_admin (ext_of_validation v) = false /\ ext_user_id (ext_of_validation v) = ext_user_id auth /\
    (forall s, has_scope (ext_of_validation v) s = true -> has_scope auth s = true) /\
    forall s, s ∈ ADMIN_ONLY_SCOPES -> has_scope (ext_of_validation v) s = false).
Proof.
  intros Hround [Hall Hsc Hrep] (Ku & Ks & Ksel & Kres & Kpins) Hv.
  destruct (validated_ext _ _ _ Hv) as [Escopes Euser]. split.
  - intros r. rewrite (validated_grants _ _ _ _ Hv). unfold can_access_repo, access_scope.
    destruct (allowed_repo_ids auth) as [|ids]; [done|]. simpl. intros Hr. apply bool_decide_eq_true. revert Hr.
    rewrite Ksel, Kres. destruct (Hrep _ eq_refl) as [[Hne ->]|(-> & -> & Hpins)]; unfold resolve_token_scope.
    + rewrite inherited_parse by done. destruct ids as [|i ids]; [done|]. cbn [is_empty_selector match_labels
        match_formats match_pattern match_repos]. simpl. intros (row & _ & <- & Hin)%bool_decide_eq_true%resolve_ids_spec.
      exact Hin.
    + destruct (token_repositories t') eqn:E; simpl; [done|]; intros Hr%bool_decide_eq_true.
      by apply Hpins, Kpins.
  - intros Hno. destruct (Hsc Hno) as [Huser Hscopes].
    assert (forall s, has_scope (ext_of_validation v) s = scopes_grant_access (token_scopes t) s) as Ehas
      by (intros s; unfold has_scope; by rewrite Escopes, Ks).
    assert (forall s, s ∈ ADMIN_ONLY_SCOPES -> has_scope (ext_of_validation v) s = false) as Hclass
      by (intros s Hs; rewrite Ehas; apply mintable_not_admin_class; naive_solver).
    split_and!; [| |intros s; rewrite Ehas|done].
    + apply not_true_iff_false. intros Ha%gated_admin. change (has_scope (ext_of_validation v) "admin" = true) in Ha.
      rewrite (Hclass "admin") in Ha; [done|by apply one_of_true].
    + by rewrite Euser, Ku.
    + unfold has_scope at 1. destruct (scopes auth) as [l|] eqn:El; [|done]. apply scopes_grant_trans.
      intros x Hx. apply Hscopes in Hx as [Hx _]. unfold has_scope in Hx. by rewrite El in Hx.
Qed.

(** C26. Delegation never widens: through any chain of mints, by any of the
    handlers and on any tables, whatever became of the tables before each
    token is presented, a credential reaches no repository the root credential
    does not reach; below a root that is no administrator, the credentials
    belong to the root's user and hold none of its missing scopes, and a minted
    one is never an administrator and holds no administrative scope, even
    should the user be promoted later. *)
Theorem minted_chain_bounded root ext : (forall i, uuid_parse (uuid_display i) = Some i) ->
  Descends root ext -> Bounded root ext.
Proof.
  intros Hround. induction 1 as [|auth c q db m db' t t' later v _ [Br Bu Bs Bc] Hfresh Hm Hin Hid Kept Hv].
  { split; auto. }
  destruct (run_mint_row _ _ _ _ _ _ Hfresh Hm) as (t0 & Hfid & [Etok Hid0] & Hinh).
  assert (t = t0) as ->.
  { rewrite Etok in Hin. apply elem_of_app in Hin as [Hin|Hin%list_elem_of_singleton]; [|done].
    apply Hfresh in Hin. congruence. }
  destruct (presented_bounded _ _ _ _ _ Hround Hinh Kept Hv) as [Hrepos Hrest].
  split; [naive_solver|intros Hno; destruct (Bu Hno) as [Hno' Hu]; destruct (Hrest Hno') as (? & ? & ? & ?)..].
  - split; [done|congruence].
  - naive_solver.
  - by right.
Qed.


(** ** CI accounts *)

(** The handlers that ask [refuse_ci_account_mint]. *)
Definition asks_ci_refusal (q : MintRequest) : bool :=
  match q with MintOwn _ | MintProfile _ _ _ | MintForRepo _ _ _ _ _ => true | _ => false end.

(** A CI account mints no token where the handlers ask: own tokens,
    profile access tokens, repository tokens.  [POST /users/me/tokens] does not
    ask, and the same account mints a token there which, with no expiration
    policy, never expires. *)
Theorem ci_refusal_missing c db auth usr :
  find_user db (ext_user_id auth) = Some usr -> user_auth_provider usr = CiProvider ->
  (forall q m db', asks_ci_refusal q = true -> run_mint c auth q db <> (Ok m, db')) /\
  (forall name l inherited hash,
     (length l <= 50)%nat -> Forall (fun s => String.length s <= 256)%nat l -> validate_scopes_pure l = Ok tt ->
     enforce_admin_only_scopes l (is_admin auth) = Ok tt -> enforce_mint_ceiling auth l = Ok tt ->
     mint_repo_ceiling auth false = Ok inherited -> hash_password c (secret c) = Ok hash ->
     (forall st, mint_fails c st = None) -> require_expiration (effective_policy None db (env_policy c)) = false ->
     exists db', run_mint c auth (MintForMe name l None) db =
       (Ok {| minted_id := fresh_id c; minted_token := secret c; minted_expires_at := None;
              minted_policy_applied := false |}, db')).
Proof.
  intros Hu Hci. split.
  - intros q m db' Hq Hm.
    assert (ci_account_mint_refusal (user_auth_provider <$> find_user db (ext_user_id auth)) = Ok tt) as Hr;
      [|by rewrite Hu in Hr; simpl in Hr; rewrite Hci in Hr].
    destruct q as [p|name l e| | |k name l e d|]; try done; simpl in Hm;
      unfold create_api_token, create_access_token, create_repo_token, refuse_ci_account_mint in Hm.
    3: apply then_ok in Hm as ([a repo] & db0 & Ha & Hm); apply authorize_ok in Ha as (Ha & -> & _); simpl in *; subst a.
    all: run_back; try match goal with H : require_delegatable_scopes _ _ _ _ _ = _ |- _ => apply delegatable_ok in H as -> end.
    all: done.
  - intros name l inherited hash Hlen Hsize Hv Hadm Hceil Hrep Hhash Hquiet Hpol. simpl.
    assert (existsb (fun s => 256 <? String.length s)%nat l = false) as Hsizes.
    { apply not_true_iff_false. intros (s & Hs%list_elem_of_In & Hlt%Nat.ltb_lt)%existsb_exists.
      rewrite Forall_forall in Hsize. apply Hsize in Hs. lia. }
    unfold create_current_user_api_token, create_api_token_inner, generate_api_token_with_policy, store_optional,
      store_token_selector. rewrite Hadm, Hceil, Hrep, Hsizes, Hv, Hhash, (proj2 (Nat.ltb_ge _ _) Hlen).
    unfold then_, check_with, lift, gets, execute, ret. rewrite !Hquiet, Hpol. simpl.
    destruct inherited; simpl; eauto.
Qed.

(** ** Expiration *)

Lemma validate_policy_ok p : validate_policy p = Ok tt ->
  (1 <= min_days p <= max_days p)%Z /\ (max_days p <= ABSOLUTE_MAX_EXPIRY_DAYS)%Z /\
  forall d, default_days p = Some d -> (min_days p <= d <= max_days p)%Z.
Proof.
  unfold validate_policy. destruct (Z.ltb_spec (min_days p) 1), (Z.ltb_spec (max_days p) (min_days p)),
    (Z.ltb_spec ABSOLUTE_MAX_EXPIRY_DAYS (max_days p)); try done.
  intros Hd. split_and!; [lia..|]. intros d E. rewrite E in Hd.
  destruct (Z.ltb_spec d (min_days p)), (Z.ltb_spec (max_days p) d); simpl in Hd; try done.
Qed.

Lemma generate_expiry c u name l e db m db' :
  generate_api_token_with_policy c u name l e db = (Ok m, db') ->
  let p := effective_policy (mint_fails c SelectPolicy) db (env_policy c) in
  exists r, minted_expires_at m = (fun days => mint_now c + clamp days 1 3650 * NANOS_PER_DAY)%Z <$> expires_in_days r /\
    (require_expiration p = true ->
       resolve_expiry p e (default false (user_is_service_account <$> find_user db u)) = Ok r).
Proof.
  unfold generate_api_token_with_policy. destruct (50 <? length l)%nat; [by intros [=]|].
  destruct (existsb _ l); [by intros [=]|]. intros Hg. run_back. simpl. injection Hm1 as <-.
  match goal with Hm : (if _ then _ else _) db = (Ok ?r, _) |- _ => exists r; split; [done|]; intros Hreq; rewrite Hreq in Hm end.
  by run_back.
Qed.

Lemma days_between now d lo hi : (lo <= d <= hi)%Z ->
  (now + lo * NANOS_PER_DAY <= now + d * NANOS_PER_DAY <= now + hi * NANOS_PER_DAY)%Z.
Proof. assert (0 < NANOS_PER_DAY)%Z by done. nia. Qed.

(** What a mint writes as the expiration: between one day and ten years
    away; where a valid policy demands one, it is there and within the range of
    the policy; and such a policy with a default refuses no request for
    omitting it. *)
Theorem minted_expiry_bounded c u name l e db m db' p :
  p = effective_policy (mint_fails c SelectPolicy) db (env_policy c) ->
  generate_api_token_with_policy c u name l e db = (Ok m, db') ->
  (forall t, minted_expires_at m = Some t ->
     mint_now c + 1 * NANOS_PER_DAY <= t <= mint_now c + ABSOLUTE_MAX_EXPIRY_DAYS * NANOS_PER_DAY)%Z /\
  (validate_policy p = Ok tt -> require_expiration p = true ->
   (default false (user_is_service_account <$> find_user db u) = true -> apply_to_service_accounts p = true) ->
   exists t, minted_expires_at m = Some t /\
     (mint_now c + min_days p * NANOS_PER_DAY <= t <= mint_now c + max_days p * NANOS_PER_DAY)%Z) /\
  (validate_policy p = Ok tt -> default_days p <> None -> forall sa, exists r, resolve_expiry p None sa = Ok r).
Proof.
  intros -> Hg. destruct (generate_expiry _ _ _ _ _ _ _ _ Hg) as (r & -> & Hr). set (p := effective_policy _ _ _) in *.
  split_and!.
  - intros t. destruct (expires_in_days r); [|done]. intros [= <-]. apply days_between. unfold clamp, ABSOLUTE_MAX_EXPIRY_DAYS. lia.
  - intros (Hrange & Hmax & Hd)%validate_policy_ok Hreq Hsa. specialize (Hr Hreq). unfold ABSOLUTE_MAX_EXPIRY_DAYS in Hmax.
    assert (exists d, expires_in_days r = Some d /\ (min_days p <= d <= max_days p)%Z) as (d & -> & Hin);
      [|eexists; split; [done|]; apply days_between; unfold clamp; lia].
    unfold resolve_expiry in Hr. rewrite Hreq in Hr. destruct (default false _); [rewrite Hsa in Hr by done|].
    all: simpl in Hr; destruct e as [d|]; [destruct (Z.ltb_spec d (min_days p)), (Z.ltb_spec (max_days p) d); try done|].
    all: try (injection Hr as <-; exists d; split; [done|lia]).
    all: destruct (default_days p) as [d|]; [|done]; injection Hr as <-; eauto.
  - intros _ Hdef sa. unfold resolve_expiry. destruct (_ || _); [eauto|]. destruct (default_days p); [eauto|done].
Qed.

End Mints.

(** * Witnesses *)

#[local] Existing Instance cidr_postgres.
#[local] Existing Instance unary_crate.
#[local] Existing Instance unary_uuids.

Definition sample_context : MintContext :=
  {| mint_now := 0%Z; fresh_id := 100%N; secret := "ak_0123456789"; hash_password s := Ok ("hash of " +:+ s);
     env_policy := None; mint_fails _ := None; mint_ip := None |}.

Definition token_db : AccessDb := sample_db [] [].

(** A credential of the reader restricted to the private repository. *)
Definition restricted_root : AuthExtension :=
  {| ext_user_id := 2%N; username := "reader"; email := ""; is_admin := false; is_api_token := true;
     is_service_account := false; scopes := Some ["read:artifacts"; "write:artifacts"];
     allowed_repo_ids := Restricted [10%N]; iat_ms := None |}.

Definition child_request : MintRequest := MintForMe "child" ["read:artifacts"] None.

Definition child_row : ApiToken :=
  set_selector (inherited_token_selector [10%N])
    (new_token sample_context 2%N "child" "hash of ak_0123456789" ["read:artifacts"] None).

Definition after_mint : AccessDb := set_tokens (fun _ => [child_row]) token_db.

Definition child_validation : ApiTokenValidation :=
  {| validated_user := sample_user 2%N "reader" false LocalProvider; validated_scopes := ["read:artifacts"];
     validated_repo_ids := Restricted [10%N]; validated_expires_at := None |}.

Lemma token_reach_witness : validate_stored_token after_mint child_row = Ok child_validation /\
  (can_access_repo (ext_of_validation child_validation) 10%N = true <-> Reaches after_mint child_row 10%N).
Proof. split; [reflexivity|]. apply (token_reach after_mint child_row child_validation 10%N). reflexivity. Defined.

Lemma minted_chain_bounded_witness : Descends restricted_root (ext_of_validation child_validation) /\
  Bounded restricted_root (ext_of_validation child_validation).
Proof.
  assert (Descends restricted_root (ext_of_validation child_validation)) as Hd.
  { apply (descends_mint restricted_root restricted_root sample_context child_request token_db
      {| minted_id := 100%N; minted_token := "ak_0123456789"; minted_expires_at := None; minted_policy_applied := false |}
      after_mint child_row child_row after_mint child_validation); try reflexivity.
    - constructor.
    - by intros x Hx%not_elem_of_nil.
    - left.
    - by split_and!. }
  split; [exact Hd|]. apply (minted_chain_bounded restricted_root); [exact unary_round|exact Hd].
Defined.

(** A CI account (4) with the session its token exchange gives. *)
Definition ci_user : User := sample_user 4%N "ci-runner" false CiProvider.
Definition ci_db : AccessDb :=
  {| users := [ci_user]; groups := []; user_group_members := []; repositories := repositories token_db;
     repository_labels := []; roles := []; role_assignments := []; permissions := []; api_tokens := [];
     download_tickets := []; system_settings := [] |}.
Definition ci_session : AuthExtension :=
  {| ext_user_id := 4%N; username := "ci-runner"; email := ""; is_admin := false; is_api_token := false;
     is_service_account := true; scopes := Some ["read:artifacts"]; allowed_repo_ids := Restricted [10%N];
     iat_ms := Some 0%Z |}.

Lemma ci_refusal_missing_witness :
  find_user ci_db (ext_user_id ci_session) = Some ci_user /\
  exists db', run_mint sample_context ci_session (MintForMe "forever" ["read:artifacts"] None) ci_db =
    (Ok {| minted_id := 100%N; minted_token := "ak_0123456789"; minted_expires_at := None;
           minted_policy_applied := false |}, db').
Proof.
  split; [reflexivity|].
  apply (proj2 (ci_refusal_missing sample_context ci_db ci_session ci_user eq_refl eq_refl)
    "forever" ["read:artifacts"] (Some [10%N]) "hash of ak_0123456789"); try reflexivity.
  - simpl. lia.
  - repeat constructor.
Defined.

Definition month_policy : ApiTokenExpiryPolicy :=
  {| require_expiration := true; min_days := 1; max_days := 30; default_days := Some 7%Z; apply_to_service_accounts := false |}.

Definition policy_context : MintContext :=
  {| mint_now := 0%Z; fresh_id := 100%N; secret := "ak_0123456789"; hash_password s := Ok ("hash of " +:+ s);
     env_policy := Some month_policy; mint_fails _ := None; mint_ip := None |}.

Definition policy_run : result AppError MintedApiToken * AccessDb :=
  generate_api_token_with_policy policy_context 2%N "ci" ["read:artifacts"] None token_db.

Definition week_token : MintedApiToken :=
  {| minted_id := 100%N; minted_token := "ak_0123456789"; minted_expires_at := Some (7 * NANOS_PER_DAY)%Z;
     minted_policy_applied := true |}.

Lemma minted_expiry_bounded_witness :
  validate_policy month_policy = Ok tt /\ policy_run = (Ok week_token, policy_run.2) /\
  exists t, minted_expires_at week_token = Some t /\ (0 + 1 * NANOS_PER_DAY <= t <= 0 + 30 * NANOS_PER_DAY)%Z.
Proof.
  split; [reflexivity|]. assert (policy_run = (Ok week_token, policy_run.2)) as Hrun by (vm_compute; reflexivity).
  split; [exact Hrun|].
  apply (proj1 (proj2 (minted_expiry_bounded policy_context 2%N "ci" ["read:artifacts"] None token_db _ _ month_policy
    eq_refl Hrun))); try reflexivity. intros [=].
Defined.
