(* ===== verification/RequestPath.v ===== *)
(** What the authentication middlewares read off a request
    ([api/middleware/auth.rs]): the repository key its path names, the
    credential it carries, its download ticket, and whether it keeps the CSRF
    contract.

    A path and a query are those of the raw URI.  A header is a name in lower
    case and its bytes; [to_str] answers for visible ASCII only.  The base64
    decoder is a parameter (the interface [TokenCodecs]). *)

From stdpp Require Import base list strings option.
From Stdlib Require Import ZArith Lia Ascii.
From S2P Require Import Prelude RustStr RustNum Errors ClientIp RateLimit.

Local Open Scope string_scope.
Local Open Scope list_scope.

(** * Requests *)

Inductive Method := GET | HEAD | OPTIONS | POST | PUT | PATCH | DELETE | OtherMethod (name : string).

#[export] Instance Method_eq_dec : EqDecision Method.
Proof. solve_decision. Defined.

Notation HeaderMap := (list (string * string)).

Record HttpRequest := {
  method : Method;
  uri_path : string;
  uri_query : option string;
  original_path : option string;
  headers : HeaderMap
}.

Definition header (h : HeaderMap) (name : string) : option string :=
  snd <$> List.find (fun kv => kv.1 =? name) h.

Definition contains_key (h : HeaderMap) (name : string) : bool := existsb (fun kv => kv.1 =? name) h.

(** [HeaderValue::to_str]. *)
Definition to_str (v : string) : option string :=
  if str_all (fun c => in_range 32 126 c || Ascii.eqb c (byte_of 9)) v then Some v else None.

Definition header_str (h : HeaderMap) (name : string) : option string := header h name ≫= to_str.

(** [str::trim_start_matches('/')] and the segments that follow. *)
Definition trim_slashes : string -> string := trim_start_by (Ascii.eqb "/").
Definition segments_of (path : string) : list string := split_char "/" (trim_slashes path).

(** * The repository key of a path *)

Definition percent_hex_val (b : ascii) : option Z :=
  if is_digit b then Some (byte_val b - 48)%Z
  else if in_range 97 102 b then Some (byte_val b - 97 + 10)%Z
  else if in_range 65 70 b then Some (byte_val b - 65 + 10)%Z
  else None.

(** [(hi << 4) | lo]. *)
Definition join_nibbles (hi lo : Z) : ascii := byte_of (Z.lor (Z.shiftl hi 4) lo).

Fixpoint percent_decode_loop (s : string) : option string :=
  match s with
  | "" => Some ""
  | String c t =>
      if Ascii.eqb "%" c then
        match t with
        | String h (String l rest) =>
            hi ← percent_hex_val h; lo ← percent_hex_val l;
            String (join_nibbles hi lo) <$> percent_decode_loop rest
        | _ => None
        end
      else String c <$> percent_decode_loop t
  end.

Definition percent_decode_path_segment (segment : string) : option string :=
  if str_all (fun c => negb (Ascii.eqb "%" c)) segment then Some segment
  else d ← percent_decode_loop segment; if valid_utf8 d then Some d else None.

Definition next_or_empty (segments : list string) : string := default "" (head segments).

Definition rattler_conda_token_rest (trimmed : string) : option (string * string) :=
  rest ← strip_prefix "t/" trimmed;
  '(token, rest) ← split_once (Ascii.eqb "/") rest;
  after ← strip_prefix "conda/" rest;
  let repo_key := next_or_empty (split_char "/" after) in
  if is_empty token || is_empty repo_key then None else Some (token, rest).

(** The segments after the format and the format's own prefix segments. *)
Definition skip_prefixes (format : string) (segments : list string) : list string :=
  let segments :=
    if (format =? "conda") && bool_decide (head segments = Some "t") && bool_decide (is_Some (segments !! 2%nat))
    then drop 2 segments else segments in
  let segments := if format =? "ext" then drop 1 segments else segments in
  if (format =? "api") && match head segments with Some s => one_of s ["cargo"; "helm"] | None => false end
  then drop 1 segments else segments.

Definition extract_repo_key (path : string) : string :=
  let trimmed := trim_slashes path in
  let segments := split_char "/" trimmed in
  let segments := match rattler_conda_token_rest trimmed with Some _ => drop 2 segments | None => segments end in
  let raw := next_or_empty (skip_prefixes (next_or_empty segments) (drop 1 segments)) in
  default raw (percent_decode_path_segment raw).

(** * Credentials in the URL *)

Definition extract_conda_url_token (path : string) : option string :=
  let trimmed := trim_slashes path in
  match rattler_conda_token_rest trimmed with
  | Some (token, _) => Some token
  | None =>
      match split_char "/" trimmed with
      | "conda" :: "t" :: token :: _ :: _ => if is_empty token then None else Some token
      | _ => None
      end
  end.

Definition is_nuget_push_path (path : string) : bool :=
  match segments_of path with
  | "nuget" :: key :: "api" :: "v2" :: "package" :: tail =>
      negb (is_empty key) && match tail with [] => true | [s] => is_empty s | _ => false end
  | _ => false
  end.

Definition extract_nuget_push_api_key (r : HttpRequest) : option string :=
  if negb (bool_decide (method r = PUT)) || negb (is_nuget_push_path (uri_path r)) then None
  else v ← header_str (headers r) "x-nuget-apikey"; if is_empty v then None else Some v.

(** A byte pushed as a [char]: Latin-1 encoded in UTF-8. *)
Definition push_latin1 (b : Z) (rest : string) : string :=
  if (b <? 128)%Z then String (byte_of b) rest
  else String (byte_of (192 + Z.shiftr b 6)) (String (byte_of (128 + Z.land b 63)) rest).

Fixpoint decode_ticket (raw : string) : string :=
  match raw with
  | "" => ""
  | String c t =>
      if Ascii.eqb "+" c then String " " (decode_ticket t)
      else
        match t with
        | String h (String l rest) =>
            if Ascii.eqb "%" c then
              match percent_hex_val h, percent_hex_val l with
              | Some hi, Some lo => push_latin1 (hi * 16 + lo) (decode_ticket rest)
              | _, _ => String c (decode_ticket t)
              end
            else push_latin1 (byte_val c) (decode_ticket t)
        | _ => push_latin1 (byte_val c) (decode_ticket t)
        end
  end.

Fixpoint ticket_of_pairs (pairs : list string) : option string :=
  match pairs with
  | [] => None
  | kv :: pairs =>
      let '(key, raw) := default (kv, "") (split_once (Ascii.eqb "=") kv) in
      if key =? "ticket" then if is_empty raw then None else Some (decode_ticket raw)
      else ticket_of_pairs pairs
  end.

Definition extract_ticket_from_query (query : option string) : option string :=
  q ← query; ticket_of_pairs (split_char "&" q).

Definition ticket_method_allowed (m : Method) : bool := bool_decide (m = GET) || bool_decide (m = HEAD).

Definition ticket_path_allowed (bound_path : option string) (request_path : string) : bool :=
  match bound_path with None => true | Some p => p =? request_path end.

Record TicketRequestParts := { parts_ticket : string; parts_method : Method; parts_path : string }.

Definition extract_ticket_request_parts (r : HttpRequest) : option TicketRequestParts :=
  t ← extract_ticket_from_query (uri_query r);
  Some {| parts_ticket := t; parts_method := method r; parts_path := default (uri_path r) (original_path r) |}.

(** * Credentials in the headers *)

Inductive ExtractedToken := Bearer (t : string) | ApiKey (t : string) | Basic (c : string) | NoToken | InvalidHeader.

Definition first_prefix (prefixes : list string) (s : string) : option string :=
  head (omap (fun p => strip_prefix p s) prefixes).

Definition extract_token_from_auth_header (h : string) : ExtractedToken :=
  match strip_prefix "Bearer " h, strip_prefix "Token " h, strip_prefix "ApiKey " h,
        first_prefix ["Basic "; "basic "] h with
  | Some t, _, _, _ => Bearer t
  | None, Some t, _, _ => Bearer t
  | None, None, Some t, _ => ApiKey t
  | None, None, None, Some c => Basic c
  | None, None, None, None => if negb (is_empty h) && negb (contains " " h) then Bearer h else InvalidHeader
  end.

Definition SESSION_COOKIE_NAME : string := "ak_access_token=".

Definition session_cookie_token (h : HeaderMap) : option string :=
  cookies ← header_str h "cookie";
  head (omap (fun c => strip_prefix SESSION_COOKIE_NAME (trim c)) (split_char ";" cookies)).

Definition is_no_token (t : ExtractedToken) : bool := match t with NoToken => true | _ => false end.

Definition extract_token (h : HeaderMap) : ExtractedToken :=
  let fallback :=
    match header_str h "x-api-key" with
    | Some k => ApiKey k
    | None => match session_cookie_token h with Some t => Bearer t | None => NoToken end
    end in
  match header_str h "authorization" with
  | Some v => let result := extract_token_from_auth_header v in if is_no_token result then fallback else result
  | None => fallback
  end.

Definition has_header_credential (h : HeaderMap) : bool :=
  match header_str h "authorization" with
  | Some v => negb (is_no_token (extract_token_from_auth_header v))
  | None => false
  end || contains_key h "x-api-key".

Definition credential_is_session_cookie (h : HeaderMap) : bool :=
  negb (has_header_credential h) && bool_decide (is_Some (session_cookie_token h)).

Definition request_carries_credentials (h : HeaderMap) : bool :=
  has_header_credential h || bool_decide (is_Some (session_cookie_token h)).

Definition extract_visibility_token (r : HttpRequest) : ExtractedToken :=
  let extracted := extract_token (headers r) in
  if negb (is_no_token extracted) then extracted
  else
    match extract_conda_url_token (uri_path r), extract_nuget_push_api_key r with
    | Some t, _ => ApiKey t
    | None, Some k => ApiKey k
    | None, None => NoToken
    end.

Definition decode_basic_credentials `{TokenCodecs} (encoded : string) : option (string * string) :=
  bytes ← base64_decode encoded;
  if valid_utf8 bytes then split_once (Ascii.eqb ":") bytes else None.

(** * The CSRF contract *)

Definition is_state_changing_method (m : Method) : bool :=
  match m with POST | PUT | PATCH | DELETE => true | _ => false end.

Definition is_browser_request (h : HeaderMap) : bool :=
  if contains_key h "sec-fetch-mode" || contains_key h "sec-fetch-site" then true
  else match header_str h "accept" with Some v => contains "text/html" (to_ascii_lowercase v) | None => false end.

Definition eq_ignore_ascii_case (a b : string) : bool := to_ascii_lowercase a =? to_ascii_lowercase b.

Definition declares_same_origin (h : HeaderMap) : bool :=
  match header_str h "sec-fetch-site" with
  | Some v => let v := trim v in eq_ignore_ascii_case v "same-origin" || eq_ignore_ascii_case v "none"
  | None => false
  end.

Definition violates_csrf_contract (m : Method) (h : HeaderMap) : bool :=
  is_state_changing_method m && credential_is_session_cookie h && is_browser_request h &&
  negb (contains_key h "x-requested-with") && negb (declares_same_origin h).

(** * Methods and the POSTs that are reads *)

Definition is_write_method (m : Method) : bool :=
  match m with POST | PUT | PATCH | DELETE => true | _ => false end.

Definition action_for_method (m : Method) : string :=
  match m with
  | GET | HEAD | OPTIONS => "read"
  | PUT | POST | PATCH => "write"
  | DELETE => "delete"
  | OtherMethod _ => "read"
  end.

Definition is_pypi_xmlrpc_tail (segments : list string) : bool :=
  match segments with
  | k :: "pypi" :: tail => negb (is_empty k) && match tail with [] => true | [s] => is_empty s | _ => false end
  | _ => false
  end.

Definition is_npm_audit_tail (segments : list string) : bool :=
  match segments with
  | k :: "-" :: "npm" :: "v1" :: "security" :: a :: b :: tail =>
      negb (is_empty k) &&
      (((a =? "advisories") && (b =? "bulk")) || ((a =? "audits") && (b =? "quick"))) &&
      bool_decide (tail = [])
  | _ => false
  end.

Definition is_gallery_query_tail (segments : list string) : bool :=
  match segments with [k; "gallery"; "extensionquery"] => negb (is_empty k) | _ => false end.

Definition is_non_mutating_format_post (path : string) : bool :=
  match segments_of path with
  | f :: tail =>
      if f =? "lfs" then match tail with [k; "objects"; "batch"] => negb (is_empty k) | _ => false end
      else if f =? "conan" then match tail with [k; "v2"; "users"; "authenticate"] => negb (is_empty k) | _ => false end
      else if f =? "vscode" then is_gallery_query_tail tail
      else if f =? "pypi" then is_pypi_xmlrpc_tail tail
      else if f =? "npm" then is_npm_audit_tail tail
      else false
  | [] => false
  end.

Definition is_anonymous_readable_format_post (path : string) : bool :=
  match split_char "/" (default path (strip_prefix "/" path)) with
  | f :: tail =>
      if f =? "vscode" then is_gallery_query_tail tail
      else if f =? "pypi" then is_pypi_xmlrpc_tail tail
      else if f =? "npm" then is_npm_audit_tail tail
      else false
  | [] => false
  end.

(** * The routes of the format handlers

    The mounts of [api/routes.rs], with the router of every conda mount spelled
    out; the other mounts take any path below the key.  A parameter binds one
    non-empty segment. *)

Inductive Segment := Lit (s : string) | Param | Key | Rest.

Definition FORMAT_MOUNTS : list string :=
  ["general"; "npm"; "maven"; "pypi"; "debian"; "nuget"; "rpm"; "cargo"; "gems"; "lfs"; "pub"; "go"; "helm"; "composer";
   "conan"; "alpine"; "pacman"; "swift"; "terraform"; "cocoapods"; "hex"; "huggingface"; "jetbrains"; "chef"; "puppet";
   "ansible"; "cran"; "bazel"; "ivy"; "vscode"; "proto"; "incus"; "lxc"].

(** What conda's routers serve below the key. *)
Definition conda_tails : list (list Segment) :=
  [[Lit "channeldata.json"]; [Lit "notices.json"]; [Lit "keys"; Lit "repo.pub"]; [Lit "upload"];
   [Param; Lit "repodata.json"]; [Param; Lit "repodata.json.bz2"]; [Param; Lit "repodata.json.sig"];
   [Param; Lit "repodata.json.zst"]; [Param; Lit "repodata.json.jlap"]; [Param; Lit "current_repodata.json"];
   [Param; Lit "run_exports.json"]; [Param; Lit "patch_instructions.json"]; [Param; Lit "repodata_shards.msgpack.zst"];
   [Param; Lit "shards"; Param]; [Param; Param]; [Param; Param; Lit "attestation"]].

Definition format_mounts : list (list Segment) :=
  (fun f => [Lit f; Key; Rest]) <$> FORMAT_MOUNTS.
Definition api_mounts : list (list Segment) := [[Lit "api"; Lit "cargo"; Key; Rest]; [Lit "api"; Lit "helm"; Key; Rest]].
Definition plugin_mounts : list (list Segment) := [[Lit "ext"; Param; Key; Rest]].
Definition conda_routes : list (list Segment) := (fun tl => Lit "conda" :: Key :: tl) <$> conda_tails.
Definition token_routes : list (list Segment) := (fun tl => Lit "conda" :: Lit "t" :: Param :: Key :: tl) <$> conda_tails.
Definition rattler_token_routes : list (list Segment) :=
  (fun tl => Lit "t" :: Param :: Lit "conda" :: Key :: tl) <$> conda_tails.

Definition format_routes : list (list Segment) :=
  format_mounts ++ api_mounts ++ plugin_mounts ++ conda_routes ++ token_routes ++ rattler_token_routes.

(** The segments bound to the key by a route that matches. *)
Fixpoint route_match (route : list Segment) (segs : list string) : option (list string) :=
  match route, segs with
  | [], [] => Some []
  | Rest :: _, _ => Some []
  | Lit s :: route, x :: segs => if s =? x then route_match route segs else None
  | Param :: route, x :: segs => if is_empty x then None else route_match route segs
  | Key :: route, x :: segs => if is_empty x then None else cons x <$> route_match route segs
  | _, _ => None
  end.

Definition serves (route : list Segment) (path e : string) : Prop :=
  exists s, path = "/" +:+ s /\ route_match route (split_char "/" s) = Some [e].

Example repo_key_1 : extract_repo_key "/maven/privat%65/com/x" = "private" /\ extract_repo_key "//pypi/p/simple/" = "p" /\
  extract_repo_key "/conda/t/tok/chan/noarch/repodata.json" = "chan" /\ extract_repo_key "/conda/t/upload" = "t" /\
  extract_repo_key "/t/tok/conda/chan/noarch" = "chan" /\ extract_repo_key "/ext/unity/r/x" = "r" /\
  extract_repo_key "/api/cargo/r/config.json" = "r" /\ extract_repo_key "/api/v1/x" = "v1" /\
  extract_repo_key "/npm//pkg" = "" /\ extract_repo_key "/npm/a%zz/x" = "a%zz".
Proof. vm_compute. done. Qed.

Example tokens_1 : extract_conda_url_token "/conda/t/tok/chan" = Some "tok" /\ extract_conda_url_token "/conda/t/upload" = None /\
  extract_ticket_from_query (Some "a=b&ticket=%41b+c") = Some "Ab c" /\ extract_ticket_from_query (Some "ticket=&ticket=x") = None /\
  is_nuget_push_path "/nuget/r/api/v2/package/" = true /\ is_nuget_push_path "/nuget/r/api/v2/package/x" = false.
Proof. vm_compute. done. Qed.

(** * The key the gate and the handler evaluate *)

(** [e] spells [k] in a path segment: bytes stand for themselves or for a
    percent escape of either case. *)
Inductive Spells : string -> string -> Prop :=
| spells_nil : Spells "" ""
| spells_char c e k : c <> "%"%char -> Spells e k -> Spells (String c e) (String c k)
| spells_escape h l hi lo e k :
    percent_hex_val h = Some hi -> percent_hex_val l = Some lo -> Spells e k ->
    Spells (String "%" (String h (String l e))) (String (join_nibbles hi lo) k).

Lemma decode_loop_spells e k : percent_decode_loop e = Some k <-> Spells e k.
Proof.
  split.
  - revert k. remember (String.length e) as n eqn:Hn. assert (String.length e <= n)%nat as Hle by lia. clear Hn.
    revert e Hle. induction n as [|n IH]; intros [|c e] Hle k; try (simpl in Hle; lia); cbn [percent_decode_loop];
      try (intros [= <-]; constructor).
    destruct (Ascii.eqb_spec "%" c) as [<-|Hc].
    + destruct e as [|h [|l e]]; [done..|]. simpl in Hle.
      destruct (percent_hex_val h) eqn:Eh; [|done]. destruct (percent_hex_val l) eqn:El; [|done]. simpl.
      destruct (percent_decode_loop e) as [k'|] eqn:E; [|done]. intros [= <-].
      econstructor; [done..|]. apply IH; [lia|done].
    + destruct (percent_decode_loop e) as [k'|] eqn:E; [|done]. intros [= <-].
      constructor; [by intros ->|]. apply IH; [simpl in Hle; lia|done].
  - induction 1 as [|c e k Hc _ IH|h l hi lo e k Hh Hl _ IH]; cbn [percent_decode_loop]; [done| |].
    + destruct (Ascii.eqb_spec "%" c) as [<-|_]; [done|]. by rewrite IH.
    + rewrite Ascii.eqb_refl. by rewrite Hh, Hl; simpl; rewrite IH.
Qed.

Lemma spells_plain e : str_all (fun c => negb (Ascii.eqb "%" c)) e = true -> forall k, Spells e k <-> k = e.
Proof.
  intros He k. split.
  - intros Hs. induction Hs as [|c e k Hc _ IH|]; [done| |].
    + simpl in He. apply andb_true_iff in He as [_ He]. by rewrite IH.
    + simpl in He. done.
  - intros ->. induction e as [|c e IH]; [constructor|]. simpl in He. apply andb_true_iff in He as [Hc He].
    constructor; [|by apply IH]. intros ->. done.
Qed.

(** Axum's decoding of a route parameter: what the segment spells, when it is
    UTF-8. *)
Definition Decodes (e k : string) : Prop :=
  Spells e k /\ (valid_utf8 k = true \/ str_all (fun c => negb (Ascii.eqb "%" c)) e = true).

Lemma decode_segment e k : percent_decode_path_segment e = Some k <-> Decodes e k.
Proof.
  unfold percent_decode_path_segment, Decodes. destruct (str_all _ e) eqn:Ep.
  - rewrite (spells_plain e Ep). split; [intros [= ->]; auto|by intros [-> _]].
  - rewrite <- decode_loop_spells. destruct (percent_decode_loop e) as [d|]; simpl; [|naive_solver].
    destruct (valid_utf8 d) eqn:Ev; split; naive_solver congruence.
Qed.

(** The segment the gate reads the key from, by the shape of the path. *)
Inductive GateReads : list string -> string -> Prop :=
| reads_plain f e tl : f ∉ ["conda"; "ext"; "api"; "t"] -> GateReads (f :: e :: tl) e
| reads_conda e tl : e <> "t" \/ (length tl <= 1)%nat -> GateReads ("conda" :: e :: tl) e
| reads_conda_token token e tl : GateReads ("conda" :: "t" :: token :: e :: tl) e
| reads_rattler token k tl e : token <> "" -> k <> "" -> GateReads ("conda" :: k :: tl) e ->
    GateReads ("t" :: token :: "conda" :: k :: tl) e
| reads_ext f e tl : GateReads ("ext" :: f :: e :: tl) e
| reads_api f e tl : f ∈ ["cargo"; "helm"] -> GateReads ("api" :: f :: e :: tl) e.

Definition no_slash (s : string) : bool := str_all (fun c => negb (Ascii.eqb "/" c)) s.

Lemma split_cut a b : no_slash a = true -> split_char "/" (a +:+ String "/" b) = a :: split_char "/" b.
Proof.
  induction a as [|c a IH]; [done|]. intros [Hc%negb_true_iff Ha]%andb_prop. unfold split_char in *.
  cbn [String.append split_on]. by rewrite Hc, (IH Ha).
Qed.

Lemma split_once_split s a b : split_once (Ascii.eqb "/") s = Some (a, b) -> split_char "/" s = a :: split_char "/" b.
Proof. intros (c & Hc%Ascii.eqb_eq & -> & Ha)%split_once_Some. subst c. by apply split_cut. Qed.

Ltac in_list := by repeat first [apply list_elem_of_here | apply list_elem_of_further].

(** Rattler's layout, read off the segments. *)
Lemma rattler_segments s : is_Some (rattler_conda_token_rest s) <->
  exists token e tl, split_char "/" s = "t" :: token :: "conda" :: e :: tl /\ token <> "" /\ e <> "".
Proof.
  unfold rattler_conda_token_rest. split.
  - intros [[token rest] H]. apply bind_Some in H as (r1 & Ht%strip_prefix_Some & H).
    apply bind_Some in H as ([tok r2] & Ho & H). apply bind_Some in H as (after & Hc%strip_prefix_Some & H).
    apply split_once_split in Ho. subst s r2. exists tok.
    change ("t/" +:+ r1) with ("t" +:+ String "/" r1). change ("conda/" +:+ after) with ("conda" +:+ String "/" after) in Ho.
    rewrite (split_cut "t" r1), Ho, (split_cut "conda" after) by done.
    destruct (split_char "/" after) as [|e tl] eqn:E; [by apply split_on_nonempty in E|].
    exists e, tl. split; [done|]. unfold next_or_empty in H. change (default "" (head (e :: tl))) with e in H.
    destruct (is_empty tok) eqn:E1, (is_empty e) eqn:E2; cbn [orb] in H; try done.
    by apply String.eqb_neq in E1, E2.
  - intros (token & e & tl & Hs & Htok & He). pose proof (split_on_join "/" s) as Hj. rewrite Hs in Hj.
    assert (no_slash token = true /\ no_slash e = true) as [Ntok Ne].
    { split; apply (split_on_pieces (Ascii.eqb "/") s); fold (split_char "/" s); rewrite Hs; in_list. }
    set (after := join "/" (e :: tl)) in *.
    assert (s = "t" +:+ String "/" (token +:+ String "/" ("conda" +:+ String "/" after))) as -> by (rewrite <- Hj; by destruct tl).
    assert (split_char "/" after = e :: tl) as Ea.
    { rewrite (split_cut "t"), (split_cut token), (split_cut "conda") in Hs by done. by injection Hs. }
    rewrite (proj2 (strip_prefix_Some "t/" _ (token +:+ String "/" ("conda" +:+ String "/" after)))) by done. cbn [mbind option_bind].
    rewrite split_once_cut by done. cbn [mbind option_bind].
    rewrite (proj2 (strip_prefix_Some "conda/" _ after)) by done. cbn [mbind option_bind]. rewrite Ea.
    change (next_or_empty (e :: tl)) with e.
    apply String.eqb_neq in Htok, He. unfold is_empty. rewrite Htok, He. simpl. eauto.
Qed.

Lemma key_after_prefix segs e : GateReads segs e -> head segs <> Some "t" ->
  next_or_empty (skip_prefixes (next_or_empty segs) (drop 1 segs)) = e.
Proof.
  intros Hr Hnt. unfold skip_prefixes. destruct Hr as [f e tl Hf|e tl He|token e tl|token k tl e Ht Hk Hr|f e tl|f e tl Hf].
  - change (next_or_empty (f :: e :: tl)) with f. change (drop 1 (f :: e :: tl)) with (e :: tl).
    assert (forall g, g ∈ ["conda"; "ext"; "api"; "t"] -> (f =? g) = false) as Hne
      by (intros g Hg; apply String.eqb_neq; by intros ->).
    by rewrite !Hne by in_list.
  - assert (bool_decide (Some e = Some "t") && bool_decide (is_Some ((e :: tl) !! 2%nat)) = false) as Hs.
    { apply andb_false_iff. destruct He as [He|He]; [left; apply bool_decide_eq_false_2; congruence|].
      right. apply bool_decide_eq_false_2. destruct tl as [|x [|y tl]]; simpl in He |- *; try lia; by intros [? [=]]. }
    change (next_or_empty ("conda" :: e :: tl)) with "conda". change (drop 1 ("conda" :: e :: tl)) with (e :: tl).
    change (head (e :: tl)) with (Some e). rewrite <- andb_assoc, Hs. done.
  - done.
  - by destruct Hnt.
  - done.
  - change (next_or_empty ("api" :: f :: e :: tl)) with "api". apply one_of_true in Hf.
    change (drop 1 ("api" :: f :: e :: tl)) with (f :: e :: tl). simpl in Hf |- *. by rewrite Hf.
Qed.

Lemma gate_reads path e : GateReads (segments_of path) e ->
  extract_repo_key path = default e (percent_decode_path_segment e).
Proof.
  intros Hr. unfold segments_of in Hr. unfold extract_repo_key. set (s := trim_slashes path) in *.
  pose proof (rattler_segments s) as Hrat. remember (split_char "/" s) as segs eqn:Es. clear Es.
  destruct (rattler_conda_token_rest s) as [p|].
  - destruct (proj1 Hrat ltac:(by eexists)) as (token & e' & tl & -> & _ & _).
    inversion Hr as [f ? ? Hf| | |? ? ? ? _ _ Hc| |]; subst; [exfalso; apply Hf; in_list|].
    change (drop 2 ("t" :: token :: "conda" :: e' :: tl)) with ("conda" :: e' :: tl).
    f_equal; [|f_equal]; by apply key_after_prefix.
  - f_equal; [|f_equal]; apply key_after_prefix; try done.
    all: intros Ht; destruct Hr as [f e tl Hf| | |token k tl e Htok Hk _| |]; try discriminate Ht;
      [injection Ht as ->; exfalso; apply Hf; in_list|by destruct (proj2 Hrat) as [? [=]]; eauto 6].
Qed.

(** The key the gate looks up is the one the segment spells; a segment that
    spells none keeps its percent sign, which no key has. *)
Definition looks_up (path e : string) : Prop :=
  (forall k, Decodes e k -> extract_repo_key path = k) /\
  ((forall k, ~ Decodes e k) -> extract_repo_key path = e /\ str_all (fun c => negb (Ascii.eqb "%" c)) e = false).

Lemma reads_looks_up path e : GateReads (segments_of path) e -> looks_up path e.
Proof.
  intros Hr%gate_reads. split.
  - intros k Hk%decode_segment. by rewrite Hr, Hk.
  - intros Hno. rewrite Hr. destruct (percent_decode_path_segment e) eqn:E; [by apply decode_segment, Hno in E|].
    split; [done|]. unfold percent_decode_path_segment in E. by destruct (str_all _ e).
Qed.

(** ** The routes of the table *)

Lemma served_segments route s e : match route with Lit f :: _ => is_empty f = false | _ => False end ->
  route_match route (split_char "/" s) = Some [e] -> segments_of ("/" +:+ s) = split_char "/" s.
Proof.
  destruct route as [|[f| | |] route]; try done. intros Hf Hm. unfold segments_of. f_equal.
  unfold trim_slashes. cbn [String.append trim_start_by]. rewrite Ascii.eqb_refl.
  destruct s as [|c s]; [done|]. cbn [trim_start_by]. destruct (Ascii.eqb "/" c) eqn:Hc; [|done].
  exfalso. unfold split_char in Hm. cbn [split_on] in Hm. rewrite Hc in Hm. cbn [route_match] in Hm.
  by destruct f.
Qed.

Lemma all_in {A} (P : A -> Prop) (l : list A) : Forall P l -> forall x, x ∈ l -> P x.
Proof. intros Hall x Hx. by apply (proj1 (Forall_forall _ _) Hall), list_elem_of_In. Qed.

(** A tail without key or wildcard matches as many segments as it has. *)
Definition plain_segment (x : Segment) : Prop := match x with Lit _ | Param => True | _ => False end.

Lemma tail_match tl segs l : Forall plain_segment tl -> route_match tl segs = Some l ->
  l = [] /\ length segs = length tl.
Proof.
  intros Hall. revert segs l. induction Hall as [|x tl Hx Hall IH]; intros [|y segs] l; cbn; try by intros [= <-].
  - by destruct x.
  - destruct x as [s| | |]; try done.
    + destruct (s =? y); [|done]. intros Hm. by destruct (IH segs l Hm) as [-> ->].
    + destruct (is_empty y); [done|]. intros Hm. by destruct (IH segs l Hm) as [-> ->].
Qed.

Lemma conda_tail tl : tl ∈ conda_tails ->
  Forall plain_segment tl /\ (1 <= length tl)%nat.
Proof.
  revert tl. apply all_in.
  unfold conda_tails. repeat (constructor; [split; [repeat constructor|cbn; lia]|]). constructor.
Qed.

(** A route of conda with the key after [pre]. *)
Lemma key_match tl segs e : tl ∈ conda_tails -> route_match (Key :: tl) segs = Some [e] ->
  exists rest, segs = e :: rest /\ e <> "" /\ length rest = length tl.
Proof.
  intros [Hall _]%conda_tail Hm. destruct segs as [|x segs]; [done|]. cbn in Hm.
  destruct (is_empty x) eqn:Ex; [done|]. destruct (route_match tl segs) as [l|] eqn:E; [|done].
  destruct (tail_match _ _ _ Hall E) as [-> Hlen]. injection Hm as ->. exists segs.
  split_and!; [done|by apply String.eqb_neq in Ex|done].
Qed.

Lemma lit_match f route segs l : route_match (Lit f :: route) segs = Some l ->
  exists rest, segs = f :: rest /\ route_match route rest = Some l.
Proof. destruct segs as [|x segs]; [done|]. cbn. destruct (String.eqb_spec f x) as [->|]; [|done]. eauto. Qed.

Lemma param_match route segs l : route_match (Param :: route) segs = Some l ->
  exists x rest, segs = x :: rest /\ x <> "" /\ route_match route rest = Some l.
Proof.
  destruct segs as [|x segs]; [done|]. cbn. destruct (is_empty x) eqn:Ex; [done|]. intros Hm. exists x, segs.
  by apply String.eqb_neq in Ex.
Qed.

Lemma mount_match segs e : route_match [Key; Rest] segs = Some [e] -> exists rest, segs = e :: rest.
Proof. destruct segs as [|x segs]; [done|]. cbn. destruct (is_empty x); [done|]. intros [= ->]. eauto. Qed.

(** How many segments a channel route has in front of the key and behind it, for
    the channels whose key does not follow a token: conda's own and rattler's. *)
Inductive ChannelRoute : list Segment -> nat -> nat -> Prop :=
| conda_channel tl : tl ∈ conda_tails -> ChannelRoute (Lit "conda" :: Key :: tl) 1 (length tl)
| rattler_channel tl : tl ∈ conda_tails -> ChannelRoute (Lit "t" :: Param :: Lit "conda" :: Key :: tl) 3 (length tl).

Lemma channel_match route before behind segs e : ChannelRoute route before behind -> route_match route segs = Some [e] ->
  exists front tl, segs = front ++ e :: tl /\ length front = before /\ length tl = behind /\
    (forall k, GateReads ("conda" :: e :: tl) k -> GateReads segs k).
Proof.
  intros [tl Htl|tl Htl].
  - intros (rest & -> & Hm)%lit_match. destruct (key_match _ _ _ Htl Hm) as (tl' & -> & _ & Hlen).
    exists ["conda"], tl'. by split_and!.
  - intros (r1 & -> & (token & r2 & -> & Htok & (r3 & -> & Hm)%lit_match)%param_match)%lit_match.
    destruct (key_match _ _ _ Htl Hm) as (tl' & -> & He & Hlen).
    exists ["t"; token; "conda"], tl'. split_and!; [done..|]. intros k Hk. by constructor.
Qed.

(** On any other route of the table the gate reads the segment bound to the key. *)
Lemma table_match route segs e : route ∈ format_routes -> route_match route segs = Some [e] ->
  (exists before behind, ChannelRoute route before behind) \/ GateReads segs e.
Proof.
  unfold format_routes. rewrite !elem_of_app. intros Hin Hm. destruct Hin as [Hin|[Hin|[Hin|[Hin|[Hin|Hin]]]]].
  4, 6: left; apply list_elem_of_fmap in Hin as (tl & -> & Htl); by eauto using ChannelRoute.
  all: right.
  - apply list_elem_of_fmap in Hin as (f & -> & Hf). apply lit_match in Hm as (rest & -> & (tl & ->)%mount_match).
    apply reads_plain. revert f Hf. apply all_in, (bool_decide_unpack _). vm_compute. exact I.
  - unfold api_mounts in Hin. rewrite !elem_of_cons, elem_of_nil in Hin. destruct Hin as [->|[->|[]]];
      apply lit_match in Hm as (rest & -> & (rest' & -> & (tl & ->)%mount_match)%lit_match); apply reads_api; in_list.
  - apply list_elem_of_singleton in Hin as ->.
    apply lit_match in Hm as (rest & -> & (x & rest' & -> & _ & (tl & ->)%mount_match)%param_match). constructor.
  - apply list_elem_of_fmap in Hin as (tl & -> & Htl).
    apply lit_match in Hm as (r1 & -> & (r2 & -> & (x & r3 & -> & _ & Hm)%param_match)%lit_match).
    destruct (key_match _ _ _ Htl Hm) as (tl' & -> & _). constructor.
Qed.

Lemma table_literal route : route ∈ format_routes -> match route with Lit f :: _ => is_empty f = false | _ => False end.
Proof.
  revert route. apply all_in.
  unfold format_routes, format_mounts, FORMAT_MOUNTS, conda_routes, token_routes, rattler_token_routes, conda_tails.
  cbn [fmap list_fmap app]. repeat (constructor; [done|]). constructor.
Qed.

(** C9. The gate and the handler agree on the repository of a request, with one
    exception.  On every route a format handler is mounted at - conda's three
    mounts route by route, the plugin and the [/api] aliases included - the gate
    looks up the key that the segment bound to [:repo_key] decodes to, however it
    is spelled, and a segment that decodes to nothing keeps its percent sign,
    which no key has.  The exception is a conda channel whose segment is [t] with
    at least two more behind it ([/conda/t/noarch/repodata.json]): the handler
    serves the repository [t], while the gate takes the next segment for a token
    and looks up the one after it. *)
Theorem repo_key_as_served route path e : route ∈ format_routes -> serves route path e ->
  ((forall before behind, ChannelRoute route before behind -> e = "t" -> (behind <= 1)%nat) -> looks_up path e) /\
  (forall before behind, ChannelRoute route before behind -> e = "t" -> (2 <= behind)%nat ->
     exists front token k tl, segments_of path = front ++ "t" :: token :: k :: tl /\ length front = before /\ looks_up path k).
Proof.
  intros Hin (s & -> & Hm). pose proof (served_segments route s e (table_literal route Hin) Hm) as Hs.
  rewrite <- Hs in Hm. split.
  - intros Hshort. apply reads_looks_up.
    destruct (table_match _ _ _ Hin Hm) as [(before & behind & Hc)|Hr]; [|exact Hr].
    destruct (channel_match _ _ _ _ _ Hc Hm) as (front & tl & Hsegs & _ & Hlen & Hreads). apply Hreads, reads_conda.
    destruct (String.eqb_spec e "t") as [He|]; [right|by left]. rewrite Hlen. by eapply Hshort.
  - intros before behind Hc -> Hlong. destruct (channel_match _ _ _ _ _ Hc Hm) as (front & tl & Hsegs & Hf & Hlen & Hreads).
    destruct tl as [|token [|k tl]]; [cbn in Hlen; lia..|]. exists front, token, k, tl. split_and!; [done..|].
    apply reads_looks_up, Hreads. constructor.
Qed.

Lemma repo_key_as_served_witness : serves [Lit "maven"; Key; Rest] "/maven/privat%65/com/x" "privat%65" /\
  extract_repo_key "/maven/privat%65/com/x" = "private" /\
  serves [Lit "conda"; Key; Param; Lit "repodata.json"] "/conda/t/noarch/repodata.json" "t" /\
  extract_repo_key "/conda/t/noarch/repodata.json" = "repodata.json".
Proof.
  assert (serves [Lit "maven"; Key; Rest] "/maven/privat%65/com/x" "privat%65") as Hr by (by eexists).
  assert (serves [Lit "conda"; Key; Param; Lit "repodata.json"] "/conda/t/noarch/repodata.json" "t") as Ht by (by eexists).
  split_and!; [exact Hr| |exact Ht|].
  - apply (repo_key_as_served [Lit "maven"; Key; Rest] _ "privat%65"); [in_list|exact Hr| |by apply decode_segment].
    intros before behind Hc. inversion Hc.
  - destruct (proj2 (repo_key_as_served [Lit "conda"; Key; Param; Lit "repodata.json"] _ "t" ltac:(in_list) Ht) 1%nat 2%nat
      (conda_channel [Param; Lit "repodata.json"] ltac:(in_list)) eq_refl (le_n 2)) as (front & token & k & tl & Hsegs & Hf & Hk & _).
    destruct front as [|? [|]]; try discriminate Hf. injection Hsegs as <- <- <- <-. apply Hk. by apply decode_segment.
Defined.

(** * Which credential a request carries *)

(** What the request would be without the header a browser attaches by
    itself. *)
Definition without_cookie (h : HeaderMap) : HeaderMap := base.filter (fun kv => kv.1 <> "cookie") h.

(** The credential the server takes is the session cookie's. *)
Definition cookie_authenticated (h : HeaderMap) : Prop :=
  is_no_token (extract_token h) = false /\ extract_token (without_cookie h) = NoToken.

Lemma header_without h n : header_str (without_cookie h) n = if n =? "cookie" then None else header_str h n.
Proof.
  unfold header_str, header, without_cookie. induction h as [|[k v] h IH]; [by destruct (n =? "cookie")|].
  destruct (decide (k = "cookie")) as [->|Hk].
  - rewrite filter_cons_False by (intros H; by apply H). rewrite IH. cbn [List.find fst]. rewrite (String.eqb_sym n).
    by destruct ("cookie" =? n).
  - rewrite filter_cons_True by done. cbn [List.find fst]. destruct (String.eqb_spec k n) as [->|Hn]; [|exact IH].
    by rewrite (proj2 (String.eqb_neq _ _) Hk).
Qed.

Lemma header_token_found v : is_no_token (extract_token_from_auth_header v) = false.
Proof.
  unfold extract_token_from_auth_header.
  destruct (strip_prefix "Bearer " v), (strip_prefix "Token " v), (strip_prefix "ApiKey " v),
    (first_prefix ["Basic "; "basic "] v); try done.
  by destruct (negb (is_empty v) && negb (contains " " v)).
Qed.

Lemma extract_token_none h : extract_token h = NoToken <->
  header_str h "authorization" = None /\ header_str h "x-api-key" = None /\ session_cookie_token h = None.
Proof.
  unfold extract_token. destruct (header_str h "authorization") as [v|].
  - pose proof (header_token_found v) as Hv. rewrite Hv. split; [|naive_solver]. intros E. by rewrite E in Hv.
  - destruct (header_str h "x-api-key"), (session_cookie_token h); naive_solver.
Qed.

Lemma header_contained h n v : header_str h n = Some v -> contains_key h n = true.
Proof.
  unfold header_str, header, contains_key. intros H. apply bind_Some in H as (w & Hw & _).
  apply fmap_Some in Hw as (kv & Hf%List.find_some & _). apply existsb_exists. by exists kv.
Qed.

(** The CSRF contract stops a request exactly when the method changes
    state, a browser sent it, it proves no same origin, and the credential the
    server would take is the session cookie's, provided it has no [X-API-Key]
    header at all: one whose value the server cannot read is no credential
    either, and yet lifts the contract from a request the cookie
    authenticates. *)
Theorem csrf_contract m h : violates_csrf_contract m h = true <->
  is_state_changing_method m = true /\ is_browser_request h = true /\
  contains_key h "x-requested-with" = false /\ declares_same_origin h = false /\
  cookie_authenticated h /\ contains_key h "x-api-key" = false.
Proof.
  unfold violates_csrf_contract, cookie_authenticated. rewrite !andb_true_iff, !negb_true_iff.
  assert (credential_is_session_cookie h = true <->
    (is_no_token (extract_token h) = false /\ extract_token (without_cookie h) = NoToken) /\
    contains_key h "x-api-key" = false) as ->; [|tauto].
  assert (session_cookie_token (without_cookie h) = None) as Hc
    by (unfold session_cookie_token; by rewrite header_without).
  rewrite (extract_token_none (without_cookie h)), Hc, !header_without. cbn [String.eqb Ascii.eqb].
  unfold credential_is_session_cookie, has_header_credential. rewrite andb_true_iff, negb_true_iff, orb_false_iff, bool_decide_eq_true.
  assert (is_no_token (extract_token h) = false <-> ~ (header_str h "authorization" = None /\
    header_str h "x-api-key" = None /\ session_cookie_token h = None)) as ->.
  { rewrite <- extract_token_none. destruct (extract_token h); naive_solver. }
  pose proof (header_contained h "x-api-key") as Hk.
  destruct (header_str h "authorization") as [v|]; [pose proof (header_token_found v) as ->; naive_solver|].
  destruct (session_cookie_token h) as [t|] eqn:Et; [|naive_solver].
  destruct (header_str h "x-api-key") as [k|]; [|naive_solver].
  rewrite (Hk k eq_refl). naive_solver.
Qed.

(** * POSTs that are reads *)

Lemma trim_slashes_named p f tl : split_char "/" p = f :: tl -> f <> "" ->
  trim_slashes p = p /\ trim_slashes (String "/" p) = p.
Proof.
  intros Hs Hf. assert (trim_slashes p = p) as Hp; [|by split; [|unfold trim_slashes in *; simpl]].
  destruct p as [|c p]; [done|]. unfold trim_slashes. cbn [trim_start_by]. unfold split_char in Hs. cbn [split_on] in Hs.
  destruct (Ascii.eqb "/" c); [|done]. by injection Hs as <- _.
Qed.

(** A POST a public repository serves to anybody is one that changes
    nothing. *)
Lemma anonymous_post_non_mutating path :
  is_anonymous_readable_format_post path = true -> is_non_mutating_format_post path = true.
Proof.
  unfold is_anonymous_readable_format_post, is_non_mutating_format_post, segments_of.
  set (p := default path (strip_prefix "/" path)). destruct (split_char "/" p) as [|f tl] eqn:Es; [done|].
  destruct (decide (f = "")) as [->|Hf]; [done|].
  assert (trim_slashes path = p) as ->.
  { destruct (trim_slashes_named p f tl Es Hf) as [Hp Hsp]. subst p.
    destruct (strip_prefix "/" path) as [r|] eqn:Er; [|done]. by apply strip_prefix_Some in Er as ->. }
  rewrite Es. destruct (String.eqb_spec f "vscode") as [->|_]; [done|]. destruct (String.eqb_spec f "pypi") as [->|_]; [done|].
  by destruct (String.eqb_spec f "npm") as [->|_].
Qed.
