(* ===== verification/RepoGate.v ===== *)
(** The gate in front of every format route ([repo_visibility_middleware] of
    [api/middleware/auth.rs]) with what it calls: the repository caches
    ([api/mod.rs]), the resolution of the presented credential, and download
    tickets ([services/auth_config_service.rs]).

    The three validators of [AuthService] are an interface: JWT signatures and
    bcrypt are third-party.  A statement that fails is a parameter of the
    request, as are its clocks and its verified address.  The response of the
    gate is a refusal, or the request handed on with the principal attached.
    Metrics, spans and the tenant scope of archive decoding are left out. *)

From stdpp Require Import base list strings option gmap.
From Stdlib Require Import ZArith Lia Ascii.
From S2P Require Import Prelude RustStr Repository Errors ClientIp Chrono RateLimit AccessDb Auth Permission RequestPath.

Local Open Scope Z_scope.
Local Open Scope string_scope.
Local Open Scope list_scope.
Local Open Scope result_scope.

(** * Credentials *)

Record AuthService := {
  validate_access_token_async : string -> result AppError Claims;
  validate_api_token : string -> result AppError ApiTokenValidation;
  authenticate : string -> string -> result AppError User
}.

Inductive AuthOutcome := Resolved (ext : AuthExtension) | NoCredential | InvalidCredential | Overloaded.

Inductive TokenAuthError := TokenInvalid | TokenOverloaded.

(** The error of a check the database could not answer. *)
Definition is_overload (e : AppError) : bool :=
  match e with ServiceUnavailable _ => true | _ => is_db_unavailable e end.

Definition classify_token_validation_err (e : AppError) : TokenAuthError :=
  if is_overload e then TokenOverloaded else TokenInvalid.

Definition validate_api_token_with_scopes (svc : AuthService) (token : string) : result TokenAuthError AuthExtension :=
  match validate_api_token svc token with
  | Ok v => Ok (ext_of_validation v)
  | Err e => Err (classify_token_validation_err e)
  end.

(** The last resort of a branch. *)
Definition api_token_outcome (svc : AuthService) (token : string) : AuthOutcome :=
  match validate_api_token_with_scopes svc token with
  | Ok ext => Resolved ext
  | Err TokenOverloaded => Overloaded
  | Err TokenInvalid => InvalidCredential
  end.

Definition resolve_auth_outcome `{TokenCodecs} (svc : AuthService) (extracted : ExtractedToken)
  (allow_basic_api_token : bool) : AuthOutcome :=
  match extracted with
  | Bearer token =>
      match validate_access_token_async svc token with
      | Ok claims => Resolved (ext_of_claims claims)
      | Err e =>
          if is_db_unavailable e then Overloaded
          else
            match validate_api_token_with_scopes svc token with
            | Ok ext => Resolved ext
            | Err TokenOverloaded => Overloaded
            | Err TokenInvalid =>
                match decode_basic_credentials token with
                | Some (username, password) =>
                    match authenticate svc username password with
                    | Ok user => Resolved (ext_of_user user)
                    | Err e => if is_overload e then Overloaded else InvalidCredential
                    end
                | None => InvalidCredential
                end
            end
      end
  | ApiKey token => api_token_outcome svc token
  | Basic encoded =>
      match decode_basic_credentials encoded with
      | None => InvalidCredential
      | Some (username, password) =>
          match authenticate svc username password with
          | Ok user => Resolved (ext_of_user user)
          | Err e =>
              if is_overload e then Overloaded
              else
                match validate_access_token_async svc password with
                | Ok claims => Resolved (ext_of_claims claims)
                | Err e =>
                    if is_db_unavailable e then Overloaded
                    else if negb allow_basic_api_token then InvalidCredential
                    else api_token_outcome svc password
                end
          end
      end
  | NoToken => NoCredential
  | InvalidHeader => InvalidCredential
  end.

(** * One request *)

Inductive GateStatement :=
| SelectRepoRow | RedeemTicket | SelectTicketUser | SelectAnonymousRule
| SelectRepoAction | SelectAnyRule | SelectGranted | SelectAssignment.

(** The clock when the caches are read and when they are written, the
    database's clock, the verified address, and the statements that fail. *)
Record GateContext := {
  looked_up : Instant;
  stored : Instant;
  wall : DateTime;
  verified_ip : option IpAddr;
  gate_fails : GateStatement -> option string
}.

Record GateState := {
  gate_db : AccessDb;
  repo_cache : gmap string (CachedRepo * Instant);
  repo_miss_cache : gmap string Instant;
  permission_service : PermissionService
}.

Definition set_gate_db (db : AccessDb) (st : GateState) : GateState :=
  {| gate_db := db; repo_cache := repo_cache st; repo_miss_cache := repo_miss_cache st;
     permission_service := permission_service st |}.

Definition set_service (svc : PermissionService) (st : GateState) : GateState :=
  {| gate_db := gate_db st; repo_cache := repo_cache st; repo_miss_cache := repo_miss_cache st;
     permission_service := svc |}.

(** * Download tickets *)

Record DownloadTicket := {
  redeemed_user : Uuid;
  redeemed_purpose : string;
  redeemed_path : option string;
  repo_scope : option AccessScope
}.

(** [WHERE ticket = .. AND expires_at > NOW()]. *)
Definition redeems (wall : DateTime) (t : string) (row : TicketRow) : bool :=
  (ticket row =? t) && (wall <? expires_at row)%Z.

Definition validate_download_ticket (fault : option string) (wall : DateTime) (t : string) (db : AccessDb)
  : result AppError DownloadTicket * AccessDb :=
  match fault with
  | Some e => (Err (Database e), db)
  | None =>
      match List.find (redeems wall t) (download_tickets db) with
      | None => (Err (Authentication "Invalid or expired download ticket"), db)
      | Some row =>
          (Ok {| redeemed_user := ticket_user row; redeemed_purpose := purpose row; redeemed_path := resource_path row;
                 repo_scope := if scope_recorded row then Some (scope_of (ticket_repo_ids row)) else None |},
           set_tickets (base.filter (fun row => redeems wall t row = false)) db)
      end
  end.

Definition ext_of_ticket (u : User) (scope : AccessScope) : AuthExtension :=
  {| ext_user_id := user_id u; username := user_username u; email := user_email u; is_admin := false;
     is_api_token := true; is_service_account := user_is_service_account u; scopes := Some [];
     allowed_repo_ids := scope; iat_ms := None |}.

Definition try_resolve_ticket_auth (c : GateContext) (parts : TicketRequestParts) (db : AccessDb)
  : option AuthExtension * AccessDb :=
  if negb (ticket_method_allowed (parts_method parts)) then (None, db)
  else
    let '(redeemed, db) := validate_download_ticket (gate_fails c RedeemTicket) (wall c) (parts_ticket parts) db in
    (match redeemed with
     | Err _ => None
     | Ok redeemed =>
         if negb (ticket_path_allowed (redeemed_path redeemed) (parts_path parts)) then None
         else
           scope ← repo_scope redeemed;
           user ← match gate_fails c SelectTicketUser with
                  | Some _ => None
                  | None => List.find (fun u => bool_decide (user_id u = redeemed_user redeemed) && user_is_active u) (users db)
                  end;
           Some (ext_of_ticket user scope)
     end, db).

(** * The repository caches *)

Definition REPO_CACHE_TTL_SECS : Z := 60.
Definition REPO_MISS_CACHE_MAX_ENTRIES : nat := 10000.

Definition entry_fresh (now at_ : Instant) : bool := (as_secs (elapsed now at_) <? REPO_CACHE_TTL_SECS)%Z.

Definition repo_cached (now : Instant) (k : string) (st : GateState) : option CachedRepo :=
  '(entry, at_) ← repo_cache st !! k; if entry_fresh now at_ then Some entry else None.

Definition negatively_cached (now : Instant) (k : string) (st : GateState) : bool :=
  match repo_miss_cache st !! k with Some at_ => entry_fresh now at_ | None => false end.

Definition store_repo (now : Instant) (k : string) (entry : CachedRepo) (st : GateState) : GateState :=
  {| gate_db := gate_db st;
     repo_cache := <[k := (entry, now)]> (base.filter (fun kv => entry_fresh now (snd (snd kv)) = true) (repo_cache st));
     repo_miss_cache := repo_miss_cache st; permission_service := permission_service st |}.

(** The sweep; the key is remembered when the query answered. *)
Definition sweep_misses (now : Instant) (confirmed : option string) (st : GateState) : GateState :=
  let swept := base.filter (fun kv => entry_fresh now (snd kv) = true) (repo_miss_cache st) in
  let swept := if (REPO_MISS_CACHE_MAX_ENTRIES <? size swept)%nat then ∅ else swept in
  {| gate_db := gate_db st; repo_cache := repo_cache st;
     repo_miss_cache := match confirmed with Some k => <[k := now]> swept | None => swept end;
     permission_service := permission_service st |}.

Definition lookup_repo (c : GateContext) (k : string) (st : GateState) : option CachedRepo * GateState :=
  match repo_cached (looked_up c) k st with
  | Some r => (Some r, st)
  | None =>
      if negatively_cached (looked_up c) k st then (None, st)
      else
        match query (gate_fails c SelectRepoRow) (find_repository_by_key (gate_db st) k) with
        | Ok (Some row) => (Some (columns row), store_repo (stored c) k (columns row) st)
        | Ok None => (None, sweep_misses (stored c) (Some k) st)
        | Err _ => (None, sweep_misses (stored c) None st)
        end
  end.

Definition invalidate_repo_key (k : string) (st : GateState) : GateState :=
  {| gate_db := gate_db st; repo_cache := delete k (repo_cache st); repo_miss_cache := delete k (repo_miss_cache st);
     permission_service := permission_service st |}.

(** * Answers *)

Record Refusal := {
  refusal_status : Z;
  www_authenticate : list string;
  retry_after : option string;
  refusal_body : string
}.

Definition unauthorized_response : Refusal :=
  {| refusal_status := 401;
     www_authenticate := [ "Basic realm=" +:+ debug_str "artifact-keeper";
                           "Bearer realm=" +:+ debug_str "artifact-keeper" +:+ ", charset=" +:+ debug_str "UTF-8"; "Cargo" ];
     retry_after := None; refusal_body := "Authentication required" |}.

Definition plain_refusal (status : Z) (body : string) : Refusal :=
  {| refusal_status := status; www_authenticate := []; retry_after := None; refusal_body := body |}.

Definition service_unavailable_response : Refusal :=
  {| refusal_status := 503; www_authenticate := []; retry_after := Some "1";
     refusal_body := "Authentication service is at capacity, retry shortly" |}.

Definition forbidden_repo_response : Refusal := plain_refusal 403 "Token does not have access to this repository".
Definition forbidden_permission_response : Refusal :=
  plain_refusal 403 "You do not have permission to perform this action on this repository".
Definition not_found_response : Refusal := plain_refusal 404 "Repository not found".
Definition permission_unavailable_response : Refusal := plain_refusal 503 "permission service temporarily unavailable".

Inductive Gate := Refuse (r : Refusal) | Serve (auth : option AuthExtension) (via_ticket : bool) (repo : CachedRepo).

(** * The decision *)

Definition should_allow_repo_access (v : RepositoryVisibility) (has_auth : bool) : bool :=
  allows_anonymous_read v || has_auth.

Definition public_read_satisfies_acl (v : RepositoryVisibility) (action : string) : bool :=
  allows_anonymous_read v && (action =? "read").

Definition authenticated_read_satisfies_acl (v : RepositoryVisibility) (action : string) : bool :=
  allows_authenticated_read v && (action =? "read").

Section Gate.
Context `{TokenCodecs} `{Postgres}.

Definition anonymous_readable_post (rq : HttpRequest) : bool :=
  bool_decide (method rq = POST) && is_anonymous_readable_format_post (uri_path rq).
Definition is_write (rq : HttpRequest) : bool := is_write_method (method rq) && negb (anonymous_readable_post rq).
Definition scope_gate_action (rq : HttpRequest) : string :=
  if anonymous_readable_post rq then "read" else action_for_method (method rq).
Definition permission_action (rq : HttpRequest) : string :=
  if is_non_mutating_format_post (uri_path rq) then "read" else action_for_method (method rq).

(** No repository has the key. *)
Definition no_repo_answer (outcome : AuthOutcome) : Refusal :=
  match outcome with
  | Overloaded => service_unavailable_response
  | InvalidCredential | NoCredential => unauthorized_response
  | Resolved _ => not_found_response
  end.

(** The credential of the request, and the ticket where there is none. *)
Definition ticket_fallback (c : GateContext) (rq : HttpRequest) (auth : option AuthExtension) (st : GateState)
  : option AuthExtension * bool * GateState :=
  match auth, extract_ticket_request_parts rq with
  | None, Some parts =>
      let '(ext, db) := try_resolve_ticket_auth c parts (gate_db st) in
      (ext, bool_decide (is_Some ext), set_gate_db db st)
  | _, _ => (auth, false, st)
  end.

(** A token restricted to other repositories. *)
Definition scope_refusal (rq : HttpRequest) (repo : CachedRepo) (ext : AuthExtension) : option Refusal :=
  if negb (public_read_satisfies_acl (visibility repo) (scope_gate_action rq)) && negb (can_access_repo ext (id repo)) then
    if negb (allows_anonymous_read (visibility repo)) &&
       ((scope_gate_action rq =? "read") || is_non_mutating_format_post (uri_path rq))
    then Some not_found_response
    else Some forbidden_repo_response
  else None.

(** The action a rule grants, on the cached fast path. *)
Definition cached_action (c : GateContext) (repo : CachedRepo) (ext : AuthExtension) (action : string) (st : GateState)
  : bool * GateState :=
  let '(r, svc) := check_permission (gate_fails c SelectGranted) (gate_db st) (verified_ip c) (looked_up c) (stored c)
                     (permission_service st) (ext_user_id ext) "repository" (id repo) action false in
  (unwrap_or_false r, set_service svc st).

(** The read of a repository with rules: the action, then [admin], then the
    canonical decision. *)
Definition ruled_read (c : GateContext) (repo : CachedRepo) (ext : AuthExtension) (action : string) (st : GateState)
  : bool * GateState :=
  let '(b, st) := cached_action c repo ext action st in
  if b then (true, st)
  else
    let '(b, st) := cached_action c repo ext "admin" st in
    if b then (true, st)
    else (unwrap_or_false (check_repository_action (gate_fails c SelectRepoAction) (gate_db st) (verified_ip c)
                             (ext_user_id ext) (id repo) action false), st).

(** The permission of a principal that is no administrator. *)
Definition permission_refusal (c : GateContext) (rq : HttpRequest) (repo : CachedRepo) (ext : AuthExtension) (st : GateState)
  : option Refusal * GateState :=
  let action := permission_action rq in
  if is_write rq && negb (is_non_mutating_format_post (uri_path rq)) then
    (match check_repository_action (gate_fails c SelectRepoAction) (gate_db st) (verified_ip c) (ext_user_id ext) (id repo)
             action false with
     | Ok true => None
     | Ok false => Some forbidden_permission_response
     | Err _ => Some service_unavailable_response
     end, st)
  else
    let '(has_rules, svc) := has_any_rules_for_target (gate_fails c SelectAnyRule) (gate_db st) (looked_up c) (stored c)
                               (permission_service st) "repository" (id repo) in
    let st := set_service svc st in
    match has_rules with
    | Err _ => (Some permission_unavailable_response, st)
    | Ok true =>
        if authenticated_read_satisfies_acl (visibility repo) action then (None, st)
        else
          let '(allowed, st) := ruled_read c repo ext action st in
          (if allowed then None else Some not_found_response, st)
    | Ok false =>
        if allows_authenticated_read (visibility repo) then (None, st)
        else
          (match query (gate_fails c SelectAssignment) (has_assignment (gate_db st) (ext_user_id ext) (id repo)) with
           | Ok true => None
           | Ok false => Some not_found_response
           | Err _ => Some service_unavailable_response
           end, st)
    end.

(** The key names a repository. *)
Definition gate_repo (c : GateContext) (rq : HttpRequest) (outcome : AuthOutcome) (repo : CachedRepo) (st : GateState)
  : Gate * GateState :=
  match outcome with
  | Overloaded => (Refuse service_unavailable_response, st)
  | _ =>
      let presented := match outcome with Resolved ext => Some ext | _ => None end in
      let '(auth, via_ticket, st) := ticket_fallback c rq presented st in
      if match outcome with InvalidCredential => bool_decide (auth = None) | _ => false end
      then (Refuse unauthorized_response, st)
      else if is_write rq && (bool_decide (auth = None) || via_ticket) then (Refuse unauthorized_response, st)
      else if negb (should_allow_repo_access (visibility repo) (negb (bool_decide (auth = None)))) &&
              negb (bool_decide (auth = None) &&
                    unwrap_or_false (check_anonymous_repository_action (gate_fails c SelectAnonymousRule) (gate_db st)
                                       (verified_ip c) (id repo) "read"))
      then (Refuse unauthorized_response, st)
      else
        match auth with
        | None => (Serve None via_ticket repo, st)
        | Some ext =>
            match scope_refusal rq repo ext with
            | Some r => (Refuse r, st)
            | None =>
                if is_admin ext then (Serve auth via_ticket repo, st)
                else
                  let '(r, st) := permission_refusal c rq repo ext st in
                  (match r with Some r => Refuse r | None => Serve auth via_ticket repo end, st)
            end
        end
  end.

Definition repo_visibility_middleware (c : GateContext) (svc : AuthService) (rq : HttpRequest) (st : GateState)
  : Gate * GateState :=
  let k := extract_repo_key (uri_path rq) in
  if is_empty k then (Refuse not_found_response, st)
  else
    let '(repo, st) := lookup_repo c k st in
    let outcome := resolve_auth_outcome svc (extract_visibility_token rq) true in
    match repo with
    | None => (Refuse (no_repo_answer outcome), st)
    | Some repo => gate_repo c rq outcome repo st
    end.

End Gate.
