(* ===== verification/RepoGateFacts.v ===== *)
(** What the gate of the format routes decides: exactly who passes, that a
    refusal tells nothing about which private repositories exist (and where a
    download ticket does tell), how it compares with the REST gate, and what an
    anonymous rule does to those who present a credential. *)

From stdpp Require Import base list strings option gmap.
From Stdlib Require Import ZArith Lia.
From S2P Require Import Prelude RustStr Repository Errors ClientIp Chrono RateLimit AccessDb Auth Permission Tokens AccessSamples PermissionFacts RequestPath RepoGate.

Local Open Scope string_scope.
Local Open Scope list_scope.
Local Open Scope result_scope.

Section Gates.
Context `{TokenCodecs} `{Postgres}.

(** Every statement answers. *)
Definition quiet (c : GateContext) : Prop := forall s, gate_fails c s = None.

(** What the permission caches hold of a principal and a repository is what
    the tables say; fresh caches hold nothing. *)
Definition agrees (c : GateContext) (st : GateState) (repo : CachedRepo) (ext : AuthExtension) : Prop :=
  (forall actions, cache_lookup (permission_service st) (looked_up c)
     {| ck_user := ext_user_id ext; ck_target_type := "repository"; ck_target := id repo; ck_ip := verified_ip c |} = Some actions ->
     actions = granted_actions (gate_db st) (verified_ip c) (ext_user_id ext) "repository" (id repo)) /\
  (forall b, rules_lookup (permission_service st) (looked_up c) {| rk_target_type := "repository"; rk_target := id repo |} = Some b ->
     b = any_rules (gate_db st) "repository" (id repo)).

(** A request that changes the repository. *)
Definition mutates (rq : HttpRequest) : bool := is_write rq && negb (is_non_mutating_format_post (uri_path rq)).

(** The read of a principal that is no administrator. *)
Definition may_read (db : AccessDb) (ip : option IpAddr) (u : Uuid) (repo : CachedRepo) : bool :=
  allows_authenticated_read (visibility repo) ||
  (if any_rules db "repository" (id repo) then repository_action db ip u (id repo) "read"
   else has_assignment db u (id repo)).

Lemma read_action rq : mutates rq = false -> permission_action rq = "read".
Proof.
  unfold mutates, is_write, permission_action, anonymous_readable_post.
  destruct (is_non_mutating_format_post (uri_path rq)) eqn:En; [done|].
  destruct (is_anonymous_readable_format_post (uri_path rq)) eqn:Ea; [by rewrite (anonymous_post_non_mutating _ Ea) in En|].
  rewrite andb_false_r. simpl. by destruct (method rq).
Qed.

Lemma elapsed_nonneg now t : elapsed now t = Z.max 0 (now - t).
Proof. done. Qed.

(** One question to the cache: the answer of the tables, and caches that still
    agree with them. *)
Lemma cached_action_agrees c repo ext action st : quiet c -> agrees c st repo ext ->
  exists st', cached_action c repo ext action st =
    (one_of action (granted_actions (gate_db st) (verified_ip c) (ext_user_id ext) "repository" (id repo)), st') /\
    gate_db st' = gate_db st /\ agrees c st' repo ext.
Proof.
  intros Hq Hag. pose proof Hag as [Ha Hr]. unfold cached_action, check_permission, resolve_actions.
  destruct (cache_lookup _ _ _) as [actions|].
  - rewrite (Ha _ eq_refl). by eexists.
  - unfold query_actions. rewrite Hq. simpl. eexists. split; [done|]. split; [done|]. split; simpl; [|done].
    intros actions. unfold cache_lookup, cache_store. simpl. destruct (cache_poisoned _); [done|].
    rewrite lookup_insert_eq. simpl. by destruct (is_expired _ _); [|intros [= <-]].
Qed.

Lemma ruled_read_agrees c repo ext action st : quiet c -> agrees c st repo ext ->
  fst (ruled_read c repo ext action st) = repository_action (gate_db st) (verified_ip c) (ext_user_id ext) (id repo) action.
Proof.
  intros Hq Ha. unfold ruled_read.
  destruct (cached_action_agrees c repo ext action st Hq Ha) as (st1 & -> & Edb & Ha1).
  destruct (one_of action _) eqn:E1; [symmetry; eapply granted_action_allowed; eauto|].
  destruct (cached_action_agrees c repo ext "admin" st1 Hq Ha1) as (st2 & -> & Edb2 & _). rewrite Edb in *.
  destruct (one_of "admin" _) eqn:E2; [symmetry; eapply granted_action_allowed; eauto|].
  simpl. rewrite Hq, Edb2. done.
Qed.

Lemma read_refusal c rq repo ext st : quiet c -> agrees c st repo ext -> mutates rq = false ->
  fst (permission_refusal c rq repo ext st) =
  if may_read (gate_db st) (verified_ip c) (ext_user_id ext) repo then None else Some not_found_response.
Proof.
  intros Hq Ha Hm. unfold permission_refusal, may_read. rewrite (read_action rq Hm). unfold mutates in Hm. rewrite Hm.
  unfold has_any_rules_for_target. rewrite !Hq. simpl.
  set (svc := match rules_lookup _ _ _ with Some _ => _ | None => _ end).
  assert (exists st', set_service svc.2 st = st' /\ svc.1 = Ok (any_rules (gate_db st) "repository" (id repo)) /\
    gate_db st' = gate_db st /\ agrees c st' repo ext) as (st' & Est & Eb & Edb & Ha').
  { subst svc. destruct (rules_lookup _ _ _) as [b|] eqn:Er.
    - eexists. split; [done|]. simpl. rewrite (proj2 Ha _ Er). split_and!; [done|done|]. exact Ha.
    - eexists. split; [done|]. simpl. split_and!; [done|done|]. split; simpl; [exact (proj1 Ha)|].
      intros b. unfold rules_lookup, rules_store. simpl. destruct (rules_poisoned _); [done|].
      rewrite lookup_insert_eq. simpl. by destruct (rules_is_expired _ _); [|intros [= <-]]. }
  destruct svc as [rules svc]. simpl in Est, Eb. subst rules. rewrite Est.
  destruct (any_rules (gate_db st) "repository" (id repo)).
  - unfold authenticated_read_satisfies_acl. rewrite String.eqb_refl, andb_true_r.
    destruct (allows_authenticated_read (visibility repo)); [done|]. simpl.
    pose proof (ruled_read_agrees c repo ext "read" st' Hq Ha') as Hread. rewrite Edb in Hread.
    destruct (ruled_read c repo ext "read" st') as [b st2]. simpl in *. subst b. by destruct (repository_action _ _ _ _ _).
  - destruct (allows_authenticated_read (visibility repo)); [done|]. simpl.
    by destruct (has_assignment _ _ _).
Qed.

(** ** Who passes *)

(** The repositories a token is restricted to, for a read anybody may do not
    asked. *)
Definition in_scope (rq : HttpRequest) (repo : CachedRepo) (ext : AuthExtension) : bool :=
  (allows_anonymous_read (visibility repo) && (scope_gate_action rq =? "read")) || can_access_repo ext (id repo).

Lemma scope_refusal_none rq repo ext : scope_refusal rq repo ext = None <-> in_scope rq repo ext = true.
Proof.
  unfold scope_refusal, in_scope, public_read_satisfies_acl.
  destruct (allows_anonymous_read _ && _), (can_access_repo _ _); simpl; try done.
  by destruct (negb _ && _).
Qed.

Lemma scope_refusal_read rq repo ext r : mutates rq = false -> allows_anonymous_read (visibility repo) = false ->
  scope_refusal rq repo ext = Some r -> r = not_found_response.
Proof.
  intros Hm Hv. unfold scope_refusal. rewrite Hv. destruct (negb _ && _); [|done]. simpl.
  assert ((scope_gate_action rq =? "read") || is_non_mutating_format_post (uri_path rq) = true) as ->; [|by intros [= <-]].
  pose proof (read_action rq Hm) as Ha. unfold permission_action in Ha.
  destruct (is_non_mutating_format_post _); [by rewrite orb_true_r|]. unfold scope_gate_action.
  by destruct (anonymous_readable_post rq); [|rewrite Ha].
Qed.

(** The anonymous rule that lets a request without a credential read. *)
Definition anonymous_read (db : AccessDb) (ip : option IpAddr) (repo : CachedRepo) : bool :=
  existsb (fun p => anonymous_rule db (id repo) "read" p && ip_condition_expr ip p) (permissions db).

(** The permission of a principal for a request. *)
Definition permitted (db : AccessDb) (ip : option IpAddr) (rq : HttpRequest) (repo : CachedRepo) (ext : AuthExtension) : bool :=
  is_admin ext ||
  (if mutates rq then repository_action db ip (ext_user_id ext) (id repo) (action_for_method (method rq))
   else may_read db ip (ext_user_id ext) repo).

(** The answer to a request without a ticket. *)
Definition answer_of (db : AccessDb) (ip : option IpAddr) (rq : HttpRequest) (outcome : AuthOutcome) (repo : CachedRepo) : Gate :=
  match outcome with
  | Overloaded => Refuse service_unavailable_response
  | InvalidCredential => Refuse unauthorized_response
  | NoCredential =>
      if negb (is_write rq) && (allows_anonymous_read (visibility repo) || anonymous_read db ip repo)
      then Serve None false repo else Refuse unauthorized_response
  | Resolved ext =>
      match scope_refusal rq repo ext with
      | Some r => Refuse r
      | None =>
          if permitted db ip rq repo ext then Serve (Some ext) false repo
          else Refuse (if mutates rq then forbidden_permission_response else not_found_response)
      end
  end.

Lemma gate_answer c rq outcome repo st : quiet c -> extract_ticket_request_parts rq = None ->
  (forall ext, outcome = Resolved ext -> agrees c st repo ext) ->
  fst (gate_repo c rq outcome repo st) = answer_of (gate_db st) (verified_ip c) rq outcome repo.
Proof.
  intros Hq Ht Ha. unfold gate_repo, ticket_fallback, answer_of. destruct outcome as [ext| | |]; [|rewrite Ht|by rewrite Ht|done].
  - cbn [bool_decide]. rewrite !(bool_decide_eq_false_2 (Some ext = None)) by done. unfold should_allow_repo_access. simpl.
    rewrite andb_false_r, orb_true_r. simpl. destruct (scope_refusal rq repo ext); [done|]. unfold permitted.
    destruct (is_admin ext); [done|]. simpl. destruct (mutates rq) eqn:Em.
    + unfold permission_refusal, permission_action. unfold mutates in Em. rewrite Em, Hq.
      apply andb_true_iff in Em as [_ ->%negb_true_iff]. simpl. by destruct (repository_action _ _ _ _ _).
    + pose proof (read_refusal c rq repo ext st Hq (Ha ext eq_refl) Em) as Hr.
      destruct (permission_refusal c rq repo ext st) as [r st']. simpl in *. subst r. by destruct (may_read _ _ _ _).
  - rewrite bool_decide_eq_true_2 by done. unfold should_allow_repo_access, check_anonymous_repository_action. rewrite Hq. simpl.
    rewrite andb_true_r, orb_false_r. fold (anonymous_read (gate_db st) (verified_ip c) repo).
    destruct (is_write rq); simpl; [done|]. destruct (allows_anonymous_read _); simpl; [done|].
    by destruct (anonymous_read _ _ _).
Qed.


(** ** What a refusal tells *)

Lemma middleware_missing c svc rq st st1 : extract_repo_key (uri_path rq) <> "" ->
  lookup_repo c (extract_repo_key (uri_path rq)) st = (None, st1) ->
  repo_visibility_middleware c svc rq st =
  (Refuse (no_repo_answer (resolve_auth_outcome svc (extract_visibility_token rq) true)), st1).
Proof.
  intros Hk Hl. unfold repo_visibility_middleware. by rewrite (proj2 (String.eqb_neq _ _) Hk : is_empty _ = false), Hl.
Qed.


(** A download ticket tells: presented alone for a repository outside the
    reach of the ticket, the refusal is 404 when the repository exists and 401
    when no repository has the key, for the branch without a repository does
    not look at the ticket (and leaves it unspent). *)
Theorem ticket_tells_existence c svc rq st st1 st' st1' repo parts ext db :
  let outcome := resolve_auth_outcome svc (extract_visibility_token rq) true in
  quiet c -> extract_repo_key (uri_path rq) <> "" -> outcome = NoCredential ->
  extract_ticket_request_parts rq = Some parts -> mutates rq = false ->
  allows_anonymous_read (visibility repo) = false -> can_access_repo ext (id repo) = false ->
  lookup_repo c (extract_repo_key (uri_path rq)) st = (Some repo, st1) ->
  lookup_repo c (extract_repo_key (uri_path rq)) st' = (None, st1') ->
  try_resolve_ticket_auth c parts (gate_db st1) = (Some ext, db) ->
  fst (repo_visibility_middleware c svc rq st) = Refuse not_found_response /\
  fst (repo_visibility_middleware c svc rq st') = Refuse unauthorized_response /\
  gate_db (snd (repo_visibility_middleware c svc rq st')) = gate_db st1'.
Proof.
  intros outcome Hq Hk Ho Hparts Hm Hv Hacc Hl Hl' Hticket. rewrite (middleware_missing _ _ _ _ _ Hk Hl').
  fold outcome. rewrite Ho. split_and!; [|done|done].
  unfold repo_visibility_middleware. rewrite (proj2 (String.eqb_neq _ _) Hk : is_empty _ = false), Hl. fold outcome. rewrite Ho.
  unfold gate_repo, ticket_fallback. rewrite Hparts, Hticket. simpl.
  assert (is_write rq = false) as ->.
  { unfold try_resolve_ticket_auth in Hticket. destruct (ticket_method_allowed (parts_method parts)) eqn:Em; [|done].
    unfold extract_ticket_request_parts in Hparts. apply bind_Some in Hparts as (t & _ & [= <-]). simpl in Em.
    unfold is_write. unfold ticket_method_allowed in Em. apply orb_true_iff in Em as [E%bool_decide_eq_true|E%bool_decide_eq_true];
      by rewrite E. }
  simpl. unfold should_allow_repo_access. rewrite orb_true_r. simpl.
  destruct (scope_refusal rq repo ext) as [r0|] eqn:Es; [by rewrite (scope_refusal_read _ _ _ _ Hm Hv Es)|].
  apply scope_refusal_none in Es. unfold in_scope in Es. by rewrite Hv, Hacc in Es.
Qed.

(** ** Rules of the anonymous principal *)

(** The tables without rules. *)
Definition without_rules (st : GateState) : GateState := set_gate_db (set_permissions (fun _ => []) (gate_db st)) st.

Lemma anonymous_rule_any db ip repo : anonymous_read db ip repo = true -> any_rules db "repository" (id repo) = true.
Proof.
  unfold anonymous_read, any_rules. rewrite !existsb_exists. intros (p & Hp & [Ha _]%andb_true_iff). exists p. split; [done|].
  unfold anonymous_rule in Ha. by apply andb_true_iff in Ha as [[_ Ho]%andb_true_iff _].
Qed.

(** Presenting a credential can cost the access a request without one
    has: on a private repository, a rule that lets the anonymous principal read
    from an address refuses, at the same address, every principal that no rule
    and no role gives the action; and a member by role assignment, who could
    read while there were no rules, is among them. *)
Theorem credential_worse_than_none c rq repo st ext :
  quiet c -> extract_ticket_request_parts rq = None -> is_write rq = false -> visibility repo = Private ->
  anonymous_read (gate_db st) (verified_ip c) repo = true ->
  is_admin ext = false -> can_access_repo ext (id repo) = true -> agrees c st repo ext ->
  repository_action (gate_db st) (verified_ip c) (ext_user_id ext) (id repo) "read" = false ->
  fst (gate_repo c rq NoCredential repo st) = Serve None false repo /\
  fst (gate_repo c rq (Resolved ext) repo st) = Refuse not_found_response /\
  (has_assignment (gate_db st) (ext_user_id ext) (id repo) = true -> agrees c (without_rules st) repo ext ->
   fst (gate_repo c rq (Resolved ext) repo (without_rules st)) = Serve (Some ext) false repo).
Proof.
  intros Hq Ht Hw Hv Hanon Hadm Hacc Ha Hact.
  assert (mutates rq = false) as Hm by (unfold mutates; by rewrite Hw).
  assert (forall db, permitted db (verified_ip c) rq repo ext =
    if any_rules db "repository" (id repo) then repository_action db (verified_ip c) (ext_user_id ext) (id repo) "read"
    else has_assignment db (ext_user_id ext) (id repo)) as Hperm
    by (intros db; unfold permitted, may_read; by rewrite Hadm, Hm, Hv).
  assert (scope_refusal rq repo ext = None) as Hs
    by (apply scope_refusal_none; unfold in_scope; by rewrite Hacc, orb_true_r).
  split_and!.
  - rewrite gate_answer by done. unfold answer_of. by rewrite Hw, Hanon, orb_true_r.
  - rewrite gate_answer by naive_solver. unfold answer_of. by rewrite Hs, Hperm, (anonymous_rule_any _ _ _ Hanon), Hact, Hm.
  - intros Hra Ha'. rewrite gate_answer by naive_solver. unfold answer_of. rewrite Hs, Hperm. cbn [any_rules].
    assert (has_assignment (gate_db (without_rules st)) (ext_user_id ext) (id repo) = true) as -> by exact Hra. done.
Qed.

(** ** The native and the REST gate *)

(** A grant by rule needs a rule. *)
Lemma grant_any_rules db ip u r : permissions_grant_exists db ip u r = true -> any_rules db "repository" r = true.
Proof.
  unfold permissions_grant_exists, any_rules. rewrite !existsb_exists. intros (p & Hp & Hh).
  exists p. split; [done|]. rewrite on_target_repository. by repeat apply andb_true_iff in Hh as [Hh _].
Qed.

(** The gate of the format routes and the visibility gate of the REST
    handlers admit the same principals to a read, but for one case: a private
    repository without rules is read natively by every principal with a role
    assignment that reaches it, where REST also asks that the role carry the
    action. *)
Theorem native_read_vs_rest c rq repo st ext :
  quiet c -> extract_ticket_request_parts rq = None -> is_write rq = false -> agrees c st repo ext ->
  fst (gate_repo c rq (Resolved ext) repo st) = Serve (Some ext) false repo <->
  require_visible None None (gate_db st) (verified_ip c) repo (Some ext) = Ok tt \/
  (visibility repo = Private /\ can_access_repo ext (id repo) = true /\ is_admin ext = false /\
   any_rules (gate_db st) "repository" (id repo) = false /\
   has_assignment (gate_db st) (ext_user_id ext) (id repo) = true /\
   repository_action (gate_db st) (verified_ip c) (ext_user_id ext) (id repo) "read" = false).
Proof.
  intros Hq Ht Hw Ha. rewrite gate_answer by naive_solver. unfold answer_of.
  assert (mutates rq = false) as Hm by (unfold mutates; by rewrite Hw).
  assert (scope_gate_action rq = "read") as Hread.
  { unfold scope_gate_action. unfold is_write in Hw. destruct (anonymous_readable_post rq); [done|].
    rewrite andb_true_r in Hw. by destruct (method rq). }
  assert (in_scope rq repo ext = allows_anonymous_read (visibility repo) || can_access_repo ext (id repo)) as Hs
    by (unfold in_scope; by rewrite Hread, andb_true_r).
  pose proof (scope_refusal_none rq repo ext) as Hnone. rewrite Hs in Hnone.
  unfold permitted, may_read, require_visible, user_can_access_repo, check_repository_action. rewrite Hm. simpl.
  pose proof (action_has_grant (gate_db st) (verified_ip c) (ext_user_id ext) (id repo) "read") as Hgrant.
  destruct (visibility repo) eqn:Ev; simpl in *.
  - rewrite (proj2 Hnone eq_refl), orb_true_r. split; [auto|done].
  - destruct (scope_refusal rq repo ext), (can_access_repo ext (id repo)); rewrite ?orb_true_r; naive_solver.
  - pose proof (grant_any_rules (gate_db st) (verified_ip c) (ext_user_id ext) (id repo)) as Hrules.
    clear - Hnone Hgrant Hrules. revert Hnone Hgrant Hrules.
    generalize (repository_action (gate_db st) (verified_ip c) (ext_user_id ext) (id repo) "read") as act.
    generalize (any_rules (gate_db st) "repository" (id repo)) as rules.
    generalize (permissions_grant_exists (gate_db st) (verified_ip c) (ext_user_id ext) (id repo)) as granted.
    generalize (has_assignment (gate_db st) (ext_user_id ext) (id repo)) as member.
    destruct (can_access_repo ext (id repo)), (is_admin ext), (scope_refusal rq repo ext); intros [] [] [] [] [H1 H2] Hg Hr;
      simpl; try (specialize (H2 eq_refl)); try (specialize (H1 eq_refl));
      try (specialize (Hg eq_refl)); try (specialize (Hr eq_refl)); try discriminate;
      (split; [first [discriminate | intros _; by left | intros _; right; repeat split]
              | intros [?|(_ & ? & ? & ? & ? & ?)]; first [reflexivity | discriminate]]).
Qed.

End Gates.


(** * Witnesses *)

Section Witnesses.

#[local] Existing Instance cidr_postgres.

#[local] Instance no_codecs : TokenCodecs := {| base64_decode := Some; form_pairs q := [("ticket", q)] |}.

Definition calm : GateContext :=
  {| looked_up := 0%Z; stored := 0%Z; wall := 0%Z; verified_ip := None; gate_fails _ := None |}.

Definition reader_token : ApiTokenValidation :=
  {| validated_user := sample_user 2%N "reader" false LocalProvider; validated_scopes := ["*"];
     validated_repo_ids := Admin; validated_expires_at := None |}.

(** A service for which every bearer token is a token of the reader. *)
Definition reader_service : AuthService :=
  {| validate_access_token_async _ := Err (Authentication "");
     validate_api_token _ := Ok reader_token;
     authenticate _ _ := Err (Authentication "") |}.

Definition get (path : string) (query : option string) (h : HeaderMap) : HttpRequest :=
  {| method := GET; uri_path := path; uri_query := query; original_path := None; headers := h |}.

Definition opened (db : AccessDb) : GateState :=
  {| gate_db := db; repo_cache := ∅; repo_miss_cache := ∅; permission_service := fresh_service |}.

Definition private_repo : CachedRepo := repo_columns 10%N Private.
Definition read_private : HttpRequest := get "/npm/private/pkg" None [("authorization", "Bearer t")].
Definition reader_ext : AuthExtension := ext_of_validation reader_token.

Lemma agrees_opened c db repo ext : agrees c (opened db) repo ext.
Proof. split; intros x; [unfold cache_lookup|unfold rules_lookup]; simpl; by rewrite lookup_empty. Qed.

(** The reader's grant, and a role assignment of the reader in its place. *)
Definition granted_db : AccessDb := sample_db [user_rule 40%N 2%N 10%N ["read"]] [].
Definition member_db : AccessDb :=
  sample_db [] [{| ra_user := 2%N; ra_role := 30%N; ra_repository := Some 10%N |}].
Definition public_rule : PermissionRule :=
  {| rule_id := 41%N; principal_type := "anonymous"; principal_id := NIL_UUID; target_type := "repository"; target_id := 10%N;
     actions := ["read"]; conditions := no_conditions |}.
Definition open_member_db : AccessDb := set_permissions (fun _ => [public_rule]) member_db.



Definition stranger_ticket : TicketRow :=
  {| ticket := "t1"; ticket_user := 3%N; purpose := "download"; resource_path := None; expires_at := 1%Z;
     scope_recorded := true; ticket_repo_ids := Some [] |}.
Definition ticket_db : AccessDb := set_tickets (fun _ => [stranger_ticket]) (sample_db [] []).
Definition ticket_request (path : string) : HttpRequest := get path (Some "ticket=t1") [].
Definition stranger_ext : AuthExtension := ext_of_ticket (sample_user 3%N "stranger" false LocalProvider) (Restricted []).
Definition empty_of_repositories (db : AccessDb) : AccessDb :=
  {| users := users db; groups := groups db; user_group_members := user_group_members db; repositories := [];
     repository_labels := repository_labels db; roles := roles db; role_assignments := role_assignments db;
     permissions := permissions db; api_tokens := api_tokens db; download_tickets := download_tickets db;
     system_settings := system_settings db |}.

Lemma ticket_tells_existence_witness :
  let rq := ticket_request "/npm/private/pkg" in
  let missing := opened (empty_of_repositories ticket_db) in
  fst (repo_visibility_middleware calm reader_service rq (opened ticket_db)) = Refuse not_found_response /\
  fst (repo_visibility_middleware calm reader_service rq missing) = Refuse unauthorized_response /\
  gate_db (snd (repo_visibility_middleware calm reader_service rq missing)) = gate_db missing.
Proof.
  apply (ticket_tells_existence calm reader_service (ticket_request "/npm/private/pkg") (opened ticket_db)
    (snd (lookup_repo calm "private" (opened ticket_db))) (opened (empty_of_repositories ticket_db))
    (snd (lookup_repo calm "private" (opened (empty_of_repositories ticket_db)))) private_repo
    {| parts_ticket := "t1"; parts_method := GET; parts_path := "/npm/private/pkg" |} stranger_ext (sample_db [] []));
    try done; reflexivity.
Defined.

Lemma credential_worse_than_none_witness :
  fst (gate_repo calm read_private NoCredential private_repo (opened open_member_db)) = Serve None false private_repo /\
  fst (gate_repo calm read_private (Resolved reader_ext) private_repo (opened open_member_db)) = Refuse not_found_response /\
  fst (gate_repo calm read_private (Resolved reader_ext) private_repo (without_rules (opened open_member_db))) =
    Serve (Some reader_ext) false private_repo.
Proof.
  destruct (credential_worse_than_none calm read_private private_repo (opened open_member_db) reader_ext) as (H1 & H2 & H3);
    [done..|apply agrees_opened|done|].
  split; [exact H1|]. split; [exact H2|]. apply H3; [reflexivity|]. apply agrees_opened.
Defined.

Lemma native_read_vs_rest_witness :
  fst (gate_repo calm read_private (Resolved reader_ext) private_repo (opened member_db)) = Serve (Some reader_ext) false private_repo /\
  require_visible None None member_db None private_repo (Some reader_ext) = Err (NotFound REPOSITORY_NOT_FOUND).
Proof.
  split; [|reflexivity]. apply (native_read_vs_rest calm read_private private_repo (opened member_db) reader_ext);
    try done. right. done.
Defined.

End Witnesses.
