(* ===== verification/GcDb.v ===== *)
(** The tables and the objects the storage collectors work on
    ([services/storage_gc_service.rs], [services/trash_service.rs] and the
    migrations that create the tables), and where an object lies.

    A backend other than [filesystem] has one name space for all its
    repositories; [filesystem] has one per root directory.  An object is
    therefore a backend, a root (empty unless [filesystem]) and a key; nothing
    here reads its bytes, so the stores are a set of objects. *)

From stdpp Require Import base list strings option gmap sets.
From Stdlib Require Import ZArith Lia.
From S2P Require Import Prelude RustStr Errors Chrono.

Local Open Scope Z_scope.
Local Open Scope string_scope.
Local Open Scope list_scope.

(** * Locations ([storage/registry.rs]) *)

Record StorageLocation := { backend : string; path : string }.

#[global] Instance StorageLocation_eq_dec : EqDecision StorageLocation.
Proof. solve_decision. Defined.

Definition backend_is_repo_isolated (backend : string) : bool := backend =? "filesystem".

Definition oci_gc_candidate_scope (location : StorageLocation) : StorageLocation :=
  {| backend := backend location; path := if backend location =? "filesystem" then path location else "" |}.

(** The join condition of every reference test: [other.storage_backend =
    r.storage_backend AND (r.storage_backend <> 'filesystem' OR
    other.storage_path = r.storage_path)]. *)
Definition same_storage (other r : StorageLocation) : bool :=
  (backend other =? backend r) && (negb (backend r =? "filesystem") || (path other =? path r)).

Lemma same_storage_scope a b : same_storage a b = true <-> oci_gc_candidate_scope a = oci_gc_candidate_scope b.
Proof.
  unfold same_storage, oci_gc_candidate_scope. rewrite andb_true_iff, orb_true_iff, negb_true_iff, !String.eqb_eq, String.eqb_neq.
  split.
  - intros [-> [Hn|Hp]]; [|by rewrite Hp]. by apply String.eqb_neq in Hn as ->.
  - intros [= Hb Hp]. split; [done|]. rewrite Hb in Hp. destruct (String.eqb_spec (backend b) "filesystem"); [by right|by left].
Qed.

Lemma same_storage_refl a : same_storage a a = true.
Proof. by apply same_storage_scope. Qed.

Lemma same_storage_sym a b : same_storage a b = same_storage b a.
Proof. apply eq_true_iff_eq. rewrite !same_storage_scope. split; congruence. Qed.

Lemma same_storage_l a b c : same_storage a b = true -> same_storage a c = same_storage b c.
Proof. rewrite same_storage_scope. intros E. apply eq_true_iff_eq. rewrite !same_storage_scope. by rewrite E. Qed.

Lemma same_storage_r a b c : same_storage a b = true -> same_storage c a = same_storage c b.
Proof. intros E. rewrite !(same_storage_sym c). by apply same_storage_l. Qed.

(** The backends registered at startup, and those configured but skipped; the
    answer is the error of a location without a backend. *)
Record StorageRegistry := { backends : list string; skipped_backends : list string }.

Definition backend_for (registry : StorageRegistry) (l : StorageLocation) : option AppError :=
  if backend l =? "filesystem" then None
  else if one_of (backend l) (skipped_backends registry) then
    Some (ServiceUnavailable ("storage backend '" +:+ backend l +:+ "' is unavailable: it was configured but skipped at startup " +:+
                              "because of a configuration error"))
  else if one_of (backend l) (backends registry) then None
  else Some (Storage ("storage backend '" +:+ backend l +:+ "' is not registered")).

Lemma backend_for_same registry a b : same_storage a b = true -> backend_for registry a = backend_for registry b.
Proof. unfold backend_for, same_storage. by intros [->%String.eqb_eq _]%andb_true_iff. Qed.

(** * Objects *)

Notation Object := (string * string * string)%type.
Notation Objects := (gset Object).

Definition object_at (l : StorageLocation) (key : string) : Object :=
  (backend (oci_gc_candidate_scope l), path (oci_gc_candidate_scope l), key).

Lemma object_at_eq a k b k' : object_at a k = object_at b k' <-> same_storage a b = true /\ k = k'.
Proof.
  rewrite same_storage_scope. unfold object_at. destruct (oci_gc_candidate_scope a) as [ba pa], (oci_gc_candidate_scope b) as [bb pb].
  simpl. split; [intros [= -> -> ->]; done|intros [[= -> ->] ->]; done].
Qed.

(** * Tables *)

Record StoredRepo := { repo_id : Uuid; location : StorageLocation }.

Record ArtifactRow := {
  artifact_id : Uuid;
  artifact_repo : Uuid;
  artifact_path : string;
  storage_key : string;
  size_bytes : Z;
  artifact_content_type : string;
  is_deleted : bool;
  deleted_at : option DateTime
}.

(** A revision of [artifact_versions]. *)
Record RevisionRow := { revision_repo : Uuid; revision_key : string }.

Record OciTag := { tag_repo : Uuid; tag_name : string; tag_ref : string; tag_digest : string; tag_media_type : string }.

Record OciBlob := {
  blob_repo : Uuid;
  blob_digest : string;
  blob_size : Z;
  blob_key : string;
  blob_created_at : DateTime;
  blob_pending_delete_at : option DateTime
}.

(** A child of an image index. *)
Record ManifestRef := { child_repo : Uuid; parent_digest : string; child_digest : string }.

(** A blob of an image manifest. *)
Record BlobRef := { ref_repo : Uuid; ref_manifest : string; ref_blob : string; ref_kind : string }.

(** The [files] array of an [artifact_metadata] row: the key each entry names,
    in either spelling. *)
Record FileEntry := { storageKey : option string; snake_storage_key : option string }.
Record FilesMetadata := { metadata_artifact : Uuid; metadata_files : list FileEntry }.

(** A row-less Maven object's attribution. *)
Record FlatOwner := { owner_backend : string; owner_key : string; owner_repo : Uuid }.

Record OciGcCandidate := {
  candidate_id : Z;
  candidate_key : string;
  candidate_location : StorageLocation;
  recorded_at : DateTime
}.

Record UploadSessionRow := { session_id : Uuid; session_repo : Uuid; storage_temp_key : string }.
Record UploadPartRow := { part_session : Uuid; part_key : string }.

Record CleanupKey := {
  cleanup_id : Z;
  cleanup_repo : Uuid;
  upload_session_id : option Uuid;
  cleanup_key : string;
  cleanup_created_at : DateTime;
  storage_write_completed_at : option DateTime;
  last_registered_at : DateTime;
  claim_token : option Uuid;
  claim_expires_at : option DateTime;
  cleanup_pending_delete_at : option DateTime;
  last_error : option string
}.

Record GcDb := {
  repositories : list StoredRepo;
  artifacts : list ArtifactRow;
  artifact_versions : list RevisionRow;
  promotion_approvals : list Uuid;
  files_metadata : list FilesMetadata;
  oci_tags : list OciTag;
  oci_blobs : list OciBlob;
  oci_manifest_refs : list ManifestRef;
  manifest_blob_refs : list BlobRef;
  maven_flat_object_owner : list FlatOwner;
  oci_gc_candidates : list OciGcCandidate;
  oci_upload_sessions : list UploadSessionRow;
  oci_upload_parts : list UploadPartRow;
  oci_upload_cleanup_keys : list CleanupKey
}.

Definition set_artifacts (f : list ArtifactRow -> list ArtifactRow) (db : GcDb) : GcDb :=
  {| repositories := repositories db; artifacts := f (artifacts db); artifact_versions := artifact_versions db;
     promotion_approvals := promotion_approvals db; files_metadata := files_metadata db; oci_tags := oci_tags db; oci_blobs := oci_blobs db;
     oci_manifest_refs := oci_manifest_refs db; manifest_blob_refs := manifest_blob_refs db;
     maven_flat_object_owner := maven_flat_object_owner db; oci_gc_candidates := oci_gc_candidates db;
     oci_upload_sessions := oci_upload_sessions db; oci_upload_parts := oci_upload_parts db;
     oci_upload_cleanup_keys := oci_upload_cleanup_keys db |}.

Definition set_promotion_approvals (f : list Uuid -> list Uuid) (db : GcDb) : GcDb :=
  {| repositories := repositories db; artifacts := artifacts db; artifact_versions := artifact_versions db;
     promotion_approvals := f (promotion_approvals db); files_metadata := files_metadata db; oci_tags := oci_tags db; oci_blobs := oci_blobs db;
     oci_manifest_refs := oci_manifest_refs db; manifest_blob_refs := manifest_blob_refs db;
     maven_flat_object_owner := maven_flat_object_owner db; oci_gc_candidates := oci_gc_candidates db;
     oci_upload_sessions := oci_upload_sessions db; oci_upload_parts := oci_upload_parts db;
     oci_upload_cleanup_keys := oci_upload_cleanup_keys db |}.

Definition set_owners (f : list FlatOwner -> list FlatOwner) (db : GcDb) : GcDb :=
  {| repositories := repositories db; artifacts := artifacts db; artifact_versions := artifact_versions db;
     promotion_approvals := promotion_approvals db; files_metadata := files_metadata db; oci_tags := oci_tags db; oci_blobs := oci_blobs db;
     oci_manifest_refs := oci_manifest_refs db; manifest_blob_refs := manifest_blob_refs db;
     maven_flat_object_owner := f (maven_flat_object_owner db); oci_gc_candidates := oci_gc_candidates db;
     oci_upload_sessions := oci_upload_sessions db; oci_upload_parts := oci_upload_parts db;
     oci_upload_cleanup_keys := oci_upload_cleanup_keys db |}.

Definition set_blobs (f : list OciBlob -> list OciBlob) (db : GcDb) : GcDb :=
  {| repositories := repositories db; artifacts := artifacts db; artifact_versions := artifact_versions db;
     promotion_approvals := promotion_approvals db; files_metadata := files_metadata db; oci_tags := oci_tags db; oci_blobs := f (oci_blobs db);
     oci_manifest_refs := oci_manifest_refs db; manifest_blob_refs := manifest_blob_refs db;
     maven_flat_object_owner := maven_flat_object_owner db; oci_gc_candidates := oci_gc_candidates db;
     oci_upload_sessions := oci_upload_sessions db; oci_upload_parts := oci_upload_parts db;
     oci_upload_cleanup_keys := oci_upload_cleanup_keys db |}.

Definition set_blob_refs (f : list BlobRef -> list BlobRef) (db : GcDb) : GcDb :=
  {| repositories := repositories db; artifacts := artifacts db; artifact_versions := artifact_versions db;
     promotion_approvals := promotion_approvals db; files_metadata := files_metadata db; oci_tags := oci_tags db; oci_blobs := oci_blobs db;
     oci_manifest_refs := oci_manifest_refs db; manifest_blob_refs := f (manifest_blob_refs db);
     maven_flat_object_owner := maven_flat_object_owner db; oci_gc_candidates := oci_gc_candidates db;
     oci_upload_sessions := oci_upload_sessions db; oci_upload_parts := oci_upload_parts db;
     oci_upload_cleanup_keys := oci_upload_cleanup_keys db |}.

Definition set_tags (f : list OciTag -> list OciTag) (db : GcDb) : GcDb :=
  {| repositories := repositories db; artifacts := artifacts db; artifact_versions := artifact_versions db;
     promotion_approvals := promotion_approvals db; files_metadata := files_metadata db; oci_tags := f (oci_tags db); oci_blobs := oci_blobs db;
     oci_manifest_refs := oci_manifest_refs db; manifest_blob_refs := manifest_blob_refs db;
     maven_flat_object_owner := maven_flat_object_owner db; oci_gc_candidates := oci_gc_candidates db;
     oci_upload_sessions := oci_upload_sessions db; oci_upload_parts := oci_upload_parts db;
     oci_upload_cleanup_keys := oci_upload_cleanup_keys db |}.

Definition set_children (f : list ManifestRef -> list ManifestRef) (db : GcDb) : GcDb :=
  {| repositories := repositories db; artifacts := artifacts db; artifact_versions := artifact_versions db;
     promotion_approvals := promotion_approvals db; files_metadata := files_metadata db; oci_tags := oci_tags db; oci_blobs := oci_blobs db;
     oci_manifest_refs := f (oci_manifest_refs db); manifest_blob_refs := manifest_blob_refs db;
     maven_flat_object_owner := maven_flat_object_owner db; oci_gc_candidates := oci_gc_candidates db;
     oci_upload_sessions := oci_upload_sessions db; oci_upload_parts := oci_upload_parts db;
     oci_upload_cleanup_keys := oci_upload_cleanup_keys db |}.

Definition set_candidates (f : list OciGcCandidate -> list OciGcCandidate) (db : GcDb) : GcDb :=
  {| repositories := repositories db; artifacts := artifacts db; artifact_versions := artifact_versions db;
     promotion_approvals := promotion_approvals db; files_metadata := files_metadata db; oci_tags := oci_tags db; oci_blobs := oci_blobs db;
     oci_manifest_refs := oci_manifest_refs db; manifest_blob_refs := manifest_blob_refs db;
     maven_flat_object_owner := maven_flat_object_owner db; oci_gc_candidates := f (oci_gc_candidates db);
     oci_upload_sessions := oci_upload_sessions db; oci_upload_parts := oci_upload_parts db;
     oci_upload_cleanup_keys := oci_upload_cleanup_keys db |}.

Definition set_cleanup_keys (f : list CleanupKey -> list CleanupKey) (db : GcDb) : GcDb :=
  {| repositories := repositories db; artifacts := artifacts db; artifact_versions := artifact_versions db;
     promotion_approvals := promotion_approvals db; files_metadata := files_metadata db; oci_tags := oci_tags db; oci_blobs := oci_blobs db;
     oci_manifest_refs := oci_manifest_refs db; manifest_blob_refs := manifest_blob_refs db;
     maven_flat_object_owner := maven_flat_object_owner db; oci_gc_candidates := oci_gc_candidates db;
     oci_upload_sessions := oci_upload_sessions db; oci_upload_parts := oci_upload_parts db;
     oci_upload_cleanup_keys := f (oci_upload_cleanup_keys db) |}.

(** [JOIN repositories r ON r.id = ..]. *)
Definition repo_location (db : GcDb) (r : Uuid) : option StorageLocation :=
  location <$> List.find (fun row => bool_decide (repo_id row = r)) (repositories db).

(** A row of repository [r] that shares the storage of [l]. *)
Definition stored_in (db : GcDb) (l : StorageLocation) (r : Uuid) : bool :=
  match repo_location db r with Some other => same_storage other l | None => false end.

(** * Key prefixes *)

Definition OCI_MANIFEST_STORAGE_PREFIX : string := "oci-manifests/".
Definition OCI_BLOB_STORAGE_PREFIX : string := "oci-blobs/".
Definition PROXY_CACHE_KEY_PREFIX : string := "proxy-cache/".
Definition MAVEN_FLAT_KEY_PREFIX : string := "maven/".

Definition is_proxy_cache_key (key : string) : bool := starts_with PROXY_CACHE_KEY_PREFIX key.

(** [key LIKE 'prefix%' AND digest = SUBSTRING(key FROM LENGTH('prefix') + 1)]. *)
Definition names_digest (prefix key digest : string) : bool :=
  match strip_prefix prefix key with Some d => digest =? d | None => false end.

Lemma names_digest_true prefix key digest : names_digest prefix key digest = true <-> key = prefix +:+ digest.
Proof.
  unfold names_digest. destruct (strip_prefix prefix key) as [d|] eqn:E.
  - apply strip_prefix_Some in E. subst key. rewrite String.eqb_eq. split; [by intros ->|]. intros Ha. symmetry. by eapply append_inj_l.
  - split; [done|]. intros ->. pose proof (proj2 (strip_prefix_Some prefix (prefix +:+ digest) digest) eq_refl). congruence.
Qed.

(** * Order of texts

    [ORDER BY] and the row comparisons of a keyset cursor use one collation of
    the database, a total order with the empty text first. *)
Class Collation := {
  collate : string -> string -> comparison;
  collate_order :: TotalOrder collate;
  collate_empty : forall s, collate s "" <> Lt
}.
