(* ===== verification/OciManifest.v ===== *)
(** OCI manifests as the registry and the blob collector read them
    ([classify_manifest], [stored_media_type_for], [extract_child_digests] and
    [extract_blob_refs] of [api/handlers/oci_v2.rs];
    [oci_manifest_is_runnable_image] of [services/scanner_service.rs]).

    A body is its text.  The two parsers of serde_json, of a [Value] and of the
    derived [OciManifest], are parameters; the one law used is that they read
    the same [config.digest]. *)

From stdpp Require Import base list strings option.
From Stdlib Require Import Ascii.
From S2P Require Import Prelude RustStr.

Local Open Scope string_scope.
Local Open Scope list_scope.

Record OciDescriptor := { media_type : string; digest : string }.
Record OciManifest := { config : option OciDescriptor; layers : list OciDescriptor }.

(** [json.get(a).and_then(|x| x.get(b)).and_then(as_str)]. *)
Definition json_text_at (a b : string) (j : Json) : option string := (json_get a j ≫= json_get b) ≫= json_as_str.

Class ManifestCodec := {
  from_slice : string -> option Json;
  parse_manifest : string -> option OciManifest;
  parsers_agree : forall body m c, parse_manifest body = Some m -> config m = Some c ->
    exists j, from_slice body = Some j /\ json_text_at "config" "digest" j = Some (digest c)
}.

Definition CONTAINER_IMAGE_CONFIG_MEDIA_TYPES : list string :=
  ["application/vnd.oci.image.config.v1+json"; "application/vnd.docker.container.image.v1+json"].

Definition NON_IMAGE_LAYER_MEDIA_TYPE_MARKERS : list string :=
  ["vnd.dev.cosign"; "in-toto"; "spdx"; "cyclonedx"; "vnd.cncf.helm.chart.content"; "wasm"].

Definition is_container_rootfs_layer (media_type : string) : bool :=
  let mt := to_ascii_lowercase media_type in
  contains "tar" mt && negb (existsb (fun marker => contains marker mt) NON_IMAGE_LAYER_MEDIA_TYPE_MARKERS).

Definition is_index_content_type (content_type : string) : bool :=
  let bare := to_ascii_lowercase (trim (default "" (head (split_char ";"%char content_type)))) in
  one_of bare ["application/vnd.oci.image.index.v1+json"; "application/vnd.docker.distribution.manifest.list.v2+json"].

Definition OCI_INDEX_MEDIA_TYPE : string := "application/vnd.oci.image.index.v1+json".
Definition OCI_IMAGE_MEDIA_TYPE : string := "application/vnd.oci.image.manifest.v1+json".

Inductive ManifestClass := Index | Image | Malformed.

Definition stored_media_type_for (class : ManifestClass) (header : string) : string :=
  match class with
  | Index => if negb (is_index_content_type header) then OCI_INDEX_MEDIA_TYPE else header
  | Image => if is_index_content_type header then OCI_IMAGE_MEDIA_TYPE else header
  | Malformed => header
  end.

Definition json_array (field : string) (j : Json) : option (list Json) :=
  match json_get field j with Some (JArray l) => Some l | _ => None end.

(** The [digest] texts of a list of descriptors; the others are skipped. *)
Definition descriptor_digests (l : list Json) : list string := omap (fun m => json_get "digest" m ≫= json_as_str) l.

Section Body.
Context `{ManifestCodec}.

Definition oci_manifest_is_runnable_image (body : string) : bool :=
  match parse_manifest body with
  | None => false
  | Some manifest =>
      match config manifest with
      | Some c => one_of (media_type c) CONTAINER_IMAGE_CONFIG_MEDIA_TYPES
      | None => false
      end && existsb (fun layer => is_container_rootfs_layer (media_type layer)) (layers manifest)
  end.

Definition classify_manifest (body : string) : ManifestClass :=
  match from_slice body with
  | None => Malformed
  | Some json =>
      if oci_manifest_is_runnable_image body then Image
      else
        match json_array "manifests" json with
        | Some _ => Index
        | None => match json_text_at "config" "digest" json with Some _ => Image | None => Malformed end
        end
  end.

Definition extract_child_digests (body : string) : list string :=
  match from_slice body with
  | None => []
  | Some json => match json_array "manifests" json with Some arr => descriptor_digests arr | None => [] end
  end.

(** The config edge, then one edge per layer. *)
Definition extract_blob_refs (body : string) : list (string * string) :=
  match from_slice body with
  | None => []
  | Some json =>
      match json_text_at "config" "digest" json with Some cfg => [(cfg, "config")] | None => [] end ++
      match json_array "layers" json with Some l => (fun d => (d, "layer")) <$> descriptor_digests l | None => [] end
  end.

(** An image has at least its config edge. *)
Lemma image_has_refs body : classify_manifest body = Image -> extract_blob_refs body <> [].
Proof.
  unfold classify_manifest, extract_blob_refs. destruct (from_slice body) as [j|] eqn:Ej; [|done].
  destruct (oci_manifest_is_runnable_image body) eqn:Er.
  - intros _. unfold oci_manifest_is_runnable_image in Er. destruct (parse_manifest body) as [m|] eqn:Em; [|done].
    destruct (config m) as [c|] eqn:Ec; [|done]. destruct (parsers_agree _ _ _ Em Ec) as (j' & Ej' & Hd).
    replace j' with j in Hd by congruence. by rewrite Hd.
  - destruct (json_array "manifests" j); [done|]. by destruct (json_text_at "config" "digest" j).
Qed.

(** Only a runnable image is an image with a [manifests] array. *)
Lemma index_has_no_runnable_image body : classify_manifest body = Index -> oci_manifest_is_runnable_image body = false.
Proof. unfold classify_manifest. destruct (from_slice body); [|done]. by destruct (oci_manifest_is_runnable_image body). Qed.

End Body.
