(* ===== verification/StorageGc.v ===== *)
(** Storage garbage collection of artifacts ([services/storage_gc_service.rs]):
    the orphan predicate, the locked re-check, the reclaim of one key with its
    Maven sidecars, and the keyset pages the sweeps share.

    A pass is a function on the tables and the objects.  The clock, the
    statements that fail and the objects that cannot be deleted are parameters
    of the pass; a failing statement leaves the tables as they were, and leaves
    the objects as the deletes before it made them.  Left out: logs, the catalog
    rows pruned best effort after a reclaim, and the sweep of row-less Maven
    objects, which is off unless an operator opts in. *)

From stdpp Require Import base list strings option gmap sets.
From Stdlib Require Import ZArith Lia.
From S2P Require Import Prelude RustStr Errors Chrono GcDb.

Local Open Scope Z_scope.
Local Open Scope string_scope.
Local Open Scope list_scope.
Local Open Scope result_scope.

(** * The orphan predicate *)

Definition MAX_TRASH_RETENTION_DAYS : Z := 3650.
Definition clamp_trash_retention_days (days : Z) : Z := Z.min days MAX_TRASH_RETENTION_DAYS.

Definition live_with_key (db : GcDb) (l : StorageLocation) (key : string) : bool :=
  existsb (fun a2 => (storage_key a2 =? key) && negb (is_deleted a2) && stored_in db l (artifact_repo a2)) (artifacts db).

Definition tagged (db : GcDb) (l : StorageLocation) (key : string) : bool :=
  existsb (fun t => names_digest OCI_MANIFEST_STORAGE_PREFIX key (tag_digest t) && stored_in db l (tag_repo t)) (oci_tags db).

Definition blob_row_with_key (db : GcDb) (l : StorageLocation) (key : string) : bool :=
  existsb (fun b => names_digest OCI_BLOB_STORAGE_PREFIX key (blob_digest b) && stored_in db l (blob_repo b)) (oci_blobs db).

(** A child of an index that some tag names. *)
Definition tagged_child (db : GcDb) (l : StorageLocation) (key : string) : bool :=
  existsb (fun m => names_digest OCI_MANIFEST_STORAGE_PREFIX key (child_digest m) && stored_in db l (child_repo m) &&
    existsb (fun t => bool_decide (tag_repo t = child_repo m) && (tag_digest t =? parent_digest m)) (oci_tags db))
    (oci_manifest_refs db).

(** The key is named by something that serves it. *)
Definition in_use (db : GcDb) (l : StorageLocation) (key : string) : bool :=
  live_with_key db l key || tagged db l key || blob_row_with_key db l key || tagged_child db l key.

Definition inside_window (now : DateTime) (days : Z) (a : ArtifactRow) : bool :=
  match deleted_at a with Some at_ => (now - days * NANOS_PER_DAY <=? at_)%Z | None => false end.

(** A trashed row with the key that is still inside its retention window. *)
Definition retained (now : DateTime) (days : Z) (db : GcDb) (l : StorageLocation) (key : string) : bool :=
  existsb (fun kept => (storage_key kept =? key) && is_deleted kept && inside_window now days kept &&
                       stored_in db l (artifact_repo kept)) (artifacts db).

Definition trash_retention_clause (now : DateTime) (days : Z) (db : GcDb) (l : StorageLocation) (a : ArtifactRow) : bool :=
  if (days =? 0)%Z then true
  else
    let days := clamp_trash_retention_days days in
    negb (inside_window now days a) && negb (retained now days db l (storage_key a)).

Definition orphan_predicate (now : DateTime) (days : Z) (db : GcDb) (l : StorageLocation) (a : ArtifactRow) : bool :=
  is_deleted a && negb (in_use db l (storage_key a)) && trash_retention_clause now days db l a.

(** The rows whose key is the object [key] at [l]. *)
Definition key_rows (db : GcDb) (l : StorageLocation) (key : string) : list ArtifactRow :=
  base.filter (fun a => (storage_key a =? key) && stored_in db l (artifact_repo a) = true) (artifacts db).

(** [bool_and] over the locked rows, [false] when there is none; the predicate
    reads the location of the row's own repository. *)
Definition is_still_orphan (now : DateTime) (days : Z) (db : GcDb) (key : string) (l : StorageLocation) : bool :=
  negb (bool_decide (key_rows db l key = [])) &&
  forallb (fun a => match repo_location db (artifact_repo a) with
                    | Some own => orphan_predicate now days db own a
                    | None => false
                    end) (key_rows db l key).

(** * Results *)

Record StorageGcResult := {
  dry_run : bool;
  storage_keys_deleted : Z;
  artifacts_removed : Z;
  bytes_freed : Z;
  errors : list string
}.

Definition empty_gc_result (dry : bool) : StorageGcResult :=
  {| dry_run := dry; storage_keys_deleted := 0; artifacts_removed := 0; bytes_freed := 0; errors := [] |}.

Definition format_gc_error (operation key error : string) : string :=
  "Failed to " +:+ operation +:+ " for key " +:+ key +:+ ": " +:+ error.

Definition push_error (operation key error : string) (r : StorageGcResult) : StorageGcResult :=
  {| dry_run := dry_run r; storage_keys_deleted := storage_keys_deleted r; artifacts_removed := artifacts_removed r;
     bytes_freed := bytes_freed r; errors := errors r ++ [format_gc_error operation key error] |}.

(** [accumulate_dry_run] and [record_gc_success]. *)
Definition record_gc_success (bytes count : Z) (r : StorageGcResult) : StorageGcResult :=
  {| dry_run := dry_run r; storage_keys_deleted := storage_keys_deleted r + 1;
     artifacts_removed := artifacts_removed r + count; bytes_freed := bytes_freed r + bytes; errors := errors r |}.

Definition add_artifacts_removed (count : Z) (r : StorageGcResult) : StorageGcResult :=
  {| dry_run := dry_run r; storage_keys_deleted := storage_keys_deleted r;
     artifacts_removed := artifacts_removed r + count; bytes_freed := bytes_freed r; errors := errors r |}.

(** * One pass *)

Inductive GcStatement :=
| SelectOrphans | BeginReclaim | RecheckOrphan | DeleteApprovals | DeleteArtifacts | ProbeSidecar | DeleteOwners | CommitReclaim
| SelectCandidates | BeginCandidate | LockCandidate | RecheckCandidate | DeleteCandidate | CommitCandidate
| CollectKeys | CollectFlatKeys | CollectDerivedKeys | CollectUploadKeys | RecordSpared | RecordOci | ListProxyCache
| SelectBlobs | BeginMark | RecheckMark | MarkBlob | CommitMark | BeginSweep | RecheckSweep | DeleteBlobRow | CommitSweep | PruneRefs
| InsertRefs.

(** The clock, the retention window, the registered backends, the
    objects that cannot be deleted, the statements that fail, each with the key
    it works on, and what the driver decodes as an [i64] when the column is the
    [SUM] of a [BIGINT] (a [NUMERIC]). *)
Record GcContext := {
  now : DateTime;
  trash_retention_days : Z;
  storage_registry : StorageRegistry;
  undeletable : Object -> option AppError;
  gc_fails : GcStatement -> string -> option string;
  decode_sum_i64 : Z -> option Z
}.

Definition storage_for_location (c : GcContext) (l : StorageLocation) : option AppError := backend_for (storage_registry c) l.

(** [storage.delete(key)], an absent object being a success. *)
Definition delete_object (c : GcContext) (l : StorageLocation) (key : string) (objs : Objects) : option AppError * Objects :=
  match undeletable c (object_at l key) with
  | Some e => (Some e, objs)
  | None => (None, objs ∖ {[ object_at l key ]})
  end.

Record GcWorld := { db : GcDb; objects : Objects }.

(** ** Maven sidecars *)

Definition MAVEN_SIDECAR_SUFFIXES : list string := [".md5"; ".sha1"; ".sha256"; ".sha512"].

Definition row_backed (d : GcDb) (backend_ : string) (key : string) : bool :=
  existsb (fun a => (storage_key a =? key) &&
    match repo_location d (artifact_repo a) with Some l => backend l =? backend_ | None => false end) (artifacts d).

(** The sidecars in turn, collecting the keys that lose their attribution. *)
Fixpoint reclaim_sidecars (c : GcContext) (d : GcDb) (l : StorageLocation) (key : string) (suffixes : list string)
  (reclaimed : list string) (objs : Objects) : result AppError (list string) * Objects :=
  match suffixes with
  | [] => (Ok reclaimed, objs)
  | suffix :: suffixes =>
      let sidecar := key +:+ suffix in
      match gc_fails c ProbeSidecar sidecar with
      | Some e => (Err (Database e), objs)
      | None =>
          if row_backed d (backend l) sidecar then reclaim_sidecars c d l key suffixes reclaimed objs
          else
            match delete_object c l sidecar objs with
            | (Some e, objs) => (Err e, objs)
            | (None, objs) => reclaim_sidecars c d l key suffixes (reclaimed ++ [sidecar]) objs
            end
      end
  end.

Definition reclaim_maven_sidecars (c : GcContext) (l : StorageLocation) (key : string) (w : GcWorld)
  : result AppError GcDb * Objects :=
  if negb (starts_with MAVEN_FLAT_KEY_PREFIX key) then (Ok (db w), objects w)
  else
    match reclaim_sidecars c (db w) l key MAVEN_SIDECAR_SUFFIXES [key] (objects w) with
    | (Err e, objs) => (Err e, objs)
    | (Ok keys, objs) =>
        match gc_fails c DeleteOwners key with
        | Some e => (Err (Database e), objs)
        | None =>
            (Ok (set_owners (base.filter (fun o => (owner_backend o =? backend l) && one_of (owner_key o) keys = false)) (db w)), objs)
        end
    end.

(** ** One orphan key *)

(** A group of the candidate scan. *)
Record OrphanKey := { orphan_key : string; orphan_location : StorageLocation; total_bytes : Z; artifact_count : Z }.

(** The rows of the key at the location that are in the trash lose their
    approvals, then go. *)
Definition trashed_at (d : GcDb) (l : StorageLocation) (key : string) (a : ArtifactRow) : bool :=
  (storage_key a =? key) && is_deleted a && stored_in d l (artifact_repo a).

Definition delete_approvals (l : StorageLocation) (key : string) (d : GcDb) : GcDb :=
  set_promotion_approvals
    (base.filter (fun i => existsb (fun a => bool_decide (artifact_id a = i) && trashed_at d l key a) (artifacts d) = false)) d.

Definition delete_trashed (l : StorageLocation) (key : string) (d : GcDb) : GcDb :=
  set_artifacts (base.filter (fun a => trashed_at d l key a = false)) d.

(** What follows the re-check. *)
Definition reclaim_checked (c : GcContext) (row : OrphanKey) (w : GcWorld) (r : StorageGcResult)
  : GcWorld * StorageGcResult :=
  let key := orphan_key row in
  let l := orphan_location row in
  let is_cache_object := is_proxy_cache_key key in
  let '(failed, objs) := if is_cache_object then (None, objects w) else delete_object c l key (objects w) in
  let rolled_back := {| db := db w; objects := objs |} in
  match failed with
  | Some e => (rolled_back, push_error "delete storage key" key (error_text e) r)
  | None =>
      match gc_fails c DeleteApprovals key with
      | Some e => (rolled_back, push_error "delete promotion_approvals" key e r)
      | None =>
          match gc_fails c DeleteArtifacts key with
          | Some e => (rolled_back, push_error "hard-delete artifacts" key e r)
          | None =>
              let d := delete_trashed l key (delete_approvals l key (db w)) in
              match reclaim_maven_sidecars c l key {| db := d; objects := objs |} with
              | (Err e, objs) => ({| db := db w; objects := objs |}, push_error "delete maven sidecars" key (error_text e) r)
              | (Ok d, objs) =>
                  match gc_fails c CommitReclaim key with
                  | Some e => ({| db := db w; objects := objs |}, push_error "commit gc tx" key e r)
                  | None =>
                      ({| db := d; objects := objs |},
                       if is_cache_object then add_artifacts_removed (artifact_count row) r
                       else record_gc_success (total_bytes row) (artifact_count row) r)
                  end
              end
          end
      end
  end.

Definition reclaim_orphan_key (c : GcContext) (row : OrphanKey) (wr : GcWorld * StorageGcResult) : GcWorld * StorageGcResult :=
  let '(w, r) := wr in
  let key := orphan_key row in
  match storage_for_location c (orphan_location row) with
  | Some e => (w, push_error "resolve storage" key (error_text e) r)
  | None =>
      match gc_fails c BeginReclaim key with
      | Some e => (w, push_error "begin gc tx" key e r)
      | None =>
          match gc_fails c RecheckOrphan key with
          | Some e => (w, push_error "re-check orphan" key e r)
          | None =>
              if is_still_orphan (now c) (trash_retention_days c) (db w) key (orphan_location row)
              then reclaim_checked c row w r else (w, r)
          end
      end
  end.

(** ** Pages

    The driver the sweeps share: one page of candidates at a time, from a
    cursor that is the last row of the page before; a page that is not full is
    the last.  A failing first scan is the caller's error, a later one ends the
    walk.  [process] is what the sweep does with a page. *)
Definition next_page_cursor {Row Cursor} (cursor_of : Row -> Cursor) (page : list Row) (page_size : nat) : option Cursor :=
  if (length page <? page_size)%nat then None else cursor_of <$> last page.

Definition record_page_error {S} (first : bool) (operation : string) (error : AppError) (sr : S * StorageGcResult)
  : result AppError (S * StorageGcResult) :=
  if first then Err error else Ok (sr.1, push_error operation "<page>" (error_text error) sr.2).

Fixpoint walk_pages {Row Cursor St} (fuel : nat) (operation : string) (select : Cursor -> St -> result AppError (list Row))
  (process : list Row -> St * StorageGcResult -> St * StorageGcResult) (cursor_of : Row -> Cursor) (page_size : nat)
  (first : bool) (cursor : Cursor) (sr : St * StorageGcResult) : option (result AppError (St * StorageGcResult)) :=
  match fuel with
  | O => None
  | S fuel =>
      match select cursor sr.1 with
      | Err e => Some (record_page_error first operation e sr)
      | Ok page =>
          let sr := process page sr in
          match next_page_cursor cursor_of page page_size with
          | Some cursor => walk_pages fuel operation select process cursor_of page_size false cursor sr
          | None => Some (Ok sr)
          end
      end
  end.

Definition GC_CANDIDATE_PAGE_SIZE : nat := 1000.

(** ** The candidate scan *)

Section Scan.
Context `{Collation}.

(** [(storage_key, storage_backend, storage_path)], the key of a group, of a
    row and of a cursor. *)
Notation GroupKey := (string * StorageLocation)%type.

Definition compare_groups (a b : GroupKey) : comparison :=
  lex (cmp_on fst collate) (lex (cmp_on (fun g : GroupKey => backend g.2) collate) (cmp_on (fun g : GroupKey => path g.2) collate)) a b.

Definition default_cursor : GroupKey := ("", {| backend := ""; path := "" |}).

Definition group_of (d : GcDb) (a : ArtifactRow) : option GroupKey := (fun l => (storage_key a, l)) <$> repo_location d (artifact_repo a).

Definition orphan_rows (c : GcContext) (repo_scope : option Uuid) (d : GcDb) : list ArtifactRow :=
  base.filter (fun a => match repo_location d (artifact_repo a) with
                        | Some own => orphan_predicate (now c) (trash_retention_days c) d own a
                        | None => false
                        end && match repo_scope with Some r => bool_decide (artifact_repo a = r) | None => true end = true)
    (artifacts d).

(** A total that is not decoded counts as 0. *)
Definition orphan_group (c : GcContext) (d : GcDb) (rows : list ArtifactRow) (g : GroupKey) : OrphanKey :=
  let mine := base.filter (fun a => group_of d a = Some g) rows in
  {| orphan_key := g.1; orphan_location := g.2;
     total_bytes := default 0 (decode_sum_i64 c (foldr Z.add 0 (size_bytes <$> mine)));
     artifact_count := Z.of_nat (length mine) |}.

Definition group_key (row : OrphanKey) : GroupKey := (orphan_key row, orphan_location row).

(** Every group, in the order of the scan. *)
Definition orphan_groups (c : GcContext) (repo_scope : option Uuid) (d : GcDb) : list OrphanKey :=
  let rows := orphan_rows c repo_scope d in
  orphan_group c d rows <$> sort_by compare_groups (remove_dups (omap (group_of d) rows)).

Definition after_cursor (cursor : GroupKey) (row : OrphanKey) : bool :=
  match compare_groups (group_key row) cursor with Gt => true | _ => false end.

Definition select_orphans_page (c : GcContext) (repo_scope : option Uuid) (page_size : nat) (cursor : GroupKey) (d : GcDb)
  : list OrphanKey :=
  take page_size (base.filter (fun row => after_cursor cursor row = true) (orphan_groups c repo_scope d)).

Definition accumulate_dry_run (r : StorageGcResult) (row : OrphanKey) : StorageGcResult :=
  record_gc_success (total_bytes row) (artifact_count row) r.

Definition scan_orphans (c : GcContext) (repo_scope : option Uuid) (page_size : nat) (cursor : GroupKey) (w : GcWorld)
  : result AppError (list OrphanKey) :=
  match gc_fails c SelectOrphans (fst cursor) with
  | Some e => Err (Database e)
  | None => Ok (select_orphans_page c repo_scope page_size cursor (db w))
  end.

Definition gc_page (c : GcContext) (dry : bool) (page : list OrphanKey) (wr : GcWorld * StorageGcResult)
  : GcWorld * StorageGcResult :=
  if dry then (wr.1, foldl accumulate_dry_run wr.2 page) else foldl (fun wr row => reclaim_orphan_key c row wr) wr page.

(** The first loop of [run_gc_inner].  A page past the first follows a full
    one, so there are at most as many pages as groups, and one more. *)
Definition run_orphan_sweep (c : GcContext) (repo_scope : option Uuid) (dry : bool) (page_size : nat) (w : GcWorld)
  : option (result AppError (GcWorld * StorageGcResult)) :=
  walk_pages (S (length (orphan_groups c repo_scope (db w)))) "select orphan keys" (scan_orphans c repo_scope page_size)
    (gc_page c dry) group_key page_size true default_cursor (w, empty_gc_result dry).

End Scan.
