(* ===== verification/Trash.v ===== *)
(** The trash: restore and purge of soft-deleted artifacts
    ([services/trash_service.rs]), the objects of a deleted repository
    ([api/handlers/repositories.rs] and the guards it shares with
    [services/maven_flat_attribution.rs]), and its candidates
    ([cleanup_oci_gc_candidates] and the two [record_*] functions of
    [services/storage_gc_service.rs]). *)

From stdpp Require Import base list strings option gmap sets.
From Stdlib Require Import ZArith Lia Ascii.
From S2P Require Import Prelude RustStr Errors Chrono GcDb StorageGc.

Local Open Scope Z_scope.
Local Open Scope string_scope.
Local Open Scope list_scope.
Local Open Scope result_scope.

(** * The trash *)

Definition NON_RESTORABLE_KEY_PREFIXES : list string := ["oci-manifests/"; "oci-blobs/"].

Definition OCI_RESTORE_BLOCKED_REASON : string :=
  "OCI manifests and blobs cannot be restored: deleting them also removed their tags, " +:+
  "and blob GC reclaims layers independently. Re-push the image instead.".
Definition OCI_PURGE_BLOCKED_REASON : string :=
  "OCI manifests and blobs cannot be purged individually: their tags and shared layers " +:+
  "are reclaimed by storage GC and blob GC.".
Definition PROXY_CACHE_RESTORE_BLOCKED_REASON : string :=
  "Proxy cache entries cannot be restored: the cached object is owned by the proxy cache " +:+
  "and is re-fetched from upstream on the next request.".

Definition restore_blocked_reason (key : string) : option string :=
  if is_proxy_cache_key key then Some PROXY_CACHE_RESTORE_BLOCKED_REASON
  else if existsb (fun p => starts_with p key) NON_RESTORABLE_KEY_PREFIXES then Some OCI_RESTORE_BLOCKED_REASON
  else None.

Definition purge_eligible_at (at_ : option DateTime) (retention_days : Z) : option DateTime :=
  if (retention_days =? 0)%Z then None else (fun t => t + retention_days * NANOS_PER_DAY)%Z <$> at_.

Definition check_restorable (deleted : bool) (key : string) (path_taken : bool) : result AppError unit :=
  if negb deleted then Err (NotFound "Artifact is not in the trash")
  else
    match restore_blocked_reason key with
    | Some reason => Err (Conflict reason)
    | None => if path_taken then Err (Conflict "Another live artifact already occupies this path; delete it first") else Ok tt
    end.

Definition check_purgeable (deleted : bool) (key : string) : result AppError unit :=
  if negb deleted then Err (NotFound "Artifact is not in the trash")
  else if existsb (fun p => starts_with p key) NON_RESTORABLE_KEY_PREFIXES then Err (Conflict OCI_PURGE_BLOCKED_REASON)
  else Ok tt.

(** The locked row with its repository's location. *)
Definition find_artifact (d : GcDb) (i : Uuid) : option (ArtifactRow * StorageLocation) :=
  a ← List.find (fun a => bool_decide (artifact_id a = i)) (artifacts d);
  l ← repo_location d (artifact_repo a);
  Some (a, l).

Definition path_taken (d : GcDb) (a : ArtifactRow) : bool :=
  existsb (fun other => bool_decide (artifact_repo other = artifact_repo a) && (artifact_path other =? artifact_path a) &&
                        negb (is_deleted other) && negb (bool_decide (artifact_id other = artifact_id a))) (artifacts d).

(** [artifacts_deleted_at_stamp] clears the time of a row that leaves the trash
    and stamps one that enters it. *)
Definition revive (a : ArtifactRow) : ArtifactRow :=
  {| artifact_id := artifact_id a; artifact_repo := artifact_repo a; artifact_path := artifact_path a;
     storage_key := storage_key a; size_bytes := size_bytes a; artifact_content_type := artifact_content_type a; is_deleted := false; deleted_at := None |}.
Definition soft_delete (t : DateTime) (a : ArtifactRow) : ArtifactRow :=
  {| artifact_id := artifact_id a; artifact_repo := artifact_repo a; artifact_path := artifact_path a;
     storage_key := storage_key a; size_bytes := size_bytes a; artifact_content_type := artifact_content_type a; is_deleted := true;
     deleted_at := if is_deleted a then deleted_at a else Some t |}.

Definition update_artifact (i : Uuid) (f : ArtifactRow -> ArtifactRow) (d : GcDb) : GcDb :=
  set_artifacts (fmap (fun a => if bool_decide (artifact_id a = i) then f a else a)) d.

Inductive TrashStatement := SelectTrashed | ReviveRow | LockKeyRows | DeleteTrashApprovals | DeleteTrashRow | CommitTrash.

(** The storage calls and statements of one request. *)
Record TrashContext := {
  gc : GcContext;
  unreadable : Object -> option AppError;
  trash_fails : TrashStatement -> option string
}.

Definition trash_query {A} (c : TrashContext) (s : TrashStatement) (a : A) : result AppError A :=
  match trash_fails c s with Some e => Err (Database e) | None => Ok a end.

Definition resolve_backend (c : TrashContext) (l : StorageLocation) : result AppError unit :=
  match storage_for_location (gc c) l with Some e => Err e | None => Ok tt end.

Definition object_exists (c : TrashContext) (l : StorageLocation) (key : string) (objs : Objects) : result AppError bool :=
  match unreadable c (object_at l key) with Some e => Err e | None => Ok (bool_decide (object_at l key ∈ objs)) end.

Definition restore (c : TrashContext) (i : Uuid) (w : GcWorld) : result AppError (ArtifactRow * GcWorld) :=
  let? found := trash_query c SelectTrashed (find_artifact (db w) i) in
  let? (a, l) := ok_or found (NotFound "Artifact not found") in
  let? _ := check_restorable (is_deleted a) (storage_key a) (path_taken (db w) a) in
  let? _ := resolve_backend c l in
  let? present := object_exists c l (storage_key a) (objects w) in
  if negb present then Err (Conflict "The artifact's stored object no longer exists; it cannot be restored")
  else
    let? d := trash_query c ReviveRow (update_artifact i (fun a => if is_deleted a then revive a else a) (db w)) in
    let? d := trash_query c CommitTrash d in
    Ok (revive a, {| db := d; objects := objects w |}).

(** Another row, live or trashed, or a revision at the same storage. *)
Definition key_still_referenced (d : GcDb) (l : StorageLocation) (key : string) (i : Uuid) : bool :=
  existsb (fun a => (storage_key a =? key) && negb (bool_decide (artifact_id a = i)) && stored_in d l (artifact_repo a)) (artifacts d) ||
  existsb (fun v => (revision_key v =? key) && stored_in d l (revision_repo v)) (artifact_versions d).

Definition delete_row (i : Uuid) (d : GcDb) : GcDb :=
  set_artifacts (base.filter (fun a => bool_decide (artifact_id a = i) && is_deleted a = false))
    (set_promotion_approvals (base.filter (fun j => j <> i)) d).

(** Errors roll the tables back and leave the objects as they are then; the
    answer is whether the object went. *)
Definition purge (c : TrashContext) (i : Uuid) (w : GcWorld) : result AppError bool * GcWorld :=
  match
    (let? found := trash_query c SelectTrashed (find_artifact (db w) i) in
     let? (a, l) := ok_or found (NotFound "Artifact not found") in
     let? _ := check_purgeable (is_deleted a) (storage_key a) in
     let? referenced := trash_query c LockKeyRows (key_still_referenced (db w) l (storage_key a) i) in
     let? _ := trash_query c DeleteTrashApprovals tt in
     let? d := trash_query c DeleteTrashRow (delete_row i (db w)) in
     let reclaimed := negb referenced && negb (is_proxy_cache_key (storage_key a)) in
     let? _ := if reclaimed then resolve_backend c l else Ok tt in
     Ok (a, l, d, reclaimed))
  with
  | Err e => (Err e, w)
  | Ok (a, l, d, reclaimed) =>
      let '(cleaned, objs) :=
        if reclaimed then
          match delete_object (gc c) l (storage_key a) (objects w) with
          | (Some e, objs) => (Err e, objs)
          | (None, objs) => reclaim_maven_sidecars (gc c) l (storage_key a) {| db := d; objects := objs |}
          end
        else (Ok d, objects w) in
      match (let? d := cleaned in trash_query c CommitTrash d) with
      | Err e => (Err e, {| db := db w; objects := objs |})
      | Ok d => (Ok reclaimed, {| db := d; objects := objs |})
      end
  end.

(** * Candidates of deleted repositories *)

Definition OCI_GC_CANDIDATE_SCAN_LIMIT : nat := 1000.
Definition MIN_BLOB_AGE_SECS : Z := 24 * 60 * 60.
Definition MIN_BLOB_AGE_FLOOR_SECS : Z := 60.
Definition MIN_BLOB_AGE_CEILING_SECS : Z := 7 * 24 * 60 * 60.
Definition clamp_min_blob_age_secs (secs : Z) : Z :=
  Z.min (Z.max secs MIN_BLOB_AGE_FLOOR_SECS) MIN_BLOB_AGE_CEILING_SECS.

(** [INSERT .. ON CONFLICT (storage_backend, storage_path, storage_key) DO
    NOTHING], for one key; ids come from a sequence. *)
Definition record_candidate (t : DateTime) (scope : StorageLocation) (d : GcDb) (key : string) : GcDb :=
  if existsb (fun row => bool_decide (candidate_location row = scope) && (candidate_key row =? key)) (oci_gc_candidates d) then d
  else
    set_candidates (fun rows => rows ++ [{| candidate_id := 1 + foldr Z.max 0 (candidate_id <$> rows); candidate_key := key;
                                            candidate_location := scope; recorded_at := t |}])%Z d.

(** The OCI keys a repository's tables name. *)
Definition oci_keys_of (d : GcDb) (r : Uuid) : list string :=
  omap (fun a => if bool_decide (artifact_repo a = r) &&
                    (starts_with OCI_MANIFEST_STORAGE_PREFIX (storage_key a) || starts_with OCI_BLOB_STORAGE_PREFIX (storage_key a))
                 then Some (storage_key a) else None) (artifacts d) ++
  omap (fun b => if bool_decide (blob_repo b = r) && starts_with OCI_BLOB_STORAGE_PREFIX (blob_key b)
                 then Some (blob_key b) else None) (oci_blobs d) ++
  omap (fun m => if bool_decide (ref_repo m = r) then Some (OCI_BLOB_STORAGE_PREFIX +:+ ref_blob m) else None) (manifest_blob_refs d) ++
  omap (fun t => if bool_decide (tag_repo t = r) then Some (OCI_MANIFEST_STORAGE_PREFIX +:+ tag_digest t) else None) (oci_tags d) ++
  omap (fun m => if bool_decide (child_repo m = r) then Some (OCI_MANIFEST_STORAGE_PREFIX +:+ child_digest m) else None)
    (oci_manifest_refs d) ++
  omap (fun m => if bool_decide (child_repo m = r) then Some (OCI_MANIFEST_STORAGE_PREFIX +:+ parent_digest m) else None)
    (oci_manifest_refs d) ++
  omap (fun k => if bool_decide (cleanup_repo k = r) && starts_with OCI_BLOB_STORAGE_PREFIX (cleanup_key k)
                 then Some (cleanup_key k) else None) (oci_upload_cleanup_keys d).

Definition record_oci_gc_candidates (t : DateTime) (r : Uuid) (l : StorageLocation) (d : GcDb) : GcDb :=
  foldl (record_candidate t (oci_gc_candidate_scope l)) d (remove_dups (oci_keys_of d r)).

(** The other keys the delete spares. *)
Definition spared_keys (d : GcDb) (r : Uuid) (purged : list string) : list string :=
  remove_dups (omap (fun a =>
    if bool_decide (artifact_repo a = r) && negb (is_proxy_cache_key (storage_key a)) &&
       negb (starts_with OCI_MANIFEST_STORAGE_PREFIX (storage_key a)) && negb (starts_with OCI_BLOB_STORAGE_PREFIX (storage_key a)) &&
       negb (one_of (storage_key a) purged)
    then Some (storage_key a) else None) (artifacts d)).

Definition record_spared_artifact_gc_candidates (t : DateTime) (r : Uuid) (l : StorageLocation) (purged : list string) (d : GcDb)
  : GcDb := foldl (record_candidate t (oci_gc_candidate_scope l)) d (spared_keys d r purged).

(** ** The keys of committed objects *)

(** The keys of rows that only this repository's rows and revisions name at
    its storage. *)
Definition repo_artifact_keys (d : GcDb) (r : Uuid) (l : StorageLocation) : list string :=
  omap (fun a =>
    let key := storage_key a in
    if bool_decide (artifact_repo a = r) && negb (is_proxy_cache_key key) &&
       negb (starts_with OCI_MANIFEST_STORAGE_PREFIX key) && negb (starts_with OCI_BLOB_STORAGE_PREFIX key) &&
       negb (existsb (fun b => (storage_key b =? key) && negb (bool_decide (artifact_repo b = r)) && stored_in d l (artifact_repo b)) (artifacts d)) &&
       negb (existsb (fun v => (revision_key v =? key) && negb (bool_decide (revision_repo v = r)) && stored_in d l (revision_repo v)) (artifact_versions d))
    then Some key else None) (artifacts d).

Definition GUARDED_SIDECAR_SUFFIXES : list string := [".md5"; ".sha1"; ".sha256"; ".sha512"; ".asc"].
Definition MAVEN_METADATA_FILENAME : string := "maven-metadata.xml".

(** [is_sidecar_key_sql] with [sidecar_base_key_sql], then the latter alone,
    which leaves the other keys unchanged. *)
Definition sidecar_of (key : string) : option string :=
  head (omap (fun suffix => strip_suffix suffix key) GUARDED_SIDECAR_SUFFIXES).
Definition sidecar_base_key (key : string) : string := default key (sidecar_of key).

(** [metadata_files_name_key_sql]. *)
Definition files_name_key (files : list FileEntry) (key : string) : bool :=
  existsb (fun f => bool_decide (storageKey f = Some key) || bool_decide (snake_storage_key f = Some key)) files.

Definition is_metadata_rollup_key (key : string) : bool := ends_with ("/" +:+ MAVEN_METADATA_FILENAME) (sidecar_base_key key).
Definition metadata_rollup_dir_prefix (key : string) : string :=
  let base := sidecar_base_key key in String.substring 0 (String.length base - String.length MAVEN_METADATA_FILENAME) base.

(** [s LIKE pattern ESCAPE ''], bytes standing for characters. *)
Fixpoint like_unescaped (pattern : string) : string -> bool :=
  match pattern with
  | EmptyString => fun s => s =? ""
  | String c pattern =>
      let rest := like_unescaped pattern in
      if Ascii.eqb c "%"%char then fix any s := rest s || match s with String _ s => any s | EmptyString => false end
      else fun s => match s with String b s => (Ascii.eqb c "_"%char || Ascii.eqb c b) && rest s | EmptyString => false end
  end.

(** A backslash is a character like any other. *)
Example like_unescaped_1 :
  like_unescaped "maven/a\b/%" "maven/a\b/1.0/x.jar" = true /\ like_unescaped "maven/a_b/%" "maven/axb/c" = true /\
  like_unescaped "a%c" "abd" = false /\ like_unescaped "%" "" = true.
Proof. done. Qed.

(** A row of another repository on the backend. *)
Definition foreign_row (d : GcDb) (r : Uuid) (backend_ : string) (a : ArtifactRow) : bool :=
  negb (bool_decide (artifact_repo a = r)) &&
  match repo_location d (artifact_repo a) with Some l => backend l =? backend_ | None => false end.

(** The files of another repository's artifacts name the key; metadata whose
    artifact is gone joins nothing. *)
Definition foreign_files_name (d : GcDb) (r : Uuid) (backend_ key : string) : bool :=
  existsb (fun am => files_name_key (metadata_files am) key &&
    existsb (fun pa => bool_decide (artifact_id pa = metadata_artifact am) && foreign_row d r backend_ pa) (artifacts d)) (files_metadata d).

(** [repo_maven_flat_keys_sql]: the attributed keys, but for those another
    repository's row or files name, sidecars of such keys, and the metadata of
    a directory in which another repository has a row. *)
Definition collect_repo_maven_flat_keys (d : GcDb) (r : Uuid) : list string :=
  omap (fun o =>
    let key := owner_key o in
    let foreign := foreign_row d r (owner_backend o) in
    if bool_decide (owner_repo o = r) &&
       negb (existsb (fun b => (storage_key b =? key) && foreign b) (artifacts d)) &&
       negb (foreign_files_name d r (owner_backend o) key) &&
       negb (match sidecar_of key with
             | Some base => existsb (fun sb => (storage_key sb =? base) && foreign sb) (artifacts d) || foreign_files_name d r (owner_backend o) base
             | None => false
             end) &&
       negb (is_metadata_rollup_key key &&
             existsb (fun mb => like_unescaped (metadata_rollup_dir_prefix key +:+ "%") (storage_key mb) && foreign mb) (artifacts d))
    then Some key else None) (maven_flat_object_owner d).

(** [regexp_replace] with one, two or three trailing segments: they go when
    there are that many slashes, and the key is unchanged otherwise. *)
Fixpoint drop_segments_rev (n : nat) (parts : list string) : option (list string) :=
  match n, parts with
  | O, _ => Some parts
  | S n, _ :: ((_ :: _) as parts) => drop_segments_rev n parts
  | _, _ => None
  end.
Definition drop_segments (n : nat) (key : string) : string :=
  match drop_segments_rev n (rev (split_on (Ascii.eqb "/"%char) key)) with
  | Some parts => String.concat "/" (rev parts)
  | None => key
  end.

Example drop_segments_1 :
  drop_segments 1 "maven/g/a/1/x.jar" = "maven/g/a/1" /\ drop_segments 3 "maven/g/a/1/x.jar" = "maven/g" /\
  drop_segments 2 "maven/x" = "maven/x" /\ drop_segments 1 "/x" = "".
Proof. done. Qed.

Definition derived_dirs (keys : list string) : list string :=
  base.filter (fun dir => starts_with MAVEN_FLAT_KEY_PREFIX dir && negb (dir =? "maven") = true)
    (mjoin ((fun k => [drop_segments 1 k; drop_segments 2 k; drop_segments 3 k]) <$> keys)).

(** Read off the keys alone: nothing is asked about who else names them. *)
Definition collect_repo_maven_derived_keys (d : GcDb) (r : Uuid) : list string :=
  let keys := base.filter (fun k => starts_with MAVEN_FLAT_KEY_PREFIX k = true)
                (storage_key <$> base.filter (fun a => artifact_repo a = r) (artifacts d)) in
  mjoin ((fun k => (fun suffix => k +:+ suffix) <$> MAVEN_SIDECAR_SUFFIXES) <$> keys) ++
  mjoin ((fun dir => (fun suffix => dir +:+ "/" +:+ MAVEN_METADATA_FILENAME +:+ suffix) <$> ("" :: MAVEN_SIDECAR_SUFFIXES)) <$> derived_dirs keys).

(** Each of the three queries is best effort. *)
Definition collected {A} (c : GcContext) (s : GcStatement) (keys : list A) : list A :=
  match gc_fails c s "" with Some _ => [] | None => keys end.

Definition collect_repo_artifact_object_keys (c : GcContext) (d : GcDb) (r : Uuid) (l : StorageLocation) : list string :=
  remove_dups
    (collected c CollectKeys (repo_artifact_keys d r l) ++
     collected c CollectFlatKeys (collect_repo_maven_flat_keys d r) ++
     if backend_is_repo_isolated (backend l) then collected c CollectDerivedKeys (collect_repo_maven_derived_keys d r) else []).

(** Failing deletes are only logged. *)
Definition delete_keys (c : GcContext) (l : StorageLocation) (keys : list string) (objs : Objects) : Objects :=
  foldl (fun objs key => snd (delete_object c l key objs)) objs keys.

Definition purge_storage_object_keys (c : GcContext) (l : StorageLocation) (keys : list string) (objs : Objects) : Objects :=
  match storage_for_location c l with Some _ => objs | None => delete_keys c l keys objs end.

(** ** The objects of unfinished uploads *)

Definition OCI_UPLOAD_TEMP_KEY_BATCH : nat := 1000.

(** The union of the journal, the sessions and their parts. *)
Definition upload_keys_of (d : GcDb) (r : Uuid) : list string :=
  remove_dups
    ((cleanup_key <$> base.filter (fun k => cleanup_repo k = r) (oci_upload_cleanup_keys d)) ++
     (storage_temp_key <$> base.filter (fun s => session_repo s = r) (oci_upload_sessions d)) ++
     (part_key <$> base.filter (fun p => existsb (fun s => bool_decide (session_id s = part_session p) && bool_decide (session_repo s = r))
                                           (oci_upload_sessions d) = true) (oci_upload_parts d))).

Section Uploads.
Context `{Collation}.

Definition after_key (cursor key : string) : bool := match collate key cursor with Gt => true | _ => false end.

Definition upload_keys_page (n : nat) (keys : list string) (cursor : string) : list string :=
  take n (base.filter (fun key => after_key cursor key = true) (sort_by collate keys)).

(** Pages of [n] keys from a cursor; a page that is not full, or a failing
    query, is the last. *)
Fixpoint drain_upload_keys (fuel : nat) (c : GcContext) (n : nat) (keys : list string) (cursor : string) : list string :=
  match fuel with
  | O => []
  | S fuel =>
      let batch := match gc_fails c CollectUploadKeys cursor with Some _ => [] | None => upload_keys_page n keys cursor end in
      batch ++ match next_page_cursor id batch n with Some cursor => drain_upload_keys fuel c n keys cursor | None => [] end
  end.

Definition collect_repo_oci_upload_temp_keys (c : GcContext) (d : GcDb) (r : Uuid) : list string :=
  let keys := upload_keys_of d r in drain_upload_keys (S (length keys)) c OCI_UPLOAD_TEMP_KEY_BATCH keys "".

End Uploads.

Definition oci_upload_keys_owned_by_deleted_repo (backend_ : string) (keys : list string) : list string :=
  if backend_is_repo_isolated backend_ then keys
  else base.filter (fun key => starts_with OCI_BLOB_STORAGE_PREFIX key = false) keys.

Definition purge_oci_upload_temp_objects (c : GcContext) (l : StorageLocation) (keys : list string) (objs : Objects) : Objects :=
  let keys := oci_upload_keys_owned_by_deleted_repo (backend l) keys in
  match storage_for_location c l with Some _ => objs | None => delete_keys c l keys objs end.

(** ** The cache of a proxy *)

(** The scope segment of the deployment, none for the layout before it. *)
Definition repo_root (segment : option string) (repo_key : string) : string :=
  PROXY_CACHE_KEY_PREFIX +:+ match segment with Some s => s +:+ "/" | None => "" end +:+ repo_key +:+ "/".

Definition repo_roots (segment : option string) (repo_key : string) : list string :=
  let roots := [repo_root segment repo_key] in
  if bool_decide (segment = Some repo_key) then roots
  else let legacy := repo_root None repo_key in if one_of legacy roots then roots else roots ++ [legacy].

(** The store of the proxy cache, with its scope. *)
Record ProxyCache := { proxy_location : StorageLocation; proxy_segment : option string }.

(** [storage.list(prefix)]. *)
Definition list_keys (l : StorageLocation) (prefix : string) (objs : Objects) : list string :=
  snd <$> base.filter (fun o : Object => starts_with prefix (snd o) = true /\ object_at l (snd o) = o) (elements objs).

(** A listing that fails ends the purge before any delete. *)
Definition purge_repo_cache (c : GcContext) (p : ProxyCache) (repo_key : string) (objs : Objects) : Objects :=
  match gc_fails c ListProxyCache "" with
  | Some _ => objs
  | None => delete_keys c (proxy_location p) (mjoin ((fun prefix => list_keys (proxy_location p) prefix objs) <$> repo_roots (proxy_segment p) repo_key)) objs
  end.

(** ** The handler *)

(** [DELETE FROM repositories] with its cascades; the metadata of its
    artifacts, which then joins nothing, is left. *)
Definition delete_repository (r : Uuid) (d : GcDb) : GcDb :=
  {| repositories := base.filter (fun row => repo_id row <> r) (repositories d);
     artifacts := base.filter (fun a => artifact_repo a <> r) (artifacts d);
     artifact_versions := base.filter (fun v => revision_repo v <> r) (artifact_versions d);
     promotion_approvals := promotion_approvals d;
     files_metadata := files_metadata d;
     oci_tags := base.filter (fun t => tag_repo t <> r) (oci_tags d);
     oci_blobs := base.filter (fun b => blob_repo b <> r) (oci_blobs d);
     oci_manifest_refs := base.filter (fun m => child_repo m <> r) (oci_manifest_refs d);
     manifest_blob_refs := base.filter (fun m => ref_repo m <> r) (manifest_blob_refs d);
     maven_flat_object_owner := base.filter (fun o => owner_repo o <> r) (maven_flat_object_owner d);
     oci_gc_candidates := oci_gc_candidates d;
     oci_upload_sessions := base.filter (fun s => session_repo s <> r) (oci_upload_sessions d);
     oci_upload_parts := base.filter (fun p => existsb (fun s => bool_decide (session_id s = part_session p) &&
       bool_decide (session_repo s = r)) (oci_upload_sessions d) = false) (oci_upload_parts d);
     oci_upload_cleanup_keys := base.filter (fun k => cleanup_repo k <> r) (oci_upload_cleanup_keys d) |}.

(** The storage side of deleting a repository: the keys are collected and the
    candidates recorded, each best effort, before the row goes; the objects go
    afterwards, in the background. *)
Definition begin_repository_delete (c : GcContext) (r : Uuid) (l : StorageLocation) (d : GcDb) : list string * GcDb :=
  let keys := collect_repo_artifact_object_keys c d r l in
  let d := match gc_fails c RecordSpared "" with Some _ => d | None => record_spared_artifact_gc_candidates (now c) r l keys d end in
  let d := match gc_fails c RecordOci "" with Some _ => d | None => record_oci_gc_candidates (now c) r l d end in
  (keys, delete_repository r d).

Definition delete_repository_with_objects `{Collation} (c : GcContext) (proxy : option ProxyCache) (r : Uuid) (repo_key : string)
  (l : StorageLocation) (w : GcWorld) : GcWorld :=
  let oci_upload_temp_keys := collect_repo_oci_upload_temp_keys c (db w) r in
  let '(artifact_object_keys, d) := begin_repository_delete c r l (db w) in
  let objs := purge_storage_object_keys c l artifact_object_keys (objects w) in
  let objs := purge_oci_upload_temp_objects c l oci_upload_temp_keys objs in
  {| db := d; objects := match proxy with Some p => purge_repo_cache c p repo_key objs | None => objs end |}.

Definition maven_owned (d : GcDb) (l : StorageLocation) (key : string) : bool :=
  existsb (fun o => (owner_key o =? key) && stored_in d l (owner_repo o)) (maven_flat_object_owner d).

(** [OCI_GC_CANDIDATE_REFERENCED_SQL]: every table that makes an object
    reachable, one arm each. *)
Definition candidate_is_still_referenced (d : GcDb) (l : StorageLocation) (key : string) : bool :=
  existsb (fun a => (storage_key a =? key) && stored_in d l (artifact_repo a)) (artifacts d) ||
  existsb (fun v => (revision_key v =? key) && stored_in d l (revision_repo v)) (artifact_versions d) ||
  maven_owned d l key ||
  existsb (fun b => names_digest OCI_BLOB_STORAGE_PREFIX key (blob_digest b) && stored_in d l (blob_repo b)) (oci_blobs d) ||
  existsb (fun m => names_digest OCI_BLOB_STORAGE_PREFIX key (ref_blob m) && stored_in d l (ref_repo m)) (manifest_blob_refs d) ||
  existsb (fun t => names_digest OCI_MANIFEST_STORAGE_PREFIX key (tag_digest t) && stored_in d l (tag_repo t)) (oci_tags d) ||
  existsb (fun m => names_digest OCI_MANIFEST_STORAGE_PREFIX key (child_digest m) && stored_in d l (child_repo m)) (oci_manifest_refs d) ||
  existsb (fun m => names_digest OCI_MANIFEST_STORAGE_PREFIX key (parent_digest m) && stored_in d l (child_repo m)) (oci_manifest_refs d) ||
  existsb (fun k => (cleanup_key k =? key) && stored_in d l (cleanup_repo k)) (oci_upload_cleanup_keys d).

Definition select_oci_gc_candidates (c : GcContext) (min_age_secs : Z) (d : GcDb) : list OciGcCandidate :=
  take OCI_GC_CANDIDATE_SCAN_LIMIT
    (sort_by (cmp_on candidate_id Z.compare)
       (base.filter (fun row => (recorded_at row < now c - min_age_secs * NANOS_PER_SEC)%Z) (oci_gc_candidates d))).

Definition count_deleted (r : StorageGcResult) : StorageGcResult :=
  {| dry_run := dry_run r; storage_keys_deleted := storage_keys_deleted r + 1;
     artifacts_removed := artifacts_removed r; bytes_freed := bytes_freed r; errors := errors r |}.

Definition drop_candidate (i : Z) (d : GcDb) : GcDb := set_candidates (base.filter (fun row => candidate_id row <> i)) d.

Definition consume_candidate (c : GcContext) (wr : GcWorld * StorageGcResult) (row : OciGcCandidate)
  : GcWorld * StorageGcResult :=
  let '(w, r) := wr in
  let key := candidate_key row in
  let l := candidate_location row in
  let fails s := gc_fails c s key in
  match storage_for_location c l with
  | Some e => (w, push_error "resolve OCI GC candidate storage" key (error_text e) r)
  | None =>
  match fails BeginCandidate with
  | Some e => (w, push_error "begin OCI GC candidate tx" key e r)
  | None =>
  match fails LockCandidate with
  | Some e => (w, push_error "lock OCI GC candidate" key e r)
  | None =>
  if negb (existsb (fun other => candidate_id other =? candidate_id row)%Z (oci_gc_candidates (db w))) then (w, r)
  else
  match fails RecheckCandidate with
  | Some e => (w, push_error "re-check OCI GC candidate" key (error_text (Database e)) r)
  | None =>
      let referenced := candidate_is_still_referenced (db w) l key in
      let '(failed, objs) := if referenced then (None, objects w) else delete_object c l key (objects w) in
      match failed with
      | Some e => ({| db := db w; objects := objs |}, push_error "delete orphaned OCI object" key (error_text e) r)
      | None =>
          match fails DeleteCandidate with
          | Some e => ({| db := db w; objects := objs |}, push_error "delete OCI GC candidate row" key e r)
          | None =>
              match fails CommitCandidate with
              | Some e => ({| db := db w; objects := objs |}, push_error "commit OCI GC candidate tx" key e r)
              | None =>
                  ({| db := drop_candidate (candidate_id row) (db w); objects := objs |},
                   if referenced then r else count_deleted r)
              end
          end
      end
  end end end end.

Definition dry_candidate (c : GcContext) (d : GcDb) (r : StorageGcResult) (row : OciGcCandidate) : StorageGcResult :=
  match gc_fails c RecheckCandidate (candidate_key row) with
  | Some e => push_error "re-check OCI GC candidate" (candidate_key row) (error_text (Database e)) r
  | None => if candidate_is_still_referenced d (candidate_location row) (candidate_key row) then r else count_deleted r
  end.

Definition cleanup_oci_gc_candidates (c : GcContext) (min_age_secs : Z) (repo_scope : option Uuid) (dry : bool) (w : GcWorld)
  (r : StorageGcResult) : result AppError (GcWorld * StorageGcResult) :=
  match repo_scope with
  | Some _ => Ok (w, r)
  | None =>
      match gc_fails c SelectCandidates "<sweep>" with
      | Some e => Err (Database e)
      | None =>
          let candidates := select_oci_gc_candidates c min_age_secs (db w) in
          Ok (if dry then (w, foldl (dry_candidate c (db w)) r candidates) else foldl (consume_candidate c) (w, r) candidates)
      end
  end.
