(* ===== verification/StorageGcFacts.v ===== *)
(** What storage collection promises: an object that something serves is never
    deleted, whatever fails and whatever else happens between the keys of a
    pass; the pages of a pass are one walk over the candidates; a pass without
    failures leaves none. *)

From stdpp Require Import base list strings option gmap sets relations sorting.
From Stdlib Require Import ZArith Lia Sorted.
From S2P Require Import Prelude RustStr Errors Chrono GcDb StorageGc Trash.

Local Open Scope Z_scope.
Local Open Scope string_scope.
Local Open Scope list_scope.

(** * Rows and locations *)

Lemma stored_in_scope d a b r : same_storage a b = true -> stored_in d a r = stored_in d b r.
Proof. intros E. unfold stored_in. destruct (repo_location d r); [|done]. by apply same_storage_r. Qed.

Lemma stored_in_own d r own : repo_location d r = Some own -> stored_in d own r = true.
Proof. unfold stored_in. intros ->. apply same_storage_refl. Qed.

(** The names of a key depend on the object only. *)
Lemma in_use_scope d a b key : same_storage a b = true -> in_use d a key = in_use d b key.
Proof.
  intros E. unfold in_use, live_with_key, tagged, blob_row_with_key, tagged_child.
  f_equal; [f_equal; [f_equal|]|]; apply existsb_ext_in; intros x _; by rewrite (stored_in_scope d a b _ E).
Qed.

Lemma retained_scope t days d a b key : same_storage a b = true -> retained t days d a key = retained t days d b key.
Proof. intros E. apply existsb_ext_in; intros x _. by rewrite (stored_in_scope d a b _ E). Qed.

Lemma key_rows_scope d a b key : same_storage a b = true -> key_rows d a key = key_rows d b key.
Proof.
  intros E. unfold key_rows. apply list_filter_iff. intros x. by rewrite (stored_in_scope d a b _ E).
Qed.

Lemma elem_of_key_rows d l key a : a ∈ key_rows d l key <-> a ∈ artifacts d /\ storage_key a = key /\ stored_in d l (artifact_repo a) = true.
Proof. unfold key_rows. rewrite list_elem_of_filter, andb_true_iff, String.eqb_eq. tauto. Qed.

Lemma stored_in_location d l r : stored_in d l r = true -> exists own, repo_location d r = Some own /\ same_storage own l = true.
Proof. unfold stored_in. destruct (repo_location d r) as [own|]; [eauto|done]. Qed.

(** ** The re-check *)

Lemma still_orphan_rows t days d key l a : is_still_orphan t days d key l = true -> a ∈ key_rows d l key ->
  exists own, repo_location d (artifact_repo a) = Some own /\ orphan_predicate t days d own a = true.
Proof.
  unfold is_still_orphan. rewrite andb_true_iff, forallb_forall. intros [_ Hall] Ha%list_elem_of_In.
  specialize (Hall a Ha). destruct (repo_location _ _) as [own|]; [eauto|done].
Qed.

Lemma still_orphan_unused t days d key l : is_still_orphan t days d key l = true -> in_use d l key = false.
Proof.
  intros Hs. assert (exists a, a ∈ key_rows d l key) as [a Ha].
  { unfold is_still_orphan in Hs. apply andb_true_iff in Hs as [Hne _].
    destruct (key_rows d l key) as [|a rows]; [done|]. exists a. left. }
  destruct (still_orphan_rows _ _ _ _ _ _ Hs Ha) as (own & Hown & Hp).
  apply elem_of_key_rows in Ha as (_ & Hk & Hst). unfold stored_in in Hst. rewrite Hown in Hst.
  unfold orphan_predicate in Hp. apply andb_true_iff in Hp as [[_ Hu]%andb_true_iff _].
  rewrite <- Hk, <- (in_use_scope d own l) by done. by apply negb_true_iff.
Qed.

Lemma still_orphan_deleted t days d key l a : is_still_orphan t days d key l = true -> a ∈ key_rows d l key -> is_deleted a = true.
Proof.
  intros Hs Ha. destruct (still_orphan_rows _ _ _ _ _ _ Hs Ha) as (own & _ & Hp). unfold orphan_predicate in Hp.
  by apply andb_true_iff in Hp as [[? _]%andb_true_iff _].
Qed.

(** * Served objects *)

(** Every key that something serves has its object; the proxy cache looks after
    the keys of its own. *)
Definition Served (w : GcWorld) : Prop :=
  forall l key, is_proxy_cache_key key = false -> in_use (db w) l key = true -> object_at l key ∈ objects w.

Lemma starts_not_names prefix other key digest : starts_with prefix key = true -> starts_with prefix (other +:+ digest) = false ->
  names_digest other key digest = false.
Proof.
  intros Hp Hn. destruct (names_digest other key digest) eqn:E; [|done]. apply names_digest_true in E. subst key. congruence.
Qed.

(** A key with a Maven prefix is named by artifact rows only. *)
Lemma maven_in_use d l key : starts_with MAVEN_FLAT_KEY_PREFIX key = true -> in_use d l key = live_with_key d l key.
Proof.
  intros Hm. unfold in_use, tagged, blob_row_with_key, tagged_child.
  assert (forall dg, names_digest OCI_MANIFEST_STORAGE_PREFIX key dg = false) as Hn1 by (intros; by apply (starts_not_names MAVEN_FLAT_KEY_PREFIX)).
  assert (forall dg, names_digest OCI_BLOB_STORAGE_PREFIX key dg = false) as Hn2 by (intros; by apply (starts_not_names MAVEN_FLAT_KEY_PREFIX)).
  rewrite (proj2 (existsb_false _ (oci_tags d))) by (intros; by rewrite Hn1).
  rewrite (proj2 (existsb_false _ (oci_blobs d))) by (intros; by rewrite Hn2).
  rewrite (proj2 (existsb_false _ (oci_manifest_refs d))) by (intros; by rewrite Hn1).
  by rewrite !orb_false_r.
Qed.

Lemma not_row_backed_unused d l key : starts_with MAVEN_FLAT_KEY_PREFIX key = true -> row_backed d (backend l) key = false ->
  in_use d l key = false.
Proof.
  intros Hm Hr. rewrite maven_in_use by done. apply existsb_false. intros a Ha.
  pose proof (proj1 (existsb_false _ _) Hr a Ha) as Hf. simpl in Hf.
  destruct (storage_key a =? key); [|done]. simpl in *. unfold stored_in. destruct (repo_location d (artifact_repo a)) as [own|]; [|by rewrite andb_false_r].
  unfold same_storage. by rewrite Hf, andb_false_r.
Qed.

(** The deletes of a step keep what is in use in [d]. *)
Definition keeps (d : GcDb) (objs objs' : Objects) : Prop :=
  objs' ⊆ objs /\ forall l key, in_use d l key = true -> object_at l key ∈ objs -> object_at l key ∈ objs'.

Lemma keeps_refl d objs : keeps d objs objs.
Proof. by split. Qed.

Lemma keeps_trans d a b c : keeps d a b -> keeps d b c -> keeps d a c.
Proof. intros [S1 K1] [S2 K2]. split; [by etrans|]. eauto. Qed.

Lemma delete_keeps c d l key objs : in_use d l key = false -> keeps d objs (snd (delete_object c l key objs)).
Proof.
  intros Hu. unfold delete_object. destruct (undeletable c _); simpl; [apply keeps_refl|]. split; [set_solver|].
  intros l' key' Hu' Ho. apply elem_of_difference. split; [done|]. intros [Hs ->]%elem_of_singleton%object_at_eq.
  rewrite (in_use_scope _ _ _ _ Hs) in Hu'. congruence.
Qed.

Lemma sidecars_keep c d l key suffixes : starts_with MAVEN_FLAT_KEY_PREFIX key = true ->
  forall reclaimed objs, keeps d objs (snd (reclaim_sidecars c d l key suffixes reclaimed objs)).
Proof.
  intros Hm. induction suffixes as [|s suffixes IH]; intros reclaimed objs; simpl; [apply keeps_refl|].
  destruct (gc_fails c ProbeSidecar _); [apply keeps_refl|].
  destruct (row_backed d (backend l) _) eqn:Er; [apply IH|].
  pose proof (delete_keeps c d l (key +:+ s) objs (not_row_backed_unused _ _ _ (starts_with_app _ _ _ Hm) Er)) as Hk.
  destruct (delete_object _ _ _ _) as [[e|] objs']; simpl in *; [done|]. eapply keeps_trans; [exact Hk|apply IH].
Qed.

Lemma maven_sidecars_keep c l key w r objs : reclaim_maven_sidecars c l key w = (r, objs) -> keeps (db w) (objects w) objs.
Proof.
  unfold reclaim_maven_sidecars. destruct (starts_with _ key) eqn:Hm; cbn [negb]; [|by intros [= <- <-]; apply keeps_refl].
  pose proof (sidecars_keep c (db w) l key MAVEN_SIDECAR_SUFFIXES Hm [key] (objects w)) as Hk. revert Hk.
  destruct (reclaim_sidecars _ _ _ _ _ _ _) as [[keys|e] objs']; cbn [snd]; intros Hk; [|by intros [= <- <-]].
  by destruct (gc_fails c DeleteOwners key); intros [= <- <-].
Qed.

Lemma maven_sidecars_db c l key w d objs : reclaim_maven_sidecars c l key w = (Ok d, objs) ->
  exists f, d = set_owners f (db w).
Proof.
  unfold reclaim_maven_sidecars. destruct (negb _).
  { intros E. injection E as <- _. exists (fun x => x). by destruct (db w). }
  destruct (reclaim_sidecars _ _ _ _ _ _ _) as [[keys|e] objs']; [|done].
  destruct (gc_fails c DeleteOwners key); [done|]. intros E. injection E as <- _. eauto.
Qed.

(** Reclaiming rows of the trash leaves what is in use. *)
Lemma in_use_owners f d l key : in_use (set_owners f d) l key = in_use d l key.
Proof. done. Qed.

Lemma in_use_approvals f d l key : in_use (set_promotion_approvals f d) l key = in_use d l key.
Proof. done. Qed.

Lemma in_use_filter (P : ArtifactRow -> Prop) `{!forall x, Decision (P x)} d l key :
  (forall a, a ∈ artifacts d -> is_deleted a = false -> P a) -> in_use (set_artifacts (base.filter P) d) l key = in_use d l key.
Proof.
  intros Hp. unfold in_use. f_equal; f_equal; f_equal. unfold live_with_key. simpl.
  change (stored_in (set_artifacts (base.filter P) d)) with (stored_in d). apply existsb_filter.
  intros a Ha Hf. apply Hp; [done|]. apply andb_true_iff in Hf as [[_ Hd]%andb_true_iff _]. by apply negb_true_iff.
Qed.

Lemma in_use_delete_trashed l key d l' key' : in_use (delete_trashed l key d) l' key' = in_use d l' key'.
Proof.
  apply in_use_filter. intros a _ Hd. unfold trashed_at. by rewrite Hd, andb_false_r.
Qed.

(** What one key of the sweep does. *)
Lemma reclaim_effect c row w r w' r' : reclaim_orphan_key c row (w, r) = (w', r') ->
  keeps (db w) (objects w) (objects w') /\
  (db w' = db w \/
   is_still_orphan (now c) (trash_retention_days c) (db w) (orphan_key row) (orphan_location row) = true /\
   storage_for_location c (orphan_location row) = None /\ gc_fails c BeginReclaim (orphan_key row) = None /\
   gc_fails c RecheckOrphan (orphan_key row) = None /\
   exists f g, db w' = set_owners f (delete_trashed (orphan_location row) (orphan_key row) (set_promotion_approvals g (db w)))).
Proof.
  unfold reclaim_orphan_key.
  destruct (storage_for_location c _) eqn:E1; [intros [= <- <-]; split; [apply keeps_refl|by left]|].
  destruct (gc_fails c BeginReclaim _) eqn:E2; [intros [= <- <-]; split; [apply keeps_refl|by left]|].
  destruct (gc_fails c RecheckOrphan _) eqn:E3; [intros [= <- <-]; split; [apply keeps_refl|by left]|].
  destruct (is_still_orphan _ _ _ _ _) eqn:Eo; [|intros [= <- <-]; split; [apply keeps_refl|by left]].
  pose proof (still_orphan_unused _ _ _ _ _ Eo) as Hu. unfold reclaim_checked.
  set (l := orphan_location row) in *. set (key := orphan_key row) in *.
  destruct (if is_proxy_cache_key key then (None, objects w) else delete_object c l key (objects w)) as [failed objs] eqn:Ed.
  assert (keeps (db w) (objects w) objs) as Hk.
  { destruct (is_proxy_cache_key key); [injection Ed as <- <-; apply keeps_refl|].
    pose proof (delete_keeps c (db w) l key (objects w) Hu) as Hk. by rewrite Ed in Hk. }
  destruct failed as [e|]; [intros [= <- <-]; split; [done|by left]|].
  destruct (gc_fails c DeleteApprovals key); [intros [= <- <-]; split; [done|by left]|].
  destruct (gc_fails c DeleteArtifacts key); [intros [= <- <-]; split; [done|by left]|].
  set (d := delete_trashed l key (delete_approvals l key (db w))).
  destruct (reclaim_maven_sidecars c l key {| db := d; objects := objs |}) as [[d'|e] objs'] eqn:Es.
  - assert (keeps (db w) objs objs') as Hk'.
    { apply maven_sidecars_keep in Es as [Hs Hk']. split; [done|]. intros l' key' Hu' Ho. apply Hk'; [|done].
      simpl. unfold d. by rewrite in_use_delete_trashed. }
    pose proof (keeps_trans _ _ _ _ Hk Hk'). destruct (gc_fails c CommitReclaim key); intros [= <- <-]; [split; [done|by left]|].
    split; [done|]. right. split_and!; try done. apply maven_sidecars_db in Es as (f & ->). exists f. eexists. unfold d. done.
  - assert (keeps (db w) objs objs') as Hk'.
    { apply maven_sidecars_keep in Es as [Hs Hk']. split; [done|]. intros l' key' Hu' Ho. apply Hk'; [|done].
      simpl. unfold d. by rewrite in_use_delete_trashed. }
    intros [= <- <-]. split; [by eapply keeps_trans|by left].
Qed.

Lemma reclaim_served c row w r : Served w -> Served (fst (reclaim_orphan_key c row (w, r))).
Proof.
  intros Hs. destruct (reclaim_orphan_key c row (w, r)) as [w' r'] eqn:E. simpl.
  destruct (reclaim_effect _ _ _ _ _ _ E) as [[_ Hk] Hdb]. intros l key Hnp Hu. apply Hk; [|apply Hs; [done|]];
    destruct Hdb as [Hdb|(_ & _ & _ & _ & f & g & Hdb)]; rewrite Hdb in Hu; try done; by rewrite in_use_owners, in_use_delete_trashed in Hu.
Qed.

(** * Pages *)

Lemma StronglySorted_filter {A} (R : A -> A -> Prop) (P : A -> Prop) `{!forall x, Decision (P x)} l :
  StronglySorted R l -> StronglySorted R (base.filter P l).
Proof.
  induction l as [|x l IH]; intros Hs; [constructor|]. apply StronglySorted_inv in Hs as [Hs Hf]. rewrite filter_cons.
  destruct (decide (P x)); [|by apply IH]. constructor; [by apply IH|].
  rewrite Forall_forall in *. intros y [_ Hy]%list_elem_of_filter. by apply Hf.
Qed.

Section PageOrder.
Context {Row Cursor : Type} (cmp : Cursor -> Cursor -> comparison) `{!TotalPreorder cmp} (key : Row -> Cursor) (n : nat).

Definition walk_before (a b : Row) : Prop := cmp (key b) (key a) = Gt.
Definition walk_after (cursor : Cursor) (row : Row) : bool := match cmp (key row) cursor with Gt => true | _ => false end.

(** What follows the last row of a full page is the rest of the walk. *)
Lemma after_page G cursor page : StronglySorted walk_before G ->
  take n (base.filter (fun row => walk_after cursor row = true) G) = page ->
  forall x, last page = Some x ->
  base.filter (fun row => walk_after (key x) row = true) G =
  drop n (base.filter (fun row => walk_after cursor row = true) G).
Proof.
  intros Hs <- x Hx. set (A := base.filter _ G) in *. set (p := take n A) in *.
  assert (StronglySorted walk_before A) as HA by (by apply StronglySorted_filter).
  apply last_Some in Hx as (p' & Hp).
  assert (A = (p' ++ [x]) ++ drop n A) as EA by (rewrite <- Hp; symmetry; apply take_drop).
  assert (x ∈ A) as HxA by (rewrite EA; set_solver).
  unfold A in HxA. apply list_elem_of_filter in HxA as [Hxc _].
  assert (base.filter (fun row => walk_after (key x) row = true) G = base.filter (fun row => walk_after (key x) row = true) A) as ->.
  { unfold A. symmetry. apply filter_absorb. intros y _ Hy. unfold walk_after in *.
    destruct (cmp (key y) (key x)) eqn:E1; try done.
    destruct (cmp (key x) cursor) eqn:E2; try done. apply (tp_gt_lt cmp) in E1, E2.
    assert (cmp (key y) cursor = Gt) as ->; [|done]. apply (tp_gt_lt cmp).
    by apply (tp_lt_trans cmp _ (key x)). }
  assert (StronglySorted walk_before ((p' ++ [x]) ++ drop n A)) as HA2 by (by rewrite <- EA).
  rewrite EA at 1. rewrite filter_app, filter_none, filter_id; [done|..]; intros y Hy; unfold walk_after.
  - assert (walk_before x y) as Hb by (eapply StronglySorted_app_1_elem_of; [exact HA2|set_solver|done]).
    unfold walk_before in Hb. by rewrite Hb.
  - apply elem_of_app in Hy as [Hy| ->%list_elem_of_singleton]; [|by rewrite (tp_refl cmp)].
    apply StronglySorted_app in HA2 as (_ & HA2 & _). apply StronglySorted_app in HA2 as (Hb & _ & _).
    specialize (Hb y x Hy ltac:(left)). unfold walk_before in Hb. apply (tp_gt_lt cmp) in Hb. by rewrite Hb.
Qed.

End PageOrder.

(** A walk by pages over candidates that the walk itself changes.  [groups] are
    the candidates in their order; processing a page leaves out candidates whose
    processing has become a no-op. *)
Section Walk.
Context {Row Cursor St : Type} (cmp : Cursor -> Cursor -> comparison) `{!TotalPreorder cmp}.
Context (key : Row -> Cursor) (groups : St -> list Row) (Inv : St -> Prop).
Context (process : list Row -> St * StorageGcResult -> St * StorageGcResult) (operation : string) (n : nat).

#[local] Notation walk_before := (walk_before cmp key).
#[local] Notation walk_after := (walk_after cmp key).

(** What processing a page may do to the candidates. *)
Definition page_removes (page : list Row) (sr : St * StorageGcResult) : Prop :=
  exists keep : Row -> bool,
    groups (process page sr).1 = base.filter (fun row => keep row = true) (groups sr.1) /\
    forall rest, process (base.filter (fun row => keep row = true) rest) (process page sr) = process rest (process page sr).

Context (groups_sorted : forall s, Inv s -> StronglySorted walk_before (groups s)).
Context (process_inv : forall page sr, Inv sr.1 -> (forall row, row ∈ page -> row ∈ groups sr.1) -> Inv (process page sr).1).
Context (process_app : forall page rest sr, process (page ++ rest) sr = process rest (process page sr)).
Context (process_removes : forall page sr, Inv sr.1 -> (forall row, row ∈ page -> row ∈ groups sr.1) -> page_removes page sr).

Lemma page_rows cursor s row : row ∈ take n (base.filter (fun row => walk_after cursor row = true) (groups s)) -> row ∈ groups s.
Proof.
  intros (i & Hin & _)%elem_of_take. apply list_elem_of_lookup_2 in Hin. by apply list_elem_of_filter in Hin as [_ ?].
Qed.

(** However small the pages, a walk does what one walk over all its candidates
    does. *)
Lemma walk_pages_one (select : Cursor -> St -> result AppError (list Row)) :
  (1 <= n)%nat ->
  (forall cursor s, select cursor s = Ok (take n (base.filter (fun row => walk_after cursor row = true) (groups s)))) ->
  forall fuel first cursor sr, Inv sr.1 ->
  (length (base.filter (fun row => walk_after cursor row = true) (groups sr.1)) < fuel)%nat ->
  walk_pages fuel operation select process key n first cursor sr =
  Some (Ok (process (base.filter (fun row => walk_after cursor row = true) (groups sr.1)) sr)).
Proof.
  intros Hn Hsel. induction fuel as [|fuel IH]; intros first cursor sr Hinv Hl; [lia|]. cbn [walk_pages]. rewrite Hsel.
  set (A := base.filter _ (groups sr.1)) in *. unfold next_page_cursor.
  destruct (Nat.ltb_spec (length (take n A)) n) as [Hs|Hs].
  { by rewrite take_ge by (rewrite length_take in Hs; lia). }
  destruct (last (take n A)) as [x|] eqn:Ex.
  2: { apply last_None in Ex. rewrite Ex in Hs. simpl in Hs. lia. }
  pose proof (after_page cmp key n (groups sr.1) cursor _ (groups_sorted _ Hinv) eq_refl x Ex) as Hr. fold A in Hr. cbn [fmap option_fmap option_map].
  destruct (process_removes (take n A) sr Hinv (page_rows cursor sr.1)) as (keep & Hg & Hrest).
  assert (base.filter (fun row => walk_after (key x) row = true) (groups (process (take n A) sr).1) =
    base.filter (fun row => keep row = true) (drop n A)) as Hnext.
  { rewrite Hg, <- Hr, !list_filter_filter. apply list_filter_iff. intros row. tauto. }
  rewrite IH; [|apply process_inv; [done|apply page_rows]|]; rewrite Hnext.
  - by rewrite Hrest, <- process_app, take_drop.
  - assert (length (base.filter (fun row => keep row = true) (drop n A)) <= length (drop n A))%nat by apply length_filter.
    rewrite length_drop in *. rewrite length_take in Hs. lia.
Qed.

(** With any failures of the scan, a walk ends. *)
Lemma walk_pages_returns (select : Cursor -> St -> result AppError (list Row)) :
  (1 <= n)%nat ->
  (forall cursor s page, select cursor s = Ok page -> page = take n (base.filter (fun row => walk_after cursor row = true) (groups s))) ->
  forall fuel first cursor sr, Inv sr.1 ->
  (length (base.filter (fun row => walk_after cursor row = true) (groups sr.1)) < fuel)%nat ->
  exists res, walk_pages fuel operation select process key n first cursor sr = Some res.
Proof.
  intros Hn Hsel. induction fuel as [|fuel IH]; intros first cursor sr Hinv Hl; [lia|]. cbn [walk_pages].
  destruct (select cursor sr.1) as [page|e] eqn:Es; [|by eexists]. apply Hsel in Es as ->. set (A := base.filter _ (groups sr.1)) in *.
  unfold next_page_cursor. destruct (Nat.ltb_spec (length (take n A)) n) as [Hs|Hs]; [by eexists|].
  destruct (last (take n A)) as [x|] eqn:Ex; [|by eexists].
  pose proof (after_page cmp key n (groups sr.1) cursor _ (groups_sorted _ Hinv) eq_refl x Ex) as Hr. fold A in Hr. cbn [fmap option_fmap option_map].
  destruct (process_removes (take n A) sr Hinv (page_rows cursor sr.1)) as (keep & Hg & _). apply IH; [apply process_inv; [done|apply page_rows]|].
  assert (base.filter (fun row => walk_after (key x) row = true) (groups (process (take n A) sr).1) =
    base.filter (fun row => keep row = true) (drop n A)) as ->.
  { rewrite Hg, <- Hr, !list_filter_filter. apply list_filter_iff. intros row. tauto. }
  pose proof (length_filter (fun row => keep row = true) (drop n A)).
  rewrite length_drop in *. rewrite length_take in Hs. lia.
Qed.

End Walk.

(** What every page keeps, a walk keeps. *)
Lemma walk_pages_keeps {Row Cursor St} (P : St -> Prop) fuel operation select process (key : Row -> Cursor) n :
  (forall cursor s page r, P s -> select cursor s = Ok page -> P (process page (s, r)).1) ->
  forall first cursor sr sr', P sr.1 -> walk_pages fuel operation select process key n first cursor sr = Some (Ok sr') -> P sr'.1.
Proof.
  intros Hp. induction fuel as [|fuel IH]; intros first cursor [s r] sr' Hs; [done|]. cbn [walk_pages fst].
  destruct (select cursor s) as [page|e] eqn:Es.
  - pose proof (Hp _ _ _ r Hs Es) as Hs'. destruct (next_page_cursor key page n); [by apply IH|]. by intros [= <-].
  - unfold record_page_error. destruct first; [done|]. by intros [= <-].
Qed.

(** * The orphan sweep *)

Section Pages.
Context `{Collation}.
Notation GroupKey := (string * StorageLocation)%type.

#[local] Instance compare_groups_preorder : TotalPreorder compare_groups.
Proof. unfold compare_groups. apply _. Qed.

Lemma compare_groups_eq g g' : compare_groups g g' = Eq -> g = g'.
Proof.
  destruct g as [k [b p]], g' as [k' [b' p']]. unfold compare_groups, lex, cmp_on. simpl.
  destruct (collate k k') eqn:E1; simpl; try done. destruct (collate b b') eqn:E2; simpl; try done. intros E3.
  apply (to_eq collate) in E1, E2, E3. by subst.
Qed.

(** The groups the removal of one object leaves. *)
Definition other_object (row : OrphanKey) (g : GroupKey) : Prop := ~ (g.1 = orphan_key row /\ same_storage g.2 (orphan_location row) = true).

#[local] Instance other_object_dec row g : Decision (other_object row g).
Proof. unfold other_object. apply _. Defined.

Lemma in_use_same_rows d d' l key :
  repositories d' = repositories d -> oci_tags d' = oci_tags d -> oci_blobs d' = oci_blobs d -> oci_manifest_refs d' = oci_manifest_refs d ->
  live_with_key d' l key = live_with_key d l key -> in_use d' l key = in_use d l key.
Proof.
  intros Er Et Eb Em El. unfold in_use. rewrite El. unfold tagged, blob_row_with_key, tagged_child, stored_in, repo_location.
  by rewrite Er, Et, Eb, Em.
Qed.

(** A row of another object keeps its verdict when an object's rows go. *)
Lemma delete_trashed_predicate t days d l key own a : is_deleted a = true -> repo_location d (artifact_repo a) = Some own ->
  trashed_at d l key a = false ->
  orphan_predicate t days (delete_trashed l key d) own a = orphan_predicate t days d own a.
Proof.
  intros Hd Hown Hn. unfold orphan_predicate. rewrite in_use_delete_trashed. f_equal. unfold trash_retention_clause.
  destruct (days =? 0)%Z; [done|]. do 2 f_equal. unfold retained.
  change (stored_in (delete_trashed l key d)) with (stored_in d). apply existsb_filter. intros k Hk Hf.
  rewrite !andb_true_iff, String.eqb_eq in Hf. destruct Hf as [[[Ek Hdk] _] Hsk].
  unfold trashed_at in *. rewrite Ek. rewrite Hd, andb_true_r in Hn. rewrite Hdk, andb_true_r.
  destruct (storage_key a =? key); [|done]. simpl in *. unfold stored_in in *. rewrite Hown in Hn.
  destruct (repo_location d (artifact_repo k)) as [lk|]; [|done]. by rewrite (same_storage_l lk own l).
Qed.

Lemma orphan_rows_delete c scope d l key : orphan_rows c scope (delete_trashed l key d) =
  base.filter (fun a => trashed_at d l key a = false) (orphan_rows c scope d).
Proof.
  unfold orphan_rows. change (repo_location (delete_trashed l key d)) with (repo_location d).
  change (artifacts (delete_trashed l key d)) with (base.filter (fun a => trashed_at d l key a = false) (artifacts d)).
  rewrite !list_filter_filter. apply list_filter_iff. intros a.
  destruct (trashed_at d l key a) eqn:Ht; [naive_solver|].
  destruct (repo_location d (artifact_repo a)) as [own|] eqn:Hown; [|naive_solver].
  destruct (is_deleted a) eqn:Hd.
  - rewrite (delete_trashed_predicate _ _ _ _ _ _ _ Hd Hown Ht). naive_solver.
  - unfold orphan_predicate. rewrite Hd. simpl. naive_solver.
Qed.

Lemma orphan_row_deleted c scope d a : a ∈ orphan_rows c scope d -> is_deleted a = true.
Proof.
  unfold orphan_rows. rewrite list_elem_of_filter, andb_true_iff. intros [[Hp _] _].
  destruct (repo_location _ _); [|done]. unfold orphan_predicate in Hp. by apply andb_true_iff in Hp as [[? _]%andb_true_iff _].
Qed.

Lemma trashed_group c scope d row a g : a ∈ orphan_rows c scope d -> group_of d a = Some g ->
  trashed_at d (orphan_location row) (orphan_key row) a = false <-> other_object row g.
Proof.
  intros Ha Hg. unfold group_of in Hg. destruct (repo_location d (artifact_repo a)) as [own|] eqn:Hown; [|done]. injection Hg as <-.
  unfold trashed_at, other_object, stored_in. rewrite (orphan_row_deleted _ _ _ _ Ha), Hown, andb_true_r. simpl.
  rewrite andb_false_iff, String.eqb_neq. destruct (same_storage own _); naive_solver.
Qed.

(** Removing one object removes its groups and leaves the others as they are. *)
Lemma orphan_groups_delete c scope d row : orphan_groups c scope (delete_trashed (orphan_location row) (orphan_key row) d) =
  base.filter (fun row' => other_object row (group_key row')) (orphan_groups c scope d).
Proof.
  unfold orphan_groups. rewrite orphan_rows_delete. set (rows := orphan_rows c scope d).
  change (group_of (delete_trashed (orphan_location row) (orphan_key row) d)) with (group_of d).
  rewrite (omap_filter _ (other_object row)) by (intros a b Ha Hg; by apply (trashed_group c scope)).
  rewrite remove_dups_filter, sort_by_filter by apply _.
  set (gs := sort_by compare_groups _). clearbody gs. induction gs as [|g gs IH]; [done|].
  rewrite filter_cons, fmap_cons, filter_cons. change (group_key (orphan_group c d rows g)) with (g.1, g.2). rewrite <- surjective_pairing.
  destruct (decide (other_object row g)) as [Ho|Ho]; [|exact IH]. rewrite fmap_cons. f_equal; [|exact IH].
  unfold orphan_group. change (group_of (delete_trashed (orphan_location row) (orphan_key row) d)) with (group_of d).
  assert (base.filter (fun a => group_of d a = Some g) (base.filter (fun a => trashed_at d (orphan_location row) (orphan_key row) a = false) rows) =
    base.filter (fun a => group_of d a = Some g) rows) as E; [|by rewrite E].
  apply filter_absorb. intros a Ha Hg. by apply (trashed_group c scope d row a g).
Qed.


(** *** A key whose rows are gone *)

(** Reclaiming the key again changes nothing. *)
Definition gone (c : GcContext) (w : GcWorld) (row : OrphanKey) : Prop :=
  storage_for_location c (orphan_location row) = None /\ gc_fails c BeginReclaim (orphan_key row) = None /\
  gc_fails c RecheckOrphan (orphan_key row) = None /\ key_rows (db w) (orphan_location row) (orphan_key row) = [].

Lemma gone_skipped c w row r : gone c w row -> reclaim_orphan_key c row (w, r) = (w, r).
Proof.
  intros (E1 & E2 & E3 & E4). unfold reclaim_orphan_key. rewrite E1, E2, E3. unfold is_still_orphan. by rewrite E4.
Qed.

Lemma delete_trashed_rows d l key l' key' a :
  a ∈ key_rows (delete_trashed l key d) l' key' <-> a ∈ key_rows d l' key' /\ trashed_at d l key a = false.
Proof.
  rewrite !elem_of_key_rows. change (artifacts (delete_trashed l key d)) with (base.filter (fun a => trashed_at d l key a = false) (artifacts d)).
  change (stored_in (delete_trashed l key d)) with (stored_in d). rewrite list_elem_of_filter. tauto.
Qed.

Lemma gone_kept c w row row' r w' r' : gone c w row' -> reclaim_orphan_key c row (w, r) = (w', r') -> gone c w' row'.
Proof.
  intros (E1 & E2 & E3 & E4) E. split_and!; try done.
  destruct (reclaim_effect _ _ _ _ _ _ E) as [_ [Hd|(_ & _ & _ & _ & f & g & Hd)]]; rewrite Hd; [done|].
  change (key_rows (set_owners f ?d)) with (key_rows d). apply no_rows. intros a [Ha _]%delete_trashed_rows.
  change (key_rows (set_promotion_approvals g ?d)) with (key_rows d) in Ha. rewrite E4 in Ha. by apply elem_of_nil in Ha.
Qed.

(** A successful reclaim leaves no row of the object. *)
Lemma reclaimed_gone c w row row' f g w' :
  is_still_orphan (now c) (trash_retention_days c) (db w) (orphan_key row) (orphan_location row) = true ->
  storage_for_location c (orphan_location row) = None -> gc_fails c BeginReclaim (orphan_key row) = None ->
  gc_fails c RecheckOrphan (orphan_key row) = None ->
  db w' = set_owners f (delete_trashed (orphan_location row) (orphan_key row) (set_promotion_approvals g (db w))) ->
  ~ other_object row (group_key row') -> gone c w' row'.
Proof.
  intros Ho E1 E2 E3 Ew Hn. assert (orphan_key row' = orphan_key row /\ same_storage (orphan_location row') (orphan_location row) = true) as [Ek Es].
  { apply dec_stable. exact Hn. }
  unfold gone. rewrite Ek, Ew. split_and!; try done.
  { revert E1. unfold storage_for_location. by rewrite (backend_for_same _ _ _ Es). }
  change (key_rows (set_owners f ?d)) with (key_rows d). rewrite (key_rows_scope _ _ _ _ Es). apply no_rows.
  intros a [Ha Ht]%delete_trashed_rows. change (key_rows (set_promotion_approvals g ?d)) with (key_rows d) in Ha.
  pose proof (still_orphan_deleted _ _ _ _ _ _ Ho Ha) as Hd. apply elem_of_key_rows in Ha as (_ & Hk & Hs).
  unfold trashed_at in Ht. change (stored_in (set_promotion_approvals g ?d)) with (stored_in d) in Ht.
  by rewrite Hk, String.eqb_refl, Hd, Hs in Ht.
Qed.

(** *** One walk over the groups *)

Lemma gc_page_app c dry page1 page2 wr : gc_page c dry (page1 ++ page2) wr = gc_page c dry page2 (gc_page c dry page1 wr).
Proof. unfold gc_page. by destruct dry; rewrite foldl_app. Qed.

Lemma gc_page_cons c dry row page wr : gc_page c dry (row :: page) wr = gc_page c dry page (gc_page c dry [row] wr).
Proof. apply (gc_page_app c dry [row]). Qed.

Lemma gc_page_gone c dry w page : forall r, (forall row, row ∈ page -> gone c w row) -> dry = false -> gc_page c dry page (w, r) = (w, r).
Proof.
  induction page as [|row page IH]; intros r Hg ->; [done|]. cbn [gc_page foldl].
  rewrite gone_skipped by (apply Hg; left). apply (IH r); [|done]. intros. apply Hg. by right.
Qed.

(** What a walk leaves of the groups: those it removed are gone. *)
Lemma gc_page_groups c scope dry page : forall w r w' r', gc_page c dry page (w, r) = (w', r') ->
  (forall row, gone c w row -> gone c w' row) /\
  exists keep : OrphanKey -> bool,
    orphan_groups c scope (db w') = base.filter (fun row => keep row = true) (orphan_groups c scope (db w)) /\
    forall row, keep row = false -> dry = false /\ gone c w' row.
Proof.
  assert (forall w, exists keep : OrphanKey -> bool,
    orphan_groups c scope (db w) = base.filter (fun row => keep row = true) (orphan_groups c scope (db w)) /\
    forall row, keep row = false -> dry = false /\ gone c w row) as Hsame.
  { intros w. exists (fun _ => true). split; [|done]. symmetry. by apply filter_id. }
  destruct dry.
  { intros w r w' r' [= <- _]. split; [done|by apply Hsame]. }
  induction page as [|row page IH]; intros w r w' r' E; [injection E as <- _; split; [done|by apply Hsame]|].
  cbn [gc_page foldl] in E. destruct (reclaim_orphan_key c row (w, r)) as [w1 r1] eqn:E1.
  destruct (IH w1 r1 w' r' E) as (Hk & keep & Hg & Hgone). split.
  { intros row' Hrow. apply Hk. by apply (gone_kept _ _ _ _ _ _ _ Hrow E1). }
  destruct (reclaim_effect _ _ _ _ _ _ E1) as [_ [Hd|(Ho & U1 & U2 & U3 & f & g & Hd)]]; rewrite Hd in Hg; [by exists keep|].
  change (orphan_groups c scope (set_owners f ?d)) with (orphan_groups c scope d) in Hg.
  rewrite orphan_groups_delete in Hg. change (orphan_groups c scope (set_promotion_approvals g ?d)) with (orphan_groups c scope d) in Hg.
  rewrite list_filter_filter in Hg.
  exists (fun row' => bool_decide (keep row' = true /\ other_object row (group_key row'))). split.
  - rewrite Hg. apply list_filter_iff. intros row'. rewrite bool_decide_eq_true. done.
  - intros row' Hn. apply bool_decide_eq_false in Hn. split; [done|]. destruct (keep row') eqn:Ek; [|by apply Hgone].
    apply Hk. apply (reclaimed_gone c w row row' f g); try done. intros Hoo. by apply Hn.
Qed.

(** Leaving out groups that are gone makes no difference. *)
Lemma gc_page_filter c dry (keep : OrphanKey -> bool) page : forall w r,
  (forall row, keep row = false -> dry = false /\ gone c w row) ->
  gc_page c dry (base.filter (fun row => keep row = true) page) (w, r) = gc_page c dry page (w, r).
Proof.
  induction page as [|row page IH]; intros w r Hk; [done|]. rewrite filter_cons, (gc_page_cons c dry row page).
  destruct (gc_page c dry [row] (w, r)) as [w1 r1] eqn:E1. destruct (keep row) eqn:Er.
  - rewrite decide_True, gc_page_cons, E1 by done. apply IH. intros row' Hr. destruct (Hk row' Hr) as [Hd Hg]. split; [done|].
    by apply (proj1 (gc_page_groups c None _ _ _ _ _ _ E1)).
  - rewrite decide_False by done. destruct (Hk row Er) as [-> Hg]. rewrite (gc_page_gone c false w [row]) in E1; [|by intros ? ->%list_elem_of_singleton|done].
    injection E1 as <- <-. by apply IH.
Qed.

(** *** Pages and cursors *)

#[local] Notation gc_before := (walk_before compare_groups group_key).

Lemma sorted_strictly (gs : list GroupKey) : sorted_by compare_groups gs -> NoDup gs ->
  StronglySorted (fun a b => compare_groups b a = Gt) gs.
Proof.
  induction gs as [|g gs IH]; intros Hs Hn; [constructor|]. destruct Hs as [Hg Hs]. apply NoDup_cons in Hn as [Hni Hn].
  constructor; [by apply IH|]. apply Forall_forall. intros g' Hg'. apply (tp_gt_lt compare_groups).
  destruct (compare_groups g g') eqn:E; [|done|].
  - apply compare_groups_eq in E. by subst.
  - by destruct (Hg g' Hg').
Qed.

Lemma orphan_groups_sorted c scope d : StronglySorted gc_before (orphan_groups c scope d).
Proof.
  unfold orphan_groups. set (rows := orphan_rows c scope d). set (gs := remove_dups _).
  assert (StronglySorted (fun a b => compare_groups b a = Gt) (sort_by compare_groups gs)) as Hs.
  { apply sorted_strictly; [apply sort_by_sorted; apply _|]. rewrite sort_by_perm. apply NoDup_remove_dups. }
  revert Hs. generalize (sort_by compare_groups gs) as k. induction k as [|g k IH]; intros Hs; [constructor|].
  apply StronglySorted_inv in Hs as [Hs Hf]. rewrite fmap_cons. constructor; [by apply IH|].
  apply Forall_fmap. eapply Forall_impl; [exact Hf|]. intros g' Hg'. unfold walk_before. cbn. by destruct g, g'.
Qed.

Lemma gc_page_removes c scope dry page wr : page_removes (fun w => orphan_groups c scope (db w)) (gc_page c dry) page wr.
Proof.
  destruct wr as [w r]. unfold page_removes. destruct (gc_page c dry page (w, r)) as [w1 r1] eqn:E. cbn [fst].
  destruct (gc_page_groups c scope _ _ _ _ _ _ E) as (_ & keep & Hg & Hgone). exists keep. split; [exact Hg|].
  intros rest. by apply gc_page_filter.
Qed.

(** However small the pages, and whatever fails but the scan itself, a pass
    does what one walk over all its groups does. *)
Lemma gc_pages_walk c scope dry n fuel cursor w r : (1 <= n)%nat -> (forall k, gc_fails c SelectOrphans k = None) ->
  (length (base.filter (fun row => after_cursor cursor row = true) (orphan_groups c scope (db w))) < fuel)%nat ->
  walk_pages fuel "select orphan keys" (scan_orphans c scope n) (gc_page c dry) group_key n true cursor (w, r) =
  Some (Ok (gc_page c dry (base.filter (fun row => after_cursor cursor row = true) (orphan_groups c scope (db w))) (w, r))).
Proof.
  intros Hn Hf Hl. apply (walk_pages_one compare_groups group_key (fun w => orphan_groups c scope (db w)) (fun _ => True));
    [intros; apply orphan_groups_sorted|done|apply gc_page_app|intros; apply gc_page_removes|done| |done|exact Hl].
  intros k s. unfold scan_orphans. by rewrite Hf.
Qed.

(** Every group of a repository with a backend follows the first cursor. *)
Lemma orphan_groups_after_default c scope d : (forall row, row ∈ repositories d -> backend (location row) <> "") ->
  base.filter (fun row => after_cursor default_cursor row = true) (orphan_groups c scope d) = orphan_groups c scope d.
Proof.
  intros Hb. apply filter_id. intros row. unfold orphan_groups. intros (g & -> & Hg)%list_elem_of_fmap.
  rewrite sort_by_perm, elem_of_remove_dups, list_elem_of_omap in Hg. destruct Hg as (a & _ & Hg).
  unfold group_of, repo_location in Hg. destruct (List.find _ _) as [rr|] eqn:Ef; [|done].
  apply find_some in Ef as [Hin _]. simpl in Hg. injection Hg as <-.
  unfold after_cursor, compare_groups, lex, cmp_on, default_cursor, group_key. simpl.
  pose proof (collate_empty (storage_key a)). pose proof (collate_empty (backend (location rr))).
  destruct (collate (storage_key a) ""); try done. destruct (collate (backend (location rr)) "") eqn:E; try done.
  apply (to_eq collate) in E. by destruct (Hb rr ltac:(by apply list_elem_of_In)).
Qed.

(** C35. However small its pages are, and whatever fails but the scans
    themselves, the sweep of a location's orphans does what one walk over the
    groups of the first scan does: a group is neither skipped nor reclaimed
    twice by the cursors that resume on tables the earlier pages changed, a dry
    run included. *)
Theorem pages_are_one_walk c scope dry n w :
  (1 <= n)%nat -> (forall k, gc_fails c SelectOrphans k = None) ->
  (forall row, row ∈ repositories (db w) -> backend (location row) <> "") ->
  run_orphan_sweep c scope dry n w = Some (Ok (gc_page c dry (orphan_groups c scope (db w)) (w, empty_gc_result dry))).
Proof.
  intros Hn Hf Hb. unfold run_orphan_sweep. rewrite gc_pages_walk; [by rewrite orphan_groups_after_default|done..|].
  rewrite orphan_groups_after_default by done. lia.
Qed.

(** ** What a pass reclaims *)

(** A row of the scan makes its whole object an orphan: the re-check over the
    object's rows asks nothing more. *)
Lemma still_orphan_iff t days d key l : is_still_orphan t days d key l = true <->
  exists a own, a ∈ key_rows d l key /\ repo_location d (artifact_repo a) = Some own /\ orphan_predicate t days d own a = true.
Proof.
  split.
  - intros Hs. assert (exists a, a ∈ key_rows d l key) as [a Ha].
    { unfold is_still_orphan in Hs. apply andb_true_iff in Hs as [Hne _].
      destruct (key_rows d l key) as [|a rows]; [done|]. exists a. left. }
    destruct (still_orphan_rows _ _ _ _ _ _ Hs Ha) as (own & ? & ?). eauto.
  - intros (a & own & Ha & Hown & Hp). unfold is_still_orphan. apply andb_true_iff. split.
    { destruct (key_rows d l key); [by apply elem_of_nil in Ha|done]. }
    apply forallb_forall. intros b Hb%list_elem_of_In. apply elem_of_key_rows in Ha as (Hain & Hka & Hsa), Hb as (Hbin & Hkb & Hsb).
    unfold stored_in in Hsa, Hsb. rewrite Hown in Hsa. destruct (repo_location d (artifact_repo b)) as [ob|] eqn:Hob; [|done].
    unfold orphan_predicate in *. rewrite Hka in Hp. rewrite Hkb. rewrite (in_use_scope d own l) in Hp by done.
    rewrite (in_use_scope d ob l) by done. apply andb_true_iff in Hp as [[_ Hu]%andb_true_iff Ht]. rewrite Hu, andb_true_r.
    assert (is_deleted b = true) as Hd.
    { destruct (is_deleted b) eqn:Hd; [done|]. exfalso. assert (live_with_key d l key = true) as Hl.
      { apply existsb_true. exists b. split; [done|]. unfold stored_in. by rewrite Hkb, String.eqb_refl, Hd, Hob, Hsb. }
      unfold in_use in Hu. by rewrite Hl in Hu. }
    rewrite Hd. simpl. unfold trash_retention_clause in *. destruct (days =? 0)%Z; [done|].
    rewrite Hka in Ht. rewrite Hkb. rewrite (retained_scope _ _ d own l) in Ht by done. rewrite (retained_scope _ _ d ob l) by done.
    apply andb_true_iff in Ht as [_ Ht]. rewrite Ht, andb_true_r. destruct (inside_window t _ b) eqn:Hw; [|done].
    assert (retained t (clamp_trash_retention_days days) d l key = true) as Hr; [|by rewrite Hr in Ht].
    apply existsb_true. exists b. split; [done|]. unfold stored_in. by rewrite Hkb, String.eqb_refl, Hd, Hw, Hob, Hsb.
Qed.

Lemma elem_of_orphan_groups c scope d row : row ∈ orphan_groups c scope d ->
  exists a, a ∈ artifacts d /\ storage_key a = orphan_key row /\ repo_location d (artifact_repo a) = Some (orphan_location row) /\
            orphan_predicate (now c) (trash_retention_days c) d (orphan_location row) a = true.
Proof.
  unfold orphan_groups. intros (g & -> & Hg)%list_elem_of_fmap.
  rewrite sort_by_perm, elem_of_remove_dups, list_elem_of_omap in Hg. destruct Hg as (a & Ha & Hg).
  unfold orphan_rows in Ha. apply list_elem_of_filter in Ha as [[Hp _]%andb_true_iff Ha].
  unfold group_of in Hg. destruct (repo_location d (artifact_repo a)) as [own|] eqn:Hown; [|done]. injection Hg as <-. by exists a.
Qed.

Lemma group_still_orphan c scope d row : row ∈ orphan_groups c scope d ->
  is_still_orphan (now c) (trash_retention_days c) d (orphan_key row) (orphan_location row) = true.
Proof.
  intros (a & Ha & Hk & Hown & Hp)%elem_of_orphan_groups. apply still_orphan_iff. exists a, (orphan_location row).
  split_and!; try done. apply elem_of_key_rows. split_and!; try done. by apply stored_in_own.
Qed.

(** Every repository has its backend, and nothing fails. *)
Definition quiet (c : GcContext) (d : GcDb) : Prop :=
  (forall row, row ∈ repositories d -> storage_for_location c (location row) = None) /\
  (forall o, undeletable c o = None) /\ (forall s k, gc_fails c s k = None).

Lemma repo_location_row d r own : repo_location d r = Some own -> exists row, row ∈ repositories d /\ location row = own.
Proof.
  unfold repo_location. destruct (List.find _ _) as [row|] eqn:E; [|done]. intros [= <-]. apply List.find_some in E as [Hin _].
  exists row. split; [by apply list_elem_of_In|done].
Qed.

Lemma quiet_resolves c d l r : quiet c d -> stored_in d l r = true -> storage_for_location c l = None.
Proof.
  intros (Hu & _) Hs. unfold stored_in in Hs. destruct (repo_location d r) as [own|] eqn:E; [|done].
  apply repo_location_row in E as (row & Hin & <-). unfold storage_for_location. rewrite <- (backend_for_same _ _ _ Hs). by apply Hu.
Qed.

Lemma quiet_sidecars c d l key suffixes d0 : quiet c d0 -> forall reclaimed objs,
  exists keys objs', reclaim_sidecars c d l key suffixes reclaimed objs = (Ok keys, objs') /\ objs' ⊆ objs.
Proof.
  intros (_ & Hd & Hf). induction suffixes as [|s suffixes IH]; intros reclaimed objs; [by eexists _, _|]. simpl. rewrite Hf.
  destruct (row_backed d (backend l) _); [apply IH|]. unfold delete_object. rewrite Hd.
  destruct (IH (reclaimed ++ [key +:+ s]) (objs ∖ {[object_at l (key +:+ s)]})) as (keys & objs' & -> & Hs).
  eexists _, _. split; [done|]. set_solver.
Qed.

Lemma quiet_maven c l key w d0 : quiet c d0 -> exists f objs, reclaim_maven_sidecars c l key w = (Ok (set_owners f (db w)), objs) /\ objs ⊆ objects w.
Proof.
  intros Hq. unfold reclaim_maven_sidecars. destruct (negb _).
  { exists (fun x => x), (objects w). split; [|done]. by destruct w as [[] ?]. }
  destruct (quiet_sidecars c (db w) l key MAVEN_SIDECAR_SUFFIXES d0 Hq [key] (objects w)) as (keys & objs & -> & Hs).
  destruct Hq as (_ & _ & ->). eexists _, _. by split.
Qed.

(** The rows of the key are gone, and so is its object unless the proxy cache
    owns it. *)
Definition reclaimed (c : GcContext) (w : GcWorld) (row : OrphanKey) : Prop :=
  gone c w row /\ (is_proxy_cache_key (orphan_key row) = false -> object_at (orphan_location row) (orphan_key row) ∉ objects w).

Lemma quiet_reclaim c row w r : quiet c (db w) ->
  is_still_orphan (now c) (trash_retention_days c) (db w) (orphan_key row) (orphan_location row) = true ->
  exists w' r' f g, reclaim_orphan_key c row (w, r) = (w', r') /\ errors r' = errors r /\
    db w' = set_owners f (delete_trashed (orphan_location row) (orphan_key row) (set_promotion_approvals g (db w))) /\
    (is_proxy_cache_key (orphan_key row) = false -> object_at (orphan_location row) (orphan_key row) ∉ objects w').
Proof.
  intros Hq Ho. assert (storage_for_location c (orphan_location row) = None) as Hu.
  { pose proof Ho as (a & own & Ha & _)%still_orphan_iff. apply elem_of_key_rows in Ha as (_ & _ & Hs). by apply (quiet_resolves _ _ _ _ Hq Hs). }
  pose proof Hq as (_ & Hd & Hf). unfold reclaim_orphan_key. rewrite Hu, !Hf, Ho. unfold reclaim_checked, delete_object. rewrite Hd.
  destruct (is_proxy_cache_key (orphan_key row)) eqn:Ep; rewrite !Hf;
    match goal with |- context [reclaim_maven_sidecars c ?l ?k ?w0] =>
      destruct (quiet_maven c l k w0 _ Hq) as (f & objs & -> & Hs) end;
    eexists _, _, f, _; (split_and!; [done|done|done|]); [done|]. simpl in *. intros _. set_solver.
Qed.

Lemma reclaimed_kept c w row row' r w' r' : reclaimed c w row' -> reclaim_orphan_key c row (w, r) = (w', r') -> reclaimed c w' row'.
Proof.
  intros [Hg Ho] E. split; [by apply (gone_kept _ _ _ _ _ _ _ Hg E)|]. intros Hp. specialize (Ho Hp).
  destruct (reclaim_effect _ _ _ _ _ _ E) as [[Hs _] _]. set_solver.
Qed.

Lemma gone_rows c w row : gone c w row ->
  base.filter (fun a => trashed_at (db w) (orphan_location row) (orphan_key row) a = false) (artifacts (db w)) = artifacts (db w).
Proof.
  intros (_ & _ & _ & E). apply filter_id. intros a Ha. destruct (trashed_at _ _ _ a) eqn:Et; [|done].
  unfold trashed_at in Et. rewrite !andb_true_iff, String.eqb_eq in Et. destruct Et as [[Ek _] Es].
  assert (a ∈ key_rows (db w) (orphan_location row) (orphan_key row)) as Hin by (by apply elem_of_key_rows).
  rewrite E in Hin. by apply elem_of_nil in Hin.
Qed.

(** The rows a walk over the groups takes away. *)
Definition unclaimed (d : GcDb) (page : list OrphanKey) (a : ArtifactRow) : Prop :=
  existsb (fun row => trashed_at d (orphan_location row) (orphan_key row) a) page = false.

#[local] Instance unclaimed_dec d page a : Decision (unclaimed d page a).
Proof. unfold unclaimed. apply _. Defined.

Lemma still_group c scope row row' f g d : row' ∈ orphan_groups c scope d -> other_object row (group_key row') ->
  row' ∈ orphan_groups c scope (set_owners f (delete_trashed (orphan_location row) (orphan_key row) (set_promotion_approvals g d))).
Proof.
  intros Hin Ho. change (orphan_groups c scope (set_owners f ?d)) with (orphan_groups c scope d).
  rewrite orphan_groups_delete. by apply list_elem_of_filter.
Qed.

Lemma quiet_walk c scope page : forall w r, quiet c (db w) -> (forall row, row ∈ page -> row ∈ orphan_groups c scope (db w) \/ reclaimed c w row) ->
  exists w' r', gc_page c false page (w, r) = (w', r') /\ errors r' = errors r /\ (forall row, row ∈ page -> reclaimed c w' row) /\
    (forall row, reclaimed c w row -> reclaimed c w' row) /\
    artifacts (db w') = base.filter (unclaimed (db w) page) (artifacts (db w)).
Proof.
  induction page as [|row page IH]; intros w r Hq Hpage.
  { exists w, r. split_and!; try done. { intros row Hr. by apply elem_of_nil in Hr. }
    symmetry. by apply filter_id. }
  assert (exists w1 r1, reclaim_orphan_key c row (w, r) = (w1, r1) /\ errors r1 = errors r /\ reclaimed c w1 row /\
    (forall row', row' ∈ orphan_groups c scope (db w) -> row' ∈ orphan_groups c scope (db w1) \/ reclaimed c w1 row') /\
    stored_in (db w1) = stored_in (db w) /\ quiet c (db w1) /\
    artifacts (db w1) = base.filter (fun a => trashed_at (db w) (orphan_location row) (orphan_key row) a = false) (artifacts (db w)))
    as (w1 & r1 & E1 & He & Hr & Hstill & Hst & Hq1 & Ha1).
  { destruct (Hpage row ltac:(left)) as [Hin|Hdone].
    - destruct (quiet_reclaim c row w r Hq (group_still_orphan _ _ _ _ Hin)) as (w1 & r1 & f & g & E1 & He & Hd & Ho).
      assert (forall row', ~ other_object row (group_key row') -> gone c w1 row') as Hgone.
      { intros row'. pose proof Hq as (_ & _ & Q3). pose proof Hin as (a & _ & _ & Hown & _)%elem_of_orphan_groups.
        apply (reclaimed_gone c w row row' f g); [by eapply group_still_orphan|apply (quiet_resolves _ _ _ _ Hq (stored_in_own _ _ _ Hown))|apply Q3|apply Q3|done]. }
      exists w1, r1. split_and!; try done; [split; [apply Hgone; unfold other_object; simpl; rewrite same_storage_refl; tauto|done]| |by rewrite Hd|unfold quiet in *; by rewrite Hd|by rewrite Hd].
      intros row' Hin'. destruct (decide (other_object row (group_key row'))) as [Hoo|Hoo].
      + left. rewrite Hd. by apply still_group.
      + right. split; [by apply Hgone|]. apply dec_stable in Hoo. simpl in Hoo. destruct Hoo as [Ek Es].
        rewrite Ek. intros Hp. rewrite (proj2 (object_at_eq _ _ _ _) (conj Es eq_refl)). by apply Ho.
    - exists w, r. rewrite gone_skipped by apply Hdone. split_and!; try done; [by left|]. symmetry. apply (gone_rows c). apply Hdone. }
  cbn [gc_page foldl]. rewrite E1. destruct (IH w1 r1 Hq1) as (w' & r' & E & He' & Hall & Hkeep & Ha).
  { intros row' Hin. destruct (Hpage row' ltac:(by right)) as [Hg|Hg]; [by apply Hstill|right; by apply (reclaimed_kept _ _ _ _ _ _ _ Hg E1)]. }
  exists w', r'. split_and!; [done|congruence| | |].
  - intros row' [->|Hin]%elem_of_cons; [by apply Hkeep|by apply Hall].
  - intros row' Hg. apply Hkeep. by apply (reclaimed_kept _ _ _ _ _ _ _ Hg E1).
  - rewrite Ha, Ha1, list_filter_filter. apply list_filter_iff. intros a. unfold unclaimed. cbn [existsb].
    rewrite orb_false_iff. unfold trashed_at. rewrite Hst. tauto.
Qed.

(** C36. A sweep in which nothing fails reports no error and leaves no orphan:
    every group of the first scan has lost its rows in the trash, and its
    object unless the proxy cache owns it; the other rows stay as they were. *)
Theorem quiet_sweep_leaves_no_orphan c scope n w :
  (1 <= n)%nat -> quiet c (db w) -> (forall row, row ∈ repositories (db w) -> backend (location row) <> "") ->
  exists w' r, run_orphan_sweep c scope false n w = Some (Ok (w', r)) /\ errors r = [] /\
    orphan_groups c scope (db w') = [] /\
    (forall row, row ∈ orphan_groups c scope (db w) -> is_proxy_cache_key (orphan_key row) = false ->
       object_at (orphan_location row) (orphan_key row) ∉ objects w') /\
    artifacts (db w') = base.filter (unclaimed (db w) (orphan_groups c scope (db w))) (artifacts (db w)).
Proof.
  intros Hn Hq Hb. set (G := orphan_groups c scope (db w)).
  destruct (quiet_walk c scope G w (empty_gc_result false) Hq) as (w' & r & E & He & Hall & _ & Ha); [by left|].
  exists w', r. split_and!; [|done| | |done].
  - unfold run_orphan_sweep. rewrite gc_pages_walk; [|done|intros; apply Hq|]; rewrite orphan_groups_after_default by done;
      [by rewrite <- E|lia].
  - destruct (gc_page_groups c scope _ _ _ _ _ _ E) as (_ & keep & Hg & _). apply no_rows. intros row Hin.
    assert (row ∈ G) as HG by (unfold G; rewrite Hg in Hin; by apply list_elem_of_filter in Hin as [_ ?]).
    destruct (Hall row HG) as [(_ & _ & _ & Hrows) _]. apply elem_of_orphan_groups in Hin as (a & Hin & Hk & Hown & _).
    assert (a ∈ key_rows (db w') (orphan_location row) (orphan_key row)) as Hr
      by (apply elem_of_key_rows; split_and!; try done; by apply stored_in_own).
    rewrite Hrows in Hr. by apply elem_of_nil in Hr.
  - intros row Hin Hp. by apply (Hall row Hin).
Qed.

(** A driver that refuses the total of a group's sizes counts no byte. *)
Lemma group_bytes c scope d row : (forall total, decode_sum_i64 c total = None) -> row ∈ orphan_groups c scope d -> total_bytes row = 0.
Proof. unfold orphan_groups. intros Hd (g & -> & _)%list_elem_of_fmap. simpl. by rewrite Hd. Qed.

End Pages.

(** * Concrete runs *)

#[local] Instance sample_collation : Collation.
Proof. refine {| collate := String.compare |}. intros s. by destruct s. Defined.

Definition sample_context : GcContext :=
  {| now := 100 * NANOS_PER_DAY; trash_retention_days := 30; storage_registry := {| backends := ["s3"]; skipped_backends := [] |}; undeletable := fun _ => None;
     gc_fails := fun _ _ => None; decode_sum_i64 := fun _ => None |}.

Definition sample_trashed (i r : Uuid) (key : string) : ArtifactRow :=
  {| artifact_id := i; artifact_repo := r; artifact_path := key; storage_key := key; size_bytes := 3; artifact_content_type := "application/gzip"; is_deleted := true;
     deleted_at := Some 0 |}.

Definition sample_bucket : StorageLocation := {| backend := "s3"; path := "a" |}.

(** Two repositories in one bucket, with rows of two keys in the trash. *)
Definition sample_db : GcDb :=
  {| repositories := [{| repo_id := 1%N; location := sample_bucket |}; {| repo_id := 2%N; location := {| backend := "s3"; path := "b" |} |}];
     artifacts := [sample_trashed 10%N 1%N "k/a"; sample_trashed 11%N 2%N "k/a"; sample_trashed 12%N 1%N "k/b"];
     artifact_versions := [{| revision_repo := 2%N; revision_key := "k/b" |}];
     promotion_approvals := []; files_metadata := []; oci_tags := []; oci_blobs := []; oci_manifest_refs := []; manifest_blob_refs := [];
     maven_flat_object_owner := []; oci_gc_candidates := []; oci_upload_sessions := []; oci_upload_parts := [];
     oci_upload_cleanup_keys := [] |}.

Definition sample_world : GcWorld :=
  {| db := sample_db; objects := {[object_at sample_bucket "k/a"; object_at sample_bucket "k/b"]} |}.

Lemma sample_backends row : row ∈ repositories (db sample_world) -> backend (location row) <> "".
Proof. intros [->|[->|[]%elem_of_nil]%elem_of_cons]%elem_of_cons; discriminate. Qed.

Lemma pages_are_one_walk_witness :
  length (orphan_groups sample_context None sample_db) = 3%nat /\
  run_orphan_sweep sample_context None false 1 sample_world =
  Some (Ok (gc_page sample_context false (orphan_groups sample_context None (db sample_world)) (sample_world, empty_gc_result false))).
Proof. split; [vm_compute; reflexivity|]. apply pages_are_one_walk; [lia|done|exact sample_backends]. Defined.

Lemma sample_quiet : quiet sample_context sample_db.
Proof. split_and!; [|done|done]. intros row Hin. repeat (apply elem_of_cons in Hin as [->|Hin]; [done|]). by apply elem_of_nil in Hin. Qed.

Lemma quiet_sweep_leaves_no_orphan_witness :
  exists w' r, run_orphan_sweep sample_context None false 2 sample_world = Some (Ok (w', r)) /\ errors r = [] /\
    orphan_groups sample_context None (db w') = [] /\ artifacts (db w') = [].
Proof.
  destruct (quiet_sweep_leaves_no_orphan sample_context None 2 sample_world) as (w' & r & E & He & Hg & _ & Ha);
    [lia|exact sample_quiet|exact sample_backends|]. exists w', r. split_and!; try done; rewrite ?Ha; vm_compute; reflexivity.
Defined.
