(* ===== verification/TrashFacts.v ===== *)
(** The catalogue as a whole: pushes, deletes, restores, purges, sweeps,
    candidates and repository deletes, in any order and with any failures, keep
    an object for every key that something serves; what a repository delete
    leaves behind is recorded; two ways in which an object is lost. *)

From stdpp Require Import base list strings option gmap sets relations.
From Stdlib Require Import ZArith Lia Sorted.
From S2P Require Import Prelude RustStr RustNum Errors Chrono GcDb StorageGc Trash StorageGcFacts.

Local Open Scope Z_scope.
Local Open Scope string_scope.
Local Open Scope list_scope.
Local Open Scope result_scope.

(** * What is in use *)

(** The references that serve a key, as a proposition. *)
Inductive used (d : GcDb) (l : StorageLocation) (key : string) : Prop :=
| used_artifact a : a ∈ artifacts d -> storage_key a = key -> is_deleted a = false -> stored_in d l (artifact_repo a) = true -> used d l key
| used_tag t : t ∈ oci_tags d -> key = OCI_MANIFEST_STORAGE_PREFIX +:+ tag_digest t -> stored_in d l (tag_repo t) = true -> used d l key
| used_blob b : b ∈ oci_blobs d -> key = OCI_BLOB_STORAGE_PREFIX +:+ blob_digest b -> stored_in d l (blob_repo b) = true -> used d l key
| used_child m t : m ∈ oci_manifest_refs d -> key = OCI_MANIFEST_STORAGE_PREFIX +:+ child_digest m -> stored_in d l (child_repo m) = true ->
    t ∈ oci_tags d -> tag_repo t = child_repo m -> tag_digest t = parent_digest m -> used d l key.

Lemma in_use_used d l key : in_use d l key = true <-> used d l key.
Proof.
  unfold in_use, live_with_key, tagged, blob_row_with_key, tagged_child. rewrite !orb_true_iff, !existsb_true. split.
  - intros [[[(a & Ha & Hf)|(t & Ht & Hf)]|(b & Hb & Hf)]|(m & Hm & Hf)].
    + rewrite !andb_true_iff, String.eqb_eq, negb_true_iff in Hf. destruct Hf as [[? ?] ?]. by eapply used_artifact.
    + rewrite andb_true_iff, names_digest_true in Hf. destruct Hf. by eapply used_tag.
    + rewrite andb_true_iff, names_digest_true in Hf. destruct Hf. by eapply used_blob.
    + rewrite !andb_true_iff, names_digest_true, existsb_true in Hf. destruct Hf as [[? ?] (t & ? & Hf)].
      apply andb_true_iff in Hf as [?%bool_decide_eq_true ?%String.eqb_eq]. by eapply used_child.
  - intros [a Ha Hk Hd Hs|t Ht Hk Hs|b Hb Hk Hs|m t Hm Hk Hs Ht Hr Hp].
    + left; left; left. exists a. split; [done|]. by rewrite Hk, String.eqb_refl, Hd, Hs.
    + left; left; right. exists t. split; [done|]. by rewrite (proj2 (names_digest_true _ _ _) Hk), Hs.
    + left; right. exists b. split; [done|]. by rewrite (proj2 (names_digest_true _ _ _) Hk), Hs.
    + right. exists m. split; [done|]. rewrite (proj2 (names_digest_true _ _ _) Hk), Hs. simpl. apply existsb_true.
      exists t. split; [done|]. by rewrite bool_decide_eq_true_2, Hp, String.eqb_refl.
Qed.

(** Tables that name less. *)
Record names_less (d d' : GcDb) : Prop := {
  less_repos : forall l r, stored_in d' l r = true -> stored_in d l r = true;
  less_artifacts : forall a, a ∈ artifacts d' -> is_deleted a = false -> a ∈ artifacts d;
  less_tags : forall t, t ∈ oci_tags d' -> t ∈ oci_tags d;
  less_blobs : forall b, b ∈ oci_blobs d' -> b ∈ oci_blobs d;
  less_children : forall m, m ∈ oci_manifest_refs d' -> m ∈ oci_manifest_refs d
}.

Lemma names_less_used d d' l key : names_less d d' -> used d' l key -> used d l key.
Proof.
  intros [Hr Ha Ht Hb Hm] [a ? ? ? ?|t ? ? ?|b ? ? ?|m t ? ? ? ? ? ?];
    [eapply used_artifact|eapply used_tag|eapply used_blob|eapply used_child]; eauto.
Qed.

Lemma served_used w : Served w <-> forall l key, is_proxy_cache_key key = false -> used (db w) l key -> object_at l key ∈ objects w.
Proof. unfold Served. by setoid_rewrite in_use_used. Qed.

Lemma names_less_served w d : names_less (db w) d -> Served w -> Served {| db := d; objects := objects w |}.
Proof. rewrite !served_used. intros Hl Hs l key Hnp Hu. apply Hs; [done|]. by eapply names_less_used. Qed.

Lemma keeps_served d w objs : names_less (db w) d -> keeps d (objects w) objs -> Served w -> Served {| db := d; objects := objs |}.
Proof.
  intros Hl [_ Hk] Hs l key Hnp Hu. apply Hk; [done|]. by apply (names_less_served w d Hl Hs).
Qed.

Lemma names_less_refl d : names_less d d.
Proof. by split. Qed.
#[export] Hint Resolve names_less_refl : core.

Lemma names_less_trans a b c : names_less a b -> names_less b c -> names_less a c.
Proof. intros [] []. split; eauto. Qed.

(** * The trash *)

Lemma trash_query_ok {A} c s (a b : A) : trash_query c s a = Ok b -> a = b.
Proof. unfold trash_query. destruct (trash_fails c s); [done|]. by intros [= ->]. Qed.

Lemma find_artifact_row d i a l : find_artifact d i = Some (a, l) ->
  a ∈ artifacts d /\ artifact_id a = i /\ repo_location d (artifact_repo a) = Some l.
Proof.
  unfold find_artifact. destruct (List.find _ _) as [a'|] eqn:Ef; [|done]. simpl.
  destruct (repo_location d (artifact_repo a')) eqn:El; [|done]. simpl. intros [= -> ->].
  apply find_some in Ef as [Hin Hi]. apply bool_decide_eq_true in Hi. split_and!; try done. by apply list_elem_of_In.
Qed.

(** A key that is not an OCI key is in use through artifact rows only. *)
Definition oci_key (key : string) : bool := starts_with OCI_MANIFEST_STORAGE_PREFIX key || starts_with OCI_BLOB_STORAGE_PREFIX key.

Lemma not_oci_used d l key : oci_key key = false -> used d l key ->
  exists a, a ∈ artifacts d /\ storage_key a = key /\ is_deleted a = false /\ stored_in d l (artifact_repo a) = true.
Proof.
  assert (forall p s, starts_with p (p +:+ s) = true) as Hp by (intros p s; apply starts_with_true; by exists s).
  intros Hn [a ? ? ? ?|t _ -> _|b _ -> _|m t _ -> _ _ _ _]; [by exists a|exfalso..]; unfold oci_key in Hn; rewrite Hp in Hn; simpl in Hn; rewrite ?orb_true_r in Hn; done.
Qed.

(** Rows have ids of their own. *)
Definition distinct_ids (d : GcDb) : Prop := NoDup (artifact_id <$> artifacts d).

Lemma distinct_same d a b : distinct_ids d -> a ∈ artifacts d -> b ∈ artifacts d -> artifact_id a = artifact_id b -> a = b.
Proof.
  unfold distinct_ids. generalize (artifacts d) as k. induction k as [|x k IH]; intros Hn Ha Hb E; [by apply elem_of_nil in Ha|].
  rewrite fmap_cons in Hn. apply NoDup_cons in Hn as [Hx Hn].
  apply elem_of_cons in Ha as [->|Ha], Hb as [->|Hb]; [done| | |by apply IH]; destruct Hx.
  - rewrite E. by apply list_elem_of_fmap_2.
  - rewrite <- E. by apply list_elem_of_fmap_2.
Qed.

Definition revived (i : Uuid) : GcDb -> GcDb := update_artifact i (fun a => if is_deleted a then revive a else a).

Lemma restore_found c i w a' w' : restore c i w = Ok (a', w') -> exists a l,
  find_artifact (db w) i = Some (a, l) /\ is_deleted a = true /\ restore_blocked_reason (storage_key a) = None /\
  object_at l (storage_key a) ∈ objects w /\ w' = {| db := revived i (db w); objects := objects w |}.
Proof.
  unfold restore. intros H. apply rbind_Ok in H as (found & <-%trash_query_ok & H). apply rbind_Ok in H as ([a l] & Hf & H).
  destruct (find_artifact (db w) i) as [[a0 l0]|]; [|done]. injection Hf as -> ->.
  apply rbind_Ok in H as (? & Hc & H). apply rbind_Ok in H as (? & _ & H). apply rbind_Ok in H as (present & Hp & H).
  destruct present; [|done]. cbn [negb] in H. apply rbind_Ok in H as (d & <-%trash_query_ok & H).
  apply rbind_Ok in H as (d & <-%trash_query_ok & H). injection H as _ <-. exists a, l.
  unfold check_restorable in Hc. destruct (is_deleted a); [|done]. cbn [negb] in Hc.
  destruct (restore_blocked_reason (storage_key a)); [done|].
  unfold object_exists in Hp. destruct (unreadable c _); [done|]. injection Hp as Hp%bool_decide_eq_true. done.
Qed.

(** Restoring serves a key whose object was seen. *)
Lemma restore_served c i w a w' : distinct_ids (db w) -> restore c i w = Ok (a, w') -> Served w -> Served w'.
Proof.
  intros Hn (a0 & l & Hf & _ & _ & Ho & ->)%restore_found. rewrite !served_used. intros Hs l' key Hnp Hu. simpl in *.
  apply find_artifact_row in Hf as (Hin & Hi & Hl).
  destruct Hu as [b Hb Hk Hd Hst|t Ht Hk Hst|b Hb Hk Hst|m t Hm Hk Hst Ht Hr Hp].
  - apply list_elem_of_fmap in Hb as (b0 & -> & Hb0).
    destruct (bool_decide_reflect (artifact_id b0 = i)) as [Hbi|Hbi]; [|apply Hs; [done|]; by eapply used_artifact].
    destruct (is_deleted b0) eqn:Hdb; [|apply Hs; [done|]; by eapply used_artifact]. simpl in *.
    assert (b0 = a0) as -> by (apply (distinct_same (db w)); congruence). subst key.
    rewrite (proj2 (object_at_eq l' (storage_key a0) l (storage_key a0))); [done|]. split; [|done].
    change (stored_in (revived i (db w))) with (stored_in (db w)) in Hst.
    unfold stored_in in Hst. rewrite Hl in Hst. by rewrite same_storage_sym.
  - apply Hs; [done|]. by eapply used_tag.
  - apply Hs; [done|]. by eapply used_blob.
  - apply Hs; [done|]. by eapply (used_child _ _ _ m t).
Qed.

(** A purge deletes an object that nothing names once the row is gone. *)
Lemma purged_unused d i a l : distinct_ids d -> find_artifact d i = Some (a, l) -> is_deleted a = true -> oci_key (storage_key a) = false ->
  key_still_referenced d l (storage_key a) i = false -> in_use (delete_row i d) l (storage_key a) = false.
Proof.
  intros Hn (Hin & Hi & Hl)%find_artifact_row Hd Ho Hr. apply not_true_iff_false. rewrite in_use_used.
  intros (b & Hb & Hk & Hdb & Hs)%not_oci_used; [|done]. unfold delete_row in Hb. cbn [artifacts set_artifacts] in Hb.
  apply list_elem_of_filter in Hb as [Hbi Hb]. unfold key_still_referenced in Hr. apply orb_false_iff in Hr as [Hr _].
  rewrite existsb_false in Hr. specialize (Hr b Hb). simpl in Hr. rewrite Hk, String.eqb_refl in Hr.
  change (stored_in (delete_row i d)) with (stored_in d) in Hs. rewrite Hs, andb_true_r in Hr. simpl in Hr.
  apply negb_false_iff, bool_decide_eq_true in Hr.
  assert (b = a) as -> by (apply (distinct_same d); [done..|by rewrite Hr]). congruence.
Qed.

Lemma delete_row_less i d : names_less d (delete_row i d).
Proof. split; try done. intros a Ha _. unfold delete_row in Ha. cbn [artifacts set_artifacts] in Ha. by apply list_elem_of_filter in Ha as [_ ?]. Qed.

Lemma in_use_delete_row i d l key : in_use (delete_row i d) l key = in_use d l key.
Proof.
  unfold delete_row. rewrite in_use_filter; [apply in_use_approvals|]. intros a _ Hd. by rewrite Hd, andb_false_r.
Qed.

Lemma set_owners_less f d : names_less d (set_owners f d).
Proof. by split. Qed.

Lemma purge_keeps c i w : distinct_ids (db w) ->
  keeps (delete_row i (db w)) (objects w) (objects (snd (purge c i w))) /\
  (db (snd (purge c i w)) = db w \/ exists f, db (snd (purge c i w)) = set_owners f (delete_row i (db w))).
Proof.
  intros Hn. unfold purge.
  destruct (rbind (trash_query c SelectTrashed _) _) as [[[[a l] d] reclaimed]|e] eqn:E; [|split; [apply keeps_refl|by left]].
  apply rbind_Ok in E as (found & <-%trash_query_ok & E). apply rbind_Ok in E as ([a0 l0] & Hf & E).
  apply rbind_Ok in E as ([] & Hc & E). apply rbind_Ok in E as (referenced & <-%trash_query_ok & E).
  apply rbind_Ok in E as ([] & _ & E). apply rbind_Ok in E as (d0 & <-%trash_query_ok & E).
  apply rbind_Ok in E as ([] & _ & E). injection E as -> -> <- <-.
  destruct (find_artifact (db w) i) as [[a1 l1]|] eqn:Hfound; [|done]. injection Hf as -> ->.
  unfold check_purgeable in Hc. destruct (is_deleted a) eqn:Hd; [|done]. cbn [negb] in Hc.
  destruct (existsb _ NON_RESTORABLE_KEY_PREFIXES) eqn:Ho; [done|].
  assert (oci_key (storage_key a) = false) as Hoci by (unfold oci_key; cbn [existsb NON_RESTORABLE_KEY_PREFIXES] in Ho; by rewrite orb_false_r in Ho).
  set (d := delete_row i (db w)).
  destruct (negb (key_still_referenced (db w) l (storage_key a) i) && negb (is_proxy_cache_key (storage_key a))) eqn:Hr.
  2: { unfold trash_query; cbn [rbind]; destruct (trash_fails c CommitTrash); (split; [apply keeps_refl|]); [by left|right].
       exists (fun x => x). simpl. unfold d. by destruct (db w). }
  apply andb_true_iff in Hr as [Hr%negb_true_iff _].
  pose proof (delete_keeps (gc c) d l (storage_key a) (objects w) (purged_unused _ _ _ _ Hn Hfound Hd Hoci Hr)) as Hk.
  destruct (delete_object _ _ _ _) as [[e|] objs]; cbn [snd] in Hk; [by split; [|left]|].
  destruct (reclaim_maven_sidecars _ _ _ _) as [cleaned objs'] eqn:Es.
  pose proof (keeps_trans _ _ _ _ Hk (maven_sidecars_keep _ _ _ _ _ _ Es)) as Hk'. unfold trash_query. destruct cleaned as [d'|e]; cbn [rbind].
  - destruct (trash_fails c CommitTrash); (split; [done|]); [by left|right]. exact (maven_sidecars_db _ _ _ _ _ _ Es).
  - by split; [|left].
Qed.

Lemma purge_served c i w : distinct_ids (db w) -> Served w -> Served (snd (purge c i w)).
Proof.
  intros Hn Hs l key Hnp. destruct (purge_keeps c i w Hn) as [[_ Hk] Hdb]. intros Hu.
  assert (in_use (db w) l key = true) as Hu'
    by (destruct Hdb as [Hdb|(f & Hdb)]; rewrite Hdb in Hu; [done|by rewrite in_use_owners, in_use_delete_row in Hu]).
  apply Hk; [by rewrite in_use_delete_row|by apply Hs].
Qed.

(** * Candidates and repository deletes *)

Lemma unreferenced_unused d l key : candidate_is_still_referenced d l key = false -> in_use d l key = false.
Proof.
  intros Hr. unfold candidate_is_still_referenced in Hr. rewrite !orb_false_iff in Hr.
  destruct Hr as [[[[[[[[Ha _] _] Hb] _] Ht] Hc] _] _]. rewrite existsb_false in Ha; rewrite existsb_false in Hb; rewrite existsb_false in Ht; rewrite existsb_false in Hc.
  apply not_true_iff_false. rewrite in_use_used. intros [x Hx Hk Hd Hs|x Hx Hk Hs|x Hx Hk Hs|m x Hm Hk Hs _ _ _].
  - specialize (Ha x Hx). by rewrite Hk, String.eqb_refl, Hs in Ha.
  - specialize (Ht x Hx). by rewrite (proj2 (names_digest_true _ _ _) Hk), Hs in Ht.
  - specialize (Hb x Hx). by rewrite (proj2 (names_digest_true _ _ _) Hk), Hs in Hb.
  - specialize (Hc m Hm). by rewrite (proj2 (names_digest_true _ _ _) Hk), Hs in Hc.
Qed.

Lemma consume_keeps c w r row : keeps (db w) (objects w) (objects (fst (consume_candidate c (w, r) row))) /\
  exists f, db (fst (consume_candidate c (w, r) row)) = set_candidates f (db w).
Proof.
  assert (exists f, db w = set_candidates f (db w)) as Hsame by (exists (fun x => x); by destruct (db w)).
  unfold consume_candidate. do 5 (case_match; [by split; [apply keeps_refl|]|]).
  destruct (candidate_is_still_referenced (db w) _ _) eqn:Hr.
  - repeat case_match; cbn [fst db objects]; (split; [apply keeps_refl|]); try done; by eexists.
  - pose proof (delete_keeps c (db w) (candidate_location row) (candidate_key row) (objects w) (unreferenced_unused _ _ _ Hr)) as Hk.
    destruct (delete_object _ _ _ _) as [[e|] objs]; cbn [snd] in Hk; [by split|].
    repeat case_match; cbn [fst db objects]; split; try done; by eexists.
Qed.

Lemma record_candidates_db t scope keys : forall d, exists f, foldl (record_candidate t scope) d keys = set_candidates f d.
Proof.
  induction keys as [|key keys IH]; intros d; [exists (fun x => x); by destruct d|]. cbn [foldl].
  destruct (IH (record_candidate t scope d key)) as (f & ->). unfold record_candidate.
  destruct (existsb _ _); [by exists f|]. by eexists (fun x => f (x ++ _)).
Qed.

Lemma stored_in_delete r d l r' : stored_in (delete_repository r d) l r' = if bool_decide (r' = r) then false else stored_in d l r'.
Proof.
  unfold stored_in, repo_location, delete_repository. simpl. induction (repositories d) as [|row rows IH]; [by case_bool_decide|].
  rewrite filter_cons. destruct (decide (repo_id row <> r)) as [Hn|Hn]; simpl.
  - destruct (bool_decide_reflect (repo_id row = r')) as [<-|Hr']; [by rewrite bool_decide_eq_false_2|exact IH].
  - apply dec_stable in Hn. rewrite IH. case_bool_decide as Hr; [done|]. by rewrite bool_decide_eq_false_2 by congruence.
Qed.

Lemma delete_repository_less r d : names_less d (delete_repository r d).
Proof.
  split; [|unfold delete_repository; simpl; intros x; rewrite list_elem_of_filter; tauto..].
  intros l r'. rewrite stored_in_delete. by case_bool_decide.
Qed.

(** The repository has its file system root to itself. *)
Definition own_root (d : GcDb) (r : Uuid) (l : StorageLocation) : Prop :=
  backend_is_repo_isolated (backend l) = true -> forall row, row ∈ repositories d -> repo_id row <> r -> same_storage (location row) l = false.

(** The key spaces of the tables: only uploads have keys under [oci-uploads/],
    besides those of blobs, and attributions name Maven keys, on the backend of
    the repository. *)
Definition OCI_UPLOAD_PREFIX : string := "oci-uploads/".

Record key_spaces (d : GcDb) : Prop := {
  space_artifacts : forall a, a ∈ artifacts d -> starts_with OCI_UPLOAD_PREFIX (storage_key a) = false;
  space_uploads : forall r key, key ∈ upload_keys_of d r -> starts_with OCI_UPLOAD_PREFIX key || starts_with OCI_BLOB_STORAGE_PREFIX key = true;
  space_owners : forall o, o ∈ maven_flat_object_owner d -> starts_with MAVEN_FLAT_KEY_PREFIX (owner_key o) = true;
  space_backends : forall o l, o ∈ maven_flat_object_owner d -> repo_location d (owner_repo o) = Some l -> backend l = owner_backend o
}.

Lemma used_stored d l key : used d l key -> exists r, stored_in d l r = true.
Proof. intros [? ? ? ? ?|? ? ? ?|? ? ? ?|? ? ? ? ? ? ? ?]; eauto. Qed.

Lemma own_root_unused d r l key : own_root d r l -> backend_is_repo_isolated (backend l) = true -> in_use (delete_repository r d) l key = false.
Proof.
  intros Ho Hb. apply not_true_iff_false. rewrite in_use_used. intros (r' & Hs)%used_stored. rewrite stored_in_delete in Hs.
  case_bool_decide as Hr; [done|]. unfold stored_in, repo_location in Hs. destruct (List.find _ _) as [row|] eqn:Ef; [|done]. simpl in Hs.
  apply find_some in Ef as [Hin <-%bool_decide_eq_true]. apply list_elem_of_In in Hin. by rewrite (Ho Hb row Hin Hr) in Hs.
Qed.

(** Without the repository, a key with no OCI prefix is in use through the rows
    of the others. *)
Lemma in_use_without d r l key : oci_key key = false -> in_use (delete_repository r d) l key = true ->
  exists a, a ∈ artifacts d /\ artifact_repo a <> r /\ storage_key a = key /\ is_deleted a = false /\ stored_in d l (artifact_repo a) = true.
Proof.
  intros Ho. rewrite in_use_used. intros (a & Ha & Hk & Hd & Hs)%not_oci_used; [|done]. cbn [artifacts delete_repository] in Ha.
  apply list_elem_of_filter in Ha as [Hr Ha]. rewrite stored_in_delete, bool_decide_eq_false_2 in Hs by done. by exists a.
Qed.

Lemma artifact_keys_unused d r l key : key ∈ repo_artifact_keys d r l -> in_use (delete_repository r d) l key = false.
Proof.
  unfold repo_artifact_keys. rewrite list_elem_of_omap. intros (a & Ha & Hc). cbn beta zeta in Hc.
  destruct (_ && _) eqn:E; [|done]. injection Hc as <-. rewrite !andb_true_iff, !negb_true_iff in E. destruct E as [[[[[_ _] Hm] Hb] Hrow] _].
  rewrite existsb_false in Hrow. apply not_true_iff_false. intros (b & Hbin & Hbr & Hk & _ & Hs)%in_use_without; [|unfold oci_key; by rewrite Hm, Hb].
  specialize (Hrow b Hbin). by rewrite Hk, String.eqb_refl, Hs, bool_decide_eq_false_2 in Hrow.
Qed.

Lemma maven_not_oci key : starts_with MAVEN_FLAT_KEY_PREFIX key = true -> oci_key key = false.
Proof. intros (rest & ->)%starts_with_true. by cbn. Qed.

Lemma upload_not_oci key : starts_with OCI_UPLOAD_PREFIX key = true -> oci_key key = false.
Proof. intros (rest & ->)%starts_with_true. by cbn. Qed.

Lemma flat_keys_unused d r l key : key_spaces d -> repo_location d r = Some l -> key ∈ collect_repo_maven_flat_keys d r ->
  in_use (delete_repository r d) l key = false.
Proof.
  intros Hsp Hl. unfold collect_repo_maven_flat_keys. rewrite list_elem_of_omap. intros (o & Ho & Hc). cbn beta zeta in Hc.
  destruct (_ && _) eqn:E; [|done]. injection Hc as <-. rewrite !andb_true_iff, !negb_true_iff in E. destruct E as [[[[Hr%bool_decide_eq_true Hrow] _] _] _].
  subst r. rewrite existsb_false in Hrow. apply not_true_iff_false.
  intros (b & Hbin & Hbr & Hk & _ & Hs)%in_use_without; [|by apply maven_not_oci, (space_owners d Hsp)].
  specialize (Hrow b Hbin). rewrite Hk, String.eqb_refl in Hrow. unfold foreign_row in Hrow. rewrite bool_decide_eq_false_2 in Hrow by done.
  unfold stored_in in Hs. destruct (repo_location d (artifact_repo b)) as [other|]; [|done]. simpl in Hrow.
  unfold same_storage in Hs. by rewrite (space_backends d Hsp o l Ho Hl), Hrow in Hs.
Qed.

(** The keys a repository delete purges are unused without the repository. *)
Lemma collected_unused c d r l key : key_spaces d -> own_root d r l -> repo_location d r = Some l ->
  key ∈ collect_repo_artifact_object_keys c d r l -> in_use (delete_repository r d) l key = false.
Proof.
  intros Hsp Ho Hl. unfold collect_repo_artifact_object_keys, collected. rewrite elem_of_remove_dups, !elem_of_app.
  intros [Hk|[Hk|Hk]].
  - destruct (gc_fails c CollectKeys ""); [by apply elem_of_nil in Hk|]. by apply artifact_keys_unused.
  - destruct (gc_fails c CollectFlatKeys ""); [by apply elem_of_nil in Hk|]. by apply flat_keys_unused.
  - destruct (backend_is_repo_isolated (backend l)) eqn:Hb; [|by apply elem_of_nil in Hk]. by apply own_root_unused.
Qed.

Lemma drained_key `{Collation} c n keys key : forall fuel cursor, key ∈ drain_upload_keys fuel c n keys cursor -> key ∈ keys.
Proof.
  induction fuel as [|fuel IH]; intros cursor; cbn [drain_upload_keys]; [by intros ?%elem_of_nil|]. intros [Hk|Hk]%elem_of_app.
  - destruct (gc_fails c CollectUploadKeys cursor); [by apply elem_of_nil in Hk|]. unfold upload_keys_page in Hk.
    apply elem_of_take in Hk as (i & Hk & _). apply list_elem_of_lookup_2, list_elem_of_filter in Hk as [_ Hk].
    by rewrite sort_by_perm in Hk.
  - destruct (next_page_cursor _ _ _); [by eapply IH|by apply elem_of_nil in Hk].
Qed.

Lemma upload_keys_unused `{Collation} c d r l key : key_spaces d -> own_root d r l ->
  key ∈ oci_upload_keys_owned_by_deleted_repo (backend l) (collect_repo_oci_upload_temp_keys c d r) -> in_use (delete_repository r d) l key = false.
Proof.
  intros Hsp Ho. unfold oci_upload_keys_owned_by_deleted_repo. destruct (backend_is_repo_isolated (backend l)) eqn:Hb; [intros _; by apply own_root_unused|].
  intros [Hnb Hk%drained_key]%list_elem_of_filter. pose proof (space_uploads d Hsp r key Hk) as Hu. rewrite Hnb, orb_false_r in Hu.
  apply not_true_iff_false. intros (a & Ha & _ & <- & _)%in_use_without; [|by apply upload_not_oci]. by rewrite (space_artifacts d Hsp a Ha) in Hu.
Qed.

Lemma delete_keys_keep c d l keys : (forall key, key ∈ keys -> in_use d l key = false) -> forall objs, keeps d objs (delete_keys c l keys objs).
Proof.
  intros Hu. unfold delete_keys. induction keys as [|key keys IH]; intros objs; [apply keeps_refl|]. cbn [foldl].
  eapply keeps_trans; [apply (delete_keeps c d l key objs); apply Hu; left|]. apply IH. intros. apply Hu. by right.
Qed.

Lemma delete_keys_other c l keys o : (forall key, key ∈ keys -> object_at l key <> o) -> forall objs, o ∈ objs -> o ∈ delete_keys c l keys objs.
Proof.
  unfold delete_keys. induction keys as [|key keys IH]; intros Hk objs Hin; [done|]. cbn [foldl]. apply IH; [intros; apply Hk; by right|].
  unfold delete_object. destruct (undeletable c _); [done|]. cbn [snd]. assert (object_at l key <> o) by (apply Hk; left). set_solver.
Qed.

(** The purge of a proxy's cache stays in the proxy cache. *)
Lemma purge_repo_cache_other c p repo_key objs l key : is_proxy_cache_key key = false -> object_at l key ∈ objs ->
  object_at l key ∈ purge_repo_cache c p repo_key objs.
Proof.
  intros Hn Hin. unfold purge_repo_cache. destruct (gc_fails c ListProxyCache ""); [done|]. apply delete_keys_other; [|done].
  intros k Hk [_ ->]%object_at_eq. apply list_elem_of_join in Hk as (ks & Hk & (root & -> & Hroot)%list_elem_of_fmap).
  apply list_elem_of_fmap in Hk as ([bp k'] & Hk & [[Hs _] _]%list_elem_of_filter). cbn [snd] in Hk, Hs. subst k'.
  assert (exists rest, root = PROXY_CACHE_KEY_PREFIX +:+ rest) as (rest & ->).
  { unfold repo_roots, repo_root in Hroot. repeat case_match; rewrite ?elem_of_app, ?list_elem_of_singleton in Hroot;
      destruct_or? Hroot; subst root; by eexists. }
  apply starts_with_true in Hs as (rest' & ->). unfold is_proxy_cache_key in Hn. apply not_true_iff_false in Hn. apply Hn, starts_with_true.
  exists (rest +:+ rest'). by rewrite append_assoc.
Qed.

Lemma begin_delete_db c r l d : exists f,
  begin_repository_delete c r l d = (collect_repo_artifact_object_keys c d r l, delete_repository r (set_candidates f d)).
Proof.
  unfold begin_repository_delete. set (keys := collect_repo_artifact_object_keys c d r l).
  unfold record_spared_artifact_gc_candidates, record_oci_gc_candidates.
  destruct (record_candidates_db (now c) (oci_gc_candidate_scope l) (spared_keys d r keys) d) as (f & Hf).
  assert (exists f, match gc_fails c RecordSpared "" with Some _ => d | None => foldl (record_candidate (now c) (oci_gc_candidate_scope l)) d (spared_keys d r keys) end = set_candidates f d) as (f1 & ->).
  { destruct (gc_fails c RecordSpared ""); [exists (fun x => x); by destruct d|eauto]. }
  destruct (gc_fails c RecordOci ""); [by exists f1|].
  destruct (record_candidates_db (now c) (oci_gc_candidate_scope l) (remove_dups (oci_keys_of (set_candidates f1 d) r)) (set_candidates f1 d)) as (f2 & ->).
  by exists (fun x => f2 (f1 x)).
Qed.

Lemma delete_repository_db `{Collation} c p r repo_key l w :
  exists f, db (delete_repository_with_objects c p r repo_key l w) = delete_repository r (set_candidates f (db w)).
Proof. unfold delete_repository_with_objects. destruct (begin_delete_db c r l (db w)) as (f & ->). by exists f. Qed.

Lemma repository_delete_served `{Collation} c p r repo_key l w : key_spaces (db w) -> own_root (db w) r l -> repo_location (db w) r = Some l ->
  Served w -> Served (delete_repository_with_objects c p r repo_key l w).
Proof.
  intros Hsp Ho Hl Hs. unfold delete_repository_with_objects. destruct (begin_delete_db c r l (db w)) as (f & ->).
  set (d := delete_repository r (set_candidates f (db w))). set (uploads := collect_repo_oci_upload_temp_keys c (db w) r).
  assert (names_less (db w) d) as Hless by (apply (names_less_trans _ (set_candidates f (db w))); [by split|apply delete_repository_less]).
  assert (forall key, in_use d l key = in_use (delete_repository r (db w)) l key) as Hin by done.
  set (objs1 := purge_storage_object_keys c l _ (objects w)). set (objs2 := purge_oci_upload_temp_objects c l uploads objs1).
  assert (keeps d (objects w) objs2) as [_ Hk].
  { apply (keeps_trans _ _ objs1).
    - unfold objs1, purge_storage_object_keys. destruct (storage_for_location c l); [apply keeps_refl|].
      apply delete_keys_keep. intros key Hkey. rewrite Hin. by eapply collected_unused.
    - unfold objs2, purge_oci_upload_temp_objects. destruct (storage_for_location c l); [apply keeps_refl|].
      apply delete_keys_keep. intros key Hkey. rewrite Hin. by eapply upload_keys_unused. }
  intros l' key Hnp Hu. cbn [db objects] in *. assert (object_at l' key ∈ objs2) as Ho2 by (apply Hk; [done|]; by apply (names_less_served w d Hless Hs)).
  destruct p as [p|]; [by apply purge_repo_cache_other|done].
Qed.

(** * Runs of the catalogue *)

Definition add_artifact (keep : ArtifactRow -> bool) (a : ArtifactRow) : GcDb -> GcDb :=
  set_artifacts (fun rows => a :: base.filter (fun b => keep b = true) rows).

Definition create_repository (row : StoredRepo) (d : GcDb) : GcDb :=
  {| repositories := repositories d ++ [row]; artifacts := artifacts d; artifact_versions := artifact_versions d;
     promotion_approvals := promotion_approvals d; files_metadata := files_metadata d; oci_tags := oci_tags d; oci_blobs := oci_blobs d;
     oci_manifest_refs := oci_manifest_refs d; manifest_blob_refs := manifest_blob_refs d;
     maven_flat_object_owner := maven_flat_object_owner d; oci_gc_candidates := oci_gc_candidates d;
     oci_upload_sessions := oci_upload_sessions d; oci_upload_parts := oci_upload_parts d;
     oci_upload_cleanup_keys := oci_upload_cleanup_keys d |}.

(** An id no row names: the tables' foreign keys. *)
Definition fresh_repository (r : Uuid) (d : GcDb) : Prop :=
  (forall a, a ∈ artifacts d -> artifact_repo a <> r) /\ (forall t, t ∈ oci_tags d -> tag_repo t <> r) /\
  (forall b, b ∈ oci_blobs d -> blob_repo b <> r) /\ (forall m, m ∈ oci_manifest_refs d -> child_repo m <> r).

Lemma stored_in_create row d l r : r <> repo_id row -> stored_in (create_repository row d) l r = stored_in d l r.
Proof.
  intros Hr. unfold stored_in, repo_location, create_repository. cbn [repositories]. induction (repositories d) as [|other rows IH]; cbn [app List.find].
  - by rewrite bool_decide_eq_false_2.
  - by case_bool_decide.
Qed.

Lemma create_repository_used row d l key : fresh_repository (repo_id row) d -> used (create_repository row d) l key -> used d l key.
Proof.
  intros (Ha & Ht & Hb & Hm) [x ? ? ? Hs|x ? ? Hs|x ? ? Hs|m x ? ? Hs ? ? ?]; rewrite stored_in_create in Hs by auto;
    [by eapply used_artifact|by eapply used_tag|by eapply used_blob|by eapply (used_child _ _ _ m x)].
Qed.

(** One change of the catalogue.  A push stores its object before the row that
    names it, and replaces rows; a tag names a manifest that is stored, and the
    children it brings are stored too; whatever only names less is a [forget]:
    soft deletes, untagging, pruned rows, attributions and upload journals.  A
    repository is created with an id of its own; it is deleted when its file
    system root, if it has one, is not shared, and the tables keep to their key
    spaces.  The proxy cache replaces and drops its own objects. *)
Inductive catalog_step `{Collation} : GcWorld -> GcWorld -> Prop :=
| step_store objs w : objects w ⊆ objs -> catalog_step w {| db := db w; objects := objs |}
| step_push keep a l w :
    repo_location (db w) (artifact_repo a) = Some l -> distinct_ids (add_artifact keep a (db w)) ->
    object_at l (storage_key a) ∈ objects w -> catalog_step w {| db := add_artifact keep a (db w); objects := objects w |}
| step_blob b l w :
    repo_location (db w) (blob_repo b) = Some l -> object_at l (OCI_BLOB_STORAGE_PREFIX +:+ blob_digest b) ∈ objects w ->
    catalog_step w {| db := set_blobs (cons b) (db w); objects := objects w |}
| step_tag t children l w :
    repo_location (db w) (tag_repo t) = Some l -> object_at l (OCI_MANIFEST_STORAGE_PREFIX +:+ tag_digest t) ∈ objects w ->
    (forall m, m ∈ oci_manifest_refs (db w) ++ children -> child_repo m = tag_repo t -> parent_digest m = tag_digest t ->
       object_at l (OCI_MANIFEST_STORAGE_PREFIX +:+ child_digest m) ∈ objects w) ->
    (forall m, m ∈ children -> child_repo m = tag_repo t /\ parent_digest m = tag_digest t) ->
    catalog_step w {| db := set_tags (cons t) (set_children (fun rows => rows ++ children) (db w)); objects := objects w |}
| step_forget d w : names_less (db w) d -> distinct_ids d -> catalog_step w {| db := d; objects := objects w |}
| step_restore c i a w w' : restore c i w = Ok (a, w') -> catalog_step w w'
| step_purge c i w : catalog_step w (snd (purge c i w))
| step_reclaim c row r w : catalog_step w (fst (reclaim_orphan_key c row (w, r)))
| step_candidate c row r w : catalog_step w (fst (consume_candidate c (w, r) row))
| step_create_repository row w :
    fresh_repository (repo_id row) (db w) ->
    catalog_step w {| db := create_repository row (db w); objects := objects w |}
| step_delete_repository c proxy r repo_key l w :
    repo_location (db w) r = Some l -> own_root (db w) r l -> key_spaces (db w) ->
    catalog_step w (delete_repository_with_objects c proxy r repo_key l w)
| step_proxy_cache objs w :
    (forall l key, is_proxy_cache_key key = false -> object_at l key ∈ objects w -> object_at l key ∈ objs) ->
    catalog_step w {| db := db w; objects := objs |}.

Lemma distinct_filter (P : ArtifactRow -> Prop) `{!forall x, Decision (P x)} d f :
  distinct_ids d -> artifacts (f d) = base.filter P (artifacts d) -> distinct_ids (f d).
Proof.
  unfold distinct_ids. intros Hn ->. eapply sublist_NoDup; [exact Hn|]. apply fmap_sublist, sublist_filter.
Qed.

Definition catalog_ok (w : GcWorld) : Prop := Served w /\ distinct_ids (db w).

Lemma added_used keep a l d l' key : repo_location d (artifact_repo a) = Some l -> used (add_artifact keep a d) l' key ->
  object_at l' key = object_at l (storage_key a) \/ used d l' key.
Proof.
  intros Hl [b Hb Hk Hd Hs|t ? ? ?|b ? ? ?|m t ? ? ? ? ? ?]; [|right; by eapply used_tag|right; by eapply used_blob|right; by eapply (used_child _ _ _ m t)].
  unfold add_artifact in Hb. cbn [artifacts set_artifacts] in Hb. apply elem_of_cons in Hb as [->|[_ Hb]%list_elem_of_filter].
  - left. apply object_at_eq. split; [|done]. change (stored_in (add_artifact keep a d)) with (stored_in d) in Hs.
    unfold stored_in in Hs. rewrite Hl in Hs. by rewrite same_storage_sym.
  - right. by eapply used_artifact.
Qed.

Lemma location_object d r l l' key : repo_location d r = Some l -> stored_in d l' r = true -> object_at l' key = object_at l key.
Proof. unfold stored_in. intros -> Hs. apply object_at_eq. by rewrite same_storage_sym. Qed.

Lemma tag_step_served t children l w :
  repo_location (db w) (tag_repo t) = Some l -> object_at l (OCI_MANIFEST_STORAGE_PREFIX +:+ tag_digest t) ∈ objects w ->
  (forall m, m ∈ oci_manifest_refs (db w) ++ children -> child_repo m = tag_repo t -> parent_digest m = tag_digest t ->
     object_at l (OCI_MANIFEST_STORAGE_PREFIX +:+ child_digest m) ∈ objects w) ->
  (forall m, m ∈ children -> child_repo m = tag_repo t /\ parent_digest m = tag_digest t) ->
  Served w -> Served {| db := set_tags (cons t) (set_children (fun rows => rows ++ children) (db w)); objects := objects w |}.
Proof.
  rewrite !served_used. intros Hl Ho Hc Hch Hs l' key Hnp [a ? ? ? ?|t' Ht Hk Hst|b ? ? ?|m t' Hm Hk Hst Ht Hr Hp]; cbn [db objects] in *.
  - apply Hs; [done|]. by eapply used_artifact.
  - apply elem_of_cons in Ht as [->|Ht]; [|apply Hs; [done|]; by eapply used_tag]. subst key. by rewrite (location_object (db w) _ _ _ _ Hl Hst).
  - apply Hs; [done|]. by eapply used_blob.
  - subst key. apply elem_of_cons in Ht as [->|Ht].
    + rewrite Hr in Hl. rewrite (location_object (db w) _ _ _ _ Hl Hst). by apply Hc.
    + apply elem_of_app in Hm as [Hm|Hm]; [apply Hs; [done|]; by eapply (used_child _ _ _ m t')|].
      destruct (Hch m Hm) as [Hmr Hmp]. rewrite Hmr in Hst. rewrite (location_object (db w) _ _ _ _ Hl Hst). apply Hc; [|done..].
      apply elem_of_app. by right.
Qed.

Lemma catalog_step_ok `{Collation} w w' : catalog_step w w' -> catalog_ok w -> catalog_ok w'.
Proof.
  intros Hstep [Hs Hn]. destruct Hstep as [objs w Hsub|keep a l w Hl Hn' Ho|b l w Hl Ho|t children l w Hl Ho Hc Hch|d w Hless Hn'|c i a w w' Hr|c i w|c row r w|c row r w|row w Hf|c p r key l w Hl Ho Hsp|objs w Hk];
    (split; [|try done]).
  - intros l key Hnp Hu. apply Hsub. by apply Hs.
  - apply served_used. intros l' key Hnp [->|Hu]%(added_used _ _ l); [done|by apply (proj1 (served_used w) Hs)|done].
  - apply served_used. intros l' key Hnp [a ? ? ? ?|t ? ? ?|b' Hb Hk Hst|m t ? ? ? ? ? ?]; cbn [db objects] in *;
      [apply Hs; [done|]; apply in_use_used; by eapply used_artifact|apply Hs; [done|]; apply in_use_used; by eapply used_tag| |apply Hs; [done|]; apply in_use_used; by eapply (used_child _ _ _ m t)].
    apply elem_of_cons in Hb as [->|Hb]; [|apply Hs; [done|]; apply in_use_used; by eapply used_blob]. subst key.
    by rewrite (location_object (db w) _ _ _ _ Hl Hst).
  - by eapply tag_step_served.
  - by apply names_less_served.
  - by apply (restore_served c i w a w').
  - apply restore_found in Hr as (? & ? & _ & _ & _ & _ & ->). unfold distinct_ids, revived, update_artifact. cbn [db artifacts set_artifacts].
    rewrite <- list_fmap_compose. erewrite list_fmap_ext; [exact Hn|]. intros _ b _. simpl. by repeat case_match.
  - by apply purge_served.
  - destruct (purge_keeps c i w Hn) as [_ [->|(f & ->)]]; [done|]. by eapply (distinct_filter _ (db w) (fun d => set_owners f (delete_row i d)) Hn).
  - by apply reclaim_served.
  - destruct (reclaim_orphan_key c row (w, r)) as [w' r'] eqn:E. cbn [fst]. destruct (reclaim_effect _ _ _ _ _ _ E) as [_ [->|(_ & _ & _ & _ & f & g & ->)]]; [done|].
    by eapply (distinct_filter _ (db w) (fun d => set_owners f (delete_trashed _ _ (set_promotion_approvals g d))) Hn).
  - destruct (consume_keeps c w r row) as [[_ Hk] (f & Hd)]. intros l key Hnp. rewrite Hd. intros Hu. apply Hk; [done|]. by apply Hs.
  - destruct (consume_keeps c w r row) as [_ (f & ->)]. done.
  - apply served_used. intros l key Hnp Hu%create_repository_used; [|done]. by apply (proj1 (served_used w) Hs).
  - by apply repository_delete_served.
  - destruct (delete_repository_db c p r key l w) as (f & ->).
    by eapply (distinct_filter _ (db w) (fun d => delete_repository r (set_candidates f d)) Hn).
  - intros l key Hnp Hu. apply Hk; [done|]. by apply Hs.
Qed.


(** * What a repository delete leaves *)

Definition recorded (d : GcDb) (scope : StorageLocation) (key : string) : Prop :=
  exists row, row ∈ oci_gc_candidates d /\ candidate_location row = scope /\ candidate_key row = key.

Lemma record_candidate_recorded t scope d key : recorded (record_candidate t scope d key) scope key.
Proof.
  unfold record_candidate. destruct (existsb _ _) eqn:E.
  - apply existsb_true in E as (row & Hin & Hf). apply andb_true_iff in Hf as [Hl%bool_decide_eq_true Hk%String.eqb_eq]. by exists row.
  - eexists. split; [simpl; apply elem_of_app; right; by apply list_elem_of_singleton|done].
Qed.

Lemma record_candidate_keeps t scope d key scope' key' : recorded d scope' key' -> recorded (record_candidate t scope d key) scope' key'.
Proof.
  intros (row & Hin & Hl & Hk). unfold record_candidate. destruct (existsb _ _); exists row; [done|]. split; [|done].
  simpl. apply elem_of_app. by left.
Qed.

Lemma record_candidates_keep t scope keys : forall d scope' key', recorded d scope' key' ->
  recorded (foldl (record_candidate t scope) d keys) scope' key'.
Proof. induction keys as [|key keys IH]; intros d scope' key' Hr; [done|]. by apply IH, record_candidate_keeps. Qed.

Lemma record_candidates_recorded t scope keys : forall d key, key ∈ keys -> recorded (foldl (record_candidate t scope) d keys) scope key.
Proof.
  induction keys as [|key' keys IH]; intros d key; [by intros ?%elem_of_nil|]. cbn [foldl]. intros [->|Hin]%elem_of_cons; [|by apply IH].
  apply record_candidates_keep, record_candidate_recorded.
Qed.

Lemma artifact_key_accounted d r a purged : a ∈ artifacts d -> artifact_repo a = r -> is_proxy_cache_key (storage_key a) = false ->
  storage_key a ∈ purged \/ storage_key a ∈ spared_keys d r purged \/ storage_key a ∈ oci_keys_of d r.
Proof.
  intros Ha Hr Hp. destruct (one_of (storage_key a) purged) eqn:Hm; [left; by apply one_of_true|]. right.
  destruct (oci_key (storage_key a)) eqn:Ho.
  - right. unfold oci_keys_of. apply elem_of_app. left. apply list_elem_of_omap. exists a. split; [done|].
    rewrite bool_decide_eq_true_2 by done. unfold oci_key in Ho. simpl. by rewrite Ho.
  - left. unfold spared_keys. apply elem_of_remove_dups, list_elem_of_omap. exists a. split; [done|].
    rewrite bool_decide_eq_true_2 by done. unfold oci_key in Ho. apply orb_false_iff in Ho as [-> ->]. by rewrite Hp, Hm.
Qed.

Section Drain.
Context `{Collation}.

Lemma collate_eq a b : collate a b = Eq -> a = b.
Proof. apply (to_eq collate). Qed.

Lemma keys_sorted keys : NoDup keys -> StronglySorted (walk_before collate id) (sort_by collate keys).
Proof.
  intros Hn. assert (NoDup (sort_by collate keys)) as Hn' by (by rewrite sort_by_perm).
  pose proof (sort_by_sorted collate keys) as Hs. revert Hn' Hs. generalize (sort_by collate keys) as k.
  induction k as [|g k IH]; intros Hn' Hs; [constructor|]. destruct Hs as [Hg Hs]. apply NoDup_cons in Hn' as [Hni Hn'].
  constructor; [by apply IH|]. apply Forall_forall. intros g' Hg'. unfold walk_before, id. apply (tp_gt_lt collate).
  destruct (collate g g') eqn:E; [|done|].
  - apply collate_eq in E. by subst.
  - by destruct (Hg g' Hg').
Qed.

(** Without failures the pages amount to every key after the cursor. *)
Lemma drain_complete c n keys : (1 <= n)%nat -> NoDup keys -> (forall cursor, gc_fails c CollectUploadKeys cursor = None) ->
  forall fuel cursor, (length (base.filter (fun key => after_key cursor key = true) (sort_by collate keys)) < fuel)%nat ->
  drain_upload_keys fuel c n keys cursor = base.filter (fun key => after_key cursor key = true) (sort_by collate keys).
Proof.
  intros Hn Hd Hf. assert (StronglySorted (walk_before collate id) (sort_by collate keys)) as Hsorted by (by apply keys_sorted).
  induction fuel as [|fuel IH]; intros cursor Hl; [lia|]. cbn [drain_upload_keys]. rewrite Hf. unfold upload_keys_page at 1, next_page_cursor.
  set (A := base.filter _ _) in *. unfold upload_keys_page. fold A.
  destruct (Nat.ltb_spec (length (take n A)) n) as [Hs|Hs].
  { rewrite app_nil_r. apply take_ge. rewrite length_take in Hs. lia. }
  destruct (last (take n A)) as [x|] eqn:Ex; [|apply last_None in Ex; rewrite Ex in Hs; simpl in Hs; lia].
  pose proof (after_page collate id n (sort_by collate keys) cursor _ Hsorted eq_refl x Ex) as Hr.
  change (base.filter (fun key => after_key x key = true) (sort_by collate keys) = drop n A) in Hr.
  cbn [fmap option_fmap option_map id]. rewrite IH; rewrite Hr; [apply take_drop|].
  rewrite length_drop. rewrite length_take in Hs. lia.
Qed.

Lemma uploads_drained c d r key : (forall cursor, gc_fails c CollectUploadKeys cursor = None) -> key ∈ upload_keys_of d r -> key <> "" ->
  key ∈ collect_repo_oci_upload_temp_keys c d r.
Proof.
  intros Hf Hk He. unfold collect_repo_oci_upload_temp_keys. rewrite drain_complete; [|unfold OCI_UPLOAD_TEMP_KEY_BATCH; lia|apply NoDup_remove_dups|done|].
  - apply list_elem_of_filter. split; [|by rewrite sort_by_perm]. unfold after_key. destruct (collate key "") eqn:E; [|by apply collate_empty in E|done].
    by apply collate_eq in E.
  - pose proof (length_filter (fun key => after_key "" key = true) (sort_by collate (upload_keys_of d r))).
    rewrite (Permutation_length (sort_by_perm collate (upload_keys_of d r))) in *. lia.
Qed.

(** A repository delete whose statements succeed loses track of no object
    of a row: the key of every row outside the proxy cache, and every key its
    tags, blobs, manifests and uploads name, is purged with the repository or
    recorded as a candidate at its storage, every key of its unfinished uploads
    is purged or recorded; and what it purges of committed objects nothing that
    remains names. *)
Theorem repository_delete_accounts c r l d :
  (forall s k, gc_fails c s k = None) -> key_spaces d -> own_root d r l -> repo_location d r = Some l ->
  let '(purged, d') := begin_repository_delete c r l d in
  let uploads := oci_upload_keys_owned_by_deleted_repo (backend l) (collect_repo_oci_upload_temp_keys c d r) in
  (forall a, a ∈ artifacts d -> artifact_repo a = r -> is_proxy_cache_key (storage_key a) = false ->
     storage_key a ∈ purged \/ recorded d' (oci_gc_candidate_scope l) (storage_key a)) /\
  (forall key, key ∈ oci_keys_of d r -> recorded d' (oci_gc_candidate_scope l) key) /\
  (forall key, key ∈ upload_keys_of d r -> starts_with OCI_BLOB_STORAGE_PREFIX key = false -> key <> "" -> key ∈ uploads) /\
  (forall key, key ∈ purged ++ uploads -> in_use d' l key = false).
Proof.
  intros Ef Hsp Ho Hl. pose proof (begin_delete_db c r l d) as (f & Hd). rewrite Hd. set (d' := delete_repository r (set_candidates f d)).
  set (purged := collect_repo_artifact_object_keys c d r l) in *.
  assert (d' = delete_repository r (record_oci_gc_candidates (now c) r l (record_spared_artifact_gc_candidates (now c) r l purged d))) as Ed.
  { unfold d'. assert (snd (begin_repository_delete c r l d) = delete_repository r (set_candidates f d)) as <- by (by rewrite Hd).
    unfold begin_repository_delete. by rewrite !Ef. }
  unfold record_spared_artifact_gc_candidates, record_oci_gc_candidates in Ed. set (scope := oci_gc_candidate_scope l) in *.
  set (d1 := foldl (record_candidate (now c) scope) d (spared_keys d r purged)) in *.
  assert (oci_keys_of d1 r = oci_keys_of d r) as Eo
    by (unfold d1; destruct (record_candidates_db (now c) scope (spared_keys d r purged) d) as (g & ->); done).
  rewrite Eo in *. cbn zeta.
  assert (forall key, key ∈ oci_keys_of d r -> recorded d' scope key) as Hoci
    by (intros key Hin; rewrite Ed; by apply record_candidates_recorded, elem_of_remove_dups).
  assert (forall key, in_use d' l key = in_use (delete_repository r d) l key) as Hu by done.
  split_and!.
  - intros a Ha Hr Hp. destruct (artifact_key_accounted d r a purged Ha Hr Hp) as [?|[Hs|?]]; [by left|right|right; by apply Hoci].
    rewrite Ed. apply record_candidates_keep. by apply record_candidates_recorded.
  - exact Hoci.
  - intros key Hk Hb He. unfold oci_upload_keys_owned_by_deleted_repo. pose proof (uploads_drained c d r key (Ef _) Hk He).
    destruct (backend_is_repo_isolated _); [done|]. by apply list_elem_of_filter.
  - intros key [Hk|Hk]%elem_of_app; rewrite Hu; [by eapply collected_unused|by eapply upload_keys_unused].
Qed.

End Drain.

(** * Objects that are lost *)

Lemma delete_object_gone c l key objs : undeletable c (object_at l key) = None -> object_at l key ∉ snd (delete_object c l key objs).
Proof. intros E. unfold delete_object. rewrite E. simpl. set_solver. Qed.

(** An object that only a revision of [artifact_versions] still names: a
    purge from the trash keeps it and a candidate counts as referenced, but a
    sweep that passes its re-check deletes it, and the revision stays. *)
Theorem sweep_takes_revision_objects c row w r v :
  quiet c (db w) -> is_still_orphan (now c) (trash_retention_days c) (db w) (orphan_key row) (orphan_location row) = true ->
  is_proxy_cache_key (orphan_key row) = false ->
  v ∈ artifact_versions (db w) -> revision_key v = orphan_key row -> stored_in (db w) (orphan_location row) (revision_repo v) = true ->
  let w' := fst (reclaim_orphan_key c row (w, r)) in
  (v ∈ artifact_versions (db w') /\ stored_in (db w') (orphan_location row) (revision_repo v) = true /\
   object_at (orphan_location row) (orphan_key row) ∉ objects w') /\
  (forall tc i a, find_artifact (db w) i = Some (a, orphan_location row) -> storage_key a = orphan_key row ->
     objects (snd (purge tc i w)) = objects w) /\
  candidate_is_still_referenced (db w) (orphan_location row) (orphan_key row) = true.
Proof.
  intros Hq Ho Hp Hv Hk Hs. destruct (quiet_reclaim c row w r Hq Ho) as (w' & r' & f & g & -> & _ & Hd & Hgone). cbn zeta. cbn [fst].
  assert (existsb (fun v => (revision_key v =? orphan_key row) && stored_in (db w) (orphan_location row) (revision_repo v))
    (artifact_versions (db w)) = true) as Hx by (apply existsb_true; exists v; by rewrite Hk, String.eqb_refl, Hs).
  split_and!.
  - by rewrite Hd.
  - by rewrite Hd.
  - by apply Hgone.
  - intros tc i a Hf Hka. unfold purge. rewrite Hf.
    destruct (rbind (trash_query tc SelectTrashed _) _) as [[[[a0 l0] d0] reclaimed]|e] eqn:E; [|done].
    apply rbind_Ok in E as (found & <-%trash_query_ok & E). cbn [ok_or rbind] in E.
    apply rbind_Ok in E as (? & _ & E). apply rbind_Ok in E as (referenced & <-%trash_query_ok & E).
    apply rbind_Ok in E as (? & _ & E). apply rbind_Ok in E as (? & _ & E).
    apply rbind_Ok in E as (? & _ & E). injection E as _ _ _ <-.
    unfold key_still_referenced. rewrite Hka, Hx, orb_true_r. cbn. by destruct (trash_query tc CommitTrash _).
  - unfold candidate_is_still_referenced. by rewrite Hx, orb_true_r.
Qed.

(** The lock of the re-check holds the rows that exist: a push of the same
    key that inserts its row between the re-check and the delete, its object
    already stored, ends with a live row whose object is gone. *)
Theorem insert_races_reclaim c row w r keep a :
  quiet c (db w) -> is_still_orphan (now c) (trash_retention_days c) (db w) (orphan_key row) (orphan_location row) = true ->
  is_proxy_cache_key (orphan_key row) = false ->
  is_deleted a = false -> storage_key a = orphan_key row -> repo_location (db w) (artifact_repo a) = Some (orphan_location row) ->
  let pushed := {| db := add_artifact keep a (db w); objects := objects w |} in
  let w' := fst (reclaim_checked c row pushed r) in
  a ∈ artifacts (db w') /\ object_at (orphan_location row) (orphan_key row) ∉ objects w' /\ ~ Served w'.
Proof.
  intros Hq _ Hp Hda Hk Hl. pose proof Hq as (_ & Hd & Hf). cbn zeta. unfold reclaim_checked. rewrite Hp, !Hf. cbn [db objects].
  pose proof (delete_object_gone c (orphan_location row) (orphan_key row) (objects w) (Hd _)) as Hg.
  destruct (delete_object _ _ _ _) as [failed objs] eqn:Ed. unfold delete_object in Ed. rewrite Hd in Ed. injection Ed as <- <-. cbn [snd] in Hg.
  match goal with |- context [reclaim_maven_sidecars c ?l ?k ?w0] =>
    destruct (quiet_maven c l k w0 _ Hq) as (f & objs & -> & Hs) end.
  cbn [fst db objects] in *.
  set (d := add_artifact keep a (db w)) in *. set (d' := delete_trashed _ _ _).
  assert (a ∈ artifacts (set_owners f d')) as Hin.
  { unfold d', delete_trashed. cbn [artifacts set_owners set_artifacts]. apply list_elem_of_filter. split; [|left].
    unfold trashed_at. by rewrite Hda, andb_false_r. }
  assert (object_at (orphan_location row) (orphan_key row) ∉ objs) as Hno by set_solver.
  split_and!; [done|done|]. intros Hserved. apply Hno. apply (proj1 (served_used _) Hserved); [done|]. cbn [db].
  eapply used_artifact; [exact Hin|done|done|]. by apply stored_in_own.
Qed.

(** * Concrete runs *)

Definition sample_group (key : string) (n : Z) : OrphanKey :=
  {| orphan_key := key; orphan_location := sample_bucket; total_bytes := 0; artifact_count := n |}.

Definition sample_live (i r : Uuid) (key : string) : ArtifactRow :=
  {| artifact_id := i; artifact_repo := r; artifact_path := key; storage_key := key; size_bytes := 3; artifact_content_type := "application/gzip"; is_deleted := false; deleted_at := None |}.

Definition sample_pushed : GcWorld :=
  {| db := add_artifact (fun _ => true) (sample_live 13%N 2%N "k/c") sample_db;
     objects := {[object_at sample_bucket "k/c"]} ∪ objects sample_world |}.

Lemma sample_ok : catalog_ok sample_world.
Proof.
  split.
  - apply served_used. intros l key _ [a Ha _ Hd _|t Ht _ _|b Hb _ _|m t Hm _ _ _ _ _];
      [|by apply elem_of_nil in Ht|by apply elem_of_nil in Hb|by apply elem_of_nil in Hm].
    repeat (apply elem_of_cons in Ha as [->|Ha]; [done|]). by apply elem_of_nil in Ha.
  - apply (bool_decide_unpack _). vm_compute. exact I.
Qed.

(** A repository on [s3], which attributes a Maven file to itself and has an
    unfinished upload beside a blob, shared with another repository. *)
Definition shared_digest : string := "sha256:1".

Definition sample_upload (r : Uuid) (key : string) : CleanupKey :=
  {| cleanup_id := 1; cleanup_repo := r; upload_session_id := None; cleanup_key := key; cleanup_created_at := 0;
     storage_write_completed_at := None; last_registered_at := 0; claim_token := None; claim_expires_at := None;
     cleanup_pending_delete_at := None; last_error := None |}.

Definition two_repositories (l1 l2 : StorageLocation) : GcDb :=
  {| repositories := [{| repo_id := 1%N; location := l1 |}; {| repo_id := 2%N; location := l2 |}];
     artifacts := [sample_live 10%N 1%N "maven/g/a/1/a.jar"; sample_live 11%N 2%N "maven/g/b/1/b.jar"];
     artifact_versions := []; promotion_approvals := []; files_metadata := []; oci_tags := [];
     oci_blobs := [{| blob_repo := 2%N; blob_digest := shared_digest; blob_size := 1; blob_key := OCI_BLOB_STORAGE_PREFIX +:+ shared_digest;
                      blob_created_at := 0; blob_pending_delete_at := None |}];
     oci_manifest_refs := []; manifest_blob_refs := [];
     maven_flat_object_owner := [{| owner_backend := "s3"; owner_key := "maven/g/a/1/a.jar.sha1"; owner_repo := 1%N |};
                                 {| owner_backend := "s3"; owner_key := "maven/g/maven-metadata.xml"; owner_repo := 1%N |}];
     oci_gc_candidates := []; oci_upload_sessions := [{| session_id := 5%N; session_repo := 1%N; storage_temp_key := "oci-uploads/5" |}];
     oci_upload_parts := []; oci_upload_cleanup_keys := [sample_upload 1%N (OCI_BLOB_STORAGE_PREFIX +:+ shared_digest)] |}.

Definition two_world (l1 l2 : StorageLocation) : GcWorld :=
  {| db := two_repositories l1 l2;
     objects := list_to_set ((object_at l1 <$> ["maven/g/a/1/a.jar"; "maven/g/a/1/a.jar.sha1"; "maven/g/maven-metadata.xml"; "oci-uploads/5"]) ++
                             (object_at l2 <$> ["maven/g/b/1/b.jar"; OCI_BLOB_STORAGE_PREFIX +:+ shared_digest])) |}.

Definition sample_proxy : ProxyCache := {| proxy_location := sample_bucket; proxy_segment := Some "scope" |}.

Definition deleted_first (l1 l2 : StorageLocation) : GcWorld :=
  delete_repository_with_objects (H := sample_collation) sample_context (Some sample_proxy) 1%N "first" l1 (two_world l1 l2).

(** The file, its checksum and the upload go; the metadata of the directory in
    which the other repository has a file stays, and so does its blob. *)
Example delete_in_a_bucket :
  objects (deleted_first sample_bucket sample_bucket) =
  list_to_set (object_at sample_bucket <$> ["maven/g/maven-metadata.xml"; "maven/g/b/1/b.jar"; OCI_BLOB_STORAGE_PREFIX +:+ shared_digest]).
Proof. apply (bool_decide_unpack _). vm_compute. exact I. Qed.

(** A root is named after the key a repository was created with, and a rename
    leaves it: a new repository of the old key shares it.  Deleting the one
    deletes the blob of the other. *)
Definition shared_root : StorageLocation := {| backend := "filesystem"; path := "/data/first" |}.

Example shared_root_loses_blob :
  in_use (db (deleted_first shared_root shared_root)) shared_root (OCI_BLOB_STORAGE_PREFIX +:+ shared_digest) = true /\
  object_at shared_root (OCI_BLOB_STORAGE_PREFIX +:+ shared_digest) ∉ objects (deleted_first shared_root shared_root).
Proof. split; [vm_compute; reflexivity|]. apply (bool_decide_unpack _). vm_compute. exact I. Qed.

Lemma two_spaces : key_spaces (two_repositories sample_bucket sample_bucket).
Proof.
  split.
  - intros a [->|[->|[]%elem_of_nil]%elem_of_cons]%elem_of_cons; done.
  - intros r key. unfold upload_keys_of. rewrite elem_of_remove_dups, !elem_of_app.
    intros [Hk|[Hk|Hk]]; apply list_elem_of_fmap in Hk as (k & -> & [_ Hk]%list_elem_of_filter); try apply list_elem_of_singleton in Hk as ->; [done..|].
    by apply elem_of_nil in Hk.
  - intros o [->|[->|[]%elem_of_nil]%elem_of_cons]%elem_of_cons; done.
  - intros o l [->|[->|[]%elem_of_nil]%elem_of_cons]%elem_of_cons; by intros [= <-].
Qed.

Lemma two_locations r l key : stored_in (db (two_world sample_bucket sample_bucket)) l r = true -> object_at l key = object_at sample_bucket key.
Proof.
  intros Hs. destruct (repo_location (db (two_world sample_bucket sample_bucket)) r) as [own|] eqn:E; [|unfold stored_in in Hs; by rewrite E in Hs].
  rewrite (location_object _ _ own _ _ E Hs). unfold repo_location in E. cbn in E. by repeat case_bool_decide; simplify_eq/=.
Qed.

Lemma two_ok : catalog_ok (two_world sample_bucket sample_bucket).
Proof.
  split.
  - apply served_used. intros l key _ [a Ha <- Hd Hs|t Ht _ _|b Hb -> Hs|m t Hm _ _ _ _ _]; [|by apply elem_of_nil in Ht| |by apply elem_of_nil in Hm].
    + apply elem_of_cons in Ha as [->|[->|[]%elem_of_nil]%elem_of_cons];
        rewrite (two_locations _ _ _ Hs); apply (bool_decide_unpack _); vm_compute; exact I.
    + apply list_elem_of_singleton in Hb as ->. rewrite (two_locations _ _ _ Hs).
      apply (bool_decide_unpack _). vm_compute. exact I.
  - apply (bool_decide_unpack _). vm_compute. exact I.
Qed.


Lemma sweep_takes_revision_objects_witness :
  object_at sample_bucket "k/b" ∉ objects (fst (reclaim_orphan_key sample_context (sample_group "k/b" 1) (sample_world, empty_gc_result false))) /\
  candidate_is_still_referenced sample_db sample_bucket "k/b" = true.
Proof.
  destruct (sweep_takes_revision_objects sample_context (sample_group "k/b" 1) sample_world (empty_gc_result false)
    {| revision_repo := 2%N; revision_key := "k/b" |}) as ((_ & _ & H1) & _ & H2);
    [exact sample_quiet|vm_compute; reflexivity|reflexivity|left|reflexivity|reflexivity|]. by split.
Defined.

Lemma insert_races_reclaim_witness :
  ~ Served (fst (reclaim_checked sample_context (sample_group "k/a" 2)
    {| db := add_artifact (fun _ => true) (sample_live 13%N 1%N "k/a") (db sample_world); objects := objects sample_world |} (empty_gc_result false))).
Proof.
  destruct (insert_races_reclaim sample_context (sample_group "k/a" 2) sample_world (empty_gc_result false) (fun _ => true)
    (sample_live 13%N 1%N "k/a")) as (_ & _ & H); [exact sample_quiet|vm_compute; reflexivity|done..|exact H].
Defined.
