(* ===== verification/BlobGc.v ===== *)
(** The two-phase collection of OCI blobs ([run_blob_gc] and its phases in
    [services/storage_gc_service.rs]), the readiness gate and the backfill it
    depends on ([services/manifest_blob_refs_backfill.rs]), the tick of
    [services/scheduler_service.rs], and the pushes that write what it reads
    ([api/handlers/oci_v2.rs]).

    [content] is the manifest body stored under a digest: manifests are
    addressed by their content.  Left out: referrers, catalogue rows, quotas and
    authorization of a push. *)

From stdpp Require Import base list strings option gmap sets.
From Stdlib Require Import ZArith Lia.
From S2P Require Import Prelude RustStr Errors Chrono GcDb OciManifest StorageGc.

Local Open Scope Z_scope.
Local Open Scope string_scope.
Local Open Scope list_scope.
Local Open Scope result_scope.

(** * Orphan blobs *)

(** [BLOB_PROTECTED_BY_REFS_SQL]. *)
Definition protected_by_refs (d : GcDb) (r : StorageLocation) (digest : string) : bool :=
  existsb (fun mbr => (ref_blob mbr =? digest) && stored_in d r (ref_repo mbr)) (manifest_blob_refs d).

Definition blob_rows (d : GcDb) (repository_id : Uuid) (digest : string) : list OciBlob :=
  base.filter (fun b => blob_repo b = repository_id /\ blob_digest b = digest) (oci_blobs d).

Definition marked (b : OciBlob) : bool := match blob_pending_delete_at b with Some _ => true | None => false end.

Definition is_blob_still_orphan (d : GcDb) (repository_id : Uuid) (digest : string) (require_pending_mark : bool) : bool :=
  match repo_location d repository_id with
  | None => false
  | Some own =>
      let rows := base.filter (fun b => negb require_pending_mark || marked b = true) (blob_rows d repository_id digest) in
      negb (bool_decide (rows = [])) && forallb (fun b => negb (protected_by_refs d own (blob_digest b))) rows
  end.

(** A manifest that a tag names, or that an index a tag names has as a child. *)
Definition manifest_live (d : GcDb) (repository_id : Uuid) (digest : string) : bool :=
  existsb (fun ot => bool_decide (tag_repo ot = repository_id) && (tag_digest ot =? digest)) (oci_tags d) ||
  existsb (fun omr => bool_decide (child_repo omr = repository_id) && (child_digest omr =? digest) &&
    existsb (fun ot2 => bool_decide (tag_repo ot2 = child_repo omr) && (tag_digest ot2 =? parent_digest omr)) (oci_tags d))
    (oci_manifest_refs d).

Definition prune_orphan_blob_refs : GcDb -> GcDb :=
  fun d => set_blob_refs (base.filter (fun mbr => manifest_live d (ref_repo mbr) (ref_manifest mbr) = true)) d.

(** * Phases *)

Inductive BlobGcPhase := Mark | Sweep (grace_secs : Z).

Definition select_label (phase : BlobGcPhase) : string :=
  match phase with Mark => "select orphan blobs" | Sweep _ => "select pending-delete blobs" end.

Definition phase_filter (t : DateTime) (min_blob_age_secs : Z) (phase : BlobGcPhase) (ob : OciBlob) : bool :=
  match phase with
  | Mark => (blob_created_at ob <? t - min_blob_age_secs * NANOS_PER_SEC)%Z
  | Sweep grace_secs =>
      match blob_pending_delete_at ob with Some at_ => (at_ <? t - grace_secs * NANOS_PER_SEC)%Z | None => false end
  end.

(** A row of a candidate page. *)
Record OrphanBlob := { orphan_repo : Uuid; orphan_digest : string; orphan_size : Z; orphan_blob_key : string; orphan_at : StorageLocation }.

Definition orphan_blob (d : GcDb) (t : DateTime) (min_blob_age_secs : Z) (phase : BlobGcPhase) (ob : OciBlob) : option OrphanBlob :=
  r ← repo_location d (blob_repo ob);
  if phase_filter t min_blob_age_secs phase ob && negb (protected_by_refs d r (blob_digest ob))
  then Some {| orphan_repo := blob_repo ob; orphan_digest := blob_digest ob; orphan_size := blob_size ob;
               orphan_blob_key := blob_key ob; orphan_at := r |}
  else None.

(** An earlier mark keeps its time. *)
Definition mark_blob (t : DateTime) (b : OciBlob) : OciBlob :=
  {| blob_repo := blob_repo b; blob_digest := blob_digest b; blob_size := blob_size b; blob_key := blob_key b;
     blob_created_at := blob_created_at b;
     blob_pending_delete_at := match blob_pending_delete_at b with Some at_ => Some at_ | None => Some t end |}.

Definition unmark_blob (b : OciBlob) : OciBlob :=
  {| blob_repo := blob_repo b; blob_digest := blob_digest b; blob_size := blob_size b; blob_key := blob_key b;
     blob_created_at := blob_created_at b; blob_pending_delete_at := None |}.

Definition row_of (row : OrphanBlob) (b : OciBlob) : bool := bool_decide (blob_repo b = orphan_repo row) && (blob_digest b =? orphan_digest row).

Definition mark_orphan_blob (c : GcContext) (row : OrphanBlob) (wr : GcWorld * StorageGcResult) : GcWorld * StorageGcResult :=
  let '(w, r) := wr in
  let key := orphan_blob_key row in
  match gc_fails c BeginMark key with
  | Some e => (w, push_error "begin blob gc mark tx" key e r)
  | None =>
  match gc_fails c RecheckMark key with
  | Some e => (w, push_error "re-check blob orphan" key e r)
  | None =>
  if negb (is_blob_still_orphan (db w) (orphan_repo row) (orphan_digest row) false) then (w, r)
  else
  match gc_fails c MarkBlob key with
  | Some e => (w, push_error "mark blob pending delete" key e r)
  | None =>
  match gc_fails c CommitMark key with
  | Some e => (w, push_error "commit blob gc mark tx" key e r)
  | None =>
      let newly_marked := existsb (fun b => row_of row b && negb (marked b)) (oci_blobs (db w)) in
      ({| db := set_blobs (fmap (fun b => if row_of row b then mark_blob (now c) b else b)) (db w); objects := objects w |},
       if newly_marked then record_gc_success (orphan_size row) 1 r else r)
  end end end end.

Definition sweep_marked_blob (c : GcContext) (row : OrphanBlob) (wr : GcWorld * StorageGcResult) : GcWorld * StorageGcResult :=
  let '(w, r) := wr in
  let key := orphan_blob_key row in
  match storage_for_location c (orphan_at row) with
  | Some e => (w, push_error "resolve storage" key (error_text e) r)
  | None =>
  match gc_fails c BeginSweep key with
  | Some e => (w, push_error "begin blob gc sweep tx" key e r)
  | None =>
  match gc_fails c RecheckSweep key with
  | Some e => (w, push_error "re-check blob sweep" key e r)
  | None =>
  if negb (is_blob_still_orphan (db w) (orphan_repo row) (orphan_digest row) true) then (w, r)
  else
  match delete_object c (orphan_at row) key (objects w) with
  | (Some e, objs) => ({| db := db w; objects := objs |}, push_error "delete blob storage" key (error_text e) r)
  | (None, objs) =>
      match gc_fails c DeleteBlobRow key with
      | Some e => ({| db := db w; objects := objs |}, push_error "delete oci_blobs row" key e r)
      | None =>
          match gc_fails c CommitSweep key with
          | Some e => ({| db := db w; objects := objs |}, push_error "commit blob gc sweep tx" key e r)
          | None =>
              ({| db := set_blobs (base.filter (fun b => row_of row b && marked b = false)) (db w); objects := objs |},
               record_gc_success (orphan_size row) 1 r)
          end
      end
  end end end end.

(** * Passes *)

Section Passes.
Context `{Collation}.

(** [(repository_id, digest)]. *)
Notation BlobCursor := (Uuid * string)%type.

Definition compare_cursors : BlobCursor -> BlobCursor -> comparison := lex (cmp_on fst N.compare) (cmp_on snd collate).

Definition blob_cursor (row : OrphanBlob) : BlobCursor := (orphan_repo row, orphan_digest row).

Definition default_blob_cursor : BlobCursor := (0%N, "").

Definition blob_candidates (t : DateTime) (min_blob_age_secs : Z) (phase : BlobGcPhase) (d : GcDb) : list OrphanBlob :=
  sort_by (cmp_on blob_cursor compare_cursors) (omap (orphan_blob d t min_blob_age_secs phase) (oci_blobs d)).

Definition after_blob (cursor : BlobCursor) (row : OrphanBlob) : bool :=
  match compare_cursors (blob_cursor row) cursor with Gt => true | _ => false end.

Definition select_blob_phase_page (c : GcContext) (min_blob_age_secs : Z) (phase : BlobGcPhase) (page_size : nat)
  (cursor : BlobCursor) (w : GcWorld) : result AppError (list OrphanBlob) :=
  match gc_fails c SelectBlobs (snd cursor) with
  | Some e => Err (Database e)
  | None => Ok (take page_size (base.filter (fun row => after_blob cursor row = true)
                                  (blob_candidates (now c) min_blob_age_secs phase (db w))))
  end.

Definition blob_gc_row (c : GcContext) (phase : BlobGcPhase) (row : OrphanBlob) (wr : GcWorld * StorageGcResult) : GcWorld * StorageGcResult :=
  match phase with Mark => mark_orphan_blob c row wr | Sweep _ => sweep_marked_blob c row wr end.

Definition blob_gc_page (c : GcContext) (phase : BlobGcPhase) (dry : bool) (page : list OrphanBlob) (wr : GcWorld * StorageGcResult)
  : GcWorld * StorageGcResult :=
  if dry then (wr.1, foldl (fun r row => record_gc_success (orphan_size row) 1 r) wr.2 page)
  else foldl (fun wr row => blob_gc_row c phase row wr) wr page.

(** A failing first scan leaves the tables as they were. *)
Definition run_blob_gc_phase (c : GcContext) (min_blob_age_secs : Z) (phase : BlobGcPhase) (dry : bool) (page_size : nat) (w : GcWorld)
  : option (GcWorld * result AppError StorageGcResult) :=
  match
    walk_pages (S (length (blob_candidates (now c) min_blob_age_secs phase (db w)))) (select_label phase)
      (select_blob_phase_page c min_blob_age_secs phase page_size) (blob_gc_page c phase dry) blob_cursor page_size true
      default_blob_cursor (w, empty_gc_result dry)
  with
  | Some (Ok (w, r)) => Some (w, Ok r)
  | Some (Err e) => Some (w, Err e)
  | None => None
  end.

(** A failing prune is only logged. *)
Definition run_blob_gc_mark (c : GcContext) (min_blob_age_secs : Z) (dry : bool) (page_size : nat) (w : GcWorld) :=
  let w := if dry then w
           else match gc_fails c PruneRefs "" with
                | Some _ => w
                | None => {| db := prune_orphan_blob_refs (db w); objects := objects w |}
                end in
  run_blob_gc_phase c min_blob_age_secs Mark dry page_size w.

Definition run_blob_gc_sweep (c : GcContext) (min_blob_age_secs : Z) (grace_secs : Z) (dry : bool) (page_size : nat) (w : GcWorld) :=
  run_blob_gc_phase c min_blob_age_secs (Sweep grace_secs) dry page_size w.

Definition add_errors (es : list string) (r : StorageGcResult) : StorageGcResult :=
  {| dry_run := dry_run r; storage_keys_deleted := storage_keys_deleted r; artifacts_removed := artifacts_removed r;
     bytes_freed := bytes_freed r; errors := errors r ++ es |}.

(** The two phases back to back, each at its own time. *)
Definition run_blob_gc (c c' : GcContext) (min_blob_age_secs : Z) (dry : bool) (page_size : nat) (w : GcWorld)
  : option (GcWorld * result AppError StorageGcResult) :=
  if dry then run_blob_gc_mark c min_blob_age_secs true page_size w
  else
    match run_blob_gc_mark c min_blob_age_secs false page_size w with
    | Some (w, Ok mark) =>
        match run_blob_gc_sweep c' min_blob_age_secs 0 false page_size w with
        | Some (w, Ok r) => Some (w, Ok (add_errors (errors mark) r))
        | other => other
        end
    | other => other
    end.

End Passes.

(** * What a push writes *)

(** [INSERT INTO oci_blobs .. ON CONFLICT (repository_id, digest) DO UPDATE SET
    pending_delete_at = NULL]: a row that exists keeps its age. *)
Definition commit_blob (t : DateTime) (repository_id : Uuid) (digest : string) (size : Z) (key : string) (d : GcDb) : GcDb :=
  let mine b := bool_decide (blob_repo b = repository_id) && (blob_digest b =? digest) in
  if existsb mine (oci_blobs d) then set_blobs (fmap (fun b => if mine b then unmark_blob b else b)) d
  else set_blobs (fun rows => rows ++ [{| blob_repo := repository_id; blob_digest := digest; blob_size := size; blob_key := key;
                                          blob_created_at := t; blob_pending_delete_at := None |}]) d.

(** What [HEAD] answers from the tables and the storage: the client then skips
    the upload. *)
Definition head_blob (w : GcWorld) (repository_id : Uuid) (digest : string) : bool :=
  match List.find (fun b => bool_decide (blob_repo b = repository_id) && (blob_digest b =? digest)) (oci_blobs (db w)),
        repo_location (db w) repository_id with
  | Some b, Some l => bool_decide (object_at l (blob_key b) ∈ objects w)
  | _, _ => false
  end.

Definition upsert_tag (repository_id : Uuid) (name tag digest media_type : string) (d : GcDb) : GcDb :=
  let row := {| tag_repo := repository_id; tag_name := name; tag_ref := tag; tag_digest := digest; tag_media_type := media_type |} in
  let mine t := bool_decide (tag_repo t = repository_id) && (tag_name t =? name) && (tag_ref t =? tag) in
  if existsb mine (oci_tags d) then set_tags (fmap (fun t => if mine t then row else t)) d
  else set_tags (fun rows => rows ++ [row]) d.

(** [ON CONFLICT DO NOTHING], one row at a time. *)
Definition insert_child (repository_id : Uuid) (parent : string) (d : GcDb) (child : string) : GcDb :=
  if existsb (fun m => bool_decide (child_repo m = repository_id) && (parent_digest m =? parent) && (child_digest m =? child)) (oci_manifest_refs d)
  then d
  else set_children (fun rows => rows ++ [{| child_repo := repository_id; parent_digest := parent; child_digest := child |}]) d.

Definition insert_blob_ref (repository_id : Uuid) (manifest : string) (d : GcDb) (edge : string * string) : GcDb :=
  if existsb (fun m => bool_decide (ref_repo m = repository_id) && (ref_manifest m =? manifest) && (ref_blob m =? edge.1)) (manifest_blob_refs d)
  then d
  else set_blob_refs (fun rows => rows ++ [{| ref_repo := repository_id; ref_manifest := manifest; ref_blob := edge.1; ref_kind := edge.2 |}]) d.

Definition clear_marks (repository_id : Uuid) (digests : list string) (d : GcDb) : GcDb :=
  set_blobs (fmap (fun b => if bool_decide (blob_repo b = repository_id) && one_of (blob_digest b) digests then unmark_blob b else b)) d.

Section Content.
Context `{ManifestCodec} (content : string -> string).

Definition record_manifest_blob_refs (repository_id : Uuid) (manifest : string) (d : GcDb) : GcDb :=
  foldl (insert_blob_ref repository_id manifest) d (extract_blob_refs (content manifest)).

Definition persist_tag_and_refs (repository_id : Uuid) (name tag manifest media_type : string) (class : ManifestClass) (d : GcDb) : GcDb :=
  let d := upsert_tag repository_id name tag manifest media_type d in
  match class with
  | Index => foldl (insert_child repository_id manifest) d (extract_child_digests (content manifest))
  | Image =>
      record_manifest_blob_refs repository_id manifest
        (clear_marks repository_id (fst <$> extract_blob_refs (content manifest)) d)
  | Malformed => d
  end.

(** The manifest's artifact row, one per path; [i] is a fresh id, and
    [artifacts_deleted_at_stamp] clears the time of a row that comes back. *)
Definition upsert_manifest_artifact (i : Uuid) (repository_id : Uuid) (name tag manifest media_type : string) (size : Z) (d : GcDb) : GcDb :=
  let path := "v2/" +:+ name +:+ "/manifests/" +:+ tag in
  let row i := {| artifact_id := i; artifact_repo := repository_id; artifact_path := path;
                  storage_key := OCI_MANIFEST_STORAGE_PREFIX +:+ manifest; size_bytes := size;
                  artifact_content_type := media_type; is_deleted := false; deleted_at := None |} in
  let mine a := bool_decide (artifact_repo a = repository_id) && (artifact_path a =? path) in
  if existsb mine (artifacts d) then set_artifacts (fmap (fun a => if mine a then row (artifact_id a) else a)) d
  else set_artifacts (fun rows => rows ++ [row i]) d.

(** The transaction of a manifest push, after [handle_put_manifest] has
    classified the body and derived its media type; a malformed body is
    refused. *)
Definition put_manifest (i : Uuid) (repository_id : Uuid) (name tag manifest header : string) (size : Z) (d : GcDb) : option GcDb :=
  match classify_manifest (content manifest) with
  | Malformed => None
  | class =>
      let media_type := stored_media_type_for class header in
      Some (upsert_manifest_artifact i repository_id name tag manifest media_type size
              (persist_tag_and_refs repository_id name tag manifest media_type class d))
  end.

(** * The readiness gate *)

Definition INDEX_MEDIA_TYPES : list string :=
  ["application/vnd.oci.image.index.v1+json"; "application/vnd.docker.distribution.manifest.list.v2+json"].

(** The digest is the parent of no edge of the repository. *)
Definition childless (d : GcDb) (repository_id : Uuid) (digest : string) : bool :=
  negb (existsb (fun omr => bool_decide (child_repo omr = repository_id) && (parent_digest omr =? digest)) (oci_manifest_refs d)).

(** [LIVE_IMAGE_MANIFEST_SET_SQL]. *)
Definition live_image_manifests (d : GcDb) : list (string * Uuid) :=
  remove_dups (
    omap (fun ot => if negb (one_of (tag_media_type ot) INDEX_MEDIA_TYPES) && childless d (tag_repo ot) (tag_digest ot)
                    then Some (tag_digest ot, tag_repo ot) else None) (oci_tags d) ++
    omap (fun omr =>
      if existsb (fun ot => bool_decide (tag_repo ot = child_repo omr) && (tag_digest ot =? parent_digest omr)) (oci_tags d) &&
         existsb (fun a => bool_decide (artifact_repo a = child_repo omr) &&
                           (storage_key a =? OCI_MANIFEST_STORAGE_PREFIX +:+ child_digest omr) && negb (is_deleted a) &&
                           negb (one_of (artifact_content_type a) INDEX_MEDIA_TYPES)) (artifacts d) &&
         childless d (child_repo omr) (child_digest omr)
      then Some (child_digest omr, child_repo omr) else None) (oci_manifest_refs d)).

Definition has_refs (d : GcDb) (u : string * Uuid) : bool :=
  existsb (fun mbr => (ref_manifest mbr =? u.1) && bool_decide (ref_repo mbr = u.2)) (manifest_blob_refs d).

Definition unbackfilled_live_manifests (d : GcDb) : list (string * Uuid) :=
  base.filter (fun u => has_refs d u = false) (live_image_manifests d).

Definition any_live_manifest_missing_refs (d : GcDb) : bool := negb (bool_decide (unbackfilled_live_manifests d = [])).

(** ** The backfill *)

Definition MAX_IMAGE_MANIFEST_BYTES : Z := 4 * 1024 * 1024.

(** One candidate: a body that cannot be read, or is too large, is skipped. *)
Definition process_candidate (c : GcContext) (readable : Object -> bool) (objs : Objects) (d : GcDb) (u : string * Uuid) : GcDb :=
  match repo_location d u.2 with
  | None => d
  | Some l =>
      match storage_for_location c l with
      | Some _ => d
      | None =>
          let o := object_at l (OCI_MANIFEST_STORAGE_PREFIX +:+ u.1) in
          if bool_decide (o ∈ objs) && readable o && (Z.of_nat (String.length (content u.1)) <=? MAX_IMAGE_MANIFEST_BYTES)%Z &&
             bool_decide (gc_fails c InsertRefs u.1 = None)
          then record_manifest_blob_refs u.2 u.1 d else d
      end
  end.

(** [JOIN repositories]: a candidate of a repository that is gone is none. *)
Definition run_backfill (c : GcContext) (readable : Object -> bool) (w : GcWorld) : GcWorld :=
  {| db := foldl (process_candidate c readable (objects w)) (db w) (unbackfilled_live_manifests (db w)); objects := objects w |}.

(** * The tick of the scheduler *)

(** The two phases at their times, each skipped once the lease is lost; a
    failing gate forces a dry run. *)
Definition blob_gc_tick `{Collation} (c c' : GcContext) (blob_gc_enabled gate_fails lost lost' : bool) (min_blob_age_secs grace_secs : Z)
  (page_size : nat) (w : GcWorld) : option GcWorld :=
  let dry := negb blob_gc_enabled || gate_fails || any_live_manifest_missing_refs (db w) in
  if lost then Some w
  else
    match run_blob_gc_mark c min_blob_age_secs dry page_size w with
    | None => None
    | Some (w, _) =>
        if lost' then Some w
        else fst <$> run_blob_gc_sweep c' min_blob_age_secs grace_secs dry page_size w
    end.

End Content.
