(* ===== verification/BlobGcFacts.v ===== *)
(** What blob collection promises: no tick deletes a blob of a live image,
    whatever fails; a pass without failures reclaims exactly the orphans; how
    the readiness gate closes; and what a sweep takes from a push that is under
    way. *)

From stdpp Require Import base list strings option gmap sets relations sorting.
From Stdlib Require Import ZArith Lia Sorted.
From S2P Require Import Prelude RustStr Errors Chrono GcDb OciManifest StorageGc Trash StorageGcFacts TrashFacts BlobGc.

Local Open Scope Z_scope.
Local Open Scope string_scope.
Local Open Scope list_scope.
Local Open Scope result_scope.

(** * Tables a pass leaves alone *)

Definition same_refs (d d' : GcDb) : Prop :=
  repositories d' = repositories d /\ manifest_blob_refs d' = manifest_blob_refs d.

Lemma same_refs_location d d' r : same_refs d d' -> repo_location d' r = repo_location d r.
Proof. intros [E _]. unfold repo_location. by rewrite E. Qed.

Lemma same_refs_stored d d' l r : same_refs d d' -> stored_in d' l r = stored_in d l r.
Proof. intros E. unfold stored_in. by rewrite (same_refs_location _ _ _ E). Qed.

Lemma same_refs_protected d d' l dg : same_refs d d' -> protected_by_refs d' l dg = protected_by_refs d l dg.
Proof.
  intros Hs. unfold protected_by_refs. destruct Hs as [Hr Hm]. rewrite Hm. apply existsb_ext_in. intros m _.
  by rewrite (same_refs_stored d d').
Qed.

Lemma protected_true d l dg : protected_by_refs d l dg = true <->
  exists m, m ∈ manifest_blob_refs d /\ ref_blob m = dg /\ stored_in d l (ref_repo m) = true.
Proof.
  unfold protected_by_refs. rewrite existsb_true. setoid_rewrite andb_true_iff. by setoid_rewrite String.eqb_eq.
Qed.

Lemma protected_scope d a b dg : same_storage a b = true -> protected_by_refs d a dg = protected_by_refs d b dg.
Proof. intros E. apply existsb_ext_in. intros m _. by rewrite (stored_in_scope d a b _ E). Qed.

(** * Well-formed tables *)

Definition blob_id (b : OciBlob) : Uuid * string := (blob_repo b, blob_digest b).

(** A digest has one row per repository, stored under the key of the digest. *)
Record blobs_ok (d : GcDb) : Prop := {
  blob_ids : NoDup (blob_id <$> oci_blobs d);
  blob_keys : forall b, b ∈ oci_blobs d -> blob_key b = OCI_BLOB_STORAGE_PREFIX +:+ blob_digest b
}.

(** The row of a candidate page, read from tables that are well formed. *)
Definition orphan_ok (d : GcDb) (row : OrphanBlob) : Prop :=
  repo_location d (orphan_repo row) = Some (orphan_at row) /\ orphan_blob_key row = OCI_BLOB_STORAGE_PREFIX +:+ orphan_digest row.

Lemma same_refs_orphan_ok d d' row : same_refs d d' -> orphan_ok d row -> orphan_ok d' row.
Proof. intros Hs [Hl Hk]. split; [|done]. by rewrite (same_refs_location d d'). Qed.

Lemma still_orphan_unprotected d row pending : orphan_ok d row ->
  is_blob_still_orphan d (orphan_repo row) (orphan_digest row) pending = true -> protected_by_refs d (orphan_at row) (orphan_digest row) = false.
Proof.
  intros [Hl _]. unfold is_blob_still_orphan. rewrite Hl. set (rows := base.filter _ _). intros [Hne Hall]%andb_true_iff.
  destruct rows as [|b rest] eqn:E; [done|]. simpl in Hall. apply andb_true_iff in Hall as [Hb _].
  assert (b ∈ rows) as Hin by (rewrite E; left). unfold rows, blob_rows in Hin.
  apply list_elem_of_filter in Hin as [_ Hin]. apply list_elem_of_filter in Hin as [[_ <-] _]. by apply negb_true_iff.
Qed.

(** * One row *)

(** A step keeps a blob that some manifest refers to: its object and its rows. *)
Definition keeps_blobs (d : GcDb) (w w' : GcWorld) : Prop :=
  forall l dg, protected_by_refs d l dg = true ->
    (object_at l (OCI_BLOB_STORAGE_PREFIX +:+ dg) ∈ objects w -> object_at l (OCI_BLOB_STORAGE_PREFIX +:+ dg) ∈ objects w') /\
    (forall b, b ∈ oci_blobs (db w) -> blob_digest b = dg -> stored_in d l (blob_repo b) = true -> b ∈ oci_blobs (db w')).

Lemma keeps_blobs_refl d w : keeps_blobs d w w.
Proof. by intros l dg _. Qed.

Lemma keeps_blobs_trans d w1 w2 w3 : keeps_blobs d w1 w2 -> keeps_blobs d w2 w3 -> keeps_blobs d w1 w3.
Proof. intros H1 H2 l dg Hp. destruct (H1 l dg Hp) as [O1 B1], (H2 l dg Hp) as [O2 B2]. split; [by auto|eauto]. Qed.

(** What a pass keeps up to date. *)
Record pass_inv (d : GcDb) (w0 w : GcWorld) : Prop := {
  inv_refs : same_refs d (db w);
  inv_ok : blobs_ok (db w);
  inv_kept : keeps_blobs d w0 w
}.

Lemma row_of_true row b : row_of row b = true <-> blob_repo b = orphan_repo row /\ blob_digest b = orphan_digest row.
Proof. unfold row_of. by rewrite andb_true_iff, bool_decide_eq_true, String.eqb_eq. Qed.

Lemma unprotected_other d l row b : orphan_ok d row -> protected_by_refs d (orphan_at row) (orphan_digest row) = false ->
  protected_by_refs d l (blob_digest b) = true -> stored_in d l (blob_repo b) = true -> row_of row b = false.
Proof.
  intros [Hl _] Hu Hp Hs. apply not_true_iff_false. intros [Hr Hd]%row_of_true. rewrite Hd in Hp. rewrite Hr in Hs.
  unfold stored_in in Hs. rewrite Hl in Hs. rewrite <- (protected_scope d (orphan_at row) l) in Hp by done. congruence.
Qed.

Lemma mark_cases c row w r w' r' : mark_orphan_blob c row (w, r) = (w', r') ->
  objects w' = objects w /\
  (db w' = db w \/
   is_blob_still_orphan (db w) (orphan_repo row) (orphan_digest row) false = true /\
   db w' = set_blobs (fmap (fun b => if row_of row b then mark_blob (now c) b else b)) (db w)).
Proof.
  unfold mark_orphan_blob. do 2 (case_match; [intros [= <- <-]; by split; [|left]|]).
  destruct (is_blob_still_orphan _ _ _ _) eqn:Eo; cbn [negb]; [|intros [= <- <-]; by split; [|left]].
  do 2 (case_match; [intros [= <- <-]; by split; [|left]|]). intros [= <- <-]. split; [done|]. by right.
Qed.

Lemma sweep_cases c row w r w' r' : sweep_marked_blob c row (w, r) = (w', r') ->
  w' = w \/
  is_blob_still_orphan (db w) (orphan_repo row) (orphan_digest row) true = true /\
  objects w' = snd (delete_object c (orphan_at row) (orphan_blob_key row) (objects w)) /\
  (db w' = db w \/
   storage_for_location c (orphan_at row) = None /\ gc_fails c BeginSweep (orphan_blob_key row) = None /\
   gc_fails c RecheckSweep (orphan_blob_key row) = None /\
   db w' = set_blobs (base.filter (fun b => row_of row b && marked b = false)) (db w)).
Proof.
  unfold sweep_marked_blob. do 3 (case_match; [intros [= <- <-]; by left|]).
  destruct (is_blob_still_orphan _ _ _ _) eqn:Eo; cbn [negb]; [|intros [= <- <-]; by left].
  destruct (delete_object _ _ _ _) as [[e|] objs]; cbn [snd]; [intros [= <- <-]; right; split_and!; [done|done|by left]|].
  do 2 (case_match; [intros [= <- <-]; right; split_and!; [done|done|by left]|]).
  intros [= <- <-]. right. split_and!; [done|done|by right].
Qed.

Lemma blob_id_mark t b : blob_id (mark_blob t b) = blob_id b.
Proof. done. Qed.

Lemma blobs_ok_map d (f : OciBlob -> OciBlob) : (forall b, blob_id (f b) = blob_id b /\ blob_key (f b) = blob_key b) ->
  blobs_ok d -> blobs_ok (set_blobs (fmap f) d).
Proof.
  intros Hf [Hn Hk]. split; cbn [oci_blobs set_blobs].
  - rewrite <- list_fmap_compose. erewrite list_fmap_ext; [exact Hn|]. intros _ b _. apply Hf.
  - intros b (b0 & -> & Hb)%list_elem_of_fmap. destruct (Hf b0) as [[= _ E] ->]. rewrite E. by apply Hk.
Qed.

Lemma blobs_ok_filter d (P : OciBlob -> Prop) `{!forall b, Decision (P b)} : blobs_ok d -> blobs_ok (set_blobs (base.filter P) d).
Proof.
  intros [Hn Hk]. split; cbn [oci_blobs set_blobs].
  - eapply sublist_NoDup; [exact Hn|]. apply fmap_sublist, sublist_filter.
  - intros b [_ Hb]%list_elem_of_filter. by apply Hk.
Qed.

Lemma mark_keeps d w0 c row w r : orphan_ok d row -> pass_inv d w0 w -> pass_inv d w0 (fst (mark_orphan_blob c row (w, r))).
Proof.
  intros Hrow [Hs Hok Hk]. destruct (mark_orphan_blob c row (w, r)) as [w' r'] eqn:E. cbn [fst].
  apply mark_cases in E as [Ho [Hd|[Horph Hd]]].
  { split; [by rewrite Hd|by rewrite Hd|]. apply (keeps_blobs_trans d w0 w w' Hk). intros l dg _. by rewrite Ho, Hd. }
  pose proof (still_orphan_unprotected (db w) row false (same_refs_orphan_ok _ _ _ Hs Hrow) Horph) as Hu.
  rewrite (same_refs_protected d) in Hu by done. split.
  - by rewrite Hd.
  - rewrite Hd. apply blobs_ok_map; [|done]. intros b. by case_match.
  - apply (keeps_blobs_trans d w0 w w' Hk). intros l dg Hp. rewrite Ho. split; [done|]. intros b Hb <- Hst. rewrite Hd.
    cbn [oci_blobs set_blobs]. apply list_elem_of_fmap. exists b. split; [|done].
    by rewrite (unprotected_other d l row b Hrow Hu Hp Hst).
Qed.

Lemma sweep_keeps d w0 c row w r : orphan_ok d row -> pass_inv d w0 w -> pass_inv d w0 (fst (sweep_marked_blob c row (w, r))).
Proof.
  intros Hrow [Hs Hok Hk]. destruct (sweep_marked_blob c row (w, r)) as [w' r'] eqn:E. cbn [fst].
  apply sweep_cases in E as [->|(Horph & Ho & Hd)]; [done|].
  pose proof (still_orphan_unprotected (db w) row true (same_refs_orphan_ok _ _ _ Hs Hrow) Horph) as Hu.
  rewrite (same_refs_protected d) in Hu by done.
  assert (forall l dg, protected_by_refs d l dg = true -> object_at l (OCI_BLOB_STORAGE_PREFIX +:+ dg) ∈ objects w ->
    object_at l (OCI_BLOB_STORAGE_PREFIX +:+ dg) ∈ objects w') as Hobj.
  { intros l dg Hp Hin. rewrite Ho. unfold delete_object. destruct (undeletable c _); [done|]. cbn [snd]. apply elem_of_difference.
    split; [done|]. intros [Hst Hkey]%elem_of_singleton%object_at_eq. destruct Hrow as [_ Hrk]. rewrite Hrk in Hkey.
    apply append_inj_l in Hkey. subst dg. rewrite (protected_scope d l (orphan_at row)) in Hp by done. congruence. }
  destruct Hd as [Hd|(_ & _ & _ & Hd)].
  - split; [by rewrite Hd|by rewrite Hd|]. apply (keeps_blobs_trans d w0 w w' Hk). intros l dg Hp. rewrite Hd. split; [by apply Hobj|done].
  - split; [by rewrite Hd|rewrite Hd; by apply blobs_ok_filter|]. apply (keeps_blobs_trans d w0 w w' Hk). intros l dg Hp. split; [by apply Hobj|].
    intros b Hb <- Hst. rewrite Hd. cbn [oci_blobs set_blobs]. apply list_elem_of_filter. split; [|done].
    by rewrite (unprotected_other d l row b Hrow Hu Hp Hst).
Qed.

(** * One phase *)

Section Phase.
Context `{Collation}.

#[local] Instance compare_cursors_preorder : TotalPreorder compare_cursors.
Proof. unfold compare_cursors. apply _. Qed.

Lemma compare_cursors_eq a b : compare_cursors a b = Eq -> a = b.
Proof.
  destruct a as [r s], b as [r' s']. unfold compare_cursors, lex, cmp_on. simpl.
  destruct (N.compare r r') eqn:E1; [|done|done]. intros E2. apply N.compare_eq in E1. apply (to_eq collate) in E2. by subst.
Qed.

Lemma elem_of_blob_candidates t age phase d row : row ∈ blob_candidates t age phase d <->
  exists b, b ∈ oci_blobs d /\ orphan_blob d t age phase b = Some row.
Proof. unfold blob_candidates. by rewrite sort_by_perm, list_elem_of_omap. Qed.

Lemma orphan_blob_row d t age phase b row : orphan_blob d t age phase b = Some row ->
  repo_location d (blob_repo b) = Some (orphan_at row) /\ orphan_repo row = blob_repo b /\ orphan_digest row = blob_digest b /\
  orphan_blob_key row = blob_key b /\ phase_filter t age phase b = true /\ protected_by_refs d (orphan_at row) (blob_digest b) = false.
Proof.
  unfold orphan_blob. destruct (repo_location d (blob_repo b)) as [l|]; [|done]. simpl.
  destruct (phase_filter t age phase b); [|done]. simpl. destruct (protected_by_refs d l (blob_digest b)) eqn:Ep; [done|].
  by intros [= <-].
Qed.

Lemma candidate_ok t age phase d row : blobs_ok d -> row ∈ blob_candidates t age phase d -> orphan_ok d row.
Proof.
  intros [_ Hk] (b & Hb & (Hl & Hr & Hd & Hkey & _)%orphan_blob_row)%elem_of_blob_candidates. split; [by rewrite Hr|].
  rewrite Hkey, Hd. by apply Hk.
Qed.

Lemma candidates_sorted t age phase d : blobs_ok d -> StronglySorted (walk_before compare_cursors blob_cursor) (blob_candidates t age phase d).
Proof.
  intros [Hn _]. unfold blob_candidates. set (rows := omap _ _).
  assert (NoDup (blob_cursor <$> rows)) as Hnd.
  { unfold rows. clear rows. induction (oci_blobs d) as [|b bs IH]; [constructor|].
    rewrite fmap_cons in Hn. apply NoDup_cons in Hn as [Hb Hn]. simpl.
    destruct (orphan_blob d t age phase b) as [row|] eqn:E; [|by apply IH].
    rewrite fmap_cons. apply NoDup_cons. split; [|by apply IH]. intros (row' & Hc & Hin)%list_elem_of_fmap.
    apply list_elem_of_omap in Hin as (b' & Hb' & E'). apply Hb. apply list_elem_of_fmap. exists b'. split; [|done].
    apply orphan_blob_row in E as (_ & Er & Ed & _), E' as (_ & Er' & Ed' & _). unfold blob_cursor in Hc. unfold blob_id. congruence. }
  assert (sorted_by (cmp_on blob_cursor compare_cursors) (sort_by (cmp_on blob_cursor compare_cursors) rows)) as Hs by (apply sort_by_sorted; apply _).
  assert (NoDup (blob_cursor <$> sort_by (cmp_on blob_cursor compare_cursors) rows)) as Hnd' by (by rewrite sort_by_perm).
  revert Hs Hnd'. generalize (sort_by (cmp_on blob_cursor compare_cursors) rows) as k. clear.
  induction k as [|x k IH]; intros Hs Hn; [constructor|]. destruct Hs as [Hx Hs]. rewrite fmap_cons in Hn. apply NoDup_cons in Hn as [Hnx Hn].
  constructor; [by apply IH|]. apply Forall_forall. intros y Hy. unfold walk_before. apply (tp_gt_lt compare_cursors).
  specialize (Hx y Hy). unfold cmp_on in Hx. destruct (compare_cursors (blob_cursor x) (blob_cursor y)) eqn:E; [|done|done].
  apply compare_cursors_eq in E. destruct Hnx. rewrite E. by apply list_elem_of_fmap_2.
Qed.

Lemma blob_gc_page_cons c phase dry row page wr :
  blob_gc_page c phase dry (row :: page) wr = blob_gc_page c phase dry page (blob_gc_page c phase dry [row] wr).
Proof. unfold blob_gc_page. by destruct dry. Qed.

Lemma blob_gc_page_app c phase dry page rest wr :
  blob_gc_page c phase dry (page ++ rest) wr = blob_gc_page c phase dry rest (blob_gc_page c phase dry page wr).
Proof. unfold blob_gc_page. by destruct dry; rewrite foldl_app. Qed.

Lemma page_keeps d w0 c phase dry page : (forall row, row ∈ page -> orphan_ok d row) -> forall wr,
  pass_inv d w0 wr.1 -> pass_inv d w0 (blob_gc_page c phase dry page wr).1.
Proof.
  intros Hp wr Hi. destruct dry; [done|]. revert wr Hi. induction page as [|row page IH]; intros [w r] Hi; [done|].
  cbn [blob_gc_page foldl]. apply IH; [intros; apply Hp; by right|]. pose proof (Hp row ltac:(left)) as Hrow.
  destruct phase; cbn [blob_gc_row]; [by apply mark_keeps|by apply sweep_keeps].
Qed.

Lemma select_page c age phase n cursor w page : select_blob_phase_page c age phase n cursor w = Ok page ->
  page = take n (base.filter (fun row => walk_after compare_cursors blob_cursor cursor row = true) (blob_candidates (now c) age phase (db w))).
Proof. unfold select_blob_phase_page. destruct (gc_fails c SelectBlobs _); [done|]. by intros [= <-]. Qed.

(** A phase keeps the blobs that manifests refer to, whatever fails. *)
Lemma phase_keeps d w0 c age phase dry n w w' res : pass_inv d w0 w -> run_blob_gc_phase c age phase dry n w = Some (w', res) ->
  pass_inv d w0 w'.
Proof.
  intros Hi. unfold run_blob_gc_phase. destruct (walk_pages _ _ _ _ _ _ _ _ _) as [[[w1 r]|e]|] eqn:E; intros [= <- <-]; [|done].
  apply (walk_pages_keeps (pass_inv d w0)) in E; [done| |done]. intros cursor s page r0 Hs Hsel. apply page_keeps; [|done].
  intros row Hin. apply select_page in Hsel as ->. apply elem_of_take in Hin as (i & Hin & _). apply list_elem_of_lookup_2 in Hin.
  apply list_elem_of_filter in Hin as [_ Hin]. destruct Hs as [Hr Hok _]. apply (same_refs_orphan_ok (db s)); [|by eapply candidate_ok].
  destruct Hr. by split.
Qed.

(** ** Rows that are gone *)

Definition blob_gone (c : GcContext) (w : GcWorld) (row : OrphanBlob) : Prop :=
  storage_for_location c (orphan_at row) = None /\ gc_fails c BeginSweep (orphan_blob_key row) = None /\
  gc_fails c RecheckSweep (orphan_blob_key row) = None /\ forall b, b ∈ oci_blobs (db w) -> row_of row b = true -> marked b = false.

Lemma gone_not_orphan c w row : blob_gone c w row -> is_blob_still_orphan (db w) (orphan_repo row) (orphan_digest row) true = false.
Proof.
  intros (_ & _ & _ & Hn). unfold is_blob_still_orphan. destruct (repo_location _ _); [|done].
  rewrite (filter_none (fun b => negb true || marked b = true)); [done|]. intros b Hb. simpl. unfold blob_rows in Hb. apply list_elem_of_filter in Hb as [[Hr Hd] Hb].
  rewrite (Hn b Hb); [done|]. by apply row_of_true.
Qed.

Lemma sweep_gone c w r row : blob_gone c w row -> sweep_marked_blob c row (w, r) = (w, r).
Proof.
  intros Hg. pose proof (gone_not_orphan _ _ _ Hg) as Ho. destruct Hg as (E1 & E2 & E3 & _). unfold sweep_marked_blob. by rewrite E1, E2, E3, Ho.
Qed.

Lemma sweep_gone_kept c w r row row' : blob_gone c w row' -> blob_gone c (fst (sweep_marked_blob c row (w, r))) row'.
Proof.
  intros (E1 & E2 & E3 & Hn). destruct (sweep_marked_blob c row (w, r)) as [w' r'] eqn:E. cbn [fst].
  apply sweep_cases in E as [->|(_ & _ & [Hd|(_ & _ & _ & Hd)])]; split_and!; try done; rewrite Hd; [done|].
  intros b [_ Hb]%list_elem_of_filter. by apply Hn.
Qed.

Lemma row_candidate d t age phase b row : orphan_blob d t age phase b = Some row -> row_of row b = true.
Proof. intros (_ & Hr & Hd & _)%orphan_blob_row. by apply row_of_true. Qed.

Lemma omap_fmap_same {A B} (f : A -> option B) (g : A -> A) (l : list A) : (forall x, f (g x) = f x) -> omap f (g <$> l) = omap f l.
Proof.
  intros Hf. induction l as [|x l IH]; [done|]. rewrite fmap_cons. cbn [omap list_omap]. rewrite Hf.
  destruct (f x); [f_equal|]; exact IH.
Qed.

(** The candidates of a phase after one row: marking changes none of the
    marking phase; sweeping takes away candidates whose rows are gone. *)
Lemma row_removes c age phase row wr : blobs_ok (db wr.1) -> orphan_ok (db wr.1) row -> exists keep : OrphanBlob -> bool,
  blob_candidates (now c) age phase (db (blob_gc_row c phase row wr).1) =
  base.filter (fun x => keep x = true) (blob_candidates (now c) age phase (db wr.1)) /\
  forall x, keep x = false -> (exists g, phase = Sweep g) /\ blob_gone c (blob_gc_row c phase row wr).1 x.
Proof.
  destruct wr as [w r]. cbn [fst]. intros [_ Hkeys] [Hl Hk].
  assert (forall d, db d = db w -> exists keep : OrphanBlob -> bool,
    blob_candidates (now c) age phase (db d) = base.filter (fun x => keep x = true) (blob_candidates (now c) age phase (db w)) /\
    forall x, keep x = false -> (exists g, phase = Sweep g) /\ blob_gone c d x) as Hsame.
  { intros d ->. exists (fun _ => true). split; [|done]. symmetry. by apply filter_id. }
  destruct phase as [|g]; cbn [blob_gc_row].
  - destruct (mark_orphan_blob c row (w, r)) as [w' r'] eqn:E. cbn [fst]. apply mark_cases in E as [_ [Hd|[_ Hd]]]; [by apply Hsame|].
    exists (fun _ => true). split; [|done]. rewrite (filter_id (fun x => true = true)) by done. unfold blob_candidates. rewrite Hd. cbn [oci_blobs set_blobs]. f_equal.
    change (orphan_blob (set_blobs ?f (db w))) with (orphan_blob (db w)). apply omap_fmap_same. intros b. by destruct (row_of row b).
  - destruct (sweep_marked_blob c row (w, r)) as [w' r'] eqn:E. cbn [fst].
    apply sweep_cases in E as [->|(_ & _ & [Hd|(E1 & E2 & E3 & Hd)])]; [by apply Hsame|by apply Hsame|].
    exists (fun x => negb (bool_decide (blob_cursor x = blob_cursor row /\ orphan_at x = orphan_at row /\ orphan_blob_key x = orphan_blob_key row))).
    split.
    + unfold blob_candidates. rewrite <- sort_by_filter by apply _. f_equal. rewrite Hd. cbn [oci_blobs set_blobs].
      change (orphan_blob (set_blobs ?f (db w))) with (orphan_blob (db w)). apply omap_filter. intros b x Hb Hx.
      apply orphan_blob_row in Hx as (Hlx & Hr & Hdg & Hkx & Hf & _). rewrite negb_true_iff, bool_decide_eq_false.
      assert (marked b = true) as Hm by (unfold phase_filter in Hf; unfold marked; by destruct (blob_pending_delete_at b)).
      rewrite Hm, andb_true_r, <- not_true_iff_false. apply not_iff_compat. rewrite row_of_true. unfold blob_cursor. rewrite Hr, Hdg.
      split; [|intros ([= ] & _); done]. intros [Hrb Hdb]. split; [congruence|]. split; [congruence|].
      rewrite Hkx, Hk, (Hkeys b Hb). by rewrite Hdb.
    + intros x [[= Hr Hdg] [Ha Hkx]]%negb_false_iff%bool_decide_eq_true. split; [by eexists|]. unfold blob_gone. rewrite Ha, Hkx.
      split_and!; try done. intros b Hb Hrow. rewrite Hd in Hb. cbn [oci_blobs set_blobs] in Hb. apply list_elem_of_filter in Hb as [Hn _].
      apply row_of_true in Hrow. assert (row_of row b = true) as Ht by (apply row_of_true; rewrite <- Hr, <- Hdg; exact Hrow).
      by rewrite Ht in Hn.
Qed.

Lemma row_inv d c phase row wr : orphan_ok d row -> pass_inv d wr.1 wr.1 ->
  pass_inv d (blob_gc_row c phase row wr).1 (blob_gc_row c phase row wr).1.
Proof.
  destruct wr as [w r]. intros Hrow Hi. assert (pass_inv d w (blob_gc_row c phase row (w, r)).1) as [Hs Hok _]
    by (destruct phase; [by apply mark_keeps|by apply sweep_keeps]). by split; [..|apply keeps_blobs_refl].
Qed.

Lemma row_gone_kept c phase row wr x : (exists g, phase = Sweep g) -> blob_gone c wr.1 x -> blob_gone c (blob_gc_row c phase row wr).1 x.
Proof. destruct wr as [w r]. intros [g ->]. apply sweep_gone_kept. Qed.

Lemma page_candidates d c age phase dry page : (forall row, row ∈ page -> orphan_ok d row) -> forall wr, pass_inv d wr.1 wr.1 ->
  (forall x, (exists g, phase = Sweep g) -> blob_gone c wr.1 x -> blob_gone c (blob_gc_page c phase dry page wr).1 x) /\
  exists keep : OrphanBlob -> bool,
    blob_candidates (now c) age phase (db (blob_gc_page c phase dry page wr).1) =
    base.filter (fun x => keep x = true) (blob_candidates (now c) age phase (db wr.1)) /\
    forall x, keep x = false -> dry = false /\ (exists g, phase = Sweep g) /\ blob_gone c (blob_gc_page c phase dry page wr).1 x.
Proof.
  intros Hp. assert (forall wr : GcWorld * StorageGcResult, exists keep : OrphanBlob -> bool,
    blob_candidates (now c) age phase (db wr.1) = base.filter (fun x => keep x = true) (blob_candidates (now c) age phase (db wr.1)) /\
    forall x, keep x = false -> dry = false /\ (exists g, phase = Sweep g) /\ blob_gone c wr.1 x) as Hsame.
  { intros wr. exists (fun _ => true). split; [|done]. symmetry. by apply filter_id. }
  destruct dry; [intros wr _; split; [done|]; exact (Hsame (wr.1, wr.2))|].
  induction page as [|row page IH]; intros wr Hi; [split; [done|apply Hsame]|].
  pose proof (Hp row ltac:(left)) as Hrow. pose proof (row_inv d c phase row wr Hrow Hi) as Hi1.
  destruct (row_removes c age phase row wr) as (keep1 & Hg1 & Hgone1); [apply Hi|by apply (same_refs_orphan_ok d); [apply Hi|]|].
  destruct (IH (fun x Hx => Hp x (list_elem_of_further _ _ _ Hx)) (blob_gc_row c phase row wr) Hi1) as (Hkept & keep & Hg & Hgone).
  change (blob_gc_page c phase false (row :: page) wr) with (blob_gc_page c phase false page (blob_gc_row c phase row wr)). split.
  { intros x Hs Hx. apply Hkept; [done|]. by apply row_gone_kept. }
  exists (fun x => keep x && keep1 x). split.
  - rewrite Hg, Hg1, list_filter_filter. apply list_filter_iff. intros x. by rewrite andb_true_iff.
  - intros x [Hk|Hk]%andb_false_iff; [by apply Hgone|]. destruct (Hgone1 x Hk) as [Hs Hx]. split_and!; [done|done|by apply Hkept].
Qed.

Lemma gone_page c phase (keep : OrphanBlob -> bool) rest : forall wr,
  (forall x, keep x = false -> (exists g, phase = Sweep g) /\ blob_gone c wr.1 x) ->
  blob_gc_page c phase false (base.filter (fun x => keep x = true) rest) wr = blob_gc_page c phase false rest wr.
Proof.
  induction rest as [|row rest IH]; intros wr Hk; [done|]. rewrite filter_cons.
  change (blob_gc_page c phase false (row :: rest) wr) with (blob_gc_page c phase false rest (blob_gc_row c phase row wr)).
  destruct (keep row) eqn:Er.
  - rewrite decide_True by done. apply (IH (blob_gc_row c phase row wr)). intros x Hx. destruct (Hk x Hx) as [Hs Hg].
    split; [done|]. by apply row_gone_kept.
  - rewrite decide_False by done. destruct (Hk row Er) as [[g ->] Hg]. destruct wr as [w r]. cbn [blob_gc_row].
    rewrite sweep_gone by done. by apply IH.
Qed.

(** ** A phase is one walk over its candidates *)

Lemma phase_page_removes d c age phase dry page wr : pass_inv d wr.1 wr.1 ->
  (forall row, row ∈ page -> row ∈ blob_candidates (now c) age phase (db wr.1)) ->
  page_removes (fun w => blob_candidates (now c) age phase (db w)) (blob_gc_page c phase dry) page wr.
Proof.
  intros Hi Hpage. destruct (page_candidates d c age phase dry page) with (wr := wr) as (_ & keep & Hg & Hgone); [|done|].
  { intros row Hin. apply (same_refs_orphan_ok (db wr.1)); [|eapply candidate_ok; [apply Hi|by apply Hpage]].
    destruct Hi as [[Hr Hm] _ _]. by split. }
  exists keep. split; [exact Hg|]. intros rest. destruct dry.
  - rewrite (filter_id (fun x => keep x = true)); [done|]. intros x _. destruct (keep x) eqn:E; [done|]. by destruct (Hgone x E).
  - apply gone_page. intros x Hx. by apply Hgone.
Qed.

Lemma page_inv d c phase dry page wr : (forall row, row ∈ page -> orphan_ok d row) -> pass_inv d wr.1 wr.1 ->
  pass_inv d (blob_gc_page c phase dry page wr).1 (blob_gc_page c phase dry page wr).1.
Proof. intros Hp Hi. destruct (page_keeps d wr.1 c phase dry page Hp wr Hi) as [Hs Hok _]. by split; [..|apply keeps_blobs_refl]. Qed.

(** The rows of candidates after the default cursor: real repositories do not
    have the nil id. *)
Definition repos_named (d : GcDb) : Prop := forall row, row ∈ repositories d -> repo_id row <> 0%N.

Lemma candidates_after_default t age phase d : repos_named d ->
  base.filter (fun row => walk_after compare_cursors blob_cursor default_blob_cursor row = true) (blob_candidates t age phase d) =
  blob_candidates t age phase d.
Proof.
  intros Hn. apply filter_id. intros row (b & Hb & (Hl & Hr & _)%orphan_blob_row)%elem_of_blob_candidates.
  unfold repo_location in Hl. destruct (List.find _ _) as [rr|] eqn:Ef; [|done]. apply find_some in Ef as [Hin Hid%bool_decide_eq_true].
  unfold walk_after, compare_cursors, lex, cmp_on, blob_cursor, default_blob_cursor. cbn [fst snd]. rewrite Hr, <- Hid.
  pose proof (Hn rr ltac:(by apply list_elem_of_In)). destruct (repo_id rr); [done|]. done.
Qed.

Definition gc_ok (d : GcDb) : Prop := blobs_ok d /\ repos_named d.

Lemma pass_start w : blobs_ok (db w) -> pass_inv (db w) w w.
Proof. intros Hok. split; [done|done|apply keeps_blobs_refl]. Qed.

Lemma phase_rows_ok d t age phase w row : pass_inv d w w -> row ∈ blob_candidates t age phase (db w) -> orphan_ok d row.
Proof.
  intros [[Hr Hm] Hok _] Hin. apply (same_refs_orphan_ok (db w)); [by split|]. by eapply candidate_ok.
Qed.

Lemma phase_returns c age phase dry n w : (1 <= n)%nat -> gc_ok (db w) -> exists w' res, run_blob_gc_phase c age phase dry n w = Some (w', res).
Proof.
  intros Hn [Hok Hnm]. unfold run_blob_gc_phase.
  destruct (walk_pages_returns compare_cursors blob_cursor (fun w => blob_candidates (now c) age phase (db w))
    (fun s => pass_inv (db w) s s) (blob_gc_page c phase dry) (select_label phase) n) with
    (select := select_blob_phase_page c age phase n) (fuel := S (length (blob_candidates (now c) age phase (db w))))
    (first := true) (cursor := default_blob_cursor) (sr := (w, empty_gc_result dry)) as [res ->].
  - intros s Hs. apply candidates_sorted, Hs.
  - intros page sr Hs Hp. apply page_inv; [|done]. intros row Hin. eapply phase_rows_ok; [done|by apply Hp].
  - intros page sr Hs Hp. by apply (phase_page_removes (db w)).
  - done.
  - intros cursor s page. apply select_page.
  - by apply pass_start.
  - cbn [fst]. rewrite candidates_after_default by done. lia.
  - destruct res as [[w' r]|e]; eauto.
Qed.

Lemma phase_walk c age phase dry n w : (1 <= n)%nat -> gc_ok (db w) -> (forall k, gc_fails c SelectBlobs k = None) ->
  run_blob_gc_phase c age phase dry n w =
  let '(w', r) := blob_gc_page c phase dry (blob_candidates (now c) age phase (db w)) (w, empty_gc_result dry) in Some (w', Ok r).
Proof.
  intros Hn [Hok Hnm] Hf. unfold run_blob_gc_phase.
  rewrite (walk_pages_one compare_cursors blob_cursor (fun w => blob_candidates (now c) age phase (db w))
    (fun s => pass_inv (db w) s s) (blob_gc_page c phase dry) (select_label phase) n).
  - cbn [fst]. rewrite candidates_after_default by done. by destruct (blob_gc_page _ _ _ _ _).
  - intros s Hs. apply candidates_sorted, Hs.
  - intros page sr Hs Hp. apply page_inv; [|done]. intros row Hin. eapply phase_rows_ok; [done|by apply Hp].
  - apply blob_gc_page_app.
  - intros page sr Hs Hp. by apply (phase_page_removes (db w)).
  - done.
  - intros cursor s. unfold select_blob_phase_page. by rewrite Hf.
  - by apply pass_start.
  - cbn [fst]. rewrite candidates_after_default by done. lia.
Qed.

Lemma dry_phase c age phase n w w' res : run_blob_gc_phase c age phase true n w = Some (w', res) -> w' = w.
Proof.
  unfold run_blob_gc_phase. destruct (walk_pages _ _ _ _ _ _ _ _ _) as [[[w1 r]|e]|] eqn:E; intros [= <- <-]; [|done].
  apply (walk_pages_keeps (fun s => s = w)) in E; [done| |done]. by intros cursor s page r0 -> _.
Qed.

End Phase.

(** * References *)

Section Refs.
Context `{ManifestCodec} (content : string -> string).

(** The blobs of a manifest. *)
Definition manifest_blobs (manifest : string) : list string := fst <$> extract_blob_refs (content manifest).

(** A manifest with one reference has all of them. *)
Definition refs_whole (d : GcDb) : Prop :=
  forall m blob, m ∈ manifest_blob_refs d -> blob ∈ manifest_blobs (ref_manifest m) ->
    exists m', m' ∈ manifest_blob_refs d /\ ref_repo m' = ref_repo m /\ ref_manifest m' = ref_manifest m /\ ref_blob m' = blob.

Lemma insert_refs r mf edges : forall d, exists extra,
  foldl (insert_blob_ref r mf) d edges = set_blob_refs (fun rows => rows ++ extra) d /\
  (forall m, m ∈ extra -> ref_repo m = r /\ ref_manifest m = mf) /\
  (forall e, e ∈ edges -> exists m, m ∈ manifest_blob_refs d ++ extra /\ ref_repo m = r /\ ref_manifest m = mf /\ ref_blob m = e.1).
Proof.
  induction edges as [|e edges IH]; intros d.
  { exists []. split_and!; [by destruct d as []; unfold set_blob_refs; simpl; rewrite app_nil_r|by intros m ?%elem_of_nil|by intros x ?%elem_of_nil]. }
  cbn [foldl]. destruct (IH (insert_blob_ref r mf d e)) as (extra & Hd & Hx & He). unfold insert_blob_ref in *.
  destruct (existsb _ (manifest_blob_refs d)) eqn:Ex.
  - exists extra. split_and!; [done|done|]. intros x [->|Hin]%elem_of_cons; [|by apply He].
    apply existsb_true in Ex as (m & Hm & Hf). rewrite !andb_true_iff, bool_decide_eq_true, !String.eqb_eq in Hf.
    exists m. split; [apply elem_of_app; by left|]. tauto.
  - set (row := {| ref_repo := r; ref_manifest := mf; ref_blob := e.1; ref_kind := e.2 |}) in *. exists (row :: extra). split_and!.
    + rewrite Hd. unfold set_blob_refs. simpl. by rewrite <- app_assoc.
    + intros m [->|Hm]%elem_of_cons; [done|by apply Hx].
    + intros x Hin. cbn [manifest_blob_refs set_blob_refs] in He. rewrite <- app_assoc in He.
      apply elem_of_cons in Hin as [->|Hin]; [|by apply He].
      exists row. split; [|done]. apply elem_of_app. right. left.
Qed.

Lemma record_refs_whole r mf d : refs_whole d -> refs_whole (record_manifest_blob_refs content r mf d).
Proof.
  intros Hw. unfold record_manifest_blob_refs. destruct (insert_refs r mf (extract_blob_refs (content mf)) d) as (extra & -> & Hx & He).
  intros m blob. cbn [manifest_blob_refs set_blob_refs]. intros Hm Hb. apply elem_of_app in Hm as [Hm|Hm].
  - destruct (Hw m blob Hm Hb) as (m' & Hm' & ?). exists m'. split; [apply elem_of_app; by left|done].
  - destruct (Hx m Hm) as [-> ->]. rewrite (proj2 (Hx m Hm)) in Hb. unfold manifest_blobs in Hb.
    apply list_elem_of_fmap in Hb as (e & -> & Hin). destruct (He e Hin) as (m' & ? & ? & ? & ?). by exists m'.
Qed.

Lemma record_refs_present r mf d blob : blob ∈ manifest_blobs mf ->
  exists m, m ∈ manifest_blob_refs (record_manifest_blob_refs content r mf d) /\ ref_repo m = r /\ ref_manifest m = mf /\ ref_blob m = blob.
Proof.
  unfold manifest_blobs, record_manifest_blob_refs. intros (e & -> & Hin)%list_elem_of_fmap.
  destruct (insert_refs r mf (extract_blob_refs (content mf)) d) as (extra & -> & _ & He). by apply He.
Qed.

Lemma record_refs_db r mf d : exists f, record_manifest_blob_refs content r mf d = set_blob_refs f d.
Proof. unfold record_manifest_blob_refs. destruct (insert_refs r mf (extract_blob_refs (content mf)) d) as (extra & -> & _). by eexists. Qed.

Lemma whole_filter (P : BlobRef -> Prop) `{!forall m, Decision (P m)} d d' :
  manifest_blob_refs d' = base.filter P (manifest_blob_refs d) ->
  (forall m m', ref_repo m' = ref_repo m -> ref_manifest m' = ref_manifest m -> P m -> P m') -> refs_whole d -> refs_whole d'.
Proof.
  intros Hd Hp Hw m blob. rewrite Hd. intros [HP Hm]%list_elem_of_filter Hb. destruct (Hw m blob Hm Hb) as (m' & Hm' & Hr & Hmf & Hbl).
  exists m'. split; [|done]. apply list_elem_of_filter. split; [|done]. by apply (Hp m).
Qed.

Lemma prune_whole d : refs_whole d -> refs_whole (prune_orphan_blob_refs d).
Proof.
  apply (whole_filter (fun mbr => manifest_live d (ref_repo mbr) (ref_manifest mbr) = true)); [done|]. by intros m m' -> ->.
Qed.

(** ** Live images *)

Lemma live_image_live d dg r : (dg, r) ∈ live_image_manifests d -> manifest_live d r dg = true.
Proof.
  unfold live_image_manifests, manifest_live. rewrite elem_of_remove_dups, elem_of_app, !list_elem_of_omap, orb_true_iff, !existsb_true.
  intros [(t & Ht & Hc)|(m & Hm & Hc)].
  - left. exists t. split; [done|]. destruct (_ && _); [|done]. injection Hc as <- <-. by rewrite bool_decide_eq_true_2, String.eqb_refl.
  - right. exists m. split; [done|]. destruct (existsb _ (oci_tags d)) eqn:Et; [|done]. destruct (_ && _); [|done]. injection Hc as <- <-.
    by rewrite bool_decide_eq_true_2, String.eqb_refl.
Qed.

(** An open gate leaves no live image without its references. *)
Lemma gate_open_refs d dg r blob : any_live_manifest_missing_refs d = false -> refs_whole d -> (dg, r) ∈ live_image_manifests d ->
  blob ∈ manifest_blobs dg -> exists m, m ∈ manifest_blob_refs d /\ ref_repo m = r /\ ref_manifest m = dg /\ ref_blob m = blob.
Proof.
  intros Hg Hw Hl Hb. unfold any_live_manifest_missing_refs in Hg. apply negb_false_iff, bool_decide_eq_true in Hg.
  assert (has_refs d (dg, r) = true) as Hr.
  { destruct (has_refs d (dg, r)) eqn:E; [done|]. assert ((dg, r) ∈ unbackfilled_live_manifests d) as Hin by (by apply list_elem_of_filter).
    rewrite Hg in Hin. by apply elem_of_nil in Hin. }
  apply existsb_true in Hr as (m & Hm & Hf). apply andb_true_iff in Hf as [Hmf%String.eqb_eq Hr%bool_decide_eq_true]. cbn [fst snd] in *.
  subst dg r. destruct (Hw m blob Hm Hb) as (m' & ? & ? & ? & ?). by exists m'.
Qed.

Lemma live_blob_protected d dg r blob l : any_live_manifest_missing_refs d = false -> refs_whole d -> (dg, r) ∈ live_image_manifests d ->
  blob ∈ manifest_blobs dg -> repo_location d r = Some l ->
  protected_by_refs (prune_orphan_blob_refs d) l blob = true /\ protected_by_refs d l blob = true.
Proof.
  intros Hg Hw Hl Hb Hloc. destruct (gate_open_refs d dg r blob Hg Hw Hl Hb) as (m & Hm & Hr & Hmf & Hbl).
  assert (stored_in d l (ref_repo m) = true) as Hst by (rewrite Hr; by apply stored_in_own).
  split; apply protected_true; exists m; split_and!; try done. apply list_elem_of_filter. split; [|done].
  rewrite Hr, Hmf. by apply live_image_live.
Qed.

(** * Ticks *)

Section Ticks.
Context `{Collation}.

Lemma mark_keeps_blobs c age dry n w : (1 <= n)%nat -> gc_ok (db w) ->
  exists w' res d, run_blob_gc_mark c age dry n w = Some (w', res) /\ pass_inv d w w' /\
    (d = db w \/ d = prune_orphan_blob_refs (db w)) /\ repos_named (db w') /\ (dry = true -> w' = w).
Proof.
  intros Hn [Hok Hnm]. unfold run_blob_gc_mark.
  set (w1 := if dry then w else match gc_fails c PruneRefs "" with Some _ => w | None => {| db := prune_orphan_blob_refs (db w); objects := objects w |} end).
  assert (gc_ok (db w1)) as Hok1.
  { unfold w1. destruct dry; [by split|]. destruct (gc_fails c PruneRefs ""); [by split|]. split; [|done]. by destruct Hok. }
  destruct (phase_returns c age Mark dry n w1 Hn Hok1) as (w' & res & E). exists w', res, (db w1).
  pose proof (phase_keeps (db w1) w1 c age Mark dry n w1 w' res (pass_start w1 (proj1 Hok1)) E) as [Hs Hok' Hk]. split_and!; [done| | | |].
  - split; [done|done|]. intros l dg Hp. destruct (Hk l dg Hp) as [Ho Hb]. unfold w1 in Ho, Hb.
    destruct dry; [done|]. by destruct (gc_fails c PruneRefs "").
  - unfold w1. destruct dry; [by left|]. destruct (gc_fails c PruneRefs ""); [by left|by right].
  - unfold repos_named. destruct Hs as [-> _]. apply Hok1.
  - intros ->. by apply dry_phase in E.
Qed.

Lemma tick_keeps c c' enabled gate_fails lost lost' age grace n w : (1 <= n)%nat -> gc_ok (db w) ->
  exists w' d, blob_gc_tick c c' enabled gate_fails lost lost' age grace n w = Some w' /\
    (d = db w \/ d = prune_orphan_blob_refs (db w)) /\ pass_inv d w w' /\
    (any_live_manifest_missing_refs (db w) = true -> w' = w).
Proof.
  intros Hn Hok. unfold blob_gc_tick. destruct lost.
  { exists w, (db w). split_and!; [done|by left|by apply pass_start, Hok|done]. }
  set (dry := negb enabled || gate_fails || any_live_manifest_missing_refs (db w)).
  destruct (mark_keeps_blobs c age dry n w Hn Hok) as (w1 & res & d & -> & Hi & Hd & Hnm & Hdry). destruct lost'.
  { exists w1, d. split_and!; [done|done|done|]. intros Hg. apply Hdry. unfold dry. by rewrite Hg, orb_true_r. }
  unfold run_blob_gc_sweep. destruct (phase_returns c' age (Sweep grace) dry n w1 Hn (conj (inv_ok _ _ _ Hi) Hnm)) as (w2 & res2 & E2).
  rewrite E2. exists w2, d. split_and!; [done|done|by eapply phase_keeps|].
  intros Hg. assert (dry = true) as Hdr by (unfold dry; by rewrite Hg, orb_true_r). rewrite Hdr in E2. apply dry_phase in E2. by rewrite E2, Hdry.
Qed.

(** ** Runs *)

Definition blob_world_ok (w : GcWorld) : Prop := gc_ok (db w) /\ refs_whole (db w).

(** What happens around the ticks: uploads store objects, pushes commit blobs
    and manifests, the backfill runs at a start, tags and children go, and a
    repository is deleted. *)
Inductive blob_step : GcWorld -> GcWorld -> Prop :=
| bs_store objs w : objects w ⊆ objs -> blob_step w {| db := db w; objects := objs |}
| bs_blob t r digest size w :
    blob_step w {| db := commit_blob t r digest size (OCI_BLOB_STORAGE_PREFIX +:+ digest) (db w); objects := objects w |}
| bs_manifest i r name tag manifest header size d w :
    put_manifest content i r name tag manifest header size (db w) = Some d -> blob_step w {| db := d; objects := objects w |}
| bs_backfill c readable w : blob_step w (run_backfill content c readable w)
| bs_tick c c' enabled gate_fails lost lost' age grace n w w' : (1 <= n)%nat ->
    blob_gc_tick c c' enabled gate_fails lost lost' age grace n w = Some w' -> blob_step w w'
| bs_forget (f : list OciTag -> list OciTag) (g : list ManifestRef -> list ManifestRef) (h : list ArtifactRow -> list ArtifactRow) w :
    blob_step w {| db := set_tags f (set_children g (set_artifacts h (db w))); objects := objects w |}
| bs_delete_repository c p r repo_key l w : blob_step w (delete_repository_with_objects c p r repo_key l w).

Lemma blobs_ok_same d d' : oci_blobs d' = oci_blobs d -> blobs_ok d -> blobs_ok d'.
Proof. intros E [Hn Hk]. split; by rewrite E. Qed.

Lemma repos_same d d' : repositories d' = repositories d -> repos_named d -> repos_named d'.
Proof. intros E Hn. unfold repos_named. by rewrite E. Qed.

Lemma refs_same d d' : manifest_blob_refs d' = manifest_blob_refs d -> refs_whole d -> refs_whole d'.
Proof. intros E Hw. unfold refs_whole. by rewrite E. Qed.

Lemma commit_blob_ok t r digest size d : blobs_ok d -> blobs_ok (commit_blob t r digest size (OCI_BLOB_STORAGE_PREFIX +:+ digest) d).
Proof.
  intros Hok. unfold commit_blob. destruct (existsb _ _) eqn:Ex.
  - apply blobs_ok_map; [|done]. intros b. by case_match.
  - destruct Hok as [Hn Hk]. split; cbn [oci_blobs set_blobs].
    + rewrite fmap_app. apply NoDup_app. split_and!; [done| |apply NoDup_singleton].
      intros x Hx ->%list_elem_of_singleton. apply list_elem_of_fmap in Hx as (b & E & Hb).
      pose proof (proj1 (existsb_false _ _) Ex b Hb) as Hf. cbn beta in Hf. unfold blob_id in E. cbn in E. injection E as -> ->.
      by rewrite bool_decide_eq_true_2, String.eqb_refl in Hf.
    + intros b [Hb| ->%list_elem_of_singleton]%elem_of_app; [by apply Hk|done].
Qed.

Lemma insert_child_db r mf children : forall d, exists f, foldl (insert_child r mf) d children = set_children f d.
Proof.
  induction children as [|x children IH]; intros d; [exists (fun x => x); by destruct d|]. cbn [foldl].
  destruct (IH (insert_child r mf d x)) as (f & ->). unfold insert_child. destruct (existsb _ _); [by exists f|]. by eexists (fun y => f (y ++ _)).
Qed.

Lemma upsert_tag_db r name tag mf mt d : exists f, upsert_tag r name tag mf mt d = set_tags f d.
Proof. unfold upsert_tag. destruct (existsb _ _); by eexists. Qed.

Lemma upsert_artifact_db i r name tag mf mt size d : exists f, upsert_manifest_artifact i r name tag mf mt size d = set_artifacts f d.
Proof. unfold upsert_manifest_artifact. destruct (existsb _ _); by eexists. Qed.

Lemma clear_marks_ok r digests d : blobs_ok d -> blobs_ok (clear_marks r digests d).
Proof. apply blobs_ok_map. intros b. by case_match. Qed.

Lemma put_manifest_ok i r name tag mf header size d d' : put_manifest content i r name tag mf header size d = Some d' ->
  gc_ok d /\ refs_whole d -> gc_ok d' /\ refs_whole d'.
Proof.
  unfold put_manifest. intros E [[Hok Hn] Hw].
  assert (forall class, class = classify_manifest (content mf) ->
    gc_ok (persist_tag_and_refs content r name tag mf (stored_media_type_for class header) class d) /\
    refs_whole (persist_tag_and_refs content r name tag mf (stored_media_type_for class header) class d)) as Hp.
  { intros class _. unfold persist_tag_and_refs. destruct (upsert_tag_db r name tag mf (stored_media_type_for class header) d) as (f & ->).
    destruct class.
    - destruct (insert_child_db r mf (extract_child_digests (content mf)) (set_tags f d)) as (g & ->).
      split; [split; [by apply (blobs_ok_same d)|done]|by apply (refs_same d)].
    - split; [|by apply record_refs_whole, (refs_same d)].
      destruct (record_refs_db r mf (clear_marks r (extract_blob_refs (content mf)).*1 (set_tags f d))) as (g & ->).
      split; [|done]. apply (blobs_ok_same (clear_marks r (extract_blob_refs (content mf)).*1 (set_tags f d))); [done|].
      by apply clear_marks_ok, (blobs_ok_same d).
    - split; [split; [by apply (blobs_ok_same d)|done]|by apply (refs_same d)]. }
  destruct (classify_manifest (content mf)) as [| |] eqn:Ec; [| |done]; injection E as <-; destruct (Hp _ eq_refl) as [[Hok' Hn'] Hw'];
    match goal with |- context [upsert_manifest_artifact i r name tag mf ?mt size ?d0] =>
      destruct (upsert_artifact_db i r name tag mf mt size d0) as (g & ->);
      split; [split; [by apply (blobs_ok_same d0)|done]|by apply (refs_same d0)] end.
Qed.

Lemma backfill_ok c readable w : blob_world_ok w -> blob_world_ok (run_backfill content c readable w).
Proof.
  unfold run_backfill, blob_world_ok. cbn [db]. generalize (unbackfilled_live_manifests (db w)) as us. generalize (db w) as d. intros d us.
  revert d. induction us as [|u us IH]; intros d Hd; [done|]. cbn [foldl]. apply IH. unfold process_candidate.
  repeat (case_match; try done). destruct Hd as [[Hok Hn] Hw]. split; [|by apply record_refs_whole].
  destruct (record_refs_db u.2 u.1 d) as (f & ->). split; [by apply (blobs_ok_same d)|done].
Qed.

Lemma delete_repository_ok c p r repo_key l w : blob_world_ok w -> blob_world_ok (delete_repository_with_objects c p r repo_key l w).
Proof.
  intros [[Hok Hn] Hw]. destruct (delete_repository_db c p r repo_key l w) as (f & Hd). unfold blob_world_ok, gc_ok. rewrite Hd.
  set (d := delete_repository r (set_candidates f (db w))). split; [split|].
  - apply (blobs_ok_same (set_blobs (base.filter (fun b => blob_repo b <> r)) (db w))); [done|]. by apply blobs_ok_filter.
  - intros row [_ Hin]%list_elem_of_filter. by apply Hn.
  - apply (whole_filter (fun m => ref_repo m <> r) (db w)); [done| |done]. intros m m' -> _. done.
Qed.

Lemma blob_step_ok w w' : blob_step w w' -> blob_world_ok w -> blob_world_ok w'.
Proof.
  intros Hstep [Hok Hw]. destruct Hstep as [objs w Hs|t r digest size w|i r name tag mf header size d w Hput|c readable w|c c' enabled gf lost lost' age grace n w w' Hn Ht|f g h w|c r l w].
  - done.
  - destruct Hok as [Hok Hn]. split; [split; [by apply commit_blob_ok|]|].
    + unfold commit_blob. by destruct (existsb _ _).
    + apply (refs_same (db w)); [|done]. unfold commit_blob. by destruct (existsb _ _).
  - by apply (put_manifest_ok i r name tag mf header size (db w)).
  - by apply backfill_ok.
  - destruct (tick_keeps c c' enabled gf lost lost' age grace n w Hn Hok) as (w1 & d & E & Hd & [[Hr Hm] Hok' _] & _). rewrite E in Ht. injection Ht as <-.
    split; [split; [done|]|].
    + apply (repos_same (db w)); [|apply Hok]. rewrite Hr. by destruct Hd as [->| ->].
    + apply (refs_same d); [done|]. destruct Hd as [->| ->]; [done|by apply prune_whole].
  - destruct Hok as [Hok Hn]. split; [split; [by apply (blobs_ok_same (db w))|done]|by apply (refs_same (db w))].
  - by apply delete_repository_ok.
Qed.

(** C20. The tick of the scheduler always returns, and no tick loses a blob of
    a live image: after any pushes, backfills, ticks, untaggings and repository
    deletes, whatever fails in the tick and wherever the lease is lost, every
    blob of every manifest the readiness gate counts as live keeps its object
    and its row.  The references of a manifest are written together and pruned
    together, so a gate that finds one finds all of them. *)
Theorem tick_keeps_live_images c c' enabled gate_fails lost lost' age grace n w0 w :
  rtc blob_step w0 w -> blob_world_ok w0 -> (1 <= n)%nat ->
  exists w', blob_gc_tick c c' enabled gate_fails lost lost' age grace n w = Some w' /\
    forall dg r blob l, (dg, r) ∈ live_image_manifests (db w) -> blob ∈ manifest_blobs dg -> repo_location (db w) r = Some l ->
      (object_at l (OCI_BLOB_STORAGE_PREFIX +:+ blob) ∈ objects w -> object_at l (OCI_BLOB_STORAGE_PREFIX +:+ blob) ∈ objects w') /\
      (forall b, b ∈ oci_blobs (db w) -> blob_repo b = r -> blob_digest b = blob -> b ∈ oci_blobs (db w')).
Proof.
  intros Hr Hok Hn. assert (blob_world_ok w) as [Hgc Hw] by (induction Hr; eauto using blob_step_ok).
  destruct (tick_keeps c c' enabled gate_fails lost lost' age grace n w Hn Hgc) as (w' & d & E & Hd & [_ _ Hk] & Hdry).
  exists w'. split; [done|]. intros dg r blob l Hl Hb Hloc.
  destruct (any_live_manifest_missing_refs (db w)) eqn:Hg; [by rewrite Hdry|].
  destruct (live_blob_protected (db w) dg r blob l Hg Hw Hl Hb Hloc) as [Hp1 Hp2].
  assert (protected_by_refs d l blob = true) as Hp by (destruct Hd as [->| ->]; done).
  destruct (Hk l blob Hp) as [Ho Hrows]. split; [done|]. intros b Hin Hrep Hdg. apply Hrows; [done..|].
  destruct Hd as [->| ->]; unfold stored_in; [|change (repo_location (prune_orphan_blob_refs (db w))) with (repo_location (db w))];
    rewrite Hrep, Hloc; apply same_storage_refl.
Qed.

End Ticks.

(** * The gate and a push *)

Lemma upsert_tag_in r name tag mf mt d : exists t, t ∈ oci_tags (upsert_tag r name tag mf mt d) /\ tag_repo t = r /\ tag_digest t = mf /\ tag_media_type t = mt.
Proof.
  unfold upsert_tag. set (row := {| tag_repo := r; tag_name := name; tag_ref := tag; tag_digest := mf; tag_media_type := mt |}).
  exists row. split; [|done]. destruct (existsb _ _) eqn:Ex; cbn [oci_tags set_tags].
  - apply existsb_true in Ex as (t & Ht & Hm). apply list_elem_of_fmap. exists t. by rewrite Hm.
  - apply elem_of_app. right. by apply list_elem_of_singleton.
Qed.

(** The manifest of a push: its tag and, for an image, its references. *)
Lemma put_image i r name tag mf header size d : classify_manifest (content mf) = Image ->
  exists d', put_manifest content i r name tag mf header size d = Some d' /\
    (exists t, t ∈ oci_tags d' /\ tag_repo t = r /\ tag_digest t = mf) /\
    (forall blob, blob ∈ manifest_blobs mf -> exists m, m ∈ manifest_blob_refs d' /\ ref_repo m = r /\ ref_manifest m = mf /\ ref_blob m = blob) /\
    repositories d' = repositories d.
Proof.
  intros Hc. unfold put_manifest. rewrite Hc. set (mt := stored_media_type_for Image header). eexists. split; [reflexivity|].
  unfold persist_tag_and_refs. destruct (upsert_tag_in r name tag mf mt d) as (t & Ht & Hr & Hd & _).
  set (d1 := upsert_tag r name tag mf mt d) in *. set (d2 := clear_marks r (extract_blob_refs (content mf)).*1 d1).
  destruct (record_refs_db r mf d2) as (f & Hf).
  destruct (upsert_artifact_db i r name tag mf mt size (record_manifest_blob_refs content r mf d2)) as (g & ->).
  split_and!.
  - exists t. split; [|done]. cbn [oci_tags set_artifacts]. by rewrite Hf.
  - intros blob Hb. by apply record_refs_present.
  - cbn [repositories set_artifacts]. rewrite Hf. unfold d2, d1. destruct (upsert_tag_db r name tag mf mt d) as (h & ->). done.
Qed.

(** An image never closes the gate: its push writes a reference. *)
Lemma put_image_ready i r name tag mf header size d d' : classify_manifest (content mf) = Image ->
  put_manifest content i r name tag mf header size d = Some d' -> has_refs d' (mf, r) = true.
Proof.
  intros Hc E. destruct (put_image i r name tag mf header size d Hc) as (d1 & E' & _ & Hm & _). rewrite E' in E. injection E as <-.
  pose proof (image_has_refs (content mf) Hc) as Hne. destruct (extract_blob_refs (content mf)) as [|e es] eqn:Ee; [done|].
  destruct (Hm e.1) as (m & Hin & Hr & Hmf & _); [unfold manifest_blobs; rewrite Ee; left|].
  apply existsb_true. exists m. split; [done|]. cbn [fst snd]. by rewrite Hmf, String.eqb_refl, bool_decide_eq_true_2.
Qed.

Lemma live_tag d t : t ∈ oci_tags d -> one_of (tag_media_type t) INDEX_MEDIA_TYPES = false -> childless d (tag_repo t) (tag_digest t) = true ->
  (tag_digest t, tag_repo t) ∈ live_image_manifests d.
Proof.
  intros Ht Hm Hc. unfold live_image_manifests. apply elem_of_remove_dups, elem_of_app. left. apply list_elem_of_omap. exists t. by rewrite Hm, Hc.
Qed.

Lemma gate_closed d u : u ∈ live_image_manifests d -> has_refs d u = false -> any_live_manifest_missing_refs d = true.
Proof.
  intros Hu Hr. unfold any_live_manifest_missing_refs. apply negb_true_iff, bool_decide_eq_false. intros E.
  assert (u ∈ unbackfilled_live_manifests d) as Hin by (by apply list_elem_of_filter). rewrite E in Hin. by apply elem_of_nil in Hin.
Qed.

(** Only a manifest's own edges give it references. *)
Lemma backfill_other c readable w u : extract_blob_refs (content u.1) = [] ->
  has_refs (db (run_backfill content c readable w)) u = has_refs (db w) u /\
  live_image_manifests (db (run_backfill content c readable w)) = live_image_manifests (db w).
Proof.
  intros He. unfold run_backfill. cbn [db]. generalize (unbackfilled_live_manifests (db w)) as us. generalize (db w) as d. intros d us. revert d.
  induction us as [|v us IH]; intros d; [done|]. cbn [foldl]. destruct (IH (process_candidate content c readable (objects w) d v)) as [-> ->].
  unfold process_candidate. repeat (case_match; try done). unfold record_manifest_blob_refs.
  destruct (decide (v.1 = u.1)) as [Hv|Hv]; [by rewrite Hv, He|].
  destruct (insert_refs v.2 v.1 (extract_blob_refs (content v.1)) d) as (extra & -> & Hx & _).
  split; [|done]. unfold has_refs. cbn [manifest_blob_refs set_blob_refs]. rewrite existsb_app.
  rewrite (proj2 (existsb_false _ extra)); [by rewrite orb_false_r|]. intros m Hm. destruct (Hx m Hm) as [_ ->].
  by rewrite (proj2 (String.eqb_neq _ _) Hv).
Qed.

(** An index without children whose [Content-Type] carries a parameter
    keeps it as its stored media type, which the gate's list of index types
    does not hold: the gate counts it as an image, closes, and no backfill
    opens it, so that blob collection deletes nothing in any repository. *)
Theorem empty_index_closes_gate i r name tag mf header size d d' c readable objs :
  classify_manifest (content mf) = Index -> extract_child_digests (content mf) = [] -> extract_blob_refs (content mf) = [] ->
  is_index_content_type header = true -> one_of header INDEX_MEDIA_TYPES = false ->
  childless d r mf = true -> has_refs d (mf, r) = false ->
  put_manifest content i r name tag mf header size d = Some d' ->
  any_live_manifest_missing_refs d' = true /\
  any_live_manifest_missing_refs (db (run_backfill content c readable {| db := d'; objects := objs |})) = true.
Proof.
  intros Hc Hch Hbl Hh Hm Hless Hr. unfold put_manifest. rewrite Hc. unfold stored_media_type_for. rewrite Hh. cbn [negb].
  unfold persist_tag_and_refs. rewrite Hch. cbn [foldl]. intros [= E].
  destruct (upsert_tag_in r name tag mf header d) as (t & Ht & Htr & Htd & Htm).
  destruct (upsert_tag_db r name tag mf header d) as (f & Hf). rewrite Hf in E, Ht.
  destruct (upsert_artifact_db i r name tag mf header size (set_tags f d)) as (g & Hg). rewrite Hg in E. subst d'.
  set (d1 := set_artifacts g (set_tags f d)).
  assert ((mf, r) ∈ live_image_manifests d1) as Hlive.
  { rewrite <- Htd, <- Htr. apply (live_tag d1); [done|by rewrite Htm|]. rewrite Htr, Htd. exact Hless. }
  split; [by apply (gate_closed d1 (mf, r))|].
  destruct (backfill_other c readable {| db := d1; objects := objs |} (mf, r) Hbl) as [Hrefs Hlives].
  apply (gate_closed _ (mf, r)); [by rewrite Hlives|by rewrite Hrefs].
Qed.

(** * A sweep under a push *)

(** A push whose client was told that a blob exists, and which therefore
    uploads it again neither itself nor in its manifest, does not keep an orphan
    row from being swept: the sweep deletes the one object of the storage, also
    under a row of another repository that stays; the manifest is accepted, and
    its new reference names an object that is gone. *)
Theorem sweep_takes_blob_under_push c row w res r l i name tag mf header size :
  quiet c (db w) -> orphan_ok (db w) row -> is_blob_still_orphan (db w) (orphan_repo row) (orphan_digest row) true = true ->
  repo_location (db w) r = Some l -> same_storage l (orphan_at row) = true -> head_blob w r (orphan_digest row) = true ->
  classify_manifest (content mf) = Image -> orphan_digest row ∈ manifest_blobs mf ->
  let w1 := fst (sweep_marked_blob c row (w, res)) in
  (forall b, b ∈ oci_blobs (db w) -> blob_repo b = r -> r <> orphan_repo row -> b ∈ oci_blobs (db w1)) /\
  object_at l (OCI_BLOB_STORAGE_PREFIX +:+ orphan_digest row) ∉ objects w1 /\
  exists d', put_manifest content i r name tag mf header size (db w1) = Some d' /\
    (exists t, t ∈ oci_tags d' /\ tag_repo t = r /\ tag_digest t = mf) /\
    (exists m, m ∈ manifest_blob_refs d' /\ ref_repo m = r /\ ref_manifest m = mf /\ ref_blob m = orphan_digest row).
Proof.
  intros Hq [Hl Hk] Ho Hloc Hst _ Hc Hin. pose proof (quiet_resolves _ _ _ _ Hq (stored_in_own _ _ _ Hl)) as Hu.
  destruct Hq as (_ & Hd & Hf). cbn zeta.
  assert (object_at l (OCI_BLOB_STORAGE_PREFIX +:+ orphan_digest row) = object_at (orphan_at row) (orphan_blob_key row)) as Eo
    by (apply object_at_eq; by rewrite Hk).
  unfold sweep_marked_blob. rewrite Hu, !Hf, Ho. cbn [negb].
  pose proof (delete_object_gone c (orphan_at row) (orphan_blob_key row) (objects w) (Hd _)) as Hgone.
  unfold delete_object in *. rewrite Hd in *. cbn [fst snd db objects] in *. split_and!.
  - intros b Hb Hr Hne. cbn [oci_blobs set_blobs]. apply list_elem_of_filter. split; [|done].
    unfold row_of. by rewrite bool_decide_eq_false_2 by congruence.
  - by rewrite Eo.
  - match goal with |- context [put_manifest content i r name tag mf header size ?d0] =>
      destruct (put_image i r name tag mf header size d0 Hc) as (d' & Hp & Ht & Hm & _) end.
    exists d'. split_and!; [done|done|]. destruct (Hm (orphan_digest row) Hin) as (m & ? & ? & ? & ?). by exists m.
Qed.

End Refs.

(** * A pass without failures *)

Section Quiet.
Context `{Collation}.

(** The rows a pass takes: orphans once stale references are pruned, that are
    old enough or were marked before. *)
Definition reclaimable (t : DateTime) (age : Z) (d : GcDb) (b : OciBlob) : bool :=
  match repo_location d (blob_repo b) with
  | Some own => negb (protected_by_refs (prune_orphan_blob_refs d) own (blob_digest b)) && (marked b || phase_filter t age Mark b)
  | None => false
  end.

Definition named_by (page : list OrphanBlob) (b : OciBlob) : bool := existsb (fun row => row_of row b) page.

Lemma filter_fmap_same {A} (P : A -> Prop) `{!forall x, Decision (P x)} (f : A -> A) (l : list A) :
  (forall x, P (f x) <-> P x) -> base.filter P (f <$> l) = f <$> base.filter P l.
Proof.
  intros Hp. induction l as [|x l IH]; [done|]. rewrite fmap_cons, !filter_cons. pose proof (Hp x).
  destruct (decide (P (f x))), (decide (P x)); try tauto. rewrite fmap_cons. by f_equal.
Qed.

Lemma forallb_fmap_same {A} (g : A -> bool) (f : A -> A) l : (forall x, g (f x) = g x) -> forallb g (f <$> l) = forallb g l.
Proof. intros Hg. induction l as [|x l IH]; [done|]. rewrite fmap_cons. cbn [forallb]. by rewrite Hg, IH. Qed.

Lemma still_orphan_rows_map d r dg (f : OciBlob -> OciBlob) : (forall b, blob_id (f b) = blob_id b) ->
  is_blob_still_orphan (set_blobs (fmap f) d) r dg false = is_blob_still_orphan d r dg false.
Proof.
  intros Hf. unfold is_blob_still_orphan. change (repo_location (set_blobs (fmap f) d)) with (repo_location d).
  destruct (repo_location d r) as [own|]; [|done]. change (protected_by_refs (set_blobs (fmap f) d)) with (protected_by_refs d).
  assert (base.filter (fun b => negb false || marked b = true) (blob_rows (set_blobs (fmap f) d) r dg) = f <$> blob_rows d r dg) as ->.
  { rewrite filter_id by done. unfold blob_rows. cbn [oci_blobs set_blobs]. apply filter_fmap_same.
    intros b. pose proof (Hf b) as [= -> ->]. done. }
  rewrite (filter_id (fun b => negb false || marked b = true)) by done.
  f_equal; [by destruct (blob_rows d r dg)|]. apply forallb_fmap_same. intros b. by pose proof (Hf b) as [= _ ->].
Qed.

Lemma mark_walk c d0 page : quiet c d0 -> forall w r,
  (forall row, row ∈ page -> is_blob_still_orphan (db w) (orphan_repo row) (orphan_digest row) false = true) ->
  exists r', blob_gc_page c Mark false page (w, r) =
    ({| db := set_blobs (fmap (fun b => if named_by page b then mark_blob (now c) b else b)) (db w); objects := objects w |}, r') /\ errors r' = errors r.
Proof.
  intros (_ & _ & Hf). induction page as [|row page IH]; intros w r Ho.
  { exists r. split; [|done]. cbn. destruct w as [d o]. cbn. f_equal. f_equal. destruct d. unfold set_blobs. cbn. f_equal. symmetry.
    rewrite <- (list_fmap_id oci_blobs) at 2. by apply list_fmap_ext. }
  change (blob_gc_page c Mark false (row :: page) (w, r)) with (blob_gc_page c Mark false page (mark_orphan_blob c row (w, r))).
  unfold mark_orphan_blob. rewrite !Hf, (Ho row) by left. cbn [negb].
  set (f := fun b => if row_of row b then mark_blob (now c) b else b).
  destruct (IH {| db := set_blobs (fmap f) (db w); objects := objects w |}
    (if existsb (fun b => row_of row b && negb (marked b)) (oci_blobs (db w)) then record_gc_success (orphan_size row) 1 r else r)) as (r' & -> & He).
  { intros row' Hin. cbn [db]. rewrite still_orphan_rows_map; [apply Ho; by right|]. intros b. unfold f. by destruct (row_of row b). }
  exists r'. split; [|rewrite He; by destruct (existsb _ _)]. f_equal. cbn [db objects]. f_equal. unfold set_blobs. cbn. f_equal.
  rewrite <- list_fmap_compose. apply list_fmap_ext. intros _ b _. unfold f. cbn.
  assert (named_by page (if row_of row b then mark_blob (now c) b else b) = named_by page b) as -> by (destruct (row_of row b); done).
  destruct (row_of row b); cbn [orb]; [|done]. destruct (named_by page b); [|done].
  unfold mark_blob. cbn. by destruct (blob_pending_delete_at b).
Qed.

Lemma still_orphan_filter d row row' : blob_cursor row' <> blob_cursor row ->
  is_blob_still_orphan (set_blobs (base.filter (fun b => row_of row b && marked b = false)) d) (orphan_repo row') (orphan_digest row') true =
  is_blob_still_orphan d (orphan_repo row') (orphan_digest row') true.
Proof.
  intros Hne. unfold is_blob_still_orphan. set (d' := set_blobs _ d). change (repo_location d') with (repo_location d).
  change (protected_by_refs d') with (protected_by_refs d).
  assert (blob_rows d' (orphan_repo row') (orphan_digest row') = blob_rows d (orphan_repo row') (orphan_digest row')) as ->; [|done].
  unfold blob_rows, d'. cbn [oci_blobs set_blobs]. apply filter_absorb. intros b _ [Hr Hd].
  destruct (row_of row b) eqn:E; [|done]. apply row_of_true in E as [Hr' Hd']. destruct Hne. unfold blob_cursor. congruence.
Qed.

Lemma sweep_walk c d0 g page : quiet c d0 -> (forall row, row ∈ page -> storage_for_location c (orphan_at row) = None) ->
  forall w r, NoDup (blob_cursor <$> page) ->
  (forall row, row ∈ page -> is_blob_still_orphan (db w) (orphan_repo row) (orphan_digest row) true = true) ->
  exists r' objs, blob_gc_page c (Sweep g) false page (w, r) =
    ({| db := set_blobs (base.filter (fun b => named_by page b && marked b = false)) (db w); objects := objs |}, r') /\
    errors r' = errors r /\ storage_keys_deleted r' = storage_keys_deleted r + Z.of_nat (length page) /\ objs ⊆ objects w /\
    (forall row, row ∈ page -> object_at (orphan_at row) (orphan_blob_key row) ∉ objs).
Proof.
  intros (_ & Hd & Hf) Hu. induction page as [|row page IH]; intros w r Hn Ho.
  { exists r, (objects w). split_and!; [|done|cbn; lia|done|by intros row ?%elem_of_nil].
    cbn. destruct w as [d o]. cbn. f_equal. f_equal. destruct d. unfold set_blobs. cbn. f_equal. symmetry. by apply filter_id. }
  rewrite fmap_cons in Hn. apply NoDup_cons in Hn as [Hnr Hn].
  change (blob_gc_page c (Sweep g) false (row :: page) (w, r)) with (blob_gc_page c (Sweep g) false page (sweep_marked_blob c row (w, r))).
  unfold sweep_marked_blob. rewrite (Hu row), !Hf, (Ho row) by left. cbn [negb]. unfold delete_object. rewrite Hd.
  destruct (IH (fun row Hin => Hu row (list_elem_of_further _ _ _ Hin)) {| db := set_blobs (base.filter (fun b => row_of row b && marked b = false)) (db w);
                  objects := objects w ∖ {[object_at (orphan_at row) (orphan_blob_key row)]} |} (record_gc_success (orphan_size row) 1 r) Hn)
    as (r' & objs & -> & He & Hc & Hs & Hobj).
  { intros row' Hin. cbn [db]. rewrite still_orphan_filter; [apply Ho; by right|]. intros E. apply Hnr. rewrite <- E. by apply list_elem_of_fmap_2. }
  cbn [db objects] in *. exists r', objs. split_and!.
  - f_equal. f_equal. unfold set_blobs. cbn. f_equal. rewrite list_filter_filter. apply list_filter_iff. intros b.
    fold (named_by page b).
    destruct (row_of row b), (named_by page b), (marked b); cbn; intuition congruence.
  - by rewrite He.
  - rewrite Hc. cbn [storage_keys_deleted record_gc_success length]. lia.
  - set_solver.
  - intros row' [->|Hin]%elem_of_cons; [set_solver|by apply Hobj].
Qed.

(** The candidates of a phase name exactly the rows that pass its filter. *)
Lemma named_by_candidates t age phase d b : blobs_ok d -> b ∈ oci_blobs d ->
  named_by (blob_candidates t age phase d) b = match orphan_blob d t age phase b with Some _ => true | None => false end.
Proof.
  intros [Hn _] Hb. apply eq_true_iff_eq. unfold named_by. rewrite existsb_true. setoid_rewrite elem_of_blob_candidates. split.
  - intros (row & (b' & Hb' & Ho) & [Hr Hd]%row_of_true). assert (b' = b) as ->; [|by rewrite Ho].
    apply orphan_blob_row in Ho as (_ & Hr' & Hd' & _). assert (blob_id b' = blob_id b) as E by (unfold blob_id; congruence).
    clear -Hn Hb Hb' E. revert Hn Hb Hb'. generalize (oci_blobs d) as k. induction k as [|x k IH]; intros Hn Hb Hb'; [by apply elem_of_nil in Hb|].
    rewrite fmap_cons in Hn. apply NoDup_cons in Hn as [Hx Hn].
    apply elem_of_cons in Hb as [->|Hb], Hb' as [->|Hb']; [done| | |by apply IH]; destruct Hx.
    + rewrite <- E. by apply list_elem_of_fmap_2.
    + rewrite E. by apply list_elem_of_fmap_2.
  - destruct (orphan_blob d t age phase b) as [row|] eqn:E; [|done]. intros _. exists row. split; [by exists b|by eapply row_candidate].
Qed.

Lemma candidate_still_orphan t age phase d row pending : row ∈ blob_candidates t age phase d ->
  (pending = true -> exists g, phase = Sweep g) -> is_blob_still_orphan d (orphan_repo row) (orphan_digest row) pending = true.
Proof.
  intros (b & Hb & Ho)%elem_of_blob_candidates Hp. apply orphan_blob_row in Ho as (Hl & Hr & Hd & _ & Hf & Hu).
  unfold is_blob_still_orphan. rewrite Hr, Hl, Hd. apply andb_true_iff. split.
  - apply negb_true_iff, bool_decide_eq_false. intros E. assert (b ∈ base.filter (fun b => negb pending || marked b = true) (blob_rows d (blob_repo b) (blob_digest b))) as Hin.
    { apply list_elem_of_filter. split; [|by apply list_elem_of_filter]. destruct pending; [|done]. destruct (Hp eq_refl) as [g ->].
      unfold phase_filter in Hf. unfold marked. by destruct (blob_pending_delete_at b). }
    rewrite E in Hin. by apply elem_of_nil in Hin.
  - apply forallb_forall. intros x Hx%list_elem_of_In. apply list_elem_of_filter in Hx as [_ Hx].
    apply list_elem_of_filter in Hx as [[_ ->] _]. by rewrite Hu.
Qed.

Lemma candidates_distinct t age phase d : blobs_ok d -> NoDup (blob_cursor <$> blob_candidates t age phase d).
Proof.
  intros Hok. pose proof (candidates_sorted t age phase d Hok) as Hs. induction (blob_candidates t age phase d) as [|x k IH]; [constructor|].
  apply StronglySorted_inv in Hs as [Hs Hf]. rewrite fmap_cons. apply NoDup_cons. split; [|by apply IH].
  intros (y & E & Hy)%list_elem_of_fmap. rewrite Forall_forall in Hf. specialize (Hf y Hy). unfold walk_before in Hf.
  rewrite <- E in Hf. by rewrite (tp_refl compare_cursors) in Hf.
Qed.

Lemma length_omap_some {A B} (f : A -> option B) (P : A -> Prop) `{!forall x, Decision (P x)} l :
  (forall x, x ∈ l -> (exists y, f x = Some y) <-> P x) -> length (omap f l) = length (base.filter P l).
Proof.
  induction l as [|x l IH]; intros Hp; [done|]. assert (length (omap f l) = length (base.filter P l)) as Ht by (apply IH; intros; apply Hp; by right).
  rewrite filter_cons. cbn [omap list_omap]. pose proof (Hp x ltac:(left)) as Hx. destruct (f x) as [y|], (decide (P x)); cbn [length].
  - by f_equal.
  - destruct Hx as [Hx _]. exfalso. eauto.
  - destruct Hx as [_ Hx]. by destruct (Hx ltac:(done)).
  - exact Ht.
Qed.

Lemma filter_fmap_keep {A} (P Q : A -> Prop) `{!forall x, Decision (P x)} `{!forall x, Decision (Q x)} (f : A -> A) (l : list A) :
  (forall x, x ∈ l -> P (f x) <-> Q x) -> (forall x, x ∈ l -> Q x -> f x = x) -> base.filter P (f <$> l) = base.filter Q l.
Proof.
  induction l as [|x l IH]; intros Hp Hf; [done|]. rewrite fmap_cons, !filter_cons.
  assert (base.filter P (f <$> l) = base.filter Q l) as -> by (apply IH; intros x0 Hx0; [apply Hp|apply Hf]; by right).
  pose proof (Hp x ltac:(left)). pose proof (Hf x ltac:(left)). destruct (decide (P (f x))), (decide (Q x)); try tauto. f_equal. tauto.
Qed.

Lemma candidate_resolves c t age phase d row : quiet c d -> row ∈ blob_candidates t age phase d -> storage_for_location c (orphan_at row) = None.
Proof.
  intros Hq (b & _ & Ho)%elem_of_blob_candidates. apply orphan_blob_row in Ho as (Hl & _).
  by apply (quiet_resolves _ _ _ _ Hq (stored_in_own _ _ _ Hl)).
Qed.

Lemma omap_fmap {A B C} (g : B -> option C) (f : A -> B) (l : list A) : omap g (f <$> l) = omap (fun x => g (f x)) l.
Proof. induction l as [|x l IH]; [done|]. rewrite fmap_cons. cbn [omap list_omap]. destruct (g (f x)); [f_equal|]; exact IH. Qed.

(** One row of a quiet pass: what the mark makes of it, and whether the sweep
    then takes it. *)
Lemma marked_row c t' age d b : blobs_ok d -> b ∈ oci_blobs d -> now c < t' ->
  (forall at_, blob_pending_delete_at b = Some at_ -> at_ < t') ->
  let d1 := prune_orphan_blob_refs d in
  let b' := if named_by (blob_candidates (now c) age Mark d1) b then mark_blob (now c) b else b in
  ((exists row, orphan_blob d1 t' age (Sweep 0) b' = Some row) <-> reclaimable (now c) age d b = true) /\
  (reclaimable (now c) age d b = false -> b' = b) /\
  (forall row, orphan_blob d1 t' age (Sweep 0) b' = Some row -> marked b' = true /\
     repo_location d (blob_repo b) = Some (orphan_at row) /\ orphan_blob_key row = blob_key b).
Proof.
  intros Hok Hb Ht Hpast d1. cbn zeta. rewrite (named_by_candidates (now c) age Mark d1) by (done || by destruct Hok).
  unfold orphan_blob, reclaimable. change (repo_location d1) with (repo_location d).
  destruct (repo_location d (blob_repo b)) as [own|] eqn:Hl.
  2: { cbn [mbind option_bind]. rewrite Hl. split_and!; [by split; [intros [? ?]|]|done|done]. }
  cbn [mbind option_bind]. fold d1. destruct (protected_by_refs d1 own (blob_digest b)) eqn:Hp.
  { rewrite andb_false_r, Hl. cbn [mbind option_bind]. rewrite Hp, andb_false_r. split_and!; [by split; [intros [? ?]|]|done|done]. }
  rewrite andb_true_r. cbn [negb andb]. destruct (phase_filter (now c) age Mark b) eqn:Ha; rewrite ?orb_true_r, ?orb_false_r.
  - change (blob_repo (mark_blob (now c) b)) with (blob_repo b). change (blob_digest (mark_blob (now c) b)) with (blob_digest b).
    rewrite Hl. cbn [mbind option_bind]. rewrite Hp, andb_true_r.
    assert (phase_filter t' age (Sweep 0) (mark_blob (now c) b) = true) as ->.
    { unfold phase_filter, mark_blob. cbn [blob_pending_delete_at].
      destruct (blob_pending_delete_at b) as [at_|]; apply Z.ltb_lt; [specialize (Hpast at_ eq_refl)|]; lia. }
    split_and!; [by split; eauto|done|]. intros row [= <-]. split; [|done]. unfold marked, mark_blob. cbn. by destruct (blob_pending_delete_at b).
  - rewrite Hl. cbn [mbind option_bind]. rewrite Hp, andb_true_r. unfold marked, phase_filter. destruct (blob_pending_delete_at b) as [at_|] eqn:Em.
    + assert ((at_ <? t' - 0 * NANOS_PER_SEC)%Z = true) as -> by (apply Z.ltb_lt; specialize (Hpast at_ eq_refl); lia).
      split_and!; [by split; eauto|done|]. by intros row [= <-].
    + split_and!; [by split; [intros [? ?]|]|done|done].
Qed.

(** A collection in which nothing fails takes exactly the orphans: the
    rows that no manifest still live refers to at their storage and that are
    older than the minimum age, or were marked before.  Each loses its object;
    every other row stays as it was; the count is theirs. *)
Theorem quiet_blob_gc_exact c c' age n w :
  (1 <= n)%nat -> quiet c (db w) -> quiet c' (db w) -> gc_ok (db w) -> now c < now c' ->
  (forall b at_, b ∈ oci_blobs (db w) -> blob_pending_delete_at b = Some at_ -> at_ < now c') ->
  exists w' r, run_blob_gc c c' age false n w = Some (w', Ok r) /\ errors r = [] /\
    oci_blobs (db w') = base.filter (fun b => reclaimable (now c) age (db w) b = false) (oci_blobs (db w)) /\
    storage_keys_deleted r = Z.of_nat (length (base.filter (fun b => reclaimable (now c) age (db w) b = true) (oci_blobs (db w)))) /\
    (forall b l, b ∈ oci_blobs (db w) -> reclaimable (now c) age (db w) b = true -> repo_location (db w) (blob_repo b) = Some l ->
       object_at l (blob_key b) ∉ objects w').
Proof.
  intros Hn Hq Hq' [Hok Hnm] Ht Hpast. set (d1 := prune_orphan_blob_refs (db w)).
  assert (blobs_ok d1) as Hok1 by (by destruct Hok).
  set (w1 := {| db := d1; objects := objects w |}). unfold run_blob_gc, run_blob_gc_mark. pose proof Hq as (_ & _ & Hf). rewrite Hf. fold d1. fold w1.
  rewrite phase_walk by (done || by split). cbn [db].
  destruct (mark_walk c (db w) (blob_candidates (now c) age Mark d1) Hq w1 (empty_gc_result false)) as (r1 & E1 & He1).
  { intros row Hin. by apply (candidate_still_orphan (now c) age Mark). }
  cbn [db w1] in *. rewrite E1. set (f := fun b => if named_by _ b then _ else b) in *.
  set (d2 := set_blobs (fmap f) d1) in *. set (w2 := {| db := d2; objects := objects w1 |}).
  assert (blobs_ok d2) as Hok2 by (apply blobs_ok_map; [|done]; intros b; unfold f; by case_match).
  unfold run_blob_gc_sweep. pose proof Hq' as (_ & _ & Hf'). rewrite (phase_walk c' age (Sweep 0) false n w2) by (done || by split).
  destruct (sweep_walk c' (db w) 0 (blob_candidates (now c') age (Sweep 0) d2) Hq' (fun row => candidate_resolves c' (now c') age (Sweep 0) d2 row Hq') w2 (empty_gc_result false)) as (r2 & objs & E2 & He2 & Hc2 & _ & Hobj).
  { by apply candidates_distinct. }
  { intros row Hin. apply (candidate_still_orphan (now c') age (Sweep 0)); [done|]. by exists 0. }
  cbn [db w2] in *. rewrite E2.
  assert (forall b, b ∈ oci_blobs (db w) -> _) as Hrow
    by (intros b Hb; exact (marked_row c (now c') age (db w) b Hok Hb Ht (fun at_ => Hpast b at_ Hb))).
  cbn zeta in Hrow. fold d1 in Hrow. change (orphan_blob d1) with (orphan_blob d2) in Hrow.
  eexists _, _. split; [reflexivity|]. split_and!.
  - cbn. by rewrite He2, He1.
  - cbn [db oci_blobs set_blobs d2 d1 prune_orphan_blob_refs set_blob_refs]. apply filter_fmap_keep; intros b Hb; destruct (Hrow b Hb) as (Hx & Hsame & Hm); [|exact Hsame].
    rewrite (named_by_candidates (now c') age (Sweep 0) d2) by (done || by apply list_elem_of_fmap_2). fold (f b) in *.
    destruct (orphan_blob d2 (now c') age (Sweep 0) (f b)) as [row|] eqn:Eo.
    + destruct (Hm row eq_refl) as [-> _]. assert (reclaimable (now c) age (db w) b = true) as -> by (apply Hx; eauto). done.
    + cbn. destruct (reclaimable (now c) age (db w) b); [|done]. destruct Hx as [_ Hx]. by destruct (Hx eq_refl).
  - cbn [storage_keys_deleted add_errors]. rewrite Hc2. cbn [storage_keys_deleted empty_gc_result]. rewrite Z.add_0_l. f_equal.
    unfold blob_candidates. rewrite (Permutation_length (sort_by_perm _ _)). cbn [oci_blobs set_blobs d2 d1 prune_orphan_blob_refs set_blob_refs].
    rewrite omap_fmap. apply length_omap_some. intros b Hb. apply (Hrow b Hb).
  - intros b l Hb Hr Hl. destruct (Hrow b Hb) as (Hx & _ & Hm). apply Hx in Hr as (row & Eo). destruct (Hm row Eo) as (_ & Hat & Hkey).
    assert (orphan_at row = l) as <- by congruence. rewrite <- Hkey. apply Hobj. apply elem_of_blob_candidates. exists (f b). split; [|done].
    by apply list_elem_of_fmap_2.
Qed.

End Quiet.

(** * Concrete runs *)

(** Two bodies: an image with a config and a layer, and an empty index. *)
Definition sample_image : Json :=
  JObject [("config", JObject [("digest", JString "sha256:c")]); ("layers", JArray [JObject [("digest", JString "sha256:l")]])].
Definition sample_index : Json := JObject [("manifests", JArray [])].

#[local] Instance sample_codec : ManifestCodec.
Proof.
  refine {| from_slice := fun body => if body =? "image" then Some sample_image else if body =? "index" then Some sample_index else None;
            parse_manifest := fun _ => None |}. done.
Defined.

#[local] Instance sample_order : Collation.
Proof. refine {| collate := String.compare |}. intros s. by destruct s. Defined.

Definition sample_content (digest : string) : string := if digest =? "sha256:m" then "image" else "index".

Definition sample_blob (r : Uuid) (digest : string) (mark : option DateTime) : OciBlob :=
  {| blob_repo := r; blob_digest := digest; blob_size := 7; blob_key := OCI_BLOB_STORAGE_PREFIX +:+ digest; blob_created_at := 0;
     blob_pending_delete_at := mark |}.

Definition sample_object (digest : string) : Object := object_at sample_bucket (OCI_BLOB_STORAGE_PREFIX +:+ digest).

(** Blobs of repository 1, one of them marked long ago, and a fresh row of
    repository 2 in the same bucket for the same digest. *)
Definition sample_blobs : GcWorld :=
  {| db := set_artifacts (fun _ => []) (set_blobs (fun _ =>
       [sample_blob 1%N "sha256:c" None; sample_blob 1%N "sha256:l" None; sample_blob 1%N "sha256:o" (Some 1); sample_blob 2%N "sha256:l" None]) sample_db);
     objects := {[sample_object "sha256:c"; sample_object "sha256:l"; sample_object "sha256:o"]} |}.

Definition sample_image_db : GcDb :=
  default (db sample_blobs) (put_manifest sample_content 20%N 1%N "app" "latest" "sha256:m" "application/json" 0 (db sample_blobs)).

Lemma sample_blobs_ok : gc_ok (db sample_blobs).
Proof.
  split; [split|].
  - apply (bool_decide_unpack _). vm_compute. exact I.
  - intros b Hb. repeat (apply elem_of_cons in Hb as [->|Hb]; [reflexivity|]). by apply elem_of_nil in Hb.
  - intros row Hin. repeat (apply elem_of_cons in Hin as [->|Hin]; [done|]). by apply elem_of_nil in Hin.
Qed.

Definition sample_later : GcContext :=
  {| now := 200 * NANOS_PER_DAY; trash_retention_days := 30; storage_registry := storage_registry sample_context;
     undeletable := fun _ => None; gc_fails := fun _ _ => None; decode_sum_i64 := fun _ => None |}.

Lemma tick_keeps_live_images_witness :
  exists w', blob_gc_tick sample_context sample_later true false false false MIN_BLOB_AGE_SECS 3600 1
      {| db := sample_image_db; objects := objects sample_blobs |} = Some w' /\
    sample_object "sha256:l" ∈ objects w' /\ sample_object "sha256:o" ∉ objects w'.
Proof.
  destruct (tick_keeps_live_images sample_content sample_context sample_later true false false false MIN_BLOB_AGE_SECS 3600 1 sample_blobs
    {| db := sample_image_db; objects := objects sample_blobs |}) as (w' & E & Hk).
  - apply rtc_once. apply (bs_manifest sample_content 20%N 1%N "app" "latest" "sha256:m" "application/json" 0). vm_compute. reflexivity.
  - split; [exact sample_blobs_ok|]. intros m blob Hm. by apply elem_of_nil in Hm.
  - lia.
  - exists w'. split; [done|]. destruct (Hk "sha256:m" 1%N "sha256:l" sample_bucket) as [Ho _].
    + apply (bool_decide_unpack _). vm_compute. exact I.
    + apply (bool_decide_unpack _). vm_compute. exact I.
    + reflexivity.
    + split; [apply Ho; apply (bool_decide_unpack _); vm_compute; exact I|].
      vm_compute in E. injection E as <-. apply (bool_decide_unpack _). vm_compute. exact I.
Defined.

Lemma empty_index_closes_gate_witness :
  exists d', put_manifest sample_content 20%N 1%N "app" "latest" "sha256:i" "application/vnd.oci.image.index.v1+json; charset=utf-8" 0
      (db sample_blobs) = Some d' /\ any_live_manifest_missing_refs d' = true.
Proof.
  destruct (put_manifest sample_content 20%N 1%N "app" "latest" "sha256:i" "application/vnd.oci.image.index.v1+json; charset=utf-8" 0
      (db sample_blobs)) as [d'|] eqn:E; [|vm_compute in E; discriminate E].
  exists d'. split; [done|].
  apply (empty_index_closes_gate sample_content 20%N 1%N "app" "latest" "sha256:i" "application/vnd.oci.image.index.v1+json; charset=utf-8" 0
    (db sample_blobs) d' sample_context (fun _ => true) ∅); try (vm_compute; reflexivity). exact E.
Defined.

Lemma sample_quiet_at c d : c = sample_context \/ c = sample_later -> repositories d = repositories sample_db -> quiet c d.
Proof.
  intros Hc E. pose proof sample_quiet as (Hr & _). unfold quiet. rewrite E. by destruct Hc as [->| ->].
Qed.

Definition sample_orphan : OrphanBlob :=
  {| orphan_repo := 1%N; orphan_digest := "sha256:l"; orphan_size := 7; orphan_blob_key := OCI_BLOB_STORAGE_PREFIX +:+ "sha256:l"; orphan_at := sample_bucket |}.

(** The row of repository 1 has been marked since. *)
Definition sample_marked : GcWorld :=
  {| db := set_blobs (fmap (fun b => if bool_decide (blob_repo b = 1%N) then mark_blob 5 b else b)) (db sample_blobs); objects := objects sample_blobs |}.

Lemma sweep_takes_blob_under_push_witness :
  head_blob sample_marked 2%N "sha256:l" = true /\
  sample_blob 2%N "sha256:l" None ∈ oci_blobs (db (fst (sweep_marked_blob sample_later sample_orphan (sample_marked, empty_gc_result false)))) /\
  sample_object "sha256:l" ∉ objects (fst (sweep_marked_blob sample_later sample_orphan (sample_marked, empty_gc_result false))).
Proof.
  split; [vm_compute; reflexivity|].
  destruct (sweep_takes_blob_under_push sample_content sample_later sample_orphan sample_marked (empty_gc_result false) 2%N
    {| backend := "s3"; path := "b" |} 20%N "app" "latest" "sha256:m" "application/json" 0) as (Hrows & Hgone & _);
    try (vm_compute; reflexivity).
  - apply sample_quiet_at; [by right|done].
  - split; reflexivity.
  - apply (bool_decide_unpack _). vm_compute. exact I.
  - split; [apply Hrows; [apply list_elem_of_In; do 3 right; left; reflexivity|done|done]|exact Hgone].
Defined.

Definition sample_images : GcWorld := {| db := sample_image_db; objects := objects sample_blobs |}.

Lemma sample_images_ok : gc_ok (db sample_images).
Proof.
  split; [split|].
  - apply (bool_decide_unpack _). vm_compute. exact I.
  - assert (forallb (fun b => blob_key b =? OCI_BLOB_STORAGE_PREFIX +:+ blob_digest b) (oci_blobs (db sample_images)) = true) as Hf
      by (vm_compute; reflexivity). intros b Hb%list_elem_of_In. rewrite forallb_forall in Hf. apply String.eqb_eq. exact (Hf b Hb).
  - assert (forallb (fun row => negb (bool_decide (repo_id row = 0%N))) (repositories (db sample_images)) = true) as Hf
      by (vm_compute; reflexivity). intros row Hb%list_elem_of_In. rewrite forallb_forall in Hf.
    specialize (Hf row Hb). by apply negb_true_iff, bool_decide_eq_false in Hf.
Qed.

Lemma sample_images_past b at_ : b ∈ oci_blobs (db sample_images) -> blob_pending_delete_at b = Some at_ -> at_ < now sample_later.
Proof.
  assert (forallb (fun b => match blob_pending_delete_at b with Some x => (x <? now sample_later)%Z | None => true end) (oci_blobs (db sample_images)) = true) as Hf
    by (vm_compute; reflexivity). intros Hb%list_elem_of_In. rewrite forallb_forall in Hf.
  specialize (Hf b Hb). intros E. rewrite E in Hf. by apply Z.ltb_lt.
Qed.

Lemma sample_images_reclaimed :
  Z.of_nat (length (base.filter (fun b => reclaimable (now sample_context) MIN_BLOB_AGE_SECS (db sample_images) b = true) (oci_blobs (db sample_images)))) = 1.
Proof. vm_compute. reflexivity. Qed.

Lemma quiet_blob_gc_exact_witness :
  exists w' r, run_blob_gc sample_context sample_later MIN_BLOB_AGE_SECS false 1 sample_images = Some (w', Ok r) /\ storage_keys_deleted r = 1.
Proof.
  destruct (quiet_blob_gc_exact sample_context sample_later MIN_BLOB_AGE_SECS 1 sample_images)
    as (w' & r & E & _ & _ & Hc & _); [lia|apply sample_quiet_at; [by left|vm_compute; reflexivity]|apply sample_quiet_at; [by right|vm_compute; reflexivity]|exact sample_images_ok|reflexivity|exact sample_images_past|].
  exists w', r. split; [exact E|]. rewrite Hc. exact sample_images_reclaimed.
Defined.
