(* ===== verification/SessionDb.v ===== *)
(** What login sessions are kept in ([services/auth_service.rs] and its
    migrations 074, 076, 091, 131, 132 and 175): the accounts with their
    password history, the rows of the refresh tokens and of the spent TOTP
    tickets, the maps one process keeps in memory, and the statements over both
    in sequence.

    The three clocks of a call are told apart: [utc] is the process's wall
    clock, [instant] its monotonic clock and [db_now] the database's [NOW()].
    A call reads each of them once.  The JWT crate, bcrypt and the random
    identifiers are arguments. *)

From stdpp Require Import base list strings gmap.
From Stdlib Require Import ZArith Lia.
From S2P Require Import Prelude RustStr RustNum Errors Chrono Repository AccessDb Auth.

Local Open Scope string_scope.

(** * Tokens *)

(** [Claims]; the part the principal is built from is [Auth.Claims]. *)
Record JwtClaims := {
  identity : Claims;
  exp : Z;
  token_type : string;
  jti : option Uuid;
  family_id : option Uuid;
  scan_pull_repo : option string
}.

Definition subject (c : JwtClaims) : Uuid := sub (identity c).
Definition issued_ms (c : JwtClaims) : Z := effective_iat_ms (identity c).

(** The jsonwebtoken crate under [self_minted_validation], at a Unix time in
    seconds: what it encoded it decodes until [exp], without leeway, and
    nothing past [exp]. *)
Class JwtCrate := {
  Token : Type;
  jwt_encode : JwtClaims -> result string Token;
  jwt_decode : Z -> Token -> result string JwtClaims;
  jwt_decode_encode : forall now c t, jwt_encode c = Ok t -> (now <= exp c)%Z -> jwt_decode now t = Ok c;
  jwt_decode_fresh : forall now t c, jwt_decode now t = Ok c -> (now <= exp c)%Z
}.

(** The bcrypt crate; [dummy_bcrypt_hash] is the hash of the process's pad. *)
Class Bcrypt := {
  bcrypt_verify : string -> string -> result string bool;
  dummy_bcrypt_hash : string
}.

(** * Tables *)

(** A row of [users]: [models/user.rs] with [privileges_changed_at]. *)
Record Account := {
  account_user : User;
  password_hash : option string;
  must_change_password : bool;
  totp_secret : option string;
  totp_enabled : bool;
  totp_backup_codes : option (list string);
  totp_verified_at : option DateTime;
  failed_login_attempts : Z;
  locked_until : option DateTime;
  last_failed_login_at : option DateTime;
  password_changed_at : DateTime;
  privileges_changed_at : DateTime;
  last_login_at : option DateTime
}.

(** A row of [refresh_token_jti]. *)
Record RefreshRow := {
  row_user : Uuid;
  row_family : Uuid;
  row_issued_at : DateTime;
  row_expires_at : DateTime;
  consumed_at : option DateTime;
  revoked_at : option DateTime;
  superseded_by : option Uuid
}.

(** A row of [totp_pending_jti]. *)
Record PendingRow := { pending_user : Uuid; pending_expires_at : DateTime }.

(** A row of [password_history]. *)
Record HistoryRow := { history_user : Uuid; history_hash : string; recorded_at : DateTime }.

(** The history is in the order of its inserts. *)
Record SessionTables := {
  accounts : gmap Uuid Account;
  refresh_jtis : gmap Uuid RefreshRow;
  pending_jtis : gmap Uuid PendingRow;
  password_history : list HistoryRow
}.

Definition set_accounts (f : gmap Uuid Account -> gmap Uuid Account) (db : SessionTables) : SessionTables :=
  {| accounts := f (accounts db); refresh_jtis := refresh_jtis db; pending_jtis := pending_jtis db;
     password_history := password_history db |}.
Definition set_refresh (f : gmap Uuid RefreshRow -> gmap Uuid RefreshRow) (db : SessionTables) : SessionTables :=
  {| accounts := accounts db; refresh_jtis := f (refresh_jtis db); pending_jtis := pending_jtis db;
     password_history := password_history db |}.
Definition set_pending (f : gmap Uuid PendingRow -> gmap Uuid PendingRow) (db : SessionTables) : SessionTables :=
  {| accounts := accounts db; refresh_jtis := refresh_jtis db; pending_jtis := f (pending_jtis db);
     password_history := password_history db |}.
Definition set_history (f : list HistoryRow -> list HistoryRow) (db : SessionTables) : SessionTables :=
  {| accounts := accounts db; refresh_jtis := refresh_jtis db; pending_jtis := pending_jtis db;
     password_history := f (password_history db) |}.

(** [INSERT .. ON CONFLICT (key) DO NOTHING]. *)
Definition insert_new {A} (k : Uuid) (v : A) (m : gmap Uuid A) : gmap Uuid A :=
  match m !! k with Some _ => m | None => <[k := v]> m end.

(** ** Columns a statement sets *)

Definition set_consumed (t : DateTime) (r : RefreshRow) : RefreshRow :=
  {| row_user := row_user r; row_family := row_family r; row_issued_at := row_issued_at r;
     row_expires_at := row_expires_at r; consumed_at := Some t; revoked_at := revoked_at r;
     superseded_by := superseded_by r |}.
Definition set_revoked (t : DateTime) (r : RefreshRow) : RefreshRow :=
  {| row_user := row_user r; row_family := row_family r; row_issued_at := row_issued_at r;
     row_expires_at := row_expires_at r; consumed_at := consumed_at r; revoked_at := Some t;
     superseded_by := superseded_by r |}.
Definition set_superseded (s : Uuid) (r : RefreshRow) : RefreshRow :=
  {| row_user := row_user r; row_family := row_family r; row_issued_at := row_issued_at r;
     row_expires_at := row_expires_at r; consumed_at := consumed_at r; revoked_at := revoked_at r;
     superseded_by := Some s |}.

Definition set_login_counters (attempts : Z) (locked failed : option DateTime) (a : Account) : Account :=
  {| account_user := account_user a; password_hash := password_hash a; must_change_password := must_change_password a;
     totp_secret := totp_secret a; totp_enabled := totp_enabled a; totp_backup_codes := totp_backup_codes a;
     totp_verified_at := totp_verified_at a; failed_login_attempts := attempts; locked_until := locked;
     last_failed_login_at := failed; password_changed_at := password_changed_at a;
     privileges_changed_at := privileges_changed_at a; last_login_at := last_login_at a |}.
Definition set_last_login (t : option DateTime) (a : Account) : Account :=
  {| account_user := account_user a; password_hash := password_hash a; must_change_password := must_change_password a;
     totp_secret := totp_secret a; totp_enabled := totp_enabled a; totp_backup_codes := totp_backup_codes a;
     totp_verified_at := totp_verified_at a; failed_login_attempts := failed_login_attempts a;
     locked_until := locked_until a; last_failed_login_at := last_failed_login_at a;
     password_changed_at := password_changed_at a; privileges_changed_at := privileges_changed_at a;
     last_login_at := t |}.
Definition set_must_change (b : bool) (a : Account) : Account :=
  {| account_user := account_user a; password_hash := password_hash a; must_change_password := b;
     totp_secret := totp_secret a; totp_enabled := totp_enabled a; totp_backup_codes := totp_backup_codes a;
     totp_verified_at := totp_verified_at a; failed_login_attempts := failed_login_attempts a;
     locked_until := locked_until a; last_failed_login_at := last_failed_login_at a;
     password_changed_at := password_changed_at a; privileges_changed_at := privileges_changed_at a;
     last_login_at := last_login_at a |}.
Definition set_totp (secret : option string) (enabled : bool) (codes : option (list string)) (verified : option DateTime)
  (a : Account) : Account :=
  {| account_user := account_user a; password_hash := password_hash a; must_change_password := must_change_password a;
     totp_secret := secret; totp_enabled := enabled; totp_backup_codes := codes; totp_verified_at := verified;
     failed_login_attempts := failed_login_attempts a; locked_until := locked_until a;
     last_failed_login_at := last_failed_login_at a; password_changed_at := password_changed_at a;
     privileges_changed_at := privileges_changed_at a; last_login_at := last_login_at a |}.

Definition set_password (hash : string) (must_change : bool) (changed : DateTime) (a : Account) : Account :=
  {| account_user := account_user a; password_hash := Some hash; must_change_password := must_change;
     totp_secret := totp_secret a; totp_enabled := totp_enabled a; totp_backup_codes := totp_backup_codes a;
     totp_verified_at := totp_verified_at a; failed_login_attempts := failed_login_attempts a;
     locked_until := locked_until a; last_failed_login_at := last_failed_login_at a;
     password_changed_at := changed; privileges_changed_at := privileges_changed_at a; last_login_at := last_login_at a |}.

(** * The process *)

(** [CREDENTIAL_INVALIDATIONS]: a watermark in milliseconds and the [Instant]
    it was recorded at. *)
Notation InvalidationMap := (gmap Uuid (Z * Z)).

Record World := { tables : SessionTables; invalidations : InvalidationMap }.

Definition set_tables (f : SessionTables -> SessionTables) (w : World) : World :=
  {| tables := f (tables w); invalidations := invalidations w |}.
Definition set_invalidations (f : InvalidationMap -> InvalidationMap) (w : World) : World :=
  {| tables := tables w; invalidations := f (invalidations w) |}.

(** * Calls *)

(** The part of [Config] a session depends on. *)
Record SessionConfig := {
  jwt_access_token_expiry_minutes : Z;
  jwt_refresh_token_expiry_days : Z;
  account_lockout_threshold : Z;
  account_lockout_duration_minutes : Z;
  password_expiry_days : Z
}.

Inductive Statement :=
| SelectWatermark | SelectLiveAdmin | BeginRotation | ConsumeJti | SelectActiveUser | InsertSuccessor
| LinkSuccessor | CommitRotation | ClassifyJti | RevokeFamily | RevokeUserFamilies | InsertJti | SelectRevoked
| SelectLogin | UpdateFailure | UpdateSuccess | UpdateExpired | InsertPending | DeleteExpiredJti | DeleteExpiredPending
| SelectPassword | BeginPassword | SelectHistory | UpdatePassword | InsertHistory | PruneHistory | CommitPassword
| SelectTotp | LockBackupCodes | UpdateBackupCodes | CommitBackupCodes | UpdateLastLogin | UpdateTotp | UpdateForce.

(** What a call is given: its clocks, the identifiers [Uuid::new_v4] draws,
    the outcome of the wait for a bcrypt permit and of the blocking task, and
    the statements the database fails. *)
Record Call := {
  utc : DateTime;
  instant : Z;
  db_now : DateTime;
  new_jti : Uuid;
  new_family : Uuid;
  config : SessionConfig;
  permit : bool;
  blocking : option string;
  fault : Statement -> option string
}.

Definition M (A : Type) : Type := World -> result AppError A * World.

Definition ret {A} (a : A) : M A := fun w => (Ok a, w).
Definition fail {A} (e : AppError) : M A := fun w => (Err e, w).
Definition lift {A} (r : result AppError A) : M A := fun w => (r, w).
Definition then_ {A B} (m : M A) (k : A -> M B) : M B :=
  fun w => match m w with (Ok a, w) => k a w | (Err e, w) => (Err e, w) end.

Declare Scope session_scope.
Delimit Scope session_scope with session.
Notation "'let!' x ':=' m 'in' k" := (then_ m (fun x => k))
  (at level 10, x pattern, m at level 100, k at level 200) : session_scope.

(** A query of the tables, and a statement over them. *)
Definition select {A} (c : Call) (s : Statement) (f : SessionTables -> A) : M A :=
  fun w => match fault c s with Some e => (Err (Database e), w) | None => (Ok (f (tables w)), w) end.
Definition execute (c : Call) (s : Statement) (f : SessionTables -> SessionTables) : M unit :=
  fun w => match fault c s with Some e => (Err (Database e), w) | None => (Ok tt, set_tables f w) end.

(** A transaction: without a result, or with an error, its writes are undone. *)
Definition transaction {A} (m : M (option A)) : M (option A) :=
  fun w =>
    match m w with
    | (Ok (Some a), w') => (Ok (Some a), w')
    | (r, w') => (r, {| tables := tables w; invalidations := invalidations w' |})
    end.

(** A failure that is logged and does not stop the handler. *)
Definition best_effort {A} (m : M A) : M unit := fun w => (Ok tt, snd (m w)).

(** ** Clocks in the units the code uses *)

Definition NANOS_PER_MILLI : Z := 1000000.
Definition timestamp (t : DateTime) : Z := (t / NANOS_PER_SEC)%Z.
Definition timestamp_millis (t : DateTime) : Z := (t / NANOS_PER_MILLI)%Z.
Definition minutes (n : Z) : Z := (n * 60 * NANOS_PER_SEC)%Z.
Definition days (n : Z) : Z := (n * NANOS_PER_DAY)%Z.

(** [i64::saturating_sub] and [saturating_add]. *)
Definition saturate_i64 (z : Z) : Z := Z.max (- 2 ^ 63) (Z.min I64_MAX z).
Definition saturating_sub_i64 (a b : Z) : Z := saturate_i64 (a - b).
Definition saturating_add_i64 (a b : Z) : Z := saturate_i64 (a + b).

(** [Instant::elapsed().as_secs()], which is zero before the instant. *)
Definition elapsed_secs (now recorded : Z) : Z := (Z.max 0 (now - recorded) / NANOS_PER_SEC)%Z.

Section Timestamps.
Context `{Chrono}.

(** [DateTime::from_timestamp(s, 0)] and [from_timestamp_millis]. *)
Definition from_timestamp (s : Z) : option DateTime :=
  let t := (s * NANOS_PER_SEC)%Z in if (MIN_UTC <=? t)%Z && (t <=? MAX_UTC)%Z then Some t else None.
Definition from_timestamp_millis (ms : Z) : option DateTime :=
  let t := (ms * NANOS_PER_MILLI)%Z in if (MIN_UTC <=? t)%Z && (t <=? MAX_UTC)%Z then Some t else None.
End Timestamps.

(** * Lemmas *)

Lemma then_Ok {A B} (m : M A) (k : A -> M B) w b w' :
  then_ m k w = (Ok b, w') <-> exists a w1, m w = (Ok a, w1) /\ k a w1 = (Ok b, w').
Proof. unfold then_. destruct (m w) as [[a|e] w1]; naive_solver. Qed.

Lemma then_Err {A B} (m : M A) (k : A -> M B) w e w' :
  then_ m k w = (Err e, w') <-> m w = (Err e, w') \/ exists a w1, m w = (Ok a, w1) /\ k a w1 = (Err e, w').
Proof. unfold then_. destruct (m w) as [[a|e'] w1]; naive_solver. Qed.

Lemma insert_new_lookup {A} k (v : A) m k' :
  insert_new k v m !! k' = if decide (k = k') then Some (default v (m !! k)) else m !! k'.
Proof.
  unfold insert_new. destruct (decide (k = k')) as [<-|Hne].
  - destruct (m !! k) eqn:E; simpl; [done|]. by rewrite lookup_insert_eq.
  - destruct (m !! k); [done|]. by rewrite lookup_insert_ne.
Qed.

Lemma saturate_id z : (- 2 ^ 63 <= z <= I64_MAX)%Z -> saturate_i64 z = z.
Proof. unfold saturate_i64. lia. Qed.

Lemma elapsed_lt n now r : (0 < n)%Z -> (elapsed_secs now r <? n)%Z = true <-> (now - r < n * NANOS_PER_SEC)%Z.
Proof.
  unfold elapsed_secs, NANOS_PER_SEC. intros Hn. rewrite Z.ltb_lt. split; intros Hlt.
  - destruct (Z_le_gt_dec (now - r) 0); [lia|]. rewrite Z.max_r in Hlt by lia.
    pose proof (Z.div_mod (now - r) 1000000000). pose proof (Z.mod_pos_bound (now - r) 1000000000). nia.
  - apply Z.div_lt_upper_bound; lia.
Qed.
