(* ===== verification/Sessions.v ===== *)
(** Login sessions ([services/auth_service.rs]): the credential watermarks,
    minting and validation of access tokens, rotation of refresh tokens, the
    reusable registry token, revocation and the janitors, the TOTP tickets and
    the local password login. *)

From stdpp Require Import base list strings gmap.
From Stdlib Require Import ZArith Lia.
From S2P Require Import Prelude RustStr RustNum Chrono Repository AccessDb Auth Tokens Errors SessionDb.

Local Open Scope string_scope.
Local Open Scope session_scope.

(** * The credential watermarks *)

Definition INVALIDATION_RETENTION_MS : Z := 7 * 24 * 3600 * 1000.
Definition CREDENTIAL_DB_CACHE_TTL_SECS : Z := 5.
Definition CREDENTIAL_DB_CLOCK_SKEW_TOLERANCE_MS : Z := 2000.

Definition apply_db_clock_skew_tolerance (db_watermark_ms : Z) : Z :=
  saturating_sub_i64 db_watermark_ms CREDENTIAL_DB_CLOCK_SKEW_TOLERANCE_MS.

(** The write is monotonic; [retain] then drops what is a week old. *)
Definition invalidate_user_tokens_at (c : Call) (u : Uuid) (watermark_ms : Z) (m : InvalidationMap) : InvalidationMap :=
  let e := match m !! u with
           | Some e => if (fst e <? watermark_ms)%Z then (watermark_ms, instant c) else e
           | None => (watermark_ms, instant c)
           end in
  let cutoff := (timestamp_millis (utc c) - INVALIDATION_RETENTION_MS)%Z in
  base.filter (fun p : Uuid * (Z * Z) => (cutoff < fst (snd p))%Z) (<[u := e]> m).

Definition invalidate_user_tokens (c : Call) (u : Uuid) (m : InvalidationMap) : InvalidationMap :=
  invalidate_user_tokens_at c u (timestamp_millis (utc c)) m.

Definition invalidate_user_tokens_except_caller (c : Call) (u : Uuid) (caller_iat_ms : Z) (m : InvalidationMap)
  : InvalidationMap := invalidate_user_tokens_at c u (saturating_sub_i64 caller_iat_ms 1) m.

Definition invalidate_other_sessions (c : Call) (u : Uuid) (caller_iat_ms : option Z) (m : InvalidationMap)
  : InvalidationMap :=
  match caller_iat_ms with
  | Some ms => invalidate_user_tokens_except_caller c u ms m
  | None => invalidate_user_tokens c u m
  end.

Definition is_token_invalidated (m : InvalidationMap) (u : Uuid) (issued_at_ms : Z) : bool :=
  match m !! u with Some e => (issued_at_ms <=? fst e)%Z | None => false end.

Definition invalidation_watermark_ms (m : InvalidationMap) (u : Uuid) : option Z := fst <$> m !! u.

Record CredentialWatermark := { watermark : Z; watermark_is_active : bool }.

(** [GREATEST(password_changed_at, COALESCE(totp_verified_at, password_changed_at), privileges_changed_at)]. *)
Definition credential_changed_at (a : Account) : DateTime :=
  Z.max (password_changed_at a) (Z.max (default (password_changed_at a) (totp_verified_at a)) (privileges_changed_at a)).

(** The fast path: an entry recorded less than five seconds ago. *)
Definition cached_watermark (c : Call) (m : InvalidationMap) (u : Uuid) : option CredentialWatermark :=
  match m !! u with
  | Some (changed_at, recorded) =>
      if (elapsed_secs (instant c) recorded <? CREDENTIAL_DB_CACHE_TTL_SECS)%Z
      then Some {| watermark := changed_at; watermark_is_active := true |} else None
  | None => None
  end.

(** The rest of it reads the row, and records the watermark of an active
    account. *)
Definition read_watermark (c : Call) (u : Uuid) : M (option CredentialWatermark) :=
  let! row := select c SelectWatermark (fun db => accounts db !! u) in
  match row with
  | None => ret None
  | Some a => fun w =>
      let mark := apply_db_clock_skew_tolerance (timestamp_millis (credential_changed_at a)) in
      let is_active := user_is_active (account_user a) in
      (Ok (Some {| watermark := mark; watermark_is_active := is_active |}),
       if is_active then set_invalidations (invalidate_user_tokens_at c u mark) w else w)
  end.

Definition fetch_credential_change_watermark (c : Call) (u : Uuid) : M (option CredentialWatermark) := fun w =>
  match cached_watermark c (invalidations w) u with
  | Some e => (Ok (Some e), w)
  | None => read_watermark c u w
  end.

Definition is_token_invalidated_replica_safe (c : Call) (u : Uuid) (issued_at_ms : Z) : M bool :=
  let! entry := fetch_credential_change_watermark c u in
  match entry with
  | Some entry => ret (if negb (watermark_is_active entry) then true else (issued_at_ms <? watermark entry)%Z)
  | None => ret false
  end.

Definition active_account (db : SessionTables) (u : Uuid) : option Account :=
  match accounts db !! u with
  | Some a => if user_is_active (account_user a) then Some a else None
  | None => None
  end.

Definition fetch_live_is_admin (c : Call) (u : Uuid) : M (option bool) :=
  select c SelectLiveAdmin (fun db => (fun a => user_is_admin (account_user a)) <$> active_account db u).

(** * Minting *)

Definition REGISTRY_REFRESH_TOKEN_TYPE : string := "registry_refresh".
Definition TOTP_ENROLLMENT_TOKEN_TYPE : string := "totp_enroll".
Definition REFRESH_REPLAY_BENIGN_GRACE_SECS : Z := 30.

(** The claims a user's token carries. *)
Definition claims_for (a : Account) (iat_secs ms : Z) (repo_ids : option (list Uuid)) (scopes : option (list string))
  : Claims :=
  {| sub := user_id (account_user a); claims_username := user_username (account_user a);
     claims_email := user_email (account_user a); claims_is_admin := user_is_admin (account_user a);
     claims_repo_ids := repo_ids; iat := iat_secs; claims_iat_ms := Some ms; claims_scopes := scopes |}.

Section Sessions.
Context `{Chrono} `{JwtCrate} `{Bcrypt}.

Record TokenPair := { access_token : Token; refresh_token : Token; expires_in : Z }.
Record AccessToken := { bare_access_token : Token; bare_expires_in : Z }.
Record MintedAccess := { minted_token : AccessToken; minted_now : DateTime; minted_iat_secs : Z; minted_iat_ms : Z }.

Definition encode_token (c : JwtClaims) : result AppError Token :=
  match jwt_encode c with Ok t => Ok t | Err e => Err (Internal ("Token encoding failed: " +:+ e)) end.

Definition decode_token (c : Call) (t : Token) : M JwtClaims :=
  lift (match jwt_decode (timestamp (utc c)) t with
        | Ok claims => Ok claims
        | Err e => Err (Authentication ("Invalid token: " +:+ e))
        end).

(** The instant a mint stamps: past the watermark of this process. *)
Definition mint_ms (c : Call) (m : InvalidationMap) (u : Uuid) : Z :=
  let now_ms := timestamp_millis (utc c) in
  match invalidation_watermark_ms m u with
  | Some watermark_ms => if (now_ms <=? watermark_ms)%Z then saturating_add_i64 watermark_ms 1 else now_ms
  | None => now_ms
  end.

Definition access_claims (c : Call) (m : InvalidationMap) (a : Account) (repo_ids : option (list Uuid))
  (scopes : option (list string)) (credential_exp : option DateTime) (family : option Uuid) : JwtClaims :=
  let ms := mint_ms c m (user_id (account_user a)) in
  {| identity := claims_for a (ms / 1000)%Z ms repo_ids scopes;
     exp := timestamp (cap_access_expiry (utc c + minutes (jwt_access_token_expiry_minutes (config c)))%Z credential_exp);
     token_type := "access"; jti := None; family_id := family; scan_pull_repo := None |}.

Definition mint_access_token (c : Call) (a : Account) (repo_ids : option (list Uuid)) (scopes : option (list string))
  (credential_exp : option DateTime) (family : option Uuid) : M MintedAccess := fun w =>
  let ms := mint_ms c (invalidations w) (user_id (account_user a)) in
  let access_exp :=
    cap_access_expiry (utc c + minutes (jwt_access_token_expiry_minutes (config c)))%Z credential_exp in
  match encode_token (access_claims c (invalidations w) a repo_ids scopes credential_exp family) with
  | Ok t => (Ok {| minted_token := {| bare_access_token := t;
                                      bare_expires_in := Z.max 0 (Z.quot (access_exp - utc c)%Z NANOS_PER_SEC) |};
                   minted_now := utc c; minted_iat_secs := (ms / 1000)%Z; minted_iat_ms := ms |}, w)
  | Err e => (Err e, w)
  end.

Definition generate_access_token_capped (c : Call) (a : Account) (scopes : option (list string))
  (repo_ids : option (list Uuid)) (credential_exp : option DateTime) : M AccessToken :=
  let! minted := mint_access_token c a repo_ids scopes credential_exp None in
  ret (minted_token minted).

Definition refresh_claims (c : Call) (a : Account) (family : Uuid) (repo_ids : option (list Uuid))
  (scopes : option (list string)) (refresh_token_type : string) (access : MintedAccess) : JwtClaims :=
  {| identity := claims_for a (minted_iat_secs access) (minted_iat_ms access) repo_ids scopes;
     exp := timestamp (minted_now access + days (jwt_refresh_token_expiry_days (config c)))%Z;
     token_type := refresh_token_type; jti := Some (new_jti c); family_id := Some family; scan_pull_repo := None |}.

Definition generate_token_pair_capped (c : Call) (a : Account) (family : Uuid) (repo_ids : option (list Uuid))
  (scopes : option (list string)) (refresh_token_type : string) (credential_exp : option DateTime) : M TokenPair :=
  let! access := mint_access_token c a repo_ids scopes credential_exp (Some family) in
  let! refresh := lift (encode_token (refresh_claims c a family repo_ids scopes refresh_token_type access)) in
  ret {| access_token := bare_access_token (minted_token access); refresh_token := refresh;
         expires_in := bare_expires_in (minted_token access) |}.

Definition generate_token_pair_typed (c : Call) (a : Account) (family : Uuid) (repo_ids : option (list Uuid))
  (scopes : option (list string)) (refresh_token_type : string) : M TokenPair :=
  generate_token_pair_capped c a family repo_ids scopes refresh_token_type None.

Definition generate_tokens_with_family_and_scope (c : Call) (a : Account) (family : Uuid)
  (repo_ids : option (list Uuid)) (scopes : option (list string)) : M TokenPair :=
  generate_token_pair_typed c a family repo_ids scopes "refresh".

Definition generate_tokens_with_family (c : Call) (a : Account) (family : Uuid) : M TokenPair :=
  generate_tokens_with_family_and_scope c a family None None.

Definition generate_tokens (c : Call) (a : Account) : M TokenPair :=
  generate_tokens_with_family_and_scope c a (new_family c) None None.

Definition generate_tokens_with_repo_scope (c : Call) (a : Account) (repo_ids : option (list Uuid)) : M TokenPair :=
  generate_tokens_with_family_and_scope c a (new_family c) repo_ids None.

Definition generate_tokens_with_scope (c : Call) (a : Account) (scopes : option (list string))
  (repo_ids : option (list Uuid)) : M TokenPair :=
  generate_tokens_with_family_and_scope c a (new_family c) repo_ids scopes.

Definition generate_tokens_with_scope_capped (c : Call) (a : Account) (scopes : option (list string))
  (repo_ids : option (list Uuid)) (credential_exp : option DateTime) : M TokenPair :=
  generate_token_pair_capped c a (new_family c) repo_ids scopes "refresh" credential_exp.

Definition scan_claims (c : Call) (a : Account) (repo_key : string) (ttl_seconds : Z) : JwtClaims :=
  {| identity := claims_for a (timestamp (utc c)) (timestamp_millis (utc c)) None None;
     exp := timestamp (utc c + ttl_seconds * NANOS_PER_SEC)%Z;
     token_type := "access"; jti := None; family_id := None; scan_pull_repo := Some repo_key |}.

Definition generate_scan_token (c : Call) (a : Account) (repo_key : string) (ttl_seconds : Z) : result AppError Token :=
  encode_token (scan_claims c a repo_key ttl_seconds).

(** * The rows of the refresh tokens *)

(** The foreign key of a new row: PostgreSQL's rejection of an account that is
    gone. *)
Definition FK_VIOLATION : string :=
  "insert or update on table violates foreign key constraint: user_id is not present in table users".

Definition insert_jti (c : Call) (s : Statement) (j u family : Uuid) (issued_at expires_at : DateTime) : M unit :=
  fun w =>
    let row := {| row_user := u; row_family := family; row_issued_at := issued_at; row_expires_at := expires_at;
                  consumed_at := None; revoked_at := None; superseded_by := None |} in
    match refresh_jtis (tables w) !! j, accounts (tables w) !! u with
    | None, None => (Err (Database (default FK_VIOLATION (fault c s))), w)
    | _, _ => execute c s (set_refresh (insert_new j row)) w
    end.

Definition record_refresh_token_jti (c : Call) (j u family : Uuid) (issued_at expires_at : DateTime) : M unit :=
  insert_jti c InsertJti j u family issued_at expires_at.

(** The instants of a row, from the claims of the token it stands for. *)
Definition row_instants (claims : JwtClaims) : result AppError (DateTime * DateTime) :=
  match from_timestamp (iat (identity claims)) with
  | None => Err (Internal "Invalid iat in minted refresh token")
  | Some issued_at =>
      match from_timestamp (exp claims) with
      | None => Err (Internal "Invalid exp in minted refresh token")
      | Some expires_at => Ok (issued_at, expires_at)
      end
  end.

Definition persist_refresh_jti_from_pair (c : Call) (tokens : TokenPair) (u : Uuid) : M unit :=
  let! claims := decode_token c (refresh_token tokens) in
  match jti claims with
  | None => ret tt
  | Some j =>
      match family_id claims with
      | None => ret tt
      | Some family =>
          let! instants := lift (row_instants claims) in
          record_refresh_token_jti c j u family (fst instants) (snd instants)
      end
  end.

(** * Validation of an access token *)

Definition INVALIDATED : AppError := Authentication "Token invalidated by credential change".
Definition INVALID_TYPE : AppError := Authentication "Invalid token type".

Definition validate_access_token (c : Call) (t : Token) : M JwtClaims :=
  let! claims := decode_token c t in
  if negb (String.eqb (token_type claims) "access") then fail INVALID_TYPE else
  fun w =>
    if is_token_invalidated (invalidations w) (subject claims) (issued_ms claims) then (Err INVALIDATED, w)
    else (Ok claims, w).

Definition reject_if_invalidated_replica_safe (c : Call) (claims : JwtClaims) : M unit :=
  let! invalidated := is_token_invalidated_replica_safe c (subject claims) (issued_ms claims) in
  if invalidated : bool then fail INVALIDATED else ret tt.

Definition with_live_admin (b : bool) (claims : JwtClaims) : JwtClaims :=
  let i := identity claims in
  {| identity := {| sub := sub i; claims_username := claims_username i; claims_email := claims_email i;
                    claims_is_admin := b; claims_repo_ids := claims_repo_ids i; iat := iat i;
                    claims_iat_ms := claims_iat_ms i; claims_scopes := claims_scopes i |};
     exp := exp claims; token_type := token_type claims; jti := jti claims; family_id := family_id claims;
     scan_pull_repo := scan_pull_repo claims |}.

Definition validate_access_token_async (c : Call) (t : Token) : M JwtClaims :=
  let! claims := decode_token c t in
  if negb (String.eqb (token_type claims) "access") then fail INVALID_TYPE else
  let! _ := reject_if_invalidated_replica_safe c claims in
  let! live := fetch_live_is_admin c (subject claims) in
  match live with
  | Some db_is_admin => ret (with_live_admin db_is_admin claims)
  | None => fail (Authentication "Token subject is no longer an active user")
  end.

(** * Rotation *)

Definition load_active_user (c : Call) (u : Uuid) : M Account :=
  let! row := select c SelectActiveUser (fun db => active_account db u) in
  match row with Some a => ret a | None => fail (Authentication "User not found") end.

(** Neither consumed nor revoked. *)
Definition is_live (r : RefreshRow) : bool :=
  match consumed_at r, revoked_at r with None, None => true | _, _ => false end.

Definition live_jti (db : SessionTables) (j : Uuid) : bool :=
  match refresh_jtis db !! j with Some r => is_live r | None => false end.

(** [UPDATE .. SET consumed_at = NOW() WHERE jti = $1 AND consumed_at IS NULL
    AND revoked_at IS NULL RETURNING family_id]. *)
Definition consume (c : Call) (j : Uuid) : M bool :=
  let! won := select c ConsumeJti (fun db => live_jti db j) in
  if won : bool
  then fun w => (Ok true, set_tables (set_refresh (alter (set_consumed (db_now c)) j)) w)
  else ret false.

(** The winner's part: the successor in the same family, under the grant of
    the presented token, recorded and linked. *)
Definition mint_successor (c : Call) (j family : Uuid) (claims : JwtClaims) : M (Account * TokenPair) :=
  let! a := load_active_user c (subject claims) in
  let! tokens := generate_tokens_with_family_and_scope c a family (claims_repo_ids (identity claims))
                   (claims_scopes (identity claims)) in
  let! succ := decode_token c (refresh_token tokens) in
  let! _ := match jti succ, family_id succ with
            | Some succ_jti, Some succ_family =>
                let! instants := lift (row_instants succ) in
                let! _ := insert_jti c InsertSuccessor succ_jti (user_id (account_user a)) succ_family
                            (fst instants) (snd instants) in
                execute c LinkSuccessor (set_refresh (alter (set_superseded succ_jti) j))
            | _, _ => ret tt
            end in
  let! _ := execute c CommitRotation (fun db => db) in
  ret (a, tokens).

Definition rotate (c : Call) (j family : Uuid) (claims : JwtClaims) : M (option (Account * TokenPair)) :=
  let! _ := execute c BeginRotation (fun db => db) in
  transaction
    (let! won := consume c j in
     if won : bool then let! r := mint_successor c j family claims in ret (Some r) else ret None).

(** The classifying read of a row that was not live. *)
Definition consumed_past_grace (c : Call) (r : RefreshRow) : bool :=
  match consumed_at r with
  | Some t => (t <? db_now c - REFRESH_REPLAY_BENIGN_GRACE_SECS * NANOS_PER_SEC)%Z
  | None => false
  end.

Definition successor_of (db : SessionTables) (r : RefreshRow) : option RefreshRow :=
  match superseded_by r with Some s => refresh_jtis db !! s | None => None end.

Definition genuine_replay (c : Call) (db : SessionTables) (r : RefreshRow) : bool :=
  consumed_past_grace c r ||
  match successor_of db r with Some s => negb (is_live s) | None => true end.

(** [UPDATE refresh_token_jti SET revoked_at = NOW() WHERE .. AND revoked_at IS NULL]. *)
Definition revoke_where (c : Call) (p : RefreshRow -> bool) : gmap Uuid RefreshRow -> gmap Uuid RefreshRow :=
  fmap (fun r => if p r then match revoked_at r with None => set_revoked (db_now c) r | Some _ => r end else r).

Definition in_family (family : Uuid) (r : RefreshRow) : bool := bool_decide (row_family r = family).
Definition of_user (u : Uuid) (r : RefreshRow) : bool := bool_decide (row_user r = u).

Definition REVOKED : AppError := Authentication "Refresh token has been revoked".
Definition REPLAYED : AppError := Authentication "Refresh token replay detected".
Definition ALREADY_USED : AppError := Authentication "Refresh token already used".

(** The loser's part. *)
Definition classify (c : Call) (j family : Uuid) (claims : JwtClaims) : M (Account * TokenPair) :=
  let! row := select c ClassifyJti (fun db => (fun r => (r, genuine_replay c db r)) <$> refresh_jtis db !! j) in
  match row with
  | None =>
      let! a := load_active_user c (subject claims) in
      let! tokens := generate_tokens_with_family_and_scope c a family (claims_repo_ids (identity claims))
                       (claims_scopes (identity claims)) in
      let! _ := persist_refresh_jti_from_pair c tokens (user_id (account_user a)) in
      ret (a, tokens)
  | Some (r, replay) =>
      match revoked_at r with
      | Some _ => fail REVOKED
      | None =>
          match consumed_at r with
          | Some _ =>
              if replay : bool
              then let! _ := execute c RevokeFamily (set_refresh (revoke_where c (in_family (row_family r)))) in
                   fail REPLAYED
              else fail ALREADY_USED
          | None => fail ALREADY_USED
          end
      end
  end.

Definition refresh_tokens (c : Call) (t : Token) : M (Account * TokenPair) :=
  let! claims := decode_token c t in
  if negb (String.eqb (token_type claims) "refresh") then fail INVALID_TYPE else
  let! _ := reject_if_invalidated_replica_safe c claims in
  match jti claims, family_id claims with
  | Some j, Some family =>
      let! won := rotate c j family claims in
      match won with Some r => ret r | None => classify c j family claims end
  | _, _ =>
      let! a := load_active_user c (subject claims) in
      let! tokens := generate_tokens_with_scope c a (claims_scopes (identity claims))
                       (claims_repo_ids (identity claims)) in
      let! _ := persist_refresh_jti_from_pair c tokens (user_id (account_user a)) in
      ret (a, tokens)
  end.

(** * The reusable registry token *)

Definition mint_access_from_registry_refresh (c : Call) (t : Token) : M (Account * TokenPair) :=
  let! claims := decode_token c t in
  if negb (String.eqb (token_type claims) REGISTRY_REFRESH_TOKEN_TYPE) then fail INVALID_TYPE else
  let! _ := reject_if_invalidated_replica_safe c claims in
  let! _ := match jti claims with
            | Some j =>
                let! row := select c SelectRevoked (fun db => refresh_jtis db !! j) in
                match row with
                | Some r => match revoked_at r with Some _ => fail REVOKED | None => ret tt end
                | None => ret tt
                end
            | None => ret tt
            end in
  let! a := load_active_user c (subject claims) in
  let! minted := generate_tokens_with_family_and_scope c a (default (new_family c) (family_id claims))
                   (claims_repo_ids (identity claims)) (claims_scopes (identity claims)) in
  ret (a, {| access_token := access_token minted; refresh_token := t; expires_in := expires_in minted |}).

Definition generate_registry_offline_token (c : Call) (a : Account) (repo_ids : option (list Uuid))
  (scopes : option (list string)) : M Token :=
  let! minted := generate_token_pair_typed c a (new_family c) repo_ids scopes REGISTRY_REFRESH_TOKEN_TYPE in
  let! _ := persist_refresh_jti_from_pair c minted (user_id (account_user a)) in
  ret (refresh_token minted).

(** * Revocation and the janitors

    Each returns the number of rows it wrote. *)

Definition matching (p : RefreshRow -> bool) (m : gmap Uuid RefreshRow) : gmap Uuid RefreshRow :=
  base.filter (fun kr : Uuid * RefreshRow => p (snd kr) = true /\ revoked_at (snd kr) = None) m.

Definition revoke_rows (c : Call) (s : Statement) (p : RefreshRow -> bool) : M nat :=
  let! affected := select c s (fun db => size (matching p (refresh_jtis db))) in
  fun w => (Ok affected, set_tables (set_refresh (revoke_where c p)) w).

Definition revoke_all_refresh_token_families (c : Call) (u : Uuid) : M nat :=
  revoke_rows c RevokeUserFamilies (of_user u).

Definition revoke_refresh_token_family (c : Call) (family : Uuid) : M nat :=
  revoke_rows c RevokeFamily (in_family family).

Definition revoke_refresh_token_family_for (c : Call) (t : Token) : M nat :=
  let! claims := decode_token c t in
  if negb (String.eqb (token_type claims) "refresh") then fail INVALID_TYPE else
  match family_id claims with
  | None => ret 0
  | Some family => revoke_refresh_token_family c family
  end.

Definition expired_rows {A} (expires : A -> DateTime) (cutoff : DateTime) (m : gmap Uuid A) : gmap Uuid A :=
  base.filter (fun kr : Uuid * A => (expires (snd kr) < cutoff)%Z) m.
Definition kept_rows {A} (expires : A -> DateTime) (cutoff : DateTime) (m : gmap Uuid A) : gmap Uuid A :=
  base.filter (fun kr : Uuid * A => (cutoff <= expires (snd kr))%Z) m.

Definition cleanup_expired_refresh_token_jti (c : Call) (grace : Z) : M nat :=
  let cutoff := (utc c - grace)%Z in
  let! removed := select c DeleteExpiredJti (fun db => size (expired_rows row_expires_at cutoff (refresh_jtis db))) in
  fun w => (Ok removed, set_tables (set_refresh (kept_rows row_expires_at cutoff)) w).

Definition cleanup_expired_totp_pending_jti (c : Call) (grace : Z) : M nat :=
  let cutoff := (utc c - grace)%Z in
  let! removed := select c DeleteExpiredPending
                    (fun db => size (expired_rows pending_expires_at cutoff (pending_jtis db))) in
  fun w => (Ok removed, set_tables (set_pending (kept_rows pending_expires_at cutoff)) w).

(** * TOTP tickets *)

Definition ticket_claims (c : Call) (a : Account) (kind : string) (lifetime : Z) : JwtClaims :=
  {| identity := claims_for a (timestamp (utc c)) (timestamp_millis (utc c)) None None;
     exp := timestamp (utc c + minutes lifetime)%Z;
     token_type := kind; jti := Some (new_jti c); family_id := None; scan_pull_repo := None |}.

Definition generate_totp_pending_token (c : Call) (a : Account) : result AppError Token :=
  encode_token (ticket_claims c a "totp_pending" 5).

Definition generate_totp_enrollment_token (c : Call) (a : Account) : result AppError Token :=
  encode_token (ticket_claims c a TOTP_ENROLLMENT_TOKEN_TYPE 10).

Definition validate_ticket (kind : string) (c : Call) (t : Token) : M JwtClaims :=
  let! claims := decode_token c t in
  if negb (String.eqb (token_type claims) kind) then fail INVALID_TYPE else ret claims.

Definition validate_totp_enrollment_token : Call -> Token -> M JwtClaims := validate_ticket TOTP_ENROLLMENT_TOKEN_TYPE.
Definition validate_totp_pending_token : Call -> Token -> M JwtClaims := validate_ticket "totp_pending".

Definition consume_totp_pending_jti (c : Call) (claims : JwtClaims) : M unit :=
  match jti claims with
  | None => fail (Authentication "Invalid TOTP token")
  | Some j =>
      match from_timestamp (exp claims) with
      | None => fail (Authentication "Invalid TOTP token")
      | Some expires_at => fun w =>
          match pending_jtis (tables w) !! j, accounts (tables w) !! subject claims with
          | None, None => (Err (Database (default FK_VIOLATION (fault c InsertPending))), w)
          | stored, _ =>
              (let! _ := execute c InsertPending
                           (set_pending (insert_new j {| pending_user := subject claims;
                                                         pending_expires_at := expires_at |})) in
               match stored with
               | Some _ => fail (Authentication "TOTP token already used")
               | None => ret tt
               end) w
          end
      end
  end.

End Sessions.
