(* ===== verification/SessionSamples.v ===== *)
(** A small login session to evaluate the model on: a JWT crate whose tokens
    are their claims, a bcrypt whose hashes are marked passwords, one account,
    one call. *)

From stdpp Require Import base list strings gmap.
From Stdlib Require Import ZArith Lia.
From S2P Require Import Prelude RustStr RustNum Chrono Repository AccessDb Auth Tokens Errors SessionDb Sessions.

Local Open Scope string_scope.

Definition clear_decode (now : Z) (t : JwtClaims) : result string JwtClaims :=
  if (now <=? exp t)%Z then Ok t else Err "ExpiredSignature".

Lemma clear_decode_encode now (c t : JwtClaims) : Ok (E:=string) c = Ok t -> (now <= exp c)%Z -> clear_decode now t = Ok c.
Proof. unfold clear_decode. intros [= <-] Hn%Z.leb_le. by rewrite Hn. Qed.

Lemma clear_decode_fresh now t c : clear_decode now t = Ok c -> (now <= exp c)%Z.
Proof. unfold clear_decode. destruct (Z.leb_spec now (exp t)); [|done]. by intros [= <-]. Qed.

#[global] Instance clear_jwt : JwtCrate :=
  {| Token := JwtClaims; jwt_encode := Ok; jwt_decode := clear_decode;
     jwt_decode_encode := clear_decode_encode; jwt_decode_fresh := clear_decode_fresh |}.

#[global] Instance marked_bcrypt : Bcrypt :=
  {| bcrypt_verify p h := match strip_prefix "$2b$" h with Some salted => Ok (String.eqb p salted) | None => Err "invalid hash" end;
     dummy_bcrypt_hash := "$2b$__dummy_timing_pad__" |}.

Lemma marked_verifies p : bcrypt_verify p ("$2b$" +:+ p) = Ok true.
Proof. cbn. unfold strip_prefix. cbn. by rewrite String.eqb_refl. Qed.

#[global] Existing Instance reference_chrono.

(** 2023-11-14 22:13:20. *)
Definition noon : DateTime := (1700000000 * NANOS_PER_SEC)%Z.

Definition alice : Account :=
  {| account_user := {| user_id := 1%N; user_username := "alice"; user_email := "alice@example.org"; user_is_admin := false;
                        user_is_active := true; user_is_service_account := false; user_auth_provider := LocalProvider |};
     password_hash := Some "$2b$secret"; must_change_password := false; totp_secret := None; totp_enabled := false;
     totp_backup_codes := None; totp_verified_at := None; failed_login_attempts := 0; locked_until := None;
     last_failed_login_at := None; password_changed_at := (noon - days 30)%Z; privileges_changed_at := (noon - days 30)%Z;
     last_login_at := None |}.

Definition sample_config : SessionConfig :=
  {| jwt_access_token_expiry_minutes := 30; jwt_refresh_token_expiry_days := 7; account_lockout_threshold := 5;
     account_lockout_duration_minutes := 30; password_expiry_days := 0 |}.

(** A call [s] seconds after noon that draws the identifiers [j] and [f]. *)
Definition call_at (s : Z) (j f : Uuid) : Call :=
  let t := (noon + s * NANOS_PER_SEC)%Z in
  {| utc := t; instant := t; db_now := t; new_jti := j; new_family := f; config := sample_config; permit := true;
     blocking := None; fault _ := None |}.

Definition one_account : SessionTables := {| accounts := {[1%N := alice]}; refresh_jtis := ∅; pending_jtis := ∅; password_history := [] |}.
Definition one_world : World := {| tables := one_account; invalidations := ∅ |}.

(** Alice's first refresh token, recorded at noon in the family 7. *)
Definition first_token : JwtClaims :=
  {| identity := claims_for alice 1700000000 1700000000000 None None; exp := 1700604800; token_type := "refresh";
     jti := Some 10%N; family_id := Some 7%N; scan_pull_repo := None |}.

Definition first_row : RefreshRow :=
  {| row_user := 1%N; row_family := 7%N; row_issued_at := noon; row_expires_at := (noon + days 7)%Z;
     consumed_at := None; revoked_at := None; superseded_by := None |}.

Definition session_world : World :=
  {| tables := {| accounts := {[1%N := alice]}; refresh_jtis := {[10%N := first_row]}; pending_jtis := ∅; password_history := [] |}; invalidations := ∅ |}.

(** The token as it is presented. *)
Definition presented : @Token clear_jwt := first_token.

(** A login at noon records that token, a refresh a minute later rotates it,
    and two minutes later the same token is a replay that ends the session. *)
Example a_login : fst ((then_ (generate_tokens (call_at 0 10%N 7%N) alice) (fun p => then_ (persist_refresh_jti_from_pair
    (call_at 0 10%N 7%N) p 1%N) (fun _ => ret (refresh_token p)))) one_world) = Ok first_token.
Proof. vm_compute. reflexivity. Qed.

Definition refreshed : World := snd (refresh_tokens (call_at 60 11%N 8%N) presented session_world).

Example a_rotation :
  (fun r => (consumed_at r, superseded_by r)) <$> refresh_jtis (tables refreshed) !! 10%N = Some (Some (noon + 60 * NANOS_PER_SEC)%Z, Some 11%N) /\
  (row_family <$> refresh_jtis (tables refreshed) !! 11%N) = Some 7%N /\
  fst (refresh_tokens (call_at 61 12%N 8%N) presented refreshed) = Err ALREADY_USED /\
  fst (refresh_tokens (call_at 91 12%N 8%N) presented refreshed) = Err REPLAYED.
Proof. vm_compute. done. Qed.

Example a_dead_session :
  let w := snd (refresh_tokens (call_at 91 12%N 8%N) presented refreshed) in
  is_live <$> refresh_jtis (tables w) !! 11%N = Some false.
Proof. vm_compute. done. Qed.
