(* ===== verification/SessionFacts.v ===== *)
(** What one call on a login session does: the outcome of a refresh on every
    path with the rows it writes, the containment of a replayed token, the
    order of a mint and an invalidation, and the single use of a TOTP ticket. *)

From stdpp Require Import base list strings gmap.
From Stdlib Require Import ZArith Lia.
From S2P Require Import Prelude RustStr RustNum Chrono Repository AccessDb Auth Tokens Errors SessionDb Sessions SessionSamples.

Local Open Scope string_scope.
Local Open Scope session_scope.

(** * Calls that write no row *)

Definition keeps_world {A} (m : M A) : Prop := forall w, snd (m w) = w.
Definition keeps_tables {A} (m : M A) : Prop := forall w, tables (snd (m w)) = tables w.

Create HintDb session discriminated.

Lemma keeps_world_tables {A} (m : M A) : keeps_world m -> keeps_tables m.
Proof. intros Hm w. by rewrite Hm. Qed.

Lemma keeps_ret {A} (a : A) : keeps_world (ret a). Proof. done. Qed.
Lemma keeps_fail {A} e : keeps_world (@fail A e). Proof. done. Qed.
Lemma keeps_lift {A} (r : result AppError A) : keeps_world (lift r). Proof. done. Qed.
Lemma keeps_select {A} c s (f : SessionTables -> A) : keeps_world (select c s f).
Proof. intros w. unfold select. by destruct (fault c s). Qed.

Lemma keeps_then {A B} (m : M A) (k : A -> M B) : keeps_world m -> (forall a, keeps_world (k a)) -> keeps_world (then_ m k).
Proof.
  intros Hm Hk w. unfold then_. specialize (Hm w). destruct (m w) as [[a|e] w']; simpl in *; subst; [apply Hk|done].
Qed.

Lemma keeps_tables_then {A B} (m : M A) (k : A -> M B) :
  keeps_tables m -> (forall a, keeps_tables (k a)) -> keeps_tables (then_ m k).
Proof.
  intros Hm Hk w. unfold then_. specialize (Hm w). destruct (m w) as [[a|e] w']; simpl in *; [by rewrite Hk|done].
Qed.

#[export] Hint Resolve keeps_ret keeps_fail keeps_lift keeps_select keeps_then keeps_tables_then : session.
#[export] Hint Resolve keeps_world_tables | 3 : session.

Section Facts.
Context `{Chrono} `{JwtCrate} `{Bcrypt}.

Lemma keeps_mint_access c a repo_ids scopes e f : keeps_world (mint_access_token c a repo_ids scopes e f).
Proof. intros w. unfold mint_access_token. by destruct (encode_token _). Qed.
#[local] Hint Resolve keeps_mint_access : session.

Lemma keeps_generate c a f repo_ids scopes : keeps_world (generate_tokens_with_family_and_scope c a f repo_ids scopes).
Proof. unfold generate_tokens_with_family_and_scope, generate_token_pair_typed, generate_token_pair_capped. eauto with session. Qed.

Lemma keeps_load c u : keeps_world (load_active_user c u).
Proof. apply keeps_then; [eauto with session|]. intros [a|]; eauto with session. Qed.

Lemma keeps_decode c t : keeps_world (decode_token c t).
Proof. apply keeps_lift. Qed.
#[local] Hint Resolve keeps_generate keeps_load keeps_decode : session.

Lemma keeps_fetch c u : keeps_tables (fetch_credential_change_watermark c u).
Proof.
  intros w. unfold fetch_credential_change_watermark. destruct (cached_watermark _ _ _); [done|].
  revert w. apply keeps_tables_then; [eauto with session|]. intros [a|] w; simpl; [|done].
  by destruct (user_is_active _).
Qed.

Lemma keeps_reject c claims : keeps_tables (reject_if_invalidated_replica_safe c claims).
Proof.
  apply keeps_tables_then; [apply keeps_tables_then; [apply keeps_fetch|]|].
  - intros [e|]; eauto with session.
  - intros []; eauto with session.
Qed.
#[local] Hint Resolve keeps_reject : session.

(** * A failure undoes its writes *)

Definition err_keeps {A} (m : M A) : Prop := forall w e w', m w = (Err e, w') -> tables w' = tables w.

Lemma err_keeps_of {A} (m : M A) : keeps_tables m -> err_keeps m.
Proof. intros Hm w e w' E. specialize (Hm w). by rewrite E in Hm. Qed.

Lemma err_keeps_then {A B} (m : M A) (k : A -> M B) :
  keeps_tables m -> (forall a, err_keeps (k a)) -> err_keeps (then_ m k).
Proof.
  intros Hm Hk w e w' [E|(a & w1 & E & E')]%then_Err; specialize (Hm w); rewrite E in Hm; simpl in Hm; [done|].
  rewrite <- Hm. by eapply Hk.
Qed.

Lemma err_keeps_last {A B} (m : M A) (g : A -> B) : err_keeps m -> err_keeps (let! a := m in ret (g a)).
Proof. intros Hm w e w' [E|(a & w1 & E & E')]%then_Err; [by eapply Hm|done]. Qed.

Lemma err_keeps_insert c s j u f i x : err_keeps (insert_jti c s j u f i x).
Proof.
  intros w e w'. unfold insert_jti, execute.
  destruct (refresh_jtis (tables w) !! j), (accounts (tables w) !! u), (fault c s); intros [=]; by subst.
Qed.

Lemma err_keeps_persist c tokens u : err_keeps (persist_refresh_jti_from_pair c tokens u).
Proof.
  apply err_keeps_then; [eauto with session|]. intros claims.
  destruct (jti claims), (family_id claims); try by (apply err_keeps_of; eauto with session).
  apply err_keeps_then; [eauto with session|]. intros. apply err_keeps_insert.
Qed.

#[local] Hint Resolve err_keeps_then err_keeps_last err_keeps_persist err_keeps_of : session.

(** The failure [E] of a call that keeps the rows on failure. *)
Ltac by_err_keeps E :=
  match type of E with
  | ?m ?w = (Err _, _) => let Hm := fresh in assert (err_keeps m) as Hm by eauto 12 with session; by apply Hm in E
  end.

Lemma rotate_err c j f claims : err_keeps (rotate c j f claims).
Proof.
  intros w e w'. unfold rotate, transaction. intros [E|(a & w1 & E & E')]%then_Err.
  - unfold execute in E. destruct (fault c BeginRotation); simplify_eq/=; done.
  - unfold execute in E. destruct (fault c BeginRotation); simplify_eq/=.
    destruct (then_ _ _ _) as [[[x|]|e'] w2]; by simplify_eq/=.
Qed.

Lemma rotate_lost c j f claims w w' : rotate c j f claims w = (Ok None, w') ->
  tables w' = tables w /\ live_jti (tables w) j = false.
Proof.
  unfold rotate, transaction. intros (a & w1 & E & E')%then_Ok. unfold execute in E.
  destruct (fault c BeginRotation); simplify_eq/=.
  destruct (then_ _ _ _) as [[[x|]|e'] w2] eqn:E2; simplify_eq/=. split; [done|].
  apply then_Ok in E2 as (won & w3 & E2 & E3). unfold consume in E2. apply then_Ok in E2 as (lv & w4 & E2 & E4).
  unfold select in E2. destruct (fault c ConsumeJti); simplify_eq/=.
  destruct (live_jti (tables w) j); [|done]. simplify_eq/=. apply then_Ok in E3 as (? & ? & ? & ?). done.
Qed.

(** What a failed refresh may have written: nothing, or the revocation of the
    family of a token that was presented again. *)
Definition refused (c : Call) (j : option Uuid) (db : SessionTables) (e : AppError) (db' : SessionTables) : Prop :=
  db' = db \/
  exists k r, j = Some k /\ refresh_jtis db !! k = Some r /\ revoked_at r = None /\ consumed_at r <> None /\
    genuine_replay c db r = true /\ e = REPLAYED /\
    db' = set_refresh (revoke_where c (in_family (row_family r))) db.

Lemma classify_err c j f claims w e w' : classify c j f claims w = (Err e, w') ->
  refused c (Some j) (tables w) e (tables w').
Proof.
  unfold classify. intros [E|(row & w1 & E & E')]%then_Err; unfold select in E;
    destruct (fault c ClassifyJti); simplify_eq/=; try by left.
  destruct (refresh_jtis (tables w1) !! j) as [r|] eqn:Ej; simpl in E'.
  - destruct (revoked_at r) eqn:Er; [unfold fail in E'; simplify_eq; by left|].
    destruct (consumed_at r) eqn:Ec; [|by injection E' as <- <-; left].
    destruct (genuine_replay c (tables w1) r) eqn:Eg; [|by injection E' as <- <-; left].
    apply then_Err in E' as [E'|([] & w2 & E & E')]; unfold execute in *; destruct (fault c RevokeFamily); simplify_eq/=.
    + by left.
    + unfold fail in E'. simplify_eq. right. exists j, r. split_and!; try done; congruence.
  - left. by_err_keeps E'.
Qed.

(** C12. A refresh that fails, for whatever reason - an undecodable token, a
    token of another type, a credential change, a deactivated account, a
    database failure in the middle of the rotation, a lost race - leaves every
    session row as it was.  The one exception is a genuine replay, which
    revokes exactly the rows of the presented token's family that were not
    revoked yet, and says so. *)
Theorem failed_refresh_writes_nothing c t w e w' : refresh_tokens c t w = (Err e, w') ->
  refused c (match jwt_decode (timestamp (utc c)) t with Ok claims => jti claims | Err _ => None end)
    (tables w) e (tables w').
Proof.
  unfold refresh_tokens. intros [E|(claims & w1 & E & E')]%then_Err; unfold decode_token, lift in E.
  { destruct (jwt_decode _ t); simplify_eq. by left. }
  destruct (jwt_decode _ t) as [claims'|] eqn:Ed; simplify_eq.
  destruct (negb _); [unfold fail in E'; simplify_eq; by left|].
  pose proof (keeps_reject c claims w1) as Hw.
  apply then_Err in E' as [E'|([] & w2 & E & E')]; rewrite ?E, ?E' in Hw; simpl in Hw; [by left|]. rewrite <- Hw.
  destruct (jti claims) as [j|] eqn:Ej, (family_id claims) as [f|] eqn:Ef.
  2-4: left; by_err_keeps E'.
  apply then_Err in E' as [E'|([r|] & w3 & E'' & E')]; [left; by eapply rotate_err|done|].
  apply rotate_lost in E'' as [<- _]. by eapply classify_err.
Qed.

(** * What a refresh answers *)

(** The claims of the token a rotation hands out. *)
Definition successor (c : Call) (m : InvalidationMap) (a : Account) (family : Uuid) (repo_ids : option (list Uuid))
  (scopes : option (list string)) (kind : string) : JwtClaims :=
  let ms := mint_ms c m (user_id (account_user a)) in
  {| identity := claims_for a (ms / 1000)%Z ms repo_ids scopes;
     exp := timestamp (utc c + days (jwt_refresh_token_expiry_days (config c)))%Z;
     token_type := kind; jti := Some (new_jti c); family_id := Some family; scan_pull_repo := None |}.

Lemma generate_spec c a f repo_ids scopes w r w' :
  generate_tokens_with_family_and_scope c a f repo_ids scopes w = (r, w') ->
  w' = w /\ forall tokens, r = Ok tokens ->
    jwt_encode (successor c (invalidations w) a f repo_ids scopes "refresh") = Ok (refresh_token tokens) /\
    jwt_encode (access_claims c (invalidations w) a repo_ids scopes None (Some f)) = Ok (access_token tokens).
Proof.
  intros E. pose proof (keeps_generate c a f repo_ids scopes w) as Hw. rewrite E in Hw. split; [done|]. intros tokens ->.
  unfold generate_tokens_with_family_and_scope, generate_token_pair_typed, generate_token_pair_capped in E.
  apply then_Ok in E as (access & w1 & E1 & E). apply then_Ok in E as (refresh & w2 & E2 & E).
  unfold mint_access_token, encode_token in E1. unfold lift, encode_token in E2.
  destruct (jwt_encode (access_claims _ _ _ _ _ _ _)) eqn:Ea; [|done]. injection E1 as <- ->.
  destruct (jwt_encode (refresh_claims _ _ _ _ _ _ _)) eqn:Er; [|done]. injection E2 as <- ->.
  unfold ret in E. injection E as <- ->. by split.
Qed.

(** The row the successor is recorded under, and the three writes of a
    rotation. *)
Definition row_of (claims : JwtClaims) (f : Uuid) (instants : DateTime * DateTime) : RefreshRow :=
  {| row_user := subject claims; row_family := f; row_issued_at := fst instants; row_expires_at := snd instants;
     consumed_at := None; revoked_at := None; superseded_by := None |}.

Definition rotated (c : Call) (j : Uuid) (row : RefreshRow) (m : gmap Uuid RefreshRow) : gmap Uuid RefreshRow :=
  alter (set_superseded (new_jti c)) j (insert_new (new_jti c) row (alter (set_consumed (db_now c)) j m)).

Inductive Verdict := Rotate | Unrecorded | Revoked | Replayed | Raced.

Definition verdict (c : Call) (db : SessionTables) (j : Uuid) : Verdict :=
  match refresh_jtis db !! j with
  | None => Unrecorded
  | Some r =>
      if is_live r then Rotate
      else match revoked_at r with
           | Some _ => Revoked
           | None => if genuine_replay c db r then Replayed else Raced
           end
  end.

Definition refused_with (v : Verdict) : option AppError :=
  match v with
  | Rotate | Unrecorded => None
  | Revoked => Some REVOKED
  | Replayed => Some REPLAYED
  | Raced => Some ALREADY_USED
  end.

(** The rows after a refresh that was answered by [v]. *)
Definition rows_after (c : Call) (v : Verdict) (j : Uuid) (row : RefreshRow) (m : gmap Uuid RefreshRow)
  : gmap Uuid RefreshRow :=
  match v with
  | Rotate => rotated c j row m
  | Unrecorded => insert_new (new_jti c) row m
  | Replayed => match m !! j with Some r => revoke_where c (in_family (row_family r)) m | None => m end
  | Revoked | Raced => m
  end.

(** A call no statement of which fails, with a fresh identifier, whose tokens
    the crates can encode and stamp. *)
Record Healthy (c : Call) (w : World) : Prop := {
  healthy_faults : forall s, fault c s = None;
  healthy_keys : forall u a, accounts (tables w) !! u = Some a -> user_id (account_user a) = u;
  healthy_fresh : refresh_jtis (tables w) !! new_jti c = None;
  healthy_encode : forall claims, exists t, jwt_encode claims = Ok t;
  healthy_expiry : (0 <= jwt_refresh_token_expiry_days (config c))%Z;
  healthy_instants : forall a f repo_ids scopes kind,
    exists i, row_instants (successor c (invalidations w) a f repo_ids scopes kind) = Ok i
}.

(** ** Running a healthy call *)

Lemma run_bind {A B} (m : M A) (k : A -> M B) w a w1 : m w = (Ok a, w1) -> then_ m k w = k a w1.
Proof. intros E. unfold then_. by rewrite E. Qed.

Lemma run_bind_err {A B} (m : M A) (k : A -> M B) w e w1 : m w = (Err e, w1) -> then_ m k w = (Err e, w1).
Proof. intros E. unfold then_. by rewrite E. Qed.

Lemma run_select {A} c s (f : SessionTables -> A) w : fault c s = None -> select c s f w = (Ok (f (tables w)), w).
Proof. intros E. unfold select. by rewrite E. Qed.

Lemma run_execute c s f w : fault c s = None -> execute c s f w = (Ok tt, set_tables f w).
Proof. intros E. unfold execute. by rewrite E. Qed.

Lemma set_tables_id w : set_tables (fun db => db) w = w.
Proof. by destruct w. Qed.

Lemma run_load c u w : fault c SelectActiveUser = None ->
  load_active_user c u w = (match active_account (tables w) u with
                            | Some a => Ok a | None => Err (Authentication "User not found") end, w).
Proof. intros E. unfold load_active_user. rewrite (run_bind _ _ _ _ _ (run_select _ _ _ _ E)). by destruct (active_account _ _). Qed.

Lemma active_id db u a : (forall u a, accounts db !! u = Some a -> user_id (account_user a) = u) ->
  active_account db u = Some a -> user_id (account_user a) = u /\ accounts db !! u = Some a.
Proof.
  unfold active_account. intros Hk. destruct (accounts db !! u) eqn:E; [|done].
  destruct (user_is_active _); [|done]. intros [= <-]. eauto.
Qed.

Lemma run_generate c w a f repo_ids scopes : Healthy c w -> exists tokens,
  generate_tokens_with_family_and_scope c a f repo_ids scopes w = (Ok tokens, w) /\
  jwt_encode (successor c (invalidations w) a f repo_ids scopes "refresh") = Ok (refresh_token tokens) /\
  jwt_encode (access_claims c (invalidations w) a repo_ids scopes None (Some f)) = Ok (access_token tokens).
Proof.
  intros Hh. destruct (generate_tokens_with_family_and_scope c a f repo_ids scopes w) as [[tokens|e] w'] eqn:E.
  - apply generate_spec in E as Hs. destruct Hs as [-> Hs]. exists tokens. by destruct (Hs tokens eq_refl).
  - exfalso. unfold generate_tokens_with_family_and_scope, generate_token_pair_typed, generate_token_pair_capped in E.
    apply then_Err in E as [E|(access & w1 & E1 & E)].
    + unfold mint_access_token, encode_token in E. by destruct (healthy_encode _ _ Hh
        (access_claims c (invalidations w) a repo_ids scopes None (Some f))) as [t Ht]; rewrite Ht in E.
    + apply then_Err in E as [E|(refresh & w2 & E2 & E)]; [|done]. unfold lift, encode_token in E.
      by destruct (healthy_encode _ _ Hh (refresh_claims c a f repo_ids scopes "refresh" access)) as [t Ht]; rewrite Ht in E.
Qed.

Lemma decode_minted c w a f repo_ids scopes kind t :
  Healthy c w -> jwt_encode (successor c (invalidations w) a f repo_ids scopes kind) = Ok t ->
  decode_token c t w = (Ok (successor c (invalidations w) a f repo_ids scopes kind), w).
Proof.
  intros Hh Ht. unfold decode_token, lift. rewrite (jwt_decode_encode _ _ _ Ht); [done|].
  simpl. unfold timestamp. apply Z.div_le_mono; [done|]. pose proof (healthy_expiry _ _ Hh).
  unfold days, NANOS_PER_DAY, NANOS_PER_SEC. lia.
Qed.

Lemma run_insert c s j u f i x w a : fault c s = None -> accounts (tables w) !! u = Some a ->
  insert_jti c s j u f i x w =
    (Ok tt, set_tables (set_refresh (insert_new j
       {| row_user := u; row_family := f; row_issued_at := i; row_expires_at := x;
          consumed_at := None; revoked_at := None; superseded_by := None |})) w).
Proof. intros E Ha. unfold insert_jti. rewrite Ha. destruct (_ !! j); by apply run_execute. Qed.

(** The claims of the successor of [claims]. *)
Definition next_claims (c : Call) (m : InvalidationMap) (a : Account) (f : Uuid) (claims : JwtClaims) : JwtClaims :=
  successor c m a f (claims_repo_ids (identity claims)) (claims_scopes (identity claims)) "refresh".

(** The pair a refresh hands out. *)
Definition pair_of (c : Call) (m : InvalidationMap) (a : Account) (f : Uuid) (claims : JwtClaims) (tokens : TokenPair) : Prop :=
  jwt_encode (next_claims c m a f claims) = Ok (refresh_token tokens) /\
  jwt_encode (access_claims c m a (claims_repo_ids (identity claims)) (claims_scopes (identity claims)) None (Some f)) =
    Ok (access_token tokens).

Lemma run_mint_successor c j f claims w w1 a :
  Healthy c w1 -> tables w = set_refresh (alter (set_consumed (db_now c)) j) (tables w1) ->
  invalidations w = invalidations w1 -> refresh_jtis (tables w1) !! new_jti c = None ->
  active_account (tables w1) (subject claims) = Some a ->
  exists tokens i, pair_of c (invalidations w1) a f claims tokens /\
    row_instants (next_claims c (invalidations w1) a f claims) = Ok i /\
    mint_successor c j f claims w =
      (Ok (a, tokens), {| tables := set_refresh (rotated c j (row_of (next_claims c (invalidations w1) a f claims) f i)) (tables w1);
                          invalidations := invalidations w1 |}).
Proof.
  intros Hh Ht Hi Hn Ha. destruct w as [db im]. simpl in *. subst db im. set (w := {| tables := _ |}).
  assert (Healthy c w) as Hw.
  { destruct Hh. split; try done. unfold w. cbn [tables refresh_jtis set_refresh]. rewrite lookup_alter, Hn. case_decide; [subst; by rewrite Hn|done]. }
  destruct (active_id _ _ _ (healthy_keys _ _ Hh) Ha) as [Hu Hin].
  destruct (run_generate c w a f (claims_repo_ids (identity claims)) (claims_scopes (identity claims)) Hw)
    as (tokens & Eg & Hr & Hacc).
  destruct (healthy_instants _ _ Hh a f (claims_repo_ids (identity claims)) (claims_scopes (identity claims)) "refresh") as [i Hi].
  exists tokens, i. split; [by split|]. split; [done|]. unfold mint_successor.
  pose proof (healthy_faults _ _ Hh) as Hf.
  erewrite run_bind; [|rewrite run_load by apply Hf; cbn [tables w]; change (active_account _ _) with
    (active_account (tables w1) (subject claims)); rewrite Ha; done].
  erewrite run_bind; [|done]. erewrite run_bind; [|by eapply decode_minted].
  cbn [jti family_id successor]. erewrite run_bind.
  2: { erewrite run_bind; [|exact (f_equal (fun r => (r, w)) Hi)]. erewrite run_bind; [|apply (run_insert _ _ _ _ _ _ _ _ a); [done|by rewrite Hu]].
       by apply run_execute. }
  erewrite run_bind; [|by apply run_execute]. unfold ret. do 2 f_equal.
Qed.

(** The tables after a refresh that was answered by [v] for the account [a]. *)
Definition tables_after (c : Call) (v : Verdict) (j : Uuid) (row : RefreshRow) (a : option Account) (db : SessionTables)
  : SessionTables :=
  match v, a with
  | Rotate, Some _ | Unrecorded, Some _ | Replayed, _ => set_refresh (rows_after c v j row) db
  | _, _ => db
  end.

Lemma run_rotate_lost c j f claims w : (forall s, fault c s = None) -> live_jti (tables w) j = false ->
  rotate c j f claims w = (Ok None, w).
Proof.
  intros Hf Hl. unfold rotate. erewrite run_bind; [|by apply run_execute]. rewrite set_tables_id. unfold transaction.
  erewrite run_bind; [|unfold consume; erewrite run_bind; [|by apply run_select]; by rewrite Hl]. by destruct w.
Qed.

Lemma live_verdict c db j : live_jti db j = true <-> verdict c db j = Rotate.
Proof.
  unfold live_jti, verdict. destruct (refresh_jtis db !! j) as [r|]; [|done].
  destruct (is_live r); [done|]. by destruct (revoked_at r), (genuine_replay c db r).
Qed.

Lemma run_consume c j w : fault c ConsumeJti = None -> live_jti (tables w) j = true ->
  consume c j w = (Ok true, set_tables (set_refresh (alter (set_consumed (db_now c)) j)) w).
Proof. intros Hf Hl. unfold consume. erewrite run_bind; [|by apply run_select]. by rewrite Hl. Qed.

(** A winner whose account is gone undoes its consumption. *)
Lemma run_rotate_inactive c j f claims w : (forall s, fault c s = None) -> live_jti (tables w) j = true ->
  active_account (tables w) (subject claims) = None ->
  rotate c j f claims w = (Err (Authentication "User not found"), w).
Proof.
  intros Hf Hl Ha. unfold rotate. erewrite run_bind; [|by apply run_execute]. rewrite set_tables_id. unfold transaction.
  erewrite run_bind; [|by apply run_consume]. cbv iota.
  erewrite (run_bind_err _ _ _ _ (set_tables _ w)); [by destruct w|]. unfold mint_successor. apply run_bind_err.
  rewrite run_load by done.
  cbn. change (active_account _ _) with (active_account (tables w) (subject claims)). by rewrite Ha.
Qed.

Lemma run_rotate_won c j f claims w a : Healthy c w -> live_jti (tables w) j = true ->
  active_account (tables w) (subject claims) = Some a ->
  exists tokens i, pair_of c (invalidations w) a f claims tokens /\
    row_instants (next_claims c (invalidations w) a f claims) = Ok i /\
    rotate c j f claims w = (Ok (Some (a, tokens)),
      {| tables := set_refresh (rotated c j (row_of (next_claims c (invalidations w) a f claims) f i)) (tables w);
         invalidations := invalidations w |}).
Proof.
  intros Hh Hl Ha. pose proof (healthy_faults _ _ Hh) as Hf.
  destruct (run_mint_successor c j f claims (set_tables (set_refresh (alter (set_consumed (db_now c)) j)) w) w a)
    as (tokens & i & Hp & Hi & Em); try done; [apply Hh|].
  exists tokens, i. split; [done|]. split; [done|]. unfold rotate. erewrite run_bind; [|by apply run_execute].
  rewrite set_tables_id. unfold transaction. erewrite run_bind; [|by apply run_consume]. cbv iota.
  by erewrite run_bind by exact Em.
Qed.

Lemma run_persist c w a f claims tokens : Healthy c w -> active_account (tables w) (subject claims) = Some a ->
  pair_of c (invalidations w) a f claims tokens ->
  exists i, row_instants (next_claims c (invalidations w) a f claims) = Ok i /\
    persist_refresh_jti_from_pair c tokens (user_id (account_user a)) w =
      (Ok tt, set_tables (set_refresh (insert_new (new_jti c) (row_of (next_claims c (invalidations w) a f claims) f i))) w).
Proof.
  intros Hh Ha [Hr _]. destruct (active_id _ _ _ (healthy_keys _ _ Hh) Ha) as [Hu Hin].
  destruct (healthy_instants _ _ Hh a f (claims_repo_ids (identity claims)) (claims_scopes (identity claims)) "refresh") as [i Hi].
  exists i. split; [done|]. unfold persist_refresh_jti_from_pair.
  erewrite run_bind; [|by eapply decode_minted]. cbn [jti family_id successor next_claims].
  erewrite run_bind; [|exact (f_equal (fun r => (r, w)) Hi)].
  apply (run_insert _ _ _ _ _ _ _ _ a); [apply Hh|by rewrite Hu].
Qed.

(** [out] is the answer to a refresh of the token [claims] in the world [w]. *)
Definition answered (c : Call) (w : World) (j f : Uuid) (claims : JwtClaims)
  (out : result AppError (Account * TokenPair) * World) : Prop :=
  let v := verdict c (tables w) j in
  let account := active_account (tables w) (subject claims) in
  exists row, tables (snd out) = tables_after c v j row account (tables w) /\
    match refused_with v, account with
    | Some e, _ => fst out = Err e
    | None, None => fst out = Err (Authentication "User not found")
    | None, Some a => exists tokens i, fst out = Ok (a, tokens) /\ pair_of c (invalidations w) a f claims tokens /\
        row_instants (next_claims c (invalidations w) a f claims) = Ok i /\
        row = row_of (next_claims c (invalidations w) a f claims) f i
    end.

Lemma run_unrecorded c j f claims w : Healthy c w -> refresh_jtis (tables w) !! j = None ->
  answered c w j f claims (classify c j f claims w).
Proof.
  intros Hh Ej. pose proof (healthy_faults _ _ Hh) as Hf. unfold answered, verdict, classify. rewrite Ej.
  erewrite run_bind; [|by apply run_select]. rewrite Ej. simpl.
  destruct (active_account (tables w) (subject claims)) as [a|] eqn:Ha.
  - erewrite run_bind; [|rewrite run_load by done; by rewrite Ha].
    destruct (run_generate c w a f (claims_repo_ids (identity claims)) (claims_scopes (identity claims)) Hh) as (tokens & Eg & Hp).
    erewrite run_bind by exact Eg. destruct (run_persist c w a f claims tokens Hh Ha Hp) as (i & Hi & Ep).
    erewrite run_bind by exact Ep. eexists. split; [done|]. by exists tokens, i.
  - erewrite run_bind_err; [|rewrite run_load by done; by rewrite Ha].
    by exists (row_of claims f (0%Z, 0%Z)).
Qed.

Lemma run_classify c j f claims w : Healthy c w -> live_jti (tables w) j = false ->
  answered c w j f claims (classify c j f claims w).
Proof.
  intros Hh Hl. destruct (refresh_jtis (tables w) !! j) as [r|] eqn:Ej; [|by apply run_unrecorded].
  pose proof (healthy_faults _ _ Hh) as Hf. unfold answered, verdict, classify. rewrite Ej.
  unfold live_jti in Hl. rewrite Ej in Hl. rewrite Hl. erewrite run_bind; [|by apply run_select]. rewrite Ej. simpl.
  destruct (revoked_at r) eqn:Er; [by exists r|]. unfold is_live in Hl. rewrite Er in Hl.
  destruct (consumed_at r) eqn:Ec; [|done]. destruct (genuine_replay c (tables w) r); [|by exists r].
  erewrite run_bind; [|by apply run_execute]. exists r. split; [|done]. cbn. unfold set_refresh, rows_after. by rewrite Ej.
Qed.

Lemma run_rotation c j f claims w : Healthy c w ->
  answered c w j f claims
    ((let! won := rotate c j f claims in match won with Some r => ret r | None => classify c j f claims end) w).
Proof.
  intros Hh. pose proof (healthy_faults _ _ Hh) as Hf. destruct (live_jti (tables w) j) eqn:Hl.
  - apply (live_verdict c) in Hl as Hv. unfold answered. rewrite Hv. cbn [refused_with].
    destruct (active_account (tables w) (subject claims)) as [a|] eqn:Ha.
    + destruct (run_rotate_won c j f claims w a Hh Hl Ha) as (tokens & i & Hp & Hi & E).
      erewrite run_bind by exact E. eexists. split; [done|]. by exists tokens, i.
    + erewrite run_bind_err by by apply run_rotate_inactive. by exists (row_of claims f (0%Z, 0%Z)).
  - erewrite run_bind by by apply run_rotate_lost. by apply run_classify.
Qed.

Lemma run_refresh c t w claims j f w1 :
  jwt_decode (timestamp (utc c)) t = Ok claims -> token_type claims = "refresh" ->
  jti claims = Some j -> family_id claims = Some f ->
  reject_if_invalidated_replica_safe c claims w = (Ok tt, w1) -> Healthy c w1 ->
  tables w1 = tables w /\ answered c w1 j f claims (refresh_tokens c t w).
Proof.
  intros Ht Hk Hj Hf Hr Hh. split; [pose proof (keeps_reject c claims w) as E; by rewrite Hr in E|].
  unfold refresh_tokens. erewrite run_bind; [|unfold decode_token, lift; by rewrite Ht].
  rewrite Hk, String.eqb_refl. cbn [negb]. erewrite run_bind by exact Hr. rewrite Hj, Hf. by apply run_rotation.
Qed.

(** C11. What a refresh answers, exactly, when the database answers and the
    presented token is a decodable web refresh token that no credential change
    invalidates.  The row decides: a live one is consumed, a successor is
    recorded in the same family and linked, and the pair handed out carries
    the same subject, repository allow-list and action scopes; a row that was
    never recorded only gains a successor; a revoked one is refused; a
    consumed one is a replay, which revokes the family, when the grace is over
    or the successor was itself spent, and a lost race, which writes nothing,
    otherwise.  A deactivated account gets nothing, and the consumption is
    undone. *)
Theorem refresh_verdict c t w claims j f w1 :
  jwt_decode (timestamp (utc c)) t = Ok claims -> token_type claims = "refresh" ->
  jti claims = Some j -> family_id claims = Some f ->
  reject_if_invalidated_replica_safe c claims w = (Ok tt, w1) -> Healthy c w1 ->
  tables w1 = tables w /\ answered c w1 j f claims (refresh_tokens c t w).
Proof. intros. by apply run_refresh. Qed.

(** * A replay ends the session *)

Lemma rotate_live c j f claims w x w' : rotate c j f claims w = (Ok (Some x), w') -> live_jti (tables w) j = true.
Proof.
  unfold rotate, transaction. intros (a & w1 & E & E')%then_Ok. unfold execute in E.
  destruct (fault c BeginRotation); simplify_eq/=. rewrite set_tables_id in E'.
  destruct (then_ _ _ _) as [[[y|]|e'] w2] eqn:E2; simplify_eq/=.
  apply then_Ok in E2 as (won & w3 & E2 & E3). unfold consume in E2. apply then_Ok in E2 as (lv & w4 & E2 & E4).
  unfold select in E2. destruct (fault c ConsumeJti); simplify_eq/=. destruct (live_jti (tables w4) j); [done|].
  by unfold ret in E4; simplify_eq.
Qed.

(** A token whose row is revoked refreshes nothing, neither as a web session
    nor as a registry credential. *)
Lemma revoked_refused c t claims j r w x w' :
  jwt_decode (timestamp (utc c)) t = Ok claims -> jti claims = Some j -> family_id claims <> None ->
  refresh_jtis (tables w) !! j = Some r -> revoked_at r <> None ->
  refresh_tokens c t w <> (Ok x, w') /\ mint_access_from_registry_refresh c t w <> (Ok x, w').
Proof.
  intros Ht Hj Hf Er Hr. split.
  - unfold refresh_tokens, decode_token, lift. rewrite Ht. intros (? & w1 & E & E')%then_Ok. injection E as <- <-.
    destruct (negb _); [done|]. apply then_Ok in E' as ([] & w2 & Ec & E').
    pose proof (keeps_reject c claims w) as Hw. rewrite Ec in Hw. simpl in Hw. rewrite <- Hw in Er.
    rewrite Hj in E'. destruct (family_id claims) as [f|]; [|done]. apply then_Ok in E' as ([y|] & w3 & E & E').
    + apply rotate_live in E. unfold live_jti, is_live in E. rewrite Er in E. by destruct (consumed_at r), (revoked_at r).
    + apply rotate_lost in E as [E _]. rewrite <- E in Er. apply then_Ok in E' as (row & w4 & E1 & E').
      unfold select in E1. destruct (fault c ClassifyJti); simplify_eq/=. rewrite Er in E'. simpl in E'.
      by destruct (revoked_at r).
  - unfold mint_access_from_registry_refresh, decode_token, lift. rewrite Ht. intros (? & w1 & E & E')%then_Ok. injection E as <- <-.
    destruct (negb _); [done|]. apply then_Ok in E' as ([] & w2 & Ec & E').
    pose proof (keeps_reject c claims w) as Hw. rewrite Ec in Hw. simpl in Hw. rewrite <- Hw in Er.
    rewrite Hj in E'. apply then_Ok in E' as ([] & w3 & E & E'). apply then_Ok in E as (row & w4 & E1 & E).
    unfold select in E1. destruct (fault c SelectRevoked); simplify_eq/=. rewrite Er in E. by destruct (revoked_at r).
Qed.

Lemma revoke_where_lookup c p m k r : revoke_where c p m !! k = Some r -> p r = true -> revoked_at r <> None.
Proof.
  unfold revoke_where. rewrite lookup_fmap_Some. intros (r0 & Er & _). destruct (p r0) eqn:Ep.
  - destruct (revoked_at r0) eqn:E; subst; congruence || done.
  - intros Hp. subst. congruence.
Qed.

(** A stolen token that is used after its rotation ends the session it was
    stolen from.  When a consumed token is presented again - past the thirty
    seconds of grace, or at any time once the token that replaced it was spent,
    revoked or is gone - the refresh is refused as a replay, every row of the
    family is revoked, and from then on no call refreshes any token recorded in
    that family, the thief's or the owner's, as a web session or as a registry
    credential. *)
Theorem replay_kills_family c t w claims j f w1 r t0 :
  jwt_decode (timestamp (utc c)) t = Ok claims -> token_type claims = "refresh" ->
  jti claims = Some j -> family_id claims = Some f ->
  reject_if_invalidated_replica_safe c claims w = (Ok tt, w1) -> Healthy c w1 ->
  refresh_jtis (tables w) !! j = Some r -> revoked_at r = None -> consumed_at r = Some t0 ->
  (t0 < db_now c - REFRESH_REPLAY_BENIGN_GRACE_SECS * NANOS_PER_SEC)%Z \/
    (forall s, successor_of (tables w) r = Some s -> is_live s = false) ->
  exists w', refresh_tokens c t w = (Err REPLAYED, w') /\
    (forall k s, refresh_jtis (tables w') !! k = Some s -> row_family s = row_family r -> revoked_at s <> None) /\
    forall c' t' claims' k s w2 x w3, tables w2 = tables w' -> jwt_decode (timestamp (utc c')) t' = Ok claims' ->
      jti claims' = Some k -> family_id claims' <> None -> refresh_jtis (tables w') !! k = Some s ->
      row_family s = row_family r ->
      refresh_tokens c' t' w2 <> (Ok x, w3) /\ mint_access_from_registry_refresh c' t' w2 <> (Ok x, w3).
Proof.
  intros Ht Hk Hj Hf Hr Hh Ej Er Ec Hg.
  destruct (run_refresh c t w claims j f w1) as [Hw Hans]; [done..|].
  assert (verdict c (tables w1) j = Replayed) as Hv.
  { unfold verdict, is_live, genuine_replay, consumed_past_grace. rewrite Hw, Ej, Ec, Er. destruct Hg as [Hg%Z.ltb_lt|Hg].
    - by rewrite Hg.
    - rewrite orb_comm. destruct (successor_of (tables w) r); [|done]. by rewrite Hg. }
  destruct (refresh_tokens c t w) as [out w'] eqn:E. destruct Hans as (row & Htab & Hout).
  rewrite Hv in Htab, Hout. simpl in Htab, Hout. rewrite Hw in Htab.
  assert (refresh_jtis (tables w') = revoke_where c (in_family (row_family r)) (refresh_jtis (tables w))) as Hrows.
  { rewrite Htab. cbn. unfold rows_after. by rewrite Ej. }
  assert (forall k s, refresh_jtis (tables w') !! k = Some s -> row_family s = row_family r -> revoked_at s <> None) as Hdead.
  { intros k s. rewrite Hrows. intros Hs Hfam. eapply revoke_where_lookup; [done|]. by apply bool_decide_eq_true. }
  exists w'. subst out. split_and!; [done|done|]. intros c' t' claims' k s w2 x w3 H2 Ht' Hk' Hf' Hs Hfam.
  eapply (revoked_refused _ _ _ _ s); [done..|by rewrite H2|eauto].
Qed.

End Facts.

(** * Witnesses *)

Definition sample_call : Call := call_at 60 11%N 8%N.

Lemma sample_healthy s j f w : (0 <= s <= 1000)%Z -> invalidations w = ∅ -> accounts (tables w) = {[1%N := alice]} ->
  refresh_jtis (tables w) !! j = None -> Healthy (call_at s j f) w.
Proof.
  intros Hs Hi Ha Hj. split; try done.
  - intros u a. rewrite Ha. intros [<- <-]%lookup_singleton_Some. done.
  - eauto.
  - intros a g repo_ids scopes kind. rewrite Hi. unfold row_instants, successor, mint_ms, invalidation_watermark_ms, from_timestamp.
    cbn -[Z.div Z.mul Z.add]. rewrite lookup_empty. cbn -[Z.div Z.mul Z.add].
    unfold timestamp, timestamp_millis, noon, days, NANOS_PER_DAY, NANOS_PER_SEC, NANOS_PER_MILLI.
    set (a1 := ((1700000000 * 1000000000 + s * 1000000000) / 1000000 / 1000)%Z).
    set (b1 := ((1700000000 * 1000000000 + s * 1000000000 + 7 * (86400 * 1000000000)) / 1000000000)%Z).
    assert (0 <= a1 <= 1700001000)%Z as Ha1 by (unfold a1; rewrite Z.div_div by lia; split; [apply Z.div_pos; lia|apply Z.div_le_upper_bound; lia]).
    assert (0 <= b1 <= 1700605800)%Z as Hb1 by (unfold b1; split; [apply Z.div_pos; lia|apply Z.div_le_upper_bound; lia]).
    rewrite !(proj2 (Z.leb_le _ _)) by lia. eauto.
Qed.

Lemma failed_refresh_writes_nothing_witness :
  refused (call_at 91 12%N 8%N) (Some 10%N) (tables refreshed) REPLAYED
    (tables (snd (refresh_tokens (call_at 91 12%N 8%N) presented refreshed))).
Proof.
  apply (failed_refresh_writes_nothing (call_at 91 12%N 8%N) presented refreshed REPLAYED).
  vm_compute. reflexivity.
Defined.

Lemma refresh_verdict_witness : exists w1, tables w1 = tables session_world /\
  answered sample_call w1 10%N 7%N first_token (refresh_tokens sample_call presented session_world).
Proof.
  exists session_world. apply (refresh_verdict sample_call presented session_world first_token 10%N 7%N session_world);
    [reflexivity..|vm_compute; reflexivity|]. by apply sample_healthy.
Defined.

Lemma replay_kills_family_witness : exists w',
  refresh_tokens (call_at 91 12%N 8%N) presented refreshed = (Err REPLAYED, w') /\
  forall k s, refresh_jtis (tables w') !! k = Some s -> row_family s = 7%N -> revoked_at s <> None.
Proof.
  destruct (replay_kills_family (call_at 91 12%N 8%N) presented refreshed first_token 10%N 7%N refreshed
    {| row_user := 1%N; row_family := 7%N; row_issued_at := noon; row_expires_at := (noon + days 7)%Z;
       consumed_at := Some (noon + 60 * NANOS_PER_SEC)%Z; revoked_at := None; superseded_by := Some 11%N |}
    (noon + 60 * NANOS_PER_SEC)%Z) as (w' & E & Hrows & _);
    [reflexivity..|vm_compute; reflexivity| |vm_compute; reflexivity|reflexivity|reflexivity|left; vm_compute; reflexivity|].
  - by apply sample_healthy.
  - exists w'. split; [exact E|exact Hrows].
Defined.
