(* ===== verification/SessionClocks.v ===== *)
(** Sessions against the clocks: which access tokens a credential change turns
    away and for how long, what an accepted token says of its subject, and the
    single use of a TOTP ticket under the janitor. *)

From stdpp Require Import base list strings gmap sorting.
From Stdlib Require Import ZArith Lia.
From S2P Require Import Prelude RustStr RustNum Chrono Repository AccessDb Auth Tokens Errors SessionDb Sessions SessionSamples SessionFacts.

Local Open Scope string_scope.
Local Open Scope session_scope.

(** * The map of one process *)

Lemma at_lookup c u ms m v : invalidate_user_tokens_at c u ms m !! v =
  match (if decide (u = v) then
           Some (match m !! u with Some e => if (fst e <? ms)%Z then (ms, instant c) else e | None => (ms, instant c) end)
         else m !! v) with
  | Some e => if decide (timestamp_millis (utc c) - INVALIDATION_RETENTION_MS < fst e)%Z then Some e else None
  | None => None
  end.
Proof.
  unfold invalidate_user_tokens_at. rewrite map_lookup_filter, lookup_insert.
  repeat case_decide; destruct (m !! v); simpl; try done; by repeat case_decide || case_guard.
Qed.

(** The watermark of a user in the map never falls, unless it is a week old. *)
Lemma at_monotone c u ms m v e : m !! v = Some e ->
  (exists e', invalidate_user_tokens_at c u ms m !! v = Some e' /\ (fst e <= fst e')%Z) \/
  (fst e <= timestamp_millis (utc c) - INVALIDATION_RETENTION_MS)%Z.
Proof.
  intros Hv. rewrite at_lookup. destruct (decide (u = v)) as [<-|]; rewrite Hv;
    [destruct (Z.ltb_spec (fst e) ms)|]; case_decide; simpl in *; (by left; eexists; split; [done|simpl; lia]) || (right; lia).
Qed.

Lemma invalidated_now c u m : exists e, invalidate_user_tokens c u m !! u = Some e /\ (timestamp_millis (utc c) <= fst e)%Z.
Proof.
  unfold invalidate_user_tokens. rewrite at_lookup, decide_True by done.
  assert (0 < INVALIDATION_RETENTION_MS)%Z by done.
  destruct (m !! u) as [e|]; [destruct (Z.ltb_spec (fst e) (timestamp_millis (utc c)))|];
    rewrite decide_True by (simpl; lia); eexists; (split; [done|simpl; lia]).
Qed.

(** A process's later writes to the map, each with its call. *)
Definition later_writes (l : list (Call * Uuid * Z)) (m : InvalidationMap) : InvalidationMap :=
  foldl (fun m '(c, u, ms) => invalidate_user_tokens_at c u ms m) m l.

Lemma later_keep l m u e now : m !! u = Some e -> Forall (fun '(c, _, _) => (utc c <= now)%Z) l ->
  (exists e', later_writes l m !! u = Some e' /\ (fst e <= fst e')%Z) \/
  (fst e <= timestamp_millis now - INVALIDATION_RETENTION_MS)%Z.
Proof.
  revert m e. induction l as [|[[c v] ms] l IH]; intros m e He Hl; [by left; eexists|].
  apply Forall_cons in Hl as [Hc Hl]. simpl. destruct (at_monotone c v ms m u e He) as [(e' & He' & Hle)|Hold].
  - destruct (IH _ _ He' Hl) as [(e2 & He2 & Hle2)|Hold]; [left; eexists; split; [done|lia]|right; lia].
  - right. assert (timestamp_millis (utc c) <= timestamp_millis now)%Z; [|lia]. by apply Z.div_le_mono.
Qed.

Section Clocks.
Context `{Chrono} `{JwtCrate} `{Bcrypt}.

Lemma decoded c t w claims w' : decode_token c t w = (Ok claims, w') ->
  jwt_decode (timestamp (utc c)) t = Ok claims /\ w' = w.
Proof. unfold decode_token, lift. destruct (jwt_decode _ _) eqn:E; [|done]. intros [= <- <-]. done. Qed.

(** C14. An invalidation holds for as long as there is something to hold back.
    Once this process has invalidated a user's tokens, the in-memory check
    refuses every access token issued up to that millisecond, after any later
    writes to the map for any users - a write never lowers a watermark - and
    although entries are dropped after seven days: a token that does not live
    longer than that expires first. *)
Theorem invalidated_token_stays_out c0 m u l c t w claims w' claims' :
  Forall (fun '(c', _, _) => (utc c' <= utc c)%Z) l ->
  invalidations w = later_writes l (invalidate_user_tokens c0 u m) ->
  jwt_decode (timestamp (utc c)) t = Ok claims -> subject claims = u ->
  (issued_ms claims <= timestamp_millis (utc c0))%Z ->
  (exp claims * 1000 + 999 < issued_ms claims + INVALIDATION_RETENTION_MS)%Z ->
  validate_access_token c t w <> (Ok claims', w').
Proof.
  intros Hl Hw Ht Hs Hi Hlife. unfold validate_access_token. intros (cl & w1 & E & E')%then_Ok.
  apply decoded in E as [E ->]. rewrite Ht in E. injection E as <-. destruct (negb _); [done|].
  destruct (invalidated_now c0 u m) as (e & He & Hle).
  assert (exists e', invalidations w !! u = Some e' /\ (fst e <= fst e')%Z) as (e' & He' & Hle').
  { rewrite Hw. destruct (later_keep l _ _ _ _ He Hl) as [|Hold]; [done|]. exfalso.
    pose proof (jwt_decode_fresh _ _ _ Ht) as Hx. unfold timestamp, timestamp_millis, NANOS_PER_SEC, NANOS_PER_MILLI in *.
    assert (utc c / 1000000 / 1000 <= exp claims)%Z by (rewrite Z.div_div by lia; done). 
    pose proof (Z.div_mod (utc c / 1000000) 1000). pose proof (Z.mod_pos_bound (utc c / 1000000) 1000). lia. }
  unfold is_token_invalidated in E'. rewrite Hs, He' in E'. rewrite (proj2 (Z.leb_le _ _)) in E'; [done|]. lia.
Qed.

(** A token minted after an invalidation is not caught by it, even in the
    same millisecond: the mint steps past the watermark, so both the in-memory
    check ([<=]) and the cached one ([<]) let it through, while every token
    issued up to the invalidation is refused by the in-memory check. *)
Theorem mint_follows_invalidation c0 c u m a repo_ids scopes credential_exp family :
  user_id (account_user a) = u -> (forall e, m !! u = Some e -> (fst e < I64_MAX)%Z) ->
  (timestamp_millis (utc c0) < I64_MAX)%Z -> (- 2 ^ 63 <= timestamp_millis (utc c0))%Z ->
  let m' := invalidate_user_tokens c0 u m in
  let claims := access_claims c m' a repo_ids scopes credential_exp family in
  is_token_invalidated m' u (issued_ms claims) = false /\
  (forall e, cached_watermark c m' u = Some e -> (issued_ms claims <? watermark e)%Z = false) /\
  (forall ms, (ms <= timestamp_millis (utc c0))%Z -> is_token_invalidated m' u ms = true).
Proof.
  intros Hu Hm Hmax Hmin m' claims. destruct (invalidated_now c0 u m) as (e & He & Hle). fold m' in He.
  assert (fst e < I64_MAX)%Z as Hlt.
  { revert He. unfold m', invalidate_user_tokens. rewrite at_lookup, decide_True by done.
    destruct (m !! u) as [e0|] eqn:E; [specialize (Hm _ eq_refl); destruct (Z.ltb_spec (fst e0) (timestamp_millis (utc c0)))|];
      case_decide; intros [= <-]; simpl; lia. }
  assert (fst e < issued_ms claims)%Z as Hnew.
  { unfold claims, issued_ms. cbn. unfold effective_iat_ms, mint_ms, invalidation_watermark_ms. cbn. rewrite Hu, He. cbn.
    destruct (Z.leb_spec (timestamp_millis (utc c)) (fst e)); [|lia]. unfold saturating_add_i64. rewrite saturate_id; lia. }
  unfold is_token_invalidated, cached_watermark. rewrite He. destruct e as [ms0 rec]. simpl in *. split_and!.
  - apply Z.leb_gt. lia.
  - intros x. case_match; [|done]. intros [= <-]. simpl. apply Z.ltb_ge. lia.
  - intros ms Hms. apply Z.leb_le. lia.
Qed.

(** * What an accepted access token says *)

(** The watermark a check of [u] compares with: the one recorded in this
    process in the last five seconds or else the database's, which is what the
    row says less the clock skew. *)
Definition compared_with (c : Call) (w : World) (u : Uuid) : option (Z * bool) :=
  match cached_watermark c (invalidations w) u with
  | Some e => Some (watermark e, true)
  | None => (fun a => (apply_db_clock_skew_tolerance (timestamp_millis (credential_changed_at a)),
                       user_is_active (account_user a))) <$> accounts (tables w) !! u
  end.

Lemma replica_safe_spec c u ms w r w' : is_token_invalidated_replica_safe c u ms w = (Ok r, w') ->
  r = match compared_with c w u with Some (mark, active) => negb active || (ms <? mark)%Z | None => false end.
Proof.
  unfold is_token_invalidated_replica_safe, fetch_credential_change_watermark, compared_with.
  intros (entry & w1 & E & E')%then_Ok.
  destruct (cached_watermark c (invalidations w) u) as [[mark active]|] eqn:Ec.
  - injection E as <- <-. injection E' as <- <-. simpl.
    unfold cached_watermark in Ec. destruct (invalidations w !! u) as [[]|]; [|done]. case_match; [|done].
    by injection Ec as <- <-.
  - unfold read_watermark in E. apply then_Ok in E as (row & w2 & E1 & E2). unfold select in E1.
    destruct (fault c SelectWatermark); [done|]. injection E1 as <- <-.
    destruct (accounts (tables w) !! u); simpl in E2; unfold ret in *; simplify_eq/=; [|done].
    by destruct (user_is_active _).
Qed.

(** An access token the database-backed validator accepts is unexpired, of
    the access type, and its subject is an active account now; the principal's
    administrator flag is the account's, whatever the token claims, and every
    other claim is the token's own.  It was issued no earlier than the
    credential change this replica knows of: when nothing was recorded in the
    last five seconds, no more than two seconds before the account's password,
    second factor or privileges last changed. *)
Theorem accepted_token_is_current c t w claims' w' : validate_access_token_async c t w = (Ok claims', w') ->
  exists claims a, jwt_decode (timestamp (utc c)) t = Ok claims /\ token_type claims = "access" /\
    (timestamp (utc c) <= exp claims)%Z /\
    accounts (tables w) !! subject claims = Some a /\ user_is_active (account_user a) = true /\
    claims' = with_live_admin (user_is_admin (account_user a)) claims /\
    tables w' = tables w /\
    match cached_watermark c (invalidations w) (subject claims) with
    | Some e => (watermark e <= issued_ms claims)%Z
    | None => (apply_db_clock_skew_tolerance (timestamp_millis (credential_changed_at a)) <= issued_ms claims)%Z
    end.
Proof.
  unfold validate_access_token_async. intros (claims & w1 & E & E')%then_Ok. apply decoded in E as [Ht ->].
  destruct (String.eqb_spec (token_type claims) "access") as [Hk|]; [|done]. simpl in E'.
  apply then_Ok in E' as ([] & w2 & Er & E'). pose proof (keeps_reject c claims w) as Hw. rewrite Er in Hw. simpl in Hw.
  apply then_Ok in E' as (live & w3 & El & E'). unfold fetch_live_is_admin, select in El.
  destruct (fault c SelectLiveAdmin); [done|]. injection El as <- <-. rewrite Hw in E'. unfold active_account in E'.
  destruct (accounts (tables w) !! subject claims) as [a|] eqn:Ea; [|done].
  destruct (user_is_active (account_user a)) eqn:Eact; [|done]. simpl in E'. unfold ret in E'. injection E' as <- <-.
  exists claims, a. split_and!; try done; [by eapply jwt_decode_fresh|].
  unfold reject_if_invalidated_replica_safe in Er. apply then_Ok in Er as ([] & w4 & Er & Er'); [done|].
  apply replica_safe_spec in Er. unfold compared_with in Er. rewrite Ea in Er.
  destruct (cached_watermark c (invalidations w) (subject claims)) as [e|]; simpl in Er; [|rewrite Eact in Er; simpl in Er];
    symmetry in Er; by apply Z.ltb_ge in Er.
Qed.

(** * Tickets *)

Inductive TicketStep :=
| Spend (c : Call) (kind : string) (t : Token)
| Janitor (c : Call) (grace : Z).

Definition step_call (s : TicketStep) : Call := match s with Spend c _ _ => c | Janitor c _ => c end.

(** Both flows validate a ticket of their kind and then claim its identifier
    ([verify_totp], [enroll_complete]). *)
Definition spend (c : Call) (kind : string) (t : Token) : M JwtClaims :=
  let! claims := validate_ticket kind c t in
  let! _ := consume_totp_pending_jti c claims in
  ret claims.

Definition ticket_step (s : TicketStep) (w : World) : World :=
  match s with
  | Spend c kind t => snd (spend c kind t w)
  | Janitor c grace => snd (cleanup_expired_totp_pending_jti c grace w)
  end.

(** The spending of the ticket [j] by a step. *)
Definition spent (j : Uuid) (s : TicketStep) (w : World) : nat :=
  match s with
  | Spend c kind t => match fst (spend c kind t w) with
                      | Ok claims => if decide (jti claims = Some j) then 1 else 0
                      | Err _ => 0
                      end
  | Janitor _ _ => 0
  end.

Fixpoint times_spent (j : Uuid) (l : list TicketStep) (w : World) : nat :=
  match l with
  | [] => 0
  | s :: l => spent j s w + times_spent j l (ticket_step s w)
  end.

Lemma consume_cases c claims w r w' : consume_totp_pending_jti c claims w = (r, w') ->
  (tables w' = tables w /\ r <> Ok tt) \/
  exists j x, jti claims = Some j /\ from_timestamp (exp claims) = Some x /\
    pending_jtis (tables w') = insert_new j {| pending_user := subject claims; pending_expires_at := x |} (pending_jtis (tables w)) /\
    (r = Ok tt -> pending_jtis (tables w) !! j = None).
Proof.
  unfold consume_totp_pending_jti. destruct (jti claims) as [j|]; [|intros [= <- <-]; by left].
  destruct (from_timestamp (exp claims)) as [x|]; [|intros [= <- <-]; by left]. unfold then_, execute, fail, ret.
  destruct (pending_jtis (tables w) !! j) eqn:Ej, (accounts (tables w) !! subject claims), (fault c InsertPending);
    intros [= <- <-]; (by left) || (right; exists j, x; by split_and!).
Qed.

Lemma spend_keeps_rows c kind t w k r : pending_jtis (tables w) !! k = Some r ->
  pending_jtis (tables (snd (spend c kind t w))) !! k = Some r.
Proof.
  intros Hk. destruct (spend c kind t w) as [res w'] eqn:E. simpl. revert E. unfold spend, validate_ticket, then_, fail, ret.
  destruct (decode_token c t w) as [[claims|] w1] eqn:Ed; [apply decoded in Ed as [_ ->]|
    unfold decode_token, lift in Ed; injection Ed as _ <-; by intros [= <- <-]].
  destruct (negb _); [by intros [= <- <-]|].
  destruct (consume_totp_pending_jti c claims w) as [r' w2] eqn:Ec. intros Hres.
  assert (w' = w2) as -> by (by destruct r'; injection Hres).
  apply consume_cases in Ec as [[-> _]|(j & x & _ & _ & -> & _)]; [done|]. rewrite insert_new_lookup.
  case_decide as Hd; [subst|done]. by rewrite Hk.
Qed.

(** What a successful spending needs and leaves. *)
Lemma spend_Ok c kind t w claims w' : spend c kind t w = (Ok claims, w') ->
  jwt_decode (timestamp (utc c)) t = Ok claims /\ exists j x, jti claims = Some j /\ from_timestamp (exp claims) = Some x /\
    pending_jtis (tables w) !! j = None /\
    pending_jtis (tables w') !! j = Some {| pending_user := subject claims; pending_expires_at := x |}.
Proof.
  unfold spend, validate_ticket. intros (cl & w1 & E & E')%then_Ok. apply then_Ok in E as (cl' & w2 & Ed & E).
  apply decoded in Ed as [Ed ->]. destruct (negb _); [done|]. unfold ret in E. injection E as -> ->.
  apply then_Ok in E' as ([] & w2 & Ec & E'). unfold ret in E'. injection E' as -> ->. split; [done|].
  apply consume_cases in Ec as [[_ ?]|(j & x & Hj & Hx & Hp & Hn)]; [done|]. exists j, x. specialize (Hn eq_refl).
  split_and!; try done. rewrite Hp, insert_new_lookup, decide_True by done. by rewrite Hn.
Qed.

Section Ticket.
(** A ticket [j] that expires at [x]: every presentation of it carries that
    [exp]. *)
Context (j : Uuid) (x skew : Z).

Definition presents (s : TicketStep) : Prop :=
  match s with
  | Spend c kind t => forall claims, jwt_decode (timestamp (utc c)) t = Ok claims -> jti claims = Some j -> exp claims = x
  | Janitor _ grace => (skew + NANOS_PER_SEC <= grace)%Z
  end.

Definition no_later (s1 s2 : TicketStep) : Prop := (utc (step_call s1) <= utc (step_call s2) + skew)%Z.

Lemma expired_never_spent l w : Forall presents l -> Forall (fun s => (x < timestamp (utc (step_call s)))%Z) l ->
  times_spent j l w = 0.
Proof.
  revert w. induction l as [|s l IH]; intros w Hp Hx; [done|]. apply Forall_cons in Hp as [Hs Hp], Hx as [Hxs Hx].
  simpl. rewrite IH by done. destruct s as [c kind t|]; [|done]. simpl in *.
  destruct (spend c kind t w) as [[claims|] w'] eqn:E; [|done]. simpl. case_decide as Hj; [|done]. exfalso.
  apply spend_Ok in E as [Ht _]. specialize (Hs _ Ht Hj). apply jwt_decode_fresh in Ht. lia.
Qed.

Lemma spent_stays_spent l w r : pending_jtis (tables w) !! j = Some r -> pending_expires_at r = (x * NANOS_PER_SEC)%Z ->
  Forall presents l -> StronglySorted no_later l -> times_spent j l w = 0.
Proof.
  revert w. induction l as [|s l IH]; intros w Hr Hx Hp Hl; [done|].
  apply Forall_cons in Hp as [Hs Hp]. apply StronglySorted_inv in Hl as [Hl Hall]. simpl.
  destruct s as [c kind t|c grace]; simpl.
  - rewrite IH; [|by apply spend_keeps_rows|done..].
    destruct (spend c kind t w) as [[claims|] w'] eqn:E; [|done]. simpl. case_decide as Hj; [|done]. exfalso.
    apply spend_Ok in E as (_ & k & y & Hk & _ & Hn & _). rewrite Hj in Hk. injection Hk as <-. congruence.
  - unfold cleanup_expired_totp_pending_jti, then_, select. destruct (fault c DeleteExpiredPending); [by apply IH|]. cbn.
    destruct (decide (utc c - grace <= pending_expires_at r)%Z) as [Hk|Hk].
    + apply IH; try done. cbn. apply map_lookup_filter_Some_2; done.
    + apply expired_never_spent; [done|]. eapply Forall_impl; [exact Hall|]. intros s Hno. unfold no_later in Hno. simpl in *.
      rewrite Hx in Hk. unfold timestamp. apply Z.lt_le_trans with (x + 1)%Z; [lia|]. apply Z.div_le_lower_bound; [done|].
      unfold NANOS_PER_SEC in *. lia.
Qed.
End Ticket.

(** A TOTP ticket is spent at most once.  Over any sequence of
    presentations - of this and other tickets, at the verification and the
    enrollment endpoint, on replicas whose clocks differ - and of janitor runs
    that prune expired rows, the identifier of a ticket is claimed by at most
    one of them, provided the janitor's grace exceeds the clock skew by a
    second: a pruned row belongs to a ticket that no longer decodes. *)
Theorem ticket_spent_once j x skew l w :
  Forall (presents j x skew) l -> StronglySorted (no_later skew) l -> times_spent j l w <= 1.
Proof.
  revert w. induction l as [|s l IH]; intros w Hp Hl; simpl; [lia|].
  apply Forall_cons in Hp as [Hs Hp]. apply StronglySorted_inv in Hl as [Hl Hall].
  destruct (spent j s w) as [|n] eqn:E; [by apply IH|]. destruct s as [c kind t|]; [|done]. simpl in *.
  destruct (spend c kind t w) as [[claims|] w'] eqn:Es; [|done]. simpl in *. case_decide as Hj; [|done].
  injection E as <-. apply spend_Ok in Es as (Ht & k & y & Hk & Hy & _ & Hr). rewrite Hj in Hk. injection Hk as <-.
  rewrite (spent_stays_spent j x skew l w' _ Hr); try done. simpl.
  unfold from_timestamp in Hy. rewrite (Hs _ Ht Hj) in Hy. case_match; [|done]. by injection Hy.
Qed.

End Clocks.

(** * Witnesses *)

(** Alice's access token of noon, and what the process has recorded. *)
Definition access_of_noon : @Token clear_jwt :=
  {| identity := claims_for alice 1700000000 1700000000000 None None; exp := 1700001800; token_type := "access";
     jti := None; family_id := Some 7%N; scan_pull_repo := None |}.

Definition after_change : InvalidationMap := invalidate_user_tokens (call_at 60 11%N 8%N) 1%N ∅.
Definition later_calls : list (Call * Uuid * Z) := [(call_at 61 0%N 0%N, 2%N, 1700000061000%Z); (call_at 70 0%N 0%N, 1%N, 0%Z)].

Lemma invalidated_token_stays_out_witness :
  validate_access_token (call_at 100 0%N 0%N) access_of_noon {| tables := one_account; invalidations := later_writes later_calls after_change |}
    <> (Ok access_of_noon, one_world).
Proof.
  apply (invalidated_token_stays_out (call_at 60 11%N 8%N) ∅ 1%N later_calls (call_at 100 0%N 0%N) access_of_noon
    {| tables := one_account; invalidations := later_writes later_calls after_change |} access_of_noon one_world access_of_noon);
    [|reflexivity..|vm_compute; congruence|vm_compute; reflexivity].
  repeat constructor; vm_compute; congruence.
Defined.

Lemma mint_follows_invalidation_witness :
  is_token_invalidated after_change 1%N
    (issued_ms (access_claims (call_at 60 0%N 0%N) after_change alice None None None None)) = false.
Proof.
  apply (mint_follows_invalidation (call_at 60 11%N 8%N) (call_at 60 0%N 0%N) 1%N ∅ alice None None None None);
    [reflexivity|by intros e|vm_compute; reflexivity|vm_compute; congruence].
Defined.

Lemma accepted_token_is_current_witness :
  exists claims a, jwt_decode (timestamp (utc (call_at 60 0%N 0%N))) access_of_noon = Ok claims /\
    accounts one_account !! subject claims = Some a /\ user_is_active (account_user a) = true.
Proof.
  destruct (accepted_token_is_current (call_at 60 0%N 0%N) access_of_noon one_world access_of_noon one_world)
    as (claims & a & ? & _ & _ & ? & ? & _); [vm_compute; reflexivity|]. by exists claims, a.
Defined.

Definition sample_ticket : @Token clear_jwt := ticket_claims (call_at 0 20%N 0%N) alice "totp_pending" 5.
Definition ticket_run : list TicketStep :=
  [Spend (call_at 10 0%N 0%N) "totp_pending" sample_ticket; Janitor (call_at 11 0%N 0%N) (24 * 3600 * NANOS_PER_SEC);
   Spend (call_at 12 0%N 0%N) "totp_pending" sample_ticket].

Lemma ticket_spent_once_witness : times_spent 20%N ticket_run one_world <= 1.
Proof.
  apply (ticket_spent_once 20%N 1700000300 0); [repeat constructor|].
  - intros claims E _. vm_compute in E. by injection E as <-.
  - vm_compute. congruence.
  - intros claims E _. vm_compute in E. by injection E as <-.
  - repeat constructor; vm_compute; congruence.
Defined.

Example ticket_is_spent : times_spent 20%N ticket_run one_world = 1.
Proof. vm_compute. reflexivity. Qed.

(** * A token that comes back

    A password change at second 1 of the hour, handled by this process, turns
    away a token issued half a second earlier; five seconds later the entry is
    stale, the row is read again, its watermark is two seconds behind the
    change, and the same token is accepted. *)

Definition changed_account : Account :=
  {| account_user := account_user alice; password_hash := Some "$2b$new"; must_change_password := false; totp_secret := None;
     totp_enabled := false; totp_backup_codes := None; totp_verified_at := None; failed_login_attempts := 0;
     locked_until := None; last_failed_login_at := None; password_changed_at := (noon + 1 * NANOS_PER_SEC)%Z;
     privileges_changed_at := (noon - days 30)%Z; last_login_at := None |}.

Definition changed_world : World :=
  {| tables := {| accounts := {[1%N := changed_account]}; refresh_jtis := ∅; pending_jtis := ∅; password_history := [] |};
     invalidations := invalidate_user_tokens (call_at 1 0%N 0%N) 1%N ∅ |}.

Definition stolen_token : @Token clear_jwt :=
  {| identity := claims_for alice 1700000000 1700000000500 None None; exp := 1700001800; token_type := "access";
     jti := None; family_id := None; scan_pull_repo := None |}.

Example recent_token_revives :
  fst (validate_access_token_async (call_at 2 0%N 0%N) stolen_token changed_world) = Err INVALIDATED /\
  fst (validate_access_token_async (call_at 7 0%N 0%N) stolen_token changed_world) = Ok stolen_token.
Proof. vm_compute. done. Qed.
