(* ===== verification/SessionRuns.v ===== *)
(** Login sessions under concurrency: the rotations, revocations, logins and
    janitor runs of any number of replicas over one database, at the grain of
    PostgreSQL's READ COMMITTED.

    A rotation locks the row it consumes until it commits, so it is two steps:
    one that wins the row and mints, one that writes.  A revocation by family or
    by user is one UPDATE over many rows: it sees the rows that existed when it
    began, waits for those that are locked, and checks them again; it is two
    steps as well.  A step that would wait is not taken.  Checks that only
    refuse a call are left out: the runs here are all the runs of the code and
    more. *)

From stdpp Require Import base list strings gmap relations.
From Stdlib Require Import ZArith Lia.
From S2P Require Import Prelude RustStr RustNum Chrono Repository AccessDb Auth Tokens Errors SessionDb Sessions SessionSamples SessionFacts.

Local Open Scope string_scope.

(** * The shared state *)

(** A rotation that won its row: the row, the transaction's [NOW()], the claims
    it minted and the row they will be recorded under. *)
Record Rotation := { rot_jti : Uuid; rot_at : DateTime; rot_new : Uuid; rot_successor : JwtClaims; rot_row : RefreshRow }.

(** A revocation under way: what it selects and the rows it saw. *)
Record Sweep := { sweep_selects : RefreshRow -> bool; sweep_saw : gset Uuid }.

(** [sh_issued] is the refresh tokens handed out so far. *)
Record Shared := {
  sh_db : SessionTables;
  sh_issued : list JwtClaims;
  sh_rotations : gmap nat Rotation;
  sh_sweeps : gmap nat Sweep;
  sh_now : DateTime
}.

Definition with_db (db : SessionTables) (s : Shared) : Shared :=
  {| sh_db := db; sh_issued := sh_issued s; sh_rotations := sh_rotations s; sh_sweeps := sh_sweeps s; sh_now := sh_now s |}.
Definition with_rotations (m : gmap nat Rotation) (s : Shared) : Shared :=
  {| sh_db := sh_db s; sh_issued := sh_issued s; sh_rotations := m; sh_sweeps := sh_sweeps s; sh_now := sh_now s |}.
Definition with_sweeps (m : gmap nat Sweep) (s : Shared) : Shared :=
  {| sh_db := sh_db s; sh_issued := sh_issued s; sh_rotations := sh_rotations s; sh_sweeps := m; sh_now := sh_now s |}.
Definition with_now (t : DateTime) (s : Shared) : Shared :=
  {| sh_db := sh_db s; sh_issued := sh_issued s; sh_rotations := sh_rotations s; sh_sweeps := sh_sweeps s; sh_now := t |}.

Definition rows (s : Shared) : gmap Uuid RefreshRow := refresh_jtis (sh_db s).

(** A token handed out with the row recorded for it. *)
Definition record_token (claims : JwtClaims) (j : Uuid) (row : RefreshRow) (s : Shared) : Shared :=
  {| sh_db := set_refresh (insert_new j row) (sh_db s); sh_issued := claims :: sh_issued s;
     sh_rotations := sh_rotations s; sh_sweeps := sh_sweeps s; sh_now := sh_now s |}.

(** The writes of a rotation, in the order of its statements. *)
Definition commit_rotation (r : Rotation) (s : Shared) : Shared :=
  let consumed := with_db (set_refresh (alter (set_consumed (rot_at r)) (rot_jti r)) (sh_db s)) s in
  let recorded := record_token (rot_successor r) (rot_new r) (rot_row r) consumed in
  with_db (set_refresh (alter (set_superseded (rot_new r)) (rot_jti r)) (sh_db recorded)) recorded.

Definition unlocked (s : Shared) (j : Uuid) : Prop := forall n r, sh_rotations s !! n = Some r -> rot_jti r <> j.

(** [Uuid::new_v4] draws an identifier nobody has. *)
Definition unused (s : Shared) (j : Uuid) : Prop :=
  rows s !! j = None /\ (forall claims, claims ∈ sh_issued s -> jti claims <> Some j) /\
  forall n r, sh_rotations s !! n = Some r -> rot_new r <> j.
Definition unused_family (s : Shared) (f : Uuid) : Prop := forall claims, claims ∈ sh_issued s -> family_id claims <> Some f.

(** The janitor's grace ([scheduler_service.rs]). *)
Definition JANITOR_GRACE : Z := (24 * 3600 * NANOS_PER_SEC)%Z.

(** The second half of a revocation, on the rows it saw. *)
Definition revoke_saw (t : DateTime) (w : Sweep) (k : Uuid) (r : RefreshRow) : RefreshRow :=
  if decide (k ∈ sweep_saw w) then
    if sweep_selects w r then match revoked_at r with None => set_revoked t r | Some _ => r end else r
  else r.

(** [ON DELETE CASCADE]. *)
Definition cascade {A} (acc : gmap Uuid A) (m : gmap Uuid RefreshRow) : gmap Uuid RefreshRow :=
  base.filter (fun kr : Uuid * RefreshRow => is_Some (acc !! row_user (snd kr))) m.

Section Runs.
Context `{Chrono} `{JwtCrate} `{Bcrypt}.
(** The replicas' wall clocks are within [skew] of the database's. *)
Context (skew : Z) (Hskew : (2 * skew + NANOS_PER_SEC <= JANITOR_GRACE)%Z).

Definition near (t now : DateTime) : Prop := (now - skew <= t <= now + skew)%Z.

Inductive step (s : Shared) : Shared -> Prop :=
(** Time passes. *)
| step_tick t : (sh_now s <= t)%Z -> step s (with_now t s)
(** A login, or a registry token: a fresh family, recorded before it is handed out. *)
| step_issue claims j f i a :
    jti claims = Some j -> family_id claims = Some f -> unused s j -> unused_family s f ->
    accounts (sh_db s) !! subject claims = Some a -> row_instants claims = Ok i ->
    step s (record_token claims j (row_of claims f i) s)
(** A refresh wins the row of the presented token, and mints. *)
| step_rotate n c m claims j f i a :
    claims ∈ sh_issued s -> token_type claims = "refresh" -> jti claims = Some j -> family_id claims = Some f ->
    near (utc c) (sh_now s) -> (timestamp (utc c) <= exp claims)%Z ->
    live_jti (sh_db s) j = true -> unlocked s j -> active_account (sh_db s) (subject claims) = Some a ->
    unused s (new_jti c) -> row_instants (next_claims c m a f claims) = Ok i -> sh_rotations s !! n = None ->
    step s (with_rotations (<[n := {| rot_jti := j; rot_at := db_now c; rot_new := new_jti c;
      rot_successor := next_claims c m a f claims; rot_row := row_of (next_claims c m a f claims) f i |}]> (sh_rotations s)) s)
(** It commits: the consumption, the successor's row and the link. *)
| step_commit n r a :
    sh_rotations s !! n = Some r -> accounts (sh_db s) !! row_user (rot_row r) = Some a ->
    step s (commit_rotation r (with_rotations (delete n (sh_rotations s)) s))
(** Or it is undone. *)
| step_abort n r : sh_rotations s !! n = Some r -> step s (with_rotations (delete n (sh_rotations s)) s)
(** A refresh whose token has no row. *)
| step_unrecorded c m claims j f i a :
    claims ∈ sh_issued s -> token_type claims = "refresh" -> jti claims = Some j -> family_id claims = Some f ->
    near (utc c) (sh_now s) -> (timestamp (utc c) <= exp claims)%Z ->
    rows s !! j = None -> active_account (sh_db s) (subject claims) = Some a ->
    unused s (new_jti c) -> row_instants (next_claims c m a f claims) = Ok i ->
    step s (record_token (next_claims c m a f claims) (new_jti c) (row_of (next_claims c m a f claims) f i) s)
(** A revocation begins, and ends. *)
| step_sweep n p : sh_sweeps s !! n = None ->
    step s (with_sweeps (<[n := {| sweep_selects := p; sweep_saw := dom (matching p (rows s)) |}]> (sh_sweeps s)) s)
| step_swept n w t : sh_sweeps s !! n = Some w -> (forall k, k ∈ sweep_saw w -> unlocked s k) ->
    step s (with_sweeps (delete n (sh_sweeps s)) (with_db (set_refresh (map_imap (fun k r => Some (revoke_saw t w k r))) (sh_db s)) s))
(** The janitor of a replica. *)
| step_janitor c : near (utc c) (sh_now s) ->
    (forall k r, rows s !! k = Some r -> (row_expires_at r < utc c - JANITOR_GRACE)%Z -> unlocked s k) ->
    step s (with_db (set_refresh (kept_rows row_expires_at (utc c - JANITOR_GRACE)%Z) (sh_db s)) s)
(** Accounts change, and may be deleted with their rows; an id is not reused. *)
| step_accounts acc pend hist :
    (forall u a, acc !! u = Some a -> user_id (account_user a) = u) ->
    (forall claims, claims ∈ sh_issued s -> accounts (sh_db s) !! subject claims = None -> acc !! subject claims = None) ->
    (forall k r, rows s !! k = Some r -> acc !! row_user r = None -> unlocked s k) ->
    step s (with_db {| accounts := acc; refresh_jtis := cascade acc (rows s); pending_jtis := pend; password_history := hist |} s).

Definition initial (s : Shared) : Prop :=
  (forall u a, accounts (sh_db s) !! u = Some a -> user_id (account_user a) = u) /\
  rows s = ∅ /\ sh_issued s = [] /\ sh_rotations s = ∅ /\ sh_sweeps s = ∅.

Definition reachable (s : Shared) : Prop := exists s0, initial s0 /\ rtc step s0 s.

(** * The invariant *)

(** Two tokens of one grant: the subject, the repositories and the actions. *)
Definition same_grant (c1 c2 : JwtClaims) : Prop :=
  subject c1 = subject c2 /\ claims_repo_ids (identity c1) = claims_repo_ids (identity c2) /\
  claims_scopes (identity c1) = claims_scopes (identity c2) /\ token_type c1 = token_type c2.

(** A row recorded for a token. *)
Definition recorded_for (claims : JwtClaims) (f : Uuid) (r : RefreshRow) : Prop :=
  row_family r = f /\ row_user r = subject claims /\ row_expires_at r = (exp claims * NANOS_PER_SEC)%Z.

Record Inv (s : Shared) : Prop := {
  inv_keys : forall u a, accounts (sh_db s) !! u = Some a -> user_id (account_user a) = u;
  inv_issued : forall claims, claims ∈ sh_issued s -> exists j f, jti claims = Some j /\ family_id claims = Some f /\
    match rows s !! j with
    | Some r => recorded_for claims f r
    | None => accounts (sh_db s) !! subject claims = None \/ (exp claims * NANOS_PER_SEC + JANITOR_GRACE < sh_now s + skew)%Z
    end;
  inv_jtis : forall c1 c2, c1 ∈ sh_issued s -> c2 ∈ sh_issued s -> jti c1 = jti c2 -> c1 = c2;
  inv_rows : forall j r, rows s !! j = Some r -> exists claims, claims ∈ sh_issued s /\ jti claims = Some j;
  inv_rotations : forall n r, sh_rotations s !! n = Some r -> exists claims f,
    claims ∈ sh_issued s /\ jti claims = Some (rot_jti r) /\ family_id claims = Some f /\
    live_jti (sh_db s) (rot_jti r) = true /\ jti (rot_successor r) = Some (rot_new r) /\
    family_id (rot_successor r) = Some f /\ same_grant claims (rot_successor r) /\
    recorded_for (rot_successor r) f (rot_row r) /\ is_live (rot_row r) = true /\
    rows s !! rot_new r = None /\ (forall c', c' ∈ sh_issued s -> jti c' <> Some (rot_new r));
  inv_locks : forall n1 n2 r1 r2, sh_rotations s !! n1 = Some r1 -> sh_rotations s !! n2 = Some r2 ->
    rot_jti r1 = rot_jti r2 \/ rot_new r1 = rot_new r2 -> n1 = n2;
  inv_live : forall j1 j2 r1 r2, rows s !! j1 = Some r1 -> rows s !! j2 = Some r2 -> is_live r1 = true -> is_live r2 = true ->
    row_family r1 = row_family r2 -> j1 = j2;
  inv_grant : forall c1 c2, c1 ∈ sh_issued s -> c2 ∈ sh_issued s -> family_id c1 = family_id c2 -> same_grant c1 c2
}.

Lemma initial_inv s : initial s -> Inv s.
Proof.
  intros (Hk & Hr & Hi & Hrot & _). unfold rows in *. split; rewrite ?Hi, ?Hrot; unfold rows; rewrite ?Hr; try done.
  - by intros ? ?%elem_of_nil.
  - by intros ? ? ?%elem_of_nil.
  - by intros ? ? ?%elem_of_nil.
Qed.

(** ** Steps that only take away *)

(** [r'] is a later version of the row [r]: nothing comes back to life. *)
Definition later_row (r r' : RefreshRow) : Prop :=
  row_family r' = row_family r /\ row_user r' = row_user r /\ row_expires_at r' = row_expires_at r /\
  (is_live r' = true -> is_live r = true).

Lemma inv_take_away s s' :
  Inv s -> sh_issued s' = sh_issued s -> (sh_now s <= sh_now s')%Z ->
  (forall n r, sh_rotations s' !! n = Some r -> sh_rotations s !! n = Some r /\ live_jti (sh_db s') (rot_jti r) = true) ->
  (forall u a, accounts (sh_db s') !! u = Some a -> user_id (account_user a) = u) ->
  (forall claims, claims ∈ sh_issued s -> accounts (sh_db s) !! subject claims = None -> accounts (sh_db s') !! subject claims = None) ->
  (forall j r', rows s' !! j = Some r' -> exists r, rows s !! j = Some r /\ later_row r r') ->
  (forall j r, rows s !! j = Some r -> rows s' !! j = None ->
    accounts (sh_db s') !! row_user r = None \/ (row_expires_at r + JANITOR_GRACE < sh_now s' + skew)%Z) ->
  Inv s'.
Proof.
  intros [] Hi Hn Hrot Hk Hacc Hlater Hgone. split; rewrite ?Hi; try done.
  - intros claims Hc. destruct (inv_issued0 claims Hc) as (j & f & Hj & Hf & Hrow). exists j, f. split; [done|]. split; [done|].
    destruct (rows s' !! j) as [r'|] eqn:E.
    + destruct (Hlater _ _ E) as (r & Er & F1 & F2 & F3 & _). rewrite Er in Hrow. unfold recorded_for in *. by rewrite F1, F2, F3.
    + destruct (rows s !! j) as [r|] eqn:Er.
      * destruct Hrow as (_ & Hu & He). destruct (Hgone _ _ Er E) as [|]; [left; congruence|right; lia].
      * destruct Hrow; [left; by eauto|right; lia].
  - intros j r' E. destruct (Hlater _ _ E) as (r & Er & _). eauto.
  - intros n r [Hr Hl]%Hrot. destruct (inv_rotations0 n r Hr) as (claims & f & ? & ? & ? & ? & ? & ? & ? & ? & ? & Hnew & ?).
    exists claims, f. split_and!; try done. destruct (rows s' !! rot_new r) eqn:E; [|done].
    destruct (Hlater _ _ E) as (? & ? & _). congruence.
  - intros n1 n2 r1 r2 [E1 _]%Hrot [E2 _]%Hrot. by apply inv_locks0.
  - intros j1 j2 r1 r2 E1 E2 L1 L2 Hf. destruct (Hlater _ _ E1) as (s1 & S1 & F1 & _ & _ & V1), (Hlater _ _ E2) as (s2 & S2 & F2 & _ & _ & V2).
    eapply inv_live0; eauto. congruence.
Qed.

(** ** A token is recorded *)

Lemma inv_record s claims j f row :
  Inv s -> jti claims = Some j -> family_id claims = Some f -> unused s j ->
  recorded_for claims f row -> is_live row = true ->
  (forall k r, rows s !! k = Some r -> row_family r = f -> is_live r = false) ->
  (forall c', c' ∈ sh_issued s -> family_id c' = Some f -> same_grant c' claims) ->
  Inv (record_token claims j row s).
Proof.
  intros [] Hj Hf (Hnew & Hfresh & Hrot) Hrow Hlive Hdead Hgrant.
  assert (forall k, rows (record_token claims j row s) !! k = if decide (j = k) then Some row else rows s !! k) as Hrows.
  { intros k. unfold rows, record_token. cbn. rewrite insert_new_lookup. unfold rows in Hnew. by rewrite Hnew. }
  split; unfold rows in *; cbn [sh_issued sh_rotations sh_now record_token] in *; try done.
  - intros c' [->|Hc]%elem_of_cons.
    + exists j, f. split; [done|]. split; [done|]. rewrite Hrows, decide_True by done. done.
    + destruct (inv_issued0 c' Hc) as (k & g & Hk & Hg & Hx). exists k, g. split; [done|]. split; [done|].
      rewrite Hrows. rewrite decide_False; [done|]. intros <-. by eapply Hfresh.
  - intros c1 c2 [->|I1]%elem_of_cons [->|I2]%elem_of_cons E; try done; [..|by apply inv_jtis0].
    + rewrite Hj in E. by edestruct Hfresh.
    + rewrite Hj in E. by edestruct Hfresh.
  - intros k r. rewrite Hrows. case_decide as Hd; [subst; intros [= <-]; exists claims; split; [by left|done]|].
    intros (c' & ? & ?)%inv_rows0. exists c'. split; [by right|done].
  - intros n r Hr. destruct (inv_rotations0 n r Hr) as (c' & g & Hc & ? & ? & Hl & ? & ? & ? & ? & ? & Hn & Hi).
    assert (rot_new r <> j) by by eapply Hrot. exists c', g. split_and!; try done; [by right|..].
    + unfold live_jti in *. rewrite Hrows. case_decide as Hd; [|done]. by rewrite <- Hd, Hnew in Hl.
    + rewrite Hrows. by rewrite decide_False.
    + intros c2 [->|Hc2]%elem_of_cons; [congruence|by apply Hi].
  - intros j1 j2 r1 r2. rewrite !Hrows. repeat case_decide; subst; try done.
    + intros [= <-] E2 _ L2 HF. destruct Hrow as (Hfam & _). rewrite (Hdead _ _ E2) in L2; congruence.
    + intros E1 [= <-] L1 _ HF. destruct Hrow as (Hfam & _). rewrite (Hdead _ _ E1) in L1; congruence.
    + by apply inv_live0.
  - intros c1 c2 [->|I1]%elem_of_cons [->|I2]%elem_of_cons E; try done; [..|by apply inv_grant0].
    + rewrite Hf in E. symmetry in E. destruct (Hgrant _ I2 E) as (? & ? & ? & ?). by split_and!.
    + rewrite Hf in E. by apply Hgrant.
Qed.

Lemma row_of_recorded claims f i : row_instants claims = Ok i -> recorded_for claims f (row_of claims f i).
Proof.
  unfold row_instants. destruct (from_timestamp (iat _)); [|done]. destruct (from_timestamp (exp _)) eqn:E; [|done].
  unfold from_timestamp in E.
  intros [= <-]. split_and!; try done. cbn. by destruct (_ && _); simplify_eq.
Qed.

(** The successor of a token is of its grant. *)
Lemma next_same_grant c m a f claims : token_type claims = "refresh" -> user_id (account_user a) = subject claims ->
  same_grant claims (next_claims c m a f claims).
Proof. by intros Hk Hu. Qed.

(** ** Each step *)

Lemma inv_begin s n c m claims j f i a :
  Inv s -> claims ∈ sh_issued s -> token_type claims = "refresh" -> jti claims = Some j -> family_id claims = Some f ->
  live_jti (sh_db s) j = true -> unlocked s j -> active_account (sh_db s) (subject claims) = Some a ->
  unused s (new_jti c) -> row_instants (next_claims c m a f claims) = Ok i ->
  Inv (with_rotations (<[n := {| rot_jti := j; rot_at := db_now c; rot_new := new_jti c;
      rot_successor := next_claims c m a f claims; rot_row := row_of (next_claims c m a f claims) f i |}]> (sh_rotations s)) s).
Proof.
  intros [] Hc Hk Hj Hf Hl Hu Ha (Hnew & Hfresh & Hrot) Hi. destruct (active_id _ _ _ inv_keys0 Ha) as [Hid _].
  split; cbn [sh_issued sh_rotations sh_now sh_db with_rotations]; unfold rows in *; try done.
  - intros n' r. rewrite lookup_insert. case_decide; [intros [= <-]|by apply inv_rotations0]. exists claims, f. cbn.
    split_and!; try done. by apply row_of_recorded.
  - intros n1 n2 r1 r2. rewrite !lookup_insert. repeat case_decide; subst; try done; [intros [= <-] E2|intros E1 [= <-]|eauto]; cbn.
    + intros [E|E]; [by edestruct Hu|by edestruct Hrot].
    + intros [E|E]; [by edestruct Hu|by edestruct Hrot].
Qed.

Lemma row_later_refl r : later_row r r. Proof. by split_and!. Qed.
Lemma later_consumed t r : later_row r (set_consumed t r). Proof. by split_and!. Qed.
Lemma later_superseded k r : later_row r (set_superseded k r). Proof. by split_and!. Qed.
Lemma later_revoked t w k r : later_row r (revoke_saw t w k r).
Proof.
  unfold revoke_saw. repeat case_match; try apply row_later_refl. split_and!; try done.
  unfold is_live. simpl. by destruct (consumed_at r).
Qed.
#[local] Hint Resolve row_later_refl later_consumed later_superseded later_revoked : core.

(** A write to one row. *)
Lemma inv_alter s j g m :
  Inv s -> (forall r, later_row r (g r)) ->
  (forall n r, m !! n = Some r -> sh_rotations s !! n = Some r /\ (rot_jti r = j -> forall r0, is_live (g r0) = is_live r0)) ->
  Inv (with_rotations m (with_db (set_refresh (alter g j) (sh_db s)) s)).
Proof.
  intros Hinv Hg Hm. pose proof Hinv as []. apply (inv_take_away s); try done; unfold rows in *; cbn.
  - intros n r Hr. destruct (Hm _ _ Hr) as [Hr' Hlive]. split; [done|]. destruct (inv_rotations0 n r Hr') as (claims & f & _ & _ & _ & Hl & _).
    unfold live_jti in *. cbn. rewrite lookup_alter. case_decide as Hd; [|done].
    rewrite Hd. destruct (refresh_jtis (sh_db s) !! rot_jti r); [|done]. cbn. by rewrite Hlive.
  - intros k r'. rewrite lookup_alter. case_decide; [|by eauto]. intros (r & E & ->)%fmap_Some. subst. eauto.
  - intros k r E. rewrite lookup_alter. case_decide; [subst; by rewrite E|congruence].
Qed.

Lemma inv_commit s n r a :
  Inv s -> sh_rotations s !! n = Some r -> accounts (sh_db s) !! row_user (rot_row r) = Some a ->
  Inv (commit_rotation r (with_rotations (delete n (sh_rotations s)) s)).
Proof.
  intros Hinv Hr _. pose proof Hinv as [].
  destruct (inv_rotations0 n r Hr) as (claims & f & Hc & Hj & Hf & Hl & Hj' & Hf' & Hg & Hrec & Hlive & Hnew & Hfresh).
  assert (forall n' r', delete n (sh_rotations s) !! n' = Some r' -> n' <> n /\ sh_rotations s !! n' = Some r') as Hdel.
  { intros n' r'. rewrite lookup_delete. case_decide; [done|]. intros; split; congruence. }
  unfold commit_rotation. set (s1 := with_rotations _ s).
  assert (Inv (with_db (set_refresh (alter (set_consumed (rot_at r)) (rot_jti r)) (sh_db s1)) s1)) as Inv1.
  { apply (inv_alter s (rot_jti r)); [done|done|]. intros n' r' [Hne Hr']%Hdel. split; [done|]. intros E.
    destruct Hne. eapply inv_locks0; eauto. }
  set (s2 := with_db _ s1) in *.
  assert (forall k, rows s2 !! k = if decide (rot_jti r = k) then set_consumed (rot_at r) <$> rows s !! rot_jti r else rows s !! k) as Hrows.
  { intros k. unfold rows. cbn. by rewrite lookup_alter. }
  unfold live_jti in Hl. destruct (refresh_jtis (sh_db s) !! rot_jti r) as [r0|] eqn:E0; [|done].
  assert (row_family r0 = f) as Hfam.
  { destruct (inv_issued0 claims Hc) as (k & g & Hk & Hg' & Hx). unfold rows in Hx. rewrite Hj in Hk. injection Hk as <-.
    rewrite E0 in Hx. destruct Hx as [-> _]. congruence. }
  assert (Inv (record_token (rot_successor r) (rot_new r) (rot_row r) s2)) as Inv2.
  { apply (inv_record s2 _ _ f); try done.
    - split_and!; [| |intros n' r' [Hne Hr']%Hdel E; destruct Hne; by eapply inv_locks0; eauto].
      + rewrite Hrows. case_decide as Hd; [|done]. rewrite Hd in *. unfold rows in *. congruence.
      + exact Hfresh.
    - intros k rk. rewrite Hrows. case_decide as Hd.
      + unfold rows. subst k. rewrite E0. simpl. intros [= <-] _. unfold is_live. by simpl.
      + intros Ek Hfk. destruct (is_live rk) eqn:Lk; [|done]. destruct Hd. eapply inv_live0; eauto. congruence.
    - intros c' Hc' Hf''. destruct Hg as (? & ? & ? & ?).
      destruct (inv_grant0 claims c' Hc Hc') as (? & ? & ? & ?); [congruence|]. split_and!; congruence. }
  by apply (inv_alter _ (rot_jti r) (set_superseded (rot_new r)) (sh_rotations s1) Inv2).
Qed.

(** The rows a revocation rewrites keep their locked neighbours. *)
Lemma inv_swept s n w t : Inv s -> (forall k, k ∈ sweep_saw w -> unlocked s k) ->
  Inv (with_sweeps (delete n (sh_sweeps s)) (with_db (set_refresh (map_imap (fun k r => Some (revoke_saw t w k r))) (sh_db s)) s)).
Proof.
  intros Hinv Hw. pose proof Hinv as [].
  assert (forall k, map_imap (fun k r => Some (revoke_saw t w k r)) (refresh_jtis (sh_db s)) !! k =
    revoke_saw t w k <$> refresh_jtis (sh_db s) !! k) as Hm.
  { intros k. rewrite map_lookup_imap. by destruct (_ !! k). }
  apply (inv_take_away s); try done; unfold rows in *; cbn.
  - intros n' r Hr. split; [done|]. destruct (inv_rotations0 n' r Hr) as (claims & f & _ & _ & _ & Hl & _).
    unfold live_jti in *. cbn. rewrite Hm. destruct (refresh_jtis (sh_db s) !! rot_jti r); [|done]. cbn.
    unfold revoke_saw. rewrite decide_False; [done|]. intros Hk. by eapply Hw.
  - intros k r'. rewrite Hm. intros (r & E & ->)%fmap_Some. eauto.
  - intros k r E. rewrite Hm, E. done.
Qed.

(** Deleting rows no rotation holds. *)
Lemma inv_delete s acc m pend hist (keep : RefreshRow -> Prop) :
  Inv s -> (forall u a, acc !! u = Some a -> user_id (account_user a) = u) ->
  (forall claims, claims ∈ sh_issued s -> accounts (sh_db s) !! subject claims = None -> acc !! subject claims = None) ->
  (forall k r, m !! k = Some r <-> rows s !! k = Some r /\ keep r) ->
  (forall r, keep r \/ ~ keep r) ->
  (forall k r, rows s !! k = Some r -> ~ keep r -> unlocked s k) ->
  (forall r, ~ keep r -> acc !! row_user r = None \/ (row_expires_at r + JANITOR_GRACE < sh_now s + skew)%Z) ->
  Inv (with_db {| accounts := acc; refresh_jtis := m; pending_jtis := pend; password_history := hist |} s).
Proof.
  intros Hinv Hk Hacc Hm Hdec Hlock Hgone. pose proof Hinv as [].
  apply (inv_take_away s); try done; unfold rows in *; cbn.
  - intros n r Hr. split; [done|]. destruct (inv_rotations0 n r Hr) as (claims & f & _ & _ & _ & Hl & _).
    unfold live_jti in *. cbn. destruct (refresh_jtis (sh_db s) !! rot_jti r) as [r0|] eqn:E; [|done].
    destruct (Hdec r0) as [Hkeep|Hkeep]; [|by edestruct Hlock]. by rewrite (proj2 (Hm _ _) (conj E Hkeep)).
  - intros k r [E _]%Hm. eauto.
  - intros k r E E'. apply Hgone. intros Hkeep. by rewrite (proj2 (Hm _ _) (conj E Hkeep)) in E'.
Qed.

Lemma inv_step s s' : step s s' -> Inv s -> Inv s'.
Proof.
  intros Hstep Hinv. pose proof Hinv as Hi. destruct Hi. destruct Hstep as
    [t Ht|claims j f i a Hj Hf Hu Huf Ha Hi|n c m claims j f i a Hc Hk Hj Hf Hn Hx Hl Hlock Ha Hu Hi Hr|n r a Hr Ha|n r Hr
    |c m claims j f i a Hc Hk Hj Hf Hn Hx Hrow Ha Hu Hi|n p Hn|n w t Hw Hlock|c Hn Hlock|acc pend hist Hkeys Hgone Hlock].
  - apply (inv_take_away s); try done; unfold rows; cbn; [|eauto..|congruence].
    intros n r Hr. destruct (inv_rotations0 n r Hr) as (? & ? & ? & ? & ? & ? & _). done.
  - apply (inv_record s _ _ f); try done; [by apply row_of_recorded| |].
    + intros k r E Hfam. exfalso. destruct (inv_rows0 _ _ E) as (c' & Hc' & Hk). destruct (inv_issued0 c' Hc') as (k' & g & Hk' & Hg & Hx).
      rewrite Hk in Hk'. injection Hk' as <-. rewrite E in Hx. destruct Hx as [Hx _]. apply (Huf c' Hc'). congruence.
    + intros c' Hc' E. by edestruct Huf.
  - by eapply inv_begin.
  - by eapply inv_commit.
  - apply (inv_take_away s); try done; unfold rows; cbn; [|eauto..|congruence].
    intros n' r'. rewrite lookup_delete. case_decide; [done|]. intros Hr'. split; [done|].
    destruct (inv_rotations0 n' r' Hr') as (? & ? & ? & ? & ? & ? & _). done.
  - exfalso. destruct (inv_issued0 claims Hc) as (j' & f' & Hj' & _ & Hx'). rewrite Hj in Hj'. injection Hj' as <-.
    rewrite Hrow in Hx'. unfold active_account in Ha. destruct Hx' as [E|E]; [by rewrite E in Ha|].
    unfold timestamp, near, JANITOR_GRACE, NANOS_PER_SEC in *.
    pose proof (Z.div_mod (utc c) 1000000000). pose proof (Z.mod_pos_bound (utc c) 1000000000). lia.
  - apply (inv_take_away s); try done; unfold rows; cbn; [|eauto..|congruence].
    intros n' r' Hr'. destruct (inv_rotations0 n' r' Hr') as (? & ? & ? & ? & ? & ? & _). done.
  - by apply inv_swept.
  - unfold set_refresh. apply (inv_delete s _ _ _ _ (fun r => (utc c - JANITOR_GRACE <= row_expires_at r)%Z)); try done.
    + intros k r. unfold kept_rows. by rewrite map_lookup_filter_Some.
    + intros r. lia.
    + intros k r E Hd. apply (Hlock _ _ E). lia.
    + intros r Hd. right. unfold near in Hn. lia.
  - apply (inv_delete s _ _ _ _ (fun r => is_Some (acc !! row_user r))); try done.
    + intros k r. unfold cascade. by rewrite map_lookup_filter_Some.
    + intros r. destruct (acc !! row_user r); [left; eauto|right; by intros [? ?]].
    + intros k r E Hd. apply (Hlock _ _ E). by apply eq_None_not_Some.
    + intros r Hd. left. by apply eq_None_not_Some.
Qed.

Lemma reachable_inv s : reachable s -> Inv s.
Proof.
  intros (s0 & Hs0 & Hrun). apply (rtc_preserve step Inv inv_step _ _ Hrun). by apply initial_inv.
Qed.

(** * What every run keeps *)

(** C10. A session has one usable refresh token.  Whatever refreshes, logins,
    revocations, janitor runs, account changes and deletions interleave, on
    however many replicas, and wherever a rotation is between winning its row
    and committing, no family ever has two rows that are neither consumed nor
    revoked: of the tokens of one login, at most one can be rotated. *)
Theorem family_has_one_live_token s j1 j2 r1 r2 :
  reachable s -> rows s !! j1 = Some r1 -> rows s !! j2 = Some r2 -> is_live r1 = true -> is_live r2 = true ->
  row_family r1 = row_family r2 -> j1 = j2.
Proof. intros Hs. apply (inv_live _ (reachable_inv s Hs)). Qed.

(** A session keeps its grant.  Any two refresh tokens handed out in one
    family, however many rotations apart, are for the same subject, with the
    same repository allow-list, the same action scopes and the same kind: a
    refresh never widens what the first token of the session could do, and
    never turns a web session into a registry credential. *)
Theorem session_keeps_grant s c1 c2 :
  reachable s -> c1 ∈ sh_issued s -> c2 ∈ sh_issued s -> family_id c1 = family_id c2 -> same_grant c1 c2.
Proof. intros Hs. apply (inv_grant _ (reachable_inv s Hs)). Qed.

(** The path that rotates a token without a row is closed to the tokens
    this system hands out.  While a refresh token has not expired on the clock
    of the replica it is presented to and its account exists, its row is
    there, for its family and its subject: the janitor only removes rows a
    day past their expiry, so a token cannot be replayed by outliving its
    row, whatever the order of the janitors' and the replicas' clocks. *)
Theorem issued_token_is_recorded s claims t :
  reachable s -> claims ∈ sh_issued s -> near t (sh_now s) -> (timestamp t <= exp claims)%Z ->
  accounts (sh_db s) !! subject claims <> None ->
  exists j f r, jti claims = Some j /\ family_id claims = Some f /\ rows s !! j = Some r /\
    row_family r = f /\ row_user r = subject claims.
Proof.
  intros Hs Hc Hn Ht Ha. destruct (inv_issued _ (reachable_inv s Hs) claims Hc) as (j & f & Hj & Hf & Hrow). exists j, f.
  destruct (rows s !! j) as [r|]; [exists r; destruct Hrow as (? & ? & _); by split_and!|]. exfalso.
  destruct Hrow as [|E]; [done|]. unfold timestamp, near, JANITOR_GRACE, NANOS_PER_SEC in *.
  pose proof (Z.div_mod t 1000000000). pose proof (Z.mod_pos_bound t 1000000000). lia.
Qed.

(** * The calls as steps *)

Lemma verdict_row c db j : verdict c db j <> Unrecorded -> exists r, refresh_jtis db !! j = Some r.
Proof. unfold verdict. destruct (refresh_jtis db !! j); eauto. done. Qed.

Definition sweep_of (p : RefreshRow -> bool) (m : gmap Uuid RefreshRow) : Sweep :=
  {| sweep_selects := p; sweep_saw := dom (matching p m) |}.

Lemma revoke_saw_all t p m k r : m !! k = Some r ->
  revoke_saw t (sweep_of p m) k r = if p r then match revoked_at r with None => set_revoked t r | Some _ => r end else r.
Proof.
  intros E. unfold revoke_saw, sweep_of. cbn. destruct (decide _) as [|Hn]; [done|]. destruct (p r) eqn:Ep; [|done].
  destruct (revoked_at r) eqn:Er; [done|]. destruct Hn. apply elem_of_dom. exists r. by apply map_lookup_filter_Some_2.
Qed.

(** Alone, the two halves are the statement. *)
Lemma swept_is_revoke c p m : map_imap (fun k r => Some (revoke_saw (db_now c) (sweep_of p m) k r)) m = revoke_where c p m.
Proof.
  apply map_eq. intros k. unfold revoke_where. rewrite map_lookup_imap, lookup_fmap. destruct (m !! k) eqn:E; [|done]. cbn.
  by erewrite revoke_saw_all.
Qed.

(** No call is between its statements. *)
Definition quiet (s : Shared) : Prop := sh_rotations s = ∅ /\ sh_sweeps s = ∅.

Lemma quiet_unlocked s j : sh_rotations s = ∅ -> unlocked s j.
Proof. intros E n r. by rewrite E, lookup_empty. Qed.

Lemma revocation_steps c p s : quiet s -> exists s', rtc step s s' /\ quiet s' /\
  sh_db s' = set_refresh (revoke_where c p) (sh_db s) /\ sh_issued s' = sh_issued s.
Proof.
  intros Hq. pose proof Hq as [Er Es]. eexists. split; [eapply rtc_l; [apply (step_sweep s 0 p); by rewrite Es|apply rtc_once]|].
  - apply (step_swept _ 0 (sweep_of p (rows s)) (db_now c)); [cbn; by rewrite lookup_insert_eq|].
    intros k _. by apply quiet_unlocked.
  - split; [split; cbn; [done|by rewrite Es, insert_empty, delete_singleton]|]. split; [|done].
    unfold set_refresh. cbn. by rewrite swept_is_revoke.
Qed.

(** C13. The refresh as it is written implements the steps.  Run alone, a
    refresh of a token this system handed out - whatever it answers: a
    rotation, a replay that revokes the family, a revoked token, a lost race,
    a deactivated account - takes the tables where steps of the interleaved
    system take them, and hands out a token exactly when they do, with the
    claims they record. *)
Theorem refresh_implements_steps s c t w claims w1 :
  reachable s -> quiet s -> sh_db s = tables w -> claims ∈ sh_issued s ->
  jwt_decode (timestamp (utc c)) t = Ok claims -> token_type claims = "refresh" -> near (utc c) (sh_now s) ->
  unused s (new_jti c) -> SessionFacts.Healthy c w1 ->
  reject_if_invalidated_replica_safe c claims w = (Ok tt, w1) ->
  exists s', rtc step s s' /\ quiet s' /\ sh_db s' = tables (snd (refresh_tokens c t w)) /\
    match fst (refresh_tokens c t w) with
    | Ok (a, tokens) => exists new, jwt_encode new = Ok (refresh_token tokens) /\ sh_issued s' = new :: sh_issued s
    | Err _ => sh_issued s' = sh_issued s
    end.
Proof.
  intros Hs Hq Hdb Hc Ht Hk Hn Hu Hh Hr. pose proof Hq as [Erot _].
  destruct (inv_issued _ (reachable_inv s Hs) claims Hc) as (j & f & Hj & Hf & _).
  destruct (run_refresh c t w claims j f w1) as [Hw (row & Htab & Hout)]; [done..|].
  pose proof (jwt_decode_fresh _ _ _ Ht) as Hx. destruct (refresh_tokens c t w) as [out w']. cbn in *.
  rewrite Hw, <- Hdb in Htab, Hout. destruct (verdict c (sh_db s) j) eqn:Hv; cbn in Hout.
  - destruct (active_account (sh_db s) (subject claims)) as [a|] eqn:Ha; subst; [|exists s; split_and!; done].
    destruct Hout as (tokens & i & -> & [Henc _] & Hi & ->). apply live_verdict in Hv as Hl.
    destruct (active_id _ _ _ (inv_keys _ (reachable_inv s Hs)) Ha) as [Hid Hacc].
    eexists. split; [eapply rtc_l; [eapply (step_rotate s 0 c (invalidations w1) claims j f i a); try done;
      [by apply quiet_unlocked|by rewrite Erot]|apply rtc_once; eapply step_commit; [by cbn; rewrite lookup_insert_eq|cbn; by rewrite Hid]]|].
    split; [split; cbn; [by rewrite Erot, insert_empty, delete_singleton|by destruct Hq]|]. split; [by rewrite Htab|]. eauto.
  - destruct (active_account (sh_db s) (subject claims)) as [a|] eqn:Ha; subst; [|exists s; split_and!; done].
    destruct Hout as (tokens & i & -> & [Henc _] & Hi & ->). unfold verdict in Hv.
    destruct (refresh_jtis (sh_db s) !! j) as [r|] eqn:Ej; [by repeat case_match|].
    eexists. split; [apply rtc_once; by eapply (step_unrecorded s c (invalidations w1) claims j f i a)|].
    split; [done|]. split; [by rewrite Htab|]. eauto.
  - exists s. by subst.
  - subst. destruct (verdict_row c (sh_db s) j) as (r & Er); [by rewrite Hv|].
    destruct (revocation_steps c (in_family (row_family r)) s Hq) as (s' & Hrun & Hq' & Hdb' & Hi'). exists s'. split_and!; try done.
    rewrite Htab, Hdb'. unfold tables_after, set_refresh, rows_after. by rewrite Er.
  - exists s. by subst.
Qed.

(** * A revocation beside a rotation *)

Lemma committed_rows r s k : rot_jti r <> rot_new r -> rows s !! rot_new r = None ->
  rows (commit_rotation r s) !! k =
    if decide (rot_new r = k) then Some (rot_row r)
    else if decide (rot_jti r = k) then (fun x => set_superseded (rot_new r) (set_consumed (rot_at r) x)) <$> rows s !! k
    else rows s !! k.
Proof.
  intros Hne Hnew. unfold rows, commit_rotation in *. cbn. rewrite lookup_alter, !insert_new_lookup, !lookup_alter.
  repeat case_decide; subst; try done; cbn; rewrite ?lookup_alter_ne, ?Hnew by done; try done.
  by destruct (refresh_jtis (sh_db s) !! rot_jti r).
Qed.

(** A revocation does not see a rotation in flight.  When a session, or
    all of a user's sessions, are revoked - a logout, a password change, a
    deactivation, a detected replay - while a refresh has won its row and not
    yet committed, there is a run in which the revocation completes and every
    row it could see is revoked, and yet the token the refresh then hands out
    is recorded, selected by the revocation and neither consumed nor revoked:
    it refreshes the session that was ended. *)
Theorem revocation_misses_rotation s n r m p a :
  reachable s -> sh_rotations s = {[n := r]} -> sh_sweeps s !! m = None ->
  accounts (sh_db s) !! row_user (rot_row r) = Some a ->
  (forall x y, row_user x = row_user y -> row_family x = row_family y -> p x = p y) ->
  exists s', rtc step s s' /\ sh_rotations s' = ∅ /\ sh_sweeps s' = sh_sweeps s /\
    (forall k x, rows s !! k = Some x -> p x = true -> exists x', rows s' !! k = Some x' /\ revoked_at x' <> None) /\
    rot_successor r ∈ sh_issued s' /\ rows s' !! rot_new r = Some (rot_row r) /\ is_live (rot_row r) = true /\
    forall parent, rows s !! rot_jti r = Some parent -> p (rot_row r) = p parent.
Proof.
  intros Hs Hrot Hm Ha Hp. pose proof (reachable_inv s Hs) as [].
  destruct (inv_rotations0 n r) as (claims & f & Hc & Hj & Hf & Hl & _ & _ & Hg & Hrec & Hlive & Hnew & Hfresh);
    [by rewrite Hrot, lookup_singleton_eq|].
  assert (rot_jti r <> rot_new r) as Hne by (intros E; apply (Hfresh _ Hc); congruence).
  set (s1 := with_sweeps (<[m := sweep_of p (rows s)]> (sh_sweeps s)) s).
  set (s2 := commit_rotation r (with_rotations (delete n (sh_rotations s1)) s1)).
  set (s3 := with_sweeps (delete m (sh_sweeps s2))
               (with_db (set_refresh (map_imap (fun k x => Some (revoke_saw (sh_now s) (sweep_of p (rows s)) k x))) (sh_db s2)) s2)).
  assert (sh_rotations s2 = ∅) as Hempty by (unfold s2, s1; cbn; rewrite Hrot; apply delete_singleton_eq).
  assert (forall k, rows s3 !! k = revoke_saw (sh_now s) (sweep_of p (rows s)) k <$> rows s2 !! k) as Hrows.
  { intros k. unfold rows at 1. cbn. rewrite map_lookup_imap. by destruct (_ !! k). }
  exists s3. split_and!; try done.
  - eapply rtc_l; [by apply (step_sweep s m p)|]. fold (sweep_of p (rows s)). fold s1.
    eapply rtc_l; [apply (step_commit s1 n r a); [cbn; by rewrite Hrot, lookup_singleton_eq|done]|]. fold s2.
    apply rtc_once. apply (step_swept s2 m (sweep_of p (rows s)) (sh_now s)); [cbn; by rewrite lookup_insert_eq|].
    intros k _. by apply quiet_unlocked.
  - cbn. by rewrite delete_insert_id.
  - intros k x Ek Hpx. rewrite Hrows. unfold s2. rewrite committed_rows by done.
    rewrite decide_False by (intros <-; unfold rows in *; congruence).
    assert (forall y, row_user y = row_user x -> row_family y = row_family x -> revoked_at y = revoked_at x ->
      revoked_at (revoke_saw (sh_now s) (sweep_of p (rows s)) k y) <> None) as Hkill.
    { intros y Hu Hfam Hrev. unfold revoke_saw, sweep_of. cbn. rewrite (Hp y x Hu Hfam), Hpx.
      destruct (revoked_at y) eqn:Ey; [by case_decide; rewrite Ey|]. rewrite decide_True; [done|].
      apply elem_of_dom. exists x. apply map_lookup_filter_Some_2; [done|]. by split. }
    case_decide.
    + exists (revoke_saw (sh_now s) (sweep_of p (rows s)) k (set_superseded (rot_new r) (set_consumed (rot_at r) x))).
      split; [|by apply Hkill]. change (rows (with_rotations _ s1)) with (rows s). by rewrite Ek.
    + exists (revoke_saw (sh_now s) (sweep_of p (rows s)) k x). split; [|by apply Hkill].
      change (rows (with_rotations _ s1)) with (rows s). by rewrite Ek.
  - cbn. by left.
  - rewrite Hrows. unfold s2. rewrite committed_rows, decide_True by done. cbn. unfold revoke_saw. rewrite decide_False; [done|].
    cbn. rewrite not_elem_of_dom. apply map_lookup_filter_None_2. by left.
  - intros parent E. destruct (inv_issued0 claims Hc) as (k & g & Hk & Hg' & Hx). rewrite Hj in Hk. injection Hk as <-.
    rewrite E in Hx. destruct Hx as (F & U & _), Hrec as (F' & U' & _), Hg as (G & _). apply Hp; congruence.
Qed.

End Runs.

(** * Witnesses *)

(** Alice logs in at noon; a minute later a refresh wins the row of her token. *)
Definition before_login : Shared :=
  {| sh_db := one_account; sh_issued := []; sh_rotations := ∅; sh_sweeps := ∅; sh_now := noon |}.
Definition logged_in : Shared := record_token first_token 10%N first_row before_login.
Definition second_token : JwtClaims := next_claims sample_call ∅ alice 7%N first_token.
Definition second_row : RefreshRow :=
  row_of second_token 7%N ((noon + 60 * NANOS_PER_SEC)%Z, (noon + 60 * NANOS_PER_SEC + days 7)%Z).
Definition a_minute_later : Shared := with_now (noon + 60 * NANOS_PER_SEC)%Z logged_in.
Definition rotation : Rotation :=
  {| rot_jti := 10%N; rot_at := db_now sample_call; rot_new := 11%N; rot_successor := second_token; rot_row := second_row |}.
Definition rotating : Shared := with_rotations (<[0 := rotation]> ∅) a_minute_later.
Definition rotated_once : Shared := commit_rotation rotation (with_rotations (delete 0 (sh_rotations rotating)) rotating).

Definition no_skew : Z := NANOS_PER_SEC.

Lemma one_keys u a : accounts one_account !! u = Some a -> user_id (account_user a) = u.
Proof. cbn [accounts one_account]. by intros [<- <-]%lookup_singleton_Some. Qed.

Lemma logged_in_reachable : reachable no_skew logged_in.
Proof.
  exists before_login. split; [split_and!; try done; exact one_keys|].
  apply rtc_once. apply (step_issue no_skew before_login first_token 10%N 7%N (noon, (noon + days 7)%Z) alice); try done.
  - split_and!; [done|by intros claims ?%elem_of_nil|done].
  - by intros claims ?%elem_of_nil.
Qed.

Lemma minute_reachable : reachable no_skew a_minute_later.
Proof.
  destruct logged_in_reachable as (s0 & Hi & Hrun). exists s0. split; [done|]. eapply rtc_r; [exact Hrun|].
  apply step_tick. vm_compute. congruence.
Qed.

Lemma rotating_reachable : reachable no_skew rotating.
Proof.
  destruct minute_reachable as (s0 & Hi & Hrun). exists s0. split; [done|]. eapply rtc_r; [exact Hrun|].
  apply (step_rotate no_skew a_minute_later 0 sample_call ∅ first_token 10%N 7%N _ alice); try done.
  - by left.
  - split_and!; [done| |done]. intros claims [->|?%elem_of_nil]%elem_of_cons; done.
Qed.

Lemma rotated_once_reachable : reachable no_skew rotated_once.
Proof.
  destruct rotating_reachable as (s0 & Hi & Hrun). exists s0. split; [done|]. eapply rtc_r; [exact Hrun|].
  by apply (step_commit no_skew rotating 0 rotation alice).
Qed.

Lemma family_has_one_live_token_witness :
  rows rotated_once !! 11%N = Some second_row /\ is_live second_row = true /\
  forall j r, rows rotated_once !! j = Some r -> row_family r = 7%N -> is_live r = true -> j = 11%N.
Proof.
  split; [by vm_compute|]. split; [by vm_compute|]. intros j r Hr Hf Hl.
  by apply (family_has_one_live_token no_skew ltac:(vm_compute; congruence) rotated_once j 11%N r second_row
    rotated_once_reachable); [done|vm_compute|done|vm_compute|rewrite Hf].
Defined.

Lemma session_keeps_grant_witness : same_grant first_token second_token.
Proof.
  apply (session_keeps_grant no_skew ltac:(vm_compute; congruence) rotated_once first_token second_token rotated_once_reachable);
    [by right; left|by left|reflexivity].
Defined.

Lemma issued_token_is_recorded_witness : exists j f r, jti second_token = Some j /\ family_id second_token = Some f /\
  rows rotated_once !! j = Some r /\ row_family r = f /\ row_user r = subject second_token.
Proof.
  apply (issued_token_is_recorded no_skew ltac:(vm_compute; congruence) rotated_once second_token (utc sample_call) rotated_once_reachable);
    [by left|split; vm_compute; congruence|vm_compute; congruence|by vm_compute].
Defined.

Lemma refresh_implements_steps_witness : exists s', rtc (step no_skew) a_minute_later s' /\ quiet s' /\
  sh_db s' = tables (snd (refresh_tokens sample_call presented session_world)).
Proof.
  destruct (refresh_implements_steps no_skew ltac:(vm_compute; congruence) a_minute_later sample_call presented session_world
    first_token session_world minute_reachable) as (s' & ? & ? & ? & _); [done|reflexivity|by left|vm_compute; reflexivity|reflexivity|
    split; vm_compute; congruence| |by apply sample_healthy|vm_compute; reflexivity|by exists s'].
  split_and!; [done| |done]. intros claims [->|?%elem_of_nil]%elem_of_cons; done.
Defined.

Lemma revocation_misses_rotation_witness : exists s', rtc (step no_skew) rotating s' /\ sh_rotations s' = ∅ /\
  rows s' !! 11%N = Some second_row /\ is_live second_row = true.
Proof.
  destruct (revocation_misses_rotation no_skew ltac:(vm_compute; congruence) rotating 0 rotation 0 (of_user 1%N) alice rotating_reachable)
    as (s' & ? & ? & _ & _ & _ & ? & ? & _); [reflexivity..| |by exists s'].
  intros x y Hu _. unfold of_user. by rewrite Hu.
Defined.
