(* ===== verification/Login.v ===== *)
(** Signing in and out: the local password login with its lockout
    ([services/auth_service.rs]), the system-wide second-factor policy
    ([services/totp_policy.rs]), and the handlers of [api/handlers/auth.rs]
    that start, continue and end a session. *)

From stdpp Require Import base list strings gmap.
From Stdlib Require Import ZArith Lia Ascii.
From S2P Require Import Prelude RustStr RustNum Chrono Repository AccessDb Auth Tokens Errors SessionDb Sessions.

Local Open Scope string_scope.
Local Open Scope session_scope.

(** * Lockout and expiry *)

Definition LOCAL_AUTH_FAILURE_MESSAGE : string := "Invalid username or password".

Definition is_account_locked (locked : option DateTime) (now : DateTime) : bool :=
  match locked with Some t => (now <? t)%Z | None => false end.

Definition is_password_expired (changed_at : DateTime) (expiry_days : Z) (now : DateTime) : bool :=
  if (expiry_days =? 0)%Z then false else (changed_at + days expiry_days <=? now)%Z.

(** [threshold] is a [u32] compared as an [i32]. *)
Definition should_lock (attempts_after_failure threshold duration_minutes : Z) (now : DateTime) : option DateTime :=
  if (threshold =? 0)%Z then None
  else if (as_i32 threshold <=? attempts_after_failure)%Z then Some (now + minutes duration_minutes)%Z else None.

Definition failed_attempt_is_locked (newly_locked already_locked : bool) : bool := newly_locked || already_locked.

Inductive TimingPad := PadOn | PadOff.
Inductive AuthEntry := SharedEntry | LoginEntry (pad : TimingPad).

Definition entry_pad (e : AuthEntry) : TimingPad := match e with SharedEntry => PadOff | LoginEntry pad => pad end.
Definition logs_rejections (e : AuthEntry) : bool := match e with LoginEntry _ => true | SharedEntry => false end.

Inductive LoginRejection := UnknownOrInactive | Federated (p : AuthProvider) | NoPasswordHash | InvalidPassword | Locked.

Definition audit_reason (r : LoginRejection) : string :=
  match r with
  | UnknownOrInactive => "unknown_or_inactive_user"
  | Federated _ => "federated_account"
  | NoPasswordHash => "no_password_hash"
  | InvalidPassword => "invalid_password"
  | Locked => "account_locked"
  end.

Record LoginFailure := { failure_error : AppError; failure_reason : option string }.

Definition reject_login (r : LoginRejection) : LoginFailure :=
  {| failure_error := Authentication LOCAL_AUTH_FAILURE_MESSAGE; failure_reason := Some (audit_reason r) |}.
Definition failure_of (e : AppError) : LoginFailure := {| failure_error := e; failure_reason := None |}.

(** [WHERE username = $1 AND is_active = true]; usernames are unique. *)
Definition find_login (db : SessionTables) (username : string) : option Account :=
  List.find (fun a => String.eqb (user_username (account_user a)) username && user_is_active (account_user a))
    (snd <$> map_to_list (accounts db)).

Definition login_rejection (user : option Account) : option LoginRejection :=
  match user with
  | None => Some UnknownOrInactive
  | Some a =>
      match user_auth_provider (account_user a) with
      | LocalProvider => match password_hash a with None => Some NoPasswordHash | Some _ => None end
      | p => Some (Federated p)
      end
  end.

Definition five_minutes_ago (now : DateTime) (last : option DateTime) : bool :=
  match last with None => true | Some t => (t <? now - minutes 5)%Z end.

Definition is_some {A} (o : option A) : bool := match o with Some _ => true | None => false end.

(** The row a successful login writes: the counters are reset, and
    [last_login_at] advances at most every five minutes. *)
Definition reset_counters (now : DateTime) (a : Account) : Account :=
  if five_minutes_ago now (last_login_at a) || (0 <? failed_login_attempts a)%Z || is_some (locked_until a) ||
     is_some (last_failed_login_at a)
  then set_login_counters 0 None None (set_last_login (if five_minutes_ago now (last_login_at a) then Some now else last_login_at a) a)
  else a.

Section Login.
Context `{Chrono} `{JwtCrate} `{Bcrypt}.

Definition AT_CAPACITY : AppError := ServiceUnavailable "Authentication service is at capacity, retry shortly".

Definition verify_password (c : Call) (password hash : string) : result AppError bool :=
  if negb (permit c) then Err AT_CAPACITY
  else match blocking c with
       | Some e => Err (Internal ("Blocking task failed: " +:+ e))
       | None => match bcrypt_verify password hash with
                 | Ok b => Ok b
                 | Err e => Err (Internal ("Password verification failed: " +:+ e))
                 end
       end.

(** [salted] is the crate's [hash], with the salt it draws. *)
Definition hash_password (c : Call) (salted : string -> result string string) (password : string) : result AppError string :=
  if negb (permit c) then Err AT_CAPACITY
  else match blocking c with
       | Some e => Err (Internal ("Blocking task failed: " +:+ e))
       | None => match salted password with
                 | Ok h => Ok h
                 | Err e => Err (Internal ("Password hashing failed: " +:+ e))
                 end
       end.

(** A login that reached the comparison: the wrong password is counted, the
    right one resets the counters, marks an expired password and mints. *)
Definition wrong_password (c : Call) (a : Account) : M LoginRejection :=
  let now := utc c in
  let new_count := as_i32 (failed_login_attempts a + 1) in
  let lock_until := should_lock new_count (account_lockout_threshold (config c))
                      (account_lockout_duration_minutes (config c)) now in
  let! _ := execute c UpdateFailure
              (set_accounts (alter (set_login_counters new_count lock_until (Some now)) (user_id (account_user a)))) in
  ret (if failed_attempt_is_locked (is_some lock_until) (is_account_locked (locked_until a) now) then Locked else InvalidPassword).

Definition right_password (c : Call) (a : Account) : M (Account * TokenPair) :=
  let u := user_id (account_user a) in
  let! _ := execute c UpdateSuccess (set_accounts (alter (reset_counters (db_now c)) u)) in
  let expired := negb (must_change_password a) && is_password_expired (password_changed_at a) (password_expiry_days (config c)) (utc c) in
  let! _ := if expired then execute c UpdateExpired (set_accounts (alter (set_must_change true) u)) else ret tt in
  let a := if expired then set_must_change true a else a in
  let! tokens := generate_tokens c a in
  let! _ := persist_refresh_jti_from_pair c tokens u in
  ret (a, tokens).

Definition login_attempt (c : Call) (username password : string) (entry : AuthEntry)
  : M (Account * TokenPair + LoginRejection) :=
  let! user := select c SelectLogin (fun db => find_login db username) in
  let rejection := login_rejection user in
  match rejection, entry_pad entry with
  | Some reason, PadOff => ret (inr reason)
  | _, _ =>
      let hash_to_verify := match rejection, user ≫= password_hash with
                            | None, Some hash => hash
                            | _, _ => dummy_bcrypt_hash
                            end in
      let! password_matches := lift (verify_password c password hash_to_verify) in
      match rejection, user with
      | Some reason, _ => ret (inr reason)
      | None, None => ret (inr UnknownOrInactive)
      | None, Some a =>
          if password_matches : bool
          then let! r := right_password c a in ret (inl r)
          else let! reason := wrong_password c a in ret (inr reason)
      end
  end.

Definition authenticate_inner (c : Call) (username password : string) (entry : AuthEntry) (w : World)
  : result LoginFailure (Account * TokenPair) * World :=
  match login_attempt c username password entry w with
  | (Ok (inl r), w) => (Ok r, w)
  | (Ok (inr reason), w) => (Err (reject_login reason), w)
  | (Err e, w) => (Err (failure_of e), w)
  end.

Definition authenticate (c : Call) (username password : string) : M (Account * TokenPair) := fun w =>
  match authenticate_inner c username password SharedEntry w with
  | (Ok r, w) => (Ok r, w)
  | (Err f, w) => (Err (failure_error f), w)
  end.

Definition authenticate_for_login (c : Call) (username password : string) (pad : TimingPad) (w : World)
  : result LoginFailure (Account * TokenPair) * World := authenticate_inner c username password (LoginEntry pad) w.

End Login.

(** * The second-factor policy ([services/totp_policy.rs]) *)

Inductive TotpPolicy := Disabled | RequiredForAdmins | RequiredForAll.
Inductive TotpLoginRequirement := NotRequired | ChallengeExisting | EnrollmentRequired.
Inductive PolicyActivationRefusal := PinnedByEnvironment | ActorNotEnrolled.

Definition policy_as_str (p : TotpPolicy) : string :=
  match p with Disabled => "disabled" | RequiredForAdmins => "required_for_admins" | RequiredForAll => "required_for_all" end.

Definition parse_policy (raw : string) : option TotpPolicy :=
  let s := to_ascii_lowercase (trim raw) in
  if one_of s ["disabled"; "off"; "none"] then Some Disabled
  else if one_of s ["required_for_admins"; "admins"] then Some RequiredForAdmins
  else if one_of s ["required_for_all"; "all"] then Some RequiredForAll
  else None.

Record TotpSubject := {
  subject_provider : AuthProvider;
  subject_is_admin : bool;
  subject_is_service_account : bool;
  subject_totp_enabled : bool
}.

Definition subject_of (a : Account) : TotpSubject :=
  {| subject_provider := user_auth_provider (account_user a); subject_is_admin := user_is_admin (account_user a);
     subject_is_service_account := user_is_service_account (account_user a); subject_totp_enabled := totp_enabled a |}.

Definition totp_login_requirement (policy : TotpPolicy) (s : TotpSubject) : TotpLoginRequirement :=
  if subject_totp_enabled s then ChallengeExisting
  else if subject_is_service_account s then NotRequired
  else if negb (bool_decide (subject_provider s = LocalProvider)) then NotRequired
  else match policy with
       | Disabled => NotRequired
       | RequiredForAdmins => if negb (subject_is_admin s) then NotRequired else EnrollmentRequired
       | RequiredForAll => EnrollmentRequired
       end.

Definition policy_requires_totp (policy : TotpPolicy) (s : TotpSubject) : bool :=
  match totp_login_requirement policy
          {| subject_provider := subject_provider s; subject_is_admin := subject_is_admin s;
             subject_is_service_account := subject_is_service_account s; subject_totp_enabled := false |} with
  | EnrollmentRequired => true
  | _ => false
  end.

Definition strictness (p : TotpPolicy) : Z := match p with Disabled => 0 | RequiredForAdmins => 1 | RequiredForAll => 2 end.
Definition is_tightening (current requested : TotpPolicy) : bool := (strictness current <? strictness requested)%Z.

Definition check_policy_activation (current requested : TotpPolicy) (pinned_by_env actor_totp_enabled : bool)
  : result PolicyActivationRefusal unit :=
  if pinned_by_env then Err PinnedByEnvironment
  else if negb (is_tightening current requested) then Ok tt
  else if actor_totp_enabled then Ok tt else Err ActorNotEnrolled.

Definition TOTP_POLICY_SETTING_KEY : string := "security.totp_policy".

(** [stored_policy] of the row of [system_settings], a failed read being no
    row; [effective_policy] prefers the environment's pin. *)
Definition stored_totp_policy (fault : option string) (settings : list (string * Json)) : TotpPolicy :=
  let value := match fault with
               | Some _ => None
               | None => snd <$> List.find (fun kv => String.eqb (fst kv) TOTP_POLICY_SETTING_KEY) settings
               end in
  match value ≫= json_as_str with
  | None => Disabled
  | Some raw => default Disabled (parse_policy raw)
  end.

Definition effective_totp_policy (fault : option string) (settings : list (string * Json)) (env_override : option TotpPolicy)
  : TotpPolicy := default (stored_totp_policy fault settings) env_override.
