(* ===== verification/SessionHandlers.v ===== *)
(** The handlers that start, continue, guard and end a session: [login],
    [logout] and [refresh_token] of [api/handlers/auth.rs], and the second
    factor of [api/handlers/totp.rs].

    A request's cookies and headers come in as the tokens they carry
    ([RequestPath] models their extraction).  The audit trail, metrics and
    cookies set on the response are left out; the random backup codes and the
    TOTP crate are arguments. *)

From stdpp Require Import base list strings gmap pretty.
From Stdlib Require Import ZArith Lia Ascii.
From S2P Require Import Prelude RustStr RustNum Chrono Repository AccessDb Auth Tokens Errors SessionDb Sessions Login.

Local Open Scope string_scope.
Local Open Scope session_scope.

(** The totp-rs crate, and [str::to_uppercase]. *)
Class TotpCrate := {
  SecretBytes : Type;
  Totp : Type;
  secret_bytes : string -> result string SecretBytes;
  totp_new : SecretBytes -> string -> result string Totp;
  check_current : Totp -> DateTime -> string -> result string bool;
  get_url : Totp -> string;
  to_uppercase : string -> string
}.

(** * The gate of the local login *)

Inductive LocalLoginGate := Allow | RejectSso.

Definition local_login_gate (sso_enabled user_is_admin allow_local_admin_login disable_admin_break_glass : bool)
  : LocalLoginGate :=
  match sso_enabled, user_is_admin, disable_admin_break_glass with
  | false, _, _ => Allow
  | true, true, true => RejectSso
  | true, true, false => Allow
  | true, false, _ => RejectSso
  end.

Definition SSO_ONLY : AppError := Authentication
  "Local login is disabled when SSO is configured. Use your organization's SSO provider to sign in.".

Record LoginSettings := {
  (** [list_enabled_providers], and whether it lists any *)
  sso_providers : result AppError bool;
  allow_local_admin_login : bool;
  sso_disable_admin_break_glass : bool;
  settings_fault : option string;
  system_settings_rows : list (string * Json);
  totp_policy_pin : option TotpPolicy
}.

Definition login_policy (st : LoginSettings) : TotpPolicy :=
  effective_totp_policy (settings_fault st) (system_settings_rows st) (totp_policy_pin st).

Definition remove_dashes (s : string) : string :=
  String.string_of_list_ascii (List.filter (fun ch => negb (Ascii.eqb ch "-"%char)) (String.list_ascii_of_string s)).

(** [fetch_one] of no row. *)
Definition ROW_NOT_FOUND : AppError :=
  Database "no rows returned by a query that expected to return at least one row".

Section Handlers.
Context `{Chrono} `{JwtCrate} `{Bcrypt} `{TotpCrate}.

(** What [login] answers with: a session, or a ticket for the second factor. *)
Inductive LoginAnswer :=
| Session (tokens : TokenPair) (must_change : bool)
| ChallengeTicket (ticket : Token) (must_change : bool)
| EnrollTicket (ticket : Token) (must_change : bool).

Definition enforce_local_login_sso_policy (st : LoginSettings) (user_is_admin : bool) : result AppError bool :=
  match sso_providers st with
  | Err e => Err e
  | Ok sso_enabled =>
      match local_login_gate sso_enabled user_is_admin (allow_local_admin_login st) (sso_disable_admin_break_glass st) with
      | Allow => Ok sso_enabled
      | RejectSso => Err SSO_ONLY
      end
  end.

(** [within_budget] is the middleware's extension, absent when it is not
    mounted. *)
Definition login (c : Call) (st : LoginSettings) (within_budget : option bool) (username password : string)
  : M LoginAnswer :=
  let pad := match within_budget with Some false => PadOff | _ => PadOn end in
  let! r := (fun w => match authenticate_for_login c username password pad w with
                      | (Ok r, w) => (Ok r, w)
                      | (Err f, w) => (Err (failure_error f), w)
                      end) in
  let (a, tokens) := (r : Account * TokenPair) in
  let! _ := lift (enforce_local_login_sso_policy st (user_is_admin (account_user a))) in
  match totp_login_requirement (login_policy st) (subject_of a) with
  | ChallengeExisting =>
      let! ticket := lift (generate_totp_pending_token c a) in ret (ChallengeTicket ticket (must_change_password a))
  | EnrollmentRequired =>
      let! ticket := lift (generate_totp_enrollment_token c a) in ret (EnrollTicket ticket (must_change_password a))
  | NotRequired => ret (Session tokens (must_change_password a))
  end.

(** [login] or_else the cookie. *)
Definition refresh_token_handler (c : Call) (body cookie : option Token) : M LoginAnswer :=
  let presented := match body with Some t => Some t | None => cookie end in
  match presented with
  | None => fail (Authentication "Missing refresh token")
  | Some t => let! r := refresh_tokens c t in ret (Session (snd r) (must_change_password (fst r)))
  end.

(** The family of the session whose access token authenticated the request. *)
Definition presenting_session_family (c : Call) (bearer cookie : option Token) (ext : AuthExtension) (w : World)
  : option Uuid :=
  let presented := match bearer with Some t => Some t | None => cookie end in
  match presented with
  | None => None
  | Some t =>
      match fst (validate_access_token c t w) with
      | Ok claims => if decide (subject claims = ext_user_id ext) then family_id claims else None
      | Err _ => None
      end
  end.

Definition logout (c : Call) (auth : option AuthExtension) (body refresh_cookie bearer access_cookie : option Token) : M unit :=
  match auth with
  | None => ret tt
  | Some ext =>
      let refresh := match body with Some t => Some t | None => refresh_cookie end in
      let! _ := match refresh with
                | Some t => best_effort (revoke_refresh_token_family_for c t)
                | None => ret tt
                end in
      fun w => match presenting_session_family c bearer access_cookie ext w with
               | Some family => best_effort (revoke_refresh_token_family c family) w
               | None => (Ok tt, w)
               end
  end.

(** * The second factor *)

Definition build_totp (b : SecretBytes) (username : string) : result AppError Totp :=
  match totp_new b username with Ok t => Ok t | Err e => Err (Internal ("TOTP error: " +:+ e)) end.
Definition decode_secret (s : string) : result AppError SecretBytes :=
  match secret_bytes s with Ok b => Ok b | Err e => Err (Internal ("Secret error: " +:+ e)) end.

(** The code of the moment against a stored secret. *)
Definition check_code (c : Call) (secret username code : string) : result AppError bool :=
  match decode_secret secret with
  | Err e => Err e
  | Ok b =>
      match build_totp b username with
      | Err e => Err e
      | Ok t => match check_current t (utc c) code with
                | Ok valid => Ok valid
                | Err e => Err (Internal ("TOTP check error: " +:+ e))
                end
      end
  end.

Definition normalize_backup_code (code : string) : string := to_uppercase (remove_dashes code).
Definition is_live_backup_slot (hash : string) : bool := negb (is_empty hash).

Fixpoint find_backup_code_index (c : Call) (hashed_codes : list string) (clean_code : string) : option nat :=
  match hashed_codes with
  | [] => None
  | hash :: rest =>
      if negb (is_live_backup_slot hash) then S <$> find_backup_code_index c rest clean_code
      else match verify_password c clean_code hash with
           | Ok true => Some 0
           | _ => S <$> find_backup_code_index c rest clean_code
           end
  end.

Definition check_provisioned_totp_code (c : Call) (u : Uuid) (code : string) : M unit :=
  let! row := select c SelectTotp (fun db => accounts db !! u) in
  match row with
  | None => fail ROW_NOT_FOUND
  | Some a =>
      match totp_secret a with
      | None => fail (Validation "TOTP not set up. Call /auth/totp/setup first.")
      | Some secret =>
          let! valid := lift (check_code c secret (user_username (account_user a)) code) in
          if valid : bool then ret tt else fail (Authentication "Invalid TOTP code")
      end
  end.

(** The backup codes of an enrollment: [draws] holds the eight indices below 36
    of each code, and their hashes are taken in order. *)
Definition backup_char (idx : nat) : ascii :=
  if Nat.ltb idx 10 then ascii_of_nat (48 + idx) else ascii_of_nat (65 + (idx - 10)).

Definition backup_code (draw : list nat) : string :=
  String.string_of_list_ascii (backup_char <$> take 4 draw) +:+ "-" +:+ String.string_of_list_ascii (backup_char <$> drop 4 draw).

Fixpoint hash_codes (c : Call) (salted : string -> result string string) (codes : list string) : result AppError (list string) :=
  match codes with
  | [] => Ok []
  | code :: codes =>
      match hash_password c salted (remove_dashes code) with
      | Err e => Err e
      | Ok h => match hash_codes c salted codes with Ok hs => Ok (h :: hs) | Err e => Err e end
      end
  end.

Definition mint_backup_codes (c : Call) (salted : string -> result string string) (draws : list (list nat))
  : result AppError (list string * list string) :=
  let codes := backup_code <$> draws in
  match hash_codes c salted codes with Ok hs => Ok (codes, hs) | Err e => Err e end.

(** A new secret, drawn as its bytes and their encoding; the account keeps the
    rest of its second factor. *)
Definition provision_totp_secret (c : Call) (u : Uuid) (drawn : SecretBytes * string) : M (string * string) :=
  let! row := select c SelectTotp (fun db => accounts db !! u) in
  match row with
  | None => fail ROW_NOT_FOUND
  | Some a =>
      let! totp := lift (build_totp (fst drawn) (user_username (account_user a))) in
      let! _ := execute c UpdateTotp (set_accounts (alter (fun a =>
                  set_totp (Some (snd drawn)) (totp_enabled a) (totp_backup_codes a) (totp_verified_at a) a) u)) in
      ret (snd drawn, get_url totp)
  end.

Definition setup_totp (c : Call) (ext : AuthExtension) (drawn : SecretBytes * string) : M (string * string) :=
  provision_totp_secret c (ext_user_id ext) drawn.

Definition mark_totp_enabled (c : Call) (u : Uuid) (hashed : list string) (verified : DateTime) : M unit :=
  execute c UpdateTotp (set_accounts (alter (fun a => set_totp (totp_secret a) true (Some hashed) (Some verified) a) u)).

Definition invalidate_others (c : Call) (u : Uuid) (caller_iat_ms : option Z) : M unit := fun w =>
  (Ok tt, set_invalidations (invalidate_other_sessions c u caller_iat_ms) w).

(** [codes] is what [mint_backup_codes] drew and hashed. *)
Definition enable_totp (c : Call) (ext : AuthExtension) (codes : result AppError (list string * list string)) (code : string)
  : M (list string) :=
  let u := ext_user_id ext in
  let! _ := check_provisioned_totp_code c u code in
  let! minted := lift codes in
  let! verified := lift (match iat_ms ext with
                         | Some ms => match from_timestamp_millis ms with
                                      | Some t => Ok t
                                      | None => Err (Internal ("Invalid caller iat_ms for totp_verified_at: " +:+ pretty ms))
                                      end
                         | None => Ok (utc c)
                         end) in
  let! _ := mark_totp_enabled c u (snd minted) verified in
  let! _ := invalidate_others c u (iat_ms ext) in
  let! _ := best_effort (revoke_all_refresh_token_families c u) in
  ret (fst minted).

(** A one-time backup code, under the row's lock. *)
Definition use_backup_code (c : Call) (u : Uuid) (clean_code : string) : M bool :=
  let! used := transaction
    (let! row := select c LockBackupCodes (fun db => accounts db !! u) in
     match row with
     | None => fail ROW_NOT_FOUND
     | Some a =>
         let! used :=
           match totp_backup_codes a with
           | None => ret false
           | Some hashed =>
               match find_backup_code_index c hashed clean_code with
               | None => ret false
               | Some i =>
                   let! _ := execute c UpdateBackupCodes
                     (set_accounts (alter (fun a => set_totp (totp_secret a) (totp_enabled a) (Some (<[i := ""]> hashed))
                                                     (totp_verified_at a) a) u)) in
                   ret true
               end
           end in
         let! _ := execute c CommitBackupCodes (fun db => db) in
         ret (Some used)
     end) in
  ret (default false used).

(** The session that follows a satisfied second factor. *)
Definition issue_session_after_totp (c : Call) (u : Uuid) : M (Account * TokenPair) :=
  let! row := select c SelectActiveUser (fun db => active_account db u) in
  match row with
  | None => fail ROW_NOT_FOUND
  | Some a =>
      let! _ := execute c UpdateLastLogin
                  (set_accounts (alter (fun a => if five_minutes_ago (db_now c) (last_login_at a)
                                                 then set_last_login (Some (db_now c)) a else a) u)) in
      let! tokens := generate_tokens c a in
      let! _ := persist_refresh_jti_from_pair c tokens (user_id (account_user a)) in
      ret (a, tokens)
  end.

Definition verify_totp (c : Call) (ticket : Token) (code : string) : M LoginAnswer :=
  let! claims := validate_totp_pending_token c ticket in
  let! _ := consume_totp_pending_jti c claims in
  let! row := select c SelectTotp (fun db => active_account db (subject claims)) in
  match row with
  | None => fail (Authentication "User not found")
  | Some a =>
      if negb (totp_enabled a) then fail (Authentication "TOTP not enabled for this user") else
      match totp_secret a with
      | None => fail (Authentication "TOTP not configured")
      | Some secret =>
          let! code_valid := lift (check_code c secret (user_username (account_user a)) code) in
          let! accepted := if code_valid : bool then ret true
                           else use_backup_code c (subject claims) (normalize_backup_code code) in
          if negb accepted then fail (Authentication "Invalid TOTP code") else
          let! r := issue_session_after_totp c (subject claims) in
          ret (Session (snd r) (must_change_password (fst r)))
      end
  end.

Definition resolve_enrollment_ticket (c : Call) (ticket : Token) : M JwtClaims :=
  let! claims := validate_totp_enrollment_token c ticket in
  let! row := select c SelectTotp (fun db => active_account db (subject claims)) in
  match row with
  | None => fail (Authentication "User not found")
  | Some a =>
      if totp_enabled a
      then fail (Validation "TOTP is already enabled for this account. Sign in again and enter a code.")
      else ret claims
  end.

Definition enroll_setup (c : Call) (ticket : Token) (drawn : SecretBytes * string) : M (string * string) :=
  let! claims := resolve_enrollment_ticket c ticket in provision_totp_secret c (subject claims) drawn.

Definition enroll_complete (c : Call) (ticket : Token) (codes : result AppError (list string * list string)) (code : string)
  : M (LoginAnswer * list string) :=
  let! claims := resolve_enrollment_ticket c ticket in
  let! _ := consume_totp_pending_jti c claims in
  let! _ := check_provisioned_totp_code c (subject claims) code in
  let! minted := lift codes in
  let! _ := mark_totp_enabled c (subject claims) (snd minted) (utc c) in
  let! _ := invalidate_others c (subject claims) None in
  let! _ := best_effort (revoke_all_refresh_token_families c (subject claims)) in
  let! r := issue_session_after_totp c (subject claims) in
  ret (Session (snd r) (must_change_password (fst r)), fst minted).

Definition disable_totp (c : Call) (st : LoginSettings) (ext : AuthExtension) (password code : string) : M unit :=
  let u := ext_user_id ext in
  let! row := select c SelectTotp (fun db => accounts db !! u) in
  match row with
  | None => fail ROW_NOT_FOUND
  | Some a =>
      if policy_requires_totp (login_policy st) (subject_of a)
      then fail (Conflict ("Two-factor authentication is required for this account by the system policy (" +:+
                           policy_as_str (login_policy st) +:+ "). It cannot be disabled."))
      else
        match password_hash a with
        | None => fail (Authentication "No password set")
        | Some hash =>
            let! matches := lift (verify_password c password hash) in
            if negb matches then fail (Authentication "Invalid password") else
            if negb (totp_enabled a) then fail (Validation "TOTP is not enabled") else
            match totp_secret a with
            | None => fail (Authentication "TOTP not configured")
            | Some secret =>
                let! valid := lift (check_code c secret (user_username (account_user a)) code) in
                if negb valid then fail (Authentication "Invalid TOTP code") else
                let! _ := execute c UpdateTotp (set_accounts (alter (set_totp None false None None) u)) in
                let! _ := invalidate_others c u (iat_ms ext) in
                best_effort (revoke_all_refresh_token_families c u)
            end
        end
  end.

End Handlers.
