(* ===== verification/SignInFacts.v ===== *)
(** Signing in: what a login reveals, whom it admits, and the second factor
    that stands between a password and a session. *)

From stdpp Require Import base list strings gmap.
From Stdlib Require Import ZArith Lia Ascii.
From S2P Require Import Prelude RustStr RustNum Chrono Repository AccessDb Auth Tokens Errors SessionDb Sessions SessionSamples SessionFacts SessionClocks Login SessionHandlers.

Local Open Scope string_scope.
Local Open Scope session_scope.

Section SignIn.
Context `{Chrono} `{JwtCrate} `{Bcrypt} `{TotpCrate}.

(** What the client learns of a failed login. *)
Definition client_error (out : result LoginFailure (Account * TokenPair) * World) : option AppError :=
  match fst out with Ok _ => None | Err f => Some (failure_error f) end.

(** The credentials open an account. *)
Definition opens (w : World) (username password : string) : Prop :=
  exists a hash, find_login (tables w) username = Some a /\ login_rejection (Some a) = None /\
    password_hash a = Some hash /\ bcrypt_verify password hash = Ok true.

(** The account a login finds has a stored hash that bcrypt cannot read. *)
Definition damaged (w : World) (username password e : string) : Prop :=
  exists a hash, find_login (tables w) username = Some a /\ login_rejection (Some a) = None /\
    password_hash a = Some hash /\ bcrypt_verify password hash = Err e.

Lemma rejection_none user : login_rejection user = None -> exists a hash, user = Some a /\ password_hash a = Some hash /\
  user_auth_provider (account_user a) = LocalProvider.
Proof.
  unfold login_rejection. destruct user as [a|]; [|done]. destruct (user_auth_provider _) eqn:Ep; try done.
  destruct (password_hash a) as [hash|] eqn:Eh; [|done]. by exists a, hash.
Qed.

Lemma stored_hash w n p : (forall e, ~ damaged w n p e) \/ exists e, damaged w n p e.
Proof.
  unfold damaged. destruct (find_login (tables w) n) as [a|] eqn:Ea; [|left; by intros e (? & ? & ? & _)].
  destruct (login_rejection (Some a)) eqn:Er; [left; intros e (? & ? & [= <-] & ? & _); congruence|].
  destruct (password_hash a) as [hash|] eqn:Eh; [|left; intros e (? & ? & [= <-] & _ & ? & _); congruence].
  destruct (bcrypt_verify p hash) as [b|e] eqn:Eb.
  - left. intros e (? & ? & [= <-] & _ & ? & ?). congruence.
  - right. by exists e, a, hash.
Qed.

(** What the server answers when the comparison is over. *)
Definition answer_of (c : Call) (compared : AppError) : AppError :=
  if negb (permit c) then AT_CAPACITY
  else match blocking c with
       | Some e => Internal ("Blocking task failed: " +:+ e)
       | None => compared
       end.

Definition unreadable (e : string) : AppError := Internal ("Password verification failed: " +:+ e).

Lemma failed_login_answer c username password w compared :
  (forall s, fault c s = None) -> (exists b, bcrypt_verify password dummy_bcrypt_hash = Ok b) -> ~ opens w username password ->
  (compared = Authentication LOCAL_AUTH_FAILURE_MESSAGE /\ (forall e, ~ damaged w username password e) \/
   exists e, compared = unreadable e /\ damaged w username password e) ->
  client_error (authenticate_for_login c username password PadOn w) = Some (answer_of c compared).
Proof.
  intros Hf [bd Hdummy] Hno Hcase. unfold authenticate_for_login, authenticate_inner, login_attempt, client_error, answer_of.
  erewrite run_bind; [|by apply run_select]. cbn [entry_pad].
  set (user := find_login (tables w) username).
  assert (forall h, verify_password c password h = if negb (permit c) then Err AT_CAPACITY else
    match blocking c with Some e => Err (Internal ("Blocking task failed: " +:+ e)) | None =>
    match bcrypt_verify password h with Ok b => Ok b | Err e => Err (unreadable e) end end) as Hv by done.
  destruct (login_rejection user) as [reason|] eqn:Er.
  - assert (compared = Authentication LOCAL_AUTH_FAILURE_MESSAGE) as ->.
    { destruct Hcase as [[? _]|(e & _ & a & hash & Ea & Ea' & _)]; [done|]. unfold user in Er. by rewrite Ea, Ea' in Er. }
    unfold then_ at 1, lift. rewrite Hv. destruct (permit c); [|done]. cbn [negb].
    destruct (blocking c); [done|]. by rewrite Hdummy.
  - apply rejection_none in Er as Hr. destruct Hr as (a & hash & Ea & Eh & Ep). unfold user in *. rewrite Ea. cbn [mbind option_bind]. rewrite Eh.
    unfold then_ at 1, lift. rewrite Hv. destruct (permit c); [|done]. cbn [negb].
    destruct (blocking c); [done|]. rewrite Ea in Er. destruct (bcrypt_verify password hash) as [[]|e] eqn:Eb.
    + destruct Hno. by exists a, hash.
    + destruct Hcase as [[-> _]|(e & _ & a' & hash' & Ea' & _ & Eh' & Eb')]; [|congruence].
      unfold wrong_password, then_, execute. by rewrite Hf.
    + destruct Hcase as [[_ Hd]|(e' & -> & a' & hash' & Ea' & _ & Eh' & Eb')];
        [|assert (e' = e) as -> by congruence; done].
      destruct (Hd e). by exists a, hash.
Qed.

(** C15. A failed login says nothing about the account.  With the timing pad
    on, and while the database answers, any two attempts that do not present an account's right password get
    the same error from the same server: whether the username is unknown,
    deactivated, federated, without a password, locked or simply mistyped the
    password of, whatever the tables hold - and also when the server sheds
    load or the comparison fails, which the absent username shares with the
    present one.  The one account that is told apart is one whose stored hash
    bcrypt cannot read: it answers an internal error. *)
Theorem login_reveals_nothing c n1 p1 w1 n2 p2 w2 :
  (forall s, fault c s = None) -> (forall p, exists b, bcrypt_verify p dummy_bcrypt_hash = Ok b) ->
  ~ opens w1 n1 p1 -> ~ opens w2 n2 p2 ->
  ((forall e, ~ damaged w1 n1 p1 e) -> (forall e, ~ damaged w2 n2 p2 e) ->
     client_error (authenticate_for_login c n1 p1 PadOn w1) = client_error (authenticate_for_login c n2 p2 PadOn w2)) /\
  client_error (authenticate_for_login c n1 p1 PadOn w1) <> None /\
  (forall e, damaged w1 n1 p1 e -> permit c = true -> blocking c = None ->
     client_error (authenticate_for_login c n1 p1 PadOn w1) = Some (Internal ("Password verification failed: " +:+ e))).
Proof.
  intros Hf Hb H1' H2'. split_and!.
  - intros D1 D2. by rewrite !(failed_login_answer _ _ _ _ (Authentication LOCAL_AUTH_FAILURE_MESSAGE)) by auto.
  - destruct (stored_hash w1 n1 p1) as [D|[e D]].
    + by rewrite (failed_login_answer _ _ _ _ (Authentication LOCAL_AUTH_FAILURE_MESSAGE)) by auto.
    + by rewrite (failed_login_answer _ _ _ _ (unreadable e)) by eauto.
  - intros e D Hp Hbl. rewrite (failed_login_answer _ _ _ _ (unreadable e)) by eauto. unfold answer_of. by rewrite Hp, Hbl.
Qed.

(** * Who is admitted *)

Lemma find_login_row db n a : (forall u a, accounts db !! u = Some a -> user_id (account_user a) = u) ->
  find_login db n = Some a ->
  accounts db !! user_id (account_user a) = Some a /\ user_is_active (account_user a) = true /\ user_username (account_user a) = n.
Proof.
  intros Hk Hfind. apply List.find_some in Hfind as [Hin [Hn Ha]%andb_true_iff].
  apply list_elem_of_In, list_elem_of_fmap in Hin as ([u a'] & -> & Hin). apply elem_of_map_to_list in Hin. cbn in *.
  split_and!; [by rewrite (Hk _ _ Hin)|done|by apply String.eqb_eq].
Qed.

Lemma healthy_accounts c w g u : Healthy c w -> (forall a, account_user (g a) = account_user a) ->
  Healthy c (set_tables (set_accounts (alter g u)) w).
Proof.
  intros [] Hg. split; try done. intros v a. cbn. rewrite lookup_alter. case_decide; [|eauto].
  intros (a0 & E & ->)%fmap_Some. subst. rewrite Hg. eauto.
Qed.

Lemma reset_counters_user now a : account_user (reset_counters now a) = account_user a.
Proof. unfold reset_counters. by case_match. Qed.

Lemma reset_counters_clean now a : (0 <= failed_login_attempts a)%Z ->
  failed_login_attempts (reset_counters now a) = 0%Z /\ locked_until (reset_counters now a) = None /\
  last_failed_login_at (reset_counters now a) = None.
Proof.
  unfold reset_counters. intros Hz. destruct (_ || _) eqn:E; [done|]. rewrite !orb_false_iff in E.
  destruct E as [[[_ Hn%Z.ltb_ge] Hl] Hf]. split_and!; [lia|by destruct (locked_until a)|by destruct (last_failed_login_at a)].
Qed.

(** The session of a login: a fresh pair, recorded. *)
Lemma run_new_session c w a : Healthy c w -> accounts (tables w) !! user_id (account_user a) = Some a \/
    (exists a', accounts (tables w) !! user_id (account_user a) = Some a') ->
  exists tokens i, (let! tokens := generate_tokens c a in
    let! _ := persist_refresh_jti_from_pair c tokens (user_id (account_user a)) in ret (a, tokens)) w =
    (Ok (a, tokens), set_tables (set_refresh (insert_new (new_jti c)
       (row_of (successor c (invalidations w) a (new_family c) None None "refresh") (new_family c) i))) w) /\
    jwt_encode (successor c (invalidations w) a (new_family c) None None "refresh") = Ok (refresh_token tokens) /\
    jwt_encode (access_claims c (invalidations w) a None None None (Some (new_family c))) = Ok (access_token tokens).
Proof.
  intros Hh Ha. assert (exists a', accounts (tables w) !! user_id (account_user a) = Some a') as [a' Ha'] by naive_solver.
  destruct (run_generate c w a (new_family c) None None Hh) as (tokens & Eg & Hr & Hacc).
  destruct (healthy_instants _ _ Hh a (new_family c) None None "refresh") as [i Hi].
  exists tokens, i. split; [|done]. erewrite run_bind by exact Eg. unfold persist_refresh_jti_from_pair.
  erewrite run_bind; [done|]. erewrite run_bind; [|by eapply decode_minted]. cbn [jti family_id successor].
  erewrite run_bind; [|exact (f_equal (fun r => (r, w)) Hi)]. apply (run_insert _ _ _ _ _ _ _ _ a'); [apply Hh|done].
Qed.

(** What the account looks like once its password was accepted. *)
Definition admitted (c : Call) (a : Account) : Account :=
  if negb (must_change_password a) && is_password_expired (password_changed_at a) (password_expiry_days (config c)) (utc c)
  then set_must_change true a else a.

Lemma right_password_runs c a w : Healthy c w -> accounts (tables w) !! user_id (account_user a) = Some a ->
  exists a' tokens w', right_password c a w = (Ok (a', tokens), w') /\ account_user a' = account_user a /\
    (exists row, refresh_jtis (tables w') = insert_new (new_jti c) row (refresh_jtis (tables w)) /\
        row_family row = new_family c /\ row_user row = user_id (account_user a)) /\
    exists b, accounts (tables w') !! user_id (account_user a) = Some b /\
       ((0 <= failed_login_attempts a)%Z -> failed_login_attempts b = 0%Z /\ locked_until b = None /\ last_failed_login_at b = None).
Proof.
  intros Hh Hrow. pose proof (healthy_faults _ _ Hh) as Hf. unfold right_password. fold (admitted c a).
  set (u := user_id (account_user a)) in *. set (expired := negb (must_change_password a) && _) in *.
  erewrite run_bind by by apply run_execute.
  pose proof (healthy_accounts c w (reset_counters (db_now c)) u Hh (reset_counters_user _)) as Hh1.
  set (w1 := set_tables _ w) in *.
  set (w2 := if expired then set_tables (set_accounts (alter (set_must_change true) u)) w1 else w1).
  erewrite (run_bind _ _ _ tt w2) by (unfold w2; destruct expired; [by apply run_execute|done]).
  assert (Healthy c w2) as Hh2 by (unfold w2; destruct expired; [by apply healthy_accounts|done]).
  assert (account_user (admitted c a) = account_user a) as Hu by (unfold admitted; by case_match).
  assert (exists b, accounts (tables w2) !! u = Some b /\ failed_login_attempts b = failed_login_attempts (reset_counters (db_now c) a) /\
    locked_until b = locked_until (reset_counters (db_now c) a) /\ last_failed_login_at b = last_failed_login_at (reset_counters (db_now c) a))
    as (b & Eb & B1 & B2 & B3).
  { unfold w2, w1. destruct expired; cbn; rewrite ?lookup_alter_eq, Hrow; cbn; eauto. }
  destruct (run_new_session c w2 (admitted c a) Hh2) as (tokens & i & E & _); [right; rewrite Hu; by exists b|].
  rewrite Hu in E. fold u in E. exists (admitted c a), tokens, (set_tables (set_refresh (insert_new (new_jti c)
    (row_of (successor c (invalidations w2) (admitted c a) (new_family c) None None "refresh") (new_family c) i))) w2).
  split; [exact E|]. split; [done|]. split.
  - eexists. split; [cbn; f_equal; unfold w2; by destruct expired|]. split; [done|]. cbn. by rewrite Hu.
  - exists b. split; [exact Eb|]. rewrite B1, B2, B3. apply reset_counters_clean.
Qed.


(** * The second factor *)

Lemma attempt_opens c n p entry w a tokens w' : login_attempt c n p entry w = (Ok (inl (a, tokens)), w') ->
  exists a0 hash, find_login (tables w) n = Some a0 /\ login_rejection (Some a0) = None /\ password_hash a0 = Some hash /\
    bcrypt_verify p hash = Ok true /\ account_user a = account_user a0 /\ totp_enabled a = totp_enabled a0.
Proof.
  unfold login_attempt. intros (user & w1 & E & E')%then_Ok. unfold select in E. destruct (fault c SelectLogin); [done|].
  injection E as <- <-. destruct (login_rejection (find_login (tables w) n)) as [reason|] eqn:Er.
  { destruct (entry_pad entry); [|done]. apply then_Ok in E' as (b & w2 & _ & E'). done. }
  apply rejection_none in Er as Hr. destruct Hr as (a0 & hash & Ea & Eh & _). rewrite Ea in *. cbn [mbind option_bind] in E'.
  rewrite Eh in E'. cbv iota in E'. apply then_Ok in E' as (b & w2 & Ev & E'). unfold lift in Ev. injection Ev as Ev <-.
  exists a0, hash. do 3 (split; [done|]). destruct b; [|apply then_Ok in E' as (? & ? & _ & E'); done].
  split. { unfold verify_password in Ev. destruct (permit c), (blocking c), (bcrypt_verify p hash) as [[]|]; done. }
  apply then_Ok in E' as ([a1 t1] & w3 & E & E'). unfold ret in E'. injection E' as <- <- <-.
  unfold right_password in E. apply then_Ok in E as ([] & w4 & _ & E). apply then_Ok in E as ([] & w5 & _ & E).
  apply then_Ok in E as (t2 & w6 & _ & E). apply then_Ok in E as ([] & w7 & _ & E). unfold ret in E. injection E as <- _ _.
  by case_match.
Qed.

(** A password alone opens a session only where nothing more is asked.
    When [login] answers with a session, the attempt presented the password of
    an active local account, no second factor is enrolled on it, the policy in
    force does not require one of it, and single sign-on, where it is enabled,
    leaves local sign-in to a verified administrator who may break the glass.
    In every other case the right password yields a ticket or a refusal. *)
Theorem password_session_is_allowed c st budget n p w tokens m w' :
  login c st budget n p w = (Ok (Session tokens m), w') ->
  exists a hash, find_login (tables w) n = Some a /\ user_auth_provider (account_user a) = LocalProvider /\
    password_hash a = Some hash /\ bcrypt_verify p hash = Ok true /\
    totp_enabled a = false /\ totp_login_requirement (login_policy st) (subject_of a) = NotRequired /\
    exists sso, sso_providers st = Ok sso /\
      (sso = true -> user_is_admin (account_user a) = true /\ sso_disable_admin_break_glass st = false).
Proof.
  unfold login. intros ([a tokens'] & w1 & E & E')%then_Ok.
  destruct (authenticate_for_login _ _ _ _ _) as [[[a1 t1]|] w2] eqn:Ea; [|done]. injection E as <- <- <-.
  unfold authenticate_for_login, authenticate_inner in Ea.
  destruct (login_attempt _ _ _ _ _) as [[[[a2 t2]|]|] w3] eqn:El; try done. injection Ea as -> -> ->.
  apply attempt_opens in El as (a0 & hash & Ef & Er & Eh & Eb & Hu & Ht).
  assert (subject_of a1 = subject_of a0) as Hs by (unfold subject_of; by rewrite Hu, Ht).
  apply then_Ok in E' as (sso & w4 & Esso & E'). unfold lift in Esso. injection Esso as Esso <-. rewrite Hs in E'.
  destruct (totp_login_requirement (login_policy st) (subject_of a0)) eqn:Ereq.
  2,3: apply then_Ok in E' as (? & ? & _ & E'); done.
  exists a0, hash. split_and!; try done.
  - by apply rejection_none in Er as (? & ? & [= <-] & _ & ?).
  - unfold totp_login_requirement in Ereq. cbn in Ereq. by destruct (totp_enabled a0).
  - unfold enforce_local_login_sso_policy in Esso. destruct (sso_providers st) as [b|]; [|done]. exists b. split; [done|]. intros ->.
    unfold local_login_gate in Esso. rewrite Hu in Esso. by destruct (user_is_admin _), (sso_disable_admin_break_glass st).
Qed.

Lemma consume_accounts c claims w : accounts (tables (snd (consume_totp_pending_jti c claims w))) = accounts (tables w).
Proof.
  unfold consume_totp_pending_jti. destruct (jti claims); [|done]. destruct (from_timestamp _); [|done].
  unfold then_, execute, fail, ret.
  destruct (pending_jtis (tables w) !! _), (accounts (tables w) !! subject claims), (fault c InsertPending); done.
Qed.

(** Recording a token touches only its own table. *)
Definition keeps_others (w w' : World) : Prop :=
  accounts (tables w') = accounts (tables w) /\ pending_jtis (tables w') = pending_jtis (tables w).

Lemma persist_others c tokens u w : keeps_others w (snd (persist_refresh_jti_from_pair c tokens u w)).
Proof.
  unfold persist_refresh_jti_from_pair, then_, lift, decode_token, lift, ret, record_refresh_token_jti, insert_jti, execute.
  destruct (jwt_decode _ _); [|done]. destruct (jti _); [|done]. destruct (family_id _); [|done].
  destruct (row_instants _); [|done]. by destruct (refresh_jtis (tables w) !! _), (accounts (tables w) !! u), (fault c InsertJti).
Qed.

Lemma issue_session_others c u w a tokens w' : issue_session_after_totp c u w = (Ok (a, tokens), w') ->
  pending_jtis (tables w') = pending_jtis (tables w) /\
  forall k, totp_backup_codes <$> accounts (tables w') !! k = totp_backup_codes <$> accounts (tables w) !! k.
Proof.
  unfold issue_session_after_totp. intros (row & w1 & E & E')%then_Ok. unfold select in E.
  destruct (fault c SelectActiveUser); [done|]. injection E as <- <-. destruct (active_account _ _) as [a0|]; [|done].
  apply then_Ok in E' as ([] & w2 & E & E'). unfold execute in E. destruct (fault c UpdateLastLogin); [done|]. injection E as <-.
  apply then_Ok in E' as (t & w3 & E & E'). apply generate_spec in E as [-> _].
  apply then_Ok in E' as ([] & w4 & E & E'). unfold ret in E'. injection E' as <- <- <-.
  pose proof (persist_others c t (user_id (account_user a0)) (set_tables (set_accounts (alter (fun a => if five_minutes_ago (db_now c) (last_login_at a)
    then set_last_login (Some (db_now c)) a else a) u)) w)) as [Ha Hp]. rewrite E in Ha, Hp. cbn in Ha, Hp. rewrite Ha, Hp.
  split; [done|]. intros k. rewrite lookup_alter. case_decide as Hd; [subst|done].
  destruct (accounts (tables w) !! k); [|done]. cbn. by case_match.
Qed.

Lemma backup_index c hashed clean i : find_backup_code_index c hashed clean = Some i ->
  exists hash, hashed !! i = Some hash /\ hash <> "" /\ verify_password c clean hash = Ok true.
Proof.
  revert i. induction hashed as [|h hashed IH]; intros i; [done|]. simpl. unfold is_live_backup_slot, is_empty.
  destruct (String.eqb_spec h "") as [->|Hne]; simpl.
  - intros (k & ? & ->)%fmap_Some. by apply IH.
  - destruct (verify_password c clean h) as [[]|] eqn:E.
    + intros [= <-]. by exists h.
    + intros (k & ? & ->)%fmap_Some. by apply IH.
    + intros (k & ? & ->)%fmap_Some. by apply IH.
Qed.

Lemma use_backup_spec c u clean w w' : use_backup_code c u clean w = (Ok true, w') ->
  pending_jtis (tables w') = pending_jtis (tables w) /\
  exists a hashed i hash, accounts (tables w) !! u = Some a /\ totp_backup_codes a = Some hashed /\ hashed !! i = Some hash /\
    hash <> "" /\ verify_password c clean hash = Ok true /\
    exists a', accounts (tables w') !! u = Some a' /\ totp_backup_codes a' = Some (<[i := ""]> hashed).
Proof.
  unfold use_backup_code, transaction. intros (used & w1 & E & E')%then_Ok. unfold ret in E'. injection E' as Eu <-.
  destruct (then_ _ _ w) as [[[b|]|] w2] eqn:Et; [|by simplify_eq|done]. injection E as <- <-. cbn in Eu. subst b.
  apply then_Ok in Et as (row & w3 & E & Et). unfold select in E. destruct (fault c LockBackupCodes); [done|]. injection E as <- <-.
  destruct (accounts (tables w) !! u) as [a|] eqn:Ea; [|done]. apply then_Ok in Et as (b & w4 & E & Et).
  apply then_Ok in Et as ([] & w5 & Ec & Et). unfold execute in Ec. destruct (fault c CommitBackupCodes); [done|].
  injection Ec as <-. rewrite set_tables_id in Et. unfold ret in Et. injection Et as -> <-.
  destruct (totp_backup_codes a) as [hashed|] eqn:Eh; [|done].
  destruct (find_backup_code_index c hashed clean) as [i|] eqn:Ei; [|done].
  apply then_Ok in E as ([] & w5 & E & E'). unfold ret in E'. injection E' as <-. unfold execute in E.
  destruct (fault c UpdateBackupCodes); [done|]. injection E as <-. apply backup_index in Ei as (hash & Hi & Hne & Hv).
  split; [done|]. exists a, hashed, i, hash. split_and!; try done. eexists. cbn. rewrite lookup_alter_eq, Ea. done.
Qed.

(** C17. The second step of a sign-in needs everything it asks for.  When
    [verify_totp] answers with a session, the ticket was a pending ticket that
    had not expired and had not been spent, and it is spent now; its account is
    active and enrolled; and the code was either the authenticator's of the
    moment or one of the account's unused backup codes, whose slot is then
    empty, so it opens nothing again. *)
Theorem verified_session_needs_code c t code w tokens m w' :
  verify_totp c t code w = (Ok (Session tokens m), w') ->
  exists claims j a secret, jwt_decode (timestamp (utc c)) t = Ok claims /\ token_type claims = "totp_pending" /\
    jti claims = Some j /\ pending_jtis (tables w) !! j = None /\ pending_jtis (tables w') !! j <> None /\
    active_account (tables w) (subject claims) = Some a /\ totp_enabled a = true /\ totp_secret a = Some secret /\
    (check_code c secret (user_username (account_user a)) code = Ok true \/
     exists hashed i hash, totp_backup_codes a = Some hashed /\ hashed !! i = Some hash /\ hash <> "" /\
       verify_password c (normalize_backup_code code) hash = Ok true /\
       exists a', accounts (tables w') !! subject claims = Some a' /\ totp_backup_codes a' = Some (<[i := ""]> hashed)).
Proof.
  unfold verify_totp. intros (claims & w1 & E & E')%then_Ok. unfold validate_totp_pending_token, validate_ticket in E.
  apply then_Ok in E as (cl & w2 & Ed & E). apply decoded in Ed as [Ed ->].
  destruct (String.eqb_spec (token_type cl) "totp_pending") as [Hk|]; [|done]. cbn in E. unfold ret in E. injection E as -> ->.
  apply then_Ok in E' as ([] & w2 & Ec & E'). pose proof (consume_accounts c claims w1) as Hacc. rewrite Ec in Hacc. cbn in Hacc.
  apply consume_cases in Ec as [[_ ?]|(j & x & Hj & _ & Hpend & Hn)]; [done|]. specialize (Hn eq_refl).
  apply then_Ok in E' as (row & w3 & E & E'). unfold select in E. destruct (fault c SelectTotp); [done|]. injection E as <- <-.
  unfold active_account in E'. rewrite Hacc in E'. fold (active_account (tables w1) (subject claims)) in E'.
  destruct (active_account (tables w1) (subject claims)) as [a|] eqn:Ea; [|done].
  destruct (totp_enabled a) eqn:Een; [|done]. cbn [negb] in E'. destruct (totp_secret a) as [secret|] eqn:Es; [|done].
  apply then_Ok in E' as (valid & w3 & E & E'). unfold lift in E. injection E as Ev <-.
  apply then_Ok in E' as (accepted & w4 & Eacc & E'). destruct accepted; [|done]. cbn [negb] in E'.
  apply then_Ok in E' as ([a2 t2] & w5 & E & E'). unfold ret in E'. injection E' as _ _ <-.
  apply issue_session_others in E as [Hp Hcodes]. exists claims, j, a, secret.
  assert (pending_jtis (tables w2) !! j <> None) as Hspent by (rewrite Hpend, insert_new_lookup, decide_True; done).
  destruct valid.
  - injection Eacc as <-. split_and!; try done; [congruence|by left].
  - apply use_backup_spec in Eacc as (Hp' & a1 & hashed & i & hash & E1 & Eh & Ei & Hne & Hv & a' & Ea' & Ec').
    rewrite Hacc in E1. assert (a1 = a) as ->.
    { unfold active_account in Ea. rewrite E1 in Ea. destruct (user_is_active (account_user a1)); congruence. }
    split_and!; try done; [congruence|]. right. exists hashed, i, hash. split_and!; try done.
    specialize (Hcodes (subject claims)). rewrite Ea' in Hcodes. cbn in Hcodes.
    destruct (accounts (tables w5) !! subject claims) as [a3|]; [|done]. exists a3. split; [done|]. injection Hcodes. congruence.
Qed.

(** * Backup codes, from their minting to their use *)

(** What a drawn code is made of: digits and capital letters. *)
Definition code_char (ch : ascii) : Prop := exists idx, idx < 36 /\ ch = backup_char idx.
Definition all_code_chars (s : string) : Prop := Forall code_char (String.list_ascii_of_string s).

Lemma code_char_not_dash ch : code_char ch -> Ascii.eqb ch "-"%char = false.
Proof. intros (idx & Hi & ->). do 36 (destruct idx as [|idx]; [done|]). lia. Qed.

Lemma keep_code_chars l : Forall code_char l -> List.filter (fun ch => negb (Ascii.eqb ch "-"%char)) l = l.
Proof. induction 1 as [|ch l Hc _ IH]; [done|]. simpl. by rewrite (code_char_not_dash _ Hc), IH. Qed.

Lemma list_ascii_app s t : String.list_ascii_of_string (s +:+ t) = (String.list_ascii_of_string s ++ String.list_ascii_of_string t)%list.
Proof. induction s as [|ch s IH]; [done|]. simpl. by rewrite IH. Qed.

Lemma drawn_chars draw : Forall (fun idx => idx < 36) draw -> Forall code_char (backup_char <$> draw).
Proof. induction 1; constructor; [|done]. by eexists. Qed.

Lemma remove_dashes_code draw : Forall (fun idx => idx < 36) draw ->
  remove_dashes (backup_code draw) = String.string_of_list_ascii (backup_char <$> draw).
Proof.
  intros Hd. unfold remove_dashes, backup_code. rewrite !list_ascii_app, !String.list_ascii_of_string_of_list_ascii.
  rewrite !List.filter_app, (keep_code_chars (_ <$> take _ _)) by (apply drawn_chars, Forall_take, Hd).
  rewrite (keep_code_chars (_ <$> drop _ _)) by (apply drawn_chars, Forall_drop, Hd).
  f_equal. change (List.filter _ (String.list_ascii_of_string "-")) with (@nil ascii). by rewrite app_nil_l, <-fmap_app, take_drop.
Qed.

Lemma hash_codes_lookup c salted codes hs k code : hash_codes c salted codes = Ok hs -> codes !! k = Some code ->
  exists h, hs !! k = Some h /\ hash_password c salted (remove_dashes code) = Ok h.
Proof.
  revert hs k. induction codes as [|code0 codes IH]; intros hs k; [done|]. simpl.
  destruct (hash_password c salted (remove_dashes code0)) as [h|] eqn:Eh; [|done].
  destruct (hash_codes c salted codes) as [hs'|] eqn:Es; [|done]. intros [= <-]. destruct k as [|k]; simpl.
  - intros [= <-]. by exists h.
  - by apply IH.
Qed.

Lemma index_found c hashed clean k h : hashed !! k = Some h -> h <> "" -> verify_password c clean h = Ok true ->
  exists i, find_backup_code_index c hashed clean = Some i /\ i <= k.
Proof.
  revert k. induction hashed as [|h0 hashed IH]; intros k Hk Hne Hv; [done|]. simpl.
  destruct k as [|k]; simpl in Hk.
  - injection Hk as ->. exists 0. split; [|lia]. unfold is_live_backup_slot, is_empty.
    destruct (String.eqb_spec h "") as [->|_]; [done|]. simpl. by rewrite Hv.
  - destruct (IH k Hk Hne Hv) as (i & E & Hi).
    destruct (negb (is_live_backup_slot h0)); [exists (S i); rewrite E; split; [done|lia]|].
    destruct (verify_password c clean h0) as [[]|]; [exists 0; split; [done|lia]|..]; exists (S i); rewrite E; split; (done || lia).
Qed.

Lemma used_slot_is_dead c hashed clean clean' i : find_backup_code_index c (<[i := ""]> hashed) clean' = Some i ->
  find_backup_code_index c hashed clean = Some i -> False.
Proof.
  intros E E0. apply backup_index in E as (h & Hi & Hne & _). apply backup_index in E0 as (h0 & Hi0 & _).
  rewrite list_lookup_insert_eq in Hi by (by eapply lookup_lt_Some). congruence.
Qed.

(** Every backup code an enrollment hands out opens a session, in the form
    it is shown and in any the input is normalized to, and its slot opens none
    twice.  The code as shown carries a dash; the hash is of the code without
    it; and what is compared at sign-in is the input without dashes in capital
    letters - the same string, since codes are drawn from digits and capital
    letters. *)
Theorem minted_codes_open c salted draws codes hashed k code :
  mint_backup_codes c salted draws = Ok (codes, hashed) -> Forall (Forall (fun idx => idx < 36)) draws ->
  (forall s, all_code_chars s -> to_uppercase s = s) ->
  (forall p h, salted p = Ok h -> h <> "" /\ bcrypt_verify p h = Ok true) ->
  codes !! k = Some code ->
  normalize_backup_code code = remove_dashes code /\
  exists i, find_backup_code_index c hashed (normalize_backup_code code) = Some i /\ i <= k /\
    forall entered, find_backup_code_index c (<[i := ""]> hashed) entered <> Some i.
Proof.
  unfold mint_backup_codes. destruct (hash_codes c salted (backup_code <$> draws)) as [hs|] eqn:Eh; [|done].
  intros [= <- <-] Hd Hup Hsalt Hk. apply list_lookup_fmap_Some in Hk as Hk'. destruct Hk' as (draw & -> & Hdraw).
  assert (Forall (fun idx => idx < 36) draw) as Hi by (by eapply Forall_lookup_1).
  assert (normalize_backup_code (backup_code draw) = remove_dashes (backup_code draw)) as Hn.
  { unfold normalize_backup_code. rewrite remove_dashes_code by done. apply Hup. unfold all_code_chars.
    rewrite String.list_ascii_of_string_of_list_ascii. by apply drawn_chars. }
  split; [done|]. rewrite Hn. destruct (hash_codes_lookup _ _ _ _ _ _ Eh Hk) as (h & Hh & Hp).
  assert (h <> "" /\ verify_password c (remove_dashes (backup_code draw)) h = Ok true) as [Hne Hv].
  { unfold hash_password in Hp. unfold verify_password. destruct (permit c); [|done]. cbn [negb] in *.
    destruct (blocking c); [done|]. destruct (salted (remove_dashes (backup_code draw))) as [h'|] eqn:Es; [|done].
    injection Hp as ->. destruct (Hsalt _ _ Es) as [Hne Hb]. by rewrite Hb. }
  destruct (index_found _ _ _ _ _ Hh Hne Hv) as (i & Ei & Hle). exists i. split_and!; [done|done|].
  intros entered E. by eapply used_slot_is_dead.
Qed.

End SignIn.

(** * Witnesses *)

(** A second-factor crate whose code of the moment is marked. *)
#[global] Instance marked_totp : TotpCrate :=
  {| SecretBytes := string; Totp := string; secret_bytes := Ok; totp_new b _ := Ok b;
     check_current t _ code := Ok (String.eqb code (t +:+ "-now")); get_url t := t; to_uppercase := fun s => s |}.

Definition open_settings : LoginSettings :=
  {| sso_providers := Ok false; allow_local_admin_login := true; sso_disable_admin_break_glass := false;
     settings_fault := None; system_settings_rows := []; totp_policy_pin := None |}.

(** Alice with a second factor, and the ticket her password got her. *)
Definition enrolled : Account := set_totp (Some "seed") true (Some ["$2b$AB12"; "$2b$CD34"]) (Some (noon - days 1)%Z) alice.
Definition enrolled_world : World :=
  {| tables := {| accounts := {[1%N := enrolled]}; refresh_jtis := ∅; pending_jtis := ∅; password_history := [] |}; invalidations := ∅ |}.
Definition ticket : @Token clear_jwt := ticket_claims (call_at 0 20%N 0%N) enrolled "totp_pending" 5.

Definition at_login : Call := call_at 0 10%N 7%N.

Lemma unknown_opens_nothing : ~ opens one_world "bob" "secret".
Proof. intros (a & hash & E & _). vm_compute in E. done. Qed.

Lemma mistyped_opens_nothing : ~ opens one_world "alice" "guess".
Proof. intros (a & hash & E & _ & Eh & Eb). vm_compute in E. injection E as <-. injection Eh as <-. vm_compute in Eb. done. Qed.

(** An account whose stored hash lost its header. *)
Definition damaged_world : World :=
  set_tables (set_accounts (alter (set_password "AB12" false 0%Z) 1%N)) one_world.

Lemma damaged_alice p : damaged damaged_world "alice" p "invalid hash".
Proof. vm_compute. do 2 eexists. done. Qed.

Lemma login_reveals_nothing_witness :
  client_error (authenticate_for_login at_login "bob" "secret" PadOn one_world) =
    client_error (authenticate_for_login at_login "alice" "guess" PadOn one_world) /\
  client_error (authenticate_for_login at_login "bob" "secret" PadOn one_world) <> None /\
  client_error (authenticate_for_login at_login "alice" "guess" PadOn damaged_world) =
    Some (Internal "Password verification failed: invalid hash").
Proof.
  destruct (login_reveals_nothing at_login "bob" "secret" one_world "alice" "guess" one_world) as (Hsame & Hsome & _);
    [done|intros p; eexists; reflexivity|apply unknown_opens_nothing|apply mistyped_opens_nothing|].
  split_and!; [|exact Hsome|].
  - apply Hsame; intros e (a & hash & E & _ & Eh & Eb); vm_compute in E; [done|]. injection E as <-. injection Eh as <-. done.
  - apply (login_reveals_nothing at_login "alice" "guess" damaged_world "bob" "secret" one_world);
      [done|intros p; eexists; reflexivity| |apply unknown_opens_nothing|apply damaged_alice|done|done].
    intros (a & hash & E & _ & Eh & Eb). vm_compute in E. injection E as <-. injection Eh as <-. done.
Defined.


Lemma password_session_is_allowed_witness :
  exists tokens m w', login at_login open_settings None "alice" "secret" one_world = (Ok (Session tokens m), w') /\
  exists a hash, find_login (tables one_world) "alice" = Some a /\ password_hash a = Some hash /\ bcrypt_verify "secret" hash = Ok true.
Proof.
  do 3 eexists. split; [vm_compute; reflexivity|].
  edestruct (password_session_is_allowed at_login open_settings None "alice" "secret" one_world) as (a & hash & E & _ & Eh & Eb & _);
    [vm_compute; reflexivity|]. exists a, hash. done.
Defined.

(** A backup code opens a session once. *)
Lemma verified_session_needs_code_witness :
  exists tokens m w', verify_totp (call_at 60 30%N 7%N) ticket "CD-34" enrolled_world = (Ok (Session tokens m), w') /\
  (totp_backup_codes <$> accounts (tables w') !! 1%N) = Some (Some ["$2b$AB12"; ""]) /\
  exists claims j, jwt_decode (timestamp (noon + 60 * NANOS_PER_SEC)%Z) ticket = Ok claims /\ jti claims = Some j /\
    pending_jtis (tables w') !! j <> None.
Proof.
  do 3 eexists. split; [vm_compute; reflexivity|]. split; [vm_compute; reflexivity|].
  edestruct (verified_session_needs_code (call_at 60 30%N 7%N) ticket "CD-34" enrolled_world)
    as (claims & j & a & secret & E & _ & Ej & _ & Hs & _); [vm_compute; reflexivity|]. exists claims, j. split_and!; [exact E|done|exact Hs].
Defined.

(** * What another replica learns of a change *)

(** An access token of the account, minted at noon. *)
Definition noon_token (a : Account) : @Token clear_jwt :=
  {| identity := claims_for a 1700000000 1700000000000 None None; exp := 1700001800; token_type := "access";
     jti := None; family_id := None; scan_pull_repo := None |}.

Definition caller (u : Uuid) (admin : bool) : AuthExtension :=
  {| ext_user_id := u; username := "caller"; email := ""; is_admin := admin; is_api_token := false; is_service_account := false;
     scopes := None; allowed_repo_ids := Admin; iat_ms := None |}.

(** Another replica shares the tables, not the map. *)
Definition on_another_replica (w : World) : World := {| tables := tables w; invalidations := ∅ |}.

(** Enabling the second factor shuts the noon token out everywhere; disabling
    it only on the replica that served the request, and there for the time the
    map's entry is trusted. *)
Example disabling_is_not_seen_elsewhere :
  let off := disable_totp (call_at 10 0%N 0%N) open_settings (caller 1%N false) "secret" "seed-now" enrolled_world in
  let check w := fst (validate_access_token_async (call_at 12 0%N 0%N) (noon_token enrolled) w) in
  let on := snd (enable_totp (call_at 10 0%N 0%N) (caller 1%N false) (Ok ([], [])) "seed-now" enrolled_world) in
  fst off = Ok tt /\ check (snd off) = Err INVALIDATED /\ check (on_another_replica (snd off)) = Ok (noon_token enrolled) /\
  check (on_another_replica on) = Err INVALIDATED.
Proof. vm_compute. done. Qed.

(** Asking for a new secret replaces the one in use: with nothing but an
    access token, and before any code is shown, an enrolled account's
    authenticator is worth nothing and the drawn secret is its second factor. *)
Example setup_replaces_live_secret :
  let w := snd (setup_totp (call_at 10 0%N 0%N) (caller 1%N false) ("drawn", "drawn") enrolled_world) in
  let opens_with code := match fst (verify_totp (call_at 60 30%N 7%N) ticket code w) with Ok _ => true | Err _ => false end in
  (totp_enabled <$> accounts (tables w) !! 1%N) = Some true /\
  opens_with "seed-now" = false /\ opens_with "drawn-now" = true.
Proof. vm_compute. done. Qed.

Definition sample_draws : list (list nat) := [[0; 1; 2; 3; 10; 11; 12; 13]; [35; 34; 33; 32; 9; 8; 7; 6]].
Definition marked_salt (p : string) : result string string := Ok ("$2b$" +:+ p).

Lemma minted_codes_open_witness : exists codes hashed,
  mint_backup_codes at_login marked_salt sample_draws = Ok (codes, hashed) /\ codes !! 1 = Some "ZYXW-9876" /\
  exists i, find_backup_code_index at_login hashed (normalize_backup_code "ZYXW-9876") = Some i /\ i <= 1.
Proof.
  do 2 eexists. split; [vm_compute; reflexivity|]. split; [reflexivity|].
  edestruct (minted_codes_open at_login marked_salt sample_draws) with (k := 1) as (_ & i & E & Hi & _);
    [vm_compute; reflexivity|repeat constructor; lia|done| |reflexivity|exists i; split; [exact E|exact Hi]].
  intros p h [= <-]. split; [done|apply marked_verifies].
Defined.
