(* ===== verification/Passwords.v ===== *)
(** Passwords of local accounts: the policy ([services/password_policy.rs]),
    the history of recent ones, and the handlers of [api/handlers/users.rs]
    that change, reset and force the change of one.

    What a change does outside the tables - the token cache of the process, the
    audit trail, the event bus, and the end of the first-run setup - is left
    out.  zxcvbn and Unicode lower-casing are arguments. *)

From stdpp Require Import base list strings gmap pretty.
From Stdlib Require Import ZArith Lia Ascii.
From S2P Require Import Prelude RustStr RustNum Chrono Repository AccessDb Auth Tokens Errors SessionDb Sessions Login.

Local Open Scope string_scope.
Local Open Scope session_scope.

(** [zxcvbn(password, []).score()], from 0 to 4, and [str::to_lowercase]. *)
Class PasswordCrate := {
  zxcvbn_score : string -> Z;
  str_to_lowercase : string -> string
}.

(** * The policy *)

Record PasswordPolicyConfig := {
  min_length : nat;
  max_length : nat;
  require_uppercase : bool;
  require_lowercase : bool;
  require_digit : bool;
  require_special : bool;
  (** a [u8]; 0 is off *)
  min_strength : Z
}.

Definition default_password_policy : PasswordPolicyConfig :=
  {| min_length := 8; max_length := 128; require_uppercase := false; require_lowercase := false; require_digit := false;
     require_special := false; min_strength := 0 |}.

(** The quotation mark is written by its code. *)
Definition SPECIAL_CHARS : string :=
  "!@#$%^&*()_+-=[]{}|;':" +:+ String (ascii_of_nat 34) ",./<>?`~\".

Definition COMMON_PASSWORDS : list string :=
  ["password"; "12345678"; "123456789"; "1234567890"; "qwerty123"; "qwertyui"; "password1"; "iloveyou"; "12341234"; "00000000";
   "abc12345"; "11111111"; "password123"; "admin123"; "letmein1"; "welcome1"; "monkey12"; "dragon12"; "baseball1"; "trustno1"].

Definition any_char (p : ascii -> bool) (s : string) : bool := existsb p (String.list_ascii_of_string s).
Definition is_special (ch : ascii) : bool := any_char (Ascii.eqb ch) SPECIAL_CHARS.

Definition strength_label (min : Z) : string :=
  if (min =? 1)%Z then "very weak" else if (min =? 2)%Z then "weak" else if (min =? 3)%Z then "moderate"
  else if (min =? 4)%Z then "strong" else "sufficient".

Section Passwords.
Context `{Chrono} `{JwtCrate} `{Bcrypt} `{PasswordCrate}.

(** A [Score] exists for 0 to 4 only; beyond them nothing is compared. *)
Definition too_weak (password : string) (min : Z) : bool :=
  (0 <? min)%Z && (min <=? 4)%Z && (zxcvbn_score password <? min)%Z.

(** The rules with the message of each, in the order they are reported. *)
Definition password_rules (password : string) (cfg : PasswordPolicyConfig) : list (bool * string) :=
  [(Nat.ltb (String.length password) (min_length cfg), "Password must be at least " +:+ pretty (min_length cfg) +:+ " characters");
   (Nat.ltb (max_length cfg) (String.length password), "Password must be at most " +:+ pretty (max_length cfg) +:+ " characters");
   (require_uppercase cfg && negb (any_char is_upper password), "Password must contain at least one uppercase letter");
   (require_lowercase cfg && negb (any_char is_lower password), "Password must contain at least one lowercase letter");
   (require_digit cfg && negb (any_char is_digit password), "Password must contain at least one digit");
   (require_special cfg && negb (any_char is_special password), "Password must contain at least one special character");
   (one_of (str_to_lowercase password) COMMON_PASSWORDS, "Password is too common; choose a stronger password");
   (too_weak password (min_strength cfg), "Password is not strong enough (minimum strength: " +:+ strength_label (min_strength cfg) +:+ ")")].

Definition validate_password (password : string) (cfg : PasswordPolicyConfig) : result (list string) unit :=
  match omap (fun rule : bool * string => if fst rule then Some (snd rule) else None) (password_rules password cfg) with
  | [] => Ok tt
  | violations => Err violations
  end.

Definition validate_password_with_policy (password : string) (policy : PasswordPolicyConfig) : result AppError unit :=
  match validate_password password policy with
  | Ok _ => Ok tt
  | Err violations => Err (Validation (join "; " violations))
  end.

(** [draws] holds sixteen indices into the alphabet. *)
Definition CHARSET : string := "ABCDEFGHJKLMNPQRSTUVWXYZabcdefghjkmnpqrstuvwxyz23456789!@#$%&*".

Definition generate_password (draws : list nat) : string :=
  String.string_of_list_ascii
    ((fun idx => nth idx (String.list_ascii_of_string CHARSET) "A"%char) <$> draws).

(** * The history *)

Definition newest_first (a b : HistoryRow) : comparison := Z.compare (recorded_at b) (recorded_at a).

(** [WHERE user_id = $1 ORDER BY created_at DESC LIMIT n]; rows of one instant
    stand in the order of their inserts. *)
Definition of_history (u : Uuid) (hist : list HistoryRow) : list HistoryRow :=
  base.filter (fun r => history_user r = u) hist.
Definition newest (u : Uuid) (n : nat) (hist : list HistoryRow) : list HistoryRow :=
  take n (sort_by newest_first (of_history u hist)).

(** Every hash is compared, a match or not. *)
Fixpoint any_match (c : Call) (password : string) (hashes : list string) : result AppError bool :=
  match hashes with
  | [] => Ok false
  | h :: hashes =>
      match verify_password c password h with
      | Err e => Err e
      | Ok b => match any_match c password hashes with Ok matched => Ok (b || matched) | Err e => Err e end
      end
  end.

Definition check_password_history (c : Call) (u : Uuid) (new_password : string) (history_count : nat) (current_hash : option string)
  : M unit :=
  let! rows := select c SelectHistory (fun db => newest u history_count (password_history db)) in
  let! matched := lift (any_match c new_password (option_list current_hash ++ (history_hash <$> rows))%list) in
  if matched : bool
  then fail (Validation "Password was used recently. Please choose a different password.")
  else ret tt.

(** The [DELETE] keeps the rows of others and the newest of this user. *)
Definition prune_history (u : Uuid) (n : nat) (hist : list HistoryRow) : list HistoryRow :=
  (base.filter (fun r => history_user r <> u) hist ++ reverse (newest u n hist))%list.

Definition record_password_history (c : Call) (u : Uuid) (old_hash : string) (history_count : nat) : M unit :=
  let! _ := execute c InsertHistory (set_history (fun hist =>
              hist ++ [{| history_user := u; history_hash := old_hash; recorded_at := db_now c |}])%list) in
  execute c PruneHistory (set_history (prune_history u history_count)).

(** * Changing a password *)

Record PasswordSettings := { password_policy : PasswordPolicyConfig; password_history_count : nat }.

(** What is read and computed before the transaction: the current hash and the
    new one. *)
Definition prepare_change (c : Call) (st : PasswordSettings) (salted : string -> result string string) (ext : AuthExtension)
  (u : Uuid) (current_password : option string) (new_password : string) : M (string * string) :=
  let! _ := lift (validate_password_with_policy new_password (password_policy st)) in
  let! row := select c SelectPassword (fun db => accounts db !! u) in
  match row with
  | None => fail (NotFound "User not found")
  | Some a =>
      match password_hash a with
      | None => fail (Validation "Cannot change password for SSO users")
      | Some current_hash =>
          let! _ :=
            if bool_decide (ext_user_id ext = u) && negb (is_admin ext)
            then match current_password with
                 | None => fail (Validation "Current password required")
                 | Some p =>
                     let! ok := lift (verify_password c p current_hash) in
                     if ok : bool then ret tt else fail (Authentication "Current password is incorrect")
                 end
            else ret tt in
          let! new_hash := lift (hash_password c salted new_password) in
          ret (current_hash, new_hash)
      end
  end.

Definition update_password (c : Call) (u : Uuid) (new_hash : string) (must_change : bool) : M bool :=
  let! affected := select c UpdatePassword (fun db => is_some (accounts db !! u)) in
  fun w => (Ok affected, set_tables (set_accounts (alter (set_password new_hash must_change (db_now c)) u)) w).

(** The transaction of a change. *)
Definition write_change (c : Call) (st : PasswordSettings) (u : Uuid) (new_password current_hash new_hash : string) : M unit :=
  let! _ := execute c BeginPassword (fun db => db) in
  let! _ := transaction
    (let! _ := if Nat.ltb 0 (password_history_count st)
               then check_password_history c u new_password (password_history_count st) (Some current_hash) else ret tt in
     let! affected := update_password c u new_hash false in
     if negb affected then fail (NotFound "User not found") else
     let! _ := if Nat.ltb 0 (password_history_count st)
               then record_password_history c u current_hash (password_history_count st) else ret tt in
     let! _ := execute c CommitPassword (fun db => db) in
     ret (Some tt)) in
  ret tt.

(** What ends the sessions of an account on this process and its refresh
    tokens everywhere. *)
Definition end_sessions (c : Call) (u : Uuid) : M unit :=
  let! _ := (fun w => (Ok tt, set_invalidations (invalidate_user_tokens c u) w)) in
  best_effort (revoke_all_refresh_token_families c u).

Definition change_password (c : Call) (st : PasswordSettings) (salted : string -> result string string) (ext : AuthExtension)
  (u : Uuid) (current_password : option string) (new_password : string) : M unit :=
  let! _ := lift (require_self_or_admin ext u "Cannot change other users' passwords") in
  let! hashes := prepare_change c st salted ext u current_password new_password in
  let! _ := write_change c st u new_password (fst hashes) (snd hashes) in
  end_sessions c u.

(** The transaction of a reset. *)
Definition write_reset (c : Call) (st : PasswordSettings) (u : Uuid) (old_hash new_hash : string) : M unit :=
  let! _ := execute c BeginPassword (fun db => db) in
  let! _ := transaction
    (let! _ := update_password c u new_hash true in
     let! _ := if Nat.ltb 0 (password_history_count st)
               then record_password_history c u old_hash (password_history_count st) else ret tt in
     let! _ := execute c CommitPassword (fun db => db) in
     ret (Some tt)) in
  ret tt.

(** An administrator's reset, to a drawn password that must be changed. *)
Definition reset_password (c : Call) (st : PasswordSettings) (salted : string -> result string string) (draws : list nat)
  (ext : AuthExtension) (u : Uuid) : M string :=
  if negb (is_admin ext) then fail (Authorization "Only administrators can reset passwords") else
  if bool_decide (ext_user_id ext = u) then fail (Validation "Cannot reset your own password. Use change password instead.") else
  let! row := select c SelectPassword (fun db => accounts db !! u) in
  match row with
  | None => fail (NotFound "User not found")
  | Some a =>
      match password_hash a with
      | None => fail (Validation "Cannot reset password for SSO users")
      | Some old_hash =>
          let temp_password := generate_password draws in
          let! new_hash := lift (hash_password c salted temp_password) in
          let! _ := write_reset c st u old_hash new_hash in
          let! _ := end_sessions c u in
          ret temp_password
      end
  end.

(** ** A forced change: only the flag is set *)

Definition force_password_change (c : Call) (ext : AuthExtension) (u : Uuid) : M unit :=
  if negb (is_admin ext) then fail (Authorization "Only administrators can force password changes") else
  let! row := select c SelectPassword (fun db => accounts db !! u) in
  match row with
  | None => fail (NotFound "User not found")
  | Some a =>
      match password_hash a with
      | None => fail (Validation "Cannot force password change for SSO users")
      | Some _ =>
          let! _ := execute c UpdateForce (set_accounts (alter (set_must_change true) u)) in
          end_sessions c u
      end
  end.

End Passwords.
