(* ===== verification/PasswordFacts.v ===== *)
(** Passwords: what a change leaves behind, whom it shuts out, what a refused
    one leaves untouched, and how long the history keeps a password from being
    chosen again. *)

From stdpp Require Import base list strings gmap sorting.
From Stdlib Require Import ZArith Lia Ascii.
From S2P Require Import Prelude RustStr RustNum Chrono Repository AccessDb Auth Tokens Errors SessionDb Sessions SessionSamples SessionFacts SessionClocks Login SessionHandlers SignInFacts Passwords.

Local Open Scope string_scope.
Local Open Scope session_scope.

(** * The newest rows of a history *)

#[export] Instance newest_first_preorder : TotalPreorder newest_first.
Proof.
  split; unfold newest_first.
  - intros x y. apply Z.compare_antisym.
  - intros x y z. rewrite !Z.compare_ngt_iff || rewrite !Z.compare_le_iff. lia.
Qed.

(** Rows of distinct instants, newest first. *)
Notation newer := (fun a b : HistoryRow => (recorded_at b < recorded_at a)%Z).

Lemma sorted_unique l k : sorted_by newest_first l -> StronglySorted newer k -> l ≡ₚ k -> l = k.
Proof.
  revert l. induction k as [|y k IH]; intros l Hl Hk Hp; [by apply Permutation_nil_r|].
  apply StronglySorted_inv in Hk as [Hk Hy]. destruct l as [|x l]; [by apply Permutation_nil_l in Hp|].
  destruct Hl as [Hx Hl]. assert (x = y) as ->.
  { assert (x ∈ y :: k) as [|Hin]%elem_of_cons by (rewrite <-Hp; left); [done|].
    assert (y ∈ x :: l) as [|Hiny]%elem_of_cons by (rewrite Hp; left); [done|].
    rewrite Forall_forall in Hy. specialize (Hy _ Hin). specialize (Hx _ Hiny). unfold newest_first in Hx.
    exfalso. apply Hx. by apply Z.compare_gt_iff. }
  f_equal. apply IH; [done|done|]. by apply Permutation_cons_inv in Hp.
Qed.

Lemma sort_newest l k : StronglySorted newer k -> l ≡ₚ k -> sort_by newest_first l = k.
Proof. intros Hk Hp. apply sorted_unique; [apply (sort_by_sorted newest_first)|done|]. by rewrite sort_by_perm. Qed.

(** The history of a user as its rows, newest first, all recorded by [t]. *)
Definition keeps_history (u : Uuid) (t : DateTime) (hist : list HistoryRow) (k : list HistoryRow) : Prop :=
  StronglySorted newer k /\ of_history u hist ≡ₚ k /\ Forall (fun r => (recorded_at r <= t)%Z) k.

Lemma keeps_newest u t hist k n : keeps_history u t hist k -> newest u n hist = take n k.
Proof. intros (Hs & Hp & _). unfold newest. by rewrite (sort_newest _ k). Qed.

Lemma history_prune u n hist : of_history u (prune_history u n hist) = reverse (newest u n hist).
Proof.
  unfold of_history, prune_history. rewrite filter_app, list_filter_filter.
  assert (base.filter (fun r => history_user r = u /\ history_user r <> u) hist = []) as -> by (apply filter_none; naive_solver).
  apply filter_id. intros r Hr. rewrite elem_of_reverse in Hr. unfold newest in Hr. apply subseteq_take in Hr.
  rewrite sort_by_perm in Hr. by apply list_elem_of_filter in Hr as [].
Qed.

Lemma prune_keeps u t hist k n : keeps_history u t hist k -> keeps_history u t (prune_history u n hist) (take n k).
Proof.
  intros Hk. pose proof Hk as (Hs & Hp & Ht). split_and!.
  - by apply StronglySorted_take || apply (StronglySorted_app_1_l _ (take n k) (drop n k)); rewrite take_drop.
  - rewrite history_prune, (keeps_newest _ _ _ _ _ Hk). apply reverse_Permutation.
  - by apply Forall_take.
Qed.

Lemma record_keeps u t now hist k h : keeps_history u t hist k -> (t < now)%Z ->
  keeps_history u now (hist ++ [{| history_user := u; history_hash := h; recorded_at := now |}])
    ({| history_user := u; history_hash := h; recorded_at := now |} :: k).
Proof.
  intros (Hs & Hp & Ht) Hnow. split_and!.
  - constructor; [done|]. eapply Forall_impl; [exact Ht|]. cbn. lia.
  - unfold of_history. rewrite filter_app, filter_cons_True by done. rewrite filter_nil. fold (of_history u hist). rewrite Hp.
    apply Permutation_app_comm.
  - constructor; [cbn; lia|]. eapply Forall_impl; [exact Ht|]. cbn. lia.
Qed.

Section Facts.
Context `{Chrono} `{JwtCrate} `{Bcrypt} `{PasswordCrate}.

(** * Policy *)

(** A password is accepted exactly when no enabled rule speaks against it, and
    a refusal reports the message of every rule that does, in order. *)
Lemma validate_password_Ok p cfg : validate_password p cfg = Ok tt <-> forall rule, rule ∈ password_rules p cfg -> fst rule = false.
Proof.
  unfold validate_password. generalize (password_rules p cfg). intros rules. induction rules as [|[[] msg] rules IH]; cbn.
  - split; [by intros _ ? ?%elem_of_nil|done].
  - split; [done|]. intros Hr. by specialize (Hr _ ltac:(left)).
  - rewrite IH. split; [intros Hr rule [->|]%elem_of_cons; [done|auto]|intros Hr rule ?; apply Hr; by right].
Qed.

(** * The parts of a change *)

Lemma verify_password_Ok c p h b : verify_password c p h = Ok b -> bcrypt_verify p h = Ok b.
Proof. unfold verify_password. destruct (permit c); [|done]. cbn [negb]. destruct (blocking c); [done|]. destruct (bcrypt_verify p h); [by intros [= ->]|done]. Qed.

Lemma hash_password_Ok c salted p h : hash_password c salted p = Ok h -> salted p = Ok h.
Proof. unfold hash_password. destruct (permit c); [|done]. cbn [negb]. destruct (blocking c); [done|]. destruct (salted p); [by intros [= ->]|done]. Qed.

Lemma any_match_none c p hs : any_match c p hs = Ok false -> Forall (fun h => bcrypt_verify p h = Ok false) hs.
Proof.
  induction hs as [|h hs IH]; cbn; [constructor|]. destruct (verify_password c p h) as [b|] eqn:E; [|done].
  destruct (any_match c p hs) as [b'|]; [|done]. intros [= [-> ->]%orb_false_iff]. constructor; [by apply verify_password_Ok in E|auto].
Qed.

(** What the caller of a change must show. *)
Definition may_change (ext : AuthExtension) (u : Uuid) (current_password : option string) (hash : string) : Prop :=
  is_admin ext = true \/ ext_user_id ext = u /\ exists p, current_password = Some p /\ bcrypt_verify p hash = Ok true.

Lemma prepare_spec c st salted ext u current new w h0 h1 w' :
  prepare_change c st salted ext u current new w = (Ok (h0, h1), w') -> (ext_user_id ext = u \/ is_admin ext = true) ->
  w' = w /\ validate_password new (password_policy st) = Ok tt /\ salted new = Ok h1 /\
  (exists a, accounts (tables w) !! u = Some a /\ password_hash a = Some h0) /\ may_change ext u current h0.
Proof.
  unfold prepare_change. intros ([] & w1 & E & E')%then_Ok Hcaller. unfold lift, validate_password_with_policy in E.
  destruct (validate_password new (password_policy st)) as [[]|] eqn:Ev; [|done]. injection E as <-.
  apply then_Ok in E' as (row & w2 & E & E'). unfold select in E. destruct (fault c SelectPassword); [done|]. injection E as <- <-.
  destruct (accounts (tables w) !! u) as [a|] eqn:Ea; [|done]. destruct (password_hash a) as [h|] eqn:Eh; [|done].
  apply then_Ok in E' as ([] & w3 & E & E'). apply then_Ok in E' as (new_hash & w4 & E2 & E'). unfold lift in E2. injection E2 as E2 <-.
  unfold ret in E'. injection E' as <- <- <-. apply hash_password_Ok in E2.
  assert (w3 = w /\ may_change ext u current h) as [-> Hmay]; [|split_and!; eauto].
  destruct (is_admin ext) eqn:Eadm; [rewrite andb_false_r in E; injection E as <-; split; [done|by left]|].
  destruct Hcaller as [Hu|]; [|done]. rewrite bool_decide_true in E by done. cbn [negb andb] in E.
  destruct current as [p|]; [|done]. apply then_Ok in E as (ok & w5 & E & E5). unfold lift in E. injection E as E <-.
  destruct ok; [|done]. injection E5 as <-. apply verify_password_Ok in E. split; [done|]. right. eauto.
Qed.

(** The tables after the transaction of a change or a reset. *)
Definition written (c : Call) (st : PasswordSettings) (u : Uuid) (old_hash new_hash : string) (must_change : bool) (db : SessionTables)
  : SessionTables :=
  {| accounts := alter (set_password new_hash must_change (db_now c)) u (accounts db); refresh_jtis := refresh_jtis db;
     pending_jtis := pending_jtis db;
     password_history :=
       if Nat.ltb 0 (password_history_count st)
       then prune_history u (password_history_count st)
              (password_history db ++ [{| history_user := u; history_hash := old_hash; recorded_at := db_now c |}])%list
       else password_history db |}.

(** None of the passwords that are checked, the current one first. *)
Definition not_recent (st : PasswordSettings) (u : Uuid) (new old_hash : string) (db : SessionTables) : Prop :=
  0 < password_history_count st ->
  Forall (fun h => bcrypt_verify new h = Ok false)
    (old_hash :: (history_hash <$> newest u (password_history_count st) (password_history db))).

Lemma execute_Ok c s f w x w' : execute c s f w = (Ok x, w') -> w' = set_tables f w.
Proof. unfold execute. destruct (fault c s); [done|]. by intros [= _ <-]. Qed.

Lemma record_history_spec c st u h w w' : (if Nat.ltb 0 (password_history_count st)
    then record_password_history c u h (password_history_count st) else ret tt) w = (Ok tt, w') ->
  w' = set_tables (set_history (fun hist => if Nat.ltb 0 (password_history_count st)
    then prune_history u (password_history_count st) (hist ++ [{| history_user := u; history_hash := h; recorded_at := db_now c |}])%list
    else hist)) w.
Proof.
  destruct (Nat.ltb 0 (password_history_count st)).
  - unfold record_password_history. intros ([] & w1 & E & E')%then_Ok. apply execute_Ok in E as ->. by apply execute_Ok in E' as ->.
  - intros [= <-]. destruct w as [[] ?]. done.
Qed.

Lemma write_spec c st u new h0 h1 w w' : write_change c st u new h0 h1 w = (Ok tt, w') ->
  is_Some (accounts (tables w) !! u) /\ not_recent st u new h0 (tables w) /\
  w' = set_tables (written c st u h0 h1 false) w.
Proof.
  unfold write_change. intros ([] & w1 & E & E')%then_Ok. apply execute_Ok in E as ->. rewrite set_tables_id in E'.
  apply then_Ok in E' as (x & w2 & E & E'). unfold ret in E'. injection E' as <-. unfold transaction in E.
  destruct (then_ _ _ w) as [[o|] w3] eqn:Et; [|done].
  apply then_Ok in Et as ([] & w4 & E1 & Et). assert (w4 = w /\ not_recent st u new h0 (tables w)) as [-> Hnew].
  { unfold not_recent. destruct (Nat.ltb_spec 0 (password_history_count st)); [|injection E1 as <-; split; [done|lia]].
    unfold check_password_history in E1. apply then_Ok in E1 as (rows & w5 & E1 & E'). unfold select in E1.
    destruct (fault c SelectHistory); [done|]. injection E1 as <- <-. apply then_Ok in E' as (m & w6 & E1 & E').
    unfold lift in E1. injection E1 as E1 <-. destruct m; [done|]. injection E' as <-. split; [done|]. intros _. by apply (any_match_none c new (h0 :: _)). }
  unfold update_password in Et. apply then_Ok in Et as (affected & w5 & E' & Et). apply then_Ok in E' as (n & w6 & E' & E2).
  unfold select in E'. destruct (fault c UpdatePassword); [done|]. injection E' as <- <-. injection E2 as <- <-.
  destruct (accounts (tables w) !! u) as [a|] eqn:Ea; [|done]. cbn [is_some negb] in Et.
  apply then_Ok in Et as ([] & w7 & E' & Et). apply record_history_spec in E' as ->.
  apply then_Ok in Et as ([] & w8 & E' & Et). apply execute_Ok in E' as ->. injection Et as <- <-. injection E as <- <-. split_and!; [by eexists|done|].
  by destruct w as [[] ?].
Qed.

(** The end of the sessions: the local watermark, and the refresh rows where the
    database does not fail. *)
Lemma end_sessions_spec c u w : exists w', end_sessions c u w = (Ok tt, w') /\
  invalidations w' = invalidate_user_tokens c u (invalidations w) /\
  accounts (tables w') = accounts (tables w) /\ password_history (tables w') = password_history (tables w) /\
  pending_jtis (tables w') = pending_jtis (tables w) /\
  (fault c RevokeUserFamilies = None -> forall k r, refresh_jtis (tables w') !! k = Some r -> row_user r = u -> revoked_at r <> None).
Proof.
  unfold end_sessions, best_effort, then_, revoke_all_refresh_token_families, revoke_rows, select.
  eexists. split; [done|]. cbn. destruct (fault c RevokeUserFamilies); cbn; split_and!; try done.
  intros _ k r Hk Hu. eapply revoke_where_lookup in Hk; [exact Hk|]. unfold of_user. by apply bool_decide_true.
Qed.

Lemma change_spec c st salted ext u current new w w' : change_password c st salted ext u current new w = (Ok tt, w') ->
  exists a h0 h1, accounts (tables w) !! u = Some a /\ password_hash a = Some h0 /\ salted new = Ok h1 /\
    validate_password new (password_policy st) = Ok tt /\ may_change ext u current h0 /\ not_recent st u new h0 (tables w) /\
    accounts (tables w') = accounts (written c st u h0 h1 false (tables w)) /\
    password_history (tables w') = password_history (written c st u h0 h1 false (tables w)) /\
    invalidations w' = invalidate_user_tokens c u (invalidations w) /\
    (fault c RevokeUserFamilies = None -> forall k r, refresh_jtis (tables w') !! k = Some r -> row_user r = u -> revoked_at r <> None).
Proof.
  unfold change_password. intros ([] & w1 & E & E')%then_Ok. unfold lift, require_self_or_admin in E.
  destruct (bool_decide (ext_user_id ext = u) || is_admin ext) eqn:Ec; [|done]. injection E as <-.
  apply then_Ok in E' as ([h0 h1] & w1 & E & E'). apply prepare_spec in E as (-> & Hv & Hs & (a & Ea & Eh) & Hm);
    [|apply orb_true_iff in Ec as [?%bool_decide_eq_true|]; auto].
  apply then_Ok in E' as ([] & w2 & E & E'). apply write_spec in E as (_ & Hn & ->).
  destruct (end_sessions_spec c u (set_tables (written c st u h0 h1 false) w)) as (w3 & E & Hi & Ha & Hh & _ & Hr).
  cbn [fst snd] in E'. rewrite E in E'. injection E' as <-. exists a, h0, h1. split_and!; done.
Qed.

(** An older token on any replica that knows nothing newer of the account. *)
Lemma stale_refused c t w claims a T claims' w' :
  jwt_decode (timestamp (utc c)) t = Ok claims -> cached_watermark c (invalidations w) (subject claims) = None ->
  accounts (tables w) !! subject claims = Some a -> (T <= credential_changed_at a)%Z -> (timestamp_millis T <= I64_MAX)%Z ->
  (issued_ms claims < timestamp_millis T - CREDENTIAL_DB_CLOCK_SKEW_TOLERANCE_MS)%Z ->
  validate_access_token_async c t w <> (Ok claims', w').
Proof.
  intros Ht Hc Ha HT Hmax Hold. unfold validate_access_token_async. intros (cl & w1 & E & E')%then_Ok.
  apply decoded in E as [E ->]. rewrite Ht in E. injection E as <-. destruct (negb _); [done|].
  apply then_Ok in E' as ([] & w2 & E & _). unfold reject_if_invalidated_replica_safe in E.
  apply then_Ok in E as (stale & w3 & E & E'). apply replica_safe_spec in E. unfold compared_with in E. rewrite Hc, Ha in E. cbn in E.
  destruct stale; [done|]. symmetry in E. apply orb_false_iff in E as [_ E]. apply Z.ltb_ge in E.
  assert (timestamp_millis T <= timestamp_millis (credential_changed_at a))%Z by (by apply Z.div_le_mono).
  unfold apply_db_clock_skew_tolerance, saturating_sub_i64, saturate_i64, CREDENTIAL_DB_CLOCK_SKEW_TOLERANCE_MS in *. lia.
Qed.

(** A transaction files a hash: it is a row of the new history when the clock has
    passed the rows before it. *)
Definition files (c : Call) (st : PasswordSettings) (u : Uuid) (hash : string) (hist hist' : list HistoryRow) : Prop :=
  let n := password_history_count st in
  let row := {| history_user := u; history_hash := hash; recorded_at := db_now c |} in
  (n = 0 -> hist' = hist) /\
  (0 < n -> of_history u hist' = reverse (newest u n (hist ++ [row])%list) /\
     ((forall r, r ∈ of_history u hist -> (recorded_at r < db_now c)%Z) -> row ∈ of_history u hist')) /\
  forall v, v <> u -> of_history v hist' = of_history v hist.

Lemma sort_newest_head l row : (forall r, r ∈ l -> (recorded_at r < recorded_at row)%Z) ->
  exists k, sort_by newest_first (l ++ [row])%list = row :: k.
Proof.
  intros Hold. pose proof (sort_by_perm newest_first (l ++ [row])%list) as Hp.
  pose proof (sort_by_sorted newest_first (l ++ [row])%list) as Hs. destruct (sort_by _ _) as [|y k].
  { apply Permutation_nil_l in Hp. by destruct l. }
  exists k. f_equal. assert (y ∈ (l ++ [row])%list) as [Hy| ->%list_elem_of_singleton]%elem_of_app by (rewrite <- Hp; left); [|done].
  assert (row ∈ y :: k) as [ ->|Hrow]%elem_of_cons by (rewrite Hp; apply elem_of_app; right; left); [done|].
  destruct Hs as [Hs _]. specialize (Hs _ Hrow). unfold newest_first in Hs. specialize (Hold _ Hy).
  exfalso. apply Hs. by apply Z.compare_gt_iff.
Qed.

Lemma written_files c st u h0 h1 b db :
  files c st u h0 (password_history db) (password_history (written c st u h0 h1 b db)).
Proof.
  unfold written, files. cbn [password_history]. set (row := {| history_user := u |}).
  destruct (Nat.ltb_spec 0 (password_history_count st)) as [Hn|Hn]; split_and!; try lia; try done.
  - intros _. rewrite history_prune. split; [done|]. intros Hold. rewrite elem_of_reverse. unfold newest.
    assert (of_history u (password_history db ++ [row])%list = of_history u (password_history db) ++ [row])%list as ->
      by (unfold of_history; by rewrite filter_app, filter_cons_True).
    destruct (sort_newest_head (of_history u (password_history db)) row Hold) as [k ->].
    destruct (password_history_count st); [lia|]. left.
  - intros v Hv. unfold prune_history, of_history. rewrite filter_app, list_filter_filter.
    assert (base.filter (fun r => history_user r = v) (reverse (newest u (password_history_count st) (password_history db ++ [row])%list)) = []) as ->.
    { apply filter_none. intros r Hr. rewrite elem_of_reverse in Hr. unfold newest in Hr. apply subseteq_take in Hr.
      rewrite sort_by_perm in Hr. apply list_elem_of_filter in Hr as [-> _]. congruence. }
    rewrite app_nil_r, !filter_app, (filter_cons_False _ row) by (cbn; naive_solver). rewrite filter_nil, app_nil_r.
    apply list_filter_iff. naive_solver congruence.
Qed.

(** C18. A changed password takes effect everywhere.  A change succeeds only
    for the account's owner who shows the current password or for an
    administrator, with a password the policy accepts and the history does not
    hold; it stores the new hash, clears the demand for a change, and files the
    old hash: the history of the account is then its newest rows with the
    replaced hash among them, that of every other account is what it was, and
    with a history of zero nothing is filed.  Afterwards every refresh token of
    the account is revoked, unless that statement itself failed, and an access
    token issued more than the clock-skew tolerance before the change is refused by every replica that
    reads the database - and not only by the one that served the request. *)
Theorem changed_password_takes_effect c st salted ext u current new w w' :
  change_password c st salted ext u current new w = (Ok tt, w') ->
  exists a h0 h1, accounts (tables w) !! u = Some a /\ password_hash a = Some h0 /\ salted new = Ok h1 /\
    validate_password new (password_policy st) = Ok tt /\ may_change ext u current h0 /\ not_recent st u new h0 (tables w) /\
    accounts (tables w') = <[u := set_password h1 false (db_now c) a]> (accounts (tables w)) /\
    files c st u h0 (password_history (tables w)) (password_history (tables w')) /\
    (fault c RevokeUserFamilies = None -> forall k r, refresh_jtis (tables w') !! k = Some r -> row_user r = u -> revoked_at r <> None) /\
    forall c2 t w2 claims claims' w3, tables w2 = tables w' -> cached_watermark c2 (invalidations w2) u = None ->
      jwt_decode (timestamp (utc c2)) t = Ok claims -> subject claims = u -> (timestamp_millis (db_now c) <= I64_MAX)%Z ->
      (issued_ms claims < timestamp_millis (db_now c) - CREDENTIAL_DB_CLOCK_SKEW_TOLERANCE_MS)%Z ->
      validate_access_token_async c2 t w2 <> (Ok claims', w3).
Proof.
  intros Hch. destruct (change_spec _ _ _ _ _ _ _ _ _ Hch) as (a & h0 & h1 & Ea & Eh & Hs & Hv & Hm & Hn & Ha & Hh & _ & Hr).
  assert (accounts (tables w') = <[u := set_password h1 false (db_now c) a]> (accounts (tables w))) as Hacc.
  { rewrite Ha. cbn. apply map_eq. intros v. rewrite lookup_alter, lookup_insert. destruct (decide (u = v)) as [<-|]; [by rewrite Ea|done]. }
  exists a, h0, h1. split_and!; try done; [rewrite Hh; apply written_files|]. intros c2 t w2 claims claims' w3 Hw Hc Ht Hu Hmax Hold.
  eapply (stale_refused _ _ _ _ (set_password h1 false (db_now c) a) (db_now c)); try done.
  - by rewrite Hu.
  - rewrite Hw, Hacc, Hu. apply lookup_insert_eq.
  - unfold credential_changed_at. cbn. lia.
Qed.

(** * Runs of changes and resets *)

Section Run.
Context (st : PasswordSettings) (salted : string -> result string string) (u : Uuid).

(** [password_run w t l]: the passwords on record for the account are those of
    [l], the one in force first and then, newest first, those that were filed;
    the last transaction was at [t], and the tables are now [w]'s.  A change or
    a reset puts the new password in front.  A transaction whose old hash was
    read before another one committed files that older password [q] instead of
    the one it replaces, which is on record no longer; a write that replaces the
    hash and files nothing, as the regeneration of the built-in
    administrator's password at a start of the server does, forgets the
    password it replaces.  Between these anything may happen that leaves the
    hash and the history of this account alone. *)
Inductive password_run : World -> DateTime -> list string -> Prop :=
| run_start w t k : keeps_history u t (password_history (tables w)) k -> password_run w t []
| run_other w w' t l :
    password_run w t l -> (password_hash <$> accounts (tables w') !! u) = (password_hash <$> accounts (tables w) !! u) ->
    of_history u (password_history (tables w')) = of_history u (password_history (tables w)) -> password_run w' t l
| run_change c ext current new w w' t l :
    password_run w t l -> (t < db_now c)%Z -> change_password c st salted ext u current new w = (Ok tt, w') ->
    password_run w' (db_now c) (new :: l)
| run_reset c draws ext temp w w' t l :
    password_run w t l -> (t < db_now c)%Z -> reset_password c st salted draws ext u w = (Ok temp, w') ->
    password_run w' (db_now c) (temp :: l)
| run_late_change c new q old_hash new_hash w w' t l :
    password_run w t l -> (t < db_now c)%Z -> bcrypt_verify q old_hash = Ok true -> salted new = Ok new_hash ->
    write_change c st u new old_hash new_hash w = (Ok tt, w') -> password_run w' (db_now c) (new :: q :: tail l)
| run_late_reset c temp q old_hash new_hash w w' t l a :
    password_run w t l -> (t < db_now c)%Z -> bcrypt_verify q old_hash = Ok true -> salted temp = Ok new_hash ->
    accounts (tables w) !! u = Some a ->
    write_reset c st u old_hash new_hash w = (Ok tt, w') -> password_run w' (db_now c) (temp :: q :: tail l)
| run_overwritten p w w' t l a h :
    password_run w t l -> accounts (tables w') !! u = Some a -> password_hash a = Some h -> bcrypt_verify p h = Ok true ->
    of_history u (password_history (tables w')) = of_history u (password_history (tables w)) ->
    password_run w' t (p :: tail l).

(** The hash of the account verifies the last password, and the rows of the
    history the ones before, as far back as the history goes. *)
Definition remembers (w : World) (t : DateTime) (l : list string) : Prop :=
  (forall p, head l = Some p -> exists a h, accounts (tables w) !! u = Some a /\ password_hash a = Some h /\ bcrypt_verify p h = Ok true) /\
  exists k, keeps_history u t (password_history (tables w)) k /\
    forall i p, i < password_history_count st -> l !! S i = Some p ->
      exists r, k !! i = Some r /\ bcrypt_verify p (history_hash r) = Ok true.

(** A transaction that replaces a hash of the password [q], where [q] is the one
    in force or a filed one. *)
Lemma remembers_written c w t l l' new a h0 h1 :
  0 < password_history_count st -> remembers w t l -> (t < db_now c)%Z ->
  accounts (tables w) !! u = Some a -> bcrypt_verify new h1 = Ok true ->
  (forall q, head l' = Some q -> bcrypt_verify q h0 = Ok true) -> tail l' = tail l ->
  forall w' b, accounts (tables w') = accounts (written c st u h0 h1 b (tables w)) ->
    password_history (tables w') = password_history (written c st u h0 h1 b (tables w)) -> remembers w' (db_now c) (new :: l').
Proof.
  intros Hn (Hhead & k & Hk & Hl) Ht Ea Hnew Hq Htl w' b Ha Hh. split.
  - intros p [= <-]. exists (set_password h1 b (db_now c) a), h1. rewrite Ha. cbn. by rewrite lookup_alter_eq, Ea.
  - set (row := {| history_user := u; history_hash := h0; recorded_at := db_now c |}). exists (take (password_history_count st) (row :: k)).
    split. { rewrite Hh. unfold written. cbn [password_history]. destruct (Nat.ltb_spec 0 (password_history_count st)); [|lia]. apply prune_keeps. by eapply record_keeps. }
    intros i p Hi Hp. rewrite lookup_take, decide_True by done. destruct i as [|i]; cbn in *.
    + exists row. split; [done|]. apply Hq. by destruct l'.
    + apply Hl; [lia|]. rewrite <- lookup_tail, <- Htl, lookup_tail. exact Hp.
Qed.

Lemma write_reset_spec c h0 h1 w w' : write_reset c st u h0 h1 w = (Ok tt, w') -> w' = set_tables (written c st u h0 h1 true) w.
Proof.
  unfold write_reset. intros ([] & w2 & E1 & E')%then_Ok. apply execute_Ok in E1 as ->. rewrite set_tables_id in E'.
  apply then_Ok in E' as (x & w2 & E1 & E'). unfold ret in E'. injection E' as <-.
  unfold transaction in E1. destruct (then_ _ _ w) as [[o|] w3] eqn:Et; [|done].
  unfold update_password in Et. apply then_Ok in Et as (affected & w5 & E2 & Et). apply then_Ok in E2 as (n & w6 & E2 & E3).
  unfold select in E2. destruct (fault c UpdatePassword); [done|]. injection E2 as <- <-. injection E3 as <- <-.
  apply then_Ok in Et as ([] & w7 & E2 & Et). apply record_history_spec in E2 as ->.
  apply then_Ok in Et as ([] & w8 & E2 & Et). apply execute_Ok in E2 as ->. injection Et as <- <-. injection E1 as <- <-.
  by destruct w as [[] ?].
Qed.

Lemma reset_spec c draws ext w temp w' : reset_password c st salted draws ext u w = (Ok temp, w') ->
  exists a h0 h1, accounts (tables w) !! u = Some a /\ password_hash a = Some h0 /\ salted temp = Ok h1 /\
    accounts (tables w') = accounts (written c st u h0 h1 true (tables w)) /\
    password_history (tables w') = password_history (written c st u h0 h1 true (tables w)).
Proof.
  unfold reset_password. destruct (negb (is_admin ext)); [done|]. destruct (bool_decide _); [done|].
  intros (row & w1 & E & E')%then_Ok. unfold select in E. destruct (fault c SelectPassword); [done|]. injection E as <- <-.
  destruct (accounts (tables w) !! u) as [a|] eqn:Ea; [|done]. destruct (password_hash a) as [h0|] eqn:Eh; [|done].
  apply then_Ok in E' as (h1 & w2 & E & E'). unfold lift in E. injection E as E <-. apply hash_password_Ok in E as Hs.
  apply then_Ok in E' as ([] & w2 & E1 & E'). apply write_reset_spec in E1 as ->.
  apply then_Ok in E' as ([] & w9 & E2 & E'). injection E' as <- <-.
  match type of E2 with _ ?w0 = _ => destruct (end_sessions_spec c u w0) as (w10 & E3 & _ & Ha & Hh & _ & _) end.
  rewrite E2 in E3. injection E3 as <-. exists a, h0, h1. rewrite Ha, Hh. done.
Qed.

Context (history_on : 0 < password_history_count st).
Context (salted_verifies : forall p h, salted p = Ok h -> bcrypt_verify p h = Ok true).

Lemma in_force w t l a h : remembers w t l -> accounts (tables w) !! u = Some a -> password_hash a = Some h ->
  forall q, head l = Some q -> bcrypt_verify q h = Ok true.
Proof. intros [Hhead _] Ea Eh q Hq. destruct (Hhead q Hq) as (a' & h' & Ea' & Eh' & Hv). congruence. Qed.

Lemma run_remembers w t l : password_run w t l -> remembers w t l.
Proof.
  induction 1 as [w t k Hk|w w' t l Hr [Hhead (k & Hk & Hl)] Ha Hh|c ext current new w w' t l Hr IH Ht Hch
    |c draws ext temp w w' t l Hr IH Ht Hre|c new q h0 h1 w w' t l Hr IH Ht Hq Hs Hw|c temp q h0 h1 w w' t l a Hr IH Ht Hq Hs Ea Hw
    |p w w' t l a h Hr [Hhead (k & Hk & Hl)] Ea Eh Hp Hh].
  - split; [done|]. by exists k.
  - split.
    + intros p Hp. destruct (Hhead p Hp) as (a & h & Ea & Eh & Hv). rewrite Ea in Ha. cbn in Ha. rewrite Eh in Ha.
      apply fmap_Some in Ha as (a' & Ea' & Eh'). by exists a', h.
    + exists k. split; [|done]. unfold keeps_history. by rewrite Hh.
  - destruct (change_spec _ _ _ _ _ _ _ _ _ Hch) as (a & h0 & h1 & Ea & Eh & Hs & _ & _ & _ & Ha & Hh & _).
    eapply (remembers_written c w t l l _ a h0 h1); eauto. exact (in_force w t l a h0 IH Ea Eh).
  - destruct (reset_spec _ _ _ _ _ _ Hre) as (a & h0 & h1 & Ea & Eh & Hs & Ha & Hh).
    eapply (remembers_written c w t l l _ a h0 h1); eauto. exact (in_force w t l a h0 IH Ea Eh).
  - apply write_spec in Hw as ([a Ea] & _ & ->).
    eapply (remembers_written c w t l (q :: tail l)); eauto. by intros ? [= <-].
  - apply write_reset_spec in Hw as ->. eapply (remembers_written c w t l (q :: tail l)); eauto. by intros ? [= <-].
  - split; [intros p' [= <-]; eauto|]. exists k. split; [unfold keeps_history; by rewrite Hh|].
    intros i p' Hi Hp'. apply Hl; [done|]. cbn in Hp'. by destruct l.
Qed.

End Run.

End Facts.

(** * Witnesses *)

#[global] Instance plain_passwords : PasswordCrate := {| zxcvbn_score _ := 4%Z; str_to_lowercase := to_ascii_lowercase |}.

Definition two_back : PasswordSettings := {| password_policy := default_password_policy; password_history_count := 2 |}.

(** Alice changes her own password [s] seconds after noon. *)
Definition alice_changes (s : Z) (current new : string) (w : World) : result AppError unit * World :=
  change_password (call_at s 0%N 0%N) two_back marked_salt (caller 1%N false) 1%N (Some current) new w.

Definition changed_once : World := snd (alice_changes 10 "secret" "one-fine-pass" one_world).
Definition changed_twice : World := snd (alice_changes 20 "one-fine-pass" "two-fine-pass" changed_once).

Example changes_in_a_row :
  fst (alice_changes 30 "two-fine-pass" "one-fine-pass" changed_twice) =
    Err (Validation "Password was used recently. Please choose a different password.") /\
  fst (alice_changes 30 "two-fine-pass" "pass" changed_twice) = Err (Validation "Password must be at least 8 characters") /\
  fst (alice_changes 30 "one-fine-pass" "three-fine-pass" changed_twice) = Err (Authentication "Current password is incorrect") /\
  fst (alice_changes 30 "two-fine-pass" "three-fine-pass" changed_twice) = Ok tt.
Proof. vm_compute. done. Qed.

Lemma changed_password_takes_effect_witness : exists a,
  accounts (tables changed_once) = <[1%N := set_password "$2b$one-fine-pass" false (db_now (call_at 10 0%N 0%N)) a]> (accounts (tables one_world)) /\
  {| history_user := 1%N; history_hash := "$2b$secret"; recorded_at := db_now (call_at 10 0%N 0%N) |}
    ∈ of_history 1%N (password_history (tables changed_once)) /\
  forall w', validate_access_token_async (call_at 40 0%N 0%N) (noon_token alice) (on_another_replica changed_once) <> (Ok (noon_token alice), w').
Proof.
  destruct (changed_password_takes_effect (call_at 10 0%N 0%N) two_back marked_salt (caller 1%N false) 1%N (Some "secret") "one-fine-pass"
    one_world changed_once) as (a & h0 & h1 & Ea & Eh & Hs & _ & _ & _ & Ha & (_ & Hfiled & _) & _ & Hold);
    [vm_compute; reflexivity|].
  exists a. split; [injection Hs as <-; exact Ha|]. split.
  { injection Ea as <-. injection Eh as <-. apply (Hfiled ltac:(cbn; lia)). by intros r ?%elem_of_nil. }
  intros w'.
  apply (Hold (call_at 40 0%N 0%N) (noon_token alice) (on_another_replica changed_once) (noon_token alice));
    [done..|vm_compute; congruence|vm_compute; reflexivity].
Defined.

Lemma salt_verifies p h : marked_salt p = Ok h -> bcrypt_verify p h = Ok true.
Proof. intros [= <-]. apply marked_verifies. Qed.

Lemma once_run : password_run two_back marked_salt 1%N changed_once (db_now (call_at 10 0%N 0%N)) ["one-fine-pass"].
Proof.
  apply (run_change _ _ _ (call_at 10 0%N 0%N) (caller 1%N false) (Some "secret") _ one_world _ noon); [|done|vm_compute; reflexivity].
  apply (run_start _ _ _ _ _ []). by split_and!; constructor.
Qed.

Lemma twice_run : password_run two_back marked_salt 1%N changed_twice (db_now (call_at 20 0%N 0%N)) ["two-fine-pass"; "one-fine-pass"].
Proof.
  apply (run_change _ _ _ (call_at 20 0%N 0%N) (caller 1%N false) (Some "one-fine-pass") _ changed_once _ (db_now (call_at 10 0%N 0%N)));
    [apply once_run|done|vm_compute; reflexivity].
Qed.


(** Two changes at once read the same current hash, before either writes: the
    history files that hash twice, and the password of the one that committed
    first is in force for a moment and free to be chosen again. *)
Example crossing_changes_lose_a_password :
  let prepared s new := prepare_change (call_at s 0%N 0%N) two_back marked_salt (caller 1%N false) 1%N (Some "secret") new one_world in
  let write s new w := match fst (prepared s new) with
                       | Ok hashes => write_change (call_at s 0%N 0%N) two_back 1%N new (fst hashes) (snd hashes) w
                       | Err e => (Err e, w)
                       end in
  let first := write 10%Z "one-fine-pass" one_world in
  let second := write 11%Z "two-fine-pass" (snd first) in
  fst first = Ok tt /\ fst second = Ok tt /\
  (history_hash <$> password_history (tables (snd second))) = ["$2b$secret"; "$2b$secret"] /\
  fst (alice_changes 30 "two-fine-pass" "one-fine-pass" (snd second)) = Ok tt.
Proof. vm_compute. done. Qed.

Example forced_change_is_not_seen_elsewhere :
  let forced := force_password_change (call_at 10 0%N 0%N) (caller 2%N true) 1%N one_world in
  let check s w := fst (validate_access_token_async (call_at s 0%N 0%N) (noon_token alice) w) in
  fst forced = Ok tt /\ check 12%Z (snd forced) = Err INVALIDATED /\ check 17%Z (snd forced) = Ok (noon_token alice) /\
  check 12%Z (on_another_replica (snd forced)) = Ok (noon_token alice).
Proof. vm_compute. done. Qed.
