(* ===== verification/Leases.v ===== *)
(** Leases of singleton jobs ([services/cluster_work.rs], the table of
    migration 147): every replica runs the same periodic jobs, and the replica
    that holds the job's row runs the tick.

    A row is claimed by one upsert, renewed and released by the random token of
    the claim.  [NOW()] is the start of the statement's transaction, so a
    statement that waited for the row's lock may bring an older time than the
    one before it; the runs below allow that. *)

From stdpp Require Import base list strings gmap relations pretty.
From Stdlib Require Import ZArith Lia.
From S2P Require Import Prelude RustStr RustNum Errors Chrono.

Local Open Scope string_scope.

(** * Rows and claims *)

(** A row of [scheduler_leases], under its [job_name]. *)
Record LeaseRow := { owner_id : string; row_token : Uuid; row_expiry : DateTime; row_updated : DateTime }.

Notation LeaseTable := (gmap string LeaseRow).

(** [SchedulerLease]. *)
Record SchedulerLease := { job_name : string; claim_token : Uuid; lease_expires_at : DateTime }.

(** [NOW() + make_interval(secs => ttl)]; the callers' TTLs are constants of
    whole seconds. *)
Definition ttl_from (now : DateTime) (ttl_secs : Z) : DateTime := (now + ttl_secs * NANOS_PER_SEC)%Z.

Section Identity.
Context `{UuidCrate}.

(** [WorkerIdentity::compose]. *)
Definition compose (host : option string) (pid : Z) (boot : Uuid) : string :=
  let host := match host with Some h => if is_empty h then "unknown-host" else h | None => "unknown-host" end in
  host +:+ ":" +:+ pretty pid +:+ ":" +:+ uuid_display boot.
End Identity.

(** * Statements

    A statement that fails says why, and writes nothing. *)

Definition try_acquire_scheduler_lease (fault : option string) (now : DateTime) (token : Uuid)
  (job owner : string) (ttl_secs : Z) (db : LeaseTable) : result AppError (option SchedulerLease) * LeaseTable :=
  match fault with
  | Some e => (Err (Database e), db)
  | None =>
      let until := ttl_from now ttl_secs in
      let row := {| owner_id := owner; row_token := token; row_expiry := until; row_updated := now |} in
      let won := Some {| job_name := job; claim_token := token; lease_expires_at := until |} in
      match db !! job with
      | None => (Ok won, <[job := row]> db)
      | Some held =>
          if (row_expiry held <=? now)%Z || String.eqb (owner_id held) owner
          then (Ok won, <[job := row]> db)
          else (Ok None, db)
      end
  end.

(** An infrastructure error is logged and skips the tick. *)
Definition try_acquire_scheduler_lease_quiet (fault : option string) (now : DateTime) (token : Uuid)
  (job identity : string) (ttl_secs : Z) (db : LeaseTable) : option SchedulerLease * LeaseTable :=
  match try_acquire_scheduler_lease fault now token job identity ttl_secs db with
  | (Ok lease, db) => (lease, db)
  | (Err _, db) => (None, db)
  end.

Definition renew_scheduler_lease_by_token (fault : option string) (now : DateTime) (job : string) (token : Uuid)
  (ttl_secs : Z) (db : LeaseTable) : result AppError (option DateTime) * LeaseTable :=
  match fault with
  | Some e => (Err (Database e), db)
  | None =>
      match db !! job with
      | Some row =>
          if decide (row_token row = token) then
            let until := ttl_from now ttl_secs in
            (Ok (Some until), <[job := {| owner_id := owner_id row; row_token := token; row_expiry := until; row_updated := now |}]> db)
          else (Ok None, db)
      | None => (Ok None, db)
      end
  end.

(** [SchedulerLease::renew]: whether the lease is still held, and the lease. *)
Definition renew (fault : option string) (now : DateTime) (ttl_secs : Z) (l : SchedulerLease) (db : LeaseTable)
  : result AppError bool * SchedulerLease * LeaseTable :=
  match renew_scheduler_lease_by_token fault now (job_name l) (claim_token l) ttl_secs db with
  | (Err e, db) => (Err e, l, db)
  | (Ok (Some expires), db) =>
      (Ok true, {| job_name := job_name l; claim_token := claim_token l; lease_expires_at := expires |}, db)
  | (Ok None, db) => (Ok false, l, db)
  end.

(** [SchedulerLease::release]; an error is logged. *)
Definition release (fault : option string) (now : DateTime) (l : SchedulerLease) (db : LeaseTable) : LeaseTable :=
  match fault with
  | Some _ => db
  | None =>
      match db !! job_name l with
      | Some row =>
          if decide (row_token row = claim_token l) then
            <[job_name l := {| owner_id := owner_id row; row_token := row_token row; row_expiry := now; row_updated := now |}]> db
          else db
      | None => db
      end
  end.

(** The closure [spawn_renewal_with_cancellation] renews with. *)
Definition heartbeat (fault : option string) (now : DateTime) (ttl_secs : Z) (l : SchedulerLease) (db : LeaseTable)
  : result string bool * LeaseTable :=
  match renew_scheduler_lease_by_token fault now (job_name l) (claim_token l) ttl_secs db with
  | (Ok expires, db) => (Ok (bool_decide (is_Some expires)), db)
  | (Err e, db) => (Err (error_text e), db)
  end.

(** The loop of [spawn_renewal_loop_with_cancellation] over the answers its
    renewals get: how many it made, and whether it cancelled the token. *)
Fixpoint renewal_loop (answers : list (result string bool)) : nat * bool :=
  match answers with
  | [] => (0%nat, false)
  | Ok true :: rest => let '(n, lost) := renewal_loop rest in (S n, lost)
  | Ok false :: _ => (1%nat, true)
  | Err _ :: rest => let '(n, lost) := renewal_loop rest in (S n, lost)
  end.

Example renewal_loop_1 : renewal_loop [Ok true; Err "down"; Ok true; Ok false; Ok true] = (4%nat, true).
Proof. done. Qed.

(** * What the statements do *)

Lemma acquire_spec fault now token job owner ttl db r db' :
  try_acquire_scheduler_lease fault now token job owner ttl db = (Ok (Some r), db') ->
  r = {| job_name := job; claim_token := token; lease_expires_at := ttl_from now ttl |} /\
  db' = <[job := {| owner_id := owner; row_token := token; row_expiry := ttl_from now ttl; row_updated := now |}]> db /\
  (forall row, db !! job = Some row -> (row_expiry row <= now)%Z \/ owner_id row = owner).
Proof.
  unfold try_acquire_scheduler_lease. destruct fault; [done|]. destruct (db !! job) as [held|].
  - destruct (_ || _) eqn:E; intros [= <- <-]. split_and!; [done..|]. intros ? [= <-].
    apply orb_true_iff in E as [?%Z.leb_le|?%String.eqb_eq]; tauto.
  - intros [= <- <-]. by split_and!.
Qed.

Lemma acquire_refused fault now token job owner ttl db db' :
  try_acquire_scheduler_lease fault now token job owner ttl db = (Ok None, db') ->
  db' = db /\ exists row, db !! job = Some row /\ (now < row_expiry row)%Z /\ owner_id row <> owner.
Proof.
  unfold try_acquire_scheduler_lease. destruct fault; [done|]. destruct (db !! job) as [held|]; [|done].
  destruct (_ || _) eqn:E; [done|]. intros [= <-]. apply orb_false_iff in E as [?%Z.leb_gt ?%String.eqb_neq].
  split; [done|]. eauto.
Qed.

Lemma renew_by_token_spec fault now job token ttl db r db' :
  renew_scheduler_lease_by_token fault now job token ttl db = (r, db') ->
  (exists row, fault = None /\ r = Ok (Some (ttl_from now ttl)) /\ db !! job = Some row /\ row_token row = token /\
     db' = <[job := {| owner_id := owner_id row; row_token := token; row_expiry := ttl_from now ttl; row_updated := now |}]> db) \/
  (db' = db /\ (r = Ok None /\ (forall row, db !! job = Some row -> row_token row <> token) \/ exists e, r = Err (Database e))).
Proof.
  unfold renew_scheduler_lease_by_token. destruct fault; [intros [= <- <-]; eauto|].
  destruct (db !! job) as [row|]; [destruct (decide _)|]; intros [= <- <-]; [left; eauto 6|right; split; [done|]; left; naive_solver..].
Qed.

Lemma release_spec fault now l db :
  release fault now l db = db \/
  exists row, db !! job_name l = Some row /\ row_token row = claim_token l /\
    release fault now l db = <[job_name l := {| owner_id := owner_id row; row_token := row_token row; row_expiry := now; row_updated := now |}]> db.
Proof.
  unfold release. destruct fault; [by left|]. destruct (db !! job_name l) as [row|]; [|by left].
  destruct (decide _); [right|by left]. eauto.
Qed.

(** * Replicas

    A handle is a [SchedulerLease] some process holds, with the owner it claimed
    as, the TTL its calls use and the time of its last successful write. *)

Record Holding := { lease_of : SchedulerLease; held_as : string; held_ttl : Z; held_since : DateTime }.

(** [tokens] is what [gen_random_uuid] has drawn. *)
Record Cluster := { leases : LeaseTable; holdings : gmap nat Holding; tokens : gset Uuid; clock : DateTime }.

Definition holding_writes (expires : option DateTime) (at_ : DateTime) (h : Holding) : Holding :=
  {| lease_of := match expires with
                 | Some t => {| job_name := job_name (lease_of h); claim_token := claim_token (lease_of h); lease_expires_at := t |}
                 | None => lease_of h
                 end;
     held_as := held_as h; held_ttl := held_ttl h; held_since := at_ |}.

Section Runs.
(** No caller asks for more than [max_ttl] seconds. *)
Context (max_ttl : Z) (Hmax_ttl : (0 <= max_ttl)%Z).

Inductive cluster_step (s : Cluster) : Cluster -> Prop :=
| lease_tick t : (clock s <= t)%Z ->
    cluster_step s {| leases := leases s; holdings := holdings s; tokens := tokens s; clock := t |}
(** A tick of a job's loop: a process runs one loop per job, so it has no
    handle on the job; a refused claim writes nothing. *)
| lease_acquire n owner job ttl token at_ l db :
    (at_ <= clock s)%Z -> (ttl <= max_ttl)%Z -> token ∉ tokens s -> holdings s !! n = None ->
    (forall m h, holdings s !! m = Some h -> held_as h = owner -> job_name (lease_of h) <> job) ->
    try_acquire_scheduler_lease None at_ token job owner ttl (leases s) = (Ok (Some l), db) ->
    cluster_step s {| leases := db;
      holdings := <[n := {| lease_of := l; held_as := owner; held_ttl := ttl; held_since := at_ |}]> (holdings s);
      tokens := {[token]} ∪ tokens s; clock := clock s |}
(** The heartbeat of a handle, which does not tell the handle the new expiry;
    and [renew], which does. *)
| lease_heartbeat n h at_ t db told :
    holdings s !! n = Some h -> (held_since h <= at_ <= clock s)%Z ->
    renew_scheduler_lease_by_token None at_ (job_name (lease_of h)) (claim_token (lease_of h)) (held_ttl h) (leases s) = (Ok (Some t), db) ->
    cluster_step s {| leases := db;
      holdings := <[n := holding_writes (if told : bool then Some t else None) at_ h]> (holdings s);
      tokens := tokens s; clock := clock s |}
(** A tick ends: released, or dropped with the process, the lease lapsing or
    found lost. *)
| lease_release n h at_ :
    holdings s !! n = Some h -> (held_since h <= at_ <= clock s)%Z ->
    cluster_step s {| leases := release None at_ (lease_of h) (leases s); holdings := delete n (holdings s);
      tokens := tokens s; clock := clock s |}
| lease_drop n :
    cluster_step s {| leases := leases s; holdings := delete n (holdings s); tokens := tokens s; clock := clock s |}
(** A heartbeat that was on its way when its handle ended. *)
| lease_late job token ttl at_ r db :
    (at_ <= clock s)%Z -> (ttl <= max_ttl)%Z -> token ∈ tokens s ->
    (forall m h, holdings s !! m = Some h -> claim_token (lease_of h) <> token) ->
    renew_scheduler_lease_by_token None at_ job token ttl (leases s) = (r, db) ->
    cluster_step s {| leases := db; holdings := holdings s; tokens := tokens s; clock := clock s |}.

Definition no_leases (s : Cluster) : Prop := leases s = ∅ /\ holdings s = ∅ /\ tokens s = ∅.
Definition lease_reachable (s : Cluster) : Prop := exists s0, no_leases s0 /\ rtc cluster_step s0 s.

(** * The invariant *)

(** The row is the handle's, or the handle's lease has lapsed. *)
Definition owns_row (db : LeaseTable) (h : Holding) (now : DateTime) : Prop :=
  (exists row, db !! job_name (lease_of h) = Some row /\ row_token row = claim_token (lease_of h) /\
     (lease_expires_at (lease_of h) <= row_expiry row)%Z) \/
  (lease_expires_at (lease_of h) <= now)%Z.

(** A row with the handle's token carries the handle's owner. *)
Definition owner_matches (db : LeaseTable) (h : Holding) : Prop :=
  forall row, db !! job_name (lease_of h) = Some row -> row_token row = claim_token (lease_of h) -> owner_id row = held_as h.

Record LeaseInv (s : Cluster) : Prop := {
  li_owns : forall n h, holdings s !! n = Some h -> owns_row (leases s) h (clock s);
  li_owner : forall n h, holdings s !! n = Some h -> owner_matches (leases s) h;
  li_ttl : forall n h, holdings s !! n = Some h -> (held_ttl h <= max_ttl)%Z /\ (held_since h <= clock s)%Z /\
    (lease_expires_at (lease_of h) <= ttl_from (held_since h) (held_ttl h))%Z;
  li_seen : forall n h, holdings s !! n = Some h -> claim_token (lease_of h) ∈ tokens s;
  li_rows : forall job row, leases s !! job = Some row -> row_token row ∈ tokens s;
  li_distinct : forall n m h h', holdings s !! n = Some h -> holdings s !! m = Some h' ->
    claim_token (lease_of h) = claim_token (lease_of h') -> n = m;
  li_bound : forall job row, leases s !! job = Some row -> (row_expiry row <= ttl_from (clock s) max_ttl)%Z
}.

Lemma ttl_from_mono t t' ttl ttl' : (t <= t')%Z -> (ttl <= ttl')%Z -> (ttl_from t ttl <= ttl_from t' ttl')%Z.
Proof. unfold ttl_from, NANOS_PER_SEC. lia. Qed.

(** A write to a job's row, seen by a handle: the row stays the handle's, or
    was not the handle's, or the handle has lapsed. *)
Lemma owns_row_frame db job row h now : owns_row db h now ->
  (job_name (lease_of h) = job -> forall old, db !! job = Some old -> row_token old = claim_token (lease_of h) ->
     (lease_expires_at (lease_of h) <= row_expiry old)%Z ->
     (row_token row = claim_token (lease_of h) /\ (lease_expires_at (lease_of h) <= row_expiry row)%Z) \/
     (lease_expires_at (lease_of h) <= now)%Z) ->
  owns_row (<[job := row]> db) h now.
Proof.
  intros [(old & Hold & Ht & He)|Hl] Hframe; [|by right].
  destruct (decide (job = job_name (lease_of h))) as [->|Hne].
  - destruct (Hframe eq_refl old Hold Ht He) as [(?&?)|]; [left|by right]. exists row. rewrite lookup_insert_eq. by split_and!.
  - left. exists old. rewrite lookup_insert_ne by done. by split_and!.
Qed.

Lemma owner_frame db job row h : owner_matches db h ->
  (job_name (lease_of h) = job -> row_token row = claim_token (lease_of h) -> owner_id row = held_as h) ->
  owner_matches (<[job := row]> db) h.
Proof. intros Hm Hf r [[E <-]|[Hne Hr]]%lookup_insert_Some Ht; [by apply Hf|by apply Hm]. Qed.

Lemma acquire_inv s n owner job ttl token at_ l db : LeaseInv s ->
  (at_ <= clock s)%Z -> (ttl <= max_ttl)%Z -> token ∉ tokens s -> holdings s !! n = None ->
  (forall m h, holdings s !! m = Some h -> held_as h = owner -> job_name (lease_of h) <> job) ->
  try_acquire_scheduler_lease None at_ token job owner ttl (leases s) = (Ok (Some l), db) ->
  LeaseInv {| leases := db;
    holdings := <[n := {| lease_of := l; held_as := owner; held_ttl := ttl; held_since := at_ |}]> (holdings s);
    tokens := {[token]} ∪ tokens s; clock := clock s |}.
Proof.
  intros [Ho Hw Ht Hs Hr Hd Hb] Hat Httl Hfresh Hn Hone (-> & -> & Hfree)%acquire_spec.
  constructor; cbn [leases holdings tokens clock].
  - intros m h [[<- <-]|[Hne Hm]]%lookup_insert_Some.
    + left. eexists. rewrite lookup_insert_eq. split_and!; [done..|]. cbn. lia.
    + apply owns_row_frame; [by eapply Ho|]. intros Hj old Hold Htok He. right.
      destruct (Hfree old Hold) as [?|<-]; [lia|]. exfalso. apply (Hone m h Hm); [|done]. symmetry. rewrite <- Hj in Hold. by apply (Hw m h Hm old).
  - intros m h [[<- <-]|[Hne Hm]]%lookup_insert_Some; (apply owner_frame; [|cbn; try done]).
    + intros row Hrow Htok. cbn in *. apply Hr in Hrow. congruence.
    + by eapply Hw.
    + intros _ E. apply Hs in Hm. congruence.
  - intros m h [[<- <-]|[Hne Hm]]%lookup_insert_Some; [cbn; split_and!; lia|by eapply Ht].
  - intros m h [[<- <-]|[Hne Hm]]%lookup_insert_Some; [set_solver|]. apply Hs in Hm. set_solver.
  - intros j row [[<- <-]|[Hne Hj]]%lookup_insert_Some; [set_solver|]. apply Hr in Hj. set_solver.
  - intros m m' h h' [[<- <-]|[Hne Hm]]%lookup_insert_Some [[<- <-]|[Hne' Hm']]%lookup_insert_Some; cbn;
      [done|intros E|intros E|by eapply Hd].
    + apply Hs in Hm'. congruence.
    + apply Hs in Hm. congruence.
  - intros j row [[<- <-]|[Hne Hj]]%lookup_insert_Some; [|by eapply Hb]. cbn. by apply ttl_from_mono.
Qed.

Lemma heartbeat_inv s n h at_ t db told : LeaseInv s ->
  holdings s !! n = Some h -> (held_since h <= at_ <= clock s)%Z ->
  renew_scheduler_lease_by_token None at_ (job_name (lease_of h)) (claim_token (lease_of h)) (held_ttl h) (leases s) = (Ok (Some t), db) ->
  LeaseInv {| leases := db; holdings := <[n := holding_writes (if told : bool then Some t else None) at_ h]> (holdings s);
    tokens := tokens s; clock := clock s |}.
Proof.
  intros [Ho Hw Ht Hs Hr Hd Hb] Hn Hat [(row & _ & [= ->] & Hrow & Htok & ->)|[_ [[? _]|[? ?]]]]%renew_by_token_spec; [|done..].
  destruct (Ht n h Hn) as (Hmax & Hsince & Hexp).
  assert (ttl_from (held_since h) (held_ttl h) <= ttl_from at_ (held_ttl h))%Z as Hlater by (apply ttl_from_mono; lia).
  set (h' := holding_writes _ _ _).
  assert (job_name (lease_of h') = job_name (lease_of h) /\ claim_token (lease_of h') = claim_token (lease_of h) /\
          held_as h' = held_as h /\ held_ttl h' = held_ttl h /\ held_since h' = at_ /\
          (lease_expires_at (lease_of h') <= ttl_from at_ (held_ttl h))%Z) as (Ej & Et & Eo & Ett & Es & Hle)
    by (subst h'; destruct told; cbn; split_and!; try done; lia).
  constructor; cbn [leases holdings tokens clock].
  - intros m k [[<- <-]|[Hne Hm]]%lookup_insert_Some.
    + left. eexists. rewrite Ej, lookup_insert_eq. split_and!; [done|by rewrite Et|done].
    + apply owns_row_frame; [by eapply Ho|]. intros Hj old Hold Htok' He. exfalso.
      apply Hne. eapply (Hd n m h k Hn Hm). congruence.
  - intros m k [[<- <-]|[Hne Hm]]%lookup_insert_Some; (apply owner_frame; [|cbn [row_token owner_id]]).
    + intros r. rewrite Ej, Et, Eo. by eapply Hw.
    + intros _ _. rewrite Eo. by eapply Hw.
    + by eapply Hw.
    + intros _ E. exfalso. apply Hne. eapply Hd; [done..|congruence].
  - intros m k [[<- <-]|[Hne Hm]]%lookup_insert_Some; [|by eapply Ht]. rewrite Ett, Es. split_and!; [done|lia|done].
  - intros m k [[<- <-]|[Hne Hm]]%lookup_insert_Some; [|by eapply Hs]. rewrite Et. by eapply Hs.
  - intros j r [[<- <-]|[Hne Hj]]%lookup_insert_Some; [|by eapply Hr]. cbn. by eapply Hs.
  - intros m m' k k' [[<- <-]|[Hne Hm]]%lookup_insert_Some [[<- <-]|[Hne' Hm']]%lookup_insert_Some; rewrite ?Et; intros E;
      [done|by eapply (Hd n m' h k')|by eapply (Hd m n k h)|by eapply Hd].
  - intros j r [[<- <-]|[Hne Hj]]%lookup_insert_Some; [|by eapply Hb]. cbn. apply ttl_from_mono; lia.
Qed.

(** A write under a token no handle carries. *)
Lemma orphan_write_inv s job row row' : LeaseInv s -> leases s !! job = Some row ->
  row_token row' = row_token row -> (row_expiry row' <= ttl_from (clock s) max_ttl)%Z ->
  (forall m h, holdings s !! m = Some h -> claim_token (lease_of h) <> row_token row) ->
  LeaseInv {| leases := <[job := row']> (leases s); holdings := holdings s; tokens := tokens s; clock := clock s |}.
Proof.
  intros [Ho Hw Ht Hs Hr Hd Hb] Hrow Htok Hexp Hnone. constructor; cbn [leases holdings tokens clock]; try done.
  - intros m h Hm. apply owns_row_frame; [by eapply Ho|]. intros Hj old Hold Htok' _. exfalso. eapply Hnone; [done|congruence].
  - intros m h Hm. apply owner_frame; [by eapply Hw|]. intros _ E. exfalso. eapply Hnone; [done|congruence].
  - intros j r [[<- <-]|[Hne Hj]]%lookup_insert_Some; [|by eapply Hr]. rewrite Htok. by eapply Hr.
  - intros j r [[<- <-]|[Hne Hj]]%lookup_insert_Some; [done|by eapply Hb].
Qed.

Lemma drop_inv s n : LeaseInv s ->
  LeaseInv {| leases := leases s; holdings := delete n (holdings s); tokens := tokens s; clock := clock s |}.
Proof.
  intros [Ho Hw Ht Hs Hr Hd Hb]. constructor; cbn [leases holdings tokens clock]; try done;
    try (intros m h [_ Hm]%lookup_delete_Some; eauto; done).
  intros m m' h h' [_ Hm]%lookup_delete_Some [_ Hm']%lookup_delete_Some. by eapply Hd.
Qed.

Lemma cluster_step_inv s s' : cluster_step s s' -> LeaseInv s -> LeaseInv s'.
Proof.
  intros [t Ht|n owner job ttl token at_ l db|n h at_ t db told|n h at_ Hn Hat|n|job token ttl at_ r db Hat Httl Hin Hnone Hren] Hinv.
  - destruct Hinv as [Ho Hw Htt Hs Hr Hd Hb]. constructor; cbn [leases holdings tokens clock]; try done.
    + intros n h Hn. destruct (Ho n h Hn); [by left|right; lia].
    + intros n h Hn. destruct (Htt n h Hn) as (?&?&?). split_and!; [done|lia|done].
    + intros j row Hj. specialize (Hb j row Hj). pose proof (ttl_from_mono (clock s) t max_ttl max_ttl Ht). lia.
  - intros. by eapply acquire_inv.
  - intros. by eapply heartbeat_inv.
  - pose proof (drop_inv s n Hinv) as Hdrop. destruct (release_spec None at_ (lease_of h) (leases s)) as [->|(row & Hrow & Htok & ->)]; [done|].
    pose proof (orphan_write_inv _ (job_name (lease_of h)) row {| owner_id := owner_id row; row_token := row_token row; row_expiry := at_; row_updated := at_ |} Hdrop Hrow eq_refl) as Hw. apply Hw; clear Hw.
    + cbn. unfold ttl_from, NANOS_PER_SEC. lia.
    + cbn. intros m k [Hne Hm]%lookup_delete_Some E. apply Hne. eapply (li_distinct s Hinv n m); [done..|congruence].
  - by apply drop_inv.
  - apply renew_by_token_spec in Hren as [(row & _ & -> & Hrow & Htok & ->)|[-> _]]; [|by destruct s].
    apply (orphan_write_inv _ _ row); [done|done|cbn; congruence|apply ttl_from_mono; lia|]. by rewrite Htok.
Qed.

Lemma lease_reachable_inv s : lease_reachable s -> LeaseInv s.
Proof.
  intros (s0 & (El & Eh & Et) & Hrun). apply (rtc_preserve _ _ (fun x y Hxy => cluster_step_inv x y Hxy) _ _ Hrun).
  constructor; rewrite ?El, ?Eh; intros *; rewrite lookup_empty; done.
Qed.

(** * What a lease promises *)

(** C25. A singleton job has one owner.  Whatever the replicas do - claims,
    heartbeats, renewals, releases, crashes, statements that waited and bring an
    old time, heartbeats that arrive after their handle ended - two handles on
    one job whose leases have not expired are the same handle. *)
Theorem lease_single_holder s n m h h' : lease_reachable s ->
  holdings s !! n = Some h -> holdings s !! m = Some h' -> job_name (lease_of h) = job_name (lease_of h') ->
  (clock s < lease_expires_at (lease_of h))%Z -> (clock s < lease_expires_at (lease_of h'))%Z -> n = m.
Proof.
  intros Hinv%lease_reachable_inv Hn Hm Hj Hl Hl'.
  destruct (li_owns s Hinv n h Hn) as [(row & Hrow & Htok & _)|]; [|lia].
  destruct (li_owns s Hinv m h' Hm) as [(row' & Hrow' & Htok' & _)|]; [|lia].
  eapply (li_distinct s Hinv); [done..|]. rewrite Hj in Hrow. congruence.
Qed.

(** A crashed holder blocks a job for at most one TTL: from any state of the
    cluster, once the longest TTL has passed without a write to the job's row,
    any owner's claim succeeds; and a refused claim names another live owner. *)
Theorem job_recovers s job owner token ttl t : lease_reachable s -> (ttl_from (clock s) max_ttl <= t)%Z ->
  exists l, fst (try_acquire_scheduler_lease None t token job owner ttl (leases s)) = Ok (Some l) /\
    claim_token l = token /\ lease_expires_at l = ttl_from t ttl.
Proof.
  intros Hinv%lease_reachable_inv Ht. unfold try_acquire_scheduler_lease.
  destruct (leases s !! job) as [row|] eqn:E; [|by eexists].
  pose proof (li_bound s Hinv job row E). rewrite (proj2 (Z.leb_le _ _)) by lia. by eexists.
Qed.

(** A handle that another claim has ousted is told so by its next heartbeat,
    and neither its heartbeat nor its release writes anything. *)
Lemma ousted_handle_writes_nothing l row fault now ttl db : db !! job_name l = Some row -> row_token row <> claim_token l ->
  snd (heartbeat fault now ttl l db) = db /\ release fault now l db = db /\
  (fault = None -> fst (heartbeat fault now ttl l db) = Ok false).
Proof.
  intros Hrow Hne. unfold heartbeat, release, renew_scheduler_lease_by_token. rewrite Hrow, !decide_False by done.
  destruct fault; by split_and!.
Qed.
End Runs.

(** * Witnesses *)

Section Witnesses.
Let sec (n : Z) : DateTime := (n * NANOS_PER_SEC)%Z.
Let lease_a : SchedulerLease := {| job_name := "storage_gc"; claim_token := 1%N; lease_expires_at := sec 60 |}.
Let row_a : LeaseRow := {| owner_id := "pod-a:1:x"; row_token := 1%N; row_expiry := sec 60; row_updated := 0%Z |}.
Let lease_b : SchedulerLease := {| job_name := "storage_gc"; claim_token := 2%N; lease_expires_at := sec 130 |}.
Let row_b : LeaseRow := {| owner_id := "pod-b:1:y"; row_token := 2%N; row_expiry := sec 130; row_updated := sec 70 |}.
Let hold_a : Holding := {| lease_of := lease_a; held_as := "pod-a:1:x"; held_ttl := 60; held_since := 0%Z |}.
Let hold_b : Holding := {| lease_of := lease_b; held_as := "pod-b:1:y"; held_ttl := 60; held_since := sec 70 |}.
Let nothing : Cluster := {| leases := ∅; holdings := ∅; tokens := ∅; clock := 0%Z |}.
Let claimed : Cluster :=
  {| leases := <["storage_gc" := row_a]> ∅; holdings := <[0%nat := hold_a]> ∅; tokens := {[1%N]} ∪ ∅; clock := 0%Z |}.
Let hung : Cluster :=
  {| leases := leases claimed; holdings := holdings claimed; tokens := tokens claimed; clock := sec 70 |}.
Let taken_over : Cluster :=
  {| leases := <["storage_gc" := row_b]> (leases hung); holdings := <[1%nat := hold_b]> (holdings hung);
     tokens := {[2%N]} ∪ tokens hung; clock := sec 70 |}.

(** The first replica hangs; the second takes over after its minute. *)
Let taken_over_reachable : lease_reachable 60 taken_over.
Proof.
  exists nothing. split; [done|].
  apply (rtc_l _ _ claimed).
  { apply (lease_acquire 60 nothing 0 "pod-a:1:x" "storage_gc" 60 1%N 0%Z lease_a); done || (cbn; lia || set_solver). }
  apply (rtc_l _ _ hung); [apply (lease_tick 60 claimed (sec 70)); done|].
  apply (rtc_l _ _ taken_over); [|apply rtc_refl].
  apply (lease_acquire 60 hung 1 "pod-b:1:y" "storage_gc" 60 2%N (sec 70) lease_b); try done.
  unfold hung, claimed; cbn [holdings]. intros m h [[<- <-]|[_ Hm]]%lookup_insert_Some; [done|]. by rewrite lookup_empty in Hm.
Defined.

Lemma lease_single_holder_witness :
  holdings taken_over !! 0%nat = Some hold_a /\ (lease_expires_at (lease_of hold_a) < clock taken_over)%Z /\
  forall n, holdings taken_over !! n = Some hold_b -> n = 1%nat.
Proof.
  split_and!; [done|done|]. intros n Hn.
  apply (lease_single_holder 60 ltac:(lia) taken_over n 1 hold_b hold_b); done || exact taken_over_reachable.
Defined.

Lemma job_recovers_witness : exists l,
  fst (try_acquire_scheduler_lease None (sec 130) 3%N "storage_gc" "pod-c:1:z" 60 (leases taken_over)) = Ok (Some l) /\
  claim_token l = 3%N /\ lease_expires_at l = sec 190.
Proof. apply (job_recovers 60 ltac:(lia) taken_over); [exact taken_over_reachable|done]. Defined.

(** A heartbeat that reaches the database after the release takes the lease
    again for nobody: until it lapses no other replica runs the job. *)
Example late_heartbeat_undoes_release :
  let held := snd (try_acquire_scheduler_lease None 0%Z 1%N "storage_gc" "pod-a:1:x" 60 ∅) in
  let released := release None (sec 5) lease_a held in
  let revived := snd (heartbeat None (sec 5) 60 lease_a released) in
  is_Some (fst (try_acquire_scheduler_lease_quiet None (sec 6) 2%N "storage_gc" "pod-b:1:y" 60 released)) /\
  fst (try_acquire_scheduler_lease_quiet None (sec 6) 2%N "storage_gc" "pod-b:1:y" 60 revived) = None.
Proof. vm_compute. split; [by eexists|done]. Qed.
End Witnesses.
