(* ===== verification/F64.v ===== *)
(** The [f64] arithmetic of the services: counts of pieces are quotients of two
    integers, rounded up.

    A finite value is [m * 2^e]; the operations round to 53 bits, to nearest
    with ties to even.  No intermediate of the services comes near the limits of
    the exponent. *)

From stdpp Require Import base tactics.
From Stdlib Require Import ZArith Lia.
From S2P Require Import Prelude RustNum.

Local Open Scope Z_scope.

Inductive F64 :=
| Finite (m e : Z)
| Infinity (negative : bool)
| NaN.

(** The nearest integer to [n / d], ties to even. *)
Definition nearest (n d : Z) : Z :=
  let q := n / d in
  match 2 * (n mod d) ?= d with
  | Lt => q
  | Gt => q + 1
  | Eq => if Z.even q then q else q + 1
  end.

(** [n / d] in units of [2^e]. *)
Definition scaled (n d e : Z) : Z * Z := if 0 <=? e then (n, d * 2 ^ e) else (n * 2 ^ (- e), d).

(** The exponent that leaves 53 bits of [n / d]. *)
Definition exponent (n d : Z) : Z :=
  let e := Z.log2 n - Z.log2 d - 52 in
  let '(n', d') := scaled n d e in
  if n' / d' <? 2 ^ 52 then e - 1 else e.

(** [n / d] rounded, for [0 <= n] and [0 < d]. *)
Definition round_ratio (n d : Z) : F64 :=
  if n =? 0 then Finite 0 0
  else
    let e := exponent n d in
    let '(n', d') := scaled n d e in
    Finite (nearest n' d') e.

Definition with_sign (negative : bool) (x : F64) : F64 :=
  match x with Finite m e => Finite (if negative then - m else m) e | _ => x end.

(** [z as f64]. *)
Definition f64_of_int (z : Z) : F64 := with_sign (z <? 0) (round_ratio (Z.abs z) 1).

(** [a / b]. *)
Definition f64_div (a b : F64) : F64 :=
  match a, b with
  | Finite m1 e1, Finite m2 e2 =>
      if m2 =? 0 then (if m1 =? 0 then NaN else Infinity (m1 <? 0))
      else with_sign (xorb (m1 <? 0) (m2 <? 0))
             (round_ratio (Z.abs m1 * 2 ^ Z.max 0 (e1 - e2)) (Z.abs m2 * 2 ^ Z.max 0 (e2 - e1)))
  | Infinity s, Finite m _ => Infinity (xorb s (m <? 0))
  | Finite _ _, Infinity _ => Finite 0 0
  | _, _ => NaN
  end.

(** [f64::ceil]. *)
Definition f64_ceil (x : F64) : F64 :=
  match x with
  | Finite m e => if 0 <=? e then x else Finite (- (- m / 2 ^ (- e))) 0
  | _ => x
  end.

(** [x as i32], which saturates; the callers' values are integers. *)
Definition f64_as_i32 (x : F64) : Z :=
  match x with
  | Finite m e => Z.max (- 2 ^ 31) (Z.min I32_MAX (if 0 <=? e then m * 2 ^ e else Z.quot m (2 ^ (- e))))
  | Infinity negative => if negative then - 2 ^ 31 else I32_MAX
  | NaN => 0
  end.

(** [((a as f64) / (b as f64)).ceil() as i32]. *)
Definition ceil_div_f64 (a b : Z) : Z := f64_as_i32 (f64_ceil (f64_div (f64_of_int a) (f64_of_int b))).

Example ceil_div_f64_1 : ceil_div_f64 5000000 1048576 = 5 /\ ceil_div_f64 4194304 1048576 = 4 /\ ceil_div_f64 0 7 = 0 /\
  ceil_div_f64 10 (-3) = -3 /\ ceil_div_f64 7 0 = I32_MAX /\ ceil_div_f64 0 0 = 0 /\ ceil_div_f64 (2 ^ 60) 1 = I32_MAX.
Proof. vm_compute. done. Qed.
(** Above [2^53] a byte can be lost. *)
Example ceil_div_f64_2 : ceil_div_f64 (2 ^ 54 + 1) (2 ^ 30) = 2 ^ 24 /\ - (- (2 ^ 54 + 1) / 2 ^ 30) = 2 ^ 24 + 1.
Proof. vm_compute. done. Qed.

(** * Rounding *)

Lemma nearest_le n d k : 0 < d -> n <= k * d -> nearest n d <= k.
Proof.
  intros Hd Hn. unfold nearest. pose proof (Z.div_mod n d ltac:(lia)) as E. pose proof (Z.mod_pos_bound n d Hd).
  destruct (Z_lt_ge_dec (n / d) k).
  - destruct (_ ?= _); [destruct (Z.even _)| |]; lia.
  - assert (n mod d = 0) as -> by nia. rewrite Z.mul_0_r. destruct (Z.compare_spec 0 d); nia.
Qed.

Lemma nearest_gt n d k : 0 < d -> 2 * (k * d) + d < 2 * n -> k < nearest n d.
Proof.
  intros Hd Hn. unfold nearest. pose proof (Z.div_mod n d ltac:(lia)) as E. pose proof (Z.mod_pos_bound n d Hd).
  destruct (Z_lt_ge_dec k (n / d)).
  - destruct (_ ?= _); [destruct (Z.even _)| |]; lia.
  - assert (n / d = k) by nia. destruct (Z.compare_spec (2 * (n mod d)) d); nia.
Qed.

Lemma nearest_exact q d : 0 < d -> nearest (q * d) d = q.
Proof.
  intros Hd. unfold nearest. rewrite Z.mod_mul, Z.div_mul, Z.mul_0_r by lia.
  by rewrite (proj2 (Z.compare_lt_iff 0 d)).
Qed.

Lemma nearest_nonneg n d : 0 <= n -> 0 < d -> 0 <= nearest n d.
Proof.
  intros Hn Hd. unfold nearest. pose proof (Z.div_pos n d Hn Hd). destruct (_ ?= _); [destruct (Z.even _)| |]; lia.
Qed.


(** Fifty-three bits are left of a quotient. *)
Lemma exponent_fits n d : 0 < n -> 0 < d -> let '(n', d') := scaled n d (exponent n d) in 2 ^ 52 * d' <= n'.
Proof.
  intros Hn Hd. unfold exponent. set (e := _ - 52). destruct (scaled n d e) as [n' d'] eqn:E.
  assert (0 < d') as Hd'.
  { unfold scaled in E. destruct (Z.leb_spec 0 e); injection E as <- <-; [|lia].
    pose proof (Z.pow_pos_nonneg 2 e). nia. }
  destruct (Z.ltb_spec (n' / d') (2 ^ 52)) as [Hlt|Hge].
  - unfold scaled. destruct (Z.log2_spec n Hn) as [Hln _]. destruct (Z.log2_spec d Hd) as [_ Hld].
    pose proof (Z.log2_nonneg n). pose proof (Z.log2_nonneg d). destruct (Z.leb_spec 0 (e - 1)).
    + apply Z.lt_le_incl, Z.lt_le_trans with (2 ^ Z.log2 n); [|done].
      replace (Z.log2 n) with (52 + (Z.succ (Z.log2 d) + (e - 1))) by lia. rewrite !Z.pow_add_r by lia.
      pose proof (Z.pow_pos_nonneg 2 (e - 1)). nia.
    + apply Z.lt_le_incl, Z.lt_le_trans with (2 ^ 52 * 2 ^ Z.succ (Z.log2 d)); [nia|].
      rewrite <- Z.pow_add_r by lia. replace (52 + Z.succ (Z.log2 d)) with (Z.log2 n + - (e - 1)) by lia.
      rewrite Z.pow_add_r by lia. pose proof (Z.pow_pos_nonneg 2 (- (e - 1))). nia.
  - rewrite E. pose proof (Z.mul_div_le n' d' Hd'). nia.
Qed.

(** A quotient below [2^53] is scaled up. *)
Lemma scaled_up n d : 0 < n -> 0 < d -> n < 2 ^ 53 * d -> exponent n d <= 0 /\
  scaled n d (exponent n d) = (n * 2 ^ - exponent n d, d).
Proof.
  intros Hn Hd Hlt. pose proof (exponent_fits n d Hn Hd) as Hfit. set (e := exponent n d) in *. unfold scaled in *.
  destruct (Z.leb_spec 0 e).
  - assert (e = 0) as ->; [|by rewrite !Z.mul_1_r].
    destruct (Z.eq_dec e 0); [done|exfalso]. assert (2 <= 2 ^ e); [|nia].
    change 2 with (2 ^ 1) at 1. apply Z.pow_le_mono_r; lia.
  - split; [lia|done].
Qed.

(** The rounded quotient and the exact one have the same ceiling. *)
Lemma ceil_round_ratio g n d : 0 < g -> 0 < n < 2 ^ 53 -> 0 < d ->
  f64_as_i32 (f64_ceil (round_ratio (g * n) (g * d))) = Z.min I32_MAX (- (- n / d)).
Proof.
  intros Hg Hn Hd. destruct (scaled_up (g * n) (g * d)) as [He Es]; [nia..|].
  pose proof (exponent_fits (g * n) (g * d) ltac:(nia) ltac:(nia)) as Hfit. rewrite Es in Hfit.
  unfold round_ratio. rewrite (proj2 (Z.eqb_neq _ _)) by nia. rewrite Es. set (e := exponent _ _) in *.
  set (p := 2 ^ - e) in *. assert (0 < p) by (apply Z.pow_pos_nonneg; lia).
  set (c := - (- n / d)). assert ((c - 1) * d < n <= c * d) as [Hc1 Hc2].
  { unfold c. pose proof (Z.div_mod (- n) d ltac:(lia)). pose proof (Z.mod_pos_bound (- n) d Hd). nia. }
  assert (d < 2 * p) as Hdp.
  { assert (2 ^ 52 * d <= n * p); [|nia]. apply (Z.mul_le_mono_pos_l _ _ g); [done|]. lia. }
  assert (nearest (g * n * p) (g * d) <= c * p) as Hle by (apply nearest_le; nia).
  assert ((c - 1) * p < nearest (g * n * p) (g * d)) as Hgt.
  { apply nearest_gt; [nia|]. assert (g * (d + 2 * ((c - 1) * d * p)) < g * (2 * (n * p))); [|lia].
    apply Z.mul_lt_mono_pos_l; [done|]. assert (1 <= n - (c - 1) * d) by lia. nia. }
  assert (0 < c) by nia. cbn [f64_ceil]. destruct (Z.leb_spec 0 e).
  - assert (e = 0) as E0 by lia. assert (p = 1) as E1 by (unfold p; by rewrite E0). rewrite E1 in *.
    cbn [f64_as_i32]. rewrite (proj2 (Z.leb_le _ _)) by lia. rewrite E0. unfold I32_MAX. lia.
  - fold p. set (m := nearest _ _) in *. replace (- (- m / p)) with c.
    + cbn [f64_as_i32]. unfold I32_MAX. rewrite Z.leb_refl. lia.
    + pose proof (Z.div_mod (- m) p ltac:(lia)). pose proof (Z.mod_pos_bound (- m) p ltac:(lia)). nia.
Qed.

(** Integers of 53 bits are exact. *)
Lemma f64_of_int_exact a : 0 < a < 2 ^ 53 -> exists e, e <= 0 /\ f64_of_int a = Finite (a * 2 ^ - e) e.
Proof.
  intros Ha. unfold f64_of_int. rewrite (proj2 (Z.ltb_ge _ _)), Z.abs_eq by lia. unfold round_ratio.
  rewrite (proj2 (Z.eqb_neq _ _)) by lia. destruct (scaled_up a 1) as [He ->]; [lia..|].
  exists (exponent a 1). split; [done|]. cbn. f_equal. rewrite <- (Z.mul_1_r (a * _)) at 1. by apply nearest_exact.
Qed.

(** The count of pieces is the integer one as long as the size has at most
    fifty-three bits. *)
Lemma ceil_div_f64_exact a b : 0 <= a < 2 ^ 53 -> 0 < b < 2 ^ 53 -> ceil_div_f64 a b = Z.min I32_MAX (- (- a / b)).
Proof.
  intros Ha Hb. destruct (f64_of_int_exact b Hb) as (eb & Heb & Eb). unfold ceil_div_f64. rewrite Eb.
  assert (0 < 2 ^ - eb) by (apply Z.pow_pos_nonneg; lia).
  destruct (Z.eq_dec a 0) as [->|Hne].
  { change (f64_of_int 0) with (Finite 0 0). unfold f64_div. rewrite (proj2 (Z.eqb_neq (b * _) _)) by nia. cbn [Z.abs].
    rewrite Z.mul_0_l. unfold round_ratio. rewrite Z.eqb_refl. by destruct (xorb _ _). }
  destruct (f64_of_int_exact a ltac:(lia)) as (ea & Hea & ->). assert (0 < 2 ^ - ea) by (apply Z.pow_pos_nonneg; lia).
  unfold f64_div. rewrite (proj2 (Z.eqb_neq _ _)), !(proj2 (Z.ltb_ge _ _)), !Z.abs_eq by nia.
  assert (exists g : Z, (0 < g) /\ (a * 2 ^ (- ea) * 2 ^ Z.max 0 (ea - eb) = g * a) /\ (b * 2 ^ (- eb) * 2 ^ Z.max 0 (eb - ea) = g * b)) as (g & Hg & -> & ->).
  { destruct (Z_le_gt_dec eb ea); [exists (2 ^ - eb)|exists (2 ^ - ea)]; (split; [done|]);
      rewrite ?(Z.max_r 0 (ea - eb)), ?(Z.max_l 0 (ea - eb)), ?(Z.max_r 0 (eb - ea)), ?(Z.max_l 0 (eb - ea)) by lia;
      rewrite <- !Z.mul_assoc, <- !Z.pow_add_r by lia; split; rewrite Z.mul_comm; do 2 f_equal; lia. }
  assert (with_sign (xorb false false) (round_ratio (g * a) (g * b)) = round_ratio (g * a) (g * b)) as ->
    by (destruct (round_ratio _ _); done).
  apply ceil_round_ratio; lia.
Qed.

(** * Products and comparisons

    [a * b], [f64::max] and [partial_cmp]. *)

Definition f64_mul (a b : F64) : F64 :=
  match a, b with
  | Finite m1 e1, Finite m2 e2 =>
      let e := e1 + e2 in
      with_sign (xorb (m1 <? 0) (m2 <? 0)) (round_ratio (Z.abs (m1 * m2) * 2 ^ Z.max 0 e) (2 ^ Z.max 0 (- e)))
  | Infinity s, Finite m _ | Finite m _, Infinity s => if m =? 0 then NaN else Infinity (xorb s (m <? 0))
  | Infinity s1, Infinity s2 => Infinity (xorb s1 s2)
  | _, _ => NaN
  end.

Definition f64_partial_cmp (a b : F64) : option comparison :=
  match a, b with
  | Finite m1 e1, Finite m2 e2 => Some (m1 * 2 ^ Z.max 0 (e1 - e2) ?= m2 * 2 ^ Z.max 0 (e2 - e1))
  | Infinity s1, Infinity s2 => Some (match s1, s2 with true, false => Lt | false, true => Gt | _, _ => Eq end)
  | Infinity s, Finite _ _ => Some (if s then Lt else Gt)
  | Finite _ _, Infinity s => Some (if s then Gt else Lt)
  | NaN, _ | _, NaN => None
  end.

Definition f64_max (a b : F64) : F64 :=
  match a, b with
  | NaN, _ => b
  | _, NaN => a
  | _, _ => match f64_partial_cmp a b with Some Lt => b | _ => a end
  end.

Example f64_mul_1 : f64_partial_cmp (f64_mul (f64_of_int 3) (f64_of_int 1000000)) (f64_of_int 3000000) = Some Eq /\
  f64_partial_cmp (f64_div (f64_of_int 1) (f64_of_int 3)) (f64_div (f64_of_int 333) (f64_of_int 1000)) = Some Gt.
Proof. vm_compute. done. Qed.

(** [a <= b] of finite values. *)
Definition f64_le (a b : F64) : Prop := f64_partial_cmp a b = Some Lt \/ f64_partial_cmp a b = Some Eq.
Definition is_finite (a : F64) : Prop := match a with Finite _ _ => True | _ => False end.

(** Both sides in units of a common exponent [k]. *)
Lemma compare_in_units m1 e1 m2 e2 k : k <= e1 -> k <= e2 ->
  (m1 * 2 ^ Z.max 0 (e1 - e2) ?= m2 * 2 ^ Z.max 0 (e2 - e1)) = (m1 * 2 ^ (e1 - k) ?= m2 * 2 ^ (e2 - k)).
Proof.
  intros H1 H2.
  assert (e1 - k = Z.max 0 (e1 - e2) + (Z.min e1 e2 - k)) as -> by lia.
  assert (e2 - k = Z.max 0 (e2 - e1) + (Z.min e1 e2 - k)) as -> by lia.
  rewrite !Z.pow_add_r, !Z.mul_assoc by lia. apply Zmult_compare_compat_r. apply Z.lt_gt, Z.pow_pos_nonneg; lia.
Qed.

Lemma f64_le_finite m1 e1 m2 e2 k : k <= e1 -> k <= e2 ->
  f64_le (Finite m1 e1) (Finite m2 e2) <-> m1 * 2 ^ (e1 - k) <= m2 * 2 ^ (e2 - k).
Proof.
  intros H1 H2. unfold f64_le, f64_partial_cmp. rewrite (compare_in_units _ _ _ _ k) by done.
  destruct (Z.compare_spec (m1 * 2 ^ (e1 - k)) (m2 * 2 ^ (e2 - k))); split; intros; auto; try lia; destruct H0; discriminate.
Qed.

Lemma f64_le_trans a b c : is_finite a -> is_finite b -> is_finite c -> f64_le a b -> f64_le b c -> f64_le a c.
Proof.
  destruct a as [m1 e1| |], b as [m2 e2| |], c as [m3 e3| |]; try done. intros _ _ _.
  set (k := Z.min e1 (Z.min e2 e3)).
  rewrite (f64_le_finite m1 e1 m2 e2 k), (f64_le_finite m2 e2 m3 e3 k), (f64_le_finite m1 e1 m3 e3 k) by lia. lia.
Qed.

Lemma f64_le_total a b : is_finite a -> is_finite b -> f64_le a b \/ f64_le b a.
Proof.
  destruct a as [m1 e1| |], b as [m2 e2| |]; try done. intros _ _. set (k := Z.min e1 e2).
  rewrite (f64_le_finite m1 e1 m2 e2 k), (f64_le_finite m2 e2 m1 e1 k) by lia. lia.
Qed.

Lemma f64_not_gt a b : is_finite a -> is_finite b -> f64_partial_cmp a b <> Some Gt <-> f64_le a b.
Proof.
  destruct a as [m1 e1| |], b as [m2 e2| |]; try done. intros _ _. unfold f64_le. cbn. destruct (_ ?= _);
    split; intros; auto; try (by destruct H); try (by intros ?); destruct H; discriminate.
Qed.

Lemma round_ratio_finite n d : is_finite (round_ratio n d).
Proof. unfold round_ratio. destruct (n =? 0); [done|]. by destruct (scaled _ _ _). Qed.

Lemma with_sign_finite b x : is_finite x -> is_finite (with_sign b x).
Proof. by destruct x. Qed.

Lemma f64_of_int_finite z : is_finite (f64_of_int z).
Proof. apply with_sign_finite, round_ratio_finite. Qed.

Lemma f64_mul_finite a b : is_finite a -> is_finite b -> is_finite (f64_mul a b).
Proof. destruct a, b; try done. intros _ _. apply with_sign_finite, round_ratio_finite. Qed.

Lemma f64_max_finite a b : is_finite a -> is_finite b -> is_finite (f64_max a b).
Proof. destruct a, b; try done. intros _ _. cbn. by destruct (_ ?= _). Qed.

(** At least one, when it is compared with one. *)
Lemma f64_div_finite a b : is_finite a -> is_finite b -> f64_le (Finite 1 0) b -> is_finite (f64_div a b).
Proof.
  destruct a as [m1 e1| |], b as [m2 e2| |]; try done. intros _ _ Hle.
  apply (f64_le_finite 1 0 m2 e2 (Z.min 0 e2)) in Hle; [|lia|lia]. cbn.
  destruct (Z.eqb_spec m2 0) as [->|]; [|apply with_sign_finite, round_ratio_finite].
  assert (0 < 2 ^ (0 - Z.min 0 e2)) by (apply Z.pow_pos_nonneg; lia). lia.
Qed.

Lemma f64_max_above a b : is_finite a -> is_finite b -> f64_le b (f64_max a b).
Proof.
  intros Ha Hb. destruct a as [m1 e1| |], b as [m2 e2| |]; try done. unfold f64_max.
  destruct (f64_partial_cmp (Finite m1 e1) (Finite m2 e2)) as [[]|] eqn:E.
  - right. cbn in *. f_equal. injection E as E. rewrite Z.compare_eq_iff in *. by rewrite E.
  - right. cbn. by rewrite Z.compare_refl.
  - left. cbn in *. f_equal. injection E as E. rewrite Z.compare_gt_iff in E. by rewrite Z.compare_lt_iff.
  - done.
Qed.

(** A quotient of different signs leaves no pieces. *)
Lemma ceil_div_f64_negative a b : 0 < a < 2 ^ 53 -> - 2 ^ 53 < b < 0 -> ceil_div_f64 a b <= 0.
Proof.
  intros Ha Hb. unfold ceil_div_f64. destruct (f64_of_int_exact a Ha) as (ea & Hea & ->).
  destruct (f64_of_int_exact (- b)) as (eb & Heb & Eb); [lia|].
  assert (f64_of_int b = Finite (b * 2 ^ - eb) eb) as ->.
  { unfold f64_of_int in *. rewrite (proj2 (Z.ltb_ge _ _)), Z.abs_eq in Eb by lia. rewrite (proj2 (Z.ltb_lt _ _)), Z.abs_neq by lia.
    destruct (round_ratio (- b) 1); try done. cbn in *. injection Eb as -> ->. f_equal. lia. }
  assert (0 < 2 ^ - ea) by (apply Z.pow_pos_nonneg; lia). assert (0 < 2 ^ - eb) by (apply Z.pow_pos_nonneg; lia).
  unfold f64_div. rewrite (proj2 (Z.eqb_neq _ _)), (proj2 (Z.ltb_ge _ _)), (proj2 (Z.ltb_lt _ _)) by nia. cbn [xorb].
  set (n := _ * 2 ^ Z.max 0 (ea - eb)). set (d := _ * 2 ^ Z.max 0 (eb - ea)).
  assert (0 <= n) by (unfold n; pose proof (Z.pow_pos_nonneg 2 (Z.max 0 (ea - eb))); nia).
  assert (0 < d) by (unfold d; pose proof (Z.pow_pos_nonneg 2 (Z.max 0 (eb - ea))); nia).
  assert (exists m e, round_ratio n d = Finite m e /\ 0 <= m) as (m & e & -> & Hm).
  { unfold round_ratio. destruct (n =? 0); [by exists 0, 0|]. unfold scaled. destruct (Z.leb_spec 0 (exponent n d)) as [He|He];
      eexists _, _; (split; [done|]); apply nearest_nonneg; pose proof (Z.pow_pos_nonneg 2 (exponent n d)); pose proof (Z.pow_pos_nonneg 2 (- exponent n d)); nia. }
  cbn [with_sign f64_ceil]. destruct (Z.leb_spec 0 e) as [He|He]; cbn [f64_as_i32].
  - rewrite (proj2 (Z.leb_le _ _)) by done. pose proof (Z.pow_pos_nonneg 2 e). nia.
  - cbn. rewrite Z.opp_involutive. pose proof (Z.div_pos m (2 ^ - e) Hm). pose proof (Z.pow_pos_nonneg 2 (- e)). nia.
Qed.
