(* ===== verification/SyncWire.v ===== *)
(** The pure parts of the sync worker ([services/sync_worker.rs]): its settings,
    the cadence of its checks, sync windows and their time zones, backoff and
    retries, the pieces of a chunked transfer, the URLs and headers a peer sees
    and the replication filter. *)

From stdpp Require Import base list strings pretty.
From Stdlib Require Import ZArith Lia Ascii.
From S2P Require Import Prelude RustStr RustNum F64.

Local Open Scope string_scope.
Local Open Scope Z_scope.

(** * Settings from the environment *)

(** [std::env::var(key).ok()]. *)
Definition Env : Type := string -> option string.

(** [str::parse::<i32>]. *)
Definition parse_i32 (s : string) : option Z :=
  z ← parse_i64 s; if (- 2 ^ 31 <=? z) && (z <=? I32_MAX) then Some z else None.
Definition parse_u64_Z (s : string) : option Z := Z.of_N <$> parse_u64 s.

(** A parsed value that must be positive, or the default. *)
Definition positive_or (parse : string -> option Z) (fallback : Z) (v : option string) : Z :=
  match v ≫= parse with Some n => if 0 <? n then n else fallback | None => fallback end.

Definition STALE_PEER_THRESHOLD_MINUTES : Z := 5.
Definition STALE_CHECK_INTERVAL_TICKS : Z := 6.
Definition TICK_INTERVAL_SECS : Z := 10.
Definition DEFAULT_PEER_CONNECT_TIMEOUT_SECS : Z := 10.
Definition DEFAULT_CHUNKED_THRESHOLD_BYTES : Z := 100 * 1024 * 1024.
Definition DEFAULT_SYNC_CHUNK_SIZE_BYTES : Z := 50 * 1024 * 1024.
Definition DEFAULT_SYNC_TASK_RETRY_BACKOFF_MAX_SECS : Z := 300.
Definition DEFAULT_MAX_RETRIES : Z := 3.
Definition DEFAULT_SYNC_TASK_CLAIM_TTL_SECS : Z := 1800.

Definition stale_peer_threshold_minutes (env : Env) : Z :=
  positive_or parse_i32 STALE_PEER_THRESHOLD_MINUTES (env "PEER_STALE_THRESHOLD_MINUTES").
Definition stale_check_interval_ticks (env : Env) : Z :=
  positive_or parse_u64_Z STALE_CHECK_INTERVAL_TICKS (env "PEER_STALE_CHECK_INTERVAL_TICKS").
Definition peer_connect_timeout_secs (env : Env) : Z :=
  positive_or parse_u64_Z DEFAULT_PEER_CONNECT_TIMEOUT_SECS (env "SYNC_PEER_CONNECT_TIMEOUT_SECS").
Definition sync_task_claim_ttl_secs (env : Env) : Z :=
  positive_or parse_u64_Z DEFAULT_SYNC_TASK_CLAIM_TTL_SECS (env "SYNC_TASK_CLAIM_TTL_SECS").

Definition env_bool (env : Env) (key : string) (fallback : bool) : bool :=
  match env key with
  | Some value =>
      let v := to_ascii_lowercase value in
      if one_of v ["1"; "true"; "yes"; "on"] then true
      else if one_of v ["0"; "false"; "no"; "off"] then false
      else fallback
  | None => fallback
  end.
Definition env_u64_min (env : Env) (key : string) (fallback least : Z) : Z :=
  Z.max (default fallback (env key ≫= parse_u64_Z)) least.
Definition env_i32_min (env : Env) (key : string) (fallback least : Z) : Z :=
  Z.max (default fallback (env key ≫= parse_i32)) least.

Definition chunked_threshold_bytes (env : Env) : Z :=
  default DEFAULT_CHUNKED_THRESHOLD_BYTES (env "SYNC_CHUNKED_THRESHOLD_BYTES" ≫= parse_i64).
Definition sync_chunk_size_bytes (env : Env) : Z :=
  default DEFAULT_SYNC_CHUNK_SIZE_BYTES (env "SYNC_CHUNK_SIZE_BYTES" ≫= parse_i32).

Record SyncRetryPolicy := { policy_max_retries : Z; backoff_base_secs : Z; backoff_max_secs : Z }.

Definition from_env (env : Env) : SyncRetryPolicy :=
  let most := env_u64_min env "SYNC_TASK_RETRY_BACKOFF_MAX_SECS" DEFAULT_SYNC_TASK_RETRY_BACKOFF_MAX_SECS 1 in
  {| policy_max_retries := env_i32_min env "SYNC_TASK_MAX_RETRIES" DEFAULT_MAX_RETRIES 1;
     backoff_base_secs := env_u64_min env "SYNC_TASK_RETRY_BACKOFF_BASE_SECS" most 1;
     backoff_max_secs := most |}.

(** * Cadence *)

Definition saturate_u64 (z : Z) : Z := Z.max 0 (Z.min (2 ^ 64 - 1) z).

Definition should_run_stale_check (tick_count interval_ticks : Z) : bool :=
  (0 <? interval_ticks) && (tick_count mod interval_ticks =? 0).
Definition should_run_peer_heartbeat_probe (tick_count interval_ticks : Z) : bool :=
  (0 <? tick_count) && (0 <? interval_ticks) && ((tick_count =? 1) || (tick_count mod interval_ticks =? 0)).
(** [u64::div_ceil]. *)
Definition interval_ticks_for_secs (interval_secs tick_secs : Z) : Z := Z.max (- (- interval_secs / tick_secs)) 1.
Definition failover_detection_deadline_secs (interval_ticks threshold_minutes tick_secs : Z) : Z :=
  let poll_secs := saturate_u64 (interval_ticks * tick_secs) in
  let threshold_secs := saturate_u64 (Z.max threshold_minutes 0 * 60) in
  saturate_u64 (poll_secs + threshold_secs).

(** * Backoff and retries *)

Definition calculate_configured_backoff (consecutive_failures base_secs max_secs : Z) : Z :=
  let failures := as_u32 (Z.max consecutive_failures 0) in
  let capped_base := Z.max base_secs 1 in
  let capped_max := Z.max max_secs 1 in
  Z.min capped_max (saturate_u64 (capped_base * saturate_u64 (2 ^ failures))).
Definition calculate_backoff (policy : SyncRetryPolicy) (consecutive_failures : Z) : Z :=
  calculate_configured_backoff consecutive_failures (backoff_base_secs policy) (backoff_max_secs policy).

Inductive RetryDecision :=
| WillRetry (attempt max_retries : Z)
| PermanentlyFailed (total_attempts : Z).

Definition new_retry_count (d : RetryDecision) : Z :=
  match d with WillRetry attempt _ => attempt | PermanentlyFailed total => total end.
Definition is_retriable (d : RetryDecision) : bool := match d with WillRetry _ _ => true | _ => false end.
(** [i32] arithmetic wraps in a release build. *)
Definition evaluate_task_failure (retry_count max_retries : Z) : RetryDecision :=
  let new_count := as_i32 (retry_count + 1) in
  if new_count <? max_retries then WillRetry new_count max_retries else PermanentlyFailed new_count.

(** [max_concurrent - active_transfers], wrapping. *)
Definition compute_available_slots (concurrent_transfers_limit : option Z) (active_transfers : Z) : Z :=
  as_i32 (default 5 concurrent_transfers_limit - active_transfers).

(** * Sync windows

    A time of day is a count of nanoseconds. *)

Definition is_within_sync_window (start stop now : Z) : bool :=
  if start <=? stop then (start <=? now) && (now <? stop) else (start <=? now) || (now <? stop).

(** [&s[..n]] and [&s[n..]], which panic outside a character boundary. *)
Definition is_char_boundary (n : nat) (s : string) : bool :=
  if (n =? 0)%nat then true
  else match String.get n s with Some c => negb (is_continuation c) | None => (n =? String.length s)%nat end.
Definition slice_at (n : nat) (s : string) : option (string * string) :=
  if is_char_boundary n s then Some (String.substring 0 n s, String.substring n (String.length s - n) s) else None.

Definition parse_or_zero (s : string) : Z := default 0 (parse_i64 s).

Definition zone_hours : list (string * Z) :=
  [("EST", -5 * 3600); ("EDT", -4 * 3600); ("CST", -6 * 3600); ("CDT", -5 * 3600); ("MST", -7 * 3600); ("MDT", -6 * 3600);
   ("PST", -8 * 3600); ("PDT", -7 * 3600); ("CET", 3600); ("CEST", 2 * 3600); ("EET", 2 * 3600); ("EEST", 3 * 3600);
   ("IST", 5 * 3600 + 1800); ("JST", 9 * 3600); ("AEST", 10 * 3600); ("AEDT", 11 * 3600); ("NZST", 12 * 3600);
   ("NZDT", 13 * 3600)].

Definition upper (c : ascii) : ascii := if is_lower c then ascii_of_N (N_of_ascii c - 32) else c.
(** [str::to_uppercase] on ASCII letters. *)
Definition to_uppercase : string -> string := str_map upper.
Definition eq_ignore_ascii_case (a b : string) : bool := String.eqb (to_ascii_lowercase a) (to_ascii_lowercase b).

(** The offset of [sign], [hours] and [minutes]. *)
Definition offset_of (sign hours minutes : Z) : Z := as_i64 (sign * as_i64 (as_i64 (hours * 3600) + as_i64 (minutes * 60))).

(** [parse_utc_offset_secs]; [None] is a panic. *)
Definition parse_utc_offset_secs (tz : string) : option Z :=
  let tz := trim tz in
  if eq_ignore_ascii_case tz "UTC" || eq_ignore_ascii_case tz "GMT" then Some 0
  else
    match tz with
    | String ("+" as c) digits | String ("-" as c) digits =>
        let sign := if Ascii.eqb c "-" then -1 else 1 in
        if contains ":" digits then
          match split_char ":" digits with
          | [hours; minutes] => Some (offset_of sign (parse_or_zero hours) (parse_or_zero minutes))
          | _ => Some 0
          end
        else if (String.length digits =? 4)%nat then
          '(hours, minutes) ← slice_at 2 digits;
          Some (offset_of sign (parse_or_zero hours) (parse_or_zero minutes))
        else Some 0
    | _ => Some (default 0 (snd <$> List.find (fun z => String.eqb (fst z) (to_uppercase tz)) zone_hours))
    end.

Example zone_1 : parse_utc_offset_secs "+05:30" = Some 19800 /\ parse_utc_offset_secs "-0800" = Some (-28800) /\
  parse_utc_offset_secs " cest " = Some 7200 /\ parse_utc_offset_secs "Mars" = Some 0 /\ parse_utc_offset_secs "+1:2:3" = Some 0.
Proof. vm_compute. done. Qed.

Definition SECS_PER_DAY : Z := 86400.

(** The peer's time of day, from the seconds since midnight UTC.
    [from_num_seconds_from_midnight_opt] refuses no value below a day. *)
Definition peer_time_of_day (secs_from_midnight utc_offset_secs : Z) : Z :=
  (as_i64 (secs_from_midnight + utc_offset_secs) mod SECS_PER_DAY) * 1000000000.

(** * Pieces *)

Definition should_use_chunked_transfer (artifact_size threshold : Z) : bool := threshold <=? artifact_size.

(** One piece of the [map]. *)
Definition chunk_range (total_size chunk_size total_chunks i : Z) : Z * Z * Z :=
  let byte_offset := as_i64 (i * chunk_size) in
  (i, byte_offset, if i =? total_chunks - 1 then as_i32 (as_i64 (total_size - byte_offset)) else chunk_size).

Definition compute_chunk_ranges (total_size chunk_size : Z) : list (Z * Z * Z) :=
  if (total_size <=? 0) || (chunk_size <=? 0) then []
  else
    let total_chunks := ceil_div_f64 total_size chunk_size in
    chunk_range total_size chunk_size total_chunks <$> seqZ 0 total_chunks.

Example compute_chunk_ranges_1 : compute_chunk_ranges 10 4 = [(0, 0, 4); (1, 4, 4); (2, 8, 2)] /\
  compute_chunk_ranges 8 4 = [(0, 0, 4); (1, 4, 4)] /\ compute_chunk_ranges 0 4 = [].
Proof. vm_compute. done. Qed.

Definition build_content_range (byte_offset byte_length total_size : Z) : string :=
  let stop := as_i64 (as_i64 (byte_offset + byte_length) - 1) in
  "bytes " +:+ pretty byte_offset +:+ "-" +:+ pretty stop +:+ "/" +:+ pretty total_size.

(** * URLs *)

Definition hex_digit (n : N) : ascii := ascii_of_N (if (n <? 10)%N then 48 + n else 55 + n).
(** [format!("%{other:02X}")]. *)
Definition percent_byte (c : ascii) : string :=
  String "%" (String (hex_digit (N_of_ascii c / 16)) (String (hex_digit (N_of_ascii c mod 16)) "")).
Definition is_unreserved (c : ascii) : bool :=
  is_alnum c || Ascii.eqb c "-" || Ascii.eqb c "." || Ascii.eqb c "_" || Ascii.eqb c "~".

Fixpoint percent_encode_path_segment (segment : string) : string :=
  match segment with
  | EmptyString => EmptyString
  | String c rest =>
      if is_unreserved c then String c (percent_encode_path_segment rest)
      else percent_byte c +:+ percent_encode_path_segment rest
  end.

Definition encode_artifact_path (path : string) : string :=
  join "/" (percent_encode_path_segment <$> split_char "/" path).

Definition trim_end_slashes : string -> string := trim_end_by (fun c => Ascii.eqb c "/").

Definition build_transfer_url (peer_endpoint repository_key artifact_path : string) : string :=
  trim_end_slashes peer_endpoint +:+ "/api/v1/repositories/" +:+ repository_key +:+ "/artifacts/" +:+ encode_artifact_path artifact_path.
Definition build_delete_url : string -> string -> string -> string := build_transfer_url.
Definition build_chunked_upload_session_url (peer_endpoint : string) : string := trim_end_slashes peer_endpoint +:+ "/api/v1/uploads".
Section Urls.
Context `{UuidCrate}.
Definition build_chunked_upload_chunk_url (peer_endpoint : string) (session_id : Uuid) : string :=
  trim_end_slashes peer_endpoint +:+ "/api/v1/uploads/" +:+ uuid_display session_id.
Definition build_chunked_upload_complete_url (peer_endpoint : string) (session_id : Uuid) : string :=
  trim_end_slashes peer_endpoint +:+ "/api/v1/uploads/" +:+ uuid_display session_id +:+ "/complete".
End Urls.

Definition delete_response_is_success (status : Z) : bool := (200 <=? status) && (status <? 300) || (status =? 404).

(** * The replication filter *)

(** The regex crate: a pattern that compiles, as the test of a match. *)
Class RegexCrate := { regex_new : string -> option (string -> bool) }.

Section Filter.
Context `{RegexCrate}.

Definition as_array (j : Json) : option (list Json) := match j with JArray l => Some l | _ => None end.
Definition patterns_of (key : string) (filter : Json) : option (list Json) := json_get key filter ≫= as_array.

(** The include loop: [None] is the early return of an invalid pattern. *)
Fixpoint any_include (id : string) (patterns : list Json) : option bool :=
  match patterns with
  | [] => Some false
  | JString p :: rest =>
      match regex_new p with
      | Some matches => if matches id then Some true else any_include id rest
      | None => None
      end
  | _ :: rest => any_include id rest
  end.

Fixpoint any_exclude (id : string) (patterns : list Json) : bool :=
  match patterns with
  | [] => false
  | JString p :: rest =>
      match regex_new p with
      | Some matches => if matches id then true else any_exclude id rest
      | None => any_exclude id rest
      end
  | _ :: rest => any_exclude id rest
  end.

Definition matches_replication_filter (id : string) (filter : option Json) : bool :=
  match filter with
  | None => true
  | Some filter =>
      let included :=
        match patterns_of "include_patterns" filter with
        | Some (_ :: _ as includes) => match any_include id includes with Some true => true | _ => false end
        | _ => true
        end in
      included && match patterns_of "exclude_patterns" filter with Some excludes => negb (any_exclude id excludes) | None => true end
  end.
End Filter.
