(* ===== verification/SyncWireFacts.v ===== *)
(** What the wire helpers of the sync worker promise: the pieces of a chunked
    transfer are those the receiving peer expects ([Upload]), an encoded path is
    read back, backoff is bounded and grows, and two ways a setting or a row
    stops a transfer. *)

From stdpp Require Import base list strings pretty gmap.
From Stdlib Require Import ZArith Lia Ascii.
From S2P Require Import Prelude RustStr RustNum Chrono F64 Upload UploadFacts SyncWire.

Local Open Scope string_scope.
Local Open Scope Z_scope.

(** * Pieces *)

Lemma ceil_unique a b c : 0 < b -> (c - 1) * b < a <= c * b -> - (- a / b) = c.
Proof.
  intros Hb Hc. pose proof (Z.div_mod (- a) b ltac:(lia)). pose proof (Z.mod_pos_bound (- a) b Hb). nia.
Qed.

(** The floating-point count of the sender is the integer count of the receiver. *)
Lemma counts_agree total cs : 0 < total < 2 ^ 53 -> 0 < cs <= MAX_CHUNK_SIZE -> total <= I32_MAX * cs ->
  ceil_div_f64 total cs = chunk_count total cs.
Proof.
  intros Ht Hcs Hb. destruct (chunk_count_small total cs) as [Hn Hc]; [lia|done|done|].
  rewrite ceil_div_f64_exact by (unfold MAX_CHUNK_SIZE in *; lia). rewrite (ceil_unique total cs (chunk_count total cs)) by lia. lia.
Qed.

Lemma chunk_range_placeholder total cs n i : chunk_range total cs n i =
  (i, fst (placeholder_range total cs n i), snd (placeholder_range total cs n i)).
Proof. done. Qed.

Lemma compute_chunk_ranges_spec total cs : 0 < total < 2 ^ 53 -> 0 < cs <= MAX_CHUNK_SIZE -> total <= I32_MAX * cs ->
  compute_chunk_ranges total cs =
    (fun i => (i, i * cs, Z.min cs (total - i * cs))) <$> seqZ 0 (chunk_count total cs).
Proof.
  intros Ht Hcs Hb. unfold compute_chunk_ranges. rewrite !(proj2 (Z.leb_gt _ _)) by lia. cbn [orb].
  rewrite counts_agree by done. destruct (chunk_count_small total cs) as [Hn Hc]; [lia|done|done|].
  apply list_fmap_ext. intros ? i Hi%list_elem_of_lookup_2%elem_of_seqZ.
  rewrite chunk_range_placeholder, placeholder_range_inside by lia. done.
Qed.

Lemma build_content_range_header o l total : 0 <= o -> 0 < l -> o + l <= I64_MAX ->
  build_content_range o l total = range_header o (o + l - 1) total.
Proof. intros. unfold build_content_range, range_header. unfold I64_MAX in *. by rewrite (as_i64_id (o + l)), as_i64_id by lia. Qed.

(** C31. Both ends of a replication cut a file alike.  The worker counts the
    pieces with a quotient of floating-point numbers rounded up, the receiving
    peer with integers; for every file below [2^53] bytes and every chunk size
    the peer accepts, if the file has at most [I32_MAX] pieces - every file up to
    2 PiB less a chunk has, a chunk being at least 1 MiB -, the worker's pieces
    are exactly the chunk rows of the peer's session, their lengths are positive
    and add up to the file, and the Content-Range header the worker prints for a
    piece makes the peer store that piece as the row of its index, at its offset.
    A file of more pieces is never replicated whole: the peer accepts the
    session, but its rows, whose count wraps around while the worker's stops at
    [I32_MAX], add up to less than the file. *)
Theorem replicated_chunks_land `{UuidCrate} now sid p db s db' total cs :
  create_session now sid p db = Ok (s, db') -> (forall i, chunks db !! (sid, i) = None) ->
  p_total_size p = total -> p_chunk_size p = Some cs -> total < 2 ^ 53 ->
  (total <= I32_MAX * cs ->
     (forall i o l, (i, o, l) ∈ compute_chunk_ranges total cs <->
        exists row, chunks db' !! (sid, i) = Some row /\ byte_offset row = o /\ byte_length row = l) /\
     sumZ (snd <$> compute_chunk_ranges total cs) = total /\
     (forall i o l body, (i, o, l) ∈ compute_chunk_ranges total cs -> Z.of_nat (String.length (concat_str body)) = l ->
        0 < l <= cs /\ chunk_request (build_content_range o l total) s body = Some (i, o, concat_str body))) /\
  (I32_MAX * cs < total -> sumZ (row_lengths sid (total_chunks s) db') < total) /\
  (total <= (2 ^ 31 - 1) * 2 ^ 20 -> total <= I32_MAX * cs).
Proof.
  intros Hcreate Hnone Ht Ec Hsize. pose proof (row_lengths_created _ _ _ _ _ _ Hcreate) as Hlens.
  apply create_session_inv in Hcreate as (cs' & at_ & -> & Hcs & Hpos & _ & -> & ->).
  rewrite Ec in *. change (default DEFAULT_CHUNK_SIZE (Some cs)) with cs in *. rewrite Ht in *. unfold MIN_CHUNK_SIZE in Hcs.
  split; [intros Hbound|split; [|unfold I32_MAX; nia]].
  2: { intros Hbound. rewrite Hlens. cbn -[placeholder_range]. rewrite Ht. apply placeholders_short; [done|unfold I64_MAX; lia]. }
  destruct (chunk_count_small total cs) as [Hn Hc]; [lia|lia|done|].
  rewrite compute_chunk_ranges_spec by lia. set (n := chunk_count total cs) in *. split_and!.
  - intros i o l. cbn [chunks set_chunks set_sessions]. rewrite insert_placeholders_lookup. cbn [fst snd].
    rewrite list_elem_of_fmap. split.
    + intros (j & [= <- -> ->] & Hj%elem_of_seqZ). rewrite decide_True by (split; [done|lia]).
      eexists. split; [done|]. rewrite placeholder_range_inside by lia. done.
    + intros (row & Hrow & <- & <-). destruct (decide _) as [[_ Hi]|]; [|by rewrite Hnone in Hrow].
      injection Hrow as <-. exists i. split; [|apply elem_of_seqZ; lia]. rewrite placeholder_range_inside by lia. done.
  - rewrite <- list_fmap_compose. pose proof (sum_pieces total cs (Z.to_nat n) ltac:(lia) ltac:(lia)) as Hsum.
    rewrite Z2Nat.id in Hsum by lia. rewrite Z.min_r in Hsum by lia. rewrite <- Hsum. f_equal.
    apply list_fmap_ext. intros ? i Hi%list_elem_of_lookup_2%elem_of_seqZ. cbn. nia.
  - intros i o l body (j & [= <- -> ->] & Hj%elem_of_seqZ)%list_elem_of_fmap Hlen.
    assert (0 < Z.min cs (total - i * cs)) by nia. split; [lia|].
    rewrite build_content_range_header by (unfold I64_MAX; nia). rewrite <- Hlen.
    apply (header_selects_piece (new_session now sid p cs n at_)); cbn; [lia|lia|unfold I64_MAX; lia| |lia].
    intros E. rewrite E in Hlen. cbn in Hlen. lia.
Qed.

(** * Paths *)

Lemma decode_percent_byte c r : percent_decode (percent_byte c +:+ r) = String c (percent_decode r).
Proof. destruct c as [[] [] [] [] [] [] [] []]; reflexivity. Qed.

Lemma decode_unreserved c r : Ascii.eqb c "%" = false -> percent_decode (String c r) = String c (percent_decode r).
Proof. intros Hc. cbn. destruct r as [|a [|b r]]; rewrite ?Hc; done. Qed.

Lemma decode_encoded_segment p r : percent_decode (percent_encode_path_segment p +:+ r) = p +:+ percent_decode r.
Proof.
  induction p as [|c p IH]; [done|]. cbn [percent_encode_path_segment]. destruct (is_unreserved c) eqn:Hu.
  - cbn [String.append]. rewrite decode_unreserved by (destruct c as [[] [] [] [] [] [] [] []]; done). cbn. by f_equal.
  - rewrite <- append_assoc, decode_percent_byte, IH. done.
Qed.

(** What may stand in an encoded path. *)
Definition is_url_byte (c : ascii) : bool := is_unreserved c || Ascii.eqb c "%" || Ascii.eqb c "/".

Lemma segment_bytes p : str_all (fun c => is_url_byte c && negb (Ascii.eqb "/" c)) (percent_encode_path_segment p) = true.
Proof.
  induction p as [|c p IH]; [done|]. cbn [percent_encode_path_segment]. destruct (is_unreserved c) eqn:Hu.
  - cbn [str_all]. rewrite IH, andb_true_r. unfold is_url_byte. rewrite Hu. revert Hu. clear IH. revert c. by_bytes.
  - rewrite str_all_app, IH, andb_true_r. clear IH Hu. revert c. by_bytes.
Qed.

(** An artifact path survives the URL of a replication: decoding the
    encoded path gives the path back, whatever bytes it has, the encoded path
    has the segments of the path, one for one, and only unreserved bytes, escapes
    and slashes. *)
Theorem encoded_path_roundtrip path :
  percent_decode (encode_artifact_path path) = path /\
  split_char "/" (encode_artifact_path path) = percent_encode_path_segment <$> split_char "/" path /\
  str_all is_url_byte (encode_artifact_path path) = true.
Proof.
  unfold encode_artifact_path. split_and!.
  - rewrite <- (split_on_join "/" path) at 2. generalize (split_on_nonempty (Ascii.eqb "/") path).
    change (split_on (Ascii.eqb "/") path) with (split_char "/" path). generalize (split_char "/" path). intros l _.
    induction l as [|p l IH]; [done|]. destruct l as [|q l].
    + cbn. rewrite <- (append_nil_r (percent_encode_path_segment p)), decode_encoded_segment. by rewrite append_nil_r.
    + change (percent_decode (percent_encode_path_segment p +:+ String "/" (join "/" (percent_encode_path_segment <$> q :: l))) =
              p +:+ String "/" (join "/" (q :: l))).
      rewrite decode_encoded_segment, decode_unreserved by done. by rewrite IH.
  - apply split_join; [done| |].
    + pose proof (split_on_nonempty (Ascii.eqb "/") path). unfold split_char. by destruct (split_on _ _).
    + apply Forall_fmap, Forall_forall. intros p _. cbn. eapply str_all_weaken; [|apply segment_bytes].
      by intros c [_ Hc]%andb_prop.
  - apply str_all_join; [done|]. apply Forall_fmap, Forall_forall. intros p _. cbn.
    eapply str_all_weaken; [|apply segment_bytes]. by intros c [Hc _]%andb_prop.
Qed.

(** * Backoff *)

(** The delay after a failure is at least a second and at most the cap,
    never shrinks as failures accumulate, and doubles with each until the cap:
    the 64-bit arithmetic saturates instead of wrapping. *)
Theorem backoff_bounded failures base most : 0 <= failures < 2 ^ 31 -> 0 <= base < 2 ^ 64 -> 0 <= most < 2 ^ 64 ->
  let delay n := calculate_configured_backoff n base most in
  1 <= delay failures <= Z.max most 1 /\
  delay failures = Z.min (Z.max most 1) (Z.max base 1 * 2 ^ failures) /\
  delay failures <= delay (failures + 1) <= 2 * delay failures.
Proof.
  intros Hf Hb Hm delay.
  assert (forall n, 0 <= n < 2 ^ 32 -> delay n = Z.min (Z.max most 1) (Z.max base 1 * 2 ^ n)) as Hd.
  { intros n Hn. unfold delay, calculate_configured_backoff, as_u32. rewrite (Z.max_l n 0), (Z.mod_small n) by lia.
    assert (1 <= 2 ^ n) by (apply Z.lt_pred_le, Z.pow_pos_nonneg; lia). unfold saturate_u64.
    destruct (Z_le_gt_dec (2 ^ n) (2 ^ 64 - 1)); [rewrite (Z.min_r (2 ^ 64 - 1) (2 ^ n)), (Z.max_r 0 (2 ^ n)) by lia; nia|].
    rewrite (Z.min_l (2 ^ 64 - 1) (2 ^ n)), (Z.max_r 0 (2 ^ 64 - 1)) by lia. nia. }
  rewrite !Hd by lia. assert (1 <= 2 ^ failures) by (apply Z.lt_pred_le, Z.pow_pos_nonneg; lia).
  rewrite Z.pow_add_r by lia. split_and!; nia.
Qed.

(** * Settings and rows that stop a transfer *)

(** A four-byte offset whose second byte is inside a character: the slice
    panics, and nothing refuses such a zone when it is written. *)
Example zone_panics : parse_utc_offset_secs "+€1" = None.
Proof. reflexivity. Qed.

(** A window that starts and ends at the same time is never open, and a window
    and its complement are never open together. *)
Lemma window_complement start stop now : is_within_sync_window start start now = false /\
  (start <> stop -> is_within_sync_window start stop now = negb (is_within_sync_window stop start now)).
Proof.
  unfold is_within_sync_window. rewrite Z.leb_refl.
  destruct (Z.leb_spec start stop), (Z.leb_spec stop start), (Z.leb_spec start now), (Z.leb_spec stop now),
    (Z.ltb_spec now start), (Z.ltb_spec now stop); cbn; split; intros; try lia; done.
Qed.

(** An empty file with metadata goes the chunked way, and no peer opens a session
    for it. *)
Lemma empty_file_has_no_session `{UuidCrate} now sid p db : p_total_size p = 0 ->
  create_session now sid p db = Err (InvalidChunk "total_size must be a positive integer") /\
  compute_chunk_ranges 0 (default DEFAULT_CHUNK_SIZE (p_chunk_size p)) = [].
Proof. intros Hp. unfold create_session. by rewrite Hp. Qed.

(** * Witnesses *)

Definition replica_params : CreateSessionParams :=
  {| p_user_id := 7%N; p_repo_id := 3%N; p_repo_key := "generic"; p_artifact_path := "a.txt";
     p_artifact_name := None; p_artifact_version := None; p_artifact_metadata_format := None;
     p_artifact_metadata := None; p_artifact_metadata_properties := None; p_package_description := None;
     p_package_metadata := None; p_is_replication := true; p_total_size := 2621440; p_max_upload_size := 0;
     p_chunk_size := Some 1048576; p_checksum_sha256 := "abc"; p_content_type := None |}.

(** Past the bound the two counts part. *)
Example counts_part : ceil_div_f64 (I32_MAX * 1048576 + 1) 1048576 = I32_MAX /\ chunk_count (I32_MAX * 1048576 + 1) 1048576 = - 2 ^ 31.
Proof. vm_compute. done. Qed.

(** The text of an id is its decimal number. *)
#[local] Instance decimal_ids : UuidCrate := {| uuid_display := pretty |}.

Lemma replicated_chunks_land_witness : exists s db', create_session 0 1%N replica_params sample_db = Ok (s, db') /\
  (exists row, chunks db' !! (1%N, 2) = Some row /\ byte_offset row = 2097152 /\ byte_length row = 524288) /\
  sumZ (snd <$> compute_chunk_ranges 2621440 1048576) = 2621440.
Proof.
  assert (exists s db', create_session 0 1%N replica_params sample_db = Ok (s, db')) as (s & db' & E)
    by (unfold create_session; cbn; eauto).
  exists s, db'. split; [exact E|].
  destruct (replicated_chunks_land 0 1%N replica_params sample_db s db' 2621440 1048576 E (fun _ => eq_refl) eq_refl eq_refl
    ltac:(lia)) as (Hall & _ & _). destruct Hall as (Hrows & Hsum & _); [vm_compute; discriminate|].
  split; [|exact Hsum]. apply Hrows. vm_compute. do 2 right. left.
Defined.

Lemma backoff_bounded_witness : 0 <= 3 < 2 ^ 31 /\ 1 <= calculate_configured_backoff 3 30 3600 <= 3600.
Proof. split; [lia|]. exact (proj1 (backoff_bounded 3 30 3600 ltac:(lia) ltac:(lia) ltac:(lia))). Defined.
