(* ===== verification/OciPlan.v ===== *)
(** The objects a replicated image needs, in the order they are sent
    ([build_oci_transfer_plan] and the helpers around it in
    [services/sync_worker.rs]), read from the tables a native push fills
    ([GcDb], [BlobGc]). *)

From stdpp Require Import base list strings gmap.
From Stdlib Require Import ZArith Lia Ascii.
From S2P Require Import Prelude RustStr RustNum GcDb SyncWire.

Local Open Scope string_scope.
Local Open Scope result_scope.
Local Open Scope list_scope.

(** * Paths and items *)

(** [str::split_once] of a text. *)
Fixpoint split_once_at (pat s : string) : option (string * string) :=
  match strip_prefix pat s with
  | Some rest => Some (EmptyString, rest)
  | None =>
      match s with
      | EmptyString => None
      | String c s => '(a, b) ← split_once_at pat s; Some (String c a, b)
      end
  end.

Definition parse_oci_manifest_path (path : string) : option (string * string) :=
  rest ← strip_prefix "v2/" path;
  '(image, reference) ← split_once_at "/manifests/" rest;
  if is_empty image || is_empty reference then None else Some (image, reference).

Example parse_oci_manifest_path_1 : parse_oci_manifest_path "v2/library/nginx/manifests/1.0" = Some ("library/nginx", "1.0") /\
  parse_oci_manifest_path "v2//manifests/1.0" = None /\ parse_oci_manifest_path "v2/x/manifests/" = None /\
  parse_oci_manifest_path "v2/a/manifests/b/manifests/c" = Some ("a", "b/manifests/c").
Proof. done. Qed.

Definition OCI_BLOB_KEY_PREFIX : string := "oci-blobs/".
Definition OCI_MANIFEST_KEY_PREFIX : string := "oci-manifests/".

Record OciTransferItem := { is_manifest : bool; item_digest : string; item_key : string; item_type : string }.

Definition build_oci_blob_replication_url (endpoint repository_key digest : string) : string :=
  trim_end_slashes endpoint +:+ "/api/v1/repositories/" +:+ encode_artifact_path repository_key +:+ "/oci/blobs/" +:+
  encode_artifact_path digest.
Definition build_oci_manifest_replication_url (endpoint repository_key digest : string) : string :=
  trim_end_slashes endpoint +:+ "/api/v1/repositories/" +:+ encode_artifact_path repository_key +:+ "/oci/manifests/" +:+
  encode_artifact_path digest.

(** The reference a manifest is sent under. *)
Definition item_reference (top : OciTransferItem) (reference : string) (item : OciTransferItem) : string :=
  if item_digest item =? item_digest top then reference else item_digest item.

(** * The walk *)

(** [Vec::dedup]. *)
Fixpoint dedup (l : list string) : list string :=
  match l with
  | [] => []
  | x :: l => match dedup l with
              | [] => [x]
              | y :: rest => if x =? y then y :: rest else x :: y :: rest
              end
  end.

Definition sorted_digests (l : list string) : list string := dedup (sort_by String.compare l).

Section Plan.
(** The repository's tables, and the reads of the walk that fail. *)
Context (repo : Uuid) (db : GcDb) (blob_fault child_fault type_fault : string -> option string).

Definition blob_refs (manifest : string) : list string :=
  omap (fun m => if decide (ref_repo m = repo /\ ref_manifest m = manifest) then Some (ref_blob m) else None) (manifest_blob_refs db).
Definition child_refs (parent : string) : list string :=
  omap (fun m => if decide (child_repo m = repo /\ parent_digest m = parent) then Some (child_digest m) else None) (oci_manifest_refs db).

(** The first tag on the digest; a fault counts as none. *)
Definition child_manifest_content_type (digest : string) : option string :=
  match type_fault digest with
  | Some _ => None
  | None => tag_media_type <$> List.find (fun t => bool_decide (tag_repo t = repo) && (tag_digest t =? digest)) (oci_tags db)
  end.

Definition blob_item (digest : string) : OciTransferItem :=
  {| is_manifest := false; item_digest := digest; item_key := OCI_BLOB_KEY_PREFIX +:+ digest; item_type := "application/octet-stream" |}.
Definition child_item (digest : string) : OciTransferItem :=
  {| is_manifest := true; item_digest := digest; item_key := OCI_MANIFEST_KEY_PREFIX +:+ digest;
     item_type := default "application/vnd.oci.image.manifest.v1+json" (child_manifest_content_type digest) |}.

Definition MAX_DEPTH : nat := 8.

(** The plan so far, and the digests met. *)
Definition Walk : Type := list OciTransferItem * gset string.

Definition push_blob (st : Walk) (digest : string) : Walk :=
  if decide (digest ∈ st.2) then st else (st.1 ++ [blob_item digest], {[digest]} ∪ st.2).

(** The children of a manifest in turn, [visit] being the walk one level down. *)
Fixpoint push_children (visit : string -> Walk -> result string Walk) (l : list string) (st : Walk) : result string Walk :=
  match l with
  | [] => Ok st
  | c :: l =>
      if decide (c ∈ st.2) then push_children visit l st
      else let? st := visit c st in push_children visit l (st.1 ++ [child_item c], st.2)
  end.

(** [walk]; [levels] is [MAX_DEPTH + 1 - depth]. *)
Fixpoint walk (levels : nat) (digest : string) (st : Walk) : result string Walk :=
  match levels with
  | O => Ok st
  | S levels =>
      if decide (digest ∈ st.2) then Ok st
      else
        match blob_fault digest with
        | Some e => Err ("Failed to read manifest blob refs: " +:+ e)
        | None =>
            let st := foldl push_blob (st.1, {[digest]} ∪ st.2) (sorted_digests (blob_refs digest)) in
            match child_fault digest with
            | Some e => Err ("Failed to read index child refs: " +:+ e)
            | None => push_children (walk levels) (sorted_digests (child_refs digest)) st
            end
        end
  end.

Definition build_oci_transfer_plan (top : OciTransferItem) : result string (list OciTransferItem) :=
  let? st := walk (S MAX_DEPTH) (item_digest top) ([], ∅) in
  Ok (st.1 ++ [{| is_manifest := true; item_digest := item_digest top; item_key := item_key top; item_type := item_type top |}]).

(** * What the plan holds *)

(** The objects a manifest refers to. *)
Definition refs (manifest : string) : list string := blob_refs manifest ++ child_refs manifest.

(** The manifests of an image. *)
Inductive manifest_of (top : string) : string -> Prop :=
| manifest_top : manifest_of top top
| manifest_child m c : manifest_of top m -> c ∈ child_refs m -> manifest_of top c.

(** Everything a manifest of the list refers to comes before it. *)
Definition closed (l : list OciTransferItem) : Prop :=
  forall pre item post, l = pre ++ item :: post -> is_manifest item = true ->
    forall d, d ∈ refs (item_digest item) -> d ∈ item_digest <$> pre.
End Plan.
