(* ===== verification/SyncQueue.v ===== *)
(** The queue of replications: its tables (migrations 008, 064, 070, 148), the
    statements that fill it ([services/peer_instance_service.rs],
    [services/artifact_service.rs], [services/sync_policy_service.rs]) and the
    claims and finalizers of the worker ([services/sync_worker.rs]). *)

From stdpp Require Import base list strings gmap.
From Stdlib Require Import ZArith Lia.
From S2P Require Import Prelude RustStr RustNum Errors Chrono F64 SyncWire.

Local Open Scope string_scope.
Local Open Scope Z_scope.

(** * Tables *)

Inductive SyncStatus := Pending | InProgress | Completed | Failed | Cancelled.
Inductive TaskType := Push | Delete.
Inductive InstanceStatus := Online | Offline | Syncing | Degraded.
Inductive ReplicationMode := ModePush | ModePull | ModeMirror | ModeNone.

#[global] Instance SyncStatus_eq_dec : EqDecision SyncStatus.
Proof. solve_decision. Defined.
#[global] Instance TaskType_eq_dec : EqDecision TaskType.
Proof. solve_decision. Defined.
#[global] Instance InstanceStatus_eq_dec : EqDecision InstanceStatus.
Proof. solve_decision. Defined.

(** A row of [sync_tasks]; its byte count, which only listings read, is left
    out. *)
Record SyncTask := {
  task_peer : Uuid;
  task_artifact : Uuid;
  task_type : TaskType;
  task_status : SyncStatus;
  priority : Z;
  task_created : DateTime;
  task_started : option DateTime;
  task_completed : option DateTime;
  task_error : option string;
  retry_count : Z;
  max_retries : Z;
  claimed_by : option string;
  claim_token : option Uuid;
  claim_expires_at : option DateTime
}.

(** A row of [peer_instances], as far as the worker reads or writes it. *)
Record Peer := {
  is_local : bool;
  peer_status : InstanceStatus;
  sync_window_start : option Z;
  sync_window_end : option Z;
  sync_window_timezone : option string;
  concurrent_transfers_limit : option Z;
  active_transfers : Z;
  backoff_until : option DateTime;
  consecutive_failures : Z;
  transfer_failures_total : Z;
  bytes_transferred_total : Z;
  last_heartbeat_at : option DateTime;
  last_sync_at : option DateTime
}.

(** A row of [artifacts] with the columns of its repository that matter here. *)
Record SyncArtifact := {
  art_repository : Uuid;
  art_name : string;
  art_version : option string;
  art_path : string;
  art_size : Z;
  art_checksum : string;
  art_storage_key : string;
  art_content_type : string;
  art_deleted : bool;
  art_has_metadata : bool
}.

Record SyncRepository := { versioning_enabled : bool; repo_format : string }.

(** A row of [peer_repo_subscriptions], under its peer and repository. *)
Record Subscription := {
  sync_enabled : bool;
  replication_mode : ReplicationMode;
  replication_filter : option Json;
  last_replicated_at : option DateTime
}.

Record SyncDb := {
  tasks : gmap Uuid SyncTask;
  peers : gmap Uuid Peer;
  artifacts : gmap Uuid SyncArtifact;
  repositories : gmap Uuid SyncRepository;
  subscriptions : gmap (Uuid * Uuid) Subscription
}.

Definition set_tasks (f : gmap Uuid SyncTask -> gmap Uuid SyncTask) (db : SyncDb) : SyncDb :=
  {| tasks := f (tasks db); peers := peers db; artifacts := artifacts db; repositories := repositories db;
     subscriptions := subscriptions db |}.
Definition set_peers (f : gmap Uuid Peer -> gmap Uuid Peer) (db : SyncDb) : SyncDb :=
  {| tasks := tasks db; peers := f (peers db); artifacts := artifacts db; repositories := repositories db;
     subscriptions := subscriptions db |}.
Definition set_artifacts (f : gmap Uuid SyncArtifact -> gmap Uuid SyncArtifact) (db : SyncDb) : SyncDb :=
  {| tasks := tasks db; peers := peers db; artifacts := f (artifacts db); repositories := repositories db;
     subscriptions := subscriptions db |}.
Definition set_subscriptions (f : gmap (Uuid * Uuid) Subscription -> gmap (Uuid * Uuid) Subscription) (db : SyncDb) : SyncDb :=
  {| tasks := tasks db; peers := peers db; artifacts := artifacts db; repositories := repositories db;
     subscriptions := f (subscriptions db) |}.

(** ** Columns a statement sets *)

(** The claim columns of a row. *)
Definition set_claim (by_ : option string) (token : option Uuid) (expires : option DateTime) (t : SyncTask) : SyncTask :=
  {| task_peer := task_peer t; task_artifact := task_artifact t; task_type := task_type t; task_status := task_status t;
     priority := priority t; task_created := task_created t; task_started := task_started t; task_completed := task_completed t;
     task_error := task_error t; retry_count := retry_count t; max_retries := max_retries t;
     claimed_by := by_; claim_token := token; claim_expires_at := expires |}.
Definition clear_claim : SyncTask -> SyncTask := set_claim None None None.

(** The status with its times, its message and its count. *)
Definition set_state (st : SyncStatus) (started completed : option DateTime) (error : option string) (retries : Z) (t : SyncTask) : SyncTask :=
  {| task_peer := task_peer t; task_artifact := task_artifact t; task_type := task_type t; task_status := st;
     priority := priority t; task_created := task_created t; task_started := started; task_completed := completed;
     task_error := error; retry_count := retries; max_retries := max_retries t;
     claimed_by := claimed_by t; claim_token := claim_token t; claim_expires_at := claim_expires_at t |}.
Definition set_priority (p : Z) (t : SyncTask) : SyncTask :=
  {| task_peer := task_peer t; task_artifact := task_artifact t; task_type := task_type t; task_status := task_status t;
     priority := p; task_created := task_created t; task_started := task_started t; task_completed := task_completed t;
     task_error := task_error t; retry_count := retry_count t; max_retries := max_retries t;
     claimed_by := claimed_by t; claim_token := claim_token t; claim_expires_at := claim_expires_at t |}.

Definition set_transfer_counters (active : Z) (backoff : option DateTime) (failures total bytes : Z) (synced : option DateTime) (p : Peer) : Peer :=
  {| is_local := is_local p; peer_status := peer_status p; sync_window_start := sync_window_start p;
     sync_window_end := sync_window_end p; sync_window_timezone := sync_window_timezone p;
     concurrent_transfers_limit := concurrent_transfers_limit p; active_transfers := active; backoff_until := backoff;
     consecutive_failures := failures; transfer_failures_total := total; bytes_transferred_total := bytes;
     last_heartbeat_at := last_heartbeat_at p; last_sync_at := synced |}.
Definition set_health (st : InstanceStatus) (heartbeat : option DateTime) (failures : Z) (p : Peer) : Peer :=
  {| is_local := is_local p; peer_status := st; sync_window_start := sync_window_start p;
     sync_window_end := sync_window_end p; sync_window_timezone := sync_window_timezone p;
     concurrent_transfers_limit := concurrent_transfers_limit p; active_transfers := active_transfers p;
     backoff_until := backoff_until p; consecutive_failures := failures; transfer_failures_total := transfer_failures_total p;
     bytes_transferred_total := bytes_transferred_total p; last_heartbeat_at := heartbeat; last_sync_at := last_sync_at p |}.

(** UPDATE .. WHERE: the rows that satisfy the guard. *)
Definition update_where {K A} `{Countable K} (guard : K -> A -> bool) (f : A -> A) (m : gmap K A) : gmap K A :=
  map_imap (fun k a => Some (if guard k a then f a else a)) m.

(** ** Conditions of the statements *)

(** [t <= NOW()], unknown for NULL. *)
Definition past (now : DateTime) (t : option DateTime) : bool := match t with Some t => t <=? now | None => false end.
Definition null_or_past (now : DateTime) (t : option DateTime) : bool := match t with Some t => t <=? now | None => true end.

Definition status_in (l : list SyncStatus) (t : SyncTask) : bool := bool_decide (task_status t ∈ l).
Definition is_push (t : SyncTask) : bool := bool_decide (task_type t = Push).
Definition is_delete (t : SyncTask) : bool := bool_decide (task_type t = Delete).

(** [status = 'in_progress' AND claim_token = $n]. *)
Definition holds_claim (token : Uuid) (t : SyncTask) : bool :=
  bool_decide (task_status t = InProgress) && bool_decide (claim_token t = Some token).

(** The tasks of the other kind for the same peer and artifact. *)
Definition some_task (p : SyncTask -> bool) (m : gmap Uuid SyncTask) : bool := existsb (fun kt => p (snd kt)) (map_to_list m).
Definition same_target (a b : SyncTask) : bool := bool_decide (task_peer a = task_peer b) && bool_decide (task_artifact a = task_artifact b).

Definition budget (policy_max : Z) (t : SyncTask) : Z := Z.max (max_retries t) policy_max.

(** A delete that has not had its last word yet holds back the pushes. *)
Definition delete_outstanding (policy_max : Z) (d : SyncTask) : bool :=
  is_delete d && (status_in [Pending; InProgress] d || (status_in [Failed] d && (retry_count d <? budget policy_max d))).

(** * Claims *)

Definition live_claim (now : DateTime) (peer : Uuid) (t : SyncTask) : bool :=
  bool_decide (task_peer t = peer) && bool_decide (task_status t = InProgress) && bool_decide (is_Some (claim_token t)) &&
  match claim_expires_at t with Some e => now <? e | None => false end.

Definition live_claims (now : DateTime) (peer : Uuid) (db : SyncDb) : Z :=
  Z.of_nat (length (filter (fun kt => live_claim now peer (snd kt) = true) (map_to_list (tasks db)))).

(** The [candidate] rows, before the order and the limit. *)
Definition claimable (now : DateTime) (peer : Uuid) (policy_max : Z) (db : SyncDb) (t : SyncTask) : bool :=
  bool_decide (task_peer t = peer) && bool_decide (task_status t = Pending) && null_or_past now (claim_expires_at t) &&
  match artifacts db !! task_artifact t with
  | Some a =>
      (is_delete t || negb (art_deleted a)) &&
      (is_delete t || negb (some_task (fun d => same_target d t && delete_outstanding policy_max d) (tasks db)))
  | None => false
  end.

(** [ORDER BY priority DESC, created_at ASC]; ties in the order of the map. *)
Definition claim_order : Uuid * SyncTask -> Uuid * SyncTask -> comparison :=
  lex (cmp_on (fun kt => - priority (snd kt)) Z.compare) (cmp_on (fun kt => task_created (snd kt)) Z.compare).

Definition claim_limit (now : DateTime) (peer : Uuid) (available_slots concurrent_limit : Z) (db : SyncDb) : Z :=
  Z.min available_slots (Z.max (concurrent_limit - live_claims now peer db) 0).

(** A claimed row with what the statement joins to it: [Claimed<TaskRow>]. *)
Record ClaimedTask := {
  claimed_id : Uuid;
  claimed_row : SyncTask;
  claimed_artifact : SyncArtifact;
  claimed_filter : option Json;
  claimed_max_retries : Z;
  token_of : Uuid
}.

(** The claim: [locked] are the rows [SKIP LOCKED] passes over, [fresh] draws a
    token per row, [ttl] is in seconds. *)
Definition claim_candidates (now : DateTime) (peer : Uuid) (available_slots concurrent_limit policy_max : Z)
  (locked : Uuid -> bool) (db : SyncDb) : list (Uuid * SyncTask) :=
  take (Z.to_nat (claim_limit now peer available_slots concurrent_limit db))
    (sort_by claim_order
      (filter (fun kt => claimable now peer policy_max db (snd kt) && negb (locked (fst kt)) = true) (map_to_list (tasks db)))).

Definition claim_row (now : DateTime) (identity : string) (ttl : Z) (token : Uuid) (t : SyncTask) : SyncTask :=
  set_claim (Some identity) (Some token) (Some (now + ttl * NANOS_PER_SEC))
    (set_state InProgress (Some now) (task_completed t) (task_error t) (retry_count t) t).

Definition joined (now : DateTime) (identity : string) (ttl policy_max : Z) (fresh : Uuid -> Uuid) (db : SyncDb)
  (kt : Uuid * SyncTask) : option ClaimedTask :=
  let t := claim_row now identity ttl (fresh (fst kt)) (snd kt) in
  a ← artifacts db !! task_artifact t;
  Some {| claimed_id := fst kt; claimed_row := t; claimed_artifact := a;
          claimed_filter := subscriptions db !! (task_peer t, art_repository a) ≫= replication_filter;
          claimed_max_retries := budget policy_max t; token_of := fresh (fst kt) |}.

Definition claim_pending_sync_tasks (fault : option string) (now : DateTime) (peer : Uuid)
  (available_slots concurrent_limit policy_max : Z) (identity : string) (ttl : Z) (locked : Uuid -> bool)
  (fresh : Uuid -> Uuid) (db : SyncDb) : result string (list ClaimedTask) * SyncDb :=
  match fault with
  | Some e => (Err e, db)
  | None =>
      let chosen := claim_candidates now peer available_slots concurrent_limit policy_max locked db in
      (Ok (omap (joined now identity ttl policy_max fresh db) chosen),
       set_tasks (fun m => foldr (fun kt m => <[fst kt := claim_row now identity ttl (fresh (fst kt)) (snd kt)]> m) m chosen) db)
  end.

(** ** Claims that lapsed *)

Definition claim_lapsed (now : DateTime) (t : SyncTask) : bool :=
  bool_decide (task_status t = InProgress) &&
  (bool_decide (claim_token t = None) || bool_decide (claimed_by t = None) || bool_decide (claim_expires_at t = None) ||
   past now (claim_expires_at t)).

(** The count per peer, [GROUP BY peer_instance_id]. *)
Definition lapsed_of (now : DateTime) (peer : Uuid) (m : gmap Uuid SyncTask) : Z :=
  Z.of_nat (length (filter (fun kt => claim_lapsed now (snd kt) && bool_decide (task_peer (snd kt) = peer) = true) (map_to_list m))).

Definition recover_expired_sync_task_claims (now : DateTime) (db : SyncDb) : SyncDb :=
  let recovered := tasks db in
  set_peers (map_imap (fun k p => Some (
      let n := lapsed_of now k recovered in
      if n =? 0 then p
      else set_transfer_counters (Z.max (active_transfers p - n) 0) (backoff_until p) (consecutive_failures p)
             (transfer_failures_total p) (bytes_transferred_total p) (last_sync_at p) p)))
    (set_tasks (update_where (fun _ => claim_lapsed now)
      (fun t => clear_claim (set_state Pending None (task_completed t) (task_error t) (retry_count t) t))) db).

Definition extend_sync_task_claim (fault : bool) (now : DateTime) (id token : Uuid) (ttl : Z) (db : SyncDb) : SyncDb :=
  if fault then db
  else set_tasks (alter (fun t => if holds_claim token t
         then set_claim (claimed_by t) (claim_token t) (Some (now + ttl * NANOS_PER_SEC)) t else t) id) db.

(** ** The retry of failed tasks *)

Definition peer_reachable (now : DateTime) (p : Peer) : bool :=
  negb (is_local p) && bool_decide (peer_status p ∈ [Online; Syncing]) && null_or_past now (backoff_until p).

Definition retriable (now : DateTime) (policy_max : Z) (db : SyncDb) (t : SyncTask) : bool :=
  bool_decide (task_status t = Failed) && (retry_count t <? budget policy_max t) &&
  match artifacts db !! task_artifact t with Some a => is_delete t || negb (art_deleted a) | None => false end &&
  match peers db !! task_peer t with Some p => peer_reachable now p | None => false end.

Definition reset_retriable (now : DateTime) (policy_max : Z) (db : SyncDb) : SyncDb :=
  set_tasks (update_where (fun _ => retriable now policy_max db)
    (fun t => clear_claim (set_state Pending None None None (retry_count t) t))) db.

(** * The end of a task

    Each finalizer is a token-guarded UPDATE of the task; only the owner goes on
    to the peer's counters. *)

(** Whether the row was the caller's, and the tables. *)
Definition finalize (id token : Uuid) (f : SyncTask -> SyncTask) (db : SyncDb) : bool * SyncDb :=
  match tasks db !! id with
  | Some t => if holds_claim token t then (true, set_tasks <[id := f t]> db) else (false, db)
  | None => (false, db)
  end.

Definition complete_row (now : DateTime) (t : SyncTask) : SyncTask :=
  clear_claim (set_state Completed (task_started t) (Some now) (task_error t) (retry_count t) t).

(** [REARM_SUPERSEDED_PUSH_SQL]; [sent] is the checksum that was sent. *)
Definition superseded (sent : option string) (db : SyncDb) (t : SyncTask) : bool :=
  is_push t && status_in [Completed; Failed; Cancelled] t &&
  match artifacts db !! task_artifact t with
  | Some a =>
      negb (art_deleted a) &&
      match repositories db !! art_repository a with
      | Some r =>
          (versioning_enabled r && one_of (repo_format r) ["generic"; "mlmodel"] && negb (bool_decide (Some (art_checksum a) = sent))) ||
          some_task (fun d => same_target d t && is_delete d &&
            (status_in [Pending; InProgress] d ||
             (negb (status_in [Cancelled] d) &&
              match task_completed d, task_completed t with Some x, Some y => y <? x | _, _ => false end))) (tasks db)
      | None => false
      end
  | None => false
  end.

Definition rearm_superseded_push (id : Uuid) (sent : option string) (db : SyncDb) : SyncDb :=
  match tasks db !! id with
  | Some t => if superseded sent db t
              then set_tasks <[id := clear_claim (set_state Pending None None None 0 t)]> db else db
  | None => db
  end.

Definition rearm_if_superseded (c : ClaimedTask) (db : SyncDb) : SyncDb :=
  if is_push (claimed_row c) then rearm_superseded_push (claimed_id c) (Some (art_checksum (claimed_artifact c))) db else db.

(** The counters wrap nowhere: they are columns of the database, whose
    arithmetic fails on overflow; [GREATEST] keeps the first at zero. *)
Definition succeed_peer (now : DateTime) (bytes : Z) (p : Peer) : Peer :=
  set_transfer_counters (Z.max (active_transfers p - 1) 0) (backoff_until p) 0 (transfer_failures_total p)
    (bytes_transferred_total p + bytes) (Some now) p.
Definition fail_peer (now : DateTime) (backoff_secs : Z) (p : Peer) : Peer :=
  set_transfer_counters (Z.max (active_transfers p - 1) 0) (Some (now + backoff_secs * NANOS_PER_SEC))
    (consecutive_failures p + 1) (transfer_failures_total p + 1) (bytes_transferred_total p) (last_sync_at p) p.

Definition replicated_now (now : DateTime) (s : Subscription) : Subscription :=
  {| sync_enabled := sync_enabled s; replication_mode := replication_mode s; replication_filter := replication_filter s;
     last_replicated_at := Some now |}.

Definition handle_transfer_success (now : DateTime) (c : ClaimedTask) (bytes : Z) (db : SyncDb) : SyncDb :=
  match finalize (claimed_id c) (token_of c) (complete_row now) db with
  | (false, db) => db
  | (true, db) =>
      let peer := task_peer (claimed_row c) in
      rearm_if_superseded c
        (set_subscriptions (alter (replicated_now now) (peer, art_repository (claimed_artifact c)))
          (set_peers (alter (succeed_peer now bytes) peer) db))
  end.

Definition fail_row (now : DateTime) (error : string) (retries : Z) (t : SyncTask) : SyncTask :=
  clear_claim (set_state Failed (task_started t) (Some now) (Some error) retries t).

Definition handle_transfer_failure (now : DateTime) (c : ClaimedTask) (error : string) (policy : SyncRetryPolicy) (db : SyncDb) : SyncDb :=
  let decision := evaluate_task_failure (retry_count (claimed_row c)) (claimed_max_retries c) in
  match finalize (claimed_id c) (token_of c) (fail_row now error (new_retry_count decision)) db with
  | (false, db) => db
  | (true, db) =>
      let peer := task_peer (claimed_row c) in
      let consecutive := match peers db !! peer with Some p => consecutive_failures p | None => 0 end in
      rearm_if_superseded c (set_peers (alter (fail_peer now (calculate_backoff policy consecutive)) peer) db)
  end.

(** A task the subscription's filter leaves out. *)
Definition complete_filtered (now : DateTime) (c : ClaimedTask) (db : SyncDb) : SyncDb :=
  snd (finalize (claimed_id c) (token_of c) (complete_row now) db).

(** [execute_transfer] first counts itself in. *)
Definition start_transfer (c : ClaimedTask) (db : SyncDb) : SyncDb :=
  set_peers (alter (fun p => set_transfer_counters (active_transfers p + 1) (backoff_until p) (consecutive_failures p)
    (transfer_failures_total p) (bytes_transferred_total p) (last_sync_at p) p) (task_peer (claimed_row c))) db.

(** * Filling the queue *)

(** The unique key of the table: a peer, an artifact and a kind. *)
Definition find_task (peer artifact : Uuid) (kind : TaskType) (m : gmap Uuid SyncTask) : option (Uuid * SyncTask) :=
  List.find (fun kt => bool_decide (task_peer (snd kt) = peer) && bool_decide (task_artifact (snd kt) = artifact) &&
                       bool_decide (task_type (snd kt) = kind)) (map_to_list m).

Definition new_task (now : DateTime) (peer artifact : Uuid) (kind : TaskType) (prio : Z) : SyncTask :=
  {| task_peer := peer; task_artifact := artifact; task_type := kind; task_status := Pending; priority := prio;
     task_created := now; task_started := None; task_completed := None; task_error := None; retry_count := 0;
     max_retries := 3; claimed_by := None; claim_token := None; claim_expires_at := None |}.

(** INSERT .. ON CONFLICT (peer, artifact, kind) DO UPDATE: the row's id and the
    table; [id] is drawn for a new row. *)
Definition upsert_task (now : DateTime) (id peer artifact : Uuid) (kind : TaskType) (prio : Z) (f : SyncTask -> SyncTask)
  (m : gmap Uuid SyncTask) : Uuid * gmap Uuid SyncTask :=
  match find_task peer artifact kind m with
  | Some (k, t) => (k, <[k := f t]> m)
  | None => (id, <[id := new_task now peer artifact kind prio]> m)
  end.

Definition queue_sync_task (now : DateTime) (id peer artifact : Uuid) (prio : Z) (db : SyncDb) : Uuid * SyncDb :=
  let '(k, m) := upsert_task now id peer artifact Push prio (fun t => set_priority (Z.max (priority t) prio) t) (tasks db) in
  (k, rearm_superseded_push k None (set_tasks (fun _ => m) db)).

(** Queue again what is not being executed. *)
Definition requeue (t : SyncTask) : SyncTask :=
  if bool_decide (task_status t = InProgress) then t
  else clear_claim (set_priority (Z.max (priority t) 0)
         (set_state Pending (task_started t) (task_completed t) (task_error t) (retry_count t) t)).
(** The same with a fresh count, as a delete does it. *)
Definition requeue_fresh (t : SyncTask) : SyncTask :=
  if bool_decide (task_status t = InProgress) then t else clear_claim (set_state Pending None None None 0 t).

(** [CANCEL_SUPERSEDED_PUSH_TASKS_SQL]. *)
Definition cancel_superseded_pushes (now : DateTime) (artifact : Uuid) (db : SyncDb) : SyncDb :=
  set_tasks (update_where (fun _ t => bool_decide (task_artifact t = artifact) && is_push t && status_in [Pending; Failed] t)
    (fun t => set_state Cancelled (task_started t) (Some now) (Some "superseded by artifact delete") (retry_count t) t)) db.

(** The peers of [ENQUEUE_DELETE_SYNC_TASKS_SQL]. *)
Definition delete_targets (artifact : Uuid) (db : SyncDb) : list Uuid :=
  match artifacts db !! artifact with
  | Some a =>
      fst <$> filter (fun kp : Uuid * Peer =>
        negb (is_local (snd kp)) && bool_decide (peer_status (snd kp) ∈ [Online; Syncing]) &&
        match subscriptions db !! (fst kp, art_repository a) with
        | Some s => sync_enabled s && match replication_mode s with ModePush | ModeMirror => true | _ => false end
        | None => false
        end = true) (map_to_list (peers db))
  | None => []
  end.

(** One row per target; [fresh] draws the ids. *)
Definition enqueue_delete_sync_tasks (now : DateTime) (artifact : Uuid) (fresh : Uuid -> Uuid) (db : SyncDb) : SyncDb :=
  set_tasks (fun m => foldl (fun m peer => snd (upsert_task now (fresh peer) peer artifact Delete 0 requeue_fresh m)) m
    (delete_targets artifact db)) db.

Definition set_deleted (b : bool) (a : SyncArtifact) : SyncArtifact :=
  {| art_repository := art_repository a; art_name := art_name a; art_version := art_version a; art_path := art_path a;
     art_size := art_size a; art_checksum := art_checksum a; art_storage_key := art_storage_key a;
     art_content_type := art_content_type a; art_deleted := b; art_has_metadata := art_has_metadata a |}.

(** [delete_with_sync_options]: the soft delete, and what follows its commit;
    the statements after the commit may fail ([cancelled], [queued] are false). *)
Definition delete_with_sync_options (now : DateTime) (artifact : Uuid) (enqueue cancelled queued : bool) (fresh : Uuid -> Uuid)
  (db : SyncDb) : result AppError SyncDb :=
  match artifacts db !! artifact with
  | Some a =>
      if art_deleted a then Err (NotFound "Artifact not found")
      else
        let db := set_artifacts <[artifact := set_deleted true a]> db in
        let db := if cancelled then cancel_superseded_pushes now artifact db else db in
        Ok (if enqueue && queued then enqueue_delete_sync_tasks now artifact fresh db else db)
  | None => Err (NotFound "Artifact not found")
  end.

(** Steps 6 to 8 of [evaluate_for_artifact], for the peers its policies want. *)
Definition synced_peers (artifact : Uuid) (m : gmap Uuid SyncTask) : list Uuid :=
  remove_dups ((fun kt => task_peer (snd kt)) <$>
    filter (fun kt => bool_decide (task_artifact (snd kt) = artifact) && is_push (snd kt) && status_in [Completed] (snd kt) = true) (map_to_list m)).

Definition cancel_pending (peer artifact : Uuid) (kind : TaskType) (m : gmap Uuid SyncTask) : gmap Uuid SyncTask :=
  update_where (fun _ t => bool_decide (task_peer t = peer) && bool_decide (task_artifact t = artifact) &&
                           bool_decide (task_type t = kind) && status_in [Pending] t)
    (fun t => set_state Cancelled (task_started t) (task_completed t) (task_error t) (retry_count t) t) m.

Definition switch_task (now : DateTime) (artifact : Uuid) (kind other : TaskType) (fresh : Uuid -> Uuid) (peer : Uuid)
  (m : gmap Uuid SyncTask) : gmap Uuid SyncTask :=
  snd (upsert_task now (fresh peer) peer artifact kind 0 requeue (cancel_pending peer artifact other m)).

Definition queue_policy_tasks (now : DateTime) (artifact : Uuid) (desired : list Uuid) (fresh fresh' : Uuid -> Uuid) (db : SyncDb) : SyncDb :=
  let synced := synced_peers artifact (tasks db) in
  let push m peer := if bool_decide (peer ∈ synced) then m else switch_task now artifact Push Delete fresh peer m in
  let remove m peer := if bool_decide (peer ∈ desired) then m else switch_task now artifact Delete Push fresh' peer m in
  set_tasks (fun m => foldl remove (foldl push m desired) synced) db.

(** * Health of the peers *)

Definition mark_peer_online (now : DateTime) (peer : Uuid) (db : SyncDb) : SyncDb :=
  set_peers (alter (set_health Online (Some now) 0) peer) db.
Definition mark_peer_probe_failed (peer : Uuid) (db : SyncDb) : SyncDb :=
  set_peers (alter (fun p => set_health (peer_status p) (last_heartbeat_at p)
    (if consecutive_failures p <? I32_MAX then consecutive_failures p + 1 else consecutive_failures p) p) peer) db.
(** [run_peer_heartbeat_probes], with the answers of the peers. *)
Definition run_peer_heartbeat_probes (now : DateTime) (answers : Uuid -> bool) (db : SyncDb) : SyncDb :=
  foldl (fun db k => if answers k then mark_peer_online now k db else mark_peer_probe_failed k db) db
    (fst <$> filter (fun kp : Uuid * Peer => negb (is_local (snd kp)) = true) (map_to_list (peers db))).
Definition mark_stale_offline (now : DateTime) (threshold_minutes : Z) (db : SyncDb) : SyncDb :=
  set_peers (update_where (fun _ p => bool_decide (peer_status p = Online) &&
      match last_heartbeat_at p with Some t => t <? now - threshold_minutes * 60 * NANOS_PER_SEC | None => false end)
    (fun p => set_health Offline (last_heartbeat_at p) (consecutive_failures p) p)) db.
(** The heartbeat a peer sends. *)
Definition heartbeat (now : DateTime) (peer : Uuid) (status : option InstanceStatus) (db : SyncDb) : SyncDb :=
  set_peers (alter (fun p => set_health (default Online status) (Some now) (consecutive_failures p) p) peer) db.
