(* ===== verification/SyncWorker.v ===== *)
(** What the sync worker does with a claimed task
    ([services/sync_worker.rs]): the exchange with the peer, which ends in one
    of the finalizers of [SyncQueue] or in none, and the tick that chooses the
    peers and claims. *)

From stdpp Require Import base list strings gmap pretty.
From Stdlib Require Import ZArith Lia.
From S2P Require Import Prelude RustStr RustNum Errors Chrono F64 GcDb SyncWire OciPlan SyncQueue.

Local Open Scope string_scope.
Local Open Scope Z_scope.

(** * The exchange with a peer *)

(** What a request comes back with. *)
Inductive Reply := Transport (error : string) | Response (status : Z) (body : option string).

Definition is_success (status : Z) : bool := (200 <=? status) && (status <? 300).
Definition reply_text (body : option string) : string := default "<unreadable>" body.
Definition format_peer_response_failure (action : string) (status : Z) (body : string) : string :=
  action +:+ " " +:+ pretty status +:+ ": " +:+ body.

(** How an execution of a task ends: in [handle_transfer_success], in
    [handle_transfer_failure], or returning without either. *)
Inductive Outcome := Succeeded (bytes : Z) | FailedWith (msg : string) | Abandoned (msg : string).

(** What the world answers to one execution. *)
Record Exchange := {
  status_display : Z -> string;       (** [Display] of the http crate's [StatusCode] *)
  count_in : option string;           (** the failure of the first UPDATE *)
  image_storage : option string;      (** the failure to find the storage backend of an image *)
  image_db : GcDb;                    (** the tables of the registry *)
  blob_fault : string -> option string;
  child_fault : string -> option string;
  type_fault : string -> option string;
  item_bytes : OciTransferItem -> result string Z;   (** the read of an object of an image *)
  item_reply : OciTransferItem -> Reply;
  stored_bytes : result string Z;     (** the read of the whole artifact *)
  put_reply : Reply;
  delete_reply : Reply;
  init_reply : Reply;
  init_session : result string (option Uuid);   (** the JSON of the reply, and its session *)
  chunk_read : Z -> option string;    (** the failure to read a piece *)
  chunk_reply : Z -> Reply;
  complete_reply : Reply
}.

(** The result of a PUT whose success means [ok]. *)
Definition put_outcome (reply : Reply) (ok : Outcome) : Outcome :=
  match reply with
  | Response status body => if is_success status then ok else FailedWith (format_peer_response_failure "Remote peer returned" status (reply_text body))
  | Transport e => FailedWith ("HTTP request failed: " +:+ e)
  end.

Definition execute_delete (x : Exchange) : Outcome :=
  match delete_reply x with
  | Response status body =>
      if delete_response_is_success status then Succeeded 0
      else FailedWith ("Remote peer returned " +:+ status_display x status +:+ " for delete: " +:+ reply_text body)
  | Transport e => FailedWith ("HTTP delete request failed: " +:+ e)
  end.

(** The objects of an image, in order, and those the peer accepted;
    [saturating_add] of [i64]. *)
Fixpoint send_oci_items (x : Exchange) (total : Z) (accepted items : list OciTransferItem) : Outcome * list OciTransferItem :=
  match items with
  | [] => (Succeeded total, accepted)
  | item :: rest =>
      match item_bytes x item with
      | Err e => (FailedWith ("Storage read error for " +:+ item_digest item +:+ " (" +:+ item_key item +:+ "): " +:+ e), accepted)
      | Ok n =>
          match put_outcome (item_reply x item) (Succeeded 0) with
          | Succeeded _ =>
              send_oci_items x (Z.max (- 2 ^ 63) (Z.min I64_MAX (total + n))) (accepted ++ [item])%list rest
          | failed => (failed, accepted)
          end
      end
  end.

(** The manifest of the task. *)
Definition top_item (a : SyncArtifact) : OciTransferItem :=
  {| is_manifest := true; item_digest := "sha256:" +:+ trim_start_matches "sha256:" (art_checksum a);
     item_key := art_storage_key a; item_type := art_content_type a |}.

Definition execute_oci_transfer (x : Exchange) (a : SyncArtifact) : Outcome * list OciTransferItem :=
  match parse_oci_manifest_path (art_path a), image_storage x with
  | None, _ => (FailedWith ("OCI manifest task has an unparseable path: " +:+ art_path a), [])
  | Some _, Some e => (FailedWith e, [])
  | Some _, None =>
      match build_oci_transfer_plan (art_repository a) (image_db x) (blob_fault x) (child_fault x) (type_fault x) (top_item a) with
      | Err e => (FailedWith e, [])
      | Ok items => send_oci_items x 0 [] items
      end
  end.

(** The pieces, in order: the outcome and the number of pieces accepted, after
    each of which the claim is extended. *)
Fixpoint send_chunks (x : Exchange) (sent : Z) (accepted : nat) (ranges : list (Z * Z * Z)) : Outcome * nat :=
  match ranges with
  | [] =>
      match complete_reply x with
      | Response status body =>
          if is_success status then (Succeeded sent, accepted)
          else (FailedWith ("Chunked upload session complete returned " +:+ status_display x status +:+ ": " +:+ reply_text body), accepted)
      | Transport e => (FailedWith ("Chunked upload session complete failed: " +:+ e), accepted)
      end
  | (i, offset, len) :: rest =>
      match chunk_read x i with
      | Some e =>
          (FailedWith ("Failed to read chunk " +:+ pretty i +:+ " (offset=" +:+ pretty offset +:+ ", len=" +:+ pretty len +:+ "): " +:+ e), accepted)
      | None =>
          match chunk_reply x i with
          | Response status body =>
              if is_success status then send_chunks x (as_i64 (sent + len)) (S accepted) rest
              else (FailedWith ("Chunk " +:+ pretty i +:+ " upload returned " +:+ status_display x status +:+ ": " +:+ reply_text body), accepted)
          | Transport e => (FailedWith ("Chunk " +:+ pretty i +:+ " upload failed: " +:+ e), accepted)
          end
      end
  end.

Definition execute_chunked_transfer (x : Exchange) (artifact_size chunk_size : Z) : Outcome * nat :=
  match init_reply x with
  | Transport e => (Abandoned ("Failed to init chunked upload: " +:+ e), 0%nat)
  | Response status body =>
      if negb (is_success status)
      then (FailedWith (format_peer_response_failure "Chunked upload init returned" status (reply_text body)), 0%nat)
      else
        match init_session x with
        | Err e => (FailedWith ("Failed to parse upload session response: " +:+ e), 0%nat)
        | Ok None => (FailedWith "Missing session_id in chunked upload init response", 0%nat)
        | Ok (Some _) => send_chunks x 0 0 (compute_chunk_ranges artifact_size chunk_size)
        end
  end.

(** [should_use_chunked_transfer_for_task]. *)
Definition uses_chunks (a : SyncArtifact) (threshold : Z) : bool :=
  should_use_chunked_transfer (art_size a) threshold || art_has_metadata a.

(** [is_oci_manifest_task], of a task that is not a delete. *)
Definition is_oci_manifest (a : SyncArtifact) : bool := bool_decide (is_Some (parse_oci_manifest_path (art_path a))).

Definition execute_transfer (env : Env) (x : Exchange) (c : ClaimedTask) : Outcome * nat :=
  let a := claimed_artifact c in
  match count_in x with
  | Some e => (Abandoned ("Failed to increment active_transfers: " +:+ e), 0%nat)
  | None =>
      if is_delete (claimed_row c) then (execute_delete x, 0%nat)
      else if is_oci_manifest a then (fst (execute_oci_transfer x a), 0%nat)
      else if uses_chunks a (chunked_threshold_bytes env)
      then execute_chunked_transfer x (art_size a) (sync_chunk_size_bytes env)
      else
        (match stored_bytes x with
         | Err e => FailedWith ("Storage read error: " +:+ e)
         | Ok n => put_outcome (put_reply x) (Succeeded n)
         end, 0%nat)
  end.

(** What the outcome writes. *)
Definition settle (now : DateTime) (policy : SyncRetryPolicy) (c : ClaimedTask) (o : Outcome) (db : SyncDb) : SyncDb :=
  match o with
  | Succeeded bytes => handle_transfer_success now c bytes db
  | FailedWith msg => handle_transfer_failure now c msg policy db
  | Abandoned _ => db
  end.

(** * The tick *)

(** The identifier the filter sees. *)
Definition filter_identifier (a : SyncArtifact) : string :=
  match art_version a with
  | Some v => if is_empty v then art_name a else art_name a +:+ ":" +:+ v
  | None => art_name a
  end.

(** Whether a peer's window lets the tick go on; [None] is a panic. *)
Definition window_open (secs_from_midnight : Z) (p : Peer) : option bool :=
  match sync_window_start p, sync_window_end p with
  | Some start, Some stop =>
      offset ← parse_utc_offset_secs (default "UTC" (sync_window_timezone p));
      Some (is_within_sync_window start stop (peer_time_of_day secs_from_midnight offset))
  | _, _ => Some true
  end.

(** What a tick is given: its clock, its identity, the rows others hold locked,
    the tokens it draws and the statements that fail. *)
Record Tick := {
  tick_now : DateTime;
  secs_from_midnight : Z;
  tick_identity : string;
  tick_ttl : Z;
  tick_locked : Uuid -> bool;
  tick_fresh : Uuid -> Uuid;
  recover_fault : bool;
  peers_fault : option string;
  reset_fault : option string;
  claim_fault : Uuid -> option string
}.

(** How a tick ends; a panic takes the worker's task down with it. *)
Inductive TickEnd := TickDone | TickFailed (msg : string) | TickPanicked.

Section Worker.
Context `{RegexCrate}.

(** A claimed batch: the filtered tasks are completed on the spot, the others
    dispatched. *)
Fixpoint dispatch (now : DateTime) (claimed : list ClaimedTask) (db : SyncDb) : list ClaimedTask * SyncDb :=
  match claimed with
  | [] => ([], db)
  | c :: rest =>
      if matches_replication_filter (filter_identifier (claimed_artifact c)) (claimed_filter c)
      then let '(out, db) := dispatch now rest db in (c :: out, db)
      else dispatch now rest (complete_filtered now c db)
  end.

(** One peer of the loop, as the tick read it: the transfers it spawns, and
    whether the loop goes on. *)
Definition serve_peer (k : Tick) (policy : SyncRetryPolicy) (peer : Uuid) (p : Peer) (db : SyncDb)
  : list ClaimedTask * TickEnd * SyncDb :=
  match window_open (secs_from_midnight k) p with
  | None => ([], TickPanicked, db)
  | Some false => ([], TickDone, db)
  | Some true =>
      let available_slots := compute_available_slots (concurrent_transfers_limit p) (active_transfers p) in
      if available_slots <=? 0 then ([], TickDone, db)
      else
        match claim_pending_sync_tasks (claim_fault k peer) (tick_now k) peer available_slots
                (default 5 (concurrent_transfers_limit p)) (policy_max_retries policy) (tick_identity k) (tick_ttl k)
                (tick_locked k) (tick_fresh k) db with
        | (Err e, db) => ([], TickFailed ("Failed to claim tasks for peer: " +:+ e), db)
        | (Ok claimed, db) => let '(out, db) := dispatch (tick_now k) claimed db in (out, TickDone, db)
        end
  end.

Fixpoint serve_peers (k : Tick) (policy : SyncRetryPolicy) (peers : list (Uuid * Peer)) (db : SyncDb)
  : list ClaimedTask * TickEnd * SyncDb :=
  match peers with
  | [] => ([], TickDone, db)
  | (peer, p) :: rest =>
      match serve_peer k policy peer p db with
      | (out, TickDone, db) => let '(more, e, db) := serve_peers k policy rest db in ((out ++ more)%list, e, db)
      | stopped => stopped
      end
  end.

(** [process_pending_tasks], up to the transfers it spawns. *)
Definition process_pending_tasks (k : Tick) (policy : SyncRetryPolicy) (db : SyncDb) : list ClaimedTask * TickEnd * SyncDb :=
  let db := if recover_fault k then db else recover_expired_sync_task_claims (tick_now k) db in
  match peers_fault k with
  | Some e => ([], TickFailed ("Failed to fetch peers: " +:+ e), db)
  | None =>
      match filter (fun kp : Uuid * Peer => peer_reachable (tick_now k) (snd kp) = true) (map_to_list (peers db)) with
      | [] => ([], TickDone, db)
      | eligible =>
          match reset_fault k with
          | Some e => ([], TickFailed ("Failed to reset retriable tasks: " +:+ e), db)
          | None => serve_peers k policy eligible (reset_retriable (tick_now k) (policy_max_retries policy) db)
          end
      end
  end.
End Worker.
