(* ===== verification/SyncFacts.v ===== *)
(** The queue of replications, one statement at a time: which tasks a claim
    takes, what a worker that lost its claim can still write, and what an
    exchange that ends without a finalizer leaves behind. *)

From stdpp Require Import base list strings gmap sorting pretty.
From Stdlib Require Import ZArith Lia.
From S2P Require Import Prelude RustStr RustNum Errors Chrono F64 GcDb SyncWire SyncQueue SyncWorker.

Local Open Scope string_scope.
Local Open Scope Z_scope.

(** * Statements that change no row *)

Lemma set_tasks_same (f : gmap Uuid SyncTask -> gmap Uuid SyncTask) db : f (tasks db) = tasks db -> set_tasks f db = db.
Proof. intros E. unfold set_tasks. rewrite E. by destruct db. Qed.

Lemma lookup_update_where {K A} `{Countable K} (guard : K -> A -> bool) (f : A -> A) (m : gmap K A) k :
  update_where guard f m !! k = (fun a => if guard k a then f a else a) <$> m !! k.
Proof. unfold update_where. rewrite map_lookup_imap. by destruct (m !! k). Qed.

(** The claim is gone: no row of this id is in progress under this token. *)
Definition claim_lost (c : ClaimedTask) (db : SyncDb) : Prop :=
  forall t, tasks db !! claimed_id c = Some t -> holds_claim (token_of c) t = false.

Lemma finalize_lost c f db : claim_lost c db -> finalize (claimed_id c) (token_of c) f db = (false, db).
Proof.
  intros Hl. unfold finalize. destruct (tasks db !! claimed_id c) as [t|] eqn:E; [|done]. by rewrite (Hl t E).
Qed.

Lemma finalize_held c f db t : tasks db !! claimed_id c = Some t -> holds_claim (token_of c) t = true ->
  finalize (claimed_id c) (token_of c) f db = (true, set_tasks <[claimed_id c := f t]> db).
Proof. intros E Hh. unfold finalize. by rewrite E, Hh. Qed.

(** A worker whose claim lapsed and was taken over writes nothing: whatever
    its exchange with the peer came to - success, failure or neither - its
    finalizers, the completion of a filtered task and the extension of the claim
    leave the tasks, the peers' counters and the subscriptions as they are. *)
Theorem stale_worker_writes_nothing c db now policy outcome fault ttl : claim_lost c db ->
  settle now policy c outcome db = db /\ complete_filtered now c db = db /\
  extend_sync_task_claim fault now (claimed_id c) (token_of c) ttl db = db.
Proof.
  intros Hl. split_and!.
  - destruct outcome; cbn; [unfold handle_transfer_success|unfold handle_transfer_failure|done]; by rewrite finalize_lost.
  - unfold complete_filtered. by rewrite finalize_lost.
  - unfold extend_sync_task_claim. destruct fault; [done|]. apply set_tasks_same. apply map_eq. intros k.
    destruct (decide (k = claimed_id c)) as [->|Hne]; [|by rewrite lookup_alter_ne].
    rewrite lookup_alter_eq. destruct (tasks db !! claimed_id c) as [t|] eqn:E; [|done]. cbn. by rewrite (Hl t E).
Qed.

(** * What a claim takes *)

#[export] Instance claim_order_preorder : TotalPreorder claim_order.
Proof. apply _. Qed.

Lemma some_task_true p m : some_task p m = true <-> exists k t, m !! k = Some t /\ p t = true.
Proof.
  unfold some_task. rewrite existsb_true. split.
  - intros ([k t] & Hin%elem_of_map_to_list & Hp). eauto.
  - intros (k & t & Hk & Hp). exists (k, t). split; [by apply elem_of_map_to_list|done].
Qed.

(** What makes a task due. *)
Lemma claimable_spec now peer policy_max db t : claimable now peer policy_max db t = true <->
  task_peer t = peer /\ task_status t = Pending /\ null_or_past now (claim_expires_at t) = true /\
  exists a, artifacts db !! task_artifact t = Some a /\
    (task_type t = Push -> art_deleted a = false /\
       forall k d, tasks db !! k = Some d -> same_target d t = true -> delete_outstanding policy_max d = false).
Proof.
  unfold claimable, is_delete. rewrite !andb_true_iff, !bool_decide_eq_true.
  destruct (artifacts db !! task_artifact t) as [a|]; [|split; [by intros [_ ?]|by intros (_ & _ & _ & ? & ? & _)]].
  rewrite !andb_true_iff, !orb_true_iff, !negb_true_iff, bool_decide_eq_true.
  assert (some_task (fun d => same_target d t && delete_outstanding policy_max d) (tasks db) = false <->
    forall k d, tasks db !! k = Some d -> same_target d t = true -> delete_outstanding policy_max d = false) as ->.
  { rewrite <- not_true_iff_false, some_task_true. split.
    - intros Hn k d Hk Ht. destruct (delete_outstanding policy_max d) eqn:Ed; [|done]. destruct Hn. exists k, d. by rewrite Ht, Ed.
    - intros Hf (k & d & Hk & [Ht Hd]%andb_prop). specialize (Hf k d Hk Ht). congruence. }
  destruct (task_type t); naive_solver.
Qed.

Lemma insert_rows_lookup (g : Uuid * SyncTask -> SyncTask) l (m : gmap Uuid SyncTask) k : NoDup l.*1 ->
  (forall t, (k, t) ∈ l -> foldr (fun kt m => <[fst kt := g kt]> m) m l !! k = Some (g (k, t))) /\
  (k ∉ l.*1 -> foldr (fun kt m => <[fst kt := g kt]> m) m l !! k = m !! k).
Proof.
  induction l as [|[k' t'] l IH]; intros Hnd; [split; [by intros ? ?%not_elem_of_nil|done]|].
  apply NoDup_cons in Hnd as [Hk' Hnd]. destruct (IH Hnd) as [IH1 IH2]. cbn. split.
  - intros t [[= <- <-]|Hin]%elem_of_cons; [by rewrite lookup_insert_eq|].
    rewrite lookup_insert_ne; [by apply IH1|]. intros <-. apply Hk'. apply list_elem_of_fmap. by exists (k', t).
  - intros [Hne Hin]%not_elem_of_cons. rewrite lookup_insert_ne by done. by apply IH2.
Qed.

Section Claim.
Context (now : DateTime) (peer : Uuid) (slots limit policy_max : Z) (identity : string) (ttl : Z)
  (locked : Uuid -> bool) (fresh : Uuid -> Uuid) (db : SyncDb).

Let due := filter (fun kt => claimable now peer policy_max db (snd kt) && negb (locked (fst kt)) = true) (map_to_list (tasks db)).
Let chosen := claim_candidates now peer slots limit policy_max locked db.
Let after (m : gmap Uuid SyncTask) := foldr (fun kt m => <[fst kt := claim_row now identity ttl (fresh (fst kt)) (snd kt)]> m) m chosen.

Lemma due_spec k t : (k, t) ∈ due <-> tasks db !! k = Some t /\ claimable now peer policy_max db t = true /\ locked k = false.
Proof. unfold due. rewrite list_elem_of_filter, elem_of_map_to_list, andb_true_iff, negb_true_iff. cbn. tauto. Qed.

Lemma chosen_due k t : (k, t) ∈ chosen -> (k, t) ∈ due.
Proof. unfold chosen, claim_candidates. intros Hin%(sublist_subseteq _ _ (sublist_take _ _)). by rewrite sort_by_perm in Hin. Qed.

Lemma chosen_nodup : NoDup chosen.*1.
Proof.
  unfold chosen, claim_candidates. eapply sublist_NoDup; [|apply fmap_sublist, sublist_take].
  rewrite sort_by_perm. eapply sublist_NoDup; [|apply fmap_sublist, sublist_filter]. apply NoDup_fst_map_to_list.
Qed.

Lemma chosen_bound : (length chosen <= Z.to_nat (claim_limit now peer slots limit db))%nat.
Proof. unfold chosen, claim_candidates. rewrite length_take. lia. Qed.

(** What is due and not chosen comes after everything chosen, and is left out
    only because the limit is reached. *)
Lemma chosen_first k t : (k, t) ∈ due -> (k, t) ∉ chosen ->
  length chosen = Z.to_nat (claim_limit now peer slots limit db) /\ forall kt, kt ∈ chosen -> claim_order kt (k, t) <> Gt.
Proof.
  unfold chosen, claim_candidates. fold due. set (n := Z.to_nat _). intros Hdue Hout.
  assert ((k, t) ∈ sort_by claim_order due) as Hin by (by rewrite sort_by_perm).
  pose proof (sort_by_sorted claim_order due) as Hs. rewrite <- (take_drop n (sort_by claim_order due)) in Hin, Hs.
  apply elem_of_app in Hin as [?|Hin]; [done|]. split.
  - rewrite length_take. apply Nat.min_l. destruct (Nat.le_gt_cases n (length (sort_by claim_order due))); [done|].
    rewrite drop_ge in Hin by lia. by apply not_elem_of_nil in Hin.
  - clear Hout. intros kt Hkt. revert Hs Hkt Hin. generalize (take n (sort_by claim_order due)) as l. generalize (drop n (sort_by claim_order due)) as r.
    intros r l. induction l as [|x l IH]; [by intros _ ?%not_elem_of_nil|]. intros [Hx Hs] [->|Hl]%elem_of_cons Hr; [|by apply IH].
    apply Hx. apply elem_of_app. by right.
Qed.

(** Every chosen row finds its artifact: a task without one is not due. *)
Lemma claimed_ids l : (forall kt, kt ∈ l -> kt ∈ due) -> claimed_id <$> omap (joined now identity ttl policy_max fresh db) l = l.*1.
Proof.
  induction l as [|[k t] l IH]; intros Hdue; [done|]. pose proof (Hdue (k, t) ltac:(left)) as Hkt.
  apply due_spec in Hkt as (_ & (_ & _ & _ & a & Ha & _)%claimable_spec & _).
  assert (joined now identity ttl policy_max fresh db (k, t) = Some {| claimed_id := k;
    claimed_row := claim_row now identity ttl (fresh k) t; claimed_artifact := a;
    claimed_filter := subscriptions db !! (task_peer t, art_repository a) ≫= replication_filter;
    claimed_max_retries := budget policy_max t; token_of := fresh k |}) as E by (unfold joined; cbn; by rewrite Ha).
  cbn [omap list_omap]. rewrite E. cbn. f_equal. apply IH. intros kt Hin. apply Hdue. by right.
Qed.

Lemma claimed_from_due c : c ∈ omap (joined now identity ttl policy_max fresh db) chosen -> exists t,
  (claimed_id c, t) ∈ chosen /\ claimed_row c = claim_row now identity ttl (fresh (claimed_id c)) t /\
  token_of c = fresh (claimed_id c) /\ artifacts db !! task_artifact t = Some (claimed_artifact c) /\
  claimed_max_retries c = budget policy_max t.
Proof.
  intros ([k t] & Hkt & Hj)%list_elem_of_omap. unfold joined in Hj. cbn in Hj.
  destruct (artifacts db !! task_artifact t) as [a|] eqn:Ha; [|done]. injection Hj as <-. by exists t.
Qed.

Lemma after_lookup k t : (k, t) ∈ chosen -> after (tasks db) !! k = Some (claim_row now identity ttl (fresh k) t).
Proof. intros Hin. apply (insert_rows_lookup (fun kt => claim_row now identity ttl (fresh (fst kt)) (snd kt)) chosen (tasks db) k chosen_nodup). done. Qed.

Lemma after_same k : k ∉ chosen.*1 -> after (tasks db) !! k = tasks db !! k.
Proof. intros Hin. by apply (insert_rows_lookup (fun kt => claim_row now identity ttl (fresh (fst kt)) (snd kt)) chosen (tasks db) k chosen_nodup). Qed.

(** A claim adds at most its rows to the live ones. *)
Lemma live_after : live_claims now peer (set_tasks after db) <= live_claims now peer db + Z.of_nat (length chosen).
Proof.
  unfold live_claims. rewrite <- Nat2Z.inj_add. apply inj_le.
  rewrite <- (length_fmap fst chosen). set (live m := (filter (fun kt : Uuid * SyncTask => live_claim now peer (snd kt) = true) (map_to_list m)).*1).
  assert (forall m, length (filter (fun kt : Uuid * SyncTask => live_claim now peer (snd kt) = true) (map_to_list m)) = length (live m)) as El
    by (intros; unfold live; by rewrite length_fmap).
  rewrite !El, <- length_app. apply submseteq_length, NoDup_submseteq.
  { eapply sublist_NoDup; [|apply fmap_sublist, sublist_filter]. apply NoDup_fst_map_to_list. }
  intros k ([k' t] & -> & [Hl Hk]%list_elem_of_filter)%list_elem_of_fmap. cbn in *. apply elem_of_map_to_list in Hk. cbn in Hk.
  apply elem_of_app. destruct (decide (k' ∈ chosen.*1)) as [?|Hout]; [by right|left].
  rewrite after_same in Hk by done. apply list_elem_of_fmap. exists (k', t). split; [done|].
  apply list_elem_of_filter. split; [done|]. by apply elem_of_map_to_list.
Qed.
End Claim.

(** What a claim takes.  Every claimed task was pending, unlocked and of
    this peer; a push is claimed only for a live artifact and never while a
    delete of the same artifact has not had its last word; the row now carries
    the claim's token.  No other row changes, at most [slots] tasks are taken
    and the live claims on the peer do not pass its limit unless they were past
    it before; and a due task is left out only when none of the claimed ones has
    a lower priority. *)
Theorem claims_are_due now peer slots limit policy_max identity ttl locked fresh db claimed db' :
  claim_pending_sync_tasks None now peer slots limit policy_max identity ttl locked fresh db = (Ok claimed, db') ->
  (forall c, c ∈ claimed -> exists t, tasks db !! claimed_id c = Some t /\
     task_status t = Pending /\ task_peer t = peer /\ locked (claimed_id c) = false /\
     (task_type t = Push -> art_deleted (claimed_artifact c) = false /\
        forall k d, tasks db !! k = Some d -> same_target d t = true -> delete_outstanding policy_max d = false) /\
     tasks db' !! claimed_id c = Some (claimed_row c) /\ holds_claim (token_of c) (claimed_row c) = true /\
     token_of c = fresh (claimed_id c) /\ retry_count (claimed_row c) = retry_count t) /\
  (forall k, k ∉ claimed_id <$> claimed -> tasks db' !! k = tasks db !! k) /\
  Z.of_nat (length claimed) <= Z.max 0 slots /\
  live_claims now peer db' <= Z.max (live_claims now peer db) limit /\
  (forall k t, tasks db !! k = Some t -> claimable now peer policy_max db t = true -> locked k = false ->
     k ∉ claimed_id <$> claimed -> forall c, c ∈ claimed -> priority t <= priority (claimed_row c)).
Proof.
  intros [= <- <-]. pose proof (chosen_due now peer slots limit policy_max locked db) as Hdue.
  pose proof (chosen_bound now peer slots limit policy_max locked db) as Hb.
  pose proof (live_after now peer slots limit policy_max identity ttl locked fresh db) as Hlive.
  set (chosen := claim_candidates _ _ _ _ _ _ _) in *.
  rewrite (claimed_ids now peer policy_max identity ttl locked fresh db chosen) by (intros [k t]; apply Hdue).
  unfold claim_limit in Hb. assert (length (omap (joined now identity ttl policy_max fresh db) chosen) = length chosen) as El.
  { rewrite <- (length_fmap claimed_id), (claimed_ids now peer policy_max identity ttl locked fresh db chosen) by (intros [k t]; apply Hdue).
    apply length_fmap. }
  split_and!.
  - intros c Hc. destruct (claimed_from_due now peer slots limit policy_max identity ttl locked fresh db c Hc) as (t & Hin & Er & Et & Ea & _).
    destruct (proj1 (due_spec now peer policy_max locked db _ _) (Hdue _ _ Hin)) as (Ht & (Hp & Hs & _ & a & Ha & Hpush)%claimable_spec & Hl).
    exists t. rewrite Ea in Ha. injection Ha as <-. split_and!; try done.
    + rewrite Er. by apply (after_lookup now peer slots limit policy_max identity ttl locked fresh db).
    + rewrite Er, Et. unfold holds_claim. cbn. by rewrite !bool_decide_eq_true_2.
    + by rewrite Er.
  - intros k Hk. by apply (after_same now peer slots limit policy_max identity ttl locked fresh db).
  - rewrite El. lia.
  - lia.
  - intros k t Hk Hc Hl Hout c Hin.
    assert ((k, t) ∉ chosen) as Hn by (intros Hin'; apply Hout, list_elem_of_fmap; by exists (k, t)).
    destruct (chosen_first now peer slots limit policy_max locked db k t) as [_ Hfirst]; [by apply due_spec|done|].
    destruct (claimed_from_due now peer slots limit policy_max identity ttl locked fresh db c Hin) as (t' & Hin' & Er & _).
    specialize (Hfirst _ Hin'). rewrite Er. cbn. unfold claim_order, lex, cmp_on in Hfirst. cbn in Hfirst.
    destruct (Z.compare_spec (- priority t') (- priority t)); cbn in Hfirst; try lia. done.
Qed.

(** * An exchange that ends without a finalizer *)

Lemma abandoned_spec env x c : (exists msg, fst (execute_transfer env x c) = Abandoned msg) <->
  is_Some (count_in x) \/
  is_delete (claimed_row c) = false /\ is_oci_manifest (claimed_artifact c) = false /\
  uses_chunks (claimed_artifact c) (chunked_threshold_bytes env) = true /\ exists e, init_reply x = Transport e.
Proof.
  assert (forall reply ok, (forall msg, ok <> Abandoned msg) -> forall msg, put_outcome reply ok <> Abandoned msg) as Hput.
  { intros [e|status body] ok Hok msg; cbn; [|destruct (is_success status)]; done. }
  assert (forall total accepted items msg, fst (send_oci_items x total accepted items) <> Abandoned msg) as Hitems.
  { intros total accepted items. revert total accepted. induction items as [|i items IH]; intros total accepted msg; [done|]. cbn.
    destruct (item_bytes x i); [|done]. pose proof (Hput (item_reply x i) (Succeeded 0) ltac:(done) msg) as Hp.
    destruct (put_outcome _ _); [apply IH|done|done]. }
  assert (forall sent accepted ranges msg, fst (send_chunks x sent accepted ranges) <> Abandoned msg) as Hchunks.
  { intros sent accepted ranges. revert sent accepted. induction ranges as [|[[i o] l] ranges IH]; intros sent accepted msg; cbn.
    - destruct (complete_reply x); [|destruct (is_success _)]; done.
    - destruct (chunk_read x i); [done|]. destruct (chunk_reply x i); [|destruct (is_success _)]; done. }
  unfold execute_transfer. destruct (count_in x) as [e|]; cbn [fst]; [split; [by left|eauto]|].
  destruct (is_delete (claimed_row c)); cbn [fst].
  { split; [intros (msg & Hm)|by intros [[? [=]]|[? _]]]. exfalso. revert Hm. unfold execute_delete. destruct (delete_reply x); [|destruct (delete_response_is_success _)]; done. }
  destruct (is_oci_manifest (claimed_artifact c)); cbn [fst].
  { split; [intros (msg & Hm)|by intros [[? [=]]|(_ & ? & _)]]. exfalso. revert Hm. unfold execute_oci_transfer.
    destruct (OciPlan.parse_oci_manifest_path _), (image_storage x); try done. destruct (OciPlan.build_oci_transfer_plan _ _ _ _ _ _); [apply Hitems|done]. }
  destruct (uses_chunks _ _).
  - unfold execute_chunked_transfer. destruct (init_reply x) as [e|status body].
    + split; eauto 10.
    + split; [intros (msg & Hm)|intros [[? [=]]|(_ & _ & _ & ? & [=])]]. exfalso. revert Hm.
      destruct (negb _); [done|]. destruct (init_session x) as [[|]|]; [apply Hchunks|done..].
  - cbn [fst]. split; [intros (msg & Hm)|by intros [[? [=]]|(_ & _ & ? & _)]]. exfalso. revert Hm. destruct (stored_bytes x); [by apply Hput|done].
Qed.

(** No delete of the same artifact appears between a claim and the recovery of
    its rows. *)
Lemma recovered_row later db k d : tasks (recover_expired_sync_task_claims later db) !! k = Some d ->
  exists d0, tasks db !! k = Some d0 /\ task_peer d = task_peer d0 /\ task_artifact d = task_artifact d0 /\ task_type d = task_type d0 /\
    (d = d0 \/ task_status d0 = InProgress).
Proof.
  unfold recover_expired_sync_task_claims. cbn [tasks set_tasks set_peers]. rewrite lookup_update_where.
  destruct (tasks db !! k) as [d0|]; [|done]. cbn. intros [= <-]. exists d0. split; [done|]. destruct (claim_lapsed later d0) eqn:El; [|by split_and!; [..|left]].
  split_and!; try done. right. unfold claim_lapsed in El. rewrite !andb_true_iff, bool_decide_eq_true in El. tauto.
Qed.

Section Abandoned.
Context (now : DateTime) (peer : Uuid) (slots limit policy_max : Z) (identity : string) (ttl : Z) (locked : Uuid -> bool) (fresh : Uuid -> Uuid).
Context (db : SyncDb) (claimed : list ClaimedTask) (db' : SyncDb).
Hypothesis claims : claim_pending_sync_tasks None now peer slots limit policy_max identity ttl locked fresh db = (Ok claimed, db').

Lemma claimed_tasks k d : tasks db' !! k = Some d -> exists d0, tasks db !! k = Some d0 /\ task_peer d = task_peer d0 /\
  task_artifact d = task_artifact d0 /\ task_type d = task_type d0 /\ (d = d0 \/ task_status d0 = Pending).
Proof.
  pose proof claims as [= _ <-]. cbn [tasks set_tasks]. intros Hk.
  destruct (decide (k ∈ (claim_candidates now peer slots limit policy_max locked db).*1)) as [Hin|Hout].
  - apply list_elem_of_fmap in Hin as ([k' t] & Hk' & Hin). cbn in Hk'. subst k'.
    rewrite (after_lookup now peer slots limit policy_max identity ttl locked fresh db _ _ Hin) in Hk. injection Hk as <-.
    destruct (proj1 (due_spec now peer policy_max locked db k t) (chosen_due now peer slots limit policy_max locked db k t Hin)) as (Ht & (_ & Hs & _)%claimable_spec & _).
    exists t. split_and!; try done. by right.
  - rewrite (after_same now peer slots limit policy_max identity ttl locked fresh db k Hout) in Hk. exists d. split_and!; try done. by left.
Qed.

(** A claim that is left alone is due again once it has lapsed. *)
Lemma claimed_again c later f : c ∈ claimed -> now + ttl * NANOS_PER_SEC <= later ->
  let db2 := recover_expired_sync_task_claims later (set_peers f db') in
  exists t, tasks db2 !! claimed_id c = Some t /\ claimable later peer policy_max db2 t = true /\ claim_token t = None /\
    retry_count t = retry_count (claimed_row c) /\ task_error t = task_error (claimed_row c).
Proof.
  intros Hc Hlater db2. pose proof claims as [= E1 E2]. rewrite <- E1 in Hc.
  destruct (claimed_from_due now peer slots limit policy_max identity ttl locked fresh db c Hc) as (t & Hin & Er & Et & _).
  destruct (proj1 (due_spec now peer policy_max locked db _ _) (chosen_due _ _ _ _ _ _ _ _ _ Hin)) as (Ht & (Hp & Hs & Hx & a & Ha & Hpush)%claimable_spec & _).
  pose proof (after_lookup now peer slots limit policy_max identity ttl locked fresh db _ _ Hin) as Hrow.
  assert (tasks db2 !! claimed_id c = Some (clear_claim (set_state Pending None (task_completed t) (task_error t) (retry_count t) (claimed_row c)))) as Hdb2.
  { unfold db2, recover_expired_sync_task_claims. rewrite <- E2. cbn [tasks set_tasks set_peers]. rewrite lookup_update_where, Hrow, Er. cbn.
    unfold claim_lapsed. cbn. rewrite bool_decide_eq_true_2 by done. cbn. by rewrite (proj2 (Z.leb_le _ _)) by lia. }
  eexists. split; [exact Hdb2|]. split; [|by rewrite Er].
  apply claimable_spec. rewrite Er. cbn. split_and!; [done|done|done|]. exists a. split; [unfold db2; by rewrite <- E2|].
  intros [Hnd Hdel]%Hpush. split; [done|]. intros k d Hk Hst.
  apply recovered_row in Hk as (d1 & Hk & P1 & A1 & T1 & S1). cbn [tasks set_peers] in Hk. apply claimed_tasks in Hk as (d0 & Hk & P0 & A0 & T0 & S0).
  assert (same_target d0 t = true) as Hst0.
  { unfold same_target in *. cbn in Hst. by rewrite <- P0, <- A0, <- P1, <- A1. }
  specialize (Hdel k d0 Hk Hst0). unfold delete_outstanding in *. apply andb_false_iff in Hdel as [Hd|Hd].
  - unfold is_delete in *. by rewrite T1, T0, Hd.
  - apply orb_false_iff in Hd as [Hpi Hf]. pose proof Hpi as Hd. unfold status_in in Hd. apply bool_decide_eq_false in Hd.
    assert (d1 = d0) as -> by (destruct S0 as [?|E]; [done|rewrite E in Hd; set_solver]).
    assert (d = d0) as -> by (destruct S1 as [?|E]; [done|rewrite E in Hd; set_solver]).
    by rewrite Hpi, Hf, andb_false_r.
Qed.

Lemma uncounted_peer later f p q : (forall k p, peers db' !! k = Some p -> exists p', f (peers db') !! k = Some p' /\
    backoff_until p' = backoff_until p /\ consecutive_failures p' = consecutive_failures p /\ transfer_failures_total p' = transfer_failures_total p) ->
  peers db !! q = Some p -> exists p', peers (recover_expired_sync_task_claims later (set_peers f db')) !! q = Some p' /\
    backoff_until p' = backoff_until p /\ consecutive_failures p' = consecutive_failures p /\ transfer_failures_total p' = transfer_failures_total p.
Proof.
  intros Hf Hp. pose proof claims as [= _ E2]. destruct (Hf q p) as (p' & Hp' & H1 & H2 & H3); [by rewrite <- E2|].
  unfold recover_expired_sync_task_claims. cbn [peers set_tasks set_peers]. rewrite map_lookup_imap, Hp'. cbn.
  eexists. split; [done|]. destruct (_ =? 0); by split_and!.
Qed.
End Abandoned.

(** What a failure writes for the owner of the claim. *)
Lemma failure_is_counted now policy c msg db t p : tasks db !! claimed_id c = Some t -> holds_claim (token_of c) t = true ->
  peers db !! task_peer (claimed_row c) = Some p ->
  let db' := handle_transfer_failure now c msg policy db in
  (exists t', tasks db' !! claimed_id c = Some t' /\ claim_token t' = None /\
     (task_status t' = Failed /\ retry_count t' = as_i32 (retry_count (claimed_row c) + 1) \/
      is_push (claimed_row c) = true /\ task_status t' = Pending /\ retry_count t' = 0)) /\
  peers db' !! task_peer (claimed_row c) = Some (fail_peer now (calculate_backoff policy (consecutive_failures p)) p).
Proof.
  intros Ht Hh Hp. unfold handle_transfer_failure. rewrite (finalize_held _ _ _ _ Ht Hh). cbn [peers set_tasks]. rewrite Hp.
  set (row := fail_row now msg _ t). set (db1 := set_peers _ _).
  assert (tasks db1 !! claimed_id c = Some row) as Hrow by apply lookup_insert_eq.
  assert (peers db1 !! task_peer (claimed_row c) = Some (fail_peer now (calculate_backoff policy (consecutive_failures p)) p)) as Hpeer
    by (unfold db1; cbn [peers set_peers set_tasks]; by rewrite lookup_alter_eq, Hp).
  assert (task_status row = Failed /\ retry_count row = as_i32 (retry_count (claimed_row c) + 1)) as [Hs Hr].
  { split; [done|]. cbn. unfold evaluate_task_failure. by destruct (_ <? _). }
  unfold rearm_if_superseded. destruct (is_push (claimed_row c)); [|split; [exists row; by split_and!; [..|left]|done]].
  unfold rearm_superseded_push. rewrite Hrow. destruct (superseded _ _ _); [|split; [exists row; by split_and!; [..|left]|done]].
  split; [|done]. cbn [tasks set_tasks]. rewrite lookup_insert_eq. eexists. split; [done|]. split; [done|]. by right.
Qed.


(** * Sample tables *)

Definition sample_peer : Peer :=
  {| is_local := false; peer_status := Online; sync_window_start := None; sync_window_end := None; sync_window_timezone := Some "UTC";
     concurrent_transfers_limit := Some 4; active_transfers := 0; backoff_until := None; consecutive_failures := 0;
     transfer_failures_total := 0; bytes_transferred_total := 0; last_heartbeat_at := None; last_sync_at := None |}.
Definition sample_artifact : SyncArtifact :=
  {| art_repository := 3%N; art_name := "model"; art_version := Some "1"; art_path := "model/1/model.bin"; art_size := 209715200;
     art_checksum := "aa"; art_storage_key := "aa"; art_content_type := "application/octet-stream"; art_deleted := false; art_has_metadata := false |}.
Definition sample_db : SyncDb :=
  {| tasks := {[10%N := new_task 0 1%N 7%N Push 0]}; peers := {[1%N := sample_peer]}; artifacts := {[7%N := sample_artifact]};
     repositories := {[3%N := {| versioning_enabled := false; repo_format := "generic" |}]};
     subscriptions := {[(1%N, 3%N) := {| sync_enabled := true; replication_mode := ModePush; replication_filter := None; last_replicated_at := None |}]} |}.

(** Claim everything due at [now], with tokens above [base]. *)
Definition sample_claim (now : DateTime) (limit : Z) (base : N) (db : SyncDb) : list ClaimedTask * SyncDb :=
  match claim_pending_sync_tasks None now 1%N limit limit 3 "worker" 1800 (fun _ => false) (fun k => (base + k)%N) db with
  | (Ok l, db) => (l, db)
  | (Err _, db) => ([], db)
  end.
Definition sample_policy : SyncRetryPolicy := {| policy_max_retries := 3; backoff_base_secs := 300; backoff_max_secs := 300 |}.

Lemma stale_worker_writes_nothing_witness : exists c, fst (sample_claim 1 4 100 sample_db) = [c] /\
  claim_lost c sample_db /\ settle 5 sample_policy c (Succeeded 9) sample_db = sample_db.
Proof.
  destruct (fst (sample_claim 1 4 100 sample_db)) as [|c [|]] eqn:E; [discriminate E| |discriminate E].
  exists c. split; [done|]. assert (claim_lost c sample_db) as Hl.
  { vm_compute in E. injection E as <-. intros t. vm_compute. intros [= <-]. done. }
  split; [exact Hl|]. exact (proj1 (stale_worker_writes_nothing c sample_db 5 sample_policy (Succeeded 9) false 1800 Hl)).
Defined.

Lemma claims_are_due_witness : exists claimed db', 
  claim_pending_sync_tasks None 1 1%N 4 4 3 "worker" 1800 (fun _ => false) (fun k => (100 + k)%N) sample_db = (Ok claimed, db') /\
  Z.of_nat (length claimed) <= Z.max 0 4 /\ claimed_id <$> claimed = [10%N].
Proof.
  destruct (claim_pending_sync_tasks None 1 1%N 4 4 3 "worker" 1800 (fun _ => false) (fun k => (100 + k)%N) sample_db) as [[claimed|] db'] eqn:E;
    [|discriminate E].
  exists claimed, db'. split; [done|]. destruct (claims_are_due 1 1%N 4 4 3 "worker" 1800 (fun _ => false) (fun k => (100 + k)%N) sample_db claimed db' E)
    as (_ & _ & Hlen & _). split; [exact Hlen|]. vm_compute in E. by injection E as <- _.
Defined.

Definition no_images : GcDb :=
  {| GcDb.repositories := []; GcDb.artifacts := []; artifact_versions := []; promotion_approvals := []; files_metadata := []; oci_tags := []; oci_blobs := [];
     oci_manifest_refs := []; manifest_blob_refs := []; maven_flat_object_owner := []; oci_gc_candidates := []; oci_upload_sessions := [];
     oci_upload_parts := []; oci_upload_cleanup_keys := [] |}.
Definition sample_exchange : Exchange :=
  {| status_display := pretty; count_in := None; image_storage := None; image_db := no_images;
     blob_fault := fun _ => None; child_fault := fun _ => None; type_fault := fun _ => None;
     item_bytes := fun _ => Ok 0; item_reply := fun _ => Response 200 None; stored_bytes := Ok 3; put_reply := Response 200 None;
     delete_reply := Response 404 None; init_reply := Transport "connection refused"; init_session := Ok None;
     chunk_read := fun _ => None; chunk_reply := fun _ => Response 200 None; complete_reply := Response 200 None |}.


(** * What the queue does not order *)

(** The artifacts a peer holds after the requests that reached it. *)
Definition peer_holds (requests : list (TaskType * Uuid)) : list Uuid :=
  foldl (fun held '(kind, a) => match kind with Push => a :: held | Delete => base.filter (fun b => b <> a) held end) [] requests.

(** A delete is claimed while a push of the same artifact is in flight - only
    pushes wait - so the peer may see the delete first: both tasks end
    completed, the artifact is deleted here, and the peer holds it for good. *)
Example push_outlives_delete :
  let '(pushes, db1) := sample_claim 1 4 100 sample_db in
  match delete_with_sync_options 2 7%N true true true (fun _ => 11%N) db1 with
  | Ok db2 =>
      let '(deletes, db3) := sample_claim 3 4 200 db2 in
      let db4 := foldl (fun db c => settle 4 sample_policy c (Succeeded 0) db) db3 deletes in
      let db5 := foldl (fun db c => settle 5 sample_policy c (Succeeded 9) db) db4 pushes in
      let db6 := reset_retriable (7200 * NANOS_PER_SEC) 3 (recover_expired_sync_task_claims (7200 * NANOS_PER_SEC) db5) in
      (task_type ∘ claimed_row <$> pushes) = [Push] /\ (task_type ∘ claimed_row <$> deletes) = [Delete] /\
      (task_status <$> tasks db6 !! 10%N) = Some Completed /\ (task_status <$> tasks db6 !! 11%N) = Some Completed /\
      fst (sample_claim (7200 * NANOS_PER_SEC) 4 300 db6) = [] /\ (art_deleted <$> artifacts db6 !! 7%N) = Some true /\
      peer_holds [(Delete, 7%N); (Push, 7%N)] = [7%N]
  | Err _ => False
  end.
Proof. vm_compute. done. Qed.

(** A peer that a policy drops and takes back is never sent the artifact again:
    the old push still counts as delivered. *)
Example readmitted_peer_gets_nothing :
  let '(pushes, db1) := sample_claim 1 4 100 sample_db in
  let db2 := foldl (fun db c => settle 2 sample_policy c (Succeeded 9) db) db1 pushes in
  let db3 := queue_policy_tasks 3 7%N [] (fun _ => 20%N) (fun _ => 21%N) db2 in
  let '(deletes, db4) := sample_claim 4 4 200 db3 in
  let db5 := foldl (fun db c => settle 5 sample_policy c (Succeeded 0) db) db4 deletes in
  let db6 := queue_policy_tasks 6 7%N [1%N] (fun _ => 22%N) (fun _ => 23%N) db5 in
  (task_type ∘ claimed_row <$> deletes) = [Delete] /\ fst (sample_claim 7 4 300 db6) = [] /\
  peer_holds [(Push, 7%N); (Delete, 7%N)] = [].
Proof. vm_compute. done. Qed.

(** The limit on the live claims of a peer gives way when a claim that had
    lapsed, and was counted out by another replica's claim, is extended. *)
Example extension_passes_limit :
  let db0 := set_tasks <[12%N := new_task 0 1%N 8%N Push 0]> (set_artifacts <[8%N := sample_artifact]> sample_db) in
  let lapse := 1 + 1800 * NANOS_PER_SEC in
  let '(first, db1) := sample_claim 1 1 100 db0 in
  let '(second, db2) := sample_claim lapse 1 200 db1 in
  let db3 := foldl (fun db c => extend_sync_task_claim false (lapse + 1) (claimed_id c) (token_of c) 1800 db) db2 first in
  length first = 1%nat /\ length second = 1%nat /\ live_claims (lapse + 1) 1%N db2 = 1 /\ live_claims (lapse + 1) 1%N db3 = 2.
Proof. vm_compute. done. Qed.

(** A sync window in a zone whose offset cannot be cut ends the worker, whatever
    the queue holds. *)
Definition sample_tick : Tick :=
  {| tick_now := 1; secs_from_midnight := 43200; tick_identity := "worker"; tick_ttl := 1800; tick_locked := fun _ => false;
     tick_fresh := fun k => (100 + k)%N; recover_fault := false; peers_fault := None; reset_fault := None; claim_fault := fun _ => None |}.
Definition set_window (start stop : Z) (zone : string) (p : Peer) : Peer :=
  {| is_local := is_local p; peer_status := peer_status p; sync_window_start := Some start; sync_window_end := Some stop;
     sync_window_timezone := Some zone; concurrent_transfers_limit := concurrent_transfers_limit p; active_transfers := active_transfers p;
     backoff_until := backoff_until p; consecutive_failures := consecutive_failures p; transfer_failures_total := transfer_failures_total p;
     bytes_transferred_total := bytes_transferred_total p; last_heartbeat_at := last_heartbeat_at p; last_sync_at := last_sync_at p |}.
Example bad_zone_stops_worker `{RegexCrate} :
  let run zone := process_pending_tasks sample_tick sample_policy (set_peers (alter (set_window 0 (86399 * NANOS_PER_SEC) zone) 1%N) sample_db) in
  snd (fst (run "+€1")) = TickPanicked /\ snd (fst (run "+0100")) = TickDone /\ length (fst (fst (run "+0100"))) = 1%nat.
Proof. vm_compute. done. Qed.
