(* ===== verification/SyncRuns.v ===== *)
(** Replication by many replicas: the statements of [SyncQueue], by any number of
    workers, publishers, deletes and policy evaluations, in any order and at any
    times over one database.

    The per-peer lock of a claim makes the claim one step; every other statement
    is one step too, and a worker's own steps are between those of the others.
    A step takes whatever time the database tells it. *)

From stdpp Require Import base list strings gmap relations.
From Stdlib Require Import ZArith Lia.
From S2P Require Import Prelude RustStr RustNum Errors Chrono F64 SyncWire SyncQueue SyncWorker SyncFacts.

Local Open Scope string_scope.
Local Open Scope Z_scope.

(** * The shared state *)

(** [issued] are the claims handed out so far, [drawn] the tokens. *)
Record Fleet := { fleet_db : SyncDb; issued : list ClaimedTask; drawn : gset Uuid }.

Definition unused_ids (fresh : Uuid -> Uuid) (db : SyncDb) : Prop :=
  (forall k, tasks db !! fresh k = None) /\ forall k k', fresh k = fresh k' -> k = k'.

Section Runs.
(** The retry policy of the replicas; [policies] says whether policies are
    evaluated while the queue runs. *)
Context (retry : SyncRetryPolicy) (Hretry : 1 <= policy_max_retries retry <= I32_MAX) (policies : bool).

Definition most : Z := policy_max_retries retry.

Inductive queue_op (claims : list ClaimedTask) (db : SyncDb) : SyncDb -> Prop :=
| op_recover now : queue_op claims db (recover_expired_sync_task_claims now db)
| op_reset now : queue_op claims db (reset_retriable now most db)
| op_start c : c ∈ claims -> queue_op claims db (start_transfer c db)
| op_extend fault now c ttl : c ∈ claims -> queue_op claims db (extend_sync_task_claim fault now (claimed_id c) (token_of c) ttl db)
| op_settle now c outcome : c ∈ claims -> queue_op claims db (settle now retry c outcome db)
| op_filtered now c : c ∈ claims -> queue_op claims db (complete_filtered now c db)
| op_publish now id peer artifact prio : tasks db !! id = None -> queue_op claims db (snd (queue_sync_task now id peer artifact prio db))
| op_delete now artifact enqueue cancelled queued fresh db' : unused_ids fresh db ->
    delete_with_sync_options now artifact enqueue cancelled queued fresh db = Ok db' -> queue_op claims db db'
| op_policy now artifact desired fresh fresh' : policies = true -> NoDup desired -> unused_ids fresh db -> unused_ids fresh' db ->
    (forall k k', fresh k <> fresh' k') -> queue_op claims db (queue_policy_tasks now artifact desired fresh fresh' db)
(** Everything else of the tables: uploads, peers and their health, settings;
    and rows that go with their peer or artifact. *)
| op_world peers' artifacts' repositories' subscriptions' :
    queue_op claims db {| tasks := tasks db; peers := peers'; artifacts := artifacts'; repositories := repositories'; subscriptions := subscriptions' |}
| op_cascade (gone : Uuid -> bool) : queue_op claims db (set_tasks (base.filter (fun kt => gone (fst kt) = false)) db).

Inductive queue_step (s : Fleet) : Fleet -> Prop :=
| queue_claim now peer slots limit identity ttl locked fresh claimed db :
    claim_pending_sync_tasks None now peer slots limit most identity ttl locked fresh (fleet_db s) = (Ok claimed, db) ->
    (forall k, fresh k ∉ drawn s) -> (forall k k', fresh k = fresh k' -> k = k') ->
    queue_step s {| fleet_db := db; issued := claimed ++ issued s; drawn := list_to_set (token_of <$> claimed) ∪ drawn s |}
| queue_quiet db : queue_op (issued s) (fleet_db s) db ->
    queue_step s {| fleet_db := db; issued := issued s; drawn := drawn s |}.

Definition queue_initial (s : Fleet) : Prop := tasks (fleet_db s) = ∅ /\ issued s = [] /\ drawn s = ∅.
Definition queue_reachable (s : Fleet) : Prop := exists s0, queue_initial s0 /\ rtc queue_step s0 s.

(** * One row *)

Record RowInv (claims : list ClaimedTask) (k : Uuid) (t : SyncTask) : Prop := {
  row_owned : task_status t = InProgress -> exists c, c ∈ claims /\ claimed_id c = k /\ claim_token t = Some (token_of c) /\
    retry_count t = retry_count (claimed_row c) /\ claimed_max_retries c = budget most t;
  row_idle : task_status t <> InProgress -> claim_token t = None;
  row_max : max_retries t = 3;
  row_budget : policies = false -> 0 <= retry_count t <= budget most t /\
    (task_status t = Pending \/ task_status t = InProgress -> retry_count t < budget most t)
}.

Definition Good (claims : list ClaimedTask) (m : gmap Uuid SyncTask) : Prop := forall k t, m !! k = Some t -> RowInv claims k t.

(** No claim appears from nowhere. *)
Definition back (m m' : gmap Uuid SyncTask) : Prop := forall k t' token, m' !! k = Some t' -> holds_claim token t' = true ->
  exists t, m !! k = Some t /\ holds_claim token t = true.

(** What a quiet operation does to the rows. *)
Definition quiet (claims : list ClaimedTask) (m m' : gmap Uuid SyncTask) : Prop := Good claims m -> Good claims m' /\ back m m'.

Lemma quiet_refl claims m : quiet claims m m.
Proof. intros Hg. split; [done|]. intros k t token Hk Hh. eauto. Qed.

Lemma quiet_trans claims m1 m2 m3 : quiet claims m1 m2 -> quiet claims m2 m3 -> quiet claims m1 m3.
Proof.
  intros H1 H2 Hg. destruct (H1 Hg) as [Hg2 Hb1]. destruct (H2 Hg2) as [Hg3 Hb2]. split; [done|].
  intros k t token Hk Hh. destruct (Hb2 k t token Hk Hh) as (t2 & Hk2 & Hh2). eauto.
Qed.

Lemma budget_positive t : 1 <= budget most t.
Proof. unfold budget, most. lia. Qed.

(** Two ways a row changes: the claim and the count stay, or the row is idle
    afterwards, with a count that is spent less, or as much by a task that may
    still be tried. *)
Definition kept (t n : SyncTask) : Prop :=
  task_status n = task_status t /\ claim_token n = claim_token t /\ retry_count n = retry_count t /\ max_retries n = max_retries t.

Definition idled (t n : SyncTask) : Prop :=
  task_status n <> InProgress /\ claim_token n = None /\ max_retries n = max_retries t /\
  (policies = false -> retry_count n = 0 \/
     (retry_count n = retry_count t /\ (task_status n = Pending -> retry_count t < budget most t)) \/
     (retry_count n = retry_count t + 1 /\ task_status n = Failed /\ task_status t = InProgress)).

Lemma kept_refl t : kept t t.
Proof. by split_and!. Qed.

Lemma kept_row claims k t n : kept t n -> RowInv claims k t -> RowInv claims k n.
Proof.
  intros (Es & Et & Er & Em) [Ho Hi Hm Hb]. constructor; unfold budget in *; rewrite ?Es, ?Et, ?Er, ?Em; done.
Qed.

Lemma idled_row claims k t n : idled t n -> RowInv claims k t -> RowInv claims k n.
Proof.
  intros (Es & Et & Em & Hr) [Ho Hi Hm Hb]. pose proof (budget_positive t). constructor; [done|done|congruence|].
  intros Hp. destruct (Hb Hp) as [Hle Hlt]. assert (budget most n = budget most t) as -> by (unfold budget; by rewrite Em).
  destruct (Hr Hp) as [->|[[-> Hpend]|(-> & Ef & Eip)]]; [lia| |].
  - split; [done|]. intros [E|E]; [by apply Hpend|done].
  - specialize (Hlt ltac:(by right)). split; [lia|]. rewrite Ef. by intros [E|E].
Qed.

Lemma idled_claim t n token : idled t n -> holds_claim token n = false.
Proof. intros (Hs & _). unfold holds_claim. by rewrite bool_decide_eq_false_2. Qed.

Lemma kept_claim t n token : kept t n -> holds_claim token n = holds_claim token t.
Proof. intros (Hs & Ht & _). unfold holds_claim. by rewrite Hs, Ht. Qed.

(** A fresh row. *)
Lemma new_row claims k now peer artifact kind prio : RowInv claims k (new_task now peer artifact kind prio).
Proof. constructor; try done. intros _. pose proof (budget_positive (new_task now peer artifact kind prio)). cbn. lia. Qed.

(** An operation that changes rows in these ways, adds fresh ones and drops
    some is quiet. *)
Lemma quiet_rows claims m m' :
  (Good claims m -> forall k n, m' !! k = Some n ->
     (exists t, m !! k = Some t /\ (kept t n \/ idled t n)) \/
     (m !! k = None /\ exists now peer artifact kind prio, n = new_task now peer artifact kind prio)) ->
  quiet claims m m'.
Proof.
  intros Hrows Hg. specialize (Hrows Hg). split.
  - intros k n Hk. destruct (Hrows k n Hk) as [(t & Ht & [Hkept|Hidle])|(_ & now & peer & artifact & kind & prio & ->)];
      [eapply kept_row|eapply idled_row|apply new_row]; try done; by apply Hg.
  - intros k n token Hk Hh. destruct (Hrows k n Hk) as [(t & Ht & [Hkept|Hidle])|(_ & now & peer & artifact & kind & prio & ->)]; [|by rewrite (idled_claim t n) in Hh|done].
    exists t. split; [done|]. by rewrite <- (kept_claim t n).
Qed.

Lemma quiet_update claims guard f m :
  (forall k t, m !! k = Some t -> RowInv claims k t -> guard k t = true -> kept t (f t) \/ idled t (f t)) ->
  quiet claims m (update_where guard f m).
Proof.
  intros Hf. apply quiet_rows. intros Hg k n. rewrite lookup_update_where. destruct (m !! k) as [t|] eqn:E; [|done]. cbn.
  intros [= <-]. left. exists t. split; [done|]. destruct (guard k t) eqn:Eg; [|left; apply kept_refl]. by apply (Hf k); [|apply Hg|].
Qed.

Lemma quiet_insert claims k t n m : m !! k = Some t -> (RowInv claims k t -> kept t n \/ idled t n) -> quiet claims m (<[k := n]> m).
Proof.
  intros Hk Hn. apply quiet_rows. intros Hg k' n'. rewrite lookup_insert_Some. intros [[<- <-]|[_ Hk']].
  - left. exists t. split; [done|]. by apply Hn, Hg.
  - left. exists n'. split; [done|]. left. apply kept_refl.
Qed.

Lemma quiet_new claims k now peer artifact kind prio m : m !! k = None -> quiet claims m (<[k := new_task now peer artifact kind prio]> m).
Proof.
  intros Hk. apply quiet_rows. intros _ k' n'. rewrite lookup_insert_Some. intros [[<- <-]|[_ Hk']].
  - right. split; [done|]. eauto 10.
  - left. exists n'. split; [done|]. left. apply kept_refl.
Qed.

Lemma quiet_alter claims f k m :
  (forall t, m !! k = Some t -> RowInv claims k t -> kept t (f t) \/ idled t (f t)) -> quiet claims m (alter f k m).
Proof.
  intros Hf. apply quiet_rows. intros Hg k' n. rewrite lookup_alter. destruct (decide (k = k')) as [<-|].
  - destruct (m !! k) as [t|] eqn:E; [|done]. intros [= <-]. left. exists t. split; [done|]. by apply Hf, Hg.
  - intros Hk. left. exists n. split; [done|]. left. apply kept_refl.
Qed.

(** ** The statements of the worker *)

Lemma recover_quiet claims now db : quiet claims (tasks db) (tasks (recover_expired_sync_task_claims now db)).
Proof.
  apply quiet_update. intros k t Hk Hrow Hl. right. unfold claim_lapsed in Hl.
  apply andb_prop in Hl as [Hip%bool_decide_eq_true _]. split_and!; [done..|]. intros Hp. right. left. split; [done|].
  intros _. apply (row_budget _ _ _ Hrow Hp). by right.
Qed.

Lemma reset_quiet claims now db : quiet claims (tasks db) (tasks (reset_retriable now most db)).
Proof.
  apply quiet_update. intros k t Hk Hrow Hl. right. unfold retriable in Hl.
  apply andb_prop in Hl as [[[_ Hlt%Z.ltb_lt]%andb_prop _]%andb_prop _]. split_and!; [done..|]. intros _. right. left. done.
Qed.

Lemma extend_quiet claims fault now id token ttl db :
  quiet claims (tasks db) (tasks (extend_sync_task_claim fault now id token ttl db)).
Proof.
  unfold extend_sync_task_claim. destruct fault; [apply quiet_refl|]. apply quiet_alter. intros t _ _. left.
  destruct (holds_claim token t); by split_and!.
Qed.

Lemma rearm_quiet claims id sent db : quiet claims (tasks db) (tasks (rearm_superseded_push id sent db)).
Proof.
  unfold rearm_superseded_push. destruct (tasks db !! id) as [t|] eqn:E; [|apply quiet_refl].
  destruct (superseded sent db t); [|apply quiet_refl]. apply (quiet_insert _ _ t); [done|]. intros _. right.
  split_and!; [done..|]. intros _. by left.
Qed.

Lemma rearm_if_quiet claims c db : quiet claims (tasks db) (tasks (rearm_if_superseded c db)).
Proof. unfold rearm_if_superseded. destruct (is_push _); [apply rearm_quiet|apply quiet_refl]. Qed.

Ltac by_rearm :=
  match goal with |- quiet ?claims _ (tasks (rearm_if_superseded ?c ?d)) => exact (rearm_if_quiet claims c d) end.

(** Who may finalize owns the row. *)
Lemma holder_row claims c t : (forall c1 c2, c1 ∈ claims -> c2 ∈ claims -> token_of c1 = token_of c2 -> c1 = c2) -> c ∈ claims ->
  holds_claim (token_of c) t = true -> RowInv claims (claimed_id c) t ->
  task_status t = InProgress /\ retry_count t = retry_count (claimed_row c) /\ claimed_max_retries c = budget most t.
Proof.
  intros Hone Hc Hh Hrow. unfold holds_claim in Hh. apply andb_prop in Hh as [Hs%bool_decide_eq_true Ht%bool_decide_eq_true].
  destruct (row_owned _ _ _ Hrow Hs) as (c' & Hc' & _ & Ht' & Hr & Hb). rewrite Ht in Ht'. injection Ht' as E.
  rewrite (Hone c c' Hc Hc' E). done.
Qed.

Lemma finalize_quiet claims c f db b db' : finalize (claimed_id c) (token_of c) f db = (b, db') ->
  (forall t, holds_claim (token_of c) t = true -> RowInv claims (claimed_id c) t -> idled t (f t)) ->
  quiet claims (tasks db) (tasks db').
Proof.
  intros Hf Hidle. unfold finalize in Hf. destruct (tasks db !! claimed_id c) as [t|] eqn:E; [|injection Hf as <- <-; apply quiet_refl].
  destruct (holds_claim (token_of c) t) eqn:Hh; injection Hf as <- <-; [|apply quiet_refl].
  apply (quiet_insert _ _ t); [done|]. intros Hrow. right. by apply Hidle.
Qed.

Section Owners.
Context (claims : list ClaimedTask) (Hone : forall c1 c2, c1 ∈ claims -> c2 ∈ claims -> token_of c1 = token_of c2 -> c1 = c2).

Lemma complete_idles c now t : holds_claim (token_of c) t = true -> RowInv claims (claimed_id c) t -> idled t (complete_row now t).
Proof. intros _ _. split_and!; [done..|]. intros _. right. left. done. Qed.

Lemma settle_quiet now c outcome db : c ∈ claims -> quiet claims (tasks db) (tasks (settle now retry c outcome db)).
Proof.
  intros Hc. destruct outcome as [bytes|msg|msg]; cbn; [| |apply quiet_refl].
  - unfold handle_transfer_success. destruct (finalize _ _ _ db) as [b db'] eqn:E.
    assert (quiet claims (tasks db) (tasks db')) as Hq by (eapply finalize_quiet; [done|]; intros; by eapply complete_idles).
    destruct b; [|done]. eapply quiet_trans; [exact Hq|]. by_rearm.
  - unfold handle_transfer_failure. destruct (finalize _ _ _ db) as [b db'] eqn:E.
    assert (quiet claims (tasks db) (tasks db')) as Hq.
    { eapply finalize_quiet; [done|]. intros t Hh Hrow. destruct (holder_row claims c t Hone Hc Hh Hrow) as (Hs & Hr & Hb).
      split_and!; [done..|]. intros Hp. right. right. split_and!; [|done|done].
      destruct (row_budget _ _ _ Hrow Hp) as [Hle Hlt]. specialize (Hlt ltac:(by right)).
      assert (budget most t <= I32_MAX) by (unfold budget, most; rewrite (row_max _ _ _ Hrow); unfold I32_MAX in *; lia).
      cbn. rewrite Hr. unfold evaluate_task_failure. rewrite <- Hr, as_i32_id by (unfold I32_MAX in *; lia). by destruct (_ <? _). }
    destruct b; [|done]. eapply quiet_trans; [exact Hq|]. by_rearm.
Qed.

Lemma filtered_quiet now c db : c ∈ claims -> quiet claims (tasks db) (tasks (complete_filtered now c db)).
Proof.
  intros Hc. unfold complete_filtered. destruct (finalize _ _ _ db) as [b db'] eqn:E. cbn.
  eapply finalize_quiet; [done|]. intros. by eapply complete_idles.
Qed.
End Owners.

(** ** The statements that fill the queue *)

Lemma find_task_Some peer artifact kind m k t : find_task peer artifact kind m = Some (k, t) -> m !! k = Some t.
Proof. unfold find_task. intros [Hin _]%List.find_some. by apply elem_of_map_to_list, list_elem_of_In. Qed.

Lemma upsert_quiet claims now id peer artifact kind prio f m : m !! id = None ->
  (forall k t, m !! k = Some t -> RowInv claims k t -> kept t (f t) \/ idled t (f t)) ->
  quiet claims m (snd (upsert_task now id peer artifact kind prio f m)).
Proof.
  intros Hid Hf. unfold upsert_task. destruct (find_task _ _ _ m) as [[k t]|] eqn:E; cbn; [|by apply quiet_new].
  apply find_task_Some in E. apply (quiet_insert _ _ t); [done|]. by apply Hf.
Qed.

(** An upsert leaves the ids nobody has to nobody, but for its own. *)
Lemma upsert_unused now id peer artifact kind prio f m k : k <> id -> m !! k = None ->
  snd (upsert_task now id peer artifact kind prio f m) !! k = None.
Proof.
  intros Hne Hk. unfold upsert_task. destruct (find_task _ _ _ m) as [[k' t]|] eqn:E; cbn; [|by rewrite lookup_insert_ne].
  apply find_task_Some in E. rewrite lookup_insert_ne; [done|]. intros ->. congruence.
Qed.

Lemma cancel_idles claims k completed msg t : RowInv claims k t -> status_in [Pending; Failed] t = true ->
  idled t (set_state Cancelled (task_started t) completed msg (retry_count t) t).
Proof.
  intros Hrow Hs. unfold status_in in Hs. apply bool_decide_eq_true in Hs.
  assert (task_status t <> InProgress) as Hne by (intros E; rewrite E in Hs; set_solver).
  pose proof (row_idle _ _ _ Hrow Hne). split_and!; [done..|]. intros _. right. left. done.
Qed.

Lemma requeue_fresh_change claims k t : RowInv claims k t -> kept t (requeue_fresh t) \/ idled t (requeue_fresh t).
Proof.
  intros _. unfold requeue_fresh. destruct (bool_decide _); [left; apply kept_refl|right]. split_and!; [done..|]. intros _. by left.
Qed.

Lemma publish_quiet claims now id peer artifact prio db : tasks db !! id = None ->
  quiet claims (tasks db) (tasks (snd (queue_sync_task now id peer artifact prio db))).
Proof.
  intros Hid. unfold queue_sync_task. pose proof (upsert_quiet claims now id peer artifact Push prio
    (fun t => set_priority (Z.max (priority t) prio) t) (tasks db) Hid) as Hq.
  destruct (upsert_task _ _ _ _ _ _ _ _) as [k m]. cbn [snd] in *. eapply quiet_trans; [apply Hq|].
  - intros k' t _ _. left. by split_and!.
  - apply (rearm_quiet claims k None (set_tasks (fun _ => m) db)).
Qed.

Lemma enqueue_deletes_quiet claims now artifact fresh l : forall m, NoDup l -> (forall k k', fresh k = fresh k' -> k = k') ->
  (forall k, k ∈ l -> m !! fresh k = None) ->
  quiet claims m (foldl (fun m peer => snd (upsert_task now (fresh peer) peer artifact Delete 0 requeue_fresh m)) m l).
Proof.
  induction l as [|p l IH]; intros m Hnd Hinj Hun; [apply quiet_refl|]. apply NoDup_cons in Hnd as [Hp Hnd]. cbn.
  eapply quiet_trans; [apply upsert_quiet; [apply Hun; left|intros; by eapply requeue_fresh_change]|].
  apply IH; [done|done|]. intros k Hk. apply upsert_unused; [|apply Hun; by right]. intros E%Hinj. by subst.
Qed.

Lemma delete_targets_nodup artifact db : NoDup (delete_targets artifact db).
Proof.
  unfold delete_targets. destruct (artifacts db !! artifact); [|apply NoDup_nil_2].
  eapply sublist_NoDup; [|apply fmap_sublist, sublist_filter]. apply NoDup_fst_map_to_list.
Qed.

Lemma cancel_superseded_quiet claims now artifact db : quiet claims (tasks db) (tasks (cancel_superseded_pushes now artifact db)).
Proof.
  apply quiet_update. intros k t _ Hrow [_ Hs]%andb_prop. right. by apply (cancel_idles claims k).
Qed.

Lemma delete_quiet claims now artifact enqueue cancelled queued fresh db db' : unused_ids fresh db ->
  delete_with_sync_options now artifact enqueue cancelled queued fresh db = Ok db' -> quiet claims (tasks db) (tasks db').
Proof.
  intros [Hun Hinj]. unfold delete_with_sync_options. destruct (artifacts db !! artifact) as [a|]; [|done].
  destruct (art_deleted a); [done|]. set (db1 := set_artifacts _ db).
  intros [= <-]. set (db2 := if cancelled then _ else db1).
  assert (quiet claims (tasks db) (tasks db2)) as Hq
    by (subst db2; destruct cancelled; [apply (cancel_superseded_quiet claims now artifact db1)|apply quiet_refl]).
  destruct (enqueue && queued); [|exact Hq]. eapply quiet_trans; [exact Hq|]. apply enqueue_deletes_quiet; [apply delete_targets_nodup|done|].
  intros k _. subst db2. destruct cancelled; [|apply Hun]. cbn. rewrite lookup_update_where. by rewrite Hun.
Qed.

Lemma requeue_change claims k t : policies = true -> RowInv claims k t -> kept t (requeue t) \/ idled t (requeue t).
Proof.
  intros Hp _. unfold requeue. destruct (bool_decide _); [left; apply kept_refl|right]. split_and!; try done. congruence.
Qed.

Lemma switch_quiet claims now artifact kind other fresh peer m : policies = true -> m !! fresh peer = None ->
  quiet claims m (switch_task now artifact kind other fresh peer m).
Proof.
  intros Hp Hun. unfold switch_task. eapply quiet_trans; [|apply upsert_quiet; [|intros; by eapply requeue_change]].
  - apply quiet_update. intros k t _ Hrow [_ Hs]%andb_prop. right. apply (cancel_idles claims k); [done|].
    unfold status_in in *. apply bool_decide_eq_true in Hs. apply bool_decide_eq_true. set_solver.
  - unfold cancel_pending. by rewrite lookup_update_where, Hun.
Qed.

Lemma switch_unused now artifact kind other fresh peer m k : k <> fresh peer -> m !! k = None ->
  switch_task now artifact kind other fresh peer m !! k = None.
Proof. intros Hne Hk. apply upsert_unused; [done|]. unfold cancel_pending. by rewrite lookup_update_where, Hk. Qed.

(** A loop that switches the tasks of some of the peers. *)
Lemma switches_quiet claims now artifact kind other fresh (skip : Uuid -> bool) l : policies = true ->
  (forall k k', fresh k = fresh k' -> k = k') -> forall m, NoDup l -> (forall k, k ∈ l -> m !! fresh k = None) ->
  let m' := foldl (fun m peer => if skip peer then m else switch_task now artifact kind other fresh peer m) m l in
  quiet claims m m' /\ forall k, (forall p, k <> fresh p) -> m !! k = None -> m' !! k = None.
Proof.
  intros Hp Hinj. induction l as [|p l IH]; intros m Hnd Hun; [split; [apply quiet_refl|done]|].
  apply NoDup_cons in Hnd as [Hpl Hnd]. cbn. destruct (skip p).
  - destruct (IH m Hnd) as [Hq Hk]; [intros; apply Hun; by right|]. done.
  - destruct (IH (switch_task now artifact kind other fresh p m) Hnd) as [Hq Hk].
    { intros k Hk. apply switch_unused; [|apply Hun; by right]. intros E%Hinj. by subst. }
    split; [eapply quiet_trans; [apply switch_quiet; [done|apply Hun; left]|done]|].
    intros k Hkf Hkm. apply Hk; [done|]. by apply switch_unused.
Qed.

Lemma policy_quiet claims now artifact desired fresh fresh' db : policies = true -> NoDup desired ->
  unused_ids fresh db -> unused_ids fresh' db -> (forall k k', fresh k <> fresh' k') ->
  quiet claims (tasks db) (tasks (queue_policy_tasks now artifact desired fresh fresh' db)).
Proof.
  intros Hp Hnd [Hun Hinj] [Hun' Hinj'] Hdis. unfold queue_policy_tasks. cbn [tasks set_tasks].
  destruct (switches_quiet claims now artifact Push Delete fresh (fun peer => bool_decide (peer ∈ synced_peers artifact (tasks db))) desired
    Hp Hinj (tasks db) Hnd) as [Hq Hk]; [intros; apply Hun|]. eapply quiet_trans; [exact Hq|].
  apply (switches_quiet claims now artifact Delete Push fresh' (fun peer => bool_decide (peer ∈ desired))); [done|done|apply NoDup_remove_dups|].
  intros k _. apply Hk; [|apply Hun']. intros p E. by apply (Hdis p k).
Qed.

Lemma op_quiet claims db db' : (forall c1 c2, c1 ∈ claims -> c2 ∈ claims -> token_of c1 = token_of c2 -> c1 = c2) ->
  queue_op claims db db' -> quiet claims (tasks db) (tasks db').
Proof.
  intros Hone Hop. destruct Hop.
  - apply recover_quiet.
  - apply reset_quiet.
  - apply quiet_refl.
  - apply extend_quiet.
  - by apply settle_quiet.
  - by apply filtered_quiet.
  - by apply publish_quiet.
  - by eapply delete_quiet.
  - by apply policy_quiet.
  - apply quiet_refl.
  - apply quiet_rows. intros _ k n [Hk _]%map_lookup_filter_Some. left. exists n. split; [done|]. left. apply kept_refl.
Qed.

(** * The invariant *)

Record QueueInv (s : Fleet) : Prop := {
  qi_rows : Good (issued s) (tasks (fleet_db s));
  qi_drawn : forall c, c ∈ issued s -> token_of c ∈ drawn s;
  qi_one : forall c1 c2, c1 ∈ issued s -> c2 ∈ issued s -> token_of c1 = token_of c2 -> c1 = c2
}.

(** A row in progress under a token: it was before, or the token is new. *)
Definition no_old_claim (s s' : Fleet) : Prop := forall k t' token, tasks (fleet_db s') !! k = Some t' -> holds_claim token t' = true ->
  (exists t, tasks (fleet_db s) !! k = Some t /\ holds_claim token t = true) \/ token ∉ drawn s.

Lemma row_weaken claims claims' k t : (forall c, c ∈ claims -> c ∈ claims') -> RowInv claims k t -> RowInv claims' k t.
Proof.
  intros Hsub [Ho Hi Hm Hb]. constructor; [|done..]. intros Hs. destruct (Ho Hs) as (c & Hc & Hrest). exists c. split; [by apply Hsub|done].
Qed.

Lemma claim_inv s now peer slots limit identity ttl locked fresh claimed db :
  claim_pending_sync_tasks None now peer slots limit most identity ttl locked fresh (fleet_db s) = (Ok claimed, db) ->
  (forall k, fresh k ∉ drawn s) -> (forall k k', fresh k = fresh k' -> k = k') -> QueueInv s ->
  let s' := {| fleet_db := db; issued := claimed ++ issued s; drawn := list_to_set (token_of <$> claimed) ∪ drawn s |} in
  QueueInv s' /\ no_old_claim s s'.
Proof.
  intros [= <- <-] Hfresh Hinj [Hg Hd Hone]. set (db := fleet_db s) in *.
  set (chosen := claim_candidates now peer slots limit most locked db). set (claimed := omap _ _).
  assert (forall c, c ∈ claimed -> exists t, (claimed_id c, t) ∈ chosen /\ tasks db !! claimed_id c = Some t /\ task_status t = Pending /\
            joined now identity ttl most fresh db (claimed_id c, t) = Some c /\ token_of c = fresh (claimed_id c)) as Hfrom.
  { intros c ([k t] & Hkt & Hj)%list_elem_of_omap. pose proof Hj as Hj'. unfold joined in Hj'. cbn in Hj'.
    destruct (artifacts db !! task_artifact t) as [a|]; [|done]. injection Hj' as <-. exists t.
    destruct (proj1 (due_spec now peer most locked db k t) (chosen_due now peer slots limit most locked db k t Hkt)) as (Ht & (_ & Hs & _)%claimable_spec & _).
    by split_and!. }
  pose proof (after_lookup now peer slots limit most identity ttl locked fresh db) as Hnew.
  pose proof (after_same now peer slots limit most identity ttl locked fresh db) as Hsame. fold chosen in Hnew, Hsame.
  assert (forall k, k ∈ chosen.*1 -> exists c, c ∈ claimed /\ claimed_id c = k) as Hids.
  { intros k Hk. rewrite <- (claimed_ids now peer most identity ttl locked fresh db chosen) in Hk
      by (intros [k' t']; apply (chosen_due now peer slots limit most locked db)).
    apply list_elem_of_fmap in Hk as (c & -> & Hc). eauto. }
  cbn zeta. split; [constructor|]; cbn [fleet_db issued drawn tasks set_tasks].
  - intros k n Hk. destruct (decide (k ∈ chosen.*1)) as [Hin|Hout].
    + destruct (Hids k Hin) as (c & Hc & <-). destruct (Hfrom c Hc) as (t & Hch & Ht & Hs & Hj & Htok).
      rewrite (Hnew _ _ Hch) in Hk. injection Hk as <-. destruct (Hg _ _ Ht) as [_ _ Hm Hb].
      unfold joined in Hj. cbn in Hj. destruct (artifacts db !! task_artifact t) as [a|]; [|done]. injection Hj as Ej.
      constructor; [|done|done|].
      * intros _. exists c. split; [apply elem_of_app; by left|]. rewrite <- Ej. by split_and!.
      * intros Hp. destruct (Hb Hp) as [Hle Hlt]. specialize (Hlt (or_introl Hs)). cbn in *. split; [done|]. intros _. exact Hlt.
    + rewrite Hsame in Hk by done. eapply row_weaken; [|by apply Hg]. intros c Hc. apply elem_of_app. by right.
  - intros c [Hc|Hc]%elem_of_app; [apply elem_of_union_l, elem_of_list_to_set, list_elem_of_fmap; eauto|].
    apply elem_of_union_r. by apply Hd.
  - intros c1 c2 [H1|H1]%elem_of_app [H2|H2]%elem_of_app E; [| | |by apply Hone].
    + destruct (Hfrom c1 H1) as (t1 & _ & Ht1 & _ & Hj1 & Htok1). destruct (Hfrom c2 H2) as (t2 & _ & Ht2 & _ & Hj2 & Htok2).
      rewrite Htok1, Htok2 in E. apply Hinj in E. rewrite <- E in Ht2, Hj2. congruence.
    + destruct (Hfrom c1 H1) as (_ & _ & _ & _ & _ & Htok1). apply Hd in H2. rewrite <- E, Htok1 in H2. by destruct (Hfresh _ H2).
    + destruct (Hfrom c2 H2) as (_ & _ & _ & _ & _ & Htok2). apply Hd in H1. rewrite E, Htok2 in H1. by destruct (Hfresh _ H1).
  - intros k n token Hk Hh. cbn [fleet_db tasks set_tasks] in Hk. destruct (decide (k ∈ chosen.*1)) as [Hin|Hout].
    + right. destruct (Hids k Hin) as (c & Hc & <-). destruct (Hfrom c Hc) as (t & Hch & _).
      rewrite (Hnew _ _ Hch) in Hk. injection Hk as <-. unfold holds_claim in Hh. cbn in Hh. apply bool_decide_eq_true in Hh.
      injection Hh as <-. apply Hfresh.
    + left. rewrite Hsame in Hk by done. eauto.
Qed.

Lemma queue_step_inv s s' : queue_step s s' -> QueueInv s -> QueueInv s' /\ no_old_claim s s'.
Proof.
  intros [now peer slots limit identity ttl locked fresh claimed db Hc Hfresh Hinj|db Hop] Hinv.
  - by eapply claim_inv.
  - pose proof (op_quiet _ _ _ (qi_one s Hinv) Hop (qi_rows s Hinv)) as [Hg Hb]. destruct Hinv as [_ Hd Hone].
    split; [by constructor|]. intros k t token Hk Hh. left. by apply (Hb k t).
Qed.

Lemma queue_reachable_inv s : queue_reachable s -> QueueInv s.
Proof.
  intros (s0 & (Et & Ei & Ed) & Hrun). refine (rtc_preserve _ _ _ _ _ Hrun _).
  - intros x y Hxy Hx. by apply (queue_step_inv x y Hxy).
  - constructor; rewrite ?Ei; [intros k t; by rewrite Et, lookup_empty|by intros ? ?%not_elem_of_nil|by intros ? ? ?%not_elem_of_nil].
Qed.

(** Claims stay handed out, and tokens drawn. *)
Lemma issued_grow s s' : queue_step s s' -> forall c, c ∈ issued s -> c ∈ issued s'.
Proof. intros [*|*] c Hc; cbn; [apply elem_of_app; by right|done]. Qed.

(** * What the queue promises *)

(** C22. Each task has one owner, once.  Under any interleaving of claims,
    finalizers, extensions, recoveries, retries, publications, deletes and
    policies, two claims of one task whose finalizers the database would accept
    are the same claim; and a claim that is lost - finalized, lapsed and
    recovered, or taken over - stays lost in every later state, so it is
    finalized at most once. *)
Theorem claim_settles_once s c c' : queue_reachable s -> c ∈ issued s -> c' ∈ issued s ->
  (claimed_id c = claimed_id c' -> ~ claim_lost c (fleet_db s) -> ~ claim_lost c' (fleet_db s) -> c = c') /\
  (claim_lost c (fleet_db s) -> forall s', rtc queue_step s s' -> claim_lost c (fleet_db s')).
Proof.
  intros Hinv%queue_reachable_inv Hc Hc'. split.
  - intros Eid Hl Hl'. unfold claim_lost in *. rewrite <- Eid in Hl'.
    destruct (tasks (fleet_db s) !! claimed_id c) as [t|]; [|by destruct Hl].
    destruct (holds_claim (token_of c) t) eqn:H1; [|destruct Hl; by intros ? [= <-]].
    destruct (holds_claim (token_of c') t) eqn:H2; [|destruct Hl'; by intros ? [= <-]].
    unfold holds_claim in *. apply andb_prop in H1 as [_ H1%bool_decide_eq_true], H2 as [_ H2%bool_decide_eq_true].
    apply (qi_one s Hinv); [done|done|congruence].
  - intros Hl s' Hrun. revert Hinv Hc Hl. clear Hc'. induction Hrun as [s|s s1 s2 Hstep _ IH]; intros Hinv Hc Hl; [done|].
    destruct (queue_step_inv s s1 Hstep Hinv) as [Hinv1 Hno]. apply IH; [done|by eapply issued_grow|].
    intros t Ht. destruct (holds_claim (token_of c) t) eqn:Hh; [|done].
    destruct (Hno _ _ _ Ht Hh) as [(t0 & Ht0 & Hh0)|Hn]; [by rewrite (Hl t0 Ht0) in Hh0|]. destruct Hn. by apply (qi_drawn s Hinv).
Qed.

(** A task in progress belongs to a claim that was handed out, carries that
    claim's token and the count the claim read; a task not in progress carries
    no claim. *)
Theorem progress_is_claimed s k t : queue_reachable s -> tasks (fleet_db s) !! k = Some t ->
  (task_status t = InProgress -> exists c, c ∈ issued s /\ claimed_id c = k /\ claim_token t = Some (token_of c) /\
     retry_count t = retry_count (claimed_row c)) /\
  (task_status t <> InProgress -> claim_token t = None).
Proof.
  intros Hinv%queue_reachable_inv Hk. destruct (qi_rows s Hinv k t Hk) as [Ho Hi _ _]. split; [|done].
  intros Hs. destruct (Ho Hs) as (c & Hc & Hid & Htok & Hr & _). eauto.
Qed.

(** C34. Attempts are bounded.  While no policy is evaluated, no task ever counts
    more failures than its budget - the larger of its own limit and the
    replicas' - and a task that may still be tried has counted fewer. *)
Theorem attempts_bounded s k t : policies = false -> queue_reachable s -> tasks (fleet_db s) !! k = Some t ->
  0 <= retry_count t <= budget most t /\
  (task_status t = Pending \/ task_status t = InProgress -> retry_count t < budget most t).
Proof. intros Hp Hinv%queue_reachable_inv Hk. by apply (row_budget _ _ _ (qi_rows s Hinv k t Hk)). Qed.
End Runs.

(** * Witnesses *)

Section Witnesses.
Let blank : SyncDb := set_tasks (fun _ => ∅) sample_db.
Let start : Fleet := {| fleet_db := blank; issued := []; drawn := ∅ |}.
Let published : SyncDb := snd (queue_sync_task 0 10%N 1%N 7%N 0 blank).
Let queued : Fleet := {| fleet_db := published; issued := []; drawn := ∅ |}.
Let tokens_from (k : Uuid) : Uuid := (100 + k)%N.
Let claim := claim_pending_sync_tasks None 1 1%N 4 4 3 "worker" 1800 (fun _ => false) tokens_from published.
Let claimed : list ClaimedTask := match fst claim with Ok l => l | Err _ => [] end.
Let running : Fleet := {| fleet_db := snd claim; issued := claimed ++ []; drawn := list_to_set (token_of <$> claimed) ∪ ∅ |}.

Let claim_ok : claim = (Ok claimed, snd claim).
Proof. vm_compute. done. Defined.

Let running_reachable : queue_reachable sample_policy false running.
Proof.
  exists start. split; [done|]. eapply rtc_l; [|apply (rtc_l _ queued running); [|apply rtc_refl]].
  - apply (queue_quiet sample_policy false start published). apply op_publish. done.
  - apply (queue_claim sample_policy false queued 1 1%N 4 4 "worker" 1800 (fun _ => false) tokens_from claimed (snd claim)).
    + exact claim_ok.
    + intros k. apply not_elem_of_empty.
    + unfold tokens_from. intros k k' E. lia.
Defined.

Let retries_ok : 1 <= policy_max_retries sample_policy <= I32_MAX.
Proof. done. Defined.

Let one_claim : exists c, claimed = [c] /\ c ∈ claimed.
Proof. vm_compute. eexists. split; [reflexivity|left]. Defined.

Lemma claim_settles_once_witness : exists c, claimed = [c] /\ forall s', rtc (queue_step sample_policy false)
    {| fleet_db := settle 5 sample_policy c (Succeeded 9) (fleet_db running); issued := issued running; drawn := drawn running |} s' ->
  claim_lost c (fleet_db s').
Proof.
  destruct one_claim as (c & E & Hc). exists c. split; [exact E|]. intros s'.
  assert (c ∈ issued running) as Hi by (unfold running; cbn [issued]; rewrite app_nil_r; exact Hc).
  apply (claim_settles_once sample_policy retries_ok false _ c c); [|exact Hi|exact Hi|].
  - destruct running_reachable as (s0 & H0 & H1). exists s0. split; [done|]. eapply rtc_r; [exact H1|].
    apply (queue_quiet sample_policy false running). by apply op_settle.
  - clear Hc Hi. vm_compute in E. injection E as <-. intros t. cbn [fleet_db]. vm_compute. intros [= <-]. done.
Defined.

Lemma progress_is_claimed_witness : exists t, tasks (fleet_db running) !! 10%N = Some t /\
  exists c, c ∈ issued running /\ claimed_id c = 10%N /\ claim_token t = Some (token_of c) /\ retry_count t = retry_count (claimed_row c).
Proof.
  assert { t | tasks (fleet_db running) !! 10%N = Some t } as [t E] by (vm_compute; eexists; reflexivity).
  exists t. split; [exact E|]. apply (progress_is_claimed sample_policy retries_ok false running 10%N t running_reachable E).
  vm_compute in E. by injection E as <-.
Defined.

Lemma attempts_bounded_witness : exists t, tasks (fleet_db running) !! 10%N = Some t /\ retry_count t < 3.
Proof.
  assert { t | tasks (fleet_db running) !! 10%N = Some t } as [t E] by (vm_compute; eexists; reflexivity).
  exists t. split; [exact E|].
  destruct (attempts_bounded sample_policy retries_ok false running 10%N t eq_refl running_reachable E) as [_ Hlt].
  vm_compute in E. injection E as <-. specialize (Hlt (or_intror eq_refl)). exact Hlt.
Defined.
End Witnesses.
