(* ===== verification/ImageFacts.v ===== *)
(** What the transfer plan of an image promises ([OciPlan]): it holds every
    object of the image once, each manifest behind what it refers to; so however
    a transfer ends, no manifest the peer accepted lacks an object
    ([SyncWorker]). *)

From stdpp Require Import base list strings gmap pretty.
From Stdlib Require Import ZArith Lia Ascii.
From S2P Require Import Prelude RustStr RustNum Errors Chrono F64 GcDb SyncWire OciPlan SyncQueue SyncWorker SyncFacts.

Local Open Scope string_scope.
Local Open Scope result_scope.
Local Open Scope list_scope.

(** * The plan *)

Section Plan.
Context (repo : Uuid) (db : GcDb) (blob_fault child_fault type_fault : string -> option string).

Local Notation blob_refs := (blob_refs repo db).
Local Notation child_refs := (child_refs repo db).
Local Notation refs := (refs repo db).
Local Notation closed := (closed repo db).
Local Notation manifest_of := (manifest_of repo db).
Local Notation child_item := (child_item repo db type_fault).
Local Notation push_children := (push_children repo db type_fault).
Local Notation walk := (walk repo db blob_fault child_fault type_fault).
Local Notation build_oci_transfer_plan := (build_oci_transfer_plan repo db blob_fault child_fault type_fault).

Lemma elem_of_dedup x l : x ∈ dedup l <-> x ∈ l.
Proof.
  induction l as [|y l IH]; [done|]. cbn. destruct (dedup l) as [|z rest] eqn:E.
  - rewrite !elem_of_cons, <- IH. done.
  - destruct (String.eqb_spec y z) as [->|]; rewrite !elem_of_cons, <- IH, !elem_of_cons; tauto.
Qed.

Lemma elem_of_sorted_digests x l : x ∈ sorted_digests l <-> x ∈ l.
Proof. unfold sorted_digests. by rewrite elem_of_dedup, sort_by_perm. Qed.

Lemma digest_child d : item_digest (child_item d) = d.
Proof. done. Qed.

Lemma closed_nil : closed [].
Proof. intros [|] ? ? [=]. Qed.

Lemma closed_snoc l item : closed l ->
  (is_manifest item = true -> forall d, d ∈ refs (item_digest item) -> d ∈ item_digest <$> l) -> closed (l ++ [item]).
Proof.
  intros Hl Hi pre x post E Hx d Hd. destruct post as [|y post _] using rev_ind.
  - apply app_inj_tail in E as [<- <-]. by apply Hi.
  - rewrite app_comm_cons, app_assoc in E. apply app_inj_tail in E as [-> _]. by eapply Hl.
Qed.

Lemma elem_of_snoc d l item : d ∈ item_digest <$> (l ++ [item]) <-> d ∈ item_digest <$> l \/ d = item_digest item.
Proof. rewrite fmap_app, elem_of_app. cbn [fmap list_fmap]. by rewrite list_elem_of_singleton. Qed.

Lemma nodup_snoc l item : NoDup (item_digest <$> l) -> item_digest item ∉ item_digest <$> l -> NoDup (item_digest <$> (l ++ [item])).
Proof.
  intros Hl Hi. rewrite fmap_app. apply NoDup_app. split_and!; [done| |apply NoDup_singleton].
  cbn [fmap list_fmap]. intros d Hd ->%list_elem_of_singleton. done.
Qed.

Section Acyclic.
(** A digest is that of a content, so no manifest is below itself: [order].
    [rank] counts the levels of indexes. *)
Context (order rank : string -> nat) (top : string).
Hypothesis order_refs : forall m d, d ∈ refs m -> (order d < order m)%nat.
Hypothesis rank_child : forall m c, c ∈ child_refs m -> (rank c < rank m)%nat.

(** In progress are the manifests above the walk: met, not yet in the plan. *)
Record WalkInv (above : list string) (st : Walk) : Prop := {
  wi_seen d : d ∈ st.2 <-> d ∈ item_digest <$> st.1 \/ d ∈ above;
  wi_apart d : d ∈ above -> d ∉ item_digest <$> st.1;
  wi_nodup : NoDup (item_digest <$> st.1);
  wi_closed : closed st.1
}.

(** An object of the image, in the role some manifest gives it. *)
Definition in_role (root : string) (item : OciTransferItem) : Prop :=
  exists m, manifest_of root m /\ item_digest item ∈ (if is_manifest item then child_refs m else blob_refs m).

(** A walk adds to the plan objects of the image only. *)
Definition grows (root : string) (st st' : Walk) : Prop :=
  exists more, st'.1 = st.1 ++ more /\ forall item, item ∈ more -> in_role root item.

Lemma grows_refl root st : grows root st st.
Proof. exists []. split; [by rewrite app_nil_r|]. intros d Hd. by apply not_elem_of_nil in Hd. Qed.

Lemma grows_trans root st st1 st2 : grows root st st1 -> grows root st1 st2 -> grows root st st2.
Proof.
  intros (l1 & E1 & H1) (l2 & E2 & H2). exists (l1 ++ l2). split; [by rewrite E2, E1, app_assoc|].
  intros d. rewrite elem_of_app. intros [?|?]; auto.
Qed.

Lemma grows_snoc root st item seen : in_role root item -> grows root st (st.1 ++ [item], seen).
Proof. intros Hr. exists [item]. split; [done|]. by intros ? ->%list_elem_of_singleton. Qed.

Lemma grows_keeps root st st' d : grows root st st' -> d ∈ item_digest <$> st.1 -> d ∈ item_digest <$> st'.1.
Proof. intros (l & -> & _) Hd. rewrite fmap_app, elem_of_app. by left. Qed.

Lemma push_blob_inv above m l st : (forall b, b ∈ l -> b ∈ blob_refs m) -> (forall a, a ∈ above -> order m <= order a)%nat -> WalkInv above st ->
  let st' := foldl push_blob st l in
  WalkInv above st' /\ grows m st st' /\ forall b, b ∈ l -> b ∈ item_digest <$> st'.1.
Proof.
  intros Hl Hab. revert st Hl. induction l as [|b l IH]; intros st Hl Hinv; cbn.
  { split_and!; [done|apply grows_refl|]. intros b Hb. by apply not_elem_of_nil in Hb. }
  assert (b ∈ blob_refs m) as Hb by (apply Hl; left).
  assert (b ∉ above) as Hba.
  { intros Ha%Hab. assert (order b < order m)%nat; [|lia]. apply order_refs. unfold refs. rewrite elem_of_app. by left. }
  assert (WalkInv above (push_blob st b) /\ grows m st (push_blob st b) /\ b ∈ item_digest <$> (push_blob st b).1) as (H1 & H2 & H3).
  { unfold push_blob. destruct Hinv as [Hs Ha Hn Hc]. destruct (decide (b ∈ st.2)) as [Hin|Hout].
    - split_and!; [done|apply grows_refl|]. by apply Hs in Hin as [?|?].
    - cbn. assert (b ∉ item_digest <$> st.1) as Hnew by (intros Hin; apply Hout, Hs; by left). split_and!.
      + split; cbn; [| |by apply nodup_snoc|by apply closed_snoc].
        * intros d. rewrite elem_of_union, elem_of_singleton, Hs, elem_of_snoc. cbn. tauto.
        * intros d Hd. rewrite elem_of_snoc. cbn. intros [Hin| ->]; [by apply (Ha d)|done].
      + apply grows_snoc. exists m. split; [apply manifest_top|done].
      + rewrite elem_of_snoc. by right. }
  destruct (IH (push_blob st b)) as (I1 & I2 & I3); [intros; apply Hl; by right|done|]. split_and!.
  - done.
  - by eapply grows_trans.
  - intros d [->|Hd]%elem_of_cons; [by eapply grows_keeps|by apply I3].
Qed.

Lemma manifest_of_trans a b c : manifest_of a b -> manifest_of b c -> manifest_of a c.
Proof. intros Ha. induction 1 as [|m c Hm IH Hc]; [done|]. by eapply manifest_child. Qed.

Lemma grows_child d c st st' : c ∈ child_refs d -> grows c st st' -> grows d st st'.
Proof.
  intros Hc (l & E & Hl). exists l. split; [done|]. intros x Hx. destruct (Hl x Hx) as (m & Hm & Hr). exists m. split; [|done].
  eapply manifest_of_trans; [|exact Hm]. eapply manifest_child; [apply manifest_top|done].
Qed.

(** A manifest whose walk is over is put behind what it refers to. *)
Lemma commit_inv above c st : WalkInv (c :: above) st -> c ∉ above -> (forall r, r ∈ refs c -> r ∈ item_digest <$> st.1) ->
  WalkInv above (st.1 ++ [child_item c], st.2).
Proof.
  intros [Hs Ha Hn Hc] Hnew Hr. split; cbn.
  - intros d. rewrite Hs, elem_of_snoc, elem_of_cons. cbn. tauto.
  - intros d Hd. rewrite elem_of_snoc. cbn. intros [Hin| ->]; [|done]. apply (Ha d); [by right|done].
  - apply nodup_snoc; [done|]. apply Ha. left.
  - by apply closed_snoc.
Qed.

(** What a walk that meets no failing read does. *)
Definition walks (levels : nat) : Prop := forall d above st st', (rank d < levels)%nat -> WalkInv above st -> d ∉ st.2 ->
  (forall a, a ∈ above -> order d < order a)%nat -> walk levels d st = Ok st' ->
  WalkInv (d :: above) st' /\ grows d st st' /\ forall r, r ∈ refs d -> r ∈ item_digest <$> st'.1.

Lemma push_children_inv levels d above l st st' : walks levels -> (rank d < S levels)%nat -> (forall c, c ∈ l -> c ∈ child_refs d) ->
  (forall a, a ∈ above -> order d < order a)%nat -> WalkInv (d :: above) st -> push_children (walk levels) l st = Ok st' ->
  WalkInv (d :: above) st' /\ grows d st st' /\ forall c, c ∈ l -> c ∈ item_digest <$> st'.1.
Proof.
  intros Hw Hd. revert st. induction l as [|c l IH]; intros st Hl Hab Hinv; cbn.
  { intros [= <-]. split_and!; [done|apply grows_refl|]. intros x Hx. by apply not_elem_of_nil in Hx. }
  assert (c ∈ child_refs d) as Hc by (apply Hl; left). pose proof (rank_child _ _ Hc) as Hrank.
  assert (order c < order d)%nat as Hord by (apply order_refs; unfold refs; rewrite elem_of_app; by right).
  assert (forall a, a ∈ d :: above -> order c < order a)%nat as Habove by (intros a [->|Ha%Hab]%elem_of_cons; lia).
  assert (c ∉ d :: above) as Hfresh by (intros Hin%Habove; lia).
  destruct (decide (c ∈ st.2)) as [Hin|Hout].
  - intros (H1 & H2 & H3)%IH; [|intros; apply Hl; by right|done|done].
    split_and!; [done|done|]. intros x [->|Hx]%elem_of_cons; [|by apply H3].
    apply (grows_keeps _ _ _ _ H2). by apply (wi_seen _ _ Hinv) in Hin as [?|?].
  - intros (st1 & E1 & E2)%rbind_Ok. destruct (Hw c (d :: above) st st1) as (I1 & G1 & R1); [lia|done..|].
    pose proof (commit_inv _ _ _ I1 Hfresh R1) as I2. apply IH in E2 as (H1 & H2 & H3); [|intros; apply Hl; by right|done|done].
    split_and!; [done| |].
    + eapply grows_trans; [by eapply grows_child|]. eapply grows_trans; [|exact H2]. apply grows_snoc. exists d.
      split; [apply manifest_top|done].
    + intros x [->|Hx]%elem_of_cons; [|by apply H3]. apply (grows_keeps _ _ _ _ H2). cbn. rewrite elem_of_snoc. by right.
Qed.

Lemma walk_inv levels : walks levels.
Proof.
  induction levels as [|levels IH]; intros d above st st' Hd Hinv Hnew Hab; [lia|]. cbn. rewrite decide_False by done.
  destruct (blob_fault d); [done|]. destruct (child_fault d); [done|]. intros E.
  assert (WalkInv (d :: above) (st.1, {[d]} ∪ st.2)) as I0.
  { destruct Hinv as [Hs Ha Hn Hc]. split; cbn; [| |done|done].
    - intros x. rewrite elem_of_union, elem_of_singleton, Hs, elem_of_cons. tauto.
    - intros x [->|Hx]%elem_of_cons; [|by apply Ha]. intros Hin. apply Hnew, Hs. by left. }
  destruct (push_blob_inv (d :: above) d (sorted_digests (blob_refs d)) (st.1, {[d]} ∪ st.2)) as (I1 & G1 & B1);
    [intros b; apply elem_of_sorted_digests|intros a [->|Ha%Hab]%elem_of_cons; lia|done|].
  set (st1 := foldl push_blob _ _) in *.
  destruct (push_children_inv levels d above (sorted_digests (child_refs d)) st1 st') as (I2 & G2 & C2);
    [done|done|intros c; apply elem_of_sorted_digests|done|done|done|].
  split_and!; [done| |].
  - eapply grows_trans; [exact G1|exact G2].
  - intros r. unfold refs. rewrite elem_of_app. intros [Hr|Hr].
    + eapply grows_keeps; [exact G2|]. by apply B1, elem_of_sorted_digests.
    + by apply C2, elem_of_sorted_digests.
Qed.

(** The manifests that are sent as manifests: a digest that is a layer of one
    manifest and a child of another may go as a layer. *)
Inductive manifest_sent : string -> Prop :=
| sent_top : manifest_sent top
| sent_child m c : manifest_sent m -> c ∈ child_refs m -> (forall m', manifest_of top m' -> c ∉ blob_refs m') -> manifest_sent c.

Lemma all_sent : (forall m m' b, manifest_of top m -> manifest_of top m' -> b ∈ blob_refs m -> b ∉ child_refs m') ->
  forall m, manifest_of top m -> manifest_sent m.
Proof.
  intros Ha m Hm. induction Hm as [|m c Hm IH Hc]; [constructor|]. eapply sent_child; [exact IH|done|].
  intros m' Hm' Hb. by apply (Ha m' m c).
Qed.

(** A plan: objects of the image in their roles, each once, behind what they
    refer to, those of every manifest that is sent as one, and the top last. *)
Lemma plan_complete item plan : item_digest item = top -> (rank top <= MAX_DEPTH)%nat -> build_oci_transfer_plan item = Ok plan ->
  NoDup (item_digest <$> plan) /\ closed plan /\
  (forall it, it ∈ plan -> item_digest it = top /\ is_manifest it = true \/ in_role top it) /\
  (forall m d, manifest_sent m -> d ∈ refs m -> d ∈ item_digest <$> plan) /\
  last plan = Some {| is_manifest := true; item_digest := top; item_key := item_key item; item_type := item_type item |}.
Proof.
  intros Ht Hr. unfold build_oci_transfer_plan. rewrite Ht. intros (st & Ew & E)%rbind_Ok. injection E as <-.
  destruct (walk_inv (S MAX_DEPTH) top [] ([], ∅) st) as ([Hs Ha Hn Hc] & (l & El & Hl) & Hrefs); cbn -[walk] in *.
  - unfold MAX_DEPTH in *. lia.
  - split; cbn; [|intros d Hd; by apply not_elem_of_nil in Hd|constructor|apply closed_nil]. intros d. set_solver.
  - set_solver.
  - intros a Ha. by apply not_elem_of_nil in Ha.
  - done.
  - set (last_item := {| is_manifest := true; item_digest := top; item_key := item_key item; item_type := item_type item |}).
    assert (closed (st.1 ++ [last_item])) as Hclosed by by apply closed_snoc.
    assert (forall it, it ∈ st.1 ++ [last_item] -> item_digest it = top /\ is_manifest it = true \/ in_role top it) as Hrole.
    { intros it [Hit| ->%list_elem_of_singleton]%elem_of_app; [right; apply Hl; by rewrite <- El|by left]. }
    split_and!; [|exact Hclosed|exact Hrole| |apply last_snoc].
    + apply nodup_snoc; [done|]. apply Ha. left.
    + assert (forall m, manifest_sent m -> exists it, it ∈ st.1 ++ [last_item] /\ item_digest it = m /\ is_manifest it = true) as Hsent.
      { intros m Hm. induction Hm as [|m c Hm (it & Hit & Ei & Hman) Hc' Hnb]; [exists last_item; split; [set_solver|done]|].
        apply list_elem_of_split in Hit as (pre & post & Epp). subst m.
        assert (c ∈ refs (item_digest it)) as Hcr by (unfold refs; rewrite elem_of_app; by right).
        pose proof (Hclosed pre it post Epp Hman c Hcr) as (it' & -> & Hit')%list_elem_of_fmap.
        assert (it' ∈ st.1 ++ [last_item]) as Hin by (rewrite Epp, elem_of_app; by left). exists it'. split_and!; [done..|].
        destruct (Hrole it' Hin) as [[_ ?]|(m' & Hm' & Hd)]; [done|]. destruct (is_manifest it'); [done|]. by destruct (Hnb m' Hm'). }
      intros m d (it & Hit & <- & Hman)%Hsent Hd. apply list_elem_of_split in Hit as (pre & post & Epp).
      rewrite Epp, fmap_app, elem_of_app. left. by apply (Hclosed pre it post Epp Hman).
Qed.
End Acyclic.
End Plan.

(** * The transfer *)

Lemma closed_prefix repo db l l' : closed repo db (l ++ l') -> closed repo db l.
Proof. intros Hc pre item post -> Hm d Hd. eapply Hc; [|done|done]. by rewrite <- app_assoc. Qed.

(** The accepted objects are the first of the plan, all of them when the
    transfer succeeds. *)
Lemma sent_in_order x items total accepted o sent : send_oci_items x total accepted items = (o, sent) ->
  exists done_ rest, items = done_ ++ rest /\ sent = accepted ++ done_ /\ (forall n, o = Succeeded n -> rest = []).
Proof.
  revert total accepted. induction items as [|i items IH]; intros total accepted; cbn.
  { intros [= <- <-]. exists [], []. by rewrite !app_nil_r. }
  assert (forall msg, (FailedWith msg, accepted) = (o, sent) -> exists done_ rest, i :: items = done_ ++ rest /\ sent = accepted ++ done_ /\
    (forall n, o = Succeeded n -> rest = [])) as Hstop.
  { intros msg [= <- <-]. exists [], (i :: items). by rewrite app_nil_r. }
  destruct (item_bytes x i); [|apply Hstop]. unfold put_outcome. destruct (item_reply x i) as [e|status body]; [apply Hstop|].
  destruct (is_success status); [|apply Hstop].
  intros (done_ & rest & -> & -> & Hs)%IH. exists (i :: done_), rest. by rewrite <- app_assoc.
Qed.

Lemma nodup_last {A} (l done_ rest : list A) x : l = done_ ++ rest -> NoDup l -> last l = Some x -> x ∈ done_ -> rest = [].
Proof.
  intros -> Hn Hl Hin. destruct rest as [|y rest _] using rev_ind; [done|].
  rewrite app_assoc, last_snoc in Hl. injection Hl as ->. apply NoDup_app in Hn as (_ & Hn & _).
  destruct (Hn x Hin). rewrite elem_of_app. right. left.
Qed.

(** C24. A replicated image is never pullable before it is whole.  An image task
    sends every object of the image once, and however the transfer ends - a
    failed read, of the tables or of an object, a refusal, a lost connection -
    each manifest the peer has accepted came after everything it refers to; the
    tagged manifest is accepted last, so a peer that has it, and a transfer that
    succeeds, have every blob and every manifest below it.  The image is a graph
    of at most eight levels of indexes whose references are on record.  An object
    is sent in a role some manifest of the image gives it, and once: a digest
    that is a layer of one and a child of another may be sent as a layer, and
    then what it would refer to as a manifest is not sent. *)
Theorem images_arrive_whole (order rank : string -> nat) x a :
  let repo := art_repository a in let db := image_db x in let top := item_digest (top_item a) in
  (forall m d, d ∈ refs repo db m -> order d < order m)%nat ->
  (forall m c, c ∈ child_refs repo db m -> rank c < rank m)%nat -> (rank top <= MAX_DEPTH)%nat ->
  forall o accepted, execute_oci_transfer x a = (o, accepted) ->
  NoDup (item_digest <$> accepted) /\ closed repo db accepted /\
  (forall i, i ∈ accepted -> item_digest i = top /\ is_manifest i = true \/ in_role repo db top i) /\
  ((exists n, o = Succeeded n) \/ top ∈ item_digest <$> accepted ->
     (forall m d, manifest_sent repo db top m -> d ∈ refs repo db m -> d ∈ item_digest <$> accepted) /\
     ((forall m m' b, manifest_of repo db top m -> manifest_of repo db top m' -> b ∈ blob_refs repo db m -> b ∉ child_refs repo db m') ->
      forall d, d ∈ item_digest <$> accepted <-> d = top \/ exists m, manifest_of repo db top m /\ d ∈ refs repo db m)).
Proof.
  intros repo db top Horder Hrank Hdepth o accepted. unfold execute_oci_transfer. fold repo db.
  match goal with |- _ -> ?C => assert (forall msg, (FailedWith msg, []) = (o, accepted) -> C) as Hnone end.
  { intros msg [= <- <-]. split_and!; [constructor|apply closed_nil|intros i Hi; by apply not_elem_of_nil in Hi|].
    intros [[n [=]]|Hin]. by apply not_elem_of_nil in Hin. }
  destruct (parse_oci_manifest_path _); [|apply Hnone]. destruct (image_storage x); [apply Hnone|].
  destruct (build_oci_transfer_plan _ _ _ _ _ _) as [plan|e] eqn:Ep; [|apply Hnone].
  destruct (plan_complete repo db (blob_fault x) (child_fault x) (type_fault x) order rank top Horder Hrank (top_item a) plan eq_refl Hdepth Ep)
    as (Hn & Hc & Hrole & Hall & Hlast).
  intros (sent & rest & -> & -> & Hs)%sent_in_order. cbn in *. split_and!.
  - rewrite fmap_app in Hn. by apply NoDup_app in Hn as [Hn _].
  - by eapply closed_prefix.
  - intros i Hi. apply Hrole. rewrite elem_of_app. by left.
  - intros Hend. assert (rest = []) as ->; [|rewrite app_nil_r in *].
    { destruct Hend as [[n Ho]|Hin]; [by eapply Hs|]. rewrite fmap_app in Hn.
      assert (item_digest <$> rest = []) as Hr.
      { eapply (nodup_last _ _ _ top eq_refl Hn); [|exact Hin]. rewrite <- fmap_app, fmap_last, Hlast. done. }
      by destruct rest. }
    split; [exact Hall|]. intros Hapart d. split.
    + intros (i & -> & Hi)%list_elem_of_fmap. destruct (Hrole i Hi) as [[? _]|(m & Hm & Hd)]; [by left|right]. exists m. split; [done|].
      unfold refs. rewrite elem_of_app. destruct (is_manifest i); auto.
    + intros [->|(m & Hm & Hd)]; [|by eapply Hall; [apply all_sent|]]. apply list_elem_of_fmap.
      eexists. split; [|by eapply last_Some_elem_of]. done.
Qed.

(** * Witnesses *)

(** An index of two images that share a layer. *)
Definition sample_images : GcDb :=
  let child p c := {| child_repo := 3%N; parent_digest := p; child_digest := c |} in
  let blob m b := {| ref_repo := 3%N; ref_manifest := m; ref_blob := b; ref_kind := "layer" |} in
  set_blob_refs (fun _ => [blob "sha256:m1" "sha256:l2"; blob "sha256:m1" "sha256:l1"; blob "sha256:m2" "sha256:l1"])
    (set_children (fun _ => [child "sha256:top" "sha256:m2"; child "sha256:top" "sha256:m1"]) no_images).

Definition sample_image : SyncArtifact :=
  {| art_repository := 3%N; art_name := "app:1"; art_version := Some "1"; art_path := "v2/app/manifests/1"; art_size := 10;
     art_checksum := "top"; art_storage_key := "oci-manifests/sha256:top"; art_content_type := "application/vnd.oci.image.index.v1+json";
     art_deleted := false; art_has_metadata := false |}.

(** The peer refuses the second image. *)
Definition image_exchange (refuses : string) : Exchange :=
  {| status_display := status_display sample_exchange; count_in := None; image_storage := None; image_db := sample_images;
     blob_fault := fun _ => None; child_fault := fun _ => None; type_fault := fun _ => None; item_bytes := fun _ => Ok 5%Z;
     item_reply := fun i => if item_digest i =? refuses then Response 507 (Some "full") else Response 201 None;
     stored_bytes := Ok 0%Z; put_reply := Response 200 None; delete_reply := Response 204 None; init_reply := Response 200 None;
     init_session := Ok None; chunk_read := fun _ => None; chunk_reply := fun _ => Response 200 None; complete_reply := Response 200 None |}.

Lemma sample_children m c : c ∈ child_refs 3%N sample_images m -> m = "sha256:top" /\ (c = "sha256:m1" \/ c = "sha256:m2").
Proof.
  intros (r & Hr & Hc)%list_elem_of_omap. cbn in Hr. rewrite !elem_of_cons in Hr.
  destruct Hr as [->|[->|Hr%not_elem_of_nil]]; [| |done]; cbn in Hc; (destruct (decide _) as [[_ <-]|]; [injection Hc as <-; auto|done]).
Qed.

Lemma sample_layers m b : b ∈ blob_refs 3%N sample_images m -> (m = "sha256:m1" \/ m = "sha256:m2") /\ (b = "sha256:l1" \/ b = "sha256:l2").
Proof.
  intros (r & Hr & Hb)%list_elem_of_omap. cbn in Hr. rewrite !elem_of_cons in Hr.
  destruct Hr as [->|[->|[->|Hr%not_elem_of_nil]]]; [| | |done]; cbn in Hb; (destruct (decide _) as [[_ <-]|]; [injection Hb as <-; auto|done]).
Qed.

Definition sample_order (d : string) : nat := if d =? "sha256:top" then 2 else if one_of d ["sha256:m1"; "sha256:m2"] then 1 else 0.

Lemma images_arrive_whole_witness :
  (exists o accepted, execute_oci_transfer (image_exchange "sha256:m2") sample_image = (o, accepted) /\
     closed 3%N sample_images accepted /\ item_digest <$> accepted = ["sha256:l1"; "sha256:l2"; "sha256:m1"]) /\
  (exists o accepted, execute_oci_transfer (image_exchange "") sample_image = (o, accepted) /\
     "sha256:l2" ∈ item_digest <$> accepted /\ (exists n, o = Succeeded n)).
Proof.
  assert (forall x o accepted, image_db x = sample_images -> execute_oci_transfer x sample_image = (o, accepted) ->
    closed 3%N sample_images accepted /\ ((exists n, o = Succeeded n) -> "sha256:l2" ∈ item_digest <$> accepted)) as Hall.
  { intros x o accepted Hx E.
    destruct (images_arrive_whole sample_order (fun d => if d =? "sha256:top" then 1%nat else 0%nat) x sample_image) with (o := o) (accepted := accepted)
      as (_ & Hc & _ & Hend); [rewrite Hx..|vm_compute; lia|exact E|].
    - intros m d [Hd|Hd]%elem_of_app.
      + apply sample_layers in Hd as [[-> | ->] [-> | ->]]; vm_compute; lia.
      + apply sample_children in Hd as [-> [-> | ->]]; vm_compute; lia.
    - intros m c [-> [-> | ->]]%sample_children; vm_compute; lia.
    - rewrite Hx in Hc, Hend. split; [exact Hc|]. intros Ho.
      destruct (Hend (or_introl Ho)) as [H _]. apply (H "sha256:m1"); [|vm_compute; left].
      eapply sent_child; [constructor|vm_compute; right; left|]. intros m' _ [_ [? | ?]]%sample_layers; done. }
  split.
  - destruct (execute_oci_transfer (image_exchange "sha256:m2") sample_image) as [o accepted] eqn:E. exists o, accepted.
    split; [done|]. split; [by apply (Hall (image_exchange "sha256:m2") o accepted eq_refl E)|]. vm_compute in E. by injection E as <- <-.
  - destruct (execute_oci_transfer (image_exchange "") sample_image) as [o accepted] eqn:E. exists o, accepted.
    assert (exists n, o = Succeeded n) as Ho by (vm_compute in E; injection E as <- <-; by eexists).
    split; [done|]. split; [by apply (Hall (image_exchange "") o accepted eq_refl E)|done].
Defined.

(** An index that lists a layer of one of its images as a manifest: the layer
    is sent as a layer only, and the peer takes the index. *)
Example listed_layer_is_no_manifest :
  let db := set_children (fun rows => rows ++ [{| child_repo := 3%N; parent_digest := "sha256:top"; child_digest := "sha256:z" |}])
              (set_blob_refs (fun rows => {| ref_repo := 3%N; ref_manifest := "sha256:m1"; ref_blob := "sha256:z"; ref_kind := "layer" |} :: rows) sample_images) in
  match build_oci_transfer_plan 3%N db (fun _ => None) (fun _ => None) (fun _ => None) (top_item sample_image) with
  | Ok plan => (fun i => (is_manifest i, item_digest i)) <$> plan =
      [(false, "sha256:l1"); (false, "sha256:l2"); (false, "sha256:z"); (true, "sha256:m1"); (true, "sha256:m2"); (true, "sha256:top")]
  | Err _ => False
  end.
Proof. vm_compute. done. Qed.

(** An image whose blob references were never recorded - one pushed before the
    table, and not yet backfilled - is sent as its manifest alone, which the peer
    accepts: the task succeeds and the peer serves an image without blobs. *)
Example unrecorded_image_arrives_empty :
  let bare := {| status_display := status_display sample_exchange; count_in := None; image_storage := None; image_db := no_images;
     blob_fault := fun _ => None; child_fault := fun _ => None; type_fault := fun _ => None; item_bytes := fun _ => Ok 5%Z;
     item_reply := fun _ => Response 201 None; stored_bytes := Ok 0%Z; put_reply := Response 200 None; delete_reply := Response 204 None;
     init_reply := Response 200 None; init_session := Ok None; chunk_read := fun _ => None; chunk_reply := fun _ => Response 200 None;
     complete_reply := Response 200 None |} in
  let '(o, accepted) := execute_oci_transfer bare sample_image in
  o = Succeeded 5 /\ item_digest <$> accepted = ["sha256:top"].
Proof. vm_compute. done. Qed.

(** Below the eighth level of indexes a manifest is sent without its blobs. *)
Example deep_manifest_lacks_blobs :
  let child p c := {| child_repo := 3%N; parent_digest := p; child_digest := c |} in
  let names := ["0"; "1"; "2"; "3"; "4"; "5"; "6"; "7"; "8"; "9"] in
  let db := set_blob_refs (fun _ => [{| ref_repo := 3%N; ref_manifest := "9"; ref_blob := "layer"; ref_kind := "layer" |}])
              (set_children (fun _ => zip_with child names (tail names)) no_images) in
  let top := {| is_manifest := true; item_digest := "0"; item_key := "k"; item_type := "t" |} in
  match build_oci_transfer_plan 3%N db (fun _ => None) (fun _ => None) (fun _ => None) top with
  | Ok plan => item_digest <$> plan = ["9"; "8"; "7"; "6"; "5"; "4"; "3"; "2"; "1"; "0"]
  | Err _ => False
  end.
Proof. vm_compute. done. Qed.
