(* ===== verification/Transfers.v ===== *)
(** Swarm transfers ([services/transfer_service.rs],
    [api/handlers/transfer.rs], the availability routes of
    [api/handlers/peer.rs], the tables of migrations 029 and 036): a peer opens a
    session on an artifact, reports its chunks one by one and closes the session.

    No operation is a transaction: each statement commits on its own, so an
    operation that fails half way leaves what its first statements wrote. *)

From stdpp Require Import base list strings gmap pretty sorting.
From Stdlib Require Import ZArith Lia.
From S2P Require Import Prelude RustStr RustNum Errors Chrono Auth F64 SyncQueue.

Local Open Scope string_scope.
Local Open Scope result_scope.
Local Open Scope Z_scope.

(** * Rows *)

Inductive SyncStatus := Pending | InProgress | Completed | Failed | Cancelled.

#[global] Instance SyncStatus_eq_dec : EqDecision SyncStatus.
Proof. solve_decision. Defined.

(** Its column text, and the text of a session's response, which is
    [format!("{:?}")] in lower case. *)
Definition status_label (s : SyncStatus) : string :=
  match s with
  | Pending => "pending" | InProgress => "in_progress" | Completed => "completed" | Failed => "failed" | Cancelled => "cancelled"
  end.
Definition status_debug (s : SyncStatus) : string :=
  match s with
  | Pending => "Pending" | InProgress => "InProgress" | Completed => "Completed" | Failed => "Failed" | Cancelled => "Cancelled"
  end.

(** A session, under its [id]; [created_at] is left to the table. *)
Record TransferSession := {
  artifact_id : Uuid;
  requesting_peer_id : Uuid;
  total_size : Z;
  chunk_size : Z;
  total_chunks : Z;
  completed_chunks : Z;
  checksum_algo : string;
  artifact_checksum : string;
  status : SyncStatus;
  error_message : option string;
  created_at : DateTime;
  started_at : option DateTime;
  completed_at : option DateTime
}.

(** A chunk, under its session and index. *)
Record TransferChunk := {
  byte_offset : Z;
  byte_length : Z;
  checksum : string;
  chunk_status : SyncStatus;
  source_peer_id : option Uuid;
  attempts : Z;
  last_error : option string;
  downloaded_at : option DateTime
}.

(** What a peer holds of an artifact, under the peer and the artifact. *)
Record ChunkAvailability := { chunk_bitmap : list Z; of_chunks : Z; available_chunks : Z; updated_at : DateTime }.

(** The columns of [artifacts] the service reads. *)
Record TransferArtifact := { size_bytes : Z; checksum_sha256 : string }.

Record TransferDb := {
  artifacts : gmap Uuid TransferArtifact;
  peers : gmap Uuid InstanceStatus;
  sessions : gmap Uuid TransferSession;
  chunks : gmap (Uuid * Z) TransferChunk;
  availability : gmap (Uuid * Uuid) ChunkAvailability
}.

Definition set_sessions (f : gmap Uuid TransferSession -> gmap Uuid TransferSession) (db : TransferDb) : TransferDb :=
  {| artifacts := artifacts db; peers := peers db; sessions := f (sessions db); chunks := chunks db;
     availability := availability db |}.
Definition set_chunks (f : gmap (Uuid * Z) TransferChunk -> gmap (Uuid * Z) TransferChunk) (db : TransferDb) : TransferDb :=
  {| artifacts := artifacts db; peers := peers db; sessions := sessions db; chunks := f (chunks db);
     availability := availability db |}.
Definition set_availability (f : gmap (Uuid * Uuid) ChunkAvailability -> gmap (Uuid * Uuid) ChunkAvailability)
  (db : TransferDb) : TransferDb :=
  {| artifacts := artifacts db; peers := peers db; sessions := sessions db; chunks := chunks db;
     availability := f (availability db) |}.

(** The progress columns of a session and of a chunk. *)
Definition set_progress (st : SyncStatus) (done : Z) (error : option string) (started completed : option DateTime)
  (s : TransferSession) : TransferSession :=
  {| artifact_id := artifact_id s; requesting_peer_id := requesting_peer_id s; total_size := total_size s;
     chunk_size := chunk_size s; total_chunks := total_chunks s; completed_chunks := done; checksum_algo := checksum_algo s;
     artifact_checksum := artifact_checksum s; status := st; error_message := error; created_at := created_at s;
     started_at := started; completed_at := completed |}.

Definition set_chunk (st : SyncStatus) (sum : string) (source : option Uuid) (tries : Z) (error : option string)
  (at_ : option DateTime) (c : TransferChunk) : TransferChunk :=
  {| byte_offset := byte_offset c; byte_length := byte_length c; checksum := sum; chunk_status := st;
     source_peer_id := source; attempts := tries; last_error := error; downloaded_at := at_ |}.

(** * Opening a session *)

Record InitTransferRequest := { req_artifact : Uuid; req_peer : Uuid; req_chunk_size : option Z }.

(** The statements of the service; a fault names the text of the error. *)
Inductive Statement :=
| SelectArtifact | UpsertSession | InsertChunk (i : Z) | UpdateChunk | CountChunks | UpdateSession | UpsertAvailability.

Definition Faults := Statement -> option string.

(** The row under the unique key [(artifact_id, requesting_peer_id)]. *)
Definition is_session_of (artifact peer : Uuid) (kv : Uuid * TransferSession) : bool :=
  bool_decide (artifact_id kv.2 = artifact) && bool_decide (requesting_peer_id kv.2 = peer).

Definition session_of (artifact peer : Uuid) (m : gmap Uuid TransferSession) : option (Uuid * TransferSession) :=
  List.find (is_session_of artifact peer) (map_to_list m).

Definition new_session (now : DateTime) (req : InitTransferRequest) (total cs n : Z) (sum : string) : TransferSession :=
  {| artifact_id := req_artifact req; requesting_peer_id := req_peer req; total_size := total; chunk_size := cs;
     total_chunks := n; completed_chunks := 0; checksum_algo := "sha256"; artifact_checksum := sum; status := Pending;
     error_message := None; created_at := now; started_at := None; completed_at := None |}.

(** [ON CONFLICT ... DO UPDATE] keeps the sizes and the checksum of the row. *)
Definition reset_session (s : TransferSession) : TransferSession := set_progress Pending 0 None None None s.

Definition upsert_session (now : DateTime) (fresh : Uuid) (req : InitTransferRequest) (total cs n : Z) (sum : string)
  (db : TransferDb) : result AppError (Uuid * TransferSession) * TransferDb :=
  match session_of (req_artifact req) (req_peer req) (sessions db) with
  | Some (id, s) => (Ok (id, reset_session s), set_sessions <[id := reset_session s]> db)
  | None =>
      match artifacts db !! req_artifact req, peers db !! req_peer req with
      | Some _, Some _ =>
          let s := new_session now req total cs n sum in (Ok (fresh, s), set_sessions <[fresh := s]> db)
      | _, _ => (Err (Database "violates foreign key constraint"), db)
      end
  end.

(** The row of chunk [i]. *)
Definition new_chunk (total cs n i : Z) : TransferChunk :=
  let byte_offset := i * cs in
  {| byte_offset := byte_offset;
     byte_length := if i =? n - 1 then as_i32 (total - byte_offset) else cs;
     checksum := ""; chunk_status := Pending; source_peer_id := None; attempts := 0; last_error := None; downloaded_at := None |}.

(** [ON CONFLICT DO NOTHING]. *)
Definition insert_chunk (session : Uuid) (total cs n i : Z) (m : gmap (Uuid * Z) TransferChunk) : gmap (Uuid * Z) TransferChunk :=
  match m !! (session, i) with Some _ => m | None => <[(session, i) := new_chunk total cs n i]> m end.

Fixpoint insert_chunks (faults : Faults) (session : Uuid) (total cs n : Z) (l : list Z) (db : TransferDb)
  : result AppError unit * TransferDb :=
  match l with
  | [] => (Ok tt, db)
  | i :: l =>
      match faults (InsertChunk i) with
      | Some e => (Err (Database e), db)
      | None => insert_chunks faults session total cs n l (set_chunks (insert_chunk session total cs n i) db)
      end
  end.

Definition DEFAULT_CHUNK_SIZE : Z := 1048576.

Definition init_transfer (faults : Faults) (now : DateTime) (fresh : Uuid) (req : InitTransferRequest) (db : TransferDb)
  : result AppError (Uuid * TransferSession) * TransferDb :=
  let cs := default DEFAULT_CHUNK_SIZE (req_chunk_size req) in
  match faults SelectArtifact, artifacts db !! req_artifact req with
  | Some e, _ => (Err (Database e), db)
  | None, None => (Err (NotFound "Artifact not found"), db)
  | None, Some artifact =>
      let total := size_bytes artifact in
      let n := ceil_div_f64 total cs in
      match faults UpsertSession with
      | Some e => (Err (Database e), db)
      | None =>
          match upsert_session now fresh req total cs n (checksum_sha256 artifact) db with
          | (Err e, db) => (Err e, db)
          | (Ok (id, s), db) =>
              let '(r, db) := insert_chunks faults id total cs n (seqZ 0 n) db in
              (let? _ := r in Ok (id, s), db)
          end
      end
  end.

(** * Chunks *)

Definition rows_of (session : Uuid) (m : gmap (Uuid * Z) TransferChunk) : list (Z * TransferChunk) :=
  omap (fun kc => if decide (kc.1.1 = session) then Some (kc.1.2, kc.2) else None) (map_to_list m).

Definition is_complete (c : TransferChunk) : bool := bool_decide (chunk_status c = Completed).

Definition count_chunks (p : TransferChunk -> bool) (session : Uuid) (m : gmap (Uuid * Z) TransferChunk) : Z :=
  Z.of_nat (size (filter (fun kc => kc.1.1 = session /\ p kc.2 = true) m)).

Definition complete_row (now : DateTime) (sum : string) (source : option Uuid) (c : TransferChunk) : TransferChunk :=
  set_chunk Completed sum source (attempts c + 1) (last_error c) (Some now) c.

Definition recount (now : DateTime) (session : Uuid) (db : TransferDb) (s : TransferSession) : TransferSession :=
  set_progress (status s) (count_chunks is_complete session (chunks db)) (error_message s)
    (Some (default now (started_at s))) (completed_at s) s.

Definition known_peer (source : option Uuid) (db : TransferDb) : bool :=
  match source with Some p => bool_decide (is_Some (peers db !! p)) | None => true end.

Definition complete_chunk (faults : Faults) (now : DateTime) (session : Uuid) (i : Z) (sum : string) (source : option Uuid)
  (db : TransferDb) : result AppError unit * TransferDb :=
  match faults UpdateChunk, chunks db !! (session, i) with
  | Some e, _ => (Err (Database e), db)
  | None, None => (Ok tt, db)
  | None, Some c =>
      if is_complete c then (Ok tt, db)
      else if negb (known_peer source db) then (Err (Database "violates foreign key constraint"), db)
      else
        let db := set_chunks <[(session, i) := complete_row now sum source c]> db in
        match faults UpdateSession with
        | Some e => (Err (Database e), db)
        | None => (Ok tt, set_sessions (alter (recount now session db) session) db)
        end
  end.

Definition fail_row (error : string) (c : TransferChunk) : TransferChunk :=
  set_chunk Failed (checksum c) (source_peer_id c) (attempts c + 1) (Some error) (downloaded_at c) c.

Definition fail_chunk (faults : Faults) (session : Uuid) (i : Z) (error : string) (db : TransferDb)
  : result AppError unit * TransferDb :=
  match faults UpdateChunk with
  | Some e => (Err (Database e), db)
  | None => (Ok tt, set_chunks (alter (fail_row error) (session, i)) db)
  end.

Definition retry_row (c : TransferChunk) : TransferChunk :=
  if decide (chunk_status c = Failed)
  then set_chunk Pending (checksum c) None (attempts c) (last_error c) (downloaded_at c) c else c.

Definition retry_chunk (faults : Faults) (session : Uuid) (i : Z) (db : TransferDb) : result AppError unit * TransferDb :=
  match faults UpdateChunk with
  | Some e => (Err (Database e), db)
  | None => (Ok tt, set_chunks (alter retry_row (session, i)) db)
  end.

(** * Closing a session *)

Definition complete_session (faults : Faults) (now : DateTime) (session : Uuid) (db : TransferDb)
  : result AppError unit * TransferDb :=
  match faults CountChunks with
  | Some e => (Err (Database e), db)
  | None =>
      let pending := count_chunks (fun c => negb (is_complete c)) session (chunks db) in
      if 0 <? pending then (Err (Validation (pretty pending +:+ " chunks still pending/failed")), db)
      else
        match faults UpdateSession with
        | Some e => (Err (Database e), db)
        | None =>
            (Ok tt, set_sessions (alter (fun s =>
               set_progress Completed (completed_chunks s) (error_message s) (started_at s) (Some now) s) session) db)
        end
  end.

Definition fail_session (faults : Faults) (now : DateTime) (session : Uuid) (error : string) (db : TransferDb)
  : result AppError unit * TransferDb :=
  match faults UpdateSession with
  | Some e => (Err (Database e), db)
  | None =>
      (Ok tt, set_sessions (alter (fun s =>
         set_progress Failed (completed_chunks s) (Some error) (started_at s) (Some now) s) session) db)
  end.

(** * Availability *)

(** [u8::count_ones]. *)
Definition count_ones (b : Z) : Z := Z.of_nat (length (List.filter (Z.testbit b) (seqZ 0 8))).

Definition update_chunk_availability (faults : Faults) (now : DateTime) (peer artifact : Uuid) (bitmap : list Z) (total : Z)
  (db : TransferDb) : result AppError unit * TransferDb :=
  let available := as_i32 (sumZ (count_ones <$> bitmap)) in
  let row t := {| chunk_bitmap := bitmap; of_chunks := t; available_chunks := available; updated_at := now |} in
  match faults UpsertAvailability, availability db !! (peer, artifact), artifacts db !! artifact, peers db !! peer with
  | Some e, _, _, _ => (Err (Database e), db)
  | None, Some old, _, _ => (Ok tt, set_availability <[(peer, artifact) := row (of_chunks old)]> db)
  | None, None, Some _, Some _ => (Ok tt, set_availability <[(peer, artifact) := row total]> db)
  | None, None, _, _ => (Err (Database "violates foreign key constraint"), db)
  end.

(** The peers that hold chunks, the fullest first (ties in the table's order). *)
Definition offers (artifact requesting : Uuid) (db : TransferDb) (kv : (Uuid * Uuid) * ChunkAvailability) : bool :=
  bool_decide (kv.1.2 = artifact) && negb (bool_decide (kv.1.1 = requesting)) && (0 <? available_chunks kv.2) &&
  match peers db !! kv.1.1 with Some Online | Some Syncing => true | _ => false end.

Definition fuller (a b : Uuid * ChunkAvailability) : Prop := available_chunks b.2 <= available_chunks a.2.
#[global] Instance fuller_dec a b : Decision (fuller a b) := Z_le_dec _ _.

Definition get_peers_with_chunks (artifact requesting : Uuid) (db : TransferDb) : list (Uuid * ChunkAvailability) :=
  merge_sort fuller ((fun kv => (kv.1.1, kv.2)) <$> List.filter (offers artifact requesting db) (map_to_list (availability db))).

(** * Reads *)

Definition get_session (session : Uuid) (db : TransferDb) : result AppError TransferSession :=
  match sessions db !! session with Some s => Ok s | None => Err (NotFound "Transfer session not found") end.

Definition by_index (a b : Z * TransferChunk) : Prop := a.1 <= b.1.
#[global] Instance by_index_dec a b : Decision (by_index a b) := Z_le_dec _ _.

Definition get_chunk_manifest (session : Uuid) (db : TransferDb) : list (Z * TransferChunk) :=
  merge_sort by_index (rows_of session (chunks db)).

Definition resumable (peer : Uuid) (kv : Uuid * TransferSession) : bool :=
  bool_decide (requesting_peer_id kv.2 = peer) && bool_decide (status kv.2 ∈ [Pending; InProgress]).

Definition oldest_first (a b : Uuid * TransferSession) : Prop := created_at a.2 <= created_at b.2.
#[global] Instance oldest_first_dec a b : Decision (oldest_first a b) := Z_le_dec _ _.

Definition get_pending_sessions (peer : Uuid) (db : TransferDb) : list (Uuid * TransferSession) :=
  merge_sort oldest_first (List.filter (resumable peer) (map_to_list (sessions db))).

(** * Routes

    The handlers that write ask for an administrator first; the peer of the path
    is only used to open a session. *)

Inductive Route :=
| InitRoute (artifact : Uuid) (chunk : option Z)
| CompleteChunkRoute (session : Uuid) (i : Z) (sum : string) (source : option Uuid)
| FailChunkRoute (session : Uuid) (i : Z) (error : string)
| RetryChunkRoute (session : Uuid) (i : Z)
| CompleteSessionRoute (session : Uuid)
| FailSessionRoute (session : Uuid) (error : string)
| AvailabilityRoute (artifact : Uuid) (bitmap : list Z) (total : Z).

Definition served (faults : Faults) (now : DateTime) (fresh peer : Uuid) (r : Route) (db : TransferDb)
  : result AppError unit * TransferDb :=
  match r with
  | InitRoute a cs =>
      let '(r, db) := init_transfer faults now fresh {| req_artifact := a; req_peer := peer; req_chunk_size := cs |} db in
      (let? _ := r in Ok tt, db)
  | CompleteChunkRoute s i sum source => complete_chunk faults now s i sum source db
  | FailChunkRoute s i e => fail_chunk faults s i e db
  | RetryChunkRoute s i => retry_chunk faults s i db
  | CompleteSessionRoute s => complete_session faults now s db
  | FailSessionRoute s e => fail_session faults now s e db
  | AvailabilityRoute a bitmap total => update_chunk_availability faults now peer a bitmap total db
  end.

Definition transfer_route (faults : Faults) (auth : AuthExtension) (now : DateTime) (fresh peer : Uuid) (r : Route)
  (db : TransferDb) : result AppError unit * TransferDb :=
  match require_admin auth with
  | Err e => (Err e, db)
  | Ok _ => served faults now fresh peer r db
  end.

(** The [status] of a session's response. *)
Definition response_status (s : TransferSession) : string := to_ascii_lowercase (status_debug (status s)).
