(* ===== verification/TransferFacts.v ===== *)
(** What the transfer sessions promise ([Transfers]): a session that was opened
    completely is laid out over the whole artifact and closes as complete
    exactly when each chunk is; and what the repeated or interrupted opening of
    a session, and a late failure report, do to that. *)

From stdpp Require Import base list strings gmap pretty sorting relations.
From Stdlib Require Import ZArith Lia.
From S2P Require Import Prelude RustStr RustNum Errors Chrono Auth F64 SyncQueue Transfers.

Local Open Scope string_scope.
Local Open Scope result_scope.
Local Open Scope Z_scope.

(** * Statements *)

Lemma insert_chunk_lookup session total cs n i m k : insert_chunk session total cs n i m !! k =
  match m !! k with Some c => Some c | None => if decide (k = (session, i)) then Some (new_chunk total cs n i) else None end.
Proof.
  unfold insert_chunk. destruct (m !! (session, i)) as [c|] eqn:E.
  - destruct (m !! k) eqn:Ek; [done|]. destruct (decide _) as [->|]; [congruence|done].
  - destruct (decide (k = (session, i))) as [->|Hne]; [by rewrite lookup_insert_eq, E|].
    rewrite lookup_insert_ne by done. by destruct (m !! k).
Qed.

(** The loop keeps the rows there are and adds the missing ones, all of them
    when no statement fails. *)
Lemma insert_chunks_spec faults session total cs n l db r db' :
  insert_chunks faults session total cs n l db = (r, db') ->
  (exists m, db' = set_chunks (fun _ => m) db) /\
  (forall k c, chunks db !! k = Some c -> chunks db' !! k = Some c) /\
  (forall k c, chunks db' !! k = Some c -> chunks db !! k = Some c \/
     exists i, i ∈ l /\ k = (session, i) /\ c = new_chunk total cs n i) /\
  (r = Ok tt -> forall i, i ∈ l -> is_Some (chunks db' !! (session, i))).
Proof.
  revert db. induction l as [|i l IH]; intros db; cbn.
  - intros [= <- <-]. split_and!; [exists (chunks db); by destruct db|done|by left|intros _ i Hi; by apply not_elem_of_nil in Hi].
  - destruct (faults _); [intros [= <- <-]; split_and!; [exists (chunks db); by destruct db|done|by left|done]|].
    intros E. destruct (IH _ E) as ((m & Hm) & Hkeep & Hnew & Hall). cbn in *. split_and!.
    + exists m. done.
    + intros k c Hk. apply Hkeep. rewrite insert_chunk_lookup. by rewrite Hk.
    + intros k c [Hk|(j & Hj & -> & ->)]%Hnew; [|right; exists j; split; [by right|done]]. revert Hk.
      rewrite insert_chunk_lookup. destruct (chunks db !! k) eqn:Ek; [by left|]. destruct (decide _) as [->|]; [|done].
      intros [= <-]. right. exists i. split; [left|done].
    + intros Hr j [->|Hj]%elem_of_cons; [|by apply Hall].
      assert (is_Some (insert_chunk session total cs n i (chunks db) !! (session, i))) as [c Hc]; [|by exists c; apply Hkeep].
      rewrite insert_chunk_lookup. destruct (chunks db !! (session, i)); [by eexists|]. rewrite decide_True by done. by eexists.
Qed.

Lemma session_of_Some a p m id s : session_of a p m = Some (id, s) -> m !! id = Some s /\ artifact_id s = a /\ requesting_peer_id s = p.
Proof.
  intros [Hin Hp]%List.find_some. apply list_elem_of_In, elem_of_map_to_list in Hin.
  unfold is_session_of in Hp. cbn in Hp. apply andb_prop in Hp as [?%bool_decide_eq_true ?%bool_decide_eq_true]. done.
Qed.

Lemma session_of_None a p m id s : session_of a p m = None -> m !! id = Some s -> ~ (artifact_id s = a /\ requesting_peer_id s = p).
Proof.
  intros Hn Hs [Ha Hp]. apply elem_of_map_to_list, list_elem_of_In in Hs.
  pose proof (List.find_none _ _ Hn _ Hs) as Hf. unfold is_session_of in Hf. cbn in Hf.
  by rewrite !bool_decide_true in Hf.
Qed.

Lemma count_zero p session m : count_chunks p session m = 0 <-> forall i c, m !! (session, i) = Some c -> p c = false.
Proof.
  unfold count_chunks. rewrite <- Nat2Z.inj_0, Nat2Z.inj_iff, map_size_empty_iff, map_empty_filter. split.
  - intros Hf i c Hc. destruct (p c) eqn:E; [|done]. destruct (Hf _ _ Hc). done.
  - intros Hf [s i] c Hc. cbn. intros [-> Hp]. by rewrite (Hf _ _ Hc) in Hp.
Qed.

(** * A session that was opened completely *)

Section Session.
Variables (artifact peer sid : Uuid) (total cs : Z).
Definition pieces : Z := ceil_div_f64 total cs.

(** Chunk [i] has the place it was opened with. *)
Definition laid_out (i : Z) (c : TransferChunk) : Prop :=
  byte_offset c = byte_offset (new_chunk total cs pieces i) /\ byte_length c = byte_length (new_chunk total cs pieces i).

Lemma pieces_cover : 0 < total < 2 ^ 53 -> 0 < cs <= I32_MAX -> total <= I32_MAX * cs -> 0 < pieces <= I32_MAX /\ (pieces - 1) * cs < total <= pieces * cs.
Proof.
  intros total_ok size_ok count_ok. unfold pieces. rewrite ceil_div_f64_exact by (unfold I32_MAX in *; lia).
  pose proof (Z.div_mod (- total) cs ltac:(lia)). pose proof (Z.mod_pos_bound (- total) cs ltac:(lia)).
  assert (- (- total / cs) <= I32_MAX) by nia. rewrite Z.min_r by done. nia.
Qed.

(** It covers its part of the artifact. *)
Lemma laid_out_covers i c : 0 < total < 2 ^ 53 -> 0 < cs <= I32_MAX -> total <= I32_MAX * cs -> 0 <= i < pieces -> laid_out i c ->
  byte_offset c = i * cs /\ byte_length c = Z.min cs (total - i * cs).
Proof.
  intros Ht Hcs Hb Hi [-> ->]. destruct pieces_cover as [Hn Hc]; [done..|]. unfold new_chunk. cbn. split; [done|].
  destruct (Z.eqb_spec i (pieces - 1)) as [->|Hne].
  - rewrite as_i32_id by (unfold I32_MAX in *; nia). nia.
  - nia.
Qed.

(** The session is on record with the sizes it was opened with, alone for its
    artifact and peer, and its chunk rows are those of the artifact. *)
Record SessionInv (db : TransferDb) : Prop := {
  si_artifact : exists r, artifacts db !! artifact = Some r /\ size_bytes r = total;
  si_session : exists s, sessions db !! sid = Some s /\ artifact_id s = artifact /\ requesting_peer_id s = peer /\
    total_size s = total /\ chunk_size s = cs /\ total_chunks s = pieces;
  si_alone id s : sessions db !! id = Some s -> artifact_id s = artifact -> requesting_peer_id s = peer -> id = sid;
  si_rows i : 0 <= i < pieces -> exists c, chunks db !! (sid, i) = Some c /\ laid_out i c;
  si_no_more i c : chunks db !! (sid, i) = Some c -> 0 <= i < pieces
}.

(** What the operations of the routes may do to the tables while the session's
    artifact keeps its size and its peer asks for the same chunk size.  The
    catalog changes freely around it; nothing is deleted. *)
Inductive transfer_step (db : TransferDb) : TransferDb -> Prop :=
| step_route faults now fresh from r : sessions db !! fresh = None ->
    (forall c, r = InitRoute artifact c -> from = peer -> default DEFAULT_CHUNK_SIZE c = cs) ->
    (forall a c, r = InitRoute a c -> forall i, chunks db !! (fresh, i) = None) ->
    transfer_step db (served faults now fresh from r db).2
| step_catalog arts ps : (exists r, arts !! artifact = Some r /\ size_bytes r = total) ->
    transfer_step db {| artifacts := arts; peers := ps; sessions := sessions db; chunks := chunks db;
                        availability := availability db |}.

(** A change of the progress columns only. *)
Lemma session_progress f db : SessionInv db ->
  (forall s, artifact_id (f s) = artifact_id s /\ requesting_peer_id (f s) = requesting_peer_id s /\
     total_size (f s) = total_size s /\ chunk_size (f s) = chunk_size s /\ total_chunks (f s) = total_chunks s) ->
  forall id, SessionInv (set_sessions (alter f id) db).
Proof.
  intros Hinv Hf id. destruct Hinv as [Ha (s & Hs & H1 & H2 & H3 & H4 & H5) Hal Hr Hn]. split; cbn; [done| | |done|done].
  - destruct (decide (id = sid)) as [->|Hne].
    + exists (f s). rewrite lookup_alter_eq, Hs. destruct (Hf s) as (-> & -> & -> & -> & ->). done.
    + exists s. rewrite lookup_alter_ne by done. done.
  - intros id' s' Hs' Ea Ep. apply lookup_alter_Some in Hs' as [(<- & s0 & Hs0 & ->)|[_ Hs']]; [|by eapply Hal].
    destruct (Hf s0) as (E1 & E2 & _). rewrite E1 in Ea. rewrite E2 in Ep. by eapply Hal.
Qed.

Lemma chunk_progress f k db : SessionInv db ->
  (forall c, byte_offset (f c) = byte_offset c /\ byte_length (f c) = byte_length c) ->
  SessionInv (set_chunks (alter f k) db).
Proof.
  intros [Ha Hs Hal Hr Hn] Hf. split; cbn; [done|done|done| |].
  - intros i Hi. destruct (Hr i Hi) as (c & Hc & Hlo). destruct (decide (k = (sid, i))) as [->|Hne].
    + exists (f c). rewrite lookup_alter_eq, Hc. split; [done|]. unfold laid_out. by destruct (Hf c) as [-> ->].
    + exists c. by rewrite lookup_alter_ne.
  - intros i c Hc. apply lookup_alter_Some in Hc as [(-> & c0 & Hc0 & _)|[_ Hc]]; by eapply Hn.
Qed.

Lemma insert_alter db k c f : chunks db !! k = Some c -> set_chunks <[k := f c]> db = set_chunks (alter f k) db.
Proof.
  intros Hk. unfold set_chunks. f_equal. apply map_eq. intros j. destruct (decide (k = j)) as [->|].
  - by rewrite lookup_insert_eq, lookup_alter_eq, Hk.
  - by rewrite lookup_insert_ne, lookup_alter_ne.
Qed.

Lemma insert_chunks_inv faults id t c n l db r db' : id <> sid \/ (t = total /\ c = cs /\ l = seqZ 0 pieces /\ n = pieces) ->
  insert_chunks faults id t c n l db = (r, db') -> SessionInv db -> SessionInv db'.
Proof.
  intros Hid E [Ha Hs Hal Hr Hn]. destruct (insert_chunks_spec _ _ _ _ _ _ _ _ _ E) as ((m & ->) & Hkeep & Hnew & _). cbn in *.
  split; cbn; [done|done|done| |].
  - intros i Hi. destruct (Hr i Hi) as (row & Hrow & Hlo). eauto.
  - intros i row [Hrow|(j & Hj & [= <- <-] & _)]%Hnew; [by eapply Hn|].
    destruct Hid as [[]|(_ & _ & -> & _)]; [done|]. apply elem_of_seqZ in Hj. lia.
Qed.

Lemma insert_session_inv id s db : id <> sid -> ~ (artifact_id s = artifact /\ requesting_peer_id s = peer) ->
  SessionInv db -> SessionInv (set_sessions <[id := s]> db).
Proof.
  intros Hid Hother [Ha (s0 & Hs0 & H1) Hal Hr Hn]. split; cbn; [done| | |done|done].
  - exists s0. by rewrite lookup_insert_ne.
  - intros id' s' Hs' Ea Ep. apply lookup_insert_Some in Hs' as [[<- <-]|[_ Hs']]; [by destruct Hother|by eapply Hal].
Qed.

Lemma init_inv faults now fresh req db : SessionInv db -> sessions db !! fresh = None ->
  (req_artifact req = artifact -> req_peer req = peer -> default DEFAULT_CHUNK_SIZE (req_chunk_size req) = cs) ->
  SessionInv (init_transfer faults now fresh req db).2.
Proof.
  intros Hinv Hf Hreq. unfold init_transfer. destruct (faults SelectArtifact); [done|].
  destruct (artifacts db !! req_artifact req) as [r|] eqn:Ea; [|done]. destruct (faults UpsertSession); [done|].
  unfold upsert_session. pose proof (si_session db Hinv) as (s0 & Hs0 & E1 & E2 & _).
  destruct (session_of _ _ _) as [[id s]|] eqn:Eo.
  - apply session_of_Some in Eo as (Hs & Has & Hps).
    destruct (insert_chunks _ _ _ _ _ _ _) as [r' db'] eqn:E. cbn. refine (insert_chunks_inv _ _ _ _ _ _ _ _ _ _ E _).
    + destruct (decide (id = sid)) as [->|]; [right|by left]. assert (s = s0) as -> by congruence.
      destruct (si_artifact db Hinv) as (r0 & Hr0 & Ht). assert (r = r0) as -> by congruence.
      rewrite Hreq by congruence. by rewrite Ht.
    + replace (set_sessions _ db) with (set_sessions (alter reset_session id) db); [by apply session_progress|].
      unfold set_sessions. f_equal. apply map_eq. intros k. destruct (decide (id = k)) as [->|].
      * by rewrite lookup_insert_eq, lookup_alter_eq, Hs.
      * by rewrite lookup_insert_ne, lookup_alter_ne.
  - rewrite Ea. destruct (peers db !! _); [|done]. destruct (insert_chunks _ _ _ _ _ _ _) as [r' db'] eqn:E. cbn.
    assert (fresh <> sid) by congruence. refine (insert_chunks_inv _ _ _ _ _ _ _ _ _ _ E _); [by left|]. apply insert_session_inv; [done| |done].
    cbn. intros [Ha Hp]. apply (session_of_None _ _ _ _ _ Eo Hs0). split; congruence.
Qed.

Lemma transfer_step_inv db db' : transfer_step db db' -> SessionInv db -> SessionInv db'.
Proof.
  intros [faults now fresh from r Hf Hreq Hno|arts ps Ha] Hinv; [|by destruct Hinv as [_ Hs Hal Hr Hn]; split].
  destruct r as [a c|s i sum src|s i e|s i|s|s e|a bitmap t]; cbn -[count_chunks].
  - pose proof (init_inv faults now fresh {| req_artifact := a; req_peer := from; req_chunk_size := c |} db Hinv Hf) as Hi.
    destruct (init_transfer _ _ _ _ _) as [r db1] eqn:E. cbn in *. apply Hi. intros -> ->. by apply (Hreq c).
  - unfold complete_chunk. destruct (faults UpdateChunk); [done|]. destruct (chunks db !! (s, i)) as [c|] eqn:Ec; [|done].
    destruct (is_complete c), (known_peer src db); try done. cbn [negb].
    rewrite (insert_alter _ _ _ (complete_row now sum src) Ec).
    assert (SessionInv (set_chunks (alter (complete_row now sum src) (s, i)) db)) by by apply chunk_progress.
    destruct (faults UpdateSession); [done|]. by apply session_progress.
  - unfold fail_chunk. destruct (faults UpdateChunk); [done|]. by apply chunk_progress.
  - unfold retry_chunk. destruct (faults UpdateChunk); [done|]. apply chunk_progress; [done|]. intros c. unfold retry_row.
    by destruct (decide _).
  - unfold complete_session. destruct (faults CountChunks); [done|]. destruct (0 <? _); [done|].
    destruct (faults UpdateSession); [done|]. by apply session_progress.
  - unfold fail_session. destruct (faults UpdateSession); [done|]. by apply session_progress.
  - unfold update_chunk_availability. destruct (faults UpsertAvailability); [done|].
    destruct (availability db !! _), (artifacts db !! a), (peers db !! from); try done; by destruct Hinv.
Qed.

(** The session as it is opened. *)
Lemma opened_inv faults now req db s db' : req_artifact req = artifact -> req_peer req = peer ->
  default DEFAULT_CHUNK_SIZE (req_chunk_size req) = cs ->
  (exists r, artifacts db !! artifact = Some r /\ size_bytes r = total) ->
  session_of artifact peer (sessions db) = None -> (forall i, chunks db !! (sid, i) = None) ->
  init_transfer faults now sid req db = (Ok (sid, s), db') -> SessionInv db'.
Proof.
  intros Ha Hp Hc (r & Hr & Ht) Hnone Hno. unfold init_transfer. rewrite Hc, Ha, Hr, Ht. fold pieces.
  destruct (faults SelectArtifact); [done|]. destruct (faults UpsertSession); [done|].
  unfold upsert_session. rewrite Ha, Hp, Hnone, Hr. destruct (peers db !! peer); [|done].
  destruct (insert_chunks _ _ _ _ _ _ _) as [r' db1] eqn:E. destruct r' as [[]|]; [|done]. cbn. intros [= <- <-].
  destruct (insert_chunks_spec _ _ _ _ _ _ _ _ _ E) as ((m & ->) & _ & Hnew & Hall). cbn in *. split; cbn.
  - by exists r.
  - eexists. rewrite lookup_insert_eq. split; [done|]. cbn. by rewrite Ha, Hp.
  - intros id s' Hs Eas Eps. apply lookup_insert_Some in Hs as [[-> _]|[_ Hs]]; [done|].
    by destruct (session_of_None _ _ _ _ _ Hnone Hs).
  - intros k Hk. destruct (Hall eq_refl k) as [c Hrow]; [apply elem_of_seqZ; lia|]. exists c. split; [done|].
    destruct (Hnew _ _ Hrow) as [Hold|(j & _ & [= <-] & ->)]; [by rewrite Hno in Hold|]. done.
  - intros k c Hrow. destruct (Hnew _ _ Hrow) as [Hold|(j & Hj & [= ->] & _)]; [by rewrite Hno in Hold|].
    apply elem_of_seqZ in Hj. lia.
Qed.

Lemma row_lengths db (l : list Z) : 0 < total < 2 ^ 53 -> 0 < cs <= I32_MAX -> total <= I32_MAX * cs -> (forall i, 0 <= i < pieces -> exists c, chunks db !! (sid, i) = Some c /\ laid_out i c) ->
  (forall i, i ∈ l -> 0 <= i < pieces) ->
  omap (fun i => byte_length <$> chunks db !! (sid, i)) l = (fun i => Z.max 0 (Z.min cs (total - i * cs))) <$> l.
Proof.
  intros Ht Hcs Hb Hrows. destruct pieces_cover as [Hn Hcov]; [done..|]. induction l as [|i l IH]; intros Hi; [done|]. cbn.
  pose proof (Hi i ltac:(left)). destruct (Hrows i) as (c & -> & Hlo); [done|]. apply laid_out_covers in Hlo as [_ Hlen]; [|done..].
  cbn. rewrite IH by (intros; apply Hi; by right). f_equal. rewrite Hlen. nia.
Qed.

(** C32. A transfer session is complete exactly when its chunks are.  Once a
    session has been opened without a fault, with any chunk size, then after any
    sequence of reports - completed, failed and retried chunks, of this session
    and others, repeated openings with the same chunk size, and faults of the
    database - the chunk rows of the session are those it was opened with, and
    the request that closes the session succeeds if and only if every one of
    these rows is completed; a refused one writes nothing.  The rows cut the
    artifact, of less than [2^53] bytes, into pieces whose lengths add up to its
    size when the chunk size is positive and there are at most [I32_MAX] pieces;
    the service checks neither.  With a negative chunk size the session has no
    rows, so that it closes as complete at once. *)
Theorem transfer_completes_exactly faults now req db0 s db1 db faults' now' :
  req_artifact req = artifact -> req_peer req = peer -> default DEFAULT_CHUNK_SIZE (req_chunk_size req) = cs ->
  (exists r, artifacts db0 !! artifact = Some r /\ size_bytes r = total) ->
  session_of artifact peer (sessions db0) = None -> (forall i, chunks db0 !! (sid, i) = None) ->
  init_transfer faults now sid req db0 = (Ok (sid, s), db1) -> rtc transfer_step db1 db ->
  faults' CountChunks = None -> faults' UpdateSession = None ->
  (forall i, is_Some (chunks db !! (sid, i)) <-> 0 <= i < pieces) /\
  (0 < total < 2 ^ 53 -> 0 < cs <= I32_MAX -> total <= I32_MAX * cs ->
     (forall i, 0 <= i < pieces -> byte_offset <$> chunks db !! (sid, i) = Some (i * cs)) /\
     sumZ (omap (fun i => byte_length <$> chunks db !! (sid, i)) (seqZ 0 pieces)) = total) /\
  (0 < total < 2 ^ 53 -> - 2 ^ 31 <= cs < 0 -> forall i, chunks db !! (sid, i) = None) /\
  ((complete_session faults' now' sid db).1 = Ok tt <->
     forall i, 0 <= i < pieces -> exists c, chunks db !! (sid, i) = Some c /\ chunk_status c = Completed) /\
  ((complete_session faults' now' sid db).1 <> Ok tt -> (complete_session faults' now' sid db).2 = db).
Proof.
  intros Ha Hp Hc Hr Hnone Hno E Hrun Hf1 Hf2.
  assert (SessionInv db) as [_ _ _ Hrows Hmore].
  { apply (rtc_preserve transfer_step SessionInv transfer_step_inv _ _ Hrun). by eapply opened_inv. }
  split_and!.
  - intros i. split; [by intros [c Hi]; eapply Hmore|]. intros Hi. destruct (Hrows i Hi) as (c & -> & _). by eexists.
  - intros H1 H2 H3. destruct pieces_cover as [Hn Hcov]; [done..|]. split.
    { intros i Hi. destruct (Hrows i Hi) as (c & -> & Hlo). apply laid_out_covers in Hlo as [Ho _]; [|done..]. cbn. by rewrite Ho. }
    rewrite (row_lengths db _ H1 H2 H3 Hrows) by (intros i Hi%elem_of_seqZ; lia).
    rewrite <- (Z2Nat.id pieces) by lia. rewrite sum_pieces by lia. rewrite Z2Nat.id by lia. lia.
  - intros H1 H2 i. destruct (chunks db !! (sid, i)) as [c|] eqn:Ec; [|done]. apply Hmore in Ec. pose proof (ceil_div_f64_negative total cs H1 ltac:(lia)). unfold pieces in *. lia.
  - unfold complete_session. rewrite Hf1, Hf2. set (k := count_chunks _ _ _). transitivity (k = 0).
    + assert (0 <= k) by (unfold k, count_chunks; lia). destruct (Z.ltb_spec 0 k); cbn; split; intros; try done; lia.
    + unfold k. rewrite count_zero. split.
      * intros Hz i Hi. destruct (Hrows i Hi) as (c & Hrow & _). exists c. split; [done|]. specialize (Hz _ _ Hrow).
        apply negb_false_iff in Hz. by apply bool_decide_eq_true in Hz.
      * intros Hall i c Hrow. destruct (Hall i (Hmore _ _ Hrow)) as (c' & Hrow' & Hst). assert (c' = c) as -> by congruence.
        apply negb_false_iff. by apply bool_decide_eq_true.
  - unfold complete_session. rewrite Hf1, Hf2. by destruct (0 <? _).
Qed.
End Session.

(** * Examples *)

Definition no_faults : Faults := fun _ => None.

Definition swarm_db : TransferDb :=
  {| artifacts := {[ 1%N := {| size_bytes := 10; checksum_sha256 := "old" |} ]}; peers := {[ 2%N := Online ]};
     sessions := ∅; chunks := ∅; availability := ∅ |}.

Definition swarm_request : InitTransferRequest := {| req_artifact := 1%N; req_peer := 2%N; req_chunk_size := Some 4 |}.

Definition swarm_opened : TransferDb := (init_transfer no_faults 0 5%N swarm_request swarm_db).2.

Definition report_all (l : list Z) (db : TransferDb) : TransferDb :=
  foldl (fun db i => (complete_chunk no_faults 7 5%N i "sum" None db).2) db l.

Definition swarm_done : TransferDb := report_all [2; 0; 1] swarm_opened.

Lemma transfer_completes_exactly_witness :
  rtc (transfer_step 1%N 2%N 10 4) swarm_opened swarm_done /\
  (complete_session no_faults 9 5%N swarm_done).1 = Ok tt /\ (complete_session no_faults 9 5%N swarm_opened).1 <> Ok tt.
Proof.
  assert (forall db i, sessions db !! 6%N = None ->
    transfer_step 1%N 2%N 10 4 db (complete_chunk no_faults 7 5%N i "sum" None db).2) as Hstep.
  { intros db i Hf. apply (step_route 1%N 2%N 10 4 db no_faults 7 6%N 2%N (CompleteChunkRoute 5%N i "sum" None)); done. }
  assert (rtc (transfer_step 1%N 2%N 10 4) swarm_opened swarm_done) as Hrun.
  { apply (rtc_l _ _ (report_all [2] swarm_opened)); [apply Hstep; vm_compute; reflexivity|].
    apply (rtc_l _ _ (report_all [2; 0] swarm_opened)); [apply (Hstep (report_all [2] swarm_opened)); vm_compute; reflexivity|].
    apply rtc_once, (Hstep (report_all [2; 0] swarm_opened)). vm_compute. reflexivity. }
  assert (exists s, init_transfer no_faults 0 5%N swarm_request swarm_db = (Ok (5%N, s), swarm_opened)) as [s Hs].
  { vm_compute. eexists. reflexivity. }
  assert (Hno : forall i, chunks swarm_db !! (5%N, i) = None) by (intros i; apply lookup_empty).
  assert (Hart : exists r, artifacts swarm_db !! 1%N = Some r /\ size_bytes r = 10) by (vm_compute; eauto).
  pose proof (transfer_completes_exactly 1%N 2%N 5%N 10 4 no_faults 0 swarm_request swarm_db s swarm_opened) as H.
  specialize (fun db => H db no_faults 9 eq_refl eq_refl eq_refl Hart eq_refl Hno Hs).
  split; [done|]. split.
  - apply (H _ Hrun); [done|done|]. intros i Hi. assert (pieces 10 4 = 3) as Ep by (vm_compute; reflexivity). rewrite Ep in Hi.
    assert (i = 0 \/ i = 1 \/ i = 2) as [->|[->| ->]] by lia; vm_compute; eauto.
  - intros E. destruct (H _ (rtc_refl _ _) eq_refl eq_refl) as (_ & _ & _ & He & _).
    assert (0 <= 0 < pieces 10 4) as Hi by (assert (pieces 10 4 = 3) as -> by (vm_compute; reflexivity); lia).
    destruct (proj1 He E 0 Hi) as (c & Hc & Hst).
    vm_compute in Hc. injection Hc as <-. discriminate Hst.
Defined.

(** An opening whose first chunk statement fails leaves a session without chunk
    rows, which closes as complete; so does a session that does not exist. *)
Example aborted_opening_completes :
  let faults s := match s with InsertChunk 0 => Some "connection reset" | _ => None end in
  let '(r, db) := init_transfer faults 0 5%N swarm_request swarm_db in
  r = Err (Database "connection reset") /\
  (complete_session no_faults 9 5%N db).1 = Ok tt /\
  (fun s => (status s, total_chunks s, completed_chunks s)) <$> sessions (complete_session no_faults 9 5%N db).2 !! 5%N = Some (Completed, 3, 0) /\
  (complete_session no_faults 9 77%N db).1 = Ok tt.
Proof. vm_compute. done. Qed.

(** The artifact is replaced and the session opened again: the session promises
    the old checksum, its chunks count as completed, and it closes at once. *)
Example content_change_keeps_chunks :
  let changed := {| artifacts := {[ 1%N := {| size_bytes := 10; checksum_sha256 := "new" |} ]}; peers := peers swarm_done;
                    sessions := sessions swarm_done; chunks := chunks swarm_done; availability := ∅ |} in
  let db := (init_transfer no_faults 20 6%N swarm_request changed).2 in
  (fun s => (artifact_checksum s, status s, completed_chunks s)) <$> sessions db !! 5%N = Some ("old", Pending, 0) /\
  (complete_session no_faults 21 5%N db).1 = Ok tt.
Proof. vm_compute. done. Qed.

(** A second opening with another chunk size adds the rows it misses: the chunks
    overlap, their lengths exceed the artifact, and the session keeps the first
    sizes. *)
Example other_chunk_size_overlaps :
  let again := {| req_artifact := 1%N; req_peer := 2%N; req_chunk_size := Some 2 |} in
  let db := (init_transfer no_faults 1 6%N again swarm_opened).2 in
  (fun ic => (ic.1, byte_offset ic.2, byte_length ic.2)) <$> get_chunk_manifest 5%N db =
    [(0, 0, 4); (1, 4, 4); (2, 8, 2); (3, 6, 2); (4, 8, 2)] /\
  (fun s => (chunk_size s, total_chunks s)) <$> sessions db !! 5%N = Some (4, 3).
Proof. vm_compute. done. Qed.

(** A failure reported for a completed chunk is accepted: the row is failed while
    the session still counts it, and says it is complete. *)
Example late_failure_still_counted :
  let db := (complete_session no_faults 9 5%N swarm_done).2 in
  let db := (fail_chunk no_faults 5%N 0 "late" db).2 in
  chunk_status <$> chunks db !! (5%N, 0) = Some Failed /\
  (fun s => (completed_chunks s, status s)) <$> sessions db !! 5%N = Some (3, Completed).
Proof. vm_compute. done. Qed.

(** A peer that reports again with another number of chunks keeps the first
    number, and may hold more chunks than there are. *)
Example availability_exceeds_total :
  let db := (update_chunk_availability no_faults 1 2%N 1%N [0xC0] 2 swarm_db).2 in
  let db := (update_chunk_availability no_faults 2 2%N 1%N [0xFF] 8 db).2 in
  (fun kv => (kv.1, of_chunks kv.2, available_chunks kv.2)) <$> get_peers_with_chunks 1%N 3%N db = [(2%N, 2, 8)].
Proof. vm_compute. done. Qed.

(** A chunk size of zero asks for as many rows as a 32-bit integer can count, a
    negative one for none. *)
Example degenerate_chunk_sizes : ceil_div_f64 10 0 = I32_MAX /\ ceil_div_f64 10 (-4) = -2 /\ ceil_div_f64 0 0 = 0.
Proof. vm_compute. done. Qed.
