(* ===== verification/Mesh.v ===== *)
(** Peer selection ([services/peer_service.rs], [pick_best_peer] and
    [resolve_scored_peer] of [services/sync_worker.rs], the connection routes of
    [api/handlers/peer.rs]): the measured links between instances, the score of
    the instances that hold an artifact's chunks, and the endpoint the sync
    worker sends a claimed task to. *)

From stdpp Require Import base list strings gmap.
From Stdlib Require Import ZArith Lia.
From S2P Require Import Prelude RustStr RustNum Errors Chrono Auth F64 SyncWire SyncQueue SyncWorker Transfers.

Local Open Scope string_scope.
Local Open Scope result_scope.
Local Open Scope Z_scope.

(** * Tables *)

Inductive PeerStatus := Active | Probing | Unreachable | Disabled.

#[global] Instance PeerStatus_eq_dec : EqDecision PeerStatus.
Proof. solve_decision. Defined.

Definition peer_status_text (s : PeerStatus) : string :=
  match s with Active => "active" | Probing => "probing" | Unreachable => "unreachable" | Disabled => "disabled" end.

(** A row of [peer_connections], under its source and target; the counts of
    shared content, which only listings read, are left out. *)
Record PeerConnection := {
  link_status : PeerStatus;
  latency_ms : option Z;
  bandwidth_estimate_bps : option Z;
  last_probed_at : option DateTime;
  last_transfer_at : option DateTime;
  link_bytes : Z;
  transfer_success_count : Z;
  transfer_failure_count : Z
}.

(** The columns of [peer_instances] selection reads. *)
Record PeerNode := { node_name : string; endpoint_url : string; api_key : string; node_status : InstanceStatus; node_local : bool }.

Record MeshDb := {
  nodes : gmap Uuid PeerNode;
  links : gmap (Uuid * Uuid) PeerConnection;
  held_chunks : gmap (Uuid * Uuid) ChunkAvailability
}.

Definition set_links (f : gmap (Uuid * Uuid) PeerConnection -> gmap (Uuid * Uuid) PeerConnection) (db : MeshDb) : MeshDb :=
  {| nodes := nodes db; links := f (links db); held_chunks := held_chunks db |}.
Definition set_nodes (f : gmap Uuid PeerNode -> gmap Uuid PeerNode) (db : MeshDb) : MeshDb :=
  {| nodes := f (nodes db); links := links db; held_chunks := held_chunks db |}.

(** The measurements of a link, and its counters. *)
Definition set_measures (st : PeerStatus) (latency bandwidth : option Z) (probed : option DateTime) (c : PeerConnection) : PeerConnection :=
  {| link_status := st; latency_ms := latency; bandwidth_estimate_bps := bandwidth; last_probed_at := probed;
     last_transfer_at := last_transfer_at c; link_bytes := link_bytes c; transfer_success_count := transfer_success_count c;
     transfer_failure_count := transfer_failure_count c |}.
Definition set_counters (at_ : option DateTime) (bytes wins losses : Z) (c : PeerConnection) : PeerConnection :=
  {| link_status := link_status c; latency_ms := latency_ms c; bandwidth_estimate_bps := bandwidth_estimate_bps c;
     last_probed_at := last_probed_at c; last_transfer_at := at_; link_bytes := bytes; transfer_success_count := wins;
     transfer_failure_count := losses |}.

Definition new_link (st : PeerStatus) (latency bandwidth : option Z) (probed : option DateTime) : PeerConnection :=
  {| link_status := st; latency_ms := latency; bandwidth_estimate_bps := bandwidth; last_probed_at := probed;
     last_transfer_at := None; link_bytes := 0; transfer_success_count := 0; transfer_failure_count := 0 |}.

(** * Links *)

Definition is_node (db : MeshDb) (k : Uuid) : bool := bool_decide (is_Some (nodes db !! k)).

(** The statement with [map_peer_connection_error]: the check of the table, its
    foreign keys, other faults. *)
Definition upsert_probe_result (fault : option string) (now : DateTime) (source target : Uuid) (latency : Z) (bandwidth : option Z)
  (db : MeshDb) : result AppError PeerConnection * MeshDb :=
  match fault, links db !! (source, target) with
  | Some e, _ => (Err (Database e), db)
  | None, Some old =>
      let c := set_measures Active (Some latency)
                 (match bandwidth with Some b => Some b | None => bandwidth_estimate_bps old end) (Some now) old in
      (Ok c, set_links <[(source, target) := c]> db)
  | None, None =>
      if bool_decide (source = target) then (Err (Validation "target_peer_id must differ from the source peer id"), db)
      else if negb (is_node db source && is_node db target) then (Err (NotFound "Peer instance not found"), db)
      else
        let c := new_link Active (Some latency) bandwidth (Some now) in
        (Ok c, set_links <[(source, target) := c]> db)
  end.

Definition mark_unreachable (fault : option string) (source target : Uuid) (db : MeshDb) : result AppError unit * MeshDb :=
  match fault with
  | Some e => (Err (Database e), db)
  | None =>
      (Ok tt, set_links (alter (fun c => set_measures Unreachable (latency_ms c) (bandwidth_estimate_bps c) (last_probed_at c) c)
                (source, target)) db)
  end.

Definition record_transfer_success (fault : option string) (now : DateTime) (source target : Uuid) (bytes : Z) (db : MeshDb)
  : result AppError unit * MeshDb :=
  match fault with
  | Some e => (Err (Database e), db)
  | None =>
      (Ok tt, set_links (alter (fun c => set_counters (Some now) (link_bytes c + bytes) (transfer_success_count c + 1)
                (transfer_failure_count c) c) (source, target)) db)
  end.

Definition record_transfer_failure (fault : option string) (source target : Uuid) (db : MeshDb) : result AppError unit * MeshDb :=
  match fault with
  | Some e => (Err (Database e), db)
  | None =>
      (Ok tt, set_links (alter (fun c => set_counters (last_transfer_at c) (link_bytes c) (transfer_success_count c)
                (transfer_failure_count c + 1) c) (source, target)) db)
  end.

(** The transaction of an announcement: both rows, or neither. *)
Definition named (name : string) (kn : Uuid * PeerNode) : bool := String.eqb (node_name kn.2) name.

Definition upsert_node (id : Uuid) (name endpoint key : string) (m : gmap Uuid PeerNode) : option (gmap Uuid PeerNode) :=
  match List.find (named name) (map_to_list m) with
  | Some (k, n) =>
      Some (<[k := {| node_name := name; endpoint_url := endpoint; api_key := key; node_status := node_status n;
                      node_local := node_local n |}]> m)
  | None =>
      match m !! id with
      | Some _ => None
      | None => Some (<[id := {| node_name := name; endpoint_url := endpoint; api_key := key; node_status := Offline;
                                 node_local := false |}]> m)
      end
  end.

Definition handle_peer_announcement (fault : option string) (local id : Uuid) (name endpoint key : string) (db : MeshDb)
  : result AppError unit * MeshDb :=
  match fault, upsert_node id name endpoint key (nodes db) with
  | Some e, _ => (Err (Database e), db)
  | None, None => (Err (Database "duplicate key value violates unique constraint"), db)
  | None, Some m =>
      let after := set_nodes (fun _ => m) db in
      if bool_decide (local = id) then (Err (Database "violates check constraint"), db)
      else if negb (is_node after local && is_node after id) then (Err (Database "violates foreign key constraint"), db)
      else
        (Ok tt, match links db !! (local, id) with
                | Some _ => after
                | None => set_links <[(local, id) := new_link Active None None None]> after
                end)
  end.

(** ** Routes *)

Definition probe_peer (fault : option string) (auth : AuthExtension) (now : DateTime) (peer target : Uuid) (latency : Z)
  (bandwidth : option Z) (db : MeshDb) : result AppError PeerConnection * MeshDb :=
  match require_admin auth with
  | Err e => (Err e, db)
  | Ok _ =>
      if bool_decide (target = peer) then (Err (Validation "target_peer_id must differ from the source peer id"), db)
      else upsert_probe_result fault now peer target latency bandwidth db
  end.

Definition mark_unreachable_route (fault : option string) (auth : AuthExtension) (peer target : Uuid) (db : MeshDb)
  : result AppError unit * MeshDb :=
  match require_admin auth with Err e => (Err e, db) | Ok _ => mark_unreachable fault peer target db end.

(** * Scores *)

Record ScoredPeer := { node_id : Uuid; scored_url : string; scored_chunks : Z; score : F64 }.

(** [(chunks * bandwidth) / latency.max(1.0)]. *)
Definition score_of (chunks : Z) (bandwidth latency : option Z) : F64 :=
  f64_div (f64_mul (f64_of_int chunks) (f64_of_int (default 1000000 bandwidth)))
    (f64_max (f64_of_int (default 500 latency)) (f64_of_int 1)).

Definition reachable (n : PeerNode) : bool := bool_decide (node_status n ∈ [Online; Syncing]).

Definition chunks_held (peer artifact : Uuid) (db : MeshDb) : Z :=
  match held_chunks db !! (peer, artifact) with Some a => available_chunks a | None => 0 end.

(** A row of the query, as a candidate. *)
Definition scored_row (artifact : Uuid) (db : MeshDb) (kc : (Uuid * Uuid) * PeerConnection) : option ScoredPeer :=
  n ← nodes db !! kc.1.2;
  if bool_decide (link_status kc.2 = Active) && reachable n && (0 <? chunks_held kc.1.2 artifact db)
  then Some {| node_id := kc.1.2; scored_url := endpoint_url n; scored_chunks := chunks_held kc.1.2 artifact db;
               score := score_of (chunks_held kc.1.2 artifact db) (bandwidth_estimate_bps kc.2) (latency_ms kc.2) |}
  else None.

(** [ORDER BY latency_ms ASC NULLS LAST]; ties in the order of the map. *)
Definition by_latency (a b : (Uuid * Uuid) * PeerConnection) : comparison :=
  match latency_ms a.2, latency_ms b.2 with
  | Some x, Some y => x ?= y
  | Some _, None => Lt
  | None, Some _ => Gt
  | None, None => Eq
  end.

Definition links_from (source : Uuid) (db : MeshDb) : list ((Uuid * Uuid) * PeerConnection) :=
  sort_by by_latency (List.filter (fun kc => bool_decide (kc.1.1 = source)) (map_to_list (links db))).

Definition get_scored_peers_for_artifact (source artifact : Uuid) (db : MeshDb) : list ScoredPeer :=
  omap (scored_row artifact db) (links_from source db).

(** [Iterator::max_by]: the last of the greatest; an incomparable pair counts as
    equal. *)
Definition better (a b : ScoredPeer) : ScoredPeer :=
  match default Eq (f64_partial_cmp (score a) (score b)) with Gt => a | _ => b end.

Definition pick_best_peer (scored : list ScoredPeer) : option ScoredPeer :=
  match scored with [] => None | x :: rest => Some (foldl better x rest) end.

(** * The endpoint of a task *)

(** [get_local_peer_id]; a fault counts as none. *)
Definition get_local_peer_id (fault : bool) (db : MeshDb) : option Uuid :=
  if fault then None else fst <$> List.find (fun kn => node_local kn.2) (map_to_list (nodes db)).

(** The faults of the two lookups; the second reads [None] when it fails. *)
Definition resolve_scored_peer (scores_fail key_fails : bool) (local : option Uuid) (artifact : Uuid) (db : MeshDb)
  : option (string * string) :=
  local_id ← local;
  if scores_fail then None
  else
    best ← pick_best_peer (get_scored_peers_for_artifact local_id artifact db);
    n ← (if key_fails then None else nodes db !! node_id best);
    Some (scored_url best, api_key n).

(** Where [process_pending_tasks] sends a claimed task: endpoint and key. *)
Definition destination (scores_fail key_fails : bool) (local : option Uuid) (own : PeerNode) (c : ClaimedTask) (db : MeshDb)
  : string * string :=
  default (endpoint_url own, api_key own)
    (resolve_scored_peer scores_fail key_fails local (task_artifact (claimed_row c)) db).

(** The transfer it spawns, against the instances behind the endpoints. *)
Definition send_task (env : Env) (network : string * string -> Exchange) (scores_fail key_fails : bool) (local : option Uuid)
  (own : PeerNode) (c : ClaimedTask) (db : MeshDb) : Outcome :=
  (execute_transfer env (network (destination scores_fail key_fails local own c db)) c).1.
