(* ===== verification/MeshFacts.v ===== *)
(** What peer selection does ([Mesh]): the instance it picks has the greatest
    score among the reachable holders of the artifact's chunks, and the sync
    worker sends a task there instead of to the task's own peer. *)

From stdpp Require Import base list strings gmap.
From Stdlib Require Import ZArith Lia.
From S2P Require Import Prelude RustStr RustNum Errors Chrono Auth F64 SyncWire SyncQueue SyncWorker SyncFacts Transfers Mesh.

Local Open Scope string_scope.
Local Open Scope result_scope.
Local Open Scope Z_scope.

(** * Scores *)

Lemma score_finite chunks bandwidth latency : is_finite (score_of chunks bandwidth latency).
Proof.
  unfold score_of. apply f64_div_finite.
  - apply f64_mul_finite; apply f64_of_int_finite.
  - apply f64_max_finite; apply f64_of_int_finite.
  - assert (f64_le (Finite 1 0) (f64_of_int 1)) as H1 by (right; vm_compute; reflexivity).
    refine (f64_le_trans _ _ _ _ _ _ H1 (f64_max_above _ _ _ _)); try done; try apply f64_of_int_finite.
    apply f64_max_finite; apply f64_of_int_finite.
Qed.

Lemma better_above a b : is_finite (score a) -> is_finite (score b) ->
  f64_le (score a) (score (better a b)) /\ f64_le (score b) (score (better a b)) /\ (better a b = a \/ better a b = b).
Proof.
  intros Ha Hb. unfold better.
  assert (forall x, is_finite x -> f64_le x x) as Hrefl by (intros x Hx; by destruct (f64_le_total x x Hx Hx)).
  destruct (f64_partial_cmp (score a) (score b)) as [[]|] eqn:E; cbn; split_and!; auto.
  - by right.
  - by left.
  - destruct (f64_le_total (score a) (score b) Ha Hb) as [[H|H]|H]; congruence.
  - destruct (score a), (score b); done.
Qed.

(** The choice is one of the candidates, and none is above it. *)
Lemma best_of l x : Forall (fun s => is_finite (score s)) (x :: l) ->
  let b := foldl better x l in b ∈ x :: l /\ forall s, s ∈ x :: l -> f64_le (score s) (score b).
Proof.
  revert x. induction l as [|y l IH]; intros x Hf; cbn.
  - apply Forall_inv in Hf. split; [left|]. intros s ->%list_elem_of_singleton.
    by destruct (f64_le_total (score x) (score x) Hf Hf).
  - apply Forall_cons in Hf as [Hx Hf]. pose proof Hf as [Hy Hl]%Forall_cons.
    destruct (better_above x y Hx Hy) as (H1 & H2 & Hor).
    assert (is_finite (score (better x y))) as Hb by (destruct Hor as [-> | ->]; done).
    destruct (IH (better x y)) as [Hin Hmax]; [by constructor|].
    assert (is_finite (score (foldl better (better x y) l))) as Hz.
    { apply elem_of_cons in Hin as [->|Hin]; [done|]. by eapply Forall_forall in Hl. }
    split.
    + apply elem_of_cons in Hin as [->|Hin]; [destruct Hor as [-> | ->]; [left|by right; left]|by do 2 right].
    + intros s Hs. specialize (Hmax (better x y) ltac:(left)) as Hbz.
      apply elem_of_cons in Hs as [->|Hs]; [by eapply f64_le_trans; [..|exact H1|exact Hbz]|].
      apply elem_of_cons in Hs as [->|Hs]; [by eapply f64_le_trans; [..|exact H2|exact Hbz]|].
      apply Hmax. by right.
Qed.

(** * Candidates *)

(** [p] can serve [artifact] to [source], with this score. *)
Definition holder (source artifact : Uuid) (db : MeshDb) (p : Uuid) (n : PeerNode) (s : F64) : Prop :=
  nodes db !! p = Some n /\ node_status n ∈ [Online; Syncing] /\ 0 < chunks_held p artifact db /\
  exists l, links db !! (source, p) = Some l /\ link_status l = Active /\
    s = score_of (chunks_held p artifact db) (bandwidth_estimate_bps l) (latency_ms l).

Lemma elem_of_scored source artifact db x : x ∈ get_scored_peers_for_artifact source artifact db <->
  exists n, holder source artifact db (node_id x) n (score x) /\ scored_url x = endpoint_url n /\
    scored_chunks x = chunks_held (node_id x) artifact db.
Proof.
  unfold get_scored_peers_for_artifact, links_from. rewrite list_elem_of_omap. split.
  - intros ([[s p] l] & Hin & Hrow). rewrite sort_by_perm, list_elem_of_In, filter_In, <- list_elem_of_In, elem_of_map_to_list in Hin.
    destruct Hin as [Hl Hs%bool_decide_eq_true]. unfold scored_row in Hrow. cbn in *. subst s.
    destruct (nodes db !! p) as [n|] eqn:En; [|done]. cbn in Hrow. destruct (_ && _) eqn:Hc; [|done]. injection Hrow as <-. cbn.
    apply andb_prop in Hc as [[Ha%bool_decide_eq_true Hr%bool_decide_eq_true]%andb_prop Hp%Z.ltb_lt].
    exists n. split; [|done]. unfold holder. eauto 8.
  - intros (n & (Hn & Hr & Hp & l & Hl & Ha & Hs) & Hu & Hc). exists ((source, node_id x), l). split.
    + rewrite sort_by_perm, list_elem_of_In, filter_In, <- list_elem_of_In, elem_of_map_to_list. by rewrite bool_decide_true.
    + unfold scored_row. cbn. rewrite Hn. cbn. rewrite bool_decide_true by done. unfold reachable. rewrite bool_decide_true by done.
      rewrite (proj2 (Z.ltb_lt _ _) Hp). cbn. destruct x; cbn in *. by subst.
Qed.

Lemma scored_finite source artifact db : Forall (fun s => is_finite (score s)) (get_scored_peers_for_artifact source artifact db).
Proof.
  apply Forall_forall. intros x (n & (_ & _ & _ & l & _ & _ & ->) & _)%elem_of_scored. apply score_finite.
Qed.

(** C23. A task goes to the best-scored holder of its artifact, not to its peer.
    When the local instance has an active link to a reachable instance that
    holds chunks of the artifact, the worker sends a claimed task - a push as
    well as a delete - to the holder with the greatest score, whatever peer the
    task is for: the outcome, and so what the queue records for the task's peer,
    is a function of that holder's answers alone.  Only without such a holder,
    without a local instance or after a failed lookup does the task go to the
    peer it is for. *)
Theorem task_goes_to_best_holder env local own c db :
  let artifact := task_artifact (claimed_row c) in
  (forall p n s, holder local artifact db p n s ->
     exists q m best, holder local artifact db q m best /\
       (forall p' n' s', holder local artifact db p' n' s' -> f64_le s' best) /\
       (forall own', destination false false (Some local) own' c db = (endpoint_url m, api_key m)) /\
       (forall own' network network' policy now queue, network (endpoint_url m, api_key m) = network' (endpoint_url m, api_key m) ->
          settle now policy c (send_task env network false false (Some local) own c db) queue =
          settle now policy c (send_task env network' false false (Some local) own' c db) queue)) /\
  ((forall p n s, ~ holder local artifact db p n s) ->
     forall f f', destination f f' (Some local) own c db = (endpoint_url own, api_key own)) /\
  (forall f f' network, destination f f' None own c db = (endpoint_url own, api_key own) /\
     destination true f' (Some local) own c db = (endpoint_url own, api_key own) /\
     send_task env network f true (Some local) own c db = (execute_transfer env (network (endpoint_url own, api_key own)) c).1).
Proof.
  intros artifact. split_and!.
  - intros p n s Hh. unfold send_task, destination, resolve_scored_peer. fold artifact. cbn.
    pose proof (scored_finite local artifact db) as Hfin. pose proof (elem_of_scored local artifact db) as Hel.
    destruct (get_scored_peers_for_artifact local artifact db) as [|x rest].
    { pose proof (proj2 (Hel {| node_id := p; scored_url := endpoint_url n; scored_chunks := chunks_held p artifact db; score := s |})
        (ex_intro _ n (conj Hh (conj eq_refl eq_refl)))) as Hin. by apply not_elem_of_nil in Hin. }
    destruct (best_of rest x Hfin) as [Hin Hmax]. cbn. set (b := foldl better x rest) in *.
    apply Hel in Hin as (m & Hm & Hu & _). exists (node_id b), m, (score b). split; [done|]. split.
    { intros p' n' s' Hh'. apply (Hmax {| node_id := p'; scored_url := endpoint_url n'; scored_chunks := chunks_held p' artifact db; score := s' |}).
      apply Hel. by exists n'. }
    destruct Hm as [Hn _]. rewrite Hn. cbn. rewrite Hu. split; [done|]. by intros own' network network' policy now queue ->.
  - intros Hnone f f'. unfold destination, resolve_scored_peer. fold artifact. cbn. destruct f; [done|].
    pose proof (elem_of_scored local artifact db) as Hel.
    destruct (get_scored_peers_for_artifact local artifact db) as [|x rest]; [done|].
    destruct (proj1 (Hel x) ltac:(left)) as (n & Hh & _). by destruct (Hnone _ _ _ Hh).
  - intros f f' network. split_and!; [done|done|]. unfold send_task, destination, resolve_scored_peer. cbn.
    destruct f; [done|]. by destruct (pick_best_peer _).
Qed.

(** * Witnesses *)

Definition own_peer : PeerNode :=
  {| node_name := "a"; endpoint_url := "https://a"; api_key := "ka"; node_status := Online; node_local := false |}.
Definition holding_peer : PeerNode :=
  {| node_name := "b"; endpoint_url := "https://b"; api_key := "kb"; node_status := Online; node_local := false |}.

(** The local instance 9 pushes artifact 7 to peer 1; peer 2 has it already, and
    said so. *)
Definition sample_mesh : MeshDb :=
  {| nodes := {[ 9%N := {| node_name := "local"; endpoint_url := "https://l"; api_key := "kl"; node_status := Online; node_local := true |};
                 1%N := own_peer; 2%N := holding_peer ]};
     links := {[ (9%N, 1%N) := new_link Active (Some 1) None None; (9%N, 2%N) := new_link Active (Some 20) None None ]};
     held_chunks := {[ (2%N, 7%N) := {| chunk_bitmap := [0xF0]; of_chunks := 4; available_chunks := 4; updated_at := 0 |} ]} |}.

(** Peer 1 cannot be reached; peer 2 accepts. *)
Definition sample_network (at_ : string * string) : Exchange :=
  let answer ok := if String.eqb at_.1 "https://b" then Response ok None else Transport "no route" in
  {| status_display := status_display sample_exchange; count_in := None; image_storage := None; image_db := no_images;
     blob_fault := fun _ => None; child_fault := fun _ => None; type_fault := fun _ => None;
     item_bytes := fun _ => Ok 0; item_reply := fun _ => answer 200; stored_bytes := Ok 3; put_reply := answer 200;
     delete_reply := answer 204; init_reply := answer 200; init_session := Ok (Some 4%N);
     chunk_read := fun _ => None; chunk_reply := fun _ => answer 200; complete_reply := answer 200 |}.

(** The push for the unreachable peer 1 is completed, and counted as replicated
    to it. *)
Lemma task_goes_to_best_holder_witness : exists c, (sample_claim 1 4 100 sample_db).1 = [c] /\ task_peer (claimed_row c) = 1%N /\
  (forall own, destination false false (Some 9%N) own c sample_mesh = ("https://b", "kb")) /\
  let db := settle 5 sample_policy c (send_task (fun _ => None) sample_network false false (get_local_peer_id false sample_mesh)
              own_peer c sample_mesh) (start_transfer c (sample_claim 1 4 100 sample_db).2) in
  task_status <$> tasks db !! claimed_id c = Some SyncQueue.Completed /\
  last_replicated_at <$> subscriptions db !! (1%N, 3%N) = Some (Some 5).
Proof.
  assert (exists c, (sample_claim 1 4 100 sample_db).1 = [c]) as [c E] by (vm_compute; eauto).
  exists c. split; [exact E|]. vm_compute in E. injection E as <-. split; [reflexivity|]. split; [|vm_compute; split; reflexivity].
  assert (holder 9%N 7%N sample_mesh 2%N holding_peer (score_of 4 None (Some 20))) as Hh.
  { unfold holder. split; [reflexivity|]. split; [left|]. split; [reflexivity|]. eexists. split; [reflexivity|]. split; reflexivity. }
  match goal with |- forall own, destination _ _ _ own ?c _ = _ =>
    destruct (task_goes_to_best_holder (fun _ => None) 9%N own_peer c sample_mesh) as [Hbest _] end.
  destruct (Hbest 2%N holding_peer _ Hh) as (q & m & best & (Hq & _ & Hpos & _) & _ & Hd & _).
  intros own. rewrite Hd. revert Hq Hpos. unfold chunks_held. cbn -[lookup].
  destruct (decide (q = 2%N)) as [->|Hne]; [by intros [= <-]|]. intros _.
  rewrite lookup_singleton_ne by congruence. done.
Defined.
